(* ===== verification/_CoqProject ===== *)
-Q . S2P
Prelude.v
CircuitBreaker.v
BreakerRegistry.v
Routing.v
RouteStore.v
RouteService.v
Predict.v
Concur.v
Site.v
PipelineGraph.v
PipelineRun.v
PipelineSteps.v
PipelineDag.v
PipelineSaga.v
PipelineService.v
Money.v
Ledger.v
Billing.v
BillingUsage.v
Metering.v
Outbox.v
GoText.v
RegistryStore.v
Registry.v
RegistryTables.v
RegistrySafety.v
RegistryLifecycle.v
RegistryVersions.v
FeatureModel.v
FeatureLog.v
FeatureTables.v
FeatureStore.v
FeatureSafety.v
FeatureOnline.v
FeatureDemo.v
GoFormat.v
Subscriber.v
AuditLog.v
AuditSafety.v
AuditCapture.v
AuthModel.v
Auth.v
AuthSafety.v
AuthTokens.v
AuthDemo.v
GoNet.v
ServingModel.v
ServingCache.v
Serving.v
ServingSafety.v
ServingDemo.v
Keyset.v
NotifModel.v
NotifTargets.v
NotifStore.v
Notif.v
NotifTables.v
NotifSafety.v
NotifDemo.v
TrackModel.v
TrackStore.v
Track.v
TrackTables.v
TrackSafety.v
TrackRuns.v
GoFloat.v
MonModel.v
MonStore.v
Monitor.v
MonTables.v
MonSafety.v
MonLoop.v
MonDemo.v
GateModel.v
GateProviders.v
GateStore.v
Gateway.v
GateSafety.v
GateRuns.v
