(* ===== verification/Prelude.v ===== *)
(** * Forgepoint: a verification development

    Forgepoint is an ML platform of Go services that talk over gRPC and NATS
    JetStream: a client's prediction enters the inference gateway, training and
    deployment pipelines run in the pipeline orchestrator, models and their
    versions live in the registry, and billing turns the events of the others into
    usage, quotas and invoices. Every service is hexagonal: a [domain] package with
    the logic, ports it calls, and adapters (PostgreSQL, Redis, NATS, gRPC handlers)
    around it. This library models domain packages and the adapters whose behaviour
    they depend on, as functions and step relations that follow the code line by
    line, and proves what makes them correct.

    ** How the code is modelled

    - [int], [int64] and [uint64] are [Z], with [wrap64] or [wrapu64] at every
      operation that can leave the range (weights, sizes, prices, counters).
    - [time.Time] is nanoseconds since Go's zero time, [time.Duration] nanoseconds.
    - Errors are the chain [errors.Is] walks: [Sentinel], [External], [Wrap]; the
      formatted arguments of a message are not kept. Fallible code returns [result].
    - Maps are [gmap], and where the enumeration order of a Go map can show, the
      order is an argument. Strings are byte strings in Go's byte order.
    - An operation that holds a mutex for its whole body is one function on the
      state. Where goroutines interleave, a goroutine is a [Concur.prog]: a tree of
      atomic sections (a body under a mutex, or one call to the outside), and
      [Concur.par] runs several in any order; its rely-guarantee rules carry what a
      thread ensures alone to every interleaving.
    - Programs that are not in the repository (Redis, PostgreSQL, NATS, the model
      server, step executors, JSON, clock, random source, ids) are classes or
      arguments. They may answer anything, errors included, except where a law of
      documented behaviour is named ([RedisHashLaws], [EnvTime], [Json]). SQL
      statements of the repository are part of the source: the tables are records
      and every statement or transaction one definition.

    ** The files

    [Prelude]: integers, errors, results, time, the byte order of strings, Go's
    [slices.Sort] and [sort.Search], and the tactics and hints all files share.

    Inference gateway ([services/inference-gateway/internal]):
    - [CircuitBreaker]: [domain/circuit_breaker.go]. Every operation, the clock as
      an argument. [breaker_refines_spec] relates any history to a machine without
      stale counters; [breaker_trips_exactly], [breaker_open_fails_fast] and
      [probes_bounded] are the three promises of a breaker.
    - [BreakerRegistry]: [domain/breaker_registry.go], a breaker per (model, version).
    - [Routing]: [domain/models.go] and [traffic_splitter.go].
      [splitter_exact_share] counts the draws that select each target.
    - [RouteStore]: the port of [domain/ports.go] as the classes [RouteStorePort]
      and [RouteStoreLaws], implemented by [repository/redis/route_store.go] (a table
      mirrored to a Redis hash): warm start, keyset pages.
    - [RouteService]: the admin operations and event reactions of
      [domain/inference_service_impl.go], proved against the port. [table_well_formed]
      is the invariant of the table under any history of operations.
    - [Predict]: the hot path of the same file over store, limiter, quota cache,
      breakers, model server and bus: all its gates, its one event per call, and
      what a sick backend does to its breaker.

    Pipeline orchestrator ([services/pipeline-orchestrator/internal/domain]):
    - [PipelineGraph]: [models.go], [validateGraph], [topoLevels] (Kahn by levels).
    - [PipelineRun]: the engine of [pipeline_service_impl.go]: [runOneStep],
      [runStepsSaga], [runStepsDAG] with goroutines per level, [settle].
      [PipelineSteps] proves what a step does whatever runs beside it, [PipelineDag]
      (with a concrete instance) and [PipelineSaga] the two disciplines.
    - [PipelineService]: create, update, delete, trigger, cancel, the reads and the
      settlement, over the repository contract [PipelineStore].

    Billing ([services/billing/internal]):
    - [Money]: micro-unit arithmetic of [domain/models.go].
    - [Ledger]: the data and the tables of [repository/postgres] with their unique
      constraints. A [site] is the tables and the outside; its [Outside] link lets a
      statement fail, or commit with its acknowledgement lost.
    - [Billing]: [domain/billing_service_impl.go] as programs of store calls, clock
      readings and ids. [BillingUsage] proves metering and invoices.
    - [Metering]: the event consumers [events/subscriber.go] and [ai_consumer.go].
    - [Outbox]: the relay [events/relay.go] and [outbox_reader.go] that drains the
      outbox table onto the bus, with any number of relays and writers.

    Model registry ([services/registry/internal]):
    - [RegistryStore]: [domain/models.go] and the PostgreSQL write store
      [repository/postgres/write_store.go], tables with unique and partial indexes.
    - [Registry]: the commands of [domain/registry_service_impl.go] as programs.
    - [RegistryTables], [RegistrySafety]: what every transaction and every interleaving
      of commands keeps ([registry_stays_consistent], [registry_tenant_isolation]).
    - [RegistryLifecycle]: the stage machine as a specification that each command alone
      refines, its invariants, and how interleaved commands break them
      ([archived_model_serves]). [RegistryVersions]: labels and replays.
    - [GoText]: [strings.TrimSpace] and the decimals of [strconv].

    Feature store ([services/feature-store/internal]):
    - [FeatureModel]: [domain/models.go] with its folds over the event log, and the
      checks of definitions and rows.
    - [FeatureLog]: the PostgreSQL event log and its codec, the Redis online view
      command by command, the offline rebuild ([repository]).
    - [FeatureStore]: the nine operations of [domain/featurestore_service_impl.go].
    - [FeatureTables], [FeatureSafety]: what every transaction and every interleaving
      keeps: a typed, gap-free, append-only log and an online view that tells its
      facts. The theorems ask that the final log is [plausible]: ids of views are drawn
      once (UUIDs) and fewer than 2^63 events.
    - [FeatureOnline], [FeatureDemo]: the online view against the log, and the runs in
      which they part.

    Authentication and audit ([services/auth/internal], [pkg/audit], [pkg/auth], [pkg/grpcutil]):
    - [GoFormat]: UTF-8, [strconv.Quote], hexadecimal, RFC 3339 times, and an
      executable SHA-256, for the texts that are hashed.
    - [AuditLog], [AuditSafety]: the canonical record, the hash-chained table
      and its consumer; [AuditCapture]: the interceptors that record every call.
    - [AuthModel], [Auth]: permissions and tokens, the tables statement by
      statement, the operations, the first administrator and the calls of the handler.
      JWT, bcrypt and the Unicode tables are the class [Crypto] with [CryptoLaws].
    - [AuthSafety], [AuthTokens], [AuthDemo]: what any calls may change, what each answers,
      and a signer and tables that meet the hypotheses.

    Model serving ([services/model-serving/internal]), a pod that serves one model:
    - [ServingModel], [ServingCache]: [domain/models.go], the allow-list of [ports.go],
      [cache.go] with its fingerprint and [metrics.go]. [Serving]: the operations of
      [serving_service_impl.go] and the event reactions of [events/subscriber.go].
    - [ServingSafety], [ServingDemo]: the flights of concurrent loads, what READY is worth,
      and a pod with an engine on which the theorems run.

    Notifications ([services/notification/internal]):
    - [NotifModel], [NotifTargets]: [domain/models.go], the classification of events, mute
      patterns and the routing decision; the guard on webhook targets.
    - [NotifStore], [Notif]: the statements of [repository/postgres], the Redis keys, the
      operations of [notification_service_impl.go], the reactor of [events/subscriber.go]
      and the calls of the handler with their status codes.
    - [NotifTables], [NotifSafety], [NotifDemo]: what any interleaving of
      users, events and an executor keeps, whose rows change, and the pages of an inbox.

    Experiment tracker ([services/experiment-tracker/internal]):
    - [TrackModel]: [domain/models.go]: batches, series and final metrics.
    - [TrackStore], [Track]: the statements of [repository/postgres], the operations of
      [experiment_service_impl.go] and the calls of [handler/experiment_handler_rpcs.go].
    - [TrackTables], [TrackSafety], [TrackRuns]: what any interleaving of teams
      keeps, what one call does exactly, and a service on which the theorems run.

    Model monitor ([services/model-monitor/internal]):
    - [GoFloat]: [float64] as the standard's [spec_float], with Go's comparisons,
      [math.Abs] and [sort.SearchFloat64s]; no operation is fused.
    - [MonModel]: [domain/models.go], [window.go], [drift.go], [policy.go] and [eval.go].
    - [MonStore]: the statements of [repository/postgres], the Redis keys of a window with
      their expiry, and the gate and ground truth of [cmd/server/main.go].
    - [Monitor]: the operations of both services, the reactions of [events] and the calls
      of [handler/monitor_handler_rpcs.go].
    - [MonTables], [MonSafety], [MonLoop], [MonDemo]: bins, policy and window
      shapes; what any interleaving keeps; what a report scores, when its event is published,
      what a torn window does; and a service on which the theorems run.

    AI gateway ([services/ai-gateway/internal]):
    - [GateModel]: the data, prices, allow-list, candidates and cosine similarity of [domain].
    - [GateProviders]: the adapters of [providers]: requests, the lines of a body as frames,
      retries of a cold start.
    - [GateStore]: the Lua budget, the usage counters and the semantic cache in Redis, and
      the breakers of the process ([CircuitBreaker] with defaults of their own).
    - [Gateway]: [domain/gateway_service.go] and [handler/rpcs.go] as programs that note what
      they heard and sent. [GateSafety]: what holds under any interleaving. [GateRuns]:
      what one call does exactly, and a gateway on which the theorems run.

    Shared by all: [Subscriber], the JetStream consumer of [pkg/natsutil] with its
    de-duplication, retries and dead letters ([no_event_lost], [store_outage_loses_event]).

    Shared by the services with a database: [Site], requests over tables and an outside
    that may fail, with the judgements [safe] (among other requests) and [alone];
    [Keyset], pages behind a cursor. [GoText] and [GoNet] hold the parts of the Go
    packages [strings] and [net] that the checks of URIs and addresses rest on.

    ** What the theorems show

    - Routing: an answered prediction was served by an active target of the caller's
      own route, after every gate (authentication, quota, rate, breaker); every call
      publishes exactly one event; tenants cannot see or change each other's routes;
      the endpoint of a target always comes from a deploy event.
    - Pipelines: dependencies are respected in every interleaving, a failed saga
      compensates exactly what it completed, in reverse order, and every run ends.
    - Billing: however requests, retries, redeliveries and lost acknowledgements
      interleave, a use is one row at the server's price with its events; no
      committed event is lost; an invoice is its period's rows, summed exactly.
    - Registry: at most one PRODUCTION version per model in every interleaving; served one
      after the other, only READY versions serve and stages move along the machine.
    - Feature store: every stored and served value has a type that its view declared;
      historical reads are exact for an instant; the incremental online view is the
      rebuild, except after the replays and races that are proved to break it.
    - Audit and authentication: the audit table is one hash chain under every failure and
      replay, and tampering shows or breaks SHA-256; each security-relevant call leaves one
      record; only administrators change accounts; a token or key is accepted exactly as
      long as it lives, and only if it was issued.
    - Experiments: what was logged stays as it was logged, a finished run shows the latest
      point of every metric, and teams meet only through idempotency keys.
    - Monitoring: one report per window and reports of a team's own monitors; a window that
      ends is settled exactly once; and what the code does against its promises: a report
      scores one sample, a lost event stays lost, a torn window wedges its monitor.
    - AI gateway: a client hears one provider or one cached answer of its own team, and an
      answer that is said to be complete is complete as its adapter sent it; what a full
      answer costs exactly; and that a lost probe shuts a provider out, that a cut answer
      passes for a whole one, and that an answer from the cache is billed again.
    - Where the code does not keep what its comments promise, the theorem states what
      it does ([free_allowance_never_depletes], [poison_batch_starves],
      [RoundToCents_wraps], [straggler_exceeds_probe_limit], [validateTensor_wraps],
      [canary_deploy_exceeds_total],
      [archived_model_serves], [create_replay_ignores_team], [promotion_event_lost],
      [replay_regresses_online], [concurrent_retry_duplicates],
      [redefinition_never_revives], [retired_view_is_served], [key_of_another_command],
      [audit_rows_rebuild], [bootstrap_keeps_existing],
      [second_model_stops_serving], [events_always_acknowledged],
      [reasons_never_shown], [replayed_key_crosses_teams],
      [compare_reads_first_page], [reports_score_one_sample], [torn_window_wedges],
      [stored_report_never_published_again], [lost_probe_wedges_provider],
      [cut_answer_passes_for_whole], [cached_answer_is_billed],
      [misspelt_providers_allow_all]).

    ** Fuel and bounds

    Loops over slices are structural. Fuel appears where a loop is not: [peel] takes
    the number of steps (a level removes at least one, [topoLevels_correct] covers
    every graph), [sort_Search_loop] the length of the range, [follow] (a client of
    the pages) the number of routes, [awaitTerminal] the [await_rounds] that its
    deadline and polling interval allow, [drain] any number of batches
    ([healthy_tick_drains] shows how many a healthy table takes),
      [insert_version] the attempts of the label loop ([auto_label_first_free]),
      [drain_history] the page limit of the code ([finish_run_exact]). Retries and
    steps are bounded by the clamps of the code, which are modelled.

    ** What is not modelled

    Process wiring ([cmd/server]), the gRPC handlers of the gateway, the orchestrator,
    billing, the registry and the feature store, protobuf mapping, telemetry, row
    scanning, the prompt registry of the AI gateway, the web backend and the command
    line client. Logging has no effect on the model. Cancellation of a
    context is an answer of the environment, so deadlines are not tied to the clock.
    Floating-point statistics round as IEEE 754 says; the logarithm is an argument. The
    rows of the billing ledger keep times at full precision, where PostgreSQL keeps
    microseconds; a saga's clock is strictly increasing ([EnvTime]), and a JWT has the one
    encoding that the signer gives it ([CryptoLaws]).

    Next in the plan: the prompt registry of the AI gateway and the RPC handlers that are left. *)

From Stdlib Require Export ZArith Lia Ascii.
From stdpp Require Export base gmap strings list fin_maps sorting numbers.

Declare Scope fp_scope.
Delimit Scope fp_scope with fp.
Open Scope Z_scope.

(** ** Machine integers *)

Definition int64_min : Z := - 2 ^ 63.
Definition int64_max : Z := 2 ^ 63 - 1.

Definition in_int64 (z : Z) : Prop := int64_min <= z <= int64_max.

(** Two's complement wrap-around of a 64-bit signed result (Go's [int], [int64]). *)
Definition wrap64 (z : Z) : Z := (z + 2 ^ 63) mod 2 ^ 64 - 2 ^ 63.

(** Wrap-around of a 64-bit unsigned result (Go's [uint64]). *)
Definition wrapu64 (z : Z) : Z := z mod 2 ^ 64.

#[export] Instance in_int64_dec z : Decision (in_int64 z).
Proof. unfold in_int64. apply _. Defined.

(** [zmod] decides linear goals over [/] and [mod] by constants. *)
Ltac zmod := unfold in_int64, int64_min, int64_max, wrap64, wrapu64 in *;
  Z.div_mod_to_equations; lia.

Lemma wrap64_id z : in_int64 z -> wrap64 z = z.
Proof. intros H. unfold wrap64. rewrite Z.mod_small; unfold in_int64, int64_min, int64_max in H; lia. Qed.

Lemma wrap64_range z : in_int64 (wrap64 z).
Proof.
  unfold wrap64, in_int64, int64_min, int64_max.
  pose proof (Z.mod_pos_bound (z + 2 ^ 63) (2 ^ 64)). lia.
Qed.

(** Wrapping is arithmetic modulo [2 ^ 64]: a result outside the range is off by a multiple. *)
Lemma wrap64_congr z : exists k, wrap64 z = z + k * 2 ^ 64.
Proof.
  exists (- ((z + 2 ^ 63) / 2 ^ 64)). unfold wrap64.
  pose proof (Z.div_mod (z + 2 ^ 63) (2 ^ 64)). lia.
Qed.

(** ** Errors

    A Go error is the chain that [errors.Is] walks: a package sentinel, an
    error of code outside the package (a driver, a transport), or a
    [fmt.Errorf] that wraps another error with [%w] under a constant text.
    Formatted arguments of the text are not kept. *)

Inductive error (S : Type) : Type :=
| Sentinel (s : S)
| External (what : string)
| Wrap (text : string) (e : error S).
Arguments Sentinel {S} s.
Arguments External {S} what.
Arguments Wrap {S} text e.

#[export] Instance error_eq_dec {S} `{EqDecision S} : EqDecision (error S).
Proof. solve_decision. Defined.

(** A sentinel may itself wrap another one ([ErrCycleDetected] wraps [ErrValidation]). *)
Class Sentinels (S : Type) : Type := {
  sentinels_dec :: EqDecision S;
  sentinel_wraps : S -> option S;
}.

Fixpoint errors_is {S} `{Sentinels S} (e : error S) (s : S) : bool :=
  match e with
  | Sentinel s' => bool_decide (s' = s) || bool_decide (sentinel_wraps s' = Some s)
  | External _ => false
  | Wrap _ e' => errors_is e' s
  end.

(** ** Results *)

Inductive result (A E : Type) : Type :=
| Ok (a : A)
| Err (e : E).
Arguments Ok {A E} a.
Arguments Err {A E} e.

#[export] Instance result_eq_dec {A E} `{EqDecision A, EqDecision E} : EqDecision (result A E).
Proof. solve_decision. Defined.

Definition rbind {A B E} (r : result A E) (f : A -> result B E) : result B E :=
  match r with Ok a => f a | Err e => Err e end.

Notation "'let!' x ':=' r 'in' k" := (rbind r (fun x => k))
  (at level 10, x pattern, r at level 100, k at level 200) : fp_scope.

Definition is_ok {A E} (r : result A E) : bool :=
  match r with Ok _ => true | Err _ => false end.

Lemma rbind_ok {A B E} (r : result A E) (f : A -> result B E) b :
  rbind r f = Ok b <-> exists a, r = Ok a /\ f a = Ok b.
Proof. destruct r; simpl; split; [eauto | by intros (? & [= ->] & ?) | done | by intros (? & ? & ?)]. Qed.

Lemma rbind_err {A B E} (r : result A E) (f : A -> result B E) e :
  rbind r f = Err e <-> r = Err e \/ exists a, r = Ok a /\ f a = Err e.
Proof.
  destruct r; simpl; split; [eauto | by intros [? | (? & [= ->] & ?)] | by intros [= ->]; left |].
  by intros [[= ->] | (? & ? & ?)].
Qed.

(** ** Automation *)

(** Case analysis on the scrutinee of the first [match] found in the goal or a hypothesis. *)
Ltac split_match :=
  match goal with
  | |- context [match ?x with _ => _ end] => let E := fresh "E" in destruct x eqn:E
  | H : context [match ?x with _ => _ end] |- _ => let E := fresh "E" in destruct x eqn:E
  end.

(** Turn boolean tests on integers and strings into propositions. *)
Ltac bool_to_prop :=
  repeat match goal with
  | H : (_ <? _) = true |- _ => apply Z.ltb_lt in H
  | H : (_ <? _) = false |- _ => apply Z.ltb_ge in H
  | H : (_ <=? _) = true |- _ => apply Z.leb_le in H
  | H : (_ <=? _) = false |- _ => apply Z.leb_gt in H
  | H : (_ =? _) = true |- _ => apply Z.eqb_eq in H
  | H : (_ =? _) = false |- _ => apply Z.eqb_neq in H
  | H : (_ && _)%bool = true |- _ => apply andb_true_iff in H; destruct H
  | H : (_ || _)%bool = false |- _ => apply orb_false_iff in H; destruct H
  | H : negb _ = true |- _ => apply negb_true_iff in H
  | H : negb _ = false |- _ => apply negb_false_iff in H
  | H : bool_decide _ = true |- _ => apply bool_decide_eq_true in H
  | H : bool_decide _ = false |- _ => apply bool_decide_eq_false in H
  | H : String.eqb _ _ = true |- _ => apply String.eqb_eq in H
  | H : String.eqb _ _ = false |- _ => apply String.eqb_neq in H
  end.

Create HintDb fp discriminated.
#[export] Hint Resolve wrap64_range : fp.

(** ** Time

    [time.Time] is a number of nanoseconds since Go's zero time, so that the
    zero value is [0]; [time.Duration] is a number of nanoseconds. *)

Abbreviation time := Z (only parsing).
Abbreviation duration := Z (only parsing).

Definition Second : duration := 1000000000.
Definition Minute : duration := 60 * Second.
Definition Hour : duration := 60 * Minute.

Definition time_is_zero (t : time) : bool := t =? 0.
Definition time_before (t u : time) : bool := t <? u.
Definition time_after (t u : time) : bool := u <? t.

(** [Time.Sub]: the difference, saturating at the ends of [int64]. *)
Definition time_sub (t u : time) : duration := Z.max int64_min (Z.min int64_max (t - u)).

(** ** Strings in Go's byte order *)

Definition str_le (s t : string) : Prop := String.leb s t = true.
#[export] Instance str_le_dec : RelDecision str_le.
Proof. intros s t. unfold str_le. apply _. Defined.

Lemma ascii_compare_refl a : Ascii.compare a a = Eq.
Proof. apply N.compare_refl. Qed.

Lemma ascii_compare_eq a b : Ascii.compare a b = Eq -> a = b.
Proof. apply Ascii.compare_eq_iff. Qed.

Lemma ascii_compare_trans a b c :
  Ascii.compare a b = Lt -> Ascii.compare b c = Lt -> Ascii.compare a c = Lt.
Proof. unfold Ascii.compare. rewrite !N.compare_lt_iff. lia. Qed.

Lemma str_compare_trans s t u :
  String.compare s t <> Gt -> String.compare t u <> Gt -> String.compare s u <> Gt.
Proof.
  revert t u. induction s as [|a s IH]; intros [|b t] [|c u]; simpl; try done.
  destruct (Ascii.compare a b) eqn:Eab, (Ascii.compare b c) eqn:Ebc; try done; intros H1 H2.
  - apply ascii_compare_eq in Eab, Ebc. subst. rewrite ascii_compare_refl. eauto.
  - apply ascii_compare_eq in Eab. subst. by rewrite Ebc.
  - apply ascii_compare_eq in Ebc. subst. by rewrite Eab.
  - by rewrite (ascii_compare_trans _ _ _ Eab Ebc).
Qed.

Lemma str_le_alt s t : str_le s t <-> String.compare s t <> Gt.
Proof. unfold str_le, String.leb. by destruct (String.compare s t). Qed.

#[export] Instance str_le_trans : Transitive str_le.
Proof. intros s t u. rewrite !str_le_alt. apply str_compare_trans. Qed.
#[export] Instance str_le_total : Total str_le.
Proof. intros s t. unfold str_le. by destruct (String.leb_total s t); [left | right]. Qed.
#[export] Instance str_le_antisym : AntiSymm (=) str_le.
Proof. intros s t. apply String.leb_antisym. Qed.
#[export] Instance str_le_refl : Reflexive str_le.
Proof. intros s. destruct (str_le_total s s); done. Qed.

(** The strict order [s < t] of Go. *)
Definition str_lt (s t : string) : bool := String.ltb s t.

Lemma str_lt_iff s t : str_lt s t = true <-> ~ str_le t s.
Proof.
  unfold str_lt, str_le, String.ltb, String.leb.
  rewrite (String.compare_antisym t s). by destruct (String.compare s t).
Qed.

Lemma str_lt_spec s t : str_lt s t = true <-> str_le s t /\ s <> t.
Proof.
  rewrite str_lt_iff. split.
  - intros H. split; [by destruct (str_le_total s t) | intros ->; by apply H].
  - intros [H1 H2] H3. by apply H2, (anti_symm str_le).
Qed.

(** ** [sort.Search]

    The binary search of Go's library: the smallest index in [[0, n)] where a
    monotone test holds, or [n]. The fuel bounds the number of halvings. *)
Fixpoint sort_Search_loop (fuel : nat) (f : nat -> bool) (i j : nat) : nat :=
  match fuel with
  | O => i
  | S fuel =>
      if (i <? j)%nat then
        let h := Nat.div2 (i + j) in
        if f h then sort_Search_loop fuel f i h else sort_Search_loop fuel f (S h) j
      else i
  end.

Definition sort_Search (n : nat) (f : nat -> bool) : nat := sort_Search_loop (S n) f 0 n.

Lemma sort_Search_loop_spec fuel f i j :
  (j - i < fuel)%nat -> (i <= j)%nat ->
  (forall a b, (a <= b)%nat -> f a = true -> f b = true) ->
  (forall a, (a < i)%nat -> f a = false) ->
  let r := sort_Search_loop fuel f i j in
  (i <= r <= j)%nat /\ (forall a, (a < r)%nat -> f a = false) /\
  (r = j \/ f r = true).
Proof.
  revert i j. induction fuel as [|fuel IH]; intros i j Hf Hij Hm Hlo; [lia |].
  simpl. destruct (Nat.ltb_spec i j) as [Hlt|]; [| split; [lia | split; [done | left; lia]]].
  assert (i <= Nat.div2 (i + j) < j)%nat as Hh.
  { rewrite Nat.div2_div. pose proof (Nat.div_mod_eq (i + j) 2).
    pose proof (Nat.mod_upper_bound (i + j) 2). lia. }
  destruct (f (Nat.div2 (i + j))) eqn:E.
  - destruct (IH i (Nat.div2 (i + j))) as (H1 & H2 & H3); [lia.. | done | done |].
    split; [lia |]. split; [done |]. destruct H3 as [-> | H3]; by right.
  - destruct (IH (S (Nat.div2 (i + j))) j) as (H1 & H2 & H3); [lia.. | done | |].
    + intros a Ha. destruct (f a) eqn:Ea; [| done].
      rewrite (Hm a (Nat.div2 (i + j))) in E by (done || lia). done.
    + split; [lia | done].
Qed.

Lemma sort_Search_spec n f :
  (forall a b, (a <= b)%nat -> f a = true -> f b = true) ->
  (sort_Search n f <= n)%nat /\
  (forall a, (a < sort_Search n f)%nat -> f a = false) /\
  (sort_Search n f = n \/ f (sort_Search n f) = true).
Proof.
  intros Hm. destruct (sort_Search_loop_spec (S n) f 0 n) as (H1 & H2 & H3);
    [lia.. | done | lia |]. unfold sort_Search. split; [lia | done].
Qed.

(** ** Lists *)

(** A sorted list is determined by its elements. *)
Lemma sort_perm_eq {A} (R : relation A) `{!RelDecision R, !Transitive R, !Total R, !AntiSymm (=) R}
    (l1 l2 : list A) :
  l1 ≡ₚ l2 -> merge_sort R l1 = merge_sort R l2.
Proof.
  intros H. apply (StronglySorted_unique R);
    [apply StronglySorted_merge_sort; apply _ .. |].
  by rewrite !merge_sort_Permutation.
Qed.

(** Sorting a list that is sorted already is the identity. *)
Lemma merge_sort_id {A} (R : relation A) `{!RelDecision R, !Transitive R, !Total R} (l : list A) :
  StronglySorted R l -> (forall x y, x ∈ l -> y ∈ l -> R x y -> R y x -> x = y) -> merge_sort R l = l.
Proof.
  intros Hs. assert (StronglySorted R (merge_sort R l)) as Hm by (apply StronglySorted_merge_sort; apply _).
  pose proof (merge_sort_Permutation R l) as Hp. revert Hm Hp. generalize (merge_sort R l) as l'.
  induction Hs as [| a l Hs IH Ha]; intros l' Hm Hp Hanti; [by apply Permutation_nil_r in Hp |].
  destruct l' as [|b l']; [by apply Permutation_nil_cons in Hp |]. inversion Hm as [| ? ? Hm' Hb]; subst.
  assert (a = b) as ->.
  { assert (b ∈ a :: l) as Hbin by (rewrite <- Hp; apply list_elem_of_here).
    assert (a ∈ b :: l') as Hain by (rewrite Hp; apply list_elem_of_here).
    destruct (proj1 (elem_of_cons _ _ _) Hbin) as [-> | Hb1]; [done |].
    destruct (proj1 (elem_of_cons _ _ _) Hain) as [-> | Ha1]; [done |]. rewrite list.Forall_forall in Ha, Hb.
    apply Hanti; [apply list_elem_of_here | done | by apply Ha | by apply Hb]. }
  f_equal. apply IH; [done | by apply Permutation_cons_inv in Hp | intros x y Hx Hy; apply Hanti; by right].
Qed.

Lemma filter_none {A} (P : A -> Prop) `{!forall x, Decision (P x)} (l : list A) :
  (forall x, x ∈ l -> ~ P x) -> filter P l = [].
Proof.
  induction l as [|x l IH]; intros Hl; [done |]. rewrite filter_cons, decide_False.
  - apply IH. intros y Hy. apply Hl. by right.
  - apply Hl. by left.
Qed.

Lemma filter_all {A} (P : A -> Prop) `{!forall x, Decision (P x)} (l : list A) :
  (forall x, x ∈ l -> P x) -> filter P l = l.
Proof.
  induction l as [|x l IH]; intros Hl; [done |]. rewrite filter_cons, decide_True.
  - f_equal. apply IH. intros y Hy. apply Hl. by right.
  - apply Hl. by left.
Qed.

(** How many integers of [[0, n)] lie in a band of width [w] inside it. *)
Lemma count_band (lo w n : Z) :
  0 <= lo -> 0 <= w -> lo + w <= n ->
  Z.of_nat (length (filter (fun d => lo <= d < lo + w) (seqZ 0 n))) = w.
Proof.
  intros. replace n with (lo + (w + (n - lo - w))) by lia.
  rewrite seqZ_app, seqZ_app by lia. rewrite !list.filter_app, !length_app.
  assert (forall a b, a + b <= lo \/ lo + w <= a ->
    filter (fun d => lo <= d < lo + w) (seqZ a b) = []) as Hnone.
  { intros a b Hab. apply filter_none. intros d Hd. apply elem_of_seqZ in Hd. lia. }
  rewrite Hnone, (Hnone (0 + lo + w)) by lia.
  rewrite (filter_all _ (seqZ (0 + lo) w)).
  - simpl. rewrite length_seqZ. lia.
  - intros d Hd. apply elem_of_seqZ in Hd. lia.
Qed.

Lemma list_filter_iff' {A} (P Q : A -> Prop) `{!forall x, Decision (P x), !forall x, Decision (Q x)}
    (l : list A) :
  (forall x, x ∈ l -> P x <-> Q x) -> filter P l = filter Q l.
Proof.
  induction l as [|x l IH]; intros Hl; [done |]. rewrite !filter_cons.
  rewrite (IH (fun y Hy => Hl y (list_elem_of_further _ _ _ Hy))).
  specialize (Hl x (list_elem_of_here _ _)).
  destruct (decide (P x)), (decide (Q x)); tauto.
Qed.

(** ** A textual codec for countable data

    A concrete encoder and decoder that witnesses of statements about an
    external serializer can use. *)
Fixpoint pos_text (p : positive) : string :=
  match p with
  | xI p => String "1" (pos_text p)
  | xO p => String "0" (pos_text p)
  | xH => EmptyString
  end.

Fixpoint text_pos (s : string) : positive :=
  match s with
  | EmptyString => xH
  | String c s => if ascii_dec c "1" then xI (text_pos s) else xO (text_pos s)
  end.

Lemma text_pos_text p : text_pos (pos_text p) = p.
Proof. induction p as [p IH | p IH |]; simpl; [by rewrite IH .. | done]. Qed.

Definition encode_text {A} `{Countable A} (x : A) : option string := Some (pos_text (encode x)).
Definition decode_text {A} `{Countable A} (s : string) : option A := decode (text_pos s).

Lemma decode_encode_text {A} `{Countable A} (x : A) s :
  encode_text x = Some s -> decode_text s = Some x.
Proof. intros [= <-]. unfold decode_text. by rewrite text_pos_text, decode_encode. Qed.

Lemma Forall_filter_sub {A} (P Q : A -> Prop) `{!forall x, Decision (Q x)} (l : list A) :
  Forall P l -> Forall P (filter Q l).
Proof.
  induction 1 as [|x l Hx _ IH]; [constructor |]. rewrite filter_cons.
  destruct (decide (Q x)); [by constructor | done].
Qed.

Lemma elem_of_concat {A} (x : A) (ls : list (list A)) :
  x ∈ concat ls <-> exists l, x ∈ l /\ l ∈ ls.
Proof.
  rewrite list_elem_of_In, in_concat. split; intros (l & H1 & H2); exists l;
    rewrite ?list_elem_of_In in *; done.
Qed.

Lemma StronglySorted_lt {A} (R : relation A) (l : list A) i j a b :
  StronglySorted R l -> l !! i = Some a -> l !! j = Some b -> (i < j)%nat -> R a b.
Proof.
  intros Hs. revert i j. induction Hs as [|x l Hs IH Hx]; intros i j Hi Hj Hij; [done |].
  destruct j as [|j]; [lia |]. simpl in Hj. destruct i as [|i]; simpl in Hi.
  - injection Hi as ->. rewrite list.Forall_forall in Hx. by apply Hx, list_elem_of_lookup_2 with j.
  - by apply (IH i j); [.. | lia].
Qed.
