(* ===== verification/CircuitBreaker.v ===== *)
(** * The circuit breaker of the inference gateway

    [services/inference-gateway/internal/domain/circuit_breaker.go]: the
    three-state breaker that guards one backend. Every operation of the code
    takes the mutex for its whole body, so an execution is a sequence of whole
    operations; the clock readings an operation makes are its arguments. *)

From S2P Require Import Prelude.

(** ** Data *)

Record breakerConfig := {
  failureThreshold : Z;
  successThreshold : Z;
  resetTimeout : duration;
  halfOpenMaxProbes : Z;
}.

Definition defaultBreakerConfig : breakerConfig := {|
  failureThreshold := 5;
  successThreshold := 2;
  resetTimeout := 30 * Second;
  halfOpenMaxProbes := 1;
|}.

Inductive CircuitState := CircuitClosed | CircuitOpen | CircuitHalfOpen.

#[export] Instance CircuitState_eq_dec : EqDecision CircuitState.
Proof. solve_decision. Defined.

Record CircuitBreaker := {
  cfg : breakerConfig;
  state : CircuitState;
  consecutiveFails : Z;
  halfOpenSuccess : Z;
  halfOpenInFlight : Z;
  lastTransition : time;
}.

#[export] Instance breakerConfig_eq_dec : EqDecision breakerConfig.
Proof. solve_decision. Defined.
#[export] Instance CircuitBreaker_eq_dec : EqDecision CircuitBreaker.
Proof. solve_decision. Defined.

Record CircuitSnapshot := {
  snap_ModelName : string;
  snap_Version : string;
  snap_State : CircuitState;
  snap_ConsecutiveFailures : Z;
  snap_LastTransitionAt : time;
}.

(** ** Operations *)

Definition newCircuitBreaker (c : breakerConfig) (now : time) : CircuitBreaker := {|
  cfg := c;
  state := CircuitClosed;
  consecutiveFails := 0;
  halfOpenSuccess := 0;
  halfOpenInFlight := 0;
  lastTransition := now;
|}.

(** [now] is the reading [transitionTo] itself makes. *)
Definition transitionTo (s : CircuitState) (now : time) (b : CircuitBreaker) : CircuitBreaker := {|
  cfg := cfg b;
  state := s;
  consecutiveFails := 0;
  halfOpenSuccess := 0;
  halfOpenInFlight := 0;
  lastTransition := now;
|}.

(** [now] is the reading of the test, [now'] the later one of [transitionTo]. *)
Definition maybeHalfOpen (now now' : time) (b : CircuitBreaker) : CircuitBreaker :=
  if bool_decide (state b = CircuitOpen)
     && negb (time_before now (lastTransition b + resetTimeout (cfg b)))
  then transitionTo CircuitHalfOpen now' b
  else b.

Definition set_fails (n : Z) (b : CircuitBreaker) : CircuitBreaker := {|
  cfg := cfg b; state := state b; consecutiveFails := n;
  halfOpenSuccess := halfOpenSuccess b; halfOpenInFlight := halfOpenInFlight b;
  lastTransition := lastTransition b;
|}.

Definition set_half_open (successes inflight : Z) (b : CircuitBreaker) : CircuitBreaker := {|
  cfg := cfg b; state := state b; consecutiveFails := consecutiveFails b;
  halfOpenSuccess := successes; halfOpenInFlight := inflight;
  lastTransition := lastTransition b;
|}.

Definition State (now now' : time) (b : CircuitBreaker) : CircuitState * CircuitBreaker :=
  let b := maybeHalfOpen now now' b in (state b, b).

Definition Allow (now now' : time) (b : CircuitBreaker) : bool * CircuitBreaker :=
  let b := maybeHalfOpen now now' b in
  match state b with
  | CircuitClosed => (true, b)
  | CircuitOpen => (false, b)
  | CircuitHalfOpen =>
      if halfOpenInFlight b <? halfOpenMaxProbes (cfg b)
      then (true, set_half_open (halfOpenSuccess b) (wrap64 (halfOpenInFlight b + 1)) b)
      else (false, b)
  end.

Definition release_slot (b : CircuitBreaker) : CircuitBreaker :=
  if 0 <? halfOpenInFlight b
  then set_half_open (halfOpenSuccess b) (halfOpenInFlight b - 1) b
  else b.

Definition RecordSuccess (now : time) (b : CircuitBreaker) : CircuitBreaker :=
  match state b with
  | CircuitClosed => set_fails 0 b
  | CircuitOpen => b
  | CircuitHalfOpen =>
      let b := release_slot b in
      let b := set_half_open (wrap64 (halfOpenSuccess b + 1)) (halfOpenInFlight b) b in
      if successThreshold (cfg b) <=? halfOpenSuccess b
      then transitionTo CircuitClosed now b
      else b
  end.

Definition RecordFailure (now : time) (b : CircuitBreaker) : CircuitBreaker :=
  match state b with
  | CircuitClosed =>
      let b := set_fails (wrap64 (consecutiveFails b + 1)) b in
      if failureThreshold (cfg b) <=? consecutiveFails b
      then transitionTo CircuitOpen now b
      else b
  | CircuitOpen => b
  | CircuitHalfOpen => transitionTo CircuitOpen now (release_slot b)
  end.

Definition snapshot (modelName version : string) (now now' : time) (b : CircuitBreaker)
    : CircuitSnapshot * CircuitBreaker :=
  let b := maybeHalfOpen now now' b in
  ({| snap_ModelName := modelName;
      snap_Version := version;
      snap_State := state b;
      snap_ConsecutiveFailures := consecutiveFails b;
      snap_LastTransitionAt := lastTransition b |}, b).

(** ** Executions *)

Inductive op :=
| OpAllow (now now' : time)
| OpSuccess (now : time)
| OpFailure (now : time)
| OpState (now now' : time).

(** One whole operation, with [Allow]'s answer when it is one. *)
Definition step (o : op) (b : CircuitBreaker) : option bool * CircuitBreaker :=
  match o with
  | OpAllow now now' => let '(r, b') := Allow now now' b in (Some r, b')
  | OpSuccess now => (None, RecordSuccess now b)
  | OpFailure now => (None, RecordFailure now b)
  | OpState now now' => (None, snd (State now now' b))
  end.

Fixpoint run (os : list op) (b : CircuitBreaker) : list (option bool) * CircuitBreaker :=
  match os with
  | [] => ([], b)
  | o :: os =>
      let '(r, b1) := step o b in
      let '(rs, b2) := run os b1 in
      (r :: rs, b2)
  end.

(** ** The invariant *)

(** What [NewBreakerRegistry] guarantees of the tuning: every knob is positive. *)
Record config_ok (c : breakerConfig) : Prop := {
  fail_pos : 1 <= failureThreshold c <= int64_max;
  succ_pos : 1 <= successThreshold c <= int64_max;
  reset_pos : 0 < resetTimeout c;
  probes_pos : 1 <= halfOpenMaxProbes c <= int64_max;
}.

#[export] Instance config_ok_dec c : Decision (config_ok c).
Proof.
  refine (cast_if (decide ((1 <= failureThreshold c <= int64_max
    /\ 1 <= successThreshold c <= int64_max) /\ 0 < resetTimeout c
    /\ 1 <= halfOpenMaxProbes c <= int64_max))).
  - abstract (constructor; tauto).
  - abstract (intros []; tauto).
Defined.

(** The counters of the states the breaker is not in are zero, and those of the
    state it is in are within the thresholds. *)
Definition breaker_ok (b : CircuitBreaker) : Prop :=
  config_ok (cfg b) /\
  match state b with
  | CircuitClosed => 0 <= consecutiveFails b < failureThreshold (cfg b)
                     /\ halfOpenSuccess b = 0 /\ halfOpenInFlight b = 0
  | CircuitOpen => consecutiveFails b = 0 /\ halfOpenSuccess b = 0 /\ halfOpenInFlight b = 0
  | CircuitHalfOpen => consecutiveFails b = 0
                       /\ 0 <= halfOpenSuccess b < successThreshold (cfg b)
                       /\ 0 <= halfOpenInFlight b <= halfOpenMaxProbes (cfg b)
  end.

Ltac unfold_ops :=
  unfold step, Allow, State, RecordSuccess, RecordFailure, maybeHalfOpen, release_slot,
    set_half_open, set_fails, transitionTo, time_before in *.

(** Split every test an operation makes, state by state, and compute. *)
Ltac breaker_cases b :=
  unfold_ops; destruct b as [c [] fails succ infl last]; simpl in *;
  repeat (match goal with
          | |- context [bool_decide ?P] => destruct (bool_decide_reflect P)
          | |- context [?x <? ?y] => destruct (Z.ltb_spec x y)
          | |- context [?x <=? ?y] => destruct (Z.leb_spec x y)
          end; simpl in *; try congruence).

Lemma step_cfg o b : cfg (snd (step o b)) = cfg b.
Proof. destruct o; breaker_cases b; done. Qed.

Lemma breaker_new_ok c now : config_ok c -> breaker_ok (newCircuitBreaker c now).
Proof. intros Hc. pose proof (fail_pos _ Hc). split; simpl; [done | lia]. Qed.

(** No operation overflows a counter: below its threshold, one more fits. *)
Lemma counter_wrap n m : 0 <= n < m -> m <= int64_max -> wrap64 (n + 1) = n + 1.
Proof. intros. apply wrap64_id. unfold in_int64, int64_min, int64_max in *. lia. Qed.

(** Rewrite the wrapped increments of a breaker of tuning [c] that its bounds make exact. *)
Ltac counters c :=
  rewrite ?(fun n H => counter_wrap n (failureThreshold c) H),
    ?(fun n H => counter_wrap n (successThreshold c) H),
    ?(fun n H => counter_wrap n (halfOpenMaxProbes c) H) in * by lia.

Lemma breaker_step_ok o b : breaker_ok b -> breaker_ok (snd (step o b)).
Proof.
  intros [Hc H]. pose proof (fail_pos _ Hc). pose proof (succ_pos _ Hc).
  pose proof (probes_pos _ Hc).
  split; [by rewrite step_cfg |].
  destruct o; breaker_cases b; counters c; lia.
Qed.

Lemma breaker_run_ok os b : breaker_ok b -> breaker_ok (snd (run os b)).
Proof.
  revert b. induction os as [|o os IH]; intros b H; simpl; [done |].
  destruct (step o b) as [r b1] eqn:E1, (run os b1) as [rs b2] eqn:E2; simpl.
  specialize (IH b1). rewrite E2 in IH. apply IH.
  replace b1 with (snd (step o b)) by by rewrite E1. by apply breaker_step_ok.
Qed.

(** ** The specification machine

    What the breaker promises, without the counters of the states it is not in
    and without machine integers. *)
Inductive spec :=
| SClosed (fails : Z)
| SOpen (since : time)
| SHalfOpen (successes inflight : Z).

Definition spec_wake (c : breakerConfig) (now : time) (s : spec) : spec :=
  match s with
  | SOpen since => if since + resetTimeout c <=? now then SHalfOpen 0 0 else s
  | _ => s
  end.

Definition spec_allow (c : breakerConfig) (s : spec) : bool * spec :=
  match s with
  | SClosed _ => (true, s)
  | SOpen _ => (false, s)
  | SHalfOpen k p =>
      if p <? halfOpenMaxProbes c then (true, SHalfOpen k (p + 1)) else (false, s)
  end.

Definition spec_success (c : breakerConfig) (s : spec) : spec :=
  match s with
  | SClosed _ => SClosed 0
  | SOpen _ => s
  | SHalfOpen k p =>
      if k + 1 <? successThreshold c then SHalfOpen (k + 1) (Z.max 0 (p - 1)) else SClosed 0
  end.

Definition spec_failure (c : breakerConfig) (now : time) (s : spec) : spec :=
  match s with
  | SClosed n => if n + 1 <? failureThreshold c then SClosed (n + 1) else SOpen now
  | SOpen _ => s
  | SHalfOpen _ _ => SOpen now
  end.

Definition spec_step (c : breakerConfig) (o : op) (s : spec) : option bool * spec :=
  match o with
  | OpAllow now _ => let '(r, s') := spec_allow c (spec_wake c now s) in (Some r, s')
  | OpSuccess _ => (None, spec_success c s)
  | OpFailure now => (None, spec_failure c now s)
  | OpState now _ => (None, spec_wake c now s)
  end.

Fixpoint spec_run (c : breakerConfig) (os : list op) (s : spec) : list (option bool) * spec :=
  match os with
  | [] => ([], s)
  | o :: os =>
      let '(r, s1) := spec_step c o s in
      let '(rs, s2) := spec_run c os s1 in
      (r :: rs, s2)
  end.

(** The specification state a breaker stands for. *)
Definition abs (b : CircuitBreaker) : spec :=
  match state b with
  | CircuitClosed => SClosed (consecutiveFails b)
  | CircuitOpen => SOpen (lastTransition b)
  | CircuitHalfOpen => SHalfOpen (halfOpenSuccess b) (halfOpenInFlight b)
  end.

Lemma step_refines o b :
  breaker_ok b ->
  spec_step (cfg b) o (abs b) = (fst (step o b), abs (snd (step o b))).
Proof.
  intros [Hc H]. pose proof (fail_pos _ Hc). pose proof (succ_pos _ Hc).
  pose proof (probes_pos _ Hc). unfold spec_step, spec_wake, spec_allow, spec_success,
    spec_failure, abs.
  destruct o; breaker_cases b; counters c; try lia;
    unfold abs; simpl; repeat (f_equal; try lia).
Qed.

Lemma run_refines os b :
  breaker_ok b ->
  spec_run (cfg b) os (abs b) = (fst (run os b), abs (snd (run os b))).
Proof.
  revert b. induction os as [|o os IH]; intros b H; simpl; [done |].
  rewrite step_refines by done. pose proof (breaker_step_ok o b H) as H1.
  pose proof (step_cfg o b) as Hcfg.
  destruct (step o b) as [r b1]; simpl in *. rewrite <- Hcfg, IH by done.
  by destruct (run os b1).
Qed.

(** ** When the breaker trips *)

Definition is_record (o : op) : bool :=
  match o with OpSuccess _ | OpFailure _ => true | _ => false end.

(** The [n] operations from position [i] on are all failures. *)
Definition failure_window (n : nat) (os : list op) (i : nat) : Prop :=
  forall j, (j < n)%nat -> exists t, os !! (i + j)%nat = Some (OpFailure t).

Lemma failure_window_cons n o os i :
  failure_window n (o :: os) (S i) <-> failure_window n os i.
Proof. done. Qed.

Lemma failure_window_push n t os :
  failure_window (S n) (OpFailure t :: os) 0 <-> failure_window n os 0.
Proof.
  split; intros H.
  - intros j Hj. apply (H (S j)). lia.
  - intros [|j] Hj; [by eexists | apply (H j); lia].
Qed.

Lemma failure_window_le n m os i :
  (n <= m)%nat -> failure_window m os i -> failure_window n os i.
Proof. intros ? H j Hj. apply H. lia. Qed.

Lemma failure_window_success n t os : ~ failure_window (S n) (OpSuccess t :: os) 0.
Proof. intros H. destruct (H 0%nat) as [u Hu]; [lia | done]. Qed.

Lemma failure_window_nil n i : ~ failure_window (S n) [] i.
Proof. intros H. destruct (H 0%nat) as [t Ht]; [lia | done]. Qed.

Definition is_open (s : spec) : Prop := exists t, s = SOpen t.

Lemma spec_run_open c os t :
  Forall (fun o => is_record o = true) os -> snd (spec_run c os (SOpen t)) = SOpen t.
Proof.
  induction 1 as [|o os Ho _ IH]; [done |]. destruct o; try done; simpl;
    destruct (spec_run c os (SOpen t)); exact IH.
Qed.

(** From a closed breaker that has counted [k] failures, a history of records
    opens it iff it starts with the missing failures or has a full window. *)
Lemma spec_trips c n os k :
  Forall (fun o => is_record o = true) os ->
  failureThreshold c = Z.of_nat n -> (k < n)%nat ->
  is_open (snd (spec_run c os (SClosed (Z.of_nat k)))) <->
  failure_window (n - k) os 0 \/ exists i, failure_window n os i.
Proof.
  intros Hos Hn. revert k.
  induction Hos as [|o os Ho Hos IH]; intros k Hk.
  - replace (n - k)%nat with (S (n - k - 1)) by lia.
    destruct n as [|n]; [lia |]. split; [by intros [? [=]] |].
    intros [H | [i H]]; by apply failure_window_nil in H.
  - destruct o as [| t | t |]; try done; simpl.
    + specialize (IH 0%nat). rewrite Nat.sub_0_r in IH. change (Z.of_nat 0) with 0 in IH.
      destruct (spec_run c os (SClosed 0)) as [rs s2]; simpl in *. rewrite IH by lia.
      replace (n - k)%nat with (S (n - k - 1)) by lia. split.
      * intros [H | [i H]]; right; [by exists 1%nat | by exists (S i)].
      * intros [H | [[|i] H]]; [by apply failure_window_success in H | | right; by exists i].
        destruct n as [|n]; [lia |]. by apply failure_window_success in H.
    + destruct (Z.ltb_spec (Z.of_nat k + 1) (failureThreshold c)).
      * specialize (IH (S k)). replace (Z.of_nat k + 1) with (Z.of_nat (S k)) by lia.
        destruct (spec_run c os (SClosed (Z.of_nat (S k)))) as [rs s2]; simpl in *.
        rewrite IH by lia. replace (n - k)%nat with (S (n - S k)) by lia.
        rewrite failure_window_push. split.
        -- intros [? | [i ?]]; [by left | right; by exists (S i)].
        -- intros [? | [[|i] Hw]]; [by left | left | right; by exists i].
           destruct n as [|n]; [lia |]. apply failure_window_push in Hw.
           eapply failure_window_le; [| done]. lia.
      * pose proof (spec_run_open c os t Hos) as Ho'.
        destruct (spec_run c os (SOpen t)) as [rs s2]; simpl in *. subst s2.
        split; [| by eexists]. intros _. left. replace (n - k)%nat with 1%nat by lia.
        apply failure_window_push. intros j Hj. lia.
Qed.

Lemma abs_open b : is_open (abs b) <-> state b = CircuitOpen.
Proof.
  unfold is_open, abs. destruct (state b); split; try done; try (by intros [? [=]]); eauto.
Qed.

(** A breaker that only records outcomes trips exactly when its history
    contains [failureThreshold] failures in a row: it is OPEN after the history
    iff such a window exists, so scattered failures never open it and a full
    window always does. *)
Theorem breaker_trips_exactly c t os :
  config_ok c -> Forall (fun o => is_record o = true) os ->
  state (snd (run os (newCircuitBreaker c t))) = CircuitOpen <->
  exists i, failure_window (Z.to_nat (failureThreshold c)) os i.
Proof.
  intros Hc Hos. pose proof (fail_pos _ Hc).
  rewrite <- abs_open. pose proof (run_refines os _ (breaker_new_ok c t Hc)) as Hr.
  apply (f_equal snd) in Hr. simpl in Hr. rewrite <- Hr.
  rewrite (spec_trips c (Z.to_nat (failureThreshold c)) os 0) by (done || lia).
  rewrite Nat.sub_0_r. split; [intros [?|?]; eauto | by right].
Qed.

(** ** Fail fast *)

Definition reads_before (d : time) (o : op) : Prop :=
  match o with OpAllow now _ | OpState now _ => now < d | _ => True end.

Lemma step_open_cooling o b :
  state b = CircuitOpen -> reads_before (lastTransition b + resetTimeout (cfg b)) o ->
  step o b = (match o with OpAllow _ _ => Some false | _ => None end, b).
Proof. intros Hs Hd. destruct o; simpl in Hd; breaker_cases b; try done; lia. Qed.

Lemma run_open_cooling os b :
  state b = CircuitOpen ->
  Forall (reads_before (lastTransition b + resetTimeout (cfg b))) os ->
  snd (run os b) = b /\ Forall (fun r => r <> Some true) (fst (run os b)).
Proof.
  intros Hs. induction 1 as [|o os Ho _ [IH1 IH2]]; [done |].
  simpl. rewrite step_open_cooling by done.
  destruct (run os b) as [rs b2]; simpl in *. split; [done |].
  constructor; [by destruct o | done].
Qed.

Lemma allow_after_cooldown b now now' :
  breaker_ok b -> state b = CircuitOpen ->
  lastTransition b + resetTimeout (cfg b) <= now ->
  exists b', Allow now now' b = (true, b') /\ state b' = CircuitHalfOpen /\
    halfOpenInFlight b' = 1 /\ lastTransition b' = now'.
Proof.
  intros [Hc H] Hs Hd. pose proof (probes_pos _ Hc).
  breaker_cases b; try lia; (eexists; split; [reflexivity | done]).
Qed.

(** ** Probe accounting

    The breaker together with the calls it admitted and that have not been
    recorded yet. A call carries the period it was admitted in: a period ends
    when the breaker changes state. *)
Record tracked := {
  tb : CircuitBreaker;
  epoch : nat;
  calls : list nat;
}.

Inductive event :=
| EvAllow (now now' : time)
| EvFinish (i : nat) (success : bool) (now : time).

Definition next_epoch (b b' : CircuitBreaker) (e : nat) : nat :=
  if decide (state b' = state b) then e else S e.

Definition tstep (ev : event) (s : tracked) : tracked :=
  match ev with
  | EvAllow now now' =>
      let '(r, b') := Allow now now' (tb s) in
      let e := next_epoch (tb s) b' (epoch s) in
      {| tb := b'; epoch := e; calls := if r then e :: calls s else calls s |}
  | EvFinish i success now =>
      let b' := if success then RecordSuccess now (tb s) else RecordFailure now (tb s) in
      {| tb := b'; epoch := next_epoch (tb s) b' (epoch s);
         calls := take i (calls s) ++ drop (S i) (calls s) |}
  end.

(** The call that finishes exists. *)
Definition valid (ev : event) (s : tracked) : bool :=
  match ev with
  | EvAllow _ _ => true
  | EvFinish i _ _ => bool_decide (i < length (calls s))%nat
  end.

(** The call that finishes, in HALF_OPEN, is a probe of the current period. *)
Definition no_straggler (ev : event) (s : tracked) : Prop :=
  match ev with
  | EvAllow _ _ => True
  | EvFinish i _ _ => state (tb s) = CircuitHalfOpen -> calls s !! i = Some (epoch s)
  end.

Definition tracked_new (c : breakerConfig) (t : time) : tracked :=
  {| tb := newCircuitBreaker c t; epoch := 0; calls := [] |}.

Definition probes (s : tracked) : nat := length (filter (eq (epoch s)) (calls s)).

Inductive reaches (ok : event -> tracked -> Prop) (c : breakerConfig) (t : time) : tracked -> Prop :=
| reaches_new : reaches ok c t (tracked_new c t)
| reaches_step s ev :
    reaches ok c t s -> valid ev s = true -> ok ev s -> reaches ok c t (tstep ev s).

Definition trun (evs : list event) (s : tracked) : tracked :=
  fold_left (fun s ev => tstep ev s) evs s.

Fixpoint valid_run (evs : list event) (s : tracked) : bool :=
  match evs with
  | [] => true
  | ev :: evs => valid ev s && valid_run evs (tstep ev s)
  end.

Lemma reaches_trun c t evs s :
  reaches (fun _ _ => True) c t s -> valid_run evs s = true ->
  reaches (fun _ _ => True) c t (trun evs s).
Proof.
  revert s. induction evs as [|ev evs IH]; intros s Hs Hv; [done |].
  apply andb_true_iff in Hv as [Hv Hvs]. apply IH; [by constructor | done].
Qed.

Definition tracked_ok (s : tracked) : Prop :=
  breaker_ok (tb s) /\ Forall (fun e => (e <= epoch s)%nat) (calls s) /\
  (state (tb s) = CircuitHalfOpen -> Z.of_nat (probes s) = halfOpenInFlight (tb s)).

Lemma filter_above (e : nat) (l : list nat) :
  Forall (fun x => (x < e)%nat) l -> filter (eq e) l = [].
Proof.
  induction 1 as [|x l Hx _ IH]; [done |]. rewrite filter_cons.
  destruct (decide (e = x)); [lia | done].
Qed.

Lemma filter_remove (e i : nat) (l : list nat) :
  l !! i = Some e ->
  length (filter (eq e) l) = S (length (filter (eq e) (take i l ++ drop (S i) l))).
Proof.
  intros H. rewrite <- (take_drop_middle l i e H) at 1.
  rewrite !list.filter_app, filter_cons, decide_True, !length_app by done. simpl. lia.
Qed.

Lemma next_epoch_le b b' e : (e <= next_epoch b b' e)%nat.
Proof. unfold next_epoch. destruct (decide _); lia. Qed.

Lemma calls_next_epoch b b' e (l : list nat) :
  Forall (fun x => (x <= e)%nat) l -> Forall (fun x => (x <= next_epoch b b' e)%nat) l.
Proof.
  intros H. eapply Forall_impl; [| exact H]. pose proof (next_epoch_le b b' e). simpl; lia.
Qed.

Lemma calls_removed (P : nat -> Prop) (i : nat) (l : list nat) :
  Forall P l -> Forall P (take i l ++ drop (S i) l).
Proof. intros. apply Forall_app. split; [by apply list.Forall_take | by apply list.Forall_drop]. Qed.

(** A finishing call that leaves HALF_OPEN in place frees exactly its own slot. *)
Lemma finish_half_open b (succ : bool) now :
  breaker_ok b -> state b = CircuitHalfOpen -> 0 < halfOpenInFlight b ->
  let b' := if succ then RecordSuccess now b else RecordFailure now b in
  state b' = CircuitHalfOpen -> halfOpenInFlight b' = halfOpenInFlight b - 1.
Proof.
  intros [Hc H] Hs Hp. destruct succ; breaker_cases b; try done; lia.
Qed.

Lemma finish_not_half_open b (succ : bool) now :
  breaker_ok b -> state b <> CircuitHalfOpen ->
  state (if succ then RecordSuccess now b else RecordFailure now b) <> CircuitHalfOpen.
Proof. intros [Hc H] Hs. destruct succ; breaker_cases b; done. Qed.

Lemma allow_half_open b now now' :
  breaker_ok b -> state (snd (Allow now now' b)) = CircuitHalfOpen ->
  halfOpenInFlight (snd (Allow now now' b)) =
    (if fst (Allow now now' b) then 1 else 0) +
    (if decide (state b = CircuitHalfOpen) then halfOpenInFlight b else 0).
Proof.
  intros [Hc H]. pose proof (probes_pos _ Hc).
  breaker_cases b; intros Hst; try discriminate; counters c; try done; lia.
Qed.

Lemma probes_fresh_epoch e (l : list nat) :
  Forall (fun x => (x <= e)%nat) l -> filter (eq (S e)) l = [].
Proof. intros H. apply filter_above. eapply Forall_impl; [| exact H]. simpl; lia. Qed.

Lemma tstep_allow_ok now now' s : tracked_ok s -> tracked_ok (tstep (EvAllow now now') s).
Proof.
  intros (Hb & Hle & Hp). unfold tracked_ok, probes, tstep.
  pose proof (breaker_step_ok (OpAllow now now') _ Hb) as Hok.
  pose proof (allow_half_open (tb s) now now' Hb) as Ha.
  simpl in Hok. destruct (Allow now now' (tb s)) as [r b'] eqn:E; simpl in *.
  assert (Forall (fun x => (x <= next_epoch (tb s) b' (epoch s))%nat) (calls s)) as Hle'.
  { by apply calls_next_epoch. }
  split; [done |]. split; [destruct r; [constructor; [lia | done] | done] |].
  intros Hs. rewrite Ha by done. unfold probes in Hp.
  assert (Z.of_nat (length (filter (eq (next_epoch (tb s) b' (epoch s))) (calls s))) =
    if decide (state (tb s) = CircuitHalfOpen) then halfOpenInFlight (tb s) else 0) as Hc.
  { unfold next_epoch. rewrite Hs. case_decide as H1.
    - rewrite decide_True by done. by apply Hp.
    - rewrite decide_False by congruence. by rewrite probes_fresh_epoch. }
  destruct r; [rewrite filter_cons, decide_True by done; simpl |]; lia.
Qed.

Lemma tstep_finish_ok i succ now s :
  tracked_ok s -> valid (EvFinish i succ now) s = true ->
  no_straggler (EvFinish i succ now) s ->
  tracked_ok (tstep (EvFinish i succ now) s).
Proof.
  intros (Hb & Hle & Hp) Hv Hns. unfold tracked_ok, probes, tstep. simpl in *.
  set (b' := if succ then RecordSuccess now (tb s) else RecordFailure now (tb s)).
  assert (breaker_ok b') as Hok.
  { subst b'. destruct succ; [apply (breaker_step_ok (OpSuccess now) _ Hb)
      | apply (breaker_step_ok (OpFailure now) _ Hb)]. }
  assert (Forall (fun x => (x <= next_epoch (tb s) b' (epoch s))%nat) (calls s)) as Hle'.
  { by apply calls_next_epoch. }
  split; [done |]. split; [by apply calls_removed |].
  intros Hs. destruct (decide (state (tb s) = CircuitHalfOpen)) as [Hh | Hh];
    [| by apply (finish_not_half_open (tb s) succ now Hb) in Hh].
  specialize (Hns Hh). specialize (Hp Hh). unfold probes in Hp.
  rewrite (filter_remove _ _ _ Hns) in Hp.
  unfold b'. rewrite (finish_half_open (tb s) succ now Hb Hh) by (done || lia).
  unfold next_epoch. rewrite decide_True by (fold b'; congruence). lia.
Qed.

Lemma reaches_ok c t s : config_ok c -> reaches no_straggler c t s -> tracked_ok s.
Proof.
  intros Hc. induction 1 as [| s ev _ IH Hv Hns].
  - split; [by apply breaker_new_ok |]. by split; [constructor |].
  - destruct ev; [by apply tstep_allow_ok | by apply tstep_finish_ok].
Qed.

(** While every call recorded in HALF_OPEN is a probe of the current period,
    at most [halfOpenMaxProbes] probes are outstanding at any time, and the
    breaker's own count of them is exact. *)
Theorem probes_bounded c t s :
  config_ok c -> reaches no_straggler c t s -> state (tb s) = CircuitHalfOpen ->
  Z.of_nat (probes s) <= halfOpenMaxProbes c.
Proof.
  intros Hc Hr Hs. assert (cfg (tb s) = c) as Hcfg.
  { clear Hs. induction Hr as [| s ev _ IH Hv _]; [done |]. rewrite <- IH.
    destruct ev as [now now' | i [] now]; simpl.
    - pose proof (step_cfg (OpAllow now now') (tb s)) as H. simpl in H.
      by destruct (Allow now now' (tb s)).
    - apply (step_cfg (OpSuccess now)).
    - apply (step_cfg (OpFailure now)). }
  destruct (reaches_ok c t s Hc Hr) as ([_ Hok] & _ & Hp). rewrite Hs in Hok.
  rewrite Hp by done. rewrite Hcfg in Hok. lia.
Qed.

(** The breaker implements its specification machine: after any history of
    operations the answers of [Allow] are those of the machine and the record
    stands for the machine's state, so no counter overflows and none leaks from
    one state into another. *)
Theorem breaker_refines_spec c t os :
  config_ok c ->
  let '(answers, b) := run os (newCircuitBreaker c t) in
  spec_run c os (SClosed 0) = (answers, abs b) /\ breaker_ok b.
Proof.
  intros Hc. pose proof (run_refines os _ (breaker_new_ok c t Hc)) as Hr.
  pose proof (breaker_run_ok os _ (breaker_new_ok c t Hc)) as Hok.
  destruct (run os (newCircuitBreaker c t)) as [rs b]. by split.
Qed.

(** An OPEN breaker fails fast: until [resetTimeout] after the transition
    every [Allow] is refused whatever is recorded meanwhile and the breaker does
    not change; the first [Allow] from then on is admitted as a probe and moves
    it to HALF_OPEN. *)
Theorem breaker_open_fails_fast b os now now' :
  breaker_ok b -> state b = CircuitOpen ->
  Forall (reads_before (lastTransition b + resetTimeout (cfg b))) os ->
  lastTransition b + resetTimeout (cfg b) <= now ->
  snd (run os b) = b /\
  Forall (fun answer => answer <> Some true) (fst (run os b)) /\
  exists b', Allow now now' b = (true, b') /\ state b' = CircuitHalfOpen /\
    halfOpenInFlight b' = 1 /\ lastTransition b' = now'.
Proof.
  intros Hok Hs Hos Hd. destruct (run_open_cooling os b Hs Hos) as [H1 H2].
  split; [done |]. split; [done |]. by apply allow_after_cooldown.
Qed.

(** The events of a breaker with the default tuning: six calls are admitted
    while CLOSED, five of them fail and trip it; after the cooldown a probe is
    admitted, then the sixth old call succeeds, and another probe is admitted. *)
Definition straggler_events : list event :=
  replicate 6 (EvAllow 0 0) ++ replicate 5 (EvFinish 0 false 0) ++
  [EvAllow (30 * Second) (30 * Second); EvFinish 1 true (30 * Second);
   EvAllow (30 * Second) (30 * Second)].

(** The bound on concurrent probes does not hold when a call admitted while
    CLOSED is recorded in HALF_OPEN: with the default tuning (one probe), a
    history of well-formed calls reaches HALF_OPEN with two probes outstanding,
    because the old call's success frees the slot of a probe still in flight. *)
Theorem straggler_exceeds_probe_limit :
  exists s, reaches (fun _ _ => True) defaultBreakerConfig 0 s /\
    state (tb s) = CircuitHalfOpen /\
    Z.of_nat (probes s) = 2 /\ halfOpenMaxProbes defaultBreakerConfig = 1.
Proof.
  exists (trun straggler_events (tracked_new defaultBreakerConfig 0)).
  split; [apply reaches_trun; [apply reaches_new | by vm_compute] | by vm_compute].
Qed.

(** ** The properties at concrete inputs *)

Definition small_config : breakerConfig := {|
  failureThreshold := 2; successThreshold := 1; resetTimeout := 10; halfOpenMaxProbes := 1 |}.

Lemma small_config_ok : config_ok small_config.
Proof. by apply (bool_decide_unpack _). Qed.

Definition tripped : CircuitBreaker :=
  snd (run [OpFailure 1; OpFailure 2] (newCircuitBreaker small_config 0)).

Lemma breaker_trips_exactly_witness :
  state (snd (run [OpSuccess 1; OpFailure 2; OpFailure 3] (newCircuitBreaker small_config 0)))
    = CircuitOpen <->
  exists i, failure_window 2 [OpSuccess 1; OpFailure 2; OpFailure 3] i.
Proof.
  apply (breaker_trips_exactly small_config 0); [apply small_config_ok |].
  repeat (constructor; [reflexivity |]); constructor.
Defined.

Lemma probes_bounded_witness :
  Z.of_nat (probes (tstep (EvAllow 12 12) (tstep (EvFinish 0 false 2)
    (tstep (EvFinish 0 false 1) (tstep (EvAllow 0 0) (tstep (EvAllow 0 0)
    (tracked_new small_config 0))))))) <= 1.
Proof.
  apply (probes_bounded small_config 0); [apply small_config_ok | | reflexivity].
  repeat (apply reaches_step; [| reflexivity | simpl; intros; try exact I; discriminate]).
  apply reaches_new.
Defined.

Lemma breaker_refines_spec_witness :
  let '(answers, b) := run [OpFailure 1; OpFailure 2; OpAllow 5 5; OpAllow 12 12]
    (newCircuitBreaker small_config 0) in
  spec_run small_config [OpFailure 1; OpFailure 2; OpAllow 5 5; OpAllow 12 12] (SClosed 0)
    = (answers, abs b) /\ breaker_ok b.
Proof.
  apply (breaker_refines_spec small_config 0 [OpFailure 1; OpFailure 2; OpAllow 5 5; OpAllow 12 12]).
  apply small_config_ok.
Defined.

Lemma breaker_open_fails_fast_witness :
  snd (run [OpAllow 5 5; OpSuccess 6] tripped) = tripped /\
  Forall (fun answer => answer <> Some true) (fst (run [OpAllow 5 5; OpSuccess 6] tripped)) /\
  exists b', Allow 12 13 tripped = (true, b') /\ state b' = CircuitHalfOpen /\
    halfOpenInFlight b' = 1 /\ lastTransition b' = 13.
Proof.
  apply breaker_open_fails_fast;
    [apply breaker_run_ok, breaker_new_ok, small_config_ok | reflexivity | |].
  - repeat (constructor; [vm_compute; done |]); constructor.
  - vm_compute. discriminate.
Defined.
