(* ===== verification/BreakerRegistry.v ===== *)
(** * The breaker registry of the inference gateway

    [services/inference-gateway/internal/domain/breaker_registry.go]: one breaker
    per (model, version), created CLOSED on first use. [Get] of the code answers
    a pointer into the map; here a caller works on the stored breaker through
    [on_breaker], so that what it records is seen by the next caller. *)

From S2P Require Import Prelude CircuitBreaker.

Record BreakerTuning := {
  FailureThreshold : Z;
  SuccessThreshold : Z;
  ResetTimeout : duration;
  HalfOpenMaxProbes : Z;
}.

Abbreviation breakerKey := (string * string)%type (only parsing).

Record breakerRegistry := {
  reg_cfg : breakerConfig;
  breakers : gmap breakerKey CircuitBreaker;
}.

Definition pick_knob (given dflt : Z) : Z := if 0 <? given then given else dflt.

Definition NewBreakerRegistry (t : BreakerTuning) : breakerRegistry :=
  let d := defaultBreakerConfig in
  {| reg_cfg := {|
       failureThreshold := pick_knob (FailureThreshold t) (failureThreshold d);
       successThreshold := pick_knob (SuccessThreshold t) (successThreshold d);
       resetTimeout := pick_knob (ResetTimeout t) (resetTimeout d);
       halfOpenMaxProbes := pick_knob (HalfOpenMaxProbes t) (halfOpenMaxProbes d) |};
     breakers := ∅ |}.

(** [now] is the reading a creation makes. *)
Definition Get (now : time) (k : breakerKey) (r : breakerRegistry)
    : CircuitBreaker * breakerRegistry :=
  match breakers r !! k with
  | Some b => (b, r)
  | None =>
      let b := newCircuitBreaker (reg_cfg r) now in
      (b, {| reg_cfg := reg_cfg r; breakers := <[k := b]> (breakers r) |})
  end.

(** An operation through the pointer [Get] answered. *)
Definition on_breaker {A} (k : breakerKey) (f : CircuitBreaker -> A * CircuitBreaker)
    (b : CircuitBreaker) (r : breakerRegistry) : A * breakerRegistry :=
  let '(a, b') := f b in (a, {| reg_cfg := reg_cfg r; breakers := <[k := b']> (breakers r) |}).

(** [sort.Slice]'s order on keys: by model, then by version. *)
Definition key_le (k k' : breakerKey) : Prop :=
  str_lt k.1 k'.1 = true \/ k.1 = k'.1 /\ str_le k.2 k'.2.
#[export] Instance key_le_dec : RelDecision key_le.
Proof. intros k k'. unfold key_le. apply _. Defined.

(** The loop of [Snapshot]: each breaker is read (and moved to HALF_OPEN if due). *)
Fixpoint snapshot_all (now now' : time) (ks : list breakerKey) (r : breakerRegistry)
    : list CircuitSnapshot * breakerRegistry :=
  match ks with
  | [] => ([], r)
  | k :: ks =>
      match breakers r !! k with
      | None => snapshot_all now now' ks r
      | Some b =>
          let '(s, r1) := on_breaker k (snapshot k.1 k.2 now now') b r in
          let '(ss, r2) := snapshot_all now now' ks r1 in
          (s :: ss, r2)
      end
  end.

(** [ks] is the order in which the runtime enumerates the map. *)
Definition Snapshot (now now' : time) (modelFilter : string) (ks : list breakerKey)
    (r : breakerRegistry) : list CircuitSnapshot * breakerRegistry :=
  let keys := filter (fun k => modelFilter = "" \/ k.1 = modelFilter) ks in
  snapshot_all now now' (merge_sort key_le keys) r.

(** ** Lemmas *)

#[export] Instance key_le_trans : Transitive key_le.
Proof.
  intros [a x] [b y] [c z]. unfold key_le; simpl. rewrite !str_lt_spec.
  intros [[H1 N1] | [-> H1]] [[H2 N2] | [-> H2]].
  - left. split; [by etrans |]. intros ->. apply N1. by apply (anti_symm str_le).
  - by left.
  - by left.
  - right. split; [done | by etrans].
Qed.
#[export] Instance key_le_total : Total key_le.
Proof.
  intros [a x] [b y]. unfold key_le; simpl. rewrite !str_lt_spec.
  destruct (decide (a = b)) as [-> | Hne].
  - destruct (str_le_total x y); [left | right]; by right.
  - destruct (str_le_total a b); [left | right]; left; split; done || congruence.
Qed.
#[export] Instance key_le_antisym : AntiSymm (=) key_le.
Proof.
  intros [a x] [b y]. unfold key_le; simpl. rewrite !str_lt_spec.
  intros [[H1 N1] | [-> H1]] [[H2 N2] | [Heq H2]]; subst; try done.
  - destruct N1. by apply (anti_symm str_le).
  - f_equal. by apply (anti_symm str_le).
Qed.

Lemma registry_config_ok t :
  FailureThreshold t <= int64_max -> SuccessThreshold t <= int64_max ->
  HalfOpenMaxProbes t <= int64_max -> config_ok (reg_cfg (NewBreakerRegistry t)).
Proof.
  intros. constructor; unfold reg_cfg, NewBreakerRegistry, pick_knob; cbn -[Z.mul Z.ltb int64_max];
    match goal with |- context [0 <? ?x] => destruct (Z.ltb_spec 0 x) end;
    unfold int64_max, Second in *; lia.
Qed.

Lemma on_breaker_other {A} k k' (f : CircuitBreaker -> A * CircuitBreaker) b r :
  k <> k' -> breakers (snd (on_breaker k f b r)) !! k' = breakers r !! k'.
Proof. intros Hne. unfold on_breaker. destruct (f b). simpl. by apply lookup_insert_ne. Qed.

Definition snap_key (s : CircuitSnapshot) : breakerKey := (snap_ModelName s, snap_Version s).

(** One breaker's observation: its key, its state at [now] and its tally. *)
Definition observed (now now' : time) (r : breakerRegistry) (s : CircuitSnapshot) : Prop :=
  exists b, breakers r !! snap_key s = Some b /\
    s = fst (snapshot (snap_ModelName s) (snap_Version s) now now' b).

Lemma snapshot_all_spec now now' ks r :
  NoDup ks -> Forall (fun k => is_Some (breakers r !! k)) ks ->
  map snap_key (fst (snapshot_all now now' ks r)) = ks /\
  Forall (observed now now' r) (fst (snapshot_all now now' ks r)) /\
  (forall k, k ∉ ks -> breakers (snd (snapshot_all now now' ks r)) !! k = breakers r !! k).
Proof.
  revert r. induction ks as [|k ks IH]; intros r Hnd Hks; cbn [snapshot_all]; [done |].
  apply list.NoDup_cons in Hnd as [Hk Hnd]. inversion Hks as [| ? ? [b Hb] Hks']; subst.
  rewrite Hb. destruct (on_breaker k (snapshot k.1 k.2 now now') b r) as [s r1] eqn:Eo.
  assert (forall k', k' <> k -> breakers r1 !! k' = breakers r !! k') as Hr1.
  { intros k' Hne. pose proof (on_breaker_other k k' (snapshot k.1 k.2 now now') b r) as Ho.
    rewrite Eo in Ho. by apply Ho. }
  assert (s = fst (snapshot k.1 k.2 now now' b)) as Hs by by injection Eo.
  destruct (IH r1 Hnd) as (H1 & H2 & H3).
  { apply list.Forall_forall. intros k' Hin. rewrite Hr1 by (intros ->; done).
    by eapply list.Forall_forall in Hks'. }
  destruct (snapshot_all now now' ks r1) as [ss r2]. cbn [fst snd map] in *. split; [| split].
  - rewrite H1. f_equal. rewrite Hs. by destruct k.
  - constructor; [exists b; by rewrite Hs; destruct k |].
    apply list.Forall_forall. intros s' Hin. eapply list.Forall_forall in H2 as (b' & Hb' & He); [| done].
    exists b'. split; [| done]. rewrite <- Hr1; [done |]. intros Heq. apply Hk. rewrite <- H1.
    rewrite <- Heq. by apply list_elem_of_fmap_2.
  - intros k' Hn. apply not_elem_of_cons in Hn as [? ?]. rewrite H3 by done. by apply Hr1.
Qed.

(** ** Properties *)

(** The dashboard view is deterministic and complete: whatever order the
    runtime enumerates the map in, [Snapshot] reports exactly the breakers the
    filter asks for, each once, sorted by model and then version, with the state
    it has at that moment; breakers the filter leaves out are untouched. *)
Theorem snapshot_deterministic now now' flt ks r :
  ks ≡ₚ (map_to_list (breakers r)).*1 ->
  let sel := fun k : breakerKey => flt = "" \/ k.1 = flt in
  let '(ss, r') := Snapshot now now' flt ks r in
  map snap_key ss = merge_sort key_le (filter sel (map_to_list (breakers r)).*1) /\
  (forall k, k ∈ map snap_key ss <-> is_Some (breakers r !! k) /\ sel k) /\
  NoDup (map snap_key ss) /\ Forall (observed now now' r) ss /\
  (forall k, ~ sel k -> breakers r' !! k = breakers r !! k).
Proof.
  intros Hks sel. unfold Snapshot. change (filter _ ks) with (filter sel ks).
  rewrite (sort_perm_eq key_le (filter sel ks) (filter sel (map_to_list (breakers r)).*1))
    by (by rewrite Hks).
  set (keys := merge_sort key_le _).
  assert (forall k, k ∈ keys <-> is_Some (breakers r !! k) /\ sel k) as Hel.
  { intros k. unfold keys. rewrite merge_sort_Permutation, list_elem_of_filter, list_elem_of_fmap.
    split.
    - intros (Hs & [k' b] & -> & Hin). apply elem_of_map_to_list in Hin. by split; [eexists |].
    - intros ([b Hb] & Hs). split; [done |]. exists (k, b). split; [done |].
      by apply elem_of_map_to_list. }
  assert (NoDup keys) as Hnd.
  { unfold keys. rewrite merge_sort_Permutation. apply list.NoDup_filter, NoDup_fst_map_to_list. }
  destruct (snapshot_all_spec now now' keys r Hnd) as (H1 & H2 & H3).
  { apply list.Forall_forall. intros k Hk. by apply Hel in Hk as [? _]. }
  destruct (snapshot_all now now' keys r) as [ss r']. simpl in *. rewrite H1.
  split_and!; try done. intros k Hk. apply H3. intros Hin. by apply Hel in Hin as [_ ?].
Qed.

Definition demo_registry : breakerRegistry :=
  let r := NewBreakerRegistry {| FailureThreshold := 2; SuccessThreshold := 0;
                                 ResetTimeout := 0; HalfOpenMaxProbes := 0 |} in
  snd (Get 3 ("bert", "v1") (snd (Get 2 ("iris", "v2") (snd (Get 1 ("iris", "v1") r))))).

Lemma snapshot_deterministic_witness :
  let ks := [("iris", "v2"); ("bert", "v1"); ("iris", "v1")] in
  ks ≡ₚ (map_to_list (breakers demo_registry)).*1 /\
  let sel := fun k : breakerKey => "iris" = "" \/ k.1 = "iris" in
  let '(ss, r') := Snapshot 5 6 "iris" ks demo_registry in
  map snap_key ss = merge_sort key_le (filter sel (map_to_list (breakers demo_registry)).*1) /\
  (forall k, k ∈ map snap_key ss <-> is_Some (breakers demo_registry !! k) /\ sel k) /\
  NoDup (map snap_key ss) /\ Forall (observed 5 6 demo_registry) ss /\
  (forall k, ~ sel k -> breakers r' !! k = breakers demo_registry !! k).
Proof.
  assert ([("iris", "v2"); ("bert", "v1"); ("iris", "v1")]
    ≡ₚ (map_to_list (breakers demo_registry)).*1) as Hks.
  { apply NoDup_Permutation.
    - by apply (bool_decide_unpack _).
    - apply NoDup_fst_map_to_list.
    - intros k. assert ((map_to_list (breakers demo_registry)).*1 ≡ₚ
        [("iris", "v2"); ("bert", "v1"); ("iris", "v1")]) as -> by (apply (bool_decide_unpack _); vm_compute; exact I).
      done. }
  split; [exact Hks |].
  exact (snapshot_deterministic 5 6 "iris" _ demo_registry Hks).
Defined.
