(* ===== verification/Routing.v ===== *)
(** * Routes and the weighted traffic splitter of the inference gateway

    [services/inference-gateway/internal/domain/models.go] (the routing-table
    data) and [traffic_splitter.go] (the choice of a version). Weights are Go
    [int]s: their sums wrap at 64 bits. *)

From S2P Require Import Prelude.

(** ** Errors of the package (errors.go) *)

Inductive ig_sentinel :=
| ErrNoRoute
| ErrRateLimited
| ErrQuotaExceeded
| ErrCircuitOpen
| ErrUpstream
| ErrTimeout
| ErrInvalidInput
| ErrRouteValidation.

#[export] Instance ig_sentinel_dec : EqDecision ig_sentinel.
Proof. solve_decision. Defined.
#[export] Instance ig_sentinels : Sentinels ig_sentinel := {| sentinel_wraps := fun _ => None |}.

Abbreviation ig_error := (error ig_sentinel).

(** ** Data *)

Definition TotalWeightBps : Z := 10000.

Inductive TargetStatus :=
| TargetStatusUnspecified
| TargetStatusActive
| TargetStatusDraining
| TargetStatusUnhealthy.

#[export] Instance TargetStatus_dec : EqDecision TargetStatus.
Proof. solve_decision. Defined.

Definition Eligible (s : TargetStatus) : bool := bool_decide (s = TargetStatusActive).

Record RouteTarget := {
  rt_Version : string;
  rt_Endpoint : string;
  rt_WeightBps : Z;
  rt_Status : TargetStatus;
  rt_IsStable : bool;
}.

#[export] Instance RouteTarget_dec : EqDecision RouteTarget.
Proof. solve_decision. Defined.

Record Route := {
  r_OwnerTeam : string;
  r_ModelName : string;
  r_Targets : list RouteTarget;
  r_UpdatedAt : time;
}.

#[export] Instance Route_dec : EqDecision Route.
Proof. solve_decision. Defined.

Definition NUL : string := String (ascii_of_N 0) EmptyString.

Definition routeKey (team modelName : string) : string := team +:+ NUL +:+ modelName.

Fixpoint targetsWeightSum (sum : Z) (ts : list RouteTarget) : Z :=
  match ts with
  | [] => sum
  | t :: ts =>
      targetsWeightSum (if Eligible (rt_Status t) then wrap64 (sum + rt_WeightBps t) else sum) ts
  end.

Definition ActiveWeightSum (r : Route) : Z := targetsWeightSum 0 (r_Targets r).

Definition IsServing (r : Route) : bool := existsb (fun t => Eligible (rt_Status t)) (r_Targets r).

Definition findTarget (version : string) (r : Route) : option RouteTarget :=
  List.find (fun t => String.eqb (rt_Version t) version) (r_Targets r).

(** ** The splitter *)

Definition eligibleWeightSum (targets : list RouteTarget) : Z := targetsWeightSum 0 targets.

Fixpoint selectFrom (cumulative : Z) (targets : list RouteTarget) (draw : Z)
    : result RouteTarget ig_error :=
  match targets with
  | [] => Err (Sentinel ErrNoRoute)
  | t :: targets =>
      if Eligible (rt_Status t) then
        let cumulative := wrap64 (cumulative + rt_WeightBps t) in
        if draw <? cumulative then Ok t else selectFrom cumulative targets draw
      else selectFrom cumulative targets draw
  end.

Definition selectByDraw (targets : list RouteTarget) (draw : Z) : result RouteTarget ig_error :=
  selectFrom 0 targets draw.

(** [rand] is the injected source: [rand n] is the draw. *)
Definition Pick (rand : Z -> Z) (targets : list RouteTarget) : result RouteTarget ig_error :=
  let total := eligibleWeightSum targets in
  if total <=? 0 then Err (Sentinel ErrNoRoute)
  else selectByDraw targets (rand total).

(** ** Lemmas *)

(** The effective weight of a target. *)
Definition share (t : RouteTarget) : Z := if Eligible (rt_Status t) then rt_WeightBps t else 0.

Fixpoint shares (ts : list RouteTarget) : Z :=
  match ts with [] => 0 | t :: ts => share t + shares ts end.

(** What [validateWeight] lets into a route, for a number of targets a route can have. *)
Definition weights_ok (ts : list RouteTarget) : Prop :=
  Forall (fun t => 0 <= rt_WeightBps t <= TotalWeightBps) ts /\
  Z.of_nat (length ts) * TotalWeightBps <= int64_max.

Lemma share_bounds t :
  0 <= rt_WeightBps t <= TotalWeightBps -> 0 <= share t <= TotalWeightBps.
Proof. unfold share, TotalWeightBps. destruct (Eligible _); lia. Qed.

Lemma shares_bounds ts :
  Forall (fun t => 0 <= rt_WeightBps t <= TotalWeightBps) ts ->
  0 <= shares ts <= Z.of_nat (length ts) * TotalWeightBps.
Proof.
  induction 1 as [|t ts Ht _ IH]; simpl; [lia |].
  apply share_bounds in Ht. unfold TotalWeightBps in *. lia.
Qed.

Lemma shares_app ts us : shares (ts ++ us) = shares ts + shares us.
Proof. induction ts as [|t ts IH]; simpl; lia. Qed.

Lemma weights_ok_split pre t post :
  weights_ok (pre ++ t :: post) ->
  Forall (fun t => 0 <= rt_WeightBps t <= TotalWeightBps) pre /\
  0 <= rt_WeightBps t <= TotalWeightBps /\
  Forall (fun t => 0 <= rt_WeightBps t <= TotalWeightBps) post.
Proof.
  intros [H _]. apply Forall_app in H as [H1 H2]. by inversion H2.
Qed.

(** Bounded weights never overflow a running sum. *)
Lemma targetsWeightSum_shares ts sum :
  Forall (fun t => 0 <= rt_WeightBps t <= TotalWeightBps) ts ->
  0 <= sum -> sum + Z.of_nat (length ts) * TotalWeightBps <= int64_max ->
  targetsWeightSum sum ts = sum + shares ts.
Proof.
  intros H. revert sum. induction H as [|t ts Ht H IH]; intros sum H0 Hs; simpl; [lia |].
  simpl length in Hs. unfold share, TotalWeightBps in *. destruct (Eligible (rt_Status t)).
  - rewrite wrap64_id by (unfold in_int64, int64_min, int64_max in *; lia).
    rewrite IH; lia.
  - rewrite IH; lia.
Qed.

Lemma ActiveWeightSum_shares r :
  weights_ok (r_Targets r) -> ActiveWeightSum r = shares (r_Targets r).
Proof. intros [H1 H2]. unfold ActiveWeightSum. rewrite targetsWeightSum_shares; [lia | done | lia..]. Qed.

Lemma selectFrom_skip pre ts c d :
  Forall (fun t => 0 <= rt_WeightBps t <= TotalWeightBps) pre ->
  0 <= c -> c + Z.of_nat (length pre) * TotalWeightBps <= int64_max ->
  c + shares pre <= d ->
  selectFrom c (pre ++ ts) d = selectFrom (c + shares pre) ts d.
Proof.
  intros H. revert c. induction H as [|t pre Ht H IH]; intros c H0 Hs Hd; simpl.
  - by rewrite Z.add_0_r.
  - simpl in Hs, Hd. pose proof (shares_bounds pre H). unfold share, TotalWeightBps in *.
    destruct (Eligible (rt_Status t)).
    + rewrite wrap64_id by (unfold in_int64, int64_min, int64_max in *; lia).
      rewrite (proj2 (Z.ltb_ge _ _)) by lia. rewrite IH by lia. f_equal. lia.
    + rewrite IH by lia. f_equal.
Qed.

Lemma selectFrom_in ts c d t : selectFrom c ts d = Ok t ->
  t ∈ ts /\ rt_Status t = TargetStatusActive.
Proof.
  revert c. induction ts as [|u ts IH]; intros c; simpl; [done |].
  destruct (Eligible (rt_Status u)) eqn:E; [destruct (d <? _); [intros [= ->] |] |].
  - split; [by left |]. by apply bool_decide_eq_true in E.
  - intros H. apply IH in H as [? ?]. split; [by right | done].
  - intros H. apply IH in H as [? ?]. split; [by right | done].
Qed.

Lemma selectFrom_early pre ts c d :
  Forall (fun t => 0 <= rt_WeightBps t <= TotalWeightBps) pre ->
  0 <= c -> c + Z.of_nat (length pre) * TotalWeightBps <= int64_max ->
  c <= d < c + shares pre ->
  exists u, u ∈ pre /\ 0 < share u /\ selectFrom c (pre ++ ts) d = Ok u.
Proof.
  intros H. revert c. induction H as [|t pre Ht H IH]; intros c H0 Hs Hd; simpl in *; [lia |].
  unfold share at 1 in Hd. unfold TotalWeightBps in *.
  destruct (Eligible (rt_Status t)) eqn:E.
  - rewrite wrap64_id by (unfold in_int64, int64_min, int64_max in *; lia).
    destruct (Z.ltb_spec d (c + rt_WeightBps t)).
    + exists t. split; [by left |]. split; [| done]. unfold share. rewrite E. lia.
    + destruct (IH (c + rt_WeightBps t)) as (u & ? & ? & ?); [lia.. |].
      exists u. split; [by right | done].
  - destruct (IH c) as (u & ? & ? & ?); [lia.. |]. exists u. split; [by right | done].
Qed.

(** The draws that select a target are exactly its band, whose width is its weight. *)
Lemma select_band pre t post d :
  weights_ok (pre ++ t :: post) -> t ∉ pre -> t ∉ post ->
  rt_Status t = TargetStatusActive -> 0 <= d ->
  selectByDraw (pre ++ t :: post) d = Ok t <->
  shares pre <= d < shares pre + rt_WeightBps t.
Proof.
  intros Hw Hpre Hpost Hact Hd. pose proof (weights_ok_split _ _ _ Hw) as (H1 & H2 & H3).
  destruct Hw as [_ Hlen]. rewrite length_app in Hlen. simpl in Hlen.
  pose proof (shares_bounds pre H1). unfold selectByDraw.
  assert (0 + Z.of_nat (length pre) * TotalWeightBps <= int64_max)
    by (unfold TotalWeightBps in *; lia).
  destruct (decide (d < shares pre)) as [Hlt | Hge].
  - destruct (selectFrom_early pre (t :: post) 0 d H1) as (u & Hu & _ & ->); [lia.. |].
    split; [intros [= ->]; by destruct Hpre | lia].
  - rewrite selectFrom_skip, Z.add_0_l by (done || lia). simpl. rewrite Hact. simpl. unfold TotalWeightBps in *.
    rewrite wrap64_id by (unfold in_int64, int64_min, int64_max in *; lia).
    destruct (Z.ltb_spec d (shares pre + rt_WeightBps t)); [split; [lia | done] |].
    split; [| lia]. intros Hs. apply selectFrom_in in Hs as [? _]. by destruct Hpost.
Qed.

(** Copies of a target are told apart by their version label. *)
Definition versions (ts : list RouteTarget) : list string := map rt_Version ts.

Lemma version_not_in t ts : rt_Version t ∉ versions ts -> t ∉ ts.
Proof. intros H Hin. apply H. by apply list_elem_of_fmap_2. Qed.

Lemma versions_split pre t post :
  NoDup (versions (pre ++ t :: post)) -> (t ∉ pre) /\ (t ∉ post).
Proof.
  unfold versions. rewrite map_app. simpl. intros H.
  apply list.NoDup_app in H as (_ & Hd & H). apply list.NoDup_cons in H as [Hn _].
  split; [| by apply version_not_in].
  apply version_not_in. intros Hin. apply (Hd _ Hin). by left.
Qed.

Lemma eligible_status t : Eligible (rt_Status t) = true <-> rt_Status t = TargetStatusActive.
Proof. apply bool_decide_eq_true. Qed.

(** ** Properties *)

(** The split is exact: out of the [total] possible draws, an eligible target
    of a route with distinct version labels is selected by exactly as many draws
    as its weight in basis points, so a uniform source gives it the share
    [weight / total]. *)
Theorem splitter_exact_share ts t :
  weights_ok ts -> NoDup (versions ts) -> t ∈ ts -> rt_Status t = TargetStatusActive ->
  Z.of_nat (length (filter (fun d => selectByDraw ts d = Ok t)
    (seqZ 0 (eligibleWeightSum ts)))) = rt_WeightBps t.
Proof.
  intros Hw Hnd Hin Hact. apply list_elem_of_split in Hin as (pre & post & ->).
  destruct (versions_split _ _ _ Hnd) as [Hpre Hpost].
  pose proof (weights_ok_split _ _ _ Hw) as (H1 & H2 & H3).
  pose proof (shares_bounds pre H1). pose proof (shares_bounds post H3).
  assert (eligibleWeightSum (pre ++ t :: post) = shares pre + (rt_WeightBps t + shares post)) as ->.
  { unfold eligibleWeightSum. destruct Hw as [Hw1 Hw2].
    rewrite targetsWeightSum_shares by (done || lia). rewrite shares_app. simpl.
    unfold share at 1. rewrite (proj2 (eligible_status t) Hact). lia. }
  etransitivity;
    [| apply (count_band (shares pre) (rt_WeightBps t) (shares pre + (rt_WeightBps t + shares post))); lia].
  do 2 f_equal. apply list_filter_iff'. intros d Hd. apply elem_of_seqZ in Hd.
  apply select_band; done || lia.
Qed.

(** With a draw in range, [Pick] returns a target exactly when some eligible
    weight is positive, and the target it returns is one of the route's, ACTIVE
    and of positive weight; otherwise it returns [ErrNoRoute]. *)
Theorem pick_total rand ts :
  weights_ok ts -> (forall n, 0 < n -> 0 <= rand n < n) ->
  match Pick rand ts with
  | Ok t => t ∈ ts /\ rt_Status t = TargetStatusActive /\ 0 < rt_WeightBps t
  | Err e => e = Sentinel ErrNoRoute /\
             Forall (fun t => rt_Status t = TargetStatusActive -> rt_WeightBps t = 0) ts
  end.
Proof.
  intros [H1 H2] Hrand. unfold Pick, eligibleWeightSum.
  rewrite targetsWeightSum_shares by (done || lia). rewrite Z.add_0_l.
  destruct (Z.leb_spec (shares ts) 0) as [Hz | Hp].
  - split; [done |]. clear Hrand H2. induction H1 as [|t ts Ht H IH]; [constructor |].
    simpl in Hz. pose proof (shares_bounds ts H). pose proof (share_bounds t Ht).
    constructor; [| apply IH; lia]. intros Ha. unfold share in *.
    rewrite (proj2 (eligible_status t) Ha) in *. lia.
  - specialize (Hrand _ Hp).
    destruct (selectFrom_early ts [] 0 (rand (shares ts)) H1) as (u & Hu & Hs & He); [lia.. |].
    unfold selectByDraw. rewrite app_nil_r in He. rewrite He.
    apply selectFrom_in in He as [_ Ha]. unfold share in Hs.
    rewrite (proj2 (eligible_status u) Ha) in Hs. done.
Qed.

Definition canary_targets : list RouteTarget :=
  [{| rt_Version := "v1"; rt_Endpoint := "iris-v1:9090"; rt_WeightBps := 9000;
      rt_Status := TargetStatusActive; rt_IsStable := true |};
   {| rt_Version := "v2"; rt_Endpoint := "iris-v2:9090"; rt_WeightBps := 1000;
      rt_Status := TargetStatusActive; rt_IsStable := false |};
   {| rt_Version := "v0"; rt_Endpoint := "iris-v0:9090"; rt_WeightBps := 500;
      rt_Status := TargetStatusDraining; rt_IsStable := false |}].

Definition canary : RouteTarget :=
  {| rt_Version := "v2"; rt_Endpoint := "iris-v2:9090"; rt_WeightBps := 1000;
     rt_Status := TargetStatusActive; rt_IsStable := false |}.

Lemma canary_weights_ok : weights_ok canary_targets.
Proof.
  split; [| by vm_compute]. repeat (constructor; [vm_compute; intuition discriminate |]). constructor.
Qed.

Lemma canary_versions : NoDup (versions canary_targets).
Proof. by apply (bool_decide_unpack _). Qed.

Lemma splitter_exact_share_witness :
  Z.of_nat (length (filter (fun d => selectByDraw canary_targets d = Ok canary)
    (seqZ 0 (eligibleWeightSum canary_targets)))) = 1000.
Proof.
  apply (splitter_exact_share canary_targets canary);
    [apply canary_weights_ok | apply canary_versions | | reflexivity].
  right. left.
Defined.

Lemma pick_total_witness :
  match Pick (fun n => n - 1) canary_targets with
  | Ok t => t ∈ canary_targets /\ rt_Status t = TargetStatusActive /\ 0 < rt_WeightBps t
  | Err e => e = Sentinel ErrNoRoute /\
      Forall (fun t => rt_Status t = TargetStatusActive -> rt_WeightBps t = 0) canary_targets
  end.
Proof. apply pick_total; [apply canary_weights_ok | intros; lia]. Defined.
