(* ===== verification/RouteStore.v ===== *)
(** * The route store of the inference gateway

    The port [RouteStore] of [services/inference-gateway/internal/domain/ports.go]
    as a type class with its contract, and its implementation
    [internal/repository/redis/route_store.go]: an in-memory table, authoritative
    for reads, mirrored to a Redis hash that a new replica warms from. *)

From S2P Require Import Prelude Routing.

(** ** The port *)

Record ListOptions := { PageSize : Z; PageToken : string }.

Class RouteStorePort (W : Type) : Type := {
  rs_Get : string -> W -> result Route ig_error;
  rs_Upsert : string -> Route -> W -> option ig_error * W;
  rs_Delete : string -> W -> option ig_error * W;
  rs_List : ListOptions -> W -> result (list Route * string) ig_error;
}.

(** The contract a client may rely on: [Get] reads what the last [Upsert] of the
    key wrote and [Delete] removes it, whatever error the mirror reports. *)
Class RouteStoreLaws (W : Type) `{RouteStorePort W} : Type := {
  rs_table : W -> gmap string Route;
  rs_Get_spec k w :
    rs_Get k w = match rs_table w !! k with Some r => Ok r | None => Err (Sentinel ErrNoRoute) end;
  rs_Upsert_spec k r w : rs_table (snd (rs_Upsert k r w)) = <[k := r]> (rs_table w);
  rs_Delete_spec k w : rs_table (snd (rs_Delete k w)) = delete k (rs_table w);
}.

(** ** Redis, as the adapter uses it

    A hash that [HSET], [HDEL] and [HGETALL] address; every command may fail. *)
Class RedisHash (R : Type) : Type := {
  HSet : string -> string -> R -> option R;
  HDel : string -> R -> option R;
  HGetAll : R -> option (gmap string string);
}.

(** The documented behaviour of the three commands: one that succeeds writes,
    removes or reads the fields of the hash. *)
Class RedisHashLaws (R : Type) `{RedisHash R} : Type := {
  fields : R -> gmap string string;
  HSet_spec k v r r' : HSet k v r = Some r' -> fields r' = <[k := v]> (fields r);
  HDel_spec k r r' : HDel k r = Some r' -> fields r' = delete k (fields r);
  HGetAll_spec r m : HGetAll r = Some m -> m = fields r;
}.

(** ** The adapter *)

Section adapter.
Context {R : Type} `{RedisHash R}.
(** [encoding/json] on a [Route]. *)
Context (json_Marshal : Route -> option string) (json_Unmarshal : string -> option Route).

Record RouteStore := { table : gmap string Route; rdb : R }.

Definition NewRouteStore (r : R) : RouteStore := {| table := ∅; rdb := r |}.

Definition cloneRoute (r : Route) : Route :=
  {| r_OwnerTeam := r_OwnerTeam r; r_ModelName := r_ModelName r;
     r_Targets := r_Targets r; r_UpdatedAt := r_UpdatedAt r |}.

Definition Get (key : string) (s : RouteStore) : result Route ig_error :=
  match table s !! key with
  | None => Err (Sentinel ErrNoRoute)
  | Some r => Ok (cloneRoute r)
  end.

Definition Upsert (key : string) (route : Route) (s : RouteStore) : option ig_error * RouteStore :=
  let stored := cloneRoute route in
  let table' := <[key := stored]> (table s) in
  match json_Marshal stored with
  | None => (Some (Wrap "redisrepo: marshal route for mirror" (External "encoding/json")),
             {| table := table'; rdb := rdb s |})
  | Some blob =>
      match HSet key blob (rdb s) with
      | None => (Some (Wrap "redisrepo: mirror upsert route" (External "redis")),
                 {| table := table'; rdb := rdb s |})
      | Some rdb' => (None, {| table := table'; rdb := rdb' |})
      end
  end.

Definition Delete (key : string) (s : RouteStore) : option ig_error * RouteStore :=
  let table' := delete key (table s) in
  match HDel key (rdb s) with
  | None => (Some (Wrap "redisrepo: mirror delete route" (External "redis")),
             {| table := table'; rdb := rdb s |})
  | Some rdb' => (None, {| table := table'; rdb := rdb' |})
  end.

(** The names in the order [sort.Strings] gives them, whatever order the map
    iteration produced. *)
Definition names (s : RouteStore) : list string := merge_sort str_le (map_to_list (table s)).*1.

(** The handler caps [PageSize] at 100, so that [start + pageSize] is exact. *)
Definition List (opts : ListOptions) (s : RouteStore) : list Route * string :=
  let pageSize := if PageSize opts <=? 0 then 50 else PageSize opts in
  let ns := names s in
  let start := if String.eqb (PageToken opts) "" then 0%nat
    else sort_Search (length ns)
           (fun i => match ns !! i with Some n => str_lt (PageToken opts) n | None => true end) in
  let stop := let e := Z.of_nat start + pageSize in
    if Z.of_nat (length ns) <? e then length ns else Z.to_nat e in
  let page := drop start (take stop ns) in
  let out := omap (fun name => cloneRoute <$> table s !! name) page in
  let nextToken := if (stop <? length ns)%nat then default "" (ns !! (stop - 1)%nat) else "" in
  (out, nextToken).

(** [Warm]'s loop over the fields: one blob that does not decode fails the whole. *)
Definition decode_fields (m : gmap string string) : option (gmap string Route) :=
  if decide (map_Forall (fun _ blob => is_Some (json_Unmarshal blob)) m)
  then Some (omap json_Unmarshal m) else None.

Definition Warm (s : RouteStore) : option ig_error * RouteStore :=
  match HGetAll (rdb s) with
  | None => (Some (Wrap "redisrepo: warm route table from mirror" (External "redis")), s)
  | Some m =>
      match decode_fields m with
      | None => (Some (Wrap "redisrepo: warm: unmarshal route" (External "encoding/json")), s)
      | Some loaded => (None, {| table := loaded; rdb := rdb s |})
      end
  end.

Lemma cloneRoute_id r : cloneRoute r = r.
Proof. by destruct r. Qed.

(** *** The adapter implements the port *)

#[export] Instance route_store_port : RouteStorePort RouteStore := {|
  rs_Get := Get; rs_Upsert := Upsert; rs_Delete := Delete;
  rs_List opts s := Ok (List opts s) |}.

#[export] Instance route_store_laws : RouteStoreLaws RouteStore.
Proof.
  refine {| rs_table := table |}.
  - intros k w. simpl. unfold Get. destruct (table w !! k); [by rewrite cloneRoute_id | done].
  - intros k r w. simpl. unfold Upsert. rewrite cloneRoute_id.
    destruct (json_Marshal r); [| done]. by destruct (HSet _ _ _).
  - intros k w. simpl. unfold Delete. by destruct (HDel _ _).
Defined.
End adapter.
Arguments RouteStore : clear implicits.
Arguments Get {R}.
Arguments List {R}.
Arguments names {R}.

(** ** The mirror *)

Section mirror.
Context {R : Type} `{RedisHashLaws R}.
Context (json_Marshal : Route -> option string) (json_Unmarshal : string -> option Route).

Inductive store_op := OUpsert (key : string) (route : Route) | ODelete (key : string).

Definition store_step (o : store_op) (s : RouteStore R) : option ig_error * RouteStore R :=
  match o with
  | OUpsert k r => Upsert json_Marshal k r s
  | ODelete k => Delete k s
  end.

Definition store_run (os : list store_op) (s : RouteStore R) : RouteStore R :=
  fold_left (fun s o => snd (store_step o s)) os s.

(** No operation of the history reported an error. *)
Fixpoint store_run_ok (os : list store_op) (s : RouteStore R) : Prop :=
  match os with
  | [] => True
  | o :: os => fst (store_step o s) = None /\ store_run_ok os (snd (store_step o s))
  end.

(** The mirror decodes to the table. *)
Definition synced (s : RouteStore R) : Prop :=
  forall k, (fields (rdb s) !! k) ≫= json_Unmarshal = table s !! k /\
    (is_Some (fields (rdb s) !! k) -> is_Some (table s !! k)).

Hypothesis json_roundtrip : forall r blob, json_Marshal r = Some blob -> json_Unmarshal blob = Some r.

Lemma synced_step o s :
  synced s -> fst (store_step o s) = None -> synced (snd (store_step o s)).
Proof.
  intros Hs He k. destruct o as [k' r | k']; simpl in *.
  - unfold Upsert in *. rewrite cloneRoute_id in *.
    destruct (json_Marshal r) as [blob|] eqn:Em; [| done].
    destruct (HSet k' blob (rdb s)) as [r'|] eqn:Eh; [| done]. simpl.
    apply HSet_spec in Eh. rewrite Eh. destruct (decide (k' = k)) as [-> | Hne].
    + rewrite !lookup_insert_eq. simpl. split; [by apply json_roundtrip | by eexists].
    + rewrite !lookup_insert_ne by done. apply Hs.
  - unfold Delete in *. destruct (HDel k' (rdb s)) as [r'|] eqn:Eh; [| done]. simpl.
    apply HDel_spec in Eh. rewrite Eh. destruct (decide (k' = k)) as [-> | Hne].
    + rewrite !lookup_delete_eq. split; [done | by intros [? ?]].
    + rewrite !lookup_delete_ne by done. apply Hs.
Qed.

Lemma synced_run os s : synced s -> store_run_ok os s -> synced (store_run os s).
Proof.
  revert s. induction os as [|o os IH]; intros s Hs Hok; [done |].
  destruct Hok as [He Hok]. apply IH; [by apply synced_step | done].
Qed.

Lemma decode_synced s : synced s -> decode_fields json_Unmarshal (fields (rdb s)) = Some (table s).
Proof.
  intros Hs. unfold decode_fields. rewrite decide_True.
  - f_equal. apply map_eq. intros k. rewrite lookup_omap. apply Hs.
  - intros k blob Hk. destruct (Hs k) as [H1 H2]. rewrite Hk in H1. simpl in H1.
    rewrite H1. apply H2. by rewrite Hk.
Qed.

(** The mirror is a faithful backup: after any history of upserts and deletes
    that reported no error, on a hash that was empty, a fresh replica that warms
    from the hash holds exactly the table of the replica that wrote it. *)
Theorem warm_restores_table r0 os e s' :
  fields r0 = ∅ -> store_run_ok os (NewRouteStore r0) ->
  Warm json_Unmarshal (NewRouteStore (rdb (store_run os (NewRouteStore r0)))) = (e, s') ->
  is_Some (HGetAll (rdb (store_run os (NewRouteStore r0)))) ->
  e = None /\ table s' = table (store_run os (NewRouteStore r0)).
Proof.
  intros Hnil Hok Hw [m Hm]. assert (synced (NewRouteStore r0)) as Hs.
  { intros k. simpl. rewrite Hnil, !lookup_empty. split; [done | by intros [? ?]]. }
  apply (synced_run os) in Hs; [| done].
  unfold Warm in Hw. simpl in Hw. rewrite Hm in Hw. apply HGetAll_spec in Hm. subst m.
  rewrite decode_synced in Hw by done. by injection Hw as <- <-.
Qed.
End mirror.

(** ** Pages *)

Section pages.
Context {R : Type}.
Implicit Types s : RouteStore R.

(** A client that follows [nextToken] from [token] on, for at most [fuel] pages. *)
Fixpoint follow (fuel : nat) (pageSize : Z) (token : string) s : list Route :=
  match fuel with
  | O => []
  | S fuel =>
      let '(page, next) := List {| PageSize := pageSize; PageToken := token |} s in
      if String.eqb next "" then page else page ++ follow fuel pageSize next s
  end.

Definition routes_of s (ns : list string) : list Route := omap (fun n => table s !! n) ns.

Lemma names_perm s : names s ≡ₚ (map_to_list (table s)).*1.
Proof. apply merge_sort_Permutation. Qed.

Lemma names_NoDup s : NoDup (names s).
Proof. rewrite names_perm. apply NoDup_fst_map_to_list. Qed.

Lemma names_sorted s : StronglySorted str_le (names s).
Proof. apply StronglySorted_merge_sort; apply _. Qed.

Lemma names_elem s k : k ∈ names s <-> is_Some (table s !! k).
Proof.
  rewrite names_perm, list_elem_of_fmap. split.
  - intros ((k' & r) & -> & Hin). apply elem_of_map_to_list in Hin. by eexists.
  - intros [r Hr]. exists (k, r). split; [done | by apply elem_of_map_to_list].
Qed.

Lemma sorted_lookup_lt (l : list string) i j a b :
  StronglySorted str_le l -> NoDup l -> (i < j)%nat -> l !! i = Some a -> l !! j = Some b ->
  str_lt a b = true.
Proof.
  intros Hs. revert i j. induction Hs as [|x l Hs IH Hx]; intros i j Hnd Hij Hi Hj; [done |].
  apply list.NoDup_cons in Hnd as [Hn Hnd]. destruct j as [|j]; [lia |].
  destruct i as [|i]; simpl in *.
  - injection Hi as ->. apply str_lt_spec. pose proof (list_elem_of_lookup_2 _ _ _ Hj).
    split; [by rewrite list.Forall_forall in Hx; apply Hx | by intros ->].
  - eapply IH; [done | | done..]. lia.
Qed.

Lemma str_lt_irrefl a : str_lt a a = false.
Proof. destruct (str_lt a a) eqn:E; [| done]. apply str_lt_spec in E as [_ []]. done. Qed.

Lemma str_lt_asym a b : str_lt a b = true -> str_lt b a = false.
Proof.
  intros H. destruct (str_lt b a) eqn:E; [| done].
  apply str_lt_spec in H as [H1 H2], E as [H3 _]. by destruct H2; apply (anti_symm str_le).
Qed.

(** The binary search for a name of the table ends just after it. *)
Lemma search_name s k token :
  names s !! k = Some token ->
  sort_Search (length (names s))
    (fun i => match names s !! i with Some n => str_lt token n | None => true end) = S k.
Proof.
  intros Hk. set (f := fun i => match names s !! i with Some n => str_lt token n | None => true end).
  assert (forall i, f i = true <-> (k < i)%nat) as Hf.
  { intros i. unfold f. destruct (names s !! i) as [n|] eqn:Ei.
    - destruct (Nat.lt_trichotomy i k) as [Hlt | [-> | Hgt]].
      + pose proof (sorted_lookup_lt _ _ _ _ _ (names_sorted s) (names_NoDup s) Hlt Ei Hk) as H.
        apply str_lt_asym in H. rewrite H. split; [done | lia].
      + replace n with token by congruence. rewrite str_lt_irrefl. split; [done | lia].
      + by rewrite (sorted_lookup_lt _ _ _ _ _ (names_sorted s) (names_NoDup s) Hgt Hk Ei).
    - apply lookup_ge_None in Ei. apply lookup_lt_Some in Hk. split; [lia | done]. }
  destruct (sort_Search_spec (length (names s)) f) as (H1 & H2 & H3).
  { intros a b Hab Ha. apply Hf. apply Hf in Ha. lia. }
  apply lookup_lt_Some in Hk.
  assert (~ (sort_Search (length (names s)) f < S k)%nat) by
    (intros ?; destruct H3 as [H3 | H3]; [lia | apply Hf in H3; lia]).
  assert (~ (S k < sort_Search (length (names s)) f)%nat) by
    (intros Hlt; specialize (H2 _ Hlt); assert (f (S k) = true) by (apply Hf; lia); congruence).
  lia.
Qed.
Definition at_name s (k : nat) (token : string) : Prop :=
  (k = 0%nat /\ token = "") \/ (exists k', k = S k' /\ names s !! k' = Some token).

Definition effective (pageSize : Z) : nat := Z.to_nat (if pageSize <=? 0 then 50 else pageSize).

Lemma stop_min (n k : nat) p :
  0 < p ->
  (if Z.of_nat n <? Z.of_nat k + p then n else Z.to_nat (Z.of_nat k + p))
    = ((k + Z.to_nat p) `min` n)%nat.
Proof. intros. destruct (Z.ltb_spec (Z.of_nat n) (Z.of_nat k + p)); lia. Qed.

Lemma routes_of_clone s ns : omap (fun n => cloneRoute <$> table s !! n) ns = routes_of s ns.
Proof.
  induction ns as [|n ns IH]; [done |]. unfold routes_of in *. csimpl.
  destruct (table s !! n); simpl; rewrite ?cloneRoute_id; by rewrite IH.
Qed.

Lemma list_page s ps k token :
  "" ∉ names s -> at_name s k token ->
  let stop := ((k + effective ps) `min` length (names s))%nat in
  List {| PageSize := ps; PageToken := token |} s =
  (routes_of s (drop k (take stop (names s))),
   if (stop <? length (names s))%nat then default "" (names s !! (stop - 1)%nat) else "").
Proof.
  intros Hne Hat stop. unfold List. simpl PageSize. simpl PageToken.
  assert ((if String.eqb token "" then 0%nat
    else sort_Search (length (names s))
      (fun i => match names s !! i with Some n => str_lt token n | None => true end)) = k) as ->.
  { destruct Hat as [[-> ->] | (k' & -> & Hk)]; [done |].
    destruct (String.eqb_spec token "") as [-> | _]; [| by apply search_name].
    destruct Hne. by apply list_elem_of_lookup_2 in Hk. }
  rewrite routes_of_clone.
  rewrite stop_min; [done |]. destruct (Z.leb_spec ps 0); lia.
Qed.

Lemma routes_of_app s ns1 ns2 : routes_of s (ns1 ++ ns2) = routes_of s ns1 ++ routes_of s ns2.
Proof. apply omap_app. Qed.

Lemma follow_from s ps fuel k token :
  "" ∉ names s -> at_name s k token -> (length (names s) - k < fuel)%nat ->
  follow fuel ps token s = routes_of s (drop k (names s)).
Proof.
  intros Hne. revert k token. induction fuel as [|fuel IH]; intros k token Hat Hf; [lia |].
  assert (0 < effective ps)%nat by (unfold effective; destruct (Z.leb_spec ps 0); lia).
  cbn [follow]. rewrite (list_page s ps k token Hne Hat).
  set (stop := ((k + effective ps) `min` length (names s))%nat).
  destruct (Nat.ltb_spec stop (length (names s))) as [Hlt | Hge].
  - assert (stop = (k + effective ps)%nat) as Hstop by lia.
    destruct (lookup_lt_is_Some_2 (names s) (stop - 1)) as [tok Htok]; [lia |].
    rewrite Htok. simpl. destruct (String.eqb_spec tok "") as [-> | _].
    { destruct Hne. by apply list_elem_of_lookup_2 in Htok. }
    rewrite (IH stop tok); [| right; exists (stop - 1)%nat; split; [lia | done] | lia].
    rewrite <- routes_of_app. f_equal.
    rewrite skipn_firstn_comm.
    replace (drop stop (names s)) with (drop (stop - k) (drop k (names s)))
      by (rewrite drop_drop; f_equal; lia). apply take_drop.
  - simpl. f_equal. rewrite take_ge by lia. done.
Qed.

(** Following the page tokens visits the whole table: for any page size, a
    client that starts without a token and follows [nextToken] until it is empty
    gets every route of the table exactly once, in the order of the store's keys,
    in at most one page more than there are routes. *)
Theorem pages_cover_table s ps :
  table s !! "" = None ->
  follow (S (size (table s))) ps "" s = omap (fun k => table s !! k) (names s) /\
  StronglySorted str_le (names s) /\
  follow (S (size (table s))) ps "" s ≡ₚ (map_to_list (table s)).*2.
Proof.
  intros Hnil. assert ("" ∉ names s) as Hne by (rewrite names_elem, Hnil; by intros [? ?]).
  assert (length (names s) = size (table s)) as Hlen
    by by rewrite names_perm, length_fmap, length_map_to_list.
  rewrite (follow_from s ps _ 0 "" Hne) by (lia || by left). rewrite drop_0.
  split; [done |]. split; [apply names_sorted |]. unfold routes_of. rewrite names_perm.
  apply reflexive_eq. assert (forall l, Forall (fun p => table s !! p.1 = Some p.2) l ->
    omap (fun n => table s !! n) l.*1 = l.*2) as Hl.
  { induction 1 as [|[k r] l Hk _ IH]; [done |]. csimpl in *. rewrite Hk. by f_equal. }
  apply Hl. apply list.Forall_forall. intros [k r] Hin. by apply elem_of_map_to_list in Hin.
Qed.
End pages.

(** ** The properties at concrete inputs *)

#[export] Instance TargetStatus_countable : Countable TargetStatus.
Proof.
  refine (inj_countable'
    (fun s => match s with TargetStatusUnspecified => 0 | TargetStatusActive => 1
              | TargetStatusDraining => 2 | TargetStatusUnhealthy => 3 end%nat)
    (fun n => match n with 0 => TargetStatusUnspecified | 1 => TargetStatusActive
              | 2 => TargetStatusDraining | _ => TargetStatusUnhealthy end%nat) _).
  by intros [].
Defined.

#[export] Instance RouteTarget_countable : Countable RouteTarget.
Proof.
  refine (inj_countable'
    (fun t => (rt_Version t, rt_Endpoint t, rt_WeightBps t, rt_Status t, rt_IsStable t))
    (fun '(v, e, w, s, b) => Build_RouteTarget v e w s b) _).
  by intros [].
Defined.

#[export] Instance Route_countable : Countable Route.
Proof.
  refine (inj_countable' (fun r => (r_OwnerTeam r, r_ModelName r, r_Targets r, r_UpdatedAt r))
    (fun '(o, m, t, u) => Build_Route o m t u) _).
  by intros [].
Defined.

(** A Redis that is always reachable. *)
#[export] Instance up_redis : RedisHash (gmap string string) := {|
  HSet k v r := Some (<[k := v]> r); HDel k r := Some (delete k r); HGetAll r := Some r |}.
#[export] Instance up_redis_laws : RedisHashLaws (gmap string string).
Proof. refine {| fields := fun r => r |}; by intros; simplify_eq/=. Defined.

Definition iris_route : Route := {|
  r_OwnerTeam := "a"; r_ModelName := "iris"; r_Targets := canary_targets; r_UpdatedAt := 7 |}.

Definition two_ops : list store_op :=
  [OUpsert (routeKey "a" "iris") iris_route; OUpsert "b" iris_route; ODelete "b"].

Definition writer : RouteStore (gmap string string) :=
  store_run encode_text two_ops (NewRouteStore ∅).

Definition replica : option ig_error * RouteStore (gmap string string) :=
  Warm decode_text (NewRouteStore (rdb writer)).

Lemma warm_restores_table_witness :
  fst replica = None /\ table (snd replica) = table writer.
Proof.
  refine (warm_restores_table encode_text decode_text decode_encode_text ∅ two_ops
    (fst replica) (snd replica) _ _ _ _).
  - reflexivity.
  - vm_compute. tauto.
  - unfold writer. symmetry. apply surjective_pairing.
  - by eexists.
Defined.

Definition three_routes : RouteStore (gmap string string) :=
  {| table := {["a" := iris_route; "c" := iris_route; "b" := iris_route]}; rdb := ∅ |}.

Lemma pages_cover_table_witness :
  follow (S (size (table three_routes))) 2 "" three_routes =
    omap (fun k => table three_routes !! k) (names three_routes) /\
  StronglySorted str_le (names three_routes) /\
  follow (S (size (table three_routes))) 2 "" three_routes ≡ₚ (map_to_list (table three_routes)).*2.
Proof. apply pages_cover_table. reflexivity. Defined.
