(* ===== verification/RouteService.v ===== *)
(** * The routing control plane of the inference gateway

    The admin operations and event reactions of
    [services/inference-gateway/internal/domain/inference_service_impl.go] over
    any store that keeps the contract of [RouteStorePort]. [now] is the reading
    of the service's clock an operation stamps its route with. *)

From S2P Require Import Prelude Routing RouteStore.

(** ** Inputs (inference_service.go) *)

Record ProposedTarget := { pt_Version : string; pt_WeightBps : Z }.
Record TrafficWeight := { tw_Version : string; tw_WeightBps : Z }.

Record ModelDeployed := {
  md_OwnerTeam : string; md_ModelName : string; md_Version : string;
  md_Endpoint : string; md_WeightBps : Z }.
Record ModelUndeployed := {
  mu_OwnerTeam : string; mu_ModelName : string; mu_Version : string; mu_Reason : string }.
Record ModelPromoted := {
  mp_OwnerTeam : string; mp_ModelName : string; mp_Version : string; mp_DemotedVersion : string }.
Record ModelArchived := { ma_OwnerTeam : string; ma_ModelName : string }.

(** ** Validation *)

Definition route_err (text : string) : ig_error := Wrap text (Sentinel ErrRouteValidation).

Definition validateWeight (bps : Z) : option ig_error :=
  if (bps <? 0) || (TotalWeightBps <? bps) then Some (route_err "weight_bps out of range") else None.

Definition validateActiveWeightSum (route : Route) : option ig_error :=
  let sum := ActiveWeightSum route in
  if negb (sum =? TotalWeightBps) then Some (route_err "active weights do not sum to 10000") else None.

(** ** Target lists *)

(** [t := findTarget(version)] followed by writes through [t]: the first match changes. *)
Fixpoint update_first (version : string) (f : RouteTarget -> RouteTarget) (ts : list RouteTarget)
    : list RouteTarget :=
  match ts with
  | [] => []
  | t :: ts => if String.eqb (rt_Version t) version then f t :: ts else t :: update_first version f ts
  end.

Definition has_version (version : string) (ts : list RouteTarget) : bool :=
  existsb (fun t => String.eqb (rt_Version t) version) ts.

Definition set_targets (ts : list RouteTarget) (now : time) (r : Route) : Route :=
  {| r_OwnerTeam := r_OwnerTeam r; r_ModelName := r_ModelName r; r_Targets := ts; r_UpdatedAt := now |}.

Definition endpoint_map (ts : list RouteTarget) : gmap string string :=
  foldl (fun m t => <[rt_Version t := rt_Endpoint t]> m) ∅ ts.
Definition stable_map (ts : list RouteTarget) : gmap string bool :=
  foldl (fun m t => <[rt_Version t := rt_IsStable t]> m) ∅ ts.

(** [UpsertRoute]'s loop over the proposal. *)
Fixpoint build_targets (endpointOf : gmap string string) (stableOf : gmap string bool)
    (seen : gset string) (proposed : list ProposedTarget) : result (list RouteTarget) ig_error :=
  match proposed with
  | [] => Ok []
  | pt :: proposed =>
      if String.eqb (pt_Version pt) "" then Err (route_err "a target has an empty version")
      else if bool_decide (pt_Version pt ∈ seen) then Err (route_err "duplicate version")
      else match validateWeight (pt_WeightBps pt) with
      | Some e => Err e
      | None =>
          match endpointOf !! pt_Version pt with
          | None => Err (route_err "no resolved endpoint for version (deploy it first)")
          | Some endpoint =>
              if String.eqb endpoint "" then
                Err (route_err "no resolved endpoint for version (deploy it first)")
              else
                rbind (build_targets endpointOf stableOf ({[pt_Version pt]} ∪ seen) proposed)
                  (fun ts => Ok ({| rt_Version := pt_Version pt; rt_Endpoint := endpoint;
                     rt_WeightBps := pt_WeightBps pt; rt_Status := TargetStatusActive;
                     rt_IsStable := default false (stableOf !! pt_Version pt) |} :: ts))
          end
      end
  end.

Definition reweigh (bps : Z) (t : RouteTarget) : RouteTarget := {|
  rt_Version := rt_Version t; rt_Endpoint := rt_Endpoint t; rt_WeightBps := bps;
  rt_Status := match rt_Status t with TargetStatusUnspecified => TargetStatusActive | s => s end;
  rt_IsStable := rt_IsStable t |}.

(** [SetTrafficSplit]'s loop over the weights, on the cloned targets. *)
Fixpoint apply_weights (seen : gset string) (weights : list TrafficWeight) (ts : list RouteTarget)
    : result (list RouteTarget) ig_error :=
  match weights with
  | [] => Ok ts
  | w :: weights =>
      if bool_decide (tw_Version w ∈ seen) then Err (route_err "duplicate version")
      else match validateWeight (tw_WeightBps w) with
      | Some e => Err e
      | None =>
          if has_version (tw_Version w) ts then
            apply_weights ({[tw_Version w]} ∪ seen) weights
              (update_first (tw_Version w) (reweigh (tw_WeightBps w)) ts)
          else Err (route_err "unknown version in route")
      end
  end.

Definition redeploy (ev : ModelDeployed) (t : RouteTarget) : RouteTarget := {|
  rt_Version := rt_Version t; rt_Endpoint := md_Endpoint ev; rt_WeightBps := md_WeightBps ev;
  rt_Status := TargetStatusActive; rt_IsStable := rt_IsStable t |}.

Definition deploy_targets (ev : ModelDeployed) (ts : list RouteTarget) : list RouteTarget :=
  if has_version (md_Version ev) ts then update_first (md_Version ev) (redeploy ev) ts
  else ts ++ [{| rt_Version := md_Version ev; rt_Endpoint := md_Endpoint ev;
                 rt_WeightBps := md_WeightBps ev; rt_Status := TargetStatusActive;
                 rt_IsStable := bool_decide (ts = []) |}].

Definition promote_targets (ev : ModelPromoted) (ts : list RouteTarget) : list RouteTarget :=
  map (fun t =>
    if String.eqb (rt_Version t) (mp_Version ev) then
      {| rt_Version := rt_Version t; rt_Endpoint := rt_Endpoint t; rt_WeightBps := TotalWeightBps;
         rt_Status := TargetStatusActive; rt_IsStable := true |}
    else
      {| rt_Version := rt_Version t; rt_Endpoint := rt_Endpoint t; rt_WeightBps := 0;
         rt_Status := TargetStatusDraining; rt_IsStable := false |}) ts.

(** ** Operations *)

Section service.
Context {W : Type} `{RouteStorePort W}.

Definition GetRoute (team modelName : string) (w : W) : result Route ig_error :=
  rs_Get (routeKey team modelName) w.

Definition ListRoutes (team : string) (opts : ListOptions) (w : W)
    : result (list Route * string) ig_error :=
  rbind (rs_List opts w)
    (fun '(all, next) => Ok (filter (fun r => r_OwnerTeam r = team) all, next)).

Definition UpsertRoute (now : time) (team modelName : string) (proposed : list ProposedTarget)
    (w : W) : result Route ig_error * W :=
  if String.eqb modelName "" then (Err (route_err "model_name is required"), w)
  else if bool_decide (proposed = []) then (Err (route_err "at least one target is required"), w)
  else
    let existing := match rs_Get (routeKey team modelName) w with
                    | Ok r => r_Targets r | Err _ => [] end in
    match build_targets (endpoint_map existing) (stable_map existing) ∅ proposed with
    | Err e => (Err e, w)
    | Ok targets =>
        let route := {| r_OwnerTeam := team; r_ModelName := modelName;
                        r_Targets := targets; r_UpdatedAt := now |} in
        match validateActiveWeightSum route with
        | Some e => (Err e, w)
        | None =>
            match rs_Upsert (routeKey team modelName) route w with
            | (Some e, w') => (Err e, w')
            | (None, w') => (Ok route, w')
            end
        end
    end.

Definition SetTrafficSplit (now : time) (team modelName : string) (weights : list TrafficWeight)
    (w : W) : result Route ig_error * W :=
  match rs_Get (routeKey team modelName) w with
  | Err _ => (Err (Sentinel ErrNoRoute), w)
  | Ok route =>
      if bool_decide (weights = []) then (Err (route_err "at least one weight is required"), w)
      else match apply_weights ∅ weights (r_Targets route) with
      | Err e => (Err e, w)
      | Ok ts =>
          let proposed := set_targets ts now route in
          match validateActiveWeightSum proposed with
          | Some e => (Err e, w)
          | None =>
              match rs_Upsert (routeKey team modelName) proposed w with
              | (Some e, w') => (Err e, w')
              | (None, w') => (Ok proposed, w')
              end
          end
      end
  end.

Definition DeleteRoute (team modelName : string) (w : W) : option ig_error * W :=
  rs_Delete (routeKey team modelName) w.

Definition ApplyModelDeployed (now : time) (ev : ModelDeployed) (w : W) : option ig_error * W :=
  if (String.eqb (md_ModelName ev) "" || String.eqb (md_Version ev) ""
      || String.eqb (md_Endpoint ev) "")%bool
  then (Some (route_err "deploy event missing model/version/endpoint"), w)
  else match validateWeight (md_WeightBps ev) with
  | Some e => (Some e, w)
  | None =>
      let key := routeKey (md_OwnerTeam ev) (md_ModelName ev) in
      let store route :=
        rs_Upsert key (set_targets (deploy_targets ev (r_Targets route)) now route) w in
      match rs_Get key w with
      | Ok route => store route
      | Err e =>
          if errors_is e ErrNoRoute
          then store {| r_OwnerTeam := md_OwnerTeam ev; r_ModelName := md_ModelName ev;
                        r_Targets := []; r_UpdatedAt := 0 |}
          else (Some e, w)
      end
  end.

Definition ApplyModelUndeployed (now : time) (ev : ModelUndeployed) (w : W)
    : option ig_error * W :=
  let key := routeKey (mu_OwnerTeam ev) (mu_ModelName ev) in
  match rs_Get key w with
  | Err e => if errors_is e ErrNoRoute then (None, w) else (Some e, w)
  | Ok route =>
      let kept := filter (fun t => rt_Version t <> mu_Version ev) (r_Targets route) in
      if bool_decide (kept = []) then rs_Delete key w
      else rs_Upsert key (set_targets kept now route) w
  end.

Definition ApplyModelPromoted (now : time) (ev : ModelPromoted) (w : W) : option ig_error * W :=
  let key := routeKey (mp_OwnerTeam ev) (mp_ModelName ev) in
  match rs_Get key w with
  | Err _ => (Some (Sentinel ErrNoRoute), w)
  | Ok route =>
      match findTarget (mp_Version ev) route with
      | None => (Some (route_err "promoted version has no route target"), w)
      | Some _ => rs_Upsert key (set_targets (promote_targets ev (r_Targets route)) now route) w
      end
  end.

Definition ApplyModelArchived (ev : ModelArchived) (w : W) : option ig_error * W :=
  rs_Delete (routeKey (ma_OwnerTeam ev) (ma_ModelName ev)) w.

(** *** A history of control-plane calls and events *)

Inductive control :=
| CUpsertRoute (team modelName : string) (proposed : list ProposedTarget)
| CSetTrafficSplit (team modelName : string) (weights : list TrafficWeight)
| CDeleteRoute (team modelName : string)
| EModelDeployed (ev : ModelDeployed)
| EModelUndeployed (ev : ModelUndeployed)
| EModelPromoted (ev : ModelPromoted)
| EModelArchived (ev : ModelArchived).

Definition control_step (now : time) (c : control) (w : W) : W :=
  match c with
  | CUpsertRoute team m p => snd (UpsertRoute now team m p w)
  | CSetTrafficSplit team m ws => snd (SetTrafficSplit now team m ws w)
  | CDeleteRoute team m => snd (DeleteRoute team m w)
  | EModelDeployed ev => snd (ApplyModelDeployed now ev w)
  | EModelUndeployed ev => snd (ApplyModelUndeployed now ev w)
  | EModelPromoted ev => snd (ApplyModelPromoted now ev w)
  | EModelArchived ev => snd (ApplyModelArchived ev w)
  end.

Definition control_run (h : list (time * control)) (w : W) : W :=
  fold_left (fun w '(now, c) => control_step now c w) h w.

(** The tenant a call or an event acts for. *)
Definition control_key (c : control) : string * string :=
  match c with
  | CUpsertRoute team m _ | CSetTrafficSplit team m _ | CDeleteRoute team m => (team, m)
  | EModelDeployed ev => (md_OwnerTeam ev, md_ModelName ev)
  | EModelUndeployed ev => (mu_OwnerTeam ev, mu_ModelName ev)
  | EModelPromoted ev => (mp_OwnerTeam ev, mp_ModelName ev)
  | EModelArchived ev => (ma_OwnerTeam ev, ma_ModelName ev)
  end.
End service.

(** ** The abstract effect of a call on the route under its key *)

Definition targets_of (cur : option Route) : list RouteTarget :=
  match cur with Some r => r_Targets r | None => [] end.

Definition effect (now : time) (c : control) (cur : option Route) : option Route :=
  match c with
  | CUpsertRoute team m proposed =>
      if String.eqb m "" || bool_decide (proposed = []) then cur
      else match build_targets (endpoint_map (targets_of cur)) (stable_map (targets_of cur)) ∅ proposed with
      | Err _ => cur
      | Ok ts =>
          let r := {| r_OwnerTeam := team; r_ModelName := m; r_Targets := ts; r_UpdatedAt := now |} in
          if ActiveWeightSum r =? TotalWeightBps then Some r else cur
      end
  | CSetTrafficSplit _ _ weights =>
      match cur with
      | None => None
      | Some r =>
          if bool_decide (weights = []) then cur
          else match apply_weights ∅ weights (r_Targets r) with
          | Err _ => cur
          | Ok ts =>
              if ActiveWeightSum (set_targets ts now r) =? TotalWeightBps
              then Some (set_targets ts now r) else cur
          end
      end
  | CDeleteRoute _ _ | EModelArchived _ => None
  | EModelDeployed ev =>
      if String.eqb (md_ModelName ev) "" || String.eqb (md_Version ev) ""
         || String.eqb (md_Endpoint ev) ""
         || bool_decide (is_Some (validateWeight (md_WeightBps ev))) then cur
      else
        let r := default {| r_OwnerTeam := md_OwnerTeam ev; r_ModelName := md_ModelName ev;
                            r_Targets := []; r_UpdatedAt := 0 |} cur in
        Some (set_targets (deploy_targets ev (r_Targets r)) now r)
  | EModelUndeployed ev =>
      match cur with
      | None => None
      | Some r =>
          let kept := filter (fun t => rt_Version t <> mu_Version ev) (r_Targets r) in
          if bool_decide (kept = []) then None else Some (set_targets kept now r)
      end
  | EModelPromoted ev =>
      match cur with
      | None => None
      | Some r =>
          match findTarget (mp_Version ev) r with
          | Some _ => Some (set_targets (promote_targets ev (r_Targets r)) now r)
          | None => cur
          end
      end
  end.

Section refinement.
Context {W : Type} `{RouteStoreLaws W}.

Lemma upsert_alter (f : option Route -> option Route) k r (w : W) :
  f (rs_table w !! k) = Some r ->
  rs_table (snd (rs_Upsert k r w)) = partial_alter f k (rs_table w).
Proof.
  intros Hf. rewrite rs_Upsert_spec. apply map_eq. intros k'.
  destruct (decide (k = k')) as [<- | Hne].
  - by rewrite lookup_insert_eq, lookup_partial_alter_eq.
  - by rewrite lookup_insert_ne, lookup_partial_alter_ne.
Qed.

Lemma delete_alter (f : option Route -> option Route) k (w : W) :
  f (rs_table w !! k) = None ->
  rs_table (snd (rs_Delete k w)) = partial_alter f k (rs_table w).
Proof.
  intros Hf. rewrite rs_Delete_spec. apply map_eq. intros k'.
  destruct (decide (k = k')) as [<- | Hne].
  - by rewrite lookup_delete_eq, lookup_partial_alter_eq.
  - by rewrite lookup_delete_ne, lookup_partial_alter_ne.
Qed.

Lemma keep_alter (f : option Route -> option Route) k (w : W) :
  f (rs_table w !! k) = rs_table w !! k -> rs_table w = partial_alter f k (rs_table w).
Proof.
  intros Hf. apply map_eq. intros k'. destruct (decide (k = k')) as [<- | Hne].
  - by rewrite lookup_partial_alter_eq.
  - by rewrite lookup_partial_alter_ne.
Qed.

Lemma validateWeight_none bps : validateWeight bps = None <-> 0 <= bps <= TotalWeightBps.
Proof.
  unfold validateWeight, TotalWeightBps. destruct (Z.ltb_spec bps 0), (Z.ltb_spec 10000 bps);
    simpl; split; try done; lia.
Qed.

Lemma validateSum_none r : validateActiveWeightSum r = None <-> ActiveWeightSum r = TotalWeightBps.
Proof. unfold validateActiveWeightSum. destruct (Z.eqb_spec (ActiveWeightSum r) TotalWeightBps); done. Qed.

Lemma validateSum_eqb r :
  (ActiveWeightSum r =? TotalWeightBps) = negb (bool_decide (is_Some (validateActiveWeightSum r))).
Proof. unfold validateActiveWeightSum. by destruct (_ =? _). Qed.

(** The outcome of the [rs_Upsert] that ends an operation does not matter to the table. *)
Lemma snd_upsert_result {A} (r : A) k route (w : W) :
  snd (match rs_Upsert k route w with
       | (Some e, w') => (Err e : result A ig_error, w')
       | (None, w') => (Ok r, w')
       end) = snd (rs_Upsert k route w).
Proof. by destruct (rs_Upsert k route w) as [[e|] w']. Qed.

Ltac table_cases :=
  repeat (simpl; match goal with
    | |- context [String.eqb ?a ?b] => destruct (String.eqb a b) eqn:?
    | |- context [bool_decide (is_Some (validateWeight ?b))] =>
        destruct (validateWeight b) eqn:?
    | |- context [bool_decide ?P] => destruct (bool_decide P) eqn:?
    | |- context [match validateWeight ?b with _ => _ end] => destruct (validateWeight b) eqn:?
    | |- context [validateActiveWeightSum ?r] => destruct (validateActiveWeightSum r) eqn:?
    | |- context [match build_targets ?a ?b ?c ?d with _ => _ end] =>
        destruct (build_targets a b c d) eqn:?
    | |- context [match apply_weights ?a ?b ?c with _ => _ end] =>
        destruct (apply_weights a b c) eqn:?
    | |- context [match findTarget ?a ?b with _ => _ end] => destruct (findTarget a b) eqn:?
    end).

(** Every operation is a read-modify-write of one key of the table. *)
Lemma control_step_effect now c (w : W) :
  rs_table (control_step now c w) =
  partial_alter (effect now c) (routeKey (control_key c).1 (control_key c).2) (rs_table w).
Proof.
  destruct c as [team m p | team m ws | team m | ev | ev | ev | ev]; simpl;
    unfold UpsertRoute, SetTrafficSplit, DeleteRoute, ApplyModelDeployed, ApplyModelUndeployed,
      ApplyModelPromoted, ApplyModelArchived; rewrite ?rs_Get_spec;
    try (by apply delete_alter);
    match goal with |- context [partial_alter _ ?k ?m] => destruct (m !! k) as [r|] eqn:Er end;
    table_cases; rewrite ?snd_upsert_result;
    first [ apply keep_alter | apply upsert_alter | apply delete_alter ];
    rewrite Er; simpl;
    repeat (match goal with H : _ = _ |- _ => rewrite H end; simpl);
    rewrite ?validateSum_eqb;
    repeat (match goal with H : _ = _ |- _ => rewrite H end; simpl); try done. 
Qed.
End refinement.

(** ** Target lists under the operations *)

Lemma update_first_Forall (P : RouteTarget -> Prop) v f ts :
  Forall P ts -> (forall t, P t -> rt_Version t = v -> P (f t)) -> Forall P (update_first v f ts).
Proof.
  intros H Hf. induction H as [|t ts Ht H IH]; simpl; [done |].
  destruct (String.eqb_spec (rt_Version t) v); constructor; auto.
Qed.

Lemma update_first_versions v f ts :
  (forall t, rt_Version (f t) = rt_Version t) -> versions (update_first v f ts) = versions ts.
Proof.
  intros Hf. unfold versions. induction ts as [|t ts IH]; simpl; [done |].
  destruct (String.eqb (rt_Version t) v); simpl; by rewrite ?Hf, ?IH.
Qed.

Lemma has_version_elem v ts : has_version v ts = true <-> v ∈ versions ts.
Proof.
  unfold has_version, versions. rewrite existsb_exists, list_elem_of_fmap. split.
  - intros (t & Hin & Heq). apply String.eqb_eq in Heq. exists t.
    split; [done | by apply list_elem_of_In].
  - intros (t & -> & Hin). exists t. split; [by apply list_elem_of_In | apply String.eqb_refl].
Qed.

Lemma findTarget_Some v r t :
  findTarget v r = Some t -> t ∈ r_Targets r /\ rt_Version t = v.
Proof.
  unfold findTarget. intros Hf. apply List.find_some in Hf as [Hin Heq].
  split; [by apply list_elem_of_In | by apply String.eqb_eq].
Qed.

Lemma promote_versions ev ts : versions (promote_targets ev ts) = versions ts.
Proof.
  unfold versions, promote_targets. rewrite map_map. apply map_ext. intros t.
  by destruct (String.eqb _ _).
Qed.

Lemma versions_filter (P : RouteTarget -> Prop) `{!forall t, Decision (P t)} ts :
  NoDup (versions ts) -> NoDup (versions (filter P ts)).
Proof.
  unfold versions. induction ts as [|t ts IH]; simpl; [done |].
  intros Hnd. apply list.NoDup_cons in Hnd as [Hn Hnd]. rewrite filter_cons.
  destruct (decide (P t)); [| by apply IH]. simpl. constructor; [| by apply IH].
  intros Hin. apply Hn. apply list_elem_of_fmap in Hin as (u & -> & Hu).
  apply list_elem_of_filter in Hu as [_ Hu]. by apply list_elem_of_fmap_2.
Qed.

(** What a target inherits whatever the operation: its label and its endpoint. *)
Definition same_backend (t u : RouteTarget) : Prop :=
  rt_Version t = rt_Version u /\ rt_Endpoint t = rt_Endpoint u.

Lemma endpoint_map_in ts v e :
  endpoint_map ts !! v = Some e -> exists t, t ∈ ts /\ rt_Version t = v /\ rt_Endpoint t = e.
Proof.
  unfold endpoint_map. intros Hl.
  enough ((exists t, t ∈ ts /\ rt_Version t = v /\ rt_Endpoint t = e) \/
    (∅ : gmap string string) !! v = Some e) as [? | ?] by done.
  revert Hl. generalize (∅ : gmap string string).
  induction ts as [|t ts IH]; intros m Hl; simpl in Hl; [by right |].
  destruct (IH _ Hl) as [(u & Hin & Hu) | Hm]; [left; exists u; split; [by right | done] |].
  destruct (decide (rt_Version t = v)) as [<- | Hne].
  - rewrite lookup_insert_eq in Hm. injection Hm as <-. left. exists t. split; [by left | done].
  - rewrite lookup_insert_ne in Hm by done. by right.
Qed.

Lemma build_targets_versions em sm seen proposed ts :
  build_targets em sm seen proposed = Ok ts ->
  versions ts = map pt_Version proposed /\ NoDup (versions ts) /\
  Forall (fun v => v ∉ seen) (versions ts).
Proof.
  revert seen ts. induction proposed as [|pt proposed IH]; intros seen ts; simpl.
  - intros [= <-]. split; [done |]. split; constructor.
  - destruct (String.eqb _ _); [done |]. destruct (bool_decide _) eqn:Es; [done |].
    apply bool_decide_eq_false in Es.
    destruct (validateWeight _); [done |]. destruct (em !! _) as [e|]; [| done].
    destruct (String.eqb e _); [done |]. rewrite rbind_ok. intros (us & Hb & [= <-]).
    apply IH in Hb as (Hv & Hnd & Hs). unfold versions in *. simpl. rewrite Hv.
    rewrite Hv in Hnd, Hs. split; [done |]. split.
    + constructor; [| done]. intros Hin. rewrite list.Forall_forall in Hs.
      apply (Hs _ Hin), elem_of_union_l, elem_of_singleton. done.
    + constructor; [done |]. eapply Forall_impl; [| exact Hs]. simpl.
      intros v Hni Hin. by apply Hni, elem_of_union_r.
Qed.

Lemma build_targets_Forall em sm seen proposed ts :
  build_targets em sm seen proposed = Ok ts ->
  Forall (fun t => (0 <= rt_WeightBps t <= TotalWeightBps) /\ rt_Endpoint t <> "" /\
    em !! rt_Version t = Some (rt_Endpoint t) /\ rt_Status t = TargetStatusActive) ts.
Proof.
  revert seen ts. induction proposed as [|pt proposed IH]; intros seen ts; simpl.
  - intros [= <-]. constructor.
  - destruct (String.eqb _ _); [done |]. destruct (bool_decide _); [done |].
    destruct (validateWeight _) eqn:Ew; [done |]. destruct (em !! _) as [e|] eqn:Ee; [| done].
    destruct (String.eqb_spec e ""); [done |]. rewrite rbind_ok. intros (us & Hb & [= <-]).
    constructor; [| by eapply IH]. simpl. by apply validateWeight_none in Ew.
Qed.

Lemma apply_weights_versions seen ws ts ts' :
  apply_weights seen ws ts = Ok ts' -> versions ts' = versions ts.
Proof.
  revert seen ts. induction ws as [|w ws IH]; intros seen ts; simpl; [by intros [= ->] |].
  destruct (bool_decide _); [done |]. destruct (validateWeight _); [done |].
  destruct (has_version _ _); [| done]. intros Ha. apply IH in Ha. rewrite Ha.
  by apply update_first_versions.
Qed.

Lemma apply_weights_Forall (P : RouteTarget -> Prop) seen ws ts ts' :
  (forall t bps, P t -> 0 <= bps <= TotalWeightBps -> P (reweigh bps t)) ->
  apply_weights seen ws ts = Ok ts' -> Forall P ts -> Forall P ts'.
Proof.
  intros HP. revert seen ts. induction ws as [|w ws IH]; intros seen ts; simpl; [by intros [= ->] |].
  destruct (bool_decide _); [done |]. destruct (validateWeight _) eqn:Ew; [done |].
  destruct (has_version _ _); [| done]. intros Ha Ht. eapply IH; [done |].
  apply update_first_Forall; [done |]. intros t Hpt _. apply HP; [done |].
  by apply validateWeight_none.
Qed.

(** ** The invariant of the table *)

(** A well-formed route: distinct labels, weights in range, a backend address for
    each target, and at least one target. *)
Record route_ok (r : Route) : Prop := {
  ok_versions : NoDup (versions (r_Targets r));
  ok_targets : Forall (fun t => (0 <= rt_WeightBps t <= TotalWeightBps) /\ rt_Endpoint t <> "")
                 (r_Targets r);
  ok_nonempty : r_Targets r <> [];
}.

Lemma update_first_nil v f ts : update_first v f ts = [] -> ts = [].
Proof. destruct ts; simpl; [done |]. by destruct (String.eqb _ _). Qed.

Lemma versions_nil ts : versions ts = [] -> ts = [].
Proof. by destruct ts. Qed.

Lemma deploy_targets_ok ev ts :
  NoDup (versions ts) ->
  Forall (fun t => (0 <= rt_WeightBps t <= TotalWeightBps) /\ rt_Endpoint t <> "") ts ->
  (0 <= md_WeightBps ev <= TotalWeightBps) -> md_Endpoint ev <> "" ->
  NoDup (versions (deploy_targets ev ts)) /\
  Forall (fun t => (0 <= rt_WeightBps t <= TotalWeightBps) /\ rt_Endpoint t <> "")
    (deploy_targets ev ts) /\ deploy_targets ev ts <> [].
Proof.
  intros Hnd Ht Hw He. unfold deploy_targets. destruct (has_version _ _) eqn:Ev.
  - split; [by rewrite update_first_versions |]. split; [by apply update_first_Forall |].
    intros Hn. apply update_first_nil in Hn. by subst.
  - split; [| split; [by apply Forall_app; split; [| constructor] | by destruct ts]].
    unfold versions. rewrite map_app. apply list.NoDup_app. split; [done |].
    split; [| apply NoDup_singleton]. intros v Hv Hin. apply list_elem_of_singleton in Hin.
    simpl in Hin. subst v. apply not_true_iff_false in Ev. by apply Ev, has_version_elem.
Qed.

Lemma effect_ok now c cur :
  (forall r, cur = Some r -> route_ok r) -> forall r, effect now c cur = Some r -> route_ok r.
Proof.
  intros Hcur r. destruct c as [team m p | team m ws | team m | ev | ev | ev | ev]; simpl; try done.
  - destruct (String.eqb m ""); [by apply Hcur |]. simpl.
    destruct (bool_decide (p = [])) eqn:Ep; [by apply Hcur |].
    destruct (build_targets _ _ _ _) as [ts | e] eqn:Eb; [| by apply Hcur].
    destruct (_ =? _); [intros [= <-] | by apply Hcur].
    pose proof (build_targets_versions _ _ _ _ _ Eb) as (Hv & Hnd & _).
    pose proof (build_targets_Forall _ _ _ _ _ Eb) as Hf. constructor; simpl.
    + done.
    + eapply Forall_impl; [| exact Hf]. simpl. tauto.
    + intros ->. apply bool_decide_eq_false in Ep. by destruct p.
  - destruct cur as [r0|]; [| done]. specialize (Hcur _ eq_refl) as [H1 H2 H3].
    destruct (bool_decide _); [by intros [= <-] |].
    destruct (apply_weights _ _ _) as [ts | e] eqn:Ea; [| by intros [= <-]].
    destruct (_ =? _); intros [= <-]; [| done]. pose proof (apply_weights_versions _ _ _ _ Ea) as Hv.
    constructor; simpl; [by rewrite Hv | | by intros ->; symmetry in Hv; apply versions_nil in Hv].
    eapply apply_weights_Forall; [| done..]. by intros t bps [_ He] Hb.
  - destruct (String.eqb (md_ModelName ev) ""), (String.eqb (md_Version ev) "");
      try (by apply Hcur). destruct (String.eqb_spec (md_Endpoint ev) ""); [by apply Hcur |]. simpl.
    destruct (validateWeight _) eqn:Ew; [by apply Hcur |]. simpl. intros [= <-].
    apply validateWeight_none in Ew.
    assert (NoDup (versions (targets_of cur)) /\
      Forall (fun t => (0 <= rt_WeightBps t <= TotalWeightBps) /\ rt_Endpoint t <> "") (targets_of cur))
      as [H1 H2].
    { destruct cur as [r0|]; simpl; [by destruct (Hcur _ eq_refl) | by split; constructor]. }
    destruct (deploy_targets_ok ev (targets_of cur)) as (? & ? & ?); [done.. |].
    by destruct cur; constructor.
  - destruct cur as [r0|]; [| done]. specialize (Hcur _ eq_refl) as [H1 H2 H3].
    destruct (bool_decide _) eqn:Ek; [done |]. intros [= <-]. constructor; simpl.
    + by apply versions_filter.
    + by apply Forall_filter_sub.
    + by apply bool_decide_eq_false in Ek.
  - destruct cur as [r0|]; [| done]. specialize (Hcur _ eq_refl) as [H1 H2 H3].
    destruct (findTarget _ _); intros [= <-]; [| done]. constructor; simpl.
    + by rewrite promote_versions.
    + unfold promote_targets. apply Forall_map. eapply Forall_impl; [| exact H2].
      intros t [_ He]. unfold TotalWeightBps in *. by destruct (String.eqb _ _); simpl; split; try lia.
    + by destruct (r_Targets r0).
Qed.

(** Where the backend of a target may come from: a deploy event for the key. *)
Definition sourced (D : list ModelDeployed) (k : string) (t : RouteTarget) : Prop :=
  exists ev, ev ∈ D /\ routeKey (md_OwnerTeam ev) (md_ModelName ev) = k /\
    md_Version ev = rt_Version t /\ md_Endpoint ev = rt_Endpoint t.

Definition deploy_of (c : control) : list ModelDeployed :=
  match c with EModelDeployed ev => [ev] | _ => [] end.

Definition deploys (h : list (time * control)) : list ModelDeployed :=
  flat_map (fun '(_, c) => deploy_of c) h.

Lemma sourced_mono D D' k t : sourced D k t -> sourced (D ++ D') k t.
Proof. intros (ev & ? & ?). exists ev. split; [apply elem_of_app; by left | done]. Qed.

Lemma sourced_same D k t u : same_backend t u -> sourced D k t -> sourced D k u.
Proof. intros [Hv He] (ev & ? & ? & ? & ?). exists ev. by rewrite <- Hv, <- He. Qed.

Lemma Forall_sourced_mono D D' k ts : Forall (sourced D k) ts -> Forall (sourced (D ++ D') k) ts.
Proof. intros H. eapply Forall_impl; [| exact H]. intros t. apply sourced_mono. Qed.

Lemma deploy_targets_sourced D ev ts :
  let k := routeKey (md_OwnerTeam ev) (md_ModelName ev) in
  Forall (sourced D k) ts -> Forall (sourced (D ++ [ev]) k) (deploy_targets ev ts).
Proof.
  intros k H. assert (forall t, rt_Version t = md_Version ev -> rt_Endpoint t = md_Endpoint ev ->
    sourced (D ++ [ev]) k t) as Hev.
  { intros t Hv He. exists ev. split; [| done]. apply elem_of_app. right. by left. }
  unfold deploy_targets. destruct (has_version _ _).
  - apply update_first_Forall; [by apply Forall_sourced_mono |].
    intros t _ Hv. by apply Hev.
  - apply Forall_app. split; [by apply Forall_sourced_mono |]. constructor; [by apply Hev | done].
Qed.

Lemma promote_targets_sourced D k ev ts :
  Forall (sourced D k) ts -> Forall (sourced D k) (promote_targets ev ts).
Proof.
  intros H. unfold promote_targets. apply Forall_map. eapply Forall_impl; [| exact H].
  intros t. apply sourced_same. by destruct (String.eqb _ _).
Qed.

Lemma effect_sourced now c cur D k :
  k = routeKey (control_key c).1 (control_key c).2 ->
  Forall (sourced D k) (targets_of cur) ->
  Forall (sourced (D ++ deploy_of c) k) (targets_of (effect now c cur)).
Proof.
  intros Hk Hcur. assert (Forall (sourced (D ++ deploy_of c) k) (targets_of cur)) as Hkeep
    by by apply Forall_sourced_mono.
  destruct c as [team m p | team m ws | team m | ev | ev | ev | ev]; simpl;
    simpl in Hkeep, Hk; try constructor.
  - destruct (_ || _); [done |]. destruct (build_targets _ _ _ _) as [ts | e] eqn:Eb; [| done].
    destruct (_ =? _); [| done]. rewrite app_nil_r. simpl.
    apply build_targets_Forall in Eb. eapply Forall_impl; [| exact Eb].
    intros t (_ & _ & He & _). apply endpoint_map_in in He as (u & Hu & Hv & He).
    rewrite list.Forall_forall in Hcur. by apply (sourced_same _ _ u), Hcur.
  - destruct cur as [r0|]; [| constructor]. destruct (bool_decide _); [done |].
    destruct (apply_weights _ _ _) as [ts | e] eqn:Ea; [| done].
    destruct (_ =? _); [| done]. simpl. eapply apply_weights_Forall; [| done..].
    intros t bps Ht _. by apply (sourced_same _ _ t).
  - destruct (_ || _); [done |]. subst k. destruct cur; simpl; by apply deploy_targets_sourced.
  - destruct cur as [r0|]; [| constructor]. destruct (bool_decide _); [constructor |]. simpl.
    by apply Forall_filter_sub.
  - destruct cur as [r0|]; [| constructor]. destruct (findTarget _ _); [| done]. simpl.
    by apply promote_targets_sourced.
Qed.

Section invariants.
Context {W : Type} `{RouteStoreLaws W}.

Definition table_ok (D : list ModelDeployed) (m : gmap string Route) : Prop :=
  forall k r, m !! k = Some r -> route_ok r /\ Forall (sourced D k) (r_Targets r).

Lemma table_ok_step D now c (w : W) :
  table_ok D (rs_table w) -> table_ok (D ++ deploy_of c) (rs_table (control_step now c w)).
Proof.
  intros Hw k r. rewrite control_step_effect.
  set (k0 := routeKey (control_key c).1 (control_key c).2).
  destruct (decide (k0 = k)) as [<- | Hne].
  - rewrite lookup_partial_alter_eq. intros He. split.
    + eapply effect_ok; [| done]. intros r' Hr'. by apply (Hw k0).
    + pose proof (effect_sourced now c (rs_table w !! k0) D k0 eq_refl) as Hs.
      rewrite He in Hs. apply Hs. destruct (rs_table w !! k0) as [r'|] eqn:Er; [| constructor].
      by apply (Hw k0).
  - rewrite lookup_partial_alter_ne by done. intros Hr.
    destruct (Hw k r Hr). split; [done | by apply Forall_sourced_mono].
Qed.

Lemma table_ok_run D h (w : W) :
  table_ok D (rs_table w) -> table_ok (D ++ deploys h) (rs_table (control_run h w)).
Proof.
  revert D w. induction h as [|[now c] h IH]; intros D w Hw; simpl.
  - by rewrite app_nil_r.
  - rewrite app_assoc. apply IH. by apply table_ok_step.
Qed.

(** The routing table stays well formed and cannot be pointed at a host of a
    caller's choice: after any history of admin calls and events from an empty
    table, every stored route has distinct version labels, weights within
    [0, 10000] and at least one target, and the endpoint of every target is the
    one some deploy event of the history carried for that key and version. *)
Theorem table_well_formed h (w : W) :
  rs_table w = ∅ ->
  forall k r, rs_table (control_run h w) !! k = Some r ->
  route_ok r /\
  forall t, t ∈ r_Targets r -> exists ev, ev ∈ deploys h /\
    routeKey (md_OwnerTeam ev) (md_ModelName ev) = k /\
    md_Version ev = rt_Version t /\ md_Endpoint ev = rt_Endpoint t.
Proof.
  intros Hw k r Hr. destruct (table_ok_run [] h w) with (k := k) (r := r) as [H1 H2]; [| done |].
  - intros k' r'. by rewrite Hw, lookup_empty.
  - split; [done |]. by apply list.Forall_forall.
Qed.

Definition no_nul (s : string) : Prop := forall a, a ∈ String.list_ascii_of_string s -> a <> ascii_of_N 0.

Lemma no_nul_cons a s : no_nul (String a s) -> a <> ascii_of_N 0 /\ no_nul s.
Proof. intros Hn. split; [apply Hn; by left | intros b Hb; apply Hn; by right]. Qed.

Lemma routeKey_inj t1 m1 t2 m2 :
  no_nul t1 -> no_nul t2 -> routeKey t1 m1 = routeKey t2 m2 -> t1 = t2 /\ m1 = m2.
Proof.
  unfold routeKey, NUL. revert t2. induction t1 as [|a t1 IH]; intros [|b t2] H1 H2; simpl.
  - intros Heq. by injection Heq.
  - intros Heq. injection Heq as Ha _. apply no_nul_cons in H2 as [H2 _]. by destruct H2.
  - intros Heq. injection Heq as Ha _. apply no_nul_cons in H1 as [H1 _]. by destruct H1.
  - apply no_nul_cons in H1 as [_ H1], H2 as [_ H2].
    intros Heq. injection Heq as -> Heq. by destruct (IH t2 H1 H2 Heq) as [-> ->].
Qed.

(** Tenant isolation: a call or event for one (team, model) leaves what any
    other (team, model) reads unchanged, provided team names contain no NUL byte,
    which is what makes the composed key injective. *)
Theorem tenant_isolation now c (w : W) team modelName :
  no_nul team -> no_nul (control_key c).1 -> (team, modelName) <> control_key c ->
  GetRoute team modelName (control_step now c w) = GetRoute team modelName w.
Proof.
  intros Ht Hc Hne. unfold GetRoute. rewrite !rs_Get_spec, control_step_effect.
  rewrite lookup_partial_alter_ne; [done |]. intros Heq. apply Hne.
  destruct (routeKey_inj _ _ _ _ Hc Ht Heq) as [<- <-]. by destruct (control_key c).
Qed.
End invariants.

(** ** Reads after writes on target lists *)

Definition find_version (v : string) (ts : list RouteTarget) : option RouteTarget :=
  List.find (fun t => String.eqb (rt_Version t) v) ts.

Lemma find_version_some v ts t : find_version v ts = Some t -> t ∈ ts /\ rt_Version t = v.
Proof.
  unfold find_version. intros Hf. apply List.find_some in Hf as [Hin Heq].
  split; [by apply list_elem_of_In | by apply String.eqb_eq].
Qed.

Lemma find_update_same v f ts :
  (forall t, rt_Version (f t) = rt_Version t) ->
  find_version v (update_first v f ts) = f <$> find_version v ts.
Proof.
  intros Hf. unfold find_version. induction ts as [|t ts IH]; simpl; [done |].
  destruct (String.eqb_spec (rt_Version t) v) as [<- | Hne]; simpl.
  - by rewrite Hf, String.eqb_refl.
  - by rewrite (proj2 (String.eqb_neq _ _)).
Qed.

Lemma find_update_other v v' f ts :
  (forall t, rt_Version (f t) = rt_Version t) -> v <> v' ->
  find_version v' (update_first v f ts) = find_version v' ts.
Proof.
  intros Hf Hne. unfold find_version. induction ts as [|t ts IH]; simpl; [done |].
  destruct (String.eqb_spec (rt_Version t) v) as [Hv | Hv]; simpl.
  - rewrite Hf. by rewrite (proj2 (String.eqb_neq (rt_Version t) v')) by congruence.
  - destruct (String.eqb (rt_Version t) v'); [done | apply IH].
Qed.

Lemma apply_weights_unseen seen ws ts ts' v :
  v ∈ seen -> apply_weights seen ws ts = Ok ts' -> find_version v ts' = find_version v ts.
Proof.
  revert seen ts. induction ws as [|w ws IH]; intros seen ts Hv; simpl; [by intros [= ->] |].
  destruct (bool_decide _) eqn:Es; [done |]. apply bool_decide_eq_false in Es.
  destruct (validateWeight _); [done |]. destruct (has_version _ _); [| done].
  intros Ha. apply IH in Ha; [| by apply elem_of_union_r]. rewrite Ha.
  apply find_update_other; [done |]. by intros <-.
Qed.

(** The dial: each named version has the weight asked for. *)
Lemma apply_weights_set seen ws ts ts' w :
  apply_weights seen ws ts = Ok ts' -> w ∈ ws ->
  exists t, find_version (tw_Version w) ts' = Some t /\ rt_WeightBps t = tw_WeightBps w.
Proof.
  revert seen ts. induction ws as [|w' ws IH]; intros seen ts; simpl;
    [intros _ Hin; by apply not_elem_of_nil in Hin |].
  destruct (bool_decide _); [done |]. destruct (validateWeight _); [done |].
  destruct (has_version (tw_Version w') ts) eqn:Ev; [| done]. intros Ha Hin.
  apply elem_of_cons in Hin as [-> | Hin]; [| by eapply IH].
  rewrite (apply_weights_unseen _ _ _ _ (tw_Version w') ltac:(apply elem_of_union_l, elem_of_singleton; done) Ha).
  rewrite find_update_same by done. unfold has_version in Ev. apply existsb_exists in Ev as (t & Hin & Heq).
  destruct (find_version (tw_Version w') ts) as [u|] eqn:Ef; [by eexists |].
  unfold find_version in Ef. apply List.find_none with (x := t) in Ef; [congruence | done].
Qed.

Section properties.
Context {W : Type} `{RouteStoreLaws W}.

(** Validate, then commit: [SetTrafficSplit] answers a route only after it
    stored it, with the same versions, endpoints' owner and key as before, every
    named version at the weight asked for and the active weights summing to
    10000. On an error the store is untouched, unless the error is the store's
    own report about a write of such a validated route. *)
Theorem split_validates_then_commits now team m ws (w : W) :
  let key := routeKey team m in
  match SetTrafficSplit now team m ws w with
  | (Ok r, w') =>
      rs_table w' = <[key := r]> (rs_table w) /\ ActiveWeightSum r = TotalWeightBps /\
      (exists r0, rs_table w !! key = Some r0 /\ versions (r_Targets r) = versions (r_Targets r0)
         /\ r_OwnerTeam r = r_OwnerTeam r0 /\ r_ModelName r = r_ModelName r0) /\
      (forall tw, tw ∈ ws -> exists t, findTarget (tw_Version tw) r = Some t /\
         rt_WeightBps t = tw_WeightBps tw)
  | (Err e, w') =>
      w' = w \/
      exists r, rs_Upsert key r w = (Some e, w') /\ ActiveWeightSum r = TotalWeightBps
  end.
Proof.
  intros key. unfold SetTrafficSplit. fold key. rewrite rs_Get_spec.
  destruct (rs_table w !! key) as [r0|] eqn:Er; [| by left].
  destruct (bool_decide (ws = [])); [by left |].
  destruct (apply_weights ∅ ws (r_Targets r0)) as [ts | e] eqn:Ea; [| by left].
  destruct (validateActiveWeightSum _) eqn:Ev; [by left |]. apply validateSum_none in Ev.
  pose proof (rs_Upsert_spec key (set_targets ts now r0) w) as Hu.
  destruct (rs_Upsert key _ w) as [[e|] w'] eqn:Eu; [right; by eexists |].
  simpl in Hu. split; [done |]. split; [done |]. split.
  - exists r0. simpl. by rewrite (apply_weights_versions _ _ _ _ Ea).
  - intros tw Htw. by apply (apply_weights_set _ _ _ _ tw) in Ea.
Qed.

(** [UpsertRoute] installs exactly what it was asked: on success the stored
    route carries the proposal's versions and no duplicates, all ACTIVE, weights
    summing to 10000, and each endpoint is the one the caller's own previous
    route had for that version; on an error the store is untouched, unless the
    error is the store's own report about a write of a validated route. *)
Theorem upsert_resolves_endpoints now team m p (w : W) :
  let key := routeKey team m in
  match UpsertRoute now team m p w with
  | (Ok r, w') =>
      rs_table w' = <[key := r]> (rs_table w) /\ ActiveWeightSum r = TotalWeightBps /\
      versions (r_Targets r) = map pt_Version p /\ NoDup (versions (r_Targets r)) /\
      Forall (fun t => rt_Status t = TargetStatusActive /\
        exists r0 u, rs_table w !! key = Some r0 /\ u ∈ r_Targets r0 /\ same_backend u t)
        (r_Targets r)
  | (Err e, w') =>
      w' = w \/
      exists r, rs_Upsert key r w = (Some e, w') /\ ActiveWeightSum r = TotalWeightBps
  end.
Proof.
  intros key. unfold UpsertRoute. fold key. rewrite rs_Get_spec.
  destruct (String.eqb m ""); [by left |]. destruct (bool_decide (p = [])); [by left |].
  set (old := match match rs_table w !! key with Some r => Ok r | None => Err (Sentinel ErrNoRoute) end
              with Ok r => r_Targets r | Err _ => [] end).
  destruct (build_targets _ _ _ _) as [ts | e] eqn:Eb; [| by left].
  destruct (validateActiveWeightSum _) eqn:Ev; [by left |]. apply validateSum_none in Ev.
  match goal with |- context [rs_Upsert key ?r w] =>
    pose proof (rs_Upsert_spec key r w) as Hu;
    destruct (rs_Upsert key r w) as [[e|] w'] eqn:Eu; [right; by eexists |] end.
  pose proof (build_targets_versions _ _ _ _ _ Eb) as (Hv & Hnd & _).
  do 4 (split; [done |]). apply build_targets_Forall in Eb.
  eapply Forall_impl; [| exact Eb]. intros t (_ & _ & He & Ha). split; [done |].
  apply endpoint_map_in in He as (u & Hu' & ? & ?). unfold old in Hu'.
  destruct (rs_table w !! key) as [r0|]; [by exists r0, u |].
  by apply not_elem_of_nil in Hu'.
Qed.
End properties.

Lemma promote_shares ev ts :
  NoDup (versions ts) -> mp_Version ev ∈ versions ts ->
  shares (promote_targets ev ts) = TotalWeightBps.
Proof.
  intros Hnd Hin. assert (forall us, mp_Version ev ∉ versions us ->
    shares (promote_targets ev us) = 0) as H0.
  { induction us as [|u us IH]; intros Hni; simpl; [done |].
    unfold versions in Hni. simpl in Hni. apply not_elem_of_cons in Hni as [Hne Hni].
    rewrite (proj2 (String.eqb_neq _ _)) by congruence. rewrite IH by done. done. }
  induction ts as [|t ts IH]; [by apply not_elem_of_nil in Hin |].
  unfold versions in *. simpl in *. apply list.NoDup_cons in Hnd as [Hn Hnd].
  destruct (String.eqb_spec (rt_Version t) (mp_Version ev)) as [Heq | Hne].
  - rewrite H0 by by rewrite <- Heq. done.
  - rewrite IH; [done | done |]. by apply elem_of_cons in Hin as [?|].
Qed.

Lemma promote_status ev t ts :
  t ∈ promote_targets ev ts -> rt_Status t = TargetStatusActive -> rt_Version t = mp_Version ev.
Proof.
  unfold promote_targets. intros Hin. apply list_elem_of_fmap in Hin as (u & -> & _).
  destruct (String.eqb_spec (rt_Version u) (mp_Version ev)); [done | done].
Qed.

Lemma update_first_idem v f g ts :
  (forall t, rt_Version (f t) = rt_Version t) -> (forall t, g (f t) = f t) ->
  update_first v g (update_first v f ts) = update_first v f ts.
Proof.
  intros Hf Hg. induction ts as [|t ts IH]; simpl; [done |].
  destruct (String.eqb_spec (rt_Version t) v) as [Hv | Hne]; simpl.
  - by rewrite Hf, (proj2 (String.eqb_eq _ _) Hv), Hg.
  - by rewrite (proj2 (String.eqb_neq _ _) Hne), IH.
Qed.

Lemma has_version_update v f ts :
  (forall t, rt_Version (f t) = rt_Version t) -> has_version v (update_first v f ts) = has_version v ts.
Proof.
  intros Hf. unfold has_version. induction ts as [|t ts IH]; simpl; [done |].
  destruct (String.eqb_spec (rt_Version t) v) as [Hv | Hne]; simpl.
  - by rewrite Hf, (proj2 (String.eqb_eq _ _) Hv).
  - by rewrite (proj2 (String.eqb_neq _ _) Hne).
Qed.

Lemma has_version_app v ts us : has_version v (ts ++ us) = has_version v ts || has_version v us.
Proof. apply existsb_app. Qed.

Lemma update_first_app v f ts us :
  has_version v ts = false -> update_first v f (ts ++ us) = ts ++ update_first v f us.
Proof.
  unfold has_version. induction ts as [|t ts IH]; simpl; [done |].
  intros Ho. apply orb_false_iff in Ho as [H1 H2]. by rewrite H1, IH.
Qed.

Lemma deploy_targets_idem ev ts :
  deploy_targets ev (deploy_targets ev ts) = deploy_targets ev ts.
Proof.
  unfold deploy_targets at 2 3. destruct (has_version (md_Version ev) ts) eqn:Ev.
  - unfold deploy_targets. rewrite has_version_update, Ev by done. by apply update_first_idem.
  - unfold deploy_targets. rewrite has_version_app. simpl. rewrite String.eqb_refl, orb_true_r.
    rewrite update_first_app by done. simpl. by rewrite String.eqb_refl.
Qed.

Lemma promote_targets_idem ev ts :
  promote_targets ev (promote_targets ev ts) = promote_targets ev ts.
Proof.
  unfold promote_targets. rewrite map_map. apply map_ext. intros t.
  destruct (String.eqb (rt_Version t) (mp_Version ev)) eqn:E; simpl; by rewrite E.
Qed.

Lemma findTarget_promote ev r now :
  findTarget (mp_Version ev) (set_targets (promote_targets ev (r_Targets r)) now r) = None ->
  findTarget (mp_Version ev) r = None.
Proof.
  unfold findTarget. simpl. induction (r_Targets r) as [|t ts IH]; simpl; [done |].
  destruct (String.eqb (rt_Version t) (mp_Version ev)) eqn:E; simpl; rewrite E; [done | apply IH].
Qed.

Lemma filter_idem {A} (P : A -> Prop) `{!forall x, Decision (P x)} (l : list A) :
  filter P (filter P l) = filter P l.
Proof. apply filter_all. intros x Hx. by apply list_elem_of_filter in Hx as [? _]. Qed.

Definition is_event (c : control) : bool :=
  match c with
  | EModelDeployed _ | EModelUndeployed _ | EModelPromoted _ | EModelArchived _ => true
  | _ => false
  end.

(** The route without its timestamp. *)
Definition content (cur : option Route) : option (string * string * list RouteTarget) :=
  (fun r => (r_OwnerTeam r, r_ModelName r, r_Targets r)) <$> cur.

Lemma effect_idem now now' c cur :
  is_event c = true -> content (effect now' c (effect now c cur)) = content (effect now c cur).
Proof.
  destruct c as [| | | ev | ev | ev | ev]; try done; intros _; simpl.
  - destruct (_ || _) eqn:Eg; rewrite ?Eg; [done |]. unfold content. simpl.
    by destruct cur; simpl; rewrite deploy_targets_idem.
  - destruct cur as [r|]; [| done]. destruct (bool_decide _) eqn:Ek; [done |]. simpl.
    rewrite filter_idem, Ek. done.
  - destruct cur as [r|]; [| done]. destruct (findTarget (mp_Version ev) r) eqn:Ef; [| by rewrite Ef].
    destruct (findTarget (mp_Version ev) (set_targets _ now r)) eqn:Ef'.
    + unfold content. simpl. by rewrite promote_targets_idem.
    + apply findTarget_promote in Ef'. congruence.
Qed.

Section events.
Context {W : Type} `{RouteStoreLaws W}.

(** Redelivery is harmless: handling any of the four routing events a second
    time, at any later reading of the clock, leaves every route with the same
    owner and targets as handling it once. *)
Theorem events_idempotent now now' c (w : W) k :
  is_event c = true ->
  content (rs_table (control_step now' c (control_step now c w)) !! k) =
  content (rs_table (control_step now c w) !! k).
Proof.
  intros Hc. rewrite !control_step_effect.
  destruct (decide (routeKey (control_key c).1 (control_key c).2 = k)) as [<- | Hne].
  - rewrite !lookup_partial_alter_eq. by apply effect_idem.
  - by rewrite !lookup_partial_alter_ne.
Qed.

(** A promotion hands all traffic to the promoted version: on a well-formed
    stored route that has it, afterwards the active weights sum to 10000 and, with
    any draw in range, the splitter picks that version; every other target drains
    with weight zero. *)
Theorem promotion_takes_all_traffic now ev (w : W) r rand :
  rs_table w !! routeKey (mp_OwnerTeam ev) (mp_ModelName ev) = Some r ->
  route_ok r -> Z.of_nat (length (r_Targets r)) * TotalWeightBps <= int64_max ->
  mp_Version ev ∈ versions (r_Targets r) -> (forall n, 0 < n -> 0 <= rand n < n) ->
  exists r', rs_table (control_step now (EModelPromoted ev) w)
               !! routeKey (mp_OwnerTeam ev) (mp_ModelName ev) = Some r' /\
    ActiveWeightSum r' = TotalWeightBps /\
    (exists t, Pick rand (r_Targets r') = Ok t /\ rt_Version t = mp_Version ev) /\
    Forall (fun t => rt_Version t <> mp_Version ev ->
      rt_Status t = TargetStatusDraining /\ rt_WeightBps t = 0) (r_Targets r').
Proof.
  intros Hr Hok Hlen Hv Hrand. rewrite control_step_effect. cbn [control_key fst snd].
  rewrite lookup_partial_alter_eq, Hr. simpl.
  destruct (findTarget _ _) as [t0|] eqn:Ef.
  2: { apply has_version_elem in Hv. unfold has_version in Hv. apply existsb_exists in Hv as (t & ? & ?).
       apply List.find_none with (x := t) in Ef; [congruence | done]. }
  set (ts := promote_targets ev (r_Targets r)). eexists; split; [done |].
  assert (weights_ok ts) as Hw.
  { split; [| unfold ts, promote_targets; by rewrite length_map].
    unfold ts, promote_targets. apply Forall_map, list.Forall_forall. intros t _.
    unfold TotalWeightBps. destruct (String.eqb _ _); simpl; lia. }
  assert (shares ts = TotalWeightBps) as Hs by by apply promote_shares; [apply ok_versions |].
  split; [unfold ActiveWeightSum; simpl; destruct Hw; rewrite targetsWeightSum_shares by (done || lia); lia |].
  split.
  - destruct (selectFrom_early ts [] 0 (rand TotalWeightBps) (proj1 Hw)) as (u & Hu & _ & Hp).
    + lia.
    + destruct Hw. lia.
    + specialize (Hrand TotalWeightBps). unfold TotalWeightBps in *. lia.
    + exists u. unfold Pick, eligibleWeightSum, selectByDraw. simpl. rewrite app_nil_r in Hp.
      destruct Hw. rewrite targetsWeightSum_shares, Hs by (done || lia). split; [done |].
      apply selectFrom_in in Hp as [_ Ha]. by eapply promote_status.
  - simpl. unfold ts, promote_targets. apply Forall_map, list.Forall_forall. intros t _.
    destruct (String.eqb_spec (rt_Version t) (mp_Version ev)); simpl; done.
Qed.

(** The event path does not keep the invariant the admin path enforces: two
    accepted deploy events, the stable version at 10000 and a canary at 1000,
    leave a serving route whose active weights sum to 11000. *)
Theorem canary_deploy_exceeds_total now (w : W) :
  rs_table w = ∅ ->
  exists r, GetRoute "a" "iris" (control_run
      [(now, EModelDeployed {| md_OwnerTeam := "a"; md_ModelName := "iris"; md_Version := "v1";
                               md_Endpoint := "iris-v1:9090"; md_WeightBps := 10000 |});
       (now, EModelDeployed {| md_OwnerTeam := "a"; md_ModelName := "iris"; md_Version := "v2";
                               md_Endpoint := "iris-v2:9090"; md_WeightBps := 1000 |})] w) = Ok r /\
    IsServing r = true /\ ActiveWeightSum r = 11000.
Proof.
  intros Hw. unfold GetRoute, control_run. rewrite rs_Get_spec. cbn [fold_left].
  rewrite !control_step_effect, Hw. cbn [control_key md_OwnerTeam md_ModelName fst snd].
  rewrite !lookup_partial_alter_eq, lookup_empty. by eexists.
Qed.
End events.

(** ** The properties at concrete inputs *)

#[local] Instance demo_port : RouteStorePort (RouteStore (gmap string string)) :=
  route_store_port encode_text.
#[local] Instance demo_laws : RouteStoreLaws (RouteStore (gmap string string)) :=
  route_store_laws encode_text.

Definition demo_empty : RouteStore (gmap string string) := NewRouteStore ∅.

Definition demo_deploy (v : string) (bps : Z) : ModelDeployed :=
  {| md_OwnerTeam := "a"; md_ModelName := "iris"; md_Version := v;
     md_Endpoint := "iris-" +:+ v +:+ ":9090"; md_WeightBps := bps |}.

(** A deployment, a canary, a split, and another tenant's deployment. *)
Definition demo_history : list (time * control) :=
  [(1, EModelDeployed (demo_deploy "v1" 10000));
   (2, EModelDeployed (demo_deploy "v2" 0));
   (3, CSetTrafficSplit "a" "iris" [{| tw_Version := "v1"; tw_WeightBps := 9000 |};
                                    {| tw_Version := "v2"; tw_WeightBps := 1000 |}]);
   (4, EModelUndeployed {| mu_OwnerTeam := "b"; mu_ModelName := "iris"; mu_Version := "v1";
                           mu_Reason := "gone" |})].

Definition demo_world : RouteStore (gmap string string) := control_run demo_history demo_empty.

Definition demo_target (v : string) (bps : Z) (stable : bool) : RouteTarget :=
  {| rt_Version := v; rt_Endpoint := "iris-" +:+ v +:+ ":9090"; rt_WeightBps := bps;
     rt_Status := TargetStatusActive; rt_IsStable := stable |}.

Definition demo_route : Route := {|
  r_OwnerTeam := "a"; r_ModelName := "iris";
  r_Targets := [demo_target "v1" 9000 true; demo_target "v2" 1000 false]; r_UpdatedAt := 3 |}.

Lemma demo_lookup : rs_table demo_world !! routeKey "a" "iris" = Some demo_route.
Proof. vm_compute. reflexivity. Qed.

Lemma demo_route_ok : route_ok demo_route.
Proof.
  constructor; [by apply (bool_decide_unpack _) | | done].
  repeat (constructor; [vm_compute; intuition discriminate |]). constructor.
Qed.

Lemma table_well_formed_witness :
  route_ok demo_route /\
  forall t, t ∈ r_Targets demo_route -> exists ev, ev ∈ deploys demo_history /\
    routeKey (md_OwnerTeam ev) (md_ModelName ev) = routeKey "a" "iris" /\
    md_Version ev = rt_Version t /\ md_Endpoint ev = rt_Endpoint t.
Proof.
  refine (table_well_formed demo_history demo_empty _ (routeKey "a" "iris") demo_route demo_lookup).
  reflexivity.
Defined.

Lemma demo_no_nul : no_nul "a".
Proof. intros a. simpl. intros Ha. apply elem_of_cons in Ha as [-> | Ha]; [done | by apply not_elem_of_nil in Ha]. Qed.

Definition other_deploy : control := EModelDeployed
  {| md_OwnerTeam := "a"; md_ModelName := "bert"; md_Version := "v1";
     md_Endpoint := "bert:9090"; md_WeightBps := 10000 |}.

Lemma tenant_isolation_witness :
  GetRoute "a" "iris" (control_step 9 other_deploy demo_world) = GetRoute "a" "iris" demo_world.
Proof.
  refine (tenant_isolation 9 other_deploy demo_world "a" "iris" demo_no_nul demo_no_nul _). done.
Defined.

Definition demo_promotion : ModelPromoted := {|
  mp_OwnerTeam := "a"; mp_ModelName := "iris"; mp_Version := "v2"; mp_DemotedVersion := "v1" |}.

Lemma events_idempotent_witness :
  content (rs_table (control_step 6 (EModelPromoted demo_promotion)
    (control_step 5 (EModelPromoted demo_promotion) demo_world)) !! routeKey "a" "iris") =
  content (rs_table (control_step 5 (EModelPromoted demo_promotion) demo_world)
    !! routeKey "a" "iris").
Proof. refine (events_idempotent 5 6 (EModelPromoted demo_promotion) demo_world _ eq_refl). Defined.

Lemma promotion_takes_all_traffic_witness :
  exists r', rs_table (control_step 5 (EModelPromoted demo_promotion) demo_world)
               !! routeKey "a" "iris" = Some r' /\
    ActiveWeightSum r' = TotalWeightBps /\
    (exists t, Pick (fun n => n - 1) (r_Targets r') = Ok t /\ rt_Version t = "v2") /\
    Forall (fun t => rt_Version t <> "v2" ->
      rt_Status t = TargetStatusDraining /\ rt_WeightBps t = 0) (r_Targets r').
Proof.
  refine (promotion_takes_all_traffic 5 demo_promotion demo_world demo_route (fun n => n - 1)
    demo_lookup demo_route_ok _ _ _).
  - vm_compute. discriminate.
  - right. left.
  - intros n Hn. lia.
Defined.

Lemma canary_deploy_exceeds_total_witness :
  exists r, GetRoute "a" "iris" (control_run
      [(1, EModelDeployed {| md_OwnerTeam := "a"; md_ModelName := "iris"; md_Version := "v1";
                             md_Endpoint := "iris-v1:9090"; md_WeightBps := 10000 |});
       (1, EModelDeployed {| md_OwnerTeam := "a"; md_ModelName := "iris"; md_Version := "v2";
                             md_Endpoint := "iris-v2:9090"; md_WeightBps := 1000 |})] demo_empty) = Ok r /\
    IsServing r = true /\ ActiveWeightSum r = 11000.
Proof. exact (canary_deploy_exceeds_total 1 demo_empty eq_refl). Defined.
