(* ===== verification/Predict.v ===== *)
(** * Predict: the hot path of the inference gateway

    [Predict], [selectTarget], [fail], [validatePredict] and [elemSize] of
    [services/inference-gateway/internal/domain/inference_service_impl.go], as a
    state transformer over everything the use-case talks to: the route store, the
    rate limiter, the model server, the breaker registry and the event bus. *)

From S2P Require Import Prelude CircuitBreaker BreakerRegistry Routing RouteStore.

(** ** Data *)

Record Tensor := { Shape : list Z; DType : string; Data : list Byte.byte }.

Record PredictInput := {
  in_ModelName : string;
  in_Inputs : gmap string Tensor;
  in_VersionOverride : string;
  in_IdempotencyKey : string;
}.

Record Principal := { APIKeyID : string; Team : string }.

Record PredictOutput := {
  out_Outputs : gmap string Tensor;
  out_ServedVersion : string;
  out_IsCanary : bool;
  out_Latency : duration;
  out_RequestID : string;
}.

Inductive FailureReason :=
| FailureReasonUnspecified
| FailureReasonNoRoute
| FailureReasonRateLimited
| FailureReasonBulkheadFull
| FailureReasonCircuitOpen
| FailureReasonUpstreamError
| FailureReasonTimeout
| FailureReasonInvalidInput
| FailureReasonQuotaExceeded.

Record InferenceCompleted := {
  ic_RequestID : string; ic_ModelName : string; ic_Version : string; ic_APIKeyID : string;
  ic_IsCanary : bool; ic_Latency : duration; ic_CompletedAt : time }.

(** [if_Message] is kept as the error whose text the code sends. *)
Record InferenceFailed := {
  if_RequestID : string; if_ModelName : string; if_Version : string; if_APIKeyID : string;
  if_Reason : FailureReason; if_Message : ig_error; if_FailedAt : time }.

Inductive Event :=
| PublishCompleted (ev : InferenceCompleted)
| PublishFailed (ev : InferenceFailed).

(** ** Input validation *)

Definition elemSize (dtype : string) : Z :=
  if String.eqb dtype "float32" || String.eqb dtype "int32" then 4
  else if String.eqb dtype "float64" || String.eqb dtype "int64" then 8
  else if String.eqb dtype "bool" then 1
  else 0.

Definition invalid (text : string) : ig_error := Wrap text (Sentinel ErrInvalidInput).

(** [want *= int(dim)] over the shape, at 64 bits. *)
Fixpoint wantBytes (want : Z) (shape : list Z) : result Z ig_error :=
  match shape with
  | [] => Ok want
  | dim :: shape =>
      if dim <? 0 then Err (invalid "tensor has negative dimension")
      else wantBytes (wrap64 (want * dim)) shape
  end.

Definition validateTensor (t : Tensor) : option ig_error :=
  let len := Z.of_nat (length (Data t)) in
  if len =? 0 then Some (invalid "tensor has empty data")
  else
    let elem := elemSize (DType t) in
    if 0 <? elem then
      match wantBytes elem (Shape t) with
      | Err e => Some e
      | Ok want =>
          if (0 <? want) && negb (len =? want)
          then Some (invalid "tensor has the wrong number of bytes for shape/dtype") else None
      end
    else None.

Fixpoint validateTensors (ts : list (string * Tensor)) : option ig_error :=
  match ts with
  | [] => None
  | (_, t) :: ts => match validateTensor t with Some e => Some e | None => validateTensors ts end
  end.

(** [range m] is the order in which the runtime enumerates a map. *)
Definition validatePredict (range : gmap string Tensor -> list (string * Tensor)) (i : PredictInput)
    : option ig_error :=
  if String.eqb (in_ModelName i) "" then Some (invalid "model_name is required")
  else if Z.of_nat (size (in_Inputs i)) =? 0
  then Some (invalid "at least one input tensor is required")
  else validateTensors (range (in_Inputs i)).

(** The chain of [e] has this error of code outside the package. *)
Fixpoint chain_has (what : string) (e : ig_error) : bool :=
  match e with
  | Sentinel _ => false
  | External w => String.eqb w what
  | Wrap _ e => chain_has what e
  end.

Definition DeadlineExceeded : string := "context deadline exceeded".

(** ** Target selection *)

Definition selectTarget (rand : Z -> Z) (route : Route) (override : string)
    : result RouteTarget ig_error :=
  if negb (String.eqb override "") then
    match findTarget override route with
    | Some t => if Eligible (rt_Status t) then Ok t else Err (Sentinel ErrNoRoute)
    | None => Err (Sentinel ErrNoRoute)
    end
  else Pick rand (r_Targets route).

(** ** The use-case *)

Section predict.
Context {W : Type} `{RouteStorePort W} {L B : Type}.
(** The token bucket (Redis), the model server and the quota cache are other
    programs: a call answers and moves their state. *)
Context (limiter_Allow : string -> L -> result bool string * L)
        (quota_IsBlocked : option (string -> bool))
        (backend_Predict : duration -> string -> PredictInput -> B ->
           result (gmap string Tensor) ig_error * B).
Context (range : gmap string Tensor -> list (string * Tensor)).
(** The n-th reading of the clock. A branch that reads the clock less often than
    modelled skips readings, which an arbitrary [clock] makes no difference to. *)
Context (clock : nat -> time) (callTimeout : duration).

Record gateway := {
  g_routes : W;
  g_limiter : L;
  g_backend : B;
  g_breakers : breakerRegistry;
  g_events : list Event;
  g_ticks : nat;
}.

Definition M (A : Type) : Type := gateway -> A * gateway.
Definition ret {A} (a : A) : M A := fun g => (a, g).
Definition bind {A C} (m : M A) (f : A -> M C) : M C := fun g => let '(a, g) := m g in f a g.

#[local] Notation "'let*' x ':=' m 'in' k" := (bind m (fun x => k))
  (at level 10, x pattern, m at level 100, k at level 200).

Definition tick : M time := fun g => (clock (g_ticks g), {|
  g_routes := g_routes g; g_limiter := g_limiter g; g_backend := g_backend g;
  g_breakers := g_breakers g; g_events := g_events g; g_ticks := S (g_ticks g) |}).

Definition publish (e : Event) : M unit := fun g => (tt, {|
  g_routes := g_routes g; g_limiter := g_limiter g; g_backend := g_backend g;
  g_breakers := g_breakers g; g_events := g_events g ++ [e]; g_ticks := g_ticks g |}).

(** A limiter outage admits the call. *)
Definition limit (apiKeyID : string) : M bool := fun g =>
  let '(r, l) := limiter_Allow apiKeyID (g_limiter g) in
  (match r with Ok allowed => allowed | Err _ => true end, {|
  g_routes := g_routes g; g_limiter := l; g_backend := g_backend g;
  g_breakers := g_breakers g; g_events := g_events g; g_ticks := g_ticks g |}).

Definition lookup_route (key : string) : M (result Route ig_error) := fun g =>
  (rs_Get key (g_routes g), g).

Definition call_backend (endpoint : string) (i : PredictInput)
    : M (result (gmap string Tensor) ig_error) := fun g =>
  let '(r, b) := backend_Predict callTimeout endpoint i (g_backend g) in (r, {|
  g_routes := g_routes g; g_limiter := g_limiter g; g_backend := b;
  g_breakers := g_breakers g; g_events := g_events g; g_ticks := g_ticks g |}).

Definition set_breakers (r : breakerRegistry) (g : gateway) : gateway := {|
  g_routes := g_routes g; g_limiter := g_limiter g; g_backend := g_backend g;
  g_breakers := r; g_events := g_events g; g_ticks := g_ticks g |}.

(** An operation on the registry's breaker for [k]. *)
Definition with_breaker {A} (k : breakerKey) (f : CircuitBreaker -> A * CircuitBreaker) : M A :=
  let* now := tick in
  fun g =>
    let '(b, r) := BreakerRegistry.Get now k (g_breakers g) in
    let '(a, r) := on_breaker k f b r in
    (a, set_breakers r g).

Definition breaker_Allow (k : breakerKey) : M bool :=
  let* now := tick in let* now' := tick in with_breaker k (Allow now now').
Definition breaker_RecordSuccess (k : breakerKey) : M unit :=
  let* now := tick in with_breaker k (fun b => (tt, RecordSuccess now b)).
Definition breaker_RecordFailure (k : breakerKey) : M unit :=
  let* now := tick in with_breaker k (fun b => (tt, RecordFailure now b)).

Definition fail {A} (requestID model version : string) (p : Principal) (reason : FailureReason)
    (err : ig_error) : M (result A ig_error) :=
  let* now := tick in
  let* _ := publish (PublishFailed {|
    if_RequestID := requestID; if_ModelName := model; if_Version := version;
    if_APIKeyID := APIKeyID p; if_Reason := reason; if_Message := err; if_FailedAt := now |}) in
  ret (Err err).

Definition quota_blocked (team : string) : bool :=
  match quota_IsBlocked with Some IsBlocked => IsBlocked team | None => false end.

(** Steps 7 and 8: forward to the chosen target, record the outcome, publish. *)
Definition forward (requestID : string) (p : Principal) (i : PredictInput) (k : breakerKey)
    (target : RouteTarget) : M (result PredictOutput ig_error) :=
  let* start := tick in
  let* res := call_backend (rt_Endpoint target) i in
  let* stop := tick in
  let latency := time_sub stop start in
  match res with
  | Err callErr =>
      let* _ := breaker_RecordFailure k in
      if errors_is callErr ErrTimeout || chain_has DeadlineExceeded callErr
      then fail requestID (in_ModelName i) (rt_Version target) p FailureReasonTimeout (Sentinel ErrTimeout)
      else fail requestID (in_ModelName i) (rt_Version target) p FailureReasonUpstreamError
             (Sentinel ErrUpstream)
  | Ok outputs =>
      let* _ := breaker_RecordSuccess k in
      let out := {|
        out_Outputs := outputs; out_ServedVersion := rt_Version target;
        out_IsCanary := negb (rt_IsStable target); out_Latency := latency;
        out_RequestID := requestID |} in
      let* now := tick in
      let* _ := publish (PublishCompleted {|
        ic_RequestID := requestID; ic_ModelName := in_ModelName i;
        ic_Version := rt_Version target; ic_APIKeyID := APIKeyID p;
        ic_IsCanary := out_IsCanary out; ic_Latency := latency; ic_CompletedAt := now |}) in
      ret (Ok out)
  end.

(** [requestID] is what [newRequestID] minted, [rand] the splitter's source. *)
Definition Predict (requestID : string) (rand : Z -> Z) (p : Principal) (i : PredictInput)
    : M (result PredictOutput ig_error) :=
  let reject := fail requestID (in_ModelName i) "" p in
  match validatePredict range i with
  | Some err => reject FailureReasonInvalidInput err
  | None =>
      if quota_blocked (Team p) then reject FailureReasonQuotaExceeded (Sentinel ErrQuotaExceeded)
      else
        let* allowed := limit (APIKeyID p) in
        if negb allowed then reject FailureReasonRateLimited (Sentinel ErrRateLimited)
        else
          let* found := lookup_route (routeKey (Team p) (in_ModelName i)) in
          match found with
          | Err _ => reject FailureReasonNoRoute (Sentinel ErrNoRoute)
          | Ok route =>
              match selectTarget rand route (in_VersionOverride i) with
              | Err err => reject FailureReasonNoRoute err
              | Ok target =>
                  let k := (r_ModelName route, rt_Version target) in
                  let* admitted := breaker_Allow k in
                  if negb admitted
                  then fail requestID (in_ModelName i) (rt_Version target) p
                         FailureReasonCircuitOpen (Sentinel ErrCircuitOpen)
                  else forward requestID p i k target
              end
          end
  end.
End predict.
Arguments gateway : clear implicits.

(** ** Validation *)

Definition tensor_ok (t : Tensor) : bool := bool_decide (validateTensor t = None).

Lemma validateTensors_none ts :
  validateTensors ts = None <-> Forall (fun p => validateTensor p.2 = None) ts.
Proof.
  induction ts as [|[n t] ts IH]; simpl; [by split |].
  destruct (validateTensor t) as [e|] eqn:E; [| rewrite IH]; rewrite list.Forall_cons; simpl;
    rewrite E; tauto || (split; [done | by intros [? _]]).
Qed.

Lemma wantBytes_exact shape w :
  1 <= w -> Forall (fun d => 1 <= d) shape -> w * foldr Z.mul 1 shape <= int64_max ->
  wantBytes w shape = Ok (w * foldr Z.mul 1 shape) /\ 1 <= w * foldr Z.mul 1 shape.
Proof.
  intros Hw H. revert w Hw. induction H as [|d shape Hd H IH]; intros w Hw Hmax; simpl in *.
  - rewrite Z.mul_1_r in *. done.
  - rewrite (proj2 (Z.ltb_ge _ _)) by lia.
    assert (1 <= foldr Z.mul 1 shape) as Hp by (clear - H; induction H; simpl; nia).
    rewrite Z.mul_assoc in Hmax |- *.
    rewrite wrap64_id by (unfold in_int64, int64_min, int64_max in *; nia). apply IH; [nia | done].
Qed.

Section validation.
Context (range : gmap string Tensor -> list (string * Tensor)).
Hypothesis range_perm : forall m, range m ≡ₚ map_to_list m.

(** Validation is exact where the size of a tensor is a machine integer: an
    input whose tensors have known element types, positive dimensions and a
    byte size within [int64] is accepted iff the model is named, some tensor is
    given, and every tensor carries exactly [product (shape) * elemSize] bytes;
    the order in which the runtime enumerates the tensors does not matter. *)
Theorem validatePredict_exact i :
  map_Forall (fun _ t => 0 < elemSize (DType t) /\ Forall (fun d => 1 <= d) (Shape t) /\
    elemSize (DType t) * foldr Z.mul 1 (Shape t) <= int64_max) (in_Inputs i) ->
  validatePredict range i = None <->
  in_ModelName i <> "" /\ in_Inputs i <> ∅ /\
  map_Forall (fun _ t => Z.of_nat (length (Data t)) =
    elemSize (DType t) * foldr Z.mul 1 (Shape t)) (in_Inputs i).
Proof.
  intros Hm. unfold validatePredict.
  destruct (String.eqb_spec (in_ModelName i) "") as [Hn | Hn]; [split; [done | by intros [? _]] |].
  destruct (Z.eqb_spec (Z.of_nat (size (in_Inputs i))) 0) as [H0 | H0].
  { assert (in_Inputs i = ∅) by (apply map_size_empty_iff; lia). split; [done | by intros (_ & ? & _)]. }
  assert (in_Inputs i <> ∅) by (intros E; apply H0; by rewrite E, map_size_empty).
  rewrite validateTensors_none, range_perm, map_Forall_to_list.
  rewrite map_Forall_to_list in Hm. rewrite !list.Forall_forall in *. split.
  - intros Hv. do 2 (split; [done |]). intros [k t] Hin.
    specialize (Hv _ Hin). specialize (Hm _ Hin) as (He & Hd & Hx). simpl in *. revert Hv.
    unfold validateTensor. rewrite (proj2 (Z.ltb_lt _ _) He).
    destruct (wantBytes_exact (Shape t) (elemSize (DType t))) as [-> Hp]; [lia | done | done |].
    destruct (_ =? 0); [done |]. rewrite (proj2 (Z.ltb_lt 0 _)) by lia. simpl.
    destruct (Z.eqb_spec (Z.of_nat (length (Data t)))
      (elemSize (DType t) * foldr Z.mul 1 (Shape t))); done.
  - intros (_ & _ & Hv) [k t] Hin.
    specialize (Hv _ Hin). specialize (Hm _ Hin) as (He & Hd & Hx). simpl in *.
    unfold validateTensor. rewrite (proj2 (Z.ltb_lt _ _) He).
    destruct (wantBytes_exact (Shape t) (elemSize (DType t))) as [-> Hp]; [lia | done | done |].
    rewrite Hv, Z.eqb_refl, andb_false_r. by rewrite (proj2 (Z.eqb_neq _ 0)) by lia.
Qed.
End validation.

(** Where the size is not a machine integer validation is not exact: the
    product of the shape [[2^61]] of 8-byte elements wraps to zero, so that a
    one-byte tensor passes for one of 2^64 bytes. *)
Theorem validateTensor_wraps :
  exists t, elemSize (DType t) * foldr Z.mul 1 (Shape t) = 2 ^ 64 /\
    length (Data t) = 1%nat /\ validateTensor t = None.
Proof.
  exists {| Shape := [2 ^ 61]; DType := "float64"; Data := [Byte.x00] |}. vm_compute.
  split; [| split]; reflexivity.
Qed.

(** ** Predictions *)

(** What each reason promises about the returned error. *)
Definition reason_sentinel (r : FailureReason) : option ig_sentinel :=
  match r with
  | FailureReasonNoRoute => Some ErrNoRoute
  | FailureReasonRateLimited => Some ErrRateLimited
  | FailureReasonCircuitOpen => Some ErrCircuitOpen
  | FailureReasonUpstreamError => Some ErrUpstream
  | FailureReasonTimeout => Some ErrTimeout
  | FailureReasonInvalidInput => Some ErrInvalidInput
  | FailureReasonQuotaExceeded => Some ErrQuotaExceeded
  | FailureReasonUnspecified | FailureReasonBulkheadFull => None
  end.

Definition reported (reason : FailureReason) (err : ig_error) : Prop :=
  exists s, reason_sentinel reason = Some s /\ errors_is err s = true.

Definition outcome_event (requestID : string) (p : Principal) (i : PredictInput)
    (res : result PredictOutput ig_error) (e : Event) : Prop :=
  match res, e with
  | Ok out, PublishCompleted ev =>
      out_RequestID out = requestID /\ ic_RequestID ev = requestID /\
      ic_ModelName ev = in_ModelName i /\ ic_APIKeyID ev = APIKeyID p /\
      ic_Version ev = out_ServedVersion out /\ ic_IsCanary ev = out_IsCanary out /\
      ic_Latency ev = out_Latency out
  | Err err, PublishFailed ev =>
      if_RequestID ev = requestID /\ if_ModelName ev = in_ModelName i /\
      if_APIKeyID ev = APIKeyID p /\ if_Message ev = err /\ reported (if_Reason ev) err
  | _, _ => False
  end.

Lemma wantBytes_err shape w e : wantBytes w shape = Err e -> errors_is e ErrInvalidInput = true.
Proof.
  revert w. induction shape as [|d shape IH]; intros w; simpl; [done |].
  destruct (d <? 0); [by intros [= <-] | apply IH].
Qed.

Lemma validatePredict_err range i e :
  validatePredict range i = Some e -> errors_is e ErrInvalidInput = true.
Proof.
  unfold validatePredict. destruct (String.eqb _ _); [by intros [= <-] |].
  destruct (_ =? 0); [by intros [= <-] |].
  induction (range (in_Inputs i)) as [|[n t] ts IH]; simpl; [done |].
  destruct (validateTensor t) as [e'|] eqn:E; [| done]. intros [= <-]. revert E.
  unfold validateTensor. destruct (_ =? 0); [by intros [= <-] |]. destruct (0 <? elemSize _); [| done].
  destruct (wantBytes _ _) eqn:Ew; [| intros [= <-]; by eapply wantBytes_err].
  destruct (_ && _); [by intros [= <-] | done].
Qed.

Lemma selectFrom_err ts c d e : selectFrom c ts d = Err e -> e = Sentinel ErrNoRoute.
Proof.
  revert c. induction ts as [|t ts IH]; intros c; simpl; [by intros [= <-] |].
  destruct (Eligible _); [| apply IH]. destruct (_ <? _); [done | apply IH].
Qed.

Lemma selectTarget_spec rand route override :
  match selectTarget rand route override with
  | Ok t => t ∈ r_Targets route /\ rt_Status t = TargetStatusActive /\
            (override <> "" -> rt_Version t = override)
  | Err e => e = Sentinel ErrNoRoute
  end.
Proof.
  unfold selectTarget. destruct (String.eqb_spec override "") as [-> | Hne]; simpl.
  - unfold Pick. destruct (_ <=? 0); [done |]. unfold selectByDraw.
    destruct (selectFrom _ _ _) as [t | e] eqn:E.
    + apply selectFrom_in in E as [? ?]. done.
    + by eapply selectFrom_err.
  - destruct (findTarget override route) as [t|] eqn:Ef; [| done].
    unfold findTarget in Ef. apply List.find_some in Ef as [Hin Hv].
    destruct (Eligible (rt_Status t)) eqn:El; [| done]. apply eligible_status in El.
    split; [by apply list_elem_of_In | split; [done |]]. intros _. by apply String.eqb_eq in Hv.
Qed.

Lemma is_sentinel (s s' : ig_sentinel) : errors_is (Sentinel s) s' = true -> s = s'.
Proof. by destruct s, s'. Qed.

Lemma errors_is_unique (e : ig_error) s s' : errors_is e s = true -> errors_is e s' = true -> s = s'.
Proof.
  induction e as [s0 | w | t e IH]; [| done | done].
  intros H1 H2. apply is_sentinel in H1, H2. congruence.
Qed.

Section theorems.
Context {W : Type} `{RouteStorePort W} {L B : Type}.
Context (limiter_Allow : string -> L -> result bool string * L)
        (quota_IsBlocked : option (string -> bool))
        (backend_Predict : duration -> string -> PredictInput -> B ->
           result (gmap string Tensor) ig_error * B).
Context (range : gmap string Tensor -> list (string * Tensor)).
Context (clock : nat -> time) (callTimeout : duration).
Abbreviation predict := (Predict limiter_Allow quota_IsBlocked backend_Predict range clock callTimeout)
  (only parsing).

(** Each stage, as what it does to the state. *)
Lemma fail_spec {A} rid m v p reason err (g : gateway W L B) :
  exists now, fail clock (A := A) rid m v p reason err g = (Err err, {|
    g_routes := g_routes g; g_limiter := g_limiter g; g_backend := g_backend g;
    g_breakers := g_breakers g;
    g_events := g_events g ++ [PublishFailed {|
      if_RequestID := rid; if_ModelName := m; if_Version := v; if_APIKeyID := APIKeyID p;
      if_Reason := reason; if_Message := err; if_FailedAt := now |}];
    g_ticks := S (g_ticks g) |}).
Proof. eexists. reflexivity. Qed.

(** The breaker of [k] as an operation finds it. *)
Definition breaker_at (k : breakerKey) (now : time) (r : breakerRegistry) : CircuitBreaker :=
  default (newCircuitBreaker (reg_cfg r) now) (breakers r !! k).

Definition registry_put (k : breakerKey) (b : CircuitBreaker) (r : breakerRegistry)
    : breakerRegistry := {| reg_cfg := reg_cfg r; breakers := <[k := b]> (breakers r) |}.

Lemma with_breaker_spec {A} k (f : CircuitBreaker -> A * CircuitBreaker) (g : gateway W L B) :
  let now := clock (g_ticks g) in
  with_breaker clock k f g =
    (fst (f (breaker_at k now (g_breakers g))),
     {| g_routes := g_routes g; g_limiter := g_limiter g; g_backend := g_backend g;
        g_breakers := registry_put k (snd (f (breaker_at k now (g_breakers g)))) (g_breakers g);
        g_events := g_events g; g_ticks := S (g_ticks g) |}).
Proof.
  unfold with_breaker, bind, tick, BreakerRegistry.Get, breaker_at, on_breaker, registry_put. simpl.
  destruct (breakers (g_breakers g) !! k) as [b|]; simpl.
  - by destruct (f b).
  - destruct (f _). simpl. by rewrite insert_insert_eq.
Qed.

Lemma allow_spec k (g : gateway W L B) :
  let b := breaker_at k (clock (2 + g_ticks g)) (g_breakers g) in
  let r := Allow (clock (g_ticks g)) (clock (1 + g_ticks g)) b in
  breaker_Allow clock k g =
    (fst r, {| g_routes := g_routes g; g_limiter := g_limiter g; g_backend := g_backend g;
               g_breakers := registry_put k (snd r) (g_breakers g);
               g_events := g_events g; g_ticks := 3 + g_ticks g |}).
Proof.
  unfold breaker_Allow, bind at 1, tick at 1. unfold bind at 1, tick at 1.
  rewrite with_breaker_spec. reflexivity.
Qed.

Definition set_limiter (l : L) (g : gateway W L B) : gateway W L B := {|
  g_routes := g_routes g; g_limiter := l; g_backend := g_backend g;
  g_breakers := g_breakers g; g_events := g_events g; g_ticks := g_ticks g |}.

(** The gates before the breaker let the call through to [target]. *)
Record chosen (rand : Z -> Z) (p : Principal) (i : PredictInput) (g : gateway W L B)
    (route : Route) (target : RouteTarget) (l : L) : Prop := {
  ch_valid : validatePredict range i = None;
  ch_quota : quota_blocked quota_IsBlocked (Team p) = false;
  ch_limit : fst (limiter_Allow (APIKeyID p) (g_limiter g)) <> Ok false /\
             snd (limiter_Allow (APIKeyID p) (g_limiter g)) = l;
  ch_route : rs_Get (routeKey (Team p) (in_ModelName i)) (g_routes g) = Ok route;
  ch_target : selectTarget rand route (in_VersionOverride i) = Ok target;
}.

(** The call after a target is chosen. *)
Definition guarded (rid : string) (p : Principal) (i : PredictInput) (route : Route)
    (target : RouteTarget) (g : gateway W L B) : result PredictOutput ig_error * gateway W L B :=
  let k := (r_ModelName route, rt_Version target) in
  let '(admitted, g) := breaker_Allow clock k g in
  if (admitted : bool) then forward backend_Predict clock callTimeout rid p i k target g
  else fail clock rid (in_ModelName i) (rt_Version target) p FailureReasonCircuitOpen
         (Sentinel ErrCircuitOpen) g.

Definition early (reason : FailureReason) : Prop :=
  reason = FailureReasonInvalidInput \/ reason = FailureReasonQuotaExceeded \/
  reason = FailureReasonRateLimited \/ reason = FailureReasonNoRoute.

Variant staged (rid : string) (rand : Z -> Z) (p : Principal) (i : PredictInput)
    (g : gateway W L B) : result PredictOutput ig_error * gateway W L B -> Prop :=
| Refused reason err now l :
    reported reason err -> early reason ->
    (reason = FailureReasonInvalidInput \/ reason = FailureReasonQuotaExceeded -> l = g_limiter g) ->
    staged rid rand p i g (Err err, {|
      g_routes := g_routes g; g_limiter := l; g_backend := g_backend g;
      g_breakers := g_breakers g;
      g_events := g_events g ++ [PublishFailed {|
        if_RequestID := rid; if_ModelName := in_ModelName i; if_Version := "";
        if_APIKeyID := APIKeyID p; if_Reason := reason; if_Message := err; if_FailedAt := now |}];
      g_ticks := S (g_ticks g) |})
| Guarded route target l :
    chosen rand p i g route target l ->
    staged rid rand p i g (guarded rid p i route target (set_limiter l g)).

Lemma reported_sentinel reason s : reason_sentinel reason = Some s -> reported reason (Sentinel s).
Proof. intros Hr. exists s. split; [done |]. simpl. by rewrite bool_decide_true. Qed.

Lemma fail_staged rid rand p i g reason err l :
  reported reason err -> early reason ->
  (reason = FailureReasonInvalidInput \/ reason = FailureReasonQuotaExceeded -> l = g_limiter g) ->
  staged rid rand p i g (fail clock rid (in_ModelName i) "" p reason err (set_limiter l g)).
Proof. exact (Refused rid rand p i g reason err (clock (g_ticks g)) l). Qed.

Lemma fail_staged_same rid rand p i g reason err :
  reported reason err -> early reason ->
  staged rid rand p i g (fail clock rid (in_ModelName i) "" p reason err g).
Proof. intros Hr He. pose proof (fail_staged rid rand p i g reason err (g_limiter g) Hr He) as Hs.
  destruct g. by apply Hs. Qed.

Lemma predict_staged rid rand p i g : staged rid rand p i g (predict rid rand p i g).
Proof.
  unfold Predict. destruct (validatePredict range i) as [err|] eqn:Ev.
  { apply fail_staged_same; [| by left]. exists ErrInvalidInput. split; [done |].
    by eapply validatePredict_err. }
  destruct (quota_blocked _ _) eqn:Eq.
  { apply fail_staged_same; [by apply reported_sentinel | by right; left]. }
  unfold bind at 1, limit at 1. destruct (limiter_Allow _ _) as [ans l] eqn:El.
  fold (set_limiter l g).
  destruct (match ans with Ok allowed => allowed | Err _ => true end) eqn:Ea; cbn [negb].
  2: { apply fail_staged;
       [by apply reported_sentinel | by right; right; left | by intros [? | ?]]. }
  unfold bind at 1, lookup_route at 1. cbn [g_routes set_limiter].
  destruct (rs_Get _ _) as [route | e] eqn:Er.
  2: { apply fail_staged;
       [by apply reported_sentinel | by right; right; right | by intros [? | ?]]. }
  pose proof (selectTarget_spec rand route (in_VersionOverride i)) as Hs.
  destruct (selectTarget rand route (in_VersionOverride i)) as [target | e] eqn:Et.
  2: { subst e. apply fail_staged;
       [by apply reported_sentinel | by right; right; right | by intros [? | ?]]. }
  assert (chosen rand p i g route target l) as Hc.
  { constructor; [done | done | | done | done]. rewrite El. split; [| done]. by destruct ans as [[]|]. }
  pose proof (Guarded rid rand p i g route target l Hc) as Hg. unfold guarded in Hg.
  unfold bind at 1. destruct (breaker_Allow clock _ _) as [[] g1]; exact Hg.
Qed.

(** The state after the call to the model server and the breaker's record. *)
Definition recorded (k : breakerKey) (b : CircuitBreaker) (s : B) (e : Event) (t : nat)
    (g : gateway W L B) : gateway W L B := {|
  g_routes := g_routes g; g_limiter := g_limiter g; g_backend := s;
  g_breakers := registry_put k b (g_breakers g); g_events := g_events g ++ [e]; g_ticks := t |}.

Definition classify (callErr : ig_error) : FailureReason * ig_sentinel :=
  if errors_is callErr ErrTimeout || chain_has DeadlineExceeded callErr
  then (FailureReasonTimeout, ErrTimeout) else (FailureReasonUpstreamError, ErrUpstream).

Lemma forward_spec rid p i k target (g : gateway W L B) :
  exists now now' latency at_,
    let b := breaker_at k now' (g_breakers g) in
    let '(res, s) := backend_Predict callTimeout (rt_Endpoint target) i (g_backend g) in
    forward backend_Predict clock callTimeout rid p i k target g =
    match res with
    | Ok outputs =>
          (Ok {| out_Outputs := outputs; out_ServedVersion := rt_Version target;
                 out_IsCanary := negb (rt_IsStable target); out_Latency := latency;
                 out_RequestID := rid |},
           recorded k (RecordSuccess now b) s (PublishCompleted {|
             ic_RequestID := rid; ic_ModelName := in_ModelName i; ic_Version := rt_Version target;
             ic_APIKeyID := APIKeyID p; ic_IsCanary := negb (rt_IsStable target);
             ic_Latency := latency; ic_CompletedAt := at_ |}) (5 + g_ticks g) g)
    | Err callErr =>
          (Err (Sentinel (classify callErr).2),
           recorded k (RecordFailure now b) s (PublishFailed {|
             if_RequestID := rid; if_ModelName := in_ModelName i; if_Version := rt_Version target;
             if_APIKeyID := APIKeyID p; if_Reason := (classify callErr).1;
             if_Message := Sentinel (classify callErr).2; if_FailedAt := at_ |}) (5 + g_ticks g) g)
    end.
Proof.
  exists (clock (2 + g_ticks g)), (clock (3 + g_ticks g)),
    (time_sub (clock (1 + g_ticks g)) (clock (g_ticks g))), (clock (4 + g_ticks g)).
  unfold forward, bind at 1, tick at 1. unfold bind at 1, call_backend at 1. simpl.
  destruct (backend_Predict _ _ _ _) as [[outs | e] s]; unfold bind at 1, tick at 1; simpl.
  - unfold bind at 1, breaker_RecordSuccess. unfold bind at 1, tick at 1. rewrite with_breaker_spec.
    reflexivity.
  - unfold bind at 1, breaker_RecordFailure. unfold bind at 1, tick at 1. rewrite with_breaker_spec.
    unfold classify. simpl. by destruct (errors_is e ErrTimeout || chain_has DeadlineExceeded e).
Qed.

Lemma guarded_cases rid p i route target (g : gateway W L B) :
  let k := (r_ModelName route, rt_Version target) in
  let b0 := breaker_at k (clock (2 + g_ticks g)) (g_breakers g) in
  let r := Allow (clock (g_ticks g)) (clock (1 + g_ticks g)) b0 in
  exists now latency at_,
    guarded rid p i route target g =
    if fst r then
      let '(res, s) := backend_Predict callTimeout (rt_Endpoint target) i (g_backend g) in
      match res with
      | Ok outputs =>
          (Ok {| out_Outputs := outputs; out_ServedVersion := rt_Version target;
                 out_IsCanary := negb (rt_IsStable target); out_Latency := latency;
                 out_RequestID := rid |},
           recorded k (RecordSuccess now (snd r)) s (PublishCompleted {|
             ic_RequestID := rid; ic_ModelName := in_ModelName i; ic_Version := rt_Version target;
             ic_APIKeyID := APIKeyID p; ic_IsCanary := negb (rt_IsStable target);
             ic_Latency := latency; ic_CompletedAt := at_ |}) (8 + g_ticks g) g)
      | Err callErr =>
          (Err (Sentinel (classify callErr).2),
           recorded k (RecordFailure now (snd r)) s (PublishFailed {|
             if_RequestID := rid; if_ModelName := in_ModelName i; if_Version := rt_Version target;
             if_APIKeyID := APIKeyID p; if_Reason := (classify callErr).1;
             if_Message := Sentinel (classify callErr).2; if_FailedAt := at_ |}) (8 + g_ticks g) g)
      end
    else
      (Err (Sentinel ErrCircuitOpen),
       recorded k (snd r) (g_backend g) (PublishFailed {|
         if_RequestID := rid; if_ModelName := in_ModelName i; if_Version := rt_Version target;
         if_APIKeyID := APIKeyID p; if_Reason := FailureReasonCircuitOpen;
         if_Message := Sentinel ErrCircuitOpen; if_FailedAt := at_ |}) (4 + g_ticks g) g).
Proof.
  intros k b0 r. unfold guarded. fold k. rewrite allow_spec. fold b0 r.
  destruct r as [[] b1] eqn:Er; cbn [fst snd].
  2: { exists 0, 0. eexists. reflexivity. }
  match goal with |- context [forward _ _ _ _ _ _ _ _ ?g1] =>
    destruct (forward_spec rid p i k target g1) as (now & now' & lat & at_ & Hf) end.
  exists now, lat, at_. revert Hf. cbn [g_backend g_breakers g_ticks].
  unfold breaker_at, registry_put. cbn [breakers reg_cfg]. rewrite lookup_insert_eq. cbn [default].
  destruct (backend_Predict _ _ _ _) as [[outs | e] s]; intros ->; unfold recorded, registry_put;
    cbn [g_routes g_limiter g_backend g_breakers g_events g_ticks breakers reg_cfg];
    by rewrite insert_insert_eq.
Qed.

(** C2. Every prediction, whatever gate or backend decides it, publishes exactly
    one event, under the request id and the caller's key: a completion with the
    version, canary flag and latency of the answer, or a failure whose reason is
    that of the sentinel the caller gets. *)
Theorem predict_one_event rid rand p i g :
  let '(res, g') := predict rid rand p i g in
  exists e, g_events g' = g_events g ++ [e] /\ outcome_event rid p i res e.
Proof.
  destruct (predict_staged rid rand p i g) as [reason err now l Hr _ _ | route target l _].
  - eexists. split; [done |]. simpl. tauto.
  - destruct (guarded_cases rid p i route target (set_limiter l g)) as (now & lat & at_ & ->).
    destruct (fst _).
    + destruct (backend_Predict _ _ _ _) as [[outs | e] s]; eexists; (split; [done |]); [done |].
      simpl. split_and!; try done. unfold classify. destruct (_ || _); by apply reported_sentinel.
    + eexists. split; [done |]. simpl. split_and!; try done. by apply reported_sentinel.
Qed.

(** What a breaker that lets a call through at [now] looked like: closed, open for longer
    than its reset timeout, or half-open with a probe slot left. *)
Definition lets_through (now : time) (b : CircuitBreaker) : Prop :=
  match state b with
  | CircuitClosed => True
  | CircuitOpen => lastTransition b + resetTimeout (cfg b) <= now /\ 0 < halfOpenMaxProbes (cfg b)
  | CircuitHalfOpen => halfOpenInFlight b < halfOpenMaxProbes (cfg b)
  end.

Lemma Allow_lets_through now now' b : fst (Allow now now' b) = true -> lets_through now b.
Proof.
  unfold Allow, maybeHalfOpen, lets_through, time_before. destruct (state b) eqn:Es; cbn [bool_decide andb].
  - done.
  - rewrite bool_decide_eq_true_2 by done. cbn [andb]. destruct (now <? _) eqn:En; cbn [negb]; cbv zeta.
    + by rewrite Es.
    + cbn [state transitionTo halfOpenInFlight cfg]. destruct (0 <? _) eqn:Ep; [| done]. lia.
  - rewrite bool_decide_eq_false_2 by congruence. cbn [andb]. cbv zeta. rewrite Es. destruct (_ <? _) eqn:Ep; [| done]. lia.
Qed.

(** C1. An answered prediction went through every gate: the input was valid, the
    team within quota, the limiter did not refuse, the route is the one stored
    under the caller's own team, the target an ACTIVE one of that route (the
    pinned version when one was pinned), the breaker of that target let the call
    through (it was closed, or open for its reset timeout, or half-open with a
    probe slot left), and the outputs are what the model server at that target's
    address answered, reported with its version and canary flag. *)
Theorem predict_serves_callers_route rid rand p i g out g' :
  predict rid rand p i g = (Ok out, g') ->
  validatePredict range i = None /\ quota_blocked quota_IsBlocked (Team p) = false /\
  fst (limiter_Allow (APIKeyID p) (g_limiter g)) <> Ok false /\
  exists route target,
    rs_Get (routeKey (Team p) (in_ModelName i)) (g_routes g) = Ok route /\
    target ∈ r_Targets route /\ rt_Status target = TargetStatusActive /\
    (in_VersionOverride i <> "" -> rt_Version target = in_VersionOverride i) /\
    backend_Predict callTimeout (rt_Endpoint target) i (g_backend g) = (Ok (out_Outputs out), g_backend g') /\
    out_ServedVersion out = rt_Version target /\ out_IsCanary out = negb (rt_IsStable target) /\
    out_RequestID out = rid /\
    forall b, breakers (g_breakers g) !! (r_ModelName route, rt_Version target) = Some b ->
      lets_through (clock (g_ticks g)) b.
Proof.
  destruct (predict_staged rid rand p i g) as [| route target l [Hv Hq [Hl _] Hr Ht]]; [done |].
  destruct (guarded_cases rid p i route target (set_limiter l g)) as (now & lat & at_ & ->).
  destruct (fst (Allow _ _ _)) eqn:Ea; [| done]. cbn [set_limiter g_backend].
  destruct (backend_Predict _ _ _ _) as [[outs | e] s] eqn:Eb; [| done]. intros [= <- <-].
  do 3 (split; [done |]). exists route, target.
  pose proof (selectTarget_spec rand route (in_VersionOverride i)) as Hs. rewrite Ht in Hs.
  destruct Hs as (? & ? & ?). do 7 (split; [done |]). split; [done |]. intros b Hb.
  apply Allow_lets_through in Ea. unfold breaker_at in Ea. cbn [g_breakers set_limiter g_ticks] in Ea. by rewrite Hb in Ea.
Qed.

(** A refused prediction never reaches a model server: with any error but the
    two of the call itself, the server's state is untouched; the routes never
    change; a breaker changes only if it is the chosen target's, and none does
    when the refusal is about the input, the quota, the rate or the route; an
    invalid or over-quota request does not even spend a token. *)
Theorem predict_refusal_is_free rid rand p i g err g' :
  predict rid rand p i g = (Err err, g') ->
  g_routes g' = g_routes g /\
  (err = Sentinel ErrUpstream \/ err = Sentinel ErrTimeout \/ g_backend g' = g_backend g) /\
  (g_breakers g' = g_breakers g \/
   exists route target, rs_Get (routeKey (Team p) (in_ModelName i)) (g_routes g) = Ok route /\
     target ∈ r_Targets route /\
     forall k, k <> (r_ModelName route, rt_Version target) ->
       breakers (g_breakers g') !! k = breakers (g_breakers g) !! k) /\
  (errors_is err ErrInvalidInput = true \/ err = Sentinel ErrQuotaExceeded ->
     g_limiter g' = g_limiter g /\ g_breakers g' = g_breakers g).
Proof.
  destruct (predict_staged rid rand p i g)
    as [reason err' now l (s & Hrs & Hs) He Hl | route target l [_ _ _ Hr Ht]].
  - intros [= -> <-]. simpl. split; [done |]. split; [by right; right |]. split; [by left |].
    intros Hx. split; [| done]. apply Hl.
    destruct He as [-> | [-> | [-> | ->]]]; [by left | by right | |]; injection Hrs as <-;
      exfalso; (destruct Hx as [Hx | ->]; [| done]); by pose proof (errors_is_unique _ _ _ Hs Hx).
  - pose proof (selectTarget_spec rand route (in_VersionOverride i)) as Hs. rewrite Ht in Hs.
    destruct (guarded_cases rid p i route target (set_limiter l g)) as (now & lat & at_ & ->).
    assert (forall b s e t, (forall k, k <> (r_ModelName route, rt_Version target) ->
       breakers (g_breakers (recorded (r_ModelName route, rt_Version target) b s e t
         (set_limiter l g))) !! k = breakers (g_breakers g) !! k)) as Hk.
    { intros b s e t k Hne. simpl. by rewrite lookup_insert_ne. }
    assert (forall s, errors_is (S := ig_sentinel) (Sentinel s) ErrInvalidInput = true \/
      Sentinel s = Sentinel ErrQuotaExceeded -> s = ErrInvalidInput \/ s = ErrQuotaExceeded) as Hc.
    { intros s [Hx | [= ->]]; [| by right]. left. by apply is_sentinel. }
    destruct (fst (Allow _ _ _)).
    + destruct (backend_Predict _ _ _ _) as [[outs | e] s]; [done |]. intros [= <- <-].
      split; [done |]. split; [unfold classify; destruct (_ || _); tauto |].
      split; [right; exists route, target; split; [done |]; split; [apply Hs | intros k Hk'; by apply Hk] |].
      intros Hx. apply Hc in Hx. unfold classify in Hx. destruct (_ || _), Hx; done.
    + intros [= <- <-]. split; [done |]. split; [by right; right |].
      split; [right; exists route, target; split; [done |]; split; [apply Hs | intros k Hk'; by apply Hk] |].
      intros Hx. by apply Hc in Hx as [? | ?].
Qed.

(** The limiter fails open: an outage of the limiter is the same as an
    admission, in the answer and in everything the call leaves behind. *)
Theorem limiter_fails_open rid rand p i g e l :
  limiter_Allow (APIKeyID p) (g_limiter g) = (Err e, l) ->
  predict rid rand p i g =
  Predict (fun _ _ => (Ok true, l)) quota_IsBlocked backend_Predict range clock callTimeout
    rid rand p i g.
Proof.
  intros Hl. unfold Predict. destruct (validatePredict range i); [done |].
  destruct (quota_blocked _ _); [done |]. unfold bind, limit. by rewrite Hl.
Qed.

(** The same call made again and again. *)
Definition predict_all (rids : list string) rand p i (g : gateway W L B) : gateway W L B :=
  fold_left (fun g rid => snd (predict rid rand p i g)) rids g.

(** A backend behind a route that every gate lets [p] and [i] through to. *)
Record reaches_backend (rand : Z -> Z) (p : Principal) (i : PredictInput) (routes : W)
    (route : Route) (target : RouteTarget) : Prop := {
  rb_valid : validatePredict range i = None;
  rb_quota : quota_blocked quota_IsBlocked (Team p) = false;
  rb_limit : forall l, fst (limiter_Allow (APIKeyID p) l) <> Ok false;
  rb_route : rs_Get (routeKey (Team p) (in_ModelName i)) routes = Ok route;
  rb_target : selectTarget rand route (in_VersionOverride i) = Ok target;
}.

Lemma predict_guarded rid rand p i g route target :
  reaches_backend rand p i (g_routes g) route target ->
  exists l, predict rid rand p i g = guarded rid p i route target (set_limiter l g).
Proof.
  intros [Hv Hq Hl Hr Ht]. exists (snd (limiter_Allow (APIKeyID p) (g_limiter g))).
  unfold Predict. rewrite Hv, Hq. unfold bind at 1, limit at 1.
  specialize (Hl (g_limiter g)). destruct (limiter_Allow _ _) as [ans l]. cbn [fst snd] in *.
  fold (set_limiter l g).
  replace (match ans with Ok allowed => allowed | Err _ => true end) with true
    by (destruct ans as [[]|]; done).
  cbn [negb]. unfold bind at 1, lookup_route at 1. cbn [g_routes set_limiter]. rewrite Hr, Ht.
  unfold guarded, bind. by destruct (breaker_Allow clock _ _) as [[] g1].
Qed.

Section sick.
Context (rand : Z -> Z) (p : Principal) (i : PredictInput) (route : Route) (target : RouteTarget).
Let k : breakerKey := (r_ModelName route, rt_Version target).
Hypothesis backend_down :
  forall s, is_ok (fst (backend_Predict callTimeout (rt_Endpoint target) i s)) = false.

Definition counting (n : nat) (b : CircuitBreaker) : Prop :=
  state b = CircuitClosed /\ consecutiveFails b = Z.of_nat n.

Lemma one_failure rid g n :
  reaches_backend rand p i (g_routes g) route target ->
  config_ok (reg_cfg (g_breakers g)) ->
  (forall now, counting n (breaker_at k now (g_breakers g)) /\
               cfg (breaker_at k now (g_breakers g)) = reg_cfg (g_breakers g)) ->
  Z.of_nat n < failureThreshold (reg_cfg (g_breakers g)) ->
  let g1 := snd (predict rid rand p i g) in
  g_routes g1 = g_routes g /\ reg_cfg (g_breakers g1) = reg_cfg (g_breakers g) /\
  exists b, breakers (g_breakers g1) !! k = Some b /\ cfg b = reg_cfg (g_breakers g) /\
    if decide (Z.of_nat (S n) = failureThreshold (reg_cfg (g_breakers g)))
    then state b = CircuitOpen else counting (S n) b.
Proof.
  intros Hb Hc Hn Hlt. destruct (predict_guarded rid rand p i g route target Hb) as (l & ->).
  destruct (guarded_cases rid p i route target (set_limiter l g)) as (now & lat & at_ & ->).
  fold k. cbn [set_limiter g_breakers g_ticks g_backend]. pose proof (fail_pos _ Hc).
  destruct (Hn (clock (2 + g_ticks g))) as [[Hs Hf] Hcfg].
  set (b0 := breaker_at k _ (g_breakers g)) in *.
  assert (Allow (clock (g_ticks g)) (clock (1 + g_ticks g)) b0 = (true, b0)) as ->.
  { unfold Allow, maybeHalfOpen. rewrite Hs. simpl. by rewrite Hs. }
  cbn [fst snd]. specialize (backend_down (g_backend g)).
  destruct (backend_Predict _ _ _ _) as [[outs | e] s]; [done |]. simpl.
  split; [done |]. split; [done |]. eexists. split; [by rewrite lookup_insert_eq |].
  unfold RecordFailure. rewrite Hs. unfold set_fails. cbn [cfg consecutiveFails].
  rewrite Hf, counter_wrap with (m := failureThreshold (reg_cfg (g_breakers g))), Hcfg by lia.
  destruct (Z.leb_spec (failureThreshold (reg_cfg (g_breakers g))) (Z.of_nat n + 1));
    destruct (decide _); try lia; simpl; [done |].
  split; [done |]. split; simpl; [done | lia].
Qed.

Lemma failures_run rids g n :
  reaches_backend rand p i (g_routes g) route target ->
  config_ok (reg_cfg (g_breakers g)) ->
  (forall now, counting n (breaker_at k now (g_breakers g)) /\
               cfg (breaker_at k now (g_breakers g)) = reg_cfg (g_breakers g)) ->
  Z.of_nat (n + length rids) = failureThreshold (reg_cfg (g_breakers g)) -> rids <> [] ->
  let g1 := predict_all rids rand p i g in
  g_routes g1 = g_routes g /\
  exists b, breakers (g_breakers g1) !! k = Some b /\ state b = CircuitOpen.
Proof.
  revert g n. induction rids as [|rid rids IH]; intros g n Hb Hc Hn Hlen Hne; [done |].
  simpl in Hlen. destruct (one_failure rid g n Hb Hc Hn) as (Hr & Hcfg & b & Hbk & Hbc & Ho); [lia |].
  unfold predict_all. cbn [fold_left]. set (g' := snd (predict rid rand p i g)) in *.
  change (fold_left _ rids g') with (predict_all rids rand p i g').
  destruct rids as [|rid' rids].
  - simpl in *. rewrite decide_True in Ho by lia. split; [done | by exists b].
  - rewrite decide_False in Ho by (simpl in Hlen; lia).
    destruct (IH g' (S n)) as (Hr' & Hx); [by rewrite Hr | by rewrite Hcfg | | | done |].
    + intros now. unfold breaker_at. rewrite Hbk, Hcfg. done.
    + rewrite Hcfg. simpl in *. lia.
    + split; [by rewrite Hr' | done].
Qed.

(** C4. A sick backend is cut off: when every call to the target fails, a caller
    that every gate lets through trips the target's breaker with exactly
    [failureThreshold] predictions, and until [resetTimeout] has passed the
    next ones are answered [ErrCircuitOpen] without touching the backend. *)
Theorem sick_backend_trips rids g :
  reaches_backend rand p i (g_routes g) route target ->
  config_ok (reg_cfg (g_breakers g)) -> breakers (g_breakers g) !! k = None ->
  Z.of_nat (length rids) = failureThreshold (reg_cfg (g_breakers g)) ->
  let g1 := predict_all rids rand p i g in
  exists b, breakers (g_breakers g1) !! k = Some b /\ state b = CircuitOpen /\
    forall rid, clock (g_ticks g1) < lastTransition b + resetTimeout (cfg b) ->
      fst (predict rid rand p i g1) = Err (Sentinel ErrCircuitOpen) /\
      g_backend (snd (predict rid rand p i g1)) = g_backend g1.
Proof.
  intros Hb Hc Hk Hlen. pose proof (fail_pos _ Hc).
  destruct (failures_run rids g 0 Hb Hc) as (Hr & b & Hbk & Ho);
    [| done | intros ->; simpl in Hlen; lia |].
  { intros now. unfold breaker_at. by rewrite Hk. }
  exists b. split; [done |]. split; [done |]. intros rid Hd.
  destruct (predict_guarded rid rand p i (predict_all rids rand p i g) route target) as (l & ->);
    [by rewrite Hr |].
  match goal with |- context [guarded _ _ _ _ _ ?g2] =>
    destruct (guarded_cases rid p i route target g2) as (now & lat & at_ & ->) end.
  cbn [set_limiter g_breakers g_ticks g_backend]. unfold breaker_at. fold k. rewrite Hbk. simpl.
  unfold Allow, maybeHalfOpen, time_before. rewrite Ho, (proj2 (Z.ltb_lt _ _) Hd). simpl. rewrite Ho.
  done.
Qed.
End sick.

End theorems.




(** ** The properties at concrete inputs *)

#[local] Instance demo_port : RouteStorePort (RouteStore (gmap string string)) :=
  route_store_port encode_text.

(** A token bucket without refill, an open quota, a server that answers and counts
    its calls, and one that is down. *)
Definition demo_limiter (_ : string) (tokens : Z) : result bool string * Z :=
  if 0 <? tokens then (Ok true, tokens - 1) else (Ok false, tokens).
Definition demo_quota : option (string -> bool) := Some (fun team => String.eqb team "blocked").
Definition demo_up (_ : duration) (_ : string) (i : PredictInput) (calls : nat)
    : result (gmap string Tensor) ig_error * nat := (Ok (in_Inputs i), S calls).
Definition demo_down (_ : duration) (_ : string) (_ : PredictInput) (calls : nat)
    : result (gmap string Tensor) ig_error * nat := (Err (Sentinel ErrUpstream), S calls).
Definition demo_clock (n : nat) : time := Z.of_nat n.

Definition demo_principal : Principal := {| APIKeyID := "key-1"; Team := "a" |}.
Definition demo_tensor : Tensor := {| Shape := [1; 2]; DType := "float32"; Data := replicate 8 Byte.x00 |}.
Definition demo_input : PredictInput := {|
  in_ModelName := "iris"; in_Inputs := {["x" := demo_tensor]};
  in_VersionOverride := "v1"; in_IdempotencyKey := "" |}.

Definition demo_target : RouteTarget := {|
  rt_Version := "v1"; rt_Endpoint := "iris-v1:9090"; rt_WeightBps := 9000;
  rt_Status := TargetStatusActive; rt_IsStable := true |}.

Definition demo_gateway : gateway (RouteStore (gmap string string)) Z nat := {|
  g_routes := {| table := {[routeKey "a" "iris" := iris_route]}; rdb := ∅ |};
  g_limiter := 10; g_backend := 0%nat;
  g_breakers := NewBreakerRegistry {| FailureThreshold := 2; SuccessThreshold := 0;
                                      ResetTimeout := 0; HalfOpenMaxProbes := 0 |};
  g_events := []; g_ticks := 0 |}.

Definition demo_predict (rid : string) (p : Principal) (g : gateway _ Z nat) :=
  Predict demo_limiter demo_quota demo_up map_to_list demo_clock Second rid (fun n => n - 1)
    p demo_input g.

Definition demo_answer : PredictOutput := {|
  out_Outputs := in_Inputs demo_input; out_ServedVersion := "v1"; out_IsCanary := false;
  out_Latency := 1; out_RequestID := "r1" |}.

Lemma demo_answered : fst (demo_predict "r1" demo_principal demo_gateway) = Ok demo_answer.
Proof. vm_compute. reflexivity. Qed.

Lemma predict_serves_callers_route_witness :
  exists route target,
    rs_Get (routeKey "a" "iris") (g_routes demo_gateway) = Ok route /\ target ∈ r_Targets route /\
    rt_Version target = "v1".
Proof.
  destruct (predict_serves_callers_route demo_limiter demo_quota demo_up map_to_list demo_clock Second
    "r1" (fun n => n - 1) demo_principal demo_input demo_gateway demo_answer
    (snd (demo_predict "r1" demo_principal demo_gateway)))
    as (_ & _ & _ & route & target & Hr & Ht & _ & Hv & _).
  - rewrite (surjective_pairing (Predict _ _ _ _ _ _ _ _ _ _ _)). exact (f_equal2 pair demo_answered eq_refl).
  - exists route, target. split; [exact Hr | split; [exact Ht |]]. by apply Hv.
Defined.

Definition demo_blocked : Principal := {| APIKeyID := "key-1"; Team := "blocked" |}.

Lemma predict_refusal_is_free_witness :
  let g' := snd (demo_predict "r2" demo_blocked demo_gateway) in
  g_routes g' = g_routes demo_gateway /\ g_limiter g' = g_limiter demo_gateway.
Proof.
  destruct (predict_refusal_is_free demo_limiter demo_quota demo_up map_to_list demo_clock Second
    "r2" (fun n => n - 1) demo_blocked demo_input demo_gateway (Sentinel ErrQuotaExceeded)
    (snd (demo_predict "r2" demo_blocked demo_gateway))) as (Hr & _ & _ & Hl).
  - vm_compute. reflexivity.
  - split; [exact Hr |]. apply Hl. by right.
Defined.

Lemma limiter_fails_open_witness :
  Predict (fun _ l => (Err "redis: connection refused", l)) demo_quota demo_up map_to_list demo_clock
    Second "r3" (fun n => n - 1) demo_principal demo_input demo_gateway =
  Predict (fun _ _ => (Ok true, 10)) demo_quota demo_up map_to_list demo_clock Second
    "r3" (fun n => n - 1) demo_principal demo_input demo_gateway.
Proof.
  refine (limiter_fails_open (fun _ l => (Err "redis: connection refused", l)) demo_quota demo_up
    map_to_list demo_clock Second "r3" (fun n => n - 1) demo_principal demo_input demo_gateway
    "redis: connection refused" 10 _).
  reflexivity.
Defined.

Lemma demo_reaches :
  reaches_backend (L := Z) (fun _ l => (Err "redis: connection refused", l)) demo_quota map_to_list
    (fun n => n - 1) demo_principal demo_input (g_routes demo_gateway) iris_route demo_target.
Proof. by constructor. Qed.

Lemma sick_backend_trips_witness :
  let predict_twice := predict_all (fun _ l => (Err "redis: connection refused", l)) demo_quota
    demo_down map_to_list demo_clock Second ["r1"; "r2"] (fun n => n - 1) demo_principal demo_input
    demo_gateway in
  exists b, breakers (g_breakers predict_twice) !! ("iris", "v1") = Some b /\ state b = CircuitOpen.
Proof.
  destruct (sick_backend_trips (fun _ l => (Err "redis: connection refused", l)) demo_quota
    demo_down map_to_list demo_clock Second (fun n => n - 1) demo_principal demo_input iris_route
    demo_target (fun _ => eq_refl) ["r1"; "r2"] demo_gateway demo_reaches) as (b & Hb & Ho & _).
  - apply (bool_decide_unpack _). vm_compute. exact I.
  - reflexivity.
  - reflexivity.
  - exists b. split; [exact Hb | exact Ho].
Defined.

Lemma validatePredict_exact_witness :
  validatePredict map_to_list demo_input = None <->
  in_ModelName demo_input <> "" /\ in_Inputs demo_input <> ∅ /\
  map_Forall (fun _ t => Z.of_nat (length (Data t)) =
    elemSize (DType t) * foldr Z.mul 1 (Shape t)) (in_Inputs demo_input).
Proof.
  refine (validatePredict_exact map_to_list (fun m => reflexivity _) demo_input _).
  apply map_Forall_singleton. vm_compute. split; [reflexivity |].
  split; [repeat constructor; discriminate | discriminate].
Defined.
