(* ===== verification/Concur.v ===== *)
(** * Programs of atomic sections and their interleavings

    A goroutine is a finite tree of atomic sections over a shared state: what it
    does under a mutex, or one call to the outside. [run] executes one alone;
    [par] interleaves several section by section, in any order. The rely-guarantee
    rules carry what each thread ensures alone over to every interleaving. *)

From S2P Require Import Prelude.

Section prog.
Context {St : Type}.

Inductive prog (A : Type) : Type :=
| Ret (a : A)
| Atom {R : Type} (f : St -> R * St) (k : R -> prog A).
Arguments Ret {A} a.
Arguments Atom {A R} f k.

Fixpoint pbind {A B} (m : prog A) (g : A -> prog B) : prog B :=
  match m with
  | Ret a => g a
  | Atom f k => Atom f (fun r => pbind (k r) g)
  end.

Definition atom {R} (f : St -> R * St) : prog R := Atom f Ret.

(** A thread alone. *)
Fixpoint run {A} (m : prog A) (s : St) : A * St :=
  match m with
  | Ret a => (a, s)
  | Atom f k => let '(r, s) := f s in run (k r) s
  end.

Lemma run_bind {A B} (m : prog A) (g : A -> prog B) s :
  run (pbind m g) s = let '(a, s) := run m s in run (g a) s.
Proof.
  revert s. induction m as [a | R f k IH]; intros s; simpl; [done |].
  destruct (f s) as [r s']. apply IH.
Qed.

Lemma run_atom {R} (f : St -> R * St) s : run (atom f) s = f s.
Proof. simpl. by destruct (f s). Qed.

Lemma run_atom_bind {A R} (f : St -> R * St) (g : R -> prog A) s :
  run (pbind (atom f) g) s = let '(r, s) := f s in run (g r) s.
Proof. reflexivity. Qed.

(** ** Interleavings *)

(** One thread of the pool makes one section. *)
Inductive par_step {A} : list (prog A) * St -> list (prog A) * St -> Prop :=
| ParStep pool s i R (f : St -> R * St) k r s' :
    pool !! i = Some (Atom f k) -> f s = (r, s') ->
    par_step (pool, s) (<[i := k r]> pool, s').

(** All threads run to their ends, in some order of sections. *)
Definition par {A} (pool : list (prog A)) (s : St) (results : list A) (s' : St) : Prop :=
  rtc par_step (pool, s) (map Ret results, s').

Lemma run_par_step {A} pool s i (m : prog A) :
  pool !! i = Some m -> rtc par_step (pool, s) (<[i := Ret (run m s).1]> pool, (run m s).2).
Proof.
  revert pool s. induction m as [a | R f k IH]; intros pool s Hi; simpl.
  - by rewrite list_insert_id.
  - destruct (f s) as [r s'] eqn:E. eapply rtc_l; [by eapply ParStep |].
    specialize (IH r (<[i := k r]> pool) s'). rewrite list_insert_insert_eq in IH. apply IH.
    rewrite list_lookup_insert_eq; [done |]. by eapply lookup_lt_Some.
Qed.

(** Running the threads one after the other is one of the interleavings, so there
    always is one. *)
Fixpoint run_all {A} (pool : list (prog A)) (s : St) : list A * St :=
  match pool with
  | [] => ([], s)
  | m :: pool => let '(a, s) := run m s in let '(rs, s) := run_all pool s in (a :: rs, s)
  end.

Lemma run_all_par_from {A} (pre : list A) (pool : list (prog A)) s :
  rtc par_step (map Ret pre ++ pool, s) (map Ret (pre ++ (run_all pool s).1), (run_all pool s).2).
Proof.
  revert pre s. induction pool as [|m pool IH]; intros pre s; simpl.
  - by rewrite !app_nil_r.
  - pose proof (run_par_step (map Ret pre ++ m :: pool) s (length pre) m) as H1.
    destruct (run m s) as [a s1]. specialize (IH (pre ++ [a]) s1). destruct (run_all pool s1) as [rs s2].
    simpl in *. etrans; [apply H1 |].
    + rewrite lookup_app_r; rewrite length_map; [| done]. by rewrite Nat.sub_diag.
    + rewrite insert_app_r_alt; rewrite length_map; [| done]. rewrite Nat.sub_diag. simpl.
      rewrite map_app in IH. rewrite <- !app_assoc in IH. exact IH.
Qed.

Lemma run_all_par {A} (pool : list (prog A)) s :
  par pool s (run_all pool s).1 (run_all pool s).2.
Proof. apply (run_all_par_from [] pool s). Qed.

(** The interleaving that a list of thread numbers spells out; what is finished idles. *)
Fixpoint schedule {A} (order : list nat) (pool : list (prog A)) (s : St) : list (prog A) * St :=
  match order with
  | [] => (pool, s)
  | i :: order =>
      match pool !! i with
      | Some (Atom f k) => let '(r, s) := f s in schedule order (<[i := k r]> pool) s
      | _ => schedule order pool s
      end
  end.

Lemma schedule_steps {A} order (pool : list (prog A)) s : rtc par_step (pool, s) (schedule order pool s).
Proof.
  revert pool s. induction order as [|i order IH]; intros pool s; simpl; [done |].
  destruct (pool !! i) as [[a | R f k]|] eqn:Ei; [apply IH | | apply IH].
  destruct (f s) as [r s'] eqn:E. eapply rtc_l; [by eapply ParStep | apply IH].
Qed.

Lemma schedule_par {A} order (pool : list (prog A)) s results s' :
  schedule order pool s = (map Ret results, s') -> par pool s results s'.
Proof. intros He. unfold par. rewrite <- He. apply schedule_steps. Qed.

(** No schedule runs forever. *)
Definition prog_step {A} (m m' : prog A) : Prop :=
  exists (R : Type) (f : St -> R * St) k r, m = Atom f k /\ m' = k r.

Lemma prog_sn {A} (m : prog A) : sn prog_step m.
Proof.
  induction m as [a | R f k IH]; constructor; intros m' (R' & f' & k' & r & Heq & ->); [done |].
  assert (exists r0, k' r = k r0) as [r0 ->]; [| apply IH].
  change (match Atom f k with Ret _ => False | @Atom _ R0 _ k0 => exists r0, k' r = k0 r0 end).
  rewrite Heq. by exists r.
Qed.

Definition pool_step {A} (pool pool' : list (prog A)) : Prop :=
  exists i m m', pool !! i = Some m /\ prog_step m m' /\ pool' = <[i := m']> pool.

Lemma pool_sn {A} (pool : list (prog A)) : sn pool_step pool.
Proof.
  induction pool as [|m pool IH]; [constructor; intros ? (i & m & m' & H & _); by rewrite lookup_nil in H |].
  revert pool IH. induction (prog_sn m) as [m _ IHm]. intros pool Hp.
  pose proof Hp as Hp'. induction Hp' as [pool _ IHp].
  constructor. intros pool' (i & m1 & m2 & Hi & Hs & ->). destruct i as [|i]; simpl in *.
  - injection Hi as ->. by apply IHm.
  - assert (pool_step pool (<[i := m2]> pool)) as Hst by (by exists i, m1, m2).
    apply IHp; [done |]. by apply (Acc_inv Hp).
Qed.

Lemma par_sn {A} (c : list (prog A) * St) : sn par_step c.
Proof.
  destruct c as [pool s]. revert s. induction (pool_sn pool) as [pool _ IH]. intros s.
  constructor. intros c' Hs. inversion Hs as [? ? i R f k r s' Hi Hf]; subst.
  apply IH. exists i, (Atom f k), (k r). split; [done |]. split; [| done]. by exists R, f, k, r.
Qed.

(** ** Rely-guarantee *)

(** From a state that others may move by [rely] before each section, [m] makes only
    sections allowed by [guar] and ends in [post]. *)
Fixpoint rg {A} (rely guar : St -> St -> Prop) (m : prog A) (post : A -> St -> Prop) (s : St) : Prop :=
  forall s1, rtc rely s s1 ->
  match m with
  | Ret a => post a s1
  | Atom f k => forall r s2, f s1 = (r, s2) -> guar s1 s2 /\ rg rely guar (k r) post s2
  end.

Lemma rg_rely {A} rely guar (m : prog A) post s s' :
  rg rely guar m post s -> rtc rely s s' -> rg rely guar m post s'.
Proof. destruct m; intros H Hs s1 H1; apply H; by etrans. Qed.

Lemma rg_bind {A B} rely guar (m : prog A) (g : A -> prog B) mid post s :
  rg rely guar m mid s -> (forall a s, mid a s -> rg rely guar (g a) post s) ->
  rg rely guar (pbind m g) post s.
Proof.
  revert s. induction m as [a | R f k IH]; intros s Hm Hg; simpl.
  - eapply rg_rely; [| reflexivity]. apply (rg_rely _ _ _ _ s); [| reflexivity].
    specialize (Hg a s). apply Hg. by apply Hm.
  - intros s1 H1 r s2 Hf. destruct (Hm s1 H1 r s2 Hf) as [Hgu Hr]. split; [done | by apply IH].
Qed.

Lemma rg_map {A B} rely guar (m : prog A) (f : A -> B) (post : A -> St -> Prop) (post' : B -> St -> Prop) s :
  rg rely guar m post s -> (forall a s, post a s -> post' (f a) s) -> rg rely guar (pbind m (fun a => Ret (f a))) post' s.
Proof.
  revert s. induction m as [a | R g k IH]; intros s Hm Hp s1 H1; [by apply Hp, Hm |].
  intros r s2 Hf. destruct (Hm s1 H1 r s2 Hf) as [Hgu Hr]. split; [done | by apply IH].
Qed.

Lemma rg_assoc {A B C} rely guar (m : prog A) (g : A -> prog B) (h : B -> prog C) post s :
  rg rely guar (pbind m (fun a => pbind (g a) h)) post s ->
  rg rely guar (pbind (pbind m g) h) post s.
Proof.
  revert s. induction m as [a | R f k IH]; intros s Hm; simpl; [done |].
  intros s1 H1 r s2 Hf. destruct (Hm s1 H1 r s2 Hf) as [Hg Hr]. split; [done | by apply IH].
Qed.

Lemma rg_atom {R} rely guar (f : St -> R * St) (post : R -> St -> Prop) s :
  (forall s1 r s2, rtc rely s s1 -> f s1 = (r, s2) -> guar s1 s2 /\
     forall s3, rtc rely s2 s3 -> post r s3) ->
  rg rely guar (atom f) post s.
Proof. intros H s1 H1 r s2 Hf. destruct (H s1 r s2 H1 Hf) as [Hg Hp]. split; [done | exact Hp]. Qed.

Lemma rg_weaken {A} rely guar (guar' : St -> St -> Prop) (m : prog A) (post post' : A -> St -> Prop) s :
  rg rely guar m post s -> (forall s s', guar s s' -> guar' s s') -> (forall a s, post a s -> post' a s) ->
  rg rely guar' m post' s.
Proof.
  revert s. induction m as [a | R f k IH]; intros s Hm Hg Hp s1 H1; [by apply Hp, Hm |].
  intros r s2 Hf. destruct (Hm s1 H1 r s2 Hf) as [Hgu Hr]. split; [by apply Hg | by apply IH].
Qed.

(** Threads whose guarantees are within each other's relies keep their
    postconditions in every interleaving, and the whole keeps to the guarantees. *)
Lemma par_rg {A} (pool : list (prog A)) s results s'
    (rely guar : nat -> St -> St -> Prop) (post : nat -> A -> St -> Prop) :
  par pool s results s' ->
  (forall i m, pool !! i = Some m -> rg (rely i) (guar i) m (post i) s) ->
  (forall i j s s', (i < length pool)%nat -> (j < length pool)%nat -> i <> j ->
     guar i s s' -> rely j s s') ->
  (forall i a, results !! i = Some a -> post i a s') /\
  rtc (fun s s' => exists i, (i < length pool)%nat /\ guar i s s') s s' /\
  length results = length pool.
Proof.
  unfold par. intros Hp. remember (pool, s) as c eqn:Ec. remember (map Ret results, s') as c' eqn:Ec'.
  revert pool s Ec. induction Hp as [c | c c1 c2 Hst Hp IH]; intros pool s Ec Hrg Hgr.
  - rewrite Ec in Ec'. injection Ec' as -> ->. rewrite length_map. split; [| done]. intros i a Hi.
    specialize (Hrg i (Ret a)). rewrite list_lookup_fmap, Hi in Hrg. by apply Hrg.
  - rewrite Ec in Hst. inversion Hst as [? ? i R f k r s1 Hi Hf]; subst c1. subst.
    destruct (Hrg i _ Hi s ltac:(reflexivity) r s1 Hf) as [Hgu Hk].
    destruct (IH eq_refl _ _ eq_refl) as (H1 & H2 & H3).
    + intros j m Hj. destruct (decide (i = j)) as [<- | Hne].
      * rewrite list_lookup_insert_eq in Hj by (by eapply lookup_lt_Some). by injection Hj as <-.
      * rewrite list_lookup_insert_ne in Hj by done. eapply rg_rely; [by apply Hrg |].
        apply rtc_once. eapply Hgr; [.. | done | done]; by eapply lookup_lt_Some.
    + rewrite length_insert. done.
    + rewrite length_insert in H2, H3. split; [done |]. split; [| done].
      eapply rtc_l; [| exact H2]. exists i. split; [by eapply lookup_lt_Some | done].
Qed.
End prog.
Arguments prog : clear implicits.
Arguments Ret {St A} a.
Arguments Atom {St A R} f k.

Notation "'do!' x ':=' m 'in' k" := (pbind m (fun x => k))
  (at level 10, x pattern, m at level 100, k at level 200) : fp_scope.
