(* ===== verification/Site.v ===== *)
(** * Requests over a database and an outside that may fail

    What the services with a SQL store share. A request is a program of clock
    readings, ids, queries and transactions on a state [site]: the outside and the
    tables. The link to the database may refuse a statement, or commit it and lose
    the acknowledgement. [safe] is the rely-guarantee judgement of one request among
    others that only make steps of the same kind. *)

From S2P Require Import Prelude Concur.
Open Scope fp_scope.

Inductive fate := Works | Refused | AckLost.

Class Outside (W : Type) : Type := {
  Now : W -> time * W;
  NewID : W -> string * W;
  link : W -> fate * W;
}.

(** A TIMESTAMPTZ column keeps microseconds. *)
Definition timestamptz (t : time) : time := t / 1000 * 1000.

Section programs.
Context {W D : Type}.

(** What the requests share: the outside and the database. *)
Record site := { s_world : W; s_db : D }.

Definition ask {R} (f : W -> R * W) : prog site R :=
  atom (fun s => let '(r, w) := f (s_world s) in (r, {| s_world := w; s_db := s_db s |})).

Context `{Outside W} {S : Type}.

(** A query: one statement, or a failure of the link. *)
Definition query {R} (f : W -> D -> result R (error S)) : prog site (result R (error S)) :=
  atom (fun s =>
    let '(fate, w) := link (s_world s) in
    (match fate with Works => f w (s_db s) | _ => Err (External "connection lost") end,
     {| s_world := w; s_db := s_db s |})).

(** A transaction: it runs whole or not at all. *)
Definition transact {R} (f : D -> result R (error S) * D) : prog site (result R (error S)) :=
  atom (fun s =>
    let '(fate, w) := link (s_world s) in
    match fate with
    | Works => let '(r, l) := f (s_db s) in (r, {| s_world := w; s_db := l |})
    | Refused => (Err (External "connection refused"), {| s_world := w; s_db := s_db s |})
    | AckLost => let '(r, l) := f (s_db s) in
                 (Err (External "connection lost"), {| s_world := w; s_db := l |})
    end).

(** A call that the database's link does not carry, on what is kept beside the tables. *)
Definition touch (f : D -> D) : prog site unit :=
  atom (fun s => (tt, {| s_world := s_world s; s_db := f (s_db s) |})).

(** A method of a store in memory that holds its mutex throughout. *)
Definition locked {R} (f : D -> R * D) : prog site R :=
  atom (fun s => let '(r, l) := f (s_db s) in (r, {| s_world := s_world s; s_db := l |})).

(** A call to the outside that a log beside the tables records. *)
Definition logged {R} (f : W -> R * W) (log : D -> D) : prog site R :=
  atom (fun s => let '(r, w) := f (s_world s) in (r, {| s_world := w; s_db := log (s_db s) |})).

(** A failed call ends the request with its error. *)
Definition try {A B} (r : result A (error S)) (wrap : error S -> error S) (k : A -> prog site (result B (error S)))
    : prog site (result B (error S)) :=
  match r with Ok a => k a | Err e => Ret (Err (wrap e)) end.

(** ** One request alone *)

Lemma site_run_ask {A R} (f : W -> R * W) (k : R -> prog site A) s a s' :
  run (do! x := ask f in k x) s = (a, s') ->
  exists r w, f (s_world s) = (r, w) /\ run (k r) {| s_world := w; s_db := s_db s |} = (a, s').
Proof.
  rewrite run_bind. unfold ask. rewrite run_atom. destruct (f (s_world s)) as [r w]. intros Hr. by exists r, w.
Qed.

Lemma site_run_query {A R} (f : W -> D -> result R (error S)) (k : result R (error S) -> prog site A) s a s' :
  run (do! x := query f in k x) s = (a, s') ->
  exists w r, (r = f w (s_db s) \/ r = Err (External "connection lost")) /\
    run (k r) {| s_world := w; s_db := s_db s |} = (a, s').
Proof.
  rewrite run_bind. unfold query. rewrite run_atom. destruct (link (s_world s)) as [fate w]. intros Hr.
  eexists w, _. split; [| exact Hr]. destruct fate; auto.
Qed.

Lemma site_run_transact {A R} (f : D -> result R (error S) * D) (k : result R (error S) -> prog site A) s a s' :
  run (do! x := transact f in k x) s = (a, s') ->
  exists w r l, (f (s_db s) = (r, l) \/ exists text, r = Err (External text)) /\
    run (k r) {| s_world := w; s_db := l |} = (a, s').
Proof.
  rewrite run_bind. unfold transact. rewrite run_atom. destruct (link (s_world s)) as [fate w].
  destruct (f (s_db s)) as [r l]. destruct fate; intros Hr; eexists _, _, _; (split; [| exact Hr]); eauto.
Qed.

Lemma site_run_touch {A} (f : D -> D) (k : unit -> prog site A) s a s' :
  run (do! x := touch f in k x) s = (a, s') -> run (k tt) {| s_world := s_world s; s_db := f (s_db s) |} = (a, s').
Proof. done. Qed.

Lemma site_run_try {A B} (r : result A (error S)) g (k : A -> prog site (result B (error S))) s b s' :
  run (try r g k) s = (Ok b, s') -> exists a, r = Ok a /\ run (k a) s = (Ok b, s').
Proof. destruct r as [a|e]; [by exists a | done]. Qed.

(** A request with the database to itself: whatever the world, it answers and leaves
    tables as in [post]. *)
Definition alone {A} (m : prog site A) (l : D) (post : A -> D -> Prop) : Prop :=
  forall w a s', run m {| s_world := w; s_db := l |} = (a, s') -> post a (s_db s').

Lemma alone_ret {A} (a : A) l (post : A -> D -> Prop) : post a l -> alone (Ret a) l post.
Proof. intros Hp w a' s' [= <- <-]. exact Hp. Qed.

Lemma alone_weaken {A} (m : prog site A) l (post post' : A -> D -> Prop) :
  alone m l post -> (forall a l', post a l' -> post' a l') -> alone m l post'.
Proof. intros Hm Hp w a s' Hr. by eapply Hp, Hm. Qed.

Lemma alone_seq {A B} (m : prog site A) (k : A -> prog site B) l mid (post : B -> D -> Prop) :
  alone m l mid -> (forall a l', mid a l' -> alone (k a) l' post) -> alone (do! x := m in k x) l post.
Proof.
  intros Hm Hk w b s'. rewrite run_bind. destruct (run m _) as [a s1] eqn:E. intros Hr.
  apply Hm in E. destruct s1 as [w1 l1]. by apply (Hk a l1 E w1).
Qed.

Lemma alone_ask {A R} (f : W -> R * W) (k : R -> prog site A) l (post : A -> D -> Prop) :
  (forall r, alone (k r) l post) -> alone (do! x := ask f in k x) l post.
Proof. intros Hk w a s' (r & w' & _ & Hr)%site_run_ask. by apply (Hk r w'). Qed.

Lemma alone_query {A R} (f : W -> D -> result R (error S)) (k : result R (error S) -> prog site A) l (post : A -> D -> Prop) :
  (forall w r, r = f w l \/ r = Err (External "connection lost") -> alone (k r) l post) ->
  alone (do! x := query f in k x) l post.
Proof. intros Hk w a s' (w' & r & Hf & Hr)%site_run_query. simpl in *. by apply (Hk w' r Hf w'). Qed.

Lemma alone_transact {A R} (f : D -> result R (error S) * D) (k : result R (error S) -> prog site A) l (post : A -> D -> Prop) :
  (forall r l', f l = (r, l') -> alone (k r) l' post /\
     forall text, alone (k (Err (External text))) l post /\ alone (k (Err (External text))) l' post) ->
  alone (do! x := transact f in k x) l post.
Proof.
  intros Hk w a s'. rewrite run_bind. unfold transact. rewrite run_atom. cbn [s_world s_db].
  destruct (f l) as [r l'] eqn:Ef. destruct (Hk r l' eq_refl) as [Hok Hno]. destruct (link w) as [fate w'].
  destruct fate; cbn [s_world s_db]; intros Hr; [by eapply Hok | by eapply (proj1 (Hno _)) | by eapply (proj2 (Hno _))].
Qed.

Lemma alone_touch {A} (f : D -> D) (k : unit -> prog site A) l (post : A -> D -> Prop) :
  alone (k tt) (f l) post -> alone (do! x := touch f in k x) l post.
Proof. intros Hk w a s' Hr%site_run_touch. by eapply Hk. Qed.
(** ** A link that works *)

Definition reliable : Prop := forall w, (link w).1 = Works.
Definition after_link (w : W) : W := (link w).2.

#[local] Notation at_ w d := {| s_world := w; s_db := d |}.

Lemma run_query_works {A R} (f : W -> D -> result R (error S)) (k : result R (error S) -> prog site A) w d :
  reliable -> run (do! x := query f in k x) (at_ w d) = run (k (f (after_link w) d)) (at_ (after_link w) d).
Proof.
  intros Hr. rewrite run_bind. unfold query. rewrite run_atom. cbn [s_world s_db]. unfold after_link. specialize (Hr w). by destruct (link w) as [[] w']; simpl in *.
Qed.

Lemma run_transact_works {A R} (f : D -> result R (error S) * D) (k : result R (error S) -> prog site A) w d :
  reliable -> run (do! x := transact f in k x) (at_ w d) = run (k (f d).1) (at_ (after_link w) (f d).2).
Proof.
  intros Hr. rewrite run_bind. unfold transact. rewrite run_atom. cbn [s_world s_db]. unfold after_link. specialize (Hr w).
  destruct (link w) as [[] w']; simpl in *; try done. by destruct (f d).
Qed.

Lemma run_ask_at {A R} (f : W -> R * W) (k : R -> prog site A) w d :
  run (do! x := ask f in k x) (at_ w d) = run (k (f w).1) (at_ (f w).2 d).
Proof. rewrite run_bind. unfold ask. rewrite run_atom. cbn [s_world s_db]. by destruct (f w). Qed.

Lemma run_locked_at {A R} (f : D -> R * D) (k : R -> prog site A) w d :
  run (do! x := locked f in k x) (at_ w d) = run (k (f d).1) (at_ w (f d).2).
Proof. rewrite run_bind. unfold locked. rewrite run_atom. cbn [s_world s_db]. by destruct (f d). Qed.

Lemma run_logged_at {A R} (f : W -> R * W) (log : D -> D) (k : R -> prog site A) w d :
  run (do! x := logged f log in k x) (at_ w d) = run (k (f w).1) (at_ (f w).2 (log d)).
Proof. rewrite run_bind. unfold logged. rewrite run_atom. cbn [s_world s_db]. by destruct (f w). Qed.
End programs.
Arguments site W D : clear implicits.

(** ** Requests among others *)

(** The writes that requests may make, and what every write keeps of the tables. *)
Record regime (D : Type) := {
  write : D -> D -> Prop;
  keeps : D -> D -> Prop;
  keeps_preorder :: PreOrder keeps;
  write_keeps l l' : write l l' -> keeps l l';
}.
Arguments write {D} r l l'.
Arguments keeps {D} r l l'.

Section safe.
Context {W D : Type} `{Outside W} (R : regime D).
#[local] Notation grows := (keeps R).

(** A section of a request: nothing on the tables, or one write. *)
Definition site_step (s s' : site W D) : Prop := s_db s' = s_db s \/ write R (s_db s) (s_db s').

Lemma site_step_keeps s s' : site_step s s' -> grows (s_db s) (s_db s').
Proof. intros [-> | Hw]; [reflexivity | by apply (write_keeps _ R)]. Qed.

Lemma site_steps_keep s s' : rtc site_step s s' -> grows (s_db s) (s_db s').
Proof. induction 1 as [| s1 s2 s3 Hs _ IH]; [reflexivity |]. etrans; [by apply site_step_keeps | done]. Qed.

(** From any tables grown from [base], [m] makes only such steps and its answer is
    right about all later tables. *)
Definition safe {A} (base : D) (m : prog (site W D) A) (post : A -> D -> Prop) : Prop :=
  forall s, grows base (s_db s) -> rg site_step site_step m (fun a s => post a (s_db s)) s.

Lemma safe_ret {A} base (a : A) (post : A -> D -> Prop) : (forall l, grows base l -> post a l) -> safe base (Ret a) post.
Proof. intros Hp s Hs s1 H1. apply Hp. etrans; [exact Hs | by apply site_steps_keep]. Qed.

Lemma safe_weaken {A} base (m : prog (site W D) A) (post post' : A -> D -> Prop) :
  safe base m post -> (forall a l, post a l -> post' a l) -> safe base m post'.
Proof. intros Hm Hp s Hs. eapply rg_weaken; [by apply Hm | done | intros a s'; apply Hp]. Qed.

Lemma safe_map {A B} base (m : prog (site W D) A) (f : A -> B) post post' :
  safe base m post -> (forall a l, post a l -> post' (f a) l) -> safe base (do! a := m in Ret (f a)) post'.
Proof. intros Hm Hp s Hs. eapply rg_map; [by apply Hm | intros a s'; apply Hp]. Qed.

Lemma safe_ask_of {A X} base (f : W -> X * W) (k : X -> prog (site W D) A) post :
  (forall w, safe base (k (f w).1) post) -> safe base (do! x := ask f in k x) post.
Proof.
  intros Hk s Hs s1 H1 r s2 Hf. cbn [ask atom] in Hf. specialize (Hk (s_world s1)).
  destruct (f (s_world s1)) as [r' w]. injection Hf as <- <-.
  split; [by left |]. apply Hk. simpl. etrans; [exact Hs | by apply site_steps_keep].
Qed.

Lemma safe_ask {A X} base (f : W -> X * W) (k : X -> prog (site W D) A) post :
  (forall r, safe base (k r) post) -> safe base (do! x := ask f in k x) post.
Proof. intros Hk. apply safe_ask_of. intros w. apply Hk. Qed.

Lemma safe_query {A X S} base (f : W -> D -> result X (error S)) (k : result X (error S) -> prog (site W D) A) post :
  (forall l w r, grows base l -> r = f w l \/ r = Err (External "connection lost") -> safe l (k r) post) ->
  safe base (do! x := query f in k x) post.
Proof.
  intros Hk s Hs s1 H1 r s2 Hf. cbn [query atom] in Hf. destruct (link (s_world s1)) as [fate w].
  injection Hf as <- <-. split; [by left |].
  assert (grows base (s_db s1)) as Hb by (etrans; [exact Hs | by apply site_steps_keep]).
  apply (Hk (s_db s1) w); [done | destruct fate; auto | reflexivity].
Qed.

Lemma safe_transact {A X S} base (f : D -> result X (error S) * D) (k : result X (error S) -> prog (site W D) A) post :
  (forall l r l', grows base l -> f l = (r, l') ->
     (l' = l \/ write R l l') /\ safe l' (k r) post /\ forall text, safe l (k (Err (External text))) post) ->
  safe base (do! x := transact f in k x) post.
Proof.
  intros Hk s Hs s1 H1 r s2 Hf. cbn [transact atom] in Hf. destruct (link (s_world s1)) as [fate w].
  assert (grows base (s_db s1)) as Hb by (etrans; [exact Hs | by apply site_steps_keep]).
  destruct (f (s_db s1)) as [r' l'] eqn:Ef.
  destruct (Hk (s_db s1) r' l' Hb Ef) as (Hst & Hok & Hno).
  assert (grows (s_db s1) l') as Hg by (destruct Hst as [-> | Hw]; [reflexivity | by apply (write_keeps _ R)]).
  destruct s1 as [w1 l1]. destruct fate; injection Hf as <- <-; simpl in *.
  - split; [exact Hst |]. by apply Hok.
  - split; [by left |]. by apply Hno.
  - split; [exact Hst |]. apply (Hno "connection lost"). exact Hg.
Qed.

Lemma safe_touch {A} base (f : D -> D) (k : unit -> prog (site W D) A) post :
  (forall l, grows base l -> write R l (f l) /\ safe (f l) (k tt) post) ->
  safe base (do! x := touch f in k x) post.
Proof.
  intros Hk s Hs s1 H1 r s2 Hf. cbn [touch atom] in Hf. injection Hf as <- <-.
  assert (grows base (s_db s1)) as Hb by (etrans; [exact Hs | by apply site_steps_keep]).
  destruct (Hk (s_db s1) Hb) as [Hw Hr]. split; [by right | by apply Hr].
Qed.

Lemma safe_locked {A X} base (f : D -> X * D) (k : X -> prog (site W D) A) post :
  (forall l, grows base l -> ((f l).2 = l \/ write R l (f l).2) /\ safe (f l).2 (k (f l).1) post) ->
  safe base (do! x := locked f in k x) post.
Proof.
  intros Hk s Hs s1 H1 r s2 Hf. cbn [locked atom] in Hf.
  assert (grows base (s_db s1)) as Hb by (etrans; [exact Hs | by apply site_steps_keep]).
  destruct (Hk (s_db s1) Hb) as [Hw Hr]. destruct (f (s_db s1)) as [x l]. cbn [fst snd] in *. injection Hf as <- <-.
  split; [exact Hw | by apply Hr].
Qed.

Lemma safe_logged {A X} base (f : W -> X * W) (log : D -> D) (k : X -> prog (site W D) A) post :
  (forall l, grows base l -> write R l (log l) /\ forall x, safe (log l) (k x) post) ->
  safe base (do! x := logged f log in k x) post.
Proof.
  intros Hk s Hs s1 H1 r s2 Hf. cbn [logged atom] in Hf.
  assert (grows base (s_db s1)) as Hb by (etrans; [exact Hs | by apply site_steps_keep]).
  destruct (f (s_world s1)) as [x w]. injection Hf as <- <-.
  destruct (Hk (s_db s1) Hb) as [Hw Hr]. split; [by right | by apply Hr].
Qed.

Lemma safe_bind {A B} base (m : prog (site W D) A) (k : A -> prog (site W D) B) (mid : A -> Prop) post :
  safe base m (fun a l => grows base l /\ mid a) -> (forall a, mid a -> safe base (k a) post) ->
  safe base (do! x := m in k x) post.
Proof.
  intros Hm Hk s Hs. eapply rg_bind; [by apply Hm |]. intros a s' [Hg Ha]. by apply Hk.
Qed.

Lemma safe_seq {A B} base (m : prog (site W D) A) (k : A -> prog (site W D) B) mid post :
  safe base m mid -> (forall a l, mid a l -> safe l (k a) post) -> safe base (do! x := m in k x) post.
Proof.
  intros Hm Hk s Hs. eapply rg_bind; [by apply Hm |]. intros a s' Ha. apply (Hk a (s_db s') Ha). reflexivity.
Qed.

(** The tables of a program's end grew from those of its start. *)
Lemma safe_grows {A} base (m : prog (site W D) A) post :
  safe base m post -> safe base m (fun a l => grows base l /\ post a l).
Proof.
  intros Hm s Hs. specialize (Hm s Hs). revert s Hs Hm.
  induction m as [a | X f k IH]; intros s Hs Hm s1 H1.
  - split; [etrans; [exact Hs | by apply site_steps_keep] | by apply Hm].
  - intros r s2 Hf. destruct (Hm s1 H1 r s2 Hf) as [Hg Hr]. split; [exact Hg |].
    apply IH; [| exact Hr]. etrans; [exact Hs |]. etrans; [by apply site_steps_keep | by apply site_step_keeps].
Qed.

(** ** Answers that may be errors *)

Definition or_error {A E} (P : A -> D -> Prop) (r : result A E) (d : D) : Prop :=
  match r with Ok a => P a d | Err _ => True end.

Lemma safe_fail {A E} base (e : E) (P : A -> D -> Prop) : safe base (Ret (Err e)) (or_error P).
Proof. by apply safe_ret. Qed.

(** A failed call ends a request; a good one goes on. *)
Lemma safe_try {A B S} base (m : prog (site W D) (result A (error S))) w (k : A -> prog (site W D) (result B (error S))) Q P :
  safe base m (or_error Q) -> (forall a l, grows base l -> Q a l -> safe l (k a) (or_error P)) ->
  safe base (do! r := m in try r w k) (or_error P).
Proof.
  intros Hm Hk. eapply safe_seq; [by apply safe_grows |]. intros [a|e] l [Hg Ha]; [by apply Hk | apply safe_fail].
Qed.

(** A statement alone: what it answers is right and stays so. *)
Lemma safe_statement {A S} base (f : W -> D -> result A (error S)) (Q : A -> D -> Prop) :
  (forall l w a, grows base l -> f w l = Ok a -> Q a l) -> (forall a l l', grows l l' -> Q a l -> Q a l') ->
  safe base (query f) (or_error Q).
Proof.
  intros Hf Hq. change (query f) with (do! r := query f in Ret r). apply safe_query. intros l w r Hg Hr. apply safe_ret.
  intros l' Hl'. destruct r as [a|e]; [| done]. destruct Hr as [Hr | ?]; [| done]. apply (Hq a l l' Hl'). by eapply Hf.
Qed.

Lemma safe_fact {A S} base (f : W -> D -> result A (error S)) (Q : A -> Prop) :
  (forall l w a, grows base l -> f w l = Ok a -> Q a) -> safe base (query f) (or_error (fun a _ => Q a)).
Proof. intros Hf. by apply safe_statement. Qed.

(** A transaction alone: nothing, or one write, and a right answer. *)
Lemma safe_transaction {A S} base (f : D -> result A (error S) * D) (Q : A -> D -> Prop) :
  (forall l r l', grows base l -> f l = (r, l') -> (l' = l \/ write R l l') /\ or_error Q r l') ->
  (forall a l l', grows l l' -> Q a l -> Q a l') ->
  safe base (transact f) (or_error Q).
Proof.
  intros Hf Hq. change (transact f) with (do! r := transact f in Ret r). apply safe_transact. intros l r l' Hg Hr.
  destruct (Hf l r l' Hg Hr) as [Hw Ha]. split; [exact Hw |]. split; [| intros text; apply safe_fail].
  apply safe_ret. intros l2 Hl2. destruct r as [a|e]; [| done]. by apply (Hq a l').
Qed.

(** A pool of safe requests: only writes, and right answers at the end. *)
Lemma safe_par {A} (pool : list (prog (site W D) A)) s results s' (post : nat -> A -> D -> Prop) :
  (forall i m, pool !! i = Some m -> safe (s_db s) m (post i)) -> par pool s results s' ->
  rtc site_step s s' /\ (forall i a, results !! i = Some a -> post i a (s_db s')) /\ length results = length pool.
Proof.
  intros Hsafe Hpar.
  destruct (par_rg pool s results s' (fun _ => site_step) (fun _ => site_step)
    (fun i a s => post i a (s_db s)) Hpar) as (Hres & Hst & Hlen).
  - intros i m Hi. apply Hsafe; [done | reflexivity].
  - done.
  - split; [| done]. clear -Hst. induction Hst as [| s1 s2 s3 (i & _ & Hs) _ IH]; [reflexivity |]. by eapply rtc_l.
Qed.
End safe.
