(* ===== verification/PipelineGraph.v ===== *)
(** * Pipelines and their dependency graphs

    [services/pipeline-orchestrator/internal/domain/models.go] and [errors.go]
    (the data), and the graph part of [pipeline_service_impl.go]: [validateGraph],
    [topoLevels] (Kahn's algorithm by levels), [topoOrder] and
    [cloneStepsClamped]. Dynamic values ([any] of the code) are of a type [V]. *)

From S2P Require Import Prelude.

(** ** Errors *)

Inductive pl_sentinel :=
| ErrValidation
| ErrCycleDetected
| ErrUnknownStepType
| ErrDanglingDependency
| ErrDuplicateStepID
| ErrTooManySteps
| ErrEmptyPipeline
| ErrPipelineNotFound
| ErrExecutionNotFound
| ErrPipelineArchived
| ErrExecutionNotCancellable
| ErrCompensationFailed
| ErrNoExecutor
| ErrTerminalPersist
| ErrStepPersist
| ErrRepoNotFound
| ContextCanceled.

#[export] Instance pl_sentinel_dec : EqDecision pl_sentinel.
Proof. solve_decision. Defined.

#[export] Instance pl_sentinels : Sentinels pl_sentinel := {|
  sentinel_wraps s :=
    match s with
    | ErrCycleDetected | ErrUnknownStepType | ErrDanglingDependency | ErrDuplicateStepID
    | ErrTooManySteps | ErrEmptyPipeline => Some ErrValidation
    | _ => None
    end |}.

Abbreviation pl_error := (error pl_sentinel).

(** ** Data *)

(** Go enumerations over [int] whose value may come from outside the package. *)
Abbreviation PipelineType := Z (only parsing).
Definition PipelineTypeUnspecified : PipelineType := 0.
Definition PipelineTypeDeploymentSaga : PipelineType := 1.
Definition PipelineTypeTrainingDAG : PipelineType := 2.
Definition PipelineTypeBatchInference : PipelineType := 3.

Definition IsDAG (t : PipelineType) : bool :=
  (t =? PipelineTypeTrainingDAG) || (t =? PipelineTypeBatchInference).
Definition IsSaga (t : PipelineType) : bool := t =? PipelineTypeDeploymentSaga.

Abbreviation StepType := Z (only parsing).
Definition StepTypeUnspecified : StepType := 0.
Definition StepTypeValidate : StepType := 1.
Definition StepTypeBuild : StepType := 2.
Definition StepTypeDeploy : StepType := 3.
Definition StepTypeCanary : StepType := 4.
Definition StepTypePromote : StepType := 5.
Definition StepTypeTrain : StepType := 6.
Definition StepTypeEvaluate : StepType := 7.
Definition StepTypeRegister : StepType := 8.
Definition StepTypeCustom : StepType := 9.

Definition IsKnown (t : StepType) : bool := (StepTypeValidate <=? t) && (t <=? StepTypeCustom).

Inductive ExecutionStatus :=
| ExecutionStatusUnspecified
| ExecutionStatusPending
| ExecutionStatusRunning
| ExecutionStatusCompensating
| ExecutionStatusCompleted
| ExecutionStatusFailed
| ExecutionStatusCancelled.

#[export] Instance ExecutionStatus_dec : EqDecision ExecutionStatus.
Proof. solve_decision. Defined.

Definition IsTerminal (s : ExecutionStatus) : bool :=
  bool_decide (s = ExecutionStatusCompleted) || bool_decide (s = ExecutionStatusFailed)
  || bool_decide (s = ExecutionStatusCancelled).

Inductive StepStatus :=
| StepStatusUnspecified
| StepStatusPending
| StepStatusRunning
| StepStatusCompleted
| StepStatusFailed
| StepStatusSkipped
| StepStatusCompensating
| StepStatusCompensated
| StepStatusCompensationFailed.

#[export] Instance StepStatus_dec : EqDecision StepStatus.
Proof. solve_decision. Defined.

Record StepDefinition {V : Type} := {
  sd_ID : string;
  sd_Name : string;
  sd_Type : StepType;
  sd_DependsOn : list string;
  sd_CompensationStepID : string;
  sd_Config : gmap string V;
  sd_Timeout : duration;
  sd_MaxRetries : Z;
}.
Arguments StepDefinition V : clear implicits.

Definition MaxRetriesCap : Z := 10.
Definition MaxStepsPerPipeline : Z := 256.

Record PipelineDefinition {V : Type} := {
  pd_ID : string;
  pd_Name : string;
  pd_Type : PipelineType;
  pd_Steps : list (StepDefinition V);
  pd_CreatedBy : string;
  pd_CreatedAt : time;
  pd_Team : string;
  pd_Archived : bool;
}.
Arguments PipelineDefinition V : clear implicits.

(** ** The graph *)

Section graph.
Context {V : Type}.
Implicit Types st : StepDefinition V.
Implicit Types steps : list (StepDefinition V).

(** The first loop of [topoLevels]: in-degrees, dependents, order of first mention. *)
Definition count_step (acc : gmap string Z * gmap string (list string) * list string) st
    : gmap string Z * gmap string (list string) * list string :=
  let '(indeg, dependents, order) := acc in
  (<[sd_ID st := default 0 (indeg !! sd_ID st) + Z.of_nat (length (sd_DependsOn st))]> indeg,
   foldl (fun m dep => <[dep := default [] (m !! dep) ++ [sd_ID st]]> m) dependents (sd_DependsOn st),
   match indeg !! sd_ID st with Some _ => order | None => order ++ [sd_ID st] end).

(** [indeg[child]--; if indeg[child] == 0 { next = append(next, child) }] *)
Definition release_child (acc : gmap string Z * list string) (child : string)
    : gmap string Z * list string :=
  let '(indeg, next) := acc in
  let n := default 0 (indeg !! child) - 1 in
  (<[child := n]> indeg, if n =? 0 then next ++ [child] else next).

Definition release_level (dependents : gmap string (list string)) (indeg : gmap string Z)
    (current : list string) : gmap string Z * list string :=
  foldl (fun acc id => foldl release_child acc (default [] (dependents !! id))) (indeg, []) current.

(** The loop over levels; [fuel] bounds the number of levels. *)
Fixpoint peel (fuel : nat) (dependents : gmap string (list string)) (indeg : gmap string Z)
    (current : list string) (levels : list (list string)) (processed : Z)
    : list (list string) * Z * list string :=
  match fuel with
  | O => (levels, processed, current)
  | S fuel =>
      match current with
      | [] => (levels, processed, [])
      | _ =>
          let '(indeg, next) := release_level dependents indeg current in
          peel fuel dependents indeg next (levels ++ [current])
            (processed + Z.of_nat (length current))
      end
  end.

(** A level holds at least one of the ids, each id is in one level at most, so the
    number of steps bounds the number of levels. *)
Definition topoLevels steps : result (list (list string)) pl_error :=
  let '(indeg, dependents, order) := foldl count_step (∅, ∅, []) steps in
  let current := filter (fun id => default 0 (indeg !! id) = 0) order in
  let '(levels, processed, _) := peel (S (length steps)) dependents indeg current [] 0 in
  if processed <? Z.of_nat (size indeg) then Err (Sentinel ErrCycleDetected) else Ok levels.

Definition topoOrder steps : result (list string) pl_error :=
  rbind (topoLevels steps) (fun levels => Ok (concat levels)).

(** The two checking loops of [validateGraph]. *)
Fixpoint check_ids (ids : gset string) steps : result (gset string) pl_error :=
  match steps with
  | [] => Ok ids
  | st :: steps =>
      if String.eqb (sd_ID st) "" then Err (Wrap "a step has an empty id" (Sentinel ErrValidation))
      else if bool_decide (sd_ID st ∈ ids) then Err (Wrap "step id" (Sentinel ErrDuplicateStepID))
      else if negb (IsKnown (sd_Type st)) then Err (Wrap "step type" (Sentinel ErrUnknownStepType))
      else check_ids ({[sd_ID st]} ∪ ids) steps
  end.

Fixpoint check_deps (ids : gset string) (id : string) (deps : list string) : option pl_error :=
  match deps with
  | [] => None
  | dep :: deps =>
      if negb (bool_decide (dep ∈ ids))
      then Some (Wrap "step depends_on unknown step" (Sentinel ErrDanglingDependency))
      else if String.eqb dep id then Some (Wrap "step depends on itself" (Sentinel ErrCycleDetected))
      else check_deps ids id deps
  end.

Fixpoint check_refs (ids : gset string) steps : option pl_error :=
  match steps with
  | [] => None
  | st :: steps =>
      match check_deps ids (sd_ID st) (sd_DependsOn st) with
      | Some e => Some e
      | None =>
          if negb (String.eqb (sd_CompensationStepID st) "")
             && negb (bool_decide (sd_CompensationStepID st ∈ ids))
          then Some (Wrap "step compensation references unknown step" (Sentinel ErrDanglingDependency))
          else check_refs ids steps
      end
  end.

Definition validateGraph (_ : PipelineType) steps : option pl_error :=
  if Z.of_nat (length steps) =? 0 then Some (Sentinel ErrEmptyPipeline)
  else if MaxStepsPerPipeline <? Z.of_nat (length steps)
  then Some (Wrap "steps exceeds cap" (Sentinel ErrTooManySteps))
  else match check_ids ∅ steps with
  | Err e => Some e
  | Ok ids =>
      match check_refs ids steps with
      | Some e => Some e
      | None => match topoLevels steps with Err e => Some e | Ok _ => None end
      end
  end.

Definition clamp_retries (n : Z) : Z :=
  let n := if n <? 0 then 0 else n in if MaxRetriesCap <? n then MaxRetriesCap else n.

Definition cloneStepsClamped steps : list (StepDefinition V) :=
  map (fun st => {|
    sd_ID := sd_ID st; sd_Name := sd_Name st; sd_Type := sd_Type st;
    sd_DependsOn := sd_DependsOn st; sd_CompensationStepID := sd_CompensationStepID st;
    sd_Config := sd_Config st; sd_Timeout := sd_Timeout st;
    sd_MaxRetries := clamp_retries (sd_MaxRetries st) |}) steps.

Definition isDeployStep (t : StepType) : bool := (t =? StepTypeDeploy) || (t =? StepTypePromote).

Definition clampPageSize (requested : Z) : Z :=
  if requested <=? 0 then 20 else if 100 <? requested then 100 else requested.

(** [stepByID]: the last step with the id, as the map the code builds keeps it. *)
Definition stepByID steps : gmap string (StepDefinition V) :=
  foldl (fun m st => <[sd_ID st := st]> m) ∅ steps.

(** ** The mathematical graph *)

Definition step_ids steps : list string := map sd_ID steps.

(** The dependencies of an id, with repetitions. *)
Definition deps_of steps (id : string) : list string :=
  concat (map sd_DependsOn (filter (fun st => sd_ID st = id) steps)).

(** [x] depends on [y]. *)
Definition depends steps (x y : string) : Prop := x ∈ step_ids steps /\ y ∈ deps_of steps x.

Definition acyclic steps : Prop := forall x, ~ tc (depends steps) x x.

(** ** Counting *)

(** How often [x] occurs in [l]. *)
Definition cnt (x : string) (l : list string) : Z := Z.of_nat (length (filter (fun y => y = x) l)).

Lemma cnt_nil x : cnt x [] = 0.
Proof. done. Qed.

Lemma cnt_cons x y l : cnt x (y :: l) = (if decide (y = x) then 1 else 0) + cnt x l.
Proof. unfold cnt. rewrite filter_cons. destruct (decide (y = x)); simpl; lia. Qed.

Lemma cnt_app x l k : cnt x (l ++ k) = cnt x l + cnt x k.
Proof. unfold cnt. rewrite list.filter_app, length_app. lia. Qed.

Lemma cnt_nonneg x l : 0 <= cnt x l.
Proof. unfold cnt. lia. Qed.

Lemma cnt_pos x l : x ∈ l <-> 0 < cnt x l.
Proof.
  induction l as [|y l IH]; [split; [by intros ?%not_elem_of_nil | rewrite cnt_nil; lia] |].
  rewrite cnt_cons, elem_of_cons, IH. pose proof (cnt_nonneg x l).
  destruct (decide (y = x)); split; try lia; [by intros _; left | intros [-> | ?]; [done | lia]].
Qed.

(** What is left of [l] when the elements of [P] are struck out. *)
Definition left (P : list string) (l : list string) : list string := filter (fun d => d ∉ P) l.

Lemma left_snoc P x l : x ∉ P ->
  Z.of_nat (length (left (P ++ [x]) l)) = Z.of_nat (length (left P l)) - cnt x l.
Proof.
  intros Hx. unfold left. induction l as [|y l IH]; [done |]. rewrite cnt_cons, !filter_cons.
  destruct (decide (y = x)) as [-> | Hne].
  - rewrite decide_False, decide_True; [simpl; lia | done |].
    intros H. apply H. apply elem_of_app. right. by left.
  - destruct (decide (y ∉ P)).
    + rewrite decide_True; [simpl; lia |]. rewrite elem_of_app, list_elem_of_singleton. tauto.
    + rewrite decide_False; [lia |]. rewrite elem_of_app. tauto.
Qed.

Lemma left_nil_iff P l : left P l = [] <-> forall d, d ∈ l -> d ∈ P.
Proof.
  unfold left. split.
  - intros Hn d Hd. destruct (decide (d ∈ P)); [done |].
    assert (d ∈ filter (fun d => d ∉ P) l) as Hin by by apply list_elem_of_filter.
    rewrite Hn in Hin. by apply not_elem_of_nil in Hin.
  - intros H. apply filter_none. intros d Hd Hn. by apply Hn, H.
Qed.

(** ** The counting loop *)

Lemma deps_of_snoc steps st id :
  deps_of (steps ++ [st]) id =
  deps_of steps id ++ (if decide (sd_ID st = id) then sd_DependsOn st else []).
Proof.
  unfold deps_of. rewrite list.filter_app, filter_cons, map_app, concat_app.
  destruct (decide (sd_ID st = id)); simpl; by rewrite ?app_nil_r.
Qed.

Lemma add_dependents_spec (m : gmap string (list string)) id deps d :
  let m' := foldl (fun m dep => <[dep := default [] (m !! dep) ++ [id]]> m) m deps in
  default [] (m' !! d) = default [] (m !! d) ++ replicate (Z.to_nat (cnt d deps)) id.
Proof.
  revert m. induction deps as [|y deps IH]; intros m; simpl; [by rewrite app_nil_r |].
  rewrite IH, cnt_cons. pose proof (cnt_nonneg d deps). destruct (decide (y = d)) as [-> | Hne].
  - rewrite lookup_insert_eq. simpl. replace (Z.to_nat (1 + cnt d deps)) with (S (Z.to_nat (cnt d deps))) by lia.
    by rewrite <- app_assoc.
  - by rewrite lookup_insert_ne.
Qed.

Record counted steps (indeg : gmap string Z) (dependents : gmap string (list string))
    (order : list string) : Prop := {
  c_indeg id : indeg !! id =
    if decide (id ∈ step_ids steps) then Some (Z.of_nat (length (deps_of steps id))) else None;
  c_deps c d : cnt c (default [] (dependents !! d)) = cnt d (deps_of steps c);
  c_order id : id ∈ order <-> id ∈ step_ids steps;
  c_nodup : NoDup order;
}.

Lemma cnt_replicate x y n : cnt x (replicate n y) = if decide (y = x) then Z.of_nat n else 0.
Proof.
  induction n as [|n IH]; simpl; [by destruct (decide _) |]. rewrite cnt_cons, IH.
  destruct (decide (y = x)); lia.
Qed.

Lemma count_steps_spec steps :
  let '(indeg, dependents, order) := foldl count_step (∅, ∅, []) steps in
  counted steps indeg dependents order.
Proof.
  induction steps as [|st steps IH] using rev_ind.
  - constructor; [| done | done | constructor].
    intros id. rewrite decide_False; [done | apply not_elem_of_nil].
  - rewrite foldl_app. destruct (foldl count_step (∅, ∅, []) steps) as [[indeg dependents] order].
    destruct IH as [H1 H2 H3 H4].
    assert (forall id, id ∈ step_ids (steps ++ [st]) <-> id = sd_ID st \/ id ∈ step_ids steps) as Hids.
    { intros id. unfold step_ids. rewrite map_app, elem_of_app. simpl. rewrite list_elem_of_singleton. tauto. }
    constructor.
    + intros id. rewrite deps_of_snoc, length_app. destruct (decide (sd_ID st = id)) as [<- | Hne].
      * rewrite lookup_insert_eq, decide_True by (apply Hids; by left). rewrite H1.
        destruct (decide (sd_ID st ∈ step_ids steps)) as [Hin | Hin]; simpl; [f_equal; lia |].
        replace (deps_of steps (sd_ID st)) with (@nil string); [simpl; f_equal; lia |].
        symmetry. unfold deps_of. rewrite filter_none; [done |].
        intros st' Hst' Heq. apply Hin. rewrite <- Heq. by apply list_elem_of_fmap_2.
      * rewrite lookup_insert_ne, H1 by done. simpl. rewrite Nat.add_0_r.
        destruct (decide (id ∈ step_ids steps)), (decide (id ∈ step_ids (steps ++ [st])));
          rewrite Hids in *; first [done | exfalso; intuition congruence].
    + intros c d. rewrite add_dependents_spec, cnt_app, H2, deps_of_snoc, cnt_app, cnt_replicate.
      pose proof (cnt_nonneg d (sd_DependsOn st)). destruct (decide _); rewrite ?cnt_nil; lia.
    + intros id. rewrite Hids, <- H3, H1. destruct (decide (sd_ID st ∈ step_ids steps)) as [Hin | Hin].
      * rewrite <- H3 in Hin. split; [by right | by intros [-> | ?]].
      * rewrite elem_of_app, list_elem_of_singleton. tauto.
    + rewrite H1. destruct (decide (sd_ID st ∈ step_ids steps)) as [Hin | Hin]; [done |].
      apply list.NoDup_app. split; [done |]. split; [| by apply NoDup_singleton].
      intros x Hx ->%list_elem_of_singleton. by apply Hin, H3.
Qed.


(** ** The loop over levels *)

(** Releasing the dependents [ch] of one id: each in-degree goes down by the
    number of times it is mentioned, and those that reach zero are appended once. *)
Lemma release_children_spec ch (indeg : gmap string Z) next :
  (forall c, c ∈ ch -> exists n, indeg !! c = Some n /\ cnt c ch <= n) ->
  let '(indeg', next') := foldl release_child (indeg, next) ch in
  (forall c, indeg' !! c = (fun n => n - cnt c ch) <$> indeg !! c) /\
  exists new, next' = next ++ new /\ NoDup new /\
    forall c, c ∈ new <-> c ∈ ch /\ indeg !! c = Some (cnt c ch).
Proof.
  revert indeg next. induction ch as [|c0 ch IH]; intros indeg next Hch; cbn [foldl].
  - split.
    + intros c. rewrite cnt_nil. destruct (indeg !! c) as [n|]; simpl; [f_equal; lia | done].
    + exists []. rewrite app_nil_r. split; [done |]. split; [constructor |].
      intros c. split; [by intros ?%not_elem_of_nil | by intros [?%not_elem_of_nil _]].
  - destruct (Hch c0 ltac:(by left)) as (n0 & Hn0 & Hle). rewrite cnt_cons, decide_True in Hle by done.
    unfold release_child at 2. rewrite Hn0. change (default 0 (Some n0)) with n0. cbv zeta.
    set (indeg1 := <[c0 := n0 - 1]> indeg).
    set (next1 := if n0 - 1 =? 0 then next ++ [c0] else next).
    specialize (IH indeg1 next1).
    destruct (foldl release_child (indeg1, next1) ch) as [indeg' next'].
    destruct IH as (H1 & new & Hnew & Hnd & H2).
    + intros c Hc. destruct (decide (c0 = c)) as [<- | Hne].
      * exists (n0 - 1). unfold indeg1. rewrite lookup_insert_eq. split; [done | lia].
      * destruct (Hch c ltac:(by right)) as (n & Hn & Hl). exists n. unfold indeg1.
        rewrite lookup_insert_ne by done. rewrite cnt_cons, decide_False in Hl by done.
        split; [done | lia].
    + split.
      * intros c. rewrite H1. unfold indeg1. rewrite cnt_cons. destruct (decide (c0 = c)) as [<- | Hne].
        -- rewrite lookup_insert_eq, Hn0. simpl. f_equal. lia.
        -- rewrite lookup_insert_ne by done. destruct (indeg !! c); simpl; [f_equal; lia | done].
      * pose proof (cnt_nonneg c0 ch). unfold next1 in Hnew.
        destruct (Z.eqb_spec (n0 - 1) 0) as [Hz | Hz].
        -- exists (c0 :: new). rewrite Hnew, <- app_assoc. split; [done |].
           assert (c0 ∉ ch) as Hc0 by (rewrite cnt_pos; lia).
           split; [constructor; [rewrite H2; tauto | done] |].
           intros c. rewrite !elem_of_cons, cnt_cons, H2. unfold indeg1.
           destruct (decide (c0 = c)) as [<- | Hne].
           ++ split; [| by left]. intros _. split; [by left |]. rewrite Hn0. f_equal.
              apply Z.le_antisymm; [| lia]. assert (cnt c0 ch = 0); [| lia].
              destruct (Z.eq_dec (cnt c0 ch) 0); [done |]. destruct Hc0. apply cnt_pos. lia.
           ++ rewrite lookup_insert_ne by done. rewrite Z.add_0_l.
              split; [intros [? | ?]; [congruence | tauto] | intros [[? | ?] ?]; [congruence | tauto]].
        -- exists new. rewrite Hnew. split; [done |]. split; [done |].
           intros c. rewrite H2, cnt_cons, elem_of_cons. unfold indeg1.
           destruct (decide (c0 = c)) as [<- | Hne].
           ++ rewrite lookup_insert_eq, Hn0. split.
              ** intros [? [= Heq]]. split; [by left |]. f_equal. lia.
              ** intros [_ [= Heq]]. split; [| f_equal; lia]. apply cnt_pos. lia.
           ++ rewrite lookup_insert_ne by done. rewrite Z.add_0_l.
              split; [tauto | intros [[? | ?] ?]; [congruence | tauto]].
Qed.

Section kahn.
Context (steps : list (StepDefinition V)) (dependents : gmap string (list string)).
Hypothesis dependents_ok : forall c d, cnt c (default [] (dependents !! d)) = cnt d (deps_of steps c).

Lemma dependents_known c d : c ∈ default [] (dependents !! d) -> d ∈ deps_of steps c.
Proof. rewrite !cnt_pos, dependents_ok. done. Qed.

(** After the ids of [P] are processed with [Q] waiting: the in-degree of an id
    counts its dependencies outside [P], and the ids with none left are the
    processed and the waiting ones. *)
Record kahn_inv (P Q : list string) (indeg : gmap string Z) : Prop := {
  k_nodup : NoDup (P ++ Q);
  k_indeg id : indeg !! id = if decide (id ∈ step_ids steps)
                 then Some (Z.of_nat (length (left P (deps_of steps id)))) else None;
  k_ready id : id ∈ P ++ Q <-> id ∈ step_ids steps /\ left P (deps_of steps id) = [];
}.

Lemma deps_of_known id d : d ∈ deps_of steps id -> id ∈ step_ids steps.
Proof.
  unfold deps_of. rewrite elem_of_concat. intros (ds & _ & Hds).
  apply list_elem_of_fmap in Hds as (st & -> & Hst). apply list_elem_of_filter in Hst as [<- Hst].
  by apply list_elem_of_fmap_2.
Qed.

Lemma process_one P x Q next indeg :
  kahn_inv P (x :: Q ++ next) indeg ->
  let '(indeg', next') := foldl release_child (indeg, next) (default [] (dependents !! x)) in
  kahn_inv (P ++ [x]) (Q ++ next') indeg'.
Proof.
  intros [Hnd Hin Hrdy]. set (ch := default [] (dependents !! x)).
  assert (x ∉ P) as HxP.
  { apply list.NoDup_app in Hnd as (_ & Hd & _). intros Hx. apply (Hd x Hx). by left. }
  assert (forall c, c ∈ ch -> exists n, indeg !! c = Some n /\ cnt c ch <= n) as Hch.
  { intros c Hc. apply dependents_known, deps_of_known in Hc as Hk.
    rewrite Hin, decide_True by done. eexists. split; [done |]. unfold ch. rewrite dependents_ok.
    pose proof (left_snoc P x (deps_of steps c) HxP). lia. }
  pose proof (release_children_spec ch indeg next Hch) as Hr.
  destruct (foldl release_child (indeg, next) ch) as [indeg' next'].
  destruct Hr as (H1 & new & -> & Hnn & H2).
  assert (forall c, c ∈ new -> ~ (c ∈ P ++ x :: Q ++ next)) as Hnew.
  { intros c [Hc _]%H2. rewrite Hrdy. intros [_ Hl]. apply HxP.
    apply dependents_known in Hc. by apply left_nil_iff with (d := x) in Hl. }
  assert (forall c, c ∈ new <-> c ∈ step_ids steps /\ left P (deps_of steps c) <> [] /\
    left (P ++ [x]) (deps_of steps c) = []) as Hnew'.
  { intros c. rewrite H2. pose proof (left_snoc P x (deps_of steps c) HxP) as Hl. split.
    - intros [Hc Hi]. apply dependents_known in Hc as Hd. pose proof (deps_of_known _ _ Hd) as Hk.
      rewrite Hin, decide_True in Hi by done. unfold ch in Hi. rewrite dependents_ok in Hi.
      injection Hi as Hi. split; [done |]. split.
      + intros He. rewrite left_nil_iff in He. by apply HxP, He.
      + apply length_zero_iff_nil. lia.
    - intros (Hk & Hne & He). rewrite He in Hl. simpl in Hl.
      assert (0 < Z.of_nat (length (left P (deps_of steps c)))) by (destruct (left P _); [done | simpl; lia]).
      split.
      + apply cnt_pos. unfold ch. rewrite dependents_ok. lia.
      + rewrite Hin, decide_True by done. unfold ch. rewrite dependents_ok. f_equal. lia. }
  assert ((P ++ [x]) ++ Q ++ next ++ new = (P ++ x :: Q ++ next) ++ new) as Hperm
    by (by rewrite <- !app_assoc; simpl; rewrite <- !app_assoc).
  constructor.
  - rewrite Hperm. apply list.NoDup_app. split; [done |]. split; [| done].
    intros c Hc Hc'. by apply (Hnew c).
  - intros id. rewrite H1, Hin. destruct (decide (id ∈ step_ids steps)); [| done]. simpl. f_equal.
    unfold ch. rewrite dependents_ok, left_snoc by done. done.
  - intros id. rewrite Hperm, elem_of_app, Hrdy, Hnew'. split.
    + intros [[Hk Hl] | (Hk & _ & Hl)]; [| done]. split; [done |]. apply left_nil_iff.
      intros d Hd. apply elem_of_app. left. by eapply left_nil_iff.
    + intros [Hk Hl]. destruct (decide (left P (deps_of steps id) = [])); [by left | by right].
Qed.

Lemma process_level P Q next indeg :
  kahn_inv P (Q ++ next) indeg ->
  let '(indeg', next') := foldl (fun acc id => foldl release_child acc (default [] (dependents !! id)))
                            (indeg, next) Q in
  kahn_inv (P ++ Q) next' indeg'.
Proof.
  revert P next indeg. induction Q as [|x Q IH]; intros P next indeg Hk; cbn [foldl].
  - by rewrite app_nil_r.
  - pose proof (process_one P x Q next indeg Hk) as H1.
    destruct (foldl release_child (indeg, next) _) as [indeg1 next1].
    specialize (IH (P ++ [x]) next1 indeg1 H1). destruct (foldl _ _ Q) as [indeg' next'].
    by rewrite <- app_assoc in IH.
Qed.

(** Each dependency of an id of a level is in an earlier level. *)
Definition layered (levels : list (list string)) : Prop :=
  forall i level id d, levels !! i = Some level -> id ∈ level -> d ∈ deps_of steps id ->
    exists j level', (j < i)%nat /\ levels !! j = Some level' /\ d ∈ level'.

Lemma layered_snoc levels level :
  layered levels -> (forall id d, id ∈ level -> d ∈ deps_of steps id -> d ∈ concat levels) ->
  layered (levels ++ [level]).
Proof.
  intros Hl Hn i l id d Hi Hid Hd. apply lookup_app_Some in Hi as [Hi | [Hge Hi]].
  - destruct (Hl i l id d Hi Hid Hd) as (j & l' & ? & Hj & ?). exists j, l'.
    split; [done |]. split; [by apply lookup_app_l_Some | done].
  - assert (i = length levels /\ l = level) as [-> ->].
    { destruct (i - length levels)%nat as [|n] eqn:E; [| done]. injection Hi as ->.
      split; [lia | done]. }
    specialize (Hn id d Hid Hd). apply elem_of_concat in Hn as (l' & Hdl & Hl').
    apply list_elem_of_lookup_1 in Hl' as [j Hj]. exists j, l'.
    split; [by eapply lookup_lt_Some |]. split; [by apply lookup_app_l_Some | done].
Qed.

(** An id is in the first level it can be in: it depends on one of the level before. *)
Definition tight (levels : list (list string)) : Prop :=
  forall i level id, levels !! S i = Some level -> id ∈ level ->
    exists d level', levels !! i = Some level' /\ d ∈ level' /\ d ∈ deps_of steps id.

Lemma tight_prefix levels l : tight (levels ++ [l]) -> tight levels.
Proof.
  intros Ht i level id Hi Hid. destruct (Ht i level id) as (d & l' & Hl' & Hd);
    [by apply lookup_app_l_Some | done |]. exists d, l'. split; [| done].
  apply lookup_app_Some in Hl' as [? | [Hge _]]; [done |]. apply lookup_lt_Some in Hi. lia.
Qed.

Lemma tight_snoc levels cur next indeg indeg' :
  tight (levels ++ [cur]) -> kahn_inv (concat levels) cur indeg ->
  kahn_inv (concat levels ++ cur) next indeg' -> tight ((levels ++ [cur]) ++ [next]).
Proof.
  intros Ht [_ _ Hr1] [Hnd _ Hr2] i l id Hi Hid.
  apply lookup_app_Some in Hi as [Hi | [Hge Hi]].
  - destruct (Ht i l id Hi Hid) as (d & l' & ? & ?). exists d, l'. split; [by apply lookup_app_l_Some | done].
  - rewrite length_app in Hge, Hi. simpl in Hge, Hi.
    assert (i = length levels /\ l = next) as [-> ->].
    { destruct (S i - (length levels + 1))%nat as [|n] eqn:E; [| done]. injection Hi as ->. split; [lia | done]. }
    destruct (Hr2 id) as [H2 _]. destruct H2 as [Hk Hl]; [apply elem_of_app; by right |].
    assert (id ∉ concat levels ++ cur) as Hout.
    { intros Hx. apply list.NoDup_app in Hnd as (_ & Hd & _). by apply (Hd id). }
    destruct (left (concat levels) (deps_of steps id)) as [|d ds] eqn:El; [by destruct Hout; apply Hr1 |].
    assert (d ∈ left (concat levels) (deps_of steps id)) as Hd by (rewrite El; by left).
    apply list_elem_of_filter in Hd as [Hn Hd]. exists d, cur. split; [| split; [| done]].
    + apply lookup_app_l_Some. rewrite lookup_app_r, Nat.sub_diag by lia. done.
    + rewrite left_nil_iff in Hl. specialize (Hl d Hd). by apply elem_of_app in Hl as [? | ?].
Qed.

Lemma peel_spec fuel indeg current levels :
  kahn_inv (concat levels) current indeg -> layered levels -> tight (levels ++ [current]) ->
  Forall (fun l => l <> []) levels ->
  (length (step_ids steps) < fuel + length (concat levels))%nat ->
  let '(levels', processed, rest) :=
    peel fuel dependents indeg current levels (Z.of_nat (length (concat levels))) in
  rest = [] /\ processed = Z.of_nat (length (concat levels')) /\ layered levels' /\ tight levels' /\
  Forall (fun l => l <> []) levels' /\ exists indeg', kahn_inv (concat levels') [] indeg'.
Proof.
  revert indeg current levels. induction fuel as [|fuel IH]; intros indeg current levels Hk Hl Ht Hne Hf.
  - exfalso. destruct Hk as [Hnd _ Hrdy]. apply list.NoDup_app in Hnd as (Hnd & _ & _).
    assert (concat levels ⊆ step_ids steps) as Hsub.
    { intros id Hid. apply Hrdy. apply elem_of_app. by left. }
    pose proof (NoDup_submseteq _ _ Hnd Hsub) as Hs. apply submseteq_length in Hs. lia.
  - cbn [peel]. destruct current as [|x current].
    { do 3 (split; [done |]). split; [by eapply tight_prefix |]. split; [done | by exists indeg]. }
    remember (x :: current) as cur. unfold release_level.
    pose proof (process_level (concat levels) cur [] indeg) as Hp. rewrite app_nil_r in Hp.
    specialize (Hp Hk). destruct (foldl _ (indeg, []) cur) as [indeg' next'].
    pose proof (tight_snoc _ _ _ _ _ Ht Hk Hp) as Ht'.
    assert (concat (levels ++ [cur]) = concat levels ++ cur) as Hcat
      by (rewrite concat_app; simpl; by rewrite app_nil_r).
    specialize (IH indeg' next' (levels ++ [cur])). rewrite Hcat, length_app, Nat2Z.inj_add in IH.
    apply IH.
    + done.
    + apply layered_snoc; [done |]. intros id d Hid Hd. destruct Hk as [_ _ Hrdy].
      destruct (Hrdy id) as [Hr _]. destruct Hr as [_ Hr]; [apply elem_of_app; by right |].
      by eapply left_nil_iff.
    + done.
    + apply Forall_app. split; [done |]. constructor; [by subst cur | constructor].
    + subst cur. simpl. lia.
Qed.
End kahn.

Lemma kahn_start steps indeg dependents order :
  counted steps indeg dependents order ->
  kahn_inv steps [] (filter (fun id => default 0 (indeg !! id) = 0) order) indeg.
Proof.
  intros [H1 H2 H3 H4]. assert (forall l, left [] l = l) as Hleft.
  { intros l. apply filter_all. intros x _. apply not_elem_of_nil. }
  constructor.
  - by apply list.NoDup_filter.
  - intros id. by rewrite H1, Hleft.
  - intros id. simpl. rewrite list_elem_of_filter, H3, H1, Hleft. split.
    + intros [Hz Hk]. rewrite decide_True in Hz by done. split; [done |].
      destruct (deps_of steps id); [done |]. simpl in Hz. lia.
    + intros [Hk Hz]. by rewrite decide_True, Hz.
Qed.

Lemma counted_size steps indeg dependents order :
  counted steps indeg dependents order -> size indeg = length order.
Proof.
  intros [H1 _ H3 H4]. rewrite <- size_dom, <- (size_list_to_set (C := gset string) order H4).
  f_equal. apply set_eq. intros id. rewrite elem_of_dom, elem_of_list_to_set, H3, H1.
  destruct (decide (id ∈ step_ids steps)); split; (done || by intros [? ?] || by eexists).
Qed.

(** Every dependency is a step. *)
Definition closed steps : Prop := forall id d, d ∈ deps_of steps id -> d ∈ step_ids steps.

(** What a level assignment of [steps] is. *)
Record level_order steps (levels : list (list string)) : Prop := {
  lo_ids id : id ∈ concat levels <-> id ∈ step_ids steps;
  lo_nodup : NoDup (concat levels);
  lo_layered : layered steps levels;
  lo_tight : tight steps levels;
  lo_nonempty : Forall (fun l => l <> []) levels;
}.

(** Nothing is left over exactly when every id has been scheduled; what is left
    over is closed under some dependency of each of its ids. *)
Lemma topoLevels_cases steps :
  match topoLevels steps with
  | Ok levels => level_order steps levels
  | Err e => e = Sentinel ErrCycleDetected /\
      exists P : list string, (exists id, id ∈ step_ids steps /\ id ∉ P) /\
        forall id, id ∈ step_ids steps -> id ∉ P -> exists d, d ∈ deps_of steps id /\ d ∉ P
  end.
Proof.
  unfold topoLevels. pose proof (count_steps_spec steps) as Hc.
  destruct (foldl count_step _ steps) as [[indeg dependents] order].
  pose proof (kahn_start _ _ _ _ Hc) as Hk. rewrite (counted_size _ _ _ _ Hc).
  pose proof (peel_spec steps dependents (c_deps _ _ _ _ Hc) (S (length steps)) indeg
    (filter (fun id => default 0 (indeg !! id) = 0) order) [] Hk) as Hp.
  change (Z.of_nat (length (concat []))) with 0 in Hp.
  destruct (peel _ dependents indeg _ [] 0) as [[levels processed] rest].
  destruct Hp as (-> & -> & Hl & Ht & Hne & indeg' & [Hnd _ Hrdy]).
  { intros i l id d Hi. by rewrite lookup_nil in Hi. }
  { intros i l id Hi. by destruct i. }
  { constructor. }
  { unfold step_ids. rewrite length_map. simpl. lia. }
  rewrite app_nil_r in Hnd. destruct Hc as [H1 H2 H3 H4].
  assert (forall id, id ∈ concat levels <-> id ∈ step_ids steps /\ left (concat levels) (deps_of steps id) = [])
    as Hr by (intros id; by rewrite <- Hrdy, app_nil_r).
  assert (concat levels ⊆+ order) as Hsub.
  { apply NoDup_submseteq; [done |]. intros id Hid. apply H3. by apply Hr. }
  destruct (Z.ltb_spec (Z.of_nat (length (concat levels))) (Z.of_nat (length order))) as [Hlt | Hge].
  - split; [done |]. exists (concat levels). split.
    + destruct (decide (Exists (fun id => id ∉ concat levels) order)) as [He | He].
      * apply Exists_exists in He as (id & Hid & Hn). exists id. split; [| done].
        apply H3. by apply list_elem_of_In.
      * exfalso. assert (order ⊆+ concat levels) as Hs%submseteq_length; [| lia].
        apply NoDup_submseteq; [done |]. intros id Hid.
        destruct (decide (id ∈ concat levels)) as [| Hn]; [done |]. destruct He.
        apply Exists_exists. exists id. split; [by apply list_elem_of_In | done].
    + intros id Hid Hn. destruct (left (concat levels) (deps_of steps id)) as [|d ds] eqn:El.
      * destruct Hn. by apply Hr.
      * exists d. assert (d ∈ left (concat levels) (deps_of steps id)) as Hd by (rewrite El; by left).
        by apply list_elem_of_filter in Hd as [? ?].
  - constructor; try done. intros id. rewrite <- H3. split.
    + intros Hid. by apply elem_of_submseteq with (concat levels).
    + intros Hid. assert (concat levels ≡ₚ order) as ->; [| done].
      apply submseteq_length_Permutation; [done | lia].
Qed.

Lemma tc_source steps x y : tc (depends steps) x y -> x ∈ step_ids steps.
Proof. by induction 1 as [x y [? _] | x y z [? _] _ _]. Qed.

Lemma tc_target steps x y : closed steps -> tc (depends steps) x y -> y ∈ step_ids steps.
Proof. intros Hc. induction 1 as [x y [_ Hd] | x y z _ _ IH]; [by eapply Hc | done]. Qed.

Lemma layered_acyclic steps levels : level_order steps levels -> closed steps /\ acyclic steps.
Proof.
  intros [Hids Hnd Hl _ _]. split.
  - intros id d Hd. pose proof (deps_of_known _ _ _ Hd) as Hid. apply Hids in Hid.
    apply elem_of_concat in Hid as (l & Hid & Hin). apply list_elem_of_lookup_1 in Hin as [i Hi].
    destruct (Hl i l id d Hi Hid Hd) as (j & l' & _ & Hj & Hd'). apply Hids, elem_of_concat.
    exists l'. split; [done | by eapply list_elem_of_lookup_2].
  - assert (forall x y, tc (depends steps) x y -> forall i l, levels !! i = Some l -> x ∈ l ->
      exists j l', (j < i)%nat /\ levels !! j = Some l' /\ y ∈ l') as Hdown.
    { induction 1 as [x y [_ Hd] | x y z [_ Hd] _ IH]; intros i l Hi Hx.
      - by apply (Hl i l x y).
      - destruct (Hl i l x y Hi Hx Hd) as (j & l' & Hj & Hlj & Hy).
        destruct (IH j l' Hlj Hy) as (k & l'' & Hk & ?). exists k, l''. split; [lia | done]. }
    assert (forall n x i l, (i < n)%nat -> levels !! i = Some l -> x ∈ l -> ~ tc (depends steps) x x) as Hno.
    { induction n as [|n IH]; intros x i l Hi Hli Hx Ht; [lia |].
      destruct (Hdown x x Ht i l Hli Hx) as (j & l' & Hj & Hlj & Hx').
      by apply (IH x j l'); [lia | ..]. }
    intros x Ht. pose proof (tc_source _ _ _ Ht) as Hx.
    apply Hids, elem_of_concat in Hx as (l & Hx & Hin). apply list_elem_of_lookup_1 in Hin as [i Hi].
    by apply (Hno (S i) x i l); [lia | ..].
Qed.

Lemma leftover_cyclic steps (P : list string) :
  (exists id, id ∈ step_ids steps /\ id ∉ P) ->
  (forall id, id ∈ step_ids steps -> id ∉ P -> exists d, d ∈ deps_of steps id /\ d ∉ P) ->
  ~ (closed steps /\ acyclic steps).
Proof.
  intros (id & Hid & Hn) Hstep [Hcl Hac].
  assert (sn (depends steps) id) as Hsn.
  { apply tc_finite_sn; [intros x; apply Hac |]. exists (step_ids steps). intros y Hy.
    by eapply tc_target. }
  induction Hsn as [id _ IH]. destruct (Hstep id Hid Hn) as (d & Hd & Hnd).
  apply (IH d); [by split | by eapply Hcl | done].
Qed.

(** C22. The scheduler's topological sort is right and complete: when it answers, the
    levels partition the step ids, every dependency of a step is in a strictly
    earlier level, no level is empty and no step could be a level earlier; the
    only error is [ErrCycleDetected]; and it answers exactly when the graph has
    no cycle and no dependency on an unknown step. The loop always ends within
    its bound on levels. *)
Theorem topoLevels_correct steps :
  match topoLevels steps with
  | Ok levels => level_order steps levels
  | Err e => e = Sentinel ErrCycleDetected
  end /\
  (is_ok (topoLevels steps) = true <-> closed steps /\ acyclic steps).
Proof.
  pose proof (topoLevels_cases steps) as Hc. destruct (topoLevels steps) as [levels | e]; simpl.
  - split; [done |]. split; [| done]. intros _. by apply (layered_acyclic steps levels).
  - destruct Hc as (-> & P & H1 & H2). split; [done |]. split; [done |].
    intros Hb. by destruct (leftover_cyclic steps P H1 H2).
Qed.

(** ** Validation *)

Lemma check_ids_ok steps ids ids' :
  check_ids ids steps = Ok ids' <->
  (ids' = list_to_set (step_ids steps) ∪ ids) /\ NoDup (step_ids steps) /\
  Forall (fun st => sd_ID st <> "" /\ sd_ID st ∉ ids /\ IsKnown (sd_Type st) = true) steps.
Proof.
  revert ids. induction steps as [|st steps IH]; intros ids; simpl.
  - split; [intros [= <-] | intros [-> _]]; [split; [set_solver | split; constructor] | f_equal; set_solver].
  - destruct (String.eqb_spec (sd_ID st) "") as [He | He].
    { split; [done | intros (_ & _ & Hf)]. inversion Hf as [| ? ? [? _] _]; subst. done. }
    destruct (bool_decide (sd_ID st ∈ ids)) eqn:Eb; bool_to_prop.
    { split; [done | intros (_ & _ & Hf)]. inversion Hf as [| ? ? (_ & ? & _) _]; subst. done. }
    destruct (IsKnown (sd_Type st)) eqn:Ek; simpl.
    2: { split; [done | intros (_ & _ & Hf)]. inversion Hf as [| ? ? (_ & _ & ?) _]; subst. congruence. }
    rewrite IH, list.NoDup_cons, list.Forall_cons. fold (step_ids steps). split.
    + intros (-> & Hnd & Hf). rewrite list.Forall_forall in Hf. split; [set_solver |].
      split; [split; [| done] |].
      * intros Hin. apply list_elem_of_fmap in Hin as (st' & Heq & Hin).
        specialize (Hf _ Hin) as (_ & Hn & _). apply Hn. rewrite Heq. set_solver.
      * split; [done |]. apply list.Forall_forall. intros st' Hin.
        specialize (Hf _ Hin) as (? & Hn & ?). split_and!; [done | set_solver | done].
    + intros (-> & [Hn Hnd] & _ & Hf). rewrite list.Forall_forall in Hf. split; [set_solver |].
      split; [done |]. apply list.Forall_forall. intros st' Hin.
      specialize (Hf _ Hin) as (? & Hn' & ?). split_and!; [done | | done].
      intros Hx. apply elem_of_union in Hx as [Hx | Hx]; [| done]. apply elem_of_singleton in Hx.
      apply Hn. rewrite <- Hx. by apply list_elem_of_fmap_2.
Qed.

Lemma check_deps_ok ids id deps :
  check_deps ids id deps = None <-> forall d, d ∈ deps -> d ∈ ids /\ d <> id.
Proof.
  induction deps as [|d deps IH]; simpl; [split; [by intros _ ? ?%not_elem_of_nil | done] |].
  destruct (bool_decide (d ∈ ids)) eqn:Eb; bool_to_prop; simpl.
  - destruct (String.eqb_spec d id) as [-> | Hne].
    + split; [done |]. intros H. by destruct (H id ltac:(by left)).
    + rewrite IH. split; [intros H x [-> | Hx]%elem_of_cons; auto | intros H x Hx; apply H; by right].
  - split; [done |]. intros H. by destruct (H d ltac:(by left)).
Qed.

Definition comp_known (ids : gset string) st : Prop :=
  sd_CompensationStepID st = "" \/ sd_CompensationStepID st ∈ ids.

Lemma check_refs_ok ids steps :
  check_refs ids steps = None <->
  Forall (fun st => (forall d, d ∈ sd_DependsOn st -> d ∈ ids /\ d <> sd_ID st) /\ comp_known ids st) steps.
Proof.
  induction steps as [|st steps IH]; simpl; [by split |]. rewrite list.Forall_cons, <- IH.
  destruct (check_deps ids (sd_ID st) (sd_DependsOn st)) eqn:Ed.
  - split; [done |]. intros [[Hd _] _]. apply check_deps_ok in Hd. congruence.
  - rewrite check_deps_ok in Ed. unfold comp_known.
    destruct (String.eqb_spec (sd_CompensationStepID st) ""); simpl; [tauto |].
    destruct (bool_decide _) eqn:Eb; bool_to_prop; simpl; [tauto |]. split; [done | intros [[_ [? | ?]] _]; done].
Qed.

Lemma deps_of_elem steps id d :
  d ∈ deps_of steps id <-> exists st, st ∈ steps /\ sd_ID st = id /\ d ∈ sd_DependsOn st.
Proof.
  unfold deps_of. rewrite elem_of_concat. split.
  - intros (l & Hd & Hl). apply list_elem_of_fmap in Hl as (st & -> & Hst).
    apply list_elem_of_filter in Hst as [<- Hst]. by exists st.
  - intros (st & Hst & <- & Hd). exists (sd_DependsOn st). split; [done |].
    apply list_elem_of_fmap_2. by apply list_elem_of_filter.
Qed.

(** A pipeline template as [CreatePipeline] promises it. *)
Record valid_graph steps : Prop := {
  vg_size : 1 <= Z.of_nat (length steps) <= MaxStepsPerPipeline;
  vg_ids : NoDup (step_ids steps);
  vg_steps : Forall (fun st => sd_ID st <> "" /\ IsKnown (sd_Type st) = true /\
    (sd_CompensationStepID st = "" \/ sd_CompensationStepID st ∈ step_ids steps)) steps;
  vg_closed : closed steps;
  vg_acyclic : acyclic steps;
}.

Lemma valid_graph_levels steps : valid_graph steps -> exists levels, topoLevels steps = Ok levels /\ level_order steps levels.
Proof.
  intros [_ _ _ Hc Ha]. pose proof (topoLevels_cases steps) as Ht.
  destruct (topoLevels steps) as [levels | e]; [by exists levels |].
  destruct Ht as (_ & P & H1 & H2). by destruct (leftover_cyclic steps P H1 H2).
Qed.

Lemma check_errors_validation steps :
  (forall ids e, check_ids ids steps = Err e -> errors_is e ErrValidation = true) /\
  (forall ids e, check_refs ids steps = Some e -> errors_is e ErrValidation = true).
Proof.
  split.
  - induction steps as [|st steps IH]; intros ids e; simpl; [done |].
    repeat (case_match; [by intros [= <-] |]). apply IH.
  - intros ids. induction steps as [|st steps IH]; intros e; simpl; [done |].
    destruct (check_deps ids (sd_ID st) (sd_DependsOn st)) as [e'|] eqn:Ed.
    + intros [= <-]. revert Ed. induction (sd_DependsOn st) as [|d deps IHd]; simpl; [done |].
      case_match; [by intros [= <-] |]. case_match; [by intros [= <-] | apply IHd].
    + case_match; [by intros [= <-] | apply IH].
Qed.

Lemma validateGraph_spec t steps :
  (validateGraph t steps = None <-> valid_graph steps) /\
  (forall e, validateGraph t steps = Some e -> errors_is e ErrValidation = true).
Proof.
  unfold validateGraph. destruct (check_errors_validation steps) as [Hei Her].
  destruct (Z.eqb_spec (Z.of_nat (length steps)) 0) as [H0 | H0].
  { split; [split; [done | intros [? _ _ _ _]; lia] | by intros e [= <-]]. }
  destruct (Z.ltb_spec MaxStepsPerPipeline (Z.of_nat (length steps))) as [H1 | H1].
  { split; [split; [done | intros [? _ _ _ _]; lia] | by intros e [= <-]]. }
  destruct (check_ids ∅ steps) as [ids | e0] eqn:Ei.
  2: { split; [split; [done |] | by intros e [= <-]; eapply Hei]. intros [_ Hn Hs _ _].
       assert (check_ids ∅ steps = Ok (list_to_set (step_ids steps) ∪ ∅)) as Hok; [| congruence].
       apply check_ids_ok. split; [done |]. split; [done |]. eapply Forall_impl; [| exact Hs].
       intros st (? & ? & _). split; [done |]. split; [apply not_elem_of_empty | done]. }
  apply check_ids_ok in Ei as (-> & Hnd & Hf). rewrite (right_id_L ∅ (∪)) in *.
  set (ids := list_to_set (step_ids steps)) in *.
  assert (forall x, x ∈ ids <-> x ∈ step_ids steps) as Hids
    by (intros x; unfold ids; by rewrite elem_of_list_to_set).
  destruct (check_refs ids steps) as [e0|] eqn:Er.
  { split; [split; [done |] | by intros e [= <-]; eapply Her]. intros [_ _ Hs Hc Ha].
    assert (check_refs ids steps = None); [| congruence]. apply check_refs_ok.
    rewrite list.Forall_forall in *. intros st Hst. split.
    - intros d Hd. assert (d ∈ deps_of steps (sd_ID st)) as Hd' by (apply deps_of_elem; eauto).
      split; [apply Hids; by eapply Hc |]. intros ->. apply (Ha (sd_ID st)). apply tc_once.
      split; [by apply list_elem_of_fmap_2 | done].
    - unfold comp_known. rewrite Hids. by apply Hs. }
  apply check_refs_ok in Er. rewrite list.Forall_forall in *.
  assert (closed steps) as Hcl.
  { intros id d Hd. apply deps_of_elem in Hd as (st & Hst & <- & Hd). apply Hids. by apply (Er st Hst). }
  destruct (topoLevels steps) as [levels | e0] eqn:Et.
  - split; [split; [intros _ | done] | done]. constructor; [lia | done | | done |].
    + apply list.Forall_forall. intros st Hst. destruct (Hf st Hst) as (? & _ & ?).
      split_and!; [done.. |]. destruct (Er st Hst) as [_ Hk]. unfold comp_known in Hk. by rewrite Hids in Hk.
    + apply (layered_acyclic steps levels). pose proof (topoLevels_cases steps) as Ht. by rewrite Et in Ht.
  - pose proof (topoLevels_cases steps) as Ht. rewrite Et in Ht. destruct Ht as (-> & P & Hx & Hy).
    split; [split; [done |] | by intros e [= <-]]. intros [_ _ _ _ Ha].
    by destruct (leftover_cyclic steps P Hx Hy).
Qed.

(** Validation accepts exactly the runnable templates: between 1 and 256 steps
    with distinct non-empty ids of known types, whose dependencies and
    compensations are steps of the template, and without a dependency cycle.
    Whatever the reason of a rejection, its error is an [ErrValidation]. *)
Theorem validateGraph_exact t steps :
  (validateGraph t steps = None <-> valid_graph steps) /\
  (forall e, validateGraph t steps = Some e -> errors_is e ErrValidation = true).
Proof. apply validateGraph_spec. Qed.

(** ** Clamping *)

Lemma clamp_bounds n : 0 <= clamp_retries n <= MaxRetriesCap.
Proof.
  unfold clamp_retries, MaxRetriesCap. destruct (Z.ltb_spec n 0); [done |]. destruct (Z.ltb_spec 10 n); lia.
Qed.

Lemma clamped_ids steps : step_ids (cloneStepsClamped steps) = step_ids steps.
Proof. unfold step_ids, cloneStepsClamped. by rewrite map_map. Qed.

Lemma clamped_deps steps id : deps_of (cloneStepsClamped steps) id = deps_of steps id.
Proof.
  unfold deps_of, cloneStepsClamped. induction steps as [|st steps IH]; [done |].
  simpl. rewrite !filter_cons. cbn [sd_ID]. destruct (decide (sd_ID st = id)); simpl; by rewrite IH.
Qed.

Lemma clamped_valid steps : valid_graph steps -> valid_graph (cloneStepsClamped steps).
Proof.
  intros [Hs Hn Hf Hc Ha]. constructor.
  - unfold cloneStepsClamped. by rewrite length_map.
  - by rewrite clamped_ids.
  - rewrite clamped_ids. unfold cloneStepsClamped. apply Forall_map. exact Hf.
  - intros id d. rewrite clamped_ids, clamped_deps. apply Hc.
  - intros x Hx. apply (Ha x). revert Hx. generalize x at 1 3. induction 1 as [a b [H1 H2] | a b c [H1 H2] _ IH];
      rewrite clamped_ids, clamped_deps in *; [by apply tc_once | by eapply tc_l].
Qed.

Lemma valid_graph_intro steps levels :
  1 <= Z.of_nat (length steps) <= MaxStepsPerPipeline -> NoDup (step_ids steps) ->
  Forall (fun st => sd_ID st <> "" /\ IsKnown (sd_Type st) = true /\
    (sd_CompensationStepID st = "" \/ sd_CompensationStepID st ∈ step_ids steps)) steps ->
  topoLevels steps = Ok levels -> valid_graph steps.
Proof.
  intros Hl Hn Hs Ht. pose proof (topoLevels_cases steps) as Hc. rewrite Ht in Hc.
  apply layered_acyclic in Hc as [Hcl Hac]. by constructor.
Qed.
End graph.


