(* ===== verification/PipelineRun.v ===== *)
(** * The execution engine of the pipeline orchestrator

    The part of [services/pipeline-orchestrator/internal/domain/pipeline_service_impl.go]
    that runs one execution: [runOneStep] with its retries, the saga with its
    compensation, the DAG with its concurrent levels, and [settle]. A goroutine is
    a [prog] whose atomic sections are the bodies under [execMu] (or the errors'
    mutex) and the calls to the outside; the outside (run context, executors,
    repository, bus, clock) is an environment that may answer anything. *)

From S2P Require Import Prelude Concur PipelineGraph.
Open Scope fp_scope.

(** ** Data (models.go, ports.go) *)

(** The text of an error field: a constant of the code or [err.Error()]. *)
Inductive err_text := Plain (s : string) | Rendered (e : pl_error).

Record StepExecution {V : Type} := {
  se_ID : string;
  se_ExecutionID : string;
  se_StepID : string;
  se_StepType : Z;
  se_Status : StepStatus;
  se_StartedAt : option time;
  se_CompletedAt : option time;
  se_Output : gmap string V;
  se_Error : err_text;
  se_Attempt : Z;
}.
Arguments StepExecution V : clear implicits.

Record Execution {V : Type} := {
  ex_ID : string;
  ex_PipelineID : string;
  ex_Status : ExecutionStatus;
  ex_CurrentStep : string;
  ex_Steps : list (StepExecution V);
  ex_TriggeredBy : string;
  ex_StartedAt : time;
  ex_CompletedAt : option time;
  ex_Input : gmap string V;
  ex_Error : err_text;
}.
Arguments Execution V : clear implicits.

Record StepInput {V : Type} := {
  si_ExecutionID : string;
  si_StepID : string;
  si_StepType : Z;
  si_Config : gmap string V;
  si_Input : gmap string V;
  si_UpstreamOutputs : gmap string (gmap string V);
  si_Attempt : Z;
}.
Arguments StepInput V : clear implicits.

Record StepResult {V : Type} := { sr_Output : gmap string V; sr_Endpoint : string }.
Arguments StepResult V : clear implicits.

Inductive EventType :=
| EventPipelineStarted
| EventStepCompleted
| EventStepFailed
| EventCompensationTriggered
| EventPipelineCompleted
| EventPipelineFailed
| EventModelDeployed
| EventModelUndeployed.

Record StepEvent {V : Type} := {
  ev_Type : EventType;
  ev_ExecutionID : string;
  ev_PipelineID : string;
  ev_PipelineType : Z;
  ev_StepID : string;
  ev_StepType : Z;
  ev_TriggeredBy : string;
  ev_Error : err_text;
  ev_Attempts : Z;
  ev_Endpoint : string;
  ev_Output : gmap string V;
  ev_OccurredAt : time;
}.
Arguments StepEvent V : clear implicits.

(** ** The outside *)

(** The context a call is made with: the run's (it may be cancelled) or one that
    [context.WithoutCancel] detached from it, bounded by [SettlementTimeout]. *)
Inductive ctx := RunCtx | DetachedCtx.

#[export] Instance ctx_dec : EqDecision ctx.
Proof. solve_decision. Defined.

Class Env (V E : Type) : Type := {
  ctx_Err : E -> option pl_error * E;
  Execute : duration -> StepInput V -> E -> result (StepResult V) pl_error * E;
  Compensate : ctx -> StepInput V -> E -> option pl_error * E;
  Save : ctx -> Execution V -> E -> option pl_error * E;
  SaveStep : ctx -> StepExecution V -> E -> option pl_error * E;
  Publish : ctx -> StepEvent V -> E -> E;
  Now : E -> time * E;
  (** The pause between two attempts; [true] when the context ended during it. *)
  Wait : E -> bool * E;
  Executor : Z -> bool;
}.

Definition SettlementTimeout : duration := 60 * Second.

(** ** Completion order *)

(** [sortStepsByCompletedAt]'s [less]. *)
Definition completed_before {V} (x y : StepExecution V) : bool :=
  match se_CompletedAt x, se_CompletedAt y with
  | None, None => false
  | None, Some _ => true
  | Some _, None => false
  | Some t, Some u => time_before t u
  end.

(** [sort.SliceStable]: the stable sort is unique, here by insertion. *)
Fixpoint insert_stable {V} (x : StepExecution V) (l : list (StepExecution V)) : list (StepExecution V) :=
  match l with
  | [] => [x]
  | y :: l => if completed_before y x then y :: insert_stable x l else x :: y :: l
  end.

Definition sortStepsByCompletedAt {V} (l : list (StepExecution V)) : list (StepExecution V) :=
  foldr insert_stable [] l.

Definition completedStepsInOrder {V} (e : Execution V) : list (StepExecution V) :=
  sortStepsByCompletedAt (filter (fun se => se_Status se = StepStatusCompleted) (ex_Steps e)).

(** [findStep], and a write through the pointer it answers. *)
Definition findStep {V} (e : Execution V) (stepID : string) : option (StepExecution V) :=
  List.find (fun se => String.eqb (se_StepID se) stepID) (ex_Steps e).

Fixpoint update_step {V} (stepID : string) (f : StepExecution V -> StepExecution V)
    (l : list (StepExecution V)) : list (StepExecution V) :=
  match l with
  | [] => []
  | se :: l => if String.eqb (se_StepID se) stepID then f se :: l else se :: update_step stepID f l
  end.

Section setters.
Context {V : Type}.

Definition set_steps (l : list (StepExecution V)) (e : Execution V) : Execution V := {|
  ex_ID := ex_ID e; ex_PipelineID := ex_PipelineID e; ex_Status := ex_Status e;
  ex_CurrentStep := ex_CurrentStep e; ex_Steps := l; ex_TriggeredBy := ex_TriggeredBy e;
  ex_StartedAt := ex_StartedAt e; ex_CompletedAt := ex_CompletedAt e; ex_Input := ex_Input e;
  ex_Error := ex_Error e |}.

Definition set_current (stepID : string) (e : Execution V) : Execution V := {|
  ex_ID := ex_ID e; ex_PipelineID := ex_PipelineID e; ex_Status := ex_Status e;
  ex_CurrentStep := stepID; ex_Steps := ex_Steps e; ex_TriggeredBy := ex_TriggeredBy e;
  ex_StartedAt := ex_StartedAt e; ex_CompletedAt := ex_CompletedAt e; ex_Input := ex_Input e;
  ex_Error := ex_Error e |}.

Definition set_status (s : ExecutionStatus) (e : Execution V) : Execution V := {|
  ex_ID := ex_ID e; ex_PipelineID := ex_PipelineID e; ex_Status := s;
  ex_CurrentStep := ex_CurrentStep e; ex_Steps := ex_Steps e; ex_TriggeredBy := ex_TriggeredBy e;
  ex_StartedAt := ex_StartedAt e; ex_CompletedAt := ex_CompletedAt e; ex_Input := ex_Input e;
  ex_Error := ex_Error e |}.

Definition set_settled (s : ExecutionStatus) (at_ : time) (err : err_text) (e : Execution V) : Execution V := {|
  ex_ID := ex_ID e; ex_PipelineID := ex_PipelineID e; ex_Status := s;
  ex_CurrentStep := ex_CurrentStep e; ex_Steps := ex_Steps e; ex_TriggeredBy := ex_TriggeredBy e;
  ex_StartedAt := ex_StartedAt e; ex_CompletedAt := Some at_; ex_Input := ex_Input e;
  ex_Error := err |}.

Definition set_running (now : time) (e : Execution V) : Execution V := {|
  ex_ID := ex_ID e; ex_PipelineID := ex_PipelineID e; ex_Status := ExecutionStatusRunning;
  ex_CurrentStep := ex_CurrentStep e; ex_Steps := ex_Steps e; ex_TriggeredBy := ex_TriggeredBy e;
  ex_StartedAt := now; ex_CompletedAt := ex_CompletedAt e; ex_Input := ex_Input e;
  ex_Error := ex_Error e |}.

(** The writes of [markStep] and [markStepAttempt] at clock reading [now]. *)
Definition marked (status : StepStatus) (errMsg : err_text) (now : time) (se : StepExecution V)
    : StepExecution V := {|
  se_ID := se_ID se; se_ExecutionID := se_ExecutionID se; se_StepID := se_StepID se;
  se_StepType := se_StepType se; se_Status := status; se_StartedAt := se_StartedAt se;
  se_CompletedAt :=
    if bool_decide (status = StepStatusCompensated) || bool_decide (status = StepStatusCompensationFailed)
       || bool_decide (status = StepStatusSkipped)
    then Some now else se_CompletedAt se;
  se_Output := se_Output se; se_Error := errMsg; se_Attempt := se_Attempt se |}.

Definition marked_attempt (status : StepStatus) (errMsg : err_text) (attempt : Z) (now now' : time)
    (se : StepExecution V) : StepExecution V := {|
  se_ID := se_ID se; se_ExecutionID := se_ExecutionID se; se_StepID := se_StepID se;
  se_StepType := se_StepType se; se_Status := status;
  se_StartedAt :=
    if bool_decide (status = StepStatusRunning)
    then match se_StartedAt se with None => Some now | t => t end else se_StartedAt se;
  se_CompletedAt := if bool_decide (status = StepStatusFailed) then Some now' else se_CompletedAt se;
  se_Output := se_Output se; se_Error := errMsg; se_Attempt := attempt |}.

Definition succeeded (output : gmap string V) (attempt : Z) (now : time) (se : StepExecution V)
    : StepExecution V := {|
  se_ID := se_ID se; se_ExecutionID := se_ExecutionID se; se_StepID := se_StepID se;
  se_StepType := se_StepType se; se_Status := StepStatusCompleted; se_StartedAt := se_StartedAt se;
  se_CompletedAt := Some now; se_Output := output; se_Error := se_Error se; se_Attempt := attempt |}.
End setters.

(** ** The engine *)

Section engine.
Context {V E : Type} `{Env V E}.

(** Calls to the outside, in the order they are made. *)
Inductive call :=
| CExecute (stepID : string) (attempt : Z)
| CCompensate (c : ctx) (stepID : string)
| CSave (c : ctx) (status : ExecutionStatus)
| CSaveStep (c : ctx) (stepID : string) (status : StepStatus)
| CPublish (c : ctx) (type : EventType) (stepID : string).

(** The state the goroutines of one execution share: the outside, the execution
    record, the collected checkpoint errors ([stepErrs]), and the trace. *)
Record shared := {
  s_env : E;
  s_exec : Execution V;
  s_errs : Z * option pl_error;
  s_log : list call;
}.

Definition put_env (e : E) (s : shared) : shared :=
  {| s_env := e; s_exec := s_exec s; s_errs := s_errs s; s_log := s_log s |}.
Definition put_exec (x : Execution V) (s : shared) : shared :=
  {| s_env := s_env s; s_exec := x; s_errs := s_errs s; s_log := s_log s |}.
Definition put_log (c : call) (s : shared) : shared :=
  {| s_env := s_env s; s_exec := s_exec s; s_errs := s_errs s; s_log := s_log s ++ [c] |}.

Abbreviation go := (prog shared) (only parsing).

(** A call to the outside, without and with a trace entry. *)
Definition ask {R} (f : E -> R * E) : go R :=
  atom (fun s => let '(r, e) := f (s_env s) in (r, put_env e s)).
Definition tell {R} (c : call) (f : E -> R * E) : go R :=
  atom (fun s => let '(r, e) := f (s_env s) in (r, put_log c (put_env e s))).
Definition on_exec (f : Execution V -> Execution V) : go unit :=
  atom (fun s => (tt, put_exec (f (s_exec s)) s)).
Definition read_exec {R} (f : Execution V -> R) : go R := atom (fun s => (f (s_exec s), s)).

(** [stepErrs.record]: the count and the first error. *)
Definition record (err : option pl_error) : go unit :=
  match err with
  | None => Ret tt
  | Some e => atom (fun s =>
      let '(count, first) := s_errs s in
      (tt, {| s_env := s_env s; s_exec := s_exec s;
              s_errs := (count + 1, match first with None => Some e | Some _ => first end);
              s_log := s_log s |}))
  end.

Definition stepErrs_err (errs : Z * option pl_error) : option pl_error :=
  if errs.1 =? 0 then None else Some (Wrap "checkpoint write(s) failed" (Sentinel ErrStepPersist)).

Definition save (c : ctx) (x : Execution V) : go (option pl_error) :=
  tell (CSave c (ex_Status x)) (Save c x).

Definition emit (c : ctx) (ev : StepEvent V) : go unit :=
  tell (CPublish c (ev_Type ev) (ev_StepID ev)) (fun e => (tt, Publish c ev e)).

(** An event about the execution as such. *)
Definition event (x : Execution V) (p : PipelineDefinition V) (ty : EventType) (at_ : time) : StepEvent V := {|
  ev_Type := ty; ev_ExecutionID := ex_ID x; ev_PipelineID := pd_ID p; ev_PipelineType := pd_Type p;
  ev_StepID := ""; ev_StepType := 0; ev_TriggeredBy := ""; ev_Error := Plain ""; ev_Attempts := 0;
  ev_Endpoint := ""; ev_Output := ∅; ev_OccurredAt := at_ |}.

(** The same about a step of type [t]. *)
Definition step_event (x : Execution V) (p : PipelineDefinition V) (ty : EventType) (d : StepDefinition V)
    (err : err_text) (attempts : Z) (endpoint : string) (output : gmap string V) (at_ : time) : StepEvent V := {|
  ev_Type := ty; ev_ExecutionID := ex_ID x; ev_PipelineID := pd_ID p; ev_PipelineType := pd_Type p;
  ev_StepID := sd_ID d; ev_StepType := sd_Type d; ev_TriggeredBy := ""; ev_Error := err;
  ev_Attempts := attempts; ev_Endpoint := endpoint; ev_Output := output; ev_OccurredAt := at_ |}.

(** The body under [execMu]: change the record and take a snapshot of it. The
    clock readings a branch does not make are not used. *)
Definition touch (stepID : string) (f : time -> time -> StepExecution V -> StepExecution V)
    : go (option (StepExecution V)) :=
  atom (fun s =>
    match findStep (s_exec s) stepID with
    | None => (None, s)
    | Some se =>
        let '(now, e) := Now (s_env s) in
        let '(now', e) := Now e in
        (Some (f now now' se),
         put_exec (set_steps (update_step stepID (f now now') (ex_Steps (s_exec s))) (s_exec s)) (put_env e s))
    end).

Definition persist (c : ctx) (snapshot : option (StepExecution V)) : go (option pl_error) :=
  match snapshot with
  | None => Ret None
  | Some se => tell (CSaveStep c (se_StepID se) (se_Status se)) (SaveStep c se)
  end.

Definition markStep (c : ctx) (stepID : string) (status : StepStatus) (errMsg : err_text)
    : go (option pl_error) :=
  do! snap := touch stepID (fun now _ => marked status errMsg now) in persist c snap.

Definition markStepAttempt (c : ctx) (def : StepDefinition V) (status : StepStatus) (errMsg : err_text)
    (attempt : Z) : go (option pl_error) :=
  do! snap := touch (sd_ID def) (marked_attempt status errMsg attempt) in persist c snap.

Definition buildStepInput (def : StepDefinition V) (attempt : Z) (x : Execution V) : StepInput V := {|
  si_ExecutionID := ex_ID x; si_StepID := sd_ID def; si_StepType := sd_Type def;
  si_Config := sd_Config def; si_Input := ex_Input x;
  si_UpstreamOutputs := foldl (fun m parentID =>
    match findStep x parentID with
    | Some pse => if bool_decide (se_Status pse = StepStatusCompleted)
                  then <[parentID := se_Output pse]> m else m
    | None => m
    end) ∅ (sd_DependsOn def);
  si_Attempt := attempt |}.

Definition recordSuccess (p : PipelineDefinition V) (def : StepDefinition V) (attempt : Z)
    (result : StepResult V) : go (option pl_error) :=
  do! now := ask Now in
  do! snap := touch (sd_ID def) (fun _ _ => succeeded (sr_Output result) attempt now) in
  do! saveErr := persist RunCtx snap in
  do! x := read_exec id in
  do! _ := emit RunCtx (step_event x p EventStepCompleted def (Plain "") 0 "" (sr_Output result) now) in
  do! _ := if isDeployStep (sd_Type def) && negb (String.eqb (sr_Endpoint result) "")
           then emit RunCtx (step_event x p EventModelDeployed def (Plain "") 0 (sr_Endpoint result) ∅ now)
           else Ret tt in
  Ret saveErr.

Definition is_canceled (e : option pl_error) : bool :=
  match e with Some e => errors_is e ContextCanceled | None => false end.

(** The attempts from [attempt] on, [n] of them left. An ended context keeps its
    error, so that the second [ctx.Err()] of the code answers the first's. *)
Fixpoint attempts (n : nat) (p : PipelineDefinition V) (def : StepDefinition V) (attempt : Z)
    (lastErr : option pl_error) : go (option pl_error) :=
  let maxAttempts := sd_MaxRetries def + 1 in
  match n with
  | O =>
      let msg := match lastErr with Some e => Rendered e | None => Plain "" end in
      do! r := markStepAttempt RunCtx def StepStatusFailed msg maxAttempts in
      do! _ := record r in
      do! x := read_exec id in
      do! now := ask Now in
      do! _ := emit RunCtx (step_event x p EventStepFailed def msg maxAttempts "" ∅ now) in
      Ret (Some (Wrap "step failed after attempts"
                   (match lastErr with Some e => e | None => External "<nil>" end)))
  | S n =>
      do! cerr := ask ctx_Err in
      match cerr with
      | Some e =>
          do! r := markStepAttempt DetachedCtx def StepStatusFailed (Plain "cancelled") attempt in
          do! _ := record r in
          Ret (Some e)
      | None =>
          do! r := markStepAttempt RunCtx def StepStatusRunning (Plain "") attempt in
          do! _ := record r in
          do! i := read_exec (buildStepInput def attempt) in
          do! _ := tell (CExecute (sd_ID def) attempt) (fun e => (tt, e)) in
          do! res := ask (Execute (sd_Timeout def) i) in
          match res with
          | Ok result =>
              do! r := recordSuccess p def attempt result in
              do! _ := record r in Ret None
          | Err err =>
              do! cerr := if errors_is err ContextCanceled then Ret (Some err) else ask ctx_Err in
              if is_canceled cerr then
                do! r := markStepAttempt DetachedCtx def StepStatusFailed (Plain "cancelled") attempt in
                do! _ := record r in Ret (Some (Sentinel ContextCanceled))
              else attempts n p def (attempt + 1) (Some err)
          end
      end
  end.

Definition runOneStep (p : PipelineDefinition V) (def : StepDefinition V) : go (option pl_error) :=
  do! _ := on_exec (set_current (sd_ID def)) in
  if negb (Executor (sd_Type def)) then
    do! r := markStep RunCtx (sd_ID def) StepStatusFailed (Plain "no executor registered") in
    do! _ := record r in Ret (Some (Sentinel ErrNoExecutor))
  else attempts (Z.to_nat (sd_MaxRetries def + 1)) p def 1 None.

(** ** The saga *)

Section saga.
Context (p : PipelineDefinition V).
Abbreviation byID := (stepByID (pd_Steps p)) (only parsing).

(** [skipRemaining], from the point where the failed step is [past]. *)
Fixpoint skipRemaining (c : ctx) (order : list string) (failedStepID : string) (past : bool) : go unit :=
  match order with
  | [] => Ret tt
  | id :: order =>
      if String.eqb id failedStepID then skipRemaining c order failedStepID true
      else if negb past then skipRemaining c order failedStepID past
      else
        do! se := read_exec (fun x => findStep x id) in
        do! _ := match se with
                 | Some se =>
                     if bool_decide (se_Status se = StepStatusPending)
                     then do! r := markStep c id StepStatusSkipped (Plain "") in record r
                     else Ret tt
                 | None => Ret tt
                 end in
        skipRemaining c order failedStepID past
  end.

Definition compensateOne (def : StepDefinition V) (se : StepExecution V) : go (option pl_error) :=
  if negb (Executor (sd_Type def)) then
    do! r := markStep DetachedCtx (se_StepID se) StepStatusCompensationFailed
               (Plain "no executor for compensation") in
    do! _ := record r in Ret (Some (Sentinel ErrNoExecutor))
  else
    do! r := markStep DetachedCtx (se_StepID se) StepStatusCompensating (Plain "") in
    do! _ := record r in
    do! i := read_exec (buildStepInput def (se_Attempt se)) in
    do! cerr := tell (CCompensate DetachedCtx (sd_ID def)) (Compensate DetachedCtx i) in
    match cerr with
    | Some e =>
        do! r := markStep DetachedCtx (se_StepID se) StepStatusCompensationFailed (Rendered e) in
        do! _ := record r in Ret (Some e)
    | None =>
        do! r := markStep DetachedCtx (se_StepID se) StepStatusCompensated (Plain "") in
        do! _ := record r in
        do! _ := if isDeployStep (sd_Type def) then
                   do! now := ask Now in do! x := read_exec id in
                   emit DetachedCtx (step_event x p EventModelUndeployed def (Plain "") 0 "" ∅ now)
                 else Ret tt in
        Ret None
    end.

(** The loop over the completed steps, last first; the flag is [compFailed]. *)
Fixpoint compensate_all (completed : list (StepExecution V)) (compFailed : bool) : go bool :=
  match completed with
  | [] => Ret compFailed
  | se :: completed =>
      match byID !! se_StepID se with
      | Some def =>
          if String.eqb (sd_CompensationStepID def) "" then compensate_all completed compFailed
          else
            do! e := compensateOne def se in
            compensate_all completed (match e with Some _ => true | None => compFailed end)
      | None => compensate_all completed compFailed
      end
  end.

Definition compensate (cause : pl_error) : go pl_error :=
  do! _ := on_exec (set_status ExecutionStatusCompensating) in
  do! x := read_exec id in
  do! r := save DetachedCtx x in
  do! _ := record r in
  do! x := read_exec id in
  let completed := completedStepsInOrder x in
  do! now := ask Now in
  do! _ := emit DetachedCtx (event x p EventCompensationTriggered now) in
  do! compFailed := compensate_all (rev completed) false in
  Ret (if compFailed then Wrap "original cause" (Sentinel ErrCompensationFailed) else cause).

(** The loop over [order]; [all] is the whole order, for [skipRemaining]. A step of
    the order that is no step of the pipeline would dereference nil; [byID] has all
    of them, and the model ends the loop there. *)
Fixpoint saga_steps (all order : list string) : go (option pl_error) :=
  match order with
  | [] => Ret None
  | stepID :: order =>
      do! cerr := ask ctx_Err in
      match cerr with
      | Some _ => do! e := compensate (Sentinel ContextCanceled) in Ret (Some e)
      | None =>
          match byID !! stepID with
          | None => Ret None
          | Some def =>
              do! runErr := runOneStep p def in
              match runErr with
              | None => saga_steps all order
              | Some runErr =>
                  do! cerr := ask ctx_Err in
                  let cause := if is_canceled cerr || errors_is runErr ContextCanceled
                               then Sentinel ContextCanceled else runErr in
                  do! _ := skipRemaining DetachedCtx all stepID false in
                  do! e := compensate cause in Ret (Some e)
              end
          end
      end
  end.

Definition runStepsSaga : go (option pl_error) :=
  match topoOrder (pd_Steps p) with
  | Err e => Ret (Some e)
  | Ok order => saga_steps order order
  end.

(** ** Settlement *)

(** [saveTerminal] with [n] attempts left; a wait that the detached context's end
    cuts short ends the loop. *)
Fixpoint saveTerminal (n : nat) (x : Execution V) : go (option pl_error) :=
  match n with
  | O => Ret None
  | S n =>
      do! r := save DetachedCtx x in
      match r with
      | None => Ret None
      | Some e =>
          match n with
          | O => Ret (Some e)
          | S _ => do! expired := ask Wait in if (expired : bool) then Ret (Some e) else saveTerminal n x
          end
      end
  end.

Definition settle (runErr : option pl_error) : go (Execution V * option pl_error) :=
  do! now := ask Now in
  let '(status, evType, evErr) :=
    match runErr with
    | None => (ExecutionStatusCompleted, EventPipelineCompleted, Plain "")
    | Some e =>
        if errors_is e ContextCanceled
        then (ExecutionStatusCancelled, EventPipelineFailed, Plain "cancelled")
        else (ExecutionStatusFailed, EventPipelineFailed, Rendered e)
    end in
  do! _ := on_exec (fun x => set_settled status now
             (if bool_decide (status = ExecutionStatusFailed) then evErr else ex_Error x) x) in
  do! x := read_exec id in
  do! r := saveTerminal 3 x in
  match r with
  | Some e => Ret (x, Some (Wrap "terminal state not durably persisted" (Sentinel ErrTerminalPersist)))
  | None =>
      do! _ := emit DetachedCtx {|
        ev_Type := evType; ev_ExecutionID := ex_ID x; ev_PipelineID := pd_ID p;
        ev_PipelineType := pd_Type p; ev_StepID := ""; ev_StepType := 0; ev_TriggeredBy := "";
        ev_Error := evErr; ev_Attempts := 0; ev_Endpoint := ""; ev_Output := ∅; ev_OccurredAt := now |} in
      Ret (x, None)
  end.

(** [run]'s part before and after the steps. *)
Definition start_run : go (option pl_error) :=
  do! now := ask Now in
  do! _ := on_exec (set_running now) in
  do! x := read_exec id in
  do! r := save RunCtx x in
  match r with
  | Some e => Ret (Some (Wrap "save running" e))
  | None =>
      do! now := ask Now in
      do! _ := emit RunCtx {|
        ev_Type := EventPipelineStarted; ev_ExecutionID := ex_ID x; ev_PipelineID := pd_ID p;
        ev_PipelineType := pd_Type p; ev_StepID := ""; ev_StepType := 0;
        ev_TriggeredBy := ex_TriggeredBy x; ev_Error := Plain ""; ev_Attempts := 0;
        ev_Endpoint := ""; ev_Output := ∅; ev_OccurredAt := now |} in
      Ret None
  end.

Definition finish_run (runErr : option pl_error) : go (Execution V * option pl_error) :=
  do! settled := settle runErr in
  match settled with
  | (x, Some e) => Ret (x, Some e)
  | (x, None) =>
      do! stepErr := atom (fun s => (stepErrs_err (s_errs s), s)) in Ret (x, stepErr)
  end.

(** A deployment saga from start to settlement; [None]: it could not be started. *)
Definition run_saga : go (option (Execution V) * option pl_error) :=
  do! r := start_run in
  match r with
  | Some e => Ret (None, Some e)
  | None =>
      do! runErr := runStepsSaga in
      do! settled := finish_run runErr in Ret (Some settled.1, settled.2)
  end.
End saga.

(** ** The DAG *)

Section dag.
Context (p : PipelineDefinition V).
Abbreviation byID := (stepByID (pd_Steps p)) (only parsing).

Definition anyParentFailed (id : string) (failed : gset string) : bool :=
  match byID !! id with
  | None => false
  | Some def => existsb (fun parent => bool_decide (parent ∈ failed)) (sd_DependsOn def)
  end.

(** The first loop over a level: skip what has a failed parent, keep the rest. *)
Fixpoint mark_level (level : list string) (failed : gset string) : go (list string * gset string) :=
  match level with
  | [] => Ret ([], failed)
  | id :: level =>
      if anyParentFailed id failed then
        do! r := markStep DetachedCtx id StepStatusSkipped (Plain "") in
        do! _ := record r in
        mark_level level ({[id]} ∪ failed)
      else
        do! rest := mark_level level failed in
        Ret (id :: rest.1, rest.2)
  end.

(** The goroutine of a step. *)
Definition step_thread (id : string) : go (option pl_error) :=
  match byID !! id with Some def => runOneStep p def | None => Ret None end.

(** What the loop over the results map adds: every failed id, and as the first
    error that of some failed step (the map is enumerated in any order). *)
Definition collect (runnable : list string) (results : list (option pl_error)) (failed : gset string)
    : gset string :=
  foldl (fun f ir => match ir.2 with Some _ => {[ir.1]} ∪ f | None => f end) failed (zip runnable results).

Definition step_error (results : list (option pl_error)) (e : pl_error) : Prop :=
  exists e', Some e' ∈ results /\ e = Wrap "step" e'.

Inductive first_error (results : list (option pl_error)) : option pl_error -> option pl_error -> Prop :=
| FirstKept e : first_error results (Some e) (Some e)
| FirstFound e : step_error results e -> first_error results None (Some e)
| FirstNone : (forall r, r ∈ results -> r = None) -> first_error results None None.

(** The loop over the levels. The goroutines of a level run in any interleaving. *)
Inductive dag_levels : list (list string) -> gset string -> option pl_error -> shared ->
    option pl_error -> shared -> Prop :=
| DagDone failed firstErr s : dag_levels [] failed firstErr s firstErr s
| DagSkip level levels failed firstErr s failed' s' r s'' :
    run (mark_level level failed) s = (([], failed'), s') ->
    dag_levels levels failed' firstErr s' r s'' ->
    dag_levels (level :: levels) failed firstErr s r s''
| DagLevel level levels failed firstErr s runnable failed' s1 results s2 cerr s3 firstErr' r s' :
    run (mark_level level failed) s = ((runnable, failed'), s1) -> runnable <> [] ->
    par (map step_thread runnable) s1 results s2 ->
    first_error results firstErr firstErr' ->
    run (ask ctx_Err) s2 = (cerr, s3) ->
    dag_levels levels (collect runnable results failed')
      (match firstErr', cerr with None, Some _ => Some (Sentinel ContextCanceled) | _, _ => firstErr' end)
      s3 r s' ->
    dag_levels (level :: levels) failed firstErr s r s'.

Inductive runStepsDAG (s : shared) : option pl_error -> shared -> Prop :=
| DagInvalid e : topoLevels (pd_Steps p) = Err e -> runStepsDAG s (Some e) s
| DagRun levels r s' :
    topoLevels (pd_Steps p) = Ok levels -> dag_levels levels ∅ None s r s' -> runStepsDAG s r s'.

(** A DAG execution from start to settlement. *)
Inductive run_dag (s : shared) : option (Execution V) * option pl_error -> shared -> Prop :=
| RunDagFailed e s' : run (start_run p) s = (Some e, s') -> run_dag s (None, Some e) s'
| RunDag s1 runErr s2 x e s' :
    run (start_run p) s = (None, s1) -> runStepsDAG s1 runErr s2 ->
    run (finish_run p runErr) s2 = ((x, e), s') -> run_dag s (Some x, e) s'.

(** One schedule of the DAG, as a function: the goroutines of a level one after the
    other, the first error in the order of the level. *)
Definition pick_error (results : list (option pl_error)) (firstErr : option pl_error) : option pl_error :=
  match firstErr with
  | Some e => Some e
  | None => match omap id results with [] => None | e :: _ => Some (Wrap "step" e) end
  end.

Fixpoint dag_seq (levels : list (list string)) (failed : gset string) (firstErr : option pl_error)
    (s : shared) : option pl_error * shared :=
  match levels with
  | [] => (firstErr, s)
  | level :: levels =>
      let '((runnable, failed), s) := run (mark_level level failed) s in
      match runnable with
      | [] => dag_seq levels failed firstErr s
      | _ =>
          let '(results, s) := run_all (map step_thread runnable) s in
          let firstErr := pick_error results firstErr in
          let '(cerr, s) := run (ask ctx_Err) s in
          dag_seq levels (collect runnable results failed)
            (match firstErr, cerr with None, Some _ => Some (Sentinel ContextCanceled) | _, _ => firstErr end) s
      end
  end.

Definition runStepsDAG_seq (s : shared) : option pl_error * shared :=
  match topoLevels (pd_Steps p) with
  | Err e => (Some e, s)
  | Ok levels => dag_seq levels ∅ None s
  end.
End dag.

End engine.

