(* ===== verification/PipelineSteps.v ===== *)
(** * What one step of a pipeline does, whatever runs beside it

    Rely-guarantee facts about [runOneStep] of [PipelineRun]: the goroutine of a
    step writes only its own record, calls only its own executor, at most
    [MaxRetries + 1] times with attempts numbered from 1, and leaves the record
    COMPLETED or FAILED according to what it answers. *)

From S2P Require Import Prelude Concur PipelineGraph PipelineRun.
Open Scope fp_scope.

(** ** Time

    What the engine relies on about its clock: readings strictly increase, and no
    call to the outside makes time go back. *)
Class EnvTime (V E : Type) `{Env V E} : Type := {
  vt : E -> Z;
  vt_ctx_Err e : vt e <= vt (ctx_Err e).2;
  vt_Execute d i e : vt e <= vt (Execute d i e).2;
  vt_Compensate c i e : vt e <= vt (Compensate c i e).2;
  vt_Save c x e : vt e <= vt (Save c x e).2;
  vt_SaveStep c se e : vt e <= vt (SaveStep c se e).2;
  vt_Publish c ev e : vt e <= vt (Publish c ev e);
  vt_Wait e : vt e <= vt (Wait e).2;
  vt_Now e : vt e < (Now e).1 <= vt (Now e).2;
}.

(** ** Step records *)

Section steps.
Context {V : Type}.
Implicit Types (se : StepExecution V) (x : Execution V).

Definition ids_of x : list string := map se_StepID (ex_Steps x).

Lemma find_update_eq stepID (f : StepExecution V -> StepExecution V) l :
  (forall se, se_StepID (f se) = se_StepID se) ->
  List.find (fun se => String.eqb (se_StepID se) stepID) (update_step stepID f l) =
  f <$> List.find (fun se => String.eqb (se_StepID se) stepID) l.
Proof.
  intros Hf. induction l as [|se l IH]; simpl; [done |].
  destruct (String.eqb (se_StepID se) stepID) eqn:E; simpl; [by rewrite Hf, E | by rewrite E].
Qed.

Lemma find_update_ne stepID stepID' (f : StepExecution V -> StepExecution V) l :
  (forall se, se_StepID (f se) = se_StepID se) -> stepID <> stepID' ->
  List.find (fun se => String.eqb (se_StepID se) stepID') (update_step stepID f l) =
  List.find (fun se => String.eqb (se_StepID se) stepID') l.
Proof.
  intros Hf Hne. induction l as [|se l IH]; simpl; [done |].
  destruct (String.eqb_spec (se_StepID se) stepID) as [Heq | Hn]; simpl.
  - rewrite Hf, Heq. by rewrite (proj2 (String.eqb_neq _ _) Hne).
  - by rewrite IH.
Qed.

Lemma update_ids stepID (f : StepExecution V -> StepExecution V) l :
  (forall se, se_StepID (f se) = se_StepID se) ->
  map se_StepID (update_step stepID f l) = map se_StepID l.
Proof.
  intros Hf. induction l as [|se l IH]; simpl; [done |].
  destruct (String.eqb (se_StepID se) stepID); simpl; [by rewrite Hf | by rewrite IH].
Qed.

Lemma findStep_id x id se : findStep x id = Some se -> se_StepID se = id /\ se ∈ ex_Steps x.
Proof.
  unfold findStep. intros Hf. apply List.find_some in Hf as [Hin He].
  split; [by apply String.eqb_eq | by apply list_elem_of_In].
Qed.

Lemma findStep_is_Some x id : is_Some (findStep x id) <-> id ∈ ids_of x.
Proof.
  unfold findStep, ids_of. induction (ex_Steps x) as [|se l IH]; simpl.
  - split; [by intros [? ?] | by intros ?%not_elem_of_nil].
  - rewrite elem_of_cons, <- IH. destruct (String.eqb_spec (se_StepID se) id) as [<- | Hne].
    + split; [intros _; by left | intros _; by eexists].
    + split; [intros ?; by right | intros [? | ?]; [congruence | done]].
Qed.

Lemma findStep_nodup x se : NoDup (ids_of x) -> se ∈ ex_Steps x -> findStep x (se_StepID se) = Some se.
Proof.
  unfold findStep, ids_of. induction (ex_Steps x) as [|se' l IH]; simpl;
    [by intros _ ?%not_elem_of_nil |]. intros Hnd Hin. apply list.NoDup_cons in Hnd as [Hn Hnd].
  apply elem_of_cons in Hin as [-> | Hin]; [by rewrite String.eqb_refl |].
  rewrite (proj2 (String.eqb_neq _ _)); [by apply IH |]. intros Heq. apply Hn. rewrite Heq.
  by apply list_elem_of_fmap_2.
Qed.
End steps.

(** ** Traces *)

(** The attempts at one step, the executed steps, the compensated steps. *)
Fixpoint tries (id : string) (l : list call) : list Z :=
  match l with
  | [] => []
  | CExecute id' n :: l => if String.eqb id' id then n :: tries id l else tries id l
  | _ :: l => tries id l
  end.

Fixpoint execs (l : list call) : list string :=
  match l with [] => [] | CExecute id _ :: l => id :: execs l | _ :: l => execs l end.

Fixpoint comps (l : list call) : list string :=
  match l with [] => [] | CCompensate _ id :: l => id :: comps l | _ :: l => comps l end.

Lemma tries_app id l l' : tries id (l ++ l') = tries id l ++ tries id l'.
Proof. induction l as [|[] l IH]; simpl; rewrite ?IH; [done | by destruct (String.eqb _ _) | done ..]. Qed.
Lemma execs_app l l' : execs (l ++ l') = execs l ++ execs l'.
Proof. induction l as [|[] l IH]; simpl; rewrite ?IH; done. Qed.
Lemma comps_app l l' : comps (l ++ l') = comps l ++ comps l'.
Proof. induction l as [|[] l IH]; simpl; rewrite ?IH; done. Qed.

(** Calls a step's goroutine makes, and calls that are none of its business. *)
Definition own (id : string) (c : call) : Prop :=
  match c with CExecute id' _ => id' = id | CCompensate _ _ => False | _ => True end.
Definition foreign (id : string) (c : call) : Prop :=
  match c with CExecute id' _ => id' <> id | CCompensate _ _ => False | _ => True end.

Lemma foreign_tries id l : Forall (foreign id) l -> tries id l = [].
Proof.
  induction 1 as [|[] l Hc _ IH]; simpl in *; try done. by rewrite (proj2 (String.eqb_neq _ _) Hc).
Qed.

Lemma own_foreign id id' c : own id c -> id <> id' -> foreign id' c.
Proof. destruct c; simpl; intros; subst; done. Qed.

(** ** One goroutine among others *)

Section thread.
Context {V E : Type} `{EnvTime V E}.
Implicit Types s : shared (V := V) (E := E).

(** What a section of the step [id] may do, and what it tolerates from others. *)
Definition guar (id : string) s s' : Prop :=
  (exists l, s_log s' = s_log s ++ l /\ Forall (own id) l) /\
  ids_of (s_exec s') = ids_of (s_exec s) /\
  (forall id', id' <> id -> findStep (s_exec s') id' = findStep (s_exec s) id') /\
  vt (s_env s) <= vt (s_env s').

Definition rely (id : string) s s' : Prop :=
  (exists l, s_log s' = s_log s ++ l /\ Forall (foreign id) l) /\
  ids_of (s_exec s') = ids_of (s_exec s) /\
  findStep (s_exec s') id = findStep (s_exec s) id /\
  vt (s_env s) <= vt (s_env s').

Lemma guar_rely id id' s s' : id <> id' -> guar id s s' -> rely id' s s'.
Proof.
  intros Hne ((l & Hl & Hf) & Hi & Ho & Hv). split_and!; [| done | by apply Ho | done].
  exists l. split; [done |]. eapply Forall_impl; [| exact Hf]. intros c. intros Hc. by eapply own_foreign.
Qed.

#[export] Instance guar_preorder id : PreOrder (guar id).
Proof.
  split.
  - intros s. split_and!; try done. exists []. by rewrite app_nil_r.
  - intros s1 s2 s3 ((l & Hl & Hf) & Hi & Ho & Hv) ((l' & Hl' & Hf') & Hi' & Ho' & Hv').
    split_and!; [| congruence | | lia].
    + exists (l ++ l'). rewrite Hl', Hl, <- app_assoc. split; [done | by apply Forall_app].
    + intros id' Hne. by rewrite Ho', Ho.
Qed.

#[export] Instance rely_preorder id : PreOrder (rely id).
Proof.
  split.
  - intros s. split_and!; try done. exists []. by rewrite app_nil_r.
  - intros s1 s2 s3 ((l & Hl & Hf) & Hi & Ho & Hv) ((l' & Hl' & Hf') & Hi' & Ho' & Hv').
    split_and!; [| congruence | congruence | lia].
    exists (l ++ l'). rewrite Hl', Hl, <- app_assoc. split; [done | by apply Forall_app].
Qed.

Lemma rtc_preorder {A} (R : relation A) `{!PreOrder R} x y : rtc R x y -> R x y.
Proof. induction 1; [reflexivity | by etrans]. Qed.

(** What the goroutine of [id] knows: it has made the attempts [1 .. m] since the
    trace was [base], it is past [start], and its record satisfies [Q]; its completion time, if it has
    one, is not in the future. *)
Definition knows (id : string) (base : list Z) (start : time) (m : Z) (Q : StepExecution V -> Prop) s : Prop :=
  tries id (s_log s) = base ++ seqZ 1 m /\ (0 <= m /\ start <= vt (s_env s)) /\
  exists se, findStep (s_exec s) id = Some se /\ Q se /\
    forall t, se_CompletedAt se = Some t -> t <= vt (s_env s).

Lemma knows_rely id base start m Q s s' : knows id base start m Q s -> rely id s s' -> knows id base start m Q s'.
Proof.
  intros (Ht & [Hm Hst] & se & Hf & HQ & Hc) ((l & Hl & Hfo) & _ & Hs & Hv). split_and!; [| done | lia |].
  - by rewrite Hl, tries_app, (foreign_tries id l Hfo), app_nil_r.
  - exists se. rewrite Hs. split_and!; [done | done |]. intros t Hse. specialize (Hc t Hse). lia.
Qed.

Section rules.
Context (id : string) (base : list Z) (start : time) {A : Type} (post : A -> shared (V := V) (E := E) -> Prop).
Abbreviation thread m s := (rg (rely id) (guar id) m post s).

Lemma k_ret a m Q s :
  knows id base start m Q s -> (forall s', knows id base start m Q s' -> post a s') -> thread (Ret a) s.
Proof. intros Hk Hp s1 H1. apply Hp. eapply knows_rely; [done | by apply rtc_preorder; [apply _ |]]. Qed.

(** Any section that keeps the record and makes no attempt. *)
Lemma k_atom {R} (f : shared -> R * shared) (k : R -> prog shared A) m Q s :
  knows id base start m Q s ->
  (forall s1, knows id base start m Q s1 -> guar id s1 (f s1).2 /\ rely id s1 (f s1).2) ->
  (forall r s', knows id base start m Q s' -> thread (k r) s') ->
  thread (pbind (atom f) k) s.
Proof.
  intros Hk Hg Hn s1 H1 r s2 Hf. apply rtc_preorder in H1; [| apply _].
  pose proof (knows_rely _ _ _ _ _ _ _ Hk H1) as Hk1. destruct (Hg s1 Hk1) as [Hg1 Hr1].
  rewrite Hf in Hg1, Hr1. split; [done |]. apply Hn. by eapply knows_rely.
Qed.

Lemma both_env s e l :
  vt (s_env s) <= vt e -> Forall (own id) l -> Forall (foreign id) l ->
  forall s', s_env s' = e -> s_exec s' = s_exec s -> s_log s' = s_log s ++ l ->
  guar id s s' /\ rely id s s'.
Proof.
  intros Hv Ho Hf s' He Hx Hl. unfold guar, rely. rewrite He, Hx, Hl.
  split; split_and!; try done; by exists l.
Qed.

Lemma k_ask {R} (f : E -> R * E) (k : R -> prog shared A) m Q s :
  knows id base start m Q s -> (forall e, vt e <= vt (f e).2) ->
  (forall r s', knows id base start m Q s' -> thread (k r) s') -> thread (pbind (ask f) k) s.
Proof.
  intros Hk Hv Hn. eapply k_atom; [done | | done]. intros s1 _. specialize (Hv (s_env s1)).
  destruct (f (s_env s1)) as [r e]. eapply (both_env s1 e []); simpl; rewrite ?app_nil_r; done.
Qed.

(** A reading of the clock. *)
Lemma k_now (k : time -> prog shared A) m Q s :
  knows id base start m Q s ->
  (forall now s', knows id base start m Q s' -> start < now -> now <= vt (s_env s') -> thread (k now) s') ->
  thread (pbind (ask Now) k) s.
Proof.
  intros Hk Hn s1 H1 r s2. apply rtc_preorder in H1; [| apply _].
  pose proof (knows_rely _ _ _ _ _ _ _ Hk H1) as Hk1. pose proof (vt_Now (s_env s1)) as Hv.
  destruct (Now (s_env s1)) as [now e]. simpl in Hv. intros [= <- <-].
  assert (guar id s1 (put_env e s1) /\ rely id s1 (put_env e s1)) as [Hg Hr].
  { eapply (both_env s1 e []); simpl; rewrite ?app_nil_r; (done || lia). }
  split; [done |]. apply Hn; [by eapply knows_rely | | simpl; lia].
  destruct Hk1 as (_ & [_ ?] & _). lia.
Qed.

Lemma k_canceled err (k : option pl_error -> prog shared A) m Q s :
  knows id base start m Q s ->
  (forall r s', knows id base start m Q s' -> thread (k r) s') ->
  thread (pbind (if errors_is err ContextCanceled then Ret (Some err) else ask ctx_Err) k) s.
Proof.
  intros Hk Hn. destruct (errors_is err ContextCanceled); [by apply Hn |].
  eapply k_ask; [done | apply vt_ctx_Err | done].
Qed.

Lemma k_tell {R} c (f : E -> R * E) (k : R -> prog shared A) m Q s :
  knows id base start m Q s -> own id c -> foreign id c -> (forall e, vt e <= vt (f e).2) ->
  (forall r s', knows id base start m Q s' -> thread (k r) s') -> thread (pbind (tell c f) k) s.
Proof.
  intros Hk Ho Hf Hv Hn. eapply k_atom; [done | | done]. intros s1 _. specialize (Hv (s_env s1)).
  destruct (f (s_env s1)) as [r e]. eapply (both_env s1 e [c]); simpl; by repeat constructor.
Qed.

Lemma k_record err (k : unit -> prog shared A) m Q s :
  knows id base start m Q s -> (forall r s', knows id base start m Q s' -> thread (k r) s') ->
  thread (pbind (record err) k) s.
Proof.
  intros Hk Hn. destruct err as [e|]; [| by apply Hn]. unfold record. eapply k_atom; [done | | done].
  intros s1 _. destruct (s_errs s1) as [count first].
  eapply (both_env s1 (s_env s1) []); simpl; rewrite ?app_nil_r; done.
Qed.

Lemma k_read {R} (f : Execution V -> R) (k : R -> prog shared A) m Q s :
  knows id base start m Q s -> (forall r s', knows id base start m Q s' -> thread (k r) s') ->
  thread (pbind (read_exec f) k) s.
Proof.
  intros Hk Hn. eapply k_atom; [done | | done]. intros s1 _.
  eapply (both_env s1 (s_env s1) []); simpl; rewrite ?app_nil_r; done.
Qed.

Lemma k_current (k : unit -> prog shared A) m Q s :
  knows id base start m Q s -> (forall r s', knows id base start m Q s' -> thread (k r) s') ->
  thread (pbind (on_exec (set_current id)) k) s.
Proof.
  intros Hk Hn. eapply k_atom; [done | | done]. intros s1 _. unfold guar, rely. simpl.
  split; split_and!; try done; exists []; by rewrite app_nil_r.
Qed.

(** An attempt. *)
Lemma k_execute attempt (k : unit -> prog shared A) m Q s :
  knows id base start m Q s -> attempt = m + 1 ->
  (forall r s', knows id base start (m + 1) Q s' -> thread (k r) s') ->
  thread (pbind (tell (CExecute id attempt) (fun e => (tt, e))) k) s.
Proof.
  intros Hk -> Hn s1 H1 r s2 [= <- <-]. apply rtc_preorder in H1; [| apply _].
  destruct (knows_rely _ _ _ _ _ _ _ Hk H1) as (Ht & [Hm Hst] & Hse). split.
  - unfold guar. simpl. split_and!; try done. exists [CExecute id (m + 1)]. split; [done | by repeat constructor].
  - apply Hn. split_and!; [| lia | exact Hst | exact Hse]. simpl. rewrite tries_app, Ht. simpl.
    rewrite String.eqb_refl, seqZ_app, <- app_assoc by lia. do 2 f_equal.
    change (seqZ (1 + m) 1) with [Z.of_nat 0 + (1 + m)]. f_equal. lia.
Qed.

(** A write to the record under the lock. *)
Lemma k_touch (f : time -> time -> StepExecution V -> StepExecution V)
    (k : option (StepExecution V) -> prog shared A) m Q (Q' : StepExecution V -> Prop) s t0 :
  knows id base start m Q s -> vt (s_env s) = t0 ->
  (forall now now' se, se_StepID (f now now' se) = se_StepID se) ->
  (forall now now' se, Q se -> t0 < now -> now < now' -> Q' (f now now' se)) ->
  (forall now now' se t, Q se -> now < now' -> se_CompletedAt (f now now' se) = Some t ->
     t <= now' \/ se_CompletedAt se = Some t \/ t <= t0) ->
  (forall se s', Q' se -> se_StepID se = id -> knows id base start m Q' s' -> thread (k (Some se)) s') ->
  thread (pbind (touch id f) k) s.
Proof.
  intros Hk Ht0 Hid HQ Hc Hn s1 H1 r s2. apply rtc_preorder in H1; [| apply _].
  assert (t0 <= vt (s_env s1)) as Ht1 by (destruct H1 as (_ & _ & _ & ?); lia).
  destruct (knows_rely _ _ _ _ _ _ _ Hk H1) as (Ht & [Hm Hst] & se & Hf & Hse & Hct). unfold touch.
  rewrite Hf. pose proof (vt_Now (s_env s1)) as Hn1. destruct (Now (s_env s1)) as [now e1].
  pose proof (vt_Now e1) as Hn2. destruct (Now e1) as [now' e2]. simpl in Hn1, Hn2. intros [= <- <-].
  destruct (findStep_id _ _ _ Hf) as [Hsid _]. split.
  - unfold guar. simpl. split_and!; [exists []; by rewrite app_nil_r | | | lia].
    + unfold ids_of. simpl. by apply update_ids.
    + intros id' Hne. unfold findStep. simpl. apply find_update_ne; [done | congruence].
  - apply Hn; [apply HQ; [done | lia | lia] | by rewrite Hid |]. split_and!; [done | done | simpl; lia |].
    exists (f now now' se). split_and!.
    + unfold findStep in *. simpl. rewrite find_update_eq by done. by rewrite Hf.
    + apply HQ; [done | lia | lia].
    + intros t Hse'. simpl. destruct (Hc now now' se t Hse ltac:(lia) Hse') as [? | [Hold | ?]]; [lia | | lia].
      specialize (Hct t Hold). lia.
Qed.

Lemma k_persist c se (k : option pl_error -> prog shared A) m Q s :
  knows id base start m Q s -> (forall r s', knows id base start m Q s' -> thread (k r) s') ->
  thread (pbind (persist c (Some se)) k) s.
Proof. intros Hk Hn. eapply k_tell; [done | done | done | apply vt_SaveStep | done]. Qed.

Lemma k_mark_attempt c def status msg attempt (k : unit -> prog shared A) m Q (Q' : StepExecution V -> Prop) s :
  id = sd_ID def -> knows id base start m Q s ->
  (forall now now' se, Q se -> Q' (marked_attempt status msg attempt now now' se)) ->
  (forall r s', knows id base start m Q' s' -> thread (k r) s') ->
  thread (pbind (markStepAttempt c def status msg attempt) (fun r => pbind (record r) k)) s.
Proof.
  intros Hid Hk HQ Hn. unfold markStepAttempt. rewrite <- Hid.
  eapply (k_touch (marked_attempt status msg attempt)
    (fun snap => pbind (persist c snap) (fun r => pbind (record r) k))); [done | reflexivity | done | | |].
  - intros now now' se Hse _ _. by apply HQ.
  - intros now now' se t _ _. simpl. destruct (bool_decide _); [intros [= <-]; left; lia | right; by left].
  - intros se s' _ _ Hk'. eapply k_persist; [done |]. intros r s2 Hk2. by eapply k_record.
Qed.

Lemma k_mark c status msg (k : unit -> prog shared A) m Q (Q' : StepExecution V -> Prop) s :
  knows id base start m Q s ->
  (forall now se, Q se -> Q' (marked status msg now se)) ->
  (forall r s', knows id base start m Q' s' -> thread (k r) s') ->
  thread (pbind (markStep c id status msg) (fun r => pbind (record r) k)) s.
Proof.
  intros Hk HQ Hn. unfold markStep.
  eapply (k_touch (fun now _ => marked status msg now)
    (fun snap => pbind (persist c snap) (fun r => pbind (record r) k))); [done | reflexivity | done | | |].
  - intros now now' se Hse _ _. by apply HQ.
  - intros now now' se t _ ?. simpl. destruct (_ || _)%bool; [intros [= <-]; left; lia | right; by left].
  - intros se s' _ _ Hk'. eapply k_persist; [done |]. intros r s2 Hk2. by eapply k_record.
Qed.
End rules.

(** ** The step *)

Definition completed_after (start : time) (se : StepExecution V) : Prop :=
  se_Status se = StepStatusCompleted /\ exists t, se_CompletedAt se = Some t /\ start < t.
Definition failed_step (se : StepExecution V) : Prop := se_Status se = StepStatusFailed.
Definition any_step (se : StepExecution V) : Prop := True.

(** What a goroutine leaves: after at most [max] attempts, its record COMPLETED
    if it answers no error, FAILED if it answers one. *)
Definition step_post (id : string) (base : list Z) (start : time) (max : Z)
    (r : option pl_error) s : Prop :=
  match r with
  | None => exists m, 1 <= m <= max /\ knows id base start m (completed_after start) s
  | Some _ => exists m, 0 <= m <= max /\ knows id base start m failed_step s
  end.

Lemma thread_success p def attempt result base start max m Q s :
  1 <= m <= max -> knows (sd_ID def) base start m Q s ->
  rg (rely (sd_ID def)) (guar (sd_ID def))
    (pbind (recordSuccess p def attempt result) (fun r => pbind (record r) (fun _ => Ret None)))
    (step_post (sd_ID def) base start max) s.
Proof.
  intros Hm Hk. unfold recordSuccess. apply rg_assoc.
  eapply k_now; [done |]. intros now s1 Hk1 Hlt Hle. apply rg_assoc.
  eapply (k_touch _ _ _ _ _ _ m Q (completed_after start)); [done | reflexivity | done | | |].
  - intros n1 n2 se _ _ _. split; [done |]. by exists now.
  - intros n1 n2 se t _ _ [= <-]. by right; right.
  - intros se s2 _ _ Hk2. apply rg_assoc. eapply k_persist; [done |].
    intros saveErr s3 Hk3. apply rg_assoc. eapply k_read; [done |].
    intros x s4 Hk4. apply rg_assoc. eapply k_tell; [done | done | done | apply vt_Publish |].
    intros _ s5 Hk5.
    assert (forall s6, knows (sd_ID def) base start m (completed_after start) s6 ->
      rg (rely (sd_ID def)) (guar (sd_ID def)) (pbind (record saveErr) (fun _ => Ret None))
        (step_post (sd_ID def) base start max) s6) as Hend.
    { intros s6 Hk6. eapply k_record; [done |]. intros _ s7 Hk7. eapply k_ret; [done |].
      intros s8 Hk8. by exists m. }
    destruct (isDeployStep (sd_Type def) && negb (String.eqb (sr_Endpoint result) "")); [| by apply Hend].
    apply rg_assoc. eapply k_tell; [done | done | done | apply vt_Publish |].
    intros _ s6 Hk6. by apply Hend.
Qed.

(** The retry loop, with [n] attempts left. *)
Lemma thread_attempts n p def attempt lastErr base start m Q s :
  attempt = m + 1 -> m + Z.of_nat n = Z.max 0 (sd_MaxRetries def + 1) ->
  knows (sd_ID def) base start m Q s ->
  rg (rely (sd_ID def)) (guar (sd_ID def)) (attempts n p def attempt lastErr)
    (step_post (sd_ID def) base start (Z.max 0 (sd_MaxRetries def + 1))) s.
Proof.
  revert attempt lastErr m Q s. induction n as [|n IH]; intros attempt lastErr m Q s Ha Hmax Hk; cbn [attempts].
  - eapply (k_mark_attempt _ _ _ _ _ _ _ _ _ _ _ _ failed_step); [done | done | done |]. intros _ s1 Hk1.
    eapply k_read; [done |]. intros x s2 Hk2. eapply k_ask; [done | |].
    { intros e. pose proof (vt_Now e). lia. }
    intros now s3 Hk3. eapply k_tell; [done | done | done | apply vt_Publish |]. intros _ s4 Hk4.
    eapply k_ret; [done |]. intros s5 Hk5. exists m. split; [| done].
    destruct Hk5 as (_ & [? _] & _). lia.
  - eapply k_ask; [done | apply vt_ctx_Err |]. intros cerr s1 Hk1. destruct cerr as [e|].
    { eapply (k_mark_attempt _ _ _ _ _ _ _ _ _ _ _ _ failed_step); [done | done | done |]. intros _ s2 Hk2.
      eapply k_ret; [done |]. intros s3 Hk3. exists m. split; [| done].
      destruct Hk3 as (_ & [? _] & _). lia. }
    eapply (k_mark_attempt _ _ _ _ _ _ _ _ _ _ _ _ any_step); [done | done | done |]. intros _ s2 Hk2.
    eapply k_read; [done |]. intros i s3 Hk3.
    eapply k_execute; [done | done |]. intros _ s4 Hk4.
    eapply k_ask; [done | intros e; apply vt_Execute |]. intros res s5 Hk5.
    destruct res as [result | err].
    + eapply thread_success; [| done]. destruct Hk as (_ & [? _] & _). lia.
    + eapply k_canceled; [done |]. intros cerr s6 Hk6. destruct (is_canceled cerr).
      * eapply (k_mark_attempt _ _ _ _ _ _ _ _ _ _ _ _ failed_step); [done | done | done |].
        intros _ s7 Hk7. eapply k_ret; [done |]. intros s8 Hk8. exists (m + 1). split; [| done].
        destruct Hk as (_ & [? _] & _). lia.
      * apply (IH _ _ (m + 1) any_step); [lia | lia | done].
Qed.

Definition max_attempts (def : StepDefinition V) : Z := Z.max 0 (sd_MaxRetries def + 1).

Lemma thread_step p def base start Q s :
  knows (sd_ID def) base start 0 Q s ->
  rg (rely (sd_ID def)) (guar (sd_ID def)) (runOneStep p def)
    (step_post (sd_ID def) base start (max_attempts def)) s.
Proof.
  intros Hk. unfold runOneStep. eapply k_current; [done |]. intros _ s1 Hk1.
  destruct (Executor (sd_Type def)); cbn [negb].
  - apply (thread_attempts _ _ _ _ _ _ _ 0 Q); [lia | lia | done].
  - eapply (k_mark _ _ _ _ _ _ _ _ _ _ failed_step); [done | done |]. intros _ s2 Hk2.
    eapply k_ret; [done |]. intros s3 Hk3. exists 0. split; [unfold max_attempts; lia | done].
Qed.

(** The step alone. *)
Lemma rg_run {A} (R G : shared -> shared -> Prop) (m : prog shared A) (post : A -> shared -> Prop) s :
  PreOrder G -> rg R G m post s -> post (run m s).1 (run m s).2 /\ G s (run m s).2.
Proof.
  intros HG. revert s. induction m as [a | T f k IH]; intros s Hm; simpl.
  - split; [by apply (Hm s) | reflexivity].
  - destruct (f s) as [r s'] eqn:Ef. destruct (Hm s ltac:(reflexivity) r s' Ef) as [Hg Hr].
    destruct (IH r s' Hr) as [H1 H2]. split; [done | by etrans].
Qed.

Lemma run_step_alone p def start Q s :
  (exists se, findStep (s_exec s) (sd_ID def) = Some se /\ Q se /\
     forall t, se_CompletedAt se = Some t -> t <= vt (s_env s)) ->
  start <= vt (s_env s) ->
  let '(r, s') := run (runOneStep p def) s in
  step_post (sd_ID def) (tries (sd_ID def) (s_log s)) start (max_attempts def) r s' /\
  guar (sd_ID def) s s'.
Proof.
  intros Hse Hst. pose proof (thread_step p def (tries (sd_ID def) (s_log s)) start Q s) as Ht.
  destruct (rg_run (rely (sd_ID def)) (guar (sd_ID def)) (runOneStep p def)
    (step_post (sd_ID def) (tries (sd_ID def) (s_log s)) start (max_attempts def)) s) as [H1 H2].
  - apply _.
  - apply Ht. split; [by rewrite app_nil_r | done].
  - by destruct (run (runOneStep p def) s).
Qed.
End thread.

