(* ===== verification/PipelineDag.v ===== *)
(** * DAG executions: dependency order under every interleaving

    [runStepsDAG] of [PipelineRun] on a valid pipeline: levels one after the other,
    the steps of a level as concurrent goroutines; and an environment on which the theorems
    run. *)

From S2P Require Import Prelude Concur PipelineGraph PipelineRun PipelineSteps.
Open Scope fp_scope.

(** ** Looking a step up *)

Section lookup.
Context {V : Type}.
Implicit Types steps : list (StepDefinition V).

Lemma stepByID_lookup steps id def :
  NoDup (step_ids steps) -> stepByID steps !! id = Some def <-> def ∈ steps /\ sd_ID def = id.
Proof.
  unfold stepByID. induction steps as [|st steps IH] using rev_ind; intros Hnd; simpl.
  - rewrite lookup_empty. split; [done | by intros [?%not_elem_of_nil _]].
  - unfold step_ids in *. rewrite map_app in Hnd. apply list.NoDup_app in Hnd as (Hnd & Hd & _).
    rewrite foldl_app. simpl. destruct (decide (sd_ID st = id)) as [<- | Hne].
    + rewrite lookup_insert_eq. split.
      * intros [= ->]. split; [apply elem_of_app; right; by left | done].
      * intros [Hin Heq]. apply elem_of_app in Hin as [Hin | Hin].
        -- exfalso. apply (Hd (sd_ID st)); [rewrite <- Heq; by apply list_elem_of_fmap_2 | by left].
        -- apply list_elem_of_singleton in Hin. by subst.
    + rewrite lookup_insert_ne, IH by done. rewrite elem_of_app, list_elem_of_singleton.
      split; [tauto | by intros [[? | ->] ?]].
Qed.

Lemma stepByID_known steps id :
  NoDup (step_ids steps) -> id ∈ step_ids steps ->
  exists def, stepByID steps !! id = Some def /\ def ∈ steps /\ sd_ID def = id.
Proof.
  intros Hnd Hid. apply list_elem_of_fmap in Hid as (def & -> & Hin). exists def.
  split; [by apply stepByID_lookup | done].
Qed.

Lemma deps_of_step steps def :
  NoDup (step_ids steps) -> def ∈ steps ->
  forall d, d ∈ deps_of steps (sd_ID def) <-> d ∈ sd_DependsOn def.
Proof.
  intros Hnd Hin d. rewrite deps_of_elem. split; [| by exists def].
  intros (st & Hst & Heq & Hd). replace def with st; [done |].
  assert (stepByID steps !! sd_ID def = Some st) as H1 by by apply stepByID_lookup.
  assert (stepByID steps !! sd_ID def = Some def) as H2 by by apply stepByID_lookup.
  congruence.
Qed.
End lookup.

(** ** Order in a trace *)

(** In [l] every attempt at [x] comes before every attempt at [y]. *)
Definition before (l : list call) (x y : string) : Prop :=
  exists l1 l2, l = l1 ++ l2 /\ y ∉ execs l1 /\ x ∉ execs l2.

Lemma before_app l l' x y : before l x y -> x ∉ execs l' -> before (l ++ l') x y.
Proof.
  intros (l1 & l2 & -> & Hy & Hx) Hx'. exists l1, (l2 ++ l').
  rewrite <- app_assoc, execs_app. split; [done |]. split; [done |]. rewrite elem_of_app. tauto.
Qed.

Lemma execs_tries id l : tries id l <> [] -> id ∈ execs l.
Proof.
  induction l as [|[id' n | | | |] l IH]; simpl; try done.
  destruct (String.eqb_spec id' id) as [-> | Hne]; [by left | right; by apply IH].
Qed.

Section dag.
Context {V E : Type} `{EnvTime V E}.
Context (p : PipelineDefinition V).
Hypothesis valid : valid_graph (pd_Steps p).
Implicit Types s : shared (V := V) (E := E).

Abbreviation steps := (pd_Steps p).
Abbreviation ids := (step_ids steps).
Abbreviation deps := (deps_of steps).

(** ** Marking a level *)

(** Sections that make no attempt and no compensation and write only records of [D]. *)
Definition writes_only (D : list string) s s' : Prop :=
  (exists l, s_log s' = s_log s ++ l /\ execs l = [] /\ comps l = []) /\
  ids_of (s_exec s') = ids_of (s_exec s) /\
  (forall id, id ∉ D -> findStep (s_exec s') id = findStep (s_exec s) id) /\
  vt (s_env s) <= vt (s_env s').

Lemma writes_refl D s : writes_only D s s.
Proof. split_and!; try done. exists []. by rewrite app_nil_r. Qed.

Lemma writes_trans D D' s1 s2 s3 : writes_only D s1 s2 -> writes_only D' s2 s3 -> writes_only (D ++ D') s1 s3.
Proof.
  intros ((l & Hl & Hx & Hc) & Hi & Ho & Hv) ((l' & Hl' & Hx' & Hc') & Hi' & Ho' & Hv').
  split_and!; [| congruence | | lia].
  - exists (l ++ l'). rewrite Hl', Hl, <- app_assoc, execs_app, comps_app, Hx, Hx', Hc, Hc'. done.
  - intros id Hid. rewrite elem_of_app in Hid. rewrite Ho', Ho by tauto. done.
Qed.

Lemma writes_weaken D D' s s' : writes_only D s s' -> (forall x, x ∈ D -> x ∈ D') -> writes_only D' s s'.
Proof. intros (Hl & Hi & Ho & Hv) Hs. split_and!; try done. intros id Hid. apply Ho. intros Hx. by apply Hid, Hs. Qed.

(** [markStep] and the recording of its error. *)
Lemma run_mark c id status msg s :
  let s' := (run (do! r := markStep c id status msg in record r) s).2 in
  writes_only [id] s s' /\
  forall se, findStep (s_exec s) id = Some se -> exists now,
    findStep (s_exec s') id = Some (marked status msg now se) /\ now <= vt (s_env s').
Proof.
  unfold markStep, touch. rewrite !run_bind, run_atom.
  destruct (findStep (s_exec s) id) as [se|] eqn:Ef.
  - pose proof (vt_Now (s_env s)) as H1. destruct (Now (s_env s)) as [now e1].
    pose proof (vt_Now e1) as H2. destruct (Now e1) as [now' e2]. simpl in H1, H2.
    unfold persist, tell. rewrite run_atom. cbn [s_env put_exec put_env].
    match goal with |- context [SaveStep ?c ?se ?e] =>
      pose proof (vt_SaveStep c se e) as H3; destruct (SaveStep c se e) as [r e3] end. simpl in H3.
    match goal with |- context [run (record r) ?s0] =>
      assert (exists errs, (run (record r) s0).2 = {| s_env := s_env s0; s_exec := s_exec s0;
        s_errs := errs; s_log := s_log s0 |}) as [errs ->] end.
    { destruct r as [err|]; [| by eexists]. simpl. destruct (s_errs s). by eexists. }
    cbn. split.
    + split_and!.
      * eexists. split; [done |]. done.
      * unfold ids_of. simpl. by apply update_ids.
      * intros id' Hid'. unfold findStep. simpl. apply find_update_ne; [done |].
        intros ->. apply Hid'. by left.
      * simpl. lia.
    + intros se' [= <-]. exists now. split; [| simpl; lia].
      unfold findStep in *. simpl. rewrite find_update_eq by done. by rewrite Ef.
  - cbn. split; [apply writes_refl | done].
Qed.

Lemma run_mark_bind {A} c id status msg (k : prog (shared (V := V) (E := E)) A) s :
  run (do! r := markStep c id status msg in do! _ := record r in k) s =
  run k (run (do! r := markStep c id status msg in record r) s).2.
Proof.
  rewrite !run_bind. destruct (run (markStep c id status msg) s) as [r s1].
  rewrite run_bind. by destruct (run (record r) s1) as [[] s2].
Qed.

Lemma anyParentFailed_insert id x (failed : gset string) :
  (forall def, stepByID steps !! id = Some def -> x ∉ sd_DependsOn def) ->
  anyParentFailed p id ({[x]} ∪ failed) = anyParentFailed p id failed.
Proof.
  unfold anyParentFailed. destruct (stepByID steps !! id) as [def|]; [| done]. intros Hx.
  specialize (Hx def eq_refl). induction (sd_DependsOn def) as [|d ds IH]; simpl; [done |].
  apply not_elem_of_cons in Hx as [Hne Hx]. rewrite IH by done. f_equal.
  apply bool_decide_ext. rewrite elem_of_union, elem_of_singleton. intuition congruence.
Qed.

(** The first loop over a level: with the parents outside the level, it keeps the
    steps without a failed parent and marks the others SKIPPED. *)
Lemma run_mark_level level failed s :
  NoDup level ->
  (forall id def, id ∈ level -> stepByID steps !! id = Some def ->
     forall d, d ∈ sd_DependsOn def -> d ∉ level) ->
  let bad := filter (fun id => anyParentFailed p id failed = true) level in
  let '(r, s') := run (mark_level p level failed) s in
  r.1 = filter (fun id => anyParentFailed p id failed = false) level /\
  (forall x, x ∈ r.2 <-> x ∈ failed \/ x ∈ bad) /\
  writes_only bad s s' /\
  (forall id se, id ∈ bad -> findStep (s_exec s) id = Some se ->
     exists se', findStep (s_exec s') id = Some se' /\ se_Status se' = StepStatusSkipped).
Proof.
  revert failed s. induction level as [|id level IH]; intros failed s Hnd Hdeps bad; cbn [mark_level].
  - simpl. split; [done |]. split; [| split; [apply writes_refl | by intros ? ? ?%not_elem_of_nil]].
    intros x. split; [by left | by intros [? | ?%not_elem_of_nil]].
  - apply list.NoDup_cons in Hnd as [Hn Hnd].
    assert (forall id' def, id' ∈ level -> stepByID steps !! id' = Some def ->
      forall d, d ∈ sd_DependsOn def -> d ∉ id :: level) as Hd'
      by (intros id' def Hid'; apply Hdeps; by right).
    assert (forall id' def, id' ∈ level -> stepByID steps !! id' = Some def ->
      forall d, d ∈ sd_DependsOn def -> d ∉ level) as Hd''
      by (intros id' def Hid' Hl d Hd Hin; apply (Hd' id' def Hid' Hl d Hd); by right).
    unfold bad. rewrite !filter_cons. destruct (anyParentFailed p id failed) eqn:Ef.
    + rewrite run_mark_bind, decide_False, decide_True by done.
      destruct (run_mark DetachedCtx id StepStatusSkipped (Plain "") s) as [Hw1 Hm1].
      set (s1 := (run _ s).2) in *.
      specialize (IH ({[id]} ∪ failed) s1 Hnd Hd''). cbv zeta in IH.
      assert (forall id', id' ∈ level -> anyParentFailed p id' ({[id]} ∪ failed) = anyParentFailed p id' failed)
        as Hany.
      { intros id' Hid'. apply anyParentFailed_insert. intros def Hl Hin.
        apply (Hd' id' def Hid' Hl id Hin). by left. }
      rewrite (list_filter_iff' (fun id0 => anyParentFailed p id0 ({[id]} ∪ failed) = true)
        (fun id0 => anyParentFailed p id0 failed = true) level) in IH
        by (intros id' Hid'; by rewrite Hany).
      rewrite (list_filter_iff' (fun id0 => anyParentFailed p id0 ({[id]} ∪ failed) = false)
        (fun id0 => anyParentFailed p id0 failed = false) level) in IH
        by (intros id' Hid'; by rewrite Hany).
      destruct (run (mark_level p level ({[id]} ∪ failed)) s1) as [r s'].
      destruct IH as (H1 & H2 & H3 & H4). split; [done |]. split; [| split].
      * intros x. rewrite H2, elem_of_union, elem_of_singleton, elem_of_cons. tauto.
      * eapply writes_weaken; [by eapply writes_trans |]. done.
      * intros id' se Hid' Hf. destruct H3 as (_ & _ & Ho & _). destruct Hw1 as (_ & _ & Ho1 & _).
        destruct (decide (id' ∈ filter (fun id0 => anyParentFailed p id0 failed = true) level)) as [Hin | Hin].
        -- apply (H4 id' se Hin). rewrite Ho1; [done |]. intros ->%list_elem_of_singleton.
           apply list_elem_of_filter in Hin as [_ ?]. done.
        -- apply elem_of_cons in Hid' as [-> | ?]; [| done].
           destruct (Hm1 se Hf) as (now & Hm & _). rewrite Ho by done. by eexists.
    + rewrite run_bind, decide_True, decide_False by done.
      specialize (IH failed s Hnd Hd''). cbv zeta in IH.
      destruct (run (mark_level p level failed) s) as [[run' failed'] s']. simpl in *.
      destruct IH as (-> & H2 & H3 & H4). done.
Qed.

(** ** A level *)

Lemma own_execs id l : Forall (own id) l -> (forall x, x ∈ execs l -> x = id) /\ comps l = [].
Proof.
  induction 1 as [|[] l Hc _ [IH1 IH2]]; simpl in *; split; try done;
    [by intros ? ?%not_elem_of_nil |]. intros x [-> | ?]%elem_of_cons; auto.
Qed.

(** What the goroutines of [level] do together. *)
Definition level_guar (level : list string) s s' : Prop :=
  (exists l, s_log s' = s_log s ++ l /\ (forall x, x ∈ execs l -> x ∈ level) /\ comps l = []) /\
  ids_of (s_exec s') = ids_of (s_exec s) /\
  (forall id, id ∉ level -> findStep (s_exec s') id = findStep (s_exec s) id) /\
  vt (s_env s) <= vt (s_env s').

#[local] Instance level_guar_preorder level : PreOrder (level_guar level).
Proof.
  split.
  - intros s. split_and!; try done. exists []. rewrite app_nil_r.
    split; [done |]. split; [by intros ? ?%not_elem_of_nil | done].
  - intros s1 s2 s3 ((l & Hl & Hx & Hc) & Hi & Ho & Hv) ((l' & Hl' & Hx' & Hc') & Hi' & Ho' & Hv').
    split_and!; [| congruence | | lia].
    + exists (l ++ l'). rewrite Hl', Hl, <- app_assoc, execs_app, comps_app, Hc, Hc'.
      split; [done |]. split; [| done]. intros x [? | ?]%elem_of_app; auto.
    + intros id Hid. by rewrite Ho', Ho.
Qed.

Lemma writes_level D level s s' : (forall x, x ∈ D -> x ∈ level) -> writes_only D s s' -> level_guar level s s'.
Proof.
  intros HD ((l & Hl & Hx & Hc) & Hi & Ho & Hv). split_and!; [| done | | done].
  - exists l. rewrite Hx. split; [done |]. split; [by intros ? ?%not_elem_of_nil | done].
  - intros id Hid. apply Ho. intros HD'. by apply Hid, HD.
Qed.

Lemma guar_level id level s s' : id ∈ level -> guar id s s' -> level_guar level s s'.
Proof.
  intros Hin ((l & Hl & Hf) & Hi & Ho & Hv). destruct (own_execs id l Hf) as [H1 H2].
  split_and!; [| done | | done].
  - exists l. split; [done |]. split; [| done]. intros x Hx. by rewrite (H1 x Hx).
  - intros id' Hid'. apply Ho. by intros ->.
Qed.

(** The goroutines of a level, in any interleaving: each leaves what it would
    leave alone. *)
Lemma run_level runnable s results s' :
  NoDup runnable -> (forall id, id ∈ runnable -> id ∈ ids) ->
  (forall id, id ∈ runnable -> exists se, findStep (s_exec s) id = Some se /\
     forall t, se_CompletedAt se = Some t -> t <= vt (s_env s)) ->
  par (map (step_thread p) runnable) s results s' ->
  length results = length runnable /\ level_guar runnable s s' /\
  forall i id def r, runnable !! i = Some id -> results !! i = Some r -> stepByID steps !! id = Some def ->
    step_post id (tries id (s_log s)) (vt (s_env s)) (max_attempts def) r s'.
Proof.
  intros Hnd Hids Hse Hp. destruct valid as [_ Hn _ _ _].
  set (rel := fun i => match runnable !! i with Some id => rely id | None => fun _ _ => True end).
  set (gu := fun i => match runnable !! i with Some id => guar id | None => fun _ _ => True end).
  set (po := fun i (r : option pl_error) s2 => match runnable !! i with
    | Some id => forall def, stepByID steps !! id = Some def ->
        step_post id (tries id (s_log s)) (vt (s_env s)) (max_attempts def) r s2
    | None => True end).
  destruct (par_rg _ s results s' rel gu po Hp) as (H1 & H2 & H3).
  - intros i m Hi. rewrite list_lookup_fmap in Hi. unfold rel, gu, po.
    destruct (runnable !! i) as [id|] eqn:Er; [| done]. injection Hi as <-.
    assert (id ∈ runnable) as Hin by by eapply list_elem_of_lookup_2.
    destruct (stepByID_known steps id Hn (Hids id Hin)) as (def & Hd & _ & <-).
    unfold step_thread. rewrite Hd.
    eapply rg_weaken; [apply (thread_step p def (tries (sd_ID def) (s_log s)) (vt (s_env s)) any_step) | done |].
    + split; [by rewrite app_nil_r |]. split; [done |]. destruct (Hse _ Hin) as (se & Hf & Hc).
      by exists se.
    + intros r s2 Hpost def' Hd'. assert (def' = def) as -> by congruence. exact Hpost.
  - intros i j s1 s2 Hi Hj Hij. unfold gu, rel. rewrite length_map in Hi, Hj.
    apply lookup_lt_is_Some in Hi as [idi Hi], Hj as [idj Hj]. rewrite Hi, Hj.
    apply guar_rely. intros ->. apply Hij. by apply (NoDup_lookup runnable i j idj).
  - rewrite length_map in H3. split; [done |]. split.
    + clear H1 H3 Hse Hp. induction H2 as [s | s s1 s2 (i & Hi & Hg) _ IH]; [reflexivity |].
      etrans; [| exact IH]. rewrite length_map in Hi. apply lookup_lt_is_Some in Hi as [id Hi].
      unfold gu in Hg. rewrite Hi in Hg. eapply guar_level; [by eapply list_elem_of_lookup_2 | exact Hg].
    + intros i id def r Hi Hr Hd. specialize (H1 i r Hr). unfold po in H1. rewrite Hi in H1. by apply H1.
Qed.

Lemma collect_spec runnable results (failed : gset string) x :
  length results = length runnable ->
  x ∈ collect runnable results failed <->
  x ∈ failed \/ exists i e, runnable !! i = Some x /\ results !! i = Some (Some e).
Proof.
  unfold collect. revert results failed. induction runnable as [|id runnable IH]; intros [|r results] failed Hlen;
    try done; simpl.
  - split; [by left | intros [? | (i & e & Hi & _)]; [done | by rewrite lookup_nil in Hi]].
  - rewrite IH by (simpl in Hlen; lia). split.
    + intros [Hx | (i & e & Hi & Hr)]; [| right; by exists (S i), e].
      destruct r as [e|]; [| by left]. apply elem_of_union in Hx as [->%elem_of_singleton | ?]; [| by left].
      right. by exists 0%nat, e.
    + intros [Hx | ([|i] & e & Hi & Hr)].
      * left. destruct r; [by apply elem_of_union_r | done].
      * simpl in Hi, Hr. injection Hi as ->. injection Hr as ->. left. apply elem_of_union_l. by apply elem_of_singleton.
      * right. by exists i, e.
Qed.

(** ** The invariant between levels *)

Section invariant.
(** The state the levels start in: a fresh execution, nothing of it called yet. *)
Context (s0 : shared (V := V) (E := E)).

Record fresh : Prop := {
  fr_ids : ids_of (s_exec s0) = ids;
  fr_steps id : id ∈ ids -> exists se, findStep (s_exec s0) id = Some se /\
    se_Status se = StepStatusPending /\ se_CompletedAt se = None;
  fr_log : execs (s_log s0) = [] /\ comps (s_log s0) = [];
}.

(** What became of a step of the finished levels. *)
Definition outcome (failed : gset string) s (id : string) : Prop :=
  exists se def, findStep (s_exec s) id = Some se /\ stepByID steps !! id = Some def /\
  ((se_Status se = StepStatusSkipped /\ id ∈ failed /\ tries id (s_log s) = [] /\
    exists d, d ∈ deps id /\ d ∈ failed) \/
   ((forall d, d ∈ deps id -> d ∉ failed) /\
    exists m, tries id (s_log s) = seqZ 1 m /\ 0 <= m <= max_attempts def /\
      ((se_Status se = StepStatusCompleted /\ id ∉ failed /\ 1 <= m) \/
       (se_Status se = StepStatusFailed /\ id ∈ failed)))).

Record dag_inv (done : list string) (failed : gset string) s : Prop := {
  di_ids : ids_of (s_exec s) = ids;
  di_failed x : x ∈ failed -> x ∈ done;
  di_fresh id : id ∉ done -> findStep (s_exec s) id = findStep (s_exec s0) id;
  di_log : (forall x, x ∈ execs (s_log s) -> x ∈ done) /\ comps (s_log s) = [];
  di_done id : id ∈ done -> outcome failed s id;
  di_order y d : y ∈ done -> d ∈ deps y -> before (s_log s) d y;
}.

(** A level that may come after [done]. *)
Record next_level (done level : list string) : Prop := {
  nl_nodup : NoDup level;
  nl_ids id : id ∈ level -> id ∈ ids;
  nl_new id : id ∈ level -> id ∉ done;
  nl_deps id d : id ∈ level -> d ∈ deps id -> d ∈ done;
  nl_closed id d : id ∈ done -> d ∈ deps id -> d ∈ done;
}.

Lemma tries_not_exec id l : id ∉ execs l -> tries id l = [].
Proof. intros Hn. destruct (tries id l) eqn:Et; [done |]. destruct Hn. apply execs_tries. by rewrite Et. Qed.

Lemma tries_nil_exec id l : tries id l = [] -> id ∉ execs l.
Proof.
  induction l as [|[id' n | | | |] l IH]; simpl; try done; [by intros _ ?%not_elem_of_nil |].
  destruct (String.eqb_spec id' id) as [-> | Hne]; [done |].
  intros Ht [-> | Hin]%elem_of_cons; [done | by apply IH].
Qed.

(** Outcomes of finished steps are not touched by a later level. *)
Lemma outcome_later (done level : list string) failed failed' s s' id :
  (forall x, x ∈ level -> x ∉ done) -> (forall d, d ∈ deps id -> d ∈ done) ->
  (forall x, x ∈ done -> x ∈ failed' <-> x ∈ failed) ->
  level_guar level s s' -> id ∈ done -> outcome failed s id -> outcome failed' s' id.
Proof.
  intros Hnew Hdeps Hfd ((l & Hl & Hx & _) & _ & Ho & _) Hid (se & def & Hf & Hd & Hcase).
  assert (id ∉ level) as Hnl by (intros Hin; by apply (Hnew id)).
  assert (tries id (s_log s') = tries id (s_log s)) as Ht.
  { rewrite Hl, tries_app, (tries_not_exec id l), app_nil_r; [done |]. intros Hin. by apply Hnl, Hx. }
  exists se, def. rewrite Ho, Ht by done. split; [done |]. split; [done |].
  destruct Hcase as [(? & Hin & ? & d & Hdd & Hdf) | (Hnf & m & ? & ? & Hr)].
  - left. split_and!; [done | by apply Hfd | done |]. exists d. split; [done |]. apply Hfd; auto.
  - right. split; [intros d Hdd; rewrite Hfd by auto; by apply Hnf |]. exists m.
    split_and!; [done | lia | lia |]. rewrite Hfd by done. done.
Qed.

Lemma anyParentFailed_spec id def (failed : gset string) :
  stepByID steps !! id = Some def ->
  (anyParentFailed p id failed = true <-> exists d, d ∈ deps id /\ d ∈ failed).
Proof.
  intros Hd. destruct valid as [_ Hn _ _ _]. apply stepByID_lookup in Hd as Hd'; [| done].
  destruct Hd' as [Hin <-]. unfold anyParentFailed. rewrite Hd, existsb_exists. split.
  - intros (d & Hdd & Hb). apply bool_decide_eq_true in Hb. exists d. split; [| done].
    apply deps_of_step; [done | done | by apply list_elem_of_In].
  - intros (d & Hdd & Hf). exists d. split; [| by apply bool_decide_eq_true].
    apply list_elem_of_In. by apply (deps_of_step steps def).
Qed.

(** The pieces a level adds, as what it found and what it left. *)
Lemma level_facts done level failed s runnable failed' s1 results s2 :
  fresh -> dag_inv done failed s -> next_level done level ->
  run (mark_level p level failed) s = ((runnable, failed'), s1) ->
  par (map (step_thread p) runnable) s1 results s2 ->
  level_guar level s s2 /\
  (forall x, x ∈ collect runnable results failed' <-> x ∈ failed \/
     (x ∈ level /\ exists se, findStep (s_exec s2) x = Some se /\ se_Status se <> StepStatusCompleted)) /\
  (forall id, id ∈ level -> exists se def, findStep (s_exec s2) id = Some se /\
     stepByID steps !! id = Some def /\
     ((se_Status se = StepStatusSkipped /\ tries id (s_log s2) = [] /\ exists d, d ∈ deps id /\ d ∈ failed) \/
      ((forall d, d ∈ deps id -> d ∉ failed) /\ exists m, tries id (s_log s2) = seqZ 1 m /\
         0 <= m <= max_attempts def /\
         ((se_Status se = StepStatusCompleted /\ 1 <= m) \/
          (se_Status se = StepStatusFailed /\ exists e, Some e ∈ results))))).
Proof.
  intros Hfr [Hids Hfd Hfresh [Hlog _] _ _] [Hnd Hlid Hnew Hdeps _] Hmark Hpar.
  pose proof valid as [_ Hn _ _ _].
  pose proof (run_mark_level level failed s Hnd) as Hm. cbv zeta in Hm. rewrite Hmark in Hm. simpl in Hm.
  destruct Hm as (Hrun & Hf' & Hw & Hskip).
  { intros id def Hid Hd d Hdd Hin. apply stepByID_lookup in Hd as [Hin' <-]; [| done].
    apply (Hnew d Hin). apply (Hdeps (sd_ID def)); [done |]. by apply deps_of_step. }
  set (bad := filter (fun id => anyParentFailed p id failed = true) level) in *.
  assert (forall x, x ∈ runnable <-> anyParentFailed p x failed = false /\ x ∈ level) as Hr
    by (intros x; by rewrite Hrun, list_elem_of_filter).
  assert (forall x, x ∈ bad <-> anyParentFailed p x failed = true /\ x ∈ level) as Hb
    by (intros x; unfold bad; by rewrite list_elem_of_filter).
  assert (forall x, x ∈ level -> x ∉ bad -> findStep (s_exec s1) x = findStep (s_exec s0) x) as Hs1.
  { intros x Hx Hxb. destruct Hw as (_ & _ & Ho & _). rewrite Ho by done. apply Hfresh. by apply Hnew. }
  assert (forall x, x ∈ level -> tries x (s_log s1) = []) as Ht1.
  { intros x Hx. destruct Hw as ((l & -> & Hl & _) & _). apply tries_not_exec. rewrite execs_app, Hl, app_nil_r.
    intros Hin. by apply (Hnew x Hx), Hlog. }
  destruct (run_level runnable s1 results s2) as (Hlen & Hg & Hpost); [| | | done |].
  { rewrite Hrun. by apply list.NoDup_filter. }
  { intros id [_ Hid]%Hr. by apply Hlid. }
  { intros id [Ha Hid]%Hr. destruct (fr_steps Hfr id (Hlid id Hid)) as (se & Hse & _ & Hc).
    exists se. rewrite Hs1; [| done | rewrite Hb; intros [? _]; congruence].
    split; [done |]. intros t. by rewrite Hc. }
  assert (level_guar level s s2) as Hgl.
  { etrans; [eapply writes_level; [| exact Hw]; intros x; rewrite Hb; tauto |].
    destruct Hg as ((l & ? & Hl & ?) & ? & Ho & ?). split_and!; [| done | | done].
    - exists l. split; [done |]. split; [| done]. intros x Hx. by apply Hr, Hl.
    - intros x Hx. apply Ho. rewrite Hr. tauto. }
  assert (forall x, x ∈ level -> x ∉ failed) as Hlf by (intros x Hx Hxf; by apply (Hnew x Hx), Hfd).
  (* what each step of the level became *)
  assert (forall id, id ∈ level -> exists se def, findStep (s_exec s2) id = Some se /\
    stepByID steps !! id = Some def /\
    ((id ∈ bad /\ se_Status se = StepStatusSkipped /\ tries id (s_log s2) = []) \/
     (id ∈ runnable /\ exists i m r, runnable !! i = Some id /\ results !! i = Some r /\
        tries id (s_log s2) = seqZ 1 m /\ 0 <= m <= max_attempts def /\
        match r with None => se_Status se = StepStatusCompleted /\ 1 <= m
        | Some _ => se_Status se = StepStatusFailed end))) as Heach.
  { intros id Hid. destruct (stepByID_known steps id Hn (Hlid id Hid)) as (def & Hd & _ & _).
    destruct (anyParentFailed p id failed) eqn:Ea.
    - assert (id ∈ bad) as Hin by by apply Hb. assert (id ∉ runnable) as Hnr by (rewrite Hr; intros [? _]; congruence).
      destruct (fr_steps Hfr id (Hlid id Hid)) as (se0 & Hse0 & _).
      destruct (Hskip id se0 Hin) as (se & Hse & Hst); [by rewrite Hfresh by by apply Hnew |].
      destruct Hg as ((l & Hl & Hx & _) & _ & Ho & _). exists se, def. rewrite Ho by done.
      split; [done |]. split; [done |]. left. split_and!; [done | done |].
      rewrite Hl, tries_app, Ht1 by done. apply tries_not_exec. intros Hin'. by apply Hnr, Hx.
    - assert (id ∈ runnable) as Hin by by apply Hr.
      apply list_elem_of_lookup_1 in Hin as [i Hi].
      assert (is_Some (results !! i)) as [r Hri].
      { apply lookup_lt_is_Some. rewrite Hlen. by eapply lookup_lt_Some. }
      pose proof (Hpost i id def r Hi Hri Hd) as Hp. rewrite (Ht1 id Hid) in Hp. unfold step_post, knows in Hp.
      destruct r as [e|]; destruct Hp as (m & Hm & Ht & _ & se & Hse & Hq & _); exists se, def;
        (split; [done |]; split; [done |]; right; split; [by eapply list_elem_of_lookup_2 |]).
      + exists i, m, (Some e). done.
      + exists i, m, None. destruct Hq as [Hq _]. split_and!; try done; lia. }
  split; [done |]. split.
  - intros x. rewrite collect_spec, Hf' by done. split.
    + intros [[Hx | Hx] | (i & e & Hi & Hri)]; [by left | |].
      * right. apply Hb in Hx as Hx'. destruct Hx' as [_ Hx']. split; [done |].
        destruct (Heach x Hx') as (se & def & Hse & _ & [(_ & Hst & _) | (Hxr & _)]);
          [exists se; split; [done | by rewrite Hst] |].
        exfalso. apply Hr in Hxr as [? _]. apply Hb in Hx as [? _]. congruence.
      * right. assert (x ∈ level) as Hx by (apply Hr; by eapply list_elem_of_lookup_2). split; [done |].
        destruct (Heach x Hx) as (se & def & Hse & _ & [(_ & Hst & _) | (_ & j & m & r & Hj & Hrj & _ & _ & Hst)]);
          exists se; (split; [done |]); [by rewrite Hst |].
        assert (i = j) as <- by (eapply (NoDup_lookup runnable i j x); [rewrite Hrun; by apply list.NoDup_filter | done | done]).
        assert (r = Some e) as -> by congruence. by rewrite Hst.
    + intros [Hx | (Hx & se & Hse & Hst)]; [by left; left |].
      destruct (Heach x Hx) as (se' & def & Hse' & _ & [(Hxb & _) | (_ & j & m & r & Hj & Hrj & _ & _ & Hst')]);
        [by left; right |]. right. assert (se' = se) as -> by congruence.
      destruct r as [e|]; [by exists j, e |]. by destruct Hst'.
  - intros id Hid. destruct (Heach id Hid) as (se & def & Hse & Hd & Hcase). exists se, def.
    split; [done |]. split; [done |]. pose proof (anyParentFailed_spec id def failed Hd) as Ha.
    destruct Hcase as [(Hin & Hst & Ht) | (Hin & i & m & r & Hi & Hri & Ht & Hm & Hst)].
    + left. split_and!; [done | done |]. apply Ha. by apply Hb in Hin as [? _].
    + right. split.
      * intros d Hd1 Hd2. apply Hr in Hin as [Hin _]. assert (anyParentFailed p id failed = true); [| congruence].
        apply Ha. by exists d.
      * exists m. split_and!; [done | lia | lia |]. destruct r as [e|]; [right | by left].
        split; [done |]. exists e. by eapply list_elem_of_lookup_2.
Qed.

Lemma level_step done level failed s runnable failed' s1 results s2 :
  fresh -> dag_inv done failed s -> next_level done level ->
  run (mark_level p level failed) s = ((runnable, failed'), s1) ->
  par (map (step_thread p) runnable) s1 results s2 ->
  dag_inv (done ++ level) (collect runnable results failed') s2 /\
  ((forall r, r ∈ results -> r = None) -> failed = ∅ -> collect runnable results failed' = ∅).
Proof.
  intros Hfr Hinv Hnl Hmark Hpar.
  destruct (level_facts _ _ _ _ _ _ _ _ _ Hfr Hinv Hnl Hmark Hpar) as (Hgl & Hcol & Heach).
  destruct Hinv as [Hids Hfd Hfresh [Hlog Hcomp] Hdone Hord], Hnl as [Hnd Hlid Hnew Hdeps Hcl].
  set (failed2 := collect runnable results failed') in *.
  assert (forall x, x ∈ done -> x ∈ failed2 <-> x ∈ failed) as Hsame.
  { intros x Hx. rewrite Hcol. split; [intros [? | [Hl _]]; [done | by destruct (Hnew x Hl)] | by left]. }
  pose proof Hgl as ((l & Hl & Hlx & Hlc) & Hi & Ho & _). split; [constructor |].
  - by rewrite Hi.
  - intros x [Hx | [Hx _]]%Hcol; apply elem_of_app; [left; by apply Hfd | by right].
  - intros id Hid. rewrite elem_of_app in Hid. rewrite Ho by tauto. apply Hfresh. tauto.
  - rewrite Hl, comps_app, Hcomp, Hlc. split; [| done]. intros x Hx. rewrite execs_app, elem_of_app in Hx.
    apply elem_of_app. destruct Hx; [left; by apply Hlog | right; by apply Hlx].
  - intros id [Hid | Hid]%elem_of_app.
    + apply (outcome_later done level failed failed2 s s2); auto. intros d Hd. by eapply Hcl.
    + destruct (Heach id Hid) as (se & def & Hse & Hd & Hcase). exists se, def. split; [done |]. split; [done |].
      destruct Hcase as [(Hst & Ht & d & Hd1 & Hd2) | (Hnf & m & Ht & Hm & Hst)].
      * left. split_and!; [done | | done | exists d; split; [done |]; apply Hsame; [by eapply Hdeps | done]].
        apply Hcol. right. split; [done |]. exists se. split; [done | by rewrite Hst].
      * right. split; [intros d Hd1; rewrite (Hsame d (Hdeps id d Hid Hd1)); by apply Hnf |].
        exists m. split_and!; [done | lia | lia |]. destruct Hst as [[Hst Hm1] | [Hst _]].
        -- left. split_and!; [done | | done]. rewrite Hcol. intros [Hx | (_ & se' & Hse' & Hst')].
           ++ by apply (Hnew id Hid), Hfd.
           ++ congruence.
        -- right. split; [done |]. apply Hcol. right. split; [done |]. exists se. by rewrite Hst.
  - intros y d [Hy | Hy]%elem_of_app Hd; rewrite Hl.
    + apply before_app; [by apply Hord |]. intros Hx. apply (Hnew d); [by apply Hlx | by eapply Hcl].
    + exists (s_log s), l. split; [done |]. split.
      * intros Hx. by apply (Hnew y Hy), Hlog.
      * intros Hx. apply (Hnew d); [by apply Hlx | by eapply Hdeps].
  - intros Hnone ->. apply set_eq. intros x. rewrite Hcol. split; [| by intros ?%not_elem_of_empty].
    intros [? | (Hx & se & Hse & Hst)]; [done |]. exfalso.
    destruct (Heach x Hx) as (se' & def & Hse' & _ & [(_ & _ & d & _ & Hd) | (_ & m & _ & _ & [[Hst' _] | [_ [e He]]])]).
    + by apply not_elem_of_empty in Hd.
    + congruence.
    + by specialize (Hnone _ He).
Qed.

Lemma dag_inv_env done failed s e :
  dag_inv done failed s -> vt (s_env s) <= vt e -> dag_inv done failed (put_env e s).
Proof. by intros [H1 H2 H3 H4 H5 H6] _. Qed.

Lemma dag_levels_inv levels failed firstErr s r s' pre :
  fresh -> level_order steps (pre ++ levels) ->
  dag_inv (concat pre) failed s -> (firstErr = None -> failed = ∅) ->
  dag_levels p levels failed firstErr s r s' ->
  exists failed', dag_inv (concat (pre ++ levels)) failed' s' /\ (r = None -> failed' = ∅).
Proof.
  intros Hfr Hlo Hinv Hf Hrun. revert pre Hlo Hinv Hf.
  assert (forall pre level levels, level_order steps (pre ++ level :: levels) ->
    next_level (concat pre) level) as Hnext.
  { intros pre level levels0 [Hi Hnd Hl _ _]. rewrite concat_app in Hnd, Hi. simpl in Hnd, Hi.
    apply list.NoDup_app in Hnd as (_ & Hdis & Hnd). apply list.NoDup_app in Hnd as (Hnd & _ & _).
    assert (forall i lv id d, (pre ++ level :: levels0) !! i = Some lv -> (i <= length pre)%nat -> id ∈ lv ->
      d ∈ deps id -> d ∈ concat pre) as Hback.
    { intros i lv id d Hlv Hle Hid Hd. destruct (Hl i lv id d Hlv Hid Hd) as (j & lv' & Hj & Hlj & Hd').
      rewrite lookup_app_l in Hlj by lia. apply elem_of_concat. exists lv'.
      split; [done | by eapply list_elem_of_lookup_2]. }
    constructor.
    - done.
    - intros id Hid. apply Hi. apply elem_of_app. right. apply elem_of_app. by left.
    - intros id Hid Hin. apply (Hdis id Hin). apply elem_of_app. by left.
    - intros id d Hid Hd. apply (Hback (length pre) level id d); [| lia | done | done].
      rewrite lookup_app_r, Nat.sub_diag by lia. done.
    - intros id d Hid Hd. apply elem_of_concat in Hid as (lv & Hid & Hlv).
      apply list_elem_of_lookup_1 in Hlv as [i Hlv]. pose proof (lookup_lt_Some _ _ _ Hlv).
      apply (Hback i lv id d); [by apply lookup_app_l_Some | lia | done | done]. }
  induction Hrun as [failed firstErr s | level levels failed firstErr s failed' s1 r s' Hmark _ IH
    | level levels failed firstErr s runnable failed' s1 results s2 cerr s3 firstErr' r s' Hmark _ Hpar Hfe Hask _ IH];
    intros pre Hlo Hinv Hf.
  - rewrite app_nil_r in *. by exists failed.
  - specialize (Hnext _ _ _ Hlo).
    destruct (level_step _ _ _ _ _ _ _ [] s1 Hfr Hinv Hnext Hmark) as [Hi2 Hn2]; [apply rtc_refl |].
    replace (pre ++ level :: levels) with ((pre ++ [level]) ++ levels) in * by by rewrite <- app_assoc.
    apply IH; [done | | ].
    + rewrite concat_app. simpl. by rewrite app_nil_r.
    + intros Hx. apply Hn2; [by intros r0 ?%not_elem_of_nil | by apply Hf].
  - specialize (Hnext _ _ _ Hlo).
    destruct (level_step _ _ _ _ _ _ _ results s2 Hfr Hinv Hnext Hmark Hpar) as [Hi2 Hn2].
    replace (pre ++ level :: levels) with ((pre ++ [level]) ++ levels) in * by by rewrite <- app_assoc.
    apply IH; [done | | ].
    + rewrite concat_app. simpl. rewrite app_nil_r. unfold ask in Hask. rewrite run_atom in Hask.
      pose proof (vt_ctx_Err (s_env s2)) as Hv. destruct (ctx_Err (s_env s2)) as [c e].
      injection Hask as <- <-. by apply dag_inv_env.
    + intros Hx. apply Hn2.
      * destruct Hfe as [e | e He | Hnone]; [done | done | exact Hnone].
      * apply Hf. by destruct Hfe.
Qed.

(** C15. A DAG run keeps to its graph under every interleaving of its goroutines: when
    it ends, every step has run with attempts [1 .. m] within its retry budget and
    is COMPLETED or FAILED, all its dependencies being COMPLETED; or it never ran
    and is SKIPPED, some dependency being FAILED or SKIPPED. Every attempt at a
    dependency precedes every attempt at the dependent, nothing is compensated,
    and if the run answers no error then all steps are COMPLETED. *)
Theorem dag_respects_dependencies r s' :
  fresh -> runStepsDAG p s0 r s' ->
  (forall id, id ∈ ids -> exists se def, findStep (s_exec s') id = Some se /\
     stepByID steps !! id = Some def /\
     ((se_Status se = StepStatusSkipped /\ tries id (s_log s') = [] /\
       exists d sd, d ∈ deps id /\ findStep (s_exec s') d = Some sd /\ se_Status sd <> StepStatusCompleted) \/
      ((forall d, d ∈ deps id -> exists sd, findStep (s_exec s') d = Some sd /\
          se_Status sd = StepStatusCompleted) /\
       exists m, tries id (s_log s') = seqZ 1 m /\ 0 <= m <= max_attempts def /\
         (se_Status se = StepStatusCompleted /\ 1 <= m \/ se_Status se = StepStatusFailed)))) /\
  (forall y d, y ∈ ids -> d ∈ deps y -> before (s_log s') d y) /\
  comps (s_log s') = [] /\
  (r = None -> forall id, id ∈ ids -> exists se, findStep (s_exec s') id = Some se /\
     se_Status se = StepStatusCompleted).
Proof.
  intros Hfr Hrun. destruct (valid_graph_levels steps valid) as (levels & Hlv & Hlo).
  inversion Hrun as [e He | levels' r' s'' Hlv' Hd]; subst; [congruence |].
  assert (levels' = levels) as -> by congruence.
  destruct (dag_levels_inv levels ∅ None s0 r s' [] Hfr Hlo) as (failed & [Hi Hfd _ [_ Hc] Hdone Hord] & Hnone);
    [| done | done |].
  { destruct Hfr as [Hi _ [Hl Hc]]. constructor; try done.
    - rewrite Hl. split; [by intros ? ?%not_elem_of_nil | done].
    - by intros ? ?%not_elem_of_nil.
    - by intros ? ? ?%not_elem_of_nil. }
  simpl in *. pose proof Hlo as [Hlids _ _ _ _].
  assert (forall id, id ∈ ids -> outcome failed s' id) as Hout by (intros id Hid; by apply Hdone, Hlids).
  assert (forall id, id ∈ ids -> exists se, findStep (s_exec s') id = Some se /\
    (se_Status se = StepStatusCompleted <-> id ∉ failed)) as Hst.
  { intros id Hid. destruct (Hout id Hid) as (se & def & Hse & _ & Hcase). exists se. split; [done |].
    destruct Hcase as [(-> & ? & _) | (_ & m & _ & _ & [(-> & ? & _) | (-> & ?)])]; split; intros ?; done || contradiction. }
  assert (closed steps) as Hcl by apply valid.
  split; [| split; [intros y d Hy; apply Hord; by apply Hlids | split; [done |]]].
  - intros id Hid. destruct (Hout id Hid) as (se & def & Hse & Hd' & Hcase). exists se, def.
    split; [done |]. split; [done |]. destruct Hcase as [(? & _ & ? & d & Hd1 & Hd2) | (Hnf & m & ? & ? & Hcase)].
    + left. split_and!; [done | done |]. destruct (Hst d) as (sd & Hsd & Hiff); [by eapply Hcl |].
      exists d, sd. split_and!; [done | done |]. rewrite Hiff. intros Hn. by apply Hn.
    + right. split.
      * intros d Hd1. destruct (Hst d) as (sd & Hsd & Hiff); [by eapply Hcl |]. exists sd.
        split; [done | by apply Hiff, Hnf].
      * exists m. split_and!; [done | lia | lia |]. destruct Hcase as [(? & _ & ?) | [? _]]; [by left | by right].
  - intros Hr id Hid. destruct (Hst id Hid) as (se & Hse & Hiff). exists se. split; [done |].
    apply Hiff. rewrite (Hnone Hr). apply not_elem_of_empty.
Qed.
End invariant.

(** ** Runs exist *)

Lemma pick_error_first results firstErr : first_error results firstErr (pick_error results firstErr).
Proof.
  destruct firstErr as [e|]; [constructor |]. unfold pick_error.
  destruct (omap id results) as [|e es] eqn:Eo.
  - constructor. intros r Hr. destruct r as [e|]; [| done]. exfalso.
    assert (e ∈ omap id results) as Hin by (apply list_elem_of_omap; by exists (Some e)).
    rewrite Eo in Hin. by apply not_elem_of_nil in Hin.
  - constructor. exists e. split; [| done]. assert (e ∈ omap id results) as Hin by (rewrite Eo; by left).
    apply list_elem_of_omap in Hin as (r & Hr & He). by rewrite <- He.
Qed.

Lemma dag_seq_run levels failed firstErr s :
  dag_levels p levels failed firstErr s (dag_seq p levels failed firstErr s).1
    (dag_seq p levels failed firstErr s).2.
Proof.
  revert failed firstErr s. induction levels as [|level levels IH]; intros failed firstErr s; cbn [dag_seq];
    [constructor |].
  destruct (run (mark_level p level failed) s) as [[runnable failed'] s1] eqn:Em.
  destruct runnable as [|x runnable]; [by eapply DagSkip |].
  pose proof (run_all_par (map (step_thread p) (x :: runnable)) s1) as Hp.
  destruct (run_all _ s1) as [results s2]. destruct (run (ask ctx_Err) s2) as [cerr s3] eqn:Ec.
  eapply DagLevel; [exact Em | done | exact Hp | apply pick_error_first | exact Ec | apply IH].
Qed.

(** Nothing in a DAG run can wait forever: every interleaving of the goroutines
    of a level is finite, so that [wg.Wait] returns whatever the scheduler does,
    and from every state the run has an end, the one the sequential schedule gives. *)
Theorem dag_terminates s :
  (forall runnable s1, sn par_step (map (step_thread p) runnable, s1)) /\
  runStepsDAG p s (runStepsDAG_seq p s).1 (runStepsDAG_seq p s).2.
Proof.
  split; [intros; apply par_sn |]. unfold runStepsDAG_seq.
  destruct (topoLevels steps) as [levels | e] eqn:Et; [| by constructor].
  eapply DagRun; [exact Et | apply dag_seq_run].
Qed.
End dag.

(** ** A concrete pipeline and outside world

    The instances at which the properties of the engine are shown to hold: a
    diamond of four steps whose last one fails, in a world that answers from a
    script and whose clock ticks at every reading. *)
(** The state of the world is its clock. *)
Definition world_execute (d : duration) (i : StepInput Z) (e : Z)
    : result (StepResult Z) pl_error * Z :=
  (if String.eqb (si_StepID i) "promote" then Err (External "gateway unreachable")
   else Ok {| sr_Output := {["step" := si_Attempt i]}; sr_Endpoint := "iris:9090" |}, e).

#[export] Instance demo_env : Env Z Z := {|
  ctx_Err e := (None, e);
  Execute := world_execute;
  Compensate _ _ e := (None, e);
  Save _ _ e := (None, e);
  SaveStep _ _ e := (None, e);
  Publish _ _ e := e;
  Now e := (e + 1, e + 1);
  Wait e := (false, e);
  Executor _ := true |}.

#[export] Instance demo_time : EnvTime Z Z.
Proof. refine {| vt := fun e : Z => e |}; intros; simpl; lia. Defined.

Definition demo_step (id : string) (ty : Z) (deps : list string) (undo : string) : StepDefinition Z := {|
  sd_ID := id; sd_Name := id; sd_Type := ty; sd_DependsOn := deps; sd_CompensationStepID := undo;
  sd_Config := ∅; sd_Timeout := 0; sd_MaxRetries := 1 |}.

(** Listed out of order on purpose: the scheduler sorts them. *)
Definition demo_steps : list (StepDefinition Z) :=
  [demo_step "promote" StepTypePromote ["canary"; "build"] "";
   demo_step "build" StepTypeBuild ["validate"] "validate";
   demo_step "canary" StepTypeCanary ["validate"] "validate";
   demo_step "validate" StepTypeValidate [] ""].

Definition demo_pipeline (ty : Z) : PipelineDefinition Z := {|
  pd_ID := "p1"; pd_Name := "deploy iris"; pd_Type := ty; pd_Steps := demo_steps;
  pd_CreatedBy := "ana"; pd_CreatedAt := 1; pd_Team := "a"; pd_Archived := false |}.

Lemma demo_valid ty : valid_graph (pd_Steps (demo_pipeline ty)).
Proof.
  apply (valid_graph_intro _ [["validate"]; ["build"; "canary"]; ["promote"]]).
  - vm_compute. split; discriminate.
  - by apply (bool_decide_unpack _).
  - by apply (bool_decide_unpack _).
  - vm_compute. reflexivity.
Qed.

Definition pending_step (id : string) (ty : Z) : StepExecution Z := {|
  se_ID := "se-" +:+ id; se_ExecutionID := "x1"; se_StepID := id; se_StepType := ty;
  se_Status := StepStatusPending; se_StartedAt := None; se_CompletedAt := None; se_Output := ∅;
  se_Error := Plain ""; se_Attempt := 0 |}.

Definition demo_start : shared (V := Z) (E := Z) := {|
  s_env := 100;
  s_exec := {|
    ex_ID := "x1"; ex_PipelineID := "p1"; ex_Status := ExecutionStatusRunning; ex_CurrentStep := "";
    ex_Steps := map (fun d => pending_step (sd_ID d) (sd_Type d)) demo_steps; ex_TriggeredBy := "ana";
    ex_StartedAt := 100; ex_CompletedAt := None; ex_Input := ∅; ex_Error := Plain "" |};
  s_errs := (0, None); s_log := [] |}.

Lemma demo_fresh ty : fresh (demo_pipeline ty) demo_start.
Proof.
  constructor.
  - reflexivity.
  - intros id Hid. unfold step_ids in Hid. simpl in Hid.
    repeat (apply elem_of_cons in Hid as [-> | Hid]; [by eexists |]). by apply not_elem_of_nil in Hid.
  - done.
Qed.

(** *** A DAG run of the pipeline *)

Definition demo_dag : option pl_error * shared (V := Z) (E := Z) :=
  runStepsDAG_seq (demo_pipeline PipelineTypeTrainingDAG) demo_start.

Lemma demo_dag_run : runStepsDAG (demo_pipeline PipelineTypeTrainingDAG) demo_start (fst demo_dag) (snd demo_dag).
Proof.
  unfold demo_dag, runStepsDAG_seq.
  destruct (topoLevels (pd_Steps (demo_pipeline PipelineTypeTrainingDAG))) as [levels | e] eqn:Et.
  - eapply DagRun; [exact Et | apply dag_seq_run].
  - by constructor.
Qed.

Lemma dag_respects_dependencies_witness :
  (exists se, findStep (s_exec (snd demo_dag)) "promote" = Some se /\ se_Status se = StepStatusFailed) /\
  (forall y d, y ∈ step_ids demo_steps -> d ∈ deps_of demo_steps y -> before (s_log (snd demo_dag)) d y) /\
  comps (s_log (snd demo_dag)) = [].
Proof.
  split; [by eexists; split; vm_compute |].
  destruct (dag_respects_dependencies (demo_pipeline PipelineTypeTrainingDAG) (demo_valid _) demo_start
    (fst demo_dag) (snd demo_dag) (demo_fresh _) demo_dag_run) as (_ & Hb & Hc & _).
  split; [exact Hb | exact Hc].
Defined.
