(* ===== verification/PipelineSaga.v ===== *)
(** * Deployment sagas: compensation in reverse order

    [runStepsSaga] of [PipelineRun] on a valid pipeline: the steps in topological
    order, and on a failure or a cancellation the compensation of every completed
    step, last completed first. *)

From S2P Require Import Prelude Concur PipelineGraph PipelineRun PipelineSteps PipelineDag.
Open Scope fp_scope.

(** ** Completion order *)

Section completed.
Context {V : Type}.
Implicit Types (se : StepExecution V) (x : Execution V).

Definition not_after se se' : Prop := completed_before se' se = false.

#[local] Instance not_after_trans : Transitive not_after.
Proof.
  intros a b c. unfold not_after, completed_before, time_before.
  destruct (se_CompletedAt a), (se_CompletedAt b), (se_CompletedAt c); try done.
  rewrite !Z.ltb_ge. lia.
Qed.

Lemma completed_before_asym se se' : completed_before se se' = true -> not_after se se'.
Proof.
  unfold not_after, completed_before, time_before.
  destruct (se_CompletedAt se), (se_CompletedAt se'); try done. rewrite Z.ltb_lt, Z.ltb_ge. lia.
Qed.

Lemma insert_stable_perm se l : insert_stable se l ≡ₚ se :: l.
Proof.
  induction l as [|se' l IH]; simpl; [done |]. destruct (completed_before se' se); [| done].
  rewrite IH. constructor.
Qed.

Lemma insert_stable_sorted se l : StronglySorted not_after l -> StronglySorted not_after (insert_stable se l).
Proof.
  induction 1 as [|se' l Hs IH Hf]; simpl; [repeat constructor |].
  destruct (completed_before se' se) eqn:E.
  - constructor; [done |]. rewrite insert_stable_perm. constructor; [by apply completed_before_asym | done].
  - constructor; [by constructor |]. constructor; [exact E |].
    eapply Forall_impl; [| exact Hf]. intros se2 H2. by transitivity se'.
Qed.

Lemma sorted_steps l : StronglySorted not_after (sortStepsByCompletedAt l) /\ sortStepsByCompletedAt l ≡ₚ l.
Proof.
  induction l as [|se l [IH1 IH2]]; simpl; [split; [constructor | done] |].
  split; [by apply insert_stable_sorted | by rewrite insert_stable_perm, IH2].
Qed.

Definition earlier se se' : Prop :=
  exists t t', se_CompletedAt se = Some t /\ se_CompletedAt se' = Some t' /\ t < t'.

Lemma earlier_not_after se se' : earlier se se' -> not_after se se' /\ ~ not_after se' se.
Proof.
  intros (t & t' & H1 & H2 & Hlt). unfold not_after, completed_before, time_before. rewrite H1, H2.
  split; [apply Z.ltb_ge; lia | rewrite Z.ltb_ge; lia].
Qed.

(** The completed steps of an execution, sorted: those of [ses] when [ses] lists
    them in order of completion. *)
Lemma completed_in_order x (ses : list (StepExecution V)) :
  NoDup (ids_of x) -> StronglySorted earlier ses ->
  (forall se, se ∈ ses <-> se ∈ ex_Steps x /\ se_Status se = StepStatusCompleted) ->
  completedStepsInOrder x = ses.
Proof.
  intros Hnd Hs Hel. unfold completedStepsInOrder.
  destruct (sorted_steps (filter (fun se => se_Status se = StepStatusCompleted) (ex_Steps x))) as [H1 H2].
  assert (StronglySorted not_after ses) as Hs'.
  { clear Hel. induction Hs as [|se l _ IH Hf]; constructor; [done |]. eapply Forall_impl; [| exact Hf].
    intros se'. apply earlier_not_after. }
  apply (StronglySorted_unique_strong not_after); [| done | done |].
  - intros a b Ha Hb Hab Hba. rewrite H2, list_elem_of_filter in Ha. assert (a ∈ ses) as Ha' by (apply Hel; tauto).
    apply list_elem_of_lookup_1 in Ha' as [i Hi], Hb as [j Hj].
    destruct (Nat.lt_trichotomy i j) as [Hlt | [-> | Hlt]]; [exfalso | congruence | exfalso].
    + pose proof (StronglySorted_lt _ _ _ _ _ _ Hs Hi Hj Hlt) as He.
      by apply earlier_not_after in He as [_ []].
    + pose proof (StronglySorted_lt _ _ _ _ _ _ Hs Hj Hi Hlt) as He.
      by apply earlier_not_after in He as [_ []].
  - rewrite H2. apply NoDup_Permutation.
    + apply list.NoDup_filter. by eapply NoDup_fmap_1.
    + clear - Hs. induction Hs as [|se l _ IH Hf]; constructor; [| done]. intros Hin.
      rewrite list.Forall_forall in Hf. by destruct (earlier_not_after _ _ (Hf se Hin)) as [? []].
    + intros se. rewrite list_elem_of_filter, Hel. tauto.
Qed.
End completed.

Section saga.
Context {V E : Type} `{EnvTime V E}.
Context (p : PipelineDefinition V).
Hypothesis valid : valid_graph (pd_Steps p).
Implicit Types s : shared (V := V) (E := E).

Abbreviation steps := (pd_Steps p).
Abbreviation ids := (step_ids steps).

(** ** Compensation *)

(** A completed step that has something to undo, and one whose undoing can be called. *)
Definition to_undo (id : string) : bool :=
  match stepByID steps !! id with
  | Some def => negb (String.eqb (sd_CompensationStepID def) "")
  | None => false
  end.
Definition callable (id : string) : bool :=
  match stepByID steps !! id with Some def => Executor (sd_Type def) | None => false end.

Definition undone (st : StepStatus) : Prop := st = StepStatusCompensated \/ st = StepStatusCompensationFailed.

(** The calls of a compensation: no attempt at a step, and [cs] undone. *)
Definition undoes (D cs : list string) s s' : Prop :=
  (exists l, s_log s' = s_log s ++ l /\ execs l = [] /\ comps l = cs) /\
  ids_of (s_exec s') = ids_of (s_exec s) /\
  (forall id, id ∉ D -> findStep (s_exec s') id = findStep (s_exec s) id).

Lemma undoes_refl s : undoes [] [] s s.
Proof. split_and!; try done. exists []. by rewrite app_nil_r. Qed.

Lemma undoes_trans D D' cs cs' s1 s2 s3 :
  undoes D cs s1 s2 -> undoes D' cs' s2 s3 -> undoes (D ++ D') (cs ++ cs') s1 s3.
Proof.
  intros ((l & Hl & Hx & Hc) & Hi & Ho) ((l' & Hl' & Hx' & Hc') & Hi' & Ho').
  split_and!; [| congruence |].
  - exists (l ++ l'). by rewrite Hl', Hl, <- app_assoc, execs_app, comps_app, Hx, Hx', Hc, Hc'.
  - intros id Hid. rewrite elem_of_app in Hid. rewrite Ho', Ho by tauto. done.
Qed.

Lemma writes_undoes D s s' : writes_only D s s' -> undoes D [] s s'.
Proof. intros (Hl & Hi & Ho & _). done. Qed.

(** A call to the outside that leaves a trace entry which is no attempt. *)
Lemma run_tell {R A} c (f : E -> R * E) (k : R -> prog shared A) s :
  run (pbind (tell c f) k) s =
  run (k (f (s_env s)).1) (put_log c (put_env (f (s_env s)).2 s)).
Proof. unfold tell. rewrite run_atom_bind. by destruct (f (s_env s)). Qed.

Lemma run_ask {R A} (f : E -> R * E) (k : R -> prog shared A) s :
  run (pbind (ask f) k) s = run (k (f (s_env s)).1) (put_env (f (s_env s)).2 s).
Proof. unfold ask. rewrite run_atom_bind. by destruct (f (s_env s)). Qed.

Lemma run_read {R A} (f : Execution V -> R) (k : R -> prog (shared (V := V) (E := E)) A) s :
  run (pbind (read_exec f) k) s = run (k (f (s_exec s))) s.
Proof. reflexivity. Qed.

Lemma undoes_log c cs e s :
  execs [c] = [] -> comps [c] = cs -> undoes [] cs s (put_log c (put_env e s)).
Proof. intros Hx Hc. split_and!; try done. by exists [c]. Qed.

Lemma undoes_env e s : undoes [] [] s (put_env e s).
Proof. split_and!; try done. exists []. simpl. by rewrite app_nil_r. Qed.

(** Undoing one step: its executor is called once if there is one, and its record
    tells how that went. *)
Lemma run_compensateOne def se s se0 :
  stepByID steps !! se_StepID se = Some def -> sd_ID def = se_StepID se ->
  findStep (s_exec s) (se_StepID se) = Some se0 ->
  let '(r, s') := run (compensateOne p def se) s in
  undoes [se_StepID se] (if callable (se_StepID se) then [se_StepID se] else []) s s' /\
  exists se', findStep (s_exec s') (se_StepID se) = Some se' /\
    match r with None => se_Status se' = StepStatusCompensated
    | Some _ => se_Status se' = StepStatusCompensationFailed end.
Proof.
  intros Hd Hid Hf. unfold compensateOne, callable. rewrite Hd.
  set (id := se_StepID se) in *. destruct (Executor (sd_Type def)); cbn [negb].
  2: { rewrite run_mark_bind.
       destruct (run_mark DetachedCtx id StepStatusCompensationFailed
         (Plain "no executor for compensation") s) as [Hw Hm].
       set (s1 := (run _ s).2) in *. cbn [run].
       split; [by apply writes_undoes |]. destruct (Hm se0 Hf) as (now & Hf1 & _). by eexists. }
  rewrite run_mark_bind.
  destruct (run_mark DetachedCtx id StepStatusCompensating (Plain "") s) as [Hw1 Hm1].
  destruct (Hm1 se0 Hf) as (now & Hf1 & _). clear Hm1. set (s1 := (run _ s).2) in *.
  rewrite run_read, run_tell. set (i := buildStepInput def (se_Attempt se) (s_exec s1)).
  pose proof (undoes_log (CCompensate DetachedCtx (sd_ID def)) [id] (Compensate DetachedCtx i (s_env s1)).2 s1
    eq_refl ltac:(by rewrite <- Hid)) as Hu.
  set (s2 := put_log _ _) in *. assert (findStep (s_exec s2) id = findStep (s_exec s1) id) as Hf2 by done.
  rewrite Hf1 in Hf2. destruct (Compensate DetachedCtx i (s_env s1)).1 as [e|].
  - rewrite run_mark_bind.
    destruct (run_mark DetachedCtx id StepStatusCompensationFailed (Rendered e) s2) as [Hw3 Hm3].
    destruct (Hm3 _ Hf2) as (now3 & Hf3 & _). clear Hm3. set (s3 := (run _ s2).2) in *. cbn [run].
    split; [| by eexists].
    apply writes_undoes in Hw1, Hw3. pose proof (undoes_trans _ _ _ _ _ _ _ (undoes_trans _ _ _ _ _ _ _ Hw1 Hu) Hw3) as Ht.
    destruct Ht as (? & ? & Ho). split_and!; [done | done |]. intros x Hx. apply Ho. simpl.
    intros [-> | [-> | ?]%elem_of_cons]%elem_of_cons; [by apply Hx; left.. | by eapply not_elem_of_nil].
  - rewrite run_mark_bind.
    destruct (run_mark DetachedCtx id StepStatusCompensated (Plain "") s2) as [Hw3 Hm3].
    destruct (Hm3 _ Hf2) as (now3 & Hf3 & _). clear Hm3. set (s3 := (run _ s2).2) in *.
    apply writes_undoes in Hw1, Hw3. pose proof (undoes_trans _ _ _ _ _ _ _ (undoes_trans _ _ _ _ _ _ _ Hw1 Hu) Hw3) as Ht.
    assert (undoes [id] [id] s s3) as Ht3.
    { destruct Ht as (? & ? & Ho). split_and!; [done | done |]. intros x Hx. apply Ho. simpl.
      intros [-> | [-> | ?]%elem_of_cons]%elem_of_cons; [by apply Hx; left.. | by eapply not_elem_of_nil]. }
    destruct (isDeployStep (sd_Type def)); [| split; [exact Ht3 | by eexists]].
    rewrite run_bind, run_ask, run_read. unfold emit, tell. rewrite run_atom. cbn [run fst].
    match goal with |- context [put_log ?c (put_env ?e ?s4)] =>
      pose proof (undoes_trans _ _ _ _ _ _ _ Ht3 (undoes_trans _ _ _ _ _ _ _
        (undoes_env (Now (s_env s3)).2 s3) (undoes_log c [] e s4 eq_refl eq_refl))) as Hend end.
    simpl in Hend. split; [exact Hend | by eexists].
Qed.

(** The loop: every step to undo is undone in the order of the list, whatever
    earlier ones answered; the flag tells whether one failed. *)
Lemma run_compensate_all ses flag s :
  NoDup (map se_StepID ses) ->
  (forall se, se ∈ ses -> findStep (s_exec s) (se_StepID se) = Some se) ->
  let names := map se_StepID ses in
  let '(flag', s') := run (compensate_all p ses flag) s in
  undoes (filter (fun id => to_undo id = true) names)
    (filter (fun id => to_undo id = true /\ callable id = true) names) s s' /\
  (forall id, id ∈ names -> to_undo id = true -> exists se', findStep (s_exec s') id = Some se' /\
     undone (se_Status se')) /\
  (flag' = true <-> flag = true \/ exists id se', id ∈ names /\ to_undo id = true /\
     findStep (s_exec s') id = Some se' /\ se_Status se' = StepStatusCompensationFailed).
Proof.
  pose proof valid as [_ Hn _ _ _].
  revert flag s. induction ses as [|se ses IH]; intros flag s Hnd Hf names; cbn [compensate_all].
  - cbn. split; [apply undoes_refl |]. split; [by intros ? ?%not_elem_of_nil |].
    split; [by left | intros [? | (id & ? & ?%not_elem_of_nil & _)]; done].
  - unfold names. cbn [map]. rewrite !filter_cons. set (id := se_StepID se) in *.
    simpl in Hnd. apply list.NoDup_cons in Hnd as [Hid Hnd]. fold id in Hid.
    assert (forall se', se' ∈ ses -> se_StepID se' <> id) as Hne.
    { intros se' Hin Heq. apply Hid. rewrite <- Heq. by apply list_elem_of_fmap_2. }
    assert ((to_undo id = false \/ exists def, stepByID steps !! id = Some def /\
      String.eqb (sd_CompensationStepID def) "" = false /\ to_undo id = true)) as Hcase.
    { unfold to_undo. destruct (stepByID steps !! id) as [def|]; [| by left].
      destruct (String.eqb (sd_CompensationStepID def) "") eqn:Ec; [by left | right; by exists def]. }
    destruct Hcase as [Hno | (def & Hd & Hc & Hyes)].
    + rewrite !decide_False by (rewrite Hno; intuition discriminate).
      assert (run (match stepByID steps !! id with
        | Some def => if String.eqb (sd_CompensationStepID def) "" then compensate_all p ses flag
            else do! e := compensateOne p def se in
                 compensate_all p ses (match e with Some _ => true | None => flag end)
        | None => compensate_all p ses flag end) s = run (compensate_all p ses flag) s) as ->.
      { unfold to_undo in Hno. destruct (stepByID steps !! id) as [def|]; [| done].
        by destruct (String.eqb (sd_CompensationStepID def) ""). }
      specialize (IH flag s Hnd (fun se' Hin => Hf se' (list_elem_of_further _ _ _ Hin))). cbv zeta in IH.
      destruct (run (compensate_all p ses flag) s) as [flag' s']. destruct IH as (H1 & H2 & H3).
      split; [done |]. split.
      * intros x [-> | Hx]%elem_of_cons Hu; [congruence | by apply H2].
      * rewrite H3. split; (intros [? | (x & se' & Hx & Hrest)]; [by left | right; exists x, se']).
        -- split; [by right | done].
        -- apply elem_of_cons in Hx as [-> | Hx]; [destruct Hrest as [? _]; congruence | done].
    + rewrite Hd, Hc, run_bind. rewrite (decide_True (P := to_undo id = true)) by done.
      apply stepByID_lookup in Hd as Hd'; [| done]. destruct Hd' as [_ Hdid].
      pose proof (run_compensateOne def se s se Hd Hdid (Hf se ltac:(by left))) as H1. fold id in H1.
      destruct (run (compensateOne p def se) s) as [r s1]. destruct H1 as (Hu1 & se1 & Hse1 & Hst1).
      specialize (IH (match r with Some _ => true | None => flag end) s1 Hnd). cbv zeta in IH.
      destruct (run (compensate_all p ses _) s1) as [flag' s'].
      destruct IH as (Hu2 & H2 & H3).
      { intros se' Hin. destruct Hu1 as (_ & _ & Ho). rewrite Ho; [apply Hf; by right |].
        rewrite list_elem_of_singleton. by apply Hne. }
      assert (findStep (s_exec s') id = Some se1) as Hlast.
      { destruct Hu2 as (_ & _ & Ho). rewrite Ho; [done |]. rewrite list_elem_of_filter. tauto. }
      split; [| split].
      * assert (filter (fun id => to_undo id = true /\ callable id = true) (id :: map se_StepID ses) =
          (if callable id then [id] else []) ++ filter (fun id => to_undo id = true /\ callable id = true)
             (map se_StepID ses)) as Hfil.
        { rewrite filter_cons. rewrite Hyes. destruct (callable id); [by rewrite decide_True |].
          rewrite decide_False; [done |]. intuition discriminate. }
        rewrite filter_cons in Hfil. rewrite Hfil. eapply (undoes_trans [id]); done.
      * intros x [-> | Hx]%elem_of_cons Hux; [| by apply H2]. exists se1. split; [done |].
        destruct r; [by right | by left].
      * rewrite H3. split.
        -- intros [Hr | (x & se' & Hx & Hrest)].
           ++ destruct r as [e|]; [| by left]. right. exists id, se1. split; [by left | done].
           ++ right. exists x, se'. split; [by right | done].
        -- intros [Hfl | (x & se' & Hx & Hux & Hse' & Hst')].
           ++ left. by destruct r.
           ++ apply elem_of_cons in Hx as [-> | Hx].
              ** left. destruct r as [e|]; [done |]. congruence.
              ** right. by exists x, se'.
Qed.

(** [compensate] after a prefix of completed steps, known by the records [ses] in
    order of completion. *)
Lemma run_compensate cause ses s :
  NoDup (ids_of (s_exec s)) -> StronglySorted earlier ses ->
  (forall se, se ∈ ses <-> se ∈ ex_Steps (s_exec s) /\ se_Status se = StepStatusCompleted) ->
  let names := rev (map se_StepID ses) in
  let '(e, s') := run (compensate p cause) s in
  undoes (filter (fun id => to_undo id = true) names)
    (filter (fun id => to_undo id = true /\ callable id = true) names) s s' /\
  (forall id, id ∈ names -> to_undo id = true -> exists se', findStep (s_exec s') id = Some se' /\
     undone (se_Status se')) /\
  ((exists id se', id ∈ names /\ to_undo id = true /\
      findStep (s_exec s') id = Some se' /\ se_Status se' = StepStatusCompensationFailed) /\
    e = Wrap "original cause" (Sentinel ErrCompensationFailed) \/
   (forall id, id ∈ names -> to_undo id = true -> exists se', findStep (s_exec s') id = Some se' /\
     se_Status se' = StepStatusCompensated) /\ e = cause).
Proof.
  intros Hnd Hs Hel names. unfold compensate.
  set (x1 := set_status ExecutionStatusCompensating (s_exec s)).
  unfold on_exec. rewrite run_atom_bind. fold x1. rewrite run_read. unfold save. rewrite run_tell.
  cbn [s_exec put_exec]. set (r := (Save DetachedCtx (id x1) (s_env (put_exec x1 s))).1).
  set (s1 := put_log _ _). rewrite run_bind.
  assert (exists s2, run (record r) s1 = (tt, s2) /\ undoes [] [] s s2 /\ s_exec s2 = x1) as (s2 & Hrec & Hu2 & Hx2).
  { assert (undoes [] [] s s1) as Hu1.
    { split_and!; try done. by exists [CSave DetachedCtx ExecutionStatusCompensating]. }
    destruct r as [e|]; [| by exists s1]. unfold record. rewrite run_atom.
    destruct (s_errs s1). eexists. split; [done |]. split; [exact Hu1 | done]. }
  rewrite Hrec, run_read, run_ask. unfold emit. rewrite run_tell. cbn [s_exec put_env].
  rewrite Hx2. assert (completedStepsInOrder (id x1) = ses) as -> by by apply completed_in_order.
  set (s3 := put_log _ _). rewrite run_bind.
  assert (undoes [] [] s s3) as Hu3.
  { eapply (undoes_trans [] [] [] [] s s2 s3); [done |].
    eapply (undoes_trans [] [] [] [] _ _ _ (undoes_env _ s2)). by apply undoes_log. }
  assert (NoDup (map se_StepID ses)) as Hnames.
  { assert (completedStepsInOrder x1 = ses) as <- by by apply completed_in_order.
    unfold completedStepsInOrder. destruct (sorted_steps
      (filter (fun se => se_Status se = StepStatusCompleted) (ex_Steps x1))) as [_ Hp].
    change (NoDup (se_StepID <$> sortStepsByCompletedAt (filter (fun se => se_Status se = StepStatusCompleted) (ex_Steps x1)))).
    rewrite Hp. simpl. unfold ids_of in Hnd. clear - Hnd. induction (ex_Steps (s_exec s)) as [|se l IH]; [constructor |].
    simpl in Hnd. apply list.NoDup_cons in Hnd as [Hn Hnd]. rewrite filter_cons.
    destruct (decide _); [| by apply IH]. simpl. constructor; [| by apply IH].
    intros Hin. apply Hn. apply list_elem_of_fmap in Hin as (se' & -> & Hin).
    apply list_elem_of_filter in Hin as [_ Hin]. by apply list_elem_of_fmap_2. }
  pose proof (run_compensate_all (rev ses) false s3) as Hall. rewrite map_rev in Hall. cbv zeta in Hall.
  fold names in Hall. destruct (run (compensate_all p (rev ses) false) s3) as [flag s']. cbn [run].
  destruct Hall as (Hu & Hun & Hfl).
  { unfold names. by rewrite <- Permutation_rev. }
  { intros se Hin. rewrite <- Permutation_rev in Hin. apply Hel in Hin as [Hin _].
    destruct Hu3 as (_ & _ & Ho). rewrite Ho by apply not_elem_of_nil. by apply findStep_nodup. }
  split; [by apply (undoes_trans [] _ [] _ _ _ _ Hu3 Hu) |]. split; [done |].
  destruct flag.
  - left. split; [| done]. destruct Hfl as [Hfl _]. by destruct (Hfl eq_refl).
  - right. split; [| done]. intros id Hid Hto. destruct (Hun id Hid Hto) as (se' & Hse' & [Hst | Hst]);
      [by exists se' |]. assert (false = true); [| done]. apply Hfl. right. by exists id, se'.
Qed.

(** ** Skipping *)

(** [s'] is [s] with some pending steps of [D] skipped. *)
Definition skips (D : list string) s s' : Prop :=
  writes_only D s s' /\
  forall id se, findStep (s_exec s) id = Some se -> exists se', findStep (s_exec s') id = Some se' /\
    (se' = se \/ se_Status se = StepStatusPending /\ se_Status se' = StepStatusSkipped).

Lemma skips_refl D s : skips D s s.
Proof. split; [eapply writes_weaken; [apply (writes_refl []) | by intros ? ?%not_elem_of_nil] |]. intros id se Hf. exists se. auto. Qed.

Lemma skips_trans D s1 s2 s3 : skips D s1 s2 -> skips D s2 s3 -> skips D s1 s3.
Proof.
  intros [Hw1 H1] [Hw2 H2]. split.
  - eapply writes_weaken; [by eapply writes_trans |]. intros x [? | ?]%elem_of_app; done.
  - intros id se Hf. destruct (H1 id se Hf) as (se2 & Hf2 & Hc). destruct (H2 id se2 Hf2) as (se3 & Hf3 & Hc').
    exists se3. split; [done |]. destruct Hc as [-> | [Hp Hs]]; [done |].
    destruct Hc' as [-> | [Hp' _]]; [by right | congruence].
Qed.

Lemma skip_found c pre f later :
  f ∉ pre -> skipRemaining (V := V) (E := E) c (pre ++ f :: later) f false = skipRemaining c later f true.
Proof.
  induction pre as [|x pre IH]; simpl; [by rewrite String.eqb_refl |].
  intros Hn. apply not_elem_of_cons in Hn as [Hne Hn].
  rewrite (proj2 (String.eqb_neq x f)) by congruence. by apply IH.
Qed.

(** Past the failed step every pending step is skipped. *)
Lemma run_skip c later f (D : list string) s :
  f ∉ later -> (forall x, x ∈ later -> x ∈ D) ->
  skips D s (run (skipRemaining c later f true) s).2 /\
  forall id se, id ∈ later -> findStep (s_exec s) id = Some se ->
    exists se', findStep (s_exec (run (skipRemaining c later f true) s).2) id = Some se' /\
      se_Status se' <> StepStatusPending.
Proof.
  revert s. induction later as [|x later IH]; intros s Hf HD; cbn [skipRemaining].
  - split; [apply skips_refl | by intros ? ? ?%not_elem_of_nil].
  - apply not_elem_of_cons in Hf as [Hne Hf]. rewrite (proj2 (String.eqb_neq x f)) by congruence. cbn [negb].
    rewrite run_read, run_bind.
    set (m := match findStep (s_exec s) x with
              | Some se => if bool_decide (se_Status se = StepStatusPending)
                  then do! r := markStep c x StepStatusSkipped (Plain "") in record r else Ret tt
              | None => Ret tt end).
    assert (skips D s (run m s).2 /\ forall se, findStep (s_exec s) x = Some se -> exists se',
      findStep (s_exec (run m s).2) x = Some se' /\ se_Status se' <> StepStatusPending) as [Hs1 Hx1].
    { unfold m. destruct (findStep (s_exec s) x) as [se|] eqn:Ef; [| split; [apply skips_refl | done]].
      destruct (bool_decide (se_Status se = StepStatusPending)) eqn:Ep; bool_to_prop.
      - destruct (run_mark c x StepStatusSkipped (Plain "") s) as [Hw Hm].
        destruct (Hm se Ef) as (now & Hm1 & _). clear Hm. split; [split |].
        + eapply writes_weaken; [done |]. intros y ->%list_elem_of_singleton. apply HD. by left.
        + intros id se0 Hf0. destruct (decide (id = x)) as [-> | Hnx].
          * eexists. split; [done |]. right. split; [congruence | done].
          * destruct Hw as (_ & _ & Ho & _). exists se0. rewrite Ho by by rewrite list_elem_of_singleton. auto.
        + intros se0 _. eexists. split; [exact Hm1 | done].
      - split; [apply skips_refl |]. intros se0 [= <-]. by exists se. }
    destruct (run m s) as [[] s1]. cbn [snd] in *.
    destruct (IH s1 Hf (fun y Hy => HD y (list_elem_of_further _ _ _ Hy))) as [Hs2 Hx2].
    split; [by eapply skips_trans |]. intros id se Hid Hfid.
    destruct Hs1 as [_ Hall]. destruct (Hall id se Hfid) as (se1 & Hf1 & _).
    apply elem_of_cons in Hid as [-> | Hid]; [| by apply (Hx2 id se1)].
    destruct (Hx1 se Hfid) as (se2 & Hf2 & Hst). destruct Hs2 as [_ Hall2].
    destruct (Hall2 x se2 Hf2) as (se3 & Hf3 & [-> | [Hp _]]); [by exists se2 | congruence].
Qed.

(** ** The loop *)

Section loop.
Context (s0 : shared (V := V) (E := E)).

(** After the steps of [done]: their records [ses] are COMPLETED in order of
    completion, the others are as at the start, and the trace has the attempts of
    the steps of [done] one after the other. *)
Record saga_inv (done : list string) (ses : list (StepExecution V)) s : Prop := {
  si_ids : ids_of (s_exec s) = ids;
  si_names : map se_StepID ses = done;
  si_recs se : se ∈ ses -> findStep (s_exec s) (se_StepID se) = Some se /\
    se_Status se = StepStatusCompleted /\ exists t, se_CompletedAt se = Some t /\ t <= vt (s_env s);
  si_sorted : StronglySorted earlier ses;
  si_rest id : id ∉ done -> findStep (s_exec s) id = findStep (s_exec s0) id;
  si_tries id : id ∈ done -> exists m def, stepByID steps !! id = Some def /\
    tries id (s_log s) = seqZ 1 m /\ 1 <= m <= max_attempts def;
  si_log : (forall x, x ∈ execs (s_log s) -> x ∈ done) /\ comps (s_log s) = [];
  si_order i j x y : done !! i = Some x -> done !! j = Some y -> (i < j)%nat -> before (s_log s) x y;
}.

Lemma saga_inv_env done ses e s : saga_inv done ses s -> vt (s_env s) <= vt e -> saga_inv done ses (put_env e s).
Proof.
  intros [H1 H2 H3 H4 H5 H6 H7 H8] Hv. constructor; try done.
  intros se Hse. destruct (H3 se Hse) as (? & ? & t & ? & ?). split_and!; [done | done |].
  exists t. split; [done | simpl; lia].
Qed.

(** One step of the loop: its goroutine, alone. *)
Lemma saga_step done ses def s :
  fresh p s0 -> saga_inv done ses s -> stepByID steps !! sd_ID def = Some def -> sd_ID def ∉ done ->
  NoDup done ->
  let '(r, s') := run (runOneStep p def) s in
  (forall id, id ∉ done -> id <> sd_ID def -> findStep (s_exec s') id = findStep (s_exec s0) id) /\
  match r with
  | None => exists se, saga_inv (done ++ [sd_ID def]) (ses ++ [se]) s'
  | Some _ =>
      (exists se, findStep (s_exec s') (sd_ID def) = Some se /\ se_Status se = StepStatusFailed) /\
      ids_of (s_exec s') = ids /\
      (forall se, se ∈ ses -> findStep (s_exec s') (se_StepID se) = Some se) /\
      (exists l, s_log s' = s_log s ++ l /\ (forall x, x ∈ execs l -> x = sd_ID def) /\ comps l = [])
  end.
Proof.
  intros Hfr [H1 H2 H3 H4 H5 H6 [H7 H7'] H8] Hd Hnew Hnd. pose proof valid as [_ Hn _ _ _].
  apply stepByID_lookup in Hd as Hd'; [| done]. destruct Hd' as [Hin _].
  assert (sd_ID def ∈ ids) as Hid by by apply list_elem_of_fmap_2.
  destruct (fr_steps _ _ Hfr _ Hid) as (se0 & Hse0 & Hst0 & Hc0).
  pose proof (run_step_alone p def (vt (s_env s)) any_step s) as Hrun.
  destruct (run (runOneStep p def) s) as [r s'].
  destruct Hrun as [Hpost ((l & Hl & Hown) & Hi & Ho & Hv)]; [| done |].
  { exists se0. rewrite H5 by done. split; [done |]. split; [done |]. intros t. by rewrite Hc0. }
  destruct (own_execs _ _ Hown) as [Hox Hoc].
  assert (forall x, x ∈ done -> x ∉ execs l) as Hdl by (intros x Hx Hxl; apply Hnew; by rewrite <- (Hox x Hxl)).
  split; [intros id Hnid Hne; by rewrite Ho, H5 |].
  assert (forall se, se ∈ ses -> findStep (s_exec s') (se_StepID se) = Some se) as Hkeep.
  { intros se Hse. rewrite Ho; [by apply H3 |]. intros Heq. apply Hnew. rewrite <- Heq, <- H2. by apply list_elem_of_fmap_2. }
  destruct r as [e|].
  - destruct Hpost as (m & _ & _ & _ & se & Hse & Hst & _). split; [by exists se |].
    split; [by rewrite Hi |]. split; [done | by exists l].
  - destruct Hpost as (m & Hm & Ht & _ & se & Hse & [Hst (t & Hct & Hlt)] & Hle). exists se.
    assert (se_StepID se = sd_ID def) as Hsid by by apply findStep_id in Hse as [? _].
    constructor.
    + by rewrite Hi.
    + by rewrite map_app, H2; simpl; rewrite Hsid.
    + intros se' [Hse' | ->%list_elem_of_singleton]%elem_of_app.
      * destruct (H3 se' Hse') as (_ & ? & t' & ? & ?). split; [by apply Hkeep |]. split; [done |]. exists t'. split; [done | lia].
      * rewrite Hsid. split; [done |]. split; [done |]. exists t. split; [done | by apply Hle].
    + apply StronglySorted_app_2; [| done | repeat constructor]. intros se1 se2 Hs1 ->%list_elem_of_singleton.
      destruct (H3 se1 Hs1) as (_ & _ & t' & Hct' & ?). exists t', t. split; [done |]. split; [done | lia].
    + intros id Hid'. rewrite elem_of_app, list_elem_of_singleton in Hid'. rewrite Ho, H5 by tauto. done.
    + intros id [Hid' | ->%list_elem_of_singleton]%elem_of_app.
      * destruct (H6 id Hid') as (m' & d & ? & Ht' & ?). exists m', d. split_and!; [done | | lia | lia].
        rewrite Hl, tries_app, Ht', (tries_not_exec id l), app_nil_r by by apply Hdl. done.
      * exists m, def. split_and!; [done | | lia | lia].
        rewrite Ht, (tries_not_exec _ (s_log s)); [done |]. intros Hx. by apply Hnew, H7.
    + rewrite Hl, comps_app, H7', Hoc. split; [| done]. intros x. rewrite execs_app, !elem_of_app, list_elem_of_singleton.
      intros [? | ?]; [left; by apply H7 | right; by apply Hox].
    + intros i j x y Hx Hy Hij. rewrite Hl. apply lookup_app_Some in Hy as [Hy | [Hge Hy]].
      * assert (i < length done)%nat by (apply lookup_lt_Some in Hy; lia).
        rewrite lookup_app_l in Hx by done. apply before_app; [by eapply H8 |].
        apply Hdl. by eapply list_elem_of_lookup_2.
      * assert (y = sd_ID def /\ j = length done) as [-> ->].
        { destruct (j - length done)%nat as [|k] eqn:Ek; [| done]. injection Hy as ->. split; [done | lia]. }
        rewrite lookup_app_l in Hx by done. exists (s_log s), l. split; [done |]. split.
        -- intros Hxx. by apply Hnew, H7.
        -- apply Hdl. by eapply list_elem_of_lookup_2.
Qed.

(** The loop stopped at [f] with the steps of [done] completed, before compensation. *)
Record stopped (done : list string) (ses : list (StepExecution V)) (f : string) s : Prop := {
  st_ids : ids_of (s_exec s) = ids;
  st_names : map se_StepID ses = done;
  st_recs se : se ∈ ses -> findStep (s_exec s) (se_StepID se) = Some se /\ se_Status se = StepStatusCompleted;
  st_sorted : StronglySorted earlier ses;
  st_rest id se : id ∉ done -> findStep (s_exec s) id = Some se -> se_Status se <> StepStatusCompleted;
  st_tries id : id ∈ done -> exists m def, stepByID steps !! id = Some def /\
    tries id (s_log s) = seqZ 1 m /\ 1 <= m <= max_attempts def;
  st_log : (forall x, x ∈ execs (s_log s) -> x ∈ done \/ x = f) /\ comps (s_log s) = [];
  st_order i j x y : (done ++ [f]) !! i = Some x -> (done ++ [f]) !! j = Some y -> (i < j)%nat ->
    before (s_log s) x y;
}.

(** What a saga leaves. *)
Definition saga_result (order : list string) (r : option pl_error) s : Prop :=
  exists done rest, order = done ++ rest /\
  (forall id, id ∈ done -> exists m def, stepByID steps !! id = Some def /\
     tries id (s_log s) = seqZ 1 m /\ 1 <= m <= max_attempts def) /\
  (forall i j x y, order !! i = Some x -> order !! j = Some y -> (i < j)%nat -> before (s_log s) x y) /\
  match r with
  | None => rest = [] /\ comps (s_log s) = [] /\
      forall id, id ∈ done -> exists se, findStep (s_exec s) id = Some se /\ se_Status se = StepStatusCompleted
  | Some e => rest <> [] /\ (forall id, id ∈ tail rest -> tries id (s_log s) = []) /\
      comps (s_log s) = filter (fun id => to_undo id = true /\ callable id = true) (rev done) /\
      (exists l1 l2, s_log s = l1 ++ l2 /\ comps l1 = [] /\ execs l2 = []) /\
      ((exists id se, id ∈ done /\ to_undo id = true /\ findStep (s_exec s) id = Some se /\
          se_Status se = StepStatusCompensationFailed) /\ errors_is e ErrCompensationFailed = true \/
       (forall id, id ∈ done -> to_undo id = true -> exists se, findStep (s_exec s) id = Some se /\
          se_Status se = StepStatusCompensated))
  end.

Lemma saga_stop done ses f later cause s :
  NoDup (done ++ f :: later) -> stopped done ses f s ->
  let '(e, s') := run (compensate p cause) s in saga_result (done ++ f :: later) (Some e) s'.
Proof.
  intros Hnd [H1 H2 H3 H4 H5 H6 [H7 H7'] H8]. pose proof valid as [_ Hn _ _ _].
  assert (NoDup (ids_of (s_exec s))) as Hni by by rewrite H1.
  pose proof (run_compensate cause ses s Hni H4) as Hc. cbv zeta in Hc. rewrite H2 in Hc.
  destruct (run (compensate p cause) s) as [e s'].
  destruct Hc as [((l & Hl & Hlx & Hlc) & _ & Ho) [_ Hend]].
  { intros se. split.
    - intros Hse. destruct (H3 se Hse) as [Hf ?]. by apply findStep_id in Hf as [_ ?].
    - intros [Hse Hst]. pose proof (findStep_nodup _ _ Hni Hse) as Hf.
      destruct (decide (se_StepID se ∈ done)) as [Hin | Hin]; [| by destruct (H5 _ _ Hin Hf)].
      rewrite <- H2 in Hin. apply list_elem_of_fmap in Hin as (se' & Heq & Hin).
      destruct (H3 se' Hin) as [Hf' _]. assert (se = se') as -> by congruence. done. }
  assert (execs (s_log s') = execs (s_log s)) as Hex by (by rewrite Hl, execs_app, Hlx, app_nil_r).
  assert (forall x, tries x l = []) as Htl by (intros x; apply tries_not_exec; rewrite Hlx; apply not_elem_of_nil).
  assert (forall x, x ∈ later -> x ∉ execs (s_log s')) as Hlater.
  { intros x Hx. rewrite Hex. intros Hin. apply list.NoDup_app in Hnd as (_ & Hd & Hnd).
    apply list.NoDup_cons in Hnd as [Hnf _]. destruct (H7 x Hin) as [Hxd | ->]; [| done].
    apply (Hd x Hxd). by right. }
  exists done, (f :: later). split; [done |]. split; [| split; [| split; [done |]]].
  - intros id Hid. destruct (H6 id Hid) as (m & def & ? & Ht & ?). exists m, def.
    split_and!; [done | | lia | lia]. by rewrite Hl, tries_app, Htl, app_nil_r.
  - intros i j x y Hx Hy Hij.
    assert (forall k z, (done ++ f :: later) !! k = Some z -> (k <= length done)%nat ->
      (done ++ [f]) !! k = Some z) as Hsmall.
    { intros k z Hk Hle. destruct (decide (k < length done)%nat).
      - rewrite lookup_app_l in * by done. done.
      - replace k with (length done) in * by lia. rewrite lookup_app_r, Nat.sub_diag in * by lia. done. }
    assert (forall k z, (done ++ f :: later) !! k = Some z -> ~ (k <= length done)%nat -> z ∈ later) as Hbig.
    { intros k z Hk Hgt. rewrite lookup_app_r in Hk by lia.
      destruct (k - length done)%nat as [|k'] eqn:Ek; [lia |]. simpl in Hk. by eapply list_elem_of_lookup_2. }
    destruct (decide (j <= length done)%nat) as [Hj | Hj].
    + rewrite Hl. apply before_app; [| rewrite Hlx; apply not_elem_of_nil].
      apply (H8 i j); [apply Hsmall; [done | lia] | by apply Hsmall | done].
    + exists (s_log s'), []. rewrite app_nil_r. split; [done |]. split; [| apply not_elem_of_nil].
      apply Hlater. by eapply Hbig.
  - split; [intros id Hid; by apply tries_not_exec, Hlater |].
    split; [by rewrite Hl, comps_app, H7', Hlc |]. split; [by exists (s_log s), l |].
    assert (forall x, x ∈ rev done <-> x ∈ done) as Hrev by (intros x; by rewrite <- Permutation_rev).
    destruct Hend as [[(id & se & Hid & ? & ? & ?) ->] | [Hall _]].
    + left. split; [| done]. exists id, se. by rewrite <- Hrev.
    + right. intros id Hid. apply Hall. by apply Hrev.
Qed.

Lemma saga_loop rest done ses s :
  fresh p s0 -> NoDup (done ++ rest) -> (forall id, id ∈ done ++ rest -> id ∈ ids) ->
  saga_inv done ses s ->
  let '(r, s') := run (saga_steps p (done ++ rest) rest) s in saga_result (done ++ rest) r s'.
Proof.
  intros Hfr. pose proof valid as [_ Hn _ _ _].
  revert done ses s. induction rest as [|f later IH]; intros done ses s Hnd Hids Hinv; cbn [saga_steps].
  - cbn. rewrite app_nil_r in *. destruct Hinv as [H1 H2 H3 H4 H5 H6 [H7 H7'] H8].
    exists done, []. rewrite app_nil_r. split; [done |]. split; [done |]. split; [done |].
    split; [done |]. split; [done |]. intros id Hid. rewrite <- H2 in Hid.
    apply list_elem_of_fmap in Hid as (se & -> & Hin). destruct (H3 se Hin) as (? & ? & _). by exists se.
  - rewrite run_ask. pose proof (vt_ctx_Err (s_env s)) as Hv.
    destruct (ctx_Err (s_env s)) as [cerr e1]. cbn [fst snd] in *.
    apply (saga_inv_env _ _ e1) in Hinv; [| done]. set (s1 := put_env e1 s) in *.
    pose proof Hnd as Hnd'. apply list.NoDup_app in Hnd' as (Hndd & Hdis & Hndr).
    apply list.NoDup_cons in Hndr as [Hfl Hndl].
    assert (f ∉ done) as Hfd by (intros Hx; apply (Hdis f Hx); by left).
    destruct (stepByID_known steps f Hn) as (def & Hd & _ & Hfid); [apply Hids, elem_of_app; right; by left |].
    destruct cerr as [ce|].
    { rewrite run_bind. pose proof (saga_stop done ses f later (Sentinel ContextCanceled) s1 Hnd) as Hst.
      destruct (run (compensate p (Sentinel ContextCanceled)) s1) as [e s']. cbn [run]. apply Hst.
      destruct Hinv as [H1 H2 H3 H4 H5 H6 [H7 H7'] H8]. constructor; try done.
      - intros se Hse. by destruct (H3 se Hse) as (? & ? & _).
      - intros id se Hid Hf. rewrite H5 in Hf by done.
        assert (id ∈ ids) as Hk.
        { rewrite <- (fr_ids _ _ Hfr). apply findStep_is_Some. by exists se. }
        destruct (fr_steps _ _ Hfr id Hk) as (se' & Hf' & Hp & _). congruence.
      - split; [| done]. intros x Hx. left. by apply H7.
      - intros i j x y Hx Hy Hij. apply lookup_app_Some in Hy as [Hy | [Hge Hy]].
        + assert (i < length done)%nat by (apply lookup_lt_Some in Hy; lia).
          rewrite lookup_app_l in Hx by done. by eapply H8.
        + assert (y = f) as ->.
          { destruct (j - length done)%nat as [|k] eqn:Ek; [by injection Hy | done]. }
          exists (s_log s1), []. rewrite app_nil_r. split; [done |]. split; [| apply not_elem_of_nil].
          intros Hx'. by apply Hfd, H7. }
    rewrite Hd, run_bind. pose proof (saga_step done ses def s1 Hfr Hinv) as Hone. rewrite Hfid in Hone.
    specialize (Hone Hd Hfd Hndd). destruct (run (runOneStep p def) s1) as [r s2].
    destruct Hone as [Hrest Hone]. destruct r as [err|].
    + rewrite run_ask. pose proof (vt_ctx_Err (s_env s2)) as Hv2.
      destruct (ctx_Err (s_env s2)) as [cerr2 e2]. cbn [fst snd] in *. set (s3 := put_env e2 s2).
      set (cause := if is_canceled cerr2 || errors_is err ContextCanceled then Sentinel ContextCanceled else err).
      rewrite run_bind, skip_found by done.
      destruct (run_skip DetachedCtx later f later s3 Hfl (fun x Hx => Hx)) as [Hsk _].
      destruct (run (skipRemaining DetachedCtx later f true) s3) as [[] s4]. cbn [snd] in Hsk.
      rewrite run_bind. pose proof (saga_stop done ses f later cause s4 Hnd) as Hst.
      destruct (run (compensate p cause) s4) as [e s']. cbn [run]. apply Hst.
      destruct Hinv as [H1 H2 H3 H4 H5 H6 [H7 H7'] H8].
      destruct Hone as ((sef & Hsef & Hstf) & Hi2 & Hkeep & l & Hl & Hox & Hoc).
      destruct Hsk as [((l' & Hl' & Hlx' & Hlc') & Hi4 & Ho4 & _) Hall4].
      assert (s_log s4 = s_log s1 ++ l ++ l') as Hlog by (by rewrite Hl'; cbn [s3 s_log put_env]; rewrite Hl, <- app_assoc).
      assert (forall x, x ∈ done -> x ∉ execs (l ++ l')) as Hdl.
      { intros x Hx. rewrite execs_app, Hlx', app_nil_r. intros Hxl. apply Hfd. by rewrite <- (Hox x Hxl). }
      assert (forall x, x ∈ done -> x ∉ later) as Hdla by (intros x Hx Hxl; apply (Hdis x Hx); by right).
      constructor.
      * by rewrite Hi4.
      * done.
      * intros se Hse. split; [| by apply H3]. rewrite Ho4; [by apply Hkeep |].
        apply Hdla. rewrite <- H2. by apply list_elem_of_fmap_2.
      * done.
      * intros id se Hid Hf4.
        assert (is_Some (findStep (s_exec s3) id)) as [se3 Hf3].
        { apply findStep_is_Some. rewrite <- Hi4. apply findStep_is_Some. by exists se. }
        destruct (Hall4 id se3 Hf3) as (se' & Hf4' & Hc). assert (se' = se) as -> by congruence.
        assert (se_Status se3 <> StepStatusCompleted) as Hns.
        { destruct (decide (id = f)) as [-> | Hne]; [cbn in Hf3; congruence |].
          cbn in Hf3. rewrite (Hrest id Hid Hne) in Hf3.
          assert (id ∈ ids) as Hk by (rewrite <- (fr_ids _ _ Hfr); apply findStep_is_Some; by exists se3).
          destruct (fr_steps _ _ Hfr id Hk) as (se'' & Hf' & Hp & _). congruence. }
        destruct Hc as [-> | [_ Hsk]]; [done | congruence].
      * intros id Hid. destruct (H6 id Hid) as (m & d & ? & Ht & ?). exists m, d.
        split_and!; [done | | lia | lia]. rewrite Hlog, tries_app, Ht.
        rewrite (tries_not_exec id (l ++ l')) by by apply Hdl. by rewrite app_nil_r.
      * rewrite Hlog, !comps_app, H7', Hoc, Hlc'. split; [| done]. intros x.
        rewrite !execs_app, Hlx', app_nil_r, elem_of_app. intros [? | ?]; [left; by apply H7 | right; by apply Hox].
      * intros i j x y Hx Hy Hij. rewrite Hlog. apply lookup_app_Some in Hy as [Hy | [Hge Hy]].
        -- assert (i < length done)%nat by (apply lookup_lt_Some in Hy; lia).
           rewrite lookup_app_l in Hx by done. apply before_app; [by eapply H8 |].
           apply Hdl. by eapply list_elem_of_lookup_2.
        -- assert (y = f /\ j = length done) as [-> ->].
           { destruct (j - length done)%nat as [|k] eqn:Ek; [| done]. injection Hy as ->. split; [done | lia]. }
           rewrite lookup_app_l in Hx by done. exists (s_log s1), (l ++ l'). split; [done |]. split.
           ++ intros Hxx. by apply Hfd, H7.
           ++ apply Hdl. by eapply list_elem_of_lookup_2.
    + destruct Hone as [se Hinv2]. rewrite (app_assoc done [f] later : done ++ f :: later = _) in *.
      by apply (IH (done ++ [f]) (ses ++ [se]) s2).
Qed.

(** C9. A deployment saga is all or compensated. It runs the steps in an order that
    respects the dependencies, one after the other, each with attempts [1 .. m]
    within its retry budget. If it answers no error every step is COMPLETED and
    nothing is compensated. If it stops before the end (a step failed for good or
    the run was cancelled), the steps after the stopping point were never tried,
    and then, after the last attempt, exactly the completed steps that have
    something to undo are compensated, in the reverse of the order in which they
    completed, every one of them even when some compensations fail; all of them
    end COMPENSATED unless the error is [ErrCompensationFailed]. *)
Theorem saga_compensates_in_reverse r s' :
  fresh p s0 -> run (runStepsSaga p) s0 = (r, s') ->
  exists order, topoOrder steps = Ok order /\ order ≡ₚ ids /\
    (forall y d, y ∈ ids -> d ∈ deps_of steps y ->
       exists before after, order = before ++ after /\ d ∈ before /\ y ∈ after) /\
    saga_result order r s'.
Proof.
  intros Hfr Hrun. pose proof valid as [_ Hn _ _ _].
  destruct (valid_graph_levels steps valid) as (levels & Hlv & [Hli Hlnd Hll _ _]).
  assert (topoOrder steps = Ok (concat levels)) as Ho by (unfold topoOrder; by rewrite Hlv).
  exists (concat levels). split; [done |]. split; [by apply NoDup_Permutation |]. split.
  - intros y d Hy Hd. apply Hli in Hy. apply elem_of_concat in Hy as (lv & Hy & Hlvl).
    apply list_elem_of_lookup_1 in Hlvl as [k Hk].
    destruct (Hll k lv y d Hk Hy Hd) as (j & lv' & Hj & Hlj & Hd').
    exists (concat (take k levels)), (concat (drop k levels)). rewrite <- concat_app, take_drop.
    split; [done |]. rewrite !elem_of_concat. split; [exists lv' | exists lv]; (split; [done |]).
    + apply list_elem_of_lookup_2 with j. by rewrite lookup_take_lt.
    + apply list_elem_of_lookup_2 with 0%nat. by rewrite lookup_drop, Nat.add_0_r.
  - unfold runStepsSaga in Hrun. rewrite Ho in Hrun.
    pose proof (saga_loop (concat levels) [] [] s0 Hfr Hlnd (fun id Hid => proj1 (Hli id) Hid)) as Hloop.
    simpl in Hloop. rewrite Hrun in Hloop. apply Hloop.
    destruct Hfr as [Hi Hs [Hl Hc]]. constructor; try done.
    + by intros se ?%not_elem_of_nil.
    + constructor.
    + by intros id ?%not_elem_of_nil.
    + rewrite Hl. split; [by intros x ?%not_elem_of_nil | done].
Qed.
End loop.
End saga.

(** ** The property at a concrete input *)

Definition demo_saga : option pl_error * shared (V := Z) (E := Z) :=
  run (runStepsSaga (demo_pipeline PipelineTypeDeploymentSaga)) demo_start.

Lemma saga_compensates_in_reverse_witness :
  execs (s_log (snd demo_saga)) = ["validate"; "build"; "canary"; "promote"; "promote"] /\
  comps (s_log (snd demo_saga)) = ["canary"; "build"] /\
  exists order, topoOrder demo_steps = Ok order /\ order ≡ₚ step_ids demo_steps /\
    (forall y d, y ∈ step_ids demo_steps -> d ∈ deps_of demo_steps y ->
       exists before after, order = before ++ after /\ d ∈ before /\ y ∈ after) /\
    saga_result (demo_pipeline PipelineTypeDeploymentSaga) order (fst demo_saga) (snd demo_saga).
Proof.
  split; [vm_compute; reflexivity |]. split; [vm_compute; reflexivity |].
  exact (saga_compensates_in_reverse (demo_pipeline PipelineTypeDeploymentSaga) (demo_valid _) demo_start
    (fst demo_saga) (snd demo_saga) (demo_fresh _) (surjective_pairing _)).
Defined.
