(* ===== verification/PipelineService.v ===== *)
(** * The pipeline service

    The use-cases of [services/pipeline-orchestrator/internal/domain/pipeline_service_impl.go]
    around the engine of [PipelineRun]: the settlement of a run, and the tenant-scoped
    operations on pipelines and executions over their repositories. *)

From stdpp Require Import pretty.
From S2P Require Import Prelude Concur PipelineGraph PipelineRun PipelineSteps PipelineDag PipelineSaga.
Open Scope Z_scope.
Open Scope fp_scope.

(** ** Inputs (pipeline_service.go, ports.go) *)

Record Actor := { a_Subject : string; a_Team : string }.

Section inputs.
Context {V : Type}.
Record CreatePipelineInput := {
  cp_Name : string; cp_Type : Z; cp_Steps : list (StepDefinition V); cp_IdempotencyKey : string }.
Record UpdatePipelineInput := { up_ID : string; up_Name : string; up_Steps : list (StepDefinition V) }.
Record TriggerInput := { ti_PipelineID : string; ti_Input : gmap string V; ti_IdempotencyKey : string }.
End inputs.
Arguments CreatePipelineInput V : clear implicits.
Arguments UpdatePipelineInput V : clear implicits.
Arguments TriggerInput V : clear implicits.

Record ListOptions := { PageSize : Z; PageToken : string }.
Record ListPipelinesFilter := { lp_Team : string; lp_Type : Z; lp_List : ListOptions }.
Record ListExecutionsFilter := {
  le_Team : string; le_PipelineID : string; le_Status : ExecutionStatus; le_List : ListOptions }.

(** ** The repositories, the id source and the live runs' contexts *)

Class ServiceEnv (V E : Type) `{Env V E} : Type := {
  p_Create : PipelineDefinition V -> string -> E -> result (PipelineDefinition V) pl_error * E;
  p_GetByID : string -> E -> result (PipelineDefinition V) pl_error;
  p_Update : PipelineDefinition V -> E -> result (PipelineDefinition V) pl_error * E;
  p_Archive : string -> E -> option pl_error * E;
  p_List : ListPipelinesFilter -> E -> result (list (PipelineDefinition V) * string) pl_error;
  x_Create : Execution V -> string -> E -> result (Execution V) pl_error * E;
  x_GetByID : string -> E -> result (Execution V) pl_error;
  x_List : ListExecutionsFilter -> E -> result (list (Execution V) * string) pl_error;
  NewID : E -> string * E;
  (** [lookupCancel] found this run: cancelling its context. *)
  live : string -> E -> bool;
  cancel : string -> E -> E;
  (** One round of [awaitTerminal]'s wait; [true]: the request ended or 5s have passed. *)
  await_round : E -> bool * E;
}.

Section service.
Context {V E : Type} `{ServiceEnv V E}.
Implicit Types e : E.

(** ** Pipelines *)

Definition CreatePipeline (actor : Actor) (input : CreatePipelineInput V) e
    : result (PipelineDefinition V) pl_error * E :=
  match validateGraph (cp_Type input) (cp_Steps input) with
  | Some err => (Err err, e)
  | None =>
      let '(pid, e) := NewID e in
      let '(now, e) := Now e in
      let p := {|
        pd_ID := pid; pd_Name := cp_Name input; pd_Type := cp_Type input;
        pd_Steps := cloneStepsClamped (cp_Steps input); pd_CreatedBy := a_Subject actor;
        pd_CreatedAt := now; pd_Team := a_Team actor; pd_Archived := false |} in
      match p_Create p (cp_IdempotencyKey input) e with
      | (Ok created, e) => (Ok created, e)
      | (Err err, e) => (Err (Wrap "create pipeline" err), e)
      end
  end.

Definition GetPipeline (actor : Actor) (pid : string) e : result (PipelineDefinition V) pl_error :=
  match p_GetByID pid e with
  | Err err => if errors_is err ErrRepoNotFound then Err (Sentinel ErrPipelineNotFound)
               else Err (Wrap "get pipeline" err)
  | Ok p => if negb (String.eqb (pd_Team p) (a_Team actor)) then Err (Sentinel ErrPipelineNotFound) else Ok p
  end.

Definition set_graph (name : string) (steps : list (StepDefinition V)) (p : PipelineDefinition V)
    : PipelineDefinition V := {|
  pd_ID := pd_ID p; pd_Name := name; pd_Type := pd_Type p; pd_Steps := steps;
  pd_CreatedBy := pd_CreatedBy p; pd_CreatedAt := pd_CreatedAt p; pd_Team := pd_Team p;
  pd_Archived := pd_Archived p |}.

Definition UpdatePipeline (actor : Actor) (input : UpdatePipelineInput V) e
    : result (PipelineDefinition V) pl_error * E :=
  match GetPipeline actor (up_ID input) e with
  | Err err => (Err err, e)
  | Ok existing =>
      match validateGraph (pd_Type existing) (up_Steps input) with
      | Some err => (Err err, e)
      | None =>
          match p_Update (set_graph (up_Name input) (cloneStepsClamped (up_Steps input)) existing) e with
          | (Ok updated, e) => (Ok updated, e)
          | (Err err, e) =>
              (if errors_is err ErrRepoNotFound then Err (Sentinel ErrPipelineNotFound)
               else Err (Wrap "update pipeline" err), e)
          end
      end
  end.

Definition DeletePipeline (actor : Actor) (pid : string) e : option pl_error * E :=
  match GetPipeline actor pid e with
  | Err err => (Some err, e)
  | Ok _ =>
      match p_Archive pid e with
      | (None, e) => (None, e)
      | (Some err, e) =>
          (Some (if errors_is err ErrRepoNotFound then Sentinel ErrPipelineNotFound
                 else Wrap "archive pipeline" err), e)
      end
  end.

Definition clamp_list (o : ListOptions) : ListOptions :=
  {| PageSize := clampPageSize (PageSize o); PageToken := PageToken o |}.

Definition ListPipelines (actor : Actor) (f : ListPipelinesFilter) e :=
  p_List {| lp_Team := a_Team actor; lp_Type := lp_Type f; lp_List := clamp_list (lp_List f) |} e.

(** ** Executions *)

(** The records of [newPendingExecution], each with an id of its own. *)
Fixpoint pending_steps (xid : string) (steps : list (StepDefinition V)) e : list (StepExecution V) * E :=
  match steps with
  | [] => ([], e)
  | def :: steps =>
      let '(sid, e) := NewID e in
      let '(rest, e) := pending_steps xid steps e in
      ({| se_ID := sid; se_ExecutionID := xid; se_StepID := sd_ID def; se_StepType := sd_Type def;
          se_Status := StepStatusPending; se_StartedAt := None; se_CompletedAt := None;
          se_Output := ∅; se_Error := Plain ""; se_Attempt := 0 |} :: rest, e)
  end.

Definition newPendingExecution (actor : Actor) (p : PipelineDefinition V) (input : TriggerInput V) e
    : Execution V * E :=
  let '(xid, e) := NewID e in
  let '(now, e) := Now e in
  let '(recs, e) := pending_steps xid (pd_Steps p) e in
  ({| ex_ID := xid; ex_PipelineID := pd_ID p; ex_Status := ExecutionStatusPending; ex_CurrentStep := "";
      ex_Steps := recs; ex_TriggeredBy := a_Subject actor; ex_StartedAt := now; ex_CompletedAt := None;
      ex_Input := ti_Input input; ex_Error := Plain "" |}, e).

Definition start_state (x : Execution V) e : shared (V := V) (E := E) :=
  {| s_env := e; s_exec := x; s_errs := (0, None); s_log := [] |}.

(** What [run] answers its caller: the settled execution, or the error. *)
Definition run_answer (r : option (Execution V) * option pl_error) : result (Execution V) pl_error :=
  match r with
  | (_, Some err) => Err err
  | (Some x, None) => Ok x
  | (None, None) => Err (External "unreachable")
  end.

(** [run] on a pipeline: sagas are sequential, everything else is a DAG. *)
Inductive run_pipeline (p : PipelineDefinition V) (x : Execution V) e :
    result (Execution V) pl_error -> E -> Prop :=
| RunSaga r s' : IsSaga (pd_Type p) = true -> run (run_saga p) (start_state x e) = (r, s') ->
    run_pipeline p x e (run_answer r) (s_env s')
| RunDAG r s' : IsSaga (pd_Type p) = false -> run_dag p (start_state x e) r s' ->
    run_pipeline p x e (run_answer r) (s_env s').

Inductive TriggerExecution (actor : Actor) (input : TriggerInput V) e :
    result (Execution V) pl_error -> E -> Prop :=
| TriggerMissing err : p_GetByID (ti_PipelineID input) e = Err err ->
    TriggerExecution actor input e
      (Err (if errors_is err ErrRepoNotFound then Sentinel ErrPipelineNotFound else Wrap "load pipeline" err)) e
| TriggerForeign p : p_GetByID (ti_PipelineID input) e = Ok p -> pd_Team p <> a_Team actor ->
    TriggerExecution actor input e (Err (Sentinel ErrPipelineNotFound)) e
| TriggerArchived p : p_GetByID (ti_PipelineID input) e = Ok p -> pd_Team p = a_Team actor ->
    pd_Archived p = true -> TriggerExecution actor input e (Err (Sentinel ErrPipelineArchived)) e
| TriggerNotStored p x e1 err e2 : p_GetByID (ti_PipelineID input) e = Ok p -> pd_Team p = a_Team actor ->
    pd_Archived p = false -> newPendingExecution actor p input e = (x, e1) ->
    x_Create x (ti_IdempotencyKey input) e1 = (Err err, e2) ->
    TriggerExecution actor input e (Err (Wrap "persist execution" err)) e2
| TriggerReplayed p x e1 stored e2 : p_GetByID (ti_PipelineID input) e = Ok p -> pd_Team p = a_Team actor ->
    pd_Archived p = false -> newPendingExecution actor p input e = (x, e1) ->
    x_Create x (ti_IdempotencyKey input) e1 = (Ok stored, e2) ->
    ex_ID stored <> ex_ID x \/ ex_Status stored <> ExecutionStatusPending ->
    TriggerExecution actor input e (Ok stored) e2
| TriggerRun p x e1 stored e2 r e3 : p_GetByID (ti_PipelineID input) e = Ok p -> pd_Team p = a_Team actor ->
    pd_Archived p = false -> newPendingExecution actor p input e = (x, e1) ->
    x_Create x (ti_IdempotencyKey input) e1 = (Ok stored, e2) ->
    ex_ID stored = ex_ID x -> ex_Status stored = ExecutionStatusPending ->
    run_pipeline p x e2 r e3 -> TriggerExecution actor input e r e3.

Definition authorizeExecution (actor : Actor) (x : Execution V) e : option pl_error :=
  match p_GetByID (ex_PipelineID x) e with
  | Err _ => Some (Sentinel ErrExecutionNotFound)
  | Ok p => if negb (String.eqb (pd_Team p) (a_Team actor)) then Some (Sentinel ErrExecutionNotFound) else None
  end.

(** The load and the authorization [GetExecution] and [CancelExecution] share. *)
Definition load_execution (actor : Actor) (xid : string) (text : string) e : result (Execution V) pl_error :=
  match x_GetByID xid e with
  | Err err => if errors_is err ErrRepoNotFound then Err (Sentinel ErrExecutionNotFound) else Err (Wrap text err)
  | Ok x => match authorizeExecution actor x e with Some err => Err err | None => Ok x end
  end.

Definition GetExecution (actor : Actor) (xid : string) e : result (Execution V) pl_error :=
  load_execution actor xid "get execution" e.

(** Polls until the execution is terminal; a 5 second deadline and pauses of at
    least 5 milliseconds allow [rounds] = 1002 polls at most. *)
Fixpoint awaitTerminal (rounds : nat) (xid : string) e : Execution V * E :=
  let x := x_GetByID xid e in
  let last := match x with
    | Ok x => x
    | Err _ => {| ex_ID := xid; ex_PipelineID := ""; ex_Status := ExecutionStatusCompensating;
                  ex_CurrentStep := ""; ex_Steps := []; ex_TriggeredBy := ""; ex_StartedAt := 0;
                  ex_CompletedAt := None; ex_Input := ∅; ex_Error := Plain "" |}
    end in
  match rounds with
  | O => (last, e)
  | S rounds =>
      match x with
      | Ok x' =>
          if IsTerminal (ex_Status x') then (x', e)
          else let '(over, e) := await_round e in if (over : bool) then (last, e) else awaitTerminal rounds xid e
      | Err _ =>
          let '(over, e) := await_round e in if (over : bool) then (last, e) else awaitTerminal rounds xid e
      end
  end.

Definition await_rounds : nat := 1002.

Definition CancelExecution (actor : Actor) (xid : string) e : result (Execution V) pl_error * E :=
  match load_execution actor xid "load execution" e with
  | Err err => (Err err, e)
  | Ok x =>
      if IsTerminal (ex_Status x) then (Err (Sentinel ErrExecutionNotCancellable), e)
      else if live xid e then
        let '(settled, e) := awaitTerminal await_rounds xid (cancel xid e) in (Ok settled, e)
      else
        let x := set_status ExecutionStatusCompensating x in
        match Save RunCtx x e with
        | (Some err, e) => (Err (Wrap "mark cancelling" err), e)
        | (None, e) => (Ok x, e)
        end
  end.

Definition ListExecutions (actor : Actor) (f : ListExecutionsFilter) e :=
  x_List {| le_Team := a_Team actor; le_PipelineID := le_PipelineID f; le_Status := le_Status f;
            le_List := clamp_list (le_List f) |} e.
(** ** Settlement *)

(** What [settle] decides from the error of the steps: status, event, event text. *)
Definition outcome (runErr : option pl_error) : ExecutionStatus * EventType :=
  match runErr with
  | None => (ExecutionStatusCompleted, EventPipelineCompleted)
  | Some err => if errors_is err ContextCanceled then (ExecutionStatusCancelled, EventPipelineFailed)
                else (ExecutionStatusFailed, EventPipelineFailed)
  end.

Section settlement.
Variable stored : Execution V -> E -> Prop.
Hypothesis Save_stores : forall c x e, fst (Save c x e) = None -> stored x (snd (Save c x e)).
Hypothesis Publish_keeps : forall c ev x e, stored x e -> stored x (Publish c ev e).

Lemma run_saveTerminal n x (s : shared (V := V) (E := E)) : (0 < n)%nat ->
  let r := run (saveTerminal n x) s in
  s_exec r.2 = s_exec s /\ (r.1 = None -> stored x (s_env r.2)) /\
  exists k, (0 < k <= n)%nat /\ s_log r.2 = s_log s ++ replicate k (CSave DetachedCtx (ex_Status x)).
Proof.
  revert s. induction n as [|n IH]; intros s Hn; [lia |]. cbn [saveTerminal]. unfold save.
  cbv zeta. rewrite run_tell. pose proof (Save_stores DetachedCtx x (s_env s)) as Hst.
  destruct (Save DetachedCtx x (s_env s)) as [[err|] e1]; simpl in Hst.
  - destruct n as [|n].
    + simpl. split; [done |]. split; [done |]. exists 1%nat. by split; [lia |].
    + cbn [fst snd]. rewrite run_ask. destruct (Wait _) as [[|] e2]; cbn [fst snd].
      * simpl. split; [done |]. split; [done |]. exists 1%nat. by split; [lia |].
      * destruct (IH (put_env e2 (put_log (CSave DetachedCtx (ex_Status x)) (put_env e1 s))) ltac:(lia))
          as (H1 & H2 & k & Hk & Hlog).
        split; [exact H1 |]. split; [exact H2 |]. exists (S k). split; [lia |].
        rewrite Hlog. simpl. by rewrite <- app_assoc.
  - simpl. split; [done |]. split; [by intros _; apply Hst |]. exists 1%nat. split; [lia | done].
Qed.

(** A run settles durably or says so. The settlement puts the execution in the
    terminal status its steps' error calls for, with its completion time, its steps
    untouched. It saves that record under the context that a cancellation of the run
    does not reach, at most three times. If it answers no error the stored record is
    the settled one and exactly one event, the outcome's, was published after the
    save; otherwise the error is [ErrTerminalPersist] and no outcome is announced. *)
Theorem settle_durable p runErr (s : shared (V := V) (E := E)) x err s' :
  run (settle p runErr) s = ((x, err), s') ->
  s_exec s' = x /\ ex_Status x = (outcome runErr).1 /\ IsTerminal (ex_Status x) = true /\
  ex_CompletedAt x = Some (Now (s_env s)).1 /\ ex_Steps x = ex_Steps (s_exec s) /\
  exists k, (0 < k <= 3)%nat /\
    let saves := s_log s ++ replicate k (CSave DetachedCtx (ex_Status x)) in
    match err with
    | None => stored x (s_env s') /\ s_log s' = saves ++ [CPublish DetachedCtx (outcome runErr).2 ""]
    | Some err => errors_is err ErrTerminalPersist = true /\ s_log s' = saves
    end.
Proof.
  unfold settle. rewrite run_ask. destruct (Now (s_env s)) as [now e0]. cbn [fst snd].
  set (dec := match runErr with None => _ | Some e => _ end).
  assert (exists evErr, dec = ((outcome runErr).1, (outcome runErr).2, evErr)) as [evErr ->].
  { unfold dec, outcome. destruct runErr as [err'|]; [destruct (errors_is err' ContextCanceled) |]; by eexists. }
  unfold on_exec. rewrite run_atom_bind, run_read. cbn [put_exec put_env s_exec id].
  set (x0 := set_settled _ _ _ _). set (s0 := put_exec x0 _).
  rewrite run_bind. destruct (run_saveTerminal 3 x0 s0 ltac:(lia)) as (H1 & H2 & k & Hk & Hlog).
  destruct (run (saveTerminal 3 x0) s0) as [r s1]. cbn [fst snd] in *.
  assert (IsTerminal (outcome runErr).1 = true) as Ht.
  { unfold outcome. destruct runErr as [err'|]; [destruct (errors_is err' ContextCanceled) |]; done. }
  destruct r as [e1|].
  - intros [= <- <- <-]. repeat (split; [done |]). exists k. split; [done |]. simpl. by rewrite Hlog.
  - unfold emit. rewrite run_tell. intros [= <- <- <-]. repeat (split; [done |]).
    exists k. split; [done |]. simpl. rewrite Hlog. split; [| done]. by apply Publish_keeps, H2.
Qed.
End settlement.

(** ** The repository's contract (ports.go) and what the service keeps with it *)

(** The rows of the pipelines table behind the repository. *)
Class PipelineStore : Type := {
  rows : E -> gmap string (PipelineDefinition V);
  get_row pid e p : p_GetByID pid e = Ok p -> rows e !! pid = Some p /\ pd_ID p = pid;
  create_row p k e : let e' := (p_Create p k e).2 in
    rows e' = rows e \/ rows e !! pd_ID p = None /\ rows e' = <[pd_ID p := p]> (rows e);
  update_row p e : let e' := (p_Update p e).2 in
    rows e' = rows e \/ rows e' = <[pd_ID p := p]> (rows e);
  archive_row pid e : let e' := (p_Archive pid e).2 in
    rows e' = rows e \/ exists p, rows e !! pid = Some p /\ rows e' = <[pid := {|
      pd_ID := pd_ID p; pd_Name := pd_Name p; pd_Type := pd_Type p; pd_Steps := pd_Steps p;
      pd_CreatedBy := pd_CreatedBy p; pd_CreatedAt := pd_CreatedAt p; pd_Team := pd_Team p;
      pd_Archived := true |}]> (rows e);
  id_row e : rows (NewID e).2 = rows e;
  now_row e : rows (Now e).2 = rows e;
}.

Section contract.
Context `{!PipelineStore}.

(** An operation that may change the table, and who called it. *)
Inductive pipeline_op : Actor -> E -> E -> Prop :=
| OpCreate actor input e : pipeline_op actor e (CreatePipeline actor input e).2
| OpUpdate actor input e : pipeline_op actor e (UpdatePipeline actor input e).2
| OpDelete actor pid e : pipeline_op actor e (DeletePipeline actor pid e).2.

Definition any_op e e' : Prop := exists actor, pipeline_op actor e e'.

(** What the engine needs of a pipeline it is handed. *)
Definition runnable (p : PipelineDefinition V) : Prop :=
  valid_graph (pd_Steps p) /\ Forall (fun d => 0 <= sd_MaxRetries d <= MaxRetriesCap) (pd_Steps p).

Definition runnable_rows e : Prop := map_Forall (fun _ p => runnable p) (rows e).

Lemma validated_runnable t steps :
  validateGraph (V := V) t steps = None -> forall p, pd_Steps p = cloneStepsClamped steps -> runnable p.
Proof.
  intros Hv p Hp. unfold runnable. rewrite Hp. split.
  - apply clamped_valid. by eapply validateGraph_spec.
  - unfold cloneStepsClamped. apply Forall_map, list.Forall_true. intros d. simpl. apply clamp_bounds.
Qed.

Lemma GetPipeline_own actor pid e p : GetPipeline actor pid e = Ok p ->
  rows e !! pid = Some p /\ pd_ID p = pid /\ pd_Team p = a_Team actor.
Proof.
  unfold GetPipeline. destruct (p_GetByID pid e) as [p' | err] eqn:Eg; [| by destruct (errors_is _ _)].
  destruct (String.eqb_spec (pd_Team p') (a_Team actor)); [| done]. simpl. intros [= <-].
  apply get_row in Eg as [? ?]. done.
Qed.

(** What one operation does to the table: nothing, a new row of the caller's team,
    or another version of a row of the caller's team. *)
Lemma op_rows actor e e' : pipeline_op actor e e' ->
  rows e' = rows e \/
  exists p, pd_Team p = a_Team actor /\ rows e' = <[pd_ID p := p]> (rows e) /\
    (runnable p \/ exists q, rows e !! pd_ID p = Some q /\ pd_Steps p = pd_Steps q) /\
    (forall q, rows e !! pd_ID p = Some q -> pd_Team q = a_Team actor /\ pd_CreatedBy p = pd_CreatedBy q
       /\ pd_CreatedAt p = pd_CreatedAt q /\ pd_Type p = pd_Type q /\ (pd_Archived q = true -> pd_Archived p = true)).
Proof.
  destruct 1 as [actor input e | actor input e | actor pid e].
  - unfold CreatePipeline. destruct (validateGraph (cp_Type input) (cp_Steps input)) as [err|] eqn:Ev; [by left |].
    destruct (NewID e) as [pid e1] eqn:E1. destruct (Now e1) as [now e2] eqn:E2.
    assert (rows e2 = rows e) as He.
    { pose proof (now_row e1) as Hn. rewrite E2 in Hn. pose proof (id_row e) as Hi. rewrite E1 in Hi.
      simpl in *. congruence. }
    match goal with |- context [p_Create ?p ?k ?e] => set (p0 := p); pose proof (create_row p0 (cp_IdempotencyKey input) e2) as Hc end.
    destruct (p_Create p0 (cp_IdempotencyKey input) e2) as [[created|err] e3]; simpl in *;
      (destruct Hc as [-> | [Hf Hc]]; [by left | right; exists p0; rewrite Hc; rewrite He in Hf |- *]);
      (split; [done |]; split; [done |]; split; [left; by eapply validated_runnable | intros q Hq; simpl in *; congruence]).
  - unfold UpdatePipeline. destruct (GetPipeline actor (up_ID input) e) as [p|err] eqn:Eg; [| by left].
    apply GetPipeline_own in Eg as (Hr & Hid & Ht).
    destruct (validateGraph (pd_Type p) (up_Steps input)) as [err|] eqn:Ev; [by left |].
    set (p0 := set_graph _ _ _). pose proof (update_row p0 e) as Hu.
    destruct (p_Update p0 e) as [[updated|err] e3]; simpl in *;
      (destruct Hu as [-> | Hu]; [by left | right; exists p0]);
      (split; [done |]; split; [done |]; split; [left; by eapply validated_runnable |]);
      intros q Hq; simpl in Hq; rewrite Hid, Hr in Hq; injection Hq as <-; by rewrite Ht.
  - unfold DeletePipeline. destruct (GetPipeline actor pid e) as [p|err] eqn:Eg; [| by left].
    apply GetPipeline_own in Eg as (Hr & Hid & Ht). pose proof (archive_row pid e) as Ha.
    destruct (p_Archive pid e) as [[err|] e3]; simpl in *;
      (destruct Ha as [-> | (q & Hq & Ha)]; [by left | right]);
      rewrite Hr in Hq; injection Hq as <-; (eexists; split; [| split; [rewrite <- Hid in Ha; exact Ha |]]; [exact Ht |]);
      simpl; rewrite Hid; (split; [right; by exists p |]); intros q Hq; rewrite Hr in Hq; injection Hq as <-; done.
Qed.

(** Every stored pipeline can be run. Whatever the calls of CreatePipeline,
    UpdatePipeline and DeletePipeline, by whomever and with whatever inputs, every
    row of the table keeps a graph that the scheduler can order completely (unique
    ids, known acyclic dependencies, compensations that exist) and retry budgets
    within the cap. *)
Theorem stored_pipelines_runnable e e' : runnable_rows e -> rtc any_op e e' ->
  forall pid p, rows e' !! pid = Some p ->
    runnable p /\ exists order, topoOrder (pd_Steps p) = Ok order /\ order ≡ₚ step_ids (pd_Steps p).
Proof.
  intros He Hops. assert (runnable_rows e') as He'.
  { induction Hops as [| e1 e2 e3 [actor Hop] _ IH]; [done |]. apply IH. clear IH e3.
    apply op_rows in Hop as [Hs | (p & _ & Hs & Hp & _)]; unfold runnable_rows in *; rewrite Hs; [done |].
    apply map_Forall_insert_2; [| done]. destruct Hp as [? | (q & Hq & Hpq)]; [done |].
    apply He in Hq. unfold runnable. by rewrite Hpq. }
  intros pid p Hp. apply He' in Hp. split; [done |]. destruct Hp as [Hv _].
  destruct (valid_graph_levels _ Hv) as (levels & Hlv & [Hli Hlnd _ _ _]).
  exists (concat levels). split; [unfold topoOrder; by rewrite Hlv |].
  pose proof Hv as [_ Hn _ _ _]. by apply NoDup_Permutation.
Qed.

(** Teams do not reach each other's pipelines. A change by an actor leaves the
    row of every other team exactly as it was; a row of the actor's own team keeps
    its team, creator, creation time and type, and an archived one stays archived. *)
Theorem pipeline_tenant_isolation actor e e' : pipeline_op actor e e' ->
  forall pid q, rows e !! pid = Some q ->
    (pd_Team q <> a_Team actor -> rows e' !! pid = Some q) /\
    exists p, rows e' !! pid = Some p /\ pd_Team p = pd_Team q /\ pd_CreatedBy p = pd_CreatedBy q /\
      pd_CreatedAt p = pd_CreatedAt q /\ pd_Type p = pd_Type q /\ (pd_Archived q = true -> pd_Archived p = true).
Proof.
  intros Hop pid q Hq. apply op_rows in Hop as [-> | (p & Ht & -> & _ & Hown)].
  { split; [done |]. by exists q. }
  destruct (decide (pd_ID p = pid)) as [<- | Hne].
  - destruct (Hown q Hq) as (Hqt & Hk1 & Hk2 & Hk3 & Hk4). rewrite lookup_insert_eq. split; [done |].
    exists p. split; [done |]. by rewrite Ht, Hqt.
  - rewrite lookup_insert_ne by done. split; [done |]. by exists q.
Qed.
End contract.

(** Another team's pipeline does not exist for the caller, in every operation:
    reading, updating, deleting and triggering it all answer [ErrPipelineNotFound],
    reading or cancelling one of its executions [ErrExecutionNotFound], and nothing
    changes. *)
Theorem foreign_pipeline_hidden actor pid p xid x e :
  p_GetByID pid e = Ok p -> pd_Team p <> a_Team actor ->
  x_GetByID xid e = Ok x -> ex_PipelineID x = pid ->
  GetPipeline actor pid e = Err (Sentinel ErrPipelineNotFound) /\
  (forall input, up_ID input = pid -> UpdatePipeline actor input e = (Err (Sentinel ErrPipelineNotFound), e)) /\
  DeletePipeline actor pid e = (Some (Sentinel ErrPipelineNotFound), e) /\
  (forall input r e', ti_PipelineID input = pid -> TriggerExecution actor input e r e' ->
     r = Err (Sentinel ErrPipelineNotFound) /\ e' = e) /\
  GetExecution actor xid e = Err (Sentinel ErrExecutionNotFound) /\
  CancelExecution actor xid e = (Err (Sentinel ErrExecutionNotFound), e).
Proof.
  intros Hp Ht Hx Hpx. assert (GetPipeline actor pid e = Err (Sentinel ErrPipelineNotFound)) as Hget.
  { unfold GetPipeline. rewrite Hp. by destruct (String.eqb_spec (pd_Team p) (a_Team actor)). }
  assert (forall text, load_execution actor xid text e = Err (Sentinel ErrExecutionNotFound)) as Hload.
  { intros text. unfold load_execution, authorizeExecution. rewrite Hx, Hpx, Hp.
    by destruct (String.eqb_spec (pd_Team p) (a_Team actor)). }
  split; [done |]. split; [intros input <-; unfold UpdatePipeline; by rewrite Hget |].
  split; [unfold DeletePipeline; by rewrite Hget |]. split.
  - intros input r e' Hi Htr. rewrite <- Hi in Hp. destruct Htr; first [done | congruence].
  - split; [apply Hload |]. unfold CancelExecution. by rewrite Hload.
Qed.

(** A trigger runs at most what it created. TriggerExecution answers an
    execution without running anything unless the row it stored is new and PENDING:
    of an archived pipeline it refuses, and for a replayed key it answers the
    original execution as the repository has it. *)
Theorem trigger_runs_fresh_only actor input e r e' p :
  p_GetByID (ti_PipelineID input) e = Ok p -> pd_Team p = a_Team actor ->
  TriggerExecution actor input e r e' ->
  (pd_Archived p = true -> r = Err (Sentinel ErrPipelineArchived) /\ e' = e) /\
  (pd_Archived p = false ->
     let '(x, e1) := newPendingExecution actor p input e in
     match x_Create x (ti_IdempotencyKey input) e1 with
     | (Err err, e2) => r = Err (Wrap "persist execution" err) /\ e' = e2
     | (Ok stored, e2) =>
         ((ex_ID stored <> ex_ID x \/ ex_Status stored <> ExecutionStatusPending) -> r = Ok stored /\ e' = e2) /\
         (ex_ID stored = ex_ID x -> ex_Status stored = ExecutionStatusPending -> run_pipeline p x e2 r e')
     end).
Proof.
  intros Hp Ht Htr. split; intros Ha.
  - destruct Htr; first [done | congruence].
  - destruct (newPendingExecution actor p input e) as [x e1] eqn:En.
    destruct Htr as [| | | q y e2 err e3 Hq _ _ Hn Hc | q y e2 st e3 Hq _ _ Hn Hc Hs
                     | q y e2 st e3 r e4 Hq _ _ Hn Hc Hid Hst Hr]; [congruence.. | | |];
      (assert (q = p) as -> by congruence); rewrite En in Hn; injection Hn as <- <-; rewrite Hc;
      naive_solver.
Qed.

(** ** Waiting for a cancelled run

    [awaitTerminal]'s loop ends by its deadline, not by the model's fuel: with a clock
    that a round advances by at least the pause of 5 milliseconds unless it ends the
    wait, [await_rounds] rounds are never used up. *)

Definition poll_pause : duration := 5000000.

Section waiting.
Variable wall : E -> time.
Hypothesis round_pause : forall e, (await_round e).1 = false -> wall e + poll_pause <= wall (await_round e).2.

(** The wait of a cancellation is bounded by its deadline of 5 seconds: as every
    round that does not end it began before the deadline, the loop stops by itself
    within [await_rounds] polls, so that more fuel never changes its answer. *)
Theorem awaitTerminal_bounded xid e n :
  (forall e', (await_round e').1 = false -> wall e' <= wall e + 5 * Second) ->
  (await_rounds <= n)%nat -> awaitTerminal n xid e = awaitTerminal await_rounds xid e.
Proof.
  intros Hdl Hn. remember (wall e) as start eqn:Hs.
  assert (forall k e n, start + (1001 - Z.of_nat k) * poll_pause <= wall e -> (k < n)%nat ->
    awaitTerminal n xid e = awaitTerminal (S k) xid e) as Hgo.
  { clear e Hs n Hn. induction k as [|k IH]; intros e n Hw Hn; (destruct n as [|n]; [lia |]);
      cbn [awaitTerminal]; pose proof (round_pause e) as Ht; pose proof (Hdl e) as He;
      destruct (await_round e) as [over e1]; cbn [fst snd] in *; destruct over; [done | | done |].
    - exfalso. specialize (He eq_refl). unfold Second, poll_pause in *. lia.
    - rewrite (IH e1 n); [done | | lia]. specialize (Ht eq_refl). lia. }
  apply (Hgo 1001%nat); [rewrite Hs; lia | unfold await_rounds in Hn; lia].
Qed.
End waiting.
End service.

(** ** The properties at concrete inputs *)

(** A world that keeps its tables. *)
Record desk := { d_clock : Z; d_pipes : gmap string (PipelineDefinition Z); d_runs : gmap string (Execution Z) }.

Definition tick (w : desk) : desk :=
  {| d_clock := d_clock w + 1; d_pipes := d_pipes w; d_runs := d_runs w |}.
Definition put_pipe (p : PipelineDefinition Z) (w : desk) : desk :=
  {| d_clock := d_clock w; d_pipes := <[pd_ID p := p]> (d_pipes w); d_runs := d_runs w |}.
Definition put_run (x : Execution Z) (w : desk) : desk :=
  {| d_clock := d_clock w; d_pipes := d_pipes w; d_runs := <[ex_ID x := x]> (d_runs w) |}.

Definition desk_archive (pid : string) (w : desk) : option pl_error * desk :=
  match d_pipes w !! pid with
  | None => (Some (Sentinel ErrRepoNotFound), w)
  | Some p => (None, {| d_clock := d_clock w; d_runs := d_runs w; d_pipes := <[pid := {|
      pd_ID := pd_ID p; pd_Name := pd_Name p; pd_Type := pd_Type p; pd_Steps := pd_Steps p;
      pd_CreatedBy := pd_CreatedBy p; pd_CreatedAt := pd_CreatedAt p; pd_Team := pd_Team p;
      pd_Archived := true |}]> (d_pipes w) |})
  end.

#[export] Instance desk_env : Env Z desk := {|
  ctx_Err w := (None, w);
  Execute d i w := ((world_execute d i 0).1, w);
  Compensate _ _ w := (None, w);
  Save _ x w := (None, put_run x w);
  SaveStep _ _ w := (None, w);
  Publish _ _ w := w;
  Now w := (d_clock w, tick w);
  Wait w := (false, w);
  Executor _ := true |}.

#[export] Instance desk_service : ServiceEnv Z desk := {|
  p_Create p _ w := match d_pipes w !! pd_ID p with
    | Some _ => (Err (External "duplicate key"), w) | None => (Ok p, put_pipe p w) end;
  p_GetByID pid w := match d_pipes w !! pid with
    | Some p => if String.eqb (pd_ID p) pid then Ok p else Err (External "corrupt row")
    | None => Err (Sentinel ErrRepoNotFound) end;
  p_Update p w := match d_pipes w !! pd_ID p with
    | Some _ => (Ok p, put_pipe p w) | None => (Err (Sentinel ErrRepoNotFound), w) end;
  p_Archive := desk_archive;
  p_List _ _ := Err (External "not listed");
  x_Create x _ w := (Ok x, put_run x w);
  x_GetByID xid w := match d_runs w !! xid with Some x => Ok x | None => Err (Sentinel ErrRepoNotFound) end;
  x_List _ _ := Err (External "not listed");
  NewID w := ("id-" +:+ pretty (d_clock w), tick w);
  live _ _ := true;
  cancel _ w := w;
  await_round w :=
    if 110 * poll_pause <=? d_clock w then (true, w)
    else (false, {| d_clock := d_clock w + poll_pause; d_pipes := d_pipes w; d_runs := d_runs w |}) |}.

#[export] Instance desk_store : PipelineStore (V := Z) (E := desk).
Proof.
  refine {| rows := d_pipes |}.
  - intros pid w p. simpl. destruct (d_pipes w !! pid) as [q|] eqn:Eq; [| done].
    destruct (String.eqb_spec (pd_ID q) pid); [| done]. by intros [= <-].
  - intros p k w. simpl. destruct (d_pipes w !! pd_ID p) eqn:Eq; [by left | by right].
  - intros p w. simpl. destruct (d_pipes w !! pd_ID p) eqn:Eq; [by right | by left].
  - intros pid w. simpl. unfold desk_archive. destruct (d_pipes w !! pid) as [p|] eqn:Eq; [| by left].
    right. by exists p.
  - done.
  - done.
Defined.

Definition demo_desk : desk := {| d_clock := 100; d_pipes := ∅; d_runs := {["x1" := s_exec demo_start]} |}.
Definition ana : Actor := {| a_Subject := "ana"; a_Team := "a" |}.
Definition bob : Actor := {| a_Subject := "bob"; a_Team := "b" |}.
Definition demo_create : CreatePipelineInput Z := {|
  cp_Name := "deploy iris"; cp_Type := PipelineTypeDeploymentSaga; cp_Steps := demo_steps;
  cp_IdempotencyKey := "k1" |}.
Definition desk1 : desk := (CreatePipeline ana demo_create demo_desk).2.
Definition desk2 : desk := (DeletePipeline ana "id-100" desk1).2.

Lemma settle_durable_witness :
  let s := {| s_env := demo_desk; s_exec := s_exec demo_start; s_errs := (0, None); s_log := [] |} in
  let '((x, err), s') := run (settle (demo_pipeline 1) (Some (Wrap "step" (Sentinel ContextCanceled)))) s in
  err = None /\ ex_Status x = ExecutionStatusCancelled /\ d_runs (s_env s') !! "x1" = Some x.
Proof.
  intros s. destruct (run _ s) as [[x err] s'] eqn:Er.
  assert (err = None) as -> by (vm_compute in Er; congruence). split; [done |].
  destruct (settle_durable (H := desk_env) (fun x w => d_runs w !! ex_ID x = Some x)
    ltac:(intros c y w _; simpl; apply lookup_insert_eq) ltac:(intros c ev y w Hy; exact Hy) _ _ _ _ _ _ Er)
    as (Hx & Hst & _ & _ & _ & k & _ & Hk & _).
  split; [exact Hst |]. replace "x1" with (ex_ID x); [exact Hk |].
  rewrite <- Hx. vm_compute in Er. by injection Er as _ <-.
Defined.

Lemma stored_pipelines_runnable_witness :
  exists p, rows desk2 !! "id-100" = Some p /\ pd_Archived p = true /\ runnable p.
Proof.
  eexists. split; [vm_compute; reflexivity |]. split; [reflexivity |].
  refine (proj1 (stored_pipelines_runnable demo_desk desk2 _ _ "id-100" _ _)); [| | vm_compute; reflexivity].
  - apply map_Forall_empty.
  - eapply rtc_l; [exists ana; apply (OpCreate ana demo_create) |].
    eapply rtc_l; [exists ana; apply (OpDelete ana "id-100") | apply rtc_refl].
Defined.

Lemma pipeline_tenant_isolation_witness :
  exists q, rows desk1 !! "id-100" = Some q /\
    rows (DeletePipeline bob "id-100" desk1).2 !! "id-100" = Some q.
Proof.
  eexists. split; [vm_compute; reflexivity |].
  refine (proj1 (pipeline_tenant_isolation bob desk1 _ (OpDelete bob "id-100" desk1) "id-100" _ _) _);
    [vm_compute; reflexivity | done].
Defined.

(** The execution "x1" of [demo_desk] is one of pipeline "p1". *)
Definition desk3 : desk := put_pipe (demo_pipeline 1) demo_desk.

Lemma foreign_pipeline_hidden_witness :
  is_ok (GetPipeline ana "p1" desk3) = true /\
  GetPipeline bob "p1" desk3 = Err (Sentinel ErrPipelineNotFound) /\
  CancelExecution bob "x1" desk3 = (Err (Sentinel ErrExecutionNotFound), desk3).
Proof.
  split; [by vm_compute |].
  destruct (foreign_pipeline_hidden bob "p1" (demo_pipeline 1) "x1" (s_exec demo_start) desk3)
    as (H1 & _ & _ & _ & _ & H2); done.
Defined.

Definition retry : TriggerInput Z := {| ti_PipelineID := "id-100"; ti_Input := ∅; ti_IdempotencyKey := "" |}.

Lemma trigger_runs_fresh_only_witness :
  exists r, TriggerExecution ana retry desk2 r desk2 /\ r = Err (Sentinel ErrPipelineArchived).
Proof.
  assert (exists p, p_GetByID "id-100" desk2 = Ok p /\ pd_Team p = "a" /\ pd_Archived p = true) as (p & Hp & Ht & Ha)
    by (eexists; split; vm_compute; eauto).
  assert (TriggerExecution ana retry desk2 (Err (Sentinel ErrPipelineArchived)) desk2) as Htr
    by (by eapply TriggerArchived).
  eexists. split; [exact Htr |].
  exact (proj1 (proj1 (trigger_runs_fresh_only ana retry desk2 _ desk2 p Hp Ht Htr) Ha)).
Defined.

Lemma awaitTerminal_bounded_witness :
  awaitTerminal 5000 "x1" demo_desk = awaitTerminal await_rounds "x1" demo_desk.
Proof.
  apply (awaitTerminal_bounded d_clock).
  - intros w. simpl. destruct (Z.leb_spec (110 * poll_pause) (d_clock w)); simpl; lia.
  - intros w. simpl. unfold Second, poll_pause.
    destruct (Z.leb_spec (110 * 5000000) (d_clock w)); [done | intros _; simpl; lia].
  - unfold await_rounds. lia.
Defined.
