(* ===== verification/Money.v ===== *)
(** * Money of the billing service

    [services/billing/internal/domain/models.go]: amounts in integer micro-units, the
    checked 64-bit arithmetic behind every charge, and the rounding of an invoice
    total; with the errors of [errors.go] and [ports.go]. *)

From S2P Require Import Prelude.
Open Scope fp_scope.

(** ** Errors *)

Inductive bill_sentinel :=
| ErrValidation
| ErrNegativeQuantity
| ErrQuantityTooLarge
| ErrAmountOverflow
| ErrCurrencyMismatch
| ErrInvalidCurrency
| ErrUnknownMeter
| ErrRatePlanNotFound
| ErrInvoiceNotFound
| ErrNoUsage
| ErrInvalidPeriod
| ErrRepoNotFound
| ErrRepoDuplicate.

#[export] Instance bill_sentinel_dec : EqDecision bill_sentinel.
Proof. solve_decision. Defined.

#[export] Instance bill_sentinels : Sentinels bill_sentinel := {| sentinel_wraps _ := None |}.

Abbreviation bill_error := (error bill_sentinel).

(** ** Checked arithmetic *)

(** The magnitude of an [int64] as a [uint64]: [^uint64(v) + 1] for a negative one. *)
Definition abs64 (v : Z) : Z :=
  if v <? 0 then wrapu64 (Z.lxor (wrapu64 v) (2 ^ 64 - 1) + 1) else wrapu64 v.

(** [bits.Mul64]: the high and the low word of the 128-bit product. *)
Definition Mul64 (x y : Z) : Z * Z := (x * y / 2 ^ 64, (x * y) mod 2 ^ 64).

Definition mulInt64Checked (a b : Z) : result Z bill_error :=
  if (a =? 0) || (b =? 0) then Ok 0
  else
    let negative := negb (Bool.eqb (a <? 0) (b <? 0)) in
    let '(hi, lo) := Mul64 (abs64 a) (abs64 b) in
    if negb (hi =? 0) then Err (Sentinel ErrAmountOverflow)
    else
      let maxPosMagnitude := 2 ^ 63 - 1 in
      let maxNegMagnitude := 2 ^ 63 in
      if negative then
        if maxNegMagnitude <? lo then Err (Sentinel ErrAmountOverflow)
        else if lo =? maxNegMagnitude then Ok (- 2 ^ 63)
        else Ok (wrap64 (- wrap64 lo))
      else if maxPosMagnitude <? lo then Err (Sentinel ErrAmountOverflow)
      else Ok (wrap64 lo).

Definition addInt64Checked (a b : Z) : result Z bill_error :=
  let sum := wrap64 (a + b) in
  if (0 <? a) && (0 <? b) && (sum <? 0) || (a <? 0) && (b <? 0) && (0 <=? sum)
  then Err (Sentinel ErrAmountOverflow) else Ok sum.

(** ** Money *)

Record Money := { AmountMicros : Z; CurrencyCode : string }.

#[export] Instance Money_dec : EqDecision Money.
Proof. solve_decision. Defined.

Definition MicrosPerUnit : Z := 1000000.
Definition MicrosPerCent : Z := MicrosPerUnit / 100.
Definition MaxQuantityPerRecord : Z := 1000000000000.

Definition zero_money : Money := {| AmountMicros := 0; CurrencyCode := "" |}.

Definition IsZero (m : Money) : bool := AmountMicros m =? 0.

Definition Add (m other : Money) : result Money bill_error :=
  if String.eqb (CurrencyCode m) "" then Ok other
  else if String.eqb (CurrencyCode other) "" && (AmountMicros other =? 0) then Ok m
  else if negb (String.eqb (CurrencyCode m) (CurrencyCode other)) then Err (Sentinel ErrCurrencyMismatch)
  else
    let! sum := addInt64Checked (AmountMicros m) (AmountMicros other) in
    Ok {| AmountMicros := sum; CurrencyCode := CurrencyCode m |}.

(** Go's [/] truncates toward zero. *)
Definition RoundToCents (m : Money) : Money :=
  let micros := AmountMicros m in
  let half := MicrosPerCent / 2 in
  let rounded :=
    if 0 <=? micros then wrap64 (Z.quot (wrap64 (micros + half)) MicrosPerCent * MicrosPerCent)
    else wrap64 (Z.quot (wrap64 (micros - half)) MicrosPerCent * MicrosPerCent) in
  {| AmountMicros := rounded; CurrencyCode := CurrencyCode m |}.

(** The code iterates over runes; a string of three bytes that are all ['A'..'Z']
    is its own upper case, and a byte of a wider rune is above ['Z']. *)
Definition upper_ascii (c : ascii) : bool := (65 <=? Z.of_nat (nat_of_ascii c)) && (Z.of_nat (nat_of_ascii c) <=? 90).

Definition IsValidCurrencyCode (s : string) : bool :=
  (Z.of_nat (String.length s) =? 3) && forallb upper_ascii (String.list_ascii_of_string s).

(** ** Properties *)

Lemma abs64_spec v : in_int64 v -> abs64 v = Z.abs v.
Proof.
  intros Hv. unfold abs64. destruct (Z.ltb_spec v 0).
  - assert (wrapu64 v = v + 2 ^ 64) as -> by zmod.
    replace (2 ^ 64 - 1) with (Z.ones 64) by reflexivity.
    assert (Z.lxor (v + 2 ^ 64) (Z.ones 64) = Z.ones 64 - (v + 2 ^ 64)) as ->; [| unfold Z.ones, Z.shiftl; simpl; zmod].
    rewrite Z.sub_nocarry_ldiff.
    + apply Z.bits_inj'. intros n Hn. rewrite Z.lxor_spec, Z.ldiff_spec.
      destruct (Z.ltb_spec n 64).
      * rewrite Z.ones_spec_low by lia. by destruct (Z.testbit _ n).
      * rewrite Z.ones_spec_high by lia. rewrite Z.bits_above_log2; [done | unfold in_int64, int64_min, int64_max in *; lia |].
        apply Z.log2_lt_pow2; [unfold in_int64, int64_min, int64_max in *; lia |].
        apply Z.lt_le_trans with (2 ^ 64); [lia | apply Z.pow_le_mono_r; lia].
    + apply Z.bits_inj'. intros n Hn. rewrite Z.ldiff_spec, Z.bits_0.
      destruct (Z.ltb_spec n 64); [rewrite Z.ones_spec_low by lia; apply andb_false_r |].
      rewrite Z.ones_spec_high by lia. rewrite Z.bits_above_log2; [done | unfold in_int64, int64_min, int64_max in *; lia |].
      apply Z.log2_lt_pow2; [unfold in_int64, int64_min, int64_max in *; lia |].
      apply Z.lt_le_trans with (2 ^ 64); [unfold in_int64, int64_min, int64_max in *; lia | apply Z.pow_le_mono_r; lia].
  - assert (wrapu64 v = v) as -> by zmod. lia.
Qed.

(** The answer of checked arithmetic: the exact value where it fits. *)
Definition exact64 (z : Z) : result Z bill_error :=
  if bool_decide (in_int64 z) then Ok z else Err (Sentinel ErrAmountOverflow).

Lemma exact64_in z : in_int64 z -> exact64 z = Ok z.
Proof. intros Hz. unfold exact64. by rewrite bool_decide_true. Qed.

Lemma exact64_out z : ~ in_int64 z -> exact64 z = Err (Sentinel ErrAmountOverflow).
Proof. intros Hz. unfold exact64. by rewrite bool_decide_false. Qed.

Lemma add_exact a b : in_int64 a -> in_int64 b -> addInt64Checked a b = exact64 (a + b).
Proof.
  intros Ha Hb. unfold addInt64Checked.
  assert (in_int64 (a + b) /\ wrap64 (a + b) = a + b \/
          ~ in_int64 (a + b) /\ (wrap64 (a + b) = a + b + 2 ^ 64 \/ wrap64 (a + b) = a + b - 2 ^ 64)) as Hw.
  { destruct (decide (in_int64 (a + b))); [left; split; [done | by apply wrap64_id] | right; split; [done | zmod]]. }
  pose proof (wrap64_range (a + b)) as Hr.
  destruct Hw as [[Hi Hw] | [Hi Hw]]; [rewrite exact64_in by done | rewrite exact64_out by done];
    unfold in_int64, int64_min, int64_max in *;
    destruct (Z.ltb_spec 0 a), (Z.ltb_spec 0 b), (Z.ltb_spec a 0), (Z.ltb_spec b 0),
      (Z.ltb_spec (wrap64 (a + b)) 0), (Z.leb_spec 0 (wrap64 (a + b))); simpl;
    first [done | by rewrite Hw | exfalso; lia].
Qed.

Lemma mul_exact a b : in_int64 a -> in_int64 b -> mulInt64Checked a b = exact64 (a * b).
Proof.
  intros Ha Hb. unfold mulInt64Checked, Mul64. rewrite !abs64_spec by done.
  destruct (Z.eqb_spec a 0) as [-> | Hane]; [rewrite (Z.mul_0_l b), exact64_in; [done | zmod] |].
  destruct (Z.eqb_spec b 0) as [-> | Hbne]; [rewrite (Z.mul_0_r a), exact64_in; [done | zmod] |].
  cbn [orb]. set (mag := Z.abs a * Z.abs b).
  assert (0 < mag) as Hmag by (unfold mag; nia).
  set (negative := negb (Bool.eqb (a <? 0) (b <? 0))).
  assert (a * b = if negative then - mag else mag) as ->.
  { unfold negative, mag. destruct (Z.ltb_spec a 0), (Z.ltb_spec b 0); simpl; nia. }
  clearbody mag negative.
  set (z := if negative then - mag else mag).
  assert (z = - mag /\ negative = true \/ z = mag /\ negative = false) as Hz by (unfold z; destruct negative; auto).
  clearbody z. pose proof (Z.mod_pos_bound mag (2 ^ 64)) as Hlo. pose proof (Z.div_mod mag (2 ^ 64)) as Hdm.
  set (hi := mag / 2 ^ 64) in *. set (lo := mag mod 2 ^ 64) in *. clearbody hi lo.
  destruct (decide (in_int64 z)) as [Hin | Hin]; [rewrite exact64_in by done | rewrite exact64_out by done];
    unfold in_int64, int64_min, int64_max in Hin.
  - assert (hi = 0) as -> by nia. simpl. assert (lo = mag) as -> by lia.
    destruct Hz as [[-> ->] | [-> ->]].
    + destruct (Z.ltb_spec (2 ^ 63) mag); [lia |]. destruct (Z.eqb_spec mag (2 ^ 63)); [f_equal; lia |].
      rewrite (wrap64_id mag), wrap64_id by (unfold in_int64, int64_min, int64_max; lia). done.
    + destruct (Z.ltb_spec (2 ^ 63 - 1) mag); [lia |].
      rewrite wrap64_id by (unfold in_int64, int64_min, int64_max; lia). done.
  - destruct (Z.eqb_spec hi 0) as [-> | Hhi]; [| done]. simpl. assert (lo = mag) as -> by lia.
    destruct Hz as [[-> ->] | [-> ->]].
    + destruct (Z.ltb_spec (2 ^ 63) mag); [done | lia].
    + destruct (Z.ltb_spec (2 ^ 63 - 1) mag); [done | lia].
Qed.

(** Checked arithmetic never wraps. On any two 64-bit operands the product and
    the sum are the exact integer where it fits 64 bits, and [ErrAmountOverflow]
    exactly where it does not. *)
Theorem checked_arithmetic_exact a b : in_int64 a -> in_int64 b ->
  mulInt64Checked a b = exact64 (a * b) /\ addInt64Checked a b = exact64 (a + b).
Proof. intros Ha Hb. split; [by apply mul_exact | by apply add_exact]. Qed.

Lemma checked_arithmetic_exact_witness :
  mulInt64Checked (- 2 ^ 32) (2 ^ 31) = exact64 (- 2 ^ 63) /\ exact64 (- 2 ^ 63) = Ok (- 2 ^ 63) /\
  addInt64Checked int64_max 1 = Err (Sentinel ErrAmountOverflow).
Proof.
  split; [apply (checked_arithmetic_exact (- 2 ^ 32) (2 ^ 31)); vm_compute; split; discriminate |].
  split; [by vm_compute |].
  rewrite (proj2 (checked_arithmetic_exact int64_max 1 ltac:(vm_compute; split; discriminate)
    ltac:(vm_compute; split; discriminate))). by vm_compute.
Defined.

(** The sum of some amounts of one currency, as [Add] folds it. *)
Fixpoint add_all (acc : Money) (ms : list Money) : result Money bill_error :=
  match ms with
  | [] => Ok acc
  | m :: ms => let! acc := Add acc m in add_all acc ms
  end.

Definition sum_micros (ms : list Money) : Z := foldr (fun m z => AmountMicros m + z) 0 ms.

Definition money_in (m : Money) : Prop := in_int64 (AmountMicros m).

Lemma Add_same m n r : money_in m -> money_in n -> CurrencyCode m <> "" -> CurrencyCode n <> "" ->
  Add m n = Ok r <-> CurrencyCode m = CurrencyCode n /\ in_int64 (AmountMicros m + AmountMicros n) /\
    r = {| AmountMicros := AmountMicros m + AmountMicros n; CurrencyCode := CurrencyCode m |}.
Proof.
  intros Hm Hn Hcm Hcn. unfold Add.
  destruct (String.eqb_spec (CurrencyCode m) ""); [done |].
  destruct (String.eqb_spec (CurrencyCode n) ""); [done |]. cbn [andb].
  destruct (String.eqb_spec (CurrencyCode m) (CurrencyCode n)) as [He | He]; cbn [negb].
  - rewrite add_exact by done. unfold exact64. case_bool_decide as Hin; simpl.
    + split; [intros [= <-]; done | by intros (_ & _ & ->)].
    + split; [done | by intros (_ & ? & _)].
  - split; [done | by intros (? & _)].
Qed.

(** A completed sum is exact: every currency is the same and no partial sum wrapped. *)
Lemma add_all_exact ms : forall acc r, money_in acc -> CurrencyCode acc <> "" ->
  Forall (fun m => money_in m /\ CurrencyCode m <> "") ms -> add_all acc ms = Ok r ->
  AmountMicros r = AmountMicros acc + sum_micros ms /\ CurrencyCode r = CurrencyCode acc /\ money_in r /\
  Forall (fun m => CurrencyCode m = CurrencyCode acc) ms.
Proof.
  induction ms as [|m ms IH]; intros acc r Ha Hc Hf; simpl.
  - intros [= <-]. repeat (split; [try done; lia |]). constructor.
  - apply Forall_cons_1 in Hf as [[Hm Hcm] Hf]. intros [acc' [H1 H2]]%rbind_ok.
    apply Add_same in H1 as (He & Hin & ->); [| done..].
    apply IH in H2 as (Hr & Hcr & Hir & Hall); [| done..]. simpl in *.
    split; [lia |]. split; [done |]. split; [done |]. constructor; [done |]. exact Hall.
Qed.

(** ** Rounding *)

(** Rounding to cents is to the nearest cent, halves away from zero, for every
    amount that is at least half a cent away from the ends of 64 bits: the result is
    a whole number of cents at most half a cent away, and of two such the one with
    the larger magnitude; the sign and the currency are kept. *)
Theorem RoundToCents_nearest m : int64_min + 10000 <= AmountMicros m <= int64_max - 10000 ->
  let r := RoundToCents m in
  CurrencyCode r = CurrencyCode m /\ (exists k, AmountMicros r = k * MicrosPerCent) /\
  Z.abs (AmountMicros r - AmountMicros m) <= MicrosPerCent / 2 /\
  (Z.abs (AmountMicros r - AmountMicros m) = MicrosPerCent / 2 -> Z.abs (AmountMicros m) < Z.abs (AmountMicros r)) /\
  0 <= AmountMicros r * AmountMicros m.
Proof.
  unfold RoundToCents. cbn [AmountMicros CurrencyCode].
  change MicrosPerCent with 10000. change (10000 / 2) with 5000.
  set (z := AmountMicros m). clearbody z. intros Hz. unfold int64_min, int64_max in Hz.
  split; [done |]. destruct (Z.leb_spec 0 z).
  - rewrite (wrap64_id (z + 5000)) by (unfold in_int64, int64_min, int64_max; lia).
    rewrite Z.quot_div_nonneg by lia. pose proof (Z.mul_div_le (z + 5000) 10000).
    pose proof (Z.mul_succ_div_gt (z + 5000) 10000). set (k := (z + 5000) / 10000) in *.
    rewrite wrap64_id by (unfold in_int64, int64_min, int64_max; lia).
    split; [by exists k |]. split; [lia |]. split; [lia |]. assert (0 <= k) by lia. nia.
  - rewrite (wrap64_id (z - 5000)) by (unfold in_int64, int64_min, int64_max; lia).
    replace (z - 5000) with (- (5000 - z)) by lia. rewrite Z.quot_opp_l, Z.quot_div_nonneg by lia.
    pose proof (Z.mul_div_le (5000 - z) 10000). pose proof (Z.mul_succ_div_gt (5000 - z) 10000).
    set (k := (5000 - z) / 10000) in *.
    rewrite wrap64_id by (unfold in_int64, int64_min, int64_max; lia).
    split; [by exists (- k) |]. split; [lia |]. split; [lia |]. assert (0 <= k) by lia. nia.
Qed.

Lemma RoundToCents_nearest_witness :
  AmountMicros (RoundToCents {| AmountMicros := 12345000; CurrencyCode := "USD" |}) = 12350000 /\
  Z.abs (AmountMicros (RoundToCents {| AmountMicros := -12345000; CurrencyCode := "USD" |}) - -12345000) <= 5000.
Proof.
  split; [by vm_compute |].
  apply (RoundToCents_nearest {| AmountMicros := -12345000; CurrencyCode := "USD" |}).
  vm_compute. split; discriminate.
Defined.

(** Within half a cent of the largest amount the rounding wraps: a total that the
    checked sum accepted is billed as the largest credit. *)
Theorem RoundToCents_wraps m : int64_max - 5000 < AmountMicros m <= int64_max ->
  AmountMicros (RoundToCents m) < 0.
Proof.
  unfold RoundToCents. cbn [AmountMicros]. change MicrosPerCent with 10000. change (10000 / 2) with 5000.
  set (z := AmountMicros m). clearbody z. unfold int64_max. intros Hz.
  destruct (Z.leb_spec 0 z); [| lia].
  assert (wrap64 (z + 5000) = z + 5000 - 2 ^ 64) as -> by zmod.
  replace (z + 5000 - 2 ^ 64) with (- (2 ^ 64 - 5000 - z)) by lia. rewrite Z.quot_opp_l, Z.quot_div_nonneg by lia.
  pose proof (Z.mul_div_le (2 ^ 64 - 5000 - z) 10000). pose proof (Z.mul_succ_div_gt (2 ^ 64 - 5000 - z) 10000).
  set (k := (2 ^ 64 - 5000 - z) / 10000) in *.
  rewrite wrap64_id by (unfold in_int64, int64_min, int64_max; lia). lia.
Qed.
