(* ===== verification/Ledger.v ===== *)
(** * The billing ledger

    The data of [services/billing/internal/domain/models.go] and the tables that
    [internal/repository/postgres] keeps, with one definition per store method: a
    method is one transaction on the tables. JSONB columns hold the values they
    encode; rows keep times at full precision, where PostgreSQL keeps microseconds.
    The tables are the database of a [Site.site]. *)

From S2P Require Import Prelude Money.
Open Scope fp_scope.

(** ** Data (models.go) *)

Abbreviation MeterType := string (only parsing).

Definition MeterTypeUnspecified : MeterType := "".
Definition MeterTypeInferenceRequest : MeterType := "INFERENCE_REQUEST".
Definition MeterTypeInferenceTokens : MeterType := "INFERENCE_TOKENS".
Definition MeterTypeComputeSeconds : MeterType := "COMPUTE_SECONDS".
Definition MeterTypeStorageBytes : MeterType := "STORAGE_BYTES".

Definition IsBillable (mt : MeterType) : bool :=
  existsb (String.eqb mt)
    [MeterTypeInferenceRequest; MeterTypeInferenceTokens; MeterTypeComputeSeconds; MeterTypeStorageBytes].

Record RatePlan := {
  rp_ID : string;
  rp_Name : string;
  UnitPrices : gmap string Money;
  IncludedQuantities : gmap string Z;
  QuotaLimits : gmap string Z;
  rp_CreatedAt : time;
}.

Definition PriceFor (p : RatePlan) (mt : MeterType) : option Money := UnitPrices p !! mt.

Record UsageRecord := {
  ur_ID : string;
  ur_Team : string;
  ur_RatePlanID : string;
  ur_MeterType : MeterType;
  ur_Quantity : Z;
  ur_Cost : Money;
  ur_ModelID : string;
  ur_ModelVersion : string;
  ur_SourceRequestID : string;
  ur_IdempotencyKey : string;
  ur_OccurredAt : time;
  ur_CreatedAt : time;
}.

#[export] Instance UsageRecord_dec : EqDecision UsageRecord.
Proof. solve_decision. Defined.

Inductive InvoiceStatus :=
| InvoiceStatusUnspecified
| InvoiceStatusDraft
| InvoiceStatusFinalized
| InvoiceStatusPaid
| InvoiceStatusOverdue
| InvoiceStatusVoid.

Record InvoiceLineItem := {
  li_MeterType : MeterType;
  li_Description : string;
  li_Quantity : Z;
  li_UnitPrice : Money;
  li_Amount : Money;
}.

Record Invoice := {
  inv_ID : string;
  InvoiceNumber : string;
  inv_Team : string;
  inv_RatePlanID : string;
  inv_Status : InvoiceStatus;
  inv_PeriodStart : time;
  inv_PeriodEnd : time;
  LineItems : list InvoiceLineItem;
  Total : Money;
  inv_CreatedAt : time;
  FinalizedAt : option time;
  DueAt : option time;
}.

Record MeterUsage := { mu_MeterType : MeterType; TotalQuantity : Z; TotalCost : Money }.

Record UsageSummary := {
  us_Team : string; us_PeriodStart : time; us_PeriodEnd : time;
  ByMeter : gmap string MeterUsage; us_TotalCost : Money }.

(** The payloads of the outbox. *)
Record UsageRecordedPayload := {
  urp_RecordID : string; urp_Team : string; urp_RatePlanID : string; urp_MeterType : MeterType;
  urp_Quantity : Z; urp_CostMicros : Z; urp_CurrencyCode : string; urp_ModelID : string;
  urp_ModelVersion : string; urp_SourceRequestID : string; urp_OccurredAt : time }.

Record QuotaExceededPayload := {
  qep_Team : string; qep_RatePlanID : string; qep_MeterType : MeterType; qep_QuotaLimit : Z;
  qep_CurrentUsage : Z; qep_OccurredAt : time }.

Record InvoiceGeneratedPayload := {
  igp_InvoiceID : string; igp_InvoiceNumber : string; igp_Team : string; igp_RatePlanID : string;
  igp_PeriodStart : time; igp_PeriodEnd : time; igp_TotalMicros : Z; igp_CurrencyCode : string;
  igp_FinalizedAt : time }.

Inductive OutboxPayload :=
| UsageRecorded (p : UsageRecordedPayload)
| QuotaExceeded (p : QuotaExceededPayload)
| InvoiceGenerated (p : InvoiceGeneratedPayload).

Definition EventTypeUsageRecorded : string := "fp.billing.usage.recorded".
Definition EventTypeQuotaExceeded : string := "fp.billing.quota.exceeded".
Definition EventTypeInvoiceGenerated : string := "fp.billing.invoice.generated".

Definition EventType (p : OutboxPayload) : string :=
  match p with
  | UsageRecorded _ => EventTypeUsageRecorded
  | QuotaExceeded _ => EventTypeQuotaExceeded
  | InvoiceGenerated _ => EventTypeInvoiceGenerated
  end.

Record OutboxEvent := {
  oe_ID : string;
  AggregateID : string;
  oe_EventType : string;
  Payload : OutboxPayload;
  oe_CreatedAt : time;
  PublishedAt : option time;
}.

(** ** The tables (migrations/0001_billing.up.sql) *)

Record ledger := {
  usage_records : list UsageRecord;
  rate_plans : gmap string RatePlan;
  rate_plan_idempotency : gmap string string;
  team_rate_plans : gmap string string;
  invoices : list Invoice;
  outbox : list OutboxEvent;
}.

Definition put_usage (r : UsageRecord) (events : list OutboxEvent) (l : ledger) : ledger := {|
  usage_records := usage_records l ++ [r]; rate_plans := rate_plans l;
  rate_plan_idempotency := rate_plan_idempotency l; team_rate_plans := team_rate_plans l;
  invoices := invoices l; outbox := outbox l ++ events |}.

Definition put_invoice (i : Invoice) (ev : OutboxEvent) (l : ledger) : ledger := {|
  usage_records := usage_records l; rate_plans := rate_plans l;
  rate_plan_idempotency := rate_plan_idempotency l; team_rate_plans := team_rate_plans l;
  invoices := invoices l ++ [i]; outbox := outbox l ++ [ev] |}.

Definition put_plan (p : RatePlan) (key : string) (l : ledger) : ledger := {|
  usage_records := usage_records l; rate_plans := <[rp_ID p := p]> (rate_plans l);
  rate_plan_idempotency :=
    if String.eqb key "" then rate_plan_idempotency l else <[key := rp_ID p]> (rate_plan_idempotency l);
  team_rate_plans := team_rate_plans l; invoices := invoices l; outbox := outbox l |}.

Definition put_outbox (o : list OutboxEvent) (l : ledger) : ledger := {|
  usage_records := usage_records l; rate_plans := rate_plans l;
  rate_plan_idempotency := rate_plan_idempotency l; team_rate_plans := team_rate_plans l;
  invoices := invoices l; outbox := o |}.

(** ** The store's statements *)

(** The row that the partial unique index [(team, idempotency_key)] holds; an empty
    key is stored as NULL, which the index and [=] never match. *)
Definition keyed (team key : string) (r : UsageRecord) : bool :=
  negb (String.eqb key "") && String.eqb (ur_Team r) team && String.eqb (ur_IdempotencyKey r) key.

Definition FindByIdempotencyKey (team key : string) (l : ledger) : result UsageRecord bill_error :=
  match List.find (keyed team key) (usage_records l) with
  | Some r => Ok r
  | None => Err (Sentinel ErrRepoNotFound)
  end.

(** A [SUM] of BIGINTs is a numeric; the driver refuses to scan one beyond 64 bits. *)
Definition scan_int64 (z : Z) : result Z bill_error :=
  if bool_decide (in_int64 z) then Ok z else Err (External "cannot scan numeric into int64").

Definition sum_quantity (rs : list UsageRecord) : Z := foldr (fun r z => ur_Quantity r + z) 0 rs.

Definition in_period (team : string) (meter : MeterType) (start : time) (r : UsageRecord) : bool :=
  String.eqb (ur_Team r) team && String.eqb (ur_MeterType r) meter && negb (time_before (ur_OccurredAt r) start).

Definition CurrentPeriodUsage (team : string) (meter : MeterType) (start : time) (l : ledger) : result Z bill_error :=
  match scan_int64 (sum_quantity (List.filter (in_period team meter start) (usage_records l))) with
  | Ok total => Ok total
  | Err e => Err (Wrap "current period usage" e)
  end.

(** The unique constraints a new row may break. *)
Definition clashes (r r' : UsageRecord) : bool :=
  String.eqb (ur_ID r') (ur_ID r) || keyed (ur_Team r) (ur_IdempotencyKey r) r'.

Definition event_clash (evs : list OutboxEvent) (o : list OutboxEvent) : bool :=
  negb (bool_decide (NoDup (map oe_ID evs))) ||
  existsb (fun ev => existsb (fun ev' => String.eqb (oe_ID ev') (oe_ID ev)) o) evs.

Definition RecordUsageTx (r : UsageRecord) (events : list OutboxEvent) (l : ledger)
    : result UsageRecord bill_error * ledger :=
  if existsb (clashes r) (usage_records l) || event_clash events (outbox l)
  then (Err (Sentinel ErrRepoDuplicate), l)
  else (Ok r, put_usage r events l).

Definition CreatePlan (p : RatePlan) (key : string) (l : ledger) : result RatePlan bill_error * ledger :=
  if bool_decide (is_Some (rate_plans l !! rp_ID p)) ||
     negb (String.eqb key "") && bool_decide (is_Some (rate_plan_idempotency l !! key))
  then (Err (Sentinel ErrRepoDuplicate), l)
  else (Ok p, put_plan p key l).

Definition GetPlan (id : string) (l : ledger) : result RatePlan bill_error :=
  match rate_plans l !! id with Some p => Ok p | None => Err (Sentinel ErrRepoNotFound) end.

Definition FindPlanByIdempotencyKey (key : string) (l : ledger) : result RatePlan bill_error :=
  match rate_plan_idempotency l !! key with
  | Some id => GetPlan id l
  | None => Err (Sentinel ErrRepoNotFound)
  end.

Definition ResolvePlanForTeam (team : string) (l : ledger) : result RatePlan bill_error :=
  match team_rate_plans l !! team with
  | Some id => GetPlan id l
  | None => Err (Sentinel ErrRepoNotFound)
  end.

(** [GROUP BY meter_type, currency_code]. *)
Definition billed_in (team : string) (start stop : time) (r : UsageRecord) : bool :=
  String.eqb (ur_Team r) team && negb (time_before (ur_OccurredAt r) start) && time_before (ur_OccurredAt r) stop.

Definition group_key (r : UsageRecord) : string * string := (ur_MeterType r, CurrencyCode (ur_Cost r)).

Definition in_group (k : string * string) (r : UsageRecord) : bool := bool_decide (group_key r = k).

Definition sum_cost (rs : list UsageRecord) : Z := foldr (fun r z => AmountMicros (ur_Cost r) + z) 0 rs.

Definition bucket (rs : list UsageRecord) (k : string * string) : result MeterUsage bill_error :=
  let group := List.filter (in_group k) rs in
  match scan_int64 (sum_quantity group), scan_int64 (sum_cost group) with
  | Ok q, Ok c => Ok {| mu_MeterType := k.1; TotalQuantity := q;
                        TotalCost := {| AmountMicros := c; CurrencyCode := k.2 |} |}
  | _, _ => Err (External "scan usage bucket")
  end.

Fixpoint scan_all {A} (rows : list (result A bill_error)) : result (list A) bill_error :=
  match rows with
  | [] => Ok []
  | r :: rows => let! x := r in let! xs := scan_all rows in Ok (x :: xs)
  end.

(** [ORDER BY meter_type] leaves the order of a meter's currencies, and the collation,
    to the database: [arrange] orders the groups. *)
Definition AggregateUsageForPeriod (arrange : list (string * string) -> list (string * string))
    (team : string) (start stop : time) (l : ledger) : result (list MeterUsage) bill_error :=
  let rs := List.filter (billed_in team start stop) (usage_records l) in
  scan_all (map (bucket rs) (arrange (remove_dups (map group_key rs)))).

Definition SaveInvoiceTx (i : Invoice) (ev : OutboxEvent) (l : ledger) : result Invoice bill_error * ledger :=
  if existsb (fun i' => String.eqb (inv_ID i') (inv_ID i) || String.eqb (InvoiceNumber i') (InvoiceNumber i)) (invoices l)
     || event_clash [ev] (outbox l)
  then (Err (Sentinel ErrRepoDuplicate), l)
  else (Ok i, put_invoice i ev l).

Definition GetInvoice (id : string) (l : ledger) : result Invoice bill_error :=
  match List.find (fun i => String.eqb (inv_ID i) id) (invoices l) with
  | Some i => Ok i
  | None => Err (Sentinel ErrRepoNotFound)
  end.

(** In which order the database answers the groups of an aggregate is its own choice. *)
Class Grouping (W : Type) : Type := {
  arrange : W -> list (string * string) -> list (string * string);
  arrange_perm w ks : arrange w ks ≡ₚ ks;
}.

(** ** Facts about the tables *)

Lemma keyed_iff team key r :
  keyed team key r = true <-> key <> "" /\ ur_Team r = team /\ ur_IdempotencyKey r = key.
Proof.
  unfold keyed. rewrite !andb_true_iff, negb_true_iff, !String.eqb_eq, String.eqb_neq. tauto.
Qed.

(** The unique indexes of [usage_records]. *)
Record usage_unique (rs : list UsageRecord) : Prop := {
  uu_id : NoDup (map ur_ID rs);
  uu_key : forall r r', r ∈ rs -> r' ∈ rs -> keyed (ur_Team r) (ur_IdempotencyKey r) r' = true -> r' = r;
}.

Lemma FindByIdempotencyKey_ok team key l r : FindByIdempotencyKey team key l = Ok r ->
  r ∈ usage_records l /\ key <> "" /\ ur_Team r = team /\ ur_IdempotencyKey r = key.
Proof.
  unfold FindByIdempotencyKey. destruct (List.find _ _) as [r'|] eqn:Ef; [| done]. intros [= ->].
  apply find_some in Ef as [Hin Hk]. apply list_elem_of_In in Hin. apply keyed_iff in Hk as (? & ? & ?). done.
Qed.

Lemma RecordUsageTx_unique r events l : usage_unique (usage_records l) ->
  usage_unique (usage_records (RecordUsageTx r events l).2).
Proof.
  intros [Hid Hk]. unfold RecordUsageTx. destruct (existsb (clashes r) (usage_records l)) eqn:Ec; [done |].
  destruct (event_clash events (outbox l)); [done |]. simpl.
  assert (forall r', r' ∈ usage_records l -> clashes r r' = false) as Hno.
  { intros r' Hr'. destruct (clashes r r') eqn:E; [| done]. exfalso.
    assert (existsb (clashes r) (usage_records l) = true) as Hex; [| congruence].
    apply existsb_exists. exists r'. split; [by apply list_elem_of_In | done]. }
  constructor.
  - rewrite map_app. apply list.NoDup_app. split; [done |]. split; [| apply NoDup_singleton].
    intros x (r' & -> & Hr')%list_elem_of_fmap Hx. apply list_elem_of_singleton in Hx.
    apply Hno in Hr'. unfold clashes in Hr'. apply orb_false_iff in Hr' as [Hr' _].
    apply String.eqb_neq in Hr'. done.
  - intros r1 r2. rewrite !elem_of_app, !list_elem_of_singleton. intros [H1 | ->] [H2 | ->] Hkey; [by apply Hk | | | done].
    + apply Hno in H1. unfold clashes in H1. apply orb_false_iff in H1 as [_ H1].
      apply keyed_iff in Hkey as (Hne & Ht & Hkk). exfalso.
      assert (keyed (ur_Team r) (ur_IdempotencyKey r) r1 = true) as Hc; [| congruence].
      apply keyed_iff. by rewrite Ht, Hkk.
    + apply Hno in H2. unfold clashes in H2. apply orb_false_iff in H2 as [_ H2]. congruence.
Qed.
