(* ===== verification/Billing.v ===== *)
(** * The billing service

    [services/billing/internal/domain/billing_service_impl.go] over the ledger: a
    request is a program of store calls, clock readings and ids, so that requests
    interleave call by call. *)

From stdpp Require Import pretty.
From S2P Require Import Prelude Concur Site Money Ledger.
Open Scope Z_scope.
Open Scope fp_scope.

(** ** The calendar of package time, in UTC *)

Definition Day : duration := 24 * Hour.

(** Days since 1 March of the year 0, where the 400-year cycle is counted from. *)
Definition cycle_day (t : time) : Z := t / Day + 306.

(** The day of the year that starts on 1 March, and the year of the cycle. *)
Definition year_of_cycle (z : Z) : Z :=
  let doe := z mod 146097 in (doe - doe / 1460 + doe / 36524 - doe / 146096) / 365.

Definition day_of_year (z : Z) : Z :=
  let doe := z mod 146097 in
  let yoe := year_of_cycle z in
  doe - (365 * yoe + yoe / 4 - yoe / 100).

(** Months have 153 days in every five, from March on. *)
Definition month_index (doy : Z) : Z := (5 * doy + 2) / 153.

(** The day of the month, from 1. *)
Definition time_day (t : time) : Z :=
  let doy := day_of_year (cycle_day t) in doy - (153 * month_index doy + 2) / 5 + 1.

Definition time_month (t : time) : Z :=
  let m := month_index (day_of_year (cycle_day t)) in if m <? 10 then m + 3 else m - 9.

Definition time_year (t : time) : Z :=
  let z := cycle_day t in
  year_of_cycle z + 400 * (z / 146097) + (if time_month t <=? 2 then 1 else 0).

(** [time.Date(now.Year(), now.Month(), 1, 0, 0, 0, 0, time.UTC)]. *)
Definition month_start (now : time) : time := (now / Day - (time_day now - 1)) * Day.

(** ** Inputs (billing_service.go) *)

Record RecordUsageInput := {
  ru_MeterType : MeterType; ru_Quantity : Z; ru_ModelID : string; ru_ModelVersion : string;
  ru_SourceRequestID : string; ru_OccurredAt : time; ru_IdempotencyKey : string }.

Record CreateRatePlanInput := {
  cr_Name : string; cr_UnitPrices : gmap string Money; cr_IncludedQuantities : gmap string Z;
  cr_QuotaLimits : gmap string Z; cr_IdempotencyKey : string }.

Record GetUsageInput := {
  gu_Team : string; gu_PeriodStart : time; gu_PeriodEnd : time; gu_MeterFilter : MeterType;
  gu_PageSize : Z; gu_PageToken : string }.

Record QuotaStatus := {
  qs_Team : string; qs_RatePlanID : string; qs_MeterType : MeterType; qs_QuotaLimit : Z;
  qs_CurrentUsage : Z; Remaining : Z; Exceeded : bool }.

Definition MaxUsageWindow : duration := 366 * 24 * Hour.

(** ** Pricing *)

Definition billableQuantity (priorUsage quantity included : Z) : Z :=
  if included <=? 0 then quantity
  else
    let remainingFree := wrap64 (included - priorUsage) in
    let remainingFree := if remainingFree <? 0 then 0 else remainingFree in
    if quantity <=? remainingFree then 0 else wrap64 (quantity - remainingFree).

Definition computeCost (plan : RatePlan) (meter : MeterType) (billableQty : Z) : result Money bill_error :=
  match PriceFor plan meter with
  | None => Err (Wrap "not priced by plan" (Sentinel ErrUnknownMeter))
  | Some price =>
      let! amount := mulInt64Checked billableQty (AmountMicros price) in
      Ok {| AmountMicros := amount; CurrencyCode := CurrencyCode price |}
  end.

Definition lineDescription (mt : MeterType) : string :=
  if String.eqb mt MeterTypeInferenceRequest then "Inference requests"
  else if String.eqb mt MeterTypeInferenceTokens then "Inference tokens"
  else if String.eqb mt MeterTypeComputeSeconds then "Compute seconds"
  else if String.eqb mt MeterTypeStorageBytes then "Storage bytes"
  else mt.

(** A missing key of a Go map of integers reads as zero. *)
Definition quantity_of (m : gmap string Z) (mt : MeterType) : Z := default 0 (m !! mt).

Section service.
Context {W : Type} `{Outside W} `{Grouping W}.
Abbreviation go := (prog (site W ledger)) (only parsing).

(** The mapping of a not-found to the package's own sentinel. *)
Definition or_missing (s : bill_sentinel) (text : string) (e : bill_error) : bill_error :=
  if errors_is e ErrRepoNotFound then Sentinel s else Wrap text e.

Definition currentPeriodStart : go time := do! now := ask Now in Ret (month_start now).

Definition clampOccurredAt (t : time) : go time :=
  do! now := ask Now in
  if time_is_zero t || time_after t now then Ret now
  else
    do! periodStart := currentPeriodStart in
    if time_before t periodStart then Ret periodStart else Ret t.

Definition buildOutboxEvent (aggregateID : string) (p : OutboxPayload) (now : time) : go OutboxEvent :=
  do! id := ask NewID in
  Ret {| oe_ID := id; AggregateID := aggregateID; oe_EventType := EventType p; Payload := p;
         oe_CreatedAt := now; PublishedAt := None |}.

Definition usage_payload (r : UsageRecord) : OutboxPayload := UsageRecorded {|
  urp_RecordID := ur_ID r; urp_Team := ur_Team r; urp_RatePlanID := ur_RatePlanID r;
  urp_MeterType := ur_MeterType r; urp_Quantity := ur_Quantity r; urp_CostMicros := AmountMicros (ur_Cost r);
  urp_CurrencyCode := CurrencyCode (ur_Cost r); urp_ModelID := ur_ModelID r;
  urp_ModelVersion := ur_ModelVersion r; urp_SourceRequestID := ur_SourceRequestID r;
  urp_OccurredAt := ur_OccurredAt r |}.

(** The quota crossing of a write: [None] when there is none. *)
Definition quota_payload (plan : RatePlan) (team : string) (meter : MeterType) (priorUsage quantity : Z)
    (occurredAt : time) : option OutboxPayload :=
  match QuotaLimits plan !! meter with
  | Some limit =>
      if 0 <? limit then
        let newUsage := wrap64 (priorUsage + quantity) in
        if (limit <=? newUsage) && (priorUsage <? limit)
        then Some (QuotaExceeded {| qep_Team := team; qep_RatePlanID := rp_ID plan; qep_MeterType := meter;
                                    qep_QuotaLimit := limit; qep_CurrentUsage := newUsage;
                                    qep_OccurredAt := occurredAt |})
        else None
      else None
  | None => None
  end.

(** The guards of [RecordUsage]: [None] when the input is admitted. *)
Definition usage_guard (team : string) (input : RecordUsageInput) : option bill_error :=
  if String.eqb team "" then Some (Wrap "server-authoritative team is empty" (Sentinel ErrValidation))
  else if negb (IsBillable (ru_MeterType input)) then Some (Wrap "meter" (Sentinel ErrUnknownMeter))
  else if ru_Quantity input <? 0 then Some (Sentinel ErrNegativeQuantity)
  else if MaxQuantityPerRecord <? ru_Quantity input then Some (Wrap "quantity" (Sentinel ErrQuantityTooLarge))
  else None.

(** The price, the record, the events and the write, after the plan was resolved. *)
Definition charge (team : string) (input : RecordUsageInput) (plan : RatePlan)
    : go (result (UsageRecord * bool) bill_error) :=
  do! periodStart := currentPeriodStart in
  do! prior := query (fun _ => CurrentPeriodUsage team (ru_MeterType input) periodStart) in
  try prior (Wrap "reading period usage") (fun priorUsage =>
  let billableQty := billableQuantity priorUsage (ru_Quantity input)
                       (quantity_of (IncludedQuantities plan) (ru_MeterType input)) in
  try (computeCost plan (ru_MeterType input) billableQty) id (fun cost =>
  do! occurredAt := clampOccurredAt (ru_OccurredAt input) in
  do! now := ask Now in
  do! rid := ask NewID in
  let record := {|
    ur_ID := rid; ur_Team := team; ur_RatePlanID := rp_ID plan; ur_MeterType := ru_MeterType input;
    ur_Quantity := billableQty; ur_Cost := cost; ur_ModelID := ru_ModelID input;
    ur_ModelVersion := ru_ModelVersion input; ur_SourceRequestID := ru_SourceRequestID input;
    ur_IdempotencyKey := ru_IdempotencyKey input; ur_OccurredAt := occurredAt; ur_CreatedAt := now |} in
  do! recorded := buildOutboxEvent rid (usage_payload record) now in
  do! crossed :=
    match quota_payload plan team (ru_MeterType input) priorUsage (ru_Quantity input) occurredAt with
    | Some p => do! ev := buildOutboxEvent rid p now in Ret [ev]
    | None => Ret []
    end in
  do! stored := transact (RecordUsageTx record (recorded :: crossed)) in
  match stored with
  | Ok stored => Ret (Ok (stored, false))
  | Err err =>
      if errors_is err ErrRepoDuplicate && negb (String.eqb (ru_IdempotencyKey input) "") then
        do! winner := query (fun _ => FindByIdempotencyKey team (ru_IdempotencyKey input)) in
        try winner (Wrap "resolving idempotency race") (fun winner => Ret (Ok (winner, true)))
      else Ret (Err (Wrap "recording usage" err))
  end)).

Definition resolve_and_charge (team : string) (input : RecordUsageInput)
    : go (result (UsageRecord * bool) bill_error) :=
  do! plan := query (fun _ => ResolvePlanForTeam team) in
  try plan (or_missing ErrRatePlanNotFound "resolving rate plan") (charge team input).

Definition RecordUsage (team : string) (input : RecordUsageInput) : go (result (UsageRecord * bool) bill_error) :=
  match usage_guard team input with
  | Some err => Ret (Err err)
  | None =>
      if String.eqb (ru_IdempotencyKey input) "" then resolve_and_charge team input
      else
        do! existing := query (fun _ => FindByIdempotencyKey team (ru_IdempotencyKey input)) in
        match existing with
        | Ok existing => Ret (Ok (existing, true))
        | Err err => if errors_is err ErrRepoNotFound then resolve_and_charge team input
                     else Ret (Err (Wrap "idempotency lookup" err))
        end
  end.

(** ** Rate plans *)

(** The loop over the price map, in an order the runtime chooses. *)
Fixpoint check_prices (planCurrency : string) (prices : list (string * Money)) : option bill_error :=
  match prices with
  | [] => None
  | (meter, price) :: prices =>
      if negb (IsBillable meter) then Some (Wrap "not a valid meter type" (Sentinel ErrValidation))
      else if negb (IsValidCurrencyCode (CurrencyCode price)) then Some (Wrap "currency" (Sentinel ErrInvalidCurrency))
      else if AmountMicros price <? 0 then Some (Wrap "price is negative" (Sentinel ErrValidation))
      else if String.eqb planCurrency "" then check_prices (CurrencyCode price) prices
      else if negb (String.eqb (CurrencyCode price) planCurrency)
      then Some (Wrap "plan mixes currencies" (Sentinel ErrCurrencyMismatch))
      else check_prices planCurrency prices
  end.

Definition plan_guard (input : CreateRatePlanInput) (order : list (string * Money)) : option bill_error :=
  if bool_decide (cr_UnitPrices input = ∅) then Some (Wrap "a plan must price at least one meter" (Sentinel ErrValidation))
  else check_prices "" order.

(** [order] enumerates the price map. *)
Definition CreateRatePlan (input : CreateRatePlanInput) (order : list (string * Money))
    : go (result (RatePlan * bool) bill_error) :=
  let create :=
    do! pid := ask NewID in
    do! now := ask Now in
    let plan := {| rp_ID := pid; rp_Name := cr_Name input; UnitPrices := cr_UnitPrices input;
                   IncludedQuantities := cr_IncludedQuantities input; QuotaLimits := cr_QuotaLimits input;
                   rp_CreatedAt := now |} in
    do! stored := transact (CreatePlan plan (cr_IdempotencyKey input)) in
    match stored with
    | Ok stored => Ret (Ok (stored, false))
    | Err err =>
        if errors_is err ErrRepoDuplicate && negb (String.eqb (cr_IdempotencyKey input) "") then
          do! winner := query (fun _ => FindPlanByIdempotencyKey (cr_IdempotencyKey input)) in
          try winner (Wrap "resolving rate-plan race") (fun winner => Ret (Ok (winner, true)))
        else Ret (Err (Wrap "creating rate plan" err))
    end in
  match plan_guard input order with
  | Some err => Ret (Err err)
  | None =>
      if String.eqb (cr_IdempotencyKey input) "" then create
      else
        do! existing := query (fun _ => FindPlanByIdempotencyKey (cr_IdempotencyKey input)) in
        match existing with
        | Ok existing => Ret (Ok (existing, true))
        | Err err => if errors_is err ErrRepoNotFound then create
                     else Ret (Err (Wrap "rate-plan idempotency lookup" err))
        end
  end.

Definition GetRatePlan (id : string) : go (result RatePlan bill_error) :=
  do! plan := query (fun _ => GetPlan id) in
  try plan (or_missing ErrRatePlanNotFound "getting rate plan") (fun plan => Ret (Ok plan)).

(** ** Quota and usage *)

Definition quota_status (team : string) (plan : RatePlan) (meter : MeterType) (usage : Z) : QuotaStatus :=
  let limit := quantity_of (QuotaLimits plan) meter in
  let remaining := wrap64 (limit - usage) in {|
  qs_Team := team; qs_RatePlanID := rp_ID plan; qs_MeterType := meter; qs_QuotaLimit := limit;
  qs_CurrentUsage := usage;
  Remaining := if 0 <? limit then (if remaining <? 0 then 0 else remaining) else 0;
  Exceeded := if 0 <? limit then limit <=? usage else false |}.

Definition CheckQuota (team : string) (meter : MeterType) : go (result QuotaStatus bill_error) :=
  if String.eqb team "" then Ret (Err (Wrap "team is required" (Sentinel ErrValidation)))
  else if negb (IsBillable meter) then Ret (Err (Wrap "meter" (Sentinel ErrUnknownMeter)))
  else
    do! plan := query (fun _ => ResolvePlanForTeam team) in
    try plan (or_missing ErrRatePlanNotFound "resolving rate plan") (fun plan =>
    do! periodStart := currentPeriodStart in
    do! usage := query (fun _ => CurrentPeriodUsage team meter periodStart) in
    try usage (Wrap "reading period usage") (fun usage => Ret (Ok (quota_status team plan meter usage)))).

(** The loop over the buckets: the filtered map and the grand total. *)
Fixpoint sum_buckets (filter : MeterType) (byMeter : gmap string MeterUsage) (total : Money)
    (buckets : list MeterUsage) : result (gmap string MeterUsage * Money) bill_error :=
  match buckets with
  | [] => Ok (byMeter, total)
  | b :: buckets =>
      if negb (String.eqb filter MeterTypeUnspecified) && negb (String.eqb (mu_MeterType b) filter)
      then sum_buckets filter byMeter total buckets
      else match Add total (TotalCost b) with
           | Ok total => sum_buckets filter (<[mu_MeterType b := b]> byMeter) total buckets
           | Err e => Err (Wrap "summing usage cost" e)
           end
  end.

Definition check_window (start stop : time) : option bill_error :=
  if negb (time_after stop start) then Some (Wrap "end must be after start" (Sentinel ErrInvalidPeriod))
  else if MaxUsageWindow <? time_sub stop start then Some (Wrap "window exceeds max" (Sentinel ErrInvalidPeriod))
  else None.

Definition GetUsage (input : GetUsageInput) : go (result (list UsageSummary * Money * string) bill_error) :=
  if String.eqb (gu_Team input) "" then Ret (Err (Wrap "team is required" (Sentinel ErrValidation)))
  else
    do! start := if time_is_zero (gu_PeriodStart input) then currentPeriodStart else Ret (gu_PeriodStart input) in
    do! stop := if time_is_zero (gu_PeriodEnd input) then ask Now else Ret (gu_PeriodEnd input) in
    match check_window start stop with
    | Some err => Ret (Err err)
    | None =>
        do! buckets := query (fun w => AggregateUsageForPeriod (arrange w) (gu_Team input) start stop) in
        try buckets (Wrap "aggregating usage") (fun buckets =>
        try (sum_buckets (gu_MeterFilter input) ∅ zero_money buckets) id (fun '(byMeter, grandTotal) =>
        Ret (Ok ([{| us_Team := gu_Team input; us_PeriodStart := start; us_PeriodEnd := stop;
                    ByMeter := byMeter; us_TotalCost := grandTotal |}], grandTotal, EmptyString))))
    end.

(** ** Invoices *)

Definition line_item (plan : RatePlan) (b : MeterUsage) : InvoiceLineItem := {|
  li_MeterType := mu_MeterType b; li_Description := lineDescription (mu_MeterType b);
  li_Quantity := TotalQuantity b; li_UnitPrice := default zero_money (PriceFor plan (mu_MeterType b));
  li_Amount := TotalCost b |}.

(** [fmt.Sprintf("INV-%d-%s", now.Year(), s.ids.NewID())]. *)
Definition invoiceNumber (now : time) (id : string) : string :=
  "INV-" +:+ pretty (time_year now) +:+ "-" +:+ id.

Definition invoice_payload (i : Invoice) (now : time) : OutboxPayload := InvoiceGenerated {|
  igp_InvoiceID := inv_ID i; igp_InvoiceNumber := InvoiceNumber i; igp_Team := inv_Team i;
  igp_RatePlanID := inv_RatePlanID i; igp_PeriodStart := inv_PeriodStart i; igp_PeriodEnd := inv_PeriodEnd i;
  igp_TotalMicros := AmountMicros (Total i); igp_CurrencyCode := CurrencyCode (Total i);
  igp_FinalizedAt := now |}.

Definition GenerateInvoice (team : string) (periodStart periodEnd : time) : go (result Invoice bill_error) :=
  if String.eqb team "" then Ret (Err (Wrap "team is required" (Sentinel ErrValidation)))
  else match check_window periodStart periodEnd with
  | Some err => Ret (Err err)
  | None =>
      do! buckets := query (fun w => AggregateUsageForPeriod (arrange w) team periodStart periodEnd) in
      try buckets (Wrap "aggregating period usage") (fun buckets =>
      if bool_decide (buckets = []) then Ret (Err (Sentinel ErrNoUsage))
      else
        do! plan := query (fun _ => ResolvePlanForTeam team) in
        try plan (or_missing ErrRatePlanNotFound "resolving rate plan") (fun plan =>
        try (add_all zero_money (map TotalCost buckets)) (Wrap "summing invoice total") (fun total =>
        let total := RoundToCents total in
        do! now := ask Now in
        do! iid := ask NewID in
        do! number := ask NewID in
        let invoice := {|
          inv_ID := iid; InvoiceNumber := invoiceNumber now number; inv_Team := team;
          inv_RatePlanID := rp_ID plan; inv_Status := InvoiceStatusFinalized;
          inv_PeriodStart := periodStart; inv_PeriodEnd := periodEnd;
          LineItems := map (line_item plan) buckets; Total := total; inv_CreatedAt := now;
          FinalizedAt := Some now; DueAt := Some (now + 30 * Day) |} in
        do! event := buildOutboxEvent iid (invoice_payload invoice now) now in
        do! stored := transact (SaveInvoiceTx invoice event) in
        try stored (Wrap "saving invoice") (fun stored => Ret (Ok stored)))))
  end.

Definition GetInvoice (id : string) : go (result Invoice bill_error) :=
  do! inv := query (fun _ => Ledger.GetInvoice id) in
  try inv (or_missing ErrInvoiceNotFound "getting invoice") (fun inv => Ret (Ok inv)).
End service.

(** ** The calendar on known dates: 2024-02-29, 2024-03-01, 2025-12-31 and 2026-06-15 *)

Example month_start_examples :
  map (fun d => (time_year (d * Day + Hour), time_month (d * Day + Hour), time_day (d * Day + Hour)))
    [738944; 738945; 739615; 739781] = [(2024, 2, 29); (2024, 3, 1); (2025, 12, 31); (2026, 6, 15)] /\
  month_start (739781 * Day + Hour) = 739767 * Day.
Proof. vm_compute. done. Qed.
