(* ===== verification/BillingUsage.v ===== *)
(** * Metering: every use is charged once, at the server's price

    Properties of [RecordUsage] of [Billing] under any interleaving of requests,
    retries and lost acknowledgements; and what the pricing does with the free
    allowance. Then the invoice of a period. *)

From stdpp Require Import pretty.
From S2P Require Import Prelude Concur Site Money Ledger Billing.
Open Scope Z_scope.
Open Scope fp_scope.

(** ** What one write is *)

(** Prices, allowances and limits are 64-bit integers. *)
Definition typed_plans (l : ledger) : Prop :=
  forall id p mt price, rate_plans l !! id = Some p -> PriceFor p mt = Some price -> in_int64 (AmountMicros price).

(** The record and the events that a request may write under the plans of [l] when
    the rows so far are [seen]: the usage it prices by was read from some of them. *)
Record charged (l : ledger) (seen : list UsageRecord) (team : string) (input : RecordUsageInput) (r : UsageRecord)
    (events : list OutboxEvent) : Prop := {
  ch_admitted : usage_guard team input = None;
  ch_identity : ur_Team r = team /\ ur_MeterType r = ru_MeterType input /\
    ur_IdempotencyKey r = ru_IdempotencyKey input /\ ur_SourceRequestID r = ru_SourceRequestID input /\
    ur_ModelID r = ru_ModelID input /\ ur_ModelVersion r = ru_ModelVersion input;
  ch_price : exists plan price, ResolvePlanForTeam team l = Ok plan /\ ur_RatePlanID r = rp_ID plan /\
    PriceFor plan (ru_MeterType input) = Some price /\ 0 <= ur_Quantity r <= ru_Quantity input /\
    (exists rows start, rows `prefix_of` seen /\ ur_Quantity r =
       billableQuantity (sum_quantity (List.filter (in_period team (ru_MeterType input) start) rows))
         (ru_Quantity input) (quantity_of (IncludedQuantities plan) (ru_MeterType input))) /\
    ur_Cost r = {| AmountMicros := ur_Quantity r * AmountMicros price; CurrencyCode := CurrencyCode price |} /\
    in_int64 (ur_Quantity r * AmountMicros price);
  ch_events : exists ev crossed, events = ev :: crossed /\ Payload ev = usage_payload r /\
    Forall (fun ev => AggregateID ev = ur_ID r /\ oe_EventType ev = EventType (Payload ev) /\ PublishedAt ev = None) events /\
    (length crossed <= 1)%nat /\ Forall (fun ev => exists p, Payload ev = QuotaExceeded p) crossed;
}.

Lemma billable_bounds prior q included : 0 <= q <= int64_max -> 0 <= billableQuantity prior q included <= q.
Proof.
  intros Hq. unfold billableQuantity. destruct (Z.leb_spec included 0); [lia |].
  set (rem := if wrap64 (included - prior) <? 0 then 0 else wrap64 (included - prior)).
  assert (0 <= rem) by (unfold rem; destruct (Z.ltb_spec (wrap64 (included - prior)) 0); lia).
  cbv zeta. fold rem. destruct (Z.leb_spec q rem); [lia |].
  rewrite wrap64_id by (unfold in_int64, int64_min, int64_max in *; lia). lia.
Qed.

Lemma usage_guard_None team input : usage_guard team input = None ->
  team <> "" /\ IsBillable (ru_MeterType input) = true /\ 0 <= ru_Quantity input <= MaxQuantityPerRecord.
Proof.
  unfold usage_guard. destruct (String.eqb_spec team ""); [done |].
  destruct (IsBillable (ru_MeterType input)); [| done]. simpl.
  destruct (Z.ltb_spec (ru_Quantity input) 0); [done |].
  by destruct (Z.ltb_spec MaxQuantityPerRecord (ru_Quantity input)).
Qed.

(** ** Interleavings *)

Section usage.
Context {W : Type} `{Outside W}.
Variable allowed : string -> RecordUsageInput -> Prop.

(** A write of one of the requests. *)
Definition usage_write (l l' : ledger) : Prop :=
  exists team input r events, allowed team input /\ charged l (usage_records l) team input r events /\
    RecordUsageTx r events l = (Ok r, l').

(** What any steps keep of the tables. *)
Record grows (l l' : ledger) : Prop := {
  gr_plans : rate_plans l' = rate_plans l;
  gr_teams : team_rate_plans l' = team_rate_plans l;
  gr_usage : exists new, usage_records l' = usage_records l ++ new;
  gr_unique : usage_unique (usage_records l) -> usage_unique (usage_records l');
}.

#[export] Instance grows_preorder : PreOrder grows.
Proof.
  split.
  - intros l. constructor; [done | done | by exists []; rewrite app_nil_r | done].
  - intros l1 l2 l3 [Hp Ht [n Hn] Hu] [Hp' Ht' [n' Hn'] Hu']. constructor; [congruence | congruence | | auto].
    exists (n ++ n'). by rewrite Hn', Hn, app_assoc.
Qed.

Lemma tx_put r events l r' l' : RecordUsageTx r events l = (Ok r', l') -> r' = r /\ l' = put_usage r events l.
Proof. unfold RecordUsageTx. destruct (_ || _); [done | by intros [= -> <-]]. Qed.

Lemma usage_write_grows l l' : usage_write l l' -> grows l l'.
Proof.
  intros (team & input & r & events & _ & _ & Htx).
  pose proof (RecordUsageTx_unique r events l) as Hu. rewrite Htx in Hu.
  apply tx_put in Htx as [_ Hl]. constructor; [by rewrite Hl | by rewrite Hl | | done]. exists [r]. by rewrite Hl.
Qed.

Definition usage_regime : regime ledger := {|
  write := usage_write; keeps := grows; write_keeps := usage_write_grows |}.

#[local] Notation safe := (Site.safe (W := W) usage_regime).

Lemma grows_plan l l' team : grows l l' -> ResolvePlanForTeam team l' = ResolvePlanForTeam team l.
Proof. intros []. unfold ResolvePlanForTeam, GetPlan. by rewrite gr_teams0, gr_plans0. Qed.

Lemma grows_charged l l' seen team input r events :
  grows l l' -> charged l' seen team input r events -> charged l seen team input r events.
Proof. intros Hg []. constructor; [done | done | | done]. by rewrite (grows_plan l l') in ch_price0. Qed.

Lemma grows_in l l' r : grows l l' -> r ∈ usage_records l -> r ∈ usage_records l'.
Proof. intros [_ _ [n ->] _] Hr. apply elem_of_app. by left. Qed.

(** ** [RecordUsage] *)

(** What a request's answer means. *)
Definition usage_answer (team : string) (input : RecordUsageInput) (a : result (UsageRecord * bool) bill_error)
    (l : ledger) : Prop :=
  match a with
  | Ok (r, _) => r ∈ usage_records l /\ ur_Team r = team /\ ur_IdempotencyKey r = ru_IdempotencyKey input
  | Err _ => True
  end.

Lemma safe_err base (e : bill_error) team input :
  safe base (Ret (Err e)) (usage_answer team input).
Proof. by apply safe_ret. Qed.

Lemma safe_clamp base t : safe base (clampOccurredAt t) (fun _ l => grows base l /\ True).
Proof.
  unfold clampOccurredAt. apply safe_ask. intros now.
  destruct (time_is_zero t || time_after t now); [by apply safe_ret |].
  eapply (safe_bind _ _ _ _ (fun _ => True)); [apply safe_ask; intros r; by apply safe_ret |].
  intros start _. destruct (time_before t start); by apply safe_ret.
Qed.

Lemma safe_start base : safe base currentPeriodStart (fun _ l => grows base l /\ True).
Proof. apply safe_ask. intros r. by apply safe_ret. Qed.

Definition event_of (aggregate : string) (p : OutboxPayload) (ev : OutboxEvent) : Prop :=
  Payload ev = p /\ AggregateID ev = aggregate /\ oe_EventType ev = EventType p /\ PublishedAt ev = None.

Lemma safe_event base aggregate p now :
  safe base (buildOutboxEvent aggregate p now) (fun ev l => grows base l /\ event_of aggregate p ev).
Proof. apply safe_ask. intros r. by apply safe_ret. Qed.

Lemma quota_payload_exceeded plan team mt prior q at_ p :
  quota_payload plan team mt prior q at_ = Some p -> exists x, p = QuotaExceeded x.
Proof.
  unfold quota_payload. destruct (QuotaLimits plan !! mt) as [limit|]; [| done].
  destruct (0 <? limit); [| done]. destruct (_ && _); [| done]. intros [= <-]. by eexists.
Qed.

Lemma computeCost_ok plan mt q cost : 0 <= q <= MaxQuantityPerRecord ->
  (forall price, PriceFor plan mt = Some price -> in_int64 (AmountMicros price)) ->
  computeCost plan mt q = Ok cost ->
  exists price, PriceFor plan mt = Some price /\ in_int64 (q * AmountMicros price) /\
    cost = {| AmountMicros := q * AmountMicros price; CurrencyCode := CurrencyCode price |}.
Proof.
  intros Hq Hp. unfold computeCost. destruct (PriceFor plan mt) as [price|]; [| done].
  rewrite mul_exact; [| unfold in_int64, int64_min, int64_max, MaxQuantityPerRecord in *; lia | by apply Hp].
  unfold exact64. case_bool_decide; [| done]. intros [= <-]. by exists price.
Qed.

Lemma RecordUsageTx_cases r events l : RecordUsageTx r events l = (Err (Sentinel ErrRepoDuplicate), l) \/
  RecordUsageTx r events l = (Ok r, put_usage r events l).
Proof. unfold RecordUsageTx. destruct (_ || _); auto. Qed.

(** The write and what follows it. *)
Lemma safe_write base team input r events :
  allowed team input -> (forall l, grows base l -> charged l (usage_records l) team input r events) ->
  safe base (do! stored := transact (RecordUsageTx r events) in
    match stored with
    | Ok stored => Ret (Ok (stored, false))
    | Err err =>
        if errors_is err ErrRepoDuplicate && negb (String.eqb (ru_IdempotencyKey input) "") then
          do! winner := query (fun _ => FindByIdempotencyKey team (ru_IdempotencyKey input)) in
          try winner (Wrap "resolving idempotency race") (fun winner => Ret (Ok (winner, true)))
        else Ret (Err (Wrap "recording usage" err))
    end) (usage_answer team input).
Proof.
  intros Hin Hch. apply safe_transact. intros l a l' Hl Htx.
  destruct (RecordUsageTx_cases r events l) as [Hc | Hc]; rewrite Hc in Htx; injection Htx as <- <-.
  - split; [by left |]. split; [| intros text; apply safe_err]. cbn [errors_is bool_decide].
    destruct (_ && _); [| apply safe_err]. apply safe_query. intros l2 w2 res _ Hres.
    destruct res as [winner|e]; [| apply safe_err]. destruct Hres as [Hres | Hres]; [| done].
    symmetry in Hres. apply FindByIdempotencyKey_ok in Hres as (Hr & _ & Ht & Hk).
    apply safe_ret. intros l3 Hl3. split; [by eapply grows_in |]. done.
  - split; [right; exists team, input, r, events; auto |]. split; [| intros text; apply safe_err].
    destruct (Hch l Hl) as [_ (Ht & _ & Hk & _) _ _].
    apply safe_ret. intros l3 Hl3. split; [| done]. eapply grows_in; [exact Hl3 |]. simpl. apply elem_of_app. right.
    by apply list_elem_of_singleton.
Qed.

Lemma safe_charge base team input plan : allowed team input -> usage_guard team input = None ->
  typed_plans base -> ResolvePlanForTeam team base = Ok plan ->
  safe base (charge team input plan) (usage_answer team input).
Proof.
  intros Hin Hg Ht Hp. pose proof (usage_guard_None _ _ Hg) as (_ & _ & Hq). unfold charge.
  eapply (safe_bind _ _ _ _ (fun _ => True)); [apply safe_start |]. intros start _.
  apply safe_query. intros l w prior Hl Hprior. destruct prior as [prior|e]; [| apply safe_err]. cbn [try].
  assert (prior = sum_quantity (List.filter (in_period team (ru_MeterType input) start) (usage_records l))) as Hsum.
  { destruct Hprior as [Hp' | Hp']; [| done]. unfold CurrentPeriodUsage, scan_int64 in Hp'.
    case_bool_decide; [by injection Hp' | done]. }
  set (q := billableQuantity prior _ _).
  assert (0 <= q <= ru_Quantity input) as Hqb
    by (apply billable_bounds; unfold MaxQuantityPerRecord, int64_max in *; lia).
  destruct (computeCost plan (ru_MeterType input) q) as [cost|e] eqn:Ec; [| apply safe_err]. cbn [try].
  apply computeCost_ok in Ec as (price & Hpr & Hin64 & ->); [| lia |].
  2: { intros price Hpr. unfold ResolvePlanForTeam, GetPlan in Hp.
       destruct (team_rate_plans base !! team) as [id|]; [| done].
       destruct (rate_plans base !! id) as [p'|] eqn:Er; [| done]. injection Hp as ->. by eapply Ht. }
  eapply (safe_bind _ _ _ _ (fun _ => True)); [apply safe_clamp |]. intros at_ _.
  apply safe_ask. intros now. apply safe_ask. intros rid. set (r := Build_UsageRecord _ _ _ _ _ _ _ _ _ _ _ _).
  eapply safe_bind; [apply safe_event |]. intros ev (Hev1 & Hev2 & Hev3 & Hev4).
  eapply (safe_bind _ _ _ _ (fun crossed => (length crossed <= 1)%nat /\ Forall (fun ev => AggregateID ev = rid /\
    oe_EventType ev = EventType (Payload ev) /\ PublishedAt ev = None /\ exists p, Payload ev = QuotaExceeded p) crossed)).
  - destruct (quota_payload _ _ _ _ _ _) as [p|] eqn:Eq; [| apply safe_ret; intros l' Hl'; split; [done | split; [simpl; lia | done]]].
    eapply safe_bind; [apply safe_event |]. intros ev' (He1 & He2 & He3 & He4). apply safe_ret. intros l' Hl'.
    split; [done |]. split; [simpl; lia |]. apply quota_payload_exceeded in Eq as [x ->].
    constructor; [| constructor]. rewrite He1. split; [done |]. split; [done |]. split; [done | by exists x].
  - intros crossed [Hlen Hcr]. apply safe_write; [done |]. intros l' Hl'.
    constructor; [done | done | exists plan, price; simpl | exists ev, crossed; simpl].
    + split; [rewrite (grows_plan base l'); [done |]; by etrans |]. split; [done |]. split; [done |].
      split; [done |]. split; [| done]. destruct Hl' as [_ _ [new Hnew] _].
      exists (usage_records l), start. rewrite Hnew. split; [by eexists | by rewrite <- Hsum].
    + split; [done |]. split; [done |]. split; [constructor; [by rewrite Hev1 |] |].
      * eapply Forall_impl; [| exact Hcr]. simpl. tauto.
      * split; [done |]. eapply Forall_impl; [| exact Hcr]. simpl. tauto.
Qed.

Lemma grows_typed l l' : grows l l' -> typed_plans l -> typed_plans l'.
Proof. intros [Hp _ _ _]. unfold typed_plans. by rewrite Hp. Qed.

Lemma safe_RecordUsage base team input : allowed team input -> typed_plans base ->
  safe base (RecordUsage team input) (usage_answer team input).
Proof.
  intros Hin Ht. unfold RecordUsage. destruct (usage_guard team input) as [e|] eqn:Eg; [apply safe_err |].
  assert (forall l, grows base l -> safe l (resolve_and_charge team input) (usage_answer team input)) as Hrc.
  { intros l Hl. unfold resolve_and_charge. apply safe_query. intros l2 w res Hl2 Hres.
    destruct res as [plan|e]; [| apply safe_err]. destruct Hres as [Hres | Hres]; [| done].
    apply safe_charge; [done | done | | done]. eapply grows_typed; [exact Hl2 |]. by eapply grows_typed. }
  destruct (String.eqb (ru_IdempotencyKey input) ""); [by apply Hrc |].
  apply safe_query. intros l w res Hl Hres. destruct res as [r|e].
  - destruct Hres as [Hres | Hres]; [| done]. symmetry in Hres.
    apply FindByIdempotencyKey_ok in Hres as (Hr & _ & Htm & Hk).
    apply safe_ret. intros l3 Hl3. split; [by eapply grows_in | done].
  - destruct (errors_is e ErrRepoNotFound); [by apply Hrc | apply safe_err].
Qed.
(** The rows and events that any steps added, write by write. *)
Definition added (l l' : ledger) (entries : list (UsageRecord * list OutboxEvent)) : Prop :=
  usage_records l' = usage_records l ++ map fst entries /\
  outbox l' = outbox l ++ concat (map snd entries) /\
  forall k r events, entries !! k = Some (r, events) -> exists team input, allowed team input /\
    charged l (usage_records l ++ map fst (take k entries)) team input r events.

Lemma steps_added s s' : rtc (site_step (W := W) usage_regime) s s' -> exists entries, added (s_db s) (s_db s') entries.
Proof.
  induction 1 as [s | s1 s2 s3 Hst _ [entries (Hu & Ho & Hf)]].
  - exists []. split; [by rewrite app_nil_r |]. split; [by rewrite app_nil_r | done].
  - pose proof (site_step_keeps usage_regime _ _ Hst) as Hg. destruct Hst as [Heq | (team & input & r & evs & Hin & Hch & Htx)].
    + exists entries. rewrite <- Heq. done.
    + apply tx_put in Htx as [_ Hl]. exists ((r, evs) :: entries). simpl.
      rewrite Hl in Hu, Ho, Hf. simpl in Hu, Ho, Hf. split; [by rewrite Hu, <- app_assoc |].
      split; [by rewrite Ho, <- app_assoc |]. intros [|k] r' evs'; simpl.
      * intros [= <- <-]. exists team, input. by rewrite app_nil_r.
      * intros Hk. destruct (Hf k r' evs' Hk) as (t & i & Hi & Hc). exists t, i. split; [done |].
        rewrite <- app_assoc in Hc. eapply grows_charged; [exact Hg |]. by rewrite Hl.
Qed.

Lemma pool_safe {A} (pool : list (prog (site W ledger) A)) (s : site W ledger) results s' (post : nat -> A -> ledger -> Prop) :
  (forall i m, pool !! i = Some m -> safe (s_db s) m (post i)) ->
  par pool s results s' ->
  grows (s_db s) (s_db s') /\ (exists entries, added (s_db s) (s_db s') entries) /\
  (forall i a, results !! i = Some a -> post i a (s_db s')) /\ length results = length pool.
Proof.
  intros Hsafe Hpar. destruct (safe_par _ _ _ _ _ post Hsafe Hpar) as (Hst & Hres & Hlen).
  split; [by apply (site_steps_keep usage_regime) |]. split; [by apply steps_added |]. done.
Qed.
End usage.

(** C7. Every use is charged once, whatever interleaves. Any number of RecordUsage
    requests, retries and duplicates among them, run call by call in any order while
    statements fail and acknowledgements get lost. What they add to the tables is a
    list of writes, each one row with its own outbox events: the row carries one
    request's identity, the quantity that the pricing bills on top of earlier rows, at
    a cost of exactly that quantity times the plan's unit price, and one UsageRecorded
    event, with at most one QuotaExceeded. The keys
    stay unique, so that every answered request of a team and key answers the one
    row there is for them, which is in the ledger. *)
Theorem usage_exactly_once `{Outside W} reqs (s : site W ledger) results s' :
  usage_unique (usage_records (s_db s)) -> typed_plans (s_db s) ->
  par (map (fun q => RecordUsage q.1 q.2) reqs) s results s' ->
  usage_unique (usage_records (s_db s')) /\
  (exists entries, added (fun team input => (team, input) ∈ reqs) (s_db s) (s_db s') entries) /\
  forall i team input r dedup, reqs !! i = Some (team, input) -> results !! i = Some (Ok (r, dedup)) ->
    r ∈ usage_records (s_db s') /\ ur_Team r = team /\ ur_IdempotencyKey r = ru_IdempotencyKey input /\
    forall r', ru_IdempotencyKey input <> "" -> r' ∈ usage_records (s_db s') ->
      ur_Team r' = team -> ur_IdempotencyKey r' = ru_IdempotencyKey input -> r' = r.
Proof.
  intros Hu Ht Hpar.
  destruct (pool_safe (fun team input => (team, input) ∈ reqs) (map (fun q => RecordUsage q.1 q.2) reqs) s results s' (fun i a l => forall team input, reqs !! i = Some (team, input) ->
    usage_answer team input a l)) as (Hg & Hadd & Hres & _).
  - intros i m Hi. rewrite list_lookup_fmap in Hi. destruct (reqs !! i) as [[team input]|] eqn:Er; [| done].
    injection Hi as <-. eapply safe_weaken; [apply safe_RecordUsage; [by eapply list_elem_of_lookup_2 | done] |].
    intros a l Ha team' input'. by intros [= <- <-].
  - exact Hpar.
  - destruct Hg as [_ _ _ Huniq]. specialize (Huniq Hu). split; [done |]. split; [done |].
    intros i team input r dedup Hi Hr. destruct (Hres i _ Hr team input Hi) as (H1 & H2 & H3).
    split; [done |]. split; [done |]. split; [done |]. intros r' Hne Hr' Ht' Hk'.
    apply Huniq; [done | done |]. apply keyed_iff. by rewrite H3, H2.
Qed.

(** ** The free allowance *)

(** What a team owes in all for its gross usage, and the step of it. *)
Definition owed (included gross : Z) : Z := Z.max 0 (gross - Z.max 0 included).

(** The pricing function is the step of the period's bill: given the usage so far
    as it was metered, it bills exactly what the allowance does not cover, so that
    the first [included] units of the period are free and every later one is billed. *)
Theorem billableQuantity_step included prior q : in_int64 included -> 0 <= prior <= int64_max -> 0 <= q <= int64_max ->
  billableQuantity prior q included = owed included (prior + q) - owed included prior.
Proof.
  intros Hi Hp Hq. unfold billableQuantity, owed. unfold in_int64 in Hi. destruct (Z.leb_spec included 0).
  - lia.
  - rewrite (wrap64_id (included - prior)) by (unfold in_int64, int64_min, int64_max in *; lia).
    destruct (Z.ltb_spec (included - prior) 0).
    + destruct (Z.leb_spec q 0); [lia |]. rewrite wrap64_id by (unfold in_int64, int64_min, int64_max in *; lia). lia.
    + destruct (Z.leb_spec q (included - prior)); [lia |].
      rewrite wrap64_id by (unfold in_int64, int64_min, int64_max in *; lia). lia.
Qed.

Lemma billableQuantity_step_witness :
  billableQuantity 70 50 100 = 20 /\ owed 100 (70 + 50) - owed 100 70 = 20.
Proof.
  split; [by vm_compute |]. rewrite <- (billableQuantity_step 100 70 50); [by vm_compute | ..];
    vm_compute; split; discriminate.
Defined.

(** Rows of quantity zero add up to no usage. *)
Lemma free_rows_sum team meter start rows :
  (forall r, r ∈ rows -> ur_Team r = team -> ur_MeterType r = meter -> ur_Quantity r = 0) ->
  sum_quantity (List.filter (in_period team meter start) rows) = 0.
Proof.
  induction rows as [|r rows IH]; intros Hz; [done |]. simpl.
  assert (sum_quantity (List.filter (in_period team meter start) rows) = 0) as IH'
    by (apply IH; intros r' Hr'; apply Hz; by right).
  destruct (in_period team meter start r) eqn:E; [| done]. simpl. rewrite IH'.
  unfold in_period in E. apply andb_true_iff in E as [E _]. apply andb_true_iff in E as [E1 E2].
  apply String.eqb_eq in E1, E2. rewrite Hz; [done | by left | done | done].
Qed.

(** The allowance never runs out. The usage that a write is priced by is the sum
    of the stored quantities, which are the billed ones. So a team whose rows of a
    meter are all free so far, and whose every request stays within the allowance of
    its plan, is billed nothing for any number of such requests, in any interleaving,
    however far beyond the allowance they sum up to: all their rows are of quantity
    zero and cost zero, and the quota sees no usage. *)
Theorem free_allowance_never_depletes `{Outside W} reqs (s : site W ledger) results s' team meter :
  usage_unique (usage_records (s_db s)) -> typed_plans (s_db s) ->
  (forall r, r ∈ usage_records (s_db s) -> ur_Team r = team -> ur_MeterType r = meter -> ur_Quantity r = 0) ->
  (forall input plan, (team, input) ∈ reqs -> ru_MeterType input = meter ->
     ResolvePlanForTeam team (s_db s) = Ok plan ->
     in_int64 (quantity_of (IncludedQuantities plan) meter) /\
     ru_Quantity input <= quantity_of (IncludedQuantities plan) meter) ->
  par (map (fun q => RecordUsage q.1 q.2) reqs) s results s' ->
  forall r, r ∈ usage_records (s_db s') -> ur_Team r = team -> ur_MeterType r = meter ->
    ur_Quantity r = 0 /\ (r ∉ usage_records (s_db s) -> AmountMicros (ur_Cost r) = 0).
Proof.
  intros Hu Ht Hfree Hin Hpar.
  destruct (pool_safe (fun team input => (team, input) ∈ reqs) (map (fun q => RecordUsage q.1 q.2) reqs) s results s' (fun _ _ _ => True))
    as (_ & [entries (Hue & _ & Hch)] & _ & _).
  { intros i m Hi. rewrite list_lookup_fmap in Hi. destruct (reqs !! i) as [[t input]|] eqn:Er; [| done].
    injection Hi as <-. eapply safe_weaken; [apply safe_RecordUsage; [by eapply list_elem_of_lookup_2 | done] | done]. }
  { exact Hpar. }
  assert (forall k r evs, entries !! k = Some (r, evs) -> ur_Team r = team -> ur_MeterType r = meter ->
    ur_Quantity r = 0 /\ AmountMicros (ur_Cost r) = 0) as Hall.
  { induction k as [k IH] using lt_wf_ind. intros r evs Hk Hrt Hrm.
    destruct (Hch k r evs Hk) as (t & input & Hreq & [Hadm (Ht1 & Hm1 & _) (plan & price & Hp & _ & _ & _ & (rows & start & Hpre & Hq) & Hc & _) _]).
    rewrite Hc. simpl. apply usage_guard_None in Hadm as (_ & _ & Hb). subst t meter. rewrite Hrt in *.
    destruct (Hin input plan Hreq (eq_sym Hm1) Hp) as [Hi64 Hle]. rewrite <- Hm1 in Hq.
    assert (sum_quantity (List.filter (in_period team (ur_MeterType r) start) rows) = 0) as Hz.
    { apply free_rows_sum. intros r' Hr' Ht' Hm'. destruct Hpre as [tl Hpre].
      assert (r' ∈ usage_records (s_db s) ++ map fst (take k entries)) as Hr2 by (rewrite Hpre; apply elem_of_app; by left).
      apply elem_of_app in Hr2 as [Hr2 | Hr2]; [by apply Hfree |].
      apply list_elem_of_fmap in Hr2 as ([r2 evs2] & -> & Hr2). apply list_elem_of_lookup in Hr2 as [j Hj].
      apply lookup_take_Some in Hj as [Hj Hjk]. by apply (IH j Hjk r2 evs2). }
    rewrite Hz in Hq. assert (ur_Quantity r = 0) as Hq0; [| by rewrite Hq0].
    rewrite Hq, billableQuantity_step by (unfold in_int64, int64_min, int64_max, MaxQuantityPerRecord in *; lia).
    unfold owed. lia. }
  intros r Hr Hrt Hrm. rewrite Hue in Hr. apply elem_of_app in Hr as [Hr | Hr]; [split; [by apply Hfree | done] |].
  apply list_elem_of_fmap in Hr as ([r2 evs2] & -> & Hr). apply list_elem_of_lookup in Hr as [k Hk].
  destruct (Hall k r2 evs2 Hk Hrt Hrm). done.
Qed.

(** ** The properties at concrete requests *)

(** A clock that ticks and ids that count; the link loses one acknowledgement. *)
#[export] Instance demo_outside : Outside Z.
Proof.
  refine {| Now w := (739781 * Day + w, w + 1); NewID w := ("id-" +:+ pretty w, w + 1);
            link w := ((if w =? 9 then AckLost else Works), w + 1) |}.
Defined.

Definition demo_plan : RatePlan := {|
  rp_ID := "plan-1"; rp_Name := "starter";
  UnitPrices := {[MeterTypeInferenceTokens := {| AmountMicros := 20; CurrencyCode := "USD" |}]};
  IncludedQuantities := {[MeterTypeInferenceTokens := 100]};
  QuotaLimits := {[MeterTypeInferenceTokens := 1000]}; rp_CreatedAt := 1 |}.

Definition demo_ledger : ledger := {|
  usage_records := []; rate_plans := {["plan-1" := demo_plan]}; rate_plan_idempotency := ∅;
  team_rate_plans := {["a" := "plan-1"]}; invoices := []; outbox := [] |}.

Definition demo_site : site Z ledger := {| s_world := 1; s_db := demo_ledger |}.

Definition tokens (q : Z) (key : string) : RecordUsageInput := {|
  ru_MeterType := MeterTypeInferenceTokens; ru_Quantity := q; ru_ModelID := "m"; ru_ModelVersion := "1";
  ru_SourceRequestID := key; ru_OccurredAt := 0; ru_IdempotencyKey := key |}.

(** A request whose acknowledgement is lost, its retry, and another one. *)
Definition demo_requests : list (string * RecordUsageInput) :=
  [("a", tokens 150 "k1"); ("a", tokens 150 "k1"); ("a", tokens 90 "k2")].

Definition demo_usage := run_all (map (fun q => RecordUsage q.1 q.2) demo_requests) demo_site.

Lemma demo_typed : typed_plans demo_ledger.
Proof.
  intros id p mt price Hp Hpr. simpl in Hp. apply lookup_singleton_Some in Hp as [_ <-].
  unfold PriceFor in Hpr. simpl in Hpr. apply lookup_singleton_Some in Hpr as [_ <-].
  vm_compute. split; discriminate.
Qed.

Lemma empty_unique : usage_unique [].
Proof. constructor; [constructor | by intros r r' ?%not_elem_of_nil]. Qed.

Lemma usage_exactly_once_witness :
  map is_ok demo_usage.1 = [false; true; true] /\
  map ur_Quantity (usage_records (s_db demo_usage.2)) = [50; 40] /\
  length (outbox (s_db demo_usage.2)) = 2%nat /\
  usage_unique (usage_records (s_db demo_usage.2)).
Proof.
  split; [by vm_compute |]. split; [by vm_compute |]. split; [by vm_compute |].
  exact (proj1 (usage_exactly_once demo_requests demo_site _ _ empty_unique demo_typed (run_all_par _ _))).
Defined.

(** Twelve requests of 90 tokens under an allowance of 100 and a quota of 1000. *)
Definition small_requests : list (string * RecordUsageInput) := replicate 12 ("a", tokens 90 "").
Definition small_site : site Z ledger := {| s_world := 100; s_db := demo_ledger |}.
Definition small_usage := run_all (map (fun q => RecordUsage q.1 q.2) small_requests) small_site.

Lemma free_allowance_never_depletes_witness :
  length (usage_records (s_db small_usage.2)) = 12%nat /\
  forall r, r ∈ usage_records (s_db small_usage.2) -> ur_Team r = "a" ->
    ur_MeterType r = MeterTypeInferenceTokens -> ur_Quantity r = 0 /\ AmountMicros (ur_Cost r) = 0.
Proof.
  split; [by vm_compute |]. intros r Hr Ht Hm.
  assert (forall input plan, ("a", input) ∈ small_requests -> ru_MeterType input = MeterTypeInferenceTokens ->
    ResolvePlanForTeam "a" demo_ledger = Ok plan ->
    in_int64 (quantity_of (IncludedQuantities plan) MeterTypeInferenceTokens) /\
    ru_Quantity input <= quantity_of (IncludedQuantities plan) MeterTypeInferenceTokens) as Hfit.
  { intros input plan Hin _ Hp. vm_compute in Hp. injection Hp as <-.
    unfold small_requests in Hin. apply elem_of_replicate in Hin as [[= ->] _].
    split; [vm_compute; split; discriminate | vm_compute; discriminate]. }
  destruct (free_allowance_never_depletes small_requests small_site small_usage.1 small_usage.2 "a"
    MeterTypeInferenceTokens empty_unique demo_typed (fun r' Hr' => match not_elem_of_nil r' Hr' with end)
    Hfit (run_all_par _ _) r Hr Ht Hm) as [H1 H2].
  split; [exact H1 | apply H2; apply not_elem_of_nil].
Defined.

(** ** Invoices: the period's ledger, summed exactly and rounded once *)

(** *** Grouping *)

Lemma sum_by_groups (f : UsageRecord -> Z) rs (ks : list (string * string)) :
  NoDup ks -> (forall r, r ∈ rs -> group_key r ∈ ks) ->
  foldr (fun k z => foldr (fun r z => f r + z) 0 (List.filter (in_group k) rs) + z) 0 ks
  = foldr (fun r z => f r + z) 0 rs.
Proof.
  intros Hnd. induction rs as [|r rs IH]; intros Hin; simpl.
  - clear Hnd Hin. induction ks as [|k ks IH]; simpl; [done | by rewrite IH].
  - rewrite <- IH by (intros r' Hr'; apply Hin; by right).
    assert (group_key r ∈ ks) as Hk by (apply Hin; by left). clear IH Hin.
    induction ks as [|k ks IHk]; [by apply not_elem_of_nil in Hk |].
    apply list.NoDup_cons in Hnd as [Hnk Hnd]. simpl. unfold in_group at 1. case_bool_decide as Heq; simpl.
    + assert (forall ks', k ∉ ks' ->
        foldr (fun k z => foldr (fun r z => f r + z) 0 (if in_group k r then r :: List.filter (in_group k) rs
                                                         else List.filter (in_group k) rs) + z) 0 ks'
        = foldr (fun k z => foldr (fun r z => f r + z) 0 (List.filter (in_group k) rs) + z) 0 ks') as Hsame.
      { clear -Heq. induction ks' as [|k' ks' IH]; intros Hnk; [done |]. apply not_elem_of_cons in Hnk as [Hne Hnk].
        simpl. rewrite IH by done. unfold in_group at 1. rewrite bool_decide_false by congruence. done. }
      rewrite Hsame by done. lia.
    + rewrite IHk; [lia | done |]. apply elem_of_cons in Hk as [Hk | Hk]; [congruence | done].
Qed.

(** What the aggregate answers for a group. *)
Definition group_usage (rs : list UsageRecord) (k : string * string) : MeterUsage := {|
  mu_MeterType := k.1; TotalQuantity := sum_quantity (List.filter (in_group k) rs);
  TotalCost := {| AmountMicros := sum_cost (List.filter (in_group k) rs); CurrencyCode := k.2 |} |}.

Lemma scan_all_ok {A} (rows : list (result A bill_error)) xs : scan_all rows = Ok xs -> rows = map Ok xs.
Proof.
  revert xs. induction rows as [|r rows IH]; intros xs; simpl; [by intros [= <-] |].
  intros (x & -> & (xs' & Hx & [= <-])%rbind_ok)%rbind_ok. simpl. f_equal. by apply IH.
Qed.

Lemma bucket_ok rs k b : bucket rs k = Ok b ->
  b = group_usage rs k /\ in_int64 (sum_cost (List.filter (in_group k) rs)).
Proof.
  unfold bucket, scan_int64. case_bool_decide; [| done]. case_bool_decide; [| done]. by intros [= <-].
Qed.

Section invoice.
Context {W : Type} `{Outside W} `{Grouping W}.

(** The buckets of a period: one per meter and currency, with exact sums. *)
Lemma aggregate_ok w team start stop l buckets :
  AggregateUsageForPeriod (arrange w) team start stop l = Ok buckets ->
  let rs := List.filter (billed_in team start stop) (usage_records l) in
  exists ks, ks ≡ₚ remove_dups (map group_key rs) /\
    buckets = map (group_usage rs) ks /\
    Forall (fun b => money_in (TotalCost b)) buckets.
Proof.
  unfold AggregateUsageForPeriod. set (rs := List.filter _ _). intros Hs%scan_all_ok. cbv zeta.
  exists (arrange w (remove_dups (map group_key rs))). split; [apply arrange_perm |].
  revert buckets Hs. generalize (arrange w (remove_dups (map group_key rs))) as ks.
  induction ks as [|k ks IH]; intros [|b buckets]; simpl; try done.
  intros [= Hb Hs]. apply bucket_ok in Hb as [-> Hi]. destruct (IH buckets Hs) as [-> Hf].
  split; [done |]. by constructor.
Qed.

Lemma sum_micros_buckets rs (ks : list (string * string)) :
  ks ≡ₚ remove_dups (map group_key rs) ->
  sum_micros (map TotalCost (map (group_usage rs) ks)) = sum_cost rs.
Proof.
  intros Hks. unfold sum_cost. rewrite <- (sum_by_groups (fun r => AmountMicros (ur_Cost r)) rs ks).
  - clear Hks. induction ks as [|k ks IH]; simpl; [done | by rewrite IH].
  - rewrite Hks. apply NoDup_remove_dups.
  - intros r Hr. rewrite Hks. apply elem_of_remove_dups. by apply list_elem_of_fmap_2.
Qed.

(** Line by line: the meter's rows of the period. *)
Definition line_of (rs : list UsageRecord) (li : InvoiceLineItem) : Prop :=
  exists cur, let group := List.filter (in_group (li_MeterType li, cur)) rs in
    group <> [] /\ li_Quantity li = sum_quantity group /\
    li_Amount li = {| AmountMicros := sum_cost group; CurrencyCode := cur |}.

Lemma in_window start stop : check_window start stop = None -> start < stop <= start + MaxUsageWindow.
Proof.
  unfold check_window, time_after, time_sub. destruct (Z.ltb_spec start stop); [| done]. simpl.
  destruct (Z.ltb_spec MaxUsageWindow (Z.max int64_min (Z.min int64_max (stop - start)))); [done |].
  intros _. unfold MaxUsageWindow, Hour, Minute, Second, int64_min, int64_max in *. lia.
Qed.
(** *** One request alone *)

(** The total of the buckets, when the sum succeeds. *)
Lemma total_ok buckets t : buckets <> [] ->
  Forall (fun b => money_in (TotalCost b) /\ CurrencyCode (TotalCost b) <> "") buckets ->
  add_all zero_money (map TotalCost buckets) = Ok t ->
  AmountMicros t = sum_micros (map TotalCost buckets) /\ money_in t /\
  Forall (fun b => CurrencyCode (TotalCost b) = CurrencyCode t) buckets.
Proof.
  destruct buckets as [|b buckets]; [done |]. intros _ [[Hb Hcb] Hf]%Forall_cons_1 Hadd. simpl in Hadd.
  apply add_all_exact in Hadd as (H1 & H2 & H3 & H4); [| done | done | by apply Forall_map].
  split; [simpl; lia |]. split; [done |]. rewrite H2. constructor; [done |]. by apply Forall_map in H4.
Qed.

Lemma lines_ok rs ks plan cur : ks ≡ₚ remove_dups (map group_key rs) -> (forall k, k ∈ ks -> k.2 = cur) ->
  let lines := map (line_item plan) (map (group_usage rs) ks) in
  NoDup (map li_MeterType lines) /\ Forall (line_of rs) lines /\
  (forall r, r ∈ rs -> ur_MeterType r ∈ map li_MeterType lines).
Proof.
  intros Hks Hcur lines. unfold lines. rewrite !map_map. simpl.
  assert (forall k, k ∈ ks <-> exists r, k = group_key r /\ r ∈ rs) as Hin.
  { intros k. rewrite Hks, elem_of_remove_dups. apply list_elem_of_fmap. }
  split; [| split].
  - apply NoDup_fmap_2_strong.
    + intros k1 k2 H1 H2 Hk. destruct k1, k2. pose proof (Hcur _ H1). pose proof (Hcur _ H2). simpl in *. congruence.
    + rewrite Hks. apply NoDup_remove_dups.
  - apply Forall_map, list.Forall_forall. intros k Hk. exists k.2. simpl. rewrite <- surjective_pairing.
    split; [| done]. apply Hin in Hk as (r & -> & Hr). intros Hnil.
    assert (r ∈ List.filter (in_group (group_key r)) rs) as Hrf; [| rewrite Hnil in Hrf; by apply not_elem_of_nil in Hrf].
    apply list_elem_of_In, filter_In. split; [by apply list_elem_of_In | by apply bool_decide_true].
  - intros r Hr. apply list_elem_of_fmap. exists (group_key r). split; [done |]. apply Hin. by exists r.
Qed.

(** The program of an invoice that is answered, branch by branch. *)
Lemma invoice_run team start stop s inv s' : run (GenerateInvoice team start stop) s = (Ok inv, s') ->
  exists w buckets plan total ev, check_window start stop = None /\
    AggregateUsageForPeriod (arrange w) team start stop (s_db s) = Ok buckets /\ buckets <> [] /\
    add_all zero_money (map TotalCost buckets) = Ok total /\ Total inv = RoundToCents total /\
    LineItems inv = map (line_item plan) buckets /\ inv_Team inv = team /\
    inv_Status inv = InvoiceStatusFinalized /\ FinalizedAt inv = Some (inv_CreatedAt inv) /\
    DueAt inv = Some (inv_CreatedAt inv + 30 * Day) /\ s_db s' = put_invoice inv ev (s_db s) /\
    event_of (inv_ID inv) (invoice_payload inv (inv_CreatedAt inv)) ev.
Proof.
  unfold GenerateInvoice. destruct (String.eqb team ""); [done |].
  destruct (check_window start stop) eqn:Ew; [done |].
  intros (w & r & Hr & (buckets & -> & Hrun)%site_run_try)%site_run_query. destruct Hr as [Hr | Hr]; [| done].
  destruct (decide (buckets = [])) as [-> | Hne]; [done |]. rewrite bool_decide_false in Hrun by done.
  apply site_run_query in Hrun as (w2 & r2 & Hr2 & (plan & -> & Hrun)%site_run_try). cbn [s_db] in *.
  apply site_run_try in Hrun as (total & Htot & Hrun).
  apply site_run_ask in Hrun as (now & w3 & _ & Hrun). apply site_run_ask in Hrun as (iid & w4 & _ & Hrun).
  apply site_run_ask in Hrun as (number & w5 & _ & Hrun). cbn [s_db] in *.
  set (i := Build_Invoice _ _ _ _ _ _ _ _ _ _ _ _) in Hrun.
  unfold buildOutboxEvent in Hrun. apply site_run_ask in Hrun as (eid & w6 & _ & Hrun). cbn [s_db] in *.
  apply site_run_transact in Hrun as (w7 & r7 & l & Htx & (stored & -> & Hrun)%site_run_try).
  injection Hrun as -> <-. destruct Htx as [Htx | [text Htx]]; [| done].
  unfold SaveInvoiceTx in Htx. destruct (_ || _); [done |]. injection Htx as <- <-.
  eexists w, buckets, plan, total, _. do 11 (split; [done |]). done.
Qed.

(** C32. An invoice is the period's ledger, summed exactly and rounded once. When an
    invoice is answered, the window is well-formed and at most 366 days; the rows of
    the team that occurred in it are not empty and all of one currency; every line is
    the rows of one meter, and the total is the exact sum of the rows' costs, which
    fits 64 bits, rounded to cents only then. The invoice is FINALIZED, due 30 days
    later, and stored with the one event that announces it. *)
Theorem invoice_is_the_period team start stop s inv s' :
  Forall (fun r => CurrencyCode (ur_Cost r) <> "") (usage_records (s_db s)) ->
  run (GenerateInvoice team start stop) s = (Ok inv, s') ->
  let rs := List.filter (billed_in team start stop) (usage_records (s_db s)) in
  start < stop <= start + MaxUsageWindow /\ rs <> [] /\
  in_int64 (sum_cost rs) /\ Total inv = RoundToCents {| AmountMicros := sum_cost rs; CurrencyCode := CurrencyCode (Total inv) |} /\
  Forall (fun r => CurrencyCode (ur_Cost r) = CurrencyCode (Total inv)) rs /\
  NoDup (map li_MeterType (LineItems inv)) /\ Forall (line_of rs) (LineItems inv) /\
  (forall r, r ∈ rs -> ur_MeterType r ∈ map li_MeterType (LineItems inv)) /\
  inv_Team inv = team /\ inv_Status inv = InvoiceStatusFinalized /\ FinalizedAt inv = Some (inv_CreatedAt inv) /\
  DueAt inv = Some (inv_CreatedAt inv + 30 * Day) /\
  exists ev, s_db s' = put_invoice inv ev (s_db s) /\ Payload ev = invoice_payload inv (inv_CreatedAt inv) /\
    AggregateID ev = inv_ID inv /\ PublishedAt ev = None.
Proof.
  intros Hcur Hrun. destruct (invoice_run _ _ _ _ _ _ Hrun) as
    (w & buckets & plan & total & ev & Hw & Hagg & Hne & Htot & Ht & Hl & Hteam & Hst & Hfin & Hdue & Hdb & Hev1 & Hev2 & _ & Hev3).
  intros rs. apply aggregate_ok in Hagg as (ks & Hks & Hb & Hin64). fold rs in Hks, Hb.
  assert (forall k, k ∈ ks <-> exists r, k = group_key r /\ r ∈ rs) as Hin.
  { intros k. rewrite Hks, elem_of_remove_dups. apply list_elem_of_fmap. }
  assert (forall r, r ∈ rs -> r ∈ usage_records (s_db s)) as Hsub.
  { intros r Hr%list_elem_of_In. apply filter_In in Hr as [Hr _]. by apply list_elem_of_In. }
  destruct (total_ok buckets total Hne) as (Hsum & Hti & Hcu); [| done |].
  { rewrite list.Forall_forall in Hcur. rewrite list.Forall_forall in Hin64. apply list.Forall_forall. intros b Hbb. split; [by apply Hin64 |].
    rewrite Hb in Hbb. apply list_elem_of_fmap in Hbb as (k & -> & Hk). apply Hin in Hk as (r & -> & Hr).
    simpl. by apply Hcur, Hsub. }
  assert (sum_micros (map TotalCost buckets) = sum_cost rs) as Hsr by (rewrite Hb; by apply sum_micros_buckets).
  assert (CurrencyCode (Total inv) = CurrencyCode total) as Hct by (by rewrite Ht).
  assert (forall k, k ∈ ks -> k.2 = CurrencyCode total) as Hkc.
  { intros k Hk. rewrite list.Forall_forall in Hcu. apply (Hcu (group_usage rs k)). rewrite Hb. by apply list_elem_of_fmap_2. }
  destruct (lines_ok rs ks plan (CurrencyCode total) Hks Hkc) as (Hnd & Hlo & Hcov).
  rewrite Hl, Hb.
  split; [by apply in_window |]. split.
  { intros Hnil. apply Hne. rewrite Hnil in Hks. by apply Permutation_nil_r in Hks as ->. }
  split; [rewrite <- Hsr, <- Hsum; exact Hti |]. split.
  { rewrite Hct, <- Hsr, <- Hsum, Ht. by destruct total. }
  split. { apply list.Forall_forall. intros r Hr. rewrite Hct. apply (Hkc (group_key r)). apply Hin. by exists r. }
  do 7 (split; [done |]). exists ev. done.
Qed.
End invoice.

#[export] Instance demo_grouping : Grouping Z.
Proof. refine {| arrange _ ks := ks |}. intros _ ks. reflexivity. Defined.

(** *** The property at a concrete period: June 2026 after the usage of [demo_usage] *)

Definition demo_invoice := run (GenerateInvoice "a" (739767 * Day) (739797 * Day)) demo_usage.2.

Lemma invoice_is_the_period_witness :
  exists inv, demo_invoice.1 = Ok inv /\ map li_Quantity (LineItems inv) = [90] /\
    Total inv = RoundToCents {| AmountMicros := 1800; CurrencyCode := CurrencyCode (Total inv) |}.
Proof.
  destruct demo_invoice as [[inv|e] s'] eqn:Er; [| by vm_compute in Er].
  exists inv. split; [done |].
  assert (map li_Quantity (LineItems inv) = [90]) as Hq by (vm_compute in Er; by injection Er as <- _).
  split; [exact Hq |].
  assert (Forall (fun r => CurrencyCode (ur_Cost r) <> "") (usage_records (s_db demo_usage.2))) as Hc
    by (apply (bool_decide_unpack _); by vm_compute).
  destruct (invoice_is_the_period "a" (739767 * Day) (739797 * Day) demo_usage.2 inv s' Hc Er)
    as (_ & _ & _ & Ht & _).
  rewrite Ht. f_equal.
Defined.
