(* ===== verification/Metering.v ===== *)
(** * The metering consumers of the billing service

    [services/billing/internal/events/{subscriber,ai_consumer}.go]: the handlers that
    turn inference, model-version and AI-completion events into usage. The wire
    decoders (protojson, encoding/json of a foreign producer) and the resolvers of
    teams are arguments; an event is delivered any number of times. *)

From stdpp Require Import pretty.
From S2P Require Import Prelude Concur Site Money Ledger Billing BillingUsage.
Open Scope Z_scope.
Open Scope fp_scope.

(** ** Errors: the package's own, natsutil's, and billing's under them *)

Inductive ev_sentinel := ErrProcessingFailed | ErrTeamNotFound | Of_billing (s : bill_sentinel).

#[export] Instance ev_sentinel_dec : EqDecision ev_sentinel.
Proof. solve_decision. Defined.

#[export] Instance ev_sentinels : Sentinels ev_sentinel := {| sentinel_wraps _ := None |}.

Abbreviation ev_error := (error ev_sentinel).

Fixpoint lift_error (e : bill_error) : ev_error :=
  match e with
  | Sentinel s => Sentinel (Of_billing s)
  | External text => External text
  | Wrap text e => Wrap text (lift_error e)
  end.

(** [fmt.Errorf("%w: ...", natsutil.ErrProcessingFailed, ...)]. *)
Definition poison (text : string) : ev_error := Wrap text (Sentinel ErrProcessingFailed).

(** ** Events *)

Record EventEnvelope := { env_ID : string; env_Data : string }.

Record InferenceCompleted := {
  ic_RequestId : string; ic_ApiKeyId : string; ic_ModelId : string; ic_Version : string;
  ic_TokenCount : Z; ic_CompletedAt : option time }.

Record ModelVersionReady := {
  mv_VersionId : string; mv_ModelId : string; mv_Version : string; mv_SizeBytes : Z;
  mv_ReadyAt : option time }.

Record aiCompletionServed := {
  ai_RequestID : string; ai_Team : string; ai_Model : string; ai_TotalTokens : Z }.

(** [AsTime] of an absent timestamp is the Unix epoch. *)
Definition unix_epoch : time := 719162 * Day.
Definition AsTime (t : option time) : time := default unix_epoch t.

Class Wire : Type := {
  decode_inference : string -> option InferenceCompleted;
  decode_ready : string -> option ModelVersionReady;
  decode_ai : string -> option aiCompletionServed;
}.

Class Around (W : Type) `{Outside W} : Type := {
  ResolveTeam : string -> W -> result string ev_error * W;
  ResolveVersionTeam : string -> string -> W -> result string ev_error * W;
  IsProcessed : string -> W -> result bool ev_error * W;
  MarkProcessed : string -> W -> option ev_error * W;
}.

(** ** What an event is charged as *)

Definition request_usage (ev : InferenceCompleted) : RecordUsageInput := {|
  ru_MeterType := MeterTypeInferenceRequest; ru_Quantity := 1; ru_ModelID := ic_ModelId ev;
  ru_ModelVersion := ic_Version ev; ru_SourceRequestID := ic_RequestId ev;
  ru_OccurredAt := AsTime (ic_CompletedAt ev); ru_IdempotencyKey := ic_RequestId ev |}.

Definition token_usage (ev : InferenceCompleted) : RecordUsageInput := {|
  ru_MeterType := MeterTypeInferenceTokens; ru_Quantity := ic_TokenCount ev; ru_ModelID := ic_ModelId ev;
  ru_ModelVersion := ic_Version ev; ru_SourceRequestID := ic_RequestId ev;
  ru_OccurredAt := AsTime (ic_CompletedAt ev); ru_IdempotencyKey := ic_RequestId ev +:+ ":tokens" |}.

Definition storage_usage (ev : ModelVersionReady) : RecordUsageInput := {|
  ru_MeterType := MeterTypeStorageBytes; ru_Quantity := mv_SizeBytes ev; ru_ModelID := mv_ModelId ev;
  ru_ModelVersion := mv_Version ev; ru_SourceRequestID := mv_VersionId ev;
  ru_OccurredAt := AsTime (mv_ReadyAt ev); ru_IdempotencyKey := mv_VersionId ev +:+ ":storage" |}.

Definition ai_usage (ev : aiCompletionServed) : RecordUsageInput := {|
  ru_MeterType := MeterTypeInferenceTokens; ru_Quantity := ai_TotalTokens ev; ru_ModelID := ai_Model ev;
  ru_ModelVersion := ""; ru_SourceRequestID := ai_RequestID ev; ru_OccurredAt := 0;
  ru_IdempotencyKey := ai_RequestID ev +:+ ":ai-tokens" |}.

(** ** Handlers: [None] acknowledges the event *)

Definition isPermanentBillingError (e : bill_error) : bool :=
  errors_is e ErrUnknownMeter || errors_is e ErrNegativeQuantity || errors_is e ErrQuantityTooLarge ||
  errors_is e ErrRatePlanNotFound || errors_is e ErrValidation || errors_is e ErrAmountOverflow.

Section handlers.
Context {W : Type} `{Around W} `{Wire}.
Abbreviation go := (prog (site W ledger)) (only parsing).

Definition meter (team : string) (input : RecordUsageInput) : go (option ev_error) :=
  do! r := RecordUsage team input in
  match r with
  | Ok _ => Ret None
  | Err e => Ret (Some (if isPermanentBillingError e then poison "meter" else Wrap "events: meter" (lift_error e)))
  end.

(** The resolved team, or the error of the event. *)
Definition resolved (r : result string ev_error) (k : string -> go (option ev_error)) : go (option ev_error) :=
  match r with
  | Ok team => k team
  | Err e => Ret (Some (if errors_is e ErrTeamNotFound then poison "no team" else Wrap "events: resolve team" e))
  end.

Definition handleInferenceCompleted (env : EventEnvelope) : go (option ev_error) :=
  match decode_inference (env_Data env) with
  | None => Ret (Some (poison "decode InferenceCompleted"))
  | Some ev =>
      if String.eqb (ic_RequestId ev) "" then Ret (Some (poison "empty request_id"))
      else if String.eqb (ic_ApiKeyId ev) "" then Ret (Some (poison "empty api_key_id"))
      else
        do! team := ask (ResolveTeam (ic_ApiKeyId ev)) in
        resolved team (fun team =>
        do! err := meter team (request_usage ev) in
        match err with
        | Some err => Ret (Some err)
        | None => if 0 <? ic_TokenCount ev then meter team (token_usage ev) else Ret None
        end)
  end.

Definition handleModelVersionReady (env : EventEnvelope) : go (option ev_error) :=
  match decode_ready (env_Data env) with
  | None => Ret (Some (poison "decode ModelVersionReady"))
  | Some ev =>
      if String.eqb (mv_VersionId ev) "" then Ret (Some (poison "empty version_id"))
      else if String.eqb (mv_ModelId ev) "" then Ret (Some (poison "empty model_id"))
      else if mv_SizeBytes ev <=? 0 then Ret None
      else
        do! team := ask (ResolveVersionTeam (mv_ModelId ev) (mv_VersionId ev)) in
        resolved team (fun team => meter team (storage_usage ev))
  end.

Definition ai_handle (env : EventEnvelope) : go (option ev_error) :=
  match decode_ai (env_Data env) with
  | None => Ret (Some (poison "decode AiCompletionServed"))
  | Some ev =>
      if String.eqb (ai_RequestID ev) "" then Ret (Some (poison "empty request_id"))
      else if String.eqb (ai_Team ev) "" then Ret (Some (poison "empty team"))
      else if ai_TotalTokens ev <=? 0 then Ret None
      else meter (ai_Team ev) (ai_usage ev)
  end.

(** [store]: whether the consumer was given a ProcessedStore. *)
Definition ai_dispatch (store : bool) (env : EventEnvelope) : go (option ev_error) :=
  let handled :=
    do! err := ai_handle env in
    match err with
    | Some err => Ret (Some err)
    | None =>
        if store then
          do! err := ask (MarkProcessed (env_ID env)) in
          match err with
          | Some err => Ret (Some (Wrap "events: mark AI event processed" err))
          | None => Ret None
          end
        else Ret None
    end in
  if store then
    do! processed := ask (IsProcessed (env_ID env)) in
    match processed with
    | Err e => Ret (Some (Wrap "events: idempotency check" e))
    | Ok true => Ret None
    | Ok false => handled
    end
  else handled.

(** ** Properties *)

Inductive delivery := DInference (env : EventEnvelope) | DStorage (env : EventEnvelope) | DAI (env : EventEnvelope).

Definition handle (d : delivery) : go (option ev_error) :=
  match d with
  | DInference env => handleInferenceCompleted env
  | DStorage env => handleModelVersionReady env
  | DAI env => ai_handle env
  end.

(** What an event that can be charged is charged as. *)
Definition charges (d : delivery) : list RecordUsageInput :=
  match d with
  | DInference env =>
      match decode_inference (env_Data env) with
      | Some ev => request_usage ev :: if 0 <? ic_TokenCount ev then [token_usage ev] else []
      | None => []
      end
  | DStorage env =>
      match decode_ready (env_Data env) with
      | Some ev => if mv_SizeBytes ev <=? 0 then [] else [storage_usage ev]
      | None => []
      end
  | DAI env =>
      match decode_ai (env_Data env) with
      | Some ev => if ai_TotalTokens ev <=? 0 then [] else [ai_usage ev]
      | None => []
      end
  end.

(** The team an event is charged to: the AI event names it; of the others a resolver
    answered it, for the event's API key or for its model and version. *)
Definition charged_team (d : delivery) (team : string) : Prop :=
  match d with
  | DInference env => exists ev w, decode_inference (env_Data env) = Some ev /\ (ResolveTeam (ic_ApiKeyId ev) w).1 = Ok team
  | DStorage env => exists ev w, decode_ready (env_Data env) = Some ev /\
      (ResolveVersionTeam (mv_ModelId ev) (mv_VersionId ev) w).1 = Ok team
  | DAI env => exists ev, decode_ai (env_Data env) = Some ev /\ team = ai_Team ev
  end.

Definition anchored (d : delivery) : Prop := Forall (fun i => ru_IdempotencyKey i <> "") (charges d).

(** An acknowledged event's charges are all in the ledger, of one team, the event's. *)
Definition metered (d : delivery) (a : option ev_error) (l : ledger) : Prop :=
  a = None -> anchored d /\ exists team, Forall (fun input => charged_team d team /\ exists r, r ∈ usage_records l /\
    ur_Team r = team /\ ur_IdempotencyKey r = ru_IdempotencyKey input) (charges d).

Section safety.
Variable allowed : string -> RecordUsageInput -> Prop.

Definition entered (team : string) (input : RecordUsageInput) (l : ledger) : Prop :=
  exists r, r ∈ usage_records l /\ ur_Team r = team /\ ur_IdempotencyKey r = ru_IdempotencyKey input.

#[local] Notation safe := (Site.safe (W := W) (usage_regime allowed)).

Lemma entered_grows team input l l' : grows l l' -> entered team input l -> entered team input l'.
Proof. intros Hg (r & Hr & H'). exists r. split; [by eapply grows_in | done]. Qed.

Lemma safe_meter base team input : allowed team input -> typed_plans base ->
  safe base (meter team input) (fun a l => typed_plans l /\ (a = None -> entered team input l)).
Proof.
  intros Ha Ht. unfold meter. eapply safe_seq; [apply safe_grows, safe_RecordUsage; [exact Ha | done] |].
  intros a l [Hg Hr]. assert (typed_plans l) as Htl by (by eapply grows_typed).
  destruct a as [[r dedup]|e]; apply safe_ret; intros l' Hl'; (split; [by eapply grows_typed |]); [| done].
  intros _. eapply entered_grows; [exact Hl' |]. by exists r.
Qed.

Lemma safe_resolved base (f : W -> result string ev_error * W) k post :
  (forall e l, grows base l -> post (Some e) l) ->
  (forall team, (exists w, (f w).1 = Ok team) -> safe base (k team) post) ->
  safe base (do! r := ask f in resolved r k) post.
Proof.
  intros He Hk. apply safe_ask_of. intros w. destruct (f w).1 as [team|e] eqn:E; simpl.
  - apply Hk. by exists w.
  - apply safe_ret. intros l Hl. by apply He.
Qed.

Lemma safe_handle base d : (forall team input, input ∈ charges d -> charged_team d team -> allowed team input) ->
  typed_plans base -> safe base (handle d) (metered d).
Proof.
  intros Hall Ht. assert (forall e base, safe base (Ret (Some e)) (metered d)) as Herr by (intros; by apply safe_ret).
  assert (forall team input base, charged_team d team -> typed_plans base -> charges d = [input] ->
    ru_IdempotencyKey input <> "" -> safe base (meter team input) (metered d)) as Hone.
  { intros team input base' Hct Hb Hc Hk.
    eapply safe_weaken; [apply safe_meter; [apply Hall; [rewrite Hc; by left | done] | done] |].
    intros a l [_ Ha] ->. unfold anchored. rewrite Hc. split; [by constructor |]. exists team.
    constructor; [split; [done | by apply Ha] | done]. }
  assert (forall base, charges d = [] -> safe base (Ret None) (metered d)) as Hnone.
  { intros base' Hc. apply safe_ret. intros l _ _. unfold anchored. rewrite Hc. split; [done |]. by exists "". }
  destruct d as [env | env | env]; simpl in Hone, Hnone |- *.
  - unfold handleInferenceCompleted. destruct (decode_inference (env_Data env)) as [ev|] eqn:Ed; [| apply Herr].
    destruct (String.eqb_spec (ic_RequestId ev) ""); [apply Herr |].
    destruct (String.eqb (ic_ApiKeyId ev) ""); [apply Herr |].
    apply safe_resolved; [done |]. intros team [w Hw].
    assert (charged_team (DInference env) team) as Hct by (by exists ev, w).
    eapply safe_seq; [apply (safe_meter base team (request_usage ev)); [apply Hall; [simpl; rewrite Ed; by left | exact Hct] | done] |].
    intros [e|] l [Htl Hl]; [apply Herr |]. specialize (Hl eq_refl).
    destruct (0 <? ic_TokenCount ev) eqn:Etok.
    + eapply safe_weaken; [apply safe_grows, safe_meter; [apply Hall; [simpl; rewrite Ed, Etok; right; by left | exact Hct] | done] |].
      intros a l' (Hg & _ & Ha) ->. unfold anchored; simpl charges; rewrite Ed, Etok. split.
      * constructor; [done |]. constructor; [| constructor]. simpl. by destruct (ic_RequestId ev).
      * exists team. constructor; [split; [done | by eapply entered_grows] |].
        constructor; [split; [done | by apply Ha] | constructor].
    + apply safe_ret. intros l' Hl' _. unfold anchored; simpl charges; rewrite Ed, Etok. split; [by constructor |].
      exists team. constructor; [split; [done | by eapply entered_grows] | constructor].
  - unfold handleModelVersionReady. destruct (decode_ready (env_Data env)) as [ev|] eqn:Ed; [| apply Herr].
    destruct (String.eqb_spec (mv_VersionId ev) ""); [apply Herr |].
    destruct (String.eqb (mv_ModelId ev) ""); [apply Herr |].
    destruct (mv_SizeBytes ev <=? 0) eqn:Es; [by apply Hnone |].
    apply safe_resolved; [done |]. intros team [w Hw]. apply Hone; [by exists ev, w | done | done |].
    simpl. by destruct (mv_VersionId ev).
  - unfold ai_handle. destruct (decode_ai (env_Data env)) as [ev|] eqn:Ed; [| apply Herr].
    destruct (String.eqb_spec (ai_RequestID ev) ""); [apply Herr |].
    destruct (String.eqb (ai_Team ev) ""); [apply Herr |].
    destruct (ai_TotalTokens ev <=? 0) eqn:Es; [by apply Hnone |]. apply Hone; [by exists ev | done | done |].
    simpl. by destruct (ai_RequestID ev).
Qed.
End safety.

End handlers.

(** ** The property at concrete deliveries *)

#[export] Instance demo_around : Around Z.
Proof.
  refine {| ResolveTeam key w := (if String.eqb key "key-1" then Ok "a" else Err (Sentinel ErrTeamNotFound), w);
            ResolveVersionTeam m v w := (Ok "a", w);
            IsProcessed i w := (Ok false, w); MarkProcessed i w := (None, w) |}.
Defined.

Definition demo_event (key : string) : InferenceCompleted := {|
  ic_RequestId := "r1"; ic_ApiKeyId := key; ic_ModelId := "m"; ic_Version := "1"; ic_TokenCount := 150;
  ic_CompletedAt := None |}.

#[export] Instance demo_wire : Wire := {|
  decode_inference data := if String.eqb data "good" then Some (demo_event "key-1")
                           else if String.eqb data "foreign" then Some (demo_event "key-9") else None;
  decode_ready _ := None;
  decode_ai data := if String.eqb data "ai" then Some {| ai_RequestID := "r1"; ai_Team := "a";
                      ai_Model := "m"; ai_TotalTokens := 30 |} else None |}.

(** The plan prices calls as well. *)
Definition full_plan : RatePlan := {|
  rp_ID := "plan-1"; rp_Name := "starter";
  UnitPrices := {[MeterTypeInferenceTokens := {| AmountMicros := 20; CurrencyCode := "USD" |};
                  MeterTypeInferenceRequest := {| AmountMicros := 100; CurrencyCode := "USD" |}]};
  IncludedQuantities := ∅; QuotaLimits := ∅; rp_CreatedAt := 1 |}.

Definition full_site : site Z ledger := {| s_world := 1; s_db := {|
  usage_records := []; rate_plans := {["plan-1" := full_plan]}; rate_plan_idempotency := ∅;
  team_rate_plans := {["a" := "plan-1"]}; invoices := []; outbox := [] |} |}.

Definition envelope (data : string) : EventEnvelope := {| env_ID := "e-" +:+ data; env_Data := data |}.

(** The same event three times, a
    stranger's, one that does not decode, and an AI completion of the same request. *)
Definition demo_deliveries : list delivery :=
  [DInference (envelope "good"); DInference (envelope "good"); DInference (envelope "foreign");
   DAI (envelope "ai"); DInference (envelope "bad"); DInference (envelope "good")].

Definition demo_run := run_all (map handle demo_deliveries) full_site.

Lemma full_typed : typed_plans (s_db full_site).
Proof.
  intros id p mt price Hp Hpr. simpl in Hp. apply lookup_singleton_Some in Hp as [_ <-].
  unfold PriceFor in Hpr. simpl in Hpr.
  apply lookup_insert_Some in Hpr as [[_ <-] | [_ Hpr]]; [vm_compute; split; discriminate |].
  apply lookup_singleton_Some in Hpr as [_ <-]. vm_compute. split; discriminate.
Qed.

