(* ===== verification/Outbox.v ===== *)
(** * The outbox relay of the billing service

    [services/billing/internal/events/{relay,outbox_reader}.go]: the loop that drains
    the outbox table onto the bus, publish first and mark after. Several relays and
    the writers of the table interleave call by call; a call may fail before it takes
    effect or have its acknowledgement lost. JSON is an argument with its round
    trip. *)

From S2P Require Import Prelude Concur Site Money Ledger.
Open Scope fp_scope.

(** ** The wire payloads (events.v1) *)

Inductive ProtoMeter :=
| METER_TYPE_UNSPECIFIED
| METER_TYPE_INFERENCE_REQUEST
| METER_TYPE_INFERENCE_TOKENS
| METER_TYPE_COMPUTE_SECONDS
| METER_TYPE_STORAGE_BYTES.

Definition meterTypeToProto (mt : MeterType) : ProtoMeter :=
  if String.eqb mt MeterTypeInferenceRequest then METER_TYPE_INFERENCE_REQUEST
  else if String.eqb mt MeterTypeInferenceTokens then METER_TYPE_INFERENCE_TOKENS
  else if String.eqb mt MeterTypeComputeSeconds then METER_TYPE_COMPUTE_SECONDS
  else if String.eqb mt MeterTypeStorageBytes then METER_TYPE_STORAGE_BYTES
  else METER_TYPE_UNSPECIFIED.

Inductive proto :=
| ProtoUsageRecorded (RecordId Team RatePlanId : string) (Meter : ProtoMeter) (Quantity CostMicros : Z)
    (CurrencyCode ModelId ModelVersion SourceRequestId : string) (OccurredAt : time)
| ProtoQuotaExceeded (Team RatePlanId : string) (Meter : ProtoMeter) (QuotaLimit CurrentUsage : Z) (OccurredAt : time)
| ProtoInvoiceGenerated (InvoiceId InvoiceNumber Team RatePlanId : string) (PeriodStart PeriodEnd : time)
    (TotalMicros : Z) (CurrencyCode : string) (FinalizedAt : time).

Definition usageRecordedToProto (p : UsageRecordedPayload) : proto :=
  ProtoUsageRecorded (urp_RecordID p) (urp_Team p) (urp_RatePlanID p) (meterTypeToProto (urp_MeterType p))
    (urp_Quantity p) (urp_CostMicros p) (urp_CurrencyCode p) (urp_ModelID p) (urp_ModelVersion p)
    (urp_SourceRequestID p) (urp_OccurredAt p).

Definition quotaExceededToProto (p : QuotaExceededPayload) : proto :=
  ProtoQuotaExceeded (qep_Team p) (qep_RatePlanID p) (meterTypeToProto (qep_MeterType p)) (qep_QuotaLimit p)
    (qep_CurrentUsage p) (qep_OccurredAt p).

Definition invoiceGeneratedToProto (p : InvoiceGeneratedPayload) : proto :=
  ProtoInvoiceGenerated (igp_InvoiceID p) (igp_InvoiceNumber p) (igp_Team p) (igp_RatePlanID p)
    (igp_PeriodStart p) (igp_PeriodEnd p) (igp_TotalMicros p) (igp_CurrencyCode p) (igp_FinalizedAt p).

(** [json.Marshal] of a payload and [json.Unmarshal] into each payload type. *)
Class Json (B : Type) : Type := {
  marshal : OutboxPayload -> B;
  unmarshal_usage : B -> option UsageRecordedPayload;
  unmarshal_quota : B -> option QuotaExceededPayload;
  unmarshal_invoice : B -> option InvoiceGeneratedPayload;
  usage_round_trip p : unmarshal_usage (marshal (UsageRecorded p)) = Some p;
  quota_round_trip p : unmarshal_quota (marshal (QuotaExceeded p)) = Some p;
  invoice_round_trip p : unmarshal_invoice (marshal (InvoiceGenerated p)) = Some p;
}.

Record OutboxRow {B : Type} := { or_ID : string; or_EventType : string; or_Payload : B; or_CreatedAt : time }.
Arguments OutboxRow B : clear implicits.

Section relay.
Context {B : Type} `{Json B}.

Definition decodeOutboxPayload (eventType : string) (body : B) : result proto bill_error :=
  if String.eqb eventType EventTypeUsageRecorded then
    match unmarshal_usage body with
    | Some p => Ok (usageRecordedToProto p)
    | None => Err (External "decode UsageRecorded payload")
    end
  else if String.eqb eventType EventTypeQuotaExceeded then
    match unmarshal_quota body with
    | Some p => Ok (quotaExceededToProto p)
    | None => Err (External "decode QuotaExceeded payload")
    end
  else if String.eqb eventType EventTypeInvoiceGenerated then
    match unmarshal_invoice body with
    | Some p => Ok (invoiceGeneratedToProto p)
    | None => Err (External "decode InvoiceGenerated payload")
    end
  else Err (External "unknown outbox event_type").

(** ** The table and the bus *)

Definition row_of (ev : OutboxEvent) : OutboxRow B := {|
  or_ID := oe_ID ev; or_EventType := oe_EventType ev; or_Payload := marshal (Payload ev);
  or_CreatedAt := oe_CreatedAt ev |}.

Definition unpublished (ev : OutboxEvent) : bool := bool_decide (PublishedAt ev = None).

Definition set_published (at_ : time) (ev : OutboxEvent) : OutboxEvent := {|
  oe_ID := oe_ID ev; AggregateID := AggregateID ev; oe_EventType := oe_EventType ev; Payload := Payload ev;
  oe_CreatedAt := oe_CreatedAt ev; PublishedAt := Some at_ |}.

Definition stamp (id : string) (at_ : time) (o : list OutboxEvent) : list OutboxEvent :=
  map (fun ev => if String.eqb (oe_ID ev) id then set_published at_ ev else ev) o.

(** A message on the stream: its subject, its [Nats-Msg-Id], its payload. *)
Record message := { m_subject : string; m_id : string; m_payload : proto }.

(** What two creation times leave open, the database decides: [order] sorts rows. *)
Class Broker (W : Type) `{Outside W} : Type := {
  bus_link : W -> fate * W;
  order : W -> list OutboxEvent -> list OutboxEvent;
  order_perm w l : order w l ≡ₚ l;
  order_sorted w l : StronglySorted (fun x y => oe_CreatedAt x <= oe_CreatedAt y) (order w l);
}.

Context {W : Type} `{Broker W}.

Record plant := { p_world : W; p_db : ledger; p_bus : list message }.

Abbreviation go := (prog plant) (only parsing).

Definition ClaimUnpublished (limit : Z) : go (result (list (OutboxRow B)) bill_error) :=
  atom (fun s =>
    let '(fate, w) := link (p_world s) in
    (match fate with
     | Works => Ok (map row_of (take (Z.to_nat limit) (order w (List.filter unpublished (outbox (p_db s))))))
     | _ => Err (Wrap "query unpublished outbox" (External "connection lost"))
     end, {| p_world := w; p_db := p_db s; p_bus := p_bus s |})).

Definition MarkPublished (id : string) : go (option bill_error) :=
  atom (fun s =>
    let '(fate, w) := link (p_world s) in
    let '(now, w) := Now w in
    let marked := put_outbox (stamp id now (outbox (p_db s))) (p_db s) in
    match fate with
    | Works => (None, {| p_world := w; p_db := marked; p_bus := p_bus s |})
    | Refused => (Some (External "connection refused"), {| p_world := w; p_db := p_db s; p_bus := p_bus s |})
    | AckLost => (Some (External "connection lost"), {| p_world := w; p_db := marked; p_bus := p_bus s |})
    end).

(** [PublishWithID]: the message is on the stream once the broker took it, even when
    the acknowledgement does not come back. *)
Definition PublishWithID (m : message) : go (option bill_error) :=
  atom (fun s =>
    let '(fate, w) := bus_link (p_world s) in
    let sent := {| p_world := w; p_db := p_db s; p_bus := p_bus s ++ [m] |} in
    match fate with
    | Works => (None, sent)
    | Refused => (Some (External "no responders"), {| p_world := w; p_db := p_db s; p_bus := p_bus s |})
    | AckLost => (Some (External "timeout"), sent)
    end).

Definition publishRow (row : OutboxRow B) : go (option bill_error) :=
  match decodeOutboxPayload (or_EventType row) (or_Payload row) with
  | Err e => Ret (Some e)
  | Ok payload => PublishWithID {| m_subject := or_EventType row; m_id := or_ID row; m_payload := payload |}
  end.

(** The loop over a batch; the count of rows published and marked. *)
Fixpoint publish_rows (rows : list (OutboxRow B)) (published : Z) : go Z :=
  match rows with
  | [] => Ret published
  | row :: rows =>
      do! err := publishRow row in
      match err with
      | Some _ => publish_rows rows published
      | None =>
          do! err := MarkPublished (or_ID row) in
          match err with
          | Some _ => publish_rows rows published
          | None => publish_rows rows (published + 1)
          end
      end
  end.

Definition processBatch (batchSize : Z) : go (result Z bill_error) :=
  do! rows := ClaimUnpublished batchSize in
  match rows with
  | Err e => Ret (Err (Wrap "claim unpublished outbox rows" e))
  | Ok rows => do! n := publish_rows rows 0 in Ret (Ok n)
  end.

(** [withDefaults] of the batch size. *)
Definition batch_size (configured : Z) : Z := if configured <=? 0 then 100 else configured.

(** The inner loop of [Run], one tick: batches until a short one or an error. *)
Fixpoint drain (fuel : nat) (batchSize : Z) : go (option bill_error) :=
  match fuel with
  | O => Ret None
  | S fuel =>
      do! r := processBatch batchSize in
      match r with
      | Err e => Ret (Some e)
      | Ok n => if n <? batchSize then Ret None else drain fuel batchSize
      end
  end.
(** ** What an event becomes *)

Definition proto_of (p : OutboxPayload) : proto :=
  match p with
  | UsageRecorded p => usageRecordedToProto p
  | QuotaExceeded p => quotaExceededToProto p
  | InvoiceGenerated p => invoiceGeneratedToProto p
  end.

Definition message_of (ev : OutboxEvent) : message := {|
  m_subject := oe_EventType ev; m_id := oe_ID ev; m_payload := proto_of (Payload ev) |}.

Definition typed_event (ev : OutboxEvent) : Prop := oe_EventType ev = EventType (Payload ev).

Lemma decode_typed ev : typed_event ev ->
  decodeOutboxPayload (oe_EventType ev) (marshal (Payload ev)) = Ok (proto_of (Payload ev)).
Proof.
  intros ->. unfold decodeOutboxPayload. destruct (Payload ev) as [p | p | p]; simpl.
  - by rewrite usage_round_trip.
  - by rewrite quota_round_trip.
  - by rewrite invoice_round_trip.
Qed.

(** An event whatever its stamp. *)
Definition event_key (ev : OutboxEvent) : OutboxEvent := set_published 0 ev.

Lemma key_message ev ev' : event_key ev = event_key ev' -> message_of ev = message_of ev'.
Proof. unfold event_key, message_of, set_published. intros [=]. congruence. Qed.

Lemma key_row ev ev' : event_key ev = event_key ev' -> row_of ev = row_of ev'.
Proof. unfold event_key, row_of, set_published. intros [=]. congruence. Qed.

Lemma stamp_keys id t o : map event_key (stamp id t o) = map event_key o.
Proof. unfold stamp. rewrite map_map. apply map_ext. intros ev. by destruct (String.eqb (oe_ID ev) id). Qed.

Lemma stamp_ids id t o : map oe_ID (stamp id t o) = map oe_ID o.
Proof. unfold stamp. rewrite map_map. apply map_ext. intros ev. by destruct (String.eqb (oe_ID ev) id). Qed.

(** ** The invariant of the table and the bus *)

(** Ids are unique, rows are typed, and what is marked published is on the bus. *)
Record sound (s : plant) : Prop := {
  so_ids : NoDup (map oe_ID (outbox (p_db s)));
  so_typed : forall ev, ev ∈ outbox (p_db s) -> typed_event ev;
  so_sent : forall ev, ev ∈ outbox (p_db s) -> PublishedAt ev <> None -> message_of ev ∈ p_bus s;
}.

(** A step of a relay or of a writer. *)
Inductive plant_step (s s' : plant) : Prop :=
| StepIdle : outbox (p_db s') = outbox (p_db s) -> p_bus s' = p_bus s -> plant_step s s'
| StepWrite events : outbox (p_db s') = outbox (p_db s) ++ events -> p_bus s' = p_bus s ->
    NoDup (map oe_ID (outbox (p_db s'))) ->
    Forall (fun ev => typed_event ev /\ PublishedAt ev = None) events -> plant_step s s'
| StepPublish ev : ev ∈ outbox (p_db s) -> outbox (p_db s') = outbox (p_db s) ->
    p_bus s' = p_bus s ++ [message_of ev] -> plant_step s s'
| StepMark ev t : ev ∈ outbox (p_db s) -> message_of ev ∈ p_bus s ->
    outbox (p_db s') = stamp (oe_ID ev) t (outbox (p_db s)) -> p_bus s' = p_bus s -> plant_step s s'.

Lemma same_id o ev ev' : NoDup (map oe_ID o) -> ev ∈ o -> ev' ∈ o -> oe_ID ev = oe_ID ev' -> ev = ev'.
Proof.
  intros Hnd [i Hi]%list_elem_of_lookup [j Hj]%list_elem_of_lookup Hid.
  assert (i = j) as ->; [| congruence].
  eapply (NoDup_lookup (map oe_ID o) i j (oe_ID ev)); [done | | rewrite Hid]; by rewrite list_lookup_fmap, ?Hi, ?Hj.
Qed.

Lemma step_sound s s' : plant_step s s' -> sound s -> sound s'.
Proof.
  intros Hst [Hids Hty Hsent]. destruct Hst as [Ho Hb | evs Ho Hb Hnd Hf | ev Hin Ho Hb | ev t Hin Hm Ho Hb].
  - constructor; rewrite Ho, ?Hb; done.
  - rewrite list.Forall_forall in Hf. constructor; [done | |]; intros ev; rewrite Ho, ?Hb, elem_of_app.
    + intros [Ha | Ha]; [by apply Hty | by apply Hf].
    + intros [Ha | Ha]; [by apply Hsent | by destruct (Hf ev Ha) as [_ ->]].
  - constructor; [by rewrite Ho | by rewrite Ho |]. intros ev' Hev Hp. rewrite Ho in Hev. rewrite Hb. apply elem_of_app.
    left. by apply Hsent.
  - constructor; [by rewrite Ho, stamp_ids | |].
    + intros ev' Hev'. rewrite Ho in Hev'. apply list_elem_of_fmap in Hev' as (ev0 & -> & Hev0).
      apply Hty in Hev0. by destruct (String.eqb (oe_ID ev0) (oe_ID ev)).
    + intros ev' Hev' Hp. rewrite Ho in Hev'. rewrite Hb. apply list_elem_of_fmap in Hev' as (ev0 & -> & Hev0).
      destruct (String.eqb_spec (oe_ID ev0) (oe_ID ev)) as [He |]; [| by apply Hsent].
      rewrite (same_id _ ev0 ev Hids Hev0 Hin He). exact Hm.
Qed.

(** What steps keep: no event disappears or changes, the bus only grows, by messages
    of committed events. *)
Record keeps (s s' : plant) : Prop := {
  ke_events : forall ev, ev ∈ outbox (p_db s) -> event_key ev ∈ map event_key (outbox (p_db s'));
  ke_bus : exists sent, p_bus s' = p_bus s ++ sent /\
    Forall (fun m => exists ev, ev ∈ outbox (p_db s') /\ m = message_of ev) sent;
}.

Lemma key_elem ev o : event_key ev ∈ map event_key o -> exists ev', ev' ∈ o /\ event_key ev = event_key ev'.
Proof. intros (ev' & He & Hin)%list_elem_of_fmap. by exists ev'. Qed.

#[local] Instance keeps_preorder : PreOrder keeps.
Proof.
  split.
  - intros s. constructor; [intros ev Hev; by apply list_elem_of_fmap_2 | exists []; by rewrite app_nil_r].
  - intros s1 s2 s3 [He1 (m1 & Hb1 & Hf1)] [He2 (m2 & Hb2 & Hf2)]. constructor.
    + intros ev Hev. apply He1 in Hev as (ev' & Hev' & ->)%key_elem. by apply He2.
    + exists (m1 ++ m2). rewrite Hb2, Hb1, app_assoc. split; [done |]. apply Forall_app. split; [| done].
      eapply Forall_impl; [| exact Hf1]. intros m (ev & Hev & ->). apply He2 in Hev as (ev' & Hev' & Hk)%key_elem.
      exists ev'. split; [done | by apply key_message].
Qed.

Lemma step_keeps s s' : plant_step s s' -> keeps s s'.
Proof.
  destruct 1 as [Ho Hb | evs Ho Hb Hnd Hf | ev Hin Ho Hb | ev t Hin Hm Ho Hb]; constructor;
    rewrite ?Ho, ?Hb, ?stamp_keys;
    try (by intros ev' Hev'; apply list_elem_of_fmap_2); try (by exists []; rewrite app_nil_r).
  - intros ev Hev. rewrite map_app. apply elem_of_app. left. by apply list_elem_of_fmap_2.
  - eexists. split; [done |]. constructor; [| constructor]. by exists ev.
Qed.

Lemma steps_keep s s' : rtc plant_step s s' -> keeps s s'.
Proof. induction 1 as [| s1 s2 s3 Hs _ IH]; [reflexivity |]. etrans; [by apply step_keeps | done]. Qed.

Lemma steps_sound s s' : rtc plant_step s s' -> sound s -> sound s'.
Proof. induction 1 as [| s1 s2 s3 Hs _ IH]; [done |]. intros Hso. apply IH. by eapply step_sound. Qed.
(** ** Relays and writers keep to these steps *)

(** From any state that [base] leads to, [m] makes only such steps. *)
Definition abides {A} (base : plant) (m : go A) : Prop :=
  forall s, sound base -> rtc plant_step base s -> rg plant_step plant_step m (fun _ _ => True) s.

Lemma abides_ret {A} base (a : A) : abides base (Ret a).
Proof. intros s _ _ s1 _. exact I. Qed.

Lemma abides_atom {A R} base (f : plant -> R * plant) (k : R -> go A) :
  (forall s r s', sound s -> rtc plant_step base s -> f s = (r, s') -> plant_step s s' /\ abides s' (k r)) ->
  abides base (do! x := atom f in k x).
Proof.
  intros Hf s Hso Hs s1 H1' r s2 He. assert (rtc plant_step base s1) as Hb by (by etrans).
  assert (sound s1) as Hs1 by (by eapply steps_sound).
  destruct (Hf s1 r s2 Hs1 Hb He) as [Hst Hk]. split; [done |].
  apply Hk; [by eapply step_sound | reflexivity].
Qed.

(** A row of the table, whatever happened to it since. *)
Definition known (s : plant) (row : OutboxRow B) : Prop := exists ev, ev ∈ outbox (p_db s) /\ row = row_of ev.

Lemma known_steps s s' row : rtc plant_step s s' -> known s row -> known s' row.
Proof.
  intros [He _]%steps_keep (ev & Hev & ->). apply He in Hev as (ev' & Hev' & Hk)%key_elem.
  exists ev'. split; [done | by apply key_row].
Qed.

Lemma known_row s ev : sound s -> ev ∈ outbox (p_db s) ->
  decodeOutboxPayload (or_EventType (row_of ev)) (or_Payload (row_of ev)) = Ok (proto_of (Payload ev)).
Proof. intros [_ Hty _] Hev. by apply decode_typed, Hty. Qed.

Lemma keeps_ev s s' ev : rtc plant_step s s' -> ev ∈ outbox (p_db s) ->
  exists ev', ev' ∈ outbox (p_db s') /\ event_key ev = event_key ev'.
Proof. intros [He _]%steps_keep Hev. by apply He, key_elem in Hev. Qed.

Lemma publish_step s ev r s' : ev ∈ outbox (p_db s) -> run (PublishWithID (message_of ev)) s = (r, s') ->
  plant_step s s' /\ (r = None -> p_bus s' = p_bus s ++ [message_of ev]).
Proof.
  intros Hev. unfold PublishWithID. rewrite run_atom. destruct (bus_link (p_world s)) as [fate w].
  destruct fate; intros [= <- <-]; (split; [| done]); [by apply (StepPublish _ _ ev) | by apply StepIdle |].
  by apply (StepPublish _ _ ev).
Qed.

Lemma mark_step s ev r s' : ev ∈ outbox (p_db s) -> message_of ev ∈ p_bus s ->
  run (MarkPublished (oe_ID ev)) s = (r, s') -> plant_step s s'.
Proof.
  intros Hev Hm. unfold MarkPublished. rewrite run_atom. destruct (link (p_world s)) as [fate w].
  destruct (Now w) as [now w'].
  destruct fate; intros [= <- <-]; [by apply (StepMark _ _ ev now) | by apply StepIdle | by apply (StepMark _ _ ev now)].
Qed.

Lemma abides_rows rows n base : sound base -> Forall (known base) rows -> abides base (publish_rows rows n).
Proof.
  revert n base. induction rows as [|row rows IH]; intros n base Hso0 Hk; [apply abides_ret |].
  apply Forall_cons_1 in Hk as [(ev & Hev & ->) Hk]. cbn [publish_rows]. unfold publishRow.
  rewrite (known_row base ev Hso0 Hev). fold (message_of ev).
  apply abides_atom. intros s r s' Hso Hs Hf.
  destruct (keeps_ev base s ev Hs Hev) as (ev' & Hev' & Hkey).
  assert (plant_step s s' /\ (r = None -> p_bus s' = p_bus s ++ [message_of ev'])) as [Hst Hsent].
  { apply (publish_step s ev'); [done |]. rewrite <- Hf, <- (key_message _ _ Hkey). apply run_atom. }
  split; [exact Hst |]. assert (rtc plant_step base s') as Hs' by (eapply rtc_r; eauto).
  assert (forall s2 k, rtc plant_step base s2 -> abides s2 (publish_rows rows k)) as Hrest.
  { intros s2 k Hs2. apply IH; [by eapply steps_sound |]. eapply Forall_impl; [| exact Hk].
    intros row. by apply known_steps. }
  destruct r as [e|]; [by apply Hrest |]. specialize (Hsent eq_refl).
  apply abides_atom. intros s2 r s3 Hso2 Hs2 Hf2.
  assert (rtc plant_step base s2) as Hb2 by (by etrans).
  destruct (keeps_ev base s2 ev Hb2 Hev) as (ev2 & Hev2 & Hkey2).
  assert (plant_step s2 s3) as Hst2.
  { eapply (mark_step s2 ev2 r s3); [done | |].
    - rewrite <- (key_message _ _ Hkey2), (key_message _ _ Hkey).
      destruct (steps_keep _ _ Hs2) as [_ (sent & -> & _)]. rewrite Hsent, !elem_of_app, list_elem_of_singleton. auto.
    - assert (oe_ID ev2 = oe_ID ev) as -> by (by injection Hkey2). rewrite <- Hf2. apply run_atom. }
  split; [exact Hst2 |]. assert (rtc plant_step base s3) as Hs3 by (eapply rtc_r; eauto).
  destruct r; by apply Hrest.
Qed.

Lemma claimed_known w limit s : Forall (known s)
  (map row_of (take limit (order w (List.filter unpublished (outbox (p_db s)))))).
Proof.
  apply Forall_map, Forall_take. eapply Permutation_Forall; [symmetry; apply order_perm |].
  apply list.Forall_forall. intros ev Hev%list_elem_of_In. apply filter_In in Hev as [Hev _]. exists ev.
  split; [by apply list_elem_of_In | done].
Qed.

Lemma abides_bind {A C} base (m : go A) (k : A -> go C) :
  abides base m -> (forall a s, sound s -> rtc plant_step base s -> abides s (k a)) -> abides base (do! x := m in k x).
Proof.
  revert base. induction m as [a | R f k' IH]; intros base Hm Hk.
  - intros s Hso Hs. by apply (Hk a base Hso ltac:(reflexivity)).
  - intros s Hso Hs s1 H1' r s2 Hf. destruct (Hm s Hso Hs s1 H1' r s2 Hf) as [Hst Hr]. split; [done |].
    assert (rtc plant_step base s2) as Hb by (etrans; [exact Hs |]; eapply rtc_r; eauto).
    apply (IH r s2); [| | by eapply steps_sound | reflexivity].
    + intros s3 _ Hs3. by eapply rg_rely.
    + intros a s3 Hso3 Hs3. apply Hk; [done | by etrans].
Qed.

Lemma abides_processBatch base size : abides base (processBatch size).
Proof.
  unfold processBatch, ClaimUnpublished. apply abides_atom. intros s r s' Hso Hs Hf.
  destruct (link (p_world s)) as [fate w].
  assert (outbox (p_db s') = outbox (p_db s) /\ p_bus s' = p_bus s) as [Ho Hb] by (by injection Hf as _ <-).
  split; [by apply StepIdle |].
  destruct r as [rows|e]; [| apply abides_ret]. destruct fate; [| done..]. injection Hf as <- <-.
  apply abides_bind; [| intros; apply abides_ret]. apply abides_rows; [by destruct Hso; constructor |].
  apply (claimed_known w (Z.to_nat size) {| p_world := w; p_db := p_db s; p_bus := p_bus s |}).
Qed.

Lemma abides_drain fuel size base : abides base (drain fuel size).
Proof.
  revert base. induction fuel as [|fuel IH]; intros base; cbn [drain]; [apply abides_ret |].
  apply abides_bind; [apply abides_processBatch |]. intros r s _ _.
  destruct r as [n|e]; [| apply abides_ret]. destruct (n <? size); [apply abides_ret | apply IH].
Qed.

(** What else writes the outbox: a usage record or an invoice with its events. *)
Inductive job := JDrain (fuel : nat) (size : Z) | JUsage (r : UsageRecord) (events : list OutboxEvent)
  | JInvoice (i : Invoice) (ev : OutboxEvent).

Definition new_events (j : job) : list OutboxEvent :=
  match j with JDrain _ _ => [] | JUsage _ events => events | JInvoice _ ev => [ev] end.

Definition on_db {R} (f : ledger -> R * ledger) : go unit :=
  atom (fun s => (tt, {| p_world := p_world s; p_db := (f (p_db s)).2; p_bus := p_bus s |})).

Definition job_prog (j : job) : go unit :=
  match j with
  | JDrain fuel size => do! _ := drain fuel size in Ret tt
  | JUsage r events => do! _ := on_db (RecordUsageTx r events) in Ret tt
  | JInvoice i ev => do! _ := on_db (SaveInvoiceTx i ev) in Ret tt
  end.

Lemma no_clash events o : event_clash events o = false -> NoDup (map oe_ID o) -> NoDup (map oe_ID (o ++ events)).
Proof.
  unfold event_clash. intros [Hnd%negb_false_iff%bool_decide_eq_true Hex]%orb_false_iff Ho.
  rewrite map_app. apply list.NoDup_app. split; [done |]. split; [| done].
  intros id (ev & -> & Hev)%list_elem_of_fmap (ev' & Hid & Hev')%list_elem_of_fmap.
  assert (existsb (fun ev => existsb (fun ev' => String.eqb (oe_ID ev') (oe_ID ev)) o) events = true) as Ht; [| congruence].
  apply existsb_exists. exists ev'. split; [by apply list_elem_of_In |]. apply existsb_exists. exists ev.
  split; [by apply list_elem_of_In |]. rewrite Hid. apply String.eqb_refl.
Qed.

Lemma abides_job base j : Forall (fun ev => typed_event ev /\ PublishedAt ev = None) (new_events j) ->
  abides base (job_prog j).
Proof.
  intros Hf. destruct j as [fuel size | r events | i ev]; cbn [job_prog].
  - apply abides_bind; [apply abides_drain | intros; apply abides_ret].
  - apply abides_atom. intros s u s' [Hids _ _] _ He. injection He as <- <-. split; [| apply abides_ret].
    unfold RecordUsageTx. destruct (existsb _ _ || event_clash _ _) eqn:Ec; [by apply StepIdle |].
    apply orb_false_iff in Ec as [_ Ec]. apply (StepWrite _ _ events); [done | done | by apply no_clash | done].
  - apply abides_atom. intros s u s' [Hids _ _] _ He. injection He as <- <-. split; [| apply abides_ret].
    unfold SaveInvoiceTx. destruct (existsb _ _ || event_clash _ _) eqn:Ec; [by apply StepIdle |].
    apply orb_false_iff in Ec as [_ Ec]. apply (StepWrite _ _ [ev]); [done | done | by apply no_clash | done].
Qed.

(** C20. The outbox loses nothing and invents nothing. Any number of relays drain while
    any usage and invoices are written, call by call in any order, with calls that
    fail and acknowledgements that get lost. No committed event disappears or changes
    but for its stamp; an event that is marked published is on the bus, under its row
    id; and every message that came onto the bus is a committed event's. *)
Theorem outbox_at_least_once jobs s results s' : sound s ->
  Forall (fun j => Forall (fun ev => typed_event ev /\ PublishedAt ev = None) (new_events j)) jobs ->
  par (map job_prog jobs) s results s' ->
  (forall ev, ev ∈ outbox (p_db s) -> event_key ev ∈ map event_key (outbox (p_db s'))) /\
  (forall ev, ev ∈ outbox (p_db s') -> PublishedAt ev <> None -> message_of ev ∈ p_bus s') /\
  exists sent, p_bus s' = p_bus s ++ sent /\
    Forall (fun m => exists ev, ev ∈ outbox (p_db s') /\ m = message_of ev) sent.
Proof.
  intros Hso Hf Hpar.
  destruct (par_rg _ s results s' (fun _ => plant_step) (fun _ => plant_step) (fun _ _ _ => True) Hpar) as (_ & Hst & _).
  - intros i m Hi. rewrite list_lookup_fmap in Hi. destruct (jobs !! i) as [j|] eqn:Ej; [| done]. injection Hi as <-.
    apply (abides_job s j); [exact (Forall_lookup_1 _ _ _ _ Hf Ej) | done | reflexivity].
  - done.
  - assert (rtc plant_step s s') as Hrtc.
    { clear Hso Hpar. induction Hst as [| s1 s2 s3 (i & _ & Hs) _ IH]; [reflexivity |]. by eapply rtc_l. }
    destruct (steps_keep _ _ Hrtc) as [He Hb]. split; [done |]. split; [| done].
    by apply (steps_sound s s').
Qed.
(** ** A healthy drain *)

Definition pending (s : plant) : list OutboxEvent := List.filter unpublished (outbox (p_db s)).

Definition older (x y : OutboxEvent) : Prop := oe_CreatedAt x <= oe_CreatedAt y.

(** The rows of a table that are not among [ids]. *)
Definition except (ids : list string) (o : list OutboxEvent) : list OutboxEvent :=
  List.filter (fun ev => negb (existsb (String.eqb (oe_ID ev)) ids)) o.

Lemma pending_stamp id t o : List.filter unpublished (stamp id t o) = except [id] (List.filter unpublished o).
Proof.
  unfold except, stamp. induction o as [|ev o IH]; [done |]. simpl.
  destruct (String.eqb (oe_ID ev) id) eqn:E; simpl.
  - rewrite IH. destruct (unpublished ev); simpl; [by rewrite E | done].
  - destruct (unpublished ev); simpl; [rewrite E; simpl; by rewrite IH | exact IH].
Qed.

Lemma except_cons id ids o : except (id :: ids) o = except ids (except [id] o).
Proof.
  unfold except. induction o as [|ev o IH]; [done |]. simpl in *. rewrite orb_false_r.
  destruct (String.eqb (oe_ID ev) id); simpl; [exact IH |].
  destruct (existsb (String.eqb (oe_ID ev)) ids); simpl; by rewrite IH.
Qed.

Lemma except_none o : except [] o = o.
Proof. unfold except. simpl. induction o as [|ev o IH]; simpl; [done | by rewrite IH]. Qed.

Lemma except_perm ids o o' : o ≡ₚ o' -> except ids o ≡ₚ except ids o'.
Proof.
  induction 1 as [| x l l' _ IH | x y l | l1 l2 l3 _ IH1 _ IH2]; [done | | | by etrans]; unfold except in *; simpl.
  - destruct (negb _); [by constructor | done].
  - destruct (negb _), (negb _); try done. apply Permutation_swap.
Qed.

Lemma lfilter_none (f : OutboxEvent -> bool) o : (forall ev, ev ∈ o -> f ev = false) -> List.filter f o = [].
Proof.
  induction o as [|ev o IH]; intros Hf; [done |]. simpl. rewrite Hf by (by left). apply IH. intros; apply Hf; by right.
Qed.

Lemma lfilter_all (f : OutboxEvent -> bool) o : (forall ev, ev ∈ o -> f ev = true) -> List.filter f o = o.
Proof.
  induction o as [|ev o IH]; intros Hf; [done |]. simpl. rewrite Hf by (by left). f_equal. apply IH.
  intros; apply Hf; by right.
Qed.

Lemma lfilter_ids (f : OutboxEvent -> bool) o : NoDup (map oe_ID o) -> NoDup (map oe_ID (List.filter f o)).
Proof.
  induction o as [|ev o IH]; [done |]. simpl. intros [Hn Hnd]%list.NoDup_cons. destruct (f ev); [| by apply IH].
  simpl. apply list.NoDup_cons. split; [| by apply IH]. intros (ev' & Hid & Hev')%list_elem_of_fmap. apply Hn.
  apply list_elem_of_In, filter_In in Hev' as [Hev' _]. rewrite Hid. apply list_elem_of_fmap_2. by apply list_elem_of_In.
Qed.

Lemma existsb_id (id : string) ids : existsb (String.eqb id) ids = true <-> id ∈ ids.
Proof.
  rewrite existsb_exists. split.
  - intros (x & Hx & He). apply String.eqb_eq in He as ->. by apply list_elem_of_In.
  - intros Hin. exists id. split; [by apply list_elem_of_In | apply String.eqb_refl].
Qed.

(** Taking a batch out of the rows leaves the others. *)
Lemma except_batch evs rest : NoDup (map oe_ID (evs ++ rest)) -> except (map oe_ID evs) (evs ++ rest) = rest.
Proof.
  rewrite map_app. intros (_ & Hdis & _)%list.NoDup_app. unfold except. rewrite List.filter_app.
  assert (List.filter (fun ev => negb (existsb (String.eqb (oe_ID ev)) (map oe_ID evs))) evs = []) as ->.
  { apply lfilter_none. intros ev Hev. apply negb_false_iff, existsb_id. by apply list_elem_of_fmap_2. }
  simpl. apply lfilter_all. intros ev Hev. apply negb_true_iff, not_true_iff_false. intros Hin%existsb_id.
  apply (Hdis _ Hin). by apply list_elem_of_fmap_2.
Qed.

Lemma abides_run {A} s (m : go A) a s' : sound s -> abides s m -> run m s = (a, s') -> rtc plant_step s s'.
Proof.
  intros Hso Hm Hrun. pose proof (run_all_par [m] s) as Hpar. simpl in Hpar. rewrite Hrun in Hpar. simpl in Hpar.
  destruct (par_rg [m] s [a] s' (fun _ => plant_step) (fun _ => plant_step) (fun _ _ _ => True) Hpar) as (_ & Hst & _).
  - intros [|i] m' Hi; [| done]. injection Hi as <-. apply Hm; [done | reflexivity].
  - done.
  - clear Hpar Hrun Hso Hm. induction Hst as [| s1 s2 s3 (i & _ & Hs) _ IH]; [reflexivity |]. by eapply rtc_l.
Qed.

Section healthy.
Hypothesis link_up : forall w, (link w).1 = Works.
Hypothesis bus_up : forall w, (bus_link w).1 = Works.

Lemma run_rows evs : forall n s, Forall typed_event evs -> exists s',
  run (publish_rows (map row_of evs) n) s = (n + Z.of_nat (length evs), s') /\
  p_bus s' = p_bus s ++ map message_of evs /\ pending s' = except (map oe_ID evs) (pending s) /\
  map event_key (outbox (p_db s')) = map event_key (outbox (p_db s)).
Proof.
  induction evs as [|ev evs IH]; intros n s Hf; simpl.
  - exists s. rewrite Z.add_0_r, app_nil_r, except_none. done.
  - apply Forall_cons_1 in Hf as [Hty Hf]. unfold publishRow. simpl. rewrite (decode_typed ev Hty).
    fold (message_of ev). rewrite run_bind. unfold PublishWithID. rewrite run_atom.
    pose proof (bus_up (p_world s)) as Hb. destruct (bus_link (p_world s)) as [f1 w1]. simpl in Hb. subst f1.
    simpl.
    pose proof (link_up w1) as Hl. destruct (link w1) as [f2 w2]. simpl in Hl. subst f2.
    destruct (Now w2) as [now w3]. set (s1 := Build_plant _ _ _).
    destruct (IH (n + 1) s1 Hf) as (s' & Hrun & Hbus & Hp & Hk). exists s'.
    split; [rewrite Hrun; f_equal; lia |]. split; [rewrite Hbus; simpl; by rewrite <- app_assoc |].
    split; [| rewrite Hk; apply stamp_keys]. rewrite except_cons, Hp. unfold pending. simpl. by rewrite pending_stamp.
Qed.

Lemma run_batch size s : sound s -> exists evs rest s',
  evs = take (Z.to_nat size) (evs ++ rest) /\ evs ++ rest ≡ₚ pending s /\ StronglySorted older (evs ++ rest) /\
  run (processBatch size) s = (Ok (Z.of_nat (length evs)), s') /\
  p_bus s' = p_bus s ++ map message_of evs /\ pending s' ≡ₚ rest /\ sound s'.
Proof.
  intros Hso. pose proof (link_up (p_world s)) as Hl. destruct (link (p_world s)) as [f w] eqn:El.
  simpl in Hl. subst f.
  set (all := order w (pending s)). set (s1 := Build_plant w (p_db s) (p_bus s)). exists (take (Z.to_nat size) all), (drop (Z.to_nat size) all).
  rewrite take_drop. assert (all ≡ₚ pending s) as Hall by apply order_perm.
  assert (Forall typed_event (take (Z.to_nat size) all)) as Hty.
  { apply Forall_take. eapply Permutation_Forall; [symmetry; exact Hall |]. apply list.Forall_forall.
    intros ev Hev%list_elem_of_In. apply filter_In in Hev as [Hev _]. apply (so_typed s Hso). by apply list_elem_of_In. }
  destruct (run_rows (take (Z.to_nat size) all) 0 s1 Hty) as (s' & Hrun & Hbus & Hp & Hk).
  assert (run (processBatch size) s = (Ok (Z.of_nat (length (take (Z.to_nat size) all))), s')) as Hfull.
  { unfold processBatch. rewrite run_bind. unfold ClaimUnpublished. rewrite run_atom, El.
    fold (pending s). fold all s1. by rewrite run_bind, Hrun. }
  exists s'. split; [done |]. split; [done |]. split; [apply order_sorted |].
  split; [exact Hfull |]. split; [done |].
  assert (NoDup (map oe_ID all)) as Hnd.
  { assert (map oe_ID all ≡ₚ map oe_ID (pending s)) as -> by (by apply Permutation_map).
    apply lfilter_ids, so_ids, Hso. }
  split.
  - rewrite Hp. change (pending s1) with (pending s).
    etrans; [apply except_perm; symmetry; exact Hall |]. rewrite <- (take_drop (Z.to_nat size) all) at 2.
    rewrite except_batch; [done | by rewrite take_drop].
  - eapply steps_sound; [| exact Hso]. eapply abides_run; [done | apply abides_processBatch | exact Hfull].
Qed.
(** A healthy tick drains the outbox. When the database and the bus answer and
    nobody else writes, one tick with a positive batch size ends by itself, marks
    every committed event published, and puts each one that was pending on the bus
    exactly once, oldest first. *)
Theorem healthy_tick_drains fuel size s : sound s -> 0 < size -> (length (pending s) < fuel)%nat ->
  exists s' sent, run (drain fuel size) s = (None, s') /\ pending s' = [] /\
    sent ≡ₚ pending s /\ StronglySorted older sent /\ p_bus s' = p_bus s ++ map message_of sent.
Proof.
  intros Hso Hsize. revert s Hso. induction fuel as [|fuel IH]; intros s Hso Hlen; [lia |]. cbn [drain]. rewrite run_bind.
  destruct (run_batch size s Hso) as (evs & rest & s1 & Htake & Hperm & Hsorted & Hrun & Hbus & Hpend & Hso1).
  rewrite Hrun. assert (length evs = (Z.to_nat size `min` length (evs ++ rest))%nat) as Hl by (by rewrite Htake at 1; rewrite length_take).
  rewrite length_app in Hl. assert (length (pending s) = (length evs + length rest)%nat) as Hps
    by (by rewrite <- Hperm, length_app).
  destruct (Z.ltb_spec (Z.of_nat (length evs)) size) as [Hlt | Hge].
  - assert (rest = []) as -> by (destruct rest; [done | simpl in Hl; lia]). rewrite app_nil_r in *.
    exists s1, evs. split; [done |]. split; [by apply Permutation_nil_r |]. done.
  - assert (length (pending s1) = length rest) as Hp1 by (by rewrite Hpend).
    destruct (IH s1 Hso1) as (s2 & sent & Hrun2 & Hp2 & Hsent & Hss & Hbus2); [lia |].
    exists s2, (evs ++ sent). split; [done |]. split; [done |].
    assert (sent ≡ₚ rest) as Hsr by (by rewrite Hsent).
    split; [by rewrite <- Hperm, Hsr |]. split; [| by rewrite Hbus2, Hbus, map_app, app_assoc].
    apply StronglySorted_app in Hsorted as (Hcross & Hes & _). apply StronglySorted_app. split; [| done].
    intros x y Hx Hy. apply Hcross; [done | by rewrite <- Hsr].
Qed.
End healthy.
(** ** A batch of rows that cannot be sent *)

Definition undecodable (ev : OutboxEvent) : Prop :=
  exists e, decodeOutboxPayload (oe_EventType ev) (marshal (Payload ev)) = Err e.

Lemma run_undecodable evs n s : Forall undecodable evs -> run (publish_rows (map row_of evs) n) s = (n, s).
Proof.
  revert n. induction evs as [|ev evs IH]; intros n Hf; [done |]. apply Forall_cons_1 in Hf as [[e He] Hf].
  simpl. unfold publishRow. simpl. rewrite He. simpl. by apply IH.
Qed.

(** The older rows fill the batch. *)
Lemma batch_of_older (l bad good : list OutboxEvent) (k : nat) :
  StronglySorted older l -> l ≡ₚ bad ++ good -> (k <= length bad)%nat ->
  (forall b g, b ∈ bad -> g ∈ good -> oe_CreatedAt b < oe_CreatedAt g) ->
  forall x, x ∈ take k l -> x ∈ bad.
Proof.
  intros Hs Hp Hk Hlt x Hx. assert (x ∈ l) as Hxl by (rewrite <- (take_drop k l); apply elem_of_app; by left).
  rewrite Hp, elem_of_app in Hxl. destruct Hxl as [? | Hg]; [done | exfalso].
  apply list_elem_of_lookup in Hx as [i Hi]. apply lookup_take_Some in Hi as [Hi Hik].
  apply take_drop_middle in Hi as Hl. set (f := fun ev => bool_decide (oe_CreatedAt ev < oe_CreatedAt x)).
  assert (length (List.filter f l) <= i)%nat as Hup.
  { rewrite <- Hl, List.filter_app, length_app.
    assert (List.filter f (x :: drop (S i) l) = []) as ->.
    { apply lfilter_none. intros ev Hev. apply bool_decide_false. rewrite <- Hl in Hs.
      apply StronglySorted_app in Hs as (_ & _ & Hs). apply StronglySorted_inv in Hs as [_ Hs].
      apply elem_of_cons in Hev as [-> | Hev]; [lia |]. rewrite list.Forall_forall in Hs. apply Hs in Hev. unfold older in Hev. lia. }
    pose proof (List.filter_length_le f (take i l)). rewrite length_take in *. simpl. lia. }
  assert (List.filter f l ≡ₚ List.filter f (bad ++ good)) as Hpf.
  { clear -Hp. induction Hp as [| y l1 l2 _ IH | y z l1 | l1 l2 l3 _ IH1 _ IH2]; simpl; [done | | | by etrans].
    - destruct (f y); [by constructor | done].
    - destruct (f y), (f z); try done. apply Permutation_swap. }
  apply Permutation_length in Hpf. rewrite List.filter_app, length_app in Hpf.
  rewrite (lfilter_all f bad) in Hpf; [lia |]. intros ev Hev. apply bool_decide_true. by apply Hlt.
Qed.

(** A batch of poison rows stops the relay. If at least a batch size of pending
    rows cannot be decoded and they are older than the other pending rows, then no
    tick changes anything, whatever the database and the bus do and for however many
    rounds: the rows behind them are never sent. *)
Theorem poison_batch_starves fuel size s bad good r s' :
  pending s ≡ₚ bad ++ good -> 0 < size -> (Z.to_nat size <= length bad)%nat -> Forall undecodable bad ->
  (forall b g, b ∈ bad -> g ∈ good -> oe_CreatedAt b < oe_CreatedAt g) ->
  run (drain fuel size) s = (r, s') -> p_db s' = p_db s /\ p_bus s' = p_bus s.
Proof.
  intros Hp Hpos Hk Hbad Hlt. destruct fuel as [|fuel]; [by intros [= _ <-] |]. cbn [drain].
  rewrite run_bind. unfold processBatch. rewrite run_bind. unfold ClaimUnpublished. rewrite run_atom.
  destruct (link (p_world s)) as [f w]. destruct f; [| by intros [= _ <-]..].
  fold (pending s). rewrite run_bind, run_undecodable.
  - simpl. destruct (Z.ltb_spec 0 size); [| lia]. by intros [= _ <-].
  - rewrite list.Forall_forall in Hbad. apply list.Forall_forall. intros x Hx. apply Hbad.
    eapply (batch_of_older (order w (pending s)) bad good); [apply order_sorted | by rewrite order_perm | done | done | done].
Qed.
End relay.

(** ** The properties at a concrete table *)

(** JSON that keeps the value itself. *)
#[export] Program Instance demo_json : Json OutboxPayload := {|
  marshal p := p;
  unmarshal_usage p := match p with UsageRecorded p => Some p | _ => None end;
  unmarshal_quota p := match p with QuotaExceeded p => Some p | _ => None end;
  unmarshal_invoice p := match p with InvoiceGenerated p => Some p | _ => None end |}.
Solve Obligations with done.

(** The database sorts by insertion. *)
Fixpoint insert_row (x : OutboxEvent) (l : list OutboxEvent) : list OutboxEvent :=
  match l with
  | [] => [x]
  | y :: l => if oe_CreatedAt x <=? oe_CreatedAt y then x :: y :: l else y :: insert_row x l
  end.
Definition sort_rows (l : list OutboxEvent) : list OutboxEvent := foldr insert_row [] l.

Lemma insert_row_perm x l : insert_row x l ≡ₚ x :: l.
Proof.
  induction l as [|y l IH]; simpl; [done |]. destruct (_ <=? _); [done |]. rewrite IH. apply Permutation_swap.
Qed.

Lemma sort_rows_perm l : sort_rows l ≡ₚ l.
Proof. induction l as [|x l IH]; simpl; [done |]. by rewrite insert_row_perm, IH. Qed.

Lemma insert_row_sorted x l : StronglySorted older l -> StronglySorted older (insert_row x l).
Proof.
  induction l as [|y l IH]; intros Hs; simpl; [by repeat constructor |].
  apply StronglySorted_inv in Hs as [Hs Hy]. destruct (Z.leb_spec (oe_CreatedAt x) (oe_CreatedAt y)).
  - constructor; [by constructor |]. constructor; [done |]. eapply Forall_impl; [| exact Hy].
    intros z Hz. unfold older in *. lia.
  - constructor; [by apply IH |]. eapply Permutation_Forall; [symmetry; apply insert_row_perm |].
    constructor; [unfold older; lia | done].
Qed.

Lemma sort_rows_sorted l : StronglySorted older (sort_rows l).
Proof. induction l as [|x l IH]; simpl; [constructor | by apply insert_row_sorted]. Qed.

(** A world that counts; the bus loses the acknowledgement of some messages. *)
#[export] Instance relay_outside : Outside Z.
Proof.
  refine {| Now w := (w, w + 1); NewID w := ("id", w + 1); link w := (Works, w + 1) |}.
Defined.

#[export] Instance flaky_broker : Broker Z.
Proof.
  refine {| bus_link w := ((if w mod 4 =? 0 then AckLost else Works), w + 1); order _ := sort_rows |}.
  - intros _ l. apply sort_rows_perm.
  - intros _ l. apply sort_rows_sorted.
Defined.

Definition demo_quota : OutboxPayload := QuotaExceeded {|
  qep_Team := "a"; qep_RatePlanID := "p"; qep_MeterType := MeterTypeInferenceTokens; qep_QuotaLimit := 10;
  qep_CurrentUsage := 12; qep_OccurredAt := 1 |}.

Definition demo_row (id : string) (ty : string) (at_ : time) : OutboxEvent := {|
  oe_ID := id; AggregateID := "r"; oe_EventType := ty; Payload := demo_quota; oe_CreatedAt := at_; PublishedAt := None |}.

Definition demo_plant (rows : list OutboxEvent) : plant := {| p_world := 0;
  p_db := {| usage_records := []; rate_plans := ∅; rate_plan_idempotency := ∅; team_rate_plans := ∅;
             invoices := []; outbox := rows |}; p_bus := [] |}.

Definition three_rows : list OutboxEvent :=
  [demo_row "e3" EventTypeQuotaExceeded 30; demo_row "e1" EventTypeQuotaExceeded 10; demo_row "e2" EventTypeQuotaExceeded 20].

Lemma three_sound : sound (demo_plant three_rows).
Proof.
  constructor; simpl.
  - by apply (bool_decide_unpack _).
  - intros ev Hev. repeat (apply elem_of_cons in Hev as [-> | Hev]; [reflexivity |]). by apply not_elem_of_nil in Hev.
  - intros ev Hev Hp. exfalso. apply Hp.
    repeat (apply elem_of_cons in Hev as [-> | Hev]; [reflexivity |]). by apply not_elem_of_nil in Hev.
Qed.

Definition demo_jobs : list job := [JDrain 5 2; JDrain 5 2].
Definition demo_drains := run_all (map job_prog demo_jobs) (demo_plant three_rows).

Lemma outbox_at_least_once_witness :
  map m_id (p_bus demo_drains.2) = ["e1"; "e2"; "e2"; "e3"] /\
  forall ev, ev ∈ outbox (p_db demo_drains.2) -> PublishedAt ev <> None -> message_of ev ∈ p_bus demo_drains.2.
Proof.
  split; [by vm_compute |].
  assert (Forall (fun j => Forall (fun ev => typed_event ev /\ PublishedAt ev = None) (new_events j)) demo_jobs) as Hj
    by (by repeat constructor).
  exact (proj1 (proj2 (outbox_at_least_once demo_jobs _ _ _ three_sound Hj (run_all_par _ _)))).
Defined.

(** A broker that always answers. *)
Definition steady_broker : Broker Z.
Proof.
  refine {| bus_link w := (Works, w + 1); order _ := sort_rows |}.
  - intros _ l. apply sort_rows_perm.
  - intros _ l. apply sort_rows_sorted.
Defined.

Lemma healthy_tick_drains_witness :
  exists s' sent, run (drain (H1 := steady_broker) 4 2) (demo_plant three_rows) = (None, s') /\
    pending s' = [] /\ p_bus s' = map message_of sent /\ sent ≡ₚ three_rows.
Proof.
  destruct (healthy_tick_drains (H1 := steady_broker) (fun w => eq_refl) (fun w => eq_refl) 4 2
    (demo_plant three_rows) three_sound ltac:(lia) ltac:(simpl; lia)) as (s' & sent & Hr & Hp & Hs & _ & Hb).
  by exists s', sent.
Defined.

(** Two rows of an event type this relay does not know, and a good one behind them. *)
Definition poisoned : list OutboxEvent :=
  [demo_row "p1" "fp.billing.refund.issued" 1; demo_row "p2" "fp.billing.refund.issued" 2].

Lemma poison_batch_starves_witness :
  let s := demo_plant (poisoned ++ [demo_row "e3" EventTypeQuotaExceeded 30]) in
  p_bus (run (drain 100 2) s).2 = [] /\ pending (run (drain 100 2) s).2 = pending s.
Proof.
  intros s. destruct (run (drain 100 2) s) as [r s'] eqn:Er.
  destruct (poison_batch_starves 100 2 s poisoned [demo_row "e3" EventTypeQuotaExceeded 30] r s') as [H1 H2].
  - reflexivity.
  - lia.
  - simpl. lia.
  - repeat constructor; by eexists.
  - intros b g Hb Hg. apply list_elem_of_singleton in Hg as ->.
    repeat (apply elem_of_cons in Hb as [-> | Hb]; [simpl; lia |]). by apply not_elem_of_nil in Hb.
  - exact Er.
  - unfold pending. simpl. rewrite H1, H2. done.
Defined.
