(* ===== verification/GoText.v ===== *)
(** * Text functions of Go's standard library

    [strings.TrimSpace] on UTF-8 bytes, and the decimal numbers of [strconv]. *)

From Stdlib Require Import DecimalString DecimalFacts DecimalZ.
From S2P Require Import Prelude.

(** ** [strings.TrimSpace] *)

(** The encodings of the white space of Unicode: one, two and three bytes. *)
Definition space1 (a : ascii) : bool := let n := N_of_ascii a in ((9 <=? n) && (n <=? 13) || (n =? 32))%N.
Definition space2 (a b : ascii) : bool :=
  ((N_of_ascii a =? 0xC2) && ((N_of_ascii b =? 0x85) || (N_of_ascii b =? 0xA0)))%N.
Definition space3 (a b c : ascii) : bool :=
  let x := N_of_ascii a in let y := N_of_ascii b in let z := N_of_ascii c in
  ((x =? 0xE1) && (y =? 0x9A) && (z =? 0x80)
   || (x =? 0xE2) && (y =? 0x80) && ((0x80 <=? z) && (z <=? 0x8A) || (z =? 0xA8) || (z =? 0xA9) || (z =? 0xAF))
   || (x =? 0xE2) && (y =? 0x81) && (z =? 0x9F)
   || (x =? 0xE3) && (y =? 0x80) && (z =? 0x80))%N.

Fixpoint trim_front (w1 : ascii -> bool) (w2 : ascii -> ascii -> bool) (w3 : ascii -> ascii -> ascii -> bool)
    (s : list ascii) : list ascii :=
  match s with
  | a :: s1 =>
      if w1 a then trim_front w1 w2 w3 s1
      else match s1 with
        | b :: s2 =>
            if w2 a b then trim_front w1 w2 w3 s2
            else match s2 with
              | c :: s3 => if w3 a b c then trim_front w1 w2 w3 s3 else s
              | [] => s
              end
        | [] => s
        end
  | [] => []
  end.

Definition TrimSpace (s : string) : string :=
  let front := trim_front space1 space2 space3 (String.list_ascii_of_string s) in
  String.string_of_list_ascii
    (rev (trim_front space1 (fun a b => space2 b a) (fun a b c => space3 c b a) (rev front))).

Example TrimSpace_both : TrimSpace "  a b	 " = "a b".
Proof. reflexivity. Qed.

(** ** [strconv] *)

Definition Itoa (z : Z) : string := NilZero.string_of_int (Z.to_int z).

(** An optional sign and decimal digits, within [int]. *)
Definition Atoi (s : string) : option Z :=
  let signed := match s with
    | String "+" (String "-" _) => None
    | String "+" s' => NilZero.int_of_string s'
    | _ => NilZero.int_of_string s
    end in
  match signed with
  | Some i => let z := Z.of_int i in if bool_decide (in_int64 z) then Some z else None
  | None => None
  end.

Example Atoi_samples : map Atoi ["17"; "-3"; "+4"; "007"; ""; "-"; "1a"; "9223372036854775808"; "+-1"]
  = [Some 17; Some (-3); Some 4; Some 7; None; None; None; None; None].
Proof. vm_compute. reflexivity. Qed.

Lemma Itoa_digits z : 0 <= z -> exists u, Z.to_int z = Decimal.Pos u /\ u <> Decimal.Nil.
Proof.
  intros Hz. destruct z as [|p|p]; [by exists (Decimal.D0 Decimal.Nil) | | lia].
  exists (Pos.to_uint p). split; [done |]. intros Hn. by apply (DecimalPos.Unsigned.to_uint_nonnil p).
Qed.

Lemma string_of_uint_head u : u <> Decimal.Nil ->
  exists a s, NilZero.string_of_uint u = String a s /\ a <> "+"%char /\ a <> "-"%char.
Proof. destruct u; [done | ..]; intros _; eexists _, _; (split; [reflexivity | split; discriminate]). Qed.

Lemma Atoi_Itoa z : 0 <= z <= int64_max -> Atoi (Itoa z) = Some z.
Proof.
  intros Hz. destruct (Itoa_digits z) as (u & Hu & Hn); [lia |].
  assert (NilZero.int_of_string (Itoa z) = Some (Z.to_int z)) as Hd.
  { unfold Itoa. rewrite NilZero.isi; [done | |]; rewrite Hu; congruence. }
  unfold Atoi. destruct (string_of_uint_head u Hn) as (a & s & Hs & Hp & Hm).
  assert (Itoa z = String a s) as Hi by (unfold Itoa; by rewrite Hu).
  rewrite Hi in *. rewrite (ltac:(by destruct a as [[] [] [] [] [] [] [] []]) :
    match String a s with
    | String "+" (String "-" _) => None
    | String "+" s' => NilZero.int_of_string s'
    | _ => NilZero.int_of_string (String a s)
    end = NilZero.int_of_string (String a s)).
  rewrite Hd, DecimalZ.of_to. rewrite bool_decide_true; [done |].
  unfold in_int64, int64_min, int64_max in *. lia.
Qed.

Lemma Itoa_inj z w : 0 <= z <= int64_max -> 0 <= w <= int64_max -> Itoa z = Itoa w -> z = w.
Proof. intros Hz Hw He. apply Atoi_Itoa in Hz, Hw. congruence. Qed.
