(* ===== verification/RegistryStore.v ===== *)
(** * The model registry: its data and its write store

    The data of [services/registry/internal/domain/models.go], the errors of
    [errors.go] and [ports.go], and the write side of
    [internal/repository/postgres/write_store.go] over the tables of
    [migrations/001_init.up.sql]: one definition per statement or transaction.
    JSONB columns hold the values they encode; a [float64] is its 64 bits. *)

From S2P Require Import Prelude.
Open Scope fp_scope.

(** ** Errors *)

Inductive rg_sentinel :=
| ErrValidation
| ErrModelNotFound
| ErrVersionNotFound
| ErrModelNameTaken
| ErrVersionExists
| ErrModelArchived
| ErrIllegalTransition
| ErrVersionNotReady
| ErrInvalidStatusTransition
| ErrRecordNotFound
| ErrWriteConflict.

#[export] Instance rg_sentinels : Sentinels rg_sentinel.
Proof. refine {| sentinel_wraps _ := None |}. solve_decision. Defined.

Abbreviation rg_error := (error rg_sentinel).

(** A driver's error by its SQLSTATE, wherever in the chain. *)
Fixpoint errors_as (code : string) (e : rg_error) : bool :=
  match e with
  | Sentinel _ => false
  | External what => String.eqb what code
  | Wrap _ e' => errors_as code e'
  end.

Definition isUniqueViolation (e : rg_error) : bool := errors_as "23505" e.

(** ** Data (models.go) *)

(** Values outside the enumeration behave as the unspecified one. *)
Inductive ModelStage := StageUnspecified | StageDev | StageStaging | StageProduction | StageArchived.

#[export] Instance ModelStage_eq_dec : EqDecision ModelStage.
Proof. solve_decision. Defined.

Definition stage_IsValid (s : ModelStage) : bool := bool_decide (s <> StageUnspecified).

Definition CanTransitionTo (s target : ModelStage) : bool :=
  match s with
  | StageDev => bool_decide (target = StageStaging) || bool_decide (target = StageArchived)
  | StageStaging => bool_decide (target = StageProduction) || bool_decide (target = StageArchived)
  | StageProduction => bool_decide (target = StageArchived)
  | _ => false
  end.

Inductive VersionStatus := StatusUnspecified | StatusPendingUpload | StatusReady | StatusFailed.

#[export] Instance VersionStatus_eq_dec : EqDecision VersionStatus.
Proof. solve_decision. Defined.

Record Model := {
  m_ID : string;
  m_Name : string;
  m_Description : string;
  m_OwnerID : string;
  m_Team : string;
  m_Framework : string;
  m_TaskType : string;
  m_Tags : gmap string string;
  ProductionVersion : string;
  LatestVersion : string;
  m_CreatedAt : time;
  m_UpdatedAt : time;
  ArchivedAt : time;
}.

Definition IsArchived (m : Model) : bool := negb (time_is_zero (ArchivedAt m)).

Record ModelVersion := {
  v_ID : string;
  v_ModelID : string;
  v_Version : string;
  v_Description : string;
  v_Metrics : gmap string Z;
  ArtifactPath : string;
  ArtifactDigest : string;
  SizeBytes : Z;
  Stage : ModelStage;
  Status : VersionStatus;
  v_CreatedBy : string;
  v_CreatedAt : time;
}.

Definition IsServable (v : ModelVersion) : bool :=
  bool_decide (Stage v = StageProduction) && bool_decide (Status v = StatusReady).

Definition set_stage (st : ModelStage) (v : ModelVersion) : ModelVersion := {|
  v_ID := v_ID v; v_ModelID := v_ModelID v; v_Version := v_Version v; v_Description := v_Description v;
  v_Metrics := v_Metrics v; ArtifactPath := ArtifactPath v; ArtifactDigest := ArtifactDigest v;
  SizeBytes := SizeBytes v; Stage := st; Status := Status v; v_CreatedBy := v_CreatedBy v; v_CreatedAt := v_CreatedAt v |}.

Record Actor := { UserID : string; Team : string }.

Inductive Command := CommandMarkVersionReady | CommandPromoteVersion | CommandArchiveModel.

#[export] Instance Command_eq_dec : EqDecision Command.
Proof. solve_decision. Defined.
#[export] Instance Command_countable : Countable Command.
Proof.
  refine (inj_countable'
    (fun c => match c with CommandMarkVersionReady => 0%nat | CommandPromoteVersion => 1%nat | CommandArchiveModel => 2%nat end)
    (fun n => match n with 0%nat => CommandMarkVersionReady | 1%nat => CommandPromoteVersion | _ => CommandArchiveModel end) _).
  by intros [].
Defined.

Inductive ProjectionEventKind :=
| EventModelRegistered | EventVersionCreated | EventVersionReady | EventModelPromoted | EventModelArchived.

#[export] Instance ProjectionEventKind_eq_dec : EqDecision ProjectionEventKind.
Proof. solve_decision. Defined.

Record ProjectionEvent := {
  Kind : ProjectionEventKind;
  pe_Model : Model;
  pe_Version : option ModelVersion;
  DemotedVersion : option ModelVersion;
  FromStage : ModelStage;
  ToStage : ModelStage;
  pe_Actor : Actor;
  OccurredAt : time;
}.

(** ** The tables; an empty idempotency key is the NULL of the column *)

Record registry := {
  models : gmap string (Model * string);
  model_versions : gmap string (ModelVersion * string);
  command_idempotency : gmap (string * Command * string) string;
  emitted : list ProjectionEvent;
}.

Definition put_model (m : Model) (key : string) (g : registry) : registry := {|
  models := <[m_ID m := (m, key)]> (models g); model_versions := model_versions g;
  command_idempotency := command_idempotency g; emitted := emitted g |}.

Definition put_version (v : ModelVersion) (key : string) (g : registry) : registry := {|
  models := models g; model_versions := <[v_ID v := (v, key)]> (model_versions g);
  command_idempotency := command_idempotency g; emitted := emitted g |}.

(** An UPDATE of one row. *)
Definition alter_version (f : ModelVersion -> ModelVersion) (id : string) (g : registry) : registry := {|
  models := models g; model_versions := alter (fun r => (f r.1, r.2)) id (model_versions g);
  command_idempotency := command_idempotency g; emitted := emitted g |}.

Definition put_command (k : string * Command * string) (entity : string) (g : registry) : registry := {|
  models := models g; model_versions := model_versions g;
  command_idempotency := <[k := entity]> (command_idempotency g); emitted := emitted g |}.

Definition put_emitted (ev : ProjectionEvent) (g : registry) : registry := {|
  models := models g; model_versions := model_versions g;
  command_idempotency := command_idempotency g; emitted := emitted g ++ [ev] |}.

(** Two keys clash where both are given. *)
Definition same_key (k k' : string) : bool := negb (String.eqb k "") && String.eqb k k'.

(** The unique indexes of [models]: (team, name) and (team, idempotency_key). *)
Definition model_clash (m : Model) (key : string) (r : Model * string) : bool :=
  String.eqb (m_Team r.1) (m_Team m) && (String.eqb (m_Name r.1) (m_Name m) || same_key key r.2).

(** The unique indexes of [model_versions]: (model_id, version), (model_id, idempotency_key). *)
Definition version_clash (v : ModelVersion) (key : string) (r : ModelVersion * string) : bool :=
  String.eqb (v_ModelID r.1) (v_ModelID v) && (String.eqb (v_Version r.1) (v_Version v) || same_key key r.2).

(** The partial unique index: one PRODUCTION row per model. *)
Definition production_of (model : string) (r : ModelVersion * string) : bool :=
  String.eqb (v_ModelID r.1) model && bool_decide (Stage r.1 = StageProduction).

Definition rows {A} (m : gmap string A) : list A := (map_to_list m).*2.

(** ** Statements *)

(** [json.Marshal] refuses what is not finite: an exponent of all ones. *)
Definition finite (bits : Z) : bool := negb (Z.land (Z.shiftr bits 52) 2047 =? 2047).
Definition marshalMetrics (metrics : gmap string Z) : option rg_error :=
  if bool_decide (Forall (fun b => finite b = true) (map_to_list metrics).*2) then None
  else Some (Wrap "registry/postgres: marshal metrics" (External "json: unsupported value")).

Definition CreateModel (m : Model) (key : string) (g : registry) : result Model rg_error * registry :=
  if bool_decide (is_Some (models g !! m_ID m)) || existsb (model_clash m key) (rows (models g))
  then (Err (Sentinel ErrWriteConflict), g)
  else (Ok m, put_model m key g).

Definition one_row {A} (r : option (A * string)) : result A rg_error :=
  match r with Some (a, _) => Ok a | None => Err (Sentinel ErrRecordNotFound) end.

Definition LookupModelByIdempotencyKey (team key : string) (g : registry) : result Model rg_error :=
  if String.eqb key "" then Err (Sentinel ErrRecordNotFound)
  else one_row (List.find (fun r => String.eqb (m_Team r.1) team && String.eqb r.2 key) (rows (models g))).

Definition GetModel (id : string) (g : registry) : result Model rg_error := one_row (models g !! id).

(** The columns of the UPDATE: identity and the idempotency key are not among them. *)
Definition updated_model (m old : Model) : Model := {|
  m_ID := m_ID old; m_Name := m_Name old; m_Description := m_Description m; m_OwnerID := m_OwnerID old;
  m_Team := m_Team old; m_Framework := m_Framework m; m_TaskType := m_TaskType m; m_Tags := m_Tags m;
  ProductionVersion := ProductionVersion m; LatestVersion := LatestVersion m; m_CreatedAt := m_CreatedAt old;
  m_UpdatedAt := m_UpdatedAt m; ArchivedAt := ArchivedAt m |}.

Definition alter_model (f : Model -> Model) (id : string) (g : registry) : registry := {|
  models := alter (fun r => (f r.1, r.2)) id (models g); model_versions := model_versions g;
  command_idempotency := command_idempotency g; emitted := emitted g |}.

Definition UpdateModel (m : Model) (g : registry) : result Model rg_error * registry :=
  match models g !! m_ID m with
  | Some _ => (Ok m, alter_model (updated_model m) (m_ID m) g)
  | None => (Err (Sentinel ErrRecordNotFound), g)
  end.

Definition CreateVersion (v : ModelVersion) (key : string) (g : registry) : result ModelVersion rg_error * registry :=
  match marshalMetrics (v_Metrics v) with
  | Some err => (Err err, g)
  | None =>
      if bool_decide (is_Some (model_versions g !! v_ID v)) || existsb (version_clash v key) (rows (model_versions g))
      then (Err (Sentinel ErrWriteConflict), g)
      else if bool_decide (models g !! v_ModelID v = None)
      then (Err (Wrap "registry/postgres: insert version" (External "23503")), g)
      else (Ok v, put_version v key g)
  end.

Definition LookupVersionByIdempotencyKey (modelID key : string) (g : registry) : result ModelVersion rg_error :=
  if String.eqb key "" then Err (Sentinel ErrRecordNotFound)
  else one_row (List.find (fun r => String.eqb (v_ModelID r.1) modelID && String.eqb r.2 key) (rows (model_versions g))).

Definition GetVersion (id : string) (g : registry) : result ModelVersion rg_error := one_row (model_versions g !! id).

Definition of_model (modelID : string) (r : ModelVersion * string) : bool := String.eqb (v_ModelID r.1) modelID.

Definition CountVersions (modelID : string) (g : registry) : result Z rg_error :=
  Ok (Z.of_nat (length (List.filter (of_model modelID) (rows (model_versions g))))).

(** An UPDATE that may write the stage is refused when the partial index would hold
    two rows: another row of the model is PRODUCTION already. *)
Definition update_row (id : string) (st : ModelStage) (f : ModelVersion -> ModelVersion) (g : registry)
    : result registry rg_error :=
  match model_versions g !! id with
  | None => Err (Sentinel ErrRecordNotFound)
  | Some (old, _) =>
      if bool_decide (st = StageProduction) &&
         existsb (production_of (v_ModelID old)) (rows (delete id (model_versions g)))
      then Err (External "23505")
      else Ok (alter_version f id g)
  end.

Definition updated_status (v old : ModelVersion) : ModelVersion := {|
  v_ID := v_ID old; v_ModelID := v_ModelID old; v_Version := v_Version old; v_Description := v_Description old;
  v_Metrics := v_Metrics old; ArtifactPath := ArtifactPath v; ArtifactDigest := ArtifactDigest v;
  SizeBytes := SizeBytes v; Stage := Stage v; Status := Status v; v_CreatedBy := v_CreatedBy old;
  v_CreatedAt := v_CreatedAt old |}.

Definition UpdateVersionStatus (v : ModelVersion) (g : registry) : result ModelVersion rg_error * registry :=
  match update_row (v_ID v) (Stage v) (updated_status v) g with
  | Ok g' => (Ok v, g')
  | Err e => (Err (if errors_is e ErrRecordNotFound then Sentinel ErrRecordNotFound
                   else Wrap "registry/postgres: update version status" e), g)
  end.

Definition FindProductionVersion (modelID : string) (g : registry) : result ModelVersion rg_error :=
  one_row (List.find (production_of modelID) (rows (model_versions g))).

Definition updateVersionStageTx (id : string) (st : ModelStage) (g : registry) : result registry rg_error :=
  update_row id st (set_stage st) g.

(** The demotion first, then the promotion, in one transaction. *)
Definition PromoteVersionTx (promoted : ModelVersion) (demoted : option ModelVersion) (g : registry)
    : result (ModelVersion * option ModelVersion) rg_error * registry :=
  let demote := match demoted with
    | Some d => match updateVersionStageTx (v_ID d) (Stage d) g with
                | Ok g' => Ok g'
                | Err e => Err (Wrap "demote prior production" e)
                end
    | None => Ok g
    end in
  let tx := let! g1 := demote in
            match updateVersionStageTx (v_ID promoted) (Stage promoted) g1 with
            | Ok g2 => Ok g2
            | Err e => Err (Wrap "promote version" e)
            end in
  match tx with
  | Ok g2 => (Ok (promoted, demoted), g2)
  | Err e => (Err (if isUniqueViolation e then Sentinel ErrWriteConflict else Wrap "registry/postgres: promote tx" e), g)
  end.

Definition archived_model (m old : Model) : Model := {|
  m_ID := m_ID old; m_Name := m_Name old; m_Description := m_Description old; m_OwnerID := m_OwnerID old;
  m_Team := m_Team old; m_Framework := m_Framework old; m_TaskType := m_TaskType old; m_Tags := m_Tags old;
  ProductionVersion := ""; LatestVersion := LatestVersion old; m_CreatedAt := m_CreatedAt old;
  m_UpdatedAt := m_UpdatedAt m; ArchivedAt := ArchivedAt m |}.

(** The model and all its versions, in one transaction. *)
Definition ArchiveModelTx (m : Model) (g : registry) : result Model rg_error * registry :=
  match models g !! m_ID m with
  | None => (Err (Sentinel ErrRecordNotFound), g)
  | Some _ =>
      (Ok m, {|
        models := alter (fun r => (archived_model m r.1, r.2)) (m_ID m) (models g);
        model_versions := (fun r => if of_model (m_ID m) r then (set_stage StageArchived r.1, r.2) else r) <$> model_versions g;
        command_idempotency := command_idempotency g; emitted := emitted g |})
  end.

Definition LookupCommandIdempotency (team : string) (command : Command) (key : string) (g : registry)
    : result string rg_error :=
  if String.eqb key "" then Err (Sentinel ErrRecordNotFound)
  else match command_idempotency g !! (team, command, key) with
       | Some entity => Ok entity
       | None => Err (Sentinel ErrRecordNotFound)
       end.

(** INSERT ... ON CONFLICT DO NOTHING, and the read-back of the row that was there. *)
Definition RecordCommandIdempotency (team : string) (command : Command) (key entityID : string) (g : registry)
    : result unit rg_error * registry :=
  if String.eqb key "" then (Ok tt, g)
  else match command_idempotency g !! (team, command, key) with
       | None => (Ok tt, put_command (team, command, key) entityID g)
       | Some existing =>
           (if negb (String.eqb existing entityID) then Err (Sentinel ErrWriteConflict) else Ok tt, g)
       end.
