(* ===== verification/Registry.v ===== *)
(** * The registry service

    The commands of [services/registry/internal/domain/registry_service_impl.go] as
    programs of store calls, clock readings and ids, so that requests interleave call
    by call. [emit] records the call of the projection emitter, whose answer the code
    ignores. Copies of maps ([cloneTags], [cloneMetrics]) are the maps themselves. *)

From S2P Require Import Prelude Concur Site GoText RegistryStore.
Open Scope fp_scope.

(** ** Inputs (registry_service.go) *)

Record RegisterModelInput := {
  rm_Name : string; rm_Description : string; rm_Framework : string; rm_TaskType : string;
  rm_Tags : gmap string string; rm_IdempotencyKey : string;
}.

Record CreateVersionInput := {
  cv_ModelID : string; cv_Version : string; cv_Description : string; cv_Metrics : gmap string Z;
  cv_IdempotencyKey : string;
}.

Record MarkVersionReadyInput := {
  mr_VersionID : string; mr_Success : bool; mr_ArtifactPath : string; mr_ArtifactDigest : string;
  mr_SizeBytes : Z; mr_IdempotencyKey : string;
}.

Record PromoteVersionInput := {
  pv_VersionID : string; pv_TargetStage : ModelStage; pv_IdempotencyKey : string;
}.

Record UpdateModelInput := {
  um_ModelID : string; um_Description : string; um_UpdateDescription : bool;
  um_Tags : gmap string string; um_ReplaceTags : bool;
}.

Record PromoteResult := { Promoted : ModelVersion; Demoted : option ModelVersion }.

Definition invalid (text : string) : rg_error := Wrap text (Sentinel ErrValidation).

Definition blank (s : string) : bool := String.eqb (TrimSpace s) "".

Section service.
Context {W : Type} `{Outside W}.
Abbreviation go := (prog (site W registry)) (only parsing).

Definition emit (ev : ProjectionEvent) : go unit := touch (put_emitted ev).

(** ** Helpers *)

Definition loadOwnedModel (actor : Actor) (modelID : string) : go (result Model rg_error) :=
  do! m := query (fun _ => RegistryStore.GetModel modelID) in
  match m with
  | Ok m => Ret (if negb (String.eqb (m_Team m) (Team actor)) then Err (Sentinel ErrModelNotFound) else Ok m)
  | Err err => Ret (Err (if errors_is err ErrRecordNotFound then Sentinel ErrModelNotFound else Wrap "get model" err))
  end.

(** [None] when the key is new, [Some] entity when it was honoured before. *)
Definition lookupCommandIdempotency {T} (team : string) (command : Command) (key : string)
    (load : string -> go (result T rg_error)) : go (result (option T) rg_error) :=
  if String.eqb key "" then Ret (Ok None)
  else
    do! entity := query (fun _ => LookupCommandIdempotency team command key) in
    match entity with
    | Err err => Ret (if errors_is err ErrRecordNotFound then Ok None else Err (Wrap "idempotency lookup" err))
    | Ok entityID =>
        do! got := load entityID in
        Ret (match got with Ok t => Ok (Some t) | Err err => Err (Wrap "reload idempotent entity" err) end)
    end.

Definition recordCommandIdempotency (team : string) (command : Command) (key entityID : string)
    : go (result unit rg_error) :=
  if String.eqb key "" then Ret (Ok tt)
  else
    do! r := transact (RecordCommandIdempotency team command key entityID) in
    Ret (match r with Ok _ => Ok tt | Err err => Err (Wrap "record idempotency" err) end).

(** The lookup of a version by id, with the tenancy gate of the mutations. *)
Definition loadVersion (id : string) : go (result ModelVersion rg_error) :=
  query (fun _ => RegistryStore.GetVersion id).

Definition version_missing (err : rg_error) : rg_error :=
  if errors_is err ErrRecordNotFound then Sentinel ErrVersionNotFound else Wrap "get version" err.

Definition foreign_as_missing (err : rg_error) : rg_error :=
  if errors_is err ErrModelNotFound then Sentinel ErrVersionNotFound else err.

(** ** Commands *)

Definition RegisterModel (actor : Actor) (input : RegisterModelInput) : go (result Model rg_error) :=
  let name := TrimSpace (rm_Name input) in
  if String.eqb name "" then Ret (Err (invalid "model name is required"))
  else if String.eqb (Team actor) "" || String.eqb (UserID actor) "" then Ret (Err (invalid "actor identity is required"))
  else
    do! existing :=
      (if String.eqb (rm_IdempotencyKey input) "" then Ret (Err (Sentinel ErrRecordNotFound))
       else query (fun _ => LookupModelByIdempotencyKey (Team actor) (rm_IdempotencyKey input))) in
    match existing with
    | Ok m => Ret (Ok m)
    | Err err =>
        if negb (errors_is err ErrRecordNotFound) then Ret (Err (Wrap "idempotency lookup" err))
        else
          do! now := ask Now in
          do! id := ask NewID in
          let m := {| m_ID := id; m_Name := name; m_Description := rm_Description input; m_OwnerID := UserID actor;
                      m_Team := Team actor; m_Framework := rm_Framework input; m_TaskType := rm_TaskType input;
                      m_Tags := rm_Tags input; ProductionVersion := ""; LatestVersion := "";
                      m_CreatedAt := now; m_UpdatedAt := now; ArchivedAt := 0 |} in
          do! created := transact (CreateModel m (rm_IdempotencyKey input)) in
          match created with
          | Err err => Ret (Err (if errors_is err ErrWriteConflict then Sentinel ErrModelNameTaken else Wrap "create model" err))
          | Ok created =>
              do! _ := emit {| Kind := EventModelRegistered; pe_Model := created; pe_Version := None; DemotedVersion := None;
                               FromStage := StageUnspecified; ToStage := StageUnspecified; pe_Actor := actor; OccurredAt := now |} in
              Ret (Ok created)
          end
    end.

Definition edited (input : UpdateModelInput) (now : time) (m : Model) : Model := {|
  m_ID := m_ID m; m_Name := m_Name m;
  m_Description := (if um_UpdateDescription input then um_Description input else m_Description m);
  m_OwnerID := m_OwnerID m; m_Team := m_Team m; m_Framework := m_Framework m; m_TaskType := m_TaskType m;
  m_Tags := (if um_ReplaceTags input then um_Tags input else m_Tags m);
  ProductionVersion := ProductionVersion m; LatestVersion := LatestVersion m; m_CreatedAt := m_CreatedAt m;
  m_UpdatedAt := now; ArchivedAt := ArchivedAt m |}.

Definition UpdateModel (actor : Actor) (input : UpdateModelInput) : go (result Model rg_error) :=
  if blank (um_ModelID input) then Ret (Err (invalid "model id is required"))
  else
    do! m := loadOwnedModel actor (um_ModelID input) in
    try m id (fun m =>
      if IsArchived m then Ret (Err (Sentinel ErrModelArchived))
      else
        do! now := ask Now in
        do! updated := transact (RegistryStore.UpdateModel (edited input now m)) in
        try updated (Wrap "update model") (fun updated => Ret (Ok updated))).

Definition maxAutoLabelAttempts : nat := 100.

(** The insert loop from the attempt that [more] others may follow: a pinned label fails at
    the first conflict, an assigned one is bumped and tried again. *)
Fixpoint insert_version (more : nat) (actor : Actor) (input : CreateVersionInput) (m : Model) (autoAssign : bool)
    (now : time) (candidate : string) : go (result ModelVersion rg_error) :=
  do! id := ask NewID in
  let v := {| v_ID := id; v_ModelID := cv_ModelID input; v_Version := candidate; v_Description := cv_Description input;
              v_Metrics := cv_Metrics input; ArtifactPath := ""; ArtifactDigest := ""; SizeBytes := 0; Stage := StageDev;
              Status := StatusPendingUpload; v_CreatedBy := UserID actor; v_CreatedAt := now |} in
  do! created := transact (RegistryStore.CreateVersion v (cv_IdempotencyKey input)) in
  match created with
  | Ok created =>
      do! _ := emit {| Kind := EventVersionCreated; pe_Model := m; pe_Version := Some created; DemotedVersion := None;
                       FromStage := StageUnspecified; ToStage := StageUnspecified; pe_Actor := actor; OccurredAt := now |} in
      Ret (Ok created)
  | Err err =>
      if negb (errors_is err ErrWriteConflict) then Ret (Err (Wrap "create version" err))
      else if negb autoAssign then Ret (Err (Sentinel ErrVersionExists))
      else
        match more with
        | O => Ret (Err (Wrap "auto-assign version label" (Sentinel ErrWriteConflict)))
        | S more =>
            match Atoi candidate with
            | None => Ret (Err (Wrap "auto-assign version label: non-numeric candidate" (Sentinel ErrWriteConflict)))
            | Some next => insert_version more actor input m autoAssign now (Itoa (wrap64 (next + 1)))
            end
        end
  end.

Definition CreateVersion (actor : Actor) (input : CreateVersionInput) : go (result ModelVersion rg_error) :=
  if blank (cv_ModelID input) then Ret (Err (invalid "model id is required"))
  else
    do! existing :=
      (if String.eqb (cv_IdempotencyKey input) "" then Ret (Err (Sentinel ErrRecordNotFound))
       else query (fun _ => LookupVersionByIdempotencyKey (cv_ModelID input) (cv_IdempotencyKey input))) in
    match existing with
    | Ok v => Ret (Ok v)
    | Err err =>
        if negb (errors_is err ErrRecordNotFound) then Ret (Err (Wrap "idempotency lookup" err))
        else
          do! m := loadOwnedModel actor (cv_ModelID input) in
          try m id (fun m =>
            if IsArchived m then Ret (Err (Sentinel ErrModelArchived))
            else
              let pinned := TrimSpace (cv_Version input) in
              let autoAssign := String.eqb pinned "" in
              do! candidate :=
                (if autoAssign
                 then do! n := query (fun _ => CountVersions (cv_ModelID input)) in
                      try n (Wrap "count versions") (fun n => Ret (Ok (Itoa (wrap64 (n + 1)))))
                 else Ret (Ok pinned)) in
              try candidate id (fun candidate =>
                do! now := ask Now in
                insert_version maxAutoLabelAttempts actor input m autoAssign now candidate))
    end.

(** The confirmation of an upload on a version that is still pending. *)
Definition confirmed (input : MarkVersionReadyInput) (v : ModelVersion) : ModelVersion :=
  if mr_Success input
  then {| v_ID := v_ID v; v_ModelID := v_ModelID v; v_Version := v_Version v; v_Description := v_Description v;
          v_Metrics := v_Metrics v; ArtifactPath := mr_ArtifactPath input; ArtifactDigest := mr_ArtifactDigest input;
          SizeBytes := mr_SizeBytes input; Stage := Stage v; Status := StatusReady;
          v_CreatedBy := v_CreatedBy v; v_CreatedAt := v_CreatedAt v |}
  else {| v_ID := v_ID v; v_ModelID := v_ModelID v; v_Version := v_Version v; v_Description := v_Description v;
          v_Metrics := v_Metrics v; ArtifactPath := ArtifactPath v; ArtifactDigest := ArtifactDigest v;
          SizeBytes := SizeBytes v; Stage := Stage v; Status := StatusFailed;
          v_CreatedBy := v_CreatedBy v; v_CreatedAt := v_CreatedAt v |}.

Definition MarkVersionReady (actor : Actor) (input : MarkVersionReadyInput) : go (result ModelVersion rg_error) :=
  if blank (mr_VersionID input) then Ret (Err (invalid "version id is required"))
  else
    do! replay := lookupCommandIdempotency (Team actor) CommandMarkVersionReady (mr_IdempotencyKey input) loadVersion in
    try replay id (fun replay =>
    match replay with
    | Some v => Ret (Ok v)
    | None =>
    do! v := loadVersion (mr_VersionID input) in
    try v version_missing (fun v =>
    do! owner := loadOwnedModel actor (v_ModelID v) in
    try owner foreign_as_missing (fun _ =>
    if bool_decide (Status v = StatusReady) && mr_Success input then Ret (Ok v)
    else if bool_decide (Status v = StatusFailed) && negb (mr_Success input) then Ret (Ok v)
    else if negb (bool_decide (Status v = StatusPendingUpload)) then
      Ret (Err (Wrap "cannot confirm" (Sentinel ErrInvalidStatusTransition)))
    else
    do! now := ask Now in
    do! updated := transact (UpdateVersionStatus (confirmed input v)) in
    try updated (Wrap "update version status") (fun updated =>
    do! recorded := recordCommandIdempotency (Team actor) CommandMarkVersionReady (mr_IdempotencyKey input) (v_ID updated) in
    try recorded id (fun _ =>
    if mr_Success input then
      do! m := query (fun _ => RegistryStore.GetModel (v_ModelID updated)) in
      try m (Wrap "load owning model for ready event") (fun m =>
      do! _ := emit {| Kind := EventVersionReady; pe_Model := m; pe_Version := Some updated; DemotedVersion := None;
                       FromStage := StageUnspecified; ToStage := StageUnspecified; pe_Actor := actor; OccurredAt := now |} in
      Ret (Ok updated))
    else Ret (Ok updated)))))
    end).

(** The incumbent that a promotion to PRODUCTION demotes. *)
Definition find_demoted (v : ModelVersion) (target : ModelStage) : go (result (option ModelVersion) rg_error) :=
  if bool_decide (target = StageProduction) then
    do! prior := query (fun _ => FindProductionVersion (v_ModelID v)) in
    match prior with
    | Ok prior =>
        Ret (Ok (if negb (String.eqb (v_ID prior) (v_ID v)) then Some (set_stage StageArchived prior) else None))
    | Err err => Ret (if errors_is err ErrRecordNotFound then Ok None else Err (Wrap "find production version" err))
    end
  else Ret (Ok None).

Definition PromoteVersion (actor : Actor) (input : PromoteVersionInput) : go (result PromoteResult rg_error) :=
  let target := pv_TargetStage input in
  if blank (pv_VersionID input) then Ret (Err (invalid "version id is required"))
  else if negb (stage_IsValid target) then Ret (Err (invalid "target stage is invalid"))
  else
    do! replay := lookupCommandIdempotency (Team actor) CommandPromoteVersion (pv_IdempotencyKey input) loadVersion in
    try replay id (fun replay =>
    match replay with
    | Some v => Ret (Ok {| Promoted := v; Demoted := None |})
    | None =>
    do! v := loadVersion (pv_VersionID input) in
    try v version_missing (fun v =>
    do! owner := loadOwnedModel actor (v_ModelID v) in
    try owner foreign_as_missing (fun _ =>
    if bool_decide (Stage v = target) then Ret (Ok {| Promoted := v; Demoted := None |})
    else if negb (CanTransitionTo (Stage v) target) then
      Ret (Err (Wrap "stage" (Sentinel ErrIllegalTransition)))
    else if (bool_decide (target = StageStaging) || bool_decide (target = StageProduction)) &&
            negb (bool_decide (Status v = StatusReady)) then
      Ret (Err (Wrap "version status" (Sentinel ErrVersionNotReady)))
    else
    do! now := ask Now in
    do! demoted := find_demoted v target in
    try demoted id (fun demoted =>
    do! swapped := transact (PromoteVersionTx (set_stage target v) demoted) in
    try swapped (Wrap "promote tx") (fun swapped =>
    let '(newPromoted, newDemoted) := swapped in
    do! recorded := recordCommandIdempotency (Team actor) CommandPromoteVersion (pv_IdempotencyKey input) (v_ID newPromoted) in
    try recorded id (fun _ =>
    do! m := query (fun _ => RegistryStore.GetModel (v_ModelID newPromoted)) in
    try m (Wrap "load owning model for promote event") (fun m =>
    do! _ := emit {| Kind := EventModelPromoted; pe_Model := m; pe_Version := Some newPromoted;
                     DemotedVersion := newDemoted; FromStage := Stage v; ToStage := target;
                     pe_Actor := actor; OccurredAt := now |} in
    Ret (Ok {| Promoted := newPromoted; Demoted := newDemoted |})))))))
    end).

Definition retired (now : time) (m : Model) : Model := {|
  m_ID := m_ID m; m_Name := m_Name m; m_Description := m_Description m; m_OwnerID := m_OwnerID m; m_Team := m_Team m;
  m_Framework := m_Framework m; m_TaskType := m_TaskType m; m_Tags := m_Tags m;
  ProductionVersion := ProductionVersion m; LatestVersion := LatestVersion m; m_CreatedAt := m_CreatedAt m;
  m_UpdatedAt := now; ArchivedAt := now |}.

Definition ArchiveModel (actor : Actor) (modelID idempotencyKey : string) : go (result Model rg_error) :=
  if blank modelID then Ret (Err (invalid "model id is required"))
  else
    do! replay := lookupCommandIdempotency (Team actor) CommandArchiveModel idempotencyKey (loadOwnedModel actor) in
    try replay id (fun replay =>
    match replay with
    | Some m => Ret (Ok m)
    | None =>
    do! m := loadOwnedModel actor modelID in
    try m id (fun m =>
    if IsArchived m then Ret (Ok m)
    else
    do! now := ask Now in
    do! archived := transact (ArchiveModelTx (retired now m)) in
    try archived (Wrap "archive model tx") (fun archived =>
    do! recorded := recordCommandIdempotency (Team actor) CommandArchiveModel idempotencyKey (m_ID archived) in
    try recorded id (fun _ =>
    do! _ := emit {| Kind := EventModelArchived; pe_Model := archived; pe_Version := None; DemotedVersion := None;
                     FromStage := StageUnspecified; ToStage := StageUnspecified; pe_Actor := actor; OccurredAt := now |} in
    Ret (Ok archived))))
    end).

(** ** Requests of any kind *)

Inductive request :=
| QRegister (actor : Actor) (input : RegisterModelInput)
| QUpdate (actor : Actor) (input : UpdateModelInput)
| QCreate (actor : Actor) (input : CreateVersionInput)
| QReady (actor : Actor) (input : MarkVersionReadyInput)
| QPromote (actor : Actor) (input : PromoteVersionInput)
| QArchive (actor : Actor) (modelID key : string).

Inductive reply := AModel (m : Model) | AVersion (v : ModelVersion) | APromote (r : PromoteResult).

Definition actor_of (q : request) : Actor :=
  match q with
  | QRegister a _ | QUpdate a _ | QCreate a _ | QReady a _ | QPromote a _ | QArchive a _ _ => a
  end.

Definition answering {A} (f : A -> reply) (m : go (result A rg_error)) : go (result reply rg_error) :=
  do! r := m in Ret (match r with Ok a => Ok (f a) | Err err => Err err end).

Definition serve (q : request) : go (result reply rg_error) :=
  match q with
  | QRegister a input => answering AModel (RegisterModel a input)
  | QUpdate a input => answering AModel (UpdateModel a input)
  | QCreate a input => answering AVersion (CreateVersion a input)
  | QReady a input => answering AVersion (MarkVersionReady a input)
  | QPromote a input => answering APromote (PromoteVersion a input)
  | QArchive a modelID key => answering AModel (ArchiveModel a modelID key)
  end.
End service.
