(* ===== verification/RegistryTables.v ===== *)
(** * The tables of the registry under any writes

    The unique indexes as an invariant, and what every transaction of
    [RegistryStore] keeps: rows and their identity, and all that belongs to teams
    that did not ask. *)

From S2P Require Import Prelude RegistryStore.
Open Scope fp_scope.

(** ** Rows *)

Lemma elem_of_rows {A} (m : gmap string A) r : r ∈ rows m <-> exists i, m !! i = Some r.
Proof.
  unfold rows. rewrite list_elem_of_fmap. split.
  - intros ([i x] & -> & Hx). exists i. by apply elem_of_map_to_list in Hx.
  - intros [i Hi]. exists (i, r). split; [done | by apply elem_of_map_to_list].
Qed.

Lemma existsb_rows {A} f (m : gmap string A) :
  existsb f (rows m) = false <-> forall i r, m !! i = Some r -> f r = false.
Proof.
  split.
  - intros He i r Hi. apply not_true_is_false. intros Hf. rewrite (proj2 (existsb_exists f _)) in He; [done |].
    exists r. split; [| done]. apply list_elem_of_In, elem_of_rows. by exists i.
  - intros Hall. apply not_true_is_false. intros (r & Hr & Hf)%existsb_exists.
    apply list_elem_of_In, elem_of_rows in Hr as [i Hi]. rewrite (Hall i r Hi) in Hf. done.
Qed.

Lemma find_rows {A} f (m : gmap string A) r : List.find f (rows m) = Some r -> f r = true /\ exists i, m !! i = Some r.
Proof. intros [Hin Hf]%find_some. split; [done |]. by apply elem_of_rows, list_elem_of_In. Qed.

(** ** The invariant *)

Record same_model (m m' : Model) : Prop := {
  sm_id : m_ID m' = m_ID m;
  sm_name : m_Name m' = m_Name m;
  sm_owner : m_OwnerID m' = m_OwnerID m;
  sm_team : m_Team m' = m_Team m;
  sm_created : m_CreatedAt m' = m_CreatedAt m;
}.

Record same_version (v v' : ModelVersion) : Prop := {
  sv_id : v_ID v' = v_ID v;
  sv_model : v_ModelID v' = v_ModelID v;
  sv_label : v_Version v' = v_Version v;
  sv_description : v_Description v' = v_Description v;
  sv_metrics : v_Metrics v' = v_Metrics v;
  sv_by : v_CreatedBy v' = v_CreatedBy v;
  sv_created : v_CreatedAt v' = v_CreatedAt v;
}.

#[export] Instance same_model_preorder : PreOrder same_model.
Proof. split; [by intros m | intros m1 m2 m3 [] []; constructor; congruence]. Qed.
#[export] Instance same_version_preorder : PreOrder same_version.
Proof. split; [by intros v | intros v1 v2 v3 [] []; constructor; congruence]. Qed.

Definition model_of (team : string) (g : registry) (id : string) : Prop :=
  exists m key, models g !! id = Some (m, key) /\ m_Team m = team.

Definition version_of (team : string) (g : registry) (id : string) : Prop :=
  exists v key, model_versions g !! id = Some (v, key) /\ model_of team g (v_ModelID v).

(** The keys of the tables, and where the rows point. *)
Record registry_ok (g : registry) : Prop := {
  ok_model_id : forall id m key, models g !! id = Some (m, key) -> m_ID m = id;
  ok_version_id : forall id v key, model_versions g !! id = Some (v, key) -> v_ID v = id;
  ok_models : forall i j m key r, models g !! i = Some (m, key) -> models g !! j = Some r ->
    model_clash m key r = true -> i = j;
  ok_versions : forall i j v key r, model_versions g !! i = Some (v, key) -> model_versions g !! j = Some r ->
    version_clash v key r = true -> i = j;
  ok_owner : forall id v key, model_versions g !! id = Some (v, key) -> is_Some (models g !! v_ModelID v);
  ok_production : forall i j v key r, model_versions g !! i = Some (v, key) -> model_versions g !! j = Some r ->
    Stage v = StageProduction -> production_of (v_ModelID v) r = true -> i = j;
  ok_commands : forall team command key entity, command_idempotency g !! (team, command, key) = Some entity ->
    match command with CommandArchiveModel => model_of team g entity | _ => version_of team g entity end;
}.

(** What any writes of the teams [ts] keep of the tables. *)
Record keeps_rows (ts : string -> Prop) (g g' : registry) : Prop := {
  kr_models : forall id m key, models g !! id = Some (m, key) ->
    exists m', models g' !! id = Some (m', key) /\ same_model m m' /\ (~ ts (m_Team m) -> m' = m);
  kr_versions : forall id v key, model_versions g !! id = Some (v, key) ->
    exists v', model_versions g' !! id = Some (v', key) /\ same_version v v' /\
      (forall team, model_of team g (v_ModelID v) -> ~ ts team -> v' = v);
  kr_new_models : forall id m key, models g' !! id = Some (m, key) -> models g !! id = None -> ts (m_Team m);
  kr_new_versions : forall id v key, model_versions g' !! id = Some (v, key) -> model_versions g !! id = None ->
    exists team, model_of team g' (v_ModelID v) /\ ts team;
  kr_commands : command_idempotency g ⊆ command_idempotency g';
  kr_emitted : emitted g `prefix_of` emitted g';
  kr_ok : registry_ok g -> registry_ok g';
}.

Section keeps.
Variable ts : string -> Prop.
#[local] Notation keeps := (keeps_rows ts).

Lemma keeps_model_of team g g' id : keeps g g' -> model_of team g id -> model_of team g' id.
Proof.
  intros Hk (m & key & Hm & <-). destruct (kr_models _ _ _ Hk _ _ _ Hm) as (m' & Hm' & [] & _). by exists m', key.
Qed.

Lemma keeps_version_of team g g' id : keeps g g' -> version_of team g id -> version_of team g' id.
Proof.
  intros Hk (v & key & Hv & Hm). destruct (kr_versions _ _ _ Hk _ _ _ Hv) as (v' & Hv' & [] & _). exists v', key.
  split; [done |]. rewrite sv_model0. by eapply keeps_model_of.
Qed.

Lemma model_of_unique team team' g id : model_of team g id -> model_of team' g id -> team = team'.
Proof. intros (m & k & Hm & <-) (m' & k' & Hm' & <-). congruence. Qed.

#[export] Instance keeps_rows_preorder : PreOrder keeps.
Proof.
  split.
  - intros g. constructor; try done.
    + intros id m key Hm. by exists m.
    + intros id v key Hv. by exists v.
    + intros id m key Hm Hn. congruence.
    + intros id v key Hv Hn. congruence.
  - intros g1 g2 g3 H12 H23. constructor.
    + intros id m key Hm. destruct (kr_models _ _ _ H12 _ _ _ Hm) as (m2 & Hm2 & Hs2 & Hf2).
      destruct (kr_models _ _ _ H23 _ _ _ Hm2) as (m3 & Hm3 & Hs3 & Hf3). exists m3. split; [done |].
      split; [by etrans |]. intros Hn. rewrite Hf3; [by apply Hf2 |]. by rewrite (sm_team _ _ Hs2).
    + intros id v key Hv. destruct (kr_versions _ _ _ H12 _ _ _ Hv) as (v2 & Hv2 & Hs2 & Hf2).
      destruct (kr_versions _ _ _ H23 _ _ _ Hv2) as (v3 & Hv3 & Hs3 & Hf3). exists v3. split; [done |].
      split; [by etrans |]. intros team Hm Hn. rewrite (Hf3 team); [by eapply Hf2 | | done].
      rewrite (sv_model _ _ Hs2). by eapply keeps_model_of.
    + intros id m key Hm Hn. destruct (models g2 !! id) as [[m2 key2]|] eqn:E2; [| by eapply (kr_new_models _ _ _ H23)].
      destruct (kr_models _ _ _ H23 _ _ _ E2) as (m3 & Hm3 & Hs & _).
      assert (m = m3) as -> by congruence. rewrite (sm_team _ _ Hs). by eapply (kr_new_models _ _ _ H12).
    + intros id v key Hv Hn. destruct (model_versions g2 !! id) as [[v2 key2]|] eqn:E2; [| by eapply (kr_new_versions _ _ _ H23)].
      destruct (kr_versions _ _ _ H23 _ _ _ E2) as (v3 & Hv3 & Hs & _).
      assert (v = v3) as -> by congruence. rewrite (sv_model _ _ Hs).
      destruct (kr_new_versions _ _ _ H12 _ _ _ E2 Hn) as (team & Hm & Ht). exists team.
      split; [by eapply keeps_model_of | done].
    + etrans; [apply H12 | apply H23].
    + etrans; [apply H12 | apply H23].
    + intros Hok. by apply H23, H12.
Qed.

(** ** Every transaction *)

Lemma touched_commands g g' : models g' = models g -> model_versions g' = model_versions g ->
  command_idempotency g ⊆ command_idempotency g' -> emitted g `prefix_of` emitted g' ->
  (forall team command key entity, command_idempotency g' !! (team, command, key) = Some entity ->
     command_idempotency g !! (team, command, key) = Some entity \/
     match command with CommandArchiveModel => model_of team g entity | _ => version_of team g entity end) ->
  keeps g g'.
Proof.
  intros Hm Hv Hc He Hnew.
  assert (forall team id, model_of team g id -> model_of team g' id) as Hmo by (unfold model_of; by rewrite Hm).
  assert (forall team id, version_of team g id -> version_of team g' id) as Hvo
    by (intros team id (v & k & Hv' & Ho); exists v, k; rewrite Hv; auto).
  constructor; rewrite ?Hm, ?Hv; try done.
  - intros id m key Hid. by exists m.
  - intros id v key Hid. by exists v.
  - intros id m key H1 H2. congruence.
  - intros id v key H1 H2. congruence.
  - intros []. constructor; rewrite ?Hm, ?Hv; try done.
    intros team command key entity Hk. apply Hnew in Hk as [Hk | Hk].
    + apply ok_commands0 in Hk. destruct command; auto.
    + destruct command; auto.
Qed.

Lemma emitted_keeps ev g : keeps g (put_emitted ev g).
Proof. apply touched_commands; auto. simpl. by eexists. Qed.

Lemma recorded_keeps team command key entity g r g' :
  match command with CommandArchiveModel => model_of team g entity | _ => version_of team g entity end ->
  RecordCommandIdempotency team command key entity g = (r, g') -> keeps g g'.
Proof.
  intros Ho. unfold RecordCommandIdempotency. destruct (String.eqb key ""); [by intros [= <- <-] |].
  destruct (command_idempotency g !! _) as [e|] eqn:E; [by destruct (negb _); intros [= <- <-] |].
  intros [= <- <-]. apply touched_commands; [done | done | by apply insert_subseteq | done |].
  intros t c k e Hk. simpl in Hk. apply lookup_insert_Some in Hk as [[[= <- <- <-] <-] | [_ Hk]]; auto.
Qed.

Lemma model_clash_sym m key m' key' : model_clash m key (m', key') = model_clash m' key' (m, key).
Proof.
  unfold model_clash, same_key. simpl. rewrite (String.eqb_sym (m_Team m')), (String.eqb_sym (m_Name m')).
  destruct (String.eqb_spec key key') as [-> |]; [by rewrite String.eqb_refl |].
  destruct (String.eqb_spec key' key); [by subst | by rewrite !andb_false_r].
Qed.

Lemma version_clash_sym v key v' key' : version_clash v key (v', key') = version_clash v' key' (v, key).
Proof.
  unfold version_clash, same_key. simpl. rewrite (String.eqb_sym (v_ModelID v')), (String.eqb_sym (v_Version v')).
  destruct (String.eqb_spec key key') as [-> |]; [by rewrite String.eqb_refl |].
  destruct (String.eqb_spec key' key); [by subst | by rewrite !andb_false_r].
Qed.

Lemma command_owned g g' : keeps g g' -> forall team command (entity : string),
  match command with CommandArchiveModel => model_of team g entity | _ => version_of team g entity end ->
  match command with CommandArchiveModel => model_of team g' entity | _ => version_of team g' entity end.
Proof. intros Hk team [] entity; [by eapply keeps_version_of | by eapply keeps_version_of | by eapply keeps_model_of]. Qed.

(** Two rows that differ in no key are in the same conflicts. *)
Definition alike_model (m m' : Model) : Prop := m_ID m' = m_ID m /\ m_Name m' = m_Name m /\ m_Team m' = m_Team m.

Lemma owners_mono g g' :
  (forall id m key, models g !! id = Some (m, key) -> exists m', models g' !! id = Some (m', key) /\ m_Team m' = m_Team m) ->
  (forall id v key, model_versions g !! id = Some (v, key) ->
     exists v', model_versions g' !! id = Some (v', key) /\ v_ModelID v' = v_ModelID v) ->
  command_idempotency g' = command_idempotency g -> registry_ok g ->
  forall team command key entity, command_idempotency g' !! (team, command, key) = Some entity ->
    match command with CommandArchiveModel => model_of team g' entity | _ => version_of team g' entity end.
Proof.
  intros Hm Hv -> Hok team command key entity Hc%(ok_commands _ Hok).
  assert (forall id, model_of team g id -> model_of team g' id) as Hmo.
  { intros id (m & k & Hid & <-). destruct (Hm _ _ _ Hid) as (m' & ? & ?). by exists m', k. }
  assert (forall id, version_of team g id -> version_of team g' id) as Hvo.
  { intros id (v & k & Hid & Ho). destruct (Hv _ _ _ Hid) as (v' & ? & He). exists v', k. rewrite He. auto. }
  destruct command; auto.
Qed.

Lemma created_model_keeps m key g r g' : ts (m_Team m) -> CreateModel m key g = (r, g') -> keeps g g'.
Proof.
  intros Hts. unfold CreateModel. destruct (bool_decide _ || _) eqn:Ec; intros [= <- <-]; [reflexivity |].
  apply orb_false_iff in Ec as [Hn%bool_decide_eq_false Hc].
  pose proof (proj1 (existsb_rows _ _) Hc) as Hfree. clear Hc.
  assert (models g !! m_ID m = None) as Hnone by (by apply eq_None_not_Some).
  assert (forall id x, models g !! id = Some x -> models (put_model m key g) !! id = Some x) as Hold.
  { intros id x Hid. simpl. rewrite lookup_insert_ne; [done | congruence]. }
  constructor; try done.
  - intros id m' k' Hid. exists m'. by rewrite (Hold _ _ Hid).
  - intros id v k' Hid. by exists v.
  - intros id m' k' Hid Hno. simpl in Hid. apply lookup_insert_Some in Hid as [[<- [= <- <-]] | [_ Hid]]; [done | congruence].
  - intros id v k' Hid Hno. simpl in Hid. congruence.
  - intros Hok. pose proof Hok as []. constructor; simpl; try done.
    + intros id m' k' [[<- [= <- <-]] | [_ Hid]]%lookup_insert_Some; [done | by eapply ok_model_id0].
    + intros i j m1 k1 [m2 k2] Hi Hj Hcl.
      apply lookup_insert_Some in Hi as [[<- [= <- <-]] | [_ Hi]], Hj as [[<- [= <- <-]] | [_ Hj]]; [done | | | by eapply ok_models0].
      * rewrite (Hfree _ _ Hj) in Hcl. done.
      * rewrite model_clash_sym, (Hfree _ _ Hi) in Hcl. done.
    + intros id v k' Hid. destruct (ok_owner0 _ _ _ Hid) as [x Hx]. exists x. by apply Hold.
    + apply (owners_mono g (put_model m key g)); [| | done | done]; [| by intros id v k' Hid; exists v].
      intros id m' k' Hid. exists m'. by rewrite (Hold _ _ Hid).
Qed.

(** An UPDATE of a model's row, its identity aside. *)
Lemma altered_model_keeps f id g : (forall m, same_model m (f m)) ->
  (forall team, model_of team g id -> ts team) -> keeps g (alter_model f id g).
Proof.
  intros Hf Hts.
  assert (forall j m k, models g !! j = Some (m, k) -> exists m', models (alter_model f id g) !! j = Some (m', k) /\
    same_model m m' /\ (~ ts (m_Team m) -> m' = m)) as Hrow.
  { intros j m k Hj. simpl. destruct (decide (j = id)) as [-> |].
    - exists (f m). rewrite lookup_alter_eq, Hj. split; [done |]. split; [apply Hf |].
      intros Hn. destruct Hn. apply Hts. by exists m, k.
    - exists m. rewrite lookup_alter_ne by done. done. }
  assert (forall j m k, models (alter_model f id g) !! j = Some (m, k) -> exists m0, models g !! j = Some (m0, k) /\ same_model m0 m) as Hback.
  { intros j m k Hj. simpl in Hj. destruct (decide (j = id)) as [-> |].
    - rewrite lookup_alter_eq in Hj. destruct (models g !! id) as [[m0 k0]|]; [| done]. injection Hj as <- <-.
      exists m0. split; [done | apply Hf].
    - rewrite lookup_alter_ne in Hj by done. by exists m. }
  constructor; try done.
  - intros j v k Hj. by exists v.
  - intros j m k Hj Hn. destruct (Hback _ _ _ Hj) as (m0 & H0' & _). congruence.
  - intros j v k Hj Hn. simpl in Hj. congruence.
  - intros Hok. pose proof Hok as []. constructor; try done.
    + intros j m k Hj. destruct (Hback _ _ _ Hj) as (m0 & Hj0 & []). rewrite sm_id0. by eapply ok_model_id0.
    + intros i j m k [m2 k2] Hi Hj Hcl. destruct (Hback _ _ _ Hi) as (m0 & Hi0 & []), (Hback _ _ _ Hj) as (m3 & Hj0 & []).
      apply (ok_models0 i j m0 k (m3, k2) Hi0 Hj0). unfold model_clash in *. simpl in *. congruence.
    + intros j v k Hj. destruct (ok_owner0 _ _ _ Hj) as [[m k'] Hm]. destruct (Hrow _ _ _ Hm) as (m' & Hm' & _). by exists (m', k').
    + apply (owners_mono g (alter_model f id g)); [| by intros j v k Hj; exists v | done | done].
      intros j m k Hj. destruct (Hrow _ _ _ Hj) as (m' & Hm' & [] & _). by exists m'.
Qed.

Lemma updated_model_keeps m g r g' : (forall team, model_of team g (m_ID m) -> ts team) ->
  RegistryStore.UpdateModel m g = (r, g') -> keeps g g'.
Proof.
  intros Hts. unfold RegistryStore.UpdateModel. destruct (models g !! m_ID m); intros [= <- <-]; [| reflexivity].
  by apply altered_model_keeps.
Qed.

Lemma created_version_keeps v key g r g' : (forall team, model_of team g (v_ModelID v) -> ts team) ->
  Stage v <> StageProduction -> RegistryStore.CreateVersion v key g = (r, g') -> keeps g g'.
Proof.
  intros Hts Hst. unfold RegistryStore.CreateVersion. destruct (marshalMetrics (v_Metrics v)); [by intros [= <- <-] |].
  destruct (bool_decide _ || _) eqn:Ec; [by intros [= <- <-] |].
  destruct (bool_decide (models g !! v_ModelID v = None)) eqn:Ho; intros [= <- <-]; [reflexivity |].
  apply bool_decide_eq_false in Ho. apply orb_false_iff in Ec as [Hn%bool_decide_eq_false Hc].
  pose proof (proj1 (existsb_rows _ _) Hc) as Hfree. clear Hc.
  assert (model_versions g !! v_ID v = None) as Hnone by (by apply eq_None_not_Some).
  assert (forall id x, model_versions g !! id = Some x -> model_versions (put_version v key g) !! id = Some x) as Hold.
  { intros id x Hid. simpl. rewrite lookup_insert_ne; [done | congruence]. }
  constructor; try done.
  - intros id m k Hid. by exists m.
  - intros id v' k Hid. exists v'. by rewrite (Hold _ _ Hid).
  - intros id m k Hid Hno. simpl in Hid. congruence.
  - intros id v' k Hid Hno. simpl in Hid. apply lookup_insert_Some in Hid as [[<- [= <- <-]] | [_ Hid]]; [| congruence].
    destruct (models g !! v_ModelID v) as [[m mk]|] eqn:Em; [| done]. exists (m_Team m).
    assert (model_of (m_Team m) g (v_ModelID v)) by (by exists m, mk). split; [done | by apply Hts].
  - intros Hok. pose proof Hok as []. constructor; simpl; try done.
    + intros id v' k [[<- [= <- <-]] | [_ Hid]]%lookup_insert_Some; [done | by eapply ok_version_id0].
    + intros i j v1 k1 [v2 k2] Hi Hj Hcl.
      apply lookup_insert_Some in Hi as [[<- [= <- <-]] | [_ Hi]], Hj as [[<- [= <- <-]] | [_ Hj]]; [done | | | by eapply ok_versions0].
      * rewrite (Hfree _ _ Hj) in Hcl. done.
      * rewrite version_clash_sym, (Hfree _ _ Hi) in Hcl. done.
    + intros id v' k [[<- [= <- <-]] | [_ Hid]]%lookup_insert_Some; [| by eapply ok_owner0].
      destruct (models g !! v_ModelID v); [by eexists | done].
    + intros i j v1 k1 [v2 k2] Hi Hj H1 H2.
      apply lookup_insert_Some in Hi as [[<- [= <- <-]] | [_ Hi]], Hj as [[<- [= <- <-]] | [_ Hj]]; [done | done | | by eapply ok_production0].
      unfold production_of in H2. simpl in H2. apply andb_true_iff in H2 as [_ H2%bool_decide_eq_true]. done.
    + apply (owners_mono g (put_version v key g)); [by intros id m k Hid; exists m | | done | done].
      intros id v' k Hid. exists v'. by rewrite (Hold _ _ Hid).
Qed.

(** An UPDATE of a version's row, its identity aside; the partial index refuses a
    second PRODUCTION row. *)
Lemma update_row_keeps id st f g g' : (forall v, same_version v (f v) /\ Stage (f v) = st) ->
  (forall team, version_of team g id -> ts team) -> update_row id st f g = Ok g' -> keeps g g'.
Proof.
  intros Hf Hts. unfold update_row. destruct (model_versions g !! id) as [[old ok]|] eqn:Eo; [| done].
  destruct (bool_decide (st = StageProduction) && _) eqn:Ep; [done |]. intros [= <-].
  assert (st = StageProduction -> forall j r, j <> id -> model_versions g !! j = Some r ->
    production_of (v_ModelID old) r = false) as Hfree.
  { intros -> j r Hne Hj. rewrite bool_decide_true in Ep by done. simpl in Ep.
    apply (proj1 (existsb_rows _ _) Ep j). by rewrite lookup_delete_ne. }
  assert (forall j v k, model_versions g !! j = Some (v, k) -> exists v', model_versions (alter_version f id g) !! j = Some (v', k) /\
    same_version v v' /\ (forall team, model_of team g (v_ModelID v) -> ~ ts team -> v' = v)) as Hrow.
  { intros j v k Hj. simpl. destruct (decide (j = id)) as [-> |].
    - exists (f v). rewrite lookup_alter_eq, Hj. split; [done |]. split; [apply Hf |].
      intros team Hm Hn. destruct Hn. apply Hts. by exists v, k.
    - exists v. rewrite lookup_alter_ne by done. done. }
  assert (forall j v k, model_versions (alter_version f id g) !! j = Some (v, k) ->
    exists v0, model_versions g !! j = Some (v0, k) /\ same_version v0 v /\ (j <> id -> v = v0) /\ (j = id -> Stage v = st)) as Hback.
  { intros j v k Hj. simpl in Hj. destruct (decide (j = id)) as [-> |].
    - rewrite lookup_alter_eq, Eo in Hj. injection Hj as <- <-. exists old. split; [done |]. destruct (Hf old). done.
    - rewrite lookup_alter_ne in Hj by done. by exists v. }
  constructor; try done.
  - intros j m k Hj. by exists m.
  - intros j m k Hj Hn. simpl in Hj. congruence.
  - intros j v k Hj Hn. destruct (Hback _ _ _ Hj) as (v0 & H0' & _). congruence.
  - intros Hok. pose proof Hok as []. constructor; try done.
    + intros j v k Hj. destruct (Hback _ _ _ Hj) as (v0 & Hj0 & [] & _). rewrite sv_id0. by eapply ok_version_id0.
    + intros i j v k [v2 k2] Hi Hj Hcl.
      destruct (Hback _ _ _ Hi) as (v0 & Hi0 & [] & _), (Hback _ _ _ Hj) as (v3 & Hj0 & [] & _).
      apply (ok_versions0 i j v0 k (v3, k2) Hi0 Hj0). unfold version_clash in *. simpl in *. congruence.
    + intros j v k Hj. destruct (Hback _ _ _ Hj) as (v0 & Hj0 & [] & _). rewrite sv_model0. by eapply ok_owner0.
    + intros i j v k [v2 k2] Hi Hj H1 H2. destruct (Hback _ _ _ Hi) as (v0 & Hi0 & Hs & Hio & Hi1), (Hback _ _ _ Hj) as (v3 & Hj0 & Hs3 & Hjo & Hj1).
      unfold production_of in H2. simpl in H2. apply andb_true_iff in H2 as [Hm%String.eqb_eq H2%bool_decide_eq_true].
      destruct (decide (i = id)) as [-> | Hni], (decide (j = id)) as [-> | Hnj]; [done | | |].
      * pose proof (Hfree ltac:(by rewrite <- (Hi1 eq_refl)) j _ Hnj Hj0) as Hc. rewrite (Hjo Hnj) in *.
        assert (v0 = old) as -> by congruence. unfold production_of in Hc. simpl in Hc.
        rewrite (bool_decide_true _ H2), Hm, (sv_model _ _ Hs), String.eqb_refl in Hc. done.
      * pose proof (Hfree ltac:(by rewrite <- (Hj1 eq_refl)) i _ Hni Hi0) as Hc. rewrite (Hio Hni) in *.
        assert (v3 = old) as -> by congruence. unfold production_of in Hc. simpl in Hc.
        rewrite (bool_decide_true _ H1), <- Hm, (sv_model _ _ Hs3), String.eqb_refl in Hc. done.
      * rewrite (Hio Hni) in *. rewrite (Hjo Hnj) in *. apply (ok_production0 i j v0 k (v3, k2) Hi0 Hj0 H1).
        unfold production_of. simpl. by rewrite Hm, String.eqb_refl, bool_decide_true.
    + apply (owners_mono g (alter_version f id g)); [by intros j m k Hj; exists m | | done | done].
      intros j v k Hj. destruct (Hrow _ _ _ Hj) as (v' & Hv' & [] & _). by exists v'.
Qed.

Lemma status_keeps v g r g' : (forall team, version_of team g (v_ID v) -> ts team) ->
  UpdateVersionStatus v g = (r, g') -> keeps g g'.
Proof.
  intros Hts. unfold UpdateVersionStatus. destruct (update_row _ _ _ g) as [g1|e] eqn:E; intros [= <- <-]; [| reflexivity].
  eapply update_row_keeps; [| exact Hts | exact E]. done.
Qed.

Lemma stage_keeps id st g g' : (forall team, version_of team g id -> ts team) ->
  updateVersionStageTx id st g = Ok g' -> keeps g g'.
Proof. intros Hts. apply update_row_keeps; [done | exact Hts]. Qed.

Lemma promote_keeps team v d g r g' : ts team -> version_of team g (v_ID v) ->
  (forall d', d = Some d' -> version_of team g (v_ID d')) ->
  PromoteVersionTx v d g = (r, g') -> keeps g g'.
Proof.
  intros Hts Hv Hd. assert (forall g1 id, version_of team g1 id -> forall t, version_of t g1 id -> ts t) as Hone.
  { intros g1 id (v1 & k1 & H1 & Hm1) t (v2 & k2 & H2 & Hm2). assert (v1 = v2) as -> by congruence.
    by rewrite (model_of_unique _ _ _ _ Hm2 Hm1). }
  unfold PromoteVersionTx. destruct d as [d'|].
  - destruct (updateVersionStageTx (v_ID d') (Stage d') g) as [g1|e] eqn:E1; simpl;
      [| by destruct (isUniqueViolation _); intros [= <- <-]].
    destruct (updateVersionStageTx (v_ID v) (Stage v) g1) as [g2|e] eqn:E2; simpl;
      [| by destruct (isUniqueViolation _); intros [= <- <-]].
    intros [= <- <-]. apply stage_keeps in E1; [| by apply Hone, Hd].
    etrans; [exact E1 |]. eapply stage_keeps; [| exact E2]. apply Hone. by eapply keeps_version_of.
  - simpl. destruct (updateVersionStageTx (v_ID v) (Stage v) g) as [g2|e] eqn:E2; simpl;
      [| by destruct (isUniqueViolation _); intros [= <- <-]].
    intros [= <- <-]. eapply stage_keeps; [| exact E2]. by apply Hone.
Qed.

Lemma archive_keeps m g r g' : (forall team, model_of team g (m_ID m) -> ts team) ->
  ArchiveModelTx m g = (r, g') -> keeps g g'.
Proof.
  intros Hts. unfold ArchiveModelTx. destruct (models g !! m_ID m) eqn:Em; intros [= <- <-]; [| reflexivity].
  etrans; [by apply (altered_model_keeps (archived_model m) (m_ID m)) |].
  set (g1 := alter_model (archived_model m) (m_ID m) g).
  set (f := fun r : ModelVersion * string => if of_model (m_ID m) r then (set_stage StageArchived r.1, r.2) else r).
  assert (forall team, model_of team g1 (m_ID m) -> ts team) as Hts1.
  { intros team (m1 & k1 & H1 & <-). apply Hts. simpl in H1. rewrite lookup_alter_eq, Em in H1.
    simpl in H1. injection H1 as <- <-. by exists p.1, p.2; rewrite Em, <- surjective_pairing. }
  assert (forall r, same_version r.1 (f r).1 /\ (f r).2 = r.2) as Hf by (intros [v k]; unfold f; by destruct (of_model _ _)).
  assert (forall j v k, model_versions g1 !! j = Some (v, k) -> exists v', f <$> model_versions g1 !! j = Some (v', k) /\ same_version v v' /\
    (of_model (m_ID m) (v, k) = false -> v' = v)) as Hrow.
  { intros j v k ->. simpl. destruct (Hf (v, k)) as [H1 H2], (f (v, k)) as [v1 k1] eqn:Ef. simpl in *. subst k1.
    exists v1. split; [done |]. split; [done |]. intros Ho. unfold f in Ef. rewrite Ho in Ef. by injection Ef. }
  assert (forall j v k, f <$> model_versions g1 !! j = Some (v, k) -> exists v0, model_versions g1 !! j = Some (v0, k) /\ same_version v0 v /\
    (Stage v = StageProduction -> v = v0)) as Hback.
  { intros j v k ([v0 k0] & Hj & He)%fmap_Some. destruct (Hf (v0, k0)) as [H1 H2]. exists v0.
    rewrite <- He in *. simpl in *. subst k0. split; [done |]. split; [done |].
    unfold f in He. destruct (of_model _ _); [| by injection He]. by injection He as ->. }
  constructor; simpl; try done.
  - intros j m' k Hj. by exists m'.
  - intros j v k Hj. destruct (Hrow j v k Hj) as (v' & Hv' & Hs & Hfo). exists v'. rewrite lookup_fmap.
    split; [done |]. split; [done |]. intros team Hm Hn. apply Hfo. unfold of_model. simpl.
    apply String.eqb_neq. intros He. destruct Hn. apply Hts1. by rewrite <- He.
  - intros j m' k Hj Hn. congruence.
  - intros j v k Hj Hn. rewrite lookup_fmap in Hj. destruct (Hback _ _ _ Hj) as (v0 & H0' & _). simpl in H0'. congruence.
  - intros Hok. pose proof Hok as []. constructor; simpl; try done.
    + intros j v k Hj. rewrite lookup_fmap in Hj. destruct (Hback _ _ _ Hj) as (v0 & Hj0 & [] & _). rewrite sv_id0. by eapply ok_version_id0.
    + intros i j v k [v2 k2] Hi Hj Hcl. rewrite lookup_fmap in Hi, Hj.
      destruct (Hback _ _ _ Hi) as (v0 & Hi0 & [] & _), (Hback _ _ _ Hj) as (v3 & Hj0 & [] & _).
      apply (ok_versions0 i j v0 k (v3, k2) Hi0 Hj0). unfold version_clash in *. simpl in *. congruence.
    + intros j v k Hj. rewrite lookup_fmap in Hj. destruct (Hback _ _ _ Hj) as (v0 & Hj0 & [] & _). rewrite sv_model0. by eapply ok_owner0.
    + intros i j v k [v2 k2] Hi Hj H1 H2. rewrite lookup_fmap in Hi, Hj.
      pose proof H2 as H2'. unfold production_of in H2'. simpl in H2'. apply andb_true_iff in H2' as [_ H2'%bool_decide_eq_true].
      destruct (Hback _ _ _ Hi) as (v0 & Hi0 & _ & Heq0), (Hback _ _ _ Hj) as (v3 & Hj0 & _ & Heq3).
      pose proof (Heq0 H1) as <-. pose proof (Heq3 H2') as <-. exact (ok_production0 i j v k (v2, k2) Hi0 Hj0 H1 H2).
    + intros team command key entity Hc%ok_commands0.
      destruct command; [| | done]; destruct Hc as (v & k & Hv & Hm); destruct (Hrow _ _ _ Hv) as (v' & Hv' & [] & _);
        exists v', k; simpl; rewrite lookup_fmap, sv_model0; (split; [exact Hv' | exact Hm]).
Qed.
End keeps.
