(* ===== verification/RegistrySafety.v ===== *)
(** * The registry under any interleaving of requests

    Commands of any actors run call by call in any order over a failing database:
    the indexes hold, rows keep their identity, and a team's rows change only by
    requests of that team. *)

From S2P Require Import Prelude Concur Site GoText RegistryStore RegistryTables Registry.
Open Scope fp_scope.

Section safety.
Context {W : Type} `{Outside W}.
Variable ts : string -> Prop.

Definition registry_regime : regime registry := {|
  write := keeps_rows ts; Site.keeps := keeps_rows ts; write_keeps _ _ Hw := Hw |}.

#[local] Notation keeps := (keeps_rows ts).
#[local] Notation safe := (Site.safe (W := W) registry_regime).
#[local] Notation or_error := (Site.or_error (E := rg_error)).

(** ** What a request knows of later tables *)

Definition known_model (key : string) (m : Model) (g : registry) : Prop :=
  exists m' k, models g !! m_ID m = Some (m', k) /\ same_model m m' /\ (key <> "" -> k = key).

Definition known_version (key : string) (v : ModelVersion) (g : registry) : Prop :=
  exists v' k, model_versions g !! v_ID v = Some (v', k) /\ same_version v v' /\ (key <> "" -> k = key).

Definition model_in (team : string) (m : Model) (g : registry) : Prop := known_model "" m g /\ m_Team m = team.
Definition version_in (team : string) (v : ModelVersion) (g : registry) : Prop :=
  known_version "" v g /\ model_of team g (v_ModelID v).

Lemma known_model_keeps key m g g' : keeps g g' -> known_model key m g -> known_model key m g'.
Proof.
  intros Hk (m1 & k & Hm & Hs & Hkey). destruct (kr_models _ _ _ Hk _ _ _ Hm) as (m2 & Hm2 & Hs2 & _).
  exists m2, k. split; [done |]. split; [by etrans | done].
Qed.

Lemma known_version_keeps key v g g' : keeps g g' -> known_version key v g -> known_version key v g'.
Proof.
  intros Hk (v1 & k & Hv & Hs & Hkey). destruct (kr_versions _ _ _ Hk _ _ _ Hv) as (v2 & Hv2 & Hs2 & _).
  exists v2, k. split; [done |]. split; [by etrans | done].
Qed.

Lemma model_in_keeps team m g g' : keeps g g' -> model_in team m g -> model_in team m g'.
Proof. intros Hk [Hm Ht]. split; [by eapply known_model_keeps | done]. Qed.

Lemma version_in_keeps team v g g' : keeps g g' -> version_in team v g -> version_in team v g'.
Proof. intros Hk [Hv Hm]. split; [by eapply known_version_keeps | by eapply keeps_model_of]. Qed.

Lemma model_in_of team m g : model_in team m g -> model_of team g (m_ID m).
Proof. intros [(m' & k & Hm & [] & _) <-]. by exists m', k. Qed.

Lemma version_in_of team v g : version_in team v g -> version_of team g (v_ID v).
Proof. intros [(v' & k & Hv & [] & _) Hm]. exists v', k. by rewrite sv_model. Qed.

Lemma read_model id m g : registry_ok g -> RegistryStore.GetModel id g = Ok m -> m_ID m = id /\ known_model "" m g.
Proof.
  intros Hok. unfold RegistryStore.GetModel, one_row. destruct (models g !! id) as [[m' k]|] eqn:E; [| done].
  intros [= ->]. pose proof (ok_model_id _ Hok _ _ _ E) as Hid. split; [done |]. exists m, k. by rewrite Hid.
Qed.

Lemma read_version id v g : registry_ok g -> RegistryStore.GetVersion id g = Ok v ->
  v_ID v = id /\ known_version "" v g /\ is_Some (models g !! v_ModelID v).
Proof.
  intros Hok. unfold RegistryStore.GetVersion, one_row. destruct (model_versions g !! id) as [[v' k]|] eqn:E; [| done].
  intros [= ->]. pose proof (ok_version_id _ Hok _ _ _ E) as Hid. split; [done |].
  split; [exists v, k; by rewrite Hid | by eapply ok_owner].
Qed.

Lemma sole_owner team team' g id : model_of team g id -> model_of team' g id -> ts team -> ts team'.
Proof. intros H1 H2. by rewrite (model_of_unique _ _ _ _ H1 H2). Qed.

Lemma sole_version team team' g id : version_of team g id -> version_of team' g id -> ts team -> ts team'.
Proof.
  intros (v & k & Hv & H1) (v' & k' & Hv' & H2). assert (v = v') as -> by congruence. by eapply sole_owner.
Qed.

(** ** The helpers *)

Lemma safe_loadOwned base actor id : registry_ok base ->
  safe base (loadOwnedModel actor id) (or_error (fun m g => m_ID m = id /\ model_in (Team actor) m g)).
Proof.
  intros Hok. unfold loadOwnedModel. apply safe_query. intros g w r Hg Hr. destruct r as [m|e]; [| apply safe_fail].
  destruct Hr as [Hr | Hr]; [| done]. symmetry in Hr. apply read_model in Hr as [Hid Hm]; [| by apply Hg].
  destruct (String.eqb_spec (m_Team m) (Team actor)) as [Ht |]; simpl; [| apply safe_fail].
  apply safe_ret. intros g' Hg'. split; [done |]. eapply model_in_keeps; [exact Hg' | by split].
Qed.

Lemma safe_loadVersion base id : registry_ok base ->
  safe base (loadVersion id) (or_error (fun v g => v_ID v = id /\ known_version "" v g /\ is_Some (models g !! v_ModelID v))).
Proof.
  intros Hok. unfold loadVersion, query, atom. apply (safe_query registry_regime base (fun _ => RegistryStore.GetVersion id) Ret).
  intros g w r Hg Hr. destruct r as [v|e]; [| apply safe_fail].
  destruct Hr as [Hr | Hr]; [| done]. symmetry in Hr. apply read_version in Hr as (Hid & Hv & [[m k] Hm]); [| by apply Hg].
  apply safe_ret. intros g' Hg'. split; [done |]. split; [by eapply known_version_keeps |].
  destruct (kr_models _ _ _ Hg' _ _ _ Hm) as (m' & Hm' & _). by exists (m', k).
Qed.

Definition owned (team : string) (command : Command) (g : registry) (entity : string) : Prop :=
  match command with CommandArchiveModel => model_of team g entity | _ => version_of team g entity end.

Lemma safe_lookup {T} base team command key load (P : T -> registry -> Prop) : registry_ok base ->
  (forall t g g', keeps g g' -> P t g -> P t g') ->
  (forall entity g, keeps base g -> owned team command g entity -> safe g (load entity) (or_error P)) ->
  safe base (lookupCommandIdempotency team command key load)
    (or_error (fun r g => match r with Some t => P t g | None => True end)).
Proof.
  intros Hok Hst Hload. unfold lookupCommandIdempotency. destruct (String.eqb_spec key "") as [| Hk]; [by apply safe_ret |].
  apply safe_query. intros g w r Hg Hr. destruct r as [entity|e].
  - destruct Hr as [Hr | Hr]; [| done]. unfold LookupCommandIdempotency in Hr.
    destruct (String.eqb_spec key ""); [done |].
    destruct (command_idempotency g !! _) as [e|] eqn:Ec; [| done]. injection Hr as ->.
    eapply safe_seq; [apply Hload; [exact Hg |]; by apply (ok_commands _ (kr_ok _ _ _ Hg Hok)) in Ec |].
    intros [t|e'] g' Ht; [| apply safe_fail].
    apply safe_ret. intros g'' Hg''. by eapply Hst.
  - destruct (errors_is e ErrRecordNotFound); [by apply safe_ret | apply safe_fail].
Qed.

Lemma safe_record base team command key entity : owned team command base entity ->
  safe base (recordCommandIdempotency team command key entity) (or_error (fun _ _ => True)).
Proof.
  intros Ho. unfold recordCommandIdempotency. destruct (String.eqb key ""); [by apply safe_ret |].
  apply safe_transact. intros g r g' Hg Htx. split; [right; eapply recorded_keeps; [| exact Htx]; exact (command_owned ts _ _ Hg team command entity Ho) |].
  split; [| intros text; apply safe_fail]. destruct r; [by apply safe_ret | apply safe_fail].
Qed.

Lemma safe_emit {A} base ev (k : unit -> prog (site W registry) A) P :
  (forall g, keeps base g -> safe g (k tt) P) -> safe base (do! x := emit ev in k x) P.
Proof.
  intros Hk. apply (safe_touch registry_regime base). intros g Hg. pose proof (emitted_keeps ts ev g) as He.
  split; [exact He |]. apply Hk. by etrans.
Qed.

(** ** The commands *)

Lemma safe_RegisterModel base actor input : registry_ok base -> ts (Team actor) ->
  safe base (RegisterModel actor input)
    (or_error (fun m g => known_model (rm_IdempotencyKey input) m g /\ m_Team m = Team actor)).
Proof.
  intros Hok Hts. unfold RegisterModel. destruct (String.eqb (TrimSpace _) ""); [apply safe_fail |].
  destruct (String.eqb (Team actor) "" || String.eqb (UserID actor) ""); [apply safe_fail |].
  eapply (safe_seq _ _ _ _ (or_error (fun m g => known_model (rm_IdempotencyKey input) m g /\ m_Team m = Team actor))).
  - destruct (String.eqb (rm_IdempotencyKey input) ""); [apply safe_fail |].
    apply (safe_query registry_regime base (fun _ => LookupModelByIdempotencyKey _ _) Ret). intros g w r Hg Hr.
    destruct r as [m|e]; [| apply safe_fail]. destruct Hr as [Hr | Hr]; [| done]. apply safe_ret. intros g' Hg'.
    unfold LookupModelByIdempotencyKey, one_row in Hr. destruct (String.eqb _ ""); [done |].
    destruct (List.find _ _) as [[m' k]|] eqn:Ef; [| done]. injection Hr as <-.
    apply find_rows in Ef as [[Ht%String.eqb_eq Hk%String.eqb_eq]%andb_true_iff [id Hid]].
    split; [| done]. eapply known_model_keeps; [exact Hg' |]. exists m, k.
    rewrite (ok_model_id _ (kr_ok _ _ _ Hg Hok) _ _ _ Hid). done.
  - intros [m|e] g Hm; [apply safe_ret; intros g' Hg'; destruct Hm; split; [by eapply known_model_keeps | done] |].
    destruct (negb (errors_is e ErrRecordNotFound)); [apply safe_fail |].
    apply safe_ask. intros now. apply safe_ask. intros id. apply safe_transact. intros g1 r g2 Hg1 Htx.
    assert (keeps g1 g2) as Hk by (eapply created_model_keeps; [| exact Htx]; exact Hts). split; [by right |]. split; [| intros text; apply safe_fail].
    destruct r as [m|err]; [| apply safe_fail]. unfold CreateModel in Htx. destruct (bool_decide _ || _); [done |].
    injection Htx as <- <-. apply safe_emit. intros g3 Hg3. apply safe_ret. intros g4 Hg4. split; [| done].
    eapply known_model_keeps; [exact (transitivity Hg3 Hg4) |]. eexists _, _. split; [simpl; by rewrite lookup_insert_eq |]. done.
Qed.

Lemma safe_UpdateModel base actor input : registry_ok base -> ts (Team actor) ->
  safe base (UpdateModel actor input) (or_error (model_in (Team actor))).
Proof.
  intros Hok Hts. unfold UpdateModel. destruct (blank _); [apply safe_fail |].
  eapply safe_try; [by apply safe_loadOwned |]. intros m g Hg [Hid Hm].
  destruct (IsArchived m); [apply safe_fail |]. apply safe_ask. intros now.
  apply safe_transact. intros g1 r g2 Hg1 Htx.
  assert (model_in (Team actor) (edited input now m) g1) as Hm1.
  { pose proof (model_in_keeps _ _ _ _ Hg1 Hm) as [(m' & k & Hm' & [] & _) Ht].
    split; [exists m', k; by split; [| split; [constructor |]] | done]. }
  pose proof Hm1 as Hown%model_in_of.
  assert (keeps g1 g2) as Hk by (eapply updated_model_keeps; [| exact Htx]; intros team Ht; exact (sole_owner _ _ _ _ Hown Ht Hts)).
  split; [by right |]. split; [| intros text; apply safe_fail].
  destruct r as [m'|e]; [| apply safe_fail]. unfold RegistryStore.UpdateModel in Htx.
  destruct (models g1 !! _); [| done]. injection Htx as <- <-. apply safe_ret. intros g3 Hg3.
  eapply model_in_keeps; [exact (transitivity Hk Hg3) | exact Hm1].
Qed.

(** The answer to CreateVersion: a version of the model that was named, which is of the actor's
    team or was stored under the key of the request. *)
Definition cut_ok (actor : Actor) (input : CreateVersionInput) (v : ModelVersion) (g : registry) : Prop :=
  known_version (cv_IdempotencyKey input) v g /\ v_ModelID v = cv_ModelID input /\
  (model_of (Team actor) g (v_ModelID v) \/ cv_IdempotencyKey input <> "").

Lemma cut_ok_keeps actor input v g g' : keeps g g' -> cut_ok actor input v g -> cut_ok actor input v g'.
Proof.
  intros Hk (Hv & Hm & Ho). split; [by eapply known_version_keeps |]. split; [done |]. destruct Ho as [Ho | Ho]; [left; by eapply keeps_model_of | by right].
Qed.

Lemma safe_insert base actor input m autoAssign now : model_of (Team actor) base (cv_ModelID input) -> ts (Team actor) ->
  forall more candidate, safe base (insert_version more actor input m autoAssign now candidate)
    (or_error (cut_ok actor input)).
Proof.
  intros Hown Hts more. revert base Hown. induction more as [|more IH]; intros base Hown candidate; cbn [insert_version];
    apply safe_ask; intros id; apply safe_transact; intros g r g' Hg Htx;
    (assert (keeps g g') as Hk by
      (eapply created_version_keeps; [| | exact Htx]; [| done]; intros team Ht;
       exact (sole_owner _ _ _ _ (keeps_model_of _ _ _ _ _ Hg Hown) Ht Hts)));
    (split; [by right |]); (split; [| intros text; apply safe_fail]);
    (destruct r as [v|e];
      [unfold RegistryStore.CreateVersion in Htx; destruct (marshalMetrics _); [done |];
       destruct (_ || _); [done |]; destruct (bool_decide _); [done |]; injection Htx as <- <-;
       apply safe_emit; intros g3 Hg3; apply safe_ret; intros g4 Hg4;
       (eapply cut_ok_keeps; [exact (transitivity Hg3 Hg4) |]); split;
       [eexists _, _; (split; [simpl; by rewrite lookup_insert_eq | done]) |
        (split; [done |]); left; exact (keeps_model_of _ _ _ _ _ (transitivity Hg Hk) Hown)] |]).
  - destruct (negb (errors_is e ErrWriteConflict)); [apply safe_fail |]. destruct (negb autoAssign); apply safe_fail.
  - destruct (negb (errors_is e ErrWriteConflict)); [apply safe_fail |]. destruct (negb autoAssign); [apply safe_fail |].
    destruct (Atoi candidate) as [next|]; [| apply safe_fail]. apply IH.
    eapply keeps_model_of; [exact (transitivity Hg Hk) | exact Hown].
Qed.

Lemma safe_CreateVersion base actor input : registry_ok base -> ts (Team actor) ->
  safe base (CreateVersion actor input)
    (or_error (cut_ok actor input)).
Proof.
  intros Hok Hts. unfold CreateVersion. destruct (blank _); [apply safe_fail |].
  eapply (safe_seq _ _ _ _ (fun r g => registry_ok g /\
    or_error (cut_ok actor input) r g)).
  - destruct (String.eqb (cv_IdempotencyKey input) ""); [apply safe_ret; intros g Hg; split; [by apply Hg | done] |].
    apply (safe_query registry_regime base (fun _ => LookupVersionByIdempotencyKey _ _) Ret). intros g w r Hg Hr.
    apply safe_ret. intros g' Hg'. split; [apply Hg', Hg, Hok |].
    destruct r as [v|e]; [| done]. destruct Hr as [Hr | Hr]; [| done].
    unfold LookupVersionByIdempotencyKey, one_row in Hr. destruct (String.eqb_spec (cv_IdempotencyKey input) ""); [done |].
    destruct (List.find _ _) as [[v' k]|] eqn:Ef; [| done]. injection Hr as <-.
    apply find_rows in Ef as [[Hm%String.eqb_eq Hk%String.eqb_eq]%andb_true_iff [id Hid]].
    eapply cut_ok_keeps; [exact Hg' |]. split; [| split; [done | by right]]. exists v, k.
    rewrite (ok_version_id _ (kr_ok _ _ _ Hg Hok) _ _ _ Hid). done.
  - intros [v|e] g [Hokg Hv].
    { apply safe_ret. intros g' Hg'. by eapply cut_ok_keeps. }
    destruct (negb (errors_is e ErrRecordNotFound)); [apply safe_fail |].
    eapply safe_try; [by apply safe_loadOwned |]. intros m g1 Hg1 [Hid Hm]. apply model_in_of in Hm. rewrite Hid in Hm.
    destruct (IsArchived m); [apply safe_fail |].
    eapply (safe_try _ _ _ _ _ (fun _ _ => True)).
    + destruct (String.eqb (TrimSpace _) ""); [| by apply safe_ret].
      apply safe_query. intros g2 w r _ _. destruct r as [n|e']; [by apply safe_ret | apply safe_fail].
    + intros candidate g2 Hg2 _. apply safe_ask. intros now. apply safe_insert; [| done].
      exact (keeps_model_of ts _ _ _ _ Hg2 Hm).
Qed.

(** The lookup of a version and the tenancy gate of the mutations. *)
Lemma safe_gate {A} base actor id (k : ModelVersion -> prog (site W registry) (result A rg_error)) P : registry_ok base ->
  (forall v g, keeps base g -> registry_ok g -> version_in (Team actor) v g -> safe g (k v) (or_error P)) ->
  safe base (do! v := loadVersion id in try v version_missing (fun v =>
    do! owner := loadOwnedModel actor (v_ModelID v) in try owner foreign_as_missing (fun _ => k v))) (or_error P).
Proof.
  intros Hok Hk. eapply safe_try; [by apply safe_loadVersion |]. intros v g Hg (_ & Hv & _).
  eapply safe_try; [apply safe_loadOwned; by apply Hg |]. intros m g1 Hg1 [Hid Hm]. apply Hk.
  - by etrans.
  - by apply Hg1, Hg.
  - split; [by eapply known_version_keeps |]. rewrite <- Hid. by apply model_in_of.
Qed.

(** The replay of a version command answers a version of the team. *)
Lemma safe_replay base team command key : command <> CommandArchiveModel -> registry_ok base ->
  safe base (lookupCommandIdempotency team command key loadVersion)
    (or_error (fun r g => match r with Some v => version_in team v g | None => True end)).
Proof.
  intros Hc Hok. apply (safe_lookup _ _ _ _ _ (version_in team)); [done | intros t g g' Hk; by apply version_in_keeps |].
  intros entity g Hg Ho. assert (version_of team g entity) as Hof by (by destruct command).
  eapply safe_weaken; [apply safe_grows, safe_loadVersion; by apply Hg |]. intros [v|e] g' [Hg' Hv]; [| done]. simpl in *.
  destruct Hv as (Hid & Hv & _). split; [done |]. destruct (keeps_version_of _ _ _ _ _ Hg' Hof) as (v2 & k2 & Hv2 & Hm).
  destruct Hv as (v3 & k3 & Hv3 & [] & _). rewrite Hid in Hv3. assert (v2 = v3) as -> by congruence. by rewrite <- sv_model.
Qed.

Lemma owned_only team g id : version_of team g id -> ts team -> forall team', version_of team' g id -> ts team'.
Proof. intros H1 Hts team' H2. exact (sole_version _ _ _ _ H1 H2 Hts). Qed.

Lemma safe_MarkVersionReady base actor input : registry_ok base -> ts (Team actor) ->
  safe base (MarkVersionReady actor input) (or_error (version_in (Team actor))).
Proof.
  intros Hok Hts. unfold MarkVersionReady. destruct (blank _); [apply safe_fail |].
  eapply safe_try; [by apply safe_replay |]. intros [v|] g Hg Hv.
  { apply safe_ret. intros g' Hg'. by eapply version_in_keeps. }
  apply safe_gate; [by apply Hg |]. intros v g1 Hg1 Hok1 Hv1.
  assert (forall g', keeps g1 g' -> or_error (version_in (Team actor)) (Ok v) g') as Hsame
    by (intros g' Hg'; by eapply version_in_keeps).
  destruct (_ && mr_Success input); [by apply safe_ret |]. destruct (_ && _); [by apply safe_ret |].
  destruct (negb _); [apply safe_fail |]. apply safe_ask. intros now.
  apply safe_transact. intros g2 r g3 Hg2 Htx.
  assert (version_in (Team actor) (confirmed input v) g2) as Hv2.
  { destruct (version_in_keeps _ _ _ _ Hg2 Hv1) as [(v' & k & Hv' & [] & _) Hm].
    split; [exists v', k | by unfold confirmed; destruct (mr_Success input)].
    unfold confirmed. destruct (mr_Success input); by split; [| split; [constructor |]]. }
  assert (keeps g2 g3) as Hk by (eapply status_keeps; [by eapply owned_only; [apply version_in_of |] | exact Htx]).
  split; [by right |]. split; [| intros text; apply safe_fail].
  destruct r as [v3|e]; [| apply safe_fail]. assert (v3 = confirmed input v) as ->.
  { unfold UpdateVersionStatus in Htx. destruct (update_row _ _ _ _); [by injection Htx | done]. }
  cbn [try]. pose proof (version_in_keeps _ _ _ _ Hk Hv2) as Hv3.
  eapply safe_try; [apply safe_record; by apply version_in_of |]. intros _ g4 Hg4 _.
  destruct (mr_Success input).
  - apply safe_query. intros g5 w r Hg5 _. destruct r as [m|e]; [| apply safe_fail]. cbn [try].
    apply safe_emit. intros g6 Hg6. apply safe_ret. intros g7 Hg7.
    eapply version_in_keeps; [| exact Hv3]. by do 3 (etrans; [eassumption |]).
  - apply safe_ret. intros g5 Hg5. eapply version_in_keeps; [exact (transitivity Hg4 Hg5) | exact Hv3].
Qed.

Lemma safe_demoted base actor v target : registry_ok base -> version_in (Team actor) v base ->
  safe base (find_demoted v target)
    (or_error (fun d g => forall d', d = Some d' -> version_in (Team actor) d' g)).
Proof.
  intros Hok Hv. unfold find_demoted. case_bool_decide; [| by apply safe_ret].
  apply safe_query. intros g w r Hg Hr. destruct r as [prior|e].
  - destruct Hr as [Hr | Hr]; [| done]. unfold FindProductionVersion, one_row in Hr.
    destruct (List.find _ _) as [[v' k]|] eqn:Ef; [| done]. injection Hr as <-.
    apply find_rows in Ef as [[Hm%String.eqb_eq _]%andb_true_iff [id Hid]].
    apply safe_ret. intros g' Hg'. destruct (negb _); [| done]. intros d' [= <-].
    eapply version_in_keeps; [exact Hg' |]. split.
    + exists prior, k. simpl. by rewrite (ok_version_id _ (kr_ok _ _ _ Hg Hok) _ _ _ Hid).
    + simpl in *. rewrite Hm. destruct Hv as [_ Hv]. by eapply keeps_model_of.
  - destruct (errors_is e ErrRecordNotFound); [by apply safe_ret | apply safe_fail].
Qed.

Lemma promoted_answer v d g p g' : PromoteVersionTx v d g = (Ok p, g') -> p = (v, d).
Proof. unfold PromoteVersionTx. destruct (rbind _ _); [by intros [= <- _] | by destruct (isUniqueViolation _)]. Qed.

Lemma safe_PromoteVersion base actor input : registry_ok base -> ts (Team actor) ->
  safe base (PromoteVersion actor input) (or_error (fun r => version_in (Team actor) (Promoted r))).
Proof.
  intros Hok Hts. unfold PromoteVersion. destruct (blank _); [apply safe_fail |]. destruct (negb _); [apply safe_fail |].
  eapply safe_try; [by apply safe_replay |]. intros [v|] g Hg Hv.
  { apply safe_ret. intros g' Hg'. by eapply version_in_keeps. }
  apply safe_gate; [by apply Hg |]. intros v g1 Hg1 Hok1 Hv1.
  case_bool_decide; [apply safe_ret; intros g' Hg'; by eapply version_in_keeps |].
  destruct (negb _); [apply safe_fail |]. destruct (_ && _); [apply safe_fail |]. apply safe_ask. intros now.
  eapply safe_try; [by apply safe_demoted |]. intros d g2 Hg2 Hd.
  apply safe_transact. intros g3 r g4 Hg3 Htx.
  assert (version_in (Team actor) (set_stage (pv_TargetStage input) v) g3) as Hv3.
  { apply (version_in_keeps _ _ _ _ Hg2), (version_in_keeps _ _ _ _ Hg3) in Hv1 as [(v' & k & Hv' & [] & _) Hm].
    split; [| done]. exists v', k. by split; [| split; [constructor |]]. }
  assert (keeps g3 g4) as Hk.
  { eapply promote_keeps; [exact Hts | by apply version_in_of | | exact Htx].
    intros d' Hd'. apply version_in_of. eapply version_in_keeps; [exact Hg3 | by apply Hd]. }
  split; [by right |]. split; [| intros text; apply safe_fail].
  destruct r as [p|e]; [| apply safe_fail]. apply promoted_answer in Htx as ->. cbn [try].
  pose proof (version_in_keeps _ _ _ _ Hk Hv3) as Hv4.
  eapply safe_try; [apply safe_record; by apply version_in_of |]. intros _ g5 Hg5 _.
  apply safe_query. intros g6 w r Hg6 _. destruct r as [m|e]; [| apply safe_fail]. cbn [try].
  apply safe_emit. intros g7 Hg7. apply safe_ret. intros g8 Hg8.
  eapply version_in_keeps; [| exact Hv4]. by do 3 (etrans; [eassumption |]).
Qed.

Lemma safe_ArchiveModel base actor modelID key : registry_ok base -> ts (Team actor) ->
  safe base (ArchiveModel actor modelID key) (or_error (model_in (Team actor))).
Proof.
  intros Hok Hts. unfold ArchiveModel. destruct (blank _); [apply safe_fail |].
  eapply safe_try.
  { apply (safe_lookup _ _ _ _ _ (model_in (Team actor))); [done | intros t g g' Hk; by apply model_in_keeps |].
    intros entity g Hg _. eapply safe_weaken; [apply safe_loadOwned; by apply Hg |]. by intros [m|e] g' Hm; [destruct Hm |]. }
  intros [m|] g Hg Hm; [apply safe_ret; intros g' Hg'; by eapply model_in_keeps |].
  eapply safe_try; [apply safe_loadOwned; by apply Hg |]. intros m g1 Hg1 [_ Hm1].
  destruct (IsArchived m); [apply safe_ret; intros g' Hg'; by eapply model_in_keeps |].
  apply safe_ask. intros now. apply safe_transact. intros g2 r g3 Hg2 Htx.
  assert (model_in (Team actor) (retired now m) g2) as Hm2.
  { apply (model_in_keeps _ _ _ _ Hg2) in Hm1 as [(m' & k & Hm' & [] & _) Ht].
    split; [| done]. exists m', k. by split; [| split; [constructor |]]. }
  pose proof (model_in_of _ _ _ Hm2) as Hown.
  assert (keeps g2 g3) as Hk by (eapply archive_keeps; [| exact Htx]; intros team Ht; exact (sole_owner _ _ _ _ Hown Ht Hts)).
  split; [by right |]. split; [| intros text; apply safe_fail].
  destruct r as [m3|e]; [| apply safe_fail]. assert (m3 = retired now m) as ->.
  { unfold ArchiveModelTx in Htx. destruct (models g2 !! _); [by injection Htx | done]. }
  cbn [try]. pose proof (model_in_keeps _ _ _ _ Hk Hm2) as Hm3.
  eapply safe_try; [apply safe_record; by apply model_in_of |]. intros _ g4 Hg4 _.
  apply safe_emit. intros g5 Hg5. apply safe_ret. intros g6 Hg6.
  eapply model_in_keeps; [| exact Hm3]. by do 2 (etrans; [eassumption |]).
Qed.

(** ** Any request *)

(** What an answer means about all later tables. *)
Definition reply_ok (q : request) (a : reply) (g : registry) : Prop :=
  match q, a with
  | QRegister actor input, AModel m => known_model (rm_IdempotencyKey input) m g /\ m_Team m = Team actor
  | QCreate actor input, AVersion v => cut_ok actor input v g
  | QUpdate actor _, AModel m | QArchive actor _ _, AModel m => model_in (Team actor) m g
  | QReady actor _, AVersion v => version_in (Team actor) v g
  | QPromote actor _, APromote r => version_in (Team actor) (Promoted r) g
  | _, _ => False
  end.

Lemma safe_answering {A} base (f : A -> reply) (m : prog (site W registry) (result A rg_error)) P Q :
  safe base m (or_error P) -> (forall a g g', keeps g g' -> P a g -> Q (f a) g') ->
  safe base (answering f m) (or_error Q).
Proof.
  intros Hm Hpq. eapply safe_seq; [exact Hm |]. intros [a|e] g Ha; apply safe_ret; [| done]. intros g' Hg'. by eapply Hpq.
Qed.

Lemma safe_serve base q : registry_ok base -> ts (Team (actor_of q)) -> safe base (serve q) (or_error (reply_ok q)).
Proof.
  intros Hok Hts. destruct q as [a i | a i | a i | a i | a i | a i k]; cbn [serve actor_of] in *.
  - eapply safe_answering; [by apply safe_RegisterModel |]. intros m g g' Hk [Hm Ht]. split; [by eapply known_model_keeps | done].
  - eapply safe_answering; [by apply safe_UpdateModel |]. intros m g g' Hk. by apply model_in_keeps.
  - eapply safe_answering; [by apply safe_CreateVersion |]. intros m g g' Hk. by apply cut_ok_keeps.
  - eapply safe_answering; [by apply safe_MarkVersionReady |]. intros m g g' Hk. by apply version_in_keeps.
  - eapply safe_answering; [by apply safe_PromoteVersion |]. intros m g g' Hk. by apply version_in_keeps.
  - eapply safe_answering; [by apply safe_ArchiveModel |]. intros m g g' Hk. by apply model_in_keeps.
Qed.

Lemma steps_keep_rows s s' : rtc (site_step (W := W) registry_regime) s s' -> keeps (s_db s) (s_db s').
Proof. apply (site_steps_keep registry_regime). Qed.
End safety.

(** Any pool of requests, in any order of their calls. *)
Lemma served `{Outside W} (qs : list request) (s : site W registry) results s' :
  registry_ok (s_db s) -> par (map serve qs) s results s' ->
  let ts := fun team => exists q, q ∈ qs /\ Team (actor_of q) = team in
  keeps_rows ts (s_db s) (s_db s') /\
  forall i q a, qs !! i = Some q -> results !! i = Some (Ok a) -> reply_ok q a (s_db s').
Proof.
  intros Hok Hpar ts.
  destruct (safe_par (registry_regime ts) (map serve qs) s results s'
    (fun i r g => forall q, qs !! i = Some q -> or_error (reply_ok q) r g)) as (Hst & Hres & _); [| done |].
  - intros i m Hi. rewrite list_lookup_fmap in Hi. destruct (qs !! i) as [q|] eqn:Eq; [| done]. injection Hi as <-.
    eapply safe_weaken; [apply safe_serve; [exact Hok |] |].
    + exists q. split; [by eapply list_elem_of_lookup_2 | done].
    + intros r g Hr q' [= <-]. exact Hr.
  - split; [by apply (steps_keep_rows ts) |]. intros i q a Hq Ha. exact (Hres i (Ok a) Ha q Hq).
Qed.

(** C11. The registry's indexes hold and rows keep their identity, whatever interleaves.
    Any requests of any actors run call by call in any order while statements fail and
    acknowledgements get lost. At every end at most one version of a model is in
    PRODUCTION, labels and idempotency keys are unique per model, names and keys per
    team, every version has its model and every recorded command its entity; no row
    disappears, and name, team and owner of a model, and model, label, metrics and
    author of a version never change. *)
Theorem registry_stays_consistent `{Outside W} (qs : list request) (s : site W registry) results s' :
  registry_ok (s_db s) -> par (map serve qs) s results s' ->
  registry_ok (s_db s') /\
  (forall i j v w key key', model_versions (s_db s') !! i = Some (v, key) -> model_versions (s_db s') !! j = Some (w, key') ->
     v_ModelID v = v_ModelID w -> Stage v = StageProduction -> Stage w = StageProduction -> i = j) /\
  (forall id m key, models (s_db s) !! id = Some (m, key) -> exists m', models (s_db s') !! id = Some (m', key) /\ same_model m m') /\
  (forall id v key, model_versions (s_db s) !! id = Some (v, key) ->
     exists v', model_versions (s_db s') !! id = Some (v', key) /\ same_version v v').
Proof.
  intros Hok Hpar. destruct (served qs s results s' Hok Hpar) as [Hk _]. pose proof (kr_ok _ _ _ Hk Hok) as Hok'.
  split; [done |]. split; [| split].
  - intros i j v w key key' Hi Hj Hm Hv Hw. apply (ok_production _ Hok' i j v key (w, key') Hi Hj Hv).
    unfold production_of. simpl. by rewrite Hm, String.eqb_refl, bool_decide_true.
  - intros id m key Hid. destruct (kr_models _ _ _ Hk _ _ _ Hid) as (m' & Hm' & Hs & _). by exists m'.
  - intros id v key Hid. destruct (kr_versions _ _ _ Hk _ _ _ Hid) as (v' & Hv' & Hs & _). by exists v'.
Qed.

(** C13. A team's models and versions change only by requests of that team. Whatever
    interleaves, models and versions of teams that no request acts for are as they
    were, what is new belongs to a requesting team, and an answer is a row of the
    actor's own team. Only a CreateVersion with an idempotency key may answer otherwise,
    and then only with the version stored under that key of the very model it names. *)
Theorem registry_tenant_isolation `{Outside W} (qs : list request) (s : site W registry) results s' team :
  registry_ok (s_db s) -> par (map serve qs) s results s' ->
  ((forall q, q ∈ qs -> Team (actor_of q) <> team) ->
     (forall id, model_of team (s_db s') id -> models (s_db s') !! id = models (s_db s) !! id) /\
     (forall id, version_of team (s_db s') id -> model_versions (s_db s') !! id = model_versions (s_db s) !! id)) /\
  forall i q a, qs !! i = Some q -> results !! i = Some (Ok a) -> Team (actor_of q) = team ->
    match a with
    | AModel m => model_of team (s_db s') (m_ID m)
    | APromote r => version_of team (s_db s') (v_ID (Promoted r))
    | AVersion v => version_of team (s_db s') (v_ID v) \/
        match q with
        | QCreate _ input => cv_IdempotencyKey input <> "" /\ v_ModelID v = cv_ModelID input /\
            exists v', model_versions (s_db s') !! v_ID v = Some (v', cv_IdempotencyKey input) /\ same_version v v'
        | _ => False
        end
    end.
Proof.
  intros Hok Hpar. destruct (served qs s results s' Hok Hpar) as [Hk Hres]. split.
  - intros Hnone. assert (~ exists q, q ∈ qs /\ Team (actor_of q) = team) as Hno by (intros (q & Hq & Ht); by apply (Hnone q)).
    split.
    + intros id (m & key & Hm & Ht). destruct (models (s_db s) !! id) as [[m0 key0]|] eqn:E.
      * destruct (kr_models _ _ _ Hk _ _ _ E) as (m1 & Hm1 & Hs & Hf). assert (m = m1) as <- by congruence.
        rewrite Hf in Hm1; [done |]. by rewrite <- (sm_team _ _ Hs), Ht.
      * destruct Hno. rewrite <- Ht. by eapply (kr_new_models _ _ _ Hk).
    + intros id (v & key & Hv & Hm). destruct (model_versions (s_db s) !! id) as [[v0 key0]|] eqn:E.
      * destruct (kr_versions _ _ _ Hk _ _ _ E) as (v1 & Hv1 & Hs & Hf). assert (v = v1) as <- by congruence.
        destruct (ok_owner _ Hok _ _ _ E) as [[m0 mk0] Hm0]. rewrite (Hf (m_Team m0)) in Hv1; [done | by exists m0, mk0 |].
        assert (model_of (m_Team m0) (s_db s') (v_ModelID v)) as Hm'.
        { eapply keeps_model_of; [exact Hk |]. exists m0, mk0. by rewrite (sv_model _ _ Hs). }
        by rewrite (model_of_unique _ _ _ _ Hm' Hm).
      * destruct Hno. destruct (kr_new_versions _ _ _ Hk _ _ _ Hv E) as (t & Ht & Hts).
        by rewrite (model_of_unique _ _ _ _ Hm Ht).
  - intros i q a Hq Ha <-. specialize (Hres i q a Hq Ha).
    destruct q, a; try done; simpl in *; try (by apply model_in_of); try (by left; apply version_in_of); try (by apply version_in_of).
    + apply model_in_of. destruct Hres as [(m' & k & Hm & Hs & _) Ht]. split; [by exists m', k | done].
    + destruct Hres as ((v' & k & Hv & Hs & Hkey) & Hm & [Ho | Hne]).
      * left. exists v', k. split; [done |]. by rewrite (sv_model _ _ Hs).
      * right. split; [done |]. split; [done |]. exists v'. split; [by rewrite <- (Hkey Hne) | done].
Qed.

(** Registration is idempotent by key. All answers to RegisterModel that carry the
    same key of the same team are one model, in any interleaving and after lost
    acknowledgements. *)
Theorem registration_idempotent `{Outside W} (qs : list request) (s : site W registry) results s' i j a b input input' m m' :
  registry_ok (s_db s) -> par (map serve qs) s results s' ->
  qs !! i = Some (QRegister a input) -> qs !! j = Some (QRegister b input') -> Team a = Team b ->
  rm_IdempotencyKey input = rm_IdempotencyKey input' -> rm_IdempotencyKey input <> "" ->
  results !! i = Some (Ok (AModel m)) -> results !! j = Some (Ok (AModel m')) ->
  m_ID m' = m_ID m /\ m_Name m' = m_Name m.
Proof.
  intros Hok Hpar Hi Hj Ht Hkey Hne Hri Hrj. destruct (served qs s results s' Hok Hpar) as [Hk Hres].
  pose proof (kr_ok _ _ _ Hk Hok) as Hok'.
  destruct (Hres i _ _ Hi Hri) as [(m1 & k1 & Hm1 & Hs1 & Hk1) Ht1], (Hres j _ _ Hj Hrj) as [(m2 & k2 & Hm2 & Hs2 & Hk2) Ht2].
  rewrite <- Hkey in Hk2. specialize (Hk1 Hne). specialize (Hk2 Hne). subst k1 k2.
  assert (m_ID m = m_ID m') as Hid.
  { apply (ok_models _ Hok' _ _ m1 _ _ Hm1 Hm2). unfold model_clash, same_key. simpl.
    rewrite (sm_team _ _ Hs1), (sm_team _ _ Hs2), Ht1, Ht2, Ht, !String.eqb_refl.
    apply String.eqb_neq in Hne. rewrite Hne. simpl. apply orb_true_r. }
  split; [done |]. rewrite Hid in Hm1. assert (m1 = m2) as -> by congruence.
  by rewrite <- (sm_name _ _ Hs1), (sm_name _ _ Hs2).
Qed.
