(* ===== verification/RegistryLifecycle.v ===== *)
(** * The lifecycle of models and versions

    The stage machine of the registry as a specification: one step per command that
    takes effect. A command that runs alone is one step of it; requests served one
    after the other keep every serving version READY and an archived model's versions
    archived. Interleaved commands do not: the last part shows how. *)

From stdpp Require Import pretty.
From S2P Require Import Prelude Concur Site GoText RegistryStore RegistryTables Registry RegistrySafety.
Open Scope Z_scope.
Open Scope fp_scope.

(** ** The specification *)

Definition serving_stage (st : ModelStage) : Prop := st = StageStaging \/ st = StageProduction.

(** The incumbent of the model of [v], as the row [id] is promoted. *)
Definition demotes (g : registry) (id : string) (v : ModelVersion) (did : string) (dv : ModelVersion) (dk : string) : Prop :=
  model_versions g !! did = Some (dv, dk) /\ did <> id /\ v_ModelID dv = v_ModelID v /\ Stage dv = StageProduction.

Inductive lifecycle_step (g g' : registry) : Prop :=
| StepSame : models g' = models g -> model_versions g' = model_versions g -> lifecycle_step g g'
| StepRegister m key :
    models g !! m_ID m = None -> ArchivedAt m = 0 ->
    models g' = <[m_ID m := (m, key)]> (models g) -> model_versions g' = model_versions g -> lifecycle_step g g'
| StepEdit id m m' key :
    models g !! id = Some (m, key) -> IsArchived m = false -> IsArchived m' = false ->
    models g' = <[id := (m', key)]> (models g) -> model_versions g' = model_versions g -> lifecycle_step g g'
| StepCut v key m mk :
    model_versions g !! v_ID v = None -> models g !! v_ModelID v = Some (m, mk) -> IsArchived m = false ->
    Stage v = StageDev -> Status v = StatusPendingUpload ->
    models g' = models g -> model_versions g' = <[v_ID v := (v, key)]> (model_versions g) -> lifecycle_step g g'
| StepConfirm id v v' key :
    model_versions g !! id = Some (v, key) -> Status v = StatusPendingUpload ->
    v_ModelID v' = v_ModelID v -> Stage v' = Stage v -> Status v' = StatusReady \/ Status v' = StatusFailed ->
    models g' = models g -> model_versions g' = <[id := (v', key)]> (model_versions g) -> lifecycle_step g g'
| StepPromote id v key target demoted :
    model_versions g !! id = Some (v, key) -> CanTransitionTo (Stage v) target = true ->
    (serving_stage target -> Status v = StatusReady) ->
    match demoted with Some (did, dv, dk) => demotes g id v did dv dk | None => True end ->
    models g' = models g ->
    model_versions g' = <[id := (set_stage target v, key)]>
      (match demoted with
       | Some (did, dv, dk) => <[did := (set_stage StageArchived dv, dk)]> (model_versions g)
       | None => model_versions g
       end) -> lifecycle_step g g'
| StepArchive id m m' key :
    models g !! id = Some (m, key) -> IsArchived m = false ->
    models g' = <[id := (m', key)]> (models g) ->
    model_versions g' = (fun r => if of_model id r then (set_stage StageArchived r.1, r.2) else r) <$> model_versions g ->
    lifecycle_step g g'.

(** ** What the steps keep *)

(** A version moves along an edge of the stage machine or stays, and leaves PENDING once. *)
Definition legal_move (v v' : ModelVersion) : Prop :=
  (Stage v' = Stage v \/ CanTransitionTo (Stage v) (Stage v') = true) /\
  (Status v' = Status v \/ Status v = StatusPendingUpload /\ (Status v' = StatusReady \/ Status v' = StatusFailed)).

Record serving_ok (g : registry) : Prop := {
  so_ready : forall id v key, model_versions g !! id = Some (v, key) -> serving_stage (Stage v) -> Status v = StatusReady;
  so_archived : forall id v key m mk, model_versions g !! id = Some (v, key) -> models g !! v_ModelID v = Some (m, mk) ->
    IsArchived m = true -> Stage v = StageArchived;
  so_known : forall id v key, model_versions g !! id = Some (v, key) -> Stage v <> StageUnspecified /\ is_Some (models g !! v_ModelID v);
}.

Lemma archive_legal st : st <> StageUnspecified -> st = StageArchived \/ CanTransitionTo st StageArchived = true.
Proof. destruct st; auto. Qed.

Lemma transition_target st target : CanTransitionTo st target = true -> target <> StageUnspecified /\ st <> StageArchived.
Proof. by destruct st, target. Qed.

Lemma step_legal g g' : serving_ok g -> lifecycle_step g g' ->
  forall id v key, model_versions g !! id = Some (v, key) ->
  exists v', model_versions g' !! id = Some (v', key) /\ legal_move v v'.
Proof.
  intros Hso Hst id v key Hid.
  assert (forall v0, legal_move v0 v0) as Hrefl by (intros v0; by split; left).
  destruct Hst as [_ Hv | m k _ _ _ Hv | i m m' k _ _ _ _ Hv | w k m mk Hn _ _ _ _ _ Hv
    | i w w' k Hi Hp Hm Hs Hr _ Hv | i w k t d Hi Ht Hr Hd _ Hv | i m m' k _ _ _ Hv]; rewrite Hv.
  - by exists v.
  - by exists v.
  - by exists v.
  - exists v. rewrite lookup_insert_ne by congruence. done.
  - destruct (decide (i = id)) as [-> |]; [| exists v; by rewrite lookup_insert_ne].
    rewrite lookup_insert_eq. assert (w = v /\ k = key) as [-> ->] by (split; congruence).
    exists w'. split; [done |]. split; [by left | by right].
  - destruct (decide (i = id)) as [-> |].
    + rewrite lookup_insert_eq. assert (w = v /\ k = key) as [-> ->] by (split; congruence).
      exists (set_stage t v). split; [done |]. split; [by right | by left].
    + rewrite lookup_insert_ne by done. destruct d as [[[did dv] dk]|]; [| by exists v].
      destruct Hd as (Hd & _ & _ & Hp). destruct (decide (did = id)) as [-> |]; [| exists v; by rewrite lookup_insert_ne].
      rewrite lookup_insert_eq. assert (dv = v /\ dk = key) as [-> ->] by (split; congruence).
      exists (set_stage StageArchived v). split; [done |]. split; [right; by rewrite Hp | by left].
  - rewrite lookup_fmap, Hid. simpl. destruct (of_model i (v, key)); [| by exists v].
    exists (set_stage StageArchived v). split; [done |]. split; [| by left]. simpl.
    destruct (archive_legal (Stage v)) as [-> |]; [by eapply so_known | by left | by right].
Qed.

(** Where every row of the new table comes from. *)
Lemma serving_intro g g' : serving_ok g ->
  (forall id m mk, models g !! id = Some (m, mk) -> is_Some (models g' !! id)) ->
  (forall id v key, model_versions g' !! id = Some (v, key) ->
     Stage v <> StageUnspecified /\ (serving_stage (Stage v) -> Status v = StatusReady) /\
     is_Some (models g !! v_ModelID v) /\
     forall m mk, models g' !! v_ModelID v = Some (m, mk) -> IsArchived m = true -> Stage v = StageArchived) ->
  serving_ok g'.
Proof.
  intros Hso Hmo Hrow. constructor.
  - intros id v key Hid. by apply (Hrow id v key).
  - intros id v key m mk Hid. by apply (Hrow id v key).
  - intros id v key Hid. destruct (Hrow id v key Hid) as (H1 & _ & [[m mk] Hm] & _). split; [done |]. by eapply Hmo.
Qed.

Lemma step_serving g g' : serving_ok g -> lifecycle_step g g' -> serving_ok g'.
Proof.
  intros Hso Hst. pose proof Hso as [Hready Harch Hknown].
  assert (forall id v key, model_versions g !! id = Some (v, key) -> models g' = models g ->
    Stage v <> StageUnspecified /\ (serving_stage (Stage v) -> Status v = StatusReady) /\ is_Some (models g !! v_ModelID v) /\
    forall m mk, models g' !! v_ModelID v = Some (m, mk) -> IsArchived m = true -> Stage v = StageArchived) as Hold.
  { intros id v key Hid ->. destruct (Hknown _ _ _ Hid). split; [done |]. split; [by eapply Hready |]. split; [done |].
    intros m mk. by eapply Harch. }
  destruct Hst as [Hm Hv | m k Hn Ha Hm Hv | i m m' k Hi Ha Ha' Hm Hv | w k m mk Hn Ho Ha Hs Hp Hm Hv
    | i w w' k Hi Hp Hmo Hs Hr Hm Hv | i w k t d Hi Ht Hr Hd Hm Hv | i m m' k Hi Ha Hm Hv];
    (apply (serving_intro g); [done | |]).
  - intros id m mk. rewrite Hm. by eexists.
  - intros id v key. rewrite Hv. intros Hid. by apply (Hold id v key).
  - intros id m' mk' Hid. rewrite Hm, lookup_insert_ne by congruence. by eexists.
  - intros id v key. rewrite Hv, Hm. intros Hid. destruct (Hknown _ _ _ Hid) as [H1 H2].
    split; [done |]. split; [by eapply Hready |]. split; [done |]. intros m0 mk0.
    rewrite lookup_insert_ne by (intros He; rewrite He in Hn; destruct H2; congruence). by eapply Harch.
  - intros id m0 mk0 Hid. rewrite Hm. destruct (decide (i = id)) as [-> |];
      [rewrite lookup_insert_eq; by eexists | rewrite lookup_insert_ne by done; by eexists].
  - intros id v key. rewrite Hv, Hm. intros Hid. destruct (Hknown _ _ _ Hid) as [H1 H2].
    split; [done |]. split; [by eapply Hready |]. split; [done |]. intros m0 mk0 [[_ [= <- <-]] | [_ Hm0]]%lookup_insert_Some; [congruence |].
    by eapply Harch.
  - intros id m0 mk0. rewrite Hm. by eexists.
  - intros id v key. rewrite Hv. intros [[<- [= <- <-]] | [_ Hid]]%lookup_insert_Some; [| by apply (Hold id v key)].
    rewrite Hs, Hp. split; [done |]. split; [intros [|]; done |]. split; [by eexists |].
    intros m0 mk0. rewrite Hm, Ho. intros [= <- <-]. congruence.
  - intros id m0 mk0. rewrite Hm. by eexists.
  - intros id v key. rewrite Hv. intros [[<- [= <- <-]] | [_ Hid]]%lookup_insert_Some; [| by apply (Hold id v key)].
    destruct (Hold _ _ _ Hi Hm) as (H1 & H2 & H3 & H4). rewrite Hmo, Hs. split; [done |].
    split; [intros Hsv; specialize (H2 Hsv); congruence | done].
  - intros id m0 mk0. rewrite Hm. by eexists.
  - assert (forall id v key, match d with
       | Some (did, dv, dk) => <[did := (set_stage StageArchived dv, dk)]> (model_versions g)
       | None => model_versions g end !! id = Some (v, key) ->
       Stage v <> StageUnspecified /\ (serving_stage (Stage v) -> Status v = StatusReady) /\ is_Some (models g !! v_ModelID v) /\
       forall m mk, models g' !! v_ModelID v = Some (m, mk) -> IsArchived m = true -> Stage v = StageArchived) as Hdem.
    { destruct d as [[[did dv] dk]|]; [| intros id v key Hid; by apply (Hold id v key)].
      intros id v key [[<- [= <- <-]] | [_ Hid]]%lookup_insert_Some; [| by apply (Hold id v key)].
      destruct Hd as (Hd & _). destruct (Hold _ _ _ Hd Hm) as (H1 & H2 & H3 & H4). simpl.
      split; [done |]. split; [by intros [|] |]. done. }
    destruct (transition_target _ _ Ht) as [Ht1 Ht2].
    intros id v key. rewrite Hv. intros [[<- [= <- <-]] | [_ Hid]]%lookup_insert_Some; [| by apply (Hdem id v key)].
    destruct (Hold _ _ _ Hi Hm) as (H1 & H2 & H3 & H4). simpl. split; [done |]. split; [done |]. split; [done |].
    intros m mk Hmm Harc. destruct Ht2. by eapply H4.
  - intros id m0 mk0 Hid. rewrite Hm. destruct (decide (i = id)) as [-> |];
      [rewrite lookup_insert_eq; by eexists | rewrite lookup_insert_ne by done; by eexists].
  - intros id v key. rewrite Hv, lookup_fmap. intros ([v0 k0] & Hid & He)%fmap_Some.
    destruct (Hknown _ _ _ Hid) as [H1 H2]. unfold of_model in He. simpl in He.
    destruct (String.eqb_spec (v_ModelID v0) i) as [Heq | Hne]; injection He as -> ->; simpl.
    + split; [done |]. split; [by intros [|] |]. split; [done |]. done.
    + split; [done |]. split; [by eapply Hready |]. split; [done |]. intros m0 mk0. rewrite Hm, lookup_insert_ne by done.
      by eapply Harch.
Qed.

(** ** What each command does *)

(** An edge of the stage machine. *)
Definition stage_edge (st target : ModelStage) : Prop :=
  match st, target with
  | StageDev, StageStaging | StageDev, StageArchived | StageStaging, StageProduction | StageStaging, StageArchived
  | StageProduction, StageArchived => True
  | _, _ => False
  end.

(** A version moved to a stage, everything else as it was. *)
Definition moved (st : ModelStage) (v : ModelVersion) : ModelVersion := {|
  v_ID := v_ID v; v_ModelID := v_ModelID v; v_Version := v_Version v; v_Description := v_Description v; v_Metrics := v_Metrics v;
  ArtifactPath := ArtifactPath v; ArtifactDigest := ArtifactDigest v; SizeBytes := SizeBytes v; Stage := st; Status := Status v;
  v_CreatedBy := v_CreatedBy v; v_CreatedAt := v_CreatedAt v |}.

(** A live model of the actor's team. *)
Definition owned_live (actor : Actor) (id : string) (g : registry) (m : Model) (mk : string) : Prop :=
  models g !! id = Some (m, mk) /\ m_Team m = Team actor /\ ArchivedAt m = 0.

(** A version whose model is of the actor's team. *)
Definition owned_version (actor : Actor) (id : string) (g : registry) (v : ModelVersion) (key : string) : Prop :=
  model_versions g !! id = Some (v, key) /\ exists m mk, models g !! v_ModelID v = Some (m, mk) /\ m_Team m = Team actor.

(** The incumbent that goes when the version [id] moves to [target]: the other PRODUCTION row
    of its model, and only when [target] is PRODUCTION. *)
Definition demotion (g : registry) (id model : string) (target : ModelStage) (demoted : option (string * ModelVersion * string)) : Prop :=
  match demoted with
  | Some (did, dv, dk) =>
      target = StageProduction /\ model_versions g !! did = Some (dv, dk) /\ did <> id /\ v_ModelID dv = model /\ Stage dv = StageProduction
  | None => target = StageProduction ->
      forall i r, model_versions g !! i = Some r -> i <> id -> v_ModelID r.1 = model -> Stage r.1 <> StageProduction
  end.

(** The rows that a command changes when it takes effect, and how. *)
Definition effect (q : request) (g g' : registry) : Prop :=
  match q with
  | QRegister actor i => exists id now,
      models g !! id = None /\ TrimSpace (rm_Name i) <> "" /\
      models g' = <[id := ({| m_ID := id; m_Name := TrimSpace (rm_Name i); m_Description := rm_Description i; m_OwnerID := UserID actor;
        m_Team := Team actor; m_Framework := rm_Framework i; m_TaskType := rm_TaskType i; m_Tags := rm_Tags i; ProductionVersion := "";
        LatestVersion := ""; m_CreatedAt := now; m_UpdatedAt := now; ArchivedAt := 0 |}, rm_IdempotencyKey i)]> (models g) /\
      model_versions g' = model_versions g
  | QUpdate actor i => exists m mk now,
      owned_live actor (um_ModelID i) g m mk /\
      models g' = <[um_ModelID i := ({| m_ID := m_ID m; m_Name := m_Name m;
        m_Description := (if um_UpdateDescription i then um_Description i else m_Description m); m_OwnerID := m_OwnerID m; m_Team := m_Team m;
        m_Framework := m_Framework m; m_TaskType := m_TaskType m; m_Tags := (if um_ReplaceTags i then um_Tags i else m_Tags m);
        ProductionVersion := ProductionVersion m; LatestVersion := LatestVersion m; m_CreatedAt := m_CreatedAt m; m_UpdatedAt := now;
        ArchivedAt := ArchivedAt m |}, mk)]> (models g) /\
      model_versions g' = model_versions g
  | QCreate actor i => exists m mk id label now,
      owned_live actor (cv_ModelID i) g m mk /\ model_versions g !! id = None /\
      (TrimSpace (cv_Version i) <> "" -> label = TrimSpace (cv_Version i)) /\
      (forall j r, model_versions g !! j = Some r -> v_ModelID r.1 = cv_ModelID i -> v_Version r.1 <> label) /\
      models g' = models g /\
      model_versions g' = <[id := ({| v_ID := id; v_ModelID := cv_ModelID i; v_Version := label; v_Description := cv_Description i;
        v_Metrics := cv_Metrics i; ArtifactPath := ""; ArtifactDigest := ""; SizeBytes := 0; Stage := StageDev;
        Status := StatusPendingUpload; v_CreatedBy := UserID actor; v_CreatedAt := now |}, cv_IdempotencyKey i)]> (model_versions g)
  | QReady actor i => exists v key,
      owned_version actor (mr_VersionID i) g v key /\ Status v = StatusPendingUpload /\
      models g' = models g /\
      model_versions g' = <[mr_VersionID i := ({| v_ID := v_ID v; v_ModelID := v_ModelID v; v_Version := v_Version v;
        v_Description := v_Description v; v_Metrics := v_Metrics v;
        ArtifactPath := (if mr_Success i then mr_ArtifactPath i else ArtifactPath v);
        ArtifactDigest := (if mr_Success i then mr_ArtifactDigest i else ArtifactDigest v);
        SizeBytes := (if mr_Success i then mr_SizeBytes i else SizeBytes v); Stage := Stage v;
        Status := (if mr_Success i then StatusReady else StatusFailed); v_CreatedBy := v_CreatedBy v; v_CreatedAt := v_CreatedAt v |}, key)]>
        (model_versions g)
  | QPromote actor i => exists v key demoted,
      owned_version actor (pv_VersionID i) g v key /\ stage_edge (Stage v) (pv_TargetStage i) /\
      (serving_stage (pv_TargetStage i) -> Status v = StatusReady) /\
      demotion g (pv_VersionID i) (v_ModelID v) (pv_TargetStage i) demoted /\
      models g' = models g /\
      model_versions g' = <[pv_VersionID i := (moved (pv_TargetStage i) v, key)]>
        (match demoted with
         | Some (did, dv, dk) => <[did := (moved StageArchived dv, dk)]> (model_versions g)
         | None => model_versions g
         end)
  | QArchive actor id _ => exists m mk now,
      owned_live actor id g m mk /\
      models g' = <[id := ({| m_ID := m_ID m; m_Name := m_Name m; m_Description := m_Description m; m_OwnerID := m_OwnerID m;
        m_Team := m_Team m; m_Framework := m_Framework m; m_TaskType := m_TaskType m; m_Tags := m_Tags m; ProductionVersion := "";
        LatestVersion := LatestVersion m; m_CreatedAt := m_CreatedAt m; m_UpdatedAt := now; ArchivedAt := now |}, mk)]> (models g) /\
      model_versions g' = (fun r => if String.eqb (v_ModelID r.1) id then (moved StageArchived r.1, r.2) else r) <$> model_versions g
  end.

(** The key was honoured for the row before. *)
Definition honoured (actor : Actor) (command : Command) (key id : string) (g : registry) : Prop :=
  key <> "" /\ command_idempotency g !! (Team actor, command, key) = Some id.

(** A success that changes nothing: the answer is a row of the tables, which the key was
    honoured for, or which is already as the command wants it. *)
Definition known (q : request) (a : reply) (g : registry) : Prop :=
  match q, a with
  | QRegister actor i, AModel m =>
      rm_IdempotencyKey i <> "" /\ m_Team m = Team actor /\ models g !! m_ID m = Some (m, rm_IdempotencyKey i)
  | QCreate _ i, AVersion v =>
      cv_IdempotencyKey i <> "" /\ v_ModelID v = cv_ModelID i /\ model_versions g !! v_ID v = Some (v, cv_IdempotencyKey i)
  | QReady actor i, AVersion v => exists key, model_versions g !! v_ID v = Some (v, key) /\
      (honoured actor CommandMarkVersionReady (mr_IdempotencyKey i) (v_ID v) g \/
       v_ID v = mr_VersionID i /\ Status v = if mr_Success i then StatusReady else StatusFailed)
  | QPromote actor i, APromote r => Demoted r = None /\ exists key, model_versions g !! v_ID (Promoted r) = Some (Promoted r, key) /\
      (honoured actor CommandPromoteVersion (pv_IdempotencyKey i) (v_ID (Promoted r)) g \/
       v_ID (Promoted r) = pv_VersionID i /\ Stage (Promoted r) = pv_TargetStage i)
  | QArchive actor id key, AModel m => m_Team m = Team actor /\ exists mk, models g !! m_ID m = Some (m, mk) /\
      (honoured actor CommandArchiveModel key (m_ID m) g \/ m_ID m = id /\ ArchivedAt m <> 0)
  | _, _ => False
  end.

(** Commands and events beside the tables do not show. *)
Definition same_tables (g g' : registry) : Prop := models g' = models g /\ model_versions g' = model_versions g.

(** A command answered: a success took effect or was known, a failure may have taken effect
    when its acknowledgement was lost. *)
Definition command_step (q : request) (r : result reply rg_error) (g g' : registry) : Prop :=
  match r with
  | Ok a => effect q g g' \/ same_tables g g' /\ known q a g
  | Err _ => effect q g g' \/ same_tables g g'
  end.

Lemma effect_same q g g1 g2 : effect q g g1 -> same_tables g1 g2 -> effect q g g2.
Proof. intros He [Hm Hv]. destruct q; cbn [effect] in *; rewrite Hm, Hv; exact He. Qed.

Lemma live_iff m : ArchivedAt m = 0 <-> IsArchived m = false.
Proof. unfold IsArchived, time_is_zero. destruct (Z.eqb_spec (ArchivedAt m) 0); split; intros; cbn in *; congruence. Qed.

Lemma edge_iff st target : CanTransitionTo st target = true <-> stage_edge st target.
Proof. destruct st, target; split; intros H; cbn in *; try done. Qed.

(** What a command does is a step of the machine. *)
Lemma command_step_lifecycle q r g g' : command_step q r g g' -> lifecycle_step g g'.
Proof.
  intros Hc. assert (effect q g g' \/ same_tables g g') as [He | [Hm Hv]] by (destruct r; cbn in Hc; tauto); [| by apply StepSame].
  destruct q as [actor i | actor i | actor i | actor i | actor i | actor id key]; cbn [effect] in He.
  - destruct He as (id & now & Hn & _ & Hm & Hv). match type of Hm with _ = <[_ := (?m, ?k)]> _ => by apply (StepRegister _ _ m k) end.
  - destruct He as (m & mk & now & (Hi & _ & Ha) & Hm & Hv). match type of Hm with _ = <[?i := (?m', _)]> _ => apply (StepEdit _ _ i m m' mk) end; [done | by apply live_iff | by apply live_iff | done | done].
  - destruct He as (m & mk & id & label & now & (Hi & _ & Ha) & Hn & _ & _ & Hm & Hv).
    match type of Hv with _ = <[_ := (?v, ?k)]> _ => apply (StepCut _ _ v k m mk) end; [done | done | by apply live_iff | done..].
  - destruct He as (v & key & [Hi _] & Hs & Hm & Hv). match type of Hv with _ = <[?i := (?v', _)]> _ => apply (StepConfirm _ _ i v v' key) end; try done.
    cbn. destruct (mr_Success i); auto.
  - destruct He as (v & key & d & [Hi _] & Ht & Hr & Hd & Hm & Hv). apply (StepPromote _ _ (pv_VersionID i) v key (pv_TargetStage i) d); [done | by apply edge_iff | done | | done | done].
    destruct d as [[[did dv] dk]|]; [| done]. by destruct Hd as (_ & ? & ? & ? & ?).
  - destruct He as (m & mk & now & (Hi & _ & Ha) & Hm & Hv). match type of Hm with _ = <[_ := (?m', _)]> _ => by apply (StepArchive _ _ id m m' mk); [| apply live_iff | |] end.
Qed.

(** ** Every command alone does what is said *)

Section refinement.
Context {W : Type} `{Outside W}.

(** The answer of the command [q], which is an [A] before it is a reply. *)
Definition replying {A} (f : A -> reply) (r : result A rg_error) : result reply rg_error :=
  match r with Ok a => Ok (f a) | Err e => Err e end.

#[local] Notation does q f g := (fun r g' => command_step q (replying f r) g g').

Lemma alone_fail {A} q (f : A -> reply) e g : alone (W := W) (Ret (Err e)) g (does q f g).
Proof. apply alone_ret. by right. Qed.

Lemma alone_known {A} q (f : A -> reply) a g : known q (f a) g -> alone (W := W) (Ret (Ok a)) g (does q f g).
Proof. intros Hk. apply alone_ret. by right. Qed.

(** After its effect a command only records and emits. *)
Definition quiet {A} (m : prog (site W registry) A) : Prop := forall g, alone m g (fun _ g' => same_tables g g').

Lemma quiet_ret {A} (a : A) : quiet (Ret a).
Proof. intros g. by apply alone_ret. Qed.

Lemma quiet_seq {A B} (m : prog (site W registry) A) (k : A -> prog (site W registry) B) :
  quiet m -> (forall a, quiet (k a)) -> quiet (do! x := m in k x).
Proof.
  intros Hm Hk g. eapply alone_seq; [apply Hm |]. intros a g1 [H1 H2].
  eapply alone_weaken; [apply Hk |]. intros b g2 [H3 H4]. split; congruence.
Qed.

Lemma quiet_record team command key entity : quiet (recordCommandIdempotency team command key entity).
Proof.
  intros g. unfold recordCommandIdempotency. destruct (String.eqb key "") eqn:Ek; [apply quiet_ret |].
  apply alone_transact. unfold RecordCommandIdempotency. rewrite Ek. intros r g' Htx.
  assert (same_tables g g') as Hs
    by (destruct (command_idempotency g !! _); [destruct (negb _) |]; injection Htx as <- <-; done).
  split; [by apply alone_ret |]. intros text. split; by apply alone_ret.
Qed.

Lemma quiet_emit ev : quiet (emit ev).
Proof. intros g. apply (alone_touch _ Ret). by apply alone_ret. Qed.

Lemma quiet_query {R} (f : W -> registry -> result R rg_error) : quiet (query f).
Proof. intros g. apply (alone_query f Ret). intros w r _. by apply alone_ret. Qed.

Lemma quiet_try {A B} (r : result A rg_error) w (k : A -> prog (site W registry) (result B rg_error)) :
  (forall a, quiet (k a)) -> quiet (try r w k).
Proof. intros Hk. destruct r as [a|e]; [apply Hk | apply quiet_ret]. Qed.

Lemma quiet_after {A} q (f : A -> reply) (m : prog (site W registry) (result A rg_error)) g g1 :
  quiet m -> effect q g g1 -> alone m g1 (does q f g).
Proof.
  intros Hq He. eapply alone_weaken; [apply Hq |]. intros r g2 Hs. pose proof (effect_same _ _ _ _ He Hs). destruct r; by left.
Qed.
#[local] Hint Resolve quiet_ret quiet_record quiet_emit quiet_query quiet_seq quiet_try : fp.

(** A transaction that fails changes nothing; its answer may be lost when it succeeds. *)
Lemma alone_effect {A R} q (f : A -> reply) (tx : registry -> result R rg_error * registry) (k : result R rg_error -> prog (site W registry) (result A rg_error)) g :
  (forall r g', tx g = (r, g') -> match r with Ok _ => effect q g g' | Err _ => g' = g end) ->
  (forall a, quiet (k (Ok a))) -> (forall e, exists e', k (Err e) = Ret (Err e')) ->
  alone (do! x := transact tx in k x) g (does q f g).
Proof.
  intros Hf Hk He. apply alone_transact. intros r g' Htx. specialize (Hf r g' Htx).
  assert (forall e g1, effect q g g1 \/ g1 = g -> alone (k (Err e)) g1 (does q f g)) as Hno.
  { intros e g1 Hg. destruct (He e) as [e' ->]. apply alone_ret. destruct Hg as [Hg | ->]; [by left | by right]. }
  split; [destruct r as [a|e]; [by apply quiet_after | apply Hno; by right] |].
  intros text. split; apply Hno; [by right |]. destruct r; [by left | by right].
Qed.

(** What the loads of a request read, with the tables as they are. *)
Lemma alone_read {A R} (f : W -> registry -> result R rg_error) (k : result R rg_error -> prog (site W registry) A) g post :
  (forall w a, f w g = Ok a -> alone (k (Ok a)) g post) -> (forall e, alone (k (Err e)) g post) ->
  alone (do! x := query f in k x) g post.
Proof.
  intros Hok Herr. apply alone_query. intros w [a|e] Hr; [| apply Herr]. destruct Hr as [Hr | Hr]; [| done]. by eapply Hok.
Qed.

Lemma get_model_row id m g : RegistryStore.GetModel id g = Ok m -> exists key, models g !! id = Some (m, key).
Proof. unfold RegistryStore.GetModel, one_row. destruct (models g !! id) as [[m' k]|]; [intros [= ->]; by exists k | done]. Qed.

Lemma get_version_row id v g : RegistryStore.GetVersion id g = Ok v -> exists key, model_versions g !! id = Some (v, key).
Proof. unfold RegistryStore.GetVersion, one_row. destruct (model_versions g !! id) as [[m' k]|]; [intros [= ->]; by exists k | done]. Qed.

(** A program that only reads, and what its answer says. *)
Definition reads {A} (m : prog (site W registry) A) (g : registry) (Q : A -> Prop) : Prop := alone m g (fun a g' => g' = g /\ Q a).

Lemma answers_ret {A} (a : A) g (Q : A -> Prop) : Q a -> reads (Ret a) g Q.
Proof. intros Hq. by apply alone_ret. Qed.

Lemma alone_reads {A B} (m : prog (site W registry) A) (k : A -> prog (site W registry) B) g (Q : A -> Prop) post :
  reads m g Q -> (forall a, Q a -> alone (k a) g post) -> alone (do! x := m in k x) g post.
Proof. intros Hm Hk. eapply alone_seq; [exact Hm |]. intros a g' [-> Ha]. by apply Hk. Qed.

Lemma reads_owned actor id g :
  reads (loadOwnedModel actor id) g (fun r => forall m, r = Ok m -> m_Team m = Team actor /\ exists key, models g !! id = Some (m, key)).
Proof.
  unfold loadOwnedModel. apply alone_read.
  - intros _ m (key & Hm)%get_model_row. apply answers_ret. intros m'. destruct (String.eqb_spec (m_Team m) (Team actor)); [| done].
    intros [= <-]. split; [done | by exists key].
  - intros e. by apply answers_ret.
Qed.

(** A lookup by key answers what the key was honoured for. *)
Lemma reads_lookup {T} actor command key (load : string -> prog (site W registry) (result T rg_error)) g (Q : string -> T -> Prop) :
  (forall id, reads (load id) g (fun r => forall t, r = Ok t -> Q id t)) ->
  reads (lookupCommandIdempotency (Team actor) command key load) g
    (fun r => forall t, r = Ok (Some t) -> exists id, honoured actor command key id g /\ Q id t).
Proof.
  intros Hl. unfold lookupCommandIdempotency. destruct (String.eqb_spec key "") as [|Hk]; [by apply answers_ret |].
  apply alone_read.
  - intros _ id Hid. eapply alone_reads; [apply Hl |]. intros r Hr. apply answers_ret. intros t.
    destruct r as [t'|e]; [| done]. intros [= <-]. exists id. split; [| by apply Hr]. split; [done |].
    unfold LookupCommandIdempotency in Hid. rewrite (proj2 (String.eqb_neq _ _) Hk) in Hid.
    destruct (command_idempotency g !! _); [by injection Hid as -> | done].
  - intros e. apply answers_ret. intros t. by destruct (errors_is e ErrRecordNotFound).
Qed.

Lemma alter_row {A} (f : A -> A) i x (m : gmap string A) : m !! i = Some x -> alter f i m = <[i := f x]> m.
Proof.
  intros Hi. apply map_eq. intros j. destruct (decide (i = j)) as [<- |].
  - by rewrite lookup_alter_eq, lookup_insert_eq, Hi.
  - by rewrite lookup_alter_ne, lookup_insert_ne.
Qed.

(** The row that a lookup by key finds. *)
Lemma one_row_find {A} (f : A * string -> bool) (t : gmap string (A * string)) a :
  one_row (List.find f (rows t)) = Ok a -> exists i key, t !! i = Some (a, key) /\ f (a, key) = true.
Proof.
  unfold one_row. destruct (List.find f _) as [[a' key]|] eqn:E; [| done]. intros [= ->].
  apply find_rows in E as [Hf [i Hi]]. by exists i, key.
Qed.

Lemma alone_RegisterModel actor i g : registry_ok g -> alone (RegisterModel actor i) g (does (QRegister actor i) AModel g).
Proof.
  intros Hok. unfold RegisterModel. destruct (String.eqb_spec (TrimSpace (rm_Name i)) "") as [|Hname]; [apply alone_fail |].
  destruct (_ || _); [apply alone_fail |].
  eapply (alone_reads _ _ _ (fun r => forall m, r = Ok m -> known (QRegister actor i) (AModel m) g)).
  - destruct (String.eqb_spec (rm_IdempotencyKey i) "") as [|Hk]; [by apply answers_ret |]. apply (alone_read _ Ret); [| intros; by apply answers_ret].
    intros _ m Hm. apply answers_ret. intros m' [= <-]. unfold LookupModelByIdempotencyKey in Hm. rewrite (proj2 (String.eqb_neq _ _) Hk) in Hm.
    apply one_row_find in Hm as (j & key & Hj & [Ht%String.eqb_eq He%String.eqb_eq]%andb_true_iff). cbn [fst snd] in *. subst key.
    cbn [known]. rewrite (ok_model_id _ Hok _ _ _ Hj). by split.
  - intros [m|e] Hm; [by apply alone_known, Hm |]. destruct (negb _); [apply alone_fail |].
    apply alone_ask. intros now. apply alone_ask. intros id. apply alone_effect.
    + intros r g'. unfold CreateModel. destruct (bool_decide _ || _) eqn:Ec; intros [= <- <-]; [done |].
      apply orb_false_iff in Ec as [Hn%bool_decide_eq_false _]. exists id, now. split; [by apply eq_None_not_Some | by split].
    + auto with fp.
    + intros e'. by eexists.
Qed.

Lemma alone_UpdateModel actor i g : registry_ok g -> alone (UpdateModel actor i) g (does (QUpdate actor i) AModel g).
Proof.
  intros Hok. unfold UpdateModel. destruct (blank _); [apply alone_fail |].
  eapply alone_reads; [apply reads_owned |]. intros [m|e] Hm; [| apply alone_fail]. destruct (Hm m eq_refl) as [Ht [key Hrow]]. cbn [try].
  destruct (IsArchived m) eqn:Ea; [apply alone_fail |]. apply live_iff in Ea. apply alone_ask. intros now. apply alone_effect.
  - intros r g'. unfold RegistryStore.UpdateModel. simpl. rewrite (ok_model_id _ Hok _ _ _ Hrow), Hrow. intros [= <- <-].
    exists m, key, now. split; [done |]. split; [| done]. exact (alter_row _ _ _ _ Hrow).
  - auto with fp.
  - intros e. by eexists.
Qed.

Lemma version_unclashed v key g : existsb (version_clash v key) (rows (model_versions g)) = false ->
  forall j r, model_versions g !! j = Some r -> v_ModelID r.1 = v_ModelID v -> v_Version r.1 <> v_Version v.
Proof.
  intros Hc j r Hj Hm Hl. apply not_true_iff_false in Hc. apply Hc, existsb_exists. exists r. split.
  - apply list_elem_of_In, elem_of_rows. by exists j.
  - unfold version_clash. by rewrite Hm, Hl, !String.eqb_refl.
Qed.

Lemma create_version_effect actor i m key id label now r g g' : owned_live actor (cv_ModelID i) g m key ->
  (TrimSpace (cv_Version i) <> "" -> label = TrimSpace (cv_Version i)) ->
  RegistryStore.CreateVersion {| v_ID := id; v_ModelID := cv_ModelID i; v_Version := label; v_Description := cv_Description i;
    v_Metrics := cv_Metrics i; ArtifactPath := ""; ArtifactDigest := ""; SizeBytes := 0; Stage := StageDev;
    Status := StatusPendingUpload; v_CreatedBy := UserID actor; v_CreatedAt := now |} (cv_IdempotencyKey i) g = (r, g') ->
  match r with Ok _ => effect (QCreate actor i) g g' | Err _ => g' = g end.
Proof.
  intros Ho Hl. unfold RegistryStore.CreateVersion. destruct (marshalMetrics _); [by intros [= <- <-] |].
  destruct (bool_decide _ || _) eqn:Ec; [by intros [= <- <-] |].
  destruct (bool_decide (models g !! _ = None)); intros [= <- <-]; [done |].
  apply orb_false_iff in Ec as [Hn%bool_decide_eq_false Hc]. exists m, key, id, label, now.
  split; [done |]. split; [by apply eq_None_not_Some |]. split; [done |]. split; [exact (version_unclashed _ _ _ Hc) | done].
Qed.

Lemma alone_insert actor i m key autoAssign now g : owned_live actor (cv_ModelID i) g m key -> autoAssign = String.eqb (TrimSpace (cv_Version i)) "" ->
  forall more candidate, (TrimSpace (cv_Version i) <> "" -> candidate = TrimSpace (cv_Version i)) ->
  alone (insert_version more actor i m autoAssign now candidate) g (does (QCreate actor i) AVersion g).
Proof.
  intros Ho Hauto more. induction more as [|more IH]; intros candidate Hc; cbn [insert_version];
    apply alone_ask; intros id; apply alone_transact; intros r g' Htx; pose proof (create_version_effect _ _ _ _ _ _ _ _ _ _ Ho Hc Htx) as He;
    (assert (forall text g1, effect (QCreate actor i) g g1 \/ g1 = g ->
       alone (W := W) (Ret (Err (Wrap "create version" (External text)))) g1 (does (QCreate actor i) AVersion g)) as Hno
       by (intros text g1 [Hg | ->]; apply alone_ret; [by left | by right]));
    (split; [| intros text; split; cbn [errors_is negb]; apply Hno; [by right | destruct r; [by left | by right]]]);
    (destruct r as [v|e]; [apply quiet_after; auto with fp |]); subst g';
    (destruct (negb (errors_is e ErrWriteConflict)); [apply alone_fail |]); (destruct (negb autoAssign) eqn:En; [apply alone_fail |]).
  - apply alone_fail.
  - destruct (Atoi candidate); [| apply alone_fail]. apply IH. intros Hne. apply negb_false_iff in En. rewrite Hauto in En.
    by apply String.eqb_eq in En.
Qed.

Lemma alone_CreateVersion actor i g : registry_ok g -> alone (CreateVersion actor i) g (does (QCreate actor i) AVersion g).
Proof.
  intros Hok. unfold CreateVersion. destruct (blank _); [apply alone_fail |].
  eapply (alone_reads _ _ _ (fun r => forall v, r = Ok v -> known (QCreate actor i) (AVersion v) g)).
  - destruct (String.eqb_spec (cv_IdempotencyKey i) "") as [|Hk]; [by apply answers_ret |]. apply (alone_read _ Ret); [| intros; by apply answers_ret].
    intros _ v Hv. apply answers_ret. intros v' [= <-]. unfold LookupVersionByIdempotencyKey in Hv. rewrite (proj2 (String.eqb_neq _ _) Hk) in Hv.
    apply one_row_find in Hv as (j & key & Hj & [Ht%String.eqb_eq He%String.eqb_eq]%andb_true_iff). cbn [fst snd] in *. subst key.
    cbn [known]. rewrite (ok_version_id _ Hok _ _ _ Hj). by split.
  - intros [v|e] Hv; [by apply alone_known, Hv |]. destruct (negb _); [apply alone_fail |].
    eapply alone_reads; [apply reads_owned |]. intros [m|e'] Hm; [| apply alone_fail]. destruct (Hm m eq_refl) as [Ht [key Hrow]]. cbn [try].
    destruct (IsArchived m) eqn:Ea; [apply alone_fail |]. apply live_iff in Ea.
    eapply (alone_reads _ _ _ (fun r => forall candidate, r = Ok candidate -> TrimSpace (cv_Version i) <> "" -> candidate = TrimSpace (cv_Version i))).
    + destruct (String.eqb_spec (TrimSpace (cv_Version i)) "") as [He | Hne].
      * apply alone_read; intros; apply answers_ret; intros c _ Hne; by rewrite He in Hne.
      * apply answers_ret. intros c [= <-] _. done.
    + intros [candidate|e'] Hc; [| apply alone_fail]. cbn [try]. apply alone_ask. intros now. eapply alone_insert; [by split | done | by apply Hc].
Qed.

Lemma update_row_ok id st f g g' : update_row id st f g = Ok g' -> exists v key, model_versions g !! id = Some (v, key) /\
  models g' = models g /\ model_versions g' = <[id := (f v, key)]> (model_versions g) /\
  (st = StageProduction -> forall j r, model_versions g !! j = Some r -> j <> id -> v_ModelID r.1 = v_ModelID v -> Stage r.1 <> StageProduction).
Proof.
  unfold update_row. destruct (model_versions g !! id) as [[v key]|] eqn:E; [| done].
  destruct (_ && _) eqn:Eb; [done |]. intros [= <-]. exists v, key. split; [done |]. split; [done |].
  split; [exact (alter_row _ _ _ _ E) |]. intros -> j r Hj Hne Hm Hs. rewrite bool_decide_eq_true_2 in Eb by done. cbn [andb] in Eb.
  apply not_true_iff_false in Eb. apply Eb, existsb_exists. exists r. split.
  - apply list_elem_of_In, elem_of_rows. exists j. by rewrite lookup_delete_ne.
  - unfold production_of. by rewrite Hm, String.eqb_refl, bool_decide_eq_true_2.
Qed.

Lemma reads_version id g : reads (loadVersion id) g (fun r => forall v, r = Ok v -> exists key, model_versions g !! id = Some (v, key)).
Proof.
  apply (alone_read _ Ret); [| intros e; by apply answers_ret]. intros _ v Hv%get_version_row. apply answers_ret. by intros v' [= <-].
Qed.

Lemma alone_gate {A} actor id (k : ModelVersion -> prog (site W registry) (result A rg_error)) q (f : A -> reply) g : registry_ok g ->
  (forall v key, owned_version actor id g v key -> v_ID v = id -> alone (k v) g (does q f g)) ->
  alone (do! v := loadVersion id in try v version_missing (fun v =>
    do! owner := loadOwnedModel actor (v_ModelID v) in try owner foreign_as_missing (fun _ => k v))) g (does q f g).
Proof.
  intros Hok Hk. eapply alone_reads; [apply reads_version |]. intros [v|e] Hv; [| apply alone_fail]. destruct (Hv v eq_refl) as [key Hrow]. cbn [try].
  eapply alone_reads; [apply reads_owned |]. intros [m|e] Hm; [| apply alone_fail]. destruct (Hm m eq_refl) as [Ht [mk Hmrow]].
  apply (Hk v key); [| by eapply ok_version_id]. split; [done |]. by exists m, mk.
Qed.

Lemma alone_replay {A} actor command key (k : option ModelVersion -> prog (site W registry) (result A rg_error)) q (f : A -> reply) g : registry_ok g ->
  (forall v vk, honoured actor command key (v_ID v) g -> model_versions g !! v_ID v = Some (v, vk) -> alone (k (Some v)) g (does q f g)) ->
  alone (k None) g (does q f g) ->
  alone (do! r := lookupCommandIdempotency (Team actor) command key loadVersion in try r id k) g (does q f g).
Proof.
  intros Hok Hs Hn. eapply alone_reads; [apply reads_lookup; intros id; apply reads_version |].
  intros [[v|]|e] Hr; [| exact Hn | apply alone_fail]. destruct (Hr v eq_refl) as (id & Hh & vk & Hv). cbn [try].
  pose proof (ok_version_id _ Hok _ _ _ Hv) as <-. by eapply Hs.
Qed.

Lemma alone_MarkVersionReady actor i g : registry_ok g -> alone (MarkVersionReady actor i) g (does (QReady actor i) AVersion g).
Proof.
  intros Hok. unfold MarkVersionReady. destruct (blank _); [apply alone_fail |].
  apply alone_replay; [done | intros v vk Hh Hv; apply alone_known; exists vk; split; [done | by left] |].
  apply alone_gate; [done |]. intros v key Hv Hid.
  assert (Status v = (if mr_Success i then StatusReady else StatusFailed) -> known (QReady actor i) (AVersion v) g) as Hdone.
  { intros Hs. exists key. rewrite Hid. split; [apply Hv | by right]. }
  case_bool_decide as Er; [destruct (mr_Success i); [by apply alone_known, Hdone |] |];
    (case_bool_decide as Ef; [destruct (mr_Success i); [| by apply alone_known, Hdone] |]); try congruence; cbn [andb negb];
    case_bool_decide as Ep; try congruence; cbn [negb]; try apply alone_fail.
  all: apply alone_ask; intros now; apply alone_effect; [| | intros e; by eexists].
  all: try (intros updated; cbn [try]; apply quiet_seq; [auto with fp |]; intros r'; apply quiet_try; intros _;
    destruct (mr_Success i); [| auto with fp]; apply quiet_seq; [auto with fp |]; intros r2; apply quiet_try; auto with fp).
  all: intros r g'; unfold UpdateVersionStatus; destruct (update_row _ _ _ g) as [g1|e] eqn:Eu; intros [= <- <-]; [| done];
    apply update_row_ok in Eu as (v' & k' & Hv' & Hm & Hvs & _);
    (assert (v_ID (confirmed i v) = mr_VersionID i) as Hcid by (unfold confirmed; by destruct (mr_Success i)));
    rewrite Hcid in *; pose proof Hv as [Hrow _]; (assert (v' = v /\ k' = key) as [-> ->] by (split; congruence));
    exists v, key; (split; [done |]); (split; [done |]); (split; [done |]); rewrite Hvs; unfold confirmed, updated_status; by destruct (mr_Success i).
Qed.

Lemma reads_demoted v target g : registry_ok g ->
  reads (find_demoted v target) g (fun r => forall d, r = Ok (Some d) ->
    target = StageProduction /\ exists dv dk, d = set_stage StageArchived dv /\ model_versions g !! v_ID dv = Some (dv, dk) /\
      v_ID dv <> v_ID v /\ v_ModelID dv = v_ModelID v /\ Stage dv = StageProduction).
Proof.
  intros Hok. unfold find_demoted. case_bool_decide; [| by apply answers_ret]. apply alone_read.
  - intros _ prior (i & key & Hi & [Hm%String.eqb_eq Hs%bool_decide_eq_true]%andb_true_iff)%one_row_find. apply answers_ret. intros d.
    destruct (String.eqb_spec (v_ID prior) (v_ID v)); [done |]. intros [= <-]. split; [done |]. exists prior, key.
    pose proof (ok_version_id _ Hok _ _ _ Hi) as <-. done.
  - intros e. apply answers_ret. by destruct (errors_is e ErrRecordNotFound).
Qed.

Lemma promote_effect actor i v key d g r g' : registry_ok g -> owned_version actor (pv_VersionID i) g v key -> v_ID v = pv_VersionID i ->
  CanTransitionTo (Stage v) (pv_TargetStage i) = true -> (serving_stage (pv_TargetStage i) -> Status v = StatusReady) ->
  (forall d', d = Some d' -> pv_TargetStage i = StageProduction /\ exists dv dk, d' = set_stage StageArchived dv /\
     model_versions g !! v_ID dv = Some (dv, dk) /\ v_ID dv <> v_ID v /\ v_ModelID dv = v_ModelID v /\ Stage dv = StageProduction) ->
  PromoteVersionTx (set_stage (pv_TargetStage i) v) d g = (r, g') ->
  match r with Ok _ => effect (QPromote actor i) g g' | Err _ => g' = g end.
Proof.
  intros Hok Hv Hid Ht%edge_iff Hready Hd. pose proof Hv as [Hrow _]. unfold PromoteVersionTx. destruct d as [d'|].
  - destruct (Hd d' eq_refl) as (Htgt & dv & dk & -> & Hdv & Hne & Hmod & Hst).
    destruct (updateVersionStageTx _ _ g) as [g1|e] eqn:E1; simpl; [| by intros [= <- <-]].
    destruct (updateVersionStageTx _ _ g1) as [g2|e] eqn:E2; simpl; [| by intros [= <- <-]].
    intros [= <- <-]. apply update_row_ok in E1 as (v1 & k1 & H1 & Hm1 & Hv1 & _). simpl in *.
    assert (v1 = dv /\ k1 = dk) as [-> ->] by (split; congruence).
    apply update_row_ok in E2 as (v2 & k2 & H2 & Hm2 & Hv2 & _). simpl in *. rewrite Hv1, lookup_insert_ne, Hid in H2 by done.
    assert (v2 = v /\ k2 = key) as [-> ->] by (split; congruence).
    exists v, key, (Some (v_ID dv, dv, dk)). split; [done |]. split; [done |]. split; [done |]. split; [by rewrite <- Hid |].
    split; [congruence |]. by rewrite Hv2, Hv1, Hid.
  - simpl. destruct (updateVersionStageTx _ _ g) as [g2|e] eqn:E2; simpl; [| by intros [= <- <-]].
    intros [= <- <-]. apply update_row_ok in E2 as (v2 & k2 & H2 & Hm2 & Hv2 & Hone). simpl in *. rewrite Hid in *.
    assert (v2 = v /\ k2 = key) as [-> ->] by (split; congruence). exists v, key, None. by split.
Qed.

Lemma alone_PromoteVersion actor i g : registry_ok g -> alone (PromoteVersion actor i) g (does (QPromote actor i) APromote g).
Proof.
  intros Hok. unfold PromoteVersion. destruct (blank _); [apply alone_fail |]. destruct (negb _); [apply alone_fail |].
  apply alone_replay; [done | intros v vk Hh Hv; apply alone_known; split; [done |]; exists vk; split; [done | by left] |].
  apply alone_gate; [done |]. intros v key Hv Hid. case_bool_decide as Es.
  { apply alone_known. split; [done |]. exists key. cbn [Promoted]. rewrite Hid. split; [apply Hv | by right]. }
  destruct (CanTransitionTo _ _) eqn:Et; cbn [negb]; [| apply alone_fail].
  destruct ((_ || _) && _) eqn:Er; [apply alone_fail |].
  assert (serving_stage (pv_TargetStage i) -> Status v = StatusReady) as Hready.
  { intros Hs. apply andb_false_iff in Er as [Er | Er%negb_false_iff%bool_decide_eq_true]; [| done].
    apply orb_false_iff in Er as [E1%bool_decide_eq_false E2%bool_decide_eq_false]. by destruct Hs. }
  apply alone_ask. intros now. eapply alone_reads; [by apply reads_demoted |]. intros [d|e] Hd; [| apply alone_fail]. cbn [try].
  apply alone_effect.
  - intros r g' Htx. eapply promote_effect; [done | exact Hv | exact Hid | exact Et | exact Hready | | exact Htx].
    intros d' Hd'. apply Hd. congruence.
  - intros [p q]. apply quiet_seq; [auto with fp |]. intros r'. apply quiet_try. intros _.
    apply quiet_seq; [auto with fp |]. intros r2. apply quiet_try. auto with fp.
  - intros e. by eexists.
Qed.

Lemma alone_ArchiveModel actor modelID key g : registry_ok g -> alone (ArchiveModel actor modelID key) g (does (QArchive actor modelID key) AModel g).
Proof.
  intros Hok. unfold ArchiveModel. destruct (blank _); [apply alone_fail |].
  eapply alone_reads; [apply reads_lookup; intros id; apply reads_owned |].
  intros [[m|]|e] Hr; [| | apply alone_fail]; cbn [try].
  { destruct (Hr m eq_refl) as (id & Hh & Ht & mk & Hm). pose proof (ok_model_id _ Hok _ _ _ Hm) as <-. apply alone_known.
    split; [done |]. exists mk. split; [done | by left]. }
  eapply alone_reads; [apply reads_owned |]. intros [m|e] Hm; [| apply alone_fail]. destruct (Hm m eq_refl) as [Ht [k Hrow]]. cbn [try].
  pose proof (ok_model_id _ Hok _ _ _ Hrow) as Hid. destruct (IsArchived m) eqn:Ea.
  { apply alone_known. split; [done |]. exists k. rewrite Hid. split; [done |]. right. split; [done |]. intros Ha%live_iff. congruence. }
  apply live_iff in Ea. apply alone_ask. intros now. apply alone_effect.
  - intros r g'. unfold ArchiveModelTx. simpl. rewrite Hid, Hrow. intros [= <- <-].
    exists m, k, now. split; [done |]. split; [exact (alter_row _ _ _ _ Hrow) |]. done.
  - intros m'. apply quiet_seq; [auto with fp |]. intros r'. apply quiet_try. auto with fp.
  - intros e. by eexists.
Qed.

Lemma alone_answering {A} q (f : A -> reply) (m : prog (site W registry) (result A rg_error)) g :
  alone m g (does q f g) -> alone (answering f m) g (fun r g' => command_step q r g g').
Proof. intros Hm. eapply alone_seq; [exact Hm |]. intros a g' Hst. by apply alone_ret. Qed.

Lemma serve_step q (s : site W registry) a s' :
  registry_ok (s_db s) -> run (serve q) s = (a, s') -> command_step q a (s_db s) (s_db s').
Proof.
  intros Hok Hr. destruct s as [w g].
  assert (alone (serve q) g (fun r g' => command_step q r g g')) as Hal; [| exact (Hal w a s' Hr)].
  destruct q; apply alone_answering.
  - by apply alone_RegisterModel.
  - by apply alone_UpdateModel.
  - by apply alone_CreateVersion.
  - by apply alone_MarkVersionReady.
  - by apply alone_PromoteVersion.
  - by apply alone_ArchiveModel.
Qed.

Lemma serve_ok q (s : site W registry) a s' : registry_ok (s_db s) -> run (serve q) s = (a, s') -> registry_ok (s_db s').
Proof.
  intros Hok Hr. pose proof (run_all_par [serve q] s) as Hp. simpl in Hp. rewrite Hr in Hp.
  destruct (served [q] s [a] s' Hok Hp) as [Hk _]. by eapply kr_ok.
Qed.


Lemma legal_path_terminal v v' : rtc legal_move v v' -> Stage v = StageArchived -> Stage v' = StageArchived.
Proof.
  induction 1 as [| v1 v2 v3 [Hs _] _ IH]; [done |]. intros Ha. apply IH. destruct Hs as [-> | Hs]; [done |]. by rewrite Ha in Hs.
Qed.

(** Only verified artifacts serve. When requests are served one after the other,
    in any number, with any failures, every version in STAGING or PRODUCTION is READY,
    all versions of an archived model are ARCHIVED, and every version went from where
    it was along edges of the stage machine, out of PENDING at most once; an ARCHIVED
    version stays so. *)
Theorem serving_versions_ready (qs : list request) (s : site W registry) :
  registry_ok (s_db s) -> serving_ok (s_db s) ->
  let s' := (run_all (map serve qs) s).2 in
  serving_ok (s_db s') /\
  forall id v key, model_versions (s_db s) !! id = Some (v, key) ->
    exists v', model_versions (s_db s') !! id = Some (v', key) /\ rtc legal_move v v' /\
      (Stage v = StageArchived -> Stage v' = StageArchived).
Proof.
  revert s. induction qs as [|q qs IH]; intros s Hok Hso; simpl.
  - split; [done |]. intros id v key Hv. by exists v.
  - destruct (run (serve q) s) as [a s1] eqn:E. pose proof (command_step_lifecycle _ _ _ _ (serve_step q s a s1 Hok E)) as Hst.
    pose proof (serve_ok q s a s1 Hok E) as Hok1.
    specialize (IH s1 Hok1 (step_serving _ _ Hso Hst)). destruct (run_all _ s1) as [rs s2]. simpl in *.
    destruct IH as [Hso2 IH]. split; [done |]. intros id v key Hv.
    destruct (step_legal _ _ Hso Hst _ _ _ Hv) as (v1 & Hv1 & Hl). destruct (IH _ _ _ Hv1) as (v2 & Hv2 & Hp & _).
    assert (rtc legal_move v v2) as Hp2 by (by eapply rtc_l). exists v2. split; [done |]. split; [done |].
    by apply legal_path_terminal.
Qed.
End refinement.

(** ** Concrete runs *)

(** A clock that ticks and ids that count. *)
#[export] Instance counting_outside : Outside Z := {|
  Now w := (1000 + w, w + 1); NewID w := ("id-" +:+ pretty w, w + 1); link w := (Works, w + 1) |}.

Definition empty_registry : registry := {| models := ∅; model_versions := ∅; command_idempotency := ∅; emitted := [] |}.

Lemma empty_ok : registry_ok empty_registry.
Proof. constructor; intros *; simpl; rewrite lookup_empty; done. Qed.

Lemma empty_serving : serving_ok empty_registry.
Proof. constructor; intros *; simpl; rewrite lookup_empty; done. Qed.

Definition ann : Actor := {| UserID := "ann"; Team := "a" |}.
Definition bob : Actor := {| UserID := "bob"; Team := "b" |}.

Definition register (name key : string) : RegisterModelInput := {|
  rm_Name := name; rm_Description := ""; rm_Framework := "pt"; rm_TaskType := "vision"; rm_Tags := ∅; rm_IdempotencyKey := key |}.
Definition cut (model label key : string) : CreateVersionInput := {|
  cv_ModelID := model; cv_Version := label; cv_Description := ""; cv_Metrics := ∅; cv_IdempotencyKey := key |}.
Definition ready (version key : string) : MarkVersionReadyInput := {|
  mr_VersionID := version; mr_Success := true; mr_ArtifactPath := "s3://m"; mr_ArtifactDigest := "d"; mr_SizeBytes := 7;
  mr_IdempotencyKey := key |}.
Definition to_stage (version : string) (st : ModelStage) (key : string) : PromoteVersionInput := {|
  pv_VersionID := version; pv_TargetStage := st; pv_IdempotencyKey := key |}.

Definition start : site Z registry := {| s_world := 0; s_db := empty_registry |}.

(** A model with two versions. *)
Definition setup : list request := [QRegister ann (register " net " "k1"); QCreate ann (cut "id-2" "" ""); QCreate ann (cut "id-2" "" "")].
Definition after_setup := run_all (map serve setup) start.

(** The first version goes live, then the second replaces it. *)
Definition go_live : list request :=
  [QReady ann (ready "id-7" "k2"); QPromote ann (to_stage "id-7" StageStaging ""); QPromote ann (to_stage "id-7" StageProduction "");
   QReady ann (ready "id-12" ""); QPromote ann (to_stage "id-12" StageProduction "");
   QPromote ann (to_stage "id-12" StageStaging ""); QPromote ann (to_stage "id-12" StageProduction "");
   QPromote bob (to_stage "id-12" StageArchived "")].
Definition live := run_all (map serve (setup ++ go_live)) start.

Definition stages (g : registry) : list (string * ModelStage * VersionStatus) :=
  map (fun r => (v_ID r.1, Stage r.1, Status r.1)) (rows (model_versions g)).

Lemma registry_stays_consistent_witness :
  stages (s_db live.2) = [("id-7", StageArchived, StatusReady); ("id-12", StageProduction, StatusReady)] /\
  length (emitted (s_db live.2)) = 9%nat /\ registry_ok (s_db live.2).
Proof.
  split; [by vm_compute |]. split; [by vm_compute |].
  exact (proj1 (registry_stays_consistent (setup ++ go_live) start _ _ empty_ok (run_all_par _ _))).
Defined.

Lemma registry_tenant_isolation_witness :
  map is_ok live.1 = [true; true; true; true; true; true; true; false; true; true; false] /\
  forall id, model_of "c" (s_db live.2) id -> models (s_db live.2) !! id = models empty_registry !! id.
Proof.
  split; [by vm_compute |].
  refine (proj1 (proj1 (registry_tenant_isolation (setup ++ go_live) start _ _ "c" empty_ok (run_all_par _ _)) _)).
  intros q Hq. repeat (apply elem_of_cons in Hq as [-> | Hq]; [discriminate |]). by apply not_elem_of_nil in Hq.
Defined.

Definition twice : list request := [QRegister ann (register "net" "k1"); QRegister ann (register "net" "k1")].

Lemma registration_idempotent_witness : exists m m',
  (run_all (map serve twice) start).1 = [Ok (AModel m); Ok (AModel m')] /\
  m_ID m' = m_ID m /\ m_Name m' = m_Name m.
Proof.
  destruct (run_all (map serve twice) start) as [rs s'] eqn:Er.
  pose proof (run_all_par (map serve twice) start) as Hp. rewrite Er in Hp.
  vm_compute in Er. injection Er as <- <-. eexists _, _. split; [reflexivity |].
  eapply (registration_idempotent twice start _ _ 0 1 ann ann (register "net" "k1") (register "net" "k1"));
    [exact empty_ok | exact Hp | reflexivity..| discriminate | reflexivity | reflexivity].
Defined.


Lemma serving_versions_ready_witness : serving_ok (s_db live.2).
Proof. exact (proj1 (serving_versions_ready (setup ++ go_live) start empty_ok empty_serving)). Defined.

(** ** Interleaved commands lose updates *)

(** A confirmation that read its version before the model is archived, and writes after. *)
Definition racing : list request := [QReady ann (ready "id-7" ""); QArchive ann "id-2" ""].
Definition race_order : list nat := [0; 0; 0; 1; 1; 1; 1; 0; 0; 0]%nat.
Definition promoting : list request :=
  [QPromote ann (to_stage "id-7" StageStaging ""); QPromote ann (to_stage "id-7" StageProduction "")].

(** An archived model can be brought back into service. MarkVersionReady writes the
    stage it read, so that a confirmation which runs across an ArchiveModel takes the
    archived version back to DEV, and PromoteVersion never asks whether the model is
    archived: in this run every command is answered with success, and at its end an
    archived model has a servable PRODUCTION version. *)
Theorem archived_model_serves : exists results s1,
  par (map serve racing) after_setup.2 results s1 /\ Forall (fun r => is_ok r = true) results /\
  let live := run_all (map serve promoting) s1 in
  Forall (fun r => is_ok r = true) live.1 /\
  exists m mk v vk, models (s_db live.2) !! "id-2" = Some (m, mk) /\ IsArchived m = true /\
    model_versions (s_db live.2) !! "id-7" = Some (v, vk) /\ v_ModelID v = "id-2" /\ IsServable v = true.
Proof.
  destruct (schedule race_order (map serve racing) after_setup.2) as [pool s1] eqn:E.
  assert (exists results, pool = map Ret results /\ Forall (fun r => is_ok r = true) results) as (results & -> & Hok).
  { vm_compute in E. injection E as <- _. eexists [_; _]. split; [reflexivity |]. repeat constructor. }
  exists results, s1. split; [by apply (schedule_par race_order) |]. split; [done |].
  vm_compute in E. injection E as _ <-. cbv zeta.
  split; [vm_compute; repeat constructor |]. eexists _, _, _, _. split; [vm_compute; reflexivity |].
  split; [reflexivity |]. split; [vm_compute; reflexivity |]. split; reflexivity.
Qed.
