(* ===== verification/RegistryVersions.v ===== *)
(** * Cutting versions: labels that the server assigns

    What CreateVersion answers on a database that works: the label it finds, and the
    replay of a key. *)

From stdpp Require Import pretty.
From S2P Require Import Prelude Concur Site GoText RegistryStore RegistryTables Registry RegistrySafety RegistryLifecycle.
Open Scope Z_scope.
Open Scope fp_scope.

Definition taken (g : registry) (model label : string) : bool :=
  existsb (fun r => of_model model r && String.eqb (v_Version r.1) label) (rows (model_versions g)).

(** A label whose number is the count plus one, plus [k]. *)
Definition nth_label (n : Z) (k : nat) : string := Itoa (n + 1 + Z.of_nat k).

Lemma label_among g model label : taken g model label = true ->
  label ∈ map (fun r : ModelVersion * string => v_Version r.1) (List.filter (of_model model) (rows (model_versions g))).
Proof.
  intros (r & Hr & [Hm Hl%String.eqb_eq]%andb_true_iff)%existsb_exists.
  apply list_elem_of_fmap. exists r. split; [done |]. apply list_elem_of_In, filter_In. done.
Qed.

(** Among one label more than there are versions, one is free. *)
Lemma some_label_free g model n : CountVersions model g = Ok n -> n + n + 1 <= int64_max ->
  exists k, Z.of_nat k <= n /\ taken g model (nth_label n k) = false /\ forall j, (j < k)%nat -> taken g model (nth_label n j) = true.
Proof.
  unfold CountVersions. set (rs := List.filter _ _). intros [= <-] Hmax.
  assert (exists k, (k <= length rs)%nat /\ taken g model (nth_label (Z.of_nat (length rs)) k) = false) as Hfree.
  { destruct (decide (Exists (fun k => taken g model (nth_label (Z.of_nat (length rs)) k) = false) (seq 0 (S (length rs))))) as [He | Hn].
    - apply list.Exists_exists in He as (k & Hk & Hf). exists k. apply elem_of_seq in Hk. split; [lia | done].
    - exfalso. set (ls := map (nth_label (Z.of_nat (length rs))) (seq 0 (S (length rs)))).
      assert (incl ls (map (fun r : ModelVersion * string => v_Version r.1) rs)) as Hincl.
      { intros l Hl%list_elem_of_In. apply list_elem_of_fmap in Hl as (k & -> & Hk). apply list_elem_of_In, label_among.
        destruct (taken _ _ _) eqn:E; [done |]. destruct Hn. apply list.Exists_exists. by exists k. }
      assert (List.NoDup ls) as Hnd.
      { apply NoDup_ListNoDup. unfold ls. apply NoDup_fmap_2_strong; [| apply NoDup_seq].
        intros i j Hi Hj He. apply elem_of_seq in Hi, Hj. apply Itoa_inj in He; lia. }
      pose proof (NoDup_incl_length Hnd Hincl) as Hlen. unfold ls in Hlen. rewrite !length_map, length_seq in Hlen. lia. }
  destruct Hfree as (k & Hk & Hf). revert Hk Hf. induction k as [k IH] using lt_wf_ind. intros Hk Hf.
  destruct (decide (Exists (fun j => taken g model (nth_label (Z.of_nat (length rs)) j) = false) (seq 0 k))) as [He | Hn].
  - apply list.Exists_exists in He as (j & Hj & Hfj). apply elem_of_seq in Hj. apply (IH j); [lia | lia | done].
  - exists k. split; [lia |]. split; [done |]. intros j Hj. apply not_false_is_true. intros Hc. destruct Hn.
    apply list.Exists_exists. exists j. split; [apply elem_of_seq; lia | done].
Qed.

Section labels.
Context {W : Type} `{Outside W}.

(** Ids that no version has. *)
Definition fresh_ids (g : registry) : Prop := forall w, model_versions g !! (NewID w).1 = None.

Hypothesis Hworks : reliable (W := W).

(** The request's own key is not in use, its metrics can be stored. *)
Record storable (input : CreateVersionInput) (g : registry) : Prop := {
  st_key : forall id r, model_versions g !! id = Some r -> of_model (cv_ModelID input) r = true ->
    same_key (cv_IdempotencyKey input) r.2 = false;
  st_metrics : marshalMetrics (cv_Metrics input) = None;
  st_ids : fresh_ids g;
}.

Lemma create_outcome input g v : storable input g -> v_ModelID v = cv_ModelID input -> v_Metrics v = cv_Metrics input ->
  is_Some (models g !! cv_ModelID input) -> model_versions g !! v_ID v = None ->
  RegistryStore.CreateVersion v (cv_IdempotencyKey input) g =
    if taken g (cv_ModelID input) (v_Version v) then (Err (Sentinel ErrWriteConflict), g)
    else (Ok v, put_version v (cv_IdempotencyKey input) g).
Proof.
  intros [Hk Hme _] Hm Hmet [x Hx] Hid. unfold RegistryStore.CreateVersion. rewrite Hmet, Hme, Hm, Hid, Hx.
  rewrite (bool_decide_false (Some x = None)) by done.
  replace (bool_decide (is_Some None)) with false by (symmetry; apply bool_decide_false; by intros [? ?]).
  replace (existsb (version_clash v (cv_IdempotencyKey input)) (rows (model_versions g))) with (taken g (cv_ModelID input) (v_Version v)).
  { by destruct (taken _ _ _). }
  unfold taken. assert (forall r, r ∈ rows (model_versions g) ->
    of_model (cv_ModelID input) r && String.eqb (v_Version r.1) (v_Version v) = version_clash v (cv_IdempotencyKey input) r) as Heq.
  { intros r [i Hi]%elem_of_rows. unfold version_clash, of_model. rewrite Hm.
    destruct (String.eqb (v_ModelID r.1) (cv_ModelID input)) eqn:E; [| done]. simpl.
    rewrite (Hk i r Hi) by exact E. by rewrite orb_false_r. }
  revert Heq. generalize (rows (model_versions g)). induction l as [|r l IH]; intros Heq; [done |].
  simpl. rewrite Heq by left. f_equal. apply IH. intros r' Hr'. apply Heq. by right.
Qed.

(** What a good answer is: a pending DEV version under the label, in the table. *)
Definition cut_at (label : string) (actor : Actor) (input : CreateVersionInput) (g : registry)
    (r : result ModelVersion rg_error) (g' : registry) : Prop :=
  exists v ev, r = Ok v /\ v_Version v = label /\ v_ModelID v = cv_ModelID input /\ Stage v = StageDev /\
    Status v = StatusPendingUpload /\ v_CreatedBy v = UserID actor /\
    g' = put_emitted ev (put_version v (cv_IdempotencyKey input) g) /\ Kind ev = EventVersionCreated /\ pe_Version ev = Some v.

Definition label_conflict (g : registry) (r : result ModelVersion rg_error) (g' : registry) : Prop :=
  exists e, r = Err e /\ errors_is e ErrWriteConflict = true /\ errors_is e ErrVersionExists = false /\ g' = g.

Lemma insert_finds actor input m now g : storable input g -> is_Some (models g !! cv_ModelID input) ->
  forall k more c w r s', 0 <= c -> c + Z.of_nat k <= int64_max ->
  (forall j, (j < k)%nat -> taken g (cv_ModelID input) (Itoa (c + Z.of_nat j)) = true) ->
  taken g (cv_ModelID input) (Itoa (c + Z.of_nat k)) = false ->
  run (insert_version more actor input m true now (Itoa c)) {| s_world := w; s_db := g |} = (r, s') ->
  if (k <=? more)%nat then cut_at (Itoa (c + Z.of_nat k)) actor input g r (s_db s') else label_conflict g r (s_db s').
Proof.
  intros Hst Hm. induction k as [|k IH]; intros more c w r s' Hc Hmax Htaken Hfree;
    (assert (forall v, v_ModelID v = cv_ModelID input -> v_Metrics v = cv_Metrics input -> model_versions g !! v_ID v = None ->
       RegistryStore.CreateVersion v (cv_IdempotencyKey input) g =
       if taken g (cv_ModelID input) (v_Version v) then (Err (Sentinel ErrWriteConflict), g)
       else (Ok v, put_version v (cv_IdempotencyKey input) g)) as Hout by (intros v H1 H2 H3; by apply create_outcome)).
  - destruct more; cbn [insert_version]; rewrite run_ask_at, run_transact_works, Hout by (done || apply (st_ids _ _ Hst));
      rewrite Z.add_0_r in *; cbn [v_Version]; rewrite Hfree; cbn [fst snd]; intros [= <- <-];
      eexists _, _; repeat (split; [reflexivity |]); reflexivity.
  - pose proof (Htaken 0%nat ltac:(lia)) as H0'. rewrite Z.add_0_r in H0'.
    destruct more as [|more]; cbn [insert_version]; rewrite run_ask_at, run_transact_works, Hout by (done || apply (st_ids _ _ Hst));
      cbn [v_Version]; rewrite H0'; cbn [fst snd errors_is negb];
      rewrite bool_decide_true by done; cbn [orb negb].
    + intros [= <- <-]. eexists. split; [reflexivity |]. done.
    + rewrite Atoi_Itoa by lia. rewrite wrap64_id by (unfold in_int64, int64_min, int64_max in *; lia).
      intros Hr. apply IH in Hr; [| lia | lia | |].
      * cbn [Nat.leb]. by replace (c + Z.of_nat (S k)) with (c + 1 + Z.of_nat k) by lia.
      * intros j Hj. replace (c + 1 + Z.of_nat j) with (c + Z.of_nat (S j)) by lia. apply Htaken. lia.
      * by replace (c + 1 + Z.of_nat k) with (c + Z.of_nat (S k)) by lia.
Qed.

Lemma looked_up input g : storable input g ->
  (if String.eqb (cv_IdempotencyKey input) "" then Err (Sentinel ErrRecordNotFound)
   else LookupVersionByIdempotencyKey (cv_ModelID input) (cv_IdempotencyKey input) g) = Err (Sentinel ErrRecordNotFound).
Proof.
  intros [Hk _ _]. destruct (String.eqb_spec (cv_IdempotencyKey input) "") as [| Hne]; [done |].
  unfold LookupVersionByIdempotencyKey. apply String.eqb_neq in Hne. rewrite Hne.
  destruct (List.find _ _) as [r|] eqn:Ef; [| done].
  apply find_rows in Ef as [[Hm Hr]%andb_true_iff [i Hi]]. specialize (Hk i r Hi Hm). unfold same_key in Hk.
  apply String.eqb_eq in Hr. by rewrite Hne, Hr, String.eqb_refl in Hk.
Qed.

(** An unpinned version always gets the first free number. On a database that
    answers, CreateVersion without a label tries the count of the model's versions plus
    one, and on: the first label that no version of the model has is at most the count
    away, whatever labels clients pinned. If it is among the first 101 the new DEV and
    PENDING version gets it, with one event; otherwise the answer is a write conflict
    and nothing changed. The answer is never ErrVersionExists. *)
Theorem auto_label_first_free actor input g m mk n w r s' :
  storable input g -> blank (cv_ModelID input) = false -> TrimSpace (cv_Version input) = "" ->
  models g !! cv_ModelID input = Some (m, mk) -> m_Team m = Team actor -> IsArchived m = false ->
  CountVersions (cv_ModelID input) g = Ok n -> n + n + 1 <= int64_max ->
  run (CreateVersion actor input) {| s_world := w; s_db := g |} = (r, s') ->
  exists k, Z.of_nat k <= n /\ taken g (cv_ModelID input) (nth_label n k) = false /\
    (forall j, (j < k)%nat -> taken g (cv_ModelID input) (nth_label n j) = true) /\
    if (k <=? maxAutoLabelAttempts)%nat then cut_at (nth_label n k) actor input g r (s_db s')
    else label_conflict g r (s_db s').
Proof.
  intros Hst Hb Hpin Hm Ht Ha Hn Hmax Hr. destruct (some_label_free g (cv_ModelID input) n Hn Hmax) as (k & Hk & Hfree & Htaken).
  exists k. split; [done |]. split; [done |]. split; [done |].
  assert (0 <= n) as Hn0 by (unfold CountVersions in Hn; injection Hn as <-; lia).
  unfold CreateVersion in Hr. rewrite Hb, Hpin in Hr. change (String.eqb "" "") with true in Hr. cbv zeta in Hr.
  assert (exists w1, run (do! m := loadOwnedModel actor (cv_ModelID input) in try m id (fun m =>
      if IsArchived m then Ret (Err (Sentinel ErrModelArchived)) else
      do! candidate := (do! n := query (fun _ => CountVersions (cv_ModelID input)) in
        try n (Wrap "count versions") (fun n => Ret (Ok (Itoa (wrap64 (n + 1)))))) in
      try candidate id (fun candidate => do! now := ask Now in
        insert_version maxAutoLabelAttempts actor input m true now candidate))) {| s_world := w1; s_db := g |} = (r, s')) as [w1 Hr1].
  { pose proof (looked_up input g Hst) as Hlook. destruct (String.eqb (cv_IdempotencyKey input) ""); [by exists w |].
    rewrite run_query_works, Hlook in Hr by exact Hworks. by eexists. }
  clear Hr. unfold loadOwnedModel in Hr1. rewrite run_bind, run_query_works in Hr1 by exact Hworks.
  unfold RegistryStore.GetModel, one_row in Hr1. rewrite Hm, Ht, String.eqb_refl in Hr1. cbn [negb run try] in Hr1.
  rewrite Ha, run_bind, run_query_works, Hn in Hr1 by exact Hworks. cbn [run try] in Hr1. rewrite run_ask_at in Hr1.
  rewrite wrap64_id in Hr1 by (unfold in_int64, int64_min, int64_max in *; lia).
  unfold nth_label in *. eapply insert_finds; [exact Hst | by eexists | lia | lia | exact Htaken | exact Hfree | exact Hr1].
Qed.
End labels.

(** The replay of a version's key is not gated by team. CreateVersion looks the key
    up before it loads the model: whoever sends a model's id with a key that was used
    for it, of whatever team, is answered the version that the key created. *)
Theorem create_replay_ignores_team `{Outside W} actor input (g : registry) id v w r s' : reliable (W := W) ->
  registry_ok g -> model_versions g !! id = Some (v, cv_IdempotencyKey input) -> v_ModelID v = cv_ModelID input ->
  cv_IdempotencyKey input <> "" -> blank (cv_ModelID input) = false ->
  run (CreateVersion actor input) {| s_world := w; s_db := g |} = (r, s') -> r = Ok v /\ s_db s' = g.
Proof.
  intros Hw Hok Hv Hm Hne Hb. unfold CreateVersion. rewrite Hb. apply String.eqb_neq in Hne as Hne'. rewrite Hne'.
  rewrite run_query_works by exact Hw. unfold LookupVersionByIdempotencyKey. rewrite Hne'.
  destruct (List.find _ _) as [[v' k']|] eqn:Ef.
  - apply find_rows in Ef as [[Hm'%String.eqb_eq Hk'%String.eqb_eq]%andb_true_iff [j Hj]]. simpl in *.
    intros [= <- <-]. split; [| done]. assert (id = j) as <-; [| congruence].
    apply (ok_versions _ Hok id j v _ (v', k') Hv Hj). unfold version_clash, same_key. simpl.
    by rewrite Hm', Hm, Hk', !String.eqb_refl, Hne', orb_true_r.
  - exfalso. assert (In (v, cv_IdempotencyKey input) (rows (model_versions g))) as Hin
      by (apply list_elem_of_In, elem_of_rows; by exists id).
    apply (find_none _ _ Ef) in Hin. simpl in Hin. by rewrite Hm, !String.eqb_refl in Hin.
Qed.

(** ** Concrete requests *)

(** A second replica, whose ids are unlike those of the first. *)
#[export] Instance replica_outside : Outside nat := {|
  Now w := (2000, S w); NewID w := ("new-" +:+ pretty w, S w); link w := (Works, S w) |}.

Lemma replica_reliable : reliable (W := nat).
Proof. by intros w. Qed.

(** Two pinned labels that the numbering will run into, and a keyed version. *)
Definition pinned : list request :=
  [QRegister ann (register "net" ""); QCreate ann (cut "id-1" "2" ""); QCreate ann (cut "id-1" " 3 " "k9")].
Definition pinned_run := run_all (map serve pinned) start.

Definition pinned_tables : registry := Eval vm_compute in s_db pinned_run.2.
Definition unpinned : CreateVersionInput := cut "id-1" "" "k10".

Lemma storable_check (g : registry) :
  forallb (fun r => negb (of_model "id-1" r) || negb (same_key "k10" r.2)) (rows (model_versions g)) = true ->
  forallb (fun kv => String.prefix "id" kv.1) (map_to_list (model_versions g)) = true -> storable (W := nat) unpinned g.
Proof.
  intros Hkeys Hids. constructor.
  - intros id r Hid Hm. change (of_model "id-1" r = true) in Hm. change (same_key "k10" r.2 = false).
    assert (In r (rows (model_versions g))) as Hin by (apply list_elem_of_In, elem_of_rows; by exists id).
    pose proof (proj1 (forallb_forall _ _) Hkeys r Hin) as Hr. cbv beta in Hr. rewrite Hm in Hr. by apply negb_true_iff.
  - reflexivity.
  - intros w. destruct (model_versions g !! _) as [x|] eqn:E; [| done].
    apply elem_of_map_to_list, list_elem_of_In in E. by pose proof (proj1 (forallb_forall _ _) Hids _ E).
Qed.

Lemma unpinned_storable : storable (W := nat) unpinned pinned_tables.
Proof. apply storable_check; by vm_compute. Qed.

Definition unpinned_run := run (CreateVersion ann unpinned) {| s_world := 0%nat; s_db := pinned_tables |}.

Lemma auto_label_first_free_witness :
  exists v, unpinned_run.1 = Ok v /\ v_Version v = "4" /\
  exists k, (taken pinned_tables "id-1" (nth_label 2 k) = false) /\ cut_at (nth_label 2 k) ann unpinned pinned_tables unpinned_run.1 (s_db unpinned_run.2).
Proof.
  destruct unpinned_run as [r s'] eqn:Er. pose proof Er as Er'. vm_compute in Er'. injection Er' as <- _. eexists.
  split; [reflexivity |]. split; [reflexivity |].
  destruct (models pinned_tables !! "id-1") as [[m mk]|] eqn:Em; [| vm_compute in Em; discriminate Em].
  assert (m_Team m = "a" /\ IsArchived m = false) as [Ht Ha] by (vm_compute in Em; injection Em as <- _; split; reflexivity).
  destruct (auto_label_first_free (W := nat) replica_reliable ann unpinned pinned_tables m mk 2 0%nat _ s'
    unpinned_storable eq_refl eq_refl Em Ht Ha ltac:(vm_compute; reflexivity) ltac:(vm_compute; discriminate) Er) as (k & Hk & Hf & _ & Hc).
  exists k. split; [exact Hf |]. destruct k as [|[|[|k]]]; [exact Hc | exact Hc | exact Hc | exfalso; clear -Hk; lia].
Defined.

(** bob is told about ann's version. *)
Lemma create_replay_ignores_team_witness : exists v,
  (run (CreateVersion bob (cut "id-1" "" "k9")) {| s_world := 0%nat; s_db := pinned_tables |}).1 = Ok v /\ v_CreatedBy v = "ann".
Proof.
  destruct (model_versions pinned_tables !! "id-10") as [[v key]|] eqn:Ev; [| vm_compute in Ev; discriminate Ev].
  assert (key = "k9" /\ v_CreatedBy v = "ann" /\ v_ModelID v = "id-1") as (-> & Hb & Hm) by (vm_compute in Ev; injection Ev as <- <-; repeat split; reflexivity).
  destruct (run (CreateVersion bob (cut "id-1" "" "k9")) {| s_world := 0%nat; s_db := pinned_tables |}) as [r s'] eqn:Er.
  exists v. split; [| exact Hb].
  refine (proj1 (create_replay_ignores_team bob (cut "id-1" "" "k9") pinned_tables "id-10" v 0%nat r s' replica_reliable _ Ev Hm _ eq_refl Er)).
  - assert (pinned_tables = s_db pinned_run.2) as -> by (vm_compute; reflexivity).
    exact (kr_ok _ _ _ (proj1 (served pinned start _ _ empty_ok (run_all_par _ _))) empty_ok).
  - discriminate.
Defined.

(** ** A promotion whose acknowledgement is lost *)

(** The link loses the acknowledgement of the swap only. *)
#[export] Instance losing_outside : Outside N := {|
  Now w := (3000, (w + 1)%N); NewID w := ("x", (w + 1)%N); link w := ((if (w =? 4)%N then AckLost else Works), (w + 1)%N) |}.

Definition ready_tables : registry :=
  s_db (run_all (map serve (setup ++ [QReady ann (ready "id-7" "")])) start).2.
Definition retried := run_all (map serve
  [QPromote ann (to_stage "id-7" StageStaging "p1"); QPromote ann (to_stage "id-7" StageStaging "p1")]) {| s_world := 0%N; s_db := ready_tables |}.

(** The event of a promotion can be lost for good: when the swap commits and its
    acknowledgement is lost, the retry finds the version in its stage, answers success
    and emits nothing. *)
Lemma promotion_event_lost :
  map is_ok retried.1 = [false; true] /\
  stages (s_db retried.2) = [("id-7", StageStaging, StatusReady); ("id-12", StageDev, StatusPendingUpload)] /\
  forallb (fun ev => negb (bool_decide (Kind ev = EventModelPromoted))) (emitted (s_db retried.2)) = true.
Proof. split; [| split]; by vm_compute. Qed.
