(* ===== verification/FeatureModel.v ===== *)
(** * The feature store: its data, its folds and its checks

    [services/feature-store/internal/domain]: the data and the pure folds of
    [models.go], the errors of [errors.go] and [ports.go], the inputs of
    [featurestore_service.go], and the validation and page assembly of
    [featurestore_service_impl.go]. A [float64] is its 64 bits with the sign of a
    zero cleared. *)

From S2P Require Import Prelude.
Open Scope fp_scope.

(** ** Errors *)

Inductive fs_sentinel :=
| ErrValidation | ErrViewNotFound | ErrViewDeleted | ErrSchemaViolation | ErrViewNameConflict
| ErrAsOfRequired | ErrBatchTooLarge | ErrEventLogNotFound.

#[export] Instance fs_sentinels : Sentinels fs_sentinel.
Proof. refine {| sentinel_wraps _ := None |}. solve_decision. Defined.

Abbreviation fs_error := (error fs_sentinel).

Definition MaxBatchSize : nat := 1000.
Definition DefaultPageSize : Z := 20.
Definition MaxPageSize : Z := 100.

(** ** Data (models.go) *)

Inductive FeatureValueType :=
| FeatureTypeUnspecified | FeatureTypeInt64 | FeatureTypeDouble | FeatureTypeString | FeatureTypeBool
| FeatureTypeTimestamp | FeatureTypeDoubleList | FeatureTypeStruct.

#[export] Instance FeatureValueType_eq_dec : EqDecision FeatureValueType.
Proof. solve_decision. Defined.

Record Entity := { en_Name : string; JoinKey : string; en_Description : string }.

#[export] Instance Entity_eq_dec : EqDecision Entity.
Proof. solve_decision. Defined.

Record FeatureSpec := { sp_Name : string; ValueType : FeatureValueType; sp_Description : string; Dimension : Z }.

Record FeatureView := {
  fv_ID : string; fv_Name : string; fv_Description : string; fv_Entity : Entity; fv_Features : list FeatureSpec;
  fv_SchemaVersion : Z; fv_OwnerUserID : string; fv_OwnerTeam : string;
  fv_CreatedAt : time; fv_UpdatedAt : time; fv_DeletedAt : time;
}.

Definition IsDeleted (v : FeatureView) : bool := negb (time_is_zero (fv_DeletedAt v)).

Definition specByName (name : string) (specs : list FeatureSpec) : option FeatureSpec :=
  List.find (fun s => String.eqb (sp_Name s) name) specs.

(** What a [map[string]any] of a decoded protobuf struct holds. *)
Inductive any :=
| ANil | ABool (b : bool) | ANumber (x : Z) | AString (s : string)
| AList (l : list any) | AMap (m : list (string * any)).

Record FeatureValue := {
  val_Kind : FeatureValueType; val_Int : Z; val_Double : Z; val_Str : string; val_Bool : bool;
  val_Time : time; val_List : list Z; val_Struct : list (string * any);
}.

Definition no_value : FeatureValue := {|
  val_Kind := FeatureTypeUnspecified; val_Int := 0; val_Double := 0; val_Str := ""; val_Bool := false;
  val_Time := 0; val_List := []; val_Struct := [] |}.

Abbreviation values := (gmap string FeatureValue).

Record FeatureRow := { row_EntityID : string; row_Values : values; row_EventTime : time }.

Inductive EventType := FeatureEventViewDefined | FeatureEventValuesWritten | FeatureEventViewDeleted.

#[export] Instance EventType_eq_dec : EqDecision EventType.
Proof. solve_decision. Defined.

Record ViewDefinition := {
  vd_ID : string; vd_Name : string; vd_Description : string; vd_Entity : Entity; vd_Features : list FeatureSpec;
  vd_SchemaVersion : Z; vd_OwnerUserID : string; vd_OwnerTeam : string;
}.

Record FeatureEvent := {
  ev_ID : string; ev_Type : EventType; ev_View : string; ev_Version : Z; ev_EntityID : string;
  ev_Values : values; ev_EventTime : time; ev_ViewDef : option ViewDefinition; ev_AppendedAt : time;
}.

Record FeatureVector := {
  vec_EntityID : string; vec_Values : values; vec_AsOfVersion : Z; vec_EventTime : time; vec_SchemaVersion : Z;
}.

(** ** The folds *)

Definition version_le (a b : FeatureEvent) : Prop := ev_Version a <= ev_Version b.
#[export] Instance version_le_dec : RelDecision version_le.
Proof. intros a b. unfold version_le. apply _. Defined.
#[export] Instance version_le_trans : Transitive version_le.
Proof. intros a b c. unfold version_le. lia. Qed.
#[export] Instance version_le_total : Total version_le.
Proof. intros a b. unfold version_le. lia. Qed.

(** The versions of a log are distinct, so that the sort has one outcome. *)
Definition sortedByVersion (events : list FeatureEvent) : list FeatureEvent := merge_sort version_le events.

Definition is_write (e : FeatureEvent) : bool := bool_decide (ev_Type e = FeatureEventValuesWritten).

Definition vector_of (schemaVersion : Z) (e : FeatureEvent) : FeatureVector := {|
  vec_EntityID := ev_EntityID e; vec_Values := ev_Values e; vec_AsOfVersion := ev_Version e;
  vec_EventTime := ev_EventTime e; vec_SchemaVersion := schemaVersion |}.

Definition project_step (schemaVersion : Z) (out : gmap string FeatureVector) (e : FeatureEvent) : gmap string FeatureVector :=
  if is_write e then <[ev_EntityID e := vector_of schemaVersion e]> out else out.

Definition ProjectLatest (events : list FeatureEvent) (schemaVersion : Z) : gmap string FeatureVector :=
  foldl (project_step schemaVersion) ∅ (sortedByVersion events).

Definition moreRecentAsOf (candidate current : FeatureEvent) : bool :=
  if time_after (ev_EventTime candidate) (ev_EventTime current) then true
  else if ev_EventTime candidate =? ev_EventTime current then ev_Version current <? ev_Version candidate
  else false.

Definition as_of_step (asOf : time) (best : gmap string FeatureEvent) (e : FeatureEvent) : gmap string FeatureEvent :=
  if negb (is_write e) then best
  else if time_after (ev_EventTime e) asOf then best
  else
    match best !! ev_EntityID e with
    | None => <[ev_EntityID e := e]> best
    | Some cur => if moreRecentAsOf e cur then <[ev_EntityID e := e]> best else best
    end.

Definition ProjectAsOf (events : list FeatureEvent) (asOf : time) (schemaVersion : Z) : gmap string FeatureVector :=
  vector_of schemaVersion <$> foldl (as_of_step asOf) ∅ events.

Definition no_view : FeatureView := {|
  fv_ID := ""; fv_Name := ""; fv_Description := ""; fv_Entity := {| en_Name := ""; JoinKey := ""; en_Description := "" |};
  fv_Features := []; fv_SchemaVersion := 0; fv_OwnerUserID := ""; fv_OwnerTeam := "";
  fv_CreatedAt := 0; fv_UpdatedAt := 0; fv_DeletedAt := 0 |}.

Definition fold_step (acc : FeatureView * bool) (e : FeatureEvent) : FeatureView * bool :=
  let '(view, defined) := acc in
  match ev_Type e with
  | FeatureEventViewDefined =>
      match ev_ViewDef e with
      | None => (view, defined)
      | Some d =>
          ({| fv_ID := vd_ID d; fv_Name := vd_Name d; fv_Description := vd_Description d; fv_Entity := vd_Entity d;
              fv_Features := vd_Features d; fv_SchemaVersion := vd_SchemaVersion d;
              fv_OwnerUserID := vd_OwnerUserID d; fv_OwnerTeam := vd_OwnerTeam d;
              fv_CreatedAt := (if defined then fv_CreatedAt view else ev_EventTime e);
              fv_UpdatedAt := ev_EventTime e; fv_DeletedAt := fv_DeletedAt view |}, true)
      end
  | FeatureEventViewDeleted =>
      ({| fv_ID := fv_ID view; fv_Name := fv_Name view; fv_Description := fv_Description view; fv_Entity := fv_Entity view;
          fv_Features := fv_Features view; fv_SchemaVersion := fv_SchemaVersion view;
          fv_OwnerUserID := fv_OwnerUserID view; fv_OwnerTeam := fv_OwnerTeam view;
          fv_CreatedAt := fv_CreatedAt view; fv_UpdatedAt := ev_EventTime e; fv_DeletedAt := ev_EventTime e |}, defined)
  | FeatureEventValuesWritten => (view, defined)
  end.

Definition foldView (events : list FeatureEvent) : FeatureView * bool :=
  foldl fold_step (no_view, false) (sortedByVersion events).

(** ** Inputs and results (featurestore_service.go) *)

Record Principal := { UserID : string; Team : string; Scopes : list string }.

Record ListOptions := { PageSize : Z; PageToken : string }.

Record DefineFeatureViewInput := {
  df_Name : string; df_Description : string; df_Entity : Entity; df_Features : list FeatureSpec; df_IdempotencyKey : string;
}.

Record WriteFeaturesInput := { wf_FeatureViewID : string; wf_Rows : list FeatureRow; wf_IdempotencyKey : string }.

Record WriteFeaturesResult := { WrittenCount : Z; WrittenThroughVersion : Z; AffectedEntityIDs : list string }.

Record GetOnlineFeaturesInput := { go_FeatureViewID : string; go_EntityIDs : list string; go_FeatureNames : list string }.

Record GetHistoricalFeaturesInput := {
  gh_FeatureViewID : string; gh_EntityIDs : list string; gh_AsOf : time; gh_FeatureNames : list string; gh_Pagination : ListOptions;
}.

Record FeatureVectorPage := { Vectors : list FeatureVector; MissingEntityIDs : list string; NextPageToken : string }.

Record RebuildProgress := { EventsReplayed : Z; TotalEvents : Z; CurrentFeatureViewID : string; Done : bool }.

Inductive RebuildTarget := RebuildTargetAll | RebuildTargetOnline | RebuildTargetOffline.

#[export] Instance RebuildTarget_eq_dec : EqDecision RebuildTarget.
Proof. solve_decision. Defined.

Record RebuildViewsInput := { rb_FeatureViewID : string; rb_Target : RebuildTarget }.

(** ** Checks and page assembly (featurestore_service_impl.go) *)

Definition invalid (text : string) : fs_error := Wrap text (Sentinel ErrValidation).
Definition violation (text : string) : fs_error := Wrap text (Sentinel ErrSchemaViolation).

(** The loop over the specs; [seen] are the names before. *)
Fixpoint validate_specs (seen : list string) (specs : list FeatureSpec) : result unit fs_error :=
  match specs with
  | [] => Ok tt
  | f :: specs =>
      if String.eqb (sp_Name f) "" then Err (invalid "feature name is required")
      else if bool_decide (sp_Name f ∈ seen) then Err (invalid "duplicate feature name")
      else if bool_decide (ValueType f = FeatureTypeUnspecified) then Err (invalid "UNSPECIFIED value_type")
      else if Dimension f <? 0 then Err (invalid "negative dimension")
      else if (0 <? Dimension f) && negb (bool_decide (ValueType f = FeatureTypeDoubleList)) then
        Err (invalid "declares a dimension but is not DOUBLE_LIST")
      else validate_specs (sp_Name f :: seen) specs
  end.

Definition validateDefineInput (input : DefineFeatureViewInput) : result unit fs_error :=
  if String.eqb (df_Name input) "" then Err (invalid "view name is required")
  else if String.eqb (en_Name (df_Entity input)) "" || String.eqb (JoinKey (df_Entity input)) "" then
    Err (invalid "entity name and join_key are required")
  else if bool_decide (df_Features input = []) then Err (invalid "at least one feature spec is required")
  else validate_specs [] (df_Features input).

(** The loop over the values in the order [vs] of the map's enumeration. *)
Fixpoint validate_values (specs : list FeatureSpec) (vs : list (string * FeatureValue)) : result unit fs_error :=
  match vs with
  | [] => Ok tt
  | (name, v) :: vs =>
      match specByName name specs with
      | None => Err (violation "not in the view schema")
      | Some spec =>
          if negb (bool_decide (val_Kind v = ValueType spec)) then Err (violation "wrong type")
          else if bool_decide (ValueType spec = FeatureTypeDoubleList) && (0 <? Dimension spec) &&
                  negb (Z.of_nat (length (val_List v)) =? Dimension spec) then Err (violation "wrong dimension")
          else validate_values specs vs
      end
  end.

Definition validateRow (view : FeatureView) (row : FeatureRow) (vs : list (string * FeatureValue)) : result unit fs_error :=
  if String.eqb (row_EntityID row) "" then Err (violation "entity_id is required")
  else if bool_decide (row_Values row = ∅) then Err (violation "row has no feature values")
  else validate_values (fv_Features view) vs.

Fixpoint dedupe_from (seen : gset string) (l : list string) : list string :=
  match l with
  | [] => []
  | s :: l => if bool_decide (s ∈ seen) then dedupe_from seen l else s :: dedupe_from ({[s]} ∪ seen) l
  end.

Definition dedupeStrings (l : list string) : list string := dedupe_from ∅ l.

Definition projectColumns (vs : values) (names : list string) : values :=
  foldl (fun out n => match vs !! n with Some v => <[n := v]> out | None => out end) ∅ names.

Definition narrowed (names : list string) (v : FeatureVector) : FeatureVector :=
  match names with
  | [] => v
  | _ => {| vec_EntityID := vec_EntityID v; vec_Values := projectColumns (vec_Values v) names;
            vec_AsOfVersion := vec_AsOfVersion v; vec_EventTime := vec_EventTime v; vec_SchemaVersion := vec_SchemaVersion v |}
  end.

Fixpoint assemblePage (requested : list string) (found : gmap string FeatureVector) (featureNames : list string)
    (nextToken : string) : FeatureVectorPage :=
  match requested with
  | [] => {| Vectors := []; MissingEntityIDs := []; NextPageToken := nextToken |}
  | id :: requested =>
      let page := assemblePage requested found featureNames nextToken in
      match found !! id with
      | None => {| Vectors := Vectors page; MissingEntityIDs := id :: MissingEntityIDs page; NextPageToken := nextToken |}
      | Some v => {| Vectors := narrowed featureNames v :: Vectors page; MissingEntityIDs := MissingEntityIDs page; NextPageToken := nextToken |}
      end
  end.

Definition clampPage (opts : ListOptions) : ListOptions :=
  let n := if PageSize opts <=? 0 then DefaultPageSize else PageSize opts in
  {| PageSize := (if MaxPageSize <? n then MaxPageSize else n); PageToken := PageToken opts |}.

(** ** Facts about the folds *)

(** A write of the entity, and one that a read as of an instant may see. *)
Definition write_to (entity : string) (e : FeatureEvent) : bool := is_write e && String.eqb (ev_EntityID e) entity.
Definition visible (asOf : time) (entity : string) (e : FeatureEvent) : bool :=
  write_to entity e && negb (time_after (ev_EventTime e) asOf).

Definition versions_distinct (events : list FeatureEvent) : Prop := NoDup (ev_Version <$> events).

Lemma same_version events a b :
  versions_distinct events -> a ∈ events -> b ∈ events -> ev_Version a = ev_Version b -> a = b.
Proof.
  unfold versions_distinct. intros Hd (i & Hi)%list_elem_of_lookup (j & Hj)%list_elem_of_lookup He.
  assert (i = j) as -> by (apply (NoDup_lookup _ i j (ev_Version a) Hd); rewrite list_lookup_fmap; [by rewrite Hi | by rewrite Hj, He]).
  congruence.
Qed.

Lemma sorted_log events : StronglySorted version_le events -> versions_distinct events -> sortedByVersion events = events.
Proof.
  intros Hs Hd. unfold sortedByVersion. apply (merge_sort_id version_le); [done |]. unfold version_le. intros a b Ha Hb H1 H2. apply (same_version events); [done..| lia].
Qed.

Lemma project_lookup sv l out entity :
  foldl (project_step sv) out l !! entity =
  match list.last (filter (fun e => Is_true (write_to entity e)) l) with
  | Some e => Some (vector_of sv e)
  | None => out !! entity
  end.
Proof.
  induction l as [|e l IH] using rev_ind; [done |]. rewrite foldl_app, list.filter_app. cbn [foldl].
  rewrite filter_cons, filter_nil. unfold project_step at 1, write_to. destruct (is_write e) eqn:Ew; cbn [andb].
  - destruct (String.eqb_spec (ev_EntityID e) entity) as [<- | Hne].
    + rewrite decide_True by done. rewrite last_snoc, lookup_insert_eq. done.
    + rewrite decide_False by (by intros []). rewrite app_nil_r, lookup_insert_ne by done. exact IH.
  - rewrite decide_False by (by intros []). rewrite app_nil_r. exact IH.
Qed.

Lemma last_sorted_max l e :
  StronglySorted version_le l -> list.last l = Some e -> forall e', e' ∈ l -> ev_Version e' <= ev_Version e.
Proof.
  intros Hs Hl e' Hin. apply last_Some in Hl as [l' ->].
  apply elem_of_app in Hin as [Hin | Hin]; [| apply list_elem_of_singleton in Hin as ->; lia].
  apply list_elem_of_lookup in Hin as [i Hi].
  apply (StronglySorted_lt _ _ i (length l') e' e Hs).
  - by apply lookup_app_l_Some.
  - by rewrite lookup_app_r, Nat.sub_diag.
  - by apply lookup_lt_Some in Hi.
Qed.

Lemma StronglySorted_filter {A} (R : relation A) (P : A -> Prop) `{!forall x, Decision (P x)} l :
  StronglySorted R l -> StronglySorted R (filter P l).
Proof.
  induction 1 as [| a l Hs IH Ha]; [constructor |]. rewrite filter_cons. destruct (decide (P a)); [| done].
  constructor; [done | by apply Forall_filter_sub].
Qed.

(** The latest vector is that of the write with the greatest version. *)
Lemma latest_spec events sv entity v : versions_distinct events ->
  ProjectLatest events sv !! entity = Some v <->
  exists e, e ∈ events /\ write_to entity e = true /\ v = vector_of sv e /\
    forall e', e' ∈ events -> write_to entity e' = true -> ev_Version e' <= ev_Version e.
Proof.
  intros Hd. unfold ProjectLatest. rewrite project_lookup, lookup_empty. unfold sortedByVersion.
  pose proof (merge_sort_Permutation version_le events) as Hp.
  assert (StronglySorted version_le (merge_sort version_le events)) as Hs by (apply StronglySorted_merge_sort; apply _).
  revert Hp Hs. generalize (merge_sort version_le events) as l. intros l Hp Hs.
  pose proof (StronglySorted_filter _ (fun e => Is_true (write_to entity e)) l Hs) as Hf.
  assert (forall e, e ∈ filter (fun e => Is_true (write_to entity e)) l <-> e ∈ events /\ write_to entity e = true) as Hin.
  { intros e. rewrite list_elem_of_filter, Is_true_true, Hp. tauto. }
  destruct (list.last _) as [e|] eqn:El.
  - pose proof (last_sorted_max _ _ Hf El) as Hmax.
    assert (e ∈ filter (fun e => Is_true (write_to entity e)) l) as He by (apply last_Some in El as [l' ->]; apply elem_of_app; right; apply list_elem_of_here).
    apply Hin in He as [He Hw]. split.
    + intros [= <-]. exists e. split; [done |]. split; [done |]. split; [done |]. intros e' H1 H2. by apply Hmax, Hin.
    + intros (e' & He' & Hw' & -> & Hmax'). f_equal. f_equal. apply (same_version events); [done.. |].
      apply (anti_symm Z.le); [by apply Hmax' | by apply Hmax, Hin].
  - split; [done |]. intros (e & He & Hw & _). apply last_None in El.
    assert (e ∈ filter (fun e => Is_true (write_to entity e)) l) as H1 by (by apply Hin). rewrite El in H1. by apply not_elem_of_nil in H1.
Qed.

Lemma latest_None events sv entity :
  ProjectLatest events sv !! entity = None <-> forall e, e ∈ events -> write_to entity e = false.
Proof.
  unfold ProjectLatest. rewrite project_lookup, lookup_empty. unfold sortedByVersion. split.
  - intros Hl e He. destruct (list.last _) eqn:El; [done |]. apply last_None in El. apply not_true_is_false. intros Hw.
    assert (e ∈ filter (fun e => Is_true (write_to entity e)) (merge_sort version_le events)) as H1.
    { rewrite list_elem_of_filter, Is_true_true, merge_sort_Permutation. done. }
    rewrite El in H1. by apply not_elem_of_nil in H1.
  - intros Hn. rewrite (filter_none _ (merge_sort version_le events)); [done |].
    intros e. rewrite merge_sort_Permutation, Is_true_true. intros He. by rewrite Hn.
Qed.

(** *** Point in time *)

Definition as_of_le (a b : FeatureEvent) : Prop :=
  ev_EventTime a < ev_EventTime b \/ ev_EventTime a = ev_EventTime b /\ ev_Version a <= ev_Version b.

#[export] Instance as_of_le_trans : Transitive as_of_le.
Proof. intros a b c. unfold as_of_le. lia. Qed.

Lemma moreRecentAsOf_spec c cur : if moreRecentAsOf c cur then as_of_le cur c else as_of_le c cur.
Proof.
  unfold moreRecentAsOf, as_of_le, time_after. destruct (Z.ltb_spec (ev_EventTime cur) (ev_EventTime c)); [lia |].
  destruct (Z.eqb_spec (ev_EventTime c) (ev_EventTime cur)); [| lia]. destruct (Z.ltb_spec (ev_Version cur) (ev_Version c)); lia.
Qed.

Lemma as_of_fold asOf entity l :
  match foldl (as_of_step asOf) ∅ l !! entity with
  | Some e => e ∈ l /\ visible asOf entity e = true /\ forall e', e' ∈ l -> visible asOf entity e' = true -> as_of_le e' e
  | None => forall e, e ∈ l -> visible asOf entity e = false
  end.
Proof.
  induction l as [|e l IH] using rev_ind; [cbn [foldl]; rewrite lookup_empty; intros e He; by apply not_elem_of_nil in He |]. rewrite foldl_app. cbn [foldl].
  set (best := foldl (as_of_step asOf) ∅ l) in *.
  assert (visible asOf entity e = false -> as_of_step asOf best e !! entity = best !! entity ->
    match as_of_step asOf best e !! entity with
    | Some m => m ∈ l ++ [e] /\ visible asOf entity m = true /\ forall e', e' ∈ l ++ [e] -> visible asOf entity e' = true -> as_of_le e' m
    | None => forall e', e' ∈ l ++ [e] -> visible asOf entity e' = false
    end) as Hkeep.
  { intros Hv ->. destruct (best !! entity) as [m|].
    - destruct IH as (Hm & Hvm & Hmax). split; [set_solver |]. split; [done |]. intros e' [He' | ->%list_elem_of_singleton]%elem_of_app Hv'; [by apply Hmax | congruence].
    - intros e' [He' | ->%list_elem_of_singleton]%elem_of_app; [by apply IH | done]. }
  unfold as_of_step in Hkeep |- *. unfold visible at 1 in Hkeep. unfold write_to at 1 in Hkeep.
  destruct (is_write e) eqn:Ew; cbn [negb andb] in *; [| by apply Hkeep].
  destruct (time_after (ev_EventTime e) asOf) eqn:Et; cbn [negb] in *; [apply Hkeep; [apply andb_false_r | done] |].
  destruct (String.eqb_spec (ev_EntityID e) entity) as [<- | Hne]; cbn [andb] in *.
  - clear Hkeep. assert (visible asOf (ev_EntityID e) e = true) as Hv by (unfold visible, write_to; by rewrite Ew, Et, String.eqb_refl).
    destruct (best !! ev_EntityID e) as [m|] eqn:Em.
    + destruct IH as (Hm & Hvm & Hmax). pose proof (moreRecentAsOf_spec e m) as Hmr.
      destruct (moreRecentAsOf e m); [rewrite lookup_insert_eq | rewrite Em]; (split; [set_solver |]); (split; [done |]);
        intros e' [He' | ->%list_elem_of_singleton]%elem_of_app Hv'.
      * etrans; [by apply Hmax | done].
      * right. lia.
      * by apply Hmax.
      * done.
    + rewrite lookup_insert_eq. split; [set_solver |]. split; [done |].
      intros e' [He' | ->%list_elem_of_singleton]%elem_of_app Hv'; [by rewrite IH in Hv' | right; lia].
  - apply Hkeep; [done |]. destruct (best !! ev_EntityID e) as [m|]; [destruct (moreRecentAsOf e m) |]; by rewrite ?lookup_insert_ne.
Qed.

(** A read as of an instant sees, per entity, the newest write that is not after it. *)
Lemma as_of_spec events asOf sv entity v : versions_distinct events ->
  ProjectAsOf events asOf sv !! entity = Some v <->
  exists e, e ∈ events /\ visible asOf entity e = true /\ v = vector_of sv e /\
    forall e', e' ∈ events -> visible asOf entity e' = true -> as_of_le e' e.
Proof.
  intros Hd. unfold ProjectAsOf. rewrite lookup_fmap. pose proof (as_of_fold asOf entity events) as Hf.
  destruct (foldl _ _ _ !! entity) as [m|]; simpl.
  - destruct Hf as (Hm & Hv & Hmax). split; [intros [= <-]; by exists m |].
    intros (e & He & Hve & -> & Hmax'). f_equal. f_equal. apply (same_version events); [done.. |].
    destruct (Hmax e He Hve), (Hmax' m Hm Hv); lia.
  - split; [done |]. intros (e & He & Hve & _). by rewrite Hf in Hve.
Qed.

Lemma as_of_None events asOf sv entity :
  ProjectAsOf events asOf sv !! entity = None <-> forall e, e ∈ events -> visible asOf entity e = false.
Proof.
  unfold ProjectAsOf. rewrite lookup_fmap. pose proof (as_of_fold asOf entity events) as Hf.
  destruct (foldl _ _ _ !! entity) as [m|]; simpl; [| done]. split; [done |]. intros Hn. destruct Hf as (Hm & Hv & _).
  by rewrite Hn in Hv.
Qed.

(** Late data aside, the past read as of an instant after every write is the latest. *)
Lemma as_of_latest events asOf sv : versions_distinct events ->
  (forall e, e ∈ events -> ev_EventTime e <= asOf) ->
  (forall a b, a ∈ events -> b ∈ events -> ev_Version a < ev_Version b -> ev_EventTime a <= ev_EventTime b) ->
  ProjectAsOf events asOf sv = ProjectLatest events sv.
Proof.
  intros Hd Hle Hmono. assert (forall e entity, e ∈ events -> visible asOf entity e = write_to entity e) as Hvis.
  { intros e entity He. unfold visible, time_after. rewrite (proj2 (Z.ltb_ge asOf (ev_EventTime e))) by (by apply Hle). apply andb_true_r. }
  apply map_eq. intros entity. apply option_eq. intros v. rewrite as_of_spec, latest_spec by done.
  split; intros (e & He & Hw & -> & Hmax); exists e; (split; [done |]).
  - rewrite Hvis in Hw by done. split; [done |]. split; [done |]. intros e' He' Hw'.
    destruct (Z.le_gt_cases (ev_Version e') (ev_Version e)); [done |].
    destruct (Hmax e' He') as [Ht | [Ht Hv]]; [by rewrite Hvis | | done]. pose proof (Hmono e e' He He'). lia.
  - rewrite Hvis by done. split; [done |]. split; [done |]. intros e' He' Hw'. rewrite Hvis in Hw' by done.
    pose proof (Hmax e' He' Hw') as Hv. destruct (decide (ev_Version e' = ev_Version e)) as [Heq |].
    + rewrite (same_version events e' e) by done. right. lia.
    + pose proof (Hmono e' e He' He ltac:(lia)). unfold as_of_le. lia.
Qed.

(** *** The view of a log *)

Definition defines (e : FeatureEvent) (d : ViewDefinition) : Prop :=
  ev_Type e = FeatureEventViewDefined /\ ev_ViewDef e = Some d.

(** What a view takes from its last definition. *)
Definition taken_from (d : ViewDefinition) (v : FeatureView) : Prop :=
  fv_ID v = vd_ID d /\ fv_Name v = vd_Name d /\ fv_Description v = vd_Description d /\ fv_Entity v = vd_Entity d /\
  fv_Features v = vd_Features d /\ fv_SchemaVersion v = vd_SchemaVersion d /\
  fv_OwnerUserID v = vd_OwnerUserID d /\ fv_OwnerTeam v = vd_OwnerTeam d.

Definition has_definition (e : FeatureEvent) : bool :=
  bool_decide (ev_Type e = FeatureEventViewDefined) && match ev_ViewDef e with Some _ => true | None => false end.

Lemma fold_definition l acc :
  let '(v, defined) := foldl fold_step acc l in
  match list.last (filter (fun e => Is_true (has_definition e)) l) with
  | Some e => defined = true /\ exists d, defines e d /\ taken_from d v
  | None => defined = acc.2 /\ forall d, taken_from d acc.1 -> taken_from d v
  end.
Proof.
  induction l as [|e l IH] using rev_ind; [destruct acc; by split |]. rewrite foldl_app, list.filter_app. cbn [foldl].
  destruct (foldl fold_step acc l) as [v defined]. rewrite filter_cons, filter_nil. unfold has_definition, fold_step at 1.
  destruct (ev_Type e) eqn:Et; cbn [bool_decide andb].
  - rewrite bool_decide_eq_true_2 by done. destruct (ev_ViewDef e) as [d|] eqn:Ed; cbn [andb].
    + rewrite decide_True by done. rewrite last_snoc. split; [done |]. exists d. split; [by split |]. done.
    + rewrite decide_False by (by intros []). by rewrite app_nil_r.
  - rewrite bool_decide_eq_false_2 by done. rewrite decide_False by (by intros []). by rewrite app_nil_r.
  - rewrite bool_decide_eq_false_2 by done. rewrite decide_False by (by intros []). rewrite app_nil_r.
    destruct (list.last _); [destruct IH as [Hd (d & Hdef & Ht)]; split; [done |]; by exists d | destruct IH as [Hd Ht]; by split].
Qed.

Lemma foldView_definition events v : foldView events = (v, true) ->
  exists e d, e ∈ events /\ defines e d /\ taken_from d v.
Proof.
  unfold foldView, sortedByVersion. intros Hf. pose proof (fold_definition (merge_sort version_le events) (no_view, false)) as Hd.
  rewrite Hf in Hd. destruct (list.last _) as [e|] eqn:El; [| by destruct Hd].
  destruct Hd as [_ (d & Hdef & Ht)]. exists e, d. split; [| done].
  assert (e ∈ filter (fun e => Is_true (has_definition e)) (merge_sort version_le events)) as He.
  { apply last_Some in El as [l' ->]. apply elem_of_app. right. apply list_elem_of_here. }
  rewrite list_elem_of_filter, merge_sort_Permutation in He. by destruct He.
Qed.

(** Only a deletion moves the deletion mark: no redefinition revives a view. *)
Lemma fold_deleted l acc : (forall e, e ∈ l -> ev_Type e <> FeatureEventViewDeleted) ->
  fv_DeletedAt (foldl fold_step acc l).1 = fv_DeletedAt acc.1.
Proof.
  revert acc. induction l as [|e l IH]; intros [v defined] Hl; [done |]. cbn [foldl]. rewrite IH by set_solver.
  specialize (Hl e ltac:(set_solver)). unfold fold_step. destruct (ev_Type e); [by destruct (ev_ViewDef e) | done..].
Qed.

(** ** Facts about the checks *)

Definition conforms (specs : list FeatureSpec) (name : string) (v : FeatureValue) : bool :=
  match specByName name specs with
  | None => false
  | Some spec =>
      bool_decide (val_Kind v = ValueType spec) &&
      negb (bool_decide (ValueType spec = FeatureTypeDoubleList) && (0 <? Dimension spec) &&
            negb (Z.of_nat (length (val_List v)) =? Dimension spec))
  end.

Lemma validate_values_spec specs vs :
  validate_values specs vs = Ok tt <-> forallb (fun nv => conforms specs nv.1 nv.2) vs = true.
Proof.
  induction vs as [|[name v] vs IH]; [done |]. cbn [validate_values forallb fst snd]. unfold conforms at 1.
  destruct (specByName name specs) as [spec|]; [| done].
  destruct (bool_decide (val_Kind v = ValueType spec)); cbn [negb andb]; [| done].
  destruct (bool_decide _ && _ && _); cbn [negb andb]; done.
Qed.

Lemma validate_values_error specs vs e : validate_values specs vs = Err e -> errors_is e ErrSchemaViolation = true.
Proof. induction vs as [|[name v] vs IH]; simpl; repeat case_match; intros ?; simplify_eq; auto. Qed.

(** A row that conforms to the specs; every value is of a declared feature and its type. *)
Definition row_typed (specs : list FeatureSpec) (vs : values) : Prop :=
  forall name v, vs !! name = Some v -> conforms specs name v = true.

Lemma validateRow_spec view row vs : vs ≡ₚ map_to_list (row_Values row) ->
  validateRow view row vs = Ok tt <->
  row_EntityID row <> "" /\ row_Values row <> ∅ /\ row_typed (fv_Features view) (row_Values row).
Proof.
  intros Hp. unfold validateRow. destruct (String.eqb_spec (row_EntityID row) ""); [split; [done | by intros []] |].
  case_bool_decide as He; [split; [done | by intros (_ & [] & _)] |]. rewrite validate_values_spec, forallb_forall.
  unfold row_typed. split.
  - intros Hall. split; [done |]. split; [done |]. intros name v Hv. apply (Hall (name, v)).
    apply list_elem_of_In. rewrite Hp. by apply elem_of_map_to_list.
  - intros (_ & _ & Hty) [name v] Hin. apply list_elem_of_In in Hin. rewrite Hp in Hin. by apply Hty, elem_of_map_to_list.
Qed.

Lemma validateRow_error view row vs e : validateRow view row vs = Err e -> errors_is e ErrSchemaViolation = true.
Proof. unfold validateRow. repeat case_match; intros He; simplify_eq/=; try done. by eapply validate_values_error. Qed.

Record schema_ok (specs : list FeatureSpec) : Prop := {
  so_distinct : NoDup (sp_Name <$> specs);
  so_specs : forall f, f ∈ specs -> sp_Name f <> "" /\ ValueType f <> FeatureTypeUnspecified /\ 0 <= Dimension f /\
    (0 < Dimension f -> ValueType f = FeatureTypeDoubleList);
}.

Lemma validate_specs_spec seen specs :
  validate_specs seen specs = Ok tt <-> schema_ok specs /\ forall f, f ∈ specs -> sp_Name f ∉ seen.
Proof.
  revert seen. induction specs as [|f specs IH]; intros seen; cbn [validate_specs].
  { split; [| done]. intros _. split; [constructor; [constructor |] |]; intros f Hf; by apply not_elem_of_nil in Hf. }
  assert (forall (P : Prop), (P -> False) -> forall (r : result unit fs_error), r <> Ok tt -> r = Ok tt <-> P) as Hno by (intros; split; [done | tauto]).
  destruct (String.eqb_spec (sp_Name f) "").
  { apply Hno; [| done]. intros [[_ Hs] _]. by destruct (Hs f (list_elem_of_here _ _)). }
  case_bool_decide as Hseen.
  { apply Hno; [| done]. intros [_ Hs]. by destruct (Hs f (list_elem_of_here _ _)). }
  case_bool_decide as Hty.
  { apply Hno; [| done]. intros [[_ Hs] _]. by destruct (Hs f (list_elem_of_here _ _)) as (_ & ? & _). }
  destruct (Z.ltb_spec (Dimension f) 0).
  { apply Hno; [| done]. intros [[_ Hs] _]. destruct (Hs f (list_elem_of_here _ _)) as (_ & _ & ? & _). lia. }
  destruct ((0 <? Dimension f) && negb (bool_decide (ValueType f = FeatureTypeDoubleList))) eqn:Ed.
  { apply Hno; [| done]. intros [[_ Hs] _]. destruct (Hs f (list_elem_of_here _ _)) as (_ & _ & _ & Hd). bool_to_prop. tauto. }
  rewrite IH. split.
  - intros [[Hnd Hs] Hsn]. split; [constructor |].
    + cbn [fmap list_fmap]. apply list.NoDup_cons. split; [| done]. intros (g & Hg & Hin)%list_elem_of_fmap. apply (Hsn g Hin). rewrite <- Hg. set_solver.
    + intros g [-> | Hg]%elem_of_cons; [| by apply Hs]. split; [done |]. split; [done |]. split; [lia |]. intros Hpos.
      rewrite (proj2 (Z.ltb_lt 0 _) Hpos) in Ed. bool_to_prop. cbn [andb] in Ed. by apply negb_false_iff, bool_decide_eq_true in Ed.
    + intros g [-> | Hg]%elem_of_cons; [done |]. intros Hin. apply (Hsn g Hg). set_solver.
  - intros [[Hnd Hs] Hsn]. cbn [fmap list_fmap] in Hnd. apply list.NoDup_cons in Hnd as [Hf Hnd]. split; [split; [done | set_solver] |].
    intros g Hg [Heq | Hin]%elem_of_cons; [| by apply (Hsn g); [set_solver |]]. apply Hf. rewrite <- Heq. by apply list_elem_of_fmap_2.
Qed.

(** ** Facts about pages *)

Lemma page_vectors requested found names token :
  Vectors (assemblePage requested found names token) = narrowed names <$> omap (fun id => found !! id) requested.
Proof.
  induction requested as [|id requested IH]; [done |]. cbn [assemblePage omap list_omap].
  destruct (found !! id); cbn [Vectors fmap list_fmap]; by rewrite IH.
Qed.

Lemma page_missing requested found names token id :
  id ∈ MissingEntityIDs (assemblePage requested found names token) <-> id ∈ requested /\ found !! id = None.
Proof.
  induction requested as [|i requested IH]; cbn [assemblePage].
  - cbn [MissingEntityIDs]. split; [intros H; by apply not_elem_of_nil in H | intros [H _]; by apply not_elem_of_nil in H].
  - destruct (found !! i) eqn:E; cbn [MissingEntityIDs]; rewrite ?elem_of_cons, IH.
    + split; [tauto | intros [[-> | ?] ?]; [congruence | done]].
    + split; [intros [-> | []]; tauto | intros [[-> | ?] ?]; tauto].
Qed.

Lemma projectColumns_lookup vs names n :
  projectColumns vs names !! n = if bool_decide (n ∈ names) then vs !! n else None.
Proof.
  unfold projectColumns. induction names as [|m names IH] using rev_ind; [by rewrite bool_decide_eq_false_2 by (by apply not_elem_of_nil) |].
  rewrite foldl_app. cbn [foldl]. set (out := foldl _ _ _) in *.
  destruct (decide (n = m)) as [-> | Hne].
  - rewrite (bool_decide_eq_true_2 (m ∈ names ++ [m])) by set_solver.
    destruct (vs !! m) eqn:E; [by rewrite lookup_insert_eq |]. rewrite IH. by case_bool_decide.
  - assert (bool_decide (n ∈ names ++ [m]) = bool_decide (n ∈ names)) as -> by (apply bool_decide_ext; set_solver).
    destruct (vs !! m); by rewrite ?lookup_insert_ne by done.
Qed.

Lemma dedupe_spec seen l x : x ∈ dedupe_from seen l <-> x ∈ l /\ x ∉ seen.
Proof.
  revert seen. induction l as [|s l IH]; intros seen; cbn [dedupe_from]; [set_solver |].
  case_bool_decide; rewrite ?elem_of_cons, IH; [set_solver |]. destruct (decide (x = s)); set_solver.
Qed.

Lemma dedupe_distinct seen l : NoDup (dedupe_from seen l).
Proof.
  revert seen. induction l as [|s l IH]; intros seen; cbn [dedupe_from]; [constructor |].
  case_bool_decide; [done |]. apply list.NoDup_cons. split; [| done]. rewrite dedupe_spec. set_solver.
Qed.
