(* ===== verification/FeatureLog.v ===== *)
(** * The feature store's stores: the event log, the online and the offline views

    [services/feature-store/internal/repository]: the PostgreSQL event log
    ([postgres/eventlog.go], [codec.go]), the offline view ([offline.go]) and the
    Redis online view ([redis/online.go]), over the tables of
    [migrations/001_event_log.up.sql]. Every statement, transaction or Redis command
    is one section. A Redis key is the pair it is built from; strings are text that
    the database can hold. *)

From S2P Require Import Prelude Concur Site FeatureModel.
Open Scope fp_scope.

(** ** The codec *)

Definition valueTypeTag (t : FeatureValueType) : string :=
  match t with
  | FeatureTypeInt64 => "INT64" | FeatureTypeDouble => "DOUBLE" | FeatureTypeString => "STRING"
  | FeatureTypeBool => "BOOL" | FeatureTypeTimestamp => "TIMESTAMP" | FeatureTypeDoubleList => "DOUBLE_LIST"
  | FeatureTypeStruct => "STRUCT" | FeatureTypeUnspecified => "UNSPECIFIED"
  end.

Definition valueTypeFromTag (tag : string) : FeatureValueType :=
  if String.eqb tag "INT64" then FeatureTypeInt64
  else if String.eqb tag "DOUBLE" then FeatureTypeDouble
  else if String.eqb tag "STRING" then FeatureTypeString
  else if String.eqb tag "BOOL" then FeatureTypeBool
  else if String.eqb tag "TIMESTAMP" then FeatureTypeTimestamp
  else if String.eqb tag "DOUBLE_LIST" then FeatureTypeDoubleList
  else if String.eqb tag "STRUCT" then FeatureTypeStruct
  else FeatureTypeUnspecified.

Record jsonValue := {
  jv_Type : string; jv_Int : Z; jv_Double : Z; jv_Str : string; jv_Bool : bool;
  jv_Time : option time; jv_List : list Z; jv_Struct : list (string * any);
}.

Definition empty_json (tag : string) : jsonValue := {|
  jv_Type := tag; jv_Int := 0; jv_Double := 0; jv_Str := ""; jv_Bool := false; jv_Time := None; jv_List := []; jv_Struct := [] |}.

Definition toJSONValue (v : FeatureValue) : jsonValue :=
  let tag := valueTypeTag (val_Kind v) in
  match val_Kind v with
  | FeatureTypeInt64 => {| jv_Type := tag; jv_Int := val_Int v; jv_Double := 0; jv_Str := ""; jv_Bool := false; jv_Time := None; jv_List := []; jv_Struct := [] |}
  | FeatureTypeDouble => {| jv_Type := tag; jv_Int := 0; jv_Double := val_Double v; jv_Str := ""; jv_Bool := false; jv_Time := None; jv_List := []; jv_Struct := [] |}
  | FeatureTypeString => {| jv_Type := tag; jv_Int := 0; jv_Double := 0; jv_Str := val_Str v; jv_Bool := false; jv_Time := None; jv_List := []; jv_Struct := [] |}
  | FeatureTypeBool => {| jv_Type := tag; jv_Int := 0; jv_Double := 0; jv_Str := ""; jv_Bool := val_Bool v; jv_Time := None; jv_List := []; jv_Struct := [] |}
  | FeatureTypeTimestamp => {| jv_Type := tag; jv_Int := 0; jv_Double := 0; jv_Str := ""; jv_Bool := false; jv_Time := Some (val_Time v); jv_List := []; jv_Struct := [] |}
  | FeatureTypeDoubleList => {| jv_Type := tag; jv_Int := 0; jv_Double := 0; jv_Str := ""; jv_Bool := false; jv_Time := None; jv_List := val_List v; jv_Struct := [] |}
  | FeatureTypeStruct => {| jv_Type := tag; jv_Int := 0; jv_Double := 0; jv_Str := ""; jv_Bool := false; jv_Time := None; jv_List := []; jv_Struct := val_Struct v |}
  | FeatureTypeUnspecified => empty_json tag
  end.

Definition fromJSONValue (jv : jsonValue) : FeatureValue :=
  let kind := valueTypeFromTag (jv_Type jv) in
  match kind with
  | FeatureTypeInt64 => {| val_Kind := kind; val_Int := jv_Int jv; val_Double := 0; val_Str := ""; val_Bool := false; val_Time := 0; val_List := []; val_Struct := [] |}
  | FeatureTypeDouble => {| val_Kind := kind; val_Int := 0; val_Double := jv_Double jv; val_Str := ""; val_Bool := false; val_Time := 0; val_List := []; val_Struct := [] |}
  | FeatureTypeString => {| val_Kind := kind; val_Int := 0; val_Double := 0; val_Str := jv_Str jv; val_Bool := false; val_Time := 0; val_List := []; val_Struct := [] |}
  | FeatureTypeBool => {| val_Kind := kind; val_Int := 0; val_Double := 0; val_Str := ""; val_Bool := jv_Bool jv; val_Time := 0; val_List := []; val_Struct := [] |}
  | FeatureTypeTimestamp => {| val_Kind := kind; val_Int := 0; val_Double := 0; val_Str := ""; val_Bool := false; val_Time := default 0 (jv_Time jv); val_List := []; val_Struct := [] |}
  | FeatureTypeDoubleList => {| val_Kind := kind; val_Int := 0; val_Double := 0; val_Str := ""; val_Bool := false; val_Time := 0; val_List := jv_List jv; val_Struct := [] |}
  | FeatureTypeStruct => {| val_Kind := kind; val_Int := 0; val_Double := 0; val_Str := ""; val_Bool := false; val_Time := 0; val_List := []; val_Struct := jv_Struct jv |}
  | FeatureTypeUnspecified => no_value
  end.

(** What [json.Marshal] accepts: finite numbers, and years from 0 to 9999. *)
Definition finite (x : Z) : bool := negb (Z.land (Z.shiftr x 52) 2047 =? 2047).
Definition json_time (t : time) : bool := (- (366 * 24 * Hour) <=? t) && (t <? 3652059 * 24 * Hour).

Fixpoint json_any (a : any) : bool :=
  match a with
  | ANumber x => finite x
  | AList l => forallb json_any l
  | AMap m => forallb (fun kv => json_any (snd kv)) m
  | _ => true
  end.

Definition json_ok (jv : jsonValue) : bool :=
  finite (jv_Double jv) && match jv_Time jv with Some t => json_time t | None => true end &&
  forallb finite (jv_List jv) && forallb (fun kv => json_any kv.2) (jv_Struct jv).

Abbreviation json_values := (gmap string jsonValue).

Definition json_values_ok (wire : json_values) : bool := forallb (fun kv => json_ok kv.2) (map_to_list wire).

Definition marshalValues (vs : values) : result (option json_values) fs_error :=
  if bool_decide (vs = ∅) then Ok None
  else
    let wire := toJSONValue <$> vs in
    if json_values_ok wire then Ok (Some wire) else Err (Wrap "marshal feature values" (External "json")).

Definition unmarshalValues (b : option json_values) : values :=
  match b with None => ∅ | Some wire => fromJSONValue <$> wire end.

Record jsonSpec := { js_Name : string; js_ValueType : string; js_Description : string; js_Dimension : Z }.

Record jsonViewDef := {
  jd_ID : string; jd_Name : string; jd_Description : string; jd_Entity : Entity; jd_Features : list jsonSpec;
  jd_SchemaVersion : Z; jd_OwnerUserID : string; jd_OwnerTeam : string;
}.

Definition marshalViewDef (d : option ViewDefinition) : option jsonViewDef :=
  d ← d;
  Some {| jd_ID := vd_ID d; jd_Name := vd_Name d; jd_Description := vd_Description d; jd_Entity := vd_Entity d;
          jd_Features := (fun f => {| js_Name := sp_Name f; js_ValueType := valueTypeTag (ValueType f);
                                      js_Description := sp_Description f; js_Dimension := Dimension f |}) <$> vd_Features d;
          jd_SchemaVersion := vd_SchemaVersion d; jd_OwnerUserID := vd_OwnerUserID d; jd_OwnerTeam := vd_OwnerTeam d |}.

Definition unmarshalViewDef (b : option jsonViewDef) : option ViewDefinition :=
  w ← b;
  Some {| vd_ID := jd_ID w; vd_Name := jd_Name w; vd_Description := jd_Description w; vd_Entity := jd_Entity w;
          vd_Features := (fun f => {| sp_Name := js_Name f; ValueType := valueTypeFromTag (js_ValueType f);
                                      sp_Description := js_Description f; Dimension := js_Dimension f |}) <$> jd_Features w;
          vd_SchemaVersion := jd_SchemaVersion w; vd_OwnerUserID := jd_OwnerUserID w; vd_OwnerTeam := jd_OwnerTeam w |}.

(** A TIMESTAMPTZ column keeps microseconds. *)
Definition usec (t : time) : time := t / 1000 * 1000.

(** ** The tables, and the keys of Redis *)

Record event_row := {
  r_Version : Z; r_ID : string; r_Type : EventType; r_View : string; r_Entity : string; r_Values : option json_values;
  r_EventTime : time; r_ViewDef : option jsonViewDef; r_AppendedAt : time;
}.

Record index_row := {
  owner_team : string; ix_name : string; name_lower : string; is_deleted : bool; created_at : time; updated_at : time;
}.

Record offline_row := { feature_values : json_values; as_of_version : Z; event_time : time; schema_version : Z }.

Record jsonVector := {
  xv_EntityID : string; xv_Values : json_values; xv_AsOfVersion : Z; xv_EventTime : time; xv_SchemaVersion : Z;
}.

Record store := {
  feature_events : list event_row;
  view_name_index : gmap string index_row;
  idempotency_keys : gmap (string * string) (Z * Z);
  offline_view : gmap (string * string) offline_row;
  online_vec : gmap (string * string) jsonVector;
  online_entities : gmap string (gset string);
}.

Definition put_events (l : list event_row) (d : store) : store := {|
  feature_events := l; view_name_index := view_name_index d; idempotency_keys := idempotency_keys d;
  offline_view := offline_view d; online_vec := online_vec d; online_entities := online_entities d |}.
Definition put_index (m : gmap string index_row) (d : store) : store := {|
  feature_events := feature_events d; view_name_index := m; idempotency_keys := idempotency_keys d;
  offline_view := offline_view d; online_vec := online_vec d; online_entities := online_entities d |}.
Definition put_keys (m : gmap (string * string) (Z * Z)) (d : store) : store := {|
  feature_events := feature_events d; view_name_index := view_name_index d; idempotency_keys := m;
  offline_view := offline_view d; online_vec := online_vec d; online_entities := online_entities d |}.
Definition put_offline (m : gmap (string * string) offline_row) (d : store) : store := {|
  feature_events := feature_events d; view_name_index := view_name_index d; idempotency_keys := idempotency_keys d;
  offline_view := m; online_vec := online_vec d; online_entities := online_entities d |}.
Definition put_online (m : gmap (string * string) jsonVector) (e : gmap string (gset string)) (d : store) : store := {|
  feature_events := feature_events d; view_name_index := view_name_index d; idempotency_keys := idempotency_keys d;
  offline_view := offline_view d; online_vec := m; online_entities := e |}.

(** What the services ask of the outside besides time, ids and the link: Go's order of
    a map, [strings.ToLower] over Unicode, PostgreSQL's ILIKE, the client's stream. *)
Class FeatureOutside (W : Type) : Type := {
  enumerate {A : Type} : gmap string A -> W -> list (string * A) * W;
  enumerate_perm {A : Type} (m : gmap string A) w : (enumerate m w).1 ≡ₚ map_to_list m;
  ToLower : string -> string;
  ilike : string -> string -> bool;
  send : RebuildProgress -> W -> option string * W;
}.

(** ** The event log (eventlog.go): statements *)

Section log.
Context {W : Type} `{FeatureOutside W}.

Definition head (d : store) : Z :=
  match r_Version <$> feature_events d with [] => 0 | v :: vs => foldr Z.max v vs end.

Definition version_le_row (a b : event_row) : Prop := r_Version a <= r_Version b.
#[export] Instance version_le_row_dec : RelDecision version_le_row.
Proof. intros a b. unfold version_le_row. apply _. Defined.
#[export] Instance version_le_row_trans : Transitive version_le_row.
Proof. intros a b c. unfold version_le_row. lia. Qed.
#[export] Instance version_le_row_total : Total version_le_row.
Proof. intros a b. unfold version_le_row. lia. Qed.

Definition scanEvent (r : event_row) : FeatureEvent := {|
  ev_ID := r_ID r; ev_Type := r_Type r; ev_View := r_View r; ev_Version := r_Version r; ev_EntityID := r_Entity r;
  ev_Values := unmarshalValues (r_Values r); ev_EventTime := r_EventTime r; ev_ViewDef := unmarshalViewDef (r_ViewDef r);
  ev_AppendedAt := r_AppendedAt r |}.

(** [SELECT ... WHERE p ORDER BY version]. *)
Definition select_events (p : event_row -> bool) (d : store) : list FeatureEvent :=
  scanEvent <$> merge_sort version_le_row (List.filter p (feature_events d)).

Definition queryEvents (p : event_row -> bool) (d : store) : result (list FeatureEvent) fs_error :=
  match select_events p d with
  | [] => Err (Sentinel ErrEventLogNotFound)
  | events => Ok events
  end.

Definition of_view (view : string) (r : event_row) : bool := String.eqb (r_View r) view.
Definition is_definition (r : event_row) : bool := negb (bool_decide (r_Type r = FeatureEventValuesWritten)).

Definition Load (view : string) (d : store) : result (list FeatureEvent) fs_error := queryEvents (of_view view) d.
Definition LoadView (view : string) (d : store) : result (list FeatureEvent) fs_error :=
  queryEvents (fun r => of_view view r && is_definition r) d.

Definition loadRange (first last : Z) (d : store) : list FeatureEvent :=
  select_events (fun r => (first <=? r_Version r) && (r_Version r <=? last)) d.

Definition lookupIdempotency (key view : string) (d : store) : option (Z * Z) := idempotency_keys d !! (key, view).

Definition recordIdempotency (key view : string) (first last : Z) (d : store) : store :=
  match idempotency_keys d !! (key, view) with
  | Some _ => d
  | None => put_keys (<[(key, view) := (first, last)]> (idempotency_keys d)) d
  end.

Definition insertEvent (e : FeatureEvent) (d : store) : result store fs_error :=
  match marshalValues (ev_Values e) with
  | Err err => Err err
  | Ok valuesJSON =>
      let row := {| r_Version := ev_Version e; r_ID := ev_ID e; r_Type := ev_Type e; r_View := ev_View e; r_Entity := ev_EntityID e;
                    r_Values := valuesJSON; r_EventTime := usec (ev_EventTime e); r_ViewDef := marshalViewDef (ev_ViewDef e);
                    r_AppendedAt := usec (ev_AppendedAt e) |} in
      if existsb (fun r => (r_Version r =? r_Version row) || String.eqb (r_ID r) (r_ID row)) (feature_events d)
      then Err (Wrap "duplicate event id" (Sentinel ErrEventLogNotFound))
      else Ok (put_events (feature_events d ++ [row]) d)
  end.

Definition names (team lower : string) (r : index_row) : bool :=
  String.eqb (owner_team r) team && String.eqb (name_lower r) lower.

(** The catalogue row after the upsert of a definition, and the unique index on names. *)
Definition upserted (view : string) (def : ViewDefinition) (at_time : time) (old : option index_row) : index_row :=
  match old with
  | None => {| owner_team := vd_OwnerTeam def; ix_name := vd_Name def; name_lower := ToLower (vd_Name def);
               is_deleted := false; created_at := usec at_time; updated_at := usec at_time |}
  | Some r => {| owner_team := owner_team r; ix_name := vd_Name def; name_lower := ToLower (vd_Name def);
                 is_deleted := false; created_at := created_at r; updated_at := usec at_time |}
  end.

Definition upsertNameIndex (e : FeatureEvent) (d : store) : result store fs_error :=
  match ev_Type e with
  | FeatureEventViewDefined =>
      match ev_ViewDef e with
      | None => Err (Wrap "missing view_def" (External "view-defined event"))
      | Some def =>
          let row := upserted (ev_View e) def (ev_EventTime e) (view_name_index d !! ev_View e) in
          if existsb (fun ir => negb (String.eqb ir.1 (ev_View e)) && names (owner_team row) (name_lower row) ir.2)
               (map_to_list (view_name_index d))
          then Err (Wrap "view name already used" (Sentinel ErrEventLogNotFound))
          else Ok (put_index (<[ev_View e := row]> (view_name_index d)) d)
      end
  | FeatureEventViewDeleted =>
      match view_name_index d !! ev_View e with
      | None => Ok d
      | Some r => Ok (put_index (<[ev_View e := {| owner_team := owner_team r; ix_name := ix_name r; name_lower := name_lower r;
                        is_deleted := true; created_at := created_at r; updated_at := usec (ev_EventTime e) |}]> (view_name_index d)) d)
      end
  | FeatureEventValuesWritten => Ok d
  end.

Definition with_version (v : Z) (e : FeatureEvent) : FeatureEvent := {|
  ev_ID := ev_ID e; ev_Type := ev_Type e; ev_View := ev_View e; ev_Version := v; ev_EntityID := ev_EntityID e;
  ev_Values := ev_Values e; ev_EventTime := ev_EventTime e; ev_ViewDef := ev_ViewDef e; ev_AppendedAt := ev_AppendedAt e |}.

(** The insert loop, at the version [v] of the next event. *)
Fixpoint insert_all (v : Z) (events : list FeatureEvent) (d : store) : result (list FeatureEvent * store) fs_error :=
  match events with
  | [] => Ok ([], d)
  | e :: events =>
      let e := with_version v e in
      let! d := insertEvent e d in
      let! d := (if is_write e then Ok d else upsertNameIndex e d) in
      let! (out, d) := insert_all (wrap64 (v + 1)) events d in
      Ok (e :: out, d)
  end.

(** The transaction from the advisory lock to the commit. *)
Definition append_tx (key view : string) (events : list FeatureEvent) (d : store)
    : result (list FeatureEvent * Z * bool) fs_error * store :=
  let base := head d in
  match insert_all (wrap64 (base + 1)) events d with
  | Err err => (Err err, d)
  | Ok (out, d') =>
      let writtenThrough := wrap64 (base + Z.of_nat (length events)) in
      let first := match out with e :: _ => ev_Version e | [] => 0 end in
      let d' := if String.eqb key "" then d' else recordIdempotency key view first writtenThrough d' in
      (Ok (out, writtenThrough, false), d')
  end.

Definition ResolveViewIDByName (team name : string) (d : store) : result string fs_error :=
  match List.find (fun ir => names team (ToLower name) ir.2) (map_to_list (view_name_index d)) with
  | Some (id, _) => Ok id
  | None => Err (Sentinel ErrEventLogNotFound)
  end.

Definition listed (team nameFilter token : string) (ir : string * index_row) : bool :=
  String.eqb (owner_team ir.2) team && (String.eqb nameFilter "" || ilike nameFilter (ix_name ir.2)) &&
  (String.eqb token "" || str_lt token ir.1).

Definition ListViewIDs (team nameFilter : string) (opts : ListOptions) (d : store) : list string * string :=
  let pageSize := Z.to_nat (PageSize (clampPage opts)) in
  let ids := take (pageSize + 1)
    (merge_sort str_le (fst <$> List.filter (listed team nameFilter (PageToken opts)) (map_to_list (view_name_index d)))) in
  if (pageSize <? length ids)%nat
  then (take pageSize ids, List.last (take pageSize ids) "")
  else (ids, "").

(** ** The offline view (offline.go) *)

Definition offline_rows (view : string) (docs : gmap string offline_row) : gmap (string * string) offline_row :=
  kmap (pair view) docs.

Definition marshalVector (v : FeatureVector) : option offline_row :=
  let wire := toJSONValue <$> vec_Values v in
  if json_values_ok wire then
    Some {| feature_values := wire; as_of_version := vec_AsOfVersion v; event_time := usec (vec_EventTime v);
            schema_version := vec_SchemaVersion v |}
  else None.

Definition RebuildOffline (view : string) (vectors : gmap string FeatureVector) (d : store) : result unit fs_error * store :=
  if forallb (fun kv => match marshalVector kv.2 with Some _ => true | None => false end) (map_to_list vectors) then
    (Ok tt, put_offline (offline_rows view (omap marshalVector vectors) ∪ filter (fun kv => kv.1.1 <> view) (offline_view d)) d)
  else (Err (Wrap "marshal feature values" (External "json")), d).

(** ** The online view (online.go) *)

Definition encodeVector (v : FeatureVector) : result jsonVector fs_error :=
  let wire := toJSONValue <$> vec_Values v in
  if json_values_ok wire && json_time (vec_EventTime v) then
    Ok {| xv_EntityID := vec_EntityID v; xv_Values := wire; xv_AsOfVersion := vec_AsOfVersion v;
          xv_EventTime := vec_EventTime v; xv_SchemaVersion := vec_SchemaVersion v |}
  else Err (External "json").

Definition decodeVector (x : jsonVector) : FeatureVector := {|
  vec_EntityID := xv_EntityID x; vec_Values := fromJSONValue <$> xv_Values x; vec_AsOfVersion := xv_AsOfVersion x;
  vec_EventTime := xv_EventTime x; vec_SchemaVersion := xv_SchemaVersion x |}.

Fixpoint encode_all (vs : list (string * FeatureVector)) : result (list (string * jsonVector)) fs_error :=
  match vs with
  | [] => Ok []
  | (id, v) :: vs => let! x := encodeVector v in let! xs := encode_all vs in Ok ((id, x) :: xs)
  end.

(** The commands that a pipeline queues: SET, SADD and DEL. *)
Definition cmd_set (view entity : string) (x : jsonVector) (d : store) : store :=
  put_online (<[(view, entity) := x]> (online_vec d)) (online_entities d) d.
Definition cmd_sadd (view entity : string) (d : store) : store :=
  put_online (online_vec d) (<[view := {[entity]} ∪ default ∅ (online_entities d !! view)]> (online_entities d)) d.
Definition cmd_del (view entity : string) (d : store) : store :=
  put_online (delete (view, entity) (online_vec d)) (online_entities d) d.
Definition cmd_del_entities (view : string) (d : store) : store :=
  put_online (online_vec d) (delete view (online_entities d)) d.

Context `{Outside W}.
Abbreviation go := (prog (site W store)) (only parsing).

(** A pipeline: its commands one by one, as far as the link carries. *)
Fixpoint pipeline (text : string) (cmds : list (store -> store)) : go (result unit fs_error) :=
  match cmds with
  | [] => Ret (Ok tt)
  | c :: cmds =>
      do! r := transact (fun d => (Ok tt, c d)) in
      try r (Wrap text) (fun _ => pipeline text cmds)
  end.

Fixpoint get_all (view : string) (ids : list string) (out : gmap string FeatureVector)
    : go (result (gmap string FeatureVector) fs_error) :=
  match ids with
  | [] => Ret (Ok out)
  | id :: ids =>
      do! r := query (fun _ d => Ok (online_vec d !! (view, id))) in
      try r (Wrap "online get") (fun x =>
        get_all view ids (match x with Some x => <[id := decodeVector x]> out | None => out end))
  end.

Definition GetLatest (view : string) (ids : list string) : go (result (gmap string FeatureVector) fs_error) :=
  get_all view ids ∅.

Definition Put (view : string) (vectors : gmap string FeatureVector) : go (result unit fs_error) :=
  do! vs := ask (enumerate vectors) in
  match encode_all vs with
  | Err err => Ret (Err err)
  | Ok docs => pipeline "online put" (concat ((fun ix => [cmd_set view ix.1 ix.2; cmd_sadd view ix.1]) <$> docs))
  end.

Definition Purge (view : string) : go (result unit fs_error) :=
  do! members := query (fun _ d => Ok (elements (default ∅ (online_entities d !! view)))) in
  try members (Wrap "online purge read entities") (fun members =>
    pipeline "online purge" ((cmd_del view <$> members) ++ [cmd_del_entities view])).

(** ** Append: the look at the key, then the transaction that assigns versions *)

Definition Append (key : string) (events : list FeatureEvent) : go (result (list FeatureEvent * Z * bool) fs_error) :=
  match events with
  | [] =>
      do! h := query (fun _ d => Ok (head d)) in
      try h (Wrap "read log head") (fun h => Ret (Ok ([], h, false)))
  | e :: _ =>
      let view := ev_View e in
      do! found :=
        (if String.eqb key "" then Ret (Ok None)
         else query (fun _ d =>
           Ok (match lookupIdempotency key view d with
               | Some (first, last) => Some (loadRange first last d, last)
               | None => None
               end))) in
      try found (Wrap "lookup idempotency key") (fun found =>
        match found with
        | Some (original, last) => Ret (Ok (original, last, true))
        | None => transact (append_tx key view events)
        end)
  end.
End log.
