(* ===== verification/FeatureTables.v ===== *)
(** * The feature store's tables under any writes

    The codec's round trips, the invariant of the event log, its catalogue, its keys
    and the online view, and what every transaction and Redis command keeps of it. *)

From S2P Require Import Prelude Concur Site FeatureModel FeatureLog.
Open Scope fp_scope.

(** ** The codec *)

Lemma tag_roundtrip t : valueTypeFromTag (valueTypeTag t) = t.
Proof. by destruct t. Qed.

(** A value as the stores keep it: the payload that its kind names, and no other. *)
Definition canonical (v : FeatureValue) : FeatureValue := {|
  val_Kind := val_Kind v;
  val_Int := (if bool_decide (val_Kind v = FeatureTypeInt64) then val_Int v else 0);
  val_Double := (if bool_decide (val_Kind v = FeatureTypeDouble) then val_Double v else 0);
  val_Str := (if bool_decide (val_Kind v = FeatureTypeString) then val_Str v else "");
  val_Bool := (if bool_decide (val_Kind v = FeatureTypeBool) then val_Bool v else false);
  val_Time := (if bool_decide (val_Kind v = FeatureTypeTimestamp) then val_Time v else 0);
  val_List := (if bool_decide (val_Kind v = FeatureTypeDoubleList) then val_List v else []);
  val_Struct := (if bool_decide (val_Kind v = FeatureTypeStruct) then val_Struct v else []);
|}.

Lemma value_roundtrip v : fromJSONValue (toJSONValue v) = canonical v.
Proof. destruct v as [k ? ? ? ? ? ? ?]. by destruct k. Qed.

Lemma canonical_json v : toJSONValue (canonical v) = toJSONValue v.
Proof. destruct v as [k ? ? ? ? ? ? ?]. by destruct k. Qed.

Lemma canonical_conforms specs name v : conforms specs name (canonical v) = conforms specs name v.
Proof.
  unfold conforms. destruct (specByName name specs) as [spec|]; [| done]. unfold canonical. cbn [val_Kind val_List].
  destruct (decide (val_Kind v = ValueType spec)) as [He|];
    [| by rewrite (bool_decide_eq_false_2 (val_Kind v = ValueType spec)) by done].
  destruct (decide (ValueType spec = FeatureTypeDoubleList)) as [Hd|];
    [by rewrite (bool_decide_eq_true_2 (val_Kind v = FeatureTypeDoubleList)) by congruence | by rewrite (bool_decide_eq_false_2 (ValueType spec = FeatureTypeDoubleList)) by done].
Qed.

Lemma viewdef_roundtrip d : unmarshalViewDef (marshalViewDef d) = d.
Proof.
  destruct d as [[i n de en fs sv u t]|]; [| done]. cbn. do 2 f_equal. rewrite <- list_fmap_compose.
  rewrite <- (list_fmap_id fs) at 2. apply list_fmap_ext. intros _ [] _. cbn. by rewrite tag_roundtrip.
Qed.

Lemma values_roundtrip vs b : marshalValues vs = Ok b -> unmarshalValues b = canonical <$> vs.
Proof.
  unfold marshalValues. case_bool_decide as He; [intros [= <-]; subst; cbn; by rewrite fmap_empty |].
  destruct (json_values_ok _); [| done]. intros [= <-]. cbn. rewrite <- map_fmap_compose. apply map_fmap_ext.
  intros i x _. apply value_roundtrip.
Qed.

Lemma typed_canonical specs vs : row_typed specs (canonical <$> vs) <-> row_typed specs vs.
Proof.
  unfold row_typed. split; intros Ht name v Hv.
  - rewrite <- canonical_conforms. apply Ht. by rewrite lookup_fmap, Hv.
  - rewrite lookup_fmap in Hv. destruct (vs !! name) as [v'|] eqn:E; [| done]. injection Hv as <-.
    rewrite canonical_conforms. by apply Ht.
Qed.

Lemma usec_usec t : usec (usec t) = usec t.
Proof. unfold usec. by rewrite Z.div_mul. Qed.

(** An event as the log keeps it. *)
Definition stored (e : FeatureEvent) : FeatureEvent := {|
  ev_ID := ev_ID e; ev_Type := ev_Type e; ev_View := ev_View e; ev_Version := ev_Version e; ev_EntityID := ev_EntityID e;
  ev_Values := canonical <$> ev_Values e; ev_EventTime := usec (ev_EventTime e); ev_ViewDef := ev_ViewDef e;
  ev_AppendedAt := usec (ev_AppendedAt e) |}.

Lemma insertEvent_spec e d d' : insertEvent e d = Ok d' ->
  exists r, d' = put_events (feature_events d ++ [r]) d /\ scanEvent r = stored e /\
    (forall r', r' ∈ feature_events d -> r_Version r' <> r_Version r /\ r_ID r' <> r_ID r).
Proof.
  unfold insertEvent. destruct (marshalValues (ev_Values e)) as [b|] eqn:Em; [| done].
  destruct (existsb _ _) eqn:Ex; [done |]. intros [= <-]. eexists. split; [reflexivity |]. split.
  - unfold scanEvent, stored. cbn. by rewrite (values_roundtrip _ _ Em), viewdef_roundtrip.
  - intros r' Hr'. cbn. split; intros Heq; apply not_true_iff_false in Ex; apply Ex, existsb_exists; exists r';
      (split; [by apply list_elem_of_In |]); rewrite Heq; [by rewrite Z.eqb_refl | rewrite String.eqb_refl; apply orb_true_r].
Qed.

(** Round trip of the log: a row reads back as the event that was inserted,
    whatever its kind, up to the microseconds of the column and the payload fields
    that the value's kind does not name; and a row never shares its version or id. *)
Theorem event_roundtrip (e : FeatureEvent) (d d' : store) :
  insertEvent e d = Ok d' ->
  exists r, feature_events d' = feature_events d ++ [r] /\ scanEvent r = stored e /\
    forall r', r' ∈ feature_events d -> r_Version r' <> r_Version r /\ r_ID r' <> r_ID r.
Proof. intros (r & -> & Hs & Hn)%insertEvent_spec. by exists r. Qed.

(** ** The invariant *)

Definition log (d : store) : list FeatureEvent := scanEvent <$> feature_events d.

Definition of_view_ev (view : string) (e : FeatureEvent) : bool := String.eqb (ev_View e) view.

(** An event of the log defines the view. *)
Definition definition_in (d : store) (view : string) (e : FeatureEvent) (def : ViewDefinition) : Prop :=
  e ∈ log d /\ ev_View e = view /\ defines e def.

Definition owner (d : store) (view team : string) : Prop :=
  exists e def, definition_in d view e def /\ vd_OwnerTeam def = team.

(** A vector of the online view tells a write of the log. *)
Definition fact_of (view entity : string) (e : FeatureEvent) (x : jsonVector) : Prop :=
  ev_View e = view /\ write_to entity e = true /\ xv_EntityID x = entity /\ xv_AsOfVersion x = ev_Version e /\
  xv_Values x = toJSONValue <$> ev_Values e /\ usec (xv_EventTime x) = ev_EventTime e.

Section invariant.
Context {W : Type} `{FeatureOutside W}.

Definition well_defined (d : store) (e : FeatureEvent) (def : ViewDefinition) : Prop :=
  vd_ID def = ev_View e /\ schema_ok (vd_Features def) /\ 1 <= vd_SchemaVersion def <= ev_Version e /\
  (exists row, view_name_index d !! ev_View e = Some row /\ owner_team row = vd_OwnerTeam def) /\
  exists e0 def0, definition_in d (ev_View e) e0 def0 /\ vd_SchemaVersion def0 = 1.

(** The write conforms to a schema that its view had before it. *)
Definition well_typed (d : store) (e : FeatureEvent) : Prop :=
  ev_EntityID e <> "" /\ ev_Values e <> ∅ /\
  exists e0 def, definition_in d (ev_View e) e0 def /\ ev_Version e0 < ev_Version e /\ row_typed (vd_Features def) (ev_Values e).

Record log_ok (d : store) : Prop := {
  lo_versions : ev_Version <$> log d = seqZ 1 (Z.of_nat (length (feature_events d)));
  lo_ids : NoDup (ev_ID <$> log d);
  lo_defined : forall e, e ∈ log d -> ev_Type e = FeatureEventViewDefined -> exists def, ev_ViewDef e = Some def /\ well_defined d e def;
  lo_micro : forall e, e ∈ log d -> usec (ev_EventTime e) = ev_EventTime e;
  lo_entity : forall view e1 e2 def1 def2, definition_in d view e1 def1 -> definition_in d view e2 def2 ->
    vd_Entity def1 = vd_Entity def2;
  lo_index : forall view row, view_name_index d !! view = Some row -> exists e def, definition_in d view e def;
  lo_names : forall i j r r', view_name_index d !! i = Some r -> view_name_index d !! j = Some r' ->
    names (owner_team r) (name_lower r) r' = true -> i = j;
  lo_written : forall e, e ∈ log d -> ev_Type e = FeatureEventValuesWritten -> well_typed d e;
  lo_deleted : forall e, e ∈ log d -> ev_Type e = FeatureEventViewDeleted ->
    exists e0 def, definition_in d (ev_View e) e0 def /\ ev_Version e0 < ev_Version e;
  lo_keys : forall key view first last, idempotency_keys d !! (key, view) = Some (first, last) ->
    key <> "" /\ 1 <= first <= last /\ last <= Z.of_nat (length (feature_events d)) /\
    forall e, e ∈ log d -> first <= ev_Version e <= last -> ev_View e = view;
  lo_online : forall view entity x, online_vec d !! (view, entity) = Some x -> exists e, e ∈ log d /\ fact_of view entity e x;
}.

(** Ids of views are drawn once, and 63 bits are enough to count the events. *)
Record plausible (d : store) : Prop := {
  pl_fits : Z.of_nat (length (feature_events d)) < 2 ^ 63 - 1;
  pl_created : forall view i j e1 e2 def1 def2, log d !! i = Some e1 -> log d !! j = Some e2 ->
    ev_View e1 = view -> ev_View e2 = view -> defines e1 def1 -> defines e2 def2 ->
    vd_SchemaVersion def1 = 1 -> vd_SchemaVersion def2 = 1 -> i = j;
}.

Lemma log_prefix d d' : feature_events d `prefix_of` feature_events d' -> log d `prefix_of` log d'.
Proof. intros [rows Hr]. exists (scanEvent <$> rows). unfold log. by rewrite Hr, fmap_app. Qed.

Lemma log_in d d' e : feature_events d `prefix_of` feature_events d' -> e ∈ log d -> e ∈ log d'.
Proof. intros [l Hl]%log_prefix He. rewrite Hl. apply elem_of_app. by left. Qed.

Lemma plausible_prefix d d' : feature_events d `prefix_of` feature_events d' -> plausible d' -> plausible d.
Proof.
  intros Hp [Hf Hc]. split; [apply prefix_length in Hp; lia |]. apply log_prefix in Hp.
  intros view i j e1 e2 def1 def2 H1 H2. by apply Hc; eapply prefix_lookup_Some.
Qed.

Lemma definition_prefix d d' view e def :
  feature_events d `prefix_of` feature_events d' -> definition_in d view e def -> definition_in d' view e def.
Proof. intros Hp (He & Hv & Hd). split; [by eapply log_in | done]. Qed.

Lemma owner_prefix d d' view team : feature_events d `prefix_of` feature_events d' -> owner d view team -> owner d' view team.
Proof. intros Hp (e & def & Hd & Ht). exists e, def. split; [by eapply definition_prefix | done]. Qed.

Lemma definition_facts d view e def : log_ok d -> definition_in d view e def -> well_defined d e def /\ ev_View e = view.
Proof.
  intros Hok (He & Hv & Ht & Hd). destruct (lo_defined _ Hok e He Ht) as (def' & Hd' & Hw).
  assert (def' = def) as -> by congruence. done.
Qed.

Lemma owner_index d view team row : log_ok d -> owner d view team -> view_name_index d !! view = Some row -> owner_team row = team.
Proof.
  intros Hok (e & def & Hd & <-) Hr. destruct (definition_facts _ _ _ _ Hok Hd) as [(_ & _ & _ & (row' & Hr' & Ht) & _) Hv].
  rewrite Hv in Hr'. congruence.
Qed.

Lemma owner_unique d view t t' : log_ok d -> owner d view t -> owner d view t' -> t = t'.
Proof.
  intros Hok Ho Ho'. pose proof Ho as (e & def & Hd & _).
  destruct (definition_facts _ _ _ _ Hok Hd) as [(_ & _ & _ & (row & Hr & _) & _) Hv]. rewrite Hv in Hr.
  rewrite <- (owner_index d view t row) by done. by apply (owner_index d view t' row).
Qed.

Lemma version_index d i e : log_ok d -> log d !! i = Some e -> ev_Version e = Z.of_nat i + 1.
Proof.
  intros Hok Hi. pose proof (f_equal (lookup i) (lo_versions _ Hok)) as Hl. rewrite list_lookup_fmap, Hi in Hl. simpl in Hl.
  symmetry in Hl. apply lookup_seqZ in Hl as [-> _]. lia.
Qed.

Lemma version_bounds d e : log_ok d -> e ∈ log d -> 1 <= ev_Version e <= Z.of_nat (length (feature_events d)).
Proof.
  intros Hok (i & Hi)%list_elem_of_lookup. rewrite (version_index d i e Hok Hi). apply lookup_lt_Some in Hi.
  unfold log in Hi. rewrite length_fmap in Hi. lia.
Qed.

Lemma early_event d d' e : log_ok d' -> feature_events d `prefix_of` feature_events d' -> e ∈ log d' ->
  ev_Version e <= Z.of_nat (length (feature_events d)) -> e ∈ log d.
Proof.
  intros Hok [l Hl]%log_prefix (i & Hi)%list_elem_of_lookup Hv. pose proof (version_index d' i e Hok Hi).
  rewrite Hl, lookup_app_l in Hi; [by eapply list_elem_of_lookup_2 |]. unfold log. rewrite length_fmap. lia.
Qed.

Lemma head_length d : log_ok d -> head d = Z.of_nat (length (feature_events d)).
Proof.
  intros Hok. unfold head. pose proof (lo_versions _ Hok) as Hv. unfold log in Hv. rewrite <- list_fmap_compose in Hv.
  change (ev_Version ∘ scanEvent) with r_Version in Hv. rewrite Hv. clear Hv. destruct (length (feature_events d)) as [|n]; [done |].
  rewrite seqZ_cons by lia.
  replace (Z.pred (Z.of_nat (S n))) with (Z.of_nat n) by lia. clear. cut (forall k, foldr Z.max k (seqZ (Z.succ k) (Z.of_nat n)) = k + Z.of_nat n).
  { intros Hc. rewrite (Hc 1). lia. }
  intros k. assert (forall m, 0 <= m -> foldr Z.max k (seqZ (Z.succ k) m) = k + m) as Hm; [| apply Hm; lia].
  apply natlike_ind; [simpl; lia |]. intros m Hm IH. replace (Z.succ m) with (m + 1) by lia. rewrite seqZ_app by lia. rewrite foldr_app.
  simpl.
  assert (forall b l, (forall x, x ∈ l -> x <= b) -> foldr Z.max b l = b) as Hmax.
  { intros b l. induction l as [|x l IHl]; intros Hb; [done |]. cbn [foldr]. rewrite IHl by set_solver. specialize (Hb x ltac:(set_solver)). lia. }
  replace (seqZ (Z.succ k + m) 1) with [Z.succ k + m] by (by rewrite seqZ_cons by lia). cbn [foldr].
  rewrite Z.max_l by lia. rewrite Hmax; [lia |]. intros x Hx. apply elem_of_seqZ in Hx. lia.
Qed.

(** Every event of the log is of a view that has an owner. *)
Lemma event_owner d e : log_ok d -> e ∈ log d -> exists t, owner d (ev_View e) t.
Proof.
  intros Hok He. destruct (ev_Type e) eqn:Et.
  - destruct (lo_defined _ Hok e He Et) as (def & Hd & _). exists (vd_OwnerTeam def), e, def. by repeat split.
  - destruct (lo_written _ Hok e He Et) as (_ & _ & e0 & def & Hd & _). by exists (vd_OwnerTeam def), e0, def.
  - destruct (lo_deleted _ Hok e He Et) as (e0 & def & Hd & _). by exists (vd_OwnerTeam def), e0, def.
Qed.

(** ** What any writes of the teams [ts] keep *)

Section keeps.
Variable ts : string -> Prop.

Record same_rows (view : string) (d d' : store) : Prop := {
  sr_index : view_name_index d' !! view = view_name_index d !! view;
  sr_keys : forall key, idempotency_keys d' !! (key, view) = idempotency_keys d !! (key, view);
  sr_offline : forall entity, offline_view d' !! (view, entity) = offline_view d !! (view, entity);
  sr_online : forall entity, online_vec d' !! (view, entity) = online_vec d !! (view, entity);
  sr_entities : online_entities d' !! view = online_entities d !! view;
}.

Record good (d d' : store) : Prop := {
  g_ok : log_ok d';
  g_new : forall e t, e ∈ log d' -> Z.of_nat (length (feature_events d)) < ev_Version e -> owner d' (ev_View e) t -> ts t;
  g_apart : forall view t, owner d view t -> ~ ts t -> same_rows view d d';
}.

Record keeps (d d' : store) : Prop := {
  k_prefix : feature_events d `prefix_of` feature_events d';
  k_keys : idempotency_keys d ⊆ idempotency_keys d';
  k_good : plausible d' -> log_ok d -> good d d';
}.

#[export] Instance same_rows_preorder view : PreOrder (same_rows view).
Proof. split; [by intros d | intros d1 d2 d3 [] []; constructor; congruence]. Qed.

Lemma good_refl d : log_ok d -> good d d.
Proof. intros Hok. constructor; [done | | done]. intros e t He Hv. pose proof (version_bounds d e Hok He). lia. Qed.

Lemma good_trans d1 d2 d3 :
  feature_events d1 `prefix_of` feature_events d2 -> feature_events d2 `prefix_of` feature_events d3 ->
  good d1 d2 -> good d2 d3 -> good d1 d3.
Proof.
  intros Hp12 Hp23 H12 H23. constructor; [apply H23 | |].
  - intros e t He Hn Ho. destruct (Z.le_gt_cases (ev_Version e) (Z.of_nat (length (feature_events d2)))) as [Hle | Hgt]; [| by eapply (g_new _ _ H23)].
    assert (e ∈ log d2) as Hi by (by eapply (early_event d2 d3); [apply H23 | ..]).
    destruct (event_owner d2 e (g_ok _ _ H12) Hi) as [t' Ht'].
    rewrite (owner_unique d3 (ev_View e) t t' (g_ok _ _ H23) Ho) by (by eapply owner_prefix).
    by eapply (g_new _ _ H12).
  - intros view t Ho Hn. etrans; [by eapply (g_apart _ _ H12) |]. eapply (g_apart _ _ H23); [by eapply owner_prefix | done].
Qed.

#[export] Instance keeps_preorder : PreOrder keeps.
Proof.
  split; [by intros d; constructor; [done | done | intros _; apply good_refl] |].
  intros d1 d2 d3 [P12 K12 G12] [P23 K23 G23]. constructor; [by etrans | by etrans |]. intros Hpl Hok.
  assert (good d1 d2) as H12 by (apply G12; [by eapply plausible_prefix | done]).
  eapply good_trans; [exact P12 | exact P23 | done |]. apply G23; [done | apply H12].
Qed.

(** ** One event appended *)

(** What an event that a request of [ts] appends must satisfy. *)
Definition admissible (d : store) (e : FeatureEvent) : Prop :=
  match ev_Type e with
  | FeatureEventViewDefined =>
      exists def, ev_ViewDef e = Some def /\ vd_ID def = ev_View e /\ schema_ok (vd_Features def) /\ ts (vd_OwnerTeam def) /\
        (vd_SchemaVersion def = 1 \/
         2 <= vd_SchemaVersion def <= Z.of_nat (length (feature_events d)) + 1 /\
         exists e0 def0, definition_in d (ev_View e) e0 def0 /\ vd_Entity def0 = vd_Entity def /\ vd_OwnerTeam def0 = vd_OwnerTeam def)
  | FeatureEventValuesWritten =>
      ev_EntityID e <> "" /\ ev_Values e <> ∅ /\
      exists e0 def, definition_in d (ev_View e) e0 def /\ ts (vd_OwnerTeam def) /\ row_typed (vd_Features def) (ev_Values e)
  | FeatureEventViewDeleted => exists e0 def, definition_in d (ev_View e) e0 def /\ ts (vd_OwnerTeam def)
  end.

Lemma admissible_prefix d d' e : feature_events d `prefix_of` feature_events d' -> admissible d e -> admissible d' e.
Proof.
  intros Hp. pose proof (prefix_length _ _ Hp) as Hlen. unfold admissible. destruct (ev_Type e).
  - intros (def & Hd & Hi & Hs & Ht & [Hv | (Hv & e0 & def0 & Hdef & He)]); exists def; repeat (split; [done |]); [by left | right].
    split; [lia |]. exists e0, def0. split; [by eapply definition_prefix | done].
  - intros (? & ? & e0 & def & Hdef & ?). split; [done |]. split; [done |]. exists e0, def. split; [by eapply definition_prefix | done].
  - intros (e0 & def & Hdef & ?). exists e0, def. split; [by eapply definition_prefix | done].
Qed.

Lemma with_version_admissible d v e : admissible d (with_version v e) <-> admissible d e.
Proof. done. Qed.

(** The owner of the view of an admissible event: a definition of it gives one. *)
Definition insert_one (e : FeatureEvent) (d : store) : result store fs_error :=
  let! d := insertEvent e d in if is_write e then Ok d else upsertNameIndex e d.

(** What the catalogue keeps across one event. *)
Record index_step (e : FeatureEvent) (m m' : gmap string index_row) : Prop := {
  is_kept : forall i r, m !! i = Some r -> exists r', m' !! i = Some r' /\ owner_team r' = owner_team r;
  is_other : forall i, i <> ev_View e -> m' !! i = m !! i;
  is_new : m !! ev_View e = None -> forall r', m' !! ev_View e = Some r' -> exists def, defines e def /\ owner_team r' = vd_OwnerTeam def;
  is_defined : forall def, defines e def -> is_Some (m' !! ev_View e);
  is_names : (forall i j r r', m !! i = Some r -> m !! j = Some r' -> names (owner_team r) (name_lower r) r' = true -> i = j) ->
    forall i j r r', m' !! i = Some r -> m' !! j = Some r' -> names (owner_team r) (name_lower r) r' = true -> i = j;
}.

Lemma names_comm r r' : names (owner_team r) (name_lower r) r' = names (owner_team r') (name_lower r') r.
Proof. unfold names. by rewrite (String.eqb_sym (owner_team r)), (String.eqb_sym (name_lower r)). Qed.

Lemma index_step_insert e m row :
  (forall r, m !! ev_View e = Some r -> owner_team row = owner_team r) ->
  (m !! ev_View e = None -> exists def, defines e def /\ owner_team row = vd_OwnerTeam def) ->
  (forall i r, i <> ev_View e -> m !! i = Some r -> names (owner_team row) (name_lower row) r = false) ->
  index_step e m (<[ev_View e := row]> m).
Proof.
  intros Hold Hnew Hno. constructor.
  - intros i r Hi. destruct (decide (i = ev_View e)) as [-> | Hne]; [| by exists r; rewrite lookup_insert_ne].
    exists row. rewrite lookup_insert_eq. split; [done | by apply Hold].
  - intros i Hi. by rewrite lookup_insert_ne.
  - intros Hn r'. rewrite lookup_insert_eq. intros [= <-]. by apply Hnew.
  - intros def _. by rewrite lookup_insert_eq.
  - intros Hu i j r r'. destruct (decide (i = ev_View e)) as [-> | Hi], (decide (j = ev_View e)) as [-> | Hj];
      rewrite ?lookup_insert_eq, ?lookup_insert_ne by done; [done | | | by apply Hu].
    + intros [= <-] Hr' Hn. by rewrite (Hno j r') in Hn.
    + intros Hr [= <-] Hn. rewrite names_comm in Hn. by rewrite (Hno i r) in Hn.
Qed.

Lemma index_step_same e m r row :
  m !! ev_View e = Some r -> owner_team row = owner_team r -> name_lower row = name_lower r -> ev_Type e <> FeatureEventViewDefined ->
  index_step e m (<[ev_View e := row]> m).
Proof.
  intros Hr Ho Hl Ht. constructor.
  - intros i r0 Hi. destruct (decide (i = ev_View e)) as [-> | Hne]; [| by exists r0; rewrite lookup_insert_ne].
    exists row. rewrite lookup_insert_eq. split; [done | congruence].
  - intros i Hi. by rewrite lookup_insert_ne.
  - congruence.
  - intros def [? _]. congruence.
  - intros Hu i j r1 r2. destruct (decide (i = ev_View e)) as [-> | Hi], (decide (j = ev_View e)) as [-> | Hj];
      rewrite ?lookup_insert_eq, ?lookup_insert_ne by done; [done | | | by apply Hu].
    + intros [= <-] Hr2 Hn. unfold names in Hn. rewrite Ho, Hl in Hn. by apply (Hu _ _ r r2).
    + intros Hr1 [= <-] Hn. unfold names in Hn. rewrite Ho, Hl in Hn. by apply (Hu _ _ r1 r).
Qed.

Lemma index_step_id e m : (forall def, ~ defines e def) -> index_step e m m.
Proof.
  intros Hn. constructor; [intros i r Hi; by exists r | done | congruence | | done].
  intros def Hd. by destruct (Hn def).
Qed.

Lemma insert_one_spec e d d' : insert_one e d = Ok d' ->
  exists r m, d' = put_index m (put_events (feature_events d ++ [r]) d) /\ scanEvent r = stored e /\
    index_step e (view_name_index d) m /\
    (forall r', r' ∈ feature_events d -> r_Version r' <> r_Version r /\ r_ID r' <> r_ID r).
Proof.
  unfold insert_one. rewrite rbind_ok. intros (d1 & (r & -> & Hs & Hn)%insertEvent_spec & Hu). exists r.
  unfold is_write, upsertNameIndex in Hu. destruct (ev_Type e) eqn:Et.
  - rewrite bool_decide_eq_false_2 in Hu by done. destruct (ev_ViewDef e) as [def|] eqn:Ed; [| done].
    cbn [view_name_index put_events] in Hu. destruct (existsb _ _) eqn:Ex; [done |]. injection Hu as <-.
    eexists. split; [reflexivity |]. split; [done |]. split; [| done]. apply index_step_insert.
    + intros r0 Hr0. by rewrite Hr0.
    + intros Hr0. rewrite Hr0. by exists def.
    + intros i r0 Hi Hr0. apply not_true_iff_false. intros Hnm. apply not_true_iff_false in Ex. apply Ex, existsb_exists.
      exists (i, r0). split; [apply list_elem_of_In; by apply elem_of_map_to_list |]. cbn [fst snd].
      by rewrite (proj2 (String.eqb_neq i (ev_View e)) Hi), Hnm.
  - rewrite bool_decide_eq_true_2 in Hu by done. injection Hu as <-. exists (view_name_index d).
    split; [by destruct d |]. split; [done |]. split; [| done]. apply index_step_id. intros def [? _]. congruence.
  - rewrite bool_decide_eq_false_2 in Hu by done.
    cbn [view_name_index put_events] in Hu. destruct (view_name_index d !! ev_View e) as [r0|] eqn:E0; injection Hu as <-.
    + eexists. split; [reflexivity |]. split; [done |]. split; [| done]. apply (index_step_same _ _ r0); [done.. | congruence].
    + exists (view_name_index d). split; [by destruct d |]. split; [done |]. split; [| done].
      apply index_step_id. intros def [? _]. congruence.
Qed.

Section one_event.
Context (d d' : store) (e : FeatureEvent).
Let n := Z.of_nat (length (feature_events d)).
Hypothesis Hok : log_ok d.
Hypothesis Hpl : plausible d'.
Hypothesis Had : admissible d e.
Hypothesis Hver : ev_Version e = n + 1.
Hypothesis Hins : insert_one e d = Ok d'.

Lemma step_log : log d' = log d ++ [stored e].
Proof.
  destruct (insert_one_spec _ _ _ Hins) as (r & m & -> & Hs & _). unfold log. cbn [feature_events put_index put_events].
  by rewrite fmap_app, <- Hs.
Qed.

Lemma step_prefix : feature_events d `prefix_of` feature_events d'.
Proof. destruct (insert_one_spec _ _ _ Hins) as (r & m & -> & _). by exists [r]. Qed.

Lemma step_length : Z.of_nat (length (feature_events d')) = n + 1.
Proof. destruct (insert_one_spec _ _ _ Hins) as (r & m & -> & _). cbn. rewrite length_app. simpl. lia. Qed.

Lemma step_index : index_step e (view_name_index d) (view_name_index d').
Proof. by destruct (insert_one_spec _ _ _ Hins) as (r & m & -> & _ & Hi & _). Qed.

Lemma step_in x : x ∈ log d' <-> x ∈ log d \/ x = stored e.
Proof. rewrite step_log, elem_of_app, list_elem_of_singleton. done. Qed.

Lemma step_definition view x def :
  definition_in d' view x def <-> definition_in d view x def \/ x = stored e /\ ev_View e = view /\ defines e def.
Proof. unfold definition_in. rewrite step_in. split; [intros ([Hx | ->] & ? & ?); [by left | by right] | intros [(? & ? & ?) | (-> & ? & ?)]; auto]. Qed.

(** An admissible definition agrees with those that its view has. *)
Lemma step_agrees def x def0 : defines e def -> definition_in d (ev_View e) x def0 ->
  vd_Entity def0 = vd_Entity def /\ vd_OwnerTeam def0 = vd_OwnerTeam def.
Proof.
  intros [Ht Hd] Hx. unfold admissible in Had. rewrite Ht in Had.
  destruct Had as (def' & Hd' & _ & _ & _ & [Hv | (_ & e1 & def1 & Hdef1 & He1 & Ho1)]); assert (def' = def) as -> by congruence.
  - exfalso. destruct (definition_facts _ _ _ _ Hok Hx) as [(_ & _ & _ & _ & e0 & def2 & (He0 & Hw0 & Hdef0) & Hv0) Hw].
    rewrite Hw in Hw0. apply list_elem_of_lookup in He0 as [i Hi].
    assert (i = length (log d)) as ->; [| apply lookup_lt_Some in Hi; lia].
    apply (pl_created _ Hpl (ev_View e) i (length (log d)) e0 (stored e) def2 def); try done.
    + rewrite step_log. by apply lookup_app_l_Some.
    + rewrite step_log, lookup_app_r, Nat.sub_diag by done. done.
  - rewrite <- He1, <- Ho1. split; [by apply (lo_entity _ Hok (ev_View e) x e1) |]. apply (owner_unique d (ev_View e)); [done | by exists x, def0 | by exists e1, def1].
Qed.

Lemma step_keeps_defined x def : well_defined d x def -> well_defined d' x def.
Proof.
  intros (Hi & Hs & Hv & (row & Hr & Ht) & e0 & def0 & Hd0 & Hv0). repeat (split; [done |]).
  split; [| exists e0, def0; split; [by eapply definition_prefix; [apply step_prefix |] | done]].
  destruct (is_kept _ _ _ step_index _ _ Hr) as (row' & Hr' & Ht'). exists row'. split; [done | congruence].
Qed.

Lemma step_new_defined def : defines e def -> well_defined d' (stored e) def.
Proof.
  intros Hdef. pose proof Hdef as [Ht Hd]. pose proof Had as Ha. unfold admissible in Ha. rewrite Ht in Ha.
  destruct Ha as (def' & Hd' & Hi & Hs & _ & Hv). assert (def' = def) as -> by congruence.
  split; [done |]. split; [done |]. split; [cbn; lia |]. split.
  - destruct (is_defined _ _ _ step_index def Hdef) as [row Hr]. exists row. split; [done |].
    destruct (view_name_index d !! ev_View e) as [row0|] eqn:E0.
    + destruct (is_kept _ _ _ step_index _ _ E0) as (row' & Hr' & Ht'). assert (row' = row) as -> by congruence.
      destruct (lo_index _ Hok _ _ E0) as (x & def0 & Hx). destruct (step_agrees def x def0 Hdef Hx) as [_ <-]. rewrite Ht'.
      apply (owner_index d (ev_View e)); [done | by exists x, def0 | done].
    + destruct (is_new _ _ _ step_index E0 row Hr) as (def0 & [_ Hd0] & ->). congruence.
  - destruct Hv as [Hv | (_ & e0 & def0 & Hd0 & _)].
    + exists (stored e), def. split; [| done]. apply step_definition. right. done.
    + destruct (definition_facts _ _ _ _ Hok Hd0) as [(_ & _ & _ & _ & e1 & def1 & Hd1 & Hv1) Hw]. rewrite Hw in Hd1.
      exists e1, def1. split; [| done]. by eapply definition_prefix; [apply step_prefix |].
Qed.

Lemma step_ok : log_ok d'.
Proof.
  constructor.
  - rewrite step_log, step_length, fmap_app, (lo_versions _ Hok). fold n. rewrite seqZ_app by lia. f_equal. cbn. rewrite Hver.
    rewrite seqZ_cons by lia. f_equal. lia.
  - rewrite step_log, fmap_app. apply list.NoDup_app. split; [apply Hok |]. split; [| apply NoDup_singleton].
    intros i Hi Hn. apply list_elem_of_singleton in Hn as ->. apply list_elem_of_fmap in Hi as (x & Hx & Hin).
    unfold log in Hin. apply list_elem_of_fmap in Hin as (r' & -> & Hr').
    destruct (insert_one_spec _ _ _ Hins) as (r & m & _ & Hs & _ & Hno). apply (Hno r' Hr'). rewrite <- (f_equal ev_ID Hs) in Hx. done.
  - intros x [Hx | ->]%step_in Ht.
    + destruct (lo_defined _ Hok x Hx Ht) as (def & Hd & Hw). exists def. split; [done | by apply step_keeps_defined].
    + pose proof Had as Ha. cbn in Ht. unfold admissible in Ha. rewrite Ht in Ha. destruct Ha as (def & Hd & _). exists def. split; [done |].
      apply step_new_defined. by split.
  - intros x [Hx | ->]%step_in; [by apply Hok | apply usec_usec].
  - intros view e1 e2 def1 def2 [H1 | (-> & <- & H1)]%step_definition [H2 | (-> & Hv & H2)]%step_definition.
    + by eapply (lo_entity _ Hok).
    + subst view. by eapply step_agrees.
    + symmetry. by eapply step_agrees.
    + destruct H1, H2. congruence.
  - intros view row Hr. destruct (decide (view = ev_View e)) as [-> | Hne].
    + destruct (view_name_index d !! ev_View e) as [row0|] eqn:E0.
      * destruct (lo_index _ Hok _ _ E0) as (x & def & Hx). exists x, def. apply step_definition. by left.
      * destruct (is_new _ _ _ step_index E0 row Hr) as (def & Hd & _). exists (stored e), def. apply step_definition. by right.
    + rewrite (is_other _ _ _ step_index) in Hr by done. destruct (lo_index _ Hok _ _ Hr) as (x & def & Hx).
      exists x, def. apply step_definition. by left.
  - apply (is_names _ _ _ step_index), Hok.
  - intros x [Hx | ->]%step_in Ht.
    + destruct (lo_written _ Hok x Hx Ht) as (? & ? & e0 & def & Hd & Hv). split; [done |]. split; [done |].
      exists e0, def. split; [apply step_definition; by left | done].
    + pose proof Had as Ha. cbn in Ht. unfold admissible in Ha. rewrite Ht in Ha. destruct Ha as (He & Hvs & e0 & def & Hd & _ & Hty).
      split; [done |]. split; [cbn; by rewrite fmap_empty_iff |]. exists e0, def. split; [apply step_definition; by left |].
      split; [| by apply typed_canonical]. pose proof (version_bounds d e0 Hok (proj1 Hd)). cbn. lia.
  - intros x [Hx | ->]%step_in Ht.
    + destruct (lo_deleted _ Hok x Hx Ht) as (e0 & def & Hd & Hv). exists e0, def. split; [apply step_definition; by left | done].
    + pose proof Had as Ha. cbn in Ht. unfold admissible in Ha. rewrite Ht in Ha. destruct Ha as (e0 & def & Hd & _).
      exists e0, def. split; [apply step_definition; by left |]. pose proof (version_bounds d e0 Hok (proj1 Hd)). cbn. lia.
  - intros key view first last Hk. assert (idempotency_keys d' = idempotency_keys d) as Hkk by
      (by destruct (insert_one_spec _ _ _ Hins) as (r & m & -> & _)). rewrite Hkk in Hk.
    destruct (lo_keys _ Hok _ _ _ _ Hk) as (? & ? & Hl & Hall). rewrite step_length. fold n in Hl.
    split; [done |]. split; [done |]. split; [lia |]. intros x [Hx | ->]%step_in Hb; [by apply Hall |]. cbn in Hb. lia.
  - intros view entity x Hx. assert (online_vec d' = online_vec d) as Hoo by
      (by destruct (insert_one_spec _ _ _ Hins) as (r & m & -> & _)). rewrite Hoo in Hx.
    destruct (lo_online _ Hok _ _ _ Hx) as (e0 & He0 & Hf). exists e0. split; [apply step_in; by left | done].
Qed.

(** The event belongs to a view of the teams of [ts]. *)
Lemma step_owner : exists t, owner d' (ev_View e) t /\ ts t.
Proof.
  pose proof Had as Ha. unfold admissible in Ha. destruct (ev_Type e) eqn:Et.
  - destruct Ha as (def & Hd & _ & _ & Ht & _). exists (vd_OwnerTeam def). split; [| done].
    exists (stored e), def. split; [| done]. apply step_definition. right. done.
  - destruct Ha as (_ & _ & e0 & def & Hd & Ht & _). exists (vd_OwnerTeam def). split; [| done].
    exists e0, def. split; [apply step_definition; by left | done].
  - destruct Ha as (e0 & def & Hd & Ht). exists (vd_OwnerTeam def). split; [| done].
    exists e0, def. split; [apply step_definition; by left | done].
Qed.

Lemma step_good : good d d'.
Proof.
  pose proof step_ok as Hok'. destruct step_owner as (t0 & Ho0 & Ht0). constructor; [done | |].
  - intros x t [Hx | ->]%step_in Hgt Ho; [pose proof (version_bounds d x Hok Hx); lia |].
    by rewrite (owner_unique d' (ev_View e) t t0 Hok' Ho Ho0).
  - intros view t Ho Hn. assert (view <> ev_View e) as Hne.
    { intros ->. apply Hn. rewrite (owner_unique d' (ev_View e) t t0 Hok'); [done | | done]. eapply owner_prefix; [apply step_prefix | done]. }
    destruct (insert_one_spec _ _ _ Hins) as (r & m & -> & _ & Hi & _). constructor; try done. by apply Hi.
Qed.
End one_event.

(** ** Transactions *)

Lemma insert_all_cons v e events d out d' : insert_all v (e :: events) d = Ok (out, d') ->
  exists d1 out', insert_one (with_version v e) d = Ok d1 /\ insert_all (wrap64 (v + 1)) events d1 = Ok (out', d') /\
    out = with_version v e :: out'.
Proof.
  cbn [insert_all]. rewrite rbind_ok. intros (d0 & Hi & Hr). rewrite rbind_ok in Hr. destruct Hr as (d1 & Hu & Hr).
  rewrite rbind_ok in Hr. destruct Hr as ([out' d2] & Hr & [= <- <-]). exists d1, out'. split; [| done].
  unfold insert_one. by rewrite Hi.
Qed.

Lemma insert_all_rows v events d out d' : insert_all v events d = Ok (out, d') ->
  feature_events d `prefix_of` feature_events d' /\ idempotency_keys d' = idempotency_keys d /\
  log d' = log d ++ (stored <$> out) /\ length out = length events /\ Forall2 (fun e o => exists v, o = with_version v e) events out.
Proof.
  revert v d out. induction events as [|e events IH]; intros v d out; [intros [= <- <-]; cbn; rewrite app_nil_r; repeat (split; [done |]); constructor |].
  intros (d1 & out' & H1 & H2 & ->)%insert_all_cons. destruct (IH _ _ _ H2) as (Hp & Hk & Hl & Hn & Hf).
  destruct (insert_one_spec _ _ _ H1) as (r & m & -> & Hs & _). split; [etrans; [by exists [r] | exact Hp] |].
  split; [by rewrite Hk |]. split; [| split; [cbn; by rewrite Hn | constructor; [by exists v | done]]].
  rewrite Hl. unfold log. cbn [feature_events put_index put_events]. rewrite fmap_app. cbn. by rewrite Hs, <- app_assoc.
Qed.

Lemma insert_all_online v events d out d' : insert_all v events d = Ok (out, d') -> online_vec d' = online_vec d.
Proof.
  revert v d out. induction events as [|e events IH]; intros v d out; [by intros [= <- <-] |].
  intros (d1 & out' & H1 & H2 & ->)%insert_all_cons. destruct (insert_one_spec _ _ _ H1) as (r & m & -> & _). by rewrite (IH _ _ _ H2).
Qed.

Lemma log_length d : length (log d) = length (feature_events d).
Proof. unfold log. apply length_fmap. Qed.

Lemma insert_all_good events d out d' v : log_ok d -> plausible d' -> Forall (admissible d) events ->
  v = Z.of_nat (length (feature_events d)) + 1 -> insert_all v events d = Ok (out, d') -> good d d'.
Proof.
  revert v d out. induction events as [|e events IH]; intros v d out Hok Hpl Had Hv; [intros [= <- <-]; by apply good_refl |].
  intros (d1 & out' & H1 & H2 & ->)%insert_all_cons. destruct (insert_all_rows _ _ _ _ _ H2) as (Hp & _).
  assert (plausible d1) as Hpl1 by (by eapply plausible_prefix). apply list.Forall_cons in Had as [He Had].
  assert (good d d1) as Hg1 by (by apply (step_good d d1 (with_version v e))).
  assert (feature_events d `prefix_of` feature_events d1) as Hp1 by (by eapply step_prefix).
  eapply good_trans; [exact Hp1 | exact Hp | done |]. eapply IH; [apply Hg1 | done | | | exact H2].
  - eapply Forall_impl; [| exact Had]. intros x. by apply admissible_prefix.
  - rewrite (step_length d d1 (with_version v e)) by done. subst v. pose proof (pl_fits _ Hpl1) as Hf.
    rewrite (step_length d d1 (with_version (Z.of_nat (length (feature_events d)) + 1) e)) in Hf by done.
    apply wrap64_id. unfold in_int64, int64_min, int64_max. lia.
Qed.

(** A range of keys recorded for events that are all of one view. *)
Lemma record_ok key view first last d : log_ok d -> key <> "" -> 1 <= first <= last ->
  last <= Z.of_nat (length (feature_events d)) -> (forall e, e ∈ log d -> first <= ev_Version e <= last -> ev_View e = view) ->
  log_ok (recordIdempotency key view first last d).
Proof.
  intros Hok Hk Hfl Hl Hall. unfold recordIdempotency. destruct (idempotency_keys d !! (key, view)); [done |].
  constructor; try apply Hok. intros key' view' first' last' Hr. cbn [idempotency_keys put_keys] in Hr.
  apply lookup_insert_Some in Hr as [[[= <- <-] [= <- <-]] | [_ Hr]]; [done | by apply (lo_keys _ Hok)].
Qed.

Lemma record_prefix key view first last d : feature_events (recordIdempotency key view first last d) = feature_events d.
Proof. unfold recordIdempotency. by destruct (idempotency_keys d !! (key, view)). Qed.

Lemma append_tx_ok key view events d out through replayed d' : append_tx key view events d = (Ok (out, through, replayed), d') ->
  replayed = false /\ exists d1, insert_all (wrap64 (head d + 1)) events d = Ok (out, d1) /\
    through = wrap64 (head d + Z.of_nat (length events)) /\
    d' = (if String.eqb key "" then d1
          else recordIdempotency key view (match out with e :: _ => ev_Version e | [] => 0 end) through d1).
Proof. unfold append_tx. destruct (insert_all _ _ _) as [[out' d1]|]; [| done]. intros [= <- <- <- <-]. split; [done |]. by exists d1. Qed.

Lemma append_tx_err key view events d err d' : append_tx key view events d = (Err err, d') -> d' = d.
Proof. unfold append_tx. destruct (insert_all _ _ _) as [[out d1]|]; [done | by intros [= _ <-]]. Qed.

Lemma append_tx_keeps key view events d r d' :
  events <> [] -> Forall (fun e => ev_View e = view) events ->
  (plausible d' -> log_ok d -> Forall (admissible d) events) ->
  append_tx key view events d = (r, d') -> keeps d d'.
Proof.
  intros Hne Hview Had Htx. destruct r as [[[out through] replayed]|err]; [| by rewrite (append_tx_err _ _ _ _ _ _ Htx)].
  apply append_tx_ok in Htx as (_ & d1 & Hins & -> & Hd').
  destruct (insert_all_rows _ _ _ _ _ Hins) as (Hp & Hk & Hl & Hn & Hf).
  assert (feature_events d' = feature_events d1) as Hfe by (subst d'; destruct (String.eqb key ""); [done | apply record_prefix]).
  constructor.
  - by rewrite Hfe.
  - rewrite <- Hk. subst d'. destruct (String.eqb key ""); [done |]. unfold recordIdempotency.
    destruct (idempotency_keys d1 !! (key, view)) eqn:E; [done |]. by apply insert_subseteq.
  - intros Hpl Hok. assert (plausible d1) as Hpl1 by (eapply plausible_prefix; [| exact Hpl]; by rewrite Hfe).
    pose proof (pl_fits _ Hpl1) as Hfit.
    assert (length (feature_events d1) = (length (feature_events d) + length events)%nat) as Hlen.
    { rewrite <- !log_length, Hl, length_app, length_fmap. lia. }
    assert (forall k, 0 <= k <= Z.of_nat (length events) -> wrap64 (head d + k) = Z.of_nat (length (feature_events d)) + k) as Hw.
    { intros k Hkk. rewrite head_length by done. apply wrap64_id. unfold in_int64, int64_min, int64_max. lia. }
    destruct events as [|e events]; [done |].
    assert (good d d1) as Hg by (eapply insert_all_good; [exact Hok | exact Hpl1 | by apply Had | | exact Hins]; apply Hw; simpl; lia).
    destruct (String.eqb_spec key "") as [| Hkey]; [by subst d' |].
    destruct out as [|o out]; [done |]. pose proof (g_ok _ _ Hg) as Hok1.
    assert (forall x, x ∈ stored <$> o :: out -> ev_View x = view) as Hvo.
    { intros x (y & -> & Hy)%list_elem_of_fmap. apply list_elem_of_lookup in Hy as [i Hi].
      destruct (Forall2_lookup_r _ _ _ _ _ Hf Hi) as (z & Hz & v & ->). rewrite list.Forall_forall in Hview.
      apply (Hview z). by eapply list_elem_of_lookup_2. }
    assert (ev_Version o = Z.of_nat (length (feature_events d)) + 1) as Hfirst.
    { assert (log d1 !! length (log d) = Some (stored o)) as Hlk by (rewrite Hl, lookup_app_r, Nat.sub_diag by done; done).
      pose proof (version_index d1 _ _ Hok1 Hlk) as Hv. cbn in Hv. rewrite log_length in Hv. exact Hv. }
    constructor.
    + subst d'. apply record_ok; [done | done | rewrite Hfirst, Hw by (simpl; lia); simpl; lia | rewrite Hw by (simpl; lia); simpl in *; lia |].
      intros x Hx Hb. rewrite Hl in Hx. apply elem_of_app in Hx as [Hx | Hx]; [| by apply Hvo].
      pose proof (version_bounds d x Hok Hx). lia.
    + intros x t Hx Hgt (e0 & def & (He0 & Hd0) & Ht). unfold log in Hx, He0. rewrite Hfe in Hx, He0.
      apply (g_new _ _ Hg x); [exact Hx | exact Hgt | by exists e0, def].
    + intros view' t Ho Hnt. pose proof (g_apart _ _ Hg view' t Ho Hnt) as Hsr. subst d'. unfold recordIdempotency.
      destruct (idempotency_keys d1 !! (key, view)); [exact Hsr |]. destruct Hsr. constructor; try done.
      intros key'. cbn [idempotency_keys put_keys]. rewrite lookup_insert_ne; [apply sr_keys0 |]. intros [= -> ->].
      assert (stored o ∈ log d1) as Hin by (rewrite Hl; apply elem_of_app; right; apply list_elem_of_here).
      apply Hnt. apply (g_new _ _ Hg (stored o) t Hin); [cbn; lia |].
      rewrite (Hvo (stored o)) by (apply list_elem_of_here). by eapply owner_prefix.
Qed.

(** ** Redis commands and offline rebuilds *)

(** Only the caches of one view move, and the vectors stay facts of the log. *)
Record cache_step (view : string) (d d' : store) : Prop := {
  cs_events : feature_events d' = feature_events d;
  cs_index : view_name_index d' = view_name_index d;
  cs_keys : idempotency_keys d' = idempotency_keys d;
  cs_offline : forall v entity, v <> view -> offline_view d' !! (v, entity) = offline_view d !! (v, entity);
  cs_online : forall v entity, v <> view -> online_vec d' !! (v, entity) = online_vec d !! (v, entity);
  cs_entities : forall v, v <> view -> online_entities d' !! v = online_entities d !! v;
}.

Lemma cache_keeps view d d' : cache_step view d d' ->
  (plausible d -> log_ok d -> (exists t, owner d view t /\ ts t) /\
     forall entity x, online_vec d' !! (view, entity) = Some x ->
       online_vec d !! (view, entity) = Some x \/ exists e, e ∈ log d /\ fact_of view entity e x) ->
  keeps d d'.
Proof.
  intros [He Hi Hk Ho Hv Hs] Hc.
  assert (log d' = log d) as Hl by (unfold log; by rewrite He).
  assert (forall v e def, definition_in d' v e def <-> definition_in d v e def) as Hdef by (intros; unfold definition_in; by rewrite Hl).
  assert (forall v t, owner d' v t <-> owner d v t) as Hown by (intros; unfold owner; by setoid_rewrite Hdef).
  constructor; [by rewrite He | by rewrite Hk |]. intros Hpl Hok.
  assert (plausible d) as Hpl0 by (eapply plausible_prefix; [| exact Hpl]; by rewrite He).
  destruct (Hc Hpl0 Hok) as [(t0 & Ht0 & Hts) Hfacts]. constructor.
  - destruct Hok. constructor; rewrite ?Hl, ?He, ?Hi, ?Hk; try done.
    + intros e Hin Ht. destruct (lo_defined0 e Hin Ht) as (def & Hd & H1 & H2 & H3 & H4 & e0 & def0 & H5 & H6). exists def. split; [done |].
      split; [done |]. split; [done |]. split; [done |]. split; [by rewrite Hi |]. exists e0, def0. by rewrite Hdef.
    + intros v e1 e2 def1 def2. rewrite !Hdef. apply lo_entity0.
    + intros v row Hr. setoid_rewrite Hdef. by eapply lo_index0.
    + intros e Hin Ht. destruct (lo_written0 e Hin Ht) as (? & ? & e0 & def & Hd & ?). split; [done |]. split; [done |].
      exists e0, def. by rewrite Hdef.
    + intros e Hin Ht. setoid_rewrite Hdef. by apply lo_deleted0.
    + intros v entity x Hx. destruct (decide (v = view)) as [-> | Hne]; [| rewrite Hv in Hx by done; by apply lo_online0].
      destruct (Hfacts entity x Hx) as [Hx' | ?]; [by apply lo_online0 | done].
  - intros e t. rewrite Hl. intros Hin Hgt. pose proof (version_bounds d e Hok Hin). lia.
  - intros v t Hvt Hn. assert (v <> view) as Hne by (intros ->; apply Hn; by rewrite (owner_unique d view t t0)).
    constructor; [by rewrite Hi | by rewrite Hk | auto | auto | auto].
Qed.

Lemma cmd_set_step view entity x d : cache_step view d (cmd_set view entity x d).
Proof. constructor; try done. intros v e Hne. cbn. rewrite lookup_insert_ne; [done | congruence]. Qed.
Lemma cmd_sadd_step view entity d : cache_step view d (cmd_sadd view entity d).
Proof. constructor; try done. intros v Hne. cbn. by rewrite lookup_insert_ne. Qed.
Lemma cmd_del_step view entity d : cache_step view d (cmd_del view entity d).
Proof. constructor; try done. intros v e Hne. cbn. rewrite lookup_delete_ne; [done | congruence]. Qed.
Lemma cmd_del_entities_step view d : cache_step view d (cmd_del_entities view d).
Proof. constructor; try done. intros v Hne. cbn. by rewrite lookup_delete_ne. Qed.

Lemma RebuildOffline_step view vectors d r d' : RebuildOffline view vectors d = (r, d') -> cache_step view d d' /\ online_vec d' = online_vec d.
Proof.
  unfold RebuildOffline. destruct (forallb _ _); intros [= _ <-]; [| by split; constructor]. split; [| done]. constructor; try done.
  intros v entity Hne. cbn. unfold offline_rows. rewrite lookup_union_r.
  - destruct (offline_view d !! (v, entity)) as [row|] eqn:E.
    + by apply map_lookup_filter_Some.
    + apply map_lookup_filter_None. by left.
  - apply lookup_kmap_None; [apply _ |]. intros i [= ? ?]. done.
Qed.
End keeps.
End invariant.
