(* ===== verification/FeatureStore.v ===== *)
(** * The feature store's service

    The use cases of [services/feature-store/internal/domain/featurestore_service_impl.go]
    as programs of store calls, clock readings and ids, so that requests interleave
    call by call. Copies of slices and maps ([slices.Clone], [cloneValues]) are the
    values themselves. *)

From S2P Require Import Prelude Concur Site FeatureModel FeatureLog.
Open Scope fp_scope.

Definition adminScope : string := "features:admin".

Section service.
Context {W : Type} `{Outside W} `{FeatureOutside W}.
Abbreviation go := (prog (site W store)) (only parsing).

(** ** Helpers *)

Definition foldViewByID (id : string) : go (result FeatureView fs_error) :=
  do! events := query (fun _ => LoadView id) in
  match events with
  | Err err => Ret (Err (if errors_is err ErrEventLogNotFound then Sentinel ErrViewNotFound else Wrap "load view events" err))
  | Ok events =>
      let '(view, ok) := foldView events in
      Ret (if ok then Ok view else Err (Sentinel ErrViewNotFound))
  end.

Definition authorizedView (p : Principal) (id : string) : go (result FeatureView fs_error) :=
  if String.eqb id "" then Ret (Err (invalid "feature_view_id is required"))
  else
    do! view := foldViewByID id in
    try view (fun err => err) (fun view =>
      Ret (if negb (String.eqb (fv_OwnerTeam view) (Team p)) then Err (Sentinel ErrViewNotFound) else Ok view)).

(** ** Definitions *)

Definition definition_event (p : Principal) (input : DefineFeatureViewInput) (viewID : string) (version : Z)
    (now : time) (id : string) : FeatureEvent := {|
  ev_ID := id; ev_Type := FeatureEventViewDefined; ev_View := viewID; ev_Version := 0; ev_EntityID := "";
  ev_Values := ∅; ev_EventTime := now;
  ev_ViewDef := Some {| vd_ID := viewID; vd_Name := df_Name input; vd_Description := df_Description input;
                        vd_Entity := df_Entity input; vd_Features := df_Features input; vd_SchemaVersion := version;
                        vd_OwnerUserID := UserID p; vd_OwnerTeam := Team p |};
  ev_AppendedAt := now |}.

Definition appendViewDefinition (p : Principal) (input : DefineFeatureViewInput) (viewID : string) (version : Z)
    : go (result FeatureView fs_error) :=
  do! now := ask Now in
  do! id := ask NewID in
  do! appended := Append (df_IdempotencyKey input) [definition_event p input viewID version now id] in
  try appended (Wrap "append view definition") (fun _ => foldViewByID viewID).

Definition DefineFeatureView (p : Principal) (input : DefineFeatureViewInput) : go (result FeatureView fs_error) :=
  match validateDefineInput input with
  | Err err => Ret (Err err)
  | Ok _ =>
      do! existing := query (fun _ => ResolveViewIDByName (Team p) (df_Name input)) in
      match existing with
      | Ok existingID =>
          do! current := foldViewByID existingID in
          try current (fun err => err) (fun current =>
            if negb (bool_decide (fv_Entity current = df_Entity input)) then
              Ret (Err (Wrap "cannot redefine" (Sentinel ErrViewNameConflict)))
            else appendViewDefinition p input (fv_ID current) (wrap64 (fv_SchemaVersion current + 1)))
      | Err err =>
          if errors_is err ErrEventLogNotFound then
            do! id := ask NewID in
            appendViewDefinition p input id 1
          else Ret (Err (Wrap "resolve view by name" err))
      end
  end.

Definition GetFeatureViewByID (p : Principal) (id : string) : go (result FeatureView fs_error) := authorizedView p id.

Definition GetFeatureViewByName (p : Principal) (name : string) : go (result FeatureView fs_error) :=
  do! id := query (fun _ => ResolveViewIDByName (Team p) name) in
  match id with
  | Err err => Ret (Err (if errors_is err ErrEventLogNotFound then Sentinel ErrViewNotFound else Wrap "resolve view by name" err))
  | Ok id => authorizedView p id
  end.

Fixpoint fold_views (ids : list string) : go (result (list FeatureView) fs_error) :=
  match ids with
  | [] => Ret (Ok [])
  | id :: ids =>
      do! v := foldViewByID id in
      try v (Wrap "fold listed view") (fun v =>
        do! vs := fold_views ids in
        try vs (fun err => err) (fun vs => Ret (Ok (v :: vs))))
  end.

Definition ListFeatureViews (p : Principal) (nameFilter : string) (opts : ListOptions)
    : go (result (list FeatureView * string) fs_error) :=
  do! page := query (fun _ d => Ok (ListViewIDs (Team p) nameFilter (clampPage opts) d)) in
  try page (Wrap "list view ids") (fun page =>
    let '(ids, next) := page in
    do! views := fold_views ids in
    try views (fun err => err) (fun views => Ret (Ok (views, next)))).

(** ** Writes *)

Definition write_event (view : string) (now : time) (row : FeatureRow) (id : string) : FeatureEvent := {|
  ev_ID := id; ev_Type := FeatureEventValuesWritten; ev_View := view; ev_Version := 0; ev_EntityID := row_EntityID row;
  ev_Values := row_Values row; ev_EventTime := (if time_is_zero (row_EventTime row) then now else row_EventTime row);
  ev_ViewDef := None; ev_AppendedAt := now |}.

(** The loop that checks every row and builds its event. *)
Fixpoint build_events (view : FeatureView) (now : time) (rows : list FeatureRow) : go (result (list FeatureEvent) fs_error) :=
  match rows with
  | [] => Ret (Ok [])
  | row :: rows =>
      do! vs := ask (enumerate (row_Values row)) in
      match validateRow view row vs with
      | Err err => Ret (Err (Wrap "row" err))
      | Ok _ =>
          do! id := ask NewID in
          do! events := build_events view now rows in
          try events (fun err => err) (fun events => Ret (Ok (write_event (fv_ID view) now row id :: events)))
      end
  end.

Definition WriteFeatures (p : Principal) (input : WriteFeaturesInput) : go (result WriteFeaturesResult fs_error) :=
  if (MaxBatchSize <? length (wf_Rows input))%nat then Ret (Err (Wrap "rows" (Sentinel ErrBatchTooLarge)))
  else if bool_decide (wf_Rows input = []) then Ret (Err (invalid "no feature rows to write"))
  else
    do! view := authorizedView p (wf_FeatureViewID input) in
    try view (fun err => err) (fun view =>
    if IsDeleted view then Ret (Err (Wrap (fv_ID view) (Sentinel ErrViewDeleted)))
    else
    do! now := ask Now in
    do! events := build_events view now (wf_Rows input) in
    try events (fun err => err) (fun events =>
    do! appended := Append (wf_IdempotencyKey input) events in
    try appended (Wrap "append feature events") (fun appended =>
    let '(appended, writtenThrough, replayed) := appended in
    let latest := ProjectLatest appended (fv_SchemaVersion view) in
    do! put := Put (fv_ID view) latest in
    try put (Wrap "update online projection (write durable in log)") (fun _ =>
    Ret (Ok {| WrittenCount := Z.of_nat (length appended); WrittenThroughVersion := writtenThrough;
               AffectedEntityIDs := dedupeStrings (row_EntityID <$> wf_Rows input) |}))))).

(** ** Reads *)

Definition GetOnlineFeatures (p : Principal) (input : GetOnlineFeaturesInput) : go (result FeatureVectorPage fs_error) :=
  if (MaxBatchSize <? length (go_EntityIDs input))%nat then Ret (Err (Wrap "entities" (Sentinel ErrBatchTooLarge)))
  else
    do! view := authorizedView p (go_FeatureViewID input) in
    try view (fun err => err) (fun view =>
    do! found := GetLatest (fv_ID view) (go_EntityIDs input) in
    try found (Wrap "online get") (fun found =>
    Ret (Ok (assemblePage (go_EntityIDs input) found (go_FeatureNames input) "")))).

(** The requested part of a projection. *)
Definition requested_of (ids : list string) (proj : gmap string FeatureVector) : gmap string FeatureVector :=
  foldl (fun out id => match proj !! id with Some v => <[id := v]> out | None => out end) ∅ ids.

Definition GetHistoricalFeatures (p : Principal) (input : GetHistoricalFeaturesInput) : go (result FeatureVectorPage fs_error) :=
  if time_is_zero (gh_AsOf input) then Ret (Err (Sentinel ErrAsOfRequired))
  else if (MaxBatchSize <? length (gh_EntityIDs input))%nat then Ret (Err (Wrap "entities" (Sentinel ErrBatchTooLarge)))
  else
    do! view := authorizedView p (gh_FeatureViewID input) in
    try view (fun err => err) (fun view =>
    do! events := query (fun _ => Load (fv_ID view)) in
    match events with
    | Err err =>
        Ret (if errors_is err ErrEventLogNotFound
             then Ok (assemblePage (gh_EntityIDs input) ∅ (gh_FeatureNames input) "")
             else Err (Wrap "load log" err))
    | Ok events =>
        let asOfView := ProjectAsOf events (gh_AsOf input) (fv_SchemaVersion view) in
        Ret (Ok (assemblePage (gh_EntityIDs input) (requested_of (gh_EntityIDs input) asOfView) (gh_FeatureNames input) ""))
    end).

(** ** Deletion *)

Definition deletion_event (view : string) (now : time) (id : string) : FeatureEvent := {|
  ev_ID := id; ev_Type := FeatureEventViewDeleted; ev_View := view; ev_Version := 0; ev_EntityID := "";
  ev_Values := ∅; ev_EventTime := now; ev_ViewDef := None; ev_AppendedAt := now |}.

Definition DeleteFeatureView (p : Principal) (featureViewID idempotencyKey : string) : go (result FeatureView fs_error) :=
  do! view := authorizedView p featureViewID in
  try view (fun err => err) (fun view =>
  if IsDeleted view then Ret (Ok view)
  else
  do! now := ask Now in
  do! id := ask NewID in
  do! appended := Append idempotencyKey [deletion_event (fv_ID view) now id] in
  try appended (Wrap "append delete event") (fun _ =>
  do! purged := Purge (fv_ID view) in
  try purged (Wrap "purge online projection") (fun _ =>
  foldViewByID (fv_ID view)))).

(** ** Rebuilds *)

Definition targets (online : bool) (t : RebuildTarget) : bool :=
  match t with RebuildTargetAll => true | RebuildTargetOnline => online | RebuildTargetOffline => negb online end.

Definition rebuild_online (target : RebuildTarget) (id : string) (view : FeatureView) (events : list FeatureEvent)
    : go (result unit fs_error) :=
  if targets true target then
    do! purged := Purge id in
    try purged (Wrap "purge online for rebuild") (fun _ =>
      if IsDeleted view then Ret (Ok tt)
      else
        do! put := Put id (ProjectLatest events (fv_SchemaVersion view)) in
        try put (Wrap "rebuild online") (fun _ => Ret (Ok tt)))
  else Ret (Ok tt).

Definition rebuild_offline (target : RebuildTarget) (id : string) (view : FeatureView) (events : list FeatureEvent)
    : go (result unit fs_error) :=
  if targets false target then
    do! r := transact (RebuildOffline id (ProjectLatest events (fv_SchemaVersion view))) in
    try r (Wrap "rebuild offline") (fun _ => Ret (Ok tt))
  else Ret (Ok tt).

Definition emit (frame : RebuildProgress) : go (result unit fs_error) :=
  do! r := ask (send frame) in
  Ret (match r with None => Ok tt | Some text => Err (External text) end).

(** The loop over the views, with the count of events replayed so far. *)
Fixpoint rebuild_all (target : RebuildTarget) (ids : list string) (replayed : Z) : go (result Z fs_error) :=
  match ids with
  | [] => Ret (Ok replayed)
  | id :: ids =>
      do! events := query (fun _ => Load id) in
      match events with
      | Err err =>
          if errors_is err ErrEventLogNotFound then rebuild_all target ids replayed
          else Ret (Err (Wrap "load log for rebuild" err))
      | Ok events =>
          let '(view, _) := foldView events in
          do! online := rebuild_online target id view events in
          try online (fun err => err) (fun _ =>
          do! offline := rebuild_offline target id view events in
          try offline (fun err => err) (fun _ =>
          let replayed := wrap64 (replayed + Z.of_nat (length events)) in
          do! sent := emit {| EventsReplayed := replayed; TotalEvents := -1; CurrentFeatureViewID := id; Done := false |} in
          try sent (Wrap "emit progress") (fun _ => rebuild_all target ids replayed)))
      end
  end.

Definition RebuildViews (p : Principal) (input : RebuildViewsInput) : go (result unit fs_error) :=
  if negb (bool_decide (adminScope ∈ Scopes p)) then Ret (Err (invalid "RebuildViews requires the scope"))
  else
    do! viewIDs :=
      (if negb (String.eqb (rb_FeatureViewID input) "") then
         do! v := authorizedView p (rb_FeatureViewID input) in
         try v (fun err => err) (fun v => Ret (Ok [fv_ID v]))
       else
         do! page := query (fun _ d => Ok (ListViewIDs (Team p) "" {| PageSize := MaxPageSize; PageToken := "" |} d)) in
         try page (Wrap "list views for rebuild") (fun page => Ret (Ok page.1))) in
    try viewIDs (fun err => err) (fun viewIDs =>
    do! replayed := rebuild_all (rb_Target input) viewIDs 0 in
    try replayed (fun err => err) (fun replayed =>
    emit {| EventsReplayed := replayed; TotalEvents := replayed; CurrentFeatureViewID := ""; Done := true |})).
End service.
