(* ===== verification/FeatureSafety.v ===== *)
(** * The feature store under any interleaving of requests

    Requests of any principals run call by call in any order, over a failing database
    and a failing Redis: the log stays gap-free and typed, the online view tells facts
    of the log, and a team's views change only by requests of that team. *)

From S2P Require Import Prelude Concur Site FeatureModel FeatureLog FeatureTables FeatureStore.
Open Scope fp_scope.

Lemma requested_lookup ids (proj : gmap string FeatureVector) id :
  requested_of ids proj !! id = if bool_decide (id ∈ ids) then proj !! id else None.
Proof.
  unfold requested_of. induction ids as [|i ids IH] using rev_ind; [by rewrite bool_decide_eq_false_2 by (by apply not_elem_of_nil) |].
  rewrite foldl_app. cbn [foldl]. set (out := foldl _ _ _) in *. destruct (decide (id = i)) as [-> | Hne].
  - rewrite (bool_decide_eq_true_2 (i ∈ ids ++ [i])) by set_solver.
    destruct (proj !! i) eqn:E; [by rewrite lookup_insert_eq |]. rewrite IH. by case_bool_decide.
  - assert (bool_decide (id ∈ ids ++ [i]) = bool_decide (id ∈ ids)) as -> by (apply bool_decide_ext; set_solver).
    destruct (proj !! i); by rewrite ?lookup_insert_ne by done.
Qed.

Section safety.
Context {W : Type} `{Outside W} `{FeatureOutside W}.
Variable ts : string -> Prop.

Definition feature_regime : regime store := {|
  write := keeps ts; Site.keeps := keeps ts; write_keeps _ _ Hw := Hw |}.

#[local] Notation grows := (Site.keeps feature_regime).
#[local] Notation safe := (Site.safe (W := W) feature_regime).
#[local] Notation or_error := (Site.or_error (E := fs_error)).

Definition ok (d : store) : Prop := plausible d -> log_ok d.

Lemma grows_prefix d d' : grows d d' -> feature_events d `prefix_of` feature_events d'.
Proof. apply (k_prefix ts). Qed.

Lemma grows_plausible d d' : grows d d' -> plausible d' -> plausible d.
Proof. intros Hg. apply plausible_prefix. by apply grows_prefix. Qed.

Lemma grows_ok d d' : grows d d' -> ok d -> ok d'.
Proof. intros Hg Hok Hpl. apply (k_good _ _ _ Hg Hpl), Hok. by eapply grows_plausible. Qed.

(** ** What a request knows of later stores *)

(** The view was folded from a definition that the log has. *)
Definition view_known (id : string) (v : FeatureView) (d : store) : Prop :=
  plausible d -> fv_ID v = id /\ exists e def, definition_in d id e def /\ taken_from def v.

Definition view_in (team : string) (id : string) (v : FeatureView) (d : store) : Prop :=
  view_known id v d /\ fv_OwnerTeam v = team.

Lemma view_known_grows id v d d' : grows d d' -> view_known id v d -> view_known id v d'.
Proof.
  intros Hg Hv Hpl. destruct Hv as (Hid & e & def & Hd & Ht); [by eapply grows_plausible |]. split; [done |].
  exists e, def. split; [| done]. eapply definition_prefix; [by apply grows_prefix | done].
Qed.

Lemma view_in_grows team id v d d' : grows d d' -> view_in team id v d -> view_in team id v d'.
Proof. intros Hg [Hv Ht]. split; [by eapply view_known_grows | done]. Qed.

Lemma view_in_owner team id v d : view_in team id v d -> plausible d -> owner d id team.
Proof.
  intros [Hv <-] Hpl. destruct (Hv Hpl) as (_ & e & def & Hd & (_ & _ & _ & _ & _ & _ & _ & ->)). by exists e, def.
Qed.

Lemma view_in_id team id v d : view_in team id v d -> plausible d -> fv_ID v = id.
Proof. intros [Hv _] Hpl. by destruct (Hv Hpl). Qed.

(** ** Reads of the log *)

Lemma elem_of_select p d e : e ∈ select_events p d <-> exists r, r ∈ feature_events d /\ p r = true /\ e = scanEvent r.
Proof.
  unfold select_events. rewrite list_elem_of_fmap. setoid_rewrite merge_sort_Permutation.
  setoid_rewrite list_elem_of_In at 1. setoid_rewrite filter_In. setoid_rewrite <- list_elem_of_In.
  split; [intros (r & -> & Hr & Hp); by exists r | intros (r & Hr & Hp & ->); by exists r].
Qed.

Lemma select_in p d e : e ∈ select_events p d -> e ∈ log d.
Proof. intros (r & Hr & _ & ->)%elem_of_select. unfold log. by apply list_elem_of_fmap_2. Qed.

Lemma select_view p view d e : (forall r, p r = true -> of_view view r = true) -> e ∈ select_events p d -> ev_View e = view.
Proof. intros Hp (r & _ & Hr & ->)%elem_of_select. by apply Hp, String.eqb_eq in Hr. Qed.

Lemma query_select p d events : queryEvents p d = Ok events -> events = select_events p d.
Proof. unfold queryEvents. by destruct (select_events p d); intros [= <-]. Qed.

Lemma safe_foldViewByID base id : ok base -> safe base (foldViewByID id) (or_error (view_known id)).
Proof.
  intros Hok. unfold foldViewByID. apply safe_query. intros d w r Hg Hr.
  destruct r as [events|err]; [| destruct (errors_is err _); apply safe_fail].
  destruct Hr as [Hr | Hr]; [| done]. symmetry in Hr. apply query_select in Hr.
  destruct (foldView events) as [view []] eqn:Ef; [| apply safe_fail]. apply safe_ret. intros d' Hg'.
  apply (view_known_grows _ _ d); [done |]. intros Hpl. pose proof (grows_ok _ _ Hg Hok Hpl) as Hlog.
  apply foldView_definition in Ef as (e & def & He & Hd & Ht). rewrite Hr in He.
  assert (ev_View e = id) as Hv by (eapply select_view; [| exact He]; by intros r [? ?]%andb_true_iff).
  assert (definition_in d id e def) as Hdef by (split; [by eapply select_in | done]).
  split; [| by exists e, def]. destruct (definition_facts _ _ _ _ Hlog Hdef) as [(Hi & _) _].
  destruct Ht as (-> & _). congruence.
Qed.

Lemma safe_authorizedView base p id : ok base ->
  safe base (authorizedView p id) (or_error (view_in (Team p) id)).
Proof.
  intros Hok. unfold authorizedView. destruct (String.eqb id ""); [apply safe_fail |].
  eapply safe_try; [by apply safe_foldViewByID |]. intros v d Hg Hv.
  destruct (String.eqb_spec (fv_OwnerTeam v) (Team p)); cbn [negb]; [| apply safe_fail].
  apply safe_ret. intros d' Hg'. split; [by eapply view_known_grows | done].
Qed.

(** ** Append *)

(** An event of the log that answers for the event handed back. *)
Definition shadow (d : store) (view : string) (o : FeatureEvent) : Prop :=
  exists e, e ∈ log d /\ ev_View e = view /\ ev_Type e = ev_Type o /\ ev_EntityID e = ev_EntityID o /\
    ev_Version e = ev_Version o /\ toJSONValue <$> ev_Values e = toJSONValue <$> ev_Values o /\
    ev_EventTime e = usec (ev_EventTime o).

Record appended (key view : string) (events : list FeatureEvent) (r : list FeatureEvent * Z * bool) (d : store) : Prop := {
  ap_shadow : Forall (shadow d view) r.1.1;
  ap_versions : ev_Version <$> r.1.1 = seqZ (r.1.2 - Z.of_nat (length r.1.1) + 1) (Z.of_nat (length r.1.1));
  ap_through : (0 < length r.1.1)%nat /\ r.1.2 <= Z.of_nat (length (feature_events d));
  ap_fresh : r.2 = false -> Forall2 (fun e o => exists v, o = with_version v e) events r.1.1;
  ap_key : key = "" -> r.2 = false;
}.

Lemma shadow_prefix d d' view o : feature_events d `prefix_of` feature_events d' -> shadow d view o -> shadow d' view o.
Proof. intros Hp (e & He & ?). exists e. split; [by eapply log_in | done]. Qed.

Lemma appended_grows key view events r d d' : grows d d' -> (plausible d -> appended key view events r d) ->
  plausible d' -> appended key view events r d'.
Proof.
  intros Hg Ha Hpl. destruct Ha as [H1 H2 [H3 H3'] H4 H5]; [by eapply grows_plausible |]. constructor; try done.
  - eapply Forall_impl; [| exact H1]. intros o. apply shadow_prefix. by apply grows_prefix.
  - split; [done |]. pose proof (prefix_length _ _ (grows_prefix _ _ Hg)). lia.
Qed.

Lemma canonical_shadow d view o : stored o ∈ log d -> ev_View o = view -> shadow d view o.
Proof.
  intros Hin Hv. exists (stored o). split; [done |]. split; [done |]. repeat (split; [done |]). split; [| done].
  cbn. rewrite <- map_fmap_compose. apply map_fmap_ext. intros i x _. apply canonical_json.
Qed.

Lemma log_sorted d : log_ok d -> StronglySorted version_le_row (feature_events d) /\ NoDup (r_Version <$> feature_events d).
Proof.
  intros Hok. pose proof (lo_versions _ Hok) as Hv. unfold log in Hv. rewrite <- list_fmap_compose in Hv.
  change (ev_Version ∘ scanEvent) with r_Version in Hv. split; [| rewrite Hv; apply NoDup_seqZ].
  revert Hv. generalize 1. generalize (feature_events d) as rows. induction rows as [|r rows IH]; intros k; [constructor |].
  cbn [length fmap list_fmap]. rewrite seqZ_cons by lia. intros [= Hr Hrest].
  replace (Z.pred (Z.of_nat (S (length rows)))) with (Z.of_nat (length rows)) in Hrest by lia.
  constructor; [by eapply IH |]. apply list.Forall_forall. intros r' Hr'. unfold version_le_row.
  assert (r_Version r' ∈ r_Version <$> rows) as Hin by (by apply list_elem_of_fmap_2). rewrite Hrest in Hin. apply elem_of_seqZ in Hin. lia.
Qed.

(** In a good log [ORDER BY version] is the order of insertion. *)
Lemma select_plain p d : log_ok d -> select_events p d = scanEvent <$> List.filter p (feature_events d).
Proof.
  intros Hok. destruct (log_sorted d Hok) as [Hs Hd]. unfold select_events. f_equal.
  assert (List.filter p (feature_events d) = filter (fun r => Is_true (p r)) (feature_events d)) as ->.
  { clear. induction (feature_events d) as [|r rows IH]; [done |]. cbn [List.filter]. rewrite filter_cons, IH.
    destruct (p r); [by rewrite decide_True | by rewrite decide_False by (by intros [])]. }
  apply (merge_sort_id version_le_row); [by apply StronglySorted_filter |]. intros x y Hx Hy H1 H2.
  apply list_elem_of_filter in Hx as [_ Hx], Hy as [_ Hy]. unfold version_le_row in *.
  apply list_elem_of_lookup in Hx as [i Hi], Hy as [j Hj].
  assert (i = j) as ->; [| congruence]. apply (NoDup_lookup _ i j (r_Version x) Hd); rewrite list_lookup_fmap; [by rewrite Hi |].
  rewrite Hj. simpl. f_equal. lia.
Qed.

Lemma select_distinct p d : log_ok d -> versions_distinct (select_events p d).
Proof.
  intros Hok. unfold versions_distinct. rewrite select_plain by done. rewrite <- list_fmap_compose.
  change (ev_Version ∘ scanEvent) with r_Version. destruct (log_sorted d Hok) as [_ Hnd]. revert Hnd.
  generalize (feature_events d) as rows. clear. induction rows as [|r rows IH]; [constructor |]. cbn. intros [Hr Hnd]%list.NoDup_cons.
  destruct (p r); [| by apply IH]. cbn. apply list.NoDup_cons. split; [| by apply IH].
  intros (r' & Heq & Hin)%list_elem_of_fmap. apply Hr. rewrite Heq. apply list_elem_of_fmap_2.
  apply list_elem_of_In, filter_In in Hin as [Hin _]. by apply list_elem_of_In.
Qed.

Lemma range_versions (f l n : Z) : 1 <= f -> f <= l -> l <= n ->
  List.filter (fun v => (f <=? v) && (v <=? l)) (seqZ 1 n) = seqZ f (l - f + 1).
Proof.
  intros H1 H2 H3. replace n with ((f - 1) + ((l - f + 1) + (n - l))) by lia. rewrite seqZ_app, seqZ_app by lia.
  rewrite !List.filter_app.
  assert (forall a b, a + b <= f \/ l < a -> List.filter (fun v => (f <=? v) && (v <=? l)) (seqZ a b) = []) as Hnone.
  { intros a b Hab. destruct (List.filter _ _) as [|x xs] eqn:E; [done |]. exfalso.
    assert (List.In x (List.filter (fun v => (f <=? v) && (v <=? l)) (seqZ a b))) as Hin by (rewrite E; by left).
    apply filter_In in Hin as [Hx Hb]. apply list_elem_of_In, elem_of_seqZ in Hx. bool_to_prop. lia. }
  rewrite (Hnone 1), (Hnone (1 + (f - 1) + (l - f + 1))) by lia. rewrite app_nil_r. cbn [app].
  replace (1 + (f - 1)) with f by lia.
  assert (forall xs : list Z, (forall x, x ∈ xs -> f <= x <= l) -> List.filter (fun v => (f <=? v) && (v <=? l)) xs = xs) as Hall.
  { induction xs as [|x xs IH]; intros Hx; [done |]. cbn [List.filter].
    rewrite (proj2 (Z.leb_le f x)), (proj2 (Z.leb_le x l)) by (apply Hx; set_solver). cbn [andb]. f_equal. apply IH. set_solver. }
  apply Hall. intros x Hx. apply elem_of_seqZ in Hx. lia.
Qed.

Lemma loadRange_versions d first last : log_ok d -> 1 <= first <= last -> last <= Z.of_nat (length (feature_events d)) ->
  ev_Version <$> loadRange first last d = seqZ first (last - first + 1).
Proof.
  intros Hok Hfl Hl. unfold loadRange. rewrite select_plain by done. rewrite <- list_fmap_compose.
  change (ev_Version ∘ scanEvent) with r_Version.
  rewrite <- (range_versions first last (Z.of_nat (length (feature_events d)))) by lia.
  rewrite <- (lo_versions _ Hok). unfold log. rewrite <- list_fmap_compose. change (ev_Version ∘ scanEvent) with r_Version.
  clear. induction (feature_events d) as [|r rows IH]; [done |]. cbn. destruct ((first <=? r_Version r) && (r_Version r <=? last)); cbn; by rewrite IH.
Qed.

Lemma replay_appended key view events first last d : log_ok d -> lookupIdempotency key view d = Some (first, last) ->
  appended key view events (loadRange first last d, last, true) d.
Proof.
  intros Hok Hk. destruct (lo_keys _ Hok _ _ _ _ Hk) as (Hkey & Hfl & Hl & Hall).
  pose proof (loadRange_versions d first last Hok Hfl Hl) as Hv.
  assert (length (loadRange first last d) = Z.to_nat (last - first + 1)) as Hlen.
  { rewrite <- (length_fmap ev_Version), Hv, length_seqZ. done. }
  constructor; cbn [fst snd]; [| | rewrite Hlen; lia | done | done].
  - apply list.Forall_forall. intros o Ho. assert (o ∈ log d) as Hin by (by eapply select_in).
    exists o. split; [done |]. split.
    + apply Hall; [done |]. assert (ev_Version o ∈ ev_Version <$> loadRange first last d) as Hvo by (by apply list_elem_of_fmap_2).
      rewrite Hv in Hvo. apply elem_of_seqZ in Hvo. lia.
    + repeat (split; [done |]). symmetry. by apply (lo_micro _ Hok).
  - rewrite Hv, Hlen. f_equal; lia.
Qed.

Lemma out_versions d d' out : log_ok d -> log_ok d' -> log d' = log d ++ (stored <$> out) ->
  ev_Version <$> out = seqZ (Z.of_nat (length (feature_events d)) + 1) (Z.of_nat (length out)).
Proof.
  intros Hok Hok' Hl. pose proof (lo_versions _ Hok') as Hv.
  assert (length (feature_events d') = (length (feature_events d) + length out)%nat) as Hlen by (rewrite <- !log_length, Hl, length_app, length_fmap; done).
  rewrite Hl, fmap_app, (lo_versions _ Hok), Hlen, Nat2Z.inj_add, seqZ_app in Hv by lia.
  apply app_inv_head in Hv. rewrite <- list_fmap_compose in Hv. change (ev_Version ∘ stored) with ev_Version in Hv.
  rewrite Hv. f_equal. lia.
Qed.

Lemma tx_appended key view events d r d' : events <> [] -> Forall (fun e => ev_View e = view) events ->
  append_tx key view events d = (Ok r, d') -> ok d -> keeps ts d d' -> plausible d' -> appended key view events r d'.
Proof.
  destruct r as [[out through] replayed]. intros Hne Hview Htx Hokd Hk Hpl.
  assert (plausible d) as Hpl0 by (eapply plausible_prefix; [apply (k_prefix _ _ _ Hk) | done]). pose proof (Hokd Hpl0) as Hok.
  pose proof (g_ok _ _ _ (k_good _ _ _ Hk Hpl Hok)) as Hok'.
  apply append_tx_ok in Htx as (-> & d1 & Hins & -> & Hd').
  destruct (insert_all_rows _ _ _ _ _ Hins) as (Hp & _ & Hl & Hn & Hf).
  assert (feature_events d' = feature_events d1) as Hfe by (subst d'; destruct (String.eqb key ""); [done | apply record_prefix]).
  assert (log d' = log d ++ (stored <$> out)) as Hl' by (unfold log; rewrite Hfe; exact Hl).
  assert (length (feature_events d') = (length (feature_events d) + length out)%nat) as Hlen.
  { rewrite <- !log_length, Hl', length_app, length_fmap. done. }
  assert (0 < length out)%nat as Hpos by (destruct events; [done |]; rewrite Hn; simpl; lia).
  assert (wrap64 (head d + Z.of_nat (length events)) = Z.of_nat (length (feature_events d'))) as Hthr.
  { rewrite head_length, <- Hn by done. pose proof (pl_fits _ Hpl). rewrite wrap64_id; [lia |].
    unfold in_int64, int64_min, int64_max. lia. }
  constructor; cbn [fst snd]; rewrite ?Hthr; [| | lia | done | done].
  - apply list.Forall_forall. intros o Ho. apply canonical_shadow.
    + rewrite Hl'. apply elem_of_app. right. by apply list_elem_of_fmap_2.
    + apply list_elem_of_lookup in Ho as [i Hi]. destruct (Forall2_lookup_r _ _ _ _ _ Hf Hi) as (z & Hz & v & ->).
      rewrite list.Forall_forall in Hview. apply (Hview z). by eapply list_elem_of_lookup_2.
  - rewrite (out_versions d d' out) by done. f_equal. lia.
Qed.

Lemma safe_Append base key view events : ok base -> events <> [] -> Forall (fun e => ev_View e = view) events ->
  (forall d, grows base d -> plausible d -> log_ok d -> Forall (admissible ts d) events) ->
  safe base (Append key events) (or_error (fun r d => plausible d -> appended key view events r d)).
Proof.
  intros Hok Hne Hview Had. unfold Append. destruct events as [|e events]; [done |].
  assert (ev_View e = view) as -> by (by apply list.Forall_cons in Hview as [? _]).
  eapply (safe_try _ _ _ _ _ (fun found d => match found with
    | Some (original, last) => plausible d -> appended key view (e :: events) (original, last, true) d | None => True end)).
  - destruct (String.eqb key ""); [by apply safe_ret |].
    apply (safe_query feature_regime base (fun _ d => Ok (match lookupIdempotency key view d with
      | Some (first, last) => Some (loadRange first last d, last) | None => None end)) Ret).
    intros d w r Hg Hr. destruct r as [found|err]; [| apply safe_fail]. destruct Hr as [[= ->] | Hr]; [| done].
    apply safe_ret. intros d' Hg'. cbn. destruct (lookupIdempotency key view d) as [[first last]|] eqn:El; [| done].
    refine (appended_grows _ _ _ _ d d' Hg' _). intros Hpl. apply replay_appended; [| done]. by apply (grows_ok base d).
  - intros [[original last]|] d Hg Hf; [apply safe_ret; intros d' Hg'; exact (appended_grows _ _ _ _ d d' Hg' Hf) |].
    apply (safe_transact feature_regime d (append_tx key view (e :: events)) Ret). intros d1 r d2 Hg1 Htx.
    assert (ok d1) as Hok1 by (by eapply grows_ok; [| eapply grows_ok]).
    assert (keeps ts d1 d2) as Hk.
    { eapply append_tx_keeps; [done | exact Hview | | exact Htx]. intros Hpl Hlog. apply Had; [by etrans | | done].
      eapply plausible_prefix; [| exact Hpl]. destruct r as [[[o t] rp]|err].
      - apply append_tx_ok in Htx as (_ & d3 & Hins & _ & ->). destruct (insert_all_rows _ _ _ _ _ Hins) as (Hp & _).
        destruct (String.eqb key ""); [done | by rewrite record_prefix].
      - by rewrite (append_tx_err _ _ _ _ _ _ Htx). }
    split; [by right |]. split; [| intros text; apply safe_fail]. destruct r as [r|err]; [| apply safe_fail].
    apply safe_ret. intros d' Hg'. refine (appended_grows _ _ _ _ d2 d' Hg' _). intros Hpl. by eapply tx_appended.
Qed.

(** ** The caches *)

(** A vector tells a write of the log. *)
Definition vector_fact (d : store) (view entity : string) (v : FeatureVector) : Prop :=
  exists e, e ∈ log d /\ ev_View e = view /\ write_to entity e = true /\ vec_EntityID v = entity /\
    vec_AsOfVersion v = ev_Version e /\ toJSONValue <$> vec_Values v = toJSONValue <$> ev_Values e /\
    usec (vec_EventTime v) = ev_EventTime e.

Lemma vector_fact_prefix d d' view entity v :
  feature_events d `prefix_of` feature_events d' -> vector_fact d view entity v -> vector_fact d' view entity v.
Proof. intros Hp (e & He & ?). exists e. split; [by eapply log_in | done]. Qed.

Lemma latest_in events sv entity v : ProjectLatest events sv !! entity = Some v ->
  exists e, e ∈ events /\ write_to entity e = true /\ v = vector_of sv e.
Proof.
  unfold ProjectLatest. rewrite project_lookup, lookup_empty. destruct (list.last _) as [e|] eqn:El; [| done]. intros [= <-].
  assert (e ∈ filter (fun e => Is_true (write_to entity e)) (sortedByVersion events)) as He.
  { apply last_Some in El as [l' ->]. apply elem_of_app. right. apply list_elem_of_here. }
  unfold sortedByVersion in He. rewrite list_elem_of_filter, Is_true_true, merge_sort_Permutation in He. destruct He. by exists e.
Qed.

Lemma shadow_fact d view sv out entity v : Forall (shadow d view) out -> ProjectLatest out sv !! entity = Some v ->
  vector_fact d view entity v.
Proof.
  intros Hs (o & Ho & Hw & ->)%latest_in. rewrite list.Forall_forall in Hs.
  destruct (Hs o Ho) as (e & He & Hv & Ht & Hid & Hver & Hvals & Htime). exists e. split; [done |]. split; [done |].
  unfold write_to, is_write in *. rewrite Ht, Hid. split; [done |]. cbn. apply andb_true_iff in Hw as [_ Hw%String.eqb_eq].
  split; [done |]. split; [done |]. split; [by rewrite Hvals | done].
Qed.

Lemma log_fact d view sv entity v : log_ok d -> ProjectLatest (select_events (of_view view) d) sv !! entity = Some v ->
  vector_fact d view entity v.
Proof.
  intros Hok. apply shadow_fact. apply list.Forall_forall. intros e He. exists e. split; [by eapply select_in |].
  split; [by eapply select_view |]. repeat (split; [done |]). symmetry. apply (lo_micro _ Hok). by eapply select_in.
Qed.

Lemma safe_pipeline base text cmds :
  (forall c, c ∈ cmds -> forall d, grows base d -> keeps ts d (c d)) ->
  safe base (pipeline text cmds) (or_error (fun _ _ => True)).
Proof.
  revert base. induction cmds as [|c cmds IH]; intros base Hc; cbn [pipeline]; [by apply safe_ret |].
  apply safe_transact. intros d r d' Hg [= <- <-]. assert (keeps ts d (c d)) as Hk by (apply Hc; [apply list_elem_of_here | done]).
  split; [by right |]. split; [| intros txt; apply safe_fail]. apply IH. intros c' Hc' d2 Hg2. apply Hc; [by right |].
  etrans; [exact Hg |]. by etrans.
Qed.

Lemma encode_fact d view entity v x : vector_fact d view entity v -> encodeVector v = Ok x ->
  exists e, e ∈ log d /\ fact_of view entity e x.
Proof.
  intros (e & He & Hv & Hw & Hid & Hver & Hvals & Ht). unfold encodeVector. destruct (_ && _); [| done]. intros [= <-].
  exists e. split; [done |]. repeat (split; [done |]). done.
Qed.

Lemma encode_all_in vs docs entity x : encode_all vs = Ok docs -> (entity, x) ∈ docs -> exists v, (entity, v) ∈ vs /\ encodeVector v = Ok x.
Proof.
  revert docs. induction vs as [|[i v] vs IH]; intros docs; cbn [encode_all].
  - intros [= <-] Hin. by apply not_elem_of_nil in Hin.
  - rewrite rbind_ok. intros (x1 & Hx1 & Hr). rewrite rbind_ok in Hr. destruct Hr as (xs & Hxs & [= <-]).
    intros [[= -> ->] | Hin]%elem_of_cons; [exists v; split; [apply list_elem_of_here | done] |].
    destruct (IH xs Hxs Hin) as (v' & Hv' & He). exists v'. split; [by right | done].
Qed.

(** The view belongs to a team of [ts], once the ids are as drawn. *)
Definition ours (view : string) (d : store) : Prop := exists t, owner d view t /\ ts t.

Lemma ours_grows view d d' : grows d d' -> ours view d -> ours view d'.
Proof. intros Hg (t & Ho & Ht). exists t. split; [| done]. eapply owner_prefix; [by apply grows_prefix | done]. Qed.

Lemma safe_Put base view vectors :
  (forall d, grows base d -> plausible d -> log_ok d -> ours view d /\
     forall entity v, vectors !! entity = Some v -> vector_fact d view entity v) ->
  safe base (Put view vectors) (or_error (fun _ _ => True)).
Proof.
  intros Hv. unfold Put. apply safe_ask_of. intros w. pose proof (enumerate_perm vectors w) as Hperm.
  destruct (encode_all (enumerate vectors w).1) as [docs|err] eqn:Ee; [| apply safe_fail].
  apply safe_pipeline. intros c (cs & Hc & Hcs)%elem_of_concat d Hg.
  apply list_elem_of_fmap in Hcs as ([entity x] & -> & Hin). cbn [fst snd] in Hc.
  destruct (encode_all_in _ _ _ _ Ee Hin) as (v & Hvs & Hx). rewrite Hperm in Hvs. apply elem_of_map_to_list in Hvs.
  apply elem_of_cons in Hc as [-> | ->%list_elem_of_singleton].
  - eapply cache_keeps; [apply cmd_set_step |]. intros Hpl Hok. destruct (Hv d Hg Hpl Hok) as [Ho Hfact]. split; [done |].
    intros entity' x' Hx'. cbn in Hx'. apply lookup_insert_Some in Hx' as [[[= <-] <-] | [_ Hx']]; [right | by left].
    eapply encode_fact; [by apply Hfact | done].
  - eapply cache_keeps; [apply cmd_sadd_step |]. intros Hpl Hok. destruct (Hv d Hg Hpl Hok) as [Ho _]. split; [done |].
    intros entity' x' Hx'. by left.
Qed.

Lemma safe_Purge base view : (forall d, grows base d -> plausible d -> ours view d) ->
  safe base (Purge view) (or_error (fun _ _ => True)).
Proof.
  intros Ho. unfold Purge. apply safe_query. intros d w r Hg _. destruct r as [members|err]; [| apply safe_fail].
  apply safe_pipeline. intros c Hc d2 Hg2. assert (grows base d2) as Hb by (by etrans).
  apply elem_of_app in Hc as [(entity & -> & _)%list_elem_of_fmap | ->%list_elem_of_singleton].
  - eapply cache_keeps; [apply cmd_del_step |]. intros Hpl Hok. split; [by apply Ho |]. intros entity' x' Hx'. cbn in Hx'.
    apply lookup_delete_Some in Hx' as [_ Hx']. by left.
  - eapply cache_keeps; [apply cmd_del_entities_step |]. intros Hpl Hok. split; [by apply Ho |]. intros entity' x' Hx'. by left.
Qed.

Lemma decode_fact d view entity e x : e ∈ log d -> fact_of view entity e x -> vector_fact d view entity (decodeVector x).
Proof.
  intros He (Hv & Hw & Hid & Hver & Hvals & Ht). exists e. repeat (split; [done |]). split; [| done]. cbn.
  rewrite Hvals, <- !map_fmap_compose. apply map_fmap_ext. intros i y _. cbn. by rewrite value_roundtrip, canonical_json.
Qed.

Definition all_facts (view : string) (out : gmap string FeatureVector) (d : store) : Prop :=
  forall entity v, out !! entity = Some v -> vector_fact d view entity v.

Lemma all_facts_grows view out d d' : grows d d' -> (plausible d -> all_facts view out d) -> plausible d' -> all_facts view out d'.
Proof.
  intros Hg Ha Hpl entity v Hv. eapply vector_fact_prefix; [by apply grows_prefix |]. apply Ha; [by eapply grows_plausible | done].
Qed.

Lemma safe_get_all base view ids out : ok base -> (plausible base -> all_facts view out base) ->
  safe base (get_all view ids out) (or_error (fun out d => plausible d -> all_facts view out d)).
Proof.
  revert base out. induction ids as [|id ids IH]; intros base out Hok Hout; cbn [get_all].
  { apply safe_ret. intros d Hg. exact (all_facts_grows view out base d Hg Hout). }
  apply safe_query. intros d w r Hg Hr. destruct r as [x|err]; [| apply safe_fail].
  destruct Hr as [[= ->] | Hr]; [| done]. apply IH; [by eapply grows_ok |]. intros Hpl.
  pose proof (all_facts_grows view out base d Hg Hout Hpl) as Ho. destruct (online_vec d !! (view, id)) as [x|] eqn:Ex; [| done].
  intros entity v Hv. apply lookup_insert_Some in Hv as [[<- <-] | [_ Hv]]; [| by apply Ho].
  destruct (lo_online _ (grows_ok _ _ Hg Hok Hpl) _ _ _ Ex) as (e & He & Hf). by eapply decode_fact.
Qed.

(** ** Definitions *)

(** The view of an answer is of the actor's team and comes from the log. *)
Definition owned_view (team : string) (v : FeatureView) (d : store) : Prop :=
  plausible d -> fv_OwnerTeam v = team /\ exists e def, definition_in d (fv_ID v) e def /\ taken_from def v.

Lemma view_in_owned team id v d : view_in team id v d -> owned_view team v d.
Proof. intros [Hv Ht] Hpl. destruct (Hv Hpl) as (Hid & ?). rewrite Hid. done. Qed.

(** The view of an answer comes from the log. *)
Definition told_view (v : FeatureView) (d : store) : Prop :=
  plausible d -> exists e def, definition_in d (fv_ID v) e def /\ taken_from def v.

Lemma known_told id v d : view_known id v d -> told_view v d.
Proof. intros Hv Hpl. destruct (Hv Hpl) as (-> & ?). done. Qed.

Lemma validate_define_schema input : validateDefineInput input = Ok tt -> schema_ok (df_Features input).
Proof. unfold validateDefineInput. repeat case_match; try done. intros Hv. by apply validate_specs_spec in Hv as [? _]. Qed.

Lemma safe_appendDefinition base p input viewID version : ok base -> validateDefineInput input = Ok tt -> ts (Team p) ->
  (plausible base -> version = 1 \/ 2 <= version <= Z.of_nat (length (feature_events base)) + 1 /\
     exists e0 def0, definition_in base viewID e0 def0 /\ vd_Entity def0 = df_Entity input /\ vd_OwnerTeam def0 = Team p) ->
  safe base (appendViewDefinition p input viewID version) (or_error told_view).
Proof.
  intros Hok Hval Hts Hver. unfold appendViewDefinition. apply safe_ask. intros now. apply safe_ask. intros id.
  assert (forall d, grows base d -> plausible d -> Forall (admissible ts d) [definition_event p input viewID version now id]) as Had.
  { intros d Hg Hpl. constructor; [| constructor]. cbn. eexists. split; [reflexivity |]. split; [done |].
    split; [by apply validate_define_schema |]. split; [done |]. cbn.
    destruct Hver as [-> | (Hv & e0 & def0 & Hd & He)]; [by eapply grows_plausible | by left | right].
    pose proof (prefix_length _ _ (grows_prefix _ _ Hg)). split; [lia |]. exists e0, def0. split; [| done].
    eapply definition_prefix; [by apply grows_prefix | done]. }
  eapply safe_try; [apply (safe_Append _ _ viewID); [done | done | by constructor | intros d Hg Hpl _; by apply Had] |].
  intros r d Hg _. eapply Site.safe_weaken; [apply safe_foldViewByID; by eapply grows_ok |].
  intros [v|e] d' Hv; [by eapply known_told | done].
Qed.

Lemma resolve_index team name id d : ResolveViewIDByName team name d = Ok id ->
  exists row, view_name_index d !! id = Some row /\ owner_team row = team.
Proof.
  unfold ResolveViewIDByName. destruct (List.find _ _) as [[i row]|] eqn:Ef; [| done]. intros [= <-].
  apply find_some in Ef as [Hin Hn]. apply list_elem_of_In, elem_of_map_to_list in Hin.
  apply andb_true_iff in Hn as [Ht%String.eqb_eq _]. by exists row.
Qed.

Lemma resolve_owner team name id d : log_ok d -> ResolveViewIDByName team name d = Ok id -> owner d id team.
Proof.
  intros Hok (row & Hr & Ht)%resolve_index. destruct (lo_index _ Hok _ _ Hr) as (e & def & Hd). exists e, def.
  split; [done |]. rewrite <- Ht. symmetry. apply (owner_index d id); [done | by exists e, def | done].
Qed.

Lemma safe_Define base p input : ok base -> ts (Team p) -> safe base (DefineFeatureView p input) (or_error told_view).
Proof.
  intros Hok Hts. unfold DefineFeatureView. destruct (validateDefineInput input) as [[]|err] eqn:Ev; [| apply safe_fail].
  apply safe_query. intros d w r Hg Hr. assert (ok d) as Hokd by (by eapply grows_ok). destruct r as [existingID|err].
  - destruct Hr as [Hr | Hr]; [| done]. symmetry in Hr.
    eapply safe_try; [by apply safe_foldViewByID |]. intros current d1 Hg1 Hc.
    destruct (bool_decide_reflect (fv_Entity current = df_Entity input)) as [He|]; cbn [negb]; [| apply safe_fail].
    apply safe_appendDefinition; [by eapply grows_ok | done | done |]. intros Hpl. right.
    destruct (Hc Hpl) as (Hid & e & def & Hd & Ht). pose proof (grows_ok _ _ Hg1 Hokd Hpl) as Hlog.
    destruct (definition_facts _ _ _ _ Hlog Hd) as [(_ & _ & Hv & _) _]. destruct Ht as (_ & _ & _ & Hen & _ & Hsv & _ & _).
    pose proof (version_bounds d1 e Hlog (proj1 Hd)). pose proof (pl_fits _ Hpl). rewrite Hsv.
    rewrite wrap64_id by (unfold in_int64, int64_min, int64_max; lia). split; [lia |].
    rewrite Hid. exists e, def. split; [done |]. split; [congruence |].
    apply (owner_unique d1 existingID); [done | by exists e, def |]. eapply owner_prefix; [by apply grows_prefix |].
    eapply resolve_owner; [| exact Hr]. apply Hokd. by eapply grows_plausible.
  - destruct (errors_is err ErrEventLogNotFound); [| apply safe_fail]. apply safe_ask. intros id.
    apply safe_appendDefinition; [done | done | done |]. intros _. by left.
Qed.

(** ** Writes *)

(** The event that a row of the request becomes. *)
Definition event_of_row (view : string) (row : FeatureRow) (e : FeatureEvent) : Prop :=
  ev_Type e = FeatureEventValuesWritten /\ ev_View e = view /\ ev_EntityID e = row_EntityID row /\
  ev_Values e = row_Values row /\ (row_EventTime row <> 0 -> ev_EventTime e = row_EventTime row).

Definition typed_event (specs : list FeatureSpec) (e : FeatureEvent) : Prop :=
  ev_EntityID e <> "" /\ ev_Values e <> ∅ /\ row_typed specs (ev_Values e).

Lemma safe_build base view now rows : safe base (build_events view now rows)
  (or_error (fun events _ => Forall2 (event_of_row (fv_ID view)) rows events /\ Forall (typed_event (fv_Features view)) events)).
Proof.
  revert base. induction rows as [|row rows IH]; intros base; cbn [build_events]; [apply safe_ret; intros d _; by split; constructor |].
  apply safe_ask_of. intros w. pose proof (validateRow_spec view row _ (enumerate_perm (row_Values row) w)) as Hspec.
  destruct (validateRow _ _ _) as [[]|err]; [| apply safe_fail]. destruct (proj1 Hspec eq_refl) as (He & Hv & Ht).
  apply safe_ask. intros id. eapply safe_try; [by apply IH |]. intros events d Hg [Hf Hall]. apply safe_ret. intros d' _.
  split; constructor; try done. split; [done |]. repeat (split; [done |]). intros Hnz. cbn.
  unfold time_is_zero. by rewrite (proj2 (Z.eqb_neq _ _) Hnz).
Qed.

(** What an accepted write left in the log. *)
Definition written (p : Principal) (input : WriteFeaturesInput) (res : WriteFeaturesResult) (d : store) : Prop :=
  plausible d -> owner d (wf_FeatureViewID input) (Team p) /\
  exists events out replayed,
    Forall2 (event_of_row (wf_FeatureViewID input)) (wf_Rows input) events /\
    appended (wf_IdempotencyKey input) (wf_FeatureViewID input) events (out, WrittenThroughVersion res, replayed) d /\
    WrittenCount res = Z.of_nat (length out) /\ AffectedEntityIDs res = dedupeStrings (row_EntityID <$> wf_Rows input).

Lemma events_of_rows view rows events : rows <> [] -> Forall2 (event_of_row view) rows events ->
  events <> [] /\ Forall (fun e => ev_View e = view) events.
Proof.
  intros Hne Hf. split; [by inversion Hf; subst |]. clear Hne. induction Hf as [| row e rows events (_ & Hv & _) _ IH]; by constructor.
Qed.

Lemma owner_definition d id team e def : log_ok d -> owner d id team -> definition_in d id e def -> vd_OwnerTeam def = team.
Proof. intros Hok Ho Hd. apply (owner_unique d id); [done | by exists e, def | done]. Qed.

Lemma typed_admissible d view team e v : log_ok d -> plausible d -> view_in team view v d -> ts team ->
  event_of_row view (Build_FeatureRow (ev_EntityID e) (ev_Values e) 0) e -> typed_event (fv_Features v) e -> admissible ts d e.
Proof.
  intros Hok Hpl Hv Hts (Ht & Hview & _) (He & Hvs & Hty). unfold admissible. rewrite Ht. split; [done |]. split; [done |].
  pose proof (view_in_owner _ _ _ _ Hv Hpl) as Ho. destruct Hv as [Hk _]. destruct (Hk Hpl) as (_ & e0 & def & Hd & Htk). rewrite Hview.
  exists e0, def. split; [done |]. destruct Htk as (_ & _ & _ & _ & <- & _). split; [| done].
  by rewrite (owner_definition d view team e0 def Hok Ho Hd).
Qed.

Lemma safe_Write base p input : ok base -> ts (Team p) -> safe base (WriteFeatures p input) (or_error (written p input)).
Proof.
  intros Hok Hts. unfold WriteFeatures. destruct (_ <? _)%nat; [apply safe_fail |].
  case_bool_decide as Hne; [apply safe_fail |]. eapply safe_try; [by apply safe_authorizedView |]. intros v d Hg Hv.
  destruct (IsDeleted v); [apply safe_fail |]. apply safe_ask. intros now. assert (ok d) as Hokd by (by eapply grows_ok).
  set (view := wf_FeatureViewID input) in *.
  eapply safe_try; [by apply safe_build |]. intros events d1 Hg1 [Hf Hall].
  pose proof (events_of_rows _ _ _ Hne Hf) as [Hne' Hview].
  assert (ok d1) as Hok1 by (by eapply grows_ok). assert (view_in (Team p) view v d1) as Hv1 by (by eapply view_in_grows).
  assert (forall d', grows d1 d' -> plausible d' -> log_ok d' -> Forall (admissible ts d') events) as Had.
  { intros d' Hg' Hpl Hlog. assert (view_in (Team p) view v d') as Hv' by (by eapply view_in_grows).
    pose proof (view_in_id _ _ _ _ Hv' Hpl) as Hid. rewrite Hid in Hf. apply list.Forall_forall. intros e He.
    rewrite list.Forall_forall in Hall. apply list_elem_of_lookup in He as Hi. destruct Hi as [i Hi].
    destruct (Forall2_lookup_r _ _ _ _ _ Hf Hi) as (row & _ & Ht & Hvw & _).
    eapply (typed_admissible d' view); [done | done | exact Hv' | done | | by apply Hall]. by repeat split. }
  eapply safe_try; [by apply (safe_Append _ _ (fv_ID v)) |]. intros [[out through] replayed] d2 Hg2 Hap. cbv beta iota zeta.
  assert (ok d2) as Hok2 by (by eapply grows_ok). assert (view_in (Team p) view v d2) as Hv2 by (by eapply view_in_grows).
  eapply safe_try.
  - apply safe_Put. intros d3 Hg3 Hpl Hlog. assert (view_in (Team p) view v d3) as Hv3 by (by eapply view_in_grows).
    rewrite (view_in_id _ _ _ _ Hv3 Hpl) in *. split; [exists (Team p); split; [by eapply view_in_owner | done] |].
    intros entity vec Hvec. assert (appended (wf_IdempotencyKey input) view events (out, through, replayed) d3) as Ha3 by
      exact (appended_grows _ _ _ _ d2 d3 Hg3 Hap Hpl). eapply shadow_fact; [apply Ha3 | exact Hvec].
  - intros _ d3 Hg3 _. apply safe_ret. intros d4 Hg4 Hpl. assert (grows d2 d4) as Hg24 by (by etrans).
    assert (view_in (Team p) view v d4) as Hv4 by (by eapply view_in_grows).
    pose proof (view_in_id _ _ _ _ Hv4 Hpl) as Hid. rewrite Hid in *. split; [by eapply view_in_owner |].
    exists events, out, replayed. split; [done |]. split; [exact (appended_grows _ _ _ _ d2 d4 Hg24 Hap Hpl) | done].
Qed.

(** ** Reads *)

Definition served (p : Principal) (input : GetOnlineFeaturesInput) (page : FeatureVectorPage) (d : store) : Prop :=
  plausible d -> owner d (go_FeatureViewID input) (Team p) /\
  exists found, page = assemblePage (go_EntityIDs input) found (go_FeatureNames input) "" /\
    all_facts (go_FeatureViewID input) found d.

Lemma safe_Online base p input : ok base -> safe base (GetOnlineFeatures p input) (or_error (served p input)).
Proof.
  intros Hok. unfold GetOnlineFeatures. destruct (_ <? _)%nat; [apply safe_fail |].
  eapply safe_try; [by apply safe_authorizedView |]. intros v d Hg Hv. assert (ok d) as Hokd by (by eapply grows_ok).
  eapply safe_try; [apply safe_get_all; [done |]; intros _ entity vec Hvec; by rewrite lookup_empty in Hvec |].
  intros found d1 Hg1 Hf. apply safe_ret. intros d2 Hg2 Hpl.
  assert (view_in (Team p) (go_FeatureViewID input) v d2) as Hv2 by (eapply view_in_grows; [exact (transitivity Hg1 Hg2) | done]).
  split; [by eapply view_in_owner |]. exists found. split; [done |]. rewrite <- (view_in_id _ _ _ _ Hv2 Hpl).
  exact (all_facts_grows _ _ d1 d2 Hg2 Hf Hpl).
Qed.

(** The answer is the page of the log as it was at one moment [l] of the request. *)
Definition past_page (base : store) (p : Principal) (input : GetHistoricalFeaturesInput) (page : FeatureVectorPage) (d : store) : Prop :=
  plausible d -> owner d (gh_FeatureViewID input) (Team p) /\
  exists l sv, grows base l /\ grows l d /\ log_ok l /\
    page = assemblePage (gh_EntityIDs input)
      (requested_of (gh_EntityIDs input) (ProjectAsOf (select_events (of_view (gh_FeatureViewID input)) l) (gh_AsOf input) sv))
      (gh_FeatureNames input) "".

Lemma assemble_ext ids found found' names token : (forall id, id ∈ ids -> found !! id = found' !! id) ->
  assemblePage ids found names token = assemblePage ids found' names token.
Proof.
  induction ids as [|id ids IH]; intros He; [done |]. cbn [assemblePage]. rewrite (He id) by set_solver.
  rewrite IH by set_solver. done.
Qed.

Lemma safe_Historical base p input : ok base -> safe base (GetHistoricalFeatures p input) (or_error (past_page base p input)).
Proof.
  intros Hok. unfold GetHistoricalFeatures. destruct (time_is_zero _); [apply safe_fail |]. destruct (_ <? _)%nat; [apply safe_fail |].
  eapply safe_try; [by apply safe_authorizedView |]. intros v d Hg Hv. assert (ok d) as Hokd by (by eapply grows_ok).
  apply safe_query. intros l w r Hg1 Hr.
  assert (forall page sv, page = assemblePage (gh_EntityIDs input)
      (requested_of (gh_EntityIDs input) (ProjectAsOf (select_events (of_view (fv_ID v)) l) (gh_AsOf input) sv)) (gh_FeatureNames input) "" ->
    safe l (Ret (Ok page)) (or_error (past_page base p input))) as Hpage.
  { intros page sv ->. apply safe_ret. intros d2 Hg2 Hpl.
    assert (view_in (Team p) (gh_FeatureViewID input) v d2) as Hv2 by (eapply view_in_grows; [exact (transitivity Hg1 Hg2) | done]).
    split; [by eapply view_in_owner |]. exists l, sv. split; [exact (transitivity Hg Hg1) |]. split; [done |].
    split; [eapply grows_ok; [exact Hg1 | done | by eapply grows_plausible] |]. by rewrite <- (view_in_id _ _ _ _ Hv2 Hpl). }
  destruct r as [events|err].
  - destruct Hr as [Hr | Hr]; [| done]. symmetry in Hr. apply query_select in Hr. eapply Hpage. by rewrite Hr.
  - destruct (errors_is err ErrEventLogNotFound) eqn:Ee; [| apply safe_fail].
    destruct Hr as [Hr | [= ->]]; [| done]. apply (Hpage _ 0). unfold Load, queryEvents in Hr.
    destruct (select_events (of_view (fv_ID v)) l); [| done]. apply assemble_ext. intros id _. rewrite requested_lookup.
    by case_bool_decide.
Qed.

(** ** The other requests *)

Lemma safe_GetByName base p name : ok base -> safe base (GetFeatureViewByName p name) (or_error (owned_view (Team p))).
Proof.
  intros Hok. unfold GetFeatureViewByName. apply safe_query. intros d w r Hg _. destruct r as [id|err]; [| destruct (errors_is _ _); apply safe_fail].
  eapply Site.safe_weaken; [apply safe_authorizedView; by eapply grows_ok |]. intros [v|e] d' Hv; [by eapply view_in_owned | done].
Qed.

Lemma safe_GetByID base p id : ok base -> safe base (GetFeatureViewByID p id) (or_error (owned_view (Team p))).
Proof.
  intros Hok. eapply Site.safe_weaken; [by apply safe_authorizedView |]. intros [v|e] d' Hv; [by eapply view_in_owned | done].
Qed.

Lemma told_grows v d d' : grows d d' -> told_view v d -> told_view v d'.
Proof.
  intros Hg Hv Hpl. destruct Hv as (e & def & Hd & Ht); [by eapply grows_plausible |]. exists e, def. split; [| done].
  eapply definition_prefix; [by apply grows_prefix | done].
Qed.

Definition owned_all (team : string) (vs : list FeatureView) (d : store) : Prop := Forall (fun v => owned_view team v d) vs.

Lemma owned_grows team v d d' : grows d d' -> owned_view team v d -> owned_view team v d'.
Proof.
  intros Hg Hv Hpl. destruct Hv as (Ht & e & def & Hd & Htk); [by eapply grows_plausible |]. split; [done |].
  exists e, def. split; [| done]. eapply definition_prefix; [by apply grows_prefix | done].
Qed.

Lemma known_owned team id v d : ok d -> view_known id v d -> (plausible d -> owner d id team) -> owned_view team v d.
Proof.
  intros Hok Hv Ho Hpl. destruct (Hv Hpl) as (Hid & e & def & Hd & Ht). rewrite Hid. split; [| by exists e, def].
  destruct Ht as (_ & _ & _ & _ & _ & _ & _ & ->). by apply (owner_definition d id team e def (Hok Hpl) (Ho Hpl)).
Qed.

Lemma safe_fold_views base team ids : ok base -> (forall id, id ∈ ids -> plausible base -> owner base id team) ->
  safe base (fold_views ids) (or_error (owned_all team)).
Proof.
  revert base. induction ids as [|id ids IH]; intros base Hok Ho; cbn [fold_views]; [apply safe_ret; constructor |].
  eapply safe_try; [by apply safe_foldViewByID |]. intros v d Hg Hv. assert (ok d) as Hokd by (by eapply grows_ok).
  assert (forall i, i ∈ id :: ids -> plausible d -> owner d i team) as Hod.
  { intros i Hi Hpl. eapply owner_prefix; [by apply grows_prefix |]. apply Ho; [done | by eapply grows_plausible]. }
  eapply safe_try; [apply IH; [done | intros i Hi; apply Hod; by right] |]. intros vs d1 Hg1 Hvs. apply safe_ret. intros d2 Hg2.
  constructor; [| eapply Forall_impl; [| exact Hvs]; intros x; by apply owned_grows].
  apply (owned_grows _ _ d); [exact (transitivity Hg1 Hg2) |]. apply (known_owned team id); [done.. |]. apply Hod, list_elem_of_here.
Qed.

Lemma listed_owner team nameFilter opts d id : log_ok d -> id ∈ (ListViewIDs team nameFilter opts d).1 -> owner d id team.
Proof.
  intros Hok. unfold ListViewIDs. set (ids := take (_ + 1) _).
  assert (forall x, x ∈ ids -> owner d x team) as Hall.
  { intros x Hx. subst ids. apply subseteq_take in Hx.
    rewrite merge_sort_Permutation in Hx. apply list_elem_of_fmap in Hx as ([i row] & -> & Hin).
    apply list_elem_of_In, filter_In in Hin as [Hin Hl]. apply list_elem_of_In, elem_of_map_to_list in Hin.
    unfold listed in Hl. apply andb_true_iff in Hl as [[Ht%String.eqb_eq _]%andb_true_iff _]. cbn in *.
    destruct (lo_index _ Hok _ _ Hin) as (e & def & Hd). exists e, def. split; [done |]. rewrite <- Ht. symmetry.
    apply (owner_index d i); [done | by exists e, def | done]. }
  destruct (_ <? _)%nat; [| apply Hall]. intros Hin. apply Hall. cbn [fst] in Hin. by apply subseteq_take in Hin.
Qed.

Lemma safe_List base p nameFilter opts : ok base ->
  safe base (ListFeatureViews p nameFilter opts) (or_error (fun r => owned_all (Team p) r.1)).
Proof.
  intros Hok. unfold ListFeatureViews. apply safe_query. intros d w r Hg Hr. destruct r as [[ids next]|err]; [| apply safe_fail].
  destruct Hr as [[= Hr] | Hr]; [| done]. assert (ok d) as Hokd by (by eapply grows_ok). cbv beta iota zeta.
  eapply safe_try; [apply (safe_fold_views _ (Team p)); [done |] |].
  - intros id Hid Hpl. eapply listed_owner; [by apply Hokd |]. by rewrite <- Hr.
  - intros vs d1 Hg1 Hvs. apply safe_ret. intros d2 Hg2. eapply Forall_impl; [| exact Hvs]. intros x. by apply owned_grows.
Qed.

Lemma view_in_ours team id v d : view_in team id v d -> ts team -> plausible d -> ours (fv_ID v) d.
Proof. intros Hv Hts Hpl. exists team. rewrite (view_in_id _ _ _ _ Hv Hpl). split; [by eapply view_in_owner | done]. Qed.

Lemma safe_Delete base p id key : ok base -> ts (Team p) -> safe base (DeleteFeatureView p id key) (or_error told_view).
Proof.
  intros Hok Hts. unfold DeleteFeatureView. eapply safe_try; [by apply safe_authorizedView |]. intros v d Hg Hv.
  assert (ok d) as Hokd by (by eapply grows_ok).
  destruct (IsDeleted v); [apply safe_ret; intros d' Hg'; apply (told_grows _ d); [done | destruct Hv; by eapply known_told] |].
  apply safe_ask. intros now. apply safe_ask. intros eid. eapply safe_try.
  - apply (safe_Append _ _ (fv_ID v)); [done | done | by constructor |]. intros d1 Hg1 Hpl Hlog. constructor; [| constructor].
    assert (view_in (Team p) id v d1) as Hv1 by (by eapply view_in_grows). pose proof (view_in_owner _ _ _ _ Hv1 Hpl) as (e & def & Hd & Ht).
    unfold admissible. cbn. rewrite (view_in_id _ _ _ _ Hv1 Hpl). exists e, def. split; [done | by rewrite Ht].
  - intros r d1 Hg1 _. eapply safe_try.
    + apply safe_Purge. intros d2 Hg2 Hpl. eapply (view_in_ours (Team p) id); [| done | done].
      eapply view_in_grows; [exact (transitivity Hg1 Hg2) | exact Hv].
    + intros _ d2 Hg2 _. eapply Site.safe_weaken; [apply safe_foldViewByID; by eapply grows_ok; [| eapply grows_ok] |].
      intros [v'|e] d' Hv'; [by eapply known_told | done].
Qed.

Lemma safe_rebuild_all base target team ids replayed : ok base -> ts team ->
  (forall id, id ∈ ids -> plausible base -> owner base id team) ->
  safe base (rebuild_all target ids replayed) (or_error (fun _ _ => True)).
Proof.
  intros Hok Hts. revert base replayed Hok. induction ids as [|id ids IH]; intros base replayed Hok Ho; cbn [rebuild_all]; [by apply safe_ret |].
  assert (forall d, grows base d -> forall i, i ∈ id :: ids -> plausible d -> owner d i team) as Hog.
  { intros d Hg i Hi Hpl. eapply owner_prefix; [by apply grows_prefix |]. apply Ho; [done | by eapply grows_plausible]. }
  assert (forall d, grows base d -> plausible d -> ours id d) as Hours.
  { intros d Hg Hpl. exists team. split; [by apply (Hog d Hg id (list_elem_of_here _ _)) | done]. }
  apply safe_query. intros d w r Hg Hr. assert (ok d) as Hokd by (by eapply grows_ok).
  assert (forall d' n, grows d d' -> safe d' (rebuild_all target ids n) (or_error (fun _ _ => True))) as Hrest.
  { intros d' n Hg'. apply IH; [by eapply grows_ok |]. intros i Hi. apply Hog; [exact (transitivity Hg Hg') | by right]. }
  destruct r as [events|err]; [| destruct (errors_is err _); [by apply Hrest | apply safe_fail]].
  destruct Hr as [Hr | Hr]; [| done]. symmetry in Hr. apply query_select in Hr. destruct (foldView events) as [view defined].
  eapply (safe_try _ _ _ _ _ (fun _ _ => True)).
  { unfold rebuild_online. destruct (targets true target); [| by apply safe_ret]. eapply safe_try.
    - apply safe_Purge. intros d1 Hg1. apply Hours. exact (transitivity Hg Hg1).
    - intros _ d1 Hg1 _. destruct (IsDeleted view); [by apply safe_ret |]. eapply safe_try; [| intros _ d2 _ _; by apply safe_ret].
      apply safe_Put. intros d2 Hg2 Hpl Hlog. assert (grows d d2) as Hg12 by exact (transitivity Hg1 Hg2).
      split; [apply Hours; [exact (transitivity Hg Hg12) | done] |]. intros entity v Hv.
      eapply vector_fact_prefix; [by apply grows_prefix |]. eapply log_fact; [apply Hokd; by eapply grows_plausible |].
      rewrite Hr in Hv. exact Hv. }
  intros _ d1 Hg1 _. eapply (safe_try _ _ _ _ _ (fun _ _ => True)).
  { unfold rebuild_offline. destruct (targets false target); [| by apply safe_ret].
    eapply (safe_try _ _ _ _ _ (fun _ _ => True)); [| intros _ d2 _ _; by apply safe_ret].
    apply (safe_transact feature_regime d1 (RebuildOffline id (ProjectLatest events (fv_SchemaVersion view))) Ret).
    intros d2 r d3 Hg2 Htx. destruct (RebuildOffline_step _ _ _ _ _ Htx) as [Hcs Hon].
    assert (keeps ts d2 d3) as Hk.
    { eapply cache_keeps; [exact Hcs |]. intros Hpl Hlog. split; [apply Hours; [exact (transitivity Hg (transitivity Hg1 Hg2)) | done] |].
      intros entity x Hx. left. by rewrite <- Hon. }
    split; [by right |]. split; [| intros text; apply safe_fail]. destruct r; [by apply safe_ret | apply safe_fail]. }
  intros _ d2 Hg2 _. eapply (safe_try _ _ _ _ _ (fun _ _ => True)).
  - unfold emit. apply safe_ask. intros []; [apply safe_fail | by apply safe_ret].
  - intros _ d3 Hg3 _. apply Hrest. exact (transitivity Hg1 (transitivity Hg2 Hg3)).
Qed.

Lemma safe_Rebuild base p input : ok base -> ts (Team p) -> safe base (RebuildViews p input) (or_error (fun _ _ => True)).
Proof.
  intros Hok Hts. unfold RebuildViews. destruct (negb _); [apply safe_fail |].
  eapply (safe_try _ _ _ _ _ (fun ids d => forall id, id ∈ ids -> plausible d -> owner d id (Team p))).
  - destruct (negb _).
    + eapply safe_try; [by apply safe_authorizedView |]. intros v d Hg Hv. apply safe_ret. intros d' Hg' id Hid Hpl.
      apply list_elem_of_singleton in Hid as ->. assert (view_in (Team p) (rb_FeatureViewID input) v d') as Hv' by (by eapply view_in_grows).
      rewrite (view_in_id _ _ _ _ Hv' Hpl). by eapply view_in_owner.
    + apply safe_query. intros d w r Hg Hr. destruct r as [page|err]; [| apply safe_fail]. destruct Hr as [[= Hr] | Hr]; [| done].
      apply safe_ret. intros d' Hg' id Hid Hpl. eapply owner_prefix; [by apply grows_prefix |].
      eapply listed_owner; [eapply grows_ok; [exact Hg | done | by eapply grows_plausible] |]. by rewrite <- Hr.
  - intros ids d Hg Ho. eapply safe_try; [apply (safe_rebuild_all _ _ (Team p)); [by eapply grows_ok | done | exact Ho] |].
    intros n d1 Hg1 _. unfold emit. apply (safe_ask feature_regime d1 (send _)). intros []; [apply safe_fail | by apply safe_ret].
Qed.

(** ** Any requests *)

Inductive request :=
| QDefine (p : Principal) (input : DefineFeatureViewInput)
| QGetByID (p : Principal) (id : string)
| QGetByName (p : Principal) (name : string)
| QList (p : Principal) (nameFilter : string) (opts : ListOptions)
| QWrite (p : Principal) (input : WriteFeaturesInput)
| QOnline (p : Principal) (input : GetOnlineFeaturesInput)
| QHistorical (p : Principal) (input : GetHistoricalFeaturesInput)
| QDelete (p : Principal) (id key : string)
| QRebuild (p : Principal) (input : RebuildViewsInput).

Inductive reply :=
| AView (v : FeatureView) | AViews (r : list FeatureView * string) | AWritten (r : WriteFeaturesResult)
| APage (page : FeatureVectorPage) | ADone.

Definition answer {A} (f : A -> reply) (m : prog (site W store) (result A fs_error)) : prog (site W store) (result reply fs_error) :=
  do! r := m in Ret (match r with Ok a => Ok (f a) | Err e => Err e end).

Definition serve (q : request) : prog (site W store) (result reply fs_error) :=
  match q with
  | QDefine p input => answer AView (DefineFeatureView p input)
  | QGetByID p id => answer AView (GetFeatureViewByID p id)
  | QGetByName p name => answer AView (GetFeatureViewByName p name)
  | QList p nameFilter opts => answer AViews (ListFeatureViews p nameFilter opts)
  | QWrite p input => answer AWritten (WriteFeatures p input)
  | QOnline p input => answer APage (GetOnlineFeatures p input)
  | QHistorical p input => answer APage (GetHistoricalFeatures p input)
  | QDelete p id key => answer AView (DeleteFeatureView p id key)
  | QRebuild p input => answer (fun _ => ADone) (RebuildViews p input)
  end.

Definition actor_of (q : request) : Principal :=
  match q with
  | QDefine p _ | QGetByID p _ | QGetByName p _ | QList p _ _ | QWrite p _ | QOnline p _ | QHistorical p _ | QDelete p _ _ | QRebuild p _ => p
  end.

(** What an answer promises of the store at the end. *)
Definition promised (base : store) (q : request) (a : reply) (d : store) : Prop :=
  match q, a with
  | (QDefine p _ | QDelete p _ _), AView v => told_view v d
  | (QGetByID p _ | QGetByName p _), AView v => owned_view (Team p) v d
  | QList p _ _, AViews r => owned_all (Team p) r.1 d
  | QWrite p input, AWritten res => written p input res d
  | QOnline p input, APage page => served p input page d
  | QHistorical p input, APage page => past_page base p input page d
  | QRebuild _ _, ADone => True
  | _, _ => False
  end.

Lemma safe_answer {A} base (f : A -> reply) m (P : A -> store -> Prop) (Q : reply -> store -> Prop) :
  safe base m (or_error P) -> (forall a d, P a d -> Q (f a) d) -> safe base (answer f m) (or_error Q).
Proof.
  intros Hm HQ. apply (safe_map _ _ _ _ _ _ Hm). intros [a|e] d Hp; [by apply HQ | done].
Qed.

Lemma safe_serve_request base q : ok base -> ts (Team (actor_of q)) -> safe base (serve q) (or_error (promised base q)).
Proof.
  intros Hok Hts. destruct q; cbn [serve actor_of] in *.
  - eapply safe_answer; [by apply safe_Define | done].
  - eapply safe_answer; [by apply safe_GetByID | done].
  - eapply safe_answer; [by apply safe_GetByName | done].
  - eapply safe_answer; [by apply safe_List | done].
  - eapply safe_answer; [by apply safe_Write | done].
  - eapply safe_answer; [by apply safe_Online | done].
  - eapply safe_answer; [by apply safe_Historical | done].
  - eapply safe_answer; [by apply safe_Delete | done].
  - eapply safe_answer; [by apply safe_Rebuild | done].
Qed.
End safety.

(** ** The promises *)

Section promises.
Context {W : Type} `{Outside W} `{FeatureOutside W}.

Definition teams_of (qs : list request) (team : string) : Prop := exists q, q ∈ qs /\ Team (actor_of q) = team.

Lemma features_run (qs : list request) (s s' : site W store) results :
  log_ok (s_db s) -> par (serve <$> qs) s results s' ->
  keeps (teams_of qs) (s_db s) (s_db s') /\
  forall i q a, qs !! i = Some q -> results !! i = Some (Ok a) -> promised (teams_of qs) (s_db s) q a (s_db s').
Proof.
  intros Hok Hpar.
  destruct (safe_par (feature_regime (teams_of qs)) (serve <$> qs) s results s'
    (fun i r d => forall q, qs !! i = Some q -> Site.or_error (promised (teams_of qs) (s_db s) q) r d)) as (Hst & Hres & _); [| done |].
  - intros i m Hm. rewrite list_lookup_fmap in Hm. destruct (qs !! i) as [q|] eqn:Eq; [| done]. injection Hm as <-.
    eapply safe_weaken; [apply safe_serve_request; [by intros _ |] |].
    + exists q. split; [by eapply list_elem_of_lookup_2 | done].
    + intros r d Hr q' Hq'. congruence.
  - split; [by apply (site_steps_keep (feature_regime (teams_of qs))) |]. intros i q a Hq Ha. exact (Hres i (Ok a) Ha q Hq).
Qed.

(** The value is of a declared feature, of its type and of its dimension. *)
Definition of_declared_type (specs : list FeatureSpec) (name : string) (v : FeatureValue) : Prop :=
  exists spec, spec ∈ specs /\ sp_Name spec = name /\ val_Kind v = ValueType spec /\ val_Kind v <> FeatureTypeUnspecified /\
    (ValueType spec = FeatureTypeDoubleList -> 0 < Dimension spec -> Z.of_nat (length (val_List v)) = Dimension spec).

Lemma conforms_declared specs name v : schema_ok specs -> conforms specs name v = true -> of_declared_type specs name v.
Proof.
  intros Hs. unfold conforms, specByName. destruct (List.find _ _) as [spec|] eqn:Ef; [| done].
  apply find_some in Ef as [Hin%list_elem_of_In Hn%String.eqb_eq].
  intros [Hk%bool_decide_eq_true Hd]%andb_true_iff. exists spec. split; [done |]. split; [done |]. split; [done |].
  split; [rewrite Hk; by apply (so_specs _ Hs) |]. intros Hdl Hpos.
  rewrite bool_decide_eq_true_2, (proj2 (Z.ltb_lt 0 _)) in Hd by done. cbn in Hd.
  by apply negb_true_iff, negb_false_iff, Z.eqb_eq in Hd.
Qed.

(** C3. Type soundness of the feature store: under any interleaving of requests and
    failures, every value in the log, and every value that the online view serves, is
    of a feature that a definition of its view declared earlier in the log, has the
    declared type and, for a list with a dimension, the declared length; and every
    schema in the log is well formed. *)
Theorem features_well_typed (qs : list request) (s s' : site W store) results :
  log_ok (s_db s) -> par (serve <$> qs) s results s' -> plausible (s_db s') ->
  (forall e def, e ∈ log (s_db s') -> defines e def -> schema_ok (vd_Features def)) /\
  (forall e, e ∈ log (s_db s') -> is_write e = true -> ev_Values e <> ∅ /\
     exists e0 def, definition_in (s_db s') (ev_View e) e0 def /\ ev_Version e0 < ev_Version e /\
       forall name v, ev_Values e !! name = Some v -> of_declared_type (vd_Features def) name v) /\
  (forall view entity x, online_vec (s_db s') !! (view, entity) = Some x ->
     exists e0 def, definition_in (s_db s') view e0 def /\
       forall name v, vec_Values (decodeVector x) !! name = Some v -> of_declared_type (vd_Features def) name v).
Proof.
  intros Hok Hpar Hpl. destruct (features_run _ _ _ _ Hok Hpar) as [Hk _].
  pose proof (g_ok _ _ _ (k_good _ _ _ Hk Hpl Hok)) as Hok'.
  assert (forall e, e ∈ log (s_db s') -> is_write e = true -> exists e0 def, definition_in (s_db s') (ev_View e) e0 def /\
    ev_Version e0 < ev_Version e /\ schema_ok (vd_Features def) /\ row_typed (vd_Features def) (ev_Values e)) as Hw.
  { intros e He Ht%bool_decide_eq_true. destruct (lo_written _ Hok' e He Ht) as (_ & _ & e0 & def & Hd & Hv & Hty).
    exists e0, def. destruct (definition_facts _ _ _ _ Hok' Hd) as [(_ & Hs & _) _]. done. }
  split; [| split].
  - intros e def He Hd. destruct (definition_facts _ (ev_View e) e def Hok') as [(_ & Hs & _) _]; done.
  - intros e He Ht. split; [by apply (lo_written _ Hok' e He (proj1 (bool_decide_eq_true _) Ht)) |].
    destruct (Hw e He Ht) as (e0 & def & Hd & Hv & Hs & Hty). exists e0, def. split; [done |]. split; [done |].
    intros name v Hval. apply conforms_declared; [done | by apply Hty].
  - intros view entity x Hx. destruct (lo_online _ Hok' _ _ _ Hx) as (e & He & Hf). pose proof Hf as (Hview & Hwr & _ & _ & Hvals & _).
    apply andb_true_iff in Hwr as [Hwr _]. destruct (Hw e He Hwr) as (e0 & def & Hd & _ & Hs & Hty). rewrite Hview in Hd.
    exists e0, def. split; [done |]. intros name v Hval. apply conforms_declared; [done |].
    revert name v Hval. change (row_typed (vd_Features def) (vec_Values (decodeVector x))). cbn. rewrite Hvals, <- map_fmap_compose.
    apply (typed_canonical _ (ev_Values e)) in Hty. erewrite map_fmap_ext; [exact Hty |]. intros i y _. apply value_roundtrip.
Qed.

(** C5. Integrity of the event log under any interleaving of requests and failures:
    versions are the gap-free 1, 2, 3, ..., events are never changed or removed, ids
    and catalogue names stay unique, a recorded key stands for events of its view
    only, and every vector of the online view tells a write of the log. *)
Theorem event_log_integrity (qs : list request) (s s' : site W store) results :
  log_ok (s_db s) -> par (serve <$> qs) s results s' -> plausible (s_db s') ->
  log (s_db s) `prefix_of` log (s_db s') /\
  ev_Version <$> log (s_db s') = seqZ 1 (Z.of_nat (length (log (s_db s')))) /\
  NoDup (ev_ID <$> log (s_db s')) /\
  (forall i j r r', view_name_index (s_db s') !! i = Some r -> view_name_index (s_db s') !! j = Some r' ->
     owner_team r = owner_team r' -> name_lower r = name_lower r' -> i = j) /\
  (forall key view first last e, idempotency_keys (s_db s') !! (key, view) = Some (first, last) ->
     e ∈ log (s_db s') -> first <= ev_Version e <= last -> ev_View e = view) /\
  (forall view entity x, online_vec (s_db s') !! (view, entity) = Some x -> exists e, e ∈ log (s_db s') /\ fact_of view entity e x).
Proof.
  intros Hok Hpar Hpl. destruct (features_run _ _ _ _ Hok Hpar) as [Hk _].
  pose proof (g_ok _ _ _ (k_good _ _ _ Hk Hpl Hok)) as Hok'. split; [apply log_prefix, Hk |].
  split; [rewrite log_length; apply Hok' |]. split; [apply Hok' |]. split; [| split; [| apply Hok']].
  - intros i j r r' Hi Hj Ht Hn. apply (lo_names _ Hok' i j r r'); [done.. |]. unfold names. by rewrite Ht, Hn, !String.eqb_refl.
  - intros key view first last e Hkey He Hv. destruct (lo_keys _ Hok' _ _ _ _ Hkey) as (_ & _ & _ & Hall). by apply Hall.
Qed.

(** Tenant isolation: a view whose team makes no request keeps its events, its
    catalogue row, its keys and its online and offline vectors through any
    interleaving of the others' requests; and reads answer views, vectors and pages of
    the actor's own team only. *)
Theorem feature_tenant_isolation (qs : list request) (s s' : site W store) results :
  log_ok (s_db s) -> par (serve <$> qs) s results s' -> plausible (s_db s') ->
  (forall view team, owner (s_db s) view team -> ~ teams_of qs team ->
     same_rows view (s_db s) (s_db s') /\
     forall e, e ∈ log (s_db s') -> ev_View e = view -> e ∈ log (s_db s)) /\
  (forall i q a, qs !! i = Some q -> results !! i = Some (Ok a) ->
     match q, a with
     | (QGetByID p _ | QGetByName p _), AView v => fv_OwnerTeam v = Team p
     | QList p _ _, AViews r => forall v, v ∈ r.1 -> fv_OwnerTeam v = Team p
     | QWrite p input, _ => owner (s_db s') (wf_FeatureViewID input) (Team p)
     | QOnline p input, _ => owner (s_db s') (go_FeatureViewID input) (Team p)
     | QHistorical p input, _ => owner (s_db s') (gh_FeatureViewID input) (Team p)
     | _, _ => True
     end).
Proof.
  intros Hok Hpar Hpl. destruct (features_run _ _ _ _ Hok Hpar) as [Hk Hres].
  pose proof (k_good _ _ _ Hk Hpl Hok) as Hg. pose proof (g_ok _ _ _ Hg) as Hok'. split.
  - intros view team Ho Hn. split; [by apply (g_apart _ _ _ Hg view team) |]. intros e He Hv.
    destruct (Z.le_gt_cases (ev_Version e) (Z.of_nat (length (feature_events (s_db s))))) as [Hle | Hgt].
    + by apply (early_event (s_db s) (s_db s')); [| apply Hk | ..].
    + exfalso. apply Hn. apply (g_new _ _ _ Hg e team He); [lia |]. rewrite Hv. eapply owner_prefix; [apply Hk | done].
  - intros i q a Hq Ha. specialize (Hres i q a Hq Ha). destruct q, a; try done; cbn in Hres.
    + by destruct (Hres Hpl).
    + by destruct (Hres Hpl).
    + intros v Hv. unfold owned_all in Hres. rewrite list.Forall_forall in Hres. by destruct (Hres v Hv Hpl).
    + by destruct (Hres Hpl).
    + by destruct (Hres Hpl).
    + by destruct (Hres Hpl).
Qed.

(** C8. An acknowledged write is durable: under any interleaving, when WriteFeatures
    answers success the log has, in one unbroken range of versions that ends at the
    answer's WrittenThroughVersion, as many events of the view as the answer counts;
    for a request without an idempotency key they are its rows, in order, each with
    its entity, its values and its event time to the microsecond. *)
Theorem acknowledged_write_durable (qs : list request) (s s' : site W store) results i p input res :
  log_ok (s_db s) -> par (serve <$> qs) s results s' -> plausible (s_db s') ->
  qs !! i = Some (QWrite p input) -> results !! i = Some (Ok (AWritten res)) ->
  0 < WrittenCount res /\
  (forall v, WrittenThroughVersion res - WrittenCount res < v <= WrittenThroughVersion res ->
     exists e, e ∈ log (s_db s') /\ ev_Version e = v /\ ev_View e = wf_FeatureViewID input) /\
  (wf_IdempotencyKey input = "" ->
   WrittenCount res = Z.of_nat (length (wf_Rows input)) /\
   forall k row, wf_Rows input !! k = Some row ->
     exists e, e ∈ log (s_db s') /\ ev_Version e = WrittenThroughVersion res - WrittenCount res + Z.of_nat k + 1 /\
       write_to (row_EntityID row) e = true /\ toJSONValue <$> ev_Values e = toJSONValue <$> row_Values row /\
       (row_EventTime row <> 0 -> ev_EventTime e = usec (row_EventTime row))).
Proof.
  intros Hok Hpar Hpl Hq Ha. destruct (features_run _ _ _ _ Hok Hpar) as [Hk Hres].
  destruct (Hres i _ _ Hq Ha Hpl) as (_ & events & out & replayed & Hrows & [Hsh Hver [Hpos Hthr] Hfresh Hkey] & Hcount & _).
  cbn [fst snd] in *. split; [lia |]. rewrite Hcount. split.
  - intros v Hv. assert (v ∈ ev_Version <$> out) as (o & -> & Ho)%list_elem_of_fmap by (rewrite Hver; apply elem_of_seqZ; lia).
    rewrite list.Forall_forall in Hsh. destruct (Hsh o Ho) as (e & He & Hview & _ & _ & Hev & _). by exists e.
  - intros Hnokey. pose proof (Hfresh (Hkey Hnokey)) as Hf. split; [by rewrite (list.Forall2_length _ _ _ Hrows), (list.Forall2_length _ _ _ Hf) |].
    intros k row Hrow. destruct (Forall2_lookup_l _ _ _ _ _ Hrows Hrow) as (e & He & Ht & _ & Hid & Hvals & Htime).
    destruct (Forall2_lookup_l _ _ _ _ _ Hf He) as (o & Ho & v & ->). rewrite list.Forall_forall in Hsh.
    destruct (Hsh _ (list_elem_of_lookup_2 _ _ _ Ho)) as (e' & He' & _ & Ht' & Hid' & Hv' & Hvals' & Htime'). cbn in *.
    exists e'. split; [done |]. split; [| split; [| split]].
    + pose proof (f_equal (lookup k) Hver) as Hl. rewrite list_lookup_fmap, Ho in Hl. cbn in Hl. symmetry in Hl.
      apply lookup_seqZ in Hl as [Hl _]. lia.
    + unfold write_to, is_write. rewrite Ht', Ht, Hid', Hid, String.eqb_refl. done.
    + by rewrite Hvals', Hvals.
    + intros Hnz. by rewrite Htime', Htime.
Qed.

(** C6. Point-in-time reads: under any interleaving, a historical read is exact for
    the log as it was at one moment [l] of the request. Of each entity it answers, the
    vector is that of the newest write that is not after the requested instant (the
    later version among writes of one instant), so that nothing of the future leaks;
    and an entity is missing exactly when no such write exists. *)
Theorem point_in_time_reads (qs : list request) (s s' : site W store) results i p input page :
  log_ok (s_db s) -> par (serve <$> qs) s results s' -> plausible (s_db s') ->
  qs !! i = Some (QHistorical p input) -> results !! i = Some (Ok (APage page)) ->
  exists l sv, log (s_db s) `prefix_of` log l /\ log l `prefix_of` log (s_db s') /\
    let seen entity e := e ∈ log l /\ ev_View e = gh_FeatureViewID input /\ visible (gh_AsOf input) entity e = true in
    (forall v, v ∈ Vectors page <-> exists entity e, entity ∈ gh_EntityIDs input /\ seen entity e /\
       (forall e', seen entity e' -> as_of_le e' e) /\ v = narrowed (gh_FeatureNames input) (vector_of sv e)) /\
    (forall entity, entity ∈ MissingEntityIDs page <-> entity ∈ gh_EntityIDs input /\ forall e, ~ seen entity e).
Proof.
  intros Hok Hpar Hpl Hq Ha. destruct (features_run _ _ _ _ Hok Hpar) as [Hk Hres].
  destruct (Hres i _ _ Hq Ha Hpl) as (_ & l & sv & Hbl & Hld & Hlog & ->). exists l, sv.
  split; [by apply log_prefix, (grows_prefix (teams_of qs)) |]. split; [by apply log_prefix, (grows_prefix (teams_of qs)) |].
  intros seen. set (events := select_events (of_view (gh_FeatureViewID input)) l).
  assert (forall entity e, seen entity e <-> e ∈ events /\ visible (gh_AsOf input) entity e = true) as Hseen.
  { intros entity e. unfold seen, events. split.
    - intros (He & Hv & Hvis). split; [| done]. unfold log in He. apply list_elem_of_fmap in He as (r & -> & Hr).
      apply elem_of_select. exists r. split; [done |]. split; [by apply String.eqb_eq | done].
    - intros [He Hvis]. split; [by eapply select_in |]. split; [by eapply select_view | done]. }
  assert (versions_distinct events) as Hd by (by apply select_distinct).
  split.
  - intros v. rewrite page_vectors, list_elem_of_fmap. split.
    + intros (w & -> & (entity & Hid & Hw)%list_elem_of_omap). rewrite requested_lookup in Hw. rewrite bool_decide_eq_true_2 in Hw by done.
      apply as_of_spec in Hw as (e & He & Hvis & -> & Hmax); [| done]. exists entity, e. split; [done |].
      split; [by apply Hseen |]. split; [| done]. intros e' [He' Hvis']%Hseen. by apply Hmax.
    + intros (entity & e & Hid & He & Hmax & ->). exists (vector_of sv e). split; [done |]. apply list_elem_of_omap.
      exists entity. split; [done |]. rewrite requested_lookup. rewrite bool_decide_eq_true_2 by done. apply as_of_spec; [done |].
      apply Hseen in He as [He Hvis]. exists e. split; [done |]. split; [done |]. split; [done |]. intros e' He' Hvis'. apply Hmax. by apply Hseen.
  - intros entity. rewrite page_missing, requested_lookup. split.
    + intros [Hid Hn]. split; [done |]. rewrite bool_decide_eq_true_2 in Hn by done. intros e [He Hvis]%Hseen.
      rewrite as_of_None in Hn. by rewrite (Hn e He) in Hvis.
    + intros [Hid Hn]. split; [done |]. rewrite bool_decide_eq_true_2 by done. apply as_of_None. intros e He.
      apply not_true_is_false. intros Hvis. apply (Hn e). by apply Hseen.
Qed.
End promises.
