(* ===== verification/FeatureOnline.v ===== *)
(** * The feature store's online view against its log

    Requests with the stores to themselves: what a write, a replay, a deletion and a
    rebuild leave in the online view, compared with the latest projection of the log,
    and the runs in which they part. *)

From S2P Require Import Prelude Concur Site FeatureModel FeatureLog FeatureTables FeatureStore FeatureSafety.
Open Scope fp_scope.

Section online.
Context {W : Type} `{Outside W} `{FeatureOutside W}.

(** For every entity the online view holds the version of its last write. *)
Definition view_events (view : string) (d : store) : list FeatureEvent := select_events (of_view view) d.

Definition online_current (view : string) (d : store) : Prop :=
  forall entity, xv_AsOfVersion <$> online_vec d !! (view, entity) =
    vec_AsOfVersion <$> ProjectLatest (view_events view d) 0 !! entity.

(** ** Calls that succeed *)

Lemma run_pipeline_ok text cmds (s s' : site W store) :
  run (pipeline text cmds) s = (Ok tt, s') -> s_db s' = foldl (fun d c => c d) (s_db s) cmds.
Proof.
  revert s. induction cmds as [|c cmds IH]; intros s; cbn [pipeline foldl]; [by intros [= <-] |].
  intros (w & r & l & Hf & Hr)%site_run_transact. apply site_run_try in Hr as (a & -> & Hr).
  destruct Hf as [[= _ <-] | [text' Hf]]; [| done]. by apply IH in Hr.
Qed.

Lemma encode_all_keys vs docs : encode_all vs = Ok docs -> fst <$> docs = fst <$> vs.
Proof.
  revert docs. induction vs as [|[i v] vs IH]; intros docs; cbn [encode_all]; [by intros [= <-] |].
  rewrite rbind_ok. intros (x & _ & Hr). rewrite rbind_ok in Hr. destruct Hr as (xs & Hxs & [= <-]). cbn. by rewrite (IH xs).
Qed.

Definition put_cmds (view : string) (docs : list (string * jsonVector)) : list (store -> store) :=
  concat ((fun ix => [cmd_set view ix.1 ix.2; cmd_sadd view ix.1]) <$> docs).

Definition exec (cmds : list (store -> store)) (d : store) : store := foldl (fun d c => c d) d cmds.

Lemma exec_app a b d : exec (a ++ b) d = exec b (exec a d).
Proof. apply foldl_app. Qed.

Lemma exec_put view docs d : NoDup (fst <$> docs) ->
  feature_events (exec (put_cmds view docs) d) = feature_events d /\
  (forall entity, online_vec (exec (put_cmds view docs) d) !! (view, entity) =
     match (list_to_map docs : gmap string jsonVector) !! entity with Some x => Some x | None => online_vec d !! (view, entity) end).
Proof.
  revert d. induction docs as [|[i x] docs IH]; intros d Hnd; [done |]. cbn [fmap list_fmap fst] in Hnd. apply list.NoDup_cons in Hnd as [Hi Hnd].
  change (put_cmds view ((i, x) :: docs)) with ([cmd_set view i x; cmd_sadd view i] ++ put_cmds view docs). rewrite exec_app.
  destruct (IH (exec [cmd_set view i x; cmd_sadd view i] d) Hnd) as [He Ho]. split; [by rewrite He |]. intros entity. rewrite Ho.
  cbn [list_to_map foldr]. destruct (decide (entity = i)) as [-> | Hne].
  - cbn. rewrite !lookup_insert_eq. by rewrite (not_elem_of_list_to_map_1 docs i).
  - cbn. rewrite !(lookup_insert_ne _ _ _ _ (not_eq_sym Hne)). destruct (list_to_map docs !! entity); [done |].
    rewrite lookup_insert_ne; [done | congruence].
Qed.

Lemma encode_version v x : encodeVector v = Ok x -> xv_AsOfVersion x = vec_AsOfVersion v.
Proof. unfold encodeVector. by destruct (_ && _); intros [= <-]. Qed.

Lemma run_Put_ok view vectors (s s' : site W store) : run (Put view vectors) s = (Ok tt, s') ->
  feature_events (s_db s') = feature_events (s_db s) /\
  forall entity, xv_AsOfVersion <$> online_vec (s_db s') !! (view, entity) =
    match vectors !! entity with
    | Some v => Some (vec_AsOfVersion v)
    | None => xv_AsOfVersion <$> online_vec (s_db s) !! (view, entity)
    end.
Proof.
  unfold Put. intros (vs & w & Hen & Hr)%site_run_ask. pose proof (enumerate_perm vectors (s_world s)) as Hp. rewrite Hen in Hp. cbn [fst] in Hp.
  destruct (encode_all vs) as [docs|err] eqn:Ee; [| done]. apply run_pipeline_ok in Hr. cbn [s_db] in Hr.
  pose proof (encode_all_keys _ _ Ee) as Hk.
  assert (NoDup (fst <$> docs)) as Hnd by (rewrite Hk, Hp; apply NoDup_fst_map_to_list).
  destruct (exec_put view docs (s_db s) Hnd) as [He Ho]. unfold exec, put_cmds in He, Ho. rewrite <- Hr in He, Ho. split; [exact He |].
  intros entity. rewrite Ho. destruct (list_to_map docs !! entity) as [x|] eqn:Ex.
  - apply elem_of_list_to_map_2 in Ex. destruct (encode_all_in _ _ _ _ Ee Ex) as (v & Hv & Hx). rewrite Hp in Hv.
    apply elem_of_map_to_list in Hv. rewrite Hv. cbn. by rewrite (encode_version _ _ Hx).
  - destruct (vectors !! entity) as [v|] eqn:Ev; [| done]. exfalso. apply not_elem_of_list_to_map_2 in Ex. apply Ex. rewrite Hk, Hp.
    apply list_elem_of_fmap. exists (entity, v). split; [done | by apply elem_of_map_to_list].
Qed.

Lemma run_query_ok {A B} (f : W -> store -> result A fs_error) g (k : A -> prog (site W store) (result B fs_error)) (s s' : site W store) b :
  run (do! r := query f in try r g k) s = (Ok b, s') ->
  exists w a, f w (s_db s) = Ok a /\ run (k a) {| s_world := w; s_db := s_db s |} = (Ok b, s').
Proof.
  intros (w & r & Hf & Hr)%site_run_query. apply site_run_try in Hr as (a & -> & Hr). destruct Hf as [Hf | Hf]; [| done]. by exists w, a.
Qed.

Lemma run_transact_ok {R} (f : store -> result R fs_error * store) (s s' : site W store) r :
  run (transact f) s = (Ok r, s') -> f (s_db s) = (Ok r, s_db s').
Proof. unfold transact. rewrite run_atom. destruct (link _) as [fate w]. destruct (f (s_db s)). by destruct fate; intros [= -> <-]. Qed.

Lemma run_Append_fresh key events (s s' : site W store) e out through replayed :
  List.hd_error events = Some e -> (key = "" \/ idempotency_keys (s_db s) !! (key, ev_View e) = None) ->
  run (Append key events) s = (Ok (out, through, replayed), s') ->
  append_tx key (ev_View e) events (s_db s) = (Ok (out, through, replayed), s_db s').
Proof.
  intros Hh Hkey. unfold Append. destruct events as [|e' events]; [done |]. injection Hh as ->.
  destruct (String.eqb_spec key "") as [-> | Hne].
  - cbn [pbind try]. by apply run_transact_ok.
  - destruct Hkey as [? | Hkey]; [done |]. intros (w & found & Hf & Hr)%run_query_ok. unfold lookupIdempotency in Hf. rewrite Hkey in Hf.
    injection Hf as <-. by apply run_transact_ok in Hr.
Qed.

(** Reads leave the stores alone. *)
Definition reads {A} (m : prog (site W store) A) : Prop := forall s a s', run m s = (a, s') -> s_db s' = s_db s.

Lemma reads_ret {A} (a : A) : reads (Ret a).
Proof. by intros s b s' [= _ <-]. Qed.

Lemma reads_ask {A R} (f : W -> R * W) (k : R -> prog (site W store) A) : (forall r, reads (k r)) -> reads (do! x := ask f in k x).
Proof. intros Hk s a s' (r & w & _ & Hr)%site_run_ask. by apply Hk in Hr. Qed.

Lemma reads_query {A R} (f : W -> store -> result R fs_error) (k : result R fs_error -> prog (site W store) A) :
  (forall r, reads (k r)) -> reads (do! x := query f in k x).
Proof. intros Hk s a s' (w & r & _ & Hr)%site_run_query. by apply Hk in Hr. Qed.

Lemma reads_seq {A B} (m : prog (site W store) A) (k : A -> prog (site W store) B) : reads m -> (forall a, reads (k a)) -> reads (do! x := m in k x).
Proof. intros Hm Hk s b s'. rewrite run_bind. destruct (run m s) as [a s1] eqn:E. intros Hr. rewrite (Hk _ _ _ _ Hr). by eapply Hm. Qed.

Lemma reads_try {A B} (r : result A fs_error) g (k : A -> prog (site W store) (result B fs_error)) : (forall a, reads (k a)) -> reads (try r g k).
Proof. intros Hk. destruct r; [apply Hk | apply reads_ret]. Qed.

Lemma reads_fold id : reads (foldViewByID id).
Proof.
  unfold foldViewByID. apply reads_query. intros [events|err]; [| apply reads_ret]. destruct (foldView events). apply reads_ret.
Qed.

Lemma reads_authorized p id : reads (authorizedView p id).
Proof.
  unfold authorizedView. destruct (String.eqb id ""); [apply reads_ret |]. apply reads_seq; [apply reads_fold |]. intros v.
  apply reads_try. intros a. apply reads_ret.
Qed.

Lemma reads_build view now rows : reads (build_events view now rows).
Proof.
  induction rows as [|row rows IH]; cbn [build_events]; [apply reads_ret |]. apply reads_ask. intros vs.
  destruct (validateRow view row vs); [| apply reads_ret]. apply reads_ask. intros id. apply reads_seq; [apply IH |]. intros events.
  apply reads_try. intros es. apply reads_ret.
Qed.

(** A successful step of a request, split at the first call. *)
Lemma run_seq_ok {A B} (m : prog (site W store) (result A fs_error)) g (k : A -> prog (site W store) (result B fs_error)) s s' b :
  run (do! r := m in try r g k) s = (Ok b, s') -> exists a s1, run m s = (Ok a, s1) /\ run (k a) s1 = (Ok b, s').
Proof.
  rewrite run_bind. destruct (run m s) as [r s1]. intros (a & -> & Hr)%site_run_try. by exists a, s1.
Qed.

(** ** The view that a request works on *)

Lemma run_fold id (s s' : site W store) v : run (foldViewByID id) s = (Ok v, s') ->
  s_db s' = s_db s /\ exists events, LoadView id (s_db s) = Ok events /\ foldView events = (v, true).
Proof.
  intros Hr. split; [by eapply reads_fold |]. unfold foldViewByID in Hr. apply site_run_query in Hr as (w & r & Hf & Hr).
  destruct r as [events|err]; [| by destruct (errors_is err _)]. destruct Hf as [Hf | Hf]; [| done]. exists events.
  split; [by rewrite Hf |]. destruct (foldView events) as [view []]; [by injection Hr as -> | done].
Qed.

Lemma run_authorized p id (s s' : site W store) v : run (authorizedView p id) s = (Ok v, s') ->
  s_db s' = s_db s /\ fv_OwnerTeam v = Team p /\ exists events, LoadView id (s_db s) = Ok events /\ foldView events = (v, true).
Proof.
  unfold authorizedView. destruct (String.eqb id ""); [done |]. intros (v' & s1 & Hv & Hr)%run_seq_ok.
  destruct (String.eqb_spec (fv_OwnerTeam v') (Team p)); [| done]. injection Hr as -> <-. by apply run_fold in Hv as (-> & ?).
Qed.

Lemma folded_id id d events v : log_ok d -> LoadView id d = Ok events -> foldView events = (v, true) -> fv_ID v = id.
Proof.
  intros Hok Hl (e & def & He & Hd & Ht)%foldView_definition. apply query_select in Hl. subst events.
  assert (ev_View e = id) as Hv by (eapply select_view; [| exact He]; by intros r [? ?]%andb_true_iff).
  assert (definition_in d id e def) as Hdef by (split; [by eapply select_in | done]).
  destruct (definition_facts _ _ _ _ Hok Hdef) as [(Hi & _) _]. destruct Ht as (-> & _). congruence.
Qed.

(** One request alone is one of the interleavings. *)
Lemma alone_keeps q (s s' : site W store) r : log_ok (s_db s) -> run (serve q) s = (r, s') -> plausible (s_db s') -> log_ok (s_db s').
Proof.
  intros Hok Hr Hpl. pose proof (run_all_par [serve q] s) as Hp. cbn [run_all] in Hp. rewrite Hr in Hp.
  destruct (features_run [q] s s' [r] Hok Hp) as [Hk _]. apply (k_good _ _ _ Hk Hpl Hok).
Qed.

Lemma versions_sorted l a n : ev_Version <$> l = seqZ a n -> sortedByVersion l = l.
Proof.
  intros Hv. apply sorted_log; [| unfold versions_distinct; rewrite Hv; apply NoDup_seqZ].
  revert a n Hv. induction l as [|e l IH]; intros a n Hv; [constructor |]. cbn [fmap list_fmap] in Hv.
  destruct (decide (0 < n)) as [Hn|]; [| rewrite seqZ_nil in Hv by lia; done]. rewrite seqZ_cons in Hv by done. injection Hv as He Hl.
  constructor; [by eapply IH |]. apply list.Forall_forall. intros e' He'. unfold version_le.
  assert (ev_Version e' ∈ ev_Version <$> l) as Hin by (by apply list_elem_of_fmap_2). rewrite Hl in Hin. apply elem_of_seqZ in Hin. lia.
Qed.

Lemma sorted_select p d : log_ok d -> sortedByVersion (select_events p d) = select_events p d.
Proof.
  intros Hok. apply sorted_log; [| by apply select_distinct]. rewrite select_plain by done.
  destruct (log_sorted d Hok) as [Hs _]. induction Hs as [|r rows Hs IH Hr]; [constructor |].
  cbn [List.filter]. destruct (p r); [| done]. cbn [fmap list_fmap]. constructor; [done |].
  apply list.Forall_forall. intros e (r' & -> & Hin)%list_elem_of_fmap. apply list_elem_of_In, filter_In in Hin as [Hin _].
  rewrite list.Forall_forall in Hr. by apply Hr, list_elem_of_In.
Qed.

Lemma sorted_versions view d : log_ok d -> sortedByVersion (view_events view d) = view_events view d.
Proof. apply sorted_select. Qed.

Lemma appended_view view d d' out : log_ok d -> log_ok d' -> feature_events d `prefix_of` feature_events d' ->
  log d' = log d ++ (stored <$> out) -> Forall (fun o => ev_View o = view) out ->
  view_events view d' = view_events view d ++ (stored <$> out).
Proof.
  intros Hok Hok' [rows Hrows] Hl Hv. unfold view_events. rewrite !select_plain by done. rewrite Hrows, List.filter_app, fmap_app. f_equal.
  unfold log in Hl. rewrite Hrows, fmap_app in Hl. apply app_inv_head in Hl. rewrite <- Hl. f_equal.
  clear Hrows. revert out Hv Hl. induction rows as [|r rows IH]; intros [|o out] Hv Hl; try done.
  assert (r_View r = ev_View o) as Hr by exact (f_equal (fun l => default "" (ev_View <$> List.hd_error l)) Hl).
  apply list.Forall_cons in Hv as [Ho Hv]. cbn [List.filter].
  assert (of_view view r = true) as -> by (apply String.eqb_eq; congruence).
  cbn [fmap list_fmap]. f_equal. apply (IH out Hv). exact (f_equal List.tl Hl).
Qed.

Lemma last_stored entity out :
  list.last (filter (fun e => Is_true (write_to entity e)) (stored <$> out)) =
  stored <$> list.last (filter (fun e => Is_true (write_to entity e)) out).
Proof.
  induction out as [|o out IH] using rev_ind; [done |]. rewrite fmap_app, !list.filter_app. cbn [fmap list_fmap].
  rewrite !filter_cons, !filter_nil. change (write_to entity (stored o)) with (write_to entity o).
  destruct (decide (Is_true (write_to entity o))); [by rewrite !last_snoc | by rewrite !app_nil_r].
Qed.

(** The incremental update of the online view and the fold of the whole log agree. *)
Lemma put_current view sv (d d' d'' : store) out through :
  log_ok d -> log_ok d' -> feature_events d `prefix_of` feature_events d' -> log d' = log d ++ (stored <$> out) ->
  Forall (fun o => ev_View o = view) out -> ev_Version <$> out = seqZ through (Z.of_nat (length out)) ->
  online_current view d -> feature_events d'' = feature_events d' ->
  (forall entity, xv_AsOfVersion <$> online_vec d'' !! (view, entity) =
     match ProjectLatest out sv !! entity with Some v => Some (vec_AsOfVersion v) | None => xv_AsOfVersion <$> online_vec d !! (view, entity) end) ->
  online_current view d''.
Proof.
  intros Hok Hok' Hp Hl Hv Hver Hcur He Ho entity. rewrite Ho.
  assert (view_events view d'' = view_events view d') as -> by (unfold view_events, select_events; by rewrite He).
  unfold ProjectLatest. rewrite (versions_sorted out _ _ Hver), project_lookup, lookup_empty.
  rewrite (sorted_versions view d' Hok'), (appended_view view d d' out) by done.
  rewrite foldl_app, project_lookup, last_stored. destruct (list.last _) as [o|]; [done |]. cbn [fmap option_fmap option_map].
  specialize (Hcur entity). unfold ProjectLatest in Hcur. by rewrite sorted_versions in Hcur.
Qed.

(** The incremental projection is the rebuild: served with the stores to itself,
    a write that answers success and whose idempotency key is new keeps the online
    view equal to the latest projection of the whole log, entity by entity. *)
Theorem write_keeps_online_current p input (s s' : site W store) res :
  log_ok (s_db s) -> plausible (s_db s') -> online_current (wf_FeatureViewID input) (s_db s) ->
  (wf_IdempotencyKey input = "" \/ idempotency_keys (s_db s) !! (wf_IdempotencyKey input, wf_FeatureViewID input) = None) ->
  run (WriteFeatures p input) s = (Ok res, s') ->
  online_current (wf_FeatureViewID input) (s_db s').
Proof.
  intros Hok Hpl Hcur Hkey Hrun.
  assert (run (serve (QWrite p input)) s = (Ok (AWritten res), s')) as Hserve by (cbn [serve]; unfold answer; by rewrite run_bind, Hrun).
  pose proof (alone_keeps _ _ _ _ Hok Hserve Hpl) as Hok'. unfold WriteFeatures in Hrun.
  destruct (_ <? _)%nat; [done |]. case_bool_decide as Hne; [done |].
  apply run_seq_ok in Hrun as (v & s1 & Hv & Hrun). apply run_authorized in Hv as (Hs1 & _ & events0 & Hload & Hfold).
  pose proof (folded_id _ _ _ _ Hok Hload Hfold) as Hid. destruct (IsDeleted v); [done |].
  apply site_run_ask in Hrun as (now & w2 & _ & Hrun). apply run_seq_ok in Hrun as (events & s2 & Hb & Hrun).
  pose proof (reads_build _ _ _ _ _ _ Hb) as Hs2. cbn [s_db] in Hs2.
  assert (Forall2 (event_of_row (fv_ID v)) (wf_Rows input) events) as Hrows.
  { clear -Hb. revert Hb. generalize {| s_world := w2; s_db := s_db s1 |}. revert events s2. induction (wf_Rows input) as [|row rows IH]; intros events s2 s0; cbn [build_events].
    - intros [= <- _]. constructor.
    - intros (vs & w & _ & Hr)%site_run_ask. destruct (validateRow v row vs); [| done]. apply site_run_ask in Hr as (id & w' & _ & Hr).
      apply run_seq_ok in Hr as (events' & s3 & Hr & Hr2). injection Hr2 as <- _. constructor; [| by eapply IH].
      repeat (split; [done |]). intros Hnz. cbn. unfold time_is_zero. by rewrite (proj2 (Z.eqb_neq _ _) Hnz). }
  destruct (events_of_rows _ _ _ Hne Hrows) as [Hne' Hview]. rewrite Hid in *.
  apply run_seq_ok in Hrun as ([[out through] replayed] & s3 & Ha & Hrun). destruct events as [|e events]; [done |].
  assert (ev_View e = wf_FeatureViewID input) as Hev by (by apply list.Forall_cons in Hview as [? _]).
  assert (s_db s2 = s_db s) as Hs20 by congruence.
  apply (run_Append_fresh _ _ _ _ e) in Ha; [| done | by rewrite Hs20, Hev]. rewrite Hev, Hs20 in Ha.
  apply run_seq_ok in Hrun as ([] & s4 & Hput & Hrun). injection Hrun as _ <-. apply run_Put_ok in Hput as [He Ho].
  apply append_tx_ok in Ha as (_ & d1 & Hins & _ & Hd'). destruct (insert_all_rows _ _ _ _ _ Hins) as (Hp & _ & Hl & _ & Hf).
  assert (feature_events (s_db s4) = feature_events d1) as Hfe.
  { rewrite He, Hd'. destruct (String.eqb (wf_IdempotencyKey input) ""); [done | apply record_prefix]. }
  assert (online_vec (s_db s3) = online_vec (s_db s)) as Hon.
  { rewrite Hd'. rewrite <- (insert_all_online _ _ _ _ _ Hins). unfold recordIdempotency. by repeat case_match. }
  assert (log (s_db s4) = log (s_db s) ++ (stored <$> out)) as Hl4 by (unfold log; rewrite Hfe; exact Hl).
  eapply (put_current _ (fv_SchemaVersion v) (s_db s) (s_db s4)); [done | done | by rewrite Hfe | exact Hl4 | | exact (out_versions (s_db s) (s_db s4) out Hok Hok' Hl4) | done | done |].
  - apply list.Forall_forall. intros o Ho'. apply list_elem_of_lookup in Ho' as [i Hi].
    destruct (Forall2_lookup_r _ _ _ _ _ Hf Hi) as (z & Hz & n & ->). rewrite list.Forall_forall in Hview. apply (Hview z).
    by eapply list_elem_of_lookup_2.
  - intros entity. by rewrite Ho, Hon.
Qed.

(** ** Rebuilds *)

Lemma exec_dels view members d :
  feature_events (exec (cmd_del view <$> members) d) = feature_events d /\
  forall k x, online_vec (exec (cmd_del view <$> members) d) !! k = Some x -> online_vec d !! k = Some x.
Proof.
  revert d. induction members as [|m members IH]; intros d; [done |].
  change (exec (cmd_del view <$> m :: members) d) with (exec (cmd_del view <$> members) (cmd_del view m d)).
  destruct (IH (cmd_del view m d)) as [He Ho]. split; [by rewrite He |]. intros k x Hx. apply Ho in Hx. cbn in Hx.
  by apply lookup_delete_Some in Hx as [_ Hx].
Qed.

Lemma run_Purge_ok view (s s' : site W store) : run (Purge view) s = (Ok tt, s') ->
  feature_events (s_db s') = feature_events (s_db s) /\
  forall k x, online_vec (s_db s') !! k = Some x -> online_vec (s_db s) !! k = Some x.
Proof.
  unfold Purge. intros (w & members & _ & Hr)%run_query_ok. apply run_pipeline_ok in Hr. cbn [s_db] in Hr.
  change (s_db s' = exec ((cmd_del view <$> members) ++ [cmd_del_entities view]) (s_db s)) in Hr. rewrite exec_app in Hr.
  destruct (exec_dels view members (s_db s)) as [He Ho]. rewrite Hr. split; [exact He | exact Ho].
Qed.

Lemma reads_emit frame : reads (emit frame).
Proof. unfold emit. apply reads_ask. intros r. apply reads_ret. Qed.

Lemma online_facts view entity d : log_ok d -> ProjectLatest (view_events view d) 0 !! entity = None -> online_vec d !! (view, entity) = None.
Proof.
  intros Hok Hn. rewrite latest_None in Hn. destruct (online_vec d !! (view, entity)) as [x|] eqn:Ex; [| done]. exfalso.
  destruct (lo_online _ Hok _ _ _ Ex) as (e & He & Hv & Hw & _). rewrite (Hn e) in Hw; [done |].
  unfold log in He. apply list_elem_of_fmap in He as (r & -> & Hr). apply elem_of_select. exists r.
  split; [done |]. split; [by apply String.eqb_eq | done].
Qed.

Lemma latest_schema events sv entity :
  vec_AsOfVersion <$> ProjectLatest events sv !! entity = vec_AsOfVersion <$> ProjectLatest events 0 !! entity.
Proof. unfold ProjectLatest. rewrite !project_lookup, !lookup_empty. by destruct (list.last _). Qed.

(** A rebuild repairs: whatever the online view of a live view held, a RebuildViews
    of it that answers success, served with the stores to itself, leaves exactly the
    latest projection of the whole log, entity by entity. *)
Theorem rebuild_restores_online p input (s s' : site W store) :
  log_ok (s_db s) -> rb_FeatureViewID input <> "" -> targets true (rb_Target input) = true ->
  IsDeleted (foldView (view_events (rb_FeatureViewID input) (s_db s))).1 = false ->
  run (RebuildViews p input) s = (Ok tt, s') ->
  online_current (rb_FeatureViewID input) (s_db s').
Proof.
  intros Hok Hne Ht Hlive. unfold RebuildViews. set (view := rb_FeatureViewID input) in *. destruct (negb _); [done |].
  intros (ids & s1 & Hids & Hr)%run_seq_ok. rewrite (proj2 (String.eqb_neq view "")) in Hids by done. cbn [negb] in Hids.
  apply run_seq_ok in Hids as (v & s0 & Hv & Hids). injection Hids as <- <-.
  apply run_authorized in Hv as (Hs0 & _ & events0 & Hload & Hfold). pose proof (folded_id _ _ _ _ Hok Hload Hfold) as Hid. rewrite Hid in Hr.
  apply run_seq_ok in Hr as (n & s2 & Hr & Hlast). rewrite (reads_emit _ _ _ _ Hlast). clear Hlast s'. cbn [rebuild_all] in Hr.
  apply site_run_query in Hr as (w & r & Hf & Hr). rewrite Hs0 in *. destruct r as [events|err].
  2: { destruct Hf as [Hf | Hf]; [| by injection Hf as ->]. destruct (errors_is err ErrEventLogNotFound); [| done].
       injection Hr as _ <-. cbn [s_db]. intros entity.
       assert (view_events view (s_db s) = []) as Hnil.
       { symmetry in Hf. unfold Load, queryEvents in Hf. unfold view_events. by destruct (select_events (of_view view) (s_db s)). }
       rewrite (online_facts view entity (s_db s) Hok); rewrite Hnil; done. }
  destruct Hf as [Hf | Hf]; [| done]. symmetry in Hf. apply query_select in Hf. change (events = view_events view (s_db s)) in Hf. subst events.
  destruct (foldView (view_events view (s_db s))) as [fv defined] eqn:Efv. cbn [fst] in Hlive.
  apply run_seq_ok in Hr as ([] & s3 & Hon & Hr). apply run_seq_ok in Hr as ([] & s4 & Hoff & Hr).
  cbv zeta in Hr. apply run_seq_ok in Hr as ([] & s5 & Hem & Hr). injection Hr as _ <-.
  rewrite (reads_emit _ _ _ _ Hem).
  assert (feature_events (s_db s4) = feature_events (s_db s3) /\ online_vec (s_db s4) = online_vec (s_db s3)) as [He4 Ho4].
  { unfold rebuild_offline in Hoff. destruct (targets false (rb_Target input)); [| by injection Hoff as <-].
    apply site_run_transact in Hoff as (w' & r & l & Htx & Hoff). apply site_run_try in Hoff as ([] & -> & Hoff). injection Hoff as <-.
    destruct Htx as [Htx | [text Htx]]; [| done]. apply RebuildOffline_step in Htx as [[] ?]. done. }
  unfold rebuild_online in Hon. rewrite Ht, Hlive in Hon. apply run_seq_ok in Hon as ([] & s6 & Hpg & Hon).
  apply run_seq_ok in Hon as ([] & s7 & Hput & Hon). injection Hon as <-.
  apply run_Purge_ok in Hpg as [He6 Ho6]. apply run_Put_ok in Hput as [He7 Ho7]. cbn [s_db] in *.
  assert (feature_events (s_db s4) = feature_events (s_db s)) as He by congruence.
  intros entity. assert (view_events view (s_db s4) = view_events view (s_db s)) as -> by (unfold view_events, select_events; by rewrite He).
  rewrite Ho4, Ho7. pose proof (latest_schema (view_events view (s_db s)) (fv_SchemaVersion fv) entity) as Hsv.
  destruct (ProjectLatest (view_events view (s_db s)) (fv_SchemaVersion fv) !! entity) as [vec|]; [done |].
  rewrite <- Hsv. destruct (online_vec (s_db s6) !! (view, entity)) as [x|] eqn:Ex; [| done]. apply Ho6 in Ex.
  rewrite (online_facts view entity (s_db s) Hok) in Ex; [done |]. by destruct (ProjectLatest (view_events view (s_db s)) 0 !! entity).
Qed.

(** ** Redefinitions of a deleted view *)

Lemma run_Append_ok key e events (s s' : site W store) r : run (Append key (e :: events)) s = (Ok r, s') ->
  s_db s' = s_db s \/ append_tx key (ev_View e) (e :: events) (s_db s) = (Ok r, s_db s').
Proof.
  unfold Append.
  destruct (String.eqb key "").
  - cbn [pbind try]. right. by apply run_transact_ok.
  - intros (w & found & Hf & Hr)%run_query_ok. destruct found as [[original last]|]; [injection Hr as _ <-; by left | right; by apply run_transact_ok in Hr].
Qed.

Definition definitions (view : string) (d : store) : list FeatureEvent :=
  select_events (fun r => of_view view r && is_definition r) d.

(** The view of a log that grew by definitions only keeps its deletion mark. *)
Lemma grown_deleted p d d' : log_ok d -> log_ok d' ->
  (exists rows, feature_events d' = feature_events d ++ rows /\ forall r, r ∈ rows -> r_Type r <> FeatureEventViewDeleted) ->
  fv_DeletedAt (foldView (select_events p d')).1 = fv_DeletedAt (foldView (select_events p d)).1.
Proof.
  intros Hok Hok' (rows & Hrows & Hno). unfold foldView. rewrite !sorted_select by done. rewrite !select_plain by done.
  rewrite Hrows, List.filter_app, fmap_app, foldl_app. apply fold_deleted. intros e (r & -> & Hr)%list_elem_of_fmap.
  apply list_elem_of_In, filter_In in Hr as [Hr _]. by apply Hno, list_elem_of_In.
Qed.

(** A deleted view is never revived: a DefineFeatureView that takes the name of a
    deleted view again, served alone and answering success, answers a view that is
    deleted still, although the catalogue marks the name as live; no write to it will
    ever be accepted, and the name is spent. *)
Theorem redefinition_never_revives p input (s s' : site W store) v view :
  log_ok (s_db s) -> plausible (s_db s') -> ResolveViewIDByName (Team p) (df_Name input) (s_db s) = Ok view ->
  IsDeleted (foldView (definitions view (s_db s))).1 = true ->
  run (DefineFeatureView p input) s = (Ok v, s') ->
  IsDeleted v = true /\ fv_DeletedAt v = fv_DeletedAt (foldView (definitions view (s_db s))).1.
Proof.
  intros Hok Hpl Hres Hdel Hrun.
  assert (run (serve (QDefine p input)) s = (Ok (AView v), s')) as Hserve by (cbn [serve]; unfold answer; by rewrite run_bind, Hrun).
  pose proof (alone_keeps _ _ _ _ Hok Hserve Hpl) as Hok'. unfold DefineFeatureView in Hrun.
  destruct (validateDefineInput input); [| done]. apply site_run_query in Hrun as (w & existing & Hf & Hrun). rewrite Hres in Hf.
  destruct Hf as [-> | ->]; [| done]. apply run_seq_ok in Hrun as (current & s1 & Hc & Hrun).
  apply run_fold in Hc as (Hs1 & events & Hload & Hfold). cbn [s_db] in Hs1, Hload.
  pose proof (folded_id _ _ _ _ Hok Hload Hfold) as Hid. destruct (negb _); [done |]. rewrite Hid in Hrun.
  unfold appendViewDefinition in Hrun. apply site_run_ask in Hrun as (now & w1 & _ & Hrun). apply site_run_ask in Hrun as (eid & w2 & _ & Hrun).
  apply run_seq_ok in Hrun as (r & s2 & Ha & Hrun). apply run_fold in Hrun as (Hs2 & events' & Hload' & Hfold').
  apply query_select in Hload'. apply run_Append_ok in Ha. cbn [s_db ev_View definition_event] in Ha.
  assert (v = (foldView (definitions view (s_db s'))).1) as -> by (rewrite Hs2; unfold definitions; rewrite <- Hload', Hfold'; done).
  assert (fv_DeletedAt (foldView (definitions view (s_db s'))).1 = fv_DeletedAt (foldView (definitions view (s_db s))).1) as Hsame.
  { apply grown_deleted; [done | done |]. rewrite Hs2. destruct Ha as [Ha | Ha].
    - rewrite Ha, Hs1. exists []. rewrite app_nil_r. split; [done |]. intros r0 Hr0. by apply not_elem_of_nil in Hr0.
    - destruct r as [[out through] replayed]. rewrite Hs1 in Ha. apply append_tx_ok in Ha as (_ & d1 & Hins & _ & Hd').
      assert (feature_events (s_db s2) = feature_events d1) as Hfe by (rewrite Hd'; destruct (String.eqb (df_IdempotencyKey input) ""); [done | apply record_prefix]).
      apply insert_all_cons in Hins as (d2 & out' & H1 & H2 & _). injection H2 as _ <-.
      destruct (insert_one_spec _ _ _ H1) as (row & m & -> & Hsc & _). exists [row]. split; [by rewrite Hfe |].
      intros r0 ->%list_elem_of_singleton. change (r_Type row) with (ev_Type (scanEvent row)). by rewrite Hsc. }
  split; [| exact Hsame]. unfold IsDeleted in *. by rewrite Hsame.
Qed.
End online.
