(* ===== verification/FeatureDemo.v ===== *)
(** * The feature store at work

    A concrete outside, runs that the theorems of [FeatureSafety] and [FeatureOnline]
    apply to, and the runs in which the code departs from its comments: a retried
    write, a name taken again after a deletion, two concurrent retries, a deletion that
    races a write, and a key used twice. *)

From S2P Require Import Prelude Concur Site FeatureModel FeatureLog FeatureTables FeatureStore FeatureSafety FeatureOnline.
Open Scope fp_scope.

(** ** An outside *)

Record outside := { clock : Z; minted : nat; fates : list fate }.

#[export] Instance outside_calls : Outside outside := {|
  Now w := (clock w, {| clock := clock w + Second; minted := minted w; fates := fates w |});
  NewID w := (String (ascii_of_nat (97 + minted w)) "", {| clock := clock w; minted := S (minted w); fates := fates w |});
  link w := match fates w with
            | [] => (Works, w)
            | f :: fs => (f, {| clock := clock w; minted := minted w; fates := fs |})
            end |}.

#[export] Instance feature_calls : FeatureOutside outside.
Proof.
  refine {| enumerate A m w := (map_to_list m, w); ToLower s := s; ilike _ _ := true; send _ w := (None, w) |}. done.
Defined.

Definition empty_store : store := {|
  feature_events := []; view_name_index := ∅; idempotency_keys := ∅; offline_view := ∅; online_vec := ∅; online_entities := ∅ |}.

Lemma empty_store_ok : log_ok empty_store.
Proof.
  assert (log empty_store = []) as Hl by done.
  assert (forall e, e ∈ log empty_store -> False) as Hno by (rewrite Hl; intros e; apply not_elem_of_nil).
  constructor; [done | constructor | by intros e ?%Hno | by intros e ?%Hno | by intros view e1 e2 def1 def2 [?%Hno _] |
    done | done | by intros e ?%Hno | by intros e ?%Hno | done | done].
Qed.

Definition started (fs : list fate) (d : store) : site outside store :=
  {| s_world := {| clock := Hour; minted := 0; fates := fs |}; s_db := d |}.

(** The requests served one after the other. *)
Definition served_all (qs : list request) (s : site outside store) : list (result reply fs_error) * site outside store :=
  run_all (serve <$> qs) s.

(** ** Plausible runs are checked by evaluation *)

Definition creates (e : FeatureEvent) : bool :=
  bool_decide (ev_Type e = FeatureEventViewDefined) &&
  match ev_ViewDef e with Some def => vd_SchemaVersion def =? 1 | None => false end.

Lemma NoDup_filter_index {A B} (f : A -> B) (p : A -> bool) l i j a b :
  NoDup (f <$> List.filter p l) -> l !! i = Some a -> l !! j = Some b -> p a = true -> p b = true -> f a = f b -> i = j.
Proof.
  revert i j. induction l as [|x l IH]; intros i j Hnd Hi Hj Ha Hb Hf; [done |].
  assert (forall y k, l !! k = Some y -> p y = true -> f y ∈ f <$> List.filter p l) as Hin.
  { intros y k Hy Hpy. apply list_elem_of_fmap_2, list_elem_of_In, filter_In. split; [| done].
    apply list_elem_of_In. by eapply list_elem_of_lookup_2. }
  cbn [List.filter] in Hnd. destruct i as [|i], j as [|j]; cbn in Hi, Hj; simplify_eq; [done | | |].
  - rewrite Ha in Hnd. cbn in Hnd. apply list.NoDup_cons in Hnd as [Hn _]. exfalso. apply Hn. rewrite Hf. by eapply Hin.
  - rewrite Hb in Hnd. cbn in Hnd. apply list.NoDup_cons in Hnd as [Hn _]. exfalso. apply Hn. rewrite <- Hf. by eapply Hin.
  - f_equal. apply (IH i j); try done. destruct (p x); [by apply list.NoDup_cons in Hnd as [_ ?] | done].
Qed.

Lemma plausible_check d :
  (Z.of_nat (length (feature_events d)) <? 2 ^ 63 - 1) && bool_decide (NoDup (ev_View <$> List.filter creates (log d))) = true ->
  plausible d.
Proof.
  intros [Hl%Z.ltb_lt Hn%bool_decide_eq_true]%andb_true_iff. split; [done |].
  intros view i j e1 e2 def1 def2 Hi Hj Hv1 Hv2 [Ht1 Hd1] [Ht2 Hd2] H1 H2.
  apply (NoDup_filter_index ev_View creates (log d) i j e1 e2); [done.. | | | congruence];
    unfold creates; rewrite bool_decide_eq_true_2 by done; [by rewrite Hd1, H1 | by rewrite Hd2, H2].
Qed.

Lemma served_ok qs s : log_ok (s_db s) ->
  (Z.of_nat (length (feature_events (s_db (served_all qs s).2))) <? 2 ^ 63 - 1) &&
  bool_decide (NoDup (ev_View <$> List.filter creates (log (s_db (served_all qs s).2)))) = true ->
  log_ok (s_db (served_all qs s).2).
Proof.
  intros Hok Hc. destruct (features_run qs s _ _ Hok (run_all_par (serve <$> qs) s)) as [Hk _].
  apply (k_good _ _ _ Hk (plausible_check _ Hc) Hok).
Qed.

(** ** The demonstration's requests *)

Definition alice : Principal := {| UserID := "alice"; Team := "ml"; Scopes := [adminScope] |}.
Definition oscar : Principal := {| UserID := "oscar"; Team := "ops"; Scopes := [] |}.

Definition user : Entity := {| en_Name := "user"; JoinKey := "user_id"; en_Description := "" |}.
Definition score : FeatureSpec := {| sp_Name := "score"; ValueType := FeatureTypeInt64; sp_Description := ""; Dimension := 0 |}.
Definition embedding : FeatureSpec := {| sp_Name := "emb"; ValueType := FeatureTypeDoubleList; sp_Description := ""; Dimension := 2 |}.

Definition credit (key : string) : DefineFeatureViewInput := {|
  df_Name := "credit"; df_Description := ""; df_Entity := user; df_Features := [score; embedding]; df_IdempotencyKey := key |}.

Definition int_value (n : Z) : FeatureValue := {|
  val_Kind := FeatureTypeInt64; val_Int := n; val_Double := 0; val_Str := ""; val_Bool := false; val_Time := 0; val_List := []; val_Struct := [] |}.
Definition list_value (l : list Z) : FeatureValue := {|
  val_Kind := FeatureTypeDoubleList; val_Int := 0; val_Double := 0; val_Str := ""; val_Bool := false; val_Time := 0; val_List := l; val_Struct := [] |}.

Definition row (entity : string) (n : Z) (at_time : time) : FeatureRow :=
  {| row_EntityID := entity; row_Values := {["score" := int_value n]}; row_EventTime := at_time |}.

Definition write (view key : string) (rows : list FeatureRow) : WriteFeaturesInput :=
  {| wf_FeatureViewID := view; wf_Rows := rows; wf_IdempotencyKey := key |}.

Definition online (view : string) (ids : list string) : GetOnlineFeaturesInput :=
  {| go_FeatureViewID := view; go_EntityIDs := ids; go_FeatureNames := [] |}.

Definition historical (view : string) (ids : list string) (at_time : time) : GetHistoricalFeaturesInput :=
  {| gh_FeatureViewID := view; gh_EntityIDs := ids; gh_AsOf := at_time; gh_FeatureNames := []; gh_Pagination := {| PageSize := 0; PageToken := "" |} |}.

(** The scores that an answer's page tells. *)
Definition scores (r : result reply fs_error) : option (list (string * Z)) :=
  match r with
  | Ok (APage page) => Some ((fun v => (vec_EntityID v, default 0 (val_Int <$> vec_Values v !! "score"))) <$> Vectors page)
  | _ => None
  end.

Definition all_ok (rs : list (result reply fs_error)) : bool := forallb is_ok rs.

(** The first id minted is the view's, the second its definition's. *)
Definition history : list request := [
  QDefine alice (credit "k0");
  QWrite alice (write "a" "k1" [row "u1" 1 (2 * Hour); row "u2" 10 (2 * Hour); row "u1" 2 (4 * Hour)]);
  QWrite alice (write "a" "" [row "u1" 3 (3 * Hour)]);
  QHistorical alice (historical "a" ["u1"; "u2"; "u3"] (3 * Hour));
  QOnline alice (online "a" ["u1"; "u2"; "u3"]);
  QOnline oscar (online "a" ["u1"])].

Definition after_history : site outside store := (served_all history (started [] empty_store)).2.

Example history_scores : scores <$> (served_all history (started [] empty_store)).1 =
  [None; None; None; Some [("u1", 3); ("u2", 10)]; Some [("u1", 3); ("u2", 10)]; None].
Proof. vm_compute. reflexivity. Qed.

Lemma history_plausible : plausible (s_db after_history).
Proof. apply plausible_check. vm_compute. reflexivity. Qed.

Lemma history_ok : log_ok (s_db after_history).
Proof. apply served_ok; [apply empty_store_ok | vm_compute; reflexivity]. Qed.

(** ** Where the code departs from its comments *)

Definition retried : list request := [
  QDefine alice (credit "k0"); QWrite alice (write "a" "k1" [row "u1" 1 0]); QWrite alice (write "a" "k2" [row "u1" 2 0]);
  QOnline alice (online "a" ["u1"]); QWrite alice (write "a" "k1" [row "u1" 1 0]); QOnline alice (online "a" ["u1"])].

(** A retried write regresses the online view: the client of the first of two
    writes retries it after the second, every request answers success and the log
    holds each write once, but the replay puts the old vector back, so that online
    reads answer the first value while the log's latest is the second. *)
Theorem replay_regresses_online :
  let run := served_all retried (started [] empty_store) in
  all_ok run.1 = true /\ (scores <$> run.1) = [None; None; None; Some [("u1", 2)]; None; Some [("u1", 1)]] /\
  length (log (s_db run.2)) = 3%nat /\ ~ online_current "a" (s_db run.2).
Proof.
  split; [vm_compute; reflexivity |]. split; [vm_compute; reflexivity |]. split; [vm_compute; reflexivity |].
  intros Hc. specialize (Hc "u1"). vm_compute in Hc. discriminate.
Qed.

(** Two concurrent attempts at one write, each looking for the key before the other's commit. *)
Definition defined : site outside store := (served_all [QDefine alice (credit "k0")] (started [] empty_store)).2.

Definition attempt : prog (site outside store) (result reply fs_error) := serve (QWrite alice (write "a" "k1" [row "u1" 1 0])).

Definition in_turn : list nat := concat (replicate 40 [0%nat; 1%nat]).

Definition raced := Eval vm_compute in schedule in_turn [attempt; attempt] defined.

(** Exactly-once breaks under concurrency: the idempotency key is looked up before
    the append takes its lock and recorded with ON CONFLICT DO NOTHING, so that two
    concurrent attempts at one write under one key both append it, and both answer
    success as new writes. *)
Theorem concurrent_retry_duplicates : exists results s',
  par [attempt; attempt] defined results s' /\ all_ok results = true /\
  length (log (s_db defined)) = 1%nat /\ length (log (s_db s')) = 3%nat /\
  (ev_Values <$> List.filter (write_to "u1") (log (s_db s'))) = [{["score" := int_value 1]}; {["score" := int_value 1]}].
Proof.
  exists (match raced.1 with [Ret a; Ret b] => [a; b] | _ => [] end), raced.2. split; [apply (schedule_par in_turn); vm_compute; reflexivity |].
  split; [vm_compute; reflexivity |]. split; [vm_compute; reflexivity |]. split; vm_compute; reflexivity.
Qed.

(** A deletion whose purge fails, and its retry. *)
Definition with_fates (fs : list fate) (s : site outside store) : site outside store :=
  {| s_world := {| clock := clock (s_world s); minted := minted (s_world s); fates := fs |}; s_db := s_db s |}.

Definition written_once : site outside store := (served_all [QWrite alice (write "a" "k1" [row "u1" 1 0])] defined).2.

Definition half_deleted : list (result reply fs_error) * site outside store :=
  served_all [QDelete alice "a" "k2"] (with_fates [Works; Works; Works; Refused] written_once).

Definition deleted_again : list (result reply fs_error) * site outside store :=
  served_all [QDelete alice "a" "k2"; QOnline alice (online "a" ["u1"])] half_deleted.2.

(** A deletion answers an error when its purge fails; its retry answers success from
    the deletion mark alone and never purges, so that the retired view is served on. *)
Lemma retired_view_is_served :
  (is_ok <$> half_deleted.1) = [false] /\ all_ok deleted_again.1 = true /\
  (scores <$> deleted_again.1) = [None; Some [("u1", 1)]] /\
  IsDeleted (foldView (view_events "a" (s_db deleted_again.2))).1 = true.
Proof. split; [vm_compute; reflexivity |]. split; [vm_compute; reflexivity |]. split; vm_compute; reflexivity. Qed.

(** A key is not tied to its command: a write under the key of the definition is
    answered as a replay of the definition and is lost; a deletion under the key of a
    write is answered with success and the view lives on. *)
Lemma key_of_another_command :
  let write_run := served_all [QWrite alice (write "a" "k0" [row "u1" 1 0])] defined in
  let delete_run := served_all [QDelete alice "a" "k1"] written_once in
  (match write_run.1 with [Ok (AWritten res)] => WrittenCount res | _ => 0 end) = 1 /\
  List.filter is_write (log (s_db write_run.2)) = [] /\
  (match delete_run.1 with [Ok (AView v)] => Some (IsDeleted v) | _ => None end) = Some false.
Proof. split; [vm_compute; reflexivity |]. split; vm_compute; reflexivity. Qed.

(** A rebuild of a team's fleet covers its first hundred views. *)
Lemma fleet_rebuild_is_one_page team (d : store) :
  (length (ListViewIDs team "" {| PageSize := MaxPageSize; PageToken := "" |} d).1 <= 100)%nat.
Proof.
  unfold ListViewIDs. change (Z.to_nat (PageSize (clampPage {| PageSize := MaxPageSize; PageToken := "" |}))) with 100%nat.
  set (ids := take (100 + 1) _). destruct (Nat.ltb_spec 100 (length ids)) as [_ | Hle]; [| exact Hle].
  cbn [fst]. rewrite length_take. lia.
Qed.

(** ** Witnesses *)

Definition history_results : list (result reply fs_error) := (served_all history (started [] empty_store)).1.

Lemma history_par : par (serve <$> history) (started [] empty_store) history_results after_history.
Proof. unfold history_results, after_history, served_all. apply run_all_par. Qed.

Lemma features_well_typed_witness : exists e0 def, definition_in (s_db after_history) "a" e0 def /\
  of_declared_type (vd_Features def) "score" (int_value 3).
Proof.
  destruct (features_well_typed history (started [] empty_store) after_history history_results empty_store_ok history_par history_plausible)
    as (_ & Hw & _).
  destruct (log (s_db after_history) !! 4%nat) as [e|] eqn:Ee; [| vm_compute in Ee; discriminate].
  assert (ev_View e = "a" /\ is_write e = true /\ ev_Values e !! "score" = Some (int_value 3)) as (Hv & Hwr & Hs)
    by (vm_compute in Ee; injection Ee as <-; split; [reflexivity | split; vm_compute; reflexivity]).
  destruct (Hw e (list_elem_of_lookup_2 _ _ _ Ee) Hwr) as (_ & e0 & def & Hd & _ & Ht).
  exists e0, def. rewrite Hv in Hd. split; [exact Hd | exact (Ht "score" _ Hs)].
Defined.

Lemma event_log_integrity_witness : ev_Version <$> log (s_db after_history) = seqZ 1 5.
Proof.
  destruct (event_log_integrity history (started [] empty_store) after_history history_results empty_store_ok history_par history_plausible)
    as (_ & Hv & _).
  rewrite Hv. vm_compute. reflexivity.
Defined.

Definition foreign : list request := [
  QWrite oscar (write "a" "" [row "u1" 9 0]); QDefine oscar (credit ""); QGetByName oscar "credit"].

Definition after_foreign : list (result reply fs_error) * site outside store := served_all foreign after_history.

Lemma after_foreign_plausible : plausible (s_db after_foreign.2).
Proof. apply plausible_check. vm_compute. reflexivity. Qed.

Lemma foreign_par : par (serve <$> foreign) after_history after_foreign.1 after_foreign.2.
Proof. unfold after_foreign, served_all. apply run_all_par. Qed.

Lemma alice_owns : owner (s_db after_history) "a" "ml".
Proof.
  destruct (log (s_db after_history) !! 0%nat) as [e|] eqn:Ee; [| vm_compute in Ee; discriminate].
  pose proof (list_elem_of_lookup_2 _ _ _ Ee) as Hin.
  destruct (ev_ViewDef e) as [def|] eqn:Ed; [| vm_compute in Ee; injection Ee as <-; vm_compute in Ed; discriminate].
  exists e, def. vm_compute in Ee. injection Ee as <-. vm_compute in Ed. injection Ed as <-.
  split; [| reflexivity]. split; [exact Hin | repeat split].
Qed.

Lemma feature_tenant_isolation_witness :
  is_ok <$> after_foreign.1 = [false; true; true] /\ same_rows "a" (s_db after_history) (s_db after_foreign.2).
Proof.
  split; [vm_compute; reflexivity |].
  destruct (feature_tenant_isolation foreign after_history after_foreign.2 after_foreign.1 history_ok
    foreign_par after_foreign_plausible) as [Hrows _].
  apply (Hrows "a" "ml" alice_owns). intros (q & Hq & Ht).
  assert (forall q, q ∈ foreign -> Team (actor_of q) = "ops") as Hops by (apply list.Forall_forall; repeat constructor).
  rewrite (Hops q Hq) in Ht. discriminate.
Defined.

Definition written_of (r : option (result reply fs_error)) : WriteFeaturesResult :=
  match r with Some (Ok (AWritten res)) => res | _ => {| WrittenCount := 0; WrittenThroughVersion := 0; AffectedEntityIDs := [] |} end.

Definition page_of (r : option (result reply fs_error)) : FeatureVectorPage :=
  match r with Some (Ok (APage page)) => page | _ => {| Vectors := []; MissingEntityIDs := []; NextPageToken := "" |} end.

Lemma acknowledged_write_durable_witness : exists e, e ∈ log (s_db after_history) /\ ev_Version e = 5 /\ write_to "u1" e = true.
Proof.
  destruct (acknowledged_write_durable history (started [] empty_store) after_history history_results 2 alice
    (write "a" "" [row "u1" 3 (3 * Hour)]) (written_of (history_results !! 2%nat)) empty_store_ok history_par history_plausible)
    as (_ & _ & Hrows); [reflexivity | vm_compute; reflexivity |].
  destruct (Hrows eq_refl) as [_ Hall].
  destruct (Hall 0%nat (row "u1" 3 (3 * Hour)) eq_refl) as (e & He & Hv & Hw & _). exists e. split; [exact He |].
  split; [| exact Hw]. rewrite Hv. vm_compute. reflexivity.
Defined.

Lemma point_in_time_reads_witness : "u3" ∈ MissingEntityIDs (page_of (history_results !! 3%nat)) /\
  exists l sv, log l `prefix_of` log (s_db after_history) /\ exists e, e ∈ log l /\ visible (3 * Hour) "u1" e = true /\ ev_Version e = 5 /\
    vector_of sv e ∈ Vectors (page_of (history_results !! 3%nat)).
Proof.
  destruct (point_in_time_reads history (started [] empty_store) after_history history_results 3 alice
    (historical "a" ["u1"; "u2"; "u3"] (3 * Hour)) (page_of (history_results !! 3%nat)) empty_store_ok history_par history_plausible)
    as (l & sv & _ & Hp & Hv & Hm); [reflexivity | vm_compute; reflexivity |].
  split; [assert ("u3" ∈ ["u3"]) as Hin by (by apply list_elem_of_singleton); vm_compute; exact Hin |].
  exists l, sv. split; [exact Hp |].
  destruct (Vectors (page_of (history_results !! 3%nat)) !! 0%nat) as [w|] eqn:Ew; [| vm_compute in Ew; discriminate].
  pose proof (list_elem_of_lookup_2 _ _ _ Ew) as Hin. apply Hv in Hin as (entity & e & Hent & (He & Hview & Hvis) & _ & Hvec).
  exists e. split; [exact He |]. assert (vec_EntityID w = "u1" /\ vec_AsOfVersion w = 5) as [Hid Hver]
    by (vm_compute in Ew; injection Ew as <-; split; reflexivity).
  rewrite Hvec in Hid, Hver. cbn in Hid, Hver.
  assert (entity = "u1") as ->.
  { unfold visible, write_to in Hvis. apply andb_true_iff in Hvis as [[_ Hx%String.eqb_eq]%andb_true_iff _]. congruence. }
  split; [exact Hvis |]. split; [exact Hver |]. change (vector_of sv e) with (narrowed [] (vector_of sv e)).
  change (narrowed (gh_FeatureNames (historical "a" ["u1"; "u2"; "u3"] (3 * Hour))) (vector_of sv e)) with (narrowed [] (vector_of sv e)) in Hvec.
  rewrite <- Hvec. exact (list_elem_of_lookup_2 _ _ _ Ew).
Defined.

Lemma defined_ok : log_ok (s_db defined).
Proof. apply served_ok; [apply empty_store_ok | vm_compute; reflexivity]. Qed.

Lemma defined_current : online_current "a" (s_db defined).
Proof. intros entity. vm_compute. reflexivity. Qed.

Definition one_write : WriteFeaturesInput := write "a" "k1" [row "u1" 1 0; row "u2" 2 0; row "u1" 3 0].

Definition wrote := run (WriteFeatures alice one_write) defined.

Definition result_of {A} (dflt : A) (r : result A fs_error) : A := match r with Ok a => a | Err _ => dflt end.

Lemma ok_run {A} (dflt : A) (m : result A fs_error * site outside store) : is_ok m.1 = true -> m = (Ok (result_of dflt m.1), m.2).
Proof. by destruct m as [[a|e] s]. Qed.

Lemma write_keeps_online_current_witness :
  xv_AsOfVersion <$> online_vec (s_db wrote.2) !! ("a", "u1") = Some 4 /\ online_current "a" (s_db wrote.2).
Proof.
  split; [vm_compute; reflexivity |].
  apply (write_keeps_online_current alice one_write defined wrote.2 (result_of (written_of None) wrote.1) defined_ok).
  - apply plausible_check. vm_compute. reflexivity.
  - exact defined_current.
  - right. vm_compute. reflexivity.
  - unfold wrote. apply ok_run. vm_compute. reflexivity.
Defined.

Definition after_retry : site outside store := (served_all retried (started [] empty_store)).2.

Lemma after_retry_ok : log_ok (s_db after_retry).
Proof. apply served_ok; [apply empty_store_ok | vm_compute; reflexivity]. Qed.

Definition rebuilt := run (RebuildViews alice {| rb_FeatureViewID := "a"; rb_Target := RebuildTargetAll |}) after_retry.

Lemma rebuild_restores_online_witness :
  xv_AsOfVersion <$> online_vec (s_db after_retry) !! ("a", "u1") = Some 2 /\ online_current "a" (s_db rebuilt.2).
Proof.
  split; [vm_compute; reflexivity |].
  apply (rebuild_restores_online alice {| rb_FeatureViewID := "a"; rb_Target := RebuildTargetAll |} after_retry rebuilt.2 after_retry_ok).
  - discriminate.
  - reflexivity.
  - vm_compute. reflexivity.
  - unfold rebuilt. etrans; [apply (ok_run tt); vm_compute; reflexivity |]. by destruct (result_of tt _).
Defined.

Definition retired : site outside store := (served_all [QDelete alice "a" "k9"] written_once).2.

Lemma written_once_ok : log_ok (s_db written_once).
Proof. apply served_ok; [exact defined_ok | vm_compute; reflexivity]. Qed.

Lemma retired_ok : log_ok (s_db retired).
Proof. apply served_ok; [exact written_once_ok | vm_compute; reflexivity]. Qed.

Definition redefined := run (DefineFeatureView alice (credit "k10")) retired.

Lemma redefinition_never_revives_witness :
  is_deleted <$> view_name_index (s_db redefined.2) !! "a" = Some false /\ IsDeleted (result_of no_view redefined.1) = true.
Proof.
  split; [vm_compute; reflexivity |].
  apply (redefinition_never_revives alice (credit "k10") retired redefined.2 (result_of no_view redefined.1) "a" retired_ok).
  - apply plausible_check. vm_compute. reflexivity.
  - vm_compute. reflexivity.
  - vm_compute. reflexivity.
  - unfold redefined. apply ok_run. vm_compute. reflexivity.
Defined.

Definition sample : FeatureEvent := {|
  ev_ID := "e"; ev_Type := FeatureEventValuesWritten; ev_View := "a"; ev_Version := 1; ev_EntityID := "u1";
  ev_Values := {["score" := int_value 1]}; ev_EventTime := Hour + 1; ev_ViewDef := None; ev_AppendedAt := Hour |}.

Definition with_sample : store := match insertEvent sample empty_store with Ok d => d | Err _ => empty_store end.

Lemma event_roundtrip_witness : exists r, feature_events with_sample = [r] /\ scanEvent r = stored sample.
Proof.
  destruct (event_roundtrip sample empty_store with_sample) as (r & Hr & Hs & _); [vm_compute; reflexivity |].
  exists r. split; [exact Hr | exact Hs].
Defined.
