(* ===== verification/GoFormat.v ===== *)
(** * Formats of Go's standard library

    UTF-8 decoding, [strconv.Quote], lowercase hex, and the RFC 3339 form of a time in
    UTC with nanoseconds, each with the function that reads it back. The table of
    printable characters is an argument of [Quote]. *)

From S2P Require Import Prelude.
Open Scope Z_scope.

Definition byte_of (a : ascii) : Z := Z.of_N (N_of_ascii a).
Definition chr (z : Z) : ascii := ascii_of_N (Z.to_N z).

Lemma string_app_cons a s t : String a s +:+ t = String a (s +:+ t).
Proof. reflexivity. Qed.

Lemma string_cons_inj a s t : String a s = String a t -> s = t.
Proof. congruence. Qed.

Lemma string_app_assoc s t u : (s +:+ t) +:+ u = s +:+ (t +:+ u).
Proof. induction s as [|a s IH]; [done |]. by rewrite !string_app_cons, IH. Qed.

Lemma string_length_app s t : String.length (s +:+ t) = (String.length s + String.length t)%nat.
Proof. induction s as [|a s IH]; [done | by rewrite string_app_cons; cbn; rewrite IH]. Qed.

(** The bytes of a string. *)
Definition bytes_of (s : string) : list Z := map byte_of (String.list_ascii_of_string s).

Lemma byte_of_range a : 0 <= byte_of a < 256.
Proof. unfold byte_of. pose proof (N_ascii_bounded a). lia. Qed.

Lemma chr_byte a : chr (byte_of a) = a.
Proof. unfold chr, byte_of. rewrite N2Z.id. apply ascii_N_embedding. Qed.

Lemma byte_chr z : 0 <= z < 256 -> byte_of (chr z) = z.
Proof. intros Hz. unfold chr, byte_of. rewrite N_ascii_embedding by lia. lia. Qed.

(** ** UTF-8 ([unicode/utf8]) *)

Definition within (lo hi : Z) (b : Z) : bool := (lo <=? b) && (b <=? hi).

(** The size of the sequence that a first byte begins and the range of its second byte. *)
Definition lead (b : Z) : option (nat * Z * Z) :=
  if b <? 0x80 then Some (1%nat, 0, 0)
  else if b <? 0xC2 then None
  else if b <? 0xE0 then Some (2%nat, 0x80, 0xBF)
  else if b =? 0xE0 then Some (3%nat, 0xA0, 0xBF)
  else if b =? 0xED then Some (3%nat, 0x80, 0x9F)
  else if b <? 0xF0 then Some (3%nat, 0x80, 0xBF)
  else if b =? 0xF0 then Some (4%nat, 0x90, 0xBF)
  else if b <? 0xF4 then Some (4%nat, 0x80, 0xBF)
  else if b =? 0xF4 then Some (4%nat, 0x80, 0x8F)
  else None.

(** The character at the front and the number of its bytes beyond the first; [None]
    where Go answers [RuneError] with width 1. *)
Definition DecodeRune (s : string) : option (Z * nat) :=
  match s with
  | EmptyString => None
  | String a s1 =>
      let b0 := byte_of a in
      match lead b0 with
      | None => None
      | Some (1%nat, _, _) => Some (b0, 0%nat)
      | Some (n, lo, hi) =>
          match s1 with
          | EmptyString => None
          | String b s2 =>
              let b1 := byte_of b in
              if negb (within lo hi b1) then None
              else if Nat.eqb n 2 then Some ((b0 - 0xC0) * 64 + (b1 - 0x80), 1%nat)
              else match s2 with
              | EmptyString => None
              | String c s3 =>
                  let b2 := byte_of c in
                  if negb (within 0x80 0xBF b2) then None
                  else if Nat.eqb n 3 then Some ((b0 - 0xE0) * 4096 + (b1 - 0x80) * 64 + (b2 - 0x80), 2%nat)
                  else match s3 with
                  | EmptyString => None
                  | String d _ =>
                      let b3 := byte_of d in
                      if negb (within 0x80 0xBF b3) then None
                      else Some ((b0 - 0xF0) * 262144 + (b1 - 0x80) * 4096 + (b2 - 0x80) * 64 + (b3 - 0x80), 3%nat)
                  end
              end
          end
      end
  end.

Definition AppendRune (r : Z) : string :=
  if within 0 0x7F r then String (chr r) ""
  else if within 0x80 0x7FF r then String (chr (0xC0 + r / 64)) (String (chr (0x80 + r mod 64)) "")
  else
    let r := if within 0xD800 0xDFFF r || (0x10FFFF <? r) || (r <? 0) then 0xFFFD else r in
    if r <? 0x10000 then String (chr (0xE0 + r / 4096)) (String (chr (0x80 + r / 64 mod 64)) (String (chr (0x80 + r mod 64)) ""))
    else String (chr (0xF0 + r / 262144)) (String (chr (0x80 + r / 4096 mod 64)) (String (chr (0x80 + r / 64 mod 64)) (String (chr (0x80 + r mod 64)) ""))).

Definition ValidRune (r : Z) : bool := within 0 0xD7FF r || within 0xE000 0x10FFFF r.

(** Decoding, seen at once: the bytes of a character are the encoding of its code point,
    and what follows does not matter. *)
Definition encoded (s : string) (r : Z) (w : nat) : Prop :=
  exists rest, s = AppendRune r +:+ rest /\ String.length (AppendRune r) = S w /\ ValidRune r = true.

Ltac bytes := unfold within in *; Z.div_mod_to_equations; lia.

Lemma AppendRune1 a : byte_of a < 0x80 -> AppendRune (byte_of a) = String a "".
Proof.
  intros H. pose proof (byte_of_range a). unfold AppendRune.
  replace (within 0 0x7F (byte_of a)) with true by (unfold within; lia). by rewrite chr_byte.
Qed.

Lemma AppendRune2 a b : 0xC2 <= byte_of a < 0xE0 -> 0x80 <= byte_of b <= 0xBF ->
  AppendRune ((byte_of a - 0xC0) * 64 + (byte_of b - 0x80)) = String a (String b "").
Proof.
  intros Ha Hb. unfold AppendRune. set (r := (byte_of a - 0xC0) * 64 + (byte_of b - 0x80)).
  replace (within 0 0x7F r) with false by (unfold within, r; lia).
  replace (within 0x80 0x7FF r) with true by (unfold within, r; lia).
  replace (0xC0 + r / 64) with (byte_of a) by (unfold r; bytes).
  replace (0x80 + r mod 64) with (byte_of b) by (unfold r; bytes). by rewrite !chr_byte.
Qed.

Lemma AppendRune3 a b c :
  let r := (byte_of a - 0xE0) * 4096 + (byte_of b - 0x80) * 64 + (byte_of c - 0x80) in
  0xE0 <= byte_of a < 0xF0 -> 0x80 <= byte_of b <= 0xBF -> 0x80 <= byte_of c <= 0xBF ->
  0x800 <= r -> (r < 0xD800 \/ 0xDFFF < r) -> AppendRune r = String a (String b (String c "")).
Proof.
  intros r Ha Hb Hc Hlo Hs. unfold AppendRune.
  replace (within 0 0x7F r) with false by (unfold within; lia).
  replace (within 0x80 0x7FF r) with false by (unfold within; lia).
  replace (within 0xD800 0xDFFF r || (0x10FFFF <? r) || (r <? 0)) with false by (unfold within; lia).
  replace (r <? 0x10000) with true by (unfold r; lia).
  replace (0xE0 + r / 4096) with (byte_of a) by (unfold r; bytes).
  replace (0x80 + r / 64 mod 64) with (byte_of b) by (unfold r; bytes).
  replace (0x80 + r mod 64) with (byte_of c) by (unfold r; bytes). by rewrite !chr_byte.
Qed.

Lemma AppendRune4 a b c d :
  let r := (byte_of a - 0xF0) * 262144 + (byte_of b - 0x80) * 4096 + (byte_of c - 0x80) * 64 + (byte_of d - 0x80) in
  0xF0 <= byte_of a -> 0x80 <= byte_of b <= 0xBF -> 0x80 <= byte_of c <= 0xBF -> 0x80 <= byte_of d <= 0xBF ->
  0x10000 <= r <= 0x10FFFF -> AppendRune r = String a (String b (String c (String d ""))).
Proof.
  intros r Ha Hb Hc Hd Hr. unfold AppendRune.
  replace (within 0 0x7F r) with false by (unfold within; lia).
  replace (within 0x80 0x7FF r) with false by (unfold within; lia).
  replace (within 0xD800 0xDFFF r || (0x10FFFF <? r) || (r <? 0)) with false by (unfold within; lia).
  replace (r <? 0x10000) with false by lia.
  replace (0xF0 + r / 262144) with (byte_of a) by (unfold r; bytes).
  replace (0x80 + r / 4096 mod 64) with (byte_of b) by (unfold r; bytes).
  replace (0x80 + r / 64 mod 64) with (byte_of c) by (unfold r; bytes).
  replace (0x80 + r mod 64) with (byte_of d) by (unfold r; bytes). by rewrite !chr_byte.
Qed.

Lemma lead_inv b n lo hi : lead b = Some (n, lo, hi) ->
  (n = 1%nat /\ b < 0x80) \/
  (n = 2%nat /\ 0xC2 <= b < 0xE0 /\ lo = 0x80 /\ hi = 0xBF) \/
  (n = 3%nat /\ 0xE0 <= b < 0xF0 /\ 0x80 <= lo /\ hi <= 0xBF /\ (b = 0xE0 -> lo = 0xA0) /\ (b = 0xED -> hi = 0x9F)) \/
  (n = 4%nat /\ 0xF0 <= b < 0xF5 /\ 0x80 <= lo /\ hi <= 0xBF /\ (b = 0xF0 -> lo = 0x90) /\ (b = 0xF4 -> hi = 0x8F)).
Proof. unfold lead. intros H. repeat case_match; simplify_eq; lia. Qed.

Lemma DecodeRune_encodes s r w : DecodeRune s = Some (r, w) -> encoded s r w.
Proof.
  unfold DecodeRune. destruct s as [|a s1]; [done |]. destruct (lead (byte_of a)) as [[[n lo] hi]|] eqn:El; [| done].
  pose proof (byte_of_range a).
  apply lead_inv in El as [(-> & Ha) | [(-> & Ha & -> & ->) | [(-> & Ha & Hlo & Hhi & H1 & H2) | (-> & Ha & Hlo & Hhi & H1 & H2)]]].
  - intros [= <- <-]. exists s1. rewrite (AppendRune1 a Ha). split; [done |]. split; [done | unfold ValidRune, within; lia].
  - destruct s1 as [|b s2]; [done |]. destruct (within _ _ (byte_of b)) eqn:Eb; [| done]. apply andb_true_iff in Eb as [].
    intros [= <- <-]. exists s2. rewrite AppendRune2 by lia. split; [done |]. split; [done | unfold ValidRune, within; lia].
  - destruct s1 as [|b s2]; [done |]. destruct (within lo hi (byte_of b)) eqn:Eb; [| done]. apply andb_true_iff in Eb as [].
    destruct s2 as [|c s3]; [done |]. cbn [negb Nat.eqb]. destruct (within _ _ (byte_of c)) eqn:Ec; [| done]. apply andb_true_iff in Ec as [].
    intros [= <- <-]. exists s3. rewrite AppendRune3 by lia. split; [done |]. split; [done | unfold ValidRune, within; lia].
  - destruct s1 as [|b s2]; [done |]. destruct (within lo hi (byte_of b)) eqn:Eb; [| done]. apply andb_true_iff in Eb as [].
    destruct s2 as [|c s3]; [done |]. cbn [negb Nat.eqb]. destruct (within _ _ (byte_of c)) eqn:Ec; [| done]. apply andb_true_iff in Ec as [].
    destruct s3 as [|d s4]; [done |]. destruct (within _ _ (byte_of d)) eqn:Ed; [| done]. apply andb_true_iff in Ed as [].
    intros [= <- <-]. exists s4. rewrite AppendRune4 by lia. split; [done |]. split; [done | unfold ValidRune, within; lia].
Qed.

(** What follows a whole character does not change how it is decoded. *)
Lemma DecodeRune_app s r w rest rest' :
  DecodeRune (s +:+ rest) = Some (r, w) -> String.length s = S w -> DecodeRune (s +:+ rest') = Some (r, w).
Proof.
  unfold DecodeRune. destruct s as [|a s1]; [done |]. simpl.
  destruct (lead (byte_of a)) as [[[n lo] hi]|] eqn:El; [| done].
  assert (n = 1 \/ n = 2 \/ n = 3 \/ n = 4)%nat as Hn by (apply lead_inv in El; lia).
  destruct Hn as [-> | [-> | [-> | ->]]]; [done | ..]; cbn [Nat.eqb].
  all: destruct s1 as [|b [|c [|d s4]]]; simpl; intros He Hl; repeat (case_match; simplify_eq); try done; try congruence.
Qed.

(** ** [encoding/hex] and the digits of escapes *)

Definition lowerhex (n : Z) : ascii := chr (if n <? 10 then 48 + n else 87 + n).
Definition unhex (a : ascii) : option Z :=
  let b := byte_of a in
  if within 48 57 b then Some (b - 48) else if within 97 102 b then Some (b - 87) else None.

(** The low [n] hexadecimal digits, highest first. *)
Fixpoint hex_digits (n : nat) (z : Z) : string :=
  match n with
  | O => ""
  | S n => hex_digits n (z / 16) +:+ String (lowerhex (z mod 16)) ""
  end.

Fixpoint read_hex (n : nat) (acc : Z) (s : string) : option (Z * string) :=
  match n with
  | O => Some (acc, s)
  | S n => match s with
           | EmptyString => None
           | String a s => match unhex a with Some d => read_hex n (acc * 16 + d) s | None => None end
           end
  end.

Lemma unhex_lowerhex n : 0 <= n < 16 -> unhex (lowerhex n) = Some n.
Proof.
  intros Hn. unfold unhex, lowerhex. destruct (Z.ltb_spec n 10); rewrite byte_chr by lia; unfold within.
  - replace ((48 <=? 48 + n) && (48 + n <=? 57)) with true by lia. f_equal. lia.
  - replace ((48 <=? 87 + n) && (87 + n <=? 57)) with false by lia.
    replace ((97 <=? 87 + n) && (87 + n <=? 102)) with true by lia. f_equal. lia.
Qed.

Lemma read_hex_app n m z acc t :
  0 <= z < 16 ^ Z.of_nat n -> read_hex (n + m) acc (hex_digits n z +:+ t) = read_hex m (acc * 16 ^ Z.of_nat n + z) t.
Proof.
  revert m z t. induction n as [|n IH]; intros m z t Hz; [simpl in *; f_equal; lia |].
  rewrite Nat2Z.inj_succ, Z.pow_succ_r in * by lia.
  cbn [hex_digits]. rewrite string_app_assoc, Nat.add_succ_comm, IH by (Z.div_mod_to_equations; lia).
  cbn [read_hex]. rewrite string_app_cons, unhex_lowerhex by (apply Z.mod_pos_bound; lia).
  f_equal. pose proof (Z.div_mod z 16). lia.
Qed.

Lemma read_hex_digits n z rest :
  0 <= z < 16 ^ Z.of_nat n -> read_hex n 0 (hex_digits n z +:+ rest) = Some (z, rest).
Proof. intros Hz. rewrite <- (Nat.add_0_r n) at 1. by rewrite read_hex_app. Qed.

Lemma hex_digits_length n z : String.length (hex_digits n z) = n.
Proof. revert z. induction n as [|n IH]; intros z; [done |]. cbn [hex_digits]. rewrite string_length_app, IH. cbn. lia. Qed.

(** [hex.EncodeToString] *)
Fixpoint EncodeToString (s : string) : string :=
  match s with "" => "" | String a s => hex_digits 2 (byte_of a) +:+ EncodeToString s end.

Lemma EncodeToString_inj s t : EncodeToString s = EncodeToString t -> s = t.
Proof.
  revert t. induction s as [|a s IH]; intros [|b t]; try done. cbn [EncodeToString]. intros He.
  pose proof (byte_of_range a). pose proof (byte_of_range b).
  pose proof (read_hex_digits 2 (byte_of a) (EncodeToString s) ltac:(simpl; lia)) as Ha.
  rewrite He, read_hex_digits in Ha by (simpl; lia). injection Ha as Hb Hr.
  rewrite (IH t) by done. f_equal. rewrite <- (chr_byte a), <- (chr_byte b). f_equal. simpl in Hb. lia.
Qed.

(** ** [strconv.Quote] *)

Definition dquote : ascii := chr 34.
Definition backslash : ascii := chr 92.
Definition escape (c : ascii) (digits : string) : string := String backslash (String c digits).

(** The escapes with a letter: the character and its letter. *)
Definition letter (r : Z) : option ascii :=
  if r =? 7 then Some "a"%char else if r =? 8 then Some "b"%char else if r =? 12 then Some "f"%char
  else if r =? 10 then Some "n"%char else if r =? 13 then Some "r"%char else if r =? 9 then Some "t"%char
  else if r =? 11 then Some "v"%char else None.

Section quote.
Context (IsPrint : Z -> bool).

Definition appendEscapedRune (r : Z) : string :=
  if (r =? 34) || (r =? 92) then escape (chr r) ""
  else if IsPrint r then AppendRune r
  else match letter r with
  | Some c => escape c ""
  | None =>
      if (r <? 32) || (r =? 127) then escape "x" (hex_digits 2 r)
      else
        let r := if ValidRune r then r else 0xFFFD in
        if r <? 0x10000 then escape "u" (hex_digits 4 r) else escape "U" (hex_digits 8 r)
  end.

(** The quoted characters of [s] after its first [skip] bytes. *)
Fixpoint quote_from (skip : nat) (s : string) : string :=
  match s with
  | "" => ""
  | String a s' =>
      match skip with
      | S skip => quote_from skip s'
      | O => match DecodeRune s with
             | None => escape "x" (hex_digits 2 (byte_of a)) +:+ quote_from 0 s'
             | Some (r, w) => appendEscapedRune r +:+ quote_from w s'
             end
      end
  end.

Definition Quote (s : string) : string := String dquote (quote_from 0 s +:+ String dquote "").
End quote.

Fixpoint sdrop (n : nat) (s : string) : string :=
  match n, s with O, _ => s | S n, String _ s => sdrop n s | S _, "" => "" end.

Definition bytes_of_hex (n : nat) (encode : Z -> string) (s : string) : option (string * string) :=
  match read_hex n 0 s with Some (v, rest) => Some (encode v, rest) | None => None end.

(** The bytes that the first character of a quoted text stands for, and what follows;
    [None] at the closing quote. *)
Definition unquote_char (s : string) : option (string * string) :=
  match s with
  | "" => None
  | String a s1 =>
      if ascii_dec a dquote then None
      else if ascii_dec a backslash then
        match s1 with
        | "" => None
        | String c s2 =>
            match list_find (fun r => letter r = Some c) [7; 8; 9; 10; 11; 12; 13] with
            | Some (_, r) => Some (String (chr r) "", s2)
            | None =>
                if ascii_dec c "x" then bytes_of_hex 2 (fun v => String (chr v) "") s2
                else if ascii_dec c "u" then bytes_of_hex 4 AppendRune s2
                else if ascii_dec c "U" then bytes_of_hex 8 AppendRune s2
                else Some (String c "", s2)
            end
        end
      else match DecodeRune s with
           | Some (r, w) => Some (AppendRune r, sdrop (S w) s)
           | None => None
           end
  end.

Lemma sdrop_app s t : sdrop (String.length s) (s +:+ t) = t.
Proof. induction s as [|a s IH]; [done | exact IH]. Qed.

Lemma quote_skip isPrint s t : quote_from isPrint (String.length s) (s +:+ t) = quote_from isPrint 0 t.
Proof. induction s as [|a s IH]; [done | exact IH]. Qed.

Lemma string_app_nil s : s +:+ "" = s.
Proof. induction s as [|a s IH]; [done | by rewrite string_app_cons, IH]. Qed.

Lemma unquote_hex n v (encode : Z -> string) rest :
  0 <= v < 16 ^ Z.of_nat n -> bytes_of_hex n encode (hex_digits n v +:+ rest) = Some (encode v, rest).
Proof. intros Hv. unfold bytes_of_hex. by rewrite read_hex_digits. Qed.

Lemma AppendRune_head r : ValidRune r = true -> r <> 34 -> r <> 92 ->
  exists a s, AppendRune r = String a s /\ a <> dquote /\ a <> backslash.
Proof.
  intros Hv H1 H2. assert (0 <= r <= 0x10FFFF) as Hr by (unfold ValidRune, within in Hv; lia).
  assert (forall z, 0 <= z < 256 -> z <> 34 -> z <> 92 -> chr z <> dquote /\ chr z <> backslash) as Hc.
  { intros z Hz Ha Hb. split; intros E; apply (f_equal byte_of) in E; unfold dquote, backslash in E;
      rewrite !byte_chr in E; lia. }
  unfold AppendRune. replace (within 0xD800 0xDFFF r || (0x10FFFF <? r) || (r <? 0)) with false
    by (unfold ValidRune, within in *; lia).
  destruct (within 0 0x7F r) eqn:E1; [eexists _, _; (split; [reflexivity |]); apply Hc; unfold within in *; lia |].
  destruct (within 0x80 0x7FF r) eqn:E2; [eexists _, _; (split; [reflexivity |]); apply Hc; bytes |].
  destruct (r <? 0x10000) eqn:E3; eexists _, _; (split; [reflexivity |]); apply Hc; bytes.
Qed.

Lemma AppendRune_ascii r : 0 <= r < 0x80 -> AppendRune r = String (chr r) "".
Proof. intros Hr. unfold AppendRune. by replace (within 0 0x7F r) with true by (unfold within; lia). Qed.

Lemma letter_cases r c : letter r = Some c -> r = 7 \/ r = 8 \/ r = 9 \/ r = 10 \/ r = 11 \/ r = 12 \/ r = 13.
Proof. unfold letter. intros H. repeat case_match; simplify_eq; bool_to_prop; lia. Qed.

(** A character is told by its quoted form, whatever follows. *)
Lemma unquote_escaped isPrint r w rest :
  ValidRune r = true -> String.length (AppendRune r) = S w -> DecodeRune (AppendRune r) = Some (r, w) ->
  unquote_char (appendEscapedRune isPrint r +:+ rest) = Some (AppendRune r, rest).
Proof.
  intros Hv Hl Hd. assert (0 <= r <= 0x10FFFF) as Hr by (unfold ValidRune, within in Hv; lia).
  unfold appendEscapedRune.
  destruct (Z.eqb_spec r 34) as [-> |]; [reflexivity |]. destruct (Z.eqb_spec r 92) as [-> |]; [reflexivity |]. cbn [orb].
  destruct (isPrint r).
  - destruct (AppendRune_head r) as (a & t & Ha & Hq & Hb); [done.. |].
    unfold unquote_char. rewrite Ha, string_app_cons.
    destruct (ascii_dec a dquote); [done |]. destruct (ascii_dec a backslash); [done |].
    rewrite <- string_app_cons, <- Ha, (DecodeRune_app (AppendRune r) r w "" rest) by (by rewrite ?string_app_nil).
    by rewrite <- Hl, sdrop_app.
  - destruct (letter r) as [c|] eqn:El.
    + apply letter_cases in El as Hc. rewrite AppendRune_ascii by lia.
      destruct Hc as [-> | [-> | [-> | [-> | [-> | [-> | ->]]]]]]; simpl in El; injection El as <-; reflexivity.
    + rewrite Hv. destruct ((r <? 32) || (r =? 127)) eqn:Ex.
      * assert (r < 128) by lia. rewrite AppendRune_ascii by lia.
        change (unquote_char (escape "x" (hex_digits 2 r) +:+ rest)) with (bytes_of_hex 2 (fun v => String (chr v) "") (hex_digits 2 r +:+ rest)).
        rewrite unquote_hex; [done | simpl; lia].
      * destruct (Z.ltb_spec r 0x10000).
        -- change (unquote_char (escape "u" (hex_digits 4 r) +:+ rest)) with (bytes_of_hex 4 AppendRune (hex_digits 4 r +:+ rest)).
           rewrite unquote_hex; [done | simpl; lia].
        -- change (unquote_char (escape "U" (hex_digits 8 r) +:+ rest)) with (bytes_of_hex 8 AppendRune (hex_digits 8 r +:+ rest)).
           rewrite unquote_hex; [done | simpl; lia].
Qed.

Lemma quote_step isPrint s : s <> "" ->
  exists b rest token, s = b +:+ rest /\ b <> "" /\ quote_from isPrint 0 s = token +:+ quote_from isPrint 0 rest /\
    forall x, unquote_char (token +:+ x) = Some (b, x).
Proof.
  intros Hs. destruct s as [|a s]; [done |]. destruct (DecodeRune (String a s)) as [[r w]|] eqn:Ed.
  - destruct (DecodeRune_encodes _ _ _ Ed) as (rest & He & Hl & Hv).
    exists (AppendRune r), rest, (appendEscapedRune isPrint r). split; [done |].
    destruct (AppendRune r) as [|a' t] eqn:Ea; [done |]. split; [done |]. injection He as <- Hs'. split.
    + unfold quote_from at 1. rewrite Ed. fold (quote_from isPrint). injection Hl as <-. by rewrite Hs', quote_skip.
    + intros x. rewrite <- Ea in *. apply (unquote_escaped _ _ w); [done.. |].
      rewrite <- (string_app_nil (AppendRune r)). apply (DecodeRune_app _ _ _ rest); [| done].
      rewrite Ea. by rewrite string_app_cons, <- Hs'.
  - exists (String a ""), s, (escape "x" (hex_digits 2 (byte_of a))). split; [done |]. split; [done |]. split.
    + unfold quote_from at 1. rewrite Ed. reflexivity.
    + intros x. change (unquote_char (escape "x" (hex_digits 2 (byte_of a)) +:+ x))
        with (bytes_of_hex 2 (fun v => String (chr v) "") (hex_digits 2 (byte_of a) +:+ x)).
      pose proof (byte_of_range a). rewrite unquote_hex by (simpl; lia). by rewrite chr_byte.
Qed.

(** Two quoted texts in front of anything are equal only if the texts are, and so is
    what follows: a value cannot imitate the end of its own quotation. *)
Lemma Quote_app_inj isPrint s t x y : Quote isPrint s +:+ x = Quote isPrint t +:+ y -> s = t /\ x = y.
Proof.
  unfold Quote. rewrite !string_app_cons, !string_app_assoc. intros He. injection He as He.
  change (String dquote "" +:+ x) with (String dquote x) in He. change (String dquote "" +:+ y) with (String dquote y) in He.
  remember (String.length s) as n eqn:Hn. revert s t Hn He. induction (lt_wf n) as [n _ IH]. intros s t -> He.
  destruct (decide (s = "")) as [-> | Hs], (decide (t = "")) as [-> | Ht].
  - simpl in He. by injection He as ->.
  - destruct (quote_step isPrint t Ht) as (b & r & k & _ & _ & Hq & Hu). rewrite Hq, string_app_assoc in He.
    specialize (Hu (quote_from isPrint 0 r +:+ String dquote y)). by rewrite <- He in Hu.
  - destruct (quote_step isPrint s Hs) as (b & r & k & _ & _ & Hq & Hu). rewrite Hq, string_app_assoc in He.
    specialize (Hu (quote_from isPrint 0 r +:+ String dquote x)). by rewrite He in Hu.
  - destruct (quote_step isPrint s Hs) as (b & r & k & -> & Hb & Hq & Hu).
    destruct (quote_step isPrint t Ht) as (b' & r' & k' & -> & Hb' & Hq' & Hu').
    rewrite Hq, Hq', !string_app_assoc in He.
    specialize (Hu (quote_from isPrint 0 r +:+ String dquote x)). rewrite He, Hu' in Hu. injection Hu as -> Hr.
    destruct (fun Hlt => IH (String.length r) Hlt r r' eq_refl (eq_sym Hr)) as [-> ->]; [| done].
    destruct b; [done |]. rewrite string_app_cons. cbn [String.length]. rewrite string_length_app. lia.
Qed.

Example Quote_samples :
  map (Quote (fun r => within 0x20 0x7E r || (r =? 0xE9))) ["a\b"; String (chr 9) "x"; String (chr 200) ""; AppendRune 0xE9; AppendRune 0x2028; AppendRune 0x1F600]
  = map (fun s => String dquote (s +:+ String dquote "")) ["a\\b"; "\tx"; "\xc8"; AppendRune 0xE9; "\u2028"; "\U0001f600"].
Proof. vm_compute. reflexivity. Qed.

(** ** [time.Time.UTC().Format(time.RFC3339Nano)] *)

(** The date of a day, counted from 1 January of the year 1. [of_era] finds the
    March-based year, month and day of a day within an era of 400 years: centuries, then
    periods of four years, then years, of which the last of a group is a day longer. *)
Definition of_era (doe : Z) : Z * Z * Z :=
  let c := Z.min 3 (doe / 36524) in
  let q := (doe - c * 36524) / 1461 in
  let doq := doe - c * 36524 - q * 1461 in
  let y := Z.min 3 (doq / 365) in
  let doy := doq - y * 365 in
  let mp := (5 * doy + 2) / 153 in
  (100 * c + 4 * q + y, mp, doy - (153 * mp + 2) / 5 + 1).

Definition in_era (yoe mp day : Z) : Z := yoe * 365 + yoe / 4 - yoe / 100 + ((153 * mp + 2) / 5 + day - 1).

Definition Date (days : Z) : Z * Z * Z :=
  let z := days + 306 in
  let '(yoe, mp, day) := of_era (z mod 146097) in
  let month := if mp <? 10 then mp + 3 else mp - 9 in
  (yoe + z / 146097 * 400 + (if month <=? 2 then 1 else 0), month, day).

Definition day_of_date (date : Z * Z * Z) : Z :=
  let '(year, month, day) := date in
  let y := if month <=? 2 then year - 1 else year in
  y / 400 * 146097 + in_era (y mod 400) (if month <=? 2 then month + 9 else month - 3) day - 306.

Lemma of_era_inv doe : 0 <= doe < 146097 ->
  let '(yoe, mp, day) := of_era doe in
  in_era yoe mp day = doe /\ 0 <= yoe < 400 /\ 0 <= mp < 12 /\ 1 <= day <= 31.
Proof.
  intros Hd. unfold of_era, in_era.
  set (c := Z.min 3 (doe / 36524)). assert (0 <= c <= 3 /\ 0 <= doe - c * 36524 <= 36524) as [Hc Hr]
    by (unfold c; Z.div_mod_to_equations; lia).
  set (r := doe - c * 36524) in *. set (q := r / 1461). assert (0 <= q <= 24 /\ 0 <= r - q * 1461 < 1461) as [Hq Hr2]
    by (unfold q; Z.div_mod_to_equations; lia).
  set (doq := r - q * 1461) in *. set (y := Z.min 3 (doq / 365)). assert (0 <= y <= 3 /\ 0 <= doq - y * 365 <= 365) as [Hy Hdoy]
    by (unfold y; Z.div_mod_to_equations; lia).
  set (doy := doq - y * 365) in *.
  replace ((100 * c + 4 * q + y) / 4) with (25 * c + q) by (Z.div_mod_to_equations; lia).
  replace ((100 * c + 4 * q + y) / 100) with c by (Z.div_mod_to_equations; lia).
  split; [unfold doy, doq, r; lia |]. split; [lia |]. split; [Z.div_mod_to_equations; lia |].
  set (mp := (5 * doy + 2) / 153). assert (153 * mp <= 5 * doy + 2 < 153 * mp + 153) as Hmp
    by (unfold mp; Z.div_mod_to_equations; lia).
  Z.div_mod_to_equations; lia.
Qed.

Lemma day_of_date_Date days : day_of_date (Date days) = days.
Proof.
  unfold Date. pose proof (of_era_inv ((days + 306) mod 146097) ltac:(apply Z.mod_pos_bound; lia)) as H.
  destruct (of_era _) as [[yoe mp] day]. destruct H as (H & Hy & Hm & _). unfold day_of_date.
  set (e := (days + 306) / 146097). assert (days = e * 146097 + (days + 306) mod 146097 - 306) as Hd
    by (pose proof (Z.div_mod (days + 306) 146097); lia).
  destruct (Z.ltb_spec mp 10).
  - replace (mp + 3 <=? 2) with false by lia. replace (mp + 3 - 3) with mp by lia.
    replace (yoe + e * 400 + 0) with (e * 400 + yoe) by lia.
    rewrite Z.div_add_l, (Z.div_small yoe), (Z.add_comm (e * 400)), Z.mod_add, (Z.mod_small yoe) by lia. rewrite H. lia.
  - replace (mp - 9 <=? 2) with true by lia. replace (mp - 9 + 9) with mp by lia.
    replace (yoe + e * 400 + 1 - 1) with (e * 400 + yoe) by lia.
    rewrite Z.div_add_l, (Z.div_small yoe), (Z.add_comm (e * 400)), Z.mod_add, (Z.mod_small yoe) by lia. rewrite H. lia.
Qed.

Lemma Date_range days : let '(_, month, day) := Date days in 1 <= month <= 12 /\ 1 <= day <= 31.
Proof.
  unfold Date. pose proof (of_era_inv ((days + 306) mod 146097) ltac:(apply Z.mod_pos_bound; lia)) as H.
  destruct (of_era _) as [[yoe mp] day]. destruct (mp <? 10) eqn:E; lia.
Qed.

(** The low [n] decimal digits. *)
Fixpoint digits (n : nat) (z : Z) : string :=
  match n with O => "" | S n => digits n (z / 10) +:+ String (chr (48 + z mod 10)) "" end.

Fixpoint count_digits (fuel : nat) (z : Z) : nat :=
  match fuel with O => 0%nat | S fuel => if z <? 10 then 1%nat else S (count_digits fuel (z / 10)) end.

(** [appendInt]: zero-padded to [width]; twenty digits hold every 64-bit number. *)
Definition appendInt (x : Z) (width : nat) : string :=
  (if x <? 0 then "-" else "") +:+ digits (max width (count_digits 20 (Z.abs x))) (Z.abs x).

(** Nine digits without their trailing zeros, or nothing. *)
Fixpoint fraction (n : nat) (z : Z) : string :=
  match n with
  | O => ""
  | S n' => if z mod 10 =? 0 then fraction n' (z / 10) else digits n z
  end.

Definition appendNano (nanosec : Z) : string := if nanosec =? 0 then "" else String "." (fraction 9 nanosec).

Definition RFC3339Nano (t : time) : string :=
  let sec := t / Second in
  let clock := sec mod 86400 in
  let '(year, month, day) := Date (sec / 86400) in
  appendInt year 4 +:+ "-" +:+ appendInt month 2 +:+ "-" +:+ appendInt day 2 +:+ "T" +:+
  appendInt (clock / 3600) 2 +:+ ":" +:+ appendInt (clock / 60 mod 60) 2 +:+ ":" +:+ appendInt (clock mod 60) 2 +:+
  appendNano (t mod Second) +:+ "Z".

Example RFC3339Nano_samples :
  map RFC3339Nano [0; 63917375400 * Second; 63917375400 * Second + 120300; 63917375400 * Second + 999999999; 63844847999 * Second]
  = ["0001-01-01T00:00:00Z"; "2026-06-18T10:30:00Z"; "2026-06-18T10:30:00.0001203Z"; "2026-06-18T10:30:00.999999999Z"; "2024-02-29T23:59:59Z"].
Proof. vm_compute. reflexivity. Qed.

(** *** Reading a time back *)

Lemma string_app_inj s t x y : String.length s = String.length t -> s +:+ x = t +:+ y -> s = t /\ x = y.
Proof.
  revert t. induction s as [|a s IH]; intros [|b t] Hl He; try done. rewrite !string_app_cons in He.
  injection He as -> He. injection Hl as Hl. by destruct (IH t Hl He) as [-> ->].
Qed.

Lemma digits_length n z : String.length (digits n z) = n.
Proof. revert z. induction n as [|n IH]; intros z; [done |]. cbn. rewrite string_length_app, IH. cbn. lia. Qed.

Lemma digits_inj n z z' : 0 <= z < 10 ^ Z.of_nat n -> 0 <= z' < 10 ^ Z.of_nat n -> digits n z = digits n z' -> z = z'.
Proof.
  revert z z'. induction n as [|n IH]; intros z z' Hz Hz' He; [simpl in *; lia |].
  rewrite Nat2Z.inj_succ, Z.pow_succ_r in * by lia. cbn [digits] in He.
  apply string_app_inj in He as [He Hc]; [| by rewrite !digits_length].
  apply IH in He; [| Z.div_mod_to_equations; lia..]. injection Hc as Hc. apply (f_equal byte_of) in Hc.
  pose proof (Z.mod_pos_bound z 10). pose proof (Z.mod_pos_bound z' 10).
  rewrite !byte_chr in Hc by lia. rewrite (Z.div_mod z 10), (Z.div_mod z' 10) by lia. lia.
Qed.

Lemma count_digits_le fuel z n : 0 <= z < 10 ^ Z.of_nat n -> (0 < n)%nat -> (count_digits fuel z <= n)%nat.
Proof.
  revert z n. induction fuel as [|fuel IH]; intros z n Hz Hn; cbn [count_digits]; [lia |].
  destruct (Z.ltb_spec z 10); [lia |]. destruct n as [|n]; [lia |].
  rewrite Nat2Z.inj_succ, Z.pow_succ_r in Hz by lia. apply le_n_S. apply IH; [Z.div_mod_to_equations; lia |].
  destruct n; [simpl in Hz; lia | lia].
Qed.

Lemma appendInt_fixed x n : (0 < n)%nat -> 0 <= x < 10 ^ Z.of_nat n -> appendInt x n = digits n x.
Proof.
  intros Hn Hx. unfold appendInt. replace (x <? 0) with false by lia. rewrite Z.abs_eq by lia.
  rewrite Nat.max_l; [done |]. by apply count_digits_le.
Qed.

Lemma appendInt_app_inj x y n s t : (0 < n)%nat -> 0 <= x < 10 ^ Z.of_nat n -> 0 <= y < 10 ^ Z.of_nat n ->
  appendInt x n +:+ s = appendInt y n +:+ t -> x = y /\ s = t.
Proof.
  intros Hn Hx Hy. rewrite !appendInt_fixed by done. intros He.
  apply string_app_inj in He as [He ->]; [| by rewrite !digits_length]. split; [by apply digits_inj in He | done].
Qed.

Fixpoint zeros (n : nat) : string := match n with O => "" | S n => String (chr 48) (zeros n) end.

Lemma zeros_snoc n : zeros n +:+ String (chr 48) "" = zeros (S n).
Proof. induction n as [|n IH]; [done |]. cbn [zeros]. rewrite string_app_cons, IH. done. Qed.

Lemma fraction_padded n z : fraction n z +:+ zeros (n - String.length (fraction n z)) = digits n z /\ (String.length (fraction n z) <= n)%nat.
Proof.
  revert z. induction n as [|n IH]; intros z; [done |]. cbn [fraction].
  destruct (Z.eqb_spec (z mod 10) 0) as [Hz |].
  - destruct (IH (z / 10)) as [He Hl]. split; [| lia]. rewrite Nat.sub_succ_l, <- zeros_snoc, <- string_app_assoc, He by done.
    cbn [digits]. by rewrite Hz.
  - rewrite digits_length, Nat.sub_diag. split; [apply string_app_nil | lia].
Qed.

Lemma appendNano_inj a b : 0 <= a < Second -> 0 <= b < Second -> appendNano a +:+ "Z" = appendNano b +:+ "Z" -> a = b.
Proof.
  unfold Second, appendNano. intros Ha Hb. destruct (Z.eqb_spec a 0) as [-> |], (Z.eqb_spec b 0) as [-> |]; [done | discriminate | discriminate |].
  rewrite !string_app_cons. intros He. apply string_cons_inj in He.
  assert (String.length (fraction 9 a) = String.length (fraction 9 b)) as Hl.
  { apply (f_equal String.length) in He. rewrite !string_length_app in He. lia. }
  apply string_app_inj in He as [He _]; [| done]. destruct (fraction_padded 9 a) as [Hpa _], (fraction_padded 9 b) as [Hpb _].
  rewrite He, Hpb in Hpa. symmetry. eapply digits_inj; [.. | exact Hpa]; simpl; lia.
Qed.

(** The times of the years 0 to 9999, which are all that JSON carries. *)
Definition json_time (t : time) : bool := within 0 9999 (Date (t / Second / 86400)).1.1.

Lemma RFC3339Nano_inj t u : json_time t = true -> json_time u = true -> RFC3339Nano t = RFC3339Nano u -> t = u.
Proof.
  unfold json_time, RFC3339Nano, within. pose proof (day_of_date_Date (t / Second / 86400)) as Ht.
  pose proof (day_of_date_Date (u / Second / 86400)) as Hu.
  pose proof (Date_range (t / Second / 86400)) as Hrt. pose proof (Date_range (u / Second / 86400)) as Hru.
  destruct (Date (t / Second / 86400)) as [[y m] d], (Date (u / Second / 86400)) as [[y' m'] d']. simpl fst.
  intros Hy Hy'. intros He.
  pose proof (Z.mod_pos_bound (t / Second) 86400). pose proof (Z.mod_pos_bound (u / Second) 86400).
  set (ct := (t / Second) mod 86400) in *. set (cu := (u / Second) mod 86400) in *.
  apply appendInt_app_inj in He as [-> He]; [| lia | simpl; lia..]. apply string_cons_inj in He.
  apply appendInt_app_inj in He as [-> He]; [| lia | simpl; lia..]. apply string_cons_inj in He.
  apply appendInt_app_inj in He as [-> He]; [| lia | simpl; lia..]. apply string_cons_inj in He.
  apply appendInt_app_inj in He as [Hh He]; [| lia | simpl; Z.div_mod_to_equations; lia..]. apply string_cons_inj in He.
  apply appendInt_app_inj in He as [Hm He]; [| lia | simpl; Z.div_mod_to_equations; lia..]. apply string_cons_inj in He.
  apply appendInt_app_inj in He as [Hs He]; [| lia | simpl; Z.div_mod_to_equations; lia..].
  apply appendNano_inj in He; [| apply Z.mod_pos_bound; unfold Second; lia..].
  assert (ct = cu) as Hc by (Z.div_mod_to_equations; lia). unfold ct, cu in Hc.
  assert (t / Second = u / Second) as Hsec by (rewrite (Z.div_mod (t / Second) 86400), (Z.div_mod (u / Second) 86400) by lia; lia).
  rewrite (Z.div_mod t Second), (Z.div_mod u Second) by (unfold Second; lia). lia.
Qed.

(** ** SHA-256

    [crypto/sha256.Sum256] of Go's standard library (FIPS 180-4) on byte strings. *)
Definition word (z : Z) : Z := z mod 2 ^ 32.
Definition rotr (x n : Z) : Z := Z.lor (Z.shiftr x n) (word (Z.shiftl x (32 - n))).
Definition xor3 (x y z : Z) : Z := Z.lxor x (Z.lxor y z).

Definition first_primes : list Z :=
  [2; 3; 5; 7; 11; 13; 17; 19; 23; 29; 31; 37; 41; 43; 47; 53;
   59; 61; 67; 71; 73; 79; 83; 89; 97; 101; 103; 107; 109; 113; 127; 131;
   137; 139; 149; 151; 157; 163; 167; 173; 179; 181; 191; 193; 197; 199; 211; 223;
   227; 229; 233; 239; 241; 251; 257; 263; 269; 271; 277; 281; 283; 293; 307; 311].

(** The largest number of [n] bits whose cube is at most [x]. *)
Fixpoint cube_root (n : nat) (acc x : Z) : Z :=
  match n with
  | O => acc
  | S n => let more := acc + 2 ^ Z.of_nat n in cube_root n (if more * more * more <=? x then more else acc) x
  end.

(** The first 32 bits of the fractions of cube and square roots of primes. *)
Definition round_constants : list Z := Eval vm_compute in map (fun p => cube_root 36 0 (p * 2 ^ 96) mod 2 ^ 32) first_primes.

Definition initial_state : list Z := Eval vm_compute in map (fun p => Z.sqrt (p * 2 ^ 64) mod 2 ^ 32) (take 8 first_primes).

(** *** Padding: a one bit, zeros, and the length in bits as eight bytes. *)

Fixpoint big_endian (n : nat) (z : Z) : list Z :=
  match n with O => [] | S n => big_endian n (z / 256) ++ [z mod 256] end.

Definition pad (bytes : list Z) : list Z :=
  let n := Z.of_nat (length bytes) in
  bytes ++ 0x80 :: replicate (Z.to_nat ((55 - n) mod 64)) 0 ++ big_endian 8 (8 * n).

Fixpoint words (bytes : list Z) : list Z :=
  match bytes with
  | a :: b :: c :: d :: bytes => (((a * 256 + b) * 256 + c) * 256 + d) :: words bytes
  | _ => []
  end.

(** *** The compression function *)

(** The schedule, newest word first: [n] more words after the sixteen of the block. *)
Fixpoint schedule_words (n : nat) (w : list Z) : list Z :=
  match n with
  | O => w
  | S n =>
      let w2 := nth 1 w 0 in let w7 := nth 6 w 0 in let w15 := nth 14 w 0 in let w16 := nth 15 w 0 in
      let s0 := xor3 (rotr w15 7) (rotr w15 18) (Z.shiftr w15 3) in
      let s1 := xor3 (rotr w2 17) (rotr w2 19) (Z.shiftr w2 10) in
      schedule_words n (word (w16 + s0 + w7 + s1) :: w)
  end.

Definition sha_round (state : list Z) (kw : Z * Z) : list Z :=
  match state with
  | [a; b; c; d; e; f; g; h] =>
      let t1 := h + xor3 (rotr e 6) (rotr e 11) (rotr e 25) + Z.lxor (Z.land e f) (Z.land (2 ^ 32 - 1 - e) g) + kw.1 + kw.2 in
      let t2 := xor3 (rotr a 2) (rotr a 13) (rotr a 22) + xor3 (Z.land a b) (Z.land a c) (Z.land b c) in
      [word (t1 + t2); a; b; c; word (d + t1); e; f; g]
  | _ => state
  end.

Definition compress (state block : list Z) : list Z :=
  let w := rev (schedule_words 48 (rev block)) in
  zip_with (fun x y => word (x + y)) state (foldl sha_round state (zip round_constants w)).

Fixpoint blocks (fuel : nat) (ws : list Z) (state : list Z) : list Z :=
  match fuel, ws with
  | S fuel, _ :: _ => blocks fuel (drop 16 ws) (compress state (take 16 ws))
  | _, _ => state
  end.

Definition of_bytes (bs : list Z) : string := String.string_of_list_ascii (map chr bs).

Definition Sum256 (s : string) : string :=
  let ws := words (pad (bytes_of s)) in
  of_bytes (concat (map (big_endian 4) (blocks (length ws) ws initial_state))).

(** [sha256Hex] of the auth service, and the last step of [ChainHash]. *)
Definition sha256_hex (s : string) : string := EncodeToString (Sum256 s).

Example Sum256_samples :
  map sha256_hex [""; "abc"; "abcdbcdecdefdefgefghfghighijhijkijkljklmklmnlmnomnopnopq"]
  = ["e3b0c44298fc1c149afbf4c8996fb92427ae41e4649b934ca495991b7852b855";
     "ba7816bf8f01cfea414140de5dae2223b00361a396177a9cb410ff61f20015ad";
     "248d6a61d20638b8e5c026930c3e6039a33ce45964ff2167f6ecedd419db06c1"].
Proof. vm_compute. reflexivity. Qed.

(** *** The size of a digest *)

Lemma sha_round_length state kw : length (sha_round state kw) = length state.
Proof. do 9 (destruct state as [|? state]; [done |]). done. Qed.

Lemma compress_length state block : length state = 8%nat -> length (compress state block) = 8%nat.
Proof.
  intros Hs. unfold compress. rewrite length_zip_with, Hs.
  assert (forall kws st, length st = 8%nat -> length (foldl sha_round st kws) = 8%nat) as Hf.
  { induction kws as [|kw kws IH]; intros st Hst; [done |]. simpl. apply IH. by rewrite sha_round_length. }
  by rewrite Hf.
Qed.

Lemma blocks_length fuel ws state : length state = 8%nat -> length (blocks fuel ws state) = 8%nat.
Proof.
  revert ws state. induction fuel as [|fuel IH]; intros ws state Hs; [done |]. destruct ws as [|w ws]; [done |].
  apply IH. by apply compress_length.
Qed.

Lemma sha256_hex_length s : String.length (sha256_hex s) = 64%nat.
Proof.
  assert (forall t, String.length (EncodeToString t) = (2 * String.length t)%nat) as He.
  { induction t as [|a t IH]; [done |]. cbn [EncodeToString]. rewrite string_length_app, IH, hex_digits_length. cbn [String.length]. lia. }
  unfold sha256_hex. rewrite He. unfold Sum256, of_bytes. set (ws := words _).
  pose proof (blocks_length (length ws) ws initial_state eq_refl) as Hl.
  assert (forall l, String.length (String.string_of_list_ascii l) = length l) as Ha.
  { induction l as [|a l IH]; [done |]. cbn. by rewrite IH. }
  rewrite Ha, length_map. remember (blocks _ _ _) as st. clear -Hl. do 9 (destruct st as [|? st]; [done |]). done.
Qed.
