(* ===== verification/Subscriber.v ===== *)
(** * The shared event subscriber

    [pkg/natsutil]: the options and the message handling of [subscriber.go], the
    in-memory store of [idempotency.go], and the subjects of [publisher.go]. JetStream
    is the environment: it delivers a message again until it is acknowledged or
    terminated, or has been delivered MaxDeliver times. Trace and correlation contexts
    are not kept; a timeout is an answer of the handler. *)

From S2P Require Import Prelude.
Open Scope fp_scope.

(** ** Options (subscriber.go) *)

Definition defaultAckWait : duration := 30 * Second.

Record subConfig := {
  consumerGroup : string; maxRetries : Z; dlqSubject : string; store : bool; msgTimeout : duration; ackWait : duration;
}.

Inductive SubOption :=
| WithConsumerGroup (name : string) | WithMaxRetries (n : Z) | WithDLQSubject (subject : string)
| WithIdempotencyStore | WithMessageTimeout (d : duration) | WithAckWait (d : duration).

Definition apply_option (cfg : subConfig) (opt : SubOption) : subConfig :=
  match opt with
  | WithConsumerGroup name => {| consumerGroup := name; maxRetries := maxRetries cfg; dlqSubject := dlqSubject cfg; store := store cfg; msgTimeout := msgTimeout cfg; ackWait := ackWait cfg |}
  | WithMaxRetries n => {| consumerGroup := consumerGroup cfg; maxRetries := n; dlqSubject := dlqSubject cfg; store := store cfg; msgTimeout := msgTimeout cfg; ackWait := ackWait cfg |}
  | WithDLQSubject subject => {| consumerGroup := consumerGroup cfg; maxRetries := maxRetries cfg; dlqSubject := subject; store := store cfg; msgTimeout := msgTimeout cfg; ackWait := ackWait cfg |}
  | WithIdempotencyStore => {| consumerGroup := consumerGroup cfg; maxRetries := maxRetries cfg; dlqSubject := dlqSubject cfg; store := true; msgTimeout := msgTimeout cfg; ackWait := ackWait cfg |}
  | WithMessageTimeout d => {| consumerGroup := consumerGroup cfg; maxRetries := maxRetries cfg; dlqSubject := dlqSubject cfg; store := store cfg; msgTimeout := d; ackWait := ackWait cfg |}
  | WithAckWait d => {| consumerGroup := consumerGroup cfg; maxRetries := maxRetries cfg; dlqSubject := dlqSubject cfg; store := store cfg; msgTimeout := msgTimeout cfg; ackWait := d |}
  end.

Definition NewSubscriber (opts : list SubOption) : subConfig :=
  foldl apply_option {| consumerGroup := ""; maxRetries := 0; dlqSubject := ""; store := false; msgTimeout := 0; ackWait := defaultAckWait |} opts.

Definition maxDeliverFromCfg (cfg : subConfig) : Z :=
  if 0 <? maxRetries cfg then wrap64 (maxRetries cfg + 1) else -1.

(** What [Subscribe] asks of JetStream. *)
Record ConsumerConfig := { FilterSubject : string; AckWait : duration; Durable : string; MaxDeliver : Z }.

Definition consumer_config (cfg : subConfig) (filterSubject : string) : ConsumerConfig := {|
  FilterSubject := filterSubject; AckWait := ackWait cfg; Durable := consumerGroup cfg; MaxDeliver := maxDeliverFromCfg cfg |}.

(** ** The in-memory store (idempotency.go) *)

Definition MemoryProcessedStore := gset string.
Definition NewMemoryProcessedStore (env : string) : option MemoryProcessedStore :=
  if String.eqb env "production" then None else Some ∅.
Definition mem_IsProcessed (m : MemoryProcessedStore) (eventID : string) : bool := bool_decide (eventID ∈ m).
Definition mem_MarkProcessed (m : MemoryProcessedStore) (eventID : string) : MemoryProcessedStore := {[eventID]} ∪ m.

Lemma mem_mark_self (m : MemoryProcessedStore) id : mem_IsProcessed (mem_MarkProcessed m id) id = true.
Proof. apply bool_decide_eq_true. unfold mem_MarkProcessed, MemoryProcessedStore in *. set_solver. Qed.

Lemma mem_mark_other (m : MemoryProcessedStore) id i : mem_IsProcessed m i = true -> mem_IsProcessed (mem_MarkProcessed m id) i = true.
Proof.
  intros Hi. apply bool_decide_eq_true in Hi. apply bool_decide_eq_true.
  unfold mem_MarkProcessed, MemoryProcessedStore in *. set_solver.
Qed.

(** ** The subject of an event (publisher.go) *)

(** [strings.SplitN(subject, ".", n)] for [n] parts at most. *)
Fixpoint split_n (n : nat) (s cur : string) : list string :=
  match s with
  | EmptyString => [cur]
  | String c s' =>
      match n with
      | S (S _ as n') => if ascii_dec c "." then cur :: split_n n' s' "" else split_n n s' (cur +:+ String c "")
      | _ => [cur +:+ s]
      end
  end.

Definition deriveEventType (subject : string) : string :=
  match split_n 3 subject "" with _ :: _ :: rest :: _ => rest | _ => subject end.

(** ** One delivery *)

Record EventEnvelope := { env_ID : string; env_Type : string; env_CorrelationID : string; env_Data : string }.

(** Where a delivery ended; each constructor is a log line and a settlement of the code. *)
Inductive outcome :=
| Unparsable | CheckFailed | Duplicate | MarkFailed | Done
| Retried | Discarded | DeadLettered | DeadLetterFailed.

#[export] Instance outcome_eq_dec : EqDecision outcome.
Proof. solve_decision. Defined.

(** What the subscriber calls: the codec, the store, the handler, and the broker's
    metadata, publication and acknowledgements ([true] when the call succeeds). *)
Class Consumer (W : Type) : Type := {
  unmarshal : string -> option EventEnvelope;
  IsProcessed : string -> W -> option bool * W;
  MarkProcessed : string -> W -> bool * W;
  handler : EventEnvelope -> W -> bool * W;
  Metadata : W -> bool * W;
  Publish : string -> string -> string -> W -> bool * W;
  Ack : W -> bool * W;
  Nak : W -> bool * W;
  Term : W -> bool * W;
}.

Section subscriber.
Context {W : Type} `{Consumer W}.

(** The broker's side of a message, and the copies on the dead-letter subject by their
    message id, which the broker takes once. *)
Record message := { NumDelivered : Z; settled : bool; dead_letters : list (string * string) }.

Definition settle (call : W -> bool * W) (o : outcome) (w : W) (m : message) : outcome * W * message :=
  let '(arrived, w) := call w in
  (o, w, {| NumDelivered := NumDelivered m; settled := settled m || arrived; dead_letters := dead_letters m |}).

(** A negative acknowledgement, arrived or not, leaves the message to be delivered again. *)
Definition nak (o : outcome) (w : W) (m : message) : outcome * W * message :=
  let '(_, w) := Nak w in (o, w, m).

Definition put_dead_letter (id data : string) (m : message) : message := {|
  NumDelivered := NumDelivered m; settled := settled m;
  dead_letters := (if existsb (fun d => String.eqb d.1 id) (dead_letters m) then dead_letters m else dead_letters m ++ [(id, data)]) |}.

Definition routeToDLQ (cfg : subConfig) (data : string) (envelope : EventEnvelope) (w : W) (m : message) : outcome * W * message :=
  if String.eqb (dlqSubject cfg) "" then settle Term Discarded w m
  else
    let '(published, w) := Publish (dlqSubject cfg) (env_ID envelope +:+ "-dlq") data w in
    if published then settle Term DeadLettered w (put_dead_letter (env_ID envelope +:+ "-dlq") data m)
    else settle Term DeadLetterFailed w m.

Definition handleFailure (cfg : subConfig) (data : string) (envelope : EventEnvelope) (w : W) (m : message) : outcome * W * message :=
  let '(known, w) := Metadata w in
  if known && (0 <? maxRetries cfg) && (wrap64 (maxRetries cfg + 1) <=? NumDelivered m)
  then routeToDLQ cfg data envelope w m
  else nak Retried w m.

Definition handleMessage (cfg : subConfig) (data : string) (w : W) (m : message) : outcome * W * message :=
  match unmarshal data with
  | None => settle Term Unparsable w m
  | Some envelope =>
      let '(processed, w) := if store cfg then IsProcessed (env_ID envelope) w else (Some false, w) in
      match processed with
      | None => nak CheckFailed w m
      | Some true => settle Ack Duplicate w m
      | Some false =>
          let '(ok, w) := handler envelope w in
          if negb ok then handleFailure cfg data envelope w m
          else
            let '(marked, w) := if store cfg then MarkProcessed (env_ID envelope) w else (true, w) in
            if marked then settle Ack Done w m else nak MarkFailed w m
      end
  end.

(** ** JetStream: deliveries until the message is settled or exhausted *)

Definition deliverable (maxDeliver : Z) (m : message) : bool :=
  negb (settled m) && ((maxDeliver =? -1) || (NumDelivered m <? maxDeliver)).

Definition delivered (m : message) : message :=
  {| NumDelivered := NumDelivered m + 1; settled := settled m; dead_letters := dead_letters m |}.

(** The first [fuel] deliveries and their outcomes. *)
Fixpoint consume (fuel : nat) (cfg : subConfig) (data : string) (w : W) (m : message) : list outcome * W * message :=
  match fuel with
  | O => ([], w, m)
  | S fuel =>
      if deliverable (maxDeliverFromCfg cfg) m then
        let '(o, w, m) := handleMessage cfg data w (delivered m) in
        let '(os, w, m) := consume fuel cfg data w m in
        (o :: os, w, m)
      else ([], w, m)
  end.

Definition fresh : message := {| NumDelivered := 0; settled := false; dead_letters := [] |}.

(** ** Deliveries one by one *)

(** The store, the metadata and the publication never fail; acknowledgements may. *)
Record healthy : Prop := {
  healthy_check id w : (IsProcessed id w).1 <> None;
  healthy_mark id w : (MarkProcessed id w).1 = true;
  healthy_meta w : (Metadata w).1 = true;
  healthy_publish subject id data w : (Publish subject id data w).1 = true;
}.

Lemma settle_inv call o w m o' w' m' :
  settle call o w m = (o', w', m') ->
  o' = o /\ NumDelivered m' = NumDelivered m /\ dead_letters m' = dead_letters m /\ w' = (call w).2.
Proof. unfold settle. destruct (call w) as [arrived w1]. by intros [= <- <- <-]. Qed.

Lemma nak_inv o w m o' w' m' : nak o w m = (o', w', m') -> o' = o /\ m' = m /\ w' = (Nak w).2.
Proof. unfold nak. destruct (Nak w) as [arrived w1]. by intros [= <- <- <-]. Qed.

(** What a delivery leaves of the message. *)
Lemma handleMessage_counts cfg data w m o w' m' :
  handleMessage cfg data w m = (o, w', m') -> NumDelivered m' = NumDelivered m.
Proof.
  unfold handleMessage, handleFailure, routeToDLQ. intros He. repeat split_match;
    first [apply settle_inv in He as (_ & -> & _) | apply nak_inv in He as (_ & -> & _)]; done.
Qed.

Lemma maxDeliver_capped cfg : 0 < maxRetries cfg < int64_max -> maxDeliverFromCfg cfg = maxRetries cfg + 1.
Proof.
  intros Hr. unfold maxDeliverFromCfg. rewrite (proj2 (Z.ltb_lt 0 (maxRetries cfg))) by lia.
  apply wrap64_id. unfold in_int64, int64_min, int64_max in *. lia.
Qed.

Lemma handleMessage_healthy cfg data envelope w m o w' m' :
  healthy -> unmarshal data = Some envelope -> dlqSubject cfg <> "" -> 0 < maxRetries cfg < int64_max ->
  handleMessage cfg data w m = (o, w', m') ->
  o = Done \/ o = Duplicate \/
  (o = Retried /\ NumDelivered m <= maxRetries cfg /\ m' = m) \/
  (o = DeadLettered /\ maxRetries cfg < NumDelivered m /\
   dead_letters m' = dead_letters (put_dead_letter (env_ID envelope +:+ "-dlq") data m)).
Proof.
  intros Hh Hu Hd Hr. unfold handleMessage, handleFailure, routeToDLQ. rewrite Hu.
  rewrite (wrap64_id (maxRetries cfg + 1)) by (unfold in_int64, int64_min, int64_max in *; lia).
  pose proof (healthy_meta Hh) as Hm. pose proof (healthy_publish Hh) as Hp.
  destruct (if store cfg then IsProcessed (env_ID envelope) w else (Some false, w)) as [processed w1] eqn:E1.
  destruct processed as [[]|]; [intros He; apply settle_inv in He as (-> & _); by auto | |].
  - destruct (handler envelope w1) as [[] w2]; cbn [negb].
    + destruct (if store cfg then MarkProcessed (env_ID envelope) w2 else (true, w2)) as [marked w3] eqn:E3.
      destruct marked; [intros He; apply settle_inv in He as (-> & _); by auto |].
      destruct (store cfg); [| done]. pose proof (healthy_mark Hh (env_ID envelope) w2). by rewrite E3 in *.
    + specialize (Hm w2). destruct (Metadata w2) as [[] w3]; [| done]. simpl in *.
      rewrite (proj2 (Z.ltb_lt 0 (maxRetries cfg))) by lia. cbn [andb].
      destruct (Z.leb_spec (maxRetries cfg + 1) (NumDelivered m)).
      * rewrite (proj2 (String.eqb_neq _ _) Hd).
        specialize (Hp (dlqSubject cfg) (env_ID envelope +:+ "-dlq") data w3).
        destruct (Publish _ _ _ w3) as [[] w4]; [| done].
        intros He. apply settle_inv in He as (-> & _ & -> & _). do 3 right. split; [done |]. split; [lia | done].
      * intros He. apply nak_inv in He as (-> & -> & _). right; right; left. split; [done |]. split; [lia | done].
  - destruct (store cfg); [| done]. pose proof (healthy_check Hh (env_ID envelope) w). by rewrite E1 in *.
Qed.

Lemma consume_counts fuel cfg data w m :
  NumDelivered (consume fuel cfg data w m).2 = NumDelivered m + Z.of_nat (length (consume fuel cfg data w m).1.1).
Proof.
  revert w m. induction fuel as [|fuel IH]; intros w m; simpl; [lia |].
  destruct (deliverable _ m); [| simpl; lia].
  destruct (handleMessage _ _ _ _) as [[o w1] m1] eqn:E. apply handleMessage_counts in E.
  specialize (IH w1 m1). destruct (consume fuel cfg data w1 m1) as [[os w2] m2]. simpl in *. lia.
Qed.

Lemma consume_length fuel cfg data w m : (length (consume fuel cfg data w m).1.1 <= fuel)%nat.
Proof.
  revert w m. induction fuel as [|fuel IH]; intros w m; simpl; [lia |].
  destruct (deliverable _ m); [| simpl; lia]. destruct (handleMessage _ _ _ _) as [[o w1] m1].
  specialize (IH w1 m1). destruct (consume fuel cfg data w1 m1) as [[os w2] m2]. simpl in *. lia.
Qed.

(** With a bound on the retries, the deliveries end. *)
Lemma consume_ends fuel cfg data w m :
  0 < maxRetries cfg < int64_max -> maxRetries cfg + 1 - NumDelivered m <= Z.of_nat fuel ->
  deliverable (maxDeliverFromCfg cfg) (consume fuel cfg data w m).2 = false.
Proof.
  intros Hr. pose proof (maxDeliver_capped _ Hr) as Hmax.
  rewrite Hmax. revert w m. induction fuel as [|fuel IH]; intros w m Hf; simpl.
  - unfold deliverable. destruct (settled m), (Z.eqb_spec (maxRetries cfg + 1) (-1)); try done; [lia |].
    simpl. apply Z.ltb_ge. lia.
  - rewrite Hmax. destruct (deliverable _ m) eqn:Ed; [| done].
    destruct (handleMessage _ _ _ _) as [[o w1] m1] eqn:E. apply handleMessage_counts in E. simpl in E.
    specialize (IH w1 m1). destruct (consume fuel cfg data w1 m1) as [[os w2] m2]. apply IH. lia.
Qed.

Lemma consume_healthy fuel cfg data envelope w m :
  healthy -> unmarshal data = Some envelope -> dlqSubject cfg <> "" -> 0 < maxRetries cfg < int64_max ->
  settled m = false -> dead_letters m = [] -> Z.of_nat fuel = maxRetries cfg + 1 - NumDelivered m ->
  let '(os, _, m') := consume fuel cfg data w m in
  Done ∈ os \/ Duplicate ∈ os \/ fuel = O \/
  (os = replicate (pred fuel) Retried ++ [DeadLettered] /\ dead_letters m' = [(env_ID envelope +:+ "-dlq", data)]).
Proof.
  intros Hh Hu Hd Hr. revert w m. induction fuel as [|fuel IH]; intros w m Hs Hl Hf; simpl; [auto |].
  pose proof (maxDeliver_capped _ Hr) as Hmax.
  assert (deliverable (maxDeliverFromCfg cfg) m = true) as ->.
  { unfold deliverable. rewrite Hs, Hmax, (proj2 (Z.ltb_lt (NumDelivered m) (maxRetries cfg + 1))) by lia.
    by rewrite orb_true_r. }
  destruct (handleMessage _ _ _ _) as [[o w1] m1] eqn:E.
  pose proof (handleMessage_healthy _ _ _ _ _ _ _ _ Hh Hu Hd Hr E) as Ho. simpl in Ho.
  destruct (consume fuel cfg data w1 m1) as [[os w2] m2] eqn:Ec.
  destruct Ho as [-> | [-> | [(-> & Hn & ->) | (-> & Hn & Hm1)]]]; [left; left | right; left; left | |].
  - specialize (IH w1 (delivered m) Hs Hl ltac:(simpl; lia)). rewrite Ec in IH.
    destruct IH as [Hin | [Hin | [-> | [-> Hm2]]]]; [left; by right | right; left; by right | lia |].
    destruct fuel as [|fuel]; [lia |]. do 3 right. split; [done | done].
  - assert (fuel = O) as -> by lia. simpl in Ec. injection Ec as <- <- <-. do 3 right.
    split; [done |]. rewrite Hm1. simpl. by rewrite Hl.
Qed.

(** *** What a delivery that was handled leaves *)

(** A fact of the world that no call ends and that a handler which succeeds on the event establishes. *)
Record settles (envelope : EventEnvelope) (P : W -> Prop) : Prop := {
  handler_settles w : (handler envelope w).1 = true -> P (handler envelope w).2;
  settled_handler w : P w -> P (handler envelope w).2;
  settled_check id w : P w -> P (IsProcessed id w).2;
  settled_mark id w : P w -> P (MarkProcessed id w).2;
  settled_meta w : P w -> P (Metadata w).2;
  settled_publish s id d w : P w -> P (Publish s id d w).2;
  settled_ack w : P w -> P (Ack w).2;
  settled_nak w : P w -> P (Nak w).2;
  settled_term w : P w -> P (Term w).2;
}.

Lemma settle_settles (P : W -> Prop) call o w m o' w' m' :
  (forall w, P w -> P (call w).2) -> P w -> settle call o w m = (o', w', m') -> P w'.
Proof. intros Hk Hw He. apply settle_inv in He as (_ & _ & _ & ->). by apply Hk. Qed.

Lemma handleMessage_settles P cfg data envelope w m o w' m' :
  settles envelope P -> unmarshal data = Some envelope -> store cfg = false -> handleMessage cfg data w m = (o, w', m') ->
  o <> Duplicate /\ (P w \/ o = Done -> P w').
Proof.
  intros Hp Hu Hs. unfold handleMessage. rewrite Hs, Hu.
  pose proof (handler_settles _ _ Hp w) as Hh. pose proof (settled_handler _ _ Hp w) as Hk.
  destruct (handler envelope w) as [[] w1]; simpl in *.
  - intros He. pose proof He as He'. apply settle_inv in He as (-> & _). split; [done |]. intros _.
    eapply settle_settles; [apply (settled_ack _ _ Hp) | by apply Hh | done].
  - unfold handleFailure, routeToDLQ. pose proof (settled_meta _ _ Hp w1) as Hm. destruct (Metadata w1) as [known w2].
    destruct (_ && _)%bool; [destruct (String.eqb _ _) |].
    + intros He. pose proof He as He'. apply settle_inv in He as (-> & _). split; [done |]. intros [Hw | ?]; [| done].
      eapply settle_settles; [apply (settled_term _ _ Hp) | | exact He']. auto.
    + pose proof (settled_publish _ _ Hp (dlqSubject cfg) (env_ID envelope +:+ "-dlq") data w2) as Hq.
      destruct (Publish _ _ _ w2) as [[] w3]; intros He; pose proof He as He'; apply settle_inv in He as (-> & _);
        (split; [done |]); (intros [Hw | ?]; [| done]); (eapply settle_settles; [apply (settled_term _ _ Hp) | | exact He']); simpl in *; auto.
    + intros He. apply nak_inv in He as (-> & _ & ->). split; [done |]. intros [Hw | ?]; [| done]. apply (settled_nak _ _ Hp). auto.
Qed.

Lemma consume_settles P fuel cfg data envelope w m :
  settles envelope P -> unmarshal data = Some envelope -> store cfg = false ->
  let '(os, w', _) := consume fuel cfg data w m in (P w \/ Done ∈ os -> P w') /\ Duplicate ∉ os.
Proof.
  intros Hp Hu Hs. revert w m. induction fuel as [|fuel IH]; intros w m; simpl.
  - split; [intros [? | ?%not_elem_of_nil]; done | apply not_elem_of_nil].
  - destruct (deliverable _ m); [| simpl; split; [intros [? | ?%not_elem_of_nil]; done | apply not_elem_of_nil]].
    destruct (handleMessage _ _ _ _) as [[o w1] m1] eqn:E.
    destruct (handleMessage_settles _ _ _ _ _ _ _ _ _ Hp Hu Hs E) as [Ho Hd].
    specialize (IH w1 m1). destruct (consume fuel cfg data w1 m1) as [[os w2] m2]. destruct IH as [IH1 IH2].
    rewrite elem_of_cons, not_elem_of_cons. split; [| by split].
    intros [Hw | [<- | Hin]]; apply IH1; auto.
Qed.

(** The store knows an event only through [MarkProcessed]: when it answers that an event
    was processed it knows it, and no other call teaches it one. *)
Record honest_store (id : string) (known : W -> Prop) : Prop := {
  told_known w : (IsProcessed id w).1 = Some true -> known w;
  check_teaches w : known (IsProcessed id w).2 -> known w;
  handler_teaches e w : known (handler e w).2 -> known w;
  meta_teaches w : known (Metadata w).2 -> known w;
  publish_teaches s i d w : known (Publish s i d w).2 -> known w;
  ack_teaches w : known (Ack w).2 -> known w;
  nak_teaches w : known (Nak w).2 -> known w;
  term_teaches w : known (Term w).2 -> known w;
}.

Section handled.
Context (known P : W -> Prop) (cfg : subConfig) (envelope : EventEnvelope).
Context (Hp : settles envelope P) (Hst : store cfg = true -> honest_store (env_ID envelope) known).

(** An event that the store knows was handled. *)
Definition vouched (w : W) : Prop := store cfg = true -> known w -> P w.

(** From a world of which the store tells the truth to another, the event not forgotten. *)
Definition true_still (w w' : W) : Prop := (vouched w -> vouched w') /\ (P w -> P w').

Lemma true_still_trans w1 w2 w3 : true_still w1 w2 -> true_still w2 w3 -> true_still w1 w3.
Proof. intros [H1 H1'] [H2 H2']. split; auto. Qed.

Lemma untaught (w w' : W) : (store cfg = true -> known w' -> known w) -> (P w -> P w') -> true_still w w'.
Proof. intros Hk Hw. split; [| done]. intros Hv Hs Hkn. auto. Qed.

Lemma check_still w : store cfg = true -> true_still w (IsProcessed (env_ID envelope) w).2.
Proof. intros _. apply untaught; [intros Hs; apply (check_teaches _ _ (Hst Hs)) | apply (settled_check _ _ Hp)]. Qed.

Lemma handler_still w : true_still w (handler envelope w).2.
Proof. apply untaught; [intros Hs; apply (handler_teaches _ _ (Hst Hs)) | apply (settled_handler _ _ Hp)]. Qed.

Lemma meta_still w : true_still w (Metadata w).2.
Proof. apply untaught; [intros Hs; apply (meta_teaches _ _ (Hst Hs)) | apply (settled_meta _ _ Hp)]. Qed.

Lemma publish_still s i d w : true_still w (Publish s i d w).2.
Proof. apply untaught; [intros Hs; apply (publish_teaches _ _ (Hst Hs)) | apply (settled_publish _ _ Hp)]. Qed.

Lemma ack_still w : true_still w (Ack w).2.
Proof. apply untaught; [intros Hs; apply (ack_teaches _ _ (Hst Hs)) | apply (settled_ack _ _ Hp)]. Qed.

Lemma nak_still w : true_still w (Nak w).2.
Proof. apply untaught; [intros Hs; apply (nak_teaches _ _ (Hst Hs)) | apply (settled_nak _ _ Hp)]. Qed.

Lemma term_still w : true_still w (Term w).2.
Proof. apply untaught; [intros Hs; apply (term_teaches _ _ (Hst Hs)) | apply (settled_term _ _ Hp)]. Qed.

Lemma handleFailure_still data w m o w' m' :
  handleFailure cfg data envelope w m = (o, w', m') -> true_still w w' /\ o <> Done /\ o <> Duplicate.
Proof.
  unfold handleFailure, routeToDLQ. pose proof (meta_still w) as Hm. destruct (Metadata w) as [b w1]. simpl in Hm.
  destruct (_ && _)%bool; [destruct (String.eqb _ _) |].
  - intros He. apply settle_inv in He as (-> & _ & _ & ->). split; [| done]. eapply true_still_trans; [done | apply term_still].
  - pose proof (publish_still (dlqSubject cfg) (env_ID envelope +:+ "-dlq") data w1) as Hq.
    destruct (Publish _ _ _ w1) as [[] w2]; simpl in Hq; intros He; apply settle_inv in He as (-> & _ & _ & ->);
      (split; [| done]); (eapply true_still_trans; [done |]); (eapply true_still_trans; [done | apply term_still]).
  - intros He. apply nak_inv in He as (-> & _ & ->). split; [| done]. eapply true_still_trans; [done | apply nak_still].
Qed.

Lemma handleMessage_vouched data w m o w' m' :
  unmarshal data = Some envelope -> vouched w -> handleMessage cfg data w m = (o, w', m') ->
  vouched w' /\ (P w \/ o = Done \/ o = Duplicate -> P w').
Proof.
  intros Hu Hv. unfold handleMessage. rewrite Hu.
  destruct (if store cfg then IsProcessed (env_ID envelope) w else (Some false, w)) as [processed w1] eqn:E1.
  assert (true_still w w1 /\ (processed = Some true -> P w1)) as [[Hv1 Hw1] Htold].
  { pose proof (check_still w) as Hc. pose proof (fun Hs => told_known _ _ (Hst Hs) w) as Ht. pose proof Hv as Hv'.
    unfold vouched in Hv'. destruct (store cfg); [| by injection E1 as <- <-]. rewrite E1 in Hc, Ht. simpl in Hc, Ht.
    specialize (Hc eq_refl). split; [done |]. intros ->. apply Hc. auto. }
  specialize (Hv1 Hv). destruct processed as [[]|].
  - intros He. apply settle_inv in He as (-> & _ & _ & ->). destruct (ack_still w1) as [? Ha]. split; auto.
  - pose proof (handler_still w1) as [Hv2 Hw2]. pose proof (handler_settles _ _ Hp w1) as Hh.
    destruct (handler envelope w1) as [[] w2]; simpl in *.
    + specialize (Hh eq_refl).
      assert (forall b w3, (if store cfg then MarkProcessed (env_ID envelope) w2 else (true, w2)) = (b, w3) -> P w3) as Hmark.
      { intros b w3 E3. pose proof (settled_mark _ _ Hp (env_ID envelope) w2 Hh) as Hk.
        destruct (store cfg); [rewrite E3 in Hk | injection E3 as <- <-]; done. }
      destruct (if store cfg then MarkProcessed (env_ID envelope) w2 else (true, w2)) as [[] w3] eqn:E3;
        specialize (Hmark _ _ eq_refl); intros He.
      * apply settle_inv in He as (_ & _ & _ & ->). assert (P (Ack w3).2) by (by apply (settled_ack _ _ Hp)).
        split; [intros _ _ |]; auto.
      * apply nak_inv in He as (_ & _ & ->). assert (P (Nak w3).2) by (by apply (settled_nak _ _ Hp)).
        split; [intros _ _ |]; auto.
    + intros He. apply handleFailure_still in He as ([Hv3 Hw3] & Hd & Hdup). split; [auto |].
      intros [? | [-> | ->]]; [auto | done | done].
  - intros He. apply nak_inv in He as (-> & _ & ->). destruct (nak_still w1) as [? Hn]. split; [auto |].
    intros [? | [? | ?]]; [auto | done | done].
Qed.

Lemma consume_vouched fuel data w m :
  unmarshal data = Some envelope -> vouched w ->
  let '(os, w', _) := consume fuel cfg data w m in P w \/ Done ∈ os \/ Duplicate ∈ os -> P w'.
Proof.
  intros Hu. revert w m. induction fuel as [|fuel IH]; intros w m Hv; simpl.
  - by intros [? | [?%not_elem_of_nil | ?%not_elem_of_nil]].
  - destruct (deliverable _ m); [| simpl; by intros [? | [?%not_elem_of_nil | ?%not_elem_of_nil]]].
    destruct (handleMessage _ _ _ _) as [[o w1] m1] eqn:E.
    destruct (handleMessage_vouched _ _ _ _ _ _ Hu Hv E) as [Hv1 Ho].
    specialize (IH w1 m1 Hv1). destruct (consume fuel cfg data w1 m1) as [[os w2] m2].
    rewrite !list.elem_of_cons. intros [Hw | [[<- | Hin] | [<- | Hin]]]; apply IH; auto.
Qed.
End handled.

(** *** A store that keeps its records *)

(** The contract of [ProcessedStore]: an answer tells the record, a successful mark
    records, and no call forgets. *)
Record lawful_store (recorded : W -> string -> bool) : Prop := {
  check_tells id w b : (IsProcessed id w).1 = Some b -> b = recorded w id;
  check_keeps id w : recorded (IsProcessed id w).2 = recorded w;
  mark_records id w : (MarkProcessed id w).1 = true -> recorded (MarkProcessed id w).2 id = true;
  mark_keeps id w i : recorded w i = true -> recorded (MarkProcessed id w).2 i = true;
  handler_keeps e w i : recorded w i = true -> recorded (handler e w).2 i = true;
  metadata_keeps w : recorded (Metadata w).2 = recorded w;
  publish_keeps s id d w : recorded (Publish s id d w).2 = recorded w;
  ack_keeps w : recorded (Ack w).2 = recorded w;
  nak_keeps w : recorded (Nak w).2 = recorded w;
  term_keeps w : recorded (Term w).2 = recorded w;
}.

(** A delivery that does not run the handler. *)
Definition repeated (o : outcome) : Prop := o = Duplicate \/ o = CheckFailed.

Lemma handleMessage_recorded recorded cfg data envelope w m o w' m' :
  lawful_store recorded -> store cfg = true -> unmarshal data = Some envelope ->
  handleMessage cfg data w m = (o, w', m') ->
  (recorded w (env_ID envelope) = true -> repeated o /\ recorded w' (env_ID envelope) = true) /\
  (o = Done -> recorded w' (env_ID envelope) = true).
Proof.
  intros Hl Hs Hu. unfold handleMessage. rewrite Hu, Hs.
  pose proof (check_tells _ Hl (env_ID envelope) w) as Ht. pose proof (check_keeps _ Hl (env_ID envelope) w) as Hk.
  destruct (IsProcessed _ w) as [[[]|] w1]; simpl in Ht, Hk.
  - intros He. apply settle_inv in He as (-> & _ & _ & ->). rewrite (ack_keeps _ Hl), Hk.
    split; [| done]. intros Hr. split; [by left | done].
  - specialize (Ht _ eq_refl). destruct (handler envelope w1) as [[] w2]; simpl.
    + pose proof (mark_records _ Hl (env_ID envelope) w2) as Hm.
      destruct (MarkProcessed _ w2) as [[] w3]; intros He.
      * apply settle_inv in He as (-> & _ & _ & ->). rewrite (ack_keeps _ Hl).
        split; [congruence | intros _; by apply Hm].
      * apply nak_inv in He as (-> & _). split; [congruence | done].
    + intros He. split; [congruence |]. intros ->. revert He. unfold handleFailure, routeToDLQ. repeat split_match;
        intros He; first [apply settle_inv in He as (? & _) | apply nak_inv in He as (? & _)]; done.
  - intros He. apply nak_inv in He as (-> & _ & ->). rewrite (nak_keeps _ Hl), Hk.
    split; [| done]. intros Hr. split; [by right | done].
Qed.

Lemma consume_recorded recorded fuel cfg data envelope w m :
  lawful_store recorded -> store cfg = true -> unmarshal data = Some envelope ->
  let os := (consume fuel cfg data w m).1.1 in
  (recorded w (env_ID envelope) = true -> Forall repeated os) /\
  (forall before after, os = before ++ Done :: after -> Forall repeated after).
Proof.
  intros Hl Hs Hu. revert w m. induction fuel as [|fuel IH]; intros w m; simpl.
  - split; [constructor | by intros [|]].
  - destruct (deliverable _ m); [| simpl; split; [constructor | by intros [|]]].
    destruct (handleMessage _ _ _ _) as [[o w1] m1] eqn:E.
    pose proof (handleMessage_recorded _ _ _ _ _ _ _ _ _ Hl Hs Hu E) as [Hr Hd].
    specialize (IH w1 m1). destruct (consume fuel cfg data w1 m1) as [[os w2] m2]. simpl in *.
    destruct IH as [IH1 IH2]. split.
    + intros H1. destruct (Hr H1). constructor; auto.
    + intros [|x before] after [= -> Ho]; [rewrite <- Ho; auto | by eapply IH2].
Qed.

(** *** An outage of the store *)

Lemma consume_outage (down : W -> Prop) fuel cfg data envelope w m :
  (forall w, down w -> (IsProcessed (env_ID envelope) w).1 = None /\ down (IsProcessed (env_ID envelope) w).2) ->
  (forall w, down w -> down (Nak w).2) ->
  store cfg = true -> unmarshal data = Some envelope -> 0 < maxRetries cfg < int64_max ->
  down w -> settled m = false -> Z.of_nat fuel <= maxRetries cfg + 1 - NumDelivered m ->
  exists w', consume fuel cfg data w m =
    (replicate fuel CheckFailed, w',
     {| NumDelivered := NumDelivered m + Z.of_nat fuel; settled := false; dead_letters := dead_letters m |}).
Proof.
  intros Hi Hn Hs Hu Hr. revert w m. induction fuel as [|fuel IH]; intros w m Hw Hm Hf; simpl.
  - exists w. destruct m as [n b d]. simpl in *. subst. by rewrite Z.add_0_r.
  - assert (deliverable (maxDeliverFromCfg cfg) m = true) as ->.
    { unfold deliverable. rewrite Hm, (maxDeliver_capped _ Hr), (proj2 (Z.ltb_lt (NumDelivered m) (maxRetries cfg + 1))) by lia.
      by rewrite orb_true_r. }
    unfold handleMessage, nak. rewrite Hu, Hs. destruct (Hi w Hw) as [H1 H2].
    destruct (IsProcessed _ w) as [[|] w1]; [done |]. simpl in H2. specialize (Hn w1 H2). destruct (Nak w1) as [b w2].
    destruct (IH w2 (delivered m) Hn Hm) as [w' ->]; [simpl; lia |].
    exists w'. cbn [delivered NumDelivered dead_letters]. by replace (NumDelivered m + 1 + Z.of_nat fuel) with (NumDelivered m + Z.of_nat (S fuel)) by lia.
Qed.
End subscriber.
Arguments healthy : clear implicits.
Arguments healthy W {_}.

(** ** The properties *)

(** C21. Bounded retries and no lost event: while the store, the broker's metadata and the
    dead-letter subject answer, and however the handler and the acknowledgements fail, a
    message with [WithMaxRetries n] and a dead-letter subject is delivered at most n + 1
    times. Then its handler succeeded on it, for any fact [P] that a successful handler
    establishes and no call ends and a store whose records all vouch for [P] before; or
    its handler failed every time and the dead-letter subject has one copy of it. A
    delivery that was skipped as a duplicate is thus of an event that was handled. *)
Theorem no_event_lost {W} `{Consumer W} (known P : W -> Prop) (cfg : subConfig) data envelope (w : W) :
  healthy W -> unmarshal data = Some envelope -> dlqSubject cfg <> "" -> 0 < maxRetries cfg < int64_max ->
  settles envelope P -> (store cfg = true -> honest_store (env_ID envelope) known) ->
  (store cfg = true -> known w -> P w) ->
  let '(os, w', m) := consume (Z.to_nat (maxRetries cfg + 1)) cfg data w fresh in
  deliverable (maxDeliverFromCfg cfg) m = false /\ NumDelivered m <= maxRetries cfg + 1 /\
  (((Done ∈ os \/ Duplicate ∈ os) /\ P w') \/
   (os = replicate (Z.to_nat (maxRetries cfg)) Retried ++ [DeadLettered] /\
    dead_letters m = [(env_ID envelope +:+ "-dlq", data)])).
Proof.
  intros Hh Hu Hd Hr Hp Hst Hv.
  pose proof (consume_ends (Z.to_nat (maxRetries cfg + 1)) cfg data w fresh Hr ltac:(simpl; lia)) as He.
  pose proof (consume_counts (Z.to_nat (maxRetries cfg + 1)) cfg data w fresh) as Hc.
  pose proof (consume_length (Z.to_nat (maxRetries cfg + 1)) cfg data w fresh) as Hn.
  pose proof (consume_healthy (Z.to_nat (maxRetries cfg + 1)) cfg data envelope w fresh Hh Hu Hd Hr eq_refl eq_refl
    ltac:(simpl; lia)) as Hf.
  pose proof (consume_vouched known P cfg envelope Hp Hst (Z.to_nat (maxRetries cfg + 1)) data w fresh Hu Hv) as Hw.
  destruct (consume _ _ _ _ _) as [[os w'] m]. simpl in *.
  replace (pred (Z.to_nat (maxRetries cfg + 1))) with (Z.to_nat (maxRetries cfg)) in Hf by lia.
  split; [done |]. split; [lia |]. destruct Hf as [? | [? | [? | ?]]]; [left; auto | left; auto | lia | by right].
Qed.

(** Consumer-side deduplication: with a [ProcessedStore] that keeps its contract,
    whatever fails between, the deliveries after the one that handled and recorded an
    event do not run its handler, and neither does any delivery of an event recorded before. *)
Theorem handled_event_not_rerun {W} `{Consumer W} (recorded : W -> string -> bool) fuel (cfg : subConfig) data envelope (w : W) (m : message) :
  lawful_store recorded -> store cfg = true -> unmarshal data = Some envelope ->
  let os := (consume fuel cfg data w m).1.1 in
  (recorded w (env_ID envelope) = true -> Forall repeated os) /\
  (forall before after, os = before ++ Done :: after -> Forall repeated after).
Proof. apply consume_recorded. Qed.

(** The dead-letter route does not cover the store: if the store does not answer
    during all deliveries of an event, every one of them ends in a negative
    acknowledgement, the last too, after which the broker gives the message up. The event
    is never handled and no copy is on the dead-letter subject. *)
Theorem store_outage_loses_event {W} `{Consumer W} (down : W -> Prop) (cfg : subConfig) data envelope (w : W) :
  (forall w, down w -> (IsProcessed (env_ID envelope) w).1 = None /\ down (IsProcessed (env_ID envelope) w).2) ->
  (forall w, down w -> down (Nak w).2) ->
  store cfg = true -> unmarshal data = Some envelope -> 0 < maxRetries cfg < int64_max -> down w ->
  let '(os, _, m) := consume (Z.to_nat (maxRetries cfg + 1)) cfg data w fresh in
  os = replicate (Z.to_nat (maxRetries cfg + 1)) CheckFailed /\
  deliverable (maxDeliverFromCfg cfg) m = false /\ dead_letters m = [].
Proof.
  intros Hi Hn Hs Hu Hr Hw.
  destruct (consume_outage down (Z.to_nat (maxRetries cfg + 1)) cfg data envelope w fresh Hi Hn Hs Hu Hr Hw eq_refl) as [w' ->];
    [simpl; lia |].
  split; [done |]. split; [| done]. unfold deliverable. rewrite (maxDeliver_capped _ Hr). simpl.
  destruct (Z.eqb_spec (maxRetries cfg + 1) (-1)); [lia |]. simpl. apply Z.ltb_ge. lia.
Qed.

(** ** A concrete consumer *)

Module Demo.
(** The memory store, a handler that answers what it is told, and acknowledgements of which some are lost. *)
Record world := { seen : MemoryProcessedStore; works : list bool; acks : list bool; handled : list string }.

Definition demo_consumer (outage : bool) : Consumer world := {|
  unmarshal data := if String.eqb data "" then None else
    Some {| env_ID := data; env_Type := "model.promoted"; env_CorrelationID := ""; env_Data := data |};
  IsProcessed id w := (if outage then None else Some (mem_IsProcessed (seen w) id), w);
  MarkProcessed id w := (true, {| seen := mem_MarkProcessed (seen w) id; works := works w; acks := acks w; handled := handled w |});
  handler e w := (default false (head (works w)),
    {| seen := seen w; works := tail (works w); acks := acks w;
       handled := if default false (head (works w)) then handled w ++ [env_ID e] else handled w |});
  Metadata w := (true, w);
  Publish _ _ _ w := (true, w);
  Ack w := (default true (head (acks w)), {| seen := seen w; works := works w; acks := tail (acks w); handled := handled w |});
  Nak w := (true, w);
  Term w := (true, w);
|}.

Definition demo_cfg : subConfig := NewSubscriber [WithConsumerGroup "billing"; WithMaxRetries 2; WithDLQSubject "fp.dlq.models"; WithIdempotencyStore].
Definition world_of works acks : world := {| seen := ∅; works := works; acks := acks; handled := [] |}.

Definition recorded (w : world) (id : string) : bool := mem_IsProcessed (seen w) id.

Lemma demo_lawful outage : @lawful_store _ (demo_consumer outage) recorded.
Proof.
  constructor; try done.
  - intros id w b. simpl. destruct outage; [done | by intros [= <-]].
  - intros id w _. apply mem_mark_self.
  - intros id w i. apply mem_mark_other.
Qed.

Definition demo_envelope : EventEnvelope := {| env_ID := "e1"; env_Type := "model.promoted"; env_CorrelationID := ""; env_Data := "e1" |}.

Lemma demo_settles : @settles _ (demo_consumer false) demo_envelope (fun w => "e1" ∈ handled w).
Proof.
  constructor; try done; intros w; simpl; destruct (default false (head (works w))); try done.
  - intros _. apply elem_of_app. right. by left.
  - intros Hin. apply elem_of_app. by left.
Qed.

Lemma demo_honest : @honest_store _ (demo_consumer false) "e1" (fun w => recorded w "e1" = true).
Proof. constructor; try done. intros w. simpl. unfold recorded. by intros [= ->]. Qed.

(** A handler that fails three times: two retries, then the dead-letter subject; and one
    that fails once and then works, its acknowledgement lost: the event comes a third
    time and is a duplicate of a handled one. *)
Lemma no_event_lost_witness :
  (let '(os, _, m) := @consume _ (demo_consumer false) 3 demo_cfg "e1" (world_of [] []) fresh in
   deliverable (maxDeliverFromCfg demo_cfg) m = false /\ os = [Retried; Retried; DeadLettered]) /\
  (@consume _ (demo_consumer false) 3 demo_cfg "e1" (world_of [false; true] [false]) fresh).1.1 = [Retried; Done; Duplicate] /\
  (let '(os, w, m) := @consume _ (demo_consumer false) 3 demo_cfg "e1" (world_of [false; true] [false]) fresh in
   deliverable (maxDeliverFromCfg demo_cfg) m = false /\ NumDelivered m <= 3 /\
   (((Done ∈ os \/ Duplicate ∈ os) /\ "e1" ∈ handled w) \/
    (os = [Retried; Retried; DeadLettered] /\ dead_letters m = [("e1-dlq", "e1")]))).
Proof.
  split; [vm_compute; by split |]. split; [vm_compute; reflexivity |].
  exact (@no_event_lost _ (demo_consumer false) (fun w => recorded w "e1" = true) (fun w => "e1" ∈ handled w) demo_cfg "e1"
    demo_envelope (world_of [false; true] [false]) ltac:(constructor; intros; easy) eq_refl ltac:(vm_compute; discriminate)
    ltac:(split; reflexivity) demo_settles (fun _ => demo_honest) ltac:(intros _ Hk; vm_compute in Hk; discriminate)).
Defined.

(** The handler works and its acknowledgement is lost: the event comes again and is recognised. *)
Lemma handled_event_not_rerun_witness :
  @consume _ (demo_consumer false) 3 demo_cfg "e1" (world_of [true; true] [false]) fresh
    = ([Done; Duplicate], {| seen := {["e1"]}; works := [true]; acks := []; handled := ["e1"] |},
       {| NumDelivered := 2; settled := true; dead_letters := [] |}) /\
  Forall repeated [Duplicate].
Proof.
  split; [vm_compute; reflexivity |].
  exact (proj2 (@handled_event_not_rerun _ (demo_consumer false) recorded 3 demo_cfg "e1"
    {| env_ID := "e1"; env_Type := "model.promoted"; env_CorrelationID := ""; env_Data := "e1" |}
    (world_of [true; true] [false]) fresh (demo_lawful false) eq_refl eq_refl) [] [Duplicate] eq_refl).
Defined.

Lemma store_outage_loses_event_witness :
  let '(os, _, m) := @consume _ (demo_consumer true) 3 demo_cfg "e1" (world_of [true; true; true] []) fresh in
  os = [CheckFailed; CheckFailed; CheckFailed] /\
  deliverable (maxDeliverFromCfg demo_cfg) m = false /\ dead_letters m = [].
Proof.
  exact (@store_outage_loses_event _ (demo_consumer true) (fun _ => True) demo_cfg "e1"
    {| env_ID := "e1"; env_Type := "model.promoted"; env_CorrelationID := ""; env_Data := "e1" |}
    (world_of [true; true; true] []) ltac:(done) ltac:(done) eq_refl eq_refl ltac:(split; reflexivity) I).
Defined.
End Demo.
