(* ===== verification/AuditLog.v ===== *)
(** * The audit log

    [services/auth/internal/audit]: the append-only table [audit_log] of
    [migrations/002_audit_log.up.sql], [Append] of [repository.go] and the consumer of
    [consumer.go] behind the shared subscriber. *)

From S2P Require Import Prelude Concur Site GoFormat Subscriber.
Open Scope fp_scope.

(** ** Audit records and their hash chain

    [pkg/audit/record.go]: a record of who did what, its canonical encoding, and the hash
    that seals it onto the record before it. The encoding is proved injective, so that a
    changed history with the same last hash exhibits two different inputs of SHA-256 with
    one digest. *)

(** *** Data *)

Definition DecisionAllow : string := "ALLOW".
Definition DecisionDeny : string := "DENY".
Definition DecisionError : string := "ERROR".
Definition AnonymousActor : string := "anonymous".

Record Actor := { a_UserID : string; a_Email : string; a_Team : string; a_Role : string }.

Record AuditRecord := {
  ar_Actor : Actor; Action : string; Resource : string; Decision : string; GRPCCode : string;
  ar_Err : string; CorrelationID : string; OccurredAt : time; SourceService : string;
}.

#[export] Instance Actor_eq_dec : EqDecision Actor.
Proof. solve_decision. Defined.
#[export] Instance AuditRecord_eq_dec : EqDecision AuditRecord.
Proof. solve_decision. Defined.

Definition GenesisHash : string := "".

(** *** The canonical encoding *)

Section chain.
Context (IsPrint : Z -> bool).

Definition writeField (key value : string) (first : bool) : string :=
  (if first then "" else ",") +:+ Quote IsPrint key +:+ ":" +:+ Quote IsPrint value.

Definition canonicalJSON (rec : AuditRecord) : string :=
  "{" +:+
  writeField "actor.user_id" (a_UserID (ar_Actor rec)) true +:+
  writeField "actor.email" (a_Email (ar_Actor rec)) false +:+
  writeField "actor.team" (a_Team (ar_Actor rec)) false +:+
  writeField "actor.role" (a_Role (ar_Actor rec)) false +:+
  writeField "action" (Action rec) false +:+
  writeField "resource" (Resource rec) false +:+
  writeField "decision" (Decision rec) false +:+
  writeField "grpc_code" (GRPCCode rec) false +:+
  writeField "err" (ar_Err rec) false +:+
  writeField "correlation_id" (CorrelationID rec) false +:+
  writeField "occurred_at" (RFC3339Nano (OccurredAt rec)) false +:+
  writeField "source_service" (SourceService rec) false +:+
  "}".

Definition ChainHash (prevHash : string) (rec : AuditRecord) : string :=
  sha256_hex (prevHash +:+ canonicalJSON rec).

(** *** One encoding per record *)

Lemma writeField_inj key v w first x y :
  writeField key v first +:+ x = writeField key w first +:+ y -> v = w /\ x = y.
Proof.
  unfold writeField. rewrite !string_app_assoc. intros He.
  destruct first; [| apply string_cons_inj in He]; apply Quote_app_inj in He as [_ He];
    apply string_cons_inj in He; by apply Quote_app_inj in He.
Qed.

(** The time of a record is one that JSON carries. *)
Definition timely (rec : AuditRecord) : Prop := json_time (OccurredAt rec) = true.

Lemma canonicalJSON_app_inj r s x y : timely r -> timely s ->
  canonicalJSON r +:+ x = canonicalJSON s +:+ y -> r = s.
Proof.
  intros Hr Hs. unfold canonicalJSON. rewrite !string_app_assoc. intros He. apply string_cons_inj in He.
  do 12 (apply writeField_inj in He as [? He]).
  destruct r as [[] ? ? ? ? ? ? ? ?], s as [[] ? ? ? ? ? ? ? ?]. simpl in *. subst.
  f_equal. by apply RFC3339Nano_inj.
Qed.

(** *** The whole input of the hash *)

(** No previous hash has the brace that begins a record. *)
Fixpoint braceless (s : string) : Prop :=
  match s with "" => True | String a s => a <> "{"%char /\ braceless s end.

Lemma braceless_app s t : braceless s -> braceless t -> braceless (s +:+ t).
Proof. induction s as [|a s IH]; [done |]. intros [Ha Hs] Ht. split; [done | by apply IH]. Qed.

Lemma lowerhex_brace n : 0 <= n < 16 -> lowerhex n <> "{"%char.
Proof.
  intros Hn He. apply (f_equal byte_of) in He. unfold lowerhex in He.
  destruct (Z.ltb_spec n 10); rewrite byte_chr in He by lia; vm_compute (byte_of "{") in He; lia.
Qed.

Lemma hex_digits_braceless n z : braceless (hex_digits n z).
Proof.
  revert z. induction n as [|n IH]; intros z; [done |]. cbn [hex_digits]. apply braceless_app; [done |].
  split; [apply lowerhex_brace, Z.mod_pos_bound; lia | done].
Qed.

Lemma sha256_hex_braceless s : braceless (sha256_hex s).
Proof.
  unfold sha256_hex. induction (Sum256 s) as [|a t IH]; [done |].
  cbn [EncodeToString]. apply braceless_app; [apply hex_digits_braceless | done].
Qed.

Lemma chain_input_inj p q r s : braceless p -> braceless q -> timely r -> timely s ->
  p +:+ canonicalJSON r = q +:+ canonicalJSON s -> p = q /\ r = s.
Proof.
  intros Hp Hq Hr Hs. revert q Hq. induction p as [|a p IH]; intros [|b q] Hq He.
  - split; [done |]. apply (canonicalJSON_app_inj r s "" ""); [done.. |]. by rewrite !string_app_nil.
  - destruct Hq as [Hb _]. rewrite string_app_cons in He. unfold canonicalJSON at 1 in He. by injection He.
  - destruct Hp as [Ha _]. rewrite string_app_cons in He. unfold canonicalJSON at 2 in He. by injection He.
  - rewrite !string_app_cons in He. injection He as -> He. destruct Hp, Hq. by destruct (IH ltac:(done) q) as [-> ->].
Qed.

(** *** Chains of records *)

(** The hash after the records, each sealed onto the one before. *)
Definition sealed (prev : string) (recs : list AuditRecord) : string := foldl ChainHash prev recs.

(** What SHA-256 is applied to on the way. *)
Fixpoint hashed (prev : string) (recs : list AuditRecord) : list string :=
  match recs with
  | [] => []
  | rec :: recs => (prev +:+ canonicalJSON rec) :: hashed (ChainHash prev rec) recs
  end.

Lemma sealed_snoc prev recs rec : sealed prev (recs ++ [rec]) = ChainHash (sealed prev recs) rec.
Proof. unfold sealed. by rewrite foldl_app. Qed.

Lemma hashed_snoc prev recs rec : hashed prev (recs ++ [rec]) = hashed prev recs ++ [sealed prev recs +:+ canonicalJSON rec].
Proof. revert prev. induction recs as [|r recs IH]; intros prev; [done |]. cbn. f_equal. apply IH. Qed.

Lemma sealed_braceless recs : braceless (sealed GenesisHash recs).
Proof. destruct recs as [|r recs _] using rev_ind; [done |]. rewrite sealed_snoc. apply sha256_hex_braceless. Qed.

(** Two of the texts hashed, different and with one digest. *)
Definition collision (xs ys : list string) : Prop :=
  exists x y, x ∈ xs /\ y ∈ ys /\ x <> y /\ Sum256 x = Sum256 y.

Lemma sealed_inj recs recs' : Forall timely recs -> Forall timely recs' ->
  sealed GenesisHash recs = sealed GenesisHash recs' ->
  recs = recs' \/ collision (hashed GenesisHash recs) (hashed GenesisHash recs').
Proof.
  revert recs'. induction recs as [|r recs IH] using rev_ind; intros recs' Ht Ht' He;
    destruct recs' as [|r' recs' _] using rev_ind.
  - by left.
  - rewrite sealed_snoc in He. apply (f_equal String.length) in He. unfold ChainHash in He. by rewrite sha256_hex_length in He.
  - rewrite sealed_snoc in He. apply (f_equal String.length) in He. unfold ChainHash in He. by rewrite sha256_hex_length in He.
  - rewrite !sealed_snoc in He. apply list.Forall_app in Ht as [Ht Hr]. apply list.Forall_app in Ht' as [Ht' Hr'].
    apply list.Forall_cons in Hr as [Hr _], Hr' as [Hr' _]. rewrite !hashed_snoc.
    unfold ChainHash, sha256_hex in He. apply EncodeToString_inj in He.
    destruct (decide (sealed GenesisHash recs +:+ canonicalJSON r = sealed GenesisHash recs' +:+ canonicalJSON r')) as [Hi | Hne].
    + apply chain_input_inj in Hi as [Hs ->]; [| apply sealed_braceless | apply sealed_braceless | done | done].
      destruct (IH recs' Ht Ht' Hs) as [-> | (x & y & Hx & Hy & Hd & Hsum)]; [by left | right].
      exists x, y. rewrite !elem_of_app. auto.
    + right. exists (sealed GenesisHash recs +:+ canonicalJSON r), (sealed GenesisHash recs' +:+ canonicalJSON r').
      rewrite !elem_of_app, !list_elem_of_singleton. auto.
Qed.
End chain.

(** ** The table *)

Record audit_row := {
  r_event_id : string; r_seq : Z; r_actor : Actor; r_action : string; r_resource : string; r_decision : string;
  r_grpc_code : string; r_err : string; r_correlation_id : string; r_occurred_at : time;
  r_prev_hash : string; r_entry_hash : string;
}.

#[export] Instance audit_row_eq_dec : EqDecision audit_row.
Proof. solve_decision. Defined.

(** What PostgreSQL takes as a TEXT and as a UUID. *)
Class Columns : Type := { storable : string -> bool; is_uuid : string -> bool }.

Abbreviation audit_error := (error Empty_set).

Record AppendResult := { Appended : bool; Seq : Z; EntryHash : string }.

Section log.
Context (IsPrint : Z -> bool) `{Columns}.

Definition row_of (prevHash : string) (seq : Z) (eventID : string) (rec : AuditRecord) : audit_row := {|
  r_event_id := eventID; r_seq := seq; r_actor := ar_Actor rec; r_action := Action rec; r_resource := Resource rec;
  r_decision := Decision rec; r_grpc_code := GRPCCode rec; r_err := ar_Err rec; r_correlation_id := CorrelationID rec;
  r_occurred_at := timestamptz (OccurredAt rec); r_prev_hash := prevHash; r_entry_hash := ChainHash IsPrint prevHash rec |}.

Definition row_takes (r : audit_row) : bool :=
  is_uuid (r_event_id r) &&
  forallb storable [a_UserID (r_actor r); a_Email (r_actor r); a_Team (r_actor r); a_Role (r_actor r); r_action r; r_resource r;
    r_decision r; r_grpc_code r; r_err r; r_correlation_id r] &&
  existsb (String.eqb (r_decision r)) [DecisionAllow; DecisionDeny; DecisionError].

(** INSERT ... ON CONFLICT (event_id) DO NOTHING: whether a row went in. *)
Definition insert_row (r : audit_row) (l : list audit_row) : result bool audit_error * list audit_row :=
  if negb (row_takes r) then (Err (External "invalid value"), l)
  else if existsb (fun x => String.eqb (r_event_id x) (r_event_id r)) l then (Ok false, l)
  else if existsb (fun x => (r_seq x =? r_seq r) || String.eqb (r_entry_hash x) (r_entry_hash r)) l
  then (Err (External "unique violation"), l)
  else (Ok true, l ++ [r]).

(** ORDER BY seq DESC LIMIT 1 *)
Definition last_row (l : list audit_row) : option audit_row :=
  foldl (fun best r => match best with Some b => if r_seq b <? r_seq r then Some r else best | None => Some r end) None l.

Definition readHead (l : list audit_row) : string * Z :=
  match last_row l with Some r => (r_entry_hash r, wrap64 (r_seq r + 1)) | None => (GenesisHash, 1) end.

Definition lookupByEventID (eventID : string) (l : list audit_row) : option (Z * string) :=
  match List.find (fun x => String.eqb (r_event_id x) eventID) l with
  | Some r => Some (r_seq r, r_entry_hash r)
  | None => None
  end.

(** From the advisory lock to the commit. *)
Definition append_tx (eventID : string) (rec : AuditRecord) (l : list audit_row) : result AppendResult audit_error * list audit_row :=
  let '(prevHash, nextSeq) := readHead l in
  let r := row_of prevHash nextSeq eventID rec in
  match insert_row r l with
  | (Err e, l) => (Err (Wrap "audit: insert record" e), l)
  | (Ok false, l) => (Ok {| Appended := false; Seq := 0; EntryHash := "" |}, l)
  | (Ok true, l) => (Ok {| Appended := true; Seq := nextSeq; EntryHash := r_entry_hash r |}, l)
  end.

Section append.
Context {W : Type} `{Outside W}.
#[local] Notation call := (prog (site W (list audit_row))).

Definition Append (eventID : string) (rec : AuditRecord) : call (result AppendResult audit_error) :=
  do! found := query (fun _ l => Ok (lookupByEventID eventID l)) in
  try found (Wrap "audit: lookup by event_id") (fun found =>
  match found with
  | Some (seq, hash) => Ret (Ok {| Appended := false; Seq := seq; EntryHash := hash |})
  | None => do! r := transact (append_tx eventID rec) in Ret r
  end).

(** The consumer's handler: [true] acknowledges. *)
Definition handle (decode : string -> option AuditRecord) (env : EventEnvelope) : call bool :=
  match decode (env_Data env) with
  | None => Ret false
  | Some rec => do! r := Append (env_ID env) rec in Ret (is_ok r)
  end.
End append.

(** ** A linear chain *)

(** The rows seal the records one after the other from [prev] on. *)
Fixpoint chained (prev : string) (seq : Z) (l : list audit_row) (recs : list AuditRecord) : Prop :=
  match l, recs with
  | [], [] => True
  | r :: l, rec :: recs => r = row_of prev seq (r_event_id r) rec /\ chained (r_entry_hash r) (seq + 1) l recs
  | _, _ => False
  end.

Definition good (l : list audit_row) : Prop :=
  (exists recs, chained GenesisHash 1 l recs) /\ NoDup (r_event_id <$> l).

(** Sequence numbers have not run out. *)
Definition room (l : list audit_row) : Prop := Z.of_nat (length l) < int64_max.

Lemma chained_app prev seq l1 l2 recs1 recs2 :
  chained prev seq l1 recs1 ->
  chained (sealed IsPrint prev recs1) (seq + Z.of_nat (length l1)) l2 recs2 ->
  chained prev seq (l1 ++ l2) (recs1 ++ recs2).
Proof.
  revert prev seq recs1. induction l1 as [|r l1 IH]; intros prev seq [|rec recs1] H1 H2; try done.
  - by rewrite Z.add_0_r in H2.
  - destruct H1 as [Hr H1]. cbn [app chained]. split; [done |]. apply IH; [done |].
    assert (r_entry_hash r = ChainHash IsPrint prev rec) as -> by (rewrite Hr; done).
    cbn [length] in H2. replace (seq + 1 + Z.of_nat (length l1)) with (seq + Z.of_nat (S (length l1))) by lia. exact H2.
Qed.

Lemma chained_last prev seq l recs b :
  chained prev seq l recs -> (forall r, b = Some r -> r_entry_hash r = prev /\ r_seq r + 1 = seq) ->
  match foldl (fun best r => match best with Some b => if r_seq b <? r_seq r then Some r else best | None => Some r end) b l with
  | Some r => r_entry_hash r = sealed IsPrint prev recs /\ r_seq r + 1 = seq + Z.of_nat (length l)
  | None => b = None /\ l = []
  end.
Proof.
  revert prev seq recs b. induction l as [|r l IH]; intros prev seq [|rec recs] b Hc Hb; try done.
  - destruct b as [r|]; [| done]. simpl. rewrite Z.add_0_r. by apply Hb.
  - destruct Hc as [Hr Hc]. cbn [foldl].
    assert ((match b with Some b0 => if r_seq b0 <? r_seq r then Some r else b | None => Some r end) = Some r) as ->.
    { destruct b as [b0|]; [| done]. destruct (Hb b0 eq_refl) as [_ Hs]. assert (r_seq r = seq) as -> by (rewrite Hr; done).
      by rewrite (proj2 (Z.ltb_lt _ _)) by lia. }
    specialize (IH (r_entry_hash r) (seq + 1) recs (Some r) Hc).
    destruct (foldl _ _ l) as [x|]; [| by destruct IH as [? _]; [intros ? [= <-]; rewrite Hr; done |]].
    destruct IH as [H1 H2]; [intros ? [= <-]; split; [done | rewrite Hr; done] |].
    split; [| cbn [length]; lia]. rewrite H1. rewrite Hr. done.
Qed.

Lemma readHead_good l recs : chained GenesisHash 1 l recs -> room l ->
  readHead l = (sealed IsPrint GenesisHash recs, 1 + Z.of_nat (length l)).
Proof.
  intros Hc Hr. pose proof (chained_last _ _ _ _ None Hc ltac:(done)) as Hl. unfold readHead, last_row.
  destruct (foldl _ None l) as [r|].
  - destruct Hl as [-> Hs]. rewrite Hs, wrap64_id; [done |]. unfold in_int64, int64_min, room, int64_max in *. lia.
  - destruct Hl as [_ ->]. destruct recs; done.
Qed.

Lemma existsb_false_in {A} (f : A -> bool) l x : existsb f l = false -> x ∈ l -> f x = false.
Proof.
  intros He Hx. destruct (f x) eqn:E; [| done]. apply list_elem_of_In in Hx.
  assert (existsb f l = true) by (apply existsb_exists; eauto). congruence.
Qed.

(** ** What every append keeps *)

Section kept.
Variable delivered : string -> AuditRecord -> Prop.

(** [l'] is [l] with rows for delivered events at its end, in one chain if [l] is one. *)
Record grown (l l' : list audit_row) : Prop := {
  g_rows : exists added, l' = l ++ added /\
    Forall (fun r => exists rec, delivered (r_event_id r) rec /\ r = row_of (r_prev_hash r) (r_seq r) (r_event_id r) rec) added;
  g_good : room l' -> good l -> good l';
}.

#[export] Instance grown_preorder : PreOrder grown.
Proof.
  split.
  - intros l. split; [exists []; by rewrite app_nil_r | done].
  - intros l1 l2 l3 [(a & -> & Ha) H1] [(b & -> & Hb) H2]. split.
    + exists (a ++ b). rewrite app_assoc. split; [done | by apply list.Forall_app].
    + intros Hr Hg. apply H2; [done |]. apply H1; [| done]. unfold room in *. rewrite !length_app in *. lia.
Qed.

Definition audit_regime : regime (list audit_row) := {| write := grown; keeps := grown; write_keeps _ _ Hw := Hw |}.

Lemma grown_in l l' r : grown l l' -> r ∈ l -> r ∈ l'.
Proof. intros [(a & -> & _) _] Hr. apply elem_of_app. by left. Qed.

(** The answer of an append names a row of the table. *)
Definition answers (eventID : string) (rec : AuditRecord) (res : AppendResult) (l : list audit_row) : Prop :=
  exists r, r ∈ l /\ r_event_id r = eventID /\
    (Appended res = true -> r = row_of (r_prev_hash r) (Seq res) eventID rec /\ EntryHash res = r_entry_hash r).

Lemma answers_grown eventID rec res l l' : grown l l' -> answers eventID rec res l -> answers eventID rec res l'.
Proof. intros Hg (r & Hr & ?). exists r. split; [by eapply grown_in | done]. Qed.

Lemma append_tx_spec eventID rec l res l' :
  delivered eventID rec -> append_tx eventID rec l = (res, l') ->
  grown l l' /\ (forall a, res = Ok a -> answers eventID rec a l').
Proof.
  intros Hd. unfold append_tx. destruct (readHead l) as [prevHash nextSeq] eqn:Eh.
  set (r := row_of prevHash nextSeq eventID rec). unfold insert_row.
  destruct (row_takes r); [| intros [= <- <-]; split; [reflexivity | done]]. cbn [negb].
  destruct (existsb _ l) eqn:Ee.
  { intros [= <- <-]. split; [reflexivity |]. intros a [= <-]. apply existsb_exists in Ee as (x & Hx & He).
    exists x. apply list_elem_of_In in Hx. apply String.eqb_eq in He. done. }
  destruct (existsb _ l) eqn:Eu in |- *; [intros [= <- <-]; split; [reflexivity | done] |].
  intros [= <- <-]. split; [split |].
  - exists [r]. split; [done |]. apply list.Forall_cons. split; [by exists rec | constructor].
  - intros Hroom [[recs Hc] Hnd].
    assert (room l) as Hl by (unfold room in *; rewrite length_app in Hroom; lia).
    rewrite (readHead_good l recs Hc Hl) in Eh. injection Eh as <- <-. split.
    + exists (recs ++ [rec]). apply chained_app; [done |]. split; [| done]. unfold r. f_equal.
    + rewrite fmap_app. apply list.NoDup_app. split; [done |]. split; [| apply NoDup_singleton].
      intros id (x & -> & Hx)%list_elem_of_fmap He. apply list_elem_of_singleton in He.
      apply (existsb_false_in _ _ x) in Ee; [| done]. cbn beta in Ee. by rewrite He, String.eqb_refl in Ee.
  - intros a [= <-]. exists r. split; [apply elem_of_app; right; by apply list_elem_of_singleton |]. done.
Qed.

Lemma Append_safe {W} `{Outside W} eventID rec base : delivered eventID rec ->
  safe (W := W) audit_regime base (Append eventID rec) (or_error (answers eventID rec)).
Proof.
  intros Hd. unfold Append. apply safe_query. intros l w found Hg Hf.
  destruct found as [[[seq hash]|]|e]; [| | apply safe_fail].
  - apply safe_ret. intros l' Hg'. eapply answers_grown; [exact Hg' |]. destruct Hf as [[= Hf] | Hf]; [| done].
    unfold lookupByEventID in Hf. destruct (List.find _ l) as [r|] eqn:Er; [| done].
    apply find_some in Er as [Hr He]. apply list_elem_of_In in Hr. apply String.eqb_eq in He. by exists r.
  - apply safe_transact. intros l1 r l2 Hg1 Ht. destruct (append_tx_spec _ _ _ _ _ Hd Ht) as [Hw Ha].
    split; [by right |]. split; [| intros text; apply safe_ret; done].
    apply safe_ret. intros l3 Hg3. destruct r as [a|]; [| done]. eapply answers_grown; [exact Hg3 | by apply Ha].
Qed.
End kept.

Lemma appends_safe {W} `{Outside W} deliveries (s : site W (list audit_row)) results s' :
  par (map (fun d => Append d.1 d.2) deliveries) s results s' ->
  let R := audit_regime (fun id rec => (id, rec) ∈ deliveries) in
  grown (fun id rec => (id, rec) ∈ deliveries) (s_db s) (s_db s') /\ length results = length deliveries /\
  forall i eventID rec res, deliveries !! i = Some (eventID, rec) -> results !! i = Some (Ok res) ->
    answers eventID rec res (s_db s').
Proof.
  intros Hpar R.
  destruct (safe_par R (map (fun d => Append d.1 d.2) deliveries) s results s' (fun i a l => forall eventID rec, deliveries !! i = Some (eventID, rec) -> or_error (answers eventID rec) a l)) as (Hst & Hres & Hlen).
  - intros i m Hi. rewrite list_lookup_fmap in Hi. destruct (deliveries !! i) as [[eventID rec]|] eqn:Ei; [| done].
    injection Hi as <-. eapply safe_weaken; [apply (Append_safe (fun id rec => (id, rec) ∈ deliveries) eventID rec); by eapply list_elem_of_lookup_2 |].
    intros a l Ha eventID' rec' [= <- <-]. exact Ha.
  - exact Hpar.
  - split; [by apply (site_steps_keep R) |]. rewrite length_map in Hlen. split; [done |].
    intros i eventID rec res Hd Hr. exact (Hres i _ Hr eventID rec Hd).
Qed.

(** ** Rows and records *)

Definition without_id (r : audit_row) : audit_row := {|
  r_event_id := ""; r_seq := r_seq r; r_actor := r_actor r; r_action := r_action r; r_resource := r_resource r;
  r_decision := r_decision r; r_grpc_code := r_grpc_code r; r_err := r_err r; r_correlation_id := r_correlation_id r;
  r_occurred_at := r_occurred_at r; r_prev_hash := r_prev_hash r; r_entry_hash := r_entry_hash r |}.

Lemma chained_rows prev seq l l' recs : chained prev seq l recs -> chained prev seq l' recs -> without_id <$> l = without_id <$> l'.
Proof.
  revert prev seq l' recs. induction l as [|r l IH]; intros prev seq [|r' l'] [|rec recs]; try done.
  intros [Hr H1] [Hr' H2]. assert (r_entry_hash r = r_entry_hash r') as He by (rewrite Hr, Hr'; done). rewrite <- He in H2.
  cbn. f_equal; [by rewrite Hr, Hr' | by eapply IH].
Qed.

(** The record that a reader of the table can rebuild: no column holds its service. *)
Definition read_back (r : audit_row) (source : string) : AuditRecord := {|
  ar_Actor := r_actor r; Action := r_action r; Resource := r_resource r; Decision := r_decision r; GRPCCode := r_grpc_code r;
  ar_Err := r_err r; CorrelationID := r_correlation_id r; OccurredAt := r_occurred_at r; SourceService := source |}.

Lemma timestamptz_second t : timestamptz t / Second = t / Second.
Proof. unfold timestamptz, Second. Z.div_mod_to_equations. lia. Qed.

Lemma timestamptz_exact t : timestamptz t = t <-> t mod 1000 = 0.
Proof. unfold timestamptz. pose proof (Z.div_mod t 1000). lia. Qed.

Lemma timestamptz_timely t : json_time (timestamptz t) = json_time t.
Proof. unfold json_time. by rewrite timestamptz_second. Qed.
End log.

(** ** The consumer behind the shared subscriber *)

(** The broker's calls for a message. *)
Class AuditBus (W : Type) : Type := {
  bus_metadata : W -> bool * W;
  bus_publish : string -> string -> string -> W -> bool * W;
  bus_ack : W -> bool * W;
  bus_nak : W -> bool * W;
  bus_term : W -> bool * W;
}.

Section consumer.
Context {W : Type} `{Outside W} `{AuditBus W} `{Columns} (IsPrint : Z -> bool).
Context (unmarshal_env : string -> option EventEnvelope) (decode : string -> option AuditRecord).

Definition on_bus {A} (f : W -> A * W) (s : site W (list audit_row)) : A * site W (list audit_row) :=
  let '(a, w) := f (s_world s) in (a, {| s_world := w; s_db := s_db s |}).

(** [NewConsumer] sets no store, so its two calls are never made. *)
Definition audit_consumer : Consumer (site W (list audit_row)) := {|
  unmarshal := unmarshal_env;
  IsProcessed _ s := (Some false, s);
  MarkProcessed _ s := (true, s);
  handler env s := run (handle IsPrint decode env) s;
  Metadata := on_bus bus_metadata;
  Publish subject id data := on_bus (bus_publish subject id data);
  Ack := on_bus bus_ack;
  Nak := on_bus bus_nak;
  Term := on_bus bus_term;
|}.

Definition ConsumerGroup : string := "auth-audit-persist".
Definition DLQSubject : string := "fp_dlq.audit".

Definition NewConsumer : subConfig :=
  NewSubscriber [WithConsumerGroup ConsumerGroup; WithMaxRetries 4; WithDLQSubject DLQSubject].
End consumer.
