(* ===== verification/AuditSafety.v ===== *)
(** * The audit trail: one linear chain, tamper evidence, and what a reader can rebuild

    The theorems about [AuditRecord] and [AuditLog], with a concrete log. *)

From S2P Require Import Prelude Concur Site GoFormat Subscriber AuditLog.
Open Scope fp_scope.

(** ** The chain *)

(** C16. One linear chain: however deliveries of audit events interleave, repeat and fail,
    with commits whose acknowledgement is lost too, the table stays one chain of gap-free
    sequence numbers in which each row's hash seals its record onto the row before, with
    one row per event; rows are only added, each for a delivered record; and an append
    that answers, as a duplicate or not, has its event in the table. *)
Theorem audit_chain_integrity (IsPrint : Z -> bool) `{Columns} {W} `{Outside W} deliveries (s : site W (list audit_row)) results s' :
  par (map (fun d => Append IsPrint d.1 d.2) deliveries) s results s' ->
  good IsPrint (s_db s) -> room (s_db s') ->
  good IsPrint (s_db s') /\
  (exists added, s_db s' = s_db s ++ added /\
     Forall (fun r => exists rec, (r_event_id r, rec) ∈ deliveries /\ r = row_of IsPrint (r_prev_hash r) (r_seq r) (r_event_id r) rec) added) /\
  length results = length deliveries /\
  forall i eventID rec res, deliveries !! i = Some (eventID, rec) -> results !! i = Some (Ok res) ->
    answers IsPrint eventID rec res (s_db s').
Proof.
  intros Hpar Hg Hroom. apply appends_safe in Hpar as ([Hrows Hgood] & Hlen & Hres). auto.
Qed.

(** Tamper evidence: a table that verifies as a chain and has the head hash of the true
    log is the true log, but for the event ids, which are not sealed; or two of the texts
    hashed for the two chains are different and have one SHA-256 digest. *)
Theorem tamper_evident (IsPrint : Z -> bool) l l' recs recs' :
  chained IsPrint GenesisHash 1 l recs -> chained IsPrint GenesisHash 1 l' recs' -> room l -> room l' ->
  Forall timely recs -> Forall timely recs' -> (readHead l').1 = (readHead l).1 ->
  (recs' = recs /\ without_id <$> l' = without_id <$> l) \/
  collision (hashed IsPrint GenesisHash recs') (hashed IsPrint GenesisHash recs).
Proof.
  intros Hc Hc' Hr Hr' Ht Ht'. rewrite (readHead_good _ _ _ Hc Hr), (readHead_good _ _ _ Hc' Hr'). intros He.
  destruct (sealed_inj _ _ _ Ht' Ht He) as [-> | Hcol]; [left | by right]. split; [done | by eapply chained_rows].
Qed.

(** Canonical form: two records with one canonical encoding are one record; no value can
    imitate a field boundary, whatever characters it has. *)
Theorem canonical_form_injective (IsPrint : Z -> bool) r s :
  timely r -> timely s -> canonicalJSON IsPrint r = canonicalJSON IsPrint s <-> r = s.
Proof.
  intros Hr Hs. split; [| by intros ->]. intros He.
  apply (canonicalJSON_app_inj IsPrint r s "" ""); [done.. |]. by rewrite !string_app_nil.
Qed.

(** What a reader of the table can rebuild: the text that a row's hash was taken of can
    be rebuilt from its columns exactly if the source service is guessed, which no column
    keeps, and the time had no nanoseconds below the microsecond, which the column drops. *)
Theorem audit_rows_rebuild (IsPrint : Z -> bool) prevHash seq eventID rec source :
  timely rec ->
  canonicalJSON IsPrint (read_back (row_of IsPrint prevHash seq eventID rec) source) = canonicalJSON IsPrint rec <->
  source = SourceService rec /\ OccurredAt rec mod 1000 = 0.
Proof.
  intros Ht. rewrite <- timestamptz_exact. split.
  - intros He. assert (read_back (row_of IsPrint prevHash seq eventID rec) source = rec) as Hr.
    { apply (canonicalJSON_app_inj IsPrint _ _ "" ""); [| done |]; [| by rewrite !string_app_nil].
      unfold timely. cbn. by rewrite timestamptz_timely. }
    split; [by apply (f_equal SourceService) in Hr | by apply (f_equal OccurredAt) in Hr].
  - intros [-> He]. f_equal. unfold read_back, row_of. cbn. rewrite He. by destruct rec.
Qed.

(** ** From the bus to the table *)

Lemma handle_spec (IsPrint : Z -> bool) `{Columns} {W} `{Outside W} decode envelope (s : site W (list audit_row)) :
  let '(ok, s') := run (handle IsPrint decode envelope) s in
  (forall r, r ∈ s_db s -> r ∈ s_db s') /\
  (ok = true -> exists r, r ∈ s_db s' /\ r_event_id r = env_ID envelope).
Proof.
  unfold handle. destruct (decode (env_Data envelope)) as [rec|]; [| done].
  rewrite run_bind. destruct (run (Append IsPrint (env_ID envelope) rec) s) as [r s'] eqn:Er.
  pose proof (run_all_par [Append IsPrint (env_ID envelope) rec] s) as Hp. cbn [run_all] in Hp. rewrite Er in Hp. cbn in Hp.
  apply (appends_safe IsPrint [(env_ID envelope, rec)]) in Hp as (Hg & _ & Hres). split; [intros x; by eapply grown_in |].
  destruct r as [res|]; [| done]. intros _. destruct (Hres 0%nat _ _ _ eq_refl eq_refl) as (x & Hx & Hid & _). by exists x.
Qed.

Lemma on_bus_spec {W A} (f : W -> A * W) (s : site W (list audit_row)) :
  (on_bus f s).1 = (f (s_world s)).1 /\ s_db (on_bus f s).2 = s_db s.
Proof. unfold on_bus. by destruct (f (s_world s)). Qed.

Lemma audit_settles (IsPrint : Z -> bool) `{Columns} {W} `{Outside W} `{AuditBus W} unmarshal_env decode envelope :
  @settles _ (audit_consumer IsPrint unmarshal_env decode) envelope
    (fun s => exists r, r ∈ s_db s /\ r_event_id r = env_ID envelope).
Proof.
  constructor; cbn; intros; try (destruct (on_bus_spec (W := W) bus_metadata w) as [_ ->]); try done.
  - pose proof (handle_spec IsPrint decode envelope w) as Hs. destruct (run _ w) as [ok s']. by apply Hs.
  - pose proof (handle_spec IsPrint decode envelope w) as Hs. destruct (run _ w) as [ok s'].
    destruct Hs as [Hk _]. destruct H2 as (r & Hr & Hid). exists r. auto.
  - by rewrite (proj2 (on_bus_spec _ _)).
  - by rewrite (proj2 (on_bus_spec _ _)).
  - by rewrite (proj2 (on_bus_spec _ _)).
  - by rewrite (proj2 (on_bus_spec _ _)).
Qed.

(** No audit event is lost between bus and table: while the broker's metadata and the
    dead-letter subject answer, and however the database fails, an event is delivered at
    most five times, and then it has its row or one copy on the dead-letter subject. *)
Theorem audit_event_kept (IsPrint : Z -> bool) `{Columns} {W} `{Outside W} `{AuditBus W} unmarshal_env decode data envelope (s : site W (list audit_row)) :
  (forall w, (bus_metadata w).1 = true) -> (forall subject id d w, (bus_publish subject id d w).1 = true) ->
  unmarshal_env data = Some envelope ->
  let '(os, s', m) := @consume _ (audit_consumer IsPrint unmarshal_env decode) 5 NewConsumer data s fresh in
  deliverable (maxDeliverFromCfg NewConsumer) m = false /\ (length os <= 5)%nat /\
  ((exists r, r ∈ s_db s' /\ r_event_id r = env_ID envelope) \/ dead_letters m = [(env_ID envelope +:+ "-dlq", data)]).
Proof.
  intros Hm Hp Hu.
  pose (C := audit_consumer IsPrint unmarshal_env decode).
  assert (healthy (site W (list audit_row))) as Hh.
  { constructor; cbn; intros; [done | done | by rewrite (proj1 (on_bus_spec _ _)) | by rewrite (proj1 (on_bus_spec _ _))]. }
  assert (0 < maxRetries NewConsumer < int64_max) as Hr by (split; reflexivity).
  pose proof (consume_ends 5 NewConsumer data s fresh Hr ltac:(reflexivity)) as He.
  pose proof (consume_length 5 NewConsumer data s fresh) as Hn.
  pose proof (consume_healthy 5 NewConsumer data envelope s fresh Hh Hu ltac:(done) Hr eq_refl eq_refl ltac:(reflexivity)) as Hf.
  pose proof (consume_settles _ 5 NewConsumer data envelope s fresh
    (audit_settles IsPrint unmarshal_env decode envelope) Hu eq_refl) as Hs.
  fold C. destruct (consume 5 NewConsumer data s fresh) as [[os s'] m]. simpl in He, Hn.
  split; [done |]. split; [done |]. destruct Hs as [Hs Hd].
  destruct Hf as [Hf | [Hf | [Hf | [_ Hf]]]]; [left; auto | done | done | by right].
Qed.

(** ** A concrete log *)

Module Demo.
Record world := { fates : list fate }.

#[export] Instance world_calls : Outside world := {|
  Now w := (0, w); NewID w := ("", w);
  link w := match fates w with [] => (Works, w) | f :: fs => (f, {| fates := fs |}) end |}.
#[export] Instance world_bus : AuditBus world := {|
  bus_metadata w := (true, w); bus_publish _ _ _ w := (true, w); bus_ack w := (true, w); bus_nak w := (true, w); bus_term w := (true, w) |}.
#[export] Instance any_columns : Columns := {| storable _ := true; is_uuid _ := true |}.

Definition ascii_print (r : Z) : bool := within 0x20 0x7E r.

Definition record_of (email role action : string) (t : time) : AuditRecord := {|
  ar_Actor := {| a_UserID := "user-123"; a_Email := email; a_Team := "platform"; a_Role := role |};
  Action := action; Resource := ""; Decision := DecisionAllow; GRPCCode := "OK"; ar_Err := ""; CorrelationID := "corr-abc";
  OccurredAt := t; SourceService := "auth" |}.

Definition noon : time := 63917375400 * Second.
Definition created := record_of "ada@fp.io" "admin" "/forgepoint.auth.v1.AuthService/CreateUser" noon.
Definition assigned := record_of "ada@fp.io" "admin" "/forgepoint.auth.v1.AuthService/AssignRole" (noon + 120345).

Definition empty_log (fs : list fate) : site world (list audit_row) := {| s_world := {| fates := fs |}; s_db := [] |}.

Lemma empty_good fs : good ascii_print (s_db (empty_log fs)).
Proof. split; [by exists [] | constructor]. Qed.

(** The second event's commit loses its acknowledgement, and both events come again. *)
Definition deliveries : list (string * AuditRecord) := [("e1", created); ("e2", assigned); ("e2", assigned); ("e1", created)].
Definition final : list (result AppendResult audit_error) * site world (list audit_row) :=
  run_all (map (fun d => Append ascii_print d.1 d.2) deliveries) (empty_log [Works; Works; Works; AckLost]).

Lemma audit_chain_integrity_witness :
  map is_ok final.1 = [true; false; true; true] /\ map r_seq (s_db final.2) = [1; 2] /\ good ascii_print (s_db final.2).
Proof.
  split; [vm_compute; reflexivity |]. split; [vm_compute; reflexivity |].
  exact (proj1 (audit_chain_integrity ascii_print deliveries (empty_log [Works; Works; Works; AckLost]) final.1 final.2
    (run_all_par _ _) (empty_good _) ltac:(vm_compute; reflexivity))).
Defined.

Definition log_with (id1 id2 : string) : list audit_row :=
  let r1 := row_of ascii_print GenesisHash 1 id1 created in [r1; row_of ascii_print (r_entry_hash r1) 2 id2 assigned].

Lemma tamper_evident_witness :
  ([created; assigned] = [created; assigned] /\ without_id <$> log_with "f1" "f2" = without_id <$> log_with "e1" "e2") \/
  collision (hashed ascii_print GenesisHash [created; assigned]) (hashed ascii_print GenesisHash [created; assigned]).
Proof.
  exact (tamper_evident ascii_print (log_with "e1" "e2") (log_with "f1" "f2") [created; assigned] [created; assigned]
    ltac:(repeat split) ltac:(repeat split) ltac:(vm_compute; reflexivity) ltac:(vm_compute; reflexivity)
    ltac:(repeat constructor; vm_compute; reflexivity) ltac:(repeat constructor; vm_compute; reflexivity) ltac:(vm_compute; reflexivity)).
Defined.

(** An address that spells the next field's boundary. *)
Lemma canonical_form_injective_witness :
  let forged := record_of ("ada@fp.io" +:+ String dquote ("," +:+ String dquote ("actor.role" +:+ String dquote (":" +:+ String dquote "admin")))) "viewer" "/x/Y" noon in
  canonicalJSON ascii_print forged <> canonicalJSON ascii_print (record_of "ada@fp.io" "admin" "/x/Y" noon).
Proof.
  intros forged He. apply (canonical_form_injective ascii_print) in He; [discriminate | vm_compute; reflexivity | vm_compute; reflexivity].
Defined.

(** A row whose time had nanoseconds: even the right service does not rebuild its text. *)
Lemma audit_rows_rebuild_witness :
  canonicalJSON ascii_print (read_back (row_of ascii_print GenesisHash 1 "e2" assigned) "auth") <> canonicalJSON ascii_print assigned.
Proof.
  intros He. apply (audit_rows_rebuild ascii_print GenesisHash 1 "e2" assigned "auth") in He as [_ He]; [| vm_compute; reflexivity].
  vm_compute in He. discriminate.
Defined.

(** Its hash does not verify even for the service it came from. *)
Example stored_row_does_not_verify :
  let r := row_of ascii_print GenesisHash 1 "e2" assigned in
  String.eqb (ChainHash ascii_print (r_prev_hash r) (read_back r "auth")) (r_entry_hash r) = false.
Proof. vm_compute. reflexivity. Qed.

Definition open_env (data : string) : option EventEnvelope :=
  Some {| env_ID := data; env_Type := "audit.recorded"; env_CorrelationID := ""; env_Data := data |}.

Definition demo_consumer : Consumer (site world (list audit_row)) := audit_consumer ascii_print open_env (fun _ => Some created).
Definition refused := @consume _ demo_consumer 5 NewConsumer "e1" (empty_log (replicate 5 Refused)) fresh.

(** The database refuses the append five times: the event is on the dead-letter subject. *)
Lemma audit_event_kept_witness :
  let '(os, s', m) := refused in
  refused.1.1 = [Retried; Retried; Retried; Retried; DeadLettered] /\
  ((exists r, r ∈ s_db s' /\ r_event_id r = "e1") \/ dead_letters m = [("e1-dlq", "e1")]).
Proof.
  pose proof (audit_event_kept ascii_print open_env (fun _ => Some created) "e1"
    {| env_ID := "e1"; env_Type := "audit.recorded"; env_CorrelationID := ""; env_Data := "e1" |}
    (empty_log (replicate 5 Refused)) ltac:(done) ltac:(done) eq_refl) as Hk.
  assert (refused.1.1 = [Retried; Retried; Retried; Retried; DeadLettered]) as Ho by (vm_compute; reflexivity).
  fold demo_consumer refused in Hk. destruct refused as [[os s'] m]. split; [exact Ho | apply Hk].
Defined.
End Demo.
