(* ===== verification/AuditCapture.v ===== *)
(** * Capturing audit records at the server

    [pkg/audit]: the inner interceptor of [interceptor.go], the outer one of [deny.go] and
    the predicate of [predicate.go], around [AuthUnaryInterceptor] and
    [RecoveryUnaryInterceptor] of [pkg/grpcutil/interceptors.go], chained as
    [NewServer] chains them. Logging changes nothing and is left out. *)

From S2P Require Import Prelude AuditLog.
Open Scope fp_scope.

(** ** Status codes ([google.golang.org/grpc/codes]) *)

Inductive code :=
| OK | Canceled | Unknown | InvalidArgument | DeadlineExceeded | NotFound | AlreadyExists | PermissionDenied
| ResourceExhausted | FailedPrecondition | Aborted | OutOfRange | Unimplemented | Internal | Unavailable | DataLoss | Unauthenticated.

#[export] Instance code_eq_dec : EqDecision code.
Proof. solve_decision. Defined.

Definition code_String (c : code) : string :=
  match c with
  | OK => "OK" | Canceled => "Canceled" | Unknown => "Unknown" | InvalidArgument => "InvalidArgument"
  | DeadlineExceeded => "DeadlineExceeded" | NotFound => "NotFound" | AlreadyExists => "AlreadyExists"
  | PermissionDenied => "PermissionDenied" | ResourceExhausted => "ResourceExhausted" | FailedPrecondition => "FailedPrecondition"
  | Aborted => "Aborted" | OutOfRange => "OutOfRange" | Unimplemented => "Unimplemented" | Internal => "Internal"
  | Unavailable => "Unavailable" | DataLoss => "DataLoss" | Unauthenticated => "Unauthenticated"
  end.

(** An error of a call: a status, or an error that carries none. *)
Inductive rpc_error := Status (c : code) (message : string) | Plain.

Definition status_Code {A} (r : result A rpc_error) : code :=
  match r with Ok _ => OK | Err (Status c _) => c | Err Plain => Unknown end.

(** ** Contexts and calls *)

Record Claims := { c_UserID : string; c_Email : string; c_Team : string; c_Role : string; c_Scopes : list string }.

(** What a context carries: the values of the authorization header ([None] without
    metadata), the claims, the correlation id, and whether the marker is installed. *)
Record call_ctx := { authorization : option (list string); ctx_claims : option Claims; correlation : option string; marked : bool }.

Definition contextWithClaims (ctx : call_ctx) (c : Claims) : call_ctx :=
  {| authorization := authorization ctx; ctx_claims := Some c; correlation := correlation ctx; marked := marked ctx |}.

(** ** What is audited (predicate.go) *)

Definition mutatingVerbs : list string :=
  ["Create"; "Update"; "Delete"; "Remove"; "Set"; "Put"; "Assign"; "Revoke"; "Grant"; "Rotate"; "Register"; "Deregister";
   "Promote"; "Rollback"; "Approve"; "Reject"; "Suspend"; "Activate"; "Deactivate"; "Enable"; "Disable"; "Cancel"; "Retry"; "Trigger";
   "Start"; "Stop"; "Pause"; "Resume"].

Definition authVerbs : list string := ["Login"; "Logout"; "Authenticate"].

(** The text after the last slash, "" if there is none or it is last. *)
Fixpoint after_last (sep : ascii) (s : string) : option string :=
  match s with
  | EmptyString => None
  | String c s' => match after_last sep s' with
                   | Some t => Some t
                   | None => if ascii_dec c sep then Some s' else None
                   end
  end.

Definition leafMethod (fullMethod : string) : string := default "" (after_last "/" fullMethod).

Definition isHealthOrReflection (fullMethod : string) : bool :=
  String.prefix "/grpc.health.v1.Health/" fullMethod || String.prefix "/grpc.reflection." fullMethod.

Definition hasAnyPrefix (s : string) (prefixes : list string) : bool := existsb (fun p => String.prefix p s) prefixes.

Definition DefaultSecurityRelevant (fullMethod : string) : bool :=
  let leaf := leafMethod fullMethod in
  if String.eqb leaf "" then false
  else if isHealthOrReflection fullMethod then false
  else if hasAnyPrefix leaf authVerbs then true
  else hasAnyPrefix leaf mutatingVerbs.

Example security_relevant_samples :
  map DefaultSecurityRelevant ["/forgepoint.auth.v1.AuthService/CreateUser"; "/forgepoint.auth.v1.AuthService/Login";
    "/forgepoint.auth.v1.AuthService/ListUsers"; "/grpc.health.v1.Health/Check"; "/x/FrobnicateWidget"; ""; "no-slash"; "/trailing/"]
  = [true; true; false; false; false; false; false; false].
Proof. vm_compute. reflexivity. Qed.

(** ** Records (interceptor.go) *)

Definition isDenyCode (c : code) : bool := match c with Unauthenticated | PermissionDenied => true | _ => false end.

Definition decisionFor (c : code) : string :=
  match c with OK => DecisionAllow | Unauthenticated | PermissionDenied => DecisionDeny | _ => DecisionError end.

Definition actorFromContext (ctx : call_ctx) : Actor :=
  match ctx_claims ctx with
  | None => {| a_UserID := AnonymousActor; a_Email := ""; a_Team := ""; a_Role := "" |}
  | Some c => {| a_UserID := if String.eqb (c_UserID c) "" then AnonymousActor else c_UserID c;
                 a_Email := c_Email c; a_Team := c_Team c; a_Role := c_Role c |}
  end.

Definition correlationID (ctx : call_ctx) : string := default "" (correlation ctx).

Definition sanitizeErr (e : rpc_error) : string :=
  match e with
  | Status c message => if String.eqb message "" then code_String c else message
  | Plain => "non-status error"
  end.

(** [withDefaults] has put the default predicate where none was given. *)
Record Options (Req : Type) := { Source : string; Predicate : string -> bool; ResourceExtractor : option (string -> Req -> string) }.
Arguments Source {Req} o.
Arguments Predicate {Req} o fullMethod.
Arguments ResourceExtractor {Req} o.

(** The world of a call: the clock and the sink, which may fail. *)
Class AuditWorld (W : Type) : Type := {
  clock_now : W -> time * W;
  sink_Record : AuditRecord -> W -> bool * W;
}.

Section capture.
Context {W Req Resp : Type} `{AuditWorld W}.

(** The state of one call: the world, the cell of the marker, and the records handed to the sink. *)
Record rpc := { r_world : W; flag : bool; emitted : list AuditRecord }.

Inductive outcome := Panicked | Answer (r : result Resp rpc_error).

Definition Handler : Type := call_ctx -> Req -> rpc -> outcome * rpc.

Definition record_of_call (opts : Options Req) (ctx : call_ctx) (fullMethod : string) (req : option Req) (r : result Resp rpc_error) (now : time) : AuditRecord := {|
  ar_Actor := actorFromContext ctx; Action := fullMethod;
  Resource := match ResourceExtractor opts, req with Some extract, Some q => extract fullMethod q | _, _ => "" end;
  Decision := decisionFor (status_Code r); GRPCCode := code_String (status_Code r);
  ar_Err := match r with Ok _ => "" | Err e => sanitizeErr e end;
  CorrelationID := correlationID ctx; OccurredAt := now; SourceService := Source opts |}.

Definition buildRecord (opts : Options Req) (ctx : call_ctx) (fullMethod : string) (req : option Req) (r : result Resp rpc_error) (w : W)
    : option AuditRecord * W :=
  if negb (isDenyCode (status_Code r)) && negb (Predicate opts fullMethod) then (None, w)
  else let '(now, w) := clock_now w in (Some (record_of_call opts ctx fullMethod req r now), w).

Definition emit (rec : AuditRecord) (s : rpc) : rpc :=
  let '(_, w) := sink_Record rec (r_world s) in {| r_world := w; flag := flag s; emitted := emitted s ++ [rec] |}.

Definition markAudited (ctx : call_ctx) (s : rpc) : rpc :=
  {| r_world := r_world s; flag := flag s || marked ctx; emitted := emitted s |}.

Definition with_world (w : W) (s : rpc) : rpc := {| r_world := w; flag := flag s; emitted := emitted s |}.

(** The inner interceptor; a stream passes no request to the extractor. *)
Definition audited (opts : Options Req) (fullMethod : string) (seen : Req -> option Req) (handler : Handler) : Handler :=
  fun ctx req s =>
    match handler ctx req s with
    | (Panicked, s) => (Panicked, s)
    | (Answer r, s) =>
        let '(rec, w) := buildRecord opts ctx fullMethod (seen req) r (r_world s) in
        let s := with_world w s in
        (Answer r, match rec with Some rec => emit rec (markAudited ctx s) | None => s end)
    end.

Definition UnaryServerInterceptor (opts : Options Req) (fullMethod : string) : Handler -> Handler := audited opts fullMethod Some.
Definition StreamServerInterceptor (opts : Options Req) (fullMethod : string) : Handler -> Handler := audited opts fullMethod (fun _ => None).

(** ** The outer interceptor (deny.go) *)

Definition contextWithAuditedMarker (ctx : call_ctx) (s : rpc) : call_ctx * rpc :=
  ({| authorization := authorization ctx; ctx_claims := ctx_claims ctx; correlation := correlation ctx; marked := true |},
   {| r_world := r_world s; flag := false; emitted := emitted s |}).

Definition deny_audited (opts : Options Req) (fullMethod : string) (seen : Req -> option Req) (handler : Handler) : Handler :=
  fun ctx req s =>
    let '(markedCtx, s) := contextWithAuditedMarker ctx s in
    match handler markedCtx req s with
    | (Panicked, s) => (Panicked, s)
    | (Answer r, s) =>
        if isDenyCode (status_Code r) && negb (flag s) then
          let '(rec, w) := buildRecord opts markedCtx fullMethod (seen req) r (r_world s) in
          let s := with_world w s in
          (Answer r, match rec with Some rec => emit rec s | None => s end)
        else (Answer r, s)
    end.

Definition DenyUnaryInterceptor (opts : Options Req) (fullMethod : string) : Handler -> Handler := deny_audited opts fullMethod Some.
Definition DenyStreamInterceptor (opts : Options Req) (fullMethod : string) : Handler -> Handler := deny_audited opts fullMethod (fun _ => None).

(** ** Authentication and recovery (pkg/grpcutil) *)

Definition lower (a : ascii) : ascii :=
  let n := N_of_ascii a in if ((65 <=? n) && (n <=? 90))%N then ascii_of_N (n + 32) else a.

(** Whether the text begins with "bearer " in any case, and what follows. *)
Fixpoint strip_scheme (scheme s : string) : option string :=
  match scheme, s with
  | EmptyString, _ => Some s
  | String c scheme, String a s => if ascii_dec (lower a) c then strip_scheme scheme s else None
  | String _ _, EmptyString => None
  end.

Definition extractBearerToken (ctx : call_ctx) : result string rpc_error :=
  match authorization ctx with
  | None => Err (Status Unauthenticated "missing metadata")
  | Some [] => Err (Status Unauthenticated "missing authorization header")
  | Some [value] =>
      match strip_scheme "bearer " value with
      | None => Err (Status Unauthenticated "invalid authorization format, expected 'Bearer <token>'")
      | Some token => if String.eqb token "" then Err (Status Unauthenticated "empty token") else Ok token
      end
  | Some _ => Err (Status Unauthenticated "multiple authorization headers not allowed")
  end.

Definition authenticate (Validate : string -> W -> result Claims rpc_error * W) (ctx : call_ctx) (w : W) : result call_ctx rpc_error * W :=
  match extractBearerToken ctx with
  | Err e => (Err e, w)
  | Ok token =>
      let '(r, w) := Validate token w in
      (match r with
       | Ok claims => Ok (contextWithClaims ctx claims)
       | Err Plain => Err (Status Unauthenticated "invalid token")
       | Err (Status c message) => if isDenyCode c then Err (Status c message) else Err (Status c "authentication service error")
       end, w)
  end.

Definition AuthUnaryInterceptor (Validate : string -> W -> result Claims rpc_error * W) (skipMethods : list string) (fullMethod : string)
    (handler : Handler) : Handler :=
  fun ctx req s =>
    if existsb (String.eqb fullMethod) skipMethods then handler ctx req s
    else
      let '(r, w) := authenticate Validate ctx (r_world s) in
      let s := with_world w s in
      match r with Err e => (Answer (Err e), s) | Ok ctx => handler ctx req s end.

Definition RecoveryUnaryInterceptor (handler : Handler) : Handler :=
  fun ctx req s =>
    match handler ctx req s with
    | (Panicked, s) => (Answer (Err (Status Internal "internal server error")), s)
    | out => out
    end.

(** [NewServer] as the services wire it: recovery, denials, authentication, audit, handler. *)
Definition served (Validate : string -> W -> result Claims rpc_error * W) (skipMethods : list string) (opts : Options Req)
    (fullMethod : string) (handler : Handler) : Handler :=
  RecoveryUnaryInterceptor (DenyUnaryInterceptor opts fullMethod
    (AuthUnaryInterceptor Validate skipMethods fullMethod (UnaryServerInterceptor opts fullMethod handler))).

(** ** One record per call *)

(** The business handler knows nothing of the audit. *)
Definition lift (body : call_ctx -> Req -> W -> outcome * W) : Handler :=
  fun ctx req s => let '(o, w) := body ctx req (r_world s) in (o, with_world w s).

Definition with_marker (ctx : call_ctx) : call_ctx :=
  {| authorization := authorization ctx; ctx_claims := ctx_claims ctx; correlation := correlation ctx; marked := true |}.

Definition admitted (Validate : string -> W -> result Claims rpc_error * W) (skipMethods : list string) (fullMethod : string)
    (ctx : call_ctx) (w : W) : result call_ctx rpc_error * W :=
  if existsb (String.eqb fullMethod) skipMethods then (Ok ctx, w) else authenticate Validate ctx w.

Lemma emit_emitted rec s : emitted (emit rec s) = emitted s ++ [rec] /\ flag (emit rec s) = flag s.
Proof. unfold emit. by destruct (sink_Record rec (r_world s)). Qed.

Lemma buildRecord_spec opts ctx fullMethod req r w :
  exists now w', buildRecord opts ctx fullMethod req r w =
    (if isDenyCode (status_Code r) || Predicate opts fullMethod then Some (record_of_call opts ctx fullMethod req r now) else None, w').
Proof.
  unfold buildRecord. destruct (clock_now w) as [now w']. destruct (isDenyCode _), (Predicate opts fullMethod); cbn;
    first [by exists now, w' | by exists now, w].
Qed.

Lemma authenticate_marked Validate ctx w ctx' w' :
  authenticate Validate ctx w = (Ok ctx', w') -> marked ctx' = marked ctx /\ correlation ctx' = correlation ctx /\ is_Some (ctx_claims ctx').
Proof.
  unfold authenticate. destruct (extractBearerToken ctx); [| done]. destruct (Validate _ w) as [[c|[? ?|]] ?]; [| by destruct (isDenyCode _) |]; [| done].
  intros [= <- _]. split; [done |]. split; [done | by eexists].
Qed.

(** What the records are after an answer of the handler, from the context that reached it. *)
Definition captured (opts : Options Req) (fullMethod : string) (ctx : call_ctx) (req : Req) (r : result Resp rpc_error)
    (before after : list AuditRecord) : Prop :=
  exists now, after = before ++
    (if isDenyCode (status_Code r) || Predicate opts fullMethod then [record_of_call opts ctx fullMethod (Some req) r now] else []).

Lemma audited_spec opts fullMethod body ctx req s : marked ctx = true -> flag s = false ->
  let '(o, s') := UnaryServerInterceptor opts fullMethod (lift body) ctx req s in
  o = (body ctx req (r_world s)).1 /\
  match o with
  | Panicked => emitted s' = emitted s
  | Answer r => flag s' = (isDenyCode (status_Code r) || Predicate opts fullMethod) /\ captured opts fullMethod ctx req r (emitted s) (emitted s')
  end.
Proof.
  intros Hm Hf. unfold UnaryServerInterceptor, audited, lift, captured. destruct (body ctx req (r_world s)) as [[|r] w]; [done |].
  destruct (buildRecord_spec opts ctx fullMethod (Some req) r (r_world (with_world w s))) as (now & w' & ->).
  destruct (isDenyCode (status_Code r) || Predicate opts fullMethod); (split; [done |]).
  - rewrite !(proj2 (emit_emitted _ _)), (proj1 (emit_emitted _ _)). cbn. rewrite Hm, orb_true_r. split; [done | by exists now].
  - split; [done |]. exists now. by rewrite app_nil_r.
Qed.

(** Around a handler that has captured what it answers, or panicked, the outer layers
    change the answer of a panic only. *)
Lemma outer_spec opts fullMethod (seen : Req -> option Req) (handler : Handler) ctx req s :
  let '(o, s') := handler (with_marker ctx) req {| r_world := r_world s; flag := false; emitted := emitted s |} in
  (forall r, o = Answer r -> isDenyCode (status_Code r) = true -> flag s' = true) ->
  RecoveryUnaryInterceptor (deny_audited opts fullMethod seen handler) ctx req s =
    (match o with Panicked => Answer (Err (Status Internal "internal server error")) | o => o end, s').
Proof.
  unfold RecoveryUnaryInterceptor, deny_audited, contextWithAuditedMarker. fold (with_marker ctx).
  destruct (handler _ req _) as [[|r] s']; [done |]. intros Hf. specialize (Hf r eq_refl).
  destruct (isDenyCode (status_Code r)); [| done]. by rewrite Hf.
Qed.

(** An answer of authentication itself: only a denial is recorded, by the outer layer. *)
Lemma rejected_spec opts fullMethod (handler : Handler) ctx req s e s1 :
  handler (with_marker ctx) req {| r_world := r_world s; flag := false; emitted := emitted s |} = (Answer (Err e), s1) ->
  flag s1 = false -> emitted s1 = emitted s ->
  let '(out, s') := RecoveryUnaryInterceptor (DenyUnaryInterceptor opts fullMethod handler) ctx req s in
  out = Answer (Err e) /\
  exists now, emitted s' = emitted s ++
    (if isDenyCode (status_Code (A := Resp) (Err e)) then [record_of_call opts (with_marker ctx) fullMethod (Some req) (Err e) now] else []).
Proof.
  intros Hh Hf He. unfold RecoveryUnaryInterceptor, DenyUnaryInterceptor, deny_audited, contextWithAuditedMarker.
  fold (with_marker ctx). rewrite Hh, Hf. destruct (isDenyCode (status_Code (Err e))) eqn:Ed; cbn [negb andb].
  - destruct (buildRecord_spec opts (with_marker ctx) fullMethod (Some req) (Err e) (r_world s1)) as (now & w' & ->).
    rewrite Ed. cbn [orb]. split; [done |]. exists now. by rewrite (proj1 (emit_emitted _ _)), <- He.
  - split; [done |]. exists 0. by rewrite app_nil_r.
Qed.

(** Every call is audited as promised, whichever layer answered: a call that
    authentication rejects as a denial leaves one record, of the anonymous actor; a call
    that reached the handler leaves one record, of the caller that authentication
    found (nobody on the methods it skips), exactly if it was denied or its method is
    security relevant; and the answer is the handler's, unchanged. A handler that panics
    leaves no record, and an internal error as the answer. *)
Theorem call_audited_once Validate skipMethods opts fullMethod body ctx req s :
  let '(out, s') := served Validate skipMethods opts fullMethod (lift body) ctx req s in
  match admitted Validate skipMethods fullMethod (with_marker ctx) (r_world s) with
  | (Err e, _) =>
      out = Answer (Err e) /\
      exists now, emitted s' = emitted s ++
        (if isDenyCode (status_Code (A := Resp) (Err e)) then [record_of_call opts (with_marker ctx) fullMethod (Some req) (Err e) now] else [])
  | (Ok ctx', w) =>
      match (body ctx' req w).1 with
      | Panicked => out = Answer (Err (Status Internal "internal server error")) /\ emitted s' = emitted s
      | Answer r => out = Answer r /\ captured opts fullMethod ctx' req r (emitted s) (emitted s')
      end
  end.
Proof.
  unfold served. set (s1 := {| r_world := r_world s; flag := false; emitted := emitted s |}).
  set (inner := AuthUnaryInterceptor _ _ _ _).
  destruct (admitted Validate skipMethods fullMethod (with_marker ctx) (r_world s)) as [[ctx'|e] w] eqn:Ea.
  - assert (marked ctx' = true /\ inner (with_marker ctx) req s1 =
      UnaryServerInterceptor opts fullMethod (lift body) ctx' req (with_world w s1)) as [Hm Hi].
    { unfold admitted in Ea. unfold inner, AuthUnaryInterceptor. destruct (existsb _ skipMethods).
      - injection Ea as <- <-. done.
      - change (r_world s1) with (r_world s). rewrite Ea. split; [| done]. by destruct (authenticate_marked _ _ _ _ _ Ea) as [-> _]. }
    pose proof (audited_spec opts fullMethod body ctx' req (with_world w s1) Hm eq_refl) as Hs.
    pose proof (outer_spec opts fullMethod Some inner ctx req s) as Ho. fold s1 in Ho. rewrite Hi in Ho.
    destruct (UnaryServerInterceptor _ _ _ _ _ _) as [o s2]. destruct Hs as [Hb Hs]. change (r_world (with_world w s1)) with w in Hb.
    rewrite <- Hb. unfold DenyUnaryInterceptor. rewrite Ho.
    + by destruct o as [|r]; [| destruct Hs].
    + intros r -> Hd. destruct Hs as [-> _]. by rewrite Hd.
  - apply (rejected_spec opts fullMethod inner ctx req s e (with_world w s1)); [| done | done].
    unfold admitted in Ea. unfold inner, AuthUnaryInterceptor. destruct (existsb _ skipMethods); [done |].
    fold s1. change (r_world s1) with (r_world s). by rewrite Ea.
Qed.
End capture.
Arguments rpc W : clear implicits.
Arguments outcome Resp : clear implicits.
Arguments Handler W Req Resp : clear implicits.

(** ** Calls to the auth service *)

Module Demo.
Definition world := unit.
#[export] Instance world_calls : AuditWorld world := {| clock_now w := (7 * Second, w); sink_Record _ w := (true, w) |}.

Definition opts : Options unit := {| Source := "auth"; Predicate := DefaultSecurityRelevant; ResourceExtractor := None |}.
Definition validate (token : string) (w : world) : result Claims rpc_error * world :=
  (if String.eqb token "good" then Ok {| c_UserID := "u1"; c_Email := "ada@fp.io"; c_Team := "ml"; c_Role := "admin"; c_Scopes := [] |}
   else Err (Status Unauthenticated "invalid token"), w).
Definition skipped : list string := ["/forgepoint.auth.v1.AuthService/Login"].

(** The actor, decision and code of the records of a call, and the code of its answer. *)
Definition trail (fullMethod : string) (header : option (list string)) (o : outcome unit) : list (string * string * string) * option code :=
  let '(out, s) := served validate skipped opts fullMethod (lift (fun _ _ w => (o, w)))
    {| authorization := header; ctx_claims := None; correlation := None; marked := false |} tt {| r_world := tt; flag := false; emitted := [] |} in
  (map (fun r => (a_UserID (ar_Actor r), Decision r, GRPCCode r)) (emitted s),
   match out with Answer r => Some (status_Code r) | Panicked => None end).

Definition create_user := "/forgepoint.auth.v1.AuthService/CreateUser".
Definition login := "/forgepoint.auth.v1.AuthService/Login".

Example trails :
  [trail create_user None (Answer (Ok tt));
   trail create_user (Some ["Bearer good"]) (Answer (Ok tt));
   trail create_user (Some ["bearer good"]) (Answer (Err (Status PermissionDenied "admin permission required")));
   trail "/forgepoint.auth.v1.AuthService/ListUsers" (Some ["Bearer good"]) (Answer (Err (Status NotFound "")));
   trail login None (Answer (Ok tt));
   trail create_user (Some ["Bearer good"]) Panicked]
  = [([("anonymous", "DENY", "Unauthenticated")], Some Unauthenticated);
     ([("u1", "ALLOW", "OK")], Some OK);
     ([("u1", "DENY", "PermissionDenied")], Some PermissionDenied);
     ([], Some NotFound);
     ([("anonymous", "ALLOW", "OK")], Some OK);
     ([], Some Internal)].
Proof. vm_compute. reflexivity. Qed.
End Demo.
