(* ===== verification/AuthModel.v ===== *)
(** * Authentication: data, permissions and tokens

    [services/auth/internal/domain]: the data of [models.go] and [auth_service.go], the
    errors of [errors.go] and [ports.go], the permission matching of
    [auth_service_impl.go] and the tokens of [jwt.go]. The JWT library, bcrypt and the
    Unicode tables are the class [Crypto]; [CryptoLaws] names what the theorems use of
    their documentation. At the end the tables of [repository/postgres], statement by
    statement. *)

From S2P Require Import Prelude Site GoText GoFormat.
Open Scope fp_scope.

(** ** Errors *)

Inductive auth_sentinel :=
| ErrWeakSecret | ErrEmailAlreadyExists | ErrInvalidCredentials | ErrInvalidToken | ErrUserNotFound | ErrRoleNotFound | ErrValidation
| ErrRepoNotFound | ErrRepoEmailExists.

#[export] Instance auth_sentinels : Sentinels auth_sentinel.
Proof. refine {| sentinel_wraps _ := None |}. solve_decision. Defined.

Abbreviation auth_error := (error auth_sentinel).

(** [fmt.Errorf("%w: ...", ErrValidation)] *)
Definition invalid : auth_error := Wrap "validation" (Sentinel ErrValidation).

(** ** Data (models.go) *)

Record Permission := { p_Resource : string; p_Action : string }.
Record Role := { ro_ID : string; ro_Name : string; Permissions : list Permission; ro_CreatedAt : time }.

Record User := {
  u_ID : string; Email : string; u_Name : string; u_Team : string; u_Role : Role; PasswordHash : string; Active : bool;
  u_CreatedAt : time; u_UpdatedAt : time;
}.

Record APIKey := {
  k_ID : string; k_UserID : string; KeyHash : string; KeyPrefix : string; k_Scopes : list string;
  ExpiresAt : option time; RevokedAt : option time; k_CreatedAt : time;
}.

Definition no_role : Role := {| ro_ID := ""; ro_Name := ""; Permissions := []; ro_CreatedAt := 0 |}.

Definition IsValid (k : APIKey) (now : time) : bool :=
  match RevokedAt k with
  | Some _ => false
  | None => match ExpiresAt k with Some e => negb (time_after now e) | None => true end
  end.

Inductive TokenKind := TokenKindJWT | TokenKindAPIKey.

#[export] Instance TokenKind_eq_dec : EqDecision TokenKind.
Proof. solve_decision. Defined.

Record TokenClaims := {
  t_UserID : string; t_Email : string; t_Name : string; t_Team : string; t_Role : string; t_Scopes : list string;
  t_IssuedAt : time; t_ExpiresAt : time; t_Kind : TokenKind;
}.

Record CreateUserInput := { in_Email : string; in_Name : string; in_Password : string; in_Team : string }.

(** ** Permissions *)

Definition wildcard : string := "*".

Definition permissionMatches (perm : Permission) (resource action : string) : bool :=
  if String.eqb (p_Resource perm) "" || String.eqb (p_Action perm) "" then false
  else
    let resourceOK := String.eqb (p_Resource perm) wildcard || String.eqb (p_Resource perm) resource in
    let actionOK := String.eqb (p_Action perm) wildcard || String.eqb (p_Action perm) action in
    resourceOK && actionOK.

(** [strings.SplitN(scope, ":", 2)] when it has two parts. *)
Fixpoint split_at_colon (s : string) : option (string * string) :=
  match s with
  | EmptyString => None
  | String c s' => if ascii_dec c ":" then Some ("", s')
                   else match split_at_colon s' with Some (a, b) => Some (String c a, b) | None => None end
  end.

Definition scopeMatches (scope resource action : string) : bool :=
  match split_at_colon scope with
  | Some (r, a) => permissionMatches {| p_Resource := r; p_Action := a |} resource action
  | None => false
  end.

Definition rolesAllow (roles : list Role) (resource action : string) : bool :=
  existsb (fun role => existsb (fun perm => permissionMatches perm resource action) (Permissions role)) roles.

Example permission_samples :
  [permissionMatches {| p_Resource := "models"; p_Action := "*" |} "models" "write";
   permissionMatches {| p_Resource := "*"; p_Action := "read" |} "models" "write";
   permissionMatches {| p_Resource := ""; p_Action := "*" |} "" "read";
   scopeMatches "models:read" "models" "read"; scopeMatches "models" "models" "read"; scopeMatches "a:b:c" "a" "b:c"]
  = [true; false; false; true; false; true].
Proof. vm_compute. reflexivity. Qed.

(** ** Tokens (jwt.go) *)

Record jwtClaims := {
  Subject : string; j_IssuedAt : option time; j_ExpiresAt : option time;
  j_Email : string; j_Name : string; j_Team : string; j_Role : string; j_Scopes : list string;
}.

(** [ParseWithClaims methods keyFunc required now token]: the claims, where the algorithm
    is among [methods], [keyFunc] gives its key, the signature verifies, and the claims
    are valid at [now], with an expiry if [required]. *)
Class Crypto : Type := {
  Sign : string -> jwtClaims -> string -> option string;
  ParseWithClaims : list string -> (string -> option string) -> bool -> time -> string -> option jwtClaims;
  NewNumericDate : time -> time;
  CompareHashAndPassword : string -> string -> bool;
  ToLower : string -> string;
}.

Definition signingMethod : string := "HS256".
Definition minHMACSecretBytes : nat := 32.

Definition validateHMACSecret (secret : string) : option auth_error :=
  if (String.length secret <? minHMACSecretBytes)%nat then Some (Sentinel ErrWeakSecret) else None.

Section tokens.
Context `{Crypto}.

Definition GenerateToken (claims : TokenClaims) (secret : string) (ttl : duration) (now : time) : result string auth_error :=
  match validateHMACSecret secret with
  | Some e => Err e
  | None =>
      match Sign signingMethod {| Subject := t_UserID claims; j_IssuedAt := Some (NewNumericDate now);
                                  j_ExpiresAt := Some (NewNumericDate (now + ttl)); j_Email := t_Email claims; j_Name := t_Name claims;
                                  j_Team := t_Team claims; j_Role := t_Role claims; j_Scopes := t_Scopes claims |} secret with
      | None => Err (Wrap "jwt: signing token" (External "jwt"))
      | Some signed => Ok signed
      end
  end.

Definition keyFunc (secret : string) (alg : string) : option string :=
  if String.eqb alg signingMethod then Some secret else None.

Definition ValidateJWT (tokenString secret : string) (now : time) : result TokenClaims auth_error :=
  match validateHMACSecret secret with
  | Some e => Err e
  | None =>
      match ParseWithClaims [signingMethod] (keyFunc secret) true now tokenString with
      | None => Err (Wrap "jwt: token invalid" (External "jwt"))
      | Some c => Ok {| t_UserID := Subject c; t_Email := j_Email c; t_Name := j_Name c; t_Team := j_Team c; t_Role := j_Role c;
                        t_Scopes := j_Scopes c; t_IssuedAt := default 0 (j_IssuedAt c); t_ExpiresAt := default 0 (j_ExpiresAt c);
                        t_Kind := TokenKindJWT |}
      end
  end.

(** [pkg/auth.NewJWTValidator] and its [Validate], for the other services: the identity only. *)
Definition pkg_Validate (secret tokenString : string) (now : time) : option (string * string * string * string * list string) :=
  if (String.length secret <? minHMACSecretBytes)%nat then None
  else match ParseWithClaims [signingMethod] (keyFunc secret) true now tokenString with
  | None => None
  | Some c => Some (Subject c, j_Email c, j_Team c, j_Role c, j_Scopes c)
  end.
End tokens.

(** What the libraries document: a token that parses was signed with the key given for its
    algorithm and has not expired, a signed token parses until it expires, and it starts
    with the base64 of a JSON object. *)
Class CryptoLaws `{Crypto} : Prop := {
  parse_signed methods key required now t c :
    ParseWithClaims methods key required now t = Some c ->
    exists alg secret, alg ∈ methods /\ key alg = Some secret /\ Sign alg c secret = Some t /\
      (required = true -> exists e, j_ExpiresAt c = Some e /\ now < e);
  sign_parses methods key required now t c alg secret e :
    Sign alg c secret = Some t -> alg ∈ methods -> key alg = Some secret -> j_ExpiresAt c = Some e -> now < e ->
    ParseWithClaims methods key required now t = Some c;
  sign_header alg c secret t : Sign alg c secret = Some t -> exists rest, t = "ey" +:+ rest;
}.

(** ** API keys *)

Definition apiKeyPrefix : string := "fp_".
Definition keyPrefixLen : nat := 8.

Definition base64_char (n : Z) : ascii :=
  chr (if n <? 26 then 65 + n else if n <? 52 then 71 + n else if n <? 62 then n - 4 else if n =? 62 then 45 else 95).

(** [base64.RawURLEncoding] *)
Fixpoint base64_groups (bs : list Z) : list Z :=
  match bs with
  | a :: b :: c :: bs => let v := (a * 256 + b) * 256 + c in v / 262144 :: v / 4096 mod 64 :: v / 64 mod 64 :: v mod 64 :: base64_groups bs
  | [a; b] => let v := a * 256 + b in [v / 1024; v / 16 mod 64; v mod 16 * 4]
  | [a] => [a / 4; a mod 4 * 16]
  | [] => []
  end.

Definition base64URLNoPad (s : string) : string := String.string_of_list_ascii (map base64_char (base64_groups (bytes_of s))).

Example base64_samples : map base64URLNoPad [""; "f"; "fo"; "foo"; "foob"; "fooba"; "foobar"; String (chr 251) (String (chr 255) "")]
  = [""; "Zg"; "Zm8"; "Zm9v"; "Zm9vYg"; "Zm9vYmE"; "Zm9vYmFy"; "-_8"].
Proof. vm_compute. reflexivity. Qed.

(** Normalised addresses. *)
Definition normalize `{Crypto} (email : string) : string := ToLower (TrimSpace email).

(** ** Authentication: the PostgreSQL tables

    [services/auth/internal/repository/postgres] over the tables of
    [migrations/001_init_auth_schema.up.sql], one definition per statement. A JSONB
    column holds the permissions that it encodes. Ids and times that the database makes
    are arguments of the inserts. *)
Record user_row := {
  us_id : string; us_email : string; us_name : string; us_team : string; us_password_hash : string; us_active : bool;
  us_created_at : time; us_updated_at : time;
}.

Record auth_db := { users : list user_row; roles : list Role; user_roles : gmap string string; api_keys : list APIKey }.

(** PostgreSQL's comparison of CITEXT and its syntax of UUID. *)
Class AuthColumns : Type := { citext : string -> string; is_uuid : string -> bool }.

Section tables.
Context `{AuthColumns}.

Definition user_by_id (d : auth_db) (id : string) : option user_row := List.find (fun u => String.eqb (us_id u) id) (users d).
Definition role_by_id (d : auth_db) (id : string) : option Role := List.find (fun r => String.eqb (ro_ID r) id) (roles d).

(** The LEFT JOINs of [userSelectColumns], and [scanUserWithRole]. *)
Definition scanUserWithRole (d : auth_db) (u : user_row) : User := {|
  u_ID := us_id u; Email := us_email u; u_Name := us_name u; u_Team := us_team u;
  u_Role := match user_roles d !! us_id u with
            | Some role_id => match role_by_id d role_id with Some r => r | None => no_role end
            | None => no_role
            end;
  PasswordHash := us_password_hash u; Active := us_active u; u_CreatedAt := us_created_at u; u_UpdatedAt := us_updated_at u |}.

Definition found_user (d : auth_db) (u : option user_row) : result User auth_error :=
  match u with Some u => Ok (scanUserWithRole d u) | None => Err (Sentinel ErrRepoNotFound) end.

(** A value that is no UUID is an error of the statement. *)
Definition uuid_or {A} (id : string) (r : result A auth_error) : result A auth_error :=
  if is_uuid id then r else Err (External "invalid input syntax for type uuid").

Definition GetByID (id : string) (d : auth_db) : result User auth_error := uuid_or id (found_user d (user_by_id d id)).

Definition GetByEmail (email : string) (d : auth_db) : result User auth_error :=
  found_user d (List.find (fun u => String.eqb (citext (us_email u)) (citext email)) (users d)).

(** [UserRepo.Create] *)
Definition CreateUserRow (id : string) (now : time) (user : User) (d : auth_db) : result User auth_error * auth_db :=
  if existsb (fun u => String.eqb (us_id u) id || String.eqb (citext (us_email u)) (citext (Email user))) (users d)
  then (Err (Sentinel ErrRepoEmailExists), d)
  else
    (Ok {| u_ID := id; Email := Email user; u_Name := u_Name user; u_Team := u_Team user; u_Role := u_Role user;
           PasswordHash := PasswordHash user; Active := Active user; u_CreatedAt := now; u_UpdatedAt := now |},
     {| users := users d ++ [{| us_id := id; us_email := Email user; us_name := u_Name user; us_team := u_Team user;
                                us_password_hash := PasswordHash user; us_active := Active user; us_created_at := now; us_updated_at := now |}];
        roles := roles d; user_roles := user_roles d; api_keys := api_keys d |}).

Definition GetByName (name : string) (d : auth_db) : result Role auth_error :=
  match List.find (fun r => String.eqb (ro_Name r) name) (roles d) with
  | Some r => Ok r
  | None => Err (Sentinel ErrRepoNotFound)
  end.

(** INSERT ... ON CONFLICT (user_id) DO UPDATE, with its foreign keys *)
Definition AssignToUser (userID roleID : string) (d : auth_db) : result unit auth_error * auth_db :=
  if negb (is_uuid userID && is_uuid roleID) then (Err (Wrap "assigning role to user" (External "invalid input syntax for type uuid")), d)
  else match user_by_id d userID, role_by_id d roleID with
  | Some _, Some _ =>
      (Ok tt, {| users := users d; roles := roles d; user_roles := <[userID := roleID]> (user_roles d); api_keys := api_keys d |})
  | _, _ => (Err (Sentinel ErrRepoNotFound), d)
  end.

(** The inner join; a user has one row of [user_roles] at most, so ORDER BY has nothing to order. *)
Definition GetUserRoles (userID : string) (d : auth_db) : result (list Role) auth_error :=
  uuid_or userID (Ok (match user_roles d !! userID with
                      | Some role_id => match role_by_id d role_id with Some r => [r] | None => [] end
                      | None => []
                      end)).

(** [APIKeyRepo.Create]; [RevokedAt] is no column of the insert. *)
Definition CreateKeyRow (id : string) (now : time) (key : APIKey) (d : auth_db) : result APIKey auth_error * auth_db :=
  if negb (is_uuid (k_UserID key)) then (Err (Wrap "inserting api key" (External "invalid input syntax for type uuid")), d)
  else if existsb (fun k => String.eqb (k_ID k) id || String.eqb (KeyHash k) (KeyHash key)) (api_keys d)
  then (Err (Wrap "inserting api key" (External "unique violation")), d)
  else match user_by_id d (k_UserID key) with
  | None => (Err (Sentinel ErrRepoNotFound), d)
  | Some _ =>
      let row := {| k_ID := id; k_UserID := k_UserID key; KeyHash := KeyHash key; KeyPrefix := KeyPrefix key; k_Scopes := k_Scopes key;
                    ExpiresAt := timestamptz <$> ExpiresAt key; RevokedAt := None; k_CreatedAt := now |} in
      (Ok {| k_ID := id; k_UserID := k_UserID key; KeyHash := KeyHash key; KeyPrefix := KeyPrefix key; k_Scopes := k_Scopes key;
             ExpiresAt := ExpiresAt key; RevokedAt := RevokedAt key; k_CreatedAt := now |}, {| users := users d; roles := roles d; user_roles := user_roles d; api_keys := api_keys d ++ [row] |})
  end.

Definition GetByKeyHash (keyHash : string) (d : auth_db) : result APIKey auth_error :=
  match List.find (fun k => String.eqb (KeyHash k) keyHash) (api_keys d) with
  | Some k => Ok k
  | None => Err (Sentinel ErrRepoNotFound)
  end.

Definition revoked_at (now : time) (k : APIKey) : APIKey := {|
  k_ID := k_ID k; k_UserID := k_UserID k; KeyHash := KeyHash k; KeyPrefix := KeyPrefix k; k_Scopes := k_Scopes k;
  ExpiresAt := ExpiresAt k; RevokedAt := Some (timestamptz now); k_CreatedAt := k_CreatedAt k |}.

Definition Revoke (keyID : string) (now : time) (d : auth_db) : result unit auth_error * auth_db :=
  if negb (is_uuid keyID) then (Err (Wrap "revoking api key" (External "invalid input syntax for type uuid")), d)
  else if existsb (fun k => String.eqb (k_ID k) keyID) (api_keys d)
  then (Ok tt, {| users := users d; roles := roles d; user_roles := user_roles d;
                  api_keys := map (fun k => if String.eqb (k_ID k) keyID then revoked_at now k else k) (api_keys d) |})
  else (Err (Sentinel ErrRepoNotFound), d).
End tables.
