(* ===== verification/Auth.v ===== *)
(** * The auth service

    [services/auth/internal]: the operations of [domain/auth_service_impl.go] and
    [domain/bootstrap.go] as programs of store calls, clock readings and random bytes, the
    decorator of [events/service_decorator.go], the token validator of
    [authn/validator.go], and the calls of [handler/auth_handler_rpcs.go]. What protobuf
    messages carry of their results is not kept. *)

From S2P Require Import Prelude Concur Site GoText GoFormat AuditCapture AuthModel.
Open Scope fp_scope.

(** What the decorator publishes. *)
Inductive auth_event :=
| UserCreated (userID email name team role : string)
| APIKeyRotated (keyID userID keyPrefix : string) (scopes : list string) (replaced : string).

(** bcrypt's salted hash ([None] is an error), [crypto/rand] and the bus. *)
Class AuthOutside (W : Type) : Type := {
  GenerateFromPassword : string -> W -> option string * W;
  rand_Read : nat -> W -> option string * W;
  publish : auth_event -> W -> bool * W;
}.

Section service.
Context {W : Type} `{Outside W} `{AuthOutside W} `{Crypto} `{AuthColumns}.
(** The signing key and the lifetime of tokens. *)
Context (jwtSecret : string) (jwtTTL : duration).

Abbreviation call := (prog (site W auth_db)).
Abbreviation answer A := (call (result A auth_error)).

Definition as_is (e : auth_error) : auth_error := e.

(** A statement whose row gets its id and times from the database. *)
Definition insert {R} (f : string -> time -> auth_db -> result R auth_error * auth_db) : answer R :=
  do! id := ask NewID in
  do! now := ask Now in
  transact (f id (timestamptz now)).

(** ** Accounts *)

Definition CreateUser (input : CreateUserInput) : answer User :=
  let email := normalize (in_Email input) in
  if String.eqb email "" then Ret (Err invalid)
  else if String.eqb (in_Password input) "" then Ret (Err invalid)
  else if (72 <? String.length (in_Password input))%nat then Ret (Err invalid)
  else
    do! hash := ask (GenerateFromPassword (in_Password input)) in
    match hash with
    | None => Ret (Err (Wrap "hashing password" (External "bcrypt")))
    | Some hash =>
        do! created := insert (fun id now => CreateUserRow id now {|
          u_ID := ""; Email := email; u_Name := TrimSpace (in_Name input); u_Team := in_Team input; u_Role := no_role;
          PasswordHash := hash; Active := true; u_CreatedAt := 0; u_UpdatedAt := 0 |}) in
        Ret (match created with
             | Ok u => Ok u
             | Err e => Err (if errors_is e ErrRepoEmailExists then Sentinel ErrEmailAlreadyExists else Wrap "creating user" e)
             end)
    end.

Definition claims_of (user : User) : TokenClaims := {|
  t_UserID := u_ID user; t_Email := Email user; t_Name := u_Name user; t_Team := u_Team user; t_Role := ro_Name (u_Role user);
  t_Scopes := []; t_IssuedAt := 0; t_ExpiresAt := 0; t_Kind := TokenKindJWT |}.

Definition Login (email password : string) : answer string :=
  do! user := query (fun _ => GetByEmail (normalize email)) in
  match user with
  | Err e => Ret (Err (if errors_is e ErrRepoNotFound then Sentinel ErrInvalidCredentials else Wrap "looking up user" e))
  | Ok user =>
      if negb (CompareHashAndPassword (PasswordHash user) password) then Ret (Err (Sentinel ErrInvalidCredentials))
      else if negb (Active user) then Ret (Err (Sentinel ErrInvalidCredentials))
      else
        do! now := ask Now in
        Ret (match GenerateToken (claims_of user) jwtSecret jwtTTL now with
             | Ok token => Ok token
             | Err e => Err (Wrap "issuing token" e)
             end)
  end.

(** ** API keys *)

Definition apiKeySecretBytes : nat := 32.

Definition CreateAPIKey (userID : string) (scopes : list string) (expiresAt : option time) : answer (APIKey * string) :=
  if String.eqb (TrimSpace userID) "" then Ret (Err invalid)
  else
    do! secret := ask (rand_Read apiKeySecretBytes) in
    match secret with
    | None => Ret (Err (Wrap "generating api key entropy" (External "rand")))
    | Some secret =>
        let rawKey := apiKeyPrefix +:+ base64URLNoPad secret in
        do! stored := insert (fun id now => CreateKeyRow id now {|
          k_ID := ""; k_UserID := userID; KeyHash := sha256_hex rawKey; KeyPrefix := String.substring 0 keyPrefixLen rawKey;
          k_Scopes := scopes; ExpiresAt := expiresAt; RevokedAt := None; k_CreatedAt := 0 |}) in
        Ret (match stored with Ok k => Ok (k, rawKey) | Err e => Err (Wrap "storing api key" e) end)
    end.

Definition validateAPIKey (rawKey : string) : answer TokenClaims :=
  let keyHash := sha256_hex rawKey in
  do! stored := query (fun _ => GetByKeyHash keyHash) in
  match stored with
  | Err _ => Ret (Err (Sentinel ErrInvalidToken))
  | Ok stored =>
      if negb (String.eqb (KeyHash stored) keyHash) then Ret (Err (Sentinel ErrInvalidToken))
      else
        do! now := ask Now in
        Ret (if negb (IsValid stored now) then Err (Sentinel ErrInvalidToken)
             else Ok {| t_UserID := k_UserID stored; t_Email := ""; t_Name := ""; t_Team := ""; t_Role := ""; t_Scopes := k_Scopes stored;
                        t_IssuedAt := k_CreatedAt stored; t_ExpiresAt := 0; t_Kind := TokenKindAPIKey |})
  end.

Definition ValidateToken (token : string) : answer TokenClaims :=
  if String.eqb token "" then Ret (Err (Sentinel ErrInvalidToken))
  else if String.prefix apiKeyPrefix token then validateAPIKey token
  else
    do! now := ask Now in
    Ret (match ValidateJWT token jwtSecret now with Ok c => Ok c | Err _ => Err (Sentinel ErrInvalidToken) end).

(** ** Decisions *)

Definition roleAllows (userID resource action : string) : answer bool :=
  do! roles := query (fun _ => GetUserRoles userID) in
  Ret (match roles with Ok roles => Ok (rolesAllow roles resource action) | Err e => Err (Wrap "loading user roles" e) end).

Definition CheckPermission (userID resource action : string) : answer bool :=
  if String.eqb resource "" || String.eqb action "" then Ret (Ok false)
  else
    do! user := query (fun _ => GetByID userID) in
    match user with
    | Err e => Ret (if errors_is e ErrRepoNotFound then Ok false else Err (Wrap "loading user" e))
    | Ok user => if negb (Active user) then Ret (Ok false) else roleAllows userID resource action
    end.

Definition CheckPermissionForClaims (claims : TokenClaims) (resource action : string) : answer bool :=
  do! allowed := CheckPermission (t_UserID claims) resource action in
  Ret (match allowed with
       | Ok true => if negb (bool_decide (t_Kind claims = TokenKindAPIKey)) then Ok true
                    else Ok (existsb (fun scope => scopeMatches scope resource action) (t_Scopes claims))
       | r => r
       end).

Definition AssignRole (userID roleName : string) : answer unit :=
  do! user := query (fun _ => GetByID userID) in
  match user with
  | Err e => Ret (Err (if errors_is e ErrRepoNotFound then Sentinel ErrUserNotFound else Wrap "looking up user" e))
  | Ok _ =>
      do! role := query (fun _ => GetByName roleName) in
      match role with
      | Err e => Ret (Err (if errors_is e ErrRepoNotFound then Sentinel ErrRoleNotFound else Wrap "looking up role" e))
      | Ok role =>
          do! r := transact (AssignToUser userID (ro_ID role)) in
          Ret (match r with Ok _ => Ok tt | Err e => Err (Wrap "assigning role" e) end)
      end
  end.

(** ** The first administrator (bootstrap.go) *)

Definition adminRoleName : string := "admin".

Definition BootstrapAdmin (email password : string) : answer (User * bool) :=
  let normEmail := normalize email in
  if String.eqb normEmail "" then Ret (Err invalid)
  else if String.eqb password "" then Ret (Err invalid)
  else
    do! existing := query (fun _ => GetByEmail normEmail) in
    match existing with
    | Ok user => Ret (Ok (user, false))
    | Err e =>
        if negb (errors_is e ErrRepoNotFound) then Ret (Err (Wrap "bootstrap: checking for existing admin" e))
        else
          do! created := CreateUser {| in_Email := normEmail; in_Name := "Bootstrap Admin"; in_Password := password; in_Team := "platform" |} in
          match created with
          | Err e =>
              if errors_is e ErrEmailAlreadyExists then
                do! again := query (fun _ => GetByEmail normEmail) in
                Ret (match again with
                     | Ok user => Ok (user, false)
                     | Err e => Err (Wrap "bootstrap: admin existed on create but re-read failed" e)
                     end)
              else Ret (Err (Wrap "bootstrap: creating admin user" e))
          | Ok user =>
              do! r := AssignRole (u_ID user) adminRoleName in
              Ret (match r with
                   | Err e => Err (Wrap "bootstrap: assigning admin role" e)
                   | Ok _ => Ok ({| u_ID := u_ID user; Email := Email user; u_Name := u_Name user; u_Team := u_Team user;
                                    u_Role := {| ro_ID := ""; ro_Name := adminRoleName; Permissions := []; ro_CreatedAt := 0 |};
                                    PasswordHash := PasswordHash user; Active := Active user; u_CreatedAt := u_CreatedAt user; u_UpdatedAt := u_UpdatedAt user |}, true)
                   end)
          end
    end.

(** ** Events (service_decorator.go): a lost event fails nothing *)

Definition eventing_CreateUser (input : CreateUserInput) : answer User :=
  do! r := CreateUser input in
  match r with
  | Err e => Ret (Err e)
  | Ok user =>
      do! _ := ask (publish (UserCreated (u_ID user) (Email user) (u_Name user) (u_Team user) (ro_Name (u_Role user)))) in
      Ret (Ok user)
  end.

Definition eventing_CreateAPIKey (userID : string) (scopes : list string) (expiresAt : option time) : answer (APIKey * string) :=
  do! r := CreateAPIKey userID scopes expiresAt in
  match r with
  | Err e => Ret (Err e)
  | Ok (key, rawKey) =>
      do! _ := ask (publish (APIKeyRotated (k_ID key) (k_UserID key) (KeyPrefix key) (k_Scopes key) "")) in
      Ret (Ok (key, rawKey))
  end.

(** ** The validator of the auth server (authn/validator.go) *)

Definition Validate (token : string) : call (result Claims rpc_error) :=
  do! r := ValidateToken token in
  Ret (match r with
       | Err e => Err (if errors_is e ErrInvalidToken then Status Unauthenticated "invalid token" else Status Internal "authentication backend error")
       | Ok c => Ok {| c_UserID := t_UserID c; c_Email := t_Email c; c_Team := t_Team c; c_Role := t_Role c; c_Scopes := t_Scopes c |}
       end).

(** ** The calls (auth_handler_rpcs.go) *)

Definition toStatusError (e : auth_error) : rpc_error :=
  if errors_is e ErrValidation then Status InvalidArgument "auth: validation failed"
  else if errors_is e ErrEmailAlreadyExists then Status AlreadyExists "a user with that email already exists"
  else if errors_is e ErrUserNotFound then Status NotFound "user not found"
  else if errors_is e ErrRoleNotFound then Status NotFound "role not found"
  else if errors_is e ErrInvalidToken then Status Unauthenticated "invalid token"
  else if errors_is e ErrInvalidCredentials then Status Unauthenticated "invalid email or password"
  else Status Internal "internal error".

Inductive auth_request :=
| LoginRequest (email password : string)
| CreateUserRequest (input : CreateUserInput)
| ListUsersRequest (page_size : option Z)
| CreateAPIKeyRequest (user_id : string) (scopes : list string) (expires_at : option time)
| RevokeAPIKeyRequest (key_id : string)
| ValidateTokenRequest (token : string)
| CheckPermissionRequest (user_id resource action : string)
| AssignRoleRequest (user_id role_name : string).

Inductive auth_response :=
| LoginResponse (token : string)
| CreateUserResponse (user : User)
| CreateAPIKeyResponse (rawKey : string) (key : APIKey)
| ValidateTokenResponse (claims : TokenClaims)
| CheckPermissionResponse (allowed : bool)
| AssignRoleResponse.

Abbreviation reply := (result auth_response rpc_error).
Definition refuse (c : code) (message : string) : call reply := Ret (Err (Status c message)).

(** The answer of the service, as a status where it is an error. *)
Definition reply_with {A} (m : answer A) (f : A -> auth_response) : call reply :=
  do! r := m in
  Ret (match r with Ok a => Ok (f a) | Err e => Err (toStatusError e) end).

Definition caller (claims : option Claims) : option string :=
  match claims with Some c => if String.eqb (c_UserID c) "" then None else Some (c_UserID c) | None => None end.

(** [None] lets the call go on. *)
Definition requireAdmin (claims : option Claims) (resource : string) : call (option rpc_error) :=
  match caller claims with
  | None => Ret (Some (Status Unauthenticated "missing authentication"))
  | Some userID =>
      do! allowed := CheckPermission userID resource "admin" in
      Ret (match allowed with
           | Err e => Some (toStatusError e)
           | Ok false => Some (Status PermissionDenied "admin permission required")
           | Ok true => None
           end)
  end.

Definition admin_only (claims : option Claims) (resource : string) (k : call reply) : call reply :=
  do! refused := requireAdmin claims resource in
  match refused with Some e => Ret (Err e) | None => k end.

Definition handler_CreateAPIKey (claims : option Claims) (user_id : string) (scopes : list string) (expires_at : option time) : call reply :=
  match caller claims with
  | None => refuse Unauthenticated "missing authentication"
  | Some userID =>
      let create ownerID := reply_with (eventing_CreateAPIKey ownerID scopes expires_at) (fun kr => CreateAPIKeyResponse kr.2 kr.1) in
      if negb (String.eqb user_id "") && negb (String.eqb user_id userID) then
        do! allowed := CheckPermission userID "api-keys" "admin" in
        match allowed with
        | Err e => Ret (Err (toStatusError e))
        | Ok false => refuse PermissionDenied "admin permission required to create an API key for another user"
        | Ok true => create user_id
        end
      else create userID
  end.

Definition handle (claims : option Claims) (q : auth_request) : call reply :=
  match q with
  | LoginRequest email password =>
      if String.eqb email "" then refuse InvalidArgument "email is required"
      else if String.eqb password "" then refuse InvalidArgument "password is required"
      else reply_with (Login email password) LoginResponse
  | CreateUserRequest input =>
      admin_only claims "users" (
        if String.eqb (in_Email input) "" then refuse InvalidArgument "email is required"
        else if String.eqb (in_Password input) "" then refuse InvalidArgument "password is required"
        else if String.eqb (in_Team input) "" then refuse InvalidArgument "team is required"
        else reply_with (eventing_CreateUser input) CreateUserResponse)
  | ListUsersRequest page_size =>
      admin_only claims "users" (
        if match page_size with Some n => n <? 0 | None => false end then refuse InvalidArgument "page_size must not be negative"
        else refuse Unimplemented "ListUsers is not yet implemented")
  | CreateAPIKeyRequest user_id scopes expires_at => handler_CreateAPIKey claims user_id scopes expires_at
  | RevokeAPIKeyRequest key_id =>
      if String.eqb key_id "" then refuse InvalidArgument "key_id is required"
      else refuse Unimplemented "RevokeAPIKey is not yet implemented"
  | ValidateTokenRequest token =>
      if String.eqb token "" then refuse InvalidArgument "token is required"
      else reply_with (ValidateToken token) ValidateTokenResponse
  | CheckPermissionRequest user_id resource action =>
      if String.eqb user_id "" then refuse InvalidArgument "user_id is required"
      else if String.eqb resource "" then refuse InvalidArgument "resource is required"
      else if String.eqb action "" then refuse InvalidArgument "action is required"
      else reply_with (CheckPermission user_id resource action) CheckPermissionResponse
  | AssignRoleRequest user_id role_name =>
      admin_only claims "users" (
        if String.eqb user_id "" then refuse InvalidArgument "user_id is required"
        else if String.eqb role_name "" then refuse InvalidArgument "role_name is required"
        else reply_with (AssignRole user_id role_name) (fun _ => AssignRoleResponse))
  end.

(** *** A call as the server takes it, with the token of its header (authn/skip.go) *)

Definition PublicMethods (q : auth_request) : bool :=
  match q with LoginRequest _ _ | ValidateTokenRequest _ | CheckPermissionRequest _ _ _ => true | _ => false end.

Definition serve (token : option string) (q : auth_request) : call reply :=
  if PublicMethods q then handle None q
  else match token with
  | None => refuse Unauthenticated "missing authorization header"
  | Some token =>
      do! claims := Validate token in
      match claims with
      | Ok claims => handle (Some claims) q
      | Err (Status c message) => if isDenyCode c then refuse c message else refuse c "authentication service error"
      | Err Plain => refuse Unauthenticated "invalid token"
      end
  end.
End service.
