(* ===== verification/AuthSafety.v ===== *)
(** * Authentication under any interleaving of calls

    What calls of any callers, over a failing database, may change: only appends of users
    and keys and assignments of roles, each behind its gate. *)

From S2P Require Import Prelude Concur Site GoText GoFormat AuditCapture AuthModel Auth.
Open Scope fp_scope.

(** ** The writes of the service *)

Section writes.
Context `{AuthColumns}.
(** Who may change accounts, and whose keys may be made. *)
Variables (may : Prop) (owner : string -> Prop).

Inductive auth_write : auth_db -> auth_db -> Prop :=
| WriteUser id now user d created d' : may -> CreateUserRow id now user d = (Ok created, d') -> auth_write d d'
| WriteRole userID roleID d d' : may -> AssignToUser userID roleID d = (Ok tt, d') -> auth_write d d'
| WriteKey id now key d created d' : owner (k_UserID key) -> CreateKeyRow id now key d = (Ok created, d') -> auth_write d d'.

Definition auth_regime : regime auth_db := {|
  write := auth_write; Site.keeps := rtc auth_write; write_keeps l l' Hw := rtc_once l l' Hw |}.

Lemma CreateUserRow_write id now user d r d' : may -> CreateUserRow id now user d = (r, d') ->
  (d' = d \/ auth_write d d') /\ (forall u, r = Ok u -> auth_write d d').
Proof.
  intros Hm He. pose proof He as He'. unfold CreateUserRow in He'.
  destruct (existsb _ _); injection He' as <- <-; [split; [by left | done] |]. split; [right | intros ? _]; by eapply WriteUser.
Qed.

Lemma AssignToUser_write userID roleID d r d' : may -> AssignToUser userID roleID d = (r, d') -> d' = d \/ auth_write d d'.
Proof.
  intros Hm He. pose proof He as He'. unfold AssignToUser in He'. repeat case_match; simplify_eq; try (by left).
  right. by eapply WriteRole.
Qed.

Lemma CreateKeyRow_write id now key d r d' : owner (k_UserID key) -> CreateKeyRow id now key d = (r, d') ->
  (d' = d \/ auth_write d d').
Proof.
  intros Hm He. pose proof He as He'. unfold CreateKeyRow in He'. repeat case_match; simplify_eq; try (by left).
  right. by eapply WriteKey.
Qed.

(** Without the right to change accounts, the accounts stay. *)
Lemma accounts_kept d d' : ~ may -> rtc auth_write d d' ->
  users d' = users d /\ roles d' = roles d /\ user_roles d' = user_roles d.
Proof.
  intros Hno. induction 1 as [d | d1 d2 d3 Hw _ IH]; [done |]. destruct IH as (-> & -> & ->).
  destruct Hw as [| |? ? ? ? ? ? _ He]; [done | done |]. unfold CreateKeyRow in He. repeat case_match; simplify_eq. done.
Qed.

(** Keys are never changed or removed, and new ones are of their owners. *)
Lemma keys_appended d d' : rtc auth_write d d' ->
  exists added, api_keys d' = api_keys d ++ added /\ Forall (fun k => owner (k_UserID k)) added.
Proof.
  induction 1 as [d | d1 d2 d3 Hw _ (added & -> & Ha)]; [exists []; by rewrite app_nil_r |].
  destruct Hw as [? ? ? ? ? ? _ He | ? ? ? ? _ He | ? ? ? ? ? ? Ho He].
  - unfold CreateUserRow in He. destruct (existsb _ _); simplify_eq. by exists added.
  - unfold AssignToUser in He. repeat case_match; simplify_eq; by exists added.
  - unfold CreateKeyRow in He. repeat case_match; simplify_eq. simpl. rewrite <- app_assoc.
    eexists. split; [reflexivity |]. by constructor.
Qed.
End writes.

(** ** The constraints of the schema *)

Section consistency.
Context `{AuthColumns}.

Record consistent (d : auth_db) : Prop := {
  user_ids_unique : NoDup (map us_id (users d));
  emails_unique : NoDup (map (fun u => citext (us_email u)) (users d));
  role_ids_unique : NoDup (map ro_ID (roles d));
  assignments_known userID roleID : user_roles d !! userID = Some roleID -> is_Some (user_by_id d userID) /\ is_Some (role_by_id d roleID);
  key_ids_unique : NoDup (map k_ID (api_keys d));
  key_hashes_unique : NoDup (map KeyHash (api_keys d));
  keys_owned : Forall (fun k => is_Some (user_by_id d (k_UserID k))) (api_keys d);
}.

Lemma NoDup_snoc_fresh {A} (f : A -> string) l x : NoDup (map f l) -> existsb (fun y => String.eqb (f y) (f x)) l = false -> NoDup (map f (l ++ [x])).
Proof.
  intros Hn Hf. rewrite map_app. apply list.NoDup_app. split; [exact Hn |]. split; [| apply list.NoDup_singleton].
  intros k (y & -> & Hy)%list_elem_of_fmap Hin%list_elem_of_singleton. apply Bool.not_true_iff_false in Hf. apply Hf.
  apply existsb_exists. exists y. split; [by apply list_elem_of_In | by apply String.eqb_eq].
Qed.

Lemma existsb_orb {A} (f g : A -> bool) l : existsb (fun x => f x || g x) l = existsb f l || existsb g l.
Proof. induction l as [|x l IH]; [done |]. simpl. rewrite IH. by destruct (f x), (g x), (existsb f l). Qed.

Lemma find_app_some {A} (f : A -> bool) l l' x : List.find f l = Some x -> List.find f (l ++ l') = Some x.
Proof. induction l as [|y l IH]; [done |]. simpl. by destruct (f y). Qed.

Lemma find_app_none {A} (f : A -> bool) l l' : existsb f l = false -> List.find f (l ++ l') = List.find f l'.
Proof. induction l as [|y l IH]; [done |]. simpl. destruct (f y); [done | exact IH]. Qed.

Lemma known_users_grow d row rest : forall id, is_Some (user_by_id d id) ->
  is_Some (user_by_id {| users := users d ++ [row]; roles := roles d; user_roles := user_roles d; api_keys := rest |} id).
Proof. intros id [u Hu]. exists u. by apply find_app_some. Qed.

Lemma auth_write_consistent may owner d d' : auth_write may owner d d' -> consistent d -> consistent d'.
Proof.
  intros [id now user d1 created d2 _ He | userID roleID d1 d2 _ He | id now key d1 created d2 _ He] [Hu He' Hro Ha Hk Hh Ho].
  - unfold CreateUserRow in He. destruct (existsb _ _) eqn:Ex; [done |]. injection He as _ <-.
    rewrite existsb_orb in Ex. apply orb_false_iff in Ex as [Ei Ee].
    split; simpl; try done.
    + by apply NoDup_snoc_fresh.
    + by apply (NoDup_snoc_fresh (fun u => citext (us_email u))).
    + intros uid rid Hr. destruct (Ha uid rid Hr) as [Hs ?]. split; [by apply known_users_grow | done].
    + eapply Forall_impl; [| exact Ho]. intros k. apply known_users_grow.
  - unfold AssignToUser in He. destruct (negb _); [done |]. destruct (user_by_id d1 userID) eqn:Eu; [| done].
    destruct (role_by_id d1 roleID) eqn:Er; [| done]. injection He as <-. split; simpl; try done.
    intros uid rid. destruct (decide (uid = userID)) as [-> |].
    + rewrite lookup_insert_eq. intros [= <-]. split; unfold user_by_id, role_by_id in *; simpl; eauto.
    + rewrite lookup_insert_ne by done. apply Ha.
  - unfold CreateKeyRow in He. destruct (negb _); [done |]. destruct (existsb _ _) eqn:Ex; [done |].
    destruct (user_by_id d1 (k_UserID key)) eqn:Eu; [| done]. injection He as _ <-.
    rewrite existsb_orb in Ex. apply orb_false_iff in Ex as [Ei Ee]. split; simpl; try done.
    + by apply NoDup_snoc_fresh.
    + by apply NoDup_snoc_fresh.
    + apply list.Forall_app. split; [exact Ho |]. repeat constructor. simpl. eauto.
Qed.

Lemma auth_grow_consistent may owner d d' : rtc (auth_write may owner) d d' -> consistent d -> consistent d'.
Proof. induction 1 as [| d1 d2 d3 Hw _ IH]; [done |]. intros Hc. by eapply IH, auth_write_consistent. Qed.
End consistency.

(** ** Decisions on the tables *)

(** The account is live. *)
Definition live (d : auth_db) (userID : string) : bool :=
  match user_by_id d userID with Some u => us_active u | None => false end.

Definition roles_of (d : auth_db) (userID : string) : list Role :=
  match user_roles d !! userID with
  | Some role_id => match role_by_id d role_id with Some r => [r] | None => [] end
  | None => []
  end.

(** What [CheckPermission] is to decide. *)
Definition permitted (d : auth_db) (userID resource action : string) : bool :=
  negb (String.eqb resource "") && negb (String.eqb action "") && live d userID && rolesAllow (roles_of d userID) resource action.

(** ** Calls among others *)

Section safety.
Context {W : Type} `{Outside W} `{AuthOutside W} `{Crypto} `{AuthColumns}.
Context (jwtSecret : string) (jwtTTL : duration).
Variables (may : Prop) (owner : string -> Prop).

#[local] Notation R := (auth_regime may owner).
#[local] Notation grows := (rtc (auth_write may owner)).
#[local] Notation safe := (Site.safe (W := W) R).

Definition anything {A} (a : A) (d : auth_db) : Prop := True.

Lemma safe_then {A B} base (m : prog (site W auth_db) A) (k : A -> prog (site W auth_db) B) :
  safe base m anything -> (forall a l, grows base l -> safe l (k a) anything) -> safe base (do! x := m in k x) anything.
Proof. intros Hm Hk. eapply safe_seq; [by apply safe_grows |]. intros a l [Hg _]. by apply Hk. Qed.

Lemma safe_done {A} base (a : A) : safe base (Ret a) anything.
Proof. by apply safe_ret. Qed.

Lemma safe_read {A X S} base (f : W -> auth_db -> result X (error S)) (k : result X (error S) -> prog (site W auth_db) A) :
  (forall r l, grows base l -> safe l (k r) anything) -> safe base (do! x := query f in k x) anything.
Proof. intros Hk. apply safe_query. intros l w r Hg _. by apply Hk. Qed.

Lemma safe_asked {A X} base (f : W -> X * W) (k : X -> prog (site W auth_db) A) :
  (forall r, safe base (k r) anything) -> safe base (do! x := ask f in k x) anything.
Proof. apply safe_ask. Qed.

Lemma safe_transacted {A X} base (f : auth_db -> result X auth_error * auth_db) (k : result X auth_error -> prog (site W auth_db) A) :
  (forall l r l', f l = (r, l') -> l' = l \/ auth_write may owner l l') -> (forall r l, grows base l -> safe l (k r) anything) ->
  safe base (do! x := transact f in k x) anything.
Proof.
  intros Hf Hk. apply safe_transact. intros l r l' Hg He. pose proof (Hf l r l' He) as Hw. split; [exact Hw |].
  split; [| intros text; by apply Hk]. apply Hk. destruct Hw as [-> | Hw]; [done | by eapply rtc_r].
Qed.

Lemma auth_safe_insert {X} base (f : string -> time -> auth_db -> result X auth_error * auth_db) :
  (forall id now l r l', f id now l = (r, l') -> l' = l \/ auth_write may owner l l') -> safe base (insert f) anything.
Proof.
  intros Hf. unfold insert. apply safe_asked. intros id. apply safe_asked. intros now.
  apply (safe_transacted base (f id (timestamptz now)) (fun r => Ret r)); [by apply Hf | intros; apply safe_done].
Qed.

(** *** The operations *)

Ltac walk := repeat lazymatch goal with
  | |- Site.safe _ _ (Ret _) _ => apply safe_done
  | |- Site.safe _ _ (pbind (query _) _) _ => apply safe_read; intros ? ? ?
  | |- Site.safe _ _ (pbind (ask _) _) _ => apply safe_asked; intros ?
  | |- Site.safe _ _ (match ?x with _ => _ end) _ => destruct x
  end.

Lemma safe_CreateUser base input : may -> safe base (CreateUser input) anything.
Proof.
  intros Hm. unfold CreateUser. walk. apply safe_then; [| intros ? ? ?; walk].
  apply auth_safe_insert. intros id now l r l' He. by destruct (CreateUserRow_write may owner _ _ _ _ _ _ Hm He).
Qed.

Lemma safe_AssignRole base userID roleName : may -> safe base (AssignRole userID roleName) anything.
Proof.
  intros Hm. unfold AssignRole. walk. apply safe_transacted; [| intros ? ? ?; walk].
  intros l1 r l1'. by apply AssignToUser_write.
Qed.

Lemma safe_CreateAPIKey base userID scopes expiresAt : owner userID -> safe base (CreateAPIKey userID scopes expiresAt) anything.
Proof.
  intros Ho. unfold CreateAPIKey. walk. apply safe_then; [| intros ? ? ?; walk].
  apply auth_safe_insert. intros id now l r l'. by apply CreateKeyRow_write.
Qed.

Lemma safe_Login base email password : safe base (Login jwtSecret jwtTTL email password) anything.
Proof. unfold Login. walk. Qed.

Lemma safe_ValidateToken base token : safe base (ValidateToken jwtSecret token) anything.
Proof. unfold ValidateToken, validateAPIKey. cbv zeta. walk. Qed.

Lemma safe_BootstrapAdmin base email password : may -> safe base (BootstrapAdmin email password) anything.
Proof.
  intros Hm. unfold BootstrapAdmin. cbv zeta. walk. apply safe_then; [by apply safe_CreateUser |]. intros created l' Hg'.
  walk. apply safe_then; [by apply safe_AssignRole | intros ? ? ?; walk].
Qed.

(** A permission answered was seen: the account live, and later its role. *)
Definition witnessed (base : auth_db) (userID resource action : string) : Prop :=
  exists l1 l2, grows base l1 /\ grows l1 l2 /\ live l1 userID = true /\ rolesAllow (roles_of l2 userID) resource action = true.

Lemma safe_CheckPermission base userID resource action :
  safe base (CheckPermission userID resource action) (fun r _ => r = Ok true -> witnessed base userID resource action).
Proof.
  unfold CheckPermission. destruct (_ || _); [by apply safe_ret |]. apply safe_query. intros l1 w user Hg1 Hu.
  destruct user as [user|e]; [| apply safe_ret; intros; by destruct (errors_is _ _)].
  destruct (Active user) eqn:Ea; cbn [negb]; [| by apply safe_ret].
  assert (live l1 userID = true) as Hl.
  { destruct Hu as [Hu | Hu]; [| done]. unfold GetByID, uuid_or, found_user in Hu. destruct (is_uuid userID); [| done].
    unfold live. destruct (user_by_id l1 userID) as [u|]; [| done]. injection Hu as ->. exact Ea. }
  unfold roleAllows. apply safe_query. intros l2 w2 rs Hg2 Hr. apply safe_ret. intros l3 _ Ht.
  destruct rs as [rs|]; [| done]. injection Ht as Ht. exists l1, l2. repeat (split; [done |]).
  destruct Hr as [Hr | Hr]; [| done]. unfold GetUserRoles, uuid_or in Hr. destruct (is_uuid userID); [| done]. by injection Hr as ->.
Qed.

Lemma safe_requireAdmin base claims resource :
  safe base (requireAdmin claims resource)
    (fun r _ => r = None -> exists userID, caller claims = Some userID /\ witnessed base userID resource "admin").
Proof.
  unfold requireAdmin. destruct (caller claims) as [userID|]; [| by apply safe_ret].
  eapply safe_seq; [apply safe_CheckPermission |]. intros r l Hr. apply safe_ret. intros l' _ Hn.
  exists userID. split; [done |]. apply Hr. by destruct r as [[]|].
Qed.

(** What the gates of a caller must justify. *)
Definition justified (base : auth_db) (claims : option Claims) : Prop :=
  forall userID, caller claims = Some userID ->
    owner userID /\
    (witnessed base userID "users" "admin" -> may) /\
    (witnessed base userID "api-keys" "admin" -> forall other, owner other).

Lemma safe_admin_only base claims resource k :
  (forall l userID, grows base l -> caller claims = Some userID -> witnessed base userID resource "admin" -> safe l k anything) ->
  safe base (admin_only claims resource k) anything.
Proof.
  intros Hk. unfold admin_only. eapply safe_seq; [apply safe_grows, safe_requireAdmin |].
  intros [e|] l [Hg Hr]; [apply safe_done |]. destruct (Hr eq_refl) as (userID & Hc & Hw). by eapply Hk.
Qed.

Lemma safe_reply {A} base (m : prog (site W auth_db) (result A auth_error)) f : safe base m anything -> safe base (reply_with m f) anything.
Proof. intros Hm. unfold reply_with. apply safe_then; [done | intros ? ? ?; walk]. Qed.

Lemma auth_safe_handle base claims q : justified base claims -> safe base (handle jwtSecret jwtTTL claims q) anything.
Proof.
  intros Hj. unfold handle, refuse. destruct q as [email password | input | n | user_id scopes e | key | token | u r a | u r]; cbv zeta.
  - walk. apply safe_reply, safe_Login.
  - apply safe_admin_only. intros l userID Hg Hc Hw. walk. apply safe_reply. unfold eventing_CreateUser.
    apply safe_then; [by apply safe_CreateUser, (Hj userID Hc) | intros ? ? ?; walk].
  - apply safe_admin_only. intros. walk.
  - unfold handler_CreateAPIKey, refuse. destruct (caller claims) as [userID|] eqn:Hc; [| walk].
    destruct (Hj userID Hc) as (Ho & _ & Hall).
    assert (forall l other, owner other -> safe l (reply_with (eventing_CreateAPIKey other scopes e) (fun kr => CreateAPIKeyResponse kr.2 kr.1)) anything) as Hkey.
    { intros l other Hoth. apply safe_reply. unfold eventing_CreateAPIKey. apply safe_then; [by apply safe_CreateAPIKey | intros [[key raw]|] ? ?; walk]. }
    destruct (_ && _); [| by apply Hkey]. eapply safe_seq; [apply safe_CheckPermission |].
    intros [[]|] l Hr; [| walk | walk]. by apply Hkey, Hall, Hr.
  - walk.
  - walk. apply safe_reply, safe_ValidateToken.
  - walk. apply safe_reply. eapply safe_weaken; [apply safe_CheckPermission | done].
  - apply safe_admin_only. intros l userID Hg Hc Hw. walk. apply safe_reply, safe_AssignRole. by apply (Hj userID Hc).
Qed.

(** ** Pools of calls *)

(** What changes tables: the calls, and the start of a server. *)
Inductive auth_thread :=
| Call (claims : option Claims) (q : auth_request)
| Bootstrap (email password : string).

Definition run_thread (t : auth_thread) : prog (site W auth_db) unit :=
  match t with
  | Call claims q => do! _ := handle jwtSecret jwtTTL claims q in Ret tt
  | Bootstrap email password => do! _ := BootstrapAdmin email password in Ret tt
  end.

(** The tables only take writes of the regime. *)
Lemma threads_write threads s results s' :
  (forall t, t ∈ threads -> match t with Call claims _ => justified (s_db s) claims | Bootstrap _ _ => may end) ->
  par (map run_thread threads) s results s' -> grows (s_db s) (s_db s').
Proof.
  intros Hj Hpar.
  destruct (safe_par R (map run_thread threads) s results s' (fun _ => anything)) as [Hst _]; [| exact Hpar | by apply (site_steps_keep R)].
  intros i m Hi. rewrite list_lookup_fmap in Hi. destruct (threads !! i) as [t|] eqn:Et; [| done]. injection Hi as <-.
  specialize (Hj t (list_elem_of_lookup_2 _ _ _ Et)). destruct t as [claims q | email password]; cbn [run_thread].
  - apply safe_then; [by apply auth_safe_handle | intros ? ? ?; walk].
  - apply safe_then; [by apply safe_BootstrapAdmin | intros ? ? ?; walk].
Qed.
End safety.

Section pools.
Context {W : Type} `{Outside W} `{AuthOutside W} `{Crypto} `{AuthColumns}.
Context (jwtSecret : string) (jwtTTL : duration).

Definition calls (cs : list (option Claims * auth_request)) : list auth_thread := map (fun c => Call c.1 c.2) cs.

(** [userID] is the caller of one of the calls. *)
Definition calling (cs : list (option Claims * auth_request)) (userID : string) : Prop :=
  exists c, c ∈ cs /\ caller c.1 = Some userID.

Lemma permitted_witnessed d userID resource owner :
  resource <> "" -> witnessed False owner d userID resource "admin" -> permitted d userID resource "admin" = true.
Proof.
  intros Hr (l1 & l2 & Hg1 & Hg2 & Hl & Ha).
  destruct (accounts_kept False owner d l1) as (Hu1 & Hr1 & Hur1); [tauto | done |].
  destruct (accounts_kept False owner l1 l2) as (Hu2 & Hr2 & Hur2); [tauto | done |].
  unfold permitted, live, user_by_id in *. unfold roles_of, role_by_id in *. rewrite Hr2, Hur2, Hr1, Hur1 in Ha. rewrite Hu1 in Hl.
  rewrite Hl, Ha. by destruct (String.eqb_spec resource "").
Qed.

(** C10. Accounts change only by administrators: in every interleaving of any calls over a
    failing database, when no caller is a live user whose role allows "admin" on "users",
    then users, roles and assignments stay as they are; keys are only added, each for a
    caller itself unless some caller administers "api-keys". *)
Theorem only_admins_change_accounts cs s results s' :
  (forall userID, calling cs userID -> permitted (s_db s) userID "users" "admin" = false) ->
  par (map (run_thread jwtSecret jwtTTL) (calls cs)) s results s' ->
  users (s_db s') = users (s_db s) /\ roles (s_db s') = roles (s_db s) /\ user_roles (s_db s') = user_roles (s_db s) /\
  exists added, api_keys (s_db s') = api_keys (s_db s) ++ added /\
    Forall (fun k => calling cs (k_UserID k) \/
              exists userID, calling cs userID /\ permitted (s_db s) userID "api-keys" "admin" = true) added.
Proof.
  intros Hno Hpar. set (owner := fun id => calling cs id \/ exists userID, calling cs userID /\ permitted (s_db s) userID "api-keys" "admin" = true).
  assert (rtc (auth_write False owner) (s_db s) (s_db s')) as Hg.
  { eapply threads_write; [| exact Hpar]. intros t (c & -> & Hc)%list_elem_of_fmap. intros userID Hu. cbn beta.
    assert (calling cs userID) as Hcall by (by exists c). split; [by left |]. split; intros Hw%permitted_witnessed; [| done | | done].
    - by rewrite (Hno userID Hcall) in Hw.
    - intros other. right. by exists userID. }
  destruct (accounts_kept False owner _ _ (fun H => H) Hg) as (? & ? & ?). do 3 (split; [done |]). exact (keys_appended False owner _ _ Hg).
Qed.

(** The tables keep the schema's promises: in every interleaving of any calls and server
    starts over a failing database, ids, addresses (up to CITEXT) and key hashes stay
    unique, an assignment joins a user and a role of the tables, and every key has its
    user. *)
Theorem auth_tables_consistent threads s results s' :
  consistent (s_db s) -> par (map (run_thread jwtSecret jwtTTL) threads) s results s' -> consistent (s_db s').
Proof.
  intros Hc Hpar. eapply (auth_grow_consistent True (fun _ => True)); [| exact Hc]. eapply threads_write; [| exact Hpar].
  intros [claims q | email password] _; [| done]. intros userID _. repeat split; done.
Qed.
End pools.
