(* ===== verification/AuthTokens.v ===== *)
(** * What the auth service answers

    The operations over a database that answers, each exact against the tables: decisions,
    credentials and their round trips, and the first administrator. *)

From S2P Require Import Prelude Concur Site GoText GoFormat AuditCapture AuthModel Auth AuthSafety.
Open Scope fp_scope.

Section answers.
Context {W : Type} `{Outside W} `{AuthOutside W} `{Crypto} `{AuthColumns}.
Context (jwtSecret : string) (jwtTTL : duration).

#[local] Notation at_ w d := {| s_world := w; s_db := d |}.

(** The right answer of a decision for claims. *)
Definition decision (d : auth_db) (c : TokenClaims) (resource action : string) : bool :=
  permitted d (t_UserID c) resource action &&
  match t_Kind c with TokenKindJWT => true | TokenKindAPIKey => existsb (fun scope => scopeMatches scope resource action) (t_Scopes c) end.

Lemma CheckPermission_works userID resource action w d : reliable -> is_uuid userID = true ->
  exists w', run (CheckPermission userID resource action) (at_ w d) = (Ok (permitted d userID resource action), at_ w' d).
Proof.
  intros Hr Hu. unfold CheckPermission, permitted. destruct (String.eqb resource ""), (String.eqb action ""); cbn [orb andb negb]; try by exists w.
  rewrite run_query_works by done. unfold GetByID, uuid_or, found_user, live. rewrite Hu.
  destruct (user_by_id d userID) as [u|]; [| by eexists]. simpl Active. destruct (us_active u); cbn [negb]; [| by eexists].
  unfold roleAllows. rewrite run_query_works by done. unfold GetUserRoles, uuid_or. rewrite Hu. by eexists.
Qed.

(** A decision is exact: with a database that answers, the permission of claims is
    granted exactly when the account is live, its role has a matching permission, and for
    an API key some scope matches too; the tables stay. *)
Theorem permission_decided c resource action w d : reliable -> is_uuid (t_UserID c) = true ->
  exists w', run (CheckPermissionForClaims c resource action) (at_ w d) = (Ok (decision d c resource action), at_ w' d).
Proof.
  intros Hr Hu. destruct (CheckPermission_works (t_UserID c) resource action w d Hr Hu) as [w' He]. exists w'.
  unfold CheckPermissionForClaims, decision. rewrite run_bind, He. by destruct (permitted _ _ _ _), (t_Kind c).
Qed.

(** ** Tokens *)

Definition identity_of (u : User) (issued expires : time) : TokenClaims := {|
  t_UserID := u_ID u; t_Email := Email u; t_Name := u_Name u; t_Team := u_Team u; t_Role := ro_Name (u_Role u); t_Scopes := [];
  t_IssuedAt := issued; t_ExpiresAt := expires; t_Kind := TokenKindJWT |}.

Lemma ey_not_key rest : String.prefix apiKeyPrefix ("ey" +:+ rest) = false.
Proof. done. Qed.

Lemma ValidateJWT_signed `{!CryptoLaws} c t alg_secret now : Sign signingMethod c alg_secret = Some t -> validateHMACSecret alg_secret = None ->
  forall e, j_ExpiresAt c = Some e ->
  ParseWithClaims [signingMethod] (keyFunc alg_secret) true now t = if now <? e then Some c else None.
Proof.
  intros Hs _ e He. destruct (Z.ltb_spec now e) as [Hlt | Hge].
  - eapply sign_parses; [exact Hs | by apply list_elem_of_singleton | done | exact He | exact Hlt].
  - destruct (ParseWithClaims _ _ _ _ _) as [c'|] eqn:Ep; [| done].
    pose proof (parse_signed _ _ _ _ _ _ Ep) as (alg & k & -> %list_elem_of_singleton & Hk & Hs' & Hexp).
    injection Hk as <-. destruct (Hexp eq_refl) as (e' & He' & Hlt). exfalso.
    assert (ParseWithClaims [signingMethod] (keyFunc alg_secret) true (Z.min (e - 1) now) t = Some c) as E1.
    { eapply sign_parses; [exact Hs | by apply list_elem_of_singleton | done | exact He | lia]. }
    assert (ParseWithClaims [signingMethod] (keyFunc alg_secret) true (Z.min (e - 1) now) t = Some c') as E2.
    { eapply sign_parses; [exact Hs' | by apply list_elem_of_singleton | done | exact He' | lia]. }
    rewrite E1 in E2. injection E2 as <-. rewrite He in He'. injection He' as <-. lia.
Qed.

(** A token of [GenerateToken], read back by [ValidateToken]. *)
Lemma issued_token_read `{!CryptoLaws} c token now w d : GenerateToken c jwtSecret jwtTTL now = Ok token ->
  (run (ValidateToken jwtSecret token) (at_ w d)).1 =
    if (Now w).1 <? NewNumericDate (now + jwtTTL)
    then Ok {| t_UserID := t_UserID c; t_Email := t_Email c; t_Name := t_Name c; t_Team := t_Team c; t_Role := t_Role c; t_Scopes := t_Scopes c;
               t_IssuedAt := NewNumericDate now; t_ExpiresAt := NewNumericDate (now + jwtTTL); t_Kind := TokenKindJWT |}
    else Err (Sentinel ErrInvalidToken).
Proof.
  unfold GenerateToken. destruct (validateHMACSecret jwtSecret) eqn:Ev; [done |]. destruct (Sign _ _ _) as [signed|] eqn:Es; [| done].
  intros [= <-]. destruct (sign_header _ _ _ _ Es) as [rest ->]. unfold ValidateToken.
  change (String.eqb ("ey" +:+ rest) "") with false. rewrite ey_not_key. cbv iota.
  rewrite run_ask_at. cbn [run fst]. unfold ValidateJWT. rewrite Ev, (ValidateJWT_signed _ _ _ _ Es Ev _ eq_refl).
  by destruct (_ <? _).
Qed.

Lemma insert_works {X} (f : string -> time -> auth_db -> result X auth_error * auth_db) w d x s' :
  run (insert f) (at_ w d) = (Ok x, s') -> exists id now, f id now d = (Ok x, s_db s').
Proof.
  unfold insert. rewrite !run_ask_at. unfold transact. set (id := (NewID w).1). set (now := (Now _).1). cbn [run atom s_world s_db].
  destruct (link _) as [fate w']. intros He. exists id, (timestamptz now). destruct fate; destruct (f id (timestamptz now) d) as [r l]; by simplify_eq.
Qed.

Lemma CreateUser_made input w d u s' : run (CreateUser input) (at_ w d) = (Ok u, s') ->
  exists id now hash w1 w2, GenerateFromPassword (in_Password input) w1 = (Some hash, w2) /\
    CreateUserRow id now {| u_ID := ""; Email := normalize (in_Email input); u_Name := TrimSpace (in_Name input); u_Team := in_Team input; u_Role := no_role;
      PasswordHash := hash; Active := true; u_CreatedAt := 0; u_UpdatedAt := 0 |} d = (Ok u, s_db s').
Proof.
  unfold CreateUser. cbv zeta. repeat (case_match; [done |]). rewrite run_ask_at.
  destruct (GenerateFromPassword (in_Password input) w) as [[hash|] w2] eqn:Eg; [| done]. cbn [fst snd].
  rewrite run_bind. destruct (run (insert _) _) as [[user|e] s1] eqn:Ei; cbn [run]; [| destruct (errors_is _ _); done].
  intros [= <- <-]. destruct (insert_works _ _ _ _ _ Ei) as (id & now & Hc). by exists id, now, hash, w, w2.
Qed.

(** Users are only appended. *)
Lemma users_appended may owner d d' : rtc (auth_write may owner) d d' -> exists added, users d' = users d ++ added.
Proof.
  induction 1 as [d | d1 d2 d3 Hw _ (added & Ha)]; [exists []; by rewrite app_nil_r |]. rewrite Ha.
  destruct Hw as [? ? ? ? ? ? _ He | ? ? ? ? _ He | ? ? ? ? ? ? Ho He].
  - unfold CreateUserRow in He. destruct (existsb _ _); simplify_eq. simpl. rewrite <- app_assoc. by eexists.
  - unfold AssignToUser in He. repeat case_match; simplify_eq; by exists added.
  - unfold CreateKeyRow in He. repeat case_match; simplify_eq. by exists added.
Qed.

(** The name of the role that the tables give an account, empty when they give none. *)
Definition role_now (d : auth_db) (userID : string) : string :=
  match user_roles d !! userID with
  | Some role_id => match List.find (fun r => String.eqb (ro_ID r) role_id) (roles d) with Some r => ro_Name r | None => "" end
  | None => ""
  end.

(** The row of a user just made is the one found at its address, however the tables grew. *)
Lemma GetByEmail_created id now user d u d1 may owner d' :
  CreateUserRow id now user d = (Ok u, d1) -> rtc (auth_write may owner) d1 d' ->
  exists u', GetByEmail (Email user) d' = Ok u' /\ u_ID u' = id /\ u_ID u = id /\ Email u' = Email user /\ u_Name u' = u_Name user /\
    u_Team u' = u_Team user /\ PasswordHash u' = PasswordHash user /\ Active u' = Active user /\ ro_Name (u_Role u') = role_now d' id.
Proof.
  intros Hc (added & Hadd)%users_appended. unfold CreateUserRow in Hc. destruct (existsb _ _) eqn:Ex; [done |]. injection Hc as <- <-.
  rewrite existsb_orb in Ex. apply orb_false_iff in Ex as [_ Ee]. simpl in Hadd. rewrite <- app_assoc in Hadd.
  unfold GetByEmail. rewrite Hadd, (find_app_none _ _ _ Ee). simpl. rewrite String.eqb_refl.
  eexists. do 7 (split; [done |]). split; [done |]. unfold role_now, scanUserWithRole, role_by_id. cbn [u_Role us_id].
  destruct (user_roles d' !! id); [| done]. by destruct (List.find _ (roles d')).
Qed.

(** C23. An account made can be used: after [CreateUser] answers, with the address and the
    password it was given, over any later tables, [Login] signs a token for the account, in
    the role that the tables give it then (and fails only for a secret under 32 bytes or
    when the signer fails on these very claims), and that token is validated as the identity
    of the account in that role, at every time before it expires and at none after. *)
Theorem account_roundtrip `{!CryptoLaws} input w d u s1 may owner d' w' :
  (forall pw w0 h w1, GenerateFromPassword pw w0 = (Some h, w1) -> CompareHashAndPassword h pw = true) -> reliable ->
  run (CreateUser input) (at_ w d) = (Ok u, s1) -> rtc (auth_write may owner) (s_db s1) d' ->
  let now := (Now (after_link w')).1 in
  let claims := {| Subject := u_ID u; j_IssuedAt := Some (NewNumericDate now); j_ExpiresAt := Some (NewNumericDate (now + jwtTTL));
    j_Email := normalize (in_Email input); j_Name := TrimSpace (in_Name input); j_Team := in_Team input;
    j_Role := role_now d' (u_ID u); j_Scopes := [] |} in
  (run (Login jwtSecret jwtTTL (in_Email input) (in_Password input)) (at_ w' d')).1 =
    (if (String.length jwtSecret <? 32)%nat then Err (Wrap "issuing token" (Sentinel ErrWeakSecret))
     else match Sign "HS256" claims jwtSecret with
          | None => Err (Wrap "issuing token" (Wrap "jwt: signing token" (External "jwt")))
          | Some token => Ok token
          end) /\
  forall token, (run (Login jwtSecret jwtTTL (in_Email input) (in_Password input)) (at_ w' d')).1 = Ok token ->
    forall w2 d2, (run (ValidateToken jwtSecret token) (at_ w2 d2)).1 =
      if (Now w2).1 <? NewNumericDate (now + jwtTTL)
      then Ok {| t_UserID := u_ID u; t_Email := normalize (in_Email input); t_Name := TrimSpace (in_Name input); t_Team := in_Team input;
                 t_Role := role_now d' (u_ID u); t_Scopes := []; t_IssuedAt := NewNumericDate now;
                 t_ExpiresAt := NewNumericDate (now + jwtTTL); t_Kind := TokenKindJWT |}
      else Err (Sentinel ErrInvalidToken).
Proof.
  intros Hpw Hrel Hcu Hg. destruct (CreateUser_made _ _ _ _ _ Hcu) as (id & t & hash & w1 & w2 & Hh & Hrow).
  destruct (GetByEmail_created _ _ _ _ _ _ _ _ _ Hrow Hg) as (u' & Hfind & Hid & Hid' & Hem & Hna & Hte & Hpa & Hac & Hro).
  cbn [Email u_Name u_Team PasswordHash Active] in *. cbv zeta. unfold Login. rewrite run_query_works, Hfind by done.
  rewrite Hpa, (Hpw _ _ _ _ Hh), Hac. cbn [negb]. rewrite run_ask_at. cbn [run fst]. set (now := (Now (after_link w')).1).
  assert (claims_of u' = {| t_UserID := u_ID u; t_Email := normalize (in_Email input); t_Name := TrimSpace (in_Name input);
    t_Team := in_Team input; t_Role := role_now d' (u_ID u); t_Scopes := []; t_IssuedAt := 0; t_ExpiresAt := 0; t_Kind := TokenKindJWT |}) as ->.
  { unfold claims_of. by rewrite Hid, Hid', Hem, Hna, Hte, Hro. }
  split.
  - unfold GenerateToken, validateHMACSecret, minHMACSecretBytes. destruct (_ <? _)%nat; [done |]. by destruct (Sign _ _ _).
  - intros token Ht w3 d3. destruct (GenerateToken _ jwtSecret jwtTTL now) as [signed|e] eqn:Eg; [| done]. injection Ht as ->.
    apply (issued_token_read _ _ _ _ _ Eg).
Qed.

(** ** API keys *)

Lemma CreateAPIKey_made userID scopes expiresAt w d k raw s' : run (CreateAPIKey userID scopes expiresAt) (at_ w d) = (Ok (k, raw), s') ->
  exists id now secret, raw = apiKeyPrefix +:+ base64URLNoPad secret /\
    CreateKeyRow id now {| k_ID := ""; k_UserID := userID; KeyHash := sha256_hex raw; KeyPrefix := String.substring 0 keyPrefixLen raw;
      k_Scopes := scopes; ExpiresAt := expiresAt; RevokedAt := None; k_CreatedAt := 0 |} d = (Ok k, s_db s').
Proof.
  unfold CreateAPIKey. cbv zeta. case_match; [done |]. rewrite run_ask_at.
  destruct (rand_Read apiKeySecretBytes w) as [[secret|] w2]; [| done]. cbn [fst snd].
  rewrite run_bind. destruct (run (insert _) _) as [[key|e] s1] eqn:Ei; cbn [run]; [| done].
  intros [= <- <- <-]. destruct (insert_works _ _ _ _ _ Ei) as (id & now & Hc). by exists id, now, secret.
Qed.

Lemma GetByKeyHash_created id now key d k d1 may owner d' :
  CreateKeyRow id now key d = (Ok k, d1) -> rtc (auth_write may owner) d1 d' ->
  exists k', GetByKeyHash (KeyHash key) d' = Ok k' /\ KeyHash k' = KeyHash key /\ k_UserID k' = k_UserID key /\ k_Scopes k' = k_Scopes key /\
    ExpiresAt k' = timestamptz <$> ExpiresAt key /\ RevokedAt k' = None /\ k_CreatedAt k' = k_CreatedAt k.
Proof.
  intros Hc (added & Hadd & _)%keys_appended. unfold CreateKeyRow in Hc. destruct (negb _); [done |]. destruct (existsb _ _) eqn:Ex; [done |].
  destruct (user_by_id d _); [| done]. injection Hc as <- <-.
  rewrite existsb_orb in Ex. apply orb_false_iff in Ex as [_ Ee]. cbn [api_keys] in Hadd. rewrite <- app_assoc in Hadd.
  unfold GetByKeyHash. rewrite Hadd, (find_app_none _ _ _ Ee). simpl. rewrite String.eqb_refl. by eexists.
Qed.

(** A key made can be used: over any later tables, the token that [CreateAPIKey] answered
    once is validated as its owner with its scopes, at every time up to the expiry that the
    column keeps and at none after. *)
Theorem api_key_roundtrip userID scopes expiresAt w d k raw s1 may owner d' w' : reliable ->
  run (CreateAPIKey userID scopes expiresAt) (at_ w d) = (Ok (k, raw), s1) -> rtc (auth_write may owner) (s_db s1) d' ->
  (run (ValidateToken jwtSecret raw) (at_ w' d')).1 =
    if match expiresAt with Some e => timestamptz e <? (Now (after_link w')).1 | None => false end then Err (Sentinel ErrInvalidToken)
    else Ok {| t_UserID := userID; t_Email := ""; t_Name := ""; t_Team := ""; t_Role := ""; t_Scopes := scopes;
               t_IssuedAt := k_CreatedAt k; t_ExpiresAt := 0; t_Kind := TokenKindAPIKey |}.
Proof.
  intros Hrel Hck Hg. destruct (CreateAPIKey_made _ _ _ _ _ _ _ _ Hck) as (id & t & secret & Hraw & Hrow).
  destruct (GetByKeyHash_created _ _ _ _ _ _ _ _ _ Hrow Hg) as (k' & Hfind & Hh & Hu & Hs & He & Hrv & Hca).
  cbn [KeyHash k_UserID k_Scopes ExpiresAt] in *. unfold ValidateToken.
  assert (String.eqb raw "" = false) as -> by (by rewrite Hraw). assert (String.prefix apiKeyPrefix raw = true) as -> by (rewrite Hraw; by destruct (base64URLNoPad secret)).
  unfold validateAPIKey. cbv zeta. rewrite run_query_works, Hfind by done. rewrite Hh, String.eqb_refl. cbn [negb].
  rewrite run_ask_at. cbn [run fst]. unfold IsValid. rewrite Hrv, He, Hu, Hs, Hca.
  destruct expiresAt as [e|]; [| done]. simpl. unfold time_after. by destruct (_ <? _).
Qed.

(** C25. Every token accepted was issued: over a failing database, what [ValidateToken] answers
    is the owner and scopes of a live key of the tables whose hash the token has, or the
    claims that the service's own key signed into the token, not yet expired. *)
Theorem accepted_tokens_issued `{!CryptoLaws} token w d c s' : run (ValidateToken jwtSecret token) (at_ w d) = (Ok c, s') ->
  s_db s' = d /\
  ((exists k, k ∈ api_keys d /\ KeyHash k = sha256_hex token /\ RevokedAt k = None /\
      (forall e, ExpiresAt k = Some e -> (Now (after_link w)).1 <= e) /\
      t_Kind c = TokenKindAPIKey /\ t_UserID c = k_UserID k /\ t_Scopes c = k_Scopes k) \/
   (exists jc e, Sign signingMethod jc jwtSecret = Some token /\ j_ExpiresAt jc = Some e /\ (Now w).1 < e /\
      t_Kind c = TokenKindJWT /\ t_UserID c = Subject jc /\ t_Role c = j_Role jc /\ t_Scopes c = j_Scopes jc)).
Proof.
  unfold ValidateToken. destruct (String.eqb token ""); [done |]. destruct (String.prefix apiKeyPrefix token).
  - unfold validateAPIKey. cbv zeta. rewrite run_bind. unfold query. rewrite run_atom. cbn [s_world s_db].
    unfold after_link. destruct (link w) as [[] w1]; [| done | done]. unfold GetByKeyHash.
    destruct (List.find _ _) as [k|] eqn:Ef; [| done]. apply List.find_some in Ef as [Hin Hk%String.eqb_eq]. rewrite Hk, String.eqb_refl. cbn [negb].
    rewrite run_ask_at. cbn [run fst snd]. destruct (IsValid k (Now w1).1) eqn:Ev; [| done]. intros [= <- <-]. split; [done |]. left.
    unfold IsValid in Ev. exists k. split; [by apply list_elem_of_In |]. destruct (RevokedAt k); [done |]. repeat (split; [done |]).
    split; [| done]. intros e He. rewrite He in Ev. apply negb_true_iff, Z.ltb_ge in Ev. exact Ev.
  - rewrite run_ask_at. cbn [run fst snd]. unfold ValidateJWT. destruct (validateHMACSecret jwtSecret); [done |].
    destruct (ParseWithClaims _ _ _ _ _) as [jc|] eqn:Ep; [| done]. intros [= <- <-]. split; [done |]. right.
    apply parse_signed in Ep as (alg & k & -> %list_elem_of_singleton & [= <-] & Hs & Hexp).
    destruct (Hexp eq_refl) as (e & He & Hlt). by exists jc, e.
Qed.

(** ** The first administrator *)

(** A start of the server never touches an account that exists: with the address taken,
    [BootstrapAdmin] changes nothing and answers the account as not created, whatever role it
    has or lacks, or fails to read. *)
Theorem bootstrap_keeps_existing email password w d u : normalize email <> "" -> password <> "" -> GetByEmail (normalize email) d = Ok u ->
  let '(r, s') := run (BootstrapAdmin email password) (at_ w d) in
  s_db s' = d /\ (r = Ok (u, false) \/ exists cause, r = Err (Wrap "bootstrap: checking for existing admin" cause)).
Proof.
  intros Hn%String.eqb_neq Hp%String.eqb_neq Hu. unfold BootstrapAdmin. rewrite Hn, Hp. cbv zeta iota.
  rewrite run_bind. unfold query. rewrite run_atom. cbn [s_world s_db]. destruct (link w) as [[] w']; cbn beta iota.
  - rewrite Hu. cbn [run]. split; [done | by left].
  - cbn. split; [done |]. right. by eexists.
  - cbn. split; [done |]. right. by eexists.
Qed.

Lemma role_found d role : NoDup (map ro_ID (roles d)) -> role ∈ roles d -> role_by_id d (ro_ID role) = Some role.
Proof.
  unfold role_by_id. induction (roles d) as [|r rs IH]; intros Hn Hin; [by apply list.not_elem_of_nil in Hin |].
  simpl in *. apply list.NoDup_cons in Hn as [Hni Hn]. apply elem_of_cons in Hin as [-> | Hin]; [by rewrite String.eqb_refl |].
  destruct (String.eqb_spec (ro_ID r) (ro_ID role)) as [He |]; [| by apply IH]. destruct Hni. rewrite He. by apply list_elem_of_fmap_2.
Qed.

Lemma AssignRole_assigned userID roleName w d s' : consistent d -> run (AssignRole userID roleName) (at_ w d) = (Ok tt, s') ->
  users (s_db s') = users d /\ exists role, role ∈ roles d /\ ro_Name role = roleName /\ roles_of (s_db s') userID = [role].
Proof.
  intros Hc. unfold AssignRole. intros (w1 & user & _ & Hrun)%site_run_query. destruct user as [user|]; [| done]. cbn [s_db s_world] in Hrun.
  apply site_run_query in Hrun as (w2 & role & Hr & Hrun). destruct role as [role|]; [| done]. cbn [s_db s_world] in Hrun.
  destruct Hr as [Hr |]; [| done]. unfold GetByName in Hr. cbn [s_db] in Hr. destruct (List.find _ (roles d)) as [role'|] eqn:Ef; [| done]. injection Hr as ->.
  apply List.find_some in Ef as [Hin%list_elem_of_In Hname%String.eqb_eq].
  apply site_run_transact in Hrun as (w3 & r & l & Hw & Hrun). cbn [s_db s_world] in *. destruct Hw as [Hw | [text ->]]; [| done].
  destruct r; [| done]. injection Hrun as <-. unfold AssignToUser in Hw. destruct (negb _); [done |].
  destruct (user_by_id d userID); [| done]. rewrite (role_found d role' (role_ids_unique d Hc) Hin) in Hw. simplify_eq.
  split; [done |]. exists role'. repeat (split; [done |]). unfold roles_of. cbn [s_db user_roles]. rewrite lookup_insert_eq.
  pose proof (role_found d role' (role_ids_unique d Hc) Hin) as Hf. unfold role_by_id in *. cbn [roles]. by rewrite Hf.
Qed.

(** The first administrator is one: when [BootstrapAdmin] answers an account created,
    the account is live and the "admin" role of the tables is its one role. *)
Theorem bootstrap_makes_admin email password w d u s' : consistent d ->
  run (BootstrapAdmin email password) (at_ w d) = (Ok (u, true), s') ->
  live (s_db s') (u_ID u) = true /\
  exists role, role ∈ roles d /\ ro_Name role = adminRoleName /\ roles_of (s_db s') (u_ID u) = [role].
Proof.
  intros Hc. unfold BootstrapAdmin. cbv zeta. do 2 (case_match; [done |]). intros (w1 & existing & _ & Hrun)%site_run_query.
  cbn [s_db s_world] in Hrun. destruct existing as [|e]; [done |]. destruct (negb _); [done |].
  rewrite run_bind in Hrun. destruct (run (CreateUser _) _) as [[user|e'] [w2 d2]] eqn:Ec.
  - destruct (CreateUser_made _ _ _ _ _ Ec) as (id & now & hash & ? & ? & _ & Hrow). cbn [s_db] in Hrow.
    rewrite run_bind in Hrun. destruct (run (AssignRole _ _) _) as [[[]|] s3] eqn:Ea; [| done]. cbn [run] in Hrun. injection Hrun as <- <-.
    assert (consistent d2) as Hc2 by (eapply (auth_write_consistent True (fun _ => True)); [| exact Hc]; by eapply WriteUser).
    destruct (AssignRole_assigned _ _ _ _ _ Hc2 Ea) as (Hus & role & Hin & Hn & Hro). cbn [u_ID].
    unfold CreateUserRow in Hrow. destruct (existsb _ _) eqn:Ex; [done |]. injection Hrow as <- <-. cbn [u_ID users roles] in *.
    rewrite existsb_orb in Ex. apply orb_false_iff in Ex as [Ei _].
    split; [| by exists role]. unfold live, user_by_id. rewrite Hus, (find_app_none _ _ _ Ei). simpl. by rewrite String.eqb_refl.
  - destruct (errors_is _ _); [| done]. apply site_run_query in Hrun as (? & again & _ & Hrun). by destruct again.
Qed.
End answers.
