(* ===== verification/AuthDemo.v ===== *)
(** * Authentication on concrete accounts

    A signer, a hash and a clock that meet the laws, tables with two accounts, and the
    theorems of [AuthSafety] and [AuthTokens] at them. *)

From S2P Require Import Prelude Concur Site GoText GoFormat AuditCapture AuthModel Auth AuthSafety AuthTokens.
Open Scope fp_scope.

(** ** A signer that meets the laws *)

Definition jwt_fields (c : jwtClaims) : list positive :=
  [encode (Subject c); encode (j_IssuedAt c); encode (j_ExpiresAt c); encode (j_Email c); encode (j_Name c); encode (j_Team c); encode (j_Role c);
   encode (j_Scopes c)].
Definition fields_jwt (l : list positive) : option jwtClaims :=
  match l with
  | [su; i; e; em; n; te; ro; sc] =>
      match decode su, decode i, decode e, decode em, decode n, decode te, decode ro, decode sc with
      | Some su, Some i, Some e, Some em, Some n, Some te, Some ro, Some sc =>
          Some {| Subject := su; j_IssuedAt := i; j_ExpiresAt := e; j_Email := em; j_Name := n; j_Team := te; j_Role := ro; j_Scopes := sc |}
      | _, _, _, _, _, _, _, _ => None
      end
  | _ => None
  end.

Lemma fields_jwt_fields c : fields_jwt (jwt_fields c) = Some c.
Proof. unfold fields_jwt, jwt_fields. rewrite !decode_encode. by destruct c. Qed.

(** A signed text: its algorithm, claims and key. *)
Definition signed_text (alg : string) (c : jwtClaims) (secret : string) : list positive := encode alg :: encode secret :: jwt_fields c.
Definition text_signed (l : list positive) : option (string * jwtClaims * string) :=
  match l with
  | a :: s :: l => match decode a, decode s, fields_jwt l with Some alg, Some secret, Some c => Some (alg, c, secret) | _, _, _ => None end
  | _ => None
  end.

Lemma text_signed_text alg c secret : text_signed (signed_text alg c secret) = Some (alg, c, secret).
Proof. unfold text_signed, signed_text. by rewrite !decode_encode, fields_jwt_fields. Qed.

Definition demo_sign (alg : string) (c : jwtClaims) (secret : string) : string := "ey" +:+ pos_text (encode (signed_text alg c secret)).

Definition skip_two (t : string) : string := match t with String _ (String _ rest) => rest | _ => "" end.

Definition demo_parse (methods : list string) (key : string -> option string) (required : bool) (now : time) (t : string) : option jwtClaims :=
  match decode_text (A := list positive) (skip_two t) ≫= text_signed with
  | Some (alg, c, secret) =>
      if bool_decide (alg ∈ methods) && bool_decide (key alg = Some secret) && String.eqb (demo_sign alg c secret) t &&
         match j_ExpiresAt c with Some e => now <? e | None => negb required end
      then Some c else None
  | None => None
  end.

Lemma demo_parse_iff methods key required now t c :
  demo_parse methods key required now t = Some c <->
  exists alg secret, alg ∈ methods /\ key alg = Some secret /\ demo_sign alg c secret = t /\
    match j_ExpiresAt c with Some e => now <? e | None => negb required end = true.
Proof.
  unfold demo_parse. split.
  - destruct (decode_text _ ≫= _) as [[[alg c'] secret]|]; [| done]. destruct (_ && _) eqn:E; [| done]. intros [= <-].
    rewrite !andb_true_iff, !bool_decide_eq_true, String.eqb_eq in E. destruct E as [[[? ?] ?] ?]. by exists alg, secret.
  - intros (alg & secret & Hm & Hk & <- & He). change (skip_two (demo_sign alg c secret)) with (pos_text (encode (signed_text alg c secret))).
    rewrite (decode_encode_text (signed_text alg c secret) _ eq_refl). cbn [mbind option_bind]. rewrite text_signed_text. rewrite He, String.eqb_refl. by rewrite !bool_decide_true.
Qed.

Definition lower (s : string) : string :=
  String.string_of_list_ascii (map (fun c => let n := byte_of c in if (65 <=? n) && (n <=? 90) then chr (n + 32) else c) (String.list_ascii_of_string s)).

#[export] Instance demo_crypto : Crypto := {|
  Sign alg c secret := Some (demo_sign alg c secret); ParseWithClaims := demo_parse; NewNumericDate t := t / Second * Second;
  CompareHashAndPassword h pw := String.eqb h ("bcrypt:" +:+ pw); AuthModel.ToLower := lower |}.

#[export] Instance demo_laws : CryptoLaws.
Proof.
  split.
  - intros methods key required now t c (alg & secret & Hm & Hk & <- & He)%demo_parse_iff. exists alg, secret. repeat (split; [done |]).
    intros ->. destruct (j_ExpiresAt c) as [e|]; [| done]. exists e. split; [done |]. lia.
  - intros methods key required now t c alg secret e [= <-] Hm Hk He Hlt. apply demo_parse_iff. exists alg, secret.
    repeat (split; [done |]). rewrite He. lia.
  - intros alg c secret t [= <-]. by eexists.
Qed.

(** ** Two outsides: one whose database answers, one whose database may fail *)

Definition steady : Type := Z.

#[export] Instance steady_calls : Outside steady := {|
  Now w := (w * Second, w + 1); NewID w := ("id-" +:+ Itoa w, w + 1); link w := (Works, w) |}.
#[export] Instance steady_auth : AuthOutside steady := {|
  GenerateFromPassword pw w := (Some ("bcrypt:" +:+ pw), w); rand_Read _ w := (Some (Itoa w), w + 1); publish _ w := (true, w) |}.

Lemma steady_reliable : reliable (W := steady).
Proof. done. Qed.

Record shaky := { ticks : Z; fates : list fate }.

#[export] Instance shaky_calls : Outside shaky := {|
  Now w := (ticks w * Second, {| ticks := ticks w + 1; fates := fates w |});
  NewID w := ("id-" +:+ Itoa (ticks w), {| ticks := ticks w + 1; fates := fates w |});
  link w := match fates w with [] => (Works, w) | f :: fs => (f, {| ticks := ticks w; fates := fs |}) end |}.
#[export] Instance shaky_auth : AuthOutside shaky := {|
  GenerateFromPassword pw w := (Some ("bcrypt:" +:+ pw), w); rand_Read _ w := (Some (Itoa (ticks w)), w); publish _ w := (false, w) |}.

#[export] Instance demo_columns : AuthColumns := {| citext := lower; is_uuid s := negb (String.eqb s "") |}.

Definition secret : string := "0123456789abcdef0123456789abcdef".

(** ** Two accounts *)

Definition admin_role : Role := {| ro_ID := "r-admin"; ro_Name := "admin"; Permissions := [{| p_Resource := "*"; p_Action := "*" |}]; ro_CreatedAt := 0 |}.
Definition viewer_role : Role := {| ro_ID := "r-viewer"; ro_Name := "viewer"; Permissions := [{| p_Resource := "models"; p_Action := "read" |}]; ro_CreatedAt := 0 |}.

Definition account (id email : string) : user_row := {|
  us_id := id; us_email := email; us_name := id; us_team := "platform"; us_password_hash := "bcrypt:pw"; us_active := true; us_created_at := 0; us_updated_at := 0 |}.

Definition fresh : auth_db := {| users := []; roles := [admin_role; viewer_role]; user_roles := ∅; api_keys := [] |}.
Definition staffed : auth_db := {|
  users := [account "root" "root@fp.io"; account "ann" "ann@fp.io"]; roles := [admin_role; viewer_role];
  user_roles := <["ann" := "r-viewer"]> (<["root" := "r-admin"]> ∅); api_keys := [] |}.

Lemma fresh_consistent : consistent fresh.
Proof. by constructor; try (repeat constructor; set_solver). Qed.

Definition as_user (id : string) (scopes : list string) : option Claims :=
  Some {| c_UserID := id; c_Email := ""; c_Team := ""; c_Role := ""; c_Scopes := scopes |}.

Definition new_account (email : string) : CreateUserInput := {| in_Email := email; in_Name := " Bob "; in_Password := "hunter2"; in_Team := "research" |}.

(** ** Calls of an account that administers nothing *)

Definition annoying : list (option Claims * auth_request) :=
  [(as_user "ann" [], CreateUserRequest (new_account "eve@fp.io")); (as_user "ann" [], AssignRoleRequest "ann" "admin");
   (as_user "ann" [], CreateAPIKeyRequest "" ["models:read"] None); (as_user "ann" [], CreateAPIKeyRequest "root" ["*:*"] None);
   (None, CreateUserRequest (new_account "eve@fp.io"))].

Lemma only_admins_change_accounts_witness :
  let final := run_all (map (run_thread secret Hour) (calls annoying)) {| s_world := 1 : steady; s_db := staffed |} in
  length (api_keys (s_db final.2)) = 1%nat /\
  users (s_db final.2) = users staffed /\ user_roles (s_db final.2) = user_roles staffed /\
  exists added, api_keys (s_db final.2) = [] ++ added.
Proof.
  intros final. split; [reflexivity |].
  destruct (only_admins_change_accounts secret Hour annoying {| s_world := 1 : steady; s_db := staffed |} final.1 final.2)
    as (Hu & _ & Hur & added & Ha & _); [| apply run_all_par | split; [exact Hu | split; [exact Hur | by exists added]]].
  intros userID (c & Hc & Hid). cbn [annoying] in Hc.
  repeat (apply elem_of_cons in Hc as [-> | Hc]; [cbn in Hid; first [discriminate Hid | injection Hid as <-; reflexivity] |]).
  by apply list.not_elem_of_nil in Hc.
Defined.

(** ** A server's start among calls *)

Lemma auth_tables_consistent_witness :
  let threads := [Bootstrap "root@fp.io" "pw"; Bootstrap "Root@fp.io" "pw"; Call (as_user "id-1" []) (CreateUserRequest (new_account "bob@fp.io"))] in
  let final := run_all (map (run_thread secret Hour) threads) {| s_world := {| ticks := 1; fates := [] |}; s_db := fresh |} in
  length (users (s_db final.2)) = 2%nat /\ consistent (s_db final.2).
Proof.
  intros threads final. split; [vm_compute; reflexivity |].
  exact (auth_tables_consistent secret Hour threads {| s_world := {| ticks := 1; fates := [] |}; s_db := fresh |} final.1 final.2 fresh_consistent (run_all_par _ _)).
Defined.

(** ** Decisions *)

Definition key_claims (userID : string) (scopes : list string) : TokenClaims := {|
  t_UserID := userID; t_Email := ""; t_Name := ""; t_Team := ""; t_Role := ""; t_Scopes := scopes; t_IssuedAt := 0; t_ExpiresAt := 0; t_Kind := TokenKindAPIKey |}.

Lemma permission_decided_witness :
  (exists w', run (CheckPermissionForClaims (key_claims "root" ["models:read"]) "models" "write") {| s_world := 1 : steady; s_db := staffed |}
     = (Ok false, {| s_world := w'; s_db := staffed |})) /\
  (exists w', run (CheckPermissionForClaims (key_claims "root" ["models:*"]) "models" "write") {| s_world := 1 : steady; s_db := staffed |}
     = (Ok true, {| s_world := w'; s_db := staffed |})).
Proof.
  split.
  - exact (permission_decided (key_claims "root" ["models:read"]) "models" "write" (1 : steady) staffed steady_reliable eq_refl).
  - exact (permission_decided (key_claims "root" ["models:*"]) "models" "write" (1 : steady) staffed steady_reliable eq_refl).
Defined.

(** The calls do not ask [CheckPermissionForClaims]: a key for reading models makes an
    account, where the decision for its claims is no. *)
Example scope_not_asked :
  is_ok (run (handle secret Hour (as_user "root" ["models:read"]) (CreateUserRequest (new_account "eve@fp.io"))) {| s_world := 1 : steady; s_db := staffed |}).1 = true
  /\ decision staffed (key_claims "root" ["models:read"]) "users" "admin" = false.
Proof. split; vm_compute; reflexivity. Qed.

(** ** Round trips *)

Definition made : result User auth_error * site steady auth_db := run (CreateUser (new_account " Bob@FP.io ")) {| s_world := 1 : steady; s_db := staffed |}.
Definition bob : User := match made.1 with Ok u => u | Err _ => scanUserWithRole staffed (account "" "") end.

(** The account after an administrator made it a viewer. *)
Definition promoted : auth_db := (AssignToUser "id-1" "r-viewer" (s_db made.2)).2.

Lemma account_roundtrip_witness :
  u_ID bob = "id-1" /\ exists token,
    (run (Login secret Hour " Bob@FP.io " "hunter2") {| s_world := 7 : steady; s_db := promoted |}).1 = Ok token /\
    forall w2 d2, (run (ValidateToken secret token) {| s_world := w2 : steady; s_db := d2 |}).1 =
      if w2 * Second <? NewNumericDate (7 * Second + Hour)
      then Ok {| t_UserID := "id-1"; t_Email := "bob@fp.io"; t_Name := "Bob"; t_Team := "research"; t_Role := "viewer"; t_Scopes := [];
                 t_IssuedAt := NewNumericDate (7 * Second); t_ExpiresAt := NewNumericDate (7 * Second + Hour); t_Kind := TokenKindJWT |}
      else Err (Sentinel ErrInvalidToken).
Proof.
  split; [reflexivity |].
  destruct (account_roundtrip secret Hour (new_account " Bob@FP.io ") (1 : steady) staffed bob made.2 True (fun _ => True) promoted (7 : steady))
    as [Ht Hread].
  - intros pw w0 h w1 [= <- _]. apply String.eqb_refl.
  - exact steady_reliable.
  - vm_compute. reflexivity.
  - apply rtc_once. apply (WriteRole _ _ "id-1" "r-viewer"); [exact I | vm_compute; reflexivity].
  - eexists. split; [exact Ht | exact (Hread _ Ht)].
Defined.

Definition keyed : result (APIKey * string) auth_error * site steady auth_db :=
  run (CreateAPIKey "ann" ["models:read"] (Some Minute)) {| s_world := 1 : steady; s_db := staffed |}.

Lemma api_key_roundtrip_witness : exists k raw, keyed.1 = Ok (k, raw) /\ raw = "fp_MQ" /\
  (run (ValidateToken secret raw) {| s_world := 50 : steady; s_db := s_db keyed.2 |}).1 =
    Ok {| t_UserID := "ann"; t_Email := ""; t_Name := ""; t_Team := ""; t_Role := ""; t_Scopes := ["models:read"];
          t_IssuedAt := k_CreatedAt k; t_ExpiresAt := 0; t_Kind := TokenKindAPIKey |} /\
  (run (ValidateToken secret raw) {| s_world := 61 : steady; s_db := s_db keyed.2 |}).1 = Err (Sentinel ErrInvalidToken).
Proof.
  eexists _, _. split; [reflexivity |]. split; [reflexivity |]. split.
  - exact (api_key_roundtrip secret "ann" ["models:read"] (Some Minute) (1 : steady) staffed _ _ keyed.2 True (fun _ => True) (s_db keyed.2) (50 : steady)
      steady_reliable eq_refl (rtc_refl _ _)).
  - exact (api_key_roundtrip secret "ann" ["models:read"] (Some Minute) (1 : steady) staffed _ _ keyed.2 True (fun _ => True) (s_db keyed.2) (61 : steady)
      steady_reliable eq_refl (rtc_refl _ _)).
Defined.

Definition token_of_root : string :=
  match (run (Login secret Hour "root@fp.io" "pw") {| s_world := 7 : steady; s_db := staffed |}).1 with Ok token => token | Err _ => "" end.

Lemma accepted_tokens_issued_witness : exists jc e,
  Sign signingMethod jc secret = Some token_of_root /\ j_ExpiresAt jc = Some e /\ 9 * Second < e /\ Subject jc = "root".
Proof.
  destruct (run (ValidateToken secret token_of_root) {| s_world := 9 : steady; s_db := fresh |}) as [r s'] eqn:E.
  assert (option_map t_UserID (match r with Ok c => Some c | Err _ => None end) = Some "root") as Hr.
  { change r with ((r, s').1). rewrite <- E. vm_compute. reflexivity. }
  destruct r as [c|]; [| discriminate Hr]. injection Hr as Hr.
  destruct (accepted_tokens_issued secret token_of_root (9 : steady) fresh c s' E)
    as [_ [(k & Hk & _) | (jc & e & Hs & He & Hlt & _ & Hu & _)]]; [by apply list.not_elem_of_nil in Hk |].
  exists jc, e. split; [exact Hs |]. split; [exact He |]. split; [exact Hlt | by rewrite <- Hu].
Defined.

(** ** Starts *)

Lemma bootstrap_makes_admin_witness : exists u s',
  run (BootstrapAdmin " Root@fp.io" "pw") {| s_world := 1 : steady; s_db := fresh |} = (Ok (u, true), s') /\
  live (s_db s') (u_ID u) = true /\ exists role, role ∈ roles fresh /\ ro_Name role = adminRoleName /\ roles_of (s_db s') (u_ID u) = [role].
Proof.
  eexists _, _. split; [vm_compute; reflexivity |].
  eapply (bootstrap_makes_admin " Root@fp.io" "pw" (1 : steady) fresh); [exact fresh_consistent | vm_compute; reflexivity].
Defined.

(** The assignment of the first start is refused; the second start finds the address taken. *)
Definition broken_start : result (User * bool) auth_error * site shaky auth_db :=
  run (BootstrapAdmin "root@fp.io" "pw") {| s_world := {| ticks := 1; fates := [Works; Works; Works; Works; Refused] |}; s_db := fresh |}.
Definition without_role : User := match GetByEmail "root@fp.io" (s_db broken_start.2) with Ok u => u | Err _ => scanUserWithRole fresh (account "" "") end.

Lemma bootstrap_keeps_existing_witness : is_ok broken_start.1 = false /\
  let '(r, s') := run (BootstrapAdmin "root@fp.io" "pw") broken_start.2 in
  s_db s' = s_db broken_start.2 /\ (r = Ok (without_role, false) \/ exists cause, r = Err (Wrap "bootstrap: checking for existing admin" cause)).
Proof.
  split; [vm_compute; reflexivity |].
  assert (normalize "root@fp.io" <> "") as Hn by (vm_compute; discriminate). assert ("pw" <> "") as Hp by discriminate.
  assert (GetByEmail (normalize "root@fp.io") (s_db broken_start.2) = Ok without_role) as Hf by (vm_compute; reflexivity).
  exact (bootstrap_keeps_existing "root@fp.io" "pw" (s_world broken_start.2) (s_db broken_start.2) without_role Hn Hp Hf).
Defined.

Example restart_leaves_no_admin :
  let again := run (BootstrapAdmin "root@fp.io" "pw") broken_start.2 in
  match again.1 with Ok (u, created) => negb created && negb (permitted (s_db again.2) (u_ID u) "users" "admin") | Err _ => false end = true.
Proof. vm_compute. reflexivity. Qed.
