(* ===== verification/GoNet.v ===== *)
(** * Texts, IP addresses and host names of Go's [net] and [net/url]

    [net.ParseIP] with the parsers of [net/netip] that it calls, the classification of
    addresses that [net.IP] offers, and URLs with [URL.Hostname]; [url.Parse] and
    [strings.EqualFold] are the class [Urls]. An address is the sixteen bytes that
    [net.ParseIP] returns. *)

From S2P Require Import Prelude GoText GoFormat.
Open Scope fp_scope.

(** ** More of Go's [strings]

    Splitting at a byte, substrings and lower case. The Unicode tables behind
    [strings.ToLower] are the class [CaseTables]; ASCII is written out, as in Go. *)

(** *** Substrings *)

(** [strings.Split(s, sep)] for a separator of one byte *)
Fixpoint split_byte (sep : ascii) (s : string) : list string :=
  match s with
  | "" => [""]
  | String c rest =>
      match split_byte sep rest with
      | seg :: segs => if ascii_dec c sep then "" :: seg :: segs else String c seg :: segs
      | [] => []
      end
  end.

Fixpoint join_byte (sep : ascii) (segs : list string) : string :=
  match segs with
  | [] => ""
  | [seg] => seg
  | seg :: segs => seg +:+ String sep (join_byte sep segs)
  end.

Fixpoint Contains (s sub : string) : bool :=
  String.prefix sub s || match s with "" => false | String _ rest => Contains rest sub end.

Fixpoint HasSuffix (s suffix : string) : bool :=
  String.eqb s suffix || match s with "" => false | String _ rest => HasSuffix rest suffix end.

Fixpoint IndexByte (s : string) (c : ascii) : option nat :=
  match s with
  | "" => None
  | String a rest => if ascii_dec a c then Some O else S <$> IndexByte rest c
  end.

Fixpoint LastIndexByte (s : string) (c : ascii) : option nat :=
  match s with
  | "" => None
  | String a rest => match LastIndexByte rest c with
                     | Some i => Some (S i)
                     | None => if ascii_dec a c then Some O else None
                     end
  end.

(** [s[n:]] and [s[:n]] *)
Fixpoint from_byte (n : nat) (s : string) : string :=
  match n, s with
  | O, _ => s
  | S n, String _ rest => from_byte n rest
  | S _, "" => ""
  end.

Fixpoint upto_byte (n : nat) (s : string) : string :=
  match n, s with
  | S n, String c rest => String c (upto_byte n rest)
  | _, _ => ""
  end.

Fixpoint all_bytes (p : ascii -> bool) (s : string) : bool :=
  match s with "" => true | String c rest => p c && all_bytes p rest end.

Lemma prefix_spec p s : String.prefix p s = true <-> exists rest, s = p +:+ rest.
Proof.
  revert p. induction s as [|c s IH]; intros [|a p]; simpl.
  - split; [by exists "" | done].
  - split; [done | by intros [? ?]].
  - split; [intros _; by exists (String c s) | done].
  - destruct (ascii_dec a c) as [-> |]; [rewrite IH |].
    + split; intros [rest Hr]; exists rest; [by rewrite Hr | by injection Hr].
    + split; [done | intros [? [= ? ?]]; congruence].
Qed.

Lemma Contains_spec s sub : Contains s sub = true <-> exists before after, s = before +:+ sub +:+ after.
Proof.
  induction s as [|c s IH]; cbn [Contains]; rewrite orb_true_iff, prefix_spec.
  - split; [intros [[rest Hr] | ?]; [by exists "", rest | done] |]. intros ([|? ?] & after & Hr); [left; by exists after | done].
  - rewrite IH. split.
    + intros [[rest ->] | (before & after & ->)]; [by exists "", rest | by exists (String c before), after].
    + intros ([|a before] & after & Hr); [left; by exists after |]. right. injection Hr as _ ->. by exists before, after.
Qed.

Lemma HasSuffix_spec s suffix : HasSuffix s suffix = true <-> exists before, s = before +:+ suffix.
Proof.
  induction s as [|c s IH]; cbn [HasSuffix]; rewrite orb_true_iff, String.eqb_eq.
  - split; [intros [<- | ?]; [by exists "" | done] |]. intros ([|? ?] & Hr); [by left | done].
  - rewrite IH. split.
    + intros [<- | [before ->]]; [by exists "" | by exists (String c before)].
    + intros ([|a before] & Hr); [by left |]. right. injection Hr as _ ->. by exists before.
Qed.

(** *** Splitting *)

Lemma split_byte_nonempty sep s : split_byte sep s <> [].
Proof. induction s as [|c s IH]; [done |]. simpl. destruct (split_byte sep s); [done |]. by destruct (ascii_dec c sep). Qed.

Lemma split_byte_cons sep c s : exists seg segs, split_byte sep s = seg :: segs /\
  split_byte sep (String c s) = if ascii_dec c sep then "" :: seg :: segs else String c seg :: segs.
Proof. simpl. destruct (split_byte sep s) as [|seg segs] eqn:E; [by destruct (split_byte_nonempty sep s) |]. by exists seg, segs. Qed.

Lemma join_split sep s : join_byte sep (split_byte sep s) = s.
Proof.
  induction s as [|c s IH]; [done |]. destruct (split_byte_cons sep c s) as (seg & segs & Hs & ->). rewrite Hs in IH.
  destruct (ascii_dec c sep) as [-> |]; [by rewrite <- IH |]. rewrite <- IH. by destruct segs.
Qed.

Lemma split_byte_inj sep s t : split_byte sep s = split_byte sep t -> s = t.
Proof. intros Hs. by rewrite <- (join_split sep s), Hs, join_split. Qed.

(** *** Lower case *)

Class CaseTables : Type := { unicode_lower : string -> string }.

Definition is_ascii (c : ascii) : bool := byte_of c <? 0x80.
Definition lower_byte (c : ascii) : ascii := if within 65 90 (byte_of c) then chr (byte_of c + 32) else c.
Fixpoint map_bytes (f : ascii -> ascii) (s : string) : string :=
  match s with "" => "" | String c rest => String (f c) (map_bytes f rest) end.

Definition ToLower `{CaseTables} (s : string) : string := if all_bytes is_ascii s then map_bytes lower_byte s else unicode_lower s.

(** ** [netip.ParseAddr] *)

Definition is_digit (c : ascii) : bool := within 48 57 (byte_of c).

Fixpoint decimal (acc : Z) (s : string) : Z :=
  match s with "" => acc | String c rest => decimal (acc * 10 + (byte_of c - 48)) rest end.

(** One field: digits, no leading zero, at most 255. *)
Definition octet (field : string) : option Z :=
  match field with
  | "" => None
  | String c rest =>
      if negb (all_bytes is_digit field) then None
      else if bool_decide (c = "0"%char) && negb (String.eqb rest "") then None
      else let v := decimal 0 field in if v <=? 255 then Some v else None
  end.

Definition parseIPv4Fields (s : string) : option (list Z) :=
  match split_byte "." s with
  | [a; b; c; d] => match octet a, octet b, octet c, octet d with
                    | Some a, Some b, Some c, Some d => Some [a; b; c; d]
                    | _, _, _, _ => None
                    end
  | _ => None
  end.

Definition hex_digit (c : ascii) : option Z :=
  let b := byte_of c in
  if within 48 57 b then Some (b - 48) else if within 97 102 b then Some (b - 87) else if within 65 70 b then Some (b - 55) else None.

(** The hexadecimal digits at the front: how many, their value, and the rest. *)
Fixpoint hex_group (off : nat) (acc : Z) (s : string) : nat * Z * string :=
  match s with
  | "" => (off, acc, s)
  | String c rest => match hex_digit c with Some d => hex_group (S off) (acc * 16 + d) rest | None => (off, acc, s) end
  end.

(** The loop of [parseIPv6]: the bytes so far, where the ellipsis stands, and the rest. A
    turn adds two bytes, so that eight turns fill an address. *)
Fixpoint ipv6_groups (turns : nat) (ip : list Z) (ellipsis : option nat) (s : string) : option (list Z * option nat * string) :=
  match turns with
  | O => Some (ip, ellipsis, s)
  | S turns =>
      let '(off, acc, rest) := hex_group 0 0 s in
      if bool_decide (off = O) || (4 <? off)%nat then None
      else
        match rest with
        | String "." _ =>
            if bool_decide (ellipsis = None) && negb (bool_decide (length ip = 12%nat)) then None
            else if (16 <? length ip + 4)%nat then None
            else match parseIPv4Fields s with Some four => Some (ip ++ four, ellipsis, "") | None => None end
        | _ =>
            let ip := ip ++ [acc / 256; acc mod 256] in
            match rest with
            | "" => Some (ip, ellipsis, "")
            | String ":" "" => None
            | String ":" (String c rest') =>
                if ascii_dec c ":" then
                  if bool_decide (ellipsis = None)
                  then if String.eqb rest' "" then Some (ip, Some (length ip), "") else ipv6_groups turns ip (Some (length ip)) rest'
                  else None
                else ipv6_groups turns ip ellipsis (String c rest')
            | _ => None
            end
        end
  end.

Definition expand (ip : list Z) (ellipsis : option nat) : option (list Z) :=
  if (length ip <? 16)%nat then
    match ellipsis with
    | None => None
    | Some at_ => Some (take at_ ip ++ replicate (16 - length ip) 0 ++ drop at_ ip)
    end
  else match ellipsis with Some _ => None | None => Some ip end.

(** [parseIPv6] of a text without a zone *)
Definition parseIPv6 (s : string) : option (list Z) :=
  let from ellipsis s := match ipv6_groups 8 [] ellipsis s with Some (ip, ellipsis, "") => expand ip ellipsis | _ => None end in
  if String.prefix "::" s
  then if String.eqb (from_byte 2 s) "" then Some (replicate 16 0) else from (Some O) (from_byte 2 s)
  else from None s.

Definition v4InV6 (four : list Z) : list Z := replicate 10 0 ++ [255; 255] ++ four.

(** The first of the bytes that select a parser. *)
Fixpoint first_mark (s : string) : option ascii :=
  match s with
  | "" => None
  | String c rest => if bool_decide (c = "."%char) || bool_decide (c = ":"%char) || bool_decide (c = "%"%char) then Some c else first_mark rest
  end.

(** [net.ParseIP]: an address with a zone is none. *)
Definition ParseIP (s : string) : option (list Z) :=
  match first_mark s with
  | Some "."%char => v4InV6 <$> parseIPv4Fields s
  | Some ":"%char => match IndexByte s "%" with Some _ => None | None => parseIPv6 s end
  | _ => None
  end.

Example ParseIP_samples : map ParseIP ["127.0.0.1"; "127.0.1"; "01.2.3.4"; "::1"; "fe80::1%eth0"; "::ffff:10.0.0.1"; "1:2:3:4:5:6:7::8"; "2130706433"; ""; "1.2.3.256"; "::1::"; "12345::"]
  = [Some (v4InV6 [127; 0; 0; 1]); None; None; Some (replicate 15 0 ++ [1]); None; Some (v4InV6 [10; 0; 0; 1]); None; None; None; None; None; None].
Proof. vm_compute. reflexivity. Qed.

(** ** Classification *)

Definition byte_at (ip : list Z) (i : nat) : Z := default 0 (ip !! i).

Definition To4 (ip : list Z) : option (list Z) :=
  if bool_decide (take 12 ip = replicate 10 0 ++ [255; 255]) then Some (drop 12 ip) else None.

Definition IPv6loopback : list Z := replicate 15 0 ++ [1].
Definition IPv4zero : list Z := v4InV6 [0; 0; 0; 0].

Definition IsUnspecified (ip : list Z) : bool := bool_decide (ip = IPv4zero) || bool_decide (ip = replicate 16 0).
Definition IsLoopback (ip : list Z) : bool :=
  match To4 ip with Some ip4 => byte_at ip4 0 =? 127 | None => bool_decide (ip = IPv6loopback) end.
Definition IsPrivate (ip : list Z) : bool :=
  match To4 ip with
  | Some ip4 => (byte_at ip4 0 =? 10) || (byte_at ip4 0 =? 172) && (Z.land (byte_at ip4 1) 0xf0 =? 16) || (byte_at ip4 0 =? 192) && (byte_at ip4 1 =? 168)
  | None => Z.land (byte_at ip 0) 0xfe =? 0xfc
  end.
Definition IsMulticast (ip : list Z) : bool :=
  match To4 ip with Some ip4 => Z.land (byte_at ip4 0) 0xf0 =? 0xe0 | None => byte_at ip 0 =? 0xff end.
(** An IPv4 address is sixteen bytes here too, whose first is zero. *)
Definition IsInterfaceLocalMulticast (ip : list Z) : bool := (byte_at ip 0 =? 0xff) && (Z.land (byte_at ip 1) 0x0f =? 1).
Definition IsLinkLocalMulticast (ip : list Z) : bool :=
  match To4 ip with
  | Some ip4 => (byte_at ip4 0 =? 224) && (byte_at ip4 1 =? 0) && (byte_at ip4 2 =? 0)
  | None => (byte_at ip 0 =? 0xff) && (Z.land (byte_at ip 1) 0x0f =? 2)
  end.
Definition IsLinkLocalUnicast (ip : list Z) : bool :=
  match To4 ip with
  | Some ip4 => (byte_at ip4 0 =? 169) && (byte_at ip4 1 =? 254)
  | None => (byte_at ip 0 =? 0xfe) && (Z.land (byte_at ip 1) 0xc0 =? 0x80)
  end.

(** ** URLs *)

Record url := { Scheme : string; url_User : option string; Host : string; Path : string }.

(** [url.Parse] ([None] is an error; [url_User] is [User.String()]) and
    [strings.EqualFold]. *)
Class Urls : Type := { Parse : string -> option url; EqualFold : string -> string -> bool }.

(** *** [URL.Hostname] *)

Definition validOptionalPort (port : string) : bool :=
  match port with
  | "" => true
  | String ":" digits => all_bytes is_digit digits
  | _ => false
  end.

Definition Hostname (host : string) : string :=
  let host := match LastIndexByte host ":" with
              | Some colon => if validOptionalPort (from_byte colon host) then upto_byte colon host else host
              | None => host
              end in
  match host with
  | String "[" rest => if HasSuffix rest "]" then upto_byte (String.length rest - 1) rest else host
  | _ => host
  end.

Example Hostname_samples : map Hostname ["a.b:443"; "a.b"; "[::1]:8443"; "[::1]"; "a:b"; "[fe80::1%en0]"; ":80"]
  = ["a.b"; "a.b"; "::1"; "::1"; "a:b"; "fe80::1%en0"; ""].
Proof. vm_compute. reflexivity. Qed.

(** ** What [ParseIP] returns is an address *)

Definition is_byte (b : Z) : Prop := 0 <= b < 256.
Definition is_address (ip : list Z) : Prop := length ip = 16%nat /\ Forall is_byte ip.

Lemma decimal_nonneg acc s : 0 <= acc -> all_bytes is_digit s = true -> 0 <= decimal acc s.
Proof.
  revert acc. induction s as [|c s IH]; intros acc Ha Hd; [exact Ha |]. cbn in Hd. apply andb_true_iff in Hd as [Hc Hd]. cbn [decimal].
  apply IH; [| exact Hd]. unfold is_digit, within in Hc. apply andb_true_iff in Hc as [Hc _]. apply Z.leb_le in Hc. lia.
Qed.

Lemma octet_byte field v : octet field = Some v -> is_byte v.
Proof.
  unfold octet. destruct field as [|c rest]; [done |]. destruct (all_bytes is_digit (String c rest)) eqn:Ed; [| done]. cbn [negb].
  destruct (_ && _); [done |]. destruct (Z.leb_spec (decimal 0 (String c rest)) 255); [| done]. intros [= <-].
  pose proof (decimal_nonneg 0 (String c rest) ltac:(lia) Ed). cbn [decimal] in *. unfold is_byte. lia.
Qed.

Lemma parseIPv4Fields_bytes s four : parseIPv4Fields s = Some four -> length four = 4%nat /\ Forall is_byte four.
Proof.
  unfold parseIPv4Fields. destruct (split_byte "." s) as [|a [|b [|c [|d [|? ?]]]]]; try done.
  destruct (octet a) eqn:Ea, (octet b) eqn:Eb, (octet c) eqn:Ec, (octet d) eqn:Ed; try done. intros [= <-].
  split; [done |]. repeat constructor; by eapply octet_byte.
Qed.

Lemma hex_digit_range c d : hex_digit c = Some d -> 0 <= d < 16.
Proof. unfold hex_digit, within. repeat case_match; try done; intros [= <-]; bool_to_prop; lia. Qed.

Lemma hex_group_range n acc s off v rest : hex_group n acc s = (off, v, rest) -> 0 <= acc < 16 ^ Z.of_nat n -> 0 <= v < 16 ^ Z.of_nat off.
Proof.
  revert n acc. induction s as [|c s IH]; intros n acc; cbn [hex_group]; [by intros [= <- <- _] |].
  destruct (hex_digit c) as [d|] eqn:E; [| by intros [= <- <- _]]. intros Hr Ha. apply hex_digit_range in E. apply (IH _ _ Hr).
  rewrite Nat2Z.inj_succ, Z.pow_succ_r by lia. lia.
Qed.

Lemma Forall_bytes_app ip k : Forall is_byte ip -> Forall is_byte k -> Forall is_byte (ip ++ k).
Proof. intros. by apply Forall_app. Qed.

Lemma ipv6_groups_bytes turns ip e s ip' e' s' :
  ipv6_groups turns ip e s = Some (ip', e', s') -> Forall is_byte ip -> (length ip + 2 * turns)%nat = 16%nat ->
  Forall is_byte ip' /\ (length ip' <= 16)%nat.
Proof.
  revert ip e s. induction turns as [|turns IH]; intros ip e s; cbn [ipv6_groups]; [intros [= <- _ _] Hb Hl; split; [done | lia] |].
  destruct (hex_group 0 0 s) as [[off acc] rest] eqn:Eg. destruct (bool_decide (off = 0%nat) || (4 <? off)%nat) eqn:Eo; [done |].
  intros Hr Hb Hl. apply orb_false_iff in Eo as [_ Eo]. apply Nat.ltb_ge in Eo. apply hex_group_range in Eg; [| lia].
  assert (Forall is_byte (ip ++ [acc / 256; acc mod 256])) as Hb2.
  { assert (16 ^ Z.of_nat off <= 16 ^ 4) by (apply Z.pow_le_mono_r; lia). apply Forall_bytes_app; [done |].
    repeat constructor; unfold is_byte; Z.div_mod_to_equations; lia. }
  assert (length (ip ++ [(acc / 256)%Z; (acc mod 256)%Z]) + 2 * turns = 16)%nat as Hl2 by (rewrite length_app; cbn [length]; lia).
  repeat case_match; try done; subst;
    first [ injection Hr as <- _ _; split; [first [done | apply Forall_bytes_app; [done | by eapply parseIPv4Fields_bytes]] |]
          | by eapply IH ].
  all: try (rewrite length_app; cbn [length]; lia).
  all: rewrite length_app; match goal with Hp : parseIPv4Fields _ = Some ?l |- _ => apply parseIPv4Fields_bytes in Hp as [-> _] end;
    match goal with Hlt : (16 <? _)%nat = false |- _ => apply Nat.ltb_ge in Hlt; lia end.
Qed.

Lemma expand_address ip e ip' : expand ip e = Some ip' -> Forall is_byte ip -> (length ip <= 16)%nat -> is_address ip'.
Proof.
  unfold expand. intros He Hb Hl. destruct (Nat.ltb_spec (length ip) 16).
  - destruct e as [n|]; [| done]. injection He as <-. split.
    + rewrite !length_app, length_replicate, length_take, length_drop. lia.
    + repeat apply Forall_bytes_app; [by apply Forall_take | | by apply Forall_drop]. apply Forall_replicate. unfold is_byte. lia.
  - destruct e; [done |]. injection He as <-. split; [lia | done].
Qed.

Lemma parseIPv6_address s ip : parseIPv6 s = Some ip -> is_address ip.
Proof.
  assert (forall e s, match ipv6_groups 8 [] e s with Some (ip0, ellipsis, "") => expand ip0 ellipsis | _ => None end = Some ip -> is_address ip) as Hl.
  { intros e s'. destruct (ipv6_groups 8 [] e s') as [[[ip0 e0] [|? ?]]|] eqn:E; try done. intros He.
    apply ipv6_groups_bytes in E as [Hb Hn]; [| constructor | done]. by eapply expand_address. }
  unfold parseIPv6. destruct (String.prefix "::" s); [destruct (String.eqb _ _) |]; [| by apply Hl ..].
  intros [= <-]. split; [done |]. repeat (constructor; [unfold is_byte; lia |]). constructor.
Qed.

Lemma ParseIP_address s ip : ParseIP s = Some ip -> is_address ip.
Proof.
  unfold ParseIP. intros Hp. assert (parseIPv6 s = Some ip \/ exists four, parseIPv4Fields s = Some four /\ ip = v4InV6 four) as [H6 | (four & H4 & ->)].
  { destruct (v4InV6 <$> parseIPv4Fields s) as [ip4|] eqn:E4; repeat case_match; try done; try by left.
    all: right; apply fmap_Some in E4 as (four & -> & ->); injection Hp as <-; by exists four. }
  - by eapply parseIPv6_address.
  - apply parseIPv4Fields_bytes in H4 as [Hn Hb]. split; [unfold v4InV6; rewrite !length_app, Hn; done |].
    unfold v4InV6. apply Forall_bytes_app; [by apply Forall_replicate |]. apply Forall_bytes_app; [repeat constructor; lia | done].
Qed.
