(* ===== verification/ServingModel.v ===== *)
(** * Model serving: data, tensors and artifact URIs

    [services/model-serving/internal/domain]: the life-cycle states, models and tensors of
    [models.go], the errors of [errors.go], and the allow-list of artifact URIs of
    [ports.go]. *)

From S2P Require Import Prelude GoText GoFormat GoNet.
Open Scope fp_scope.

(** ** Errors *)

Inductive serving_sentinel :=
| ErrModelNotFound | ErrModelNotReady | ErrModelAlreadyExists | ErrArtifactURINotAllowed | ErrDigestMismatch | ErrModelRequestMismatch
| ErrValidation | ErrInferenceFailed | ErrArtifactNotFound | ErrEngineBadInput.

#[export] Instance serving_sentinels : Sentinels serving_sentinel.
Proof. refine {| sentinel_wraps _ := None |}. solve_decision. Defined.

Abbreviation serving_error := (error serving_sentinel).

Definition wrapValidation (msg : string) : serving_error := Wrap msg (Sentinel ErrValidation).

(** ** The life cycle *)

Inductive ModelState := StateUnspecified | StateDownloading | StateLoading | StateReady | StateFailed | StateUnloaded.

#[export] Instance ModelState_eq_dec : EqDecision ModelState.
Proof. solve_decision. Defined.

Definition CanTransitionTo (s next : ModelState) : bool :=
  match next with
  | StateDownloading => true
  | _ =>
      match s, next with
      | StateDownloading, StateLoading | StateDownloading, StateFailed => true
      | StateLoading, StateReady | StateLoading, StateFailed => true
      | StateReady, StateUnloaded | StateReady, StateFailed => true
      | _, _ => false
      end
  end.

Definition IsServable (s : ModelState) : bool := bool_decide (s = StateReady).

Record ModelRef := { r_Name : string; r_Version : string }.

#[export] Instance ModelRef_eq_dec : EqDecision ModelRef.
Proof. solve_decision. Defined.
#[export] Instance ModelRef_countable : Countable ModelRef.
Proof. by refine (inj_countable' (fun r => (r_Name r, r_Version r)) (fun p => {| r_Name := p.1; r_Version := p.2 |}) _); intros []. Defined.

(** ** Tensors *)

Inductive DataType := DataTypeUnspecified | DataTypeFloat32 | DataTypeFloat64 | DataTypeInt32 | DataTypeInt64 | DataTypeBool | DataTypeString.

#[export] Instance DataType_eq_dec : EqDecision DataType.
Proof. solve_decision. Defined.

(** The values of the constants. *)
Definition datatype_int (d : DataType) : Z :=
  match d with
  | DataTypeUnspecified => 0 | DataTypeFloat32 => 1 | DataTypeFloat64 => 2 | DataTypeInt32 => 3 | DataTypeInt64 => 4 | DataTypeBool => 5
  | DataTypeString => 6
  end.

Definition ElementSize (d : DataType) : Z * bool :=
  match d with
  | DataTypeBool => (1, true)
  | DataTypeFloat32 | DataTypeInt32 => (4, true)
  | DataTypeFloat64 | DataTypeInt64 => (8, true)
  | DataTypeString | DataTypeUnspecified => (0, false)
  end.

Record TensorSpec := { ts_Name : string; ts_Shape : list Z; ts_DType : DataType }.
Record Tensor := { Shape : list Z; Data : string; DType : DataType }.

#[export] Instance Tensor_eq_dec : EqDecision Tensor.
Proof. solve_decision. Defined.

Definition dynamicDim : Z := -1.
Definition maxInt64 : Z := int64_max.

(** The loop over the dimensions: an error, the early return, or the product. *)
Inductive layout := Malformed (e : serving_error) | AnySize | Elements (n : Z).

Fixpoint count_elements (shape : list Z) (elements : Z) : layout :=
  match shape with
  | [] => Elements elements
  | dim :: shape =>
      if dim =? dynamicDim then AnySize
      else if dim <? 0 then Malformed (wrapValidation "tensor shape has a negative dimension")
      else if negb (dim =? 0) && (Z.quot maxInt64 dim <? elements) then Malformed (wrapValidation "tensor shape product overflows int64")
      else count_elements shape (wrap64 (elements * dim))
  end.

Definition ValidateLayout (t : Tensor) : option serving_error :=
  let '(size, fixed) := ElementSize (DType t) in
  if negb fixed then
    if bool_decide (DType t = DataTypeUnspecified) then Some (wrapValidation "tensor dtype is unspecified") else None
  else
    match count_elements (Shape t) 1 with
    | Malformed e => Some e
    | AnySize => None
    | Elements elements =>
        let wantBytes := wrap64 (elements * size) in
        if negb (size =? 0) && (Z.quot maxInt64 size <? elements) then Some (wrapValidation "tensor byte size overflows int64")
        else if negb (Z.of_nat (String.length (Data t)) =? wantBytes) then Some (wrapValidation "tensor data length does not match shape*dtype")
        else None
    end.

(** ** Models *)

Record ModelStatus := { st_Ref : ModelRef; st_State : ModelState; st_Message : string; st_UpdatedAt : time }.

Record LoadedModel := {
  Ref : ModelRef; State : ModelState; Message : string; ArtifactURI : string; ArtifactDigest : string;
  InputSchema : list TensorSpec; OutputSchema : list TensorSpec; MemoryBytes : Z; LoadedAt : time; UpdatedAt : time;
}.

Definition Status (m : LoadedModel) : ModelStatus :=
  {| st_Ref := Ref m; st_State := State m; st_Message := Message m; st_UpdatedAt := UpdatedAt m |}.

Definition digestMatches (actual expected : string) : bool := if String.eqb expected "" then true else String.eqb actual expected.

(** ** Layouts, exactly *)

Definition product (shape : list Z) : Z := foldr Z.mul 1 shape.

Lemma product_nonneg shape : Forall (fun d => 0 <= d) shape -> 0 <= product shape.
Proof. unfold product. induction 1; cbn; nia. Qed.

Lemma count_elements_spec shape elements : in_int64 elements -> 0 <= elements ->
  match count_elements shape elements with
  | Malformed _ => ~ Forall (fun d => 0 <= d) shape \/ int64_max < elements * product shape \/ 0 ∈ shape
  | AnySize => dynamicDim ∈ shape
  | Elements n => Forall (fun d => 0 <= d) shape /\ n = elements * product shape /\ in_int64 n
  end.
Proof.
  revert elements. induction shape as [|dim shape IH]; intros elements Hr Hp; cbn [count_elements].
  - split; [constructor |]. cbn. split; [lia | exact Hr].
  - destruct (Z.eqb_spec dim dynamicDim) as [-> | Hdyn]; [by apply elem_of_cons; left |].
    destruct (Z.ltb_spec dim 0); [left; intros Ha%Forall_inv; lia |].
    destruct (Z.eqb_spec dim 0) as [-> |]; cbn [negb andb].
    + replace (elements * 0) with 0 by lia. rewrite wrap64_id by (unfold in_int64, int64_min, int64_max; lia).
      specialize (IH 0 ltac:(unfold in_int64, int64_min, int64_max; lia) ltac:(lia)). destruct (count_elements shape 0) as [e | | n].
      * right; right. by apply elem_of_cons; left.
      * by apply elem_of_cons; right.
      * destruct IH as (Hf & -> & Hi). split; [by constructor |]. cbn. split; [lia | exact Hi].
    + unfold maxInt64. rewrite Z.quot_div_nonneg by (unfold int64_max; lia).
      destruct (Z.ltb_spec (int64_max / dim) elements) as [Hov | Hok].
      * destruct (decide (Forall (fun d => 0 <= d) shape)) as [Hf | Hnf]; [| left; intros Ha; apply Hnf; by apply list.Forall_cons in Ha as [_ Ha]].
        destruct (decide (0 ∈ shape)) as [Hz | Hnz]; [right; right; by apply elem_of_cons; right |]. right; left.
        assert (1 <= product shape) as Hone.
        { clear -Hf Hnz. unfold product. induction Hf as [|d s Hd Hf IHf]; cbn; [lia |]. apply not_elem_of_cons in Hnz as [? Hnz]. specialize (IHf Hnz). nia. }
        assert (int64_max < elements * dim) by (pose proof (Z.mul_succ_div_gt int64_max dim); nia). unfold product in *. cbn. nia.
      * assert (0 <= elements * dim <= int64_max) as Hm by (split; [nia |]; pose proof (Z.mul_div_le int64_max dim); nia).
        assert (in_int64 (elements * dim)) as Hi by (unfold in_int64, int64_min in *; lia).
        rewrite wrap64_id by exact Hi. specialize (IH _ Hi ltac:(lia)). destruct (count_elements shape _) as [e | | m].
        -- destruct IH as [Hn | [Hn | Hn]].
           ++ left. intros Ha. apply Hn. by apply list.Forall_cons in Ha as [_ Ha].
           ++ right; left. cbn. fold (product shape). nia.
           ++ right; right. by apply elem_of_cons; right.
        -- by apply elem_of_cons; right.
        -- destruct IH as (Hf & -> & Hin). split; [by constructor |]. cbn. fold (product shape). split; [lia | exact Hin].
Qed.

(** The dimensions before the first dynamic one decide; without one, and without a
    dimension 0, a tensor of fixed-size elements is accepted exactly when its size in bytes,
    as a mathematical number, is its length and fits. *)
Lemma ValidateLayout_exact t size : ElementSize (DType t) = (size, true) -> ~ dynamicDim ∈ Shape t -> ~ 0 ∈ Shape t ->
  ValidateLayout t = None <->
  Forall (fun d => 0 <= d) (Shape t) /\ product (Shape t) * size <= int64_max /\ Z.of_nat (String.length (Data t)) = product (Shape t) * size.
Proof.
  intros Hs Hd Hz. assert (1 <= size <= 8) as Hsz by (destruct (DType t); injection Hs as <-; lia).
  unfold ValidateLayout. rewrite Hs. cbn [negb].
  pose proof (count_elements_spec (Shape t) 1 ltac:(unfold in_int64, int64_min, int64_max; lia) ltac:(lia)) as Hc.
  destruct (count_elements (Shape t) 1) as [e | | n]; [| by destruct Hd |].
  - split; [done |]. intros (Hf & Hb & _). exfalso. destruct Hc as [Hn | [Ho | Hin]]; [by apply Hn | | by apply Hz].
    pose proof (product_nonneg _ Hf). nia.
  - destruct Hc as (Hf & -> & Hr). rewrite Z.mul_1_l in *. pose proof (product_nonneg _ Hf) as Hp.
    destruct (Z.eqb_spec size 0); [lia |]. cbn [negb andb]. unfold maxInt64. rewrite Z.quot_div_nonneg by (unfold int64_max; lia).
    destruct (Z.ltb_spec (int64_max / size) (product (Shape t))) as [Hov | Hok].
    + split; [done |]. intros (_ & Hb & _). pose proof (Z.mul_succ_div_gt int64_max size). nia.
    + assert (product (Shape t) * size <= int64_max) as Hb by (pose proof (Z.mul_div_le int64_max size); nia).
      rewrite wrap64_id by (unfold in_int64, int64_min in *; nia).
      destruct (Z.eqb_spec (Z.of_nat (String.length (Data t))) (product (Shape t) * size)); cbn [negb]; split; try done. intros (_ & _ & ?). done.
Qed.

Example layout_samples :
  let t shape data := {| Shape := shape; Data := data; DType := DataTypeInt32 |} in
  map (fun t => bool_decide (ValidateLayout t = None))
    [t [1; 2] "12345678"; t [1; 2] "1234567"; t [2 ^ 62; 4] ""; t [2 ^ 62; 4; 0] ""; t [0; 2 ^ 62; 4] ""; t [-1; 2 ^ 62; 4] "x"]
  = [true; false; false; false; true; true].
Proof. vm_compute. reflexivity. Qed.

(** ** Artifact URIs *)

(** A path without an authority before it that does not start with "/" is opaque, and then
    the parsed path is empty. *)
Class UrlLaws `{Urls} : Prop := {
  path_rooted raw u : Parse raw = Some u -> Scheme u <> "" -> Path u = "" \/ exists rest, Path u = String "/" rest;
}.

Abbreviation Split := (split_byte "/").

Definition HasPrefix (s prefix : string) : bool := String.prefix prefix s.

Definition hasParentDirSegment (p : string) : bool := existsb (fun seg => String.eqb seg "..") (Split p).

Abbreviation join_slash := (join_byte "/").

(** [path.Clean]: the kept segments, newest first. *)
Definition clean_segment (rooted : bool) (out : list string) (seg : string) : list string :=
  if String.eqb seg "" || String.eqb seg "." then out
  else if String.eqb seg ".." then
    match out with
    | [] => if rooted then [] else [seg]
    | last :: before => if String.eqb last ".." then seg :: out else before
    end
  else seg :: out.

Definition Clean (p : string) : string :=
  match p with
  | "" => "."
  | String c _ =>
      let rooted := bool_decide (c = "/"%char) in
      let segs := rev (fold_left (clean_segment rooted) (Split p) []) in
      if rooted then String "/" (join_slash segs) else match segs with [] => "." | _ => join_slash segs end
  end.

Example clean_samples : map Clean [""; "/"; "//a//b/"; "/../a/./b/../c"; "a/../../b"; "./a"; "a/.."; "/a..b/..c"]
  = ["."; "/"; "/a/b"; "/a/c"; "../b"; "a"; "."; "/a..b/..c"].
Proof. vm_compute. reflexivity. Qed.

Section uris.
Context `{Urls}.

Definition splitArtifactURI (raw : string) : option (string * string * string) :=
  match Parse raw with
  | None => None
  | Some u =>
      if String.eqb (Scheme u) "" then None
      else if String.eqb (Host u) "" && negb (String.eqb (Scheme u) "file") then None
      else
        let host := if String.eqb (Host u) "" then "localhost" else Host u in
        if hasParentDirSegment (Path u) then None
        else
          let auth := match url_User u with Some user => user +:+ "@" +:+ host | None => host end in
          Some (Scheme u, auth, Clean (if String.eqb (Path u) "" then "/" else Path u))
  end.

Definition pathUnderPrefix (cleanedReq allowedPrefix : string) : bool :=
  let prefix := Clean allowedPrefix in
  if String.eqb cleanedReq prefix then true
  else if String.eqb prefix "/" then HasPrefix cleanedReq "/"
  else HasPrefix cleanedReq (prefix +:+ "/").

Definition ArtifactURIAllowed (uri : string) (allowList : list string) : bool :=
  if String.eqb uri "" || bool_decide (allowList = []) then false
  else
    match splitArtifactURI uri with
    | None => false
    | Some (reqScheme, reqHost, reqPath) =>
        existsb (fun allowed =>
          negb (String.eqb allowed "") &&
          match splitArtifactURI allowed with
          | None => false
          | Some (alScheme, alHost, alPath) =>
              if negb (EqualFold reqScheme alScheme) || negb (EqualFold reqHost alHost) then false else pathUnderPrefix reqPath alPath
          end) allowList
    end.
End uris.

(** ** The allow-list, exactly *)

(** What names a place in a path: its segments other than "" and ".". *)
Definition kept (seg : string) : bool := negb (String.eqb seg "" || String.eqb seg ".").
Definition segments (p : string) : list string := List.filter kept (Split p).

Definition slash_free (seg : string) : Prop := Split seg = [seg].

Lemma Split_slash_free p : Forall slash_free (Split p).
Proof.
  unfold slash_free. induction p as [|c p IH]; [repeat constructor |]. destruct (split_byte_cons "/" c p) as (seg & segs & Hs & ->). rewrite Hs in IH.
  apply list.Forall_cons in IH as [Hseg Hsegs]. destruct (ascii_dec c "/"); constructor; try done.
  - by constructor.
  - simpl. rewrite Hseg. by destruct (ascii_dec c "/").
Qed.

Lemma slash_free_cons c seg : slash_free (String c seg) -> c <> "/"%char /\ slash_free seg.
Proof.
  unfold slash_free. destruct (split_byte_cons "/" c seg) as (s & ss & Hs & ->). destruct (ascii_dec c "/"); [done |].
  intros [= -> ->]. by split.
Qed.

Lemma Split_app seg rest : slash_free seg -> Split (seg +:+ String "/" rest) = seg :: Split rest.
Proof.
  induction seg as [|c seg IH]; intros Hf.
  - simpl. by destruct (Split rest) eqn:E; [destruct (split_byte_nonempty "/" rest) |].
  - apply slash_free_cons in Hf as [Hc Hf]. simpl. rewrite (IH Hf). by destruct (ascii_dec c "/").
Qed.

Lemma Split_join segs : Forall slash_free segs -> segs <> [] -> Split (join_slash segs) = segs.
Proof.
  induction 1 as [|seg segs Hf Hfs IH]; [done |]. intros _. destruct segs as [|seg' segs]; [exact Hf |].
  change (join_slash (seg :: seg' :: segs)) with (seg +:+ String "/" (join_slash (seg' :: segs))).
  rewrite (Split_app _ _ Hf). by rewrite IH.
Qed.

Lemma segments_kept p : Forall (fun seg => slash_free seg /\ kept seg = true) (segments p).
Proof.
  unfold segments. apply List.Forall_forall. intros seg [Hin Hk]%filter_In. split; [| exact Hk].
  pose proof (Split_slash_free p) as Hf. rewrite List.Forall_forall in Hf. by apply Hf.
Qed.

Lemma filter_kept_id segs : Forall (fun seg => slash_free seg /\ kept seg = true) segs -> List.filter kept segs = segs.
Proof. induction 1 as [|seg segs [_ Hk] _ IH]; [done |]. simpl. by rewrite Hk, IH. Qed.

Lemma segments_rooted segs : Forall (fun seg => slash_free seg /\ kept seg = true) segs -> segments (String "/" (join_slash segs)) = segs.
Proof.
  intros Hs. unfold segments. change (String "/" (join_slash segs)) with ("" +:+ String "/" (join_slash segs)).
  rewrite Split_app by done. cbn [List.filter kept]. change (kept "") with false. cbv iota. destruct segs as [|seg segs]; [done |].
  rewrite Split_join; [by apply filter_kept_id | | done]. eapply Forall_impl; [| exact Hs]. by intros ? [? _].
Qed.

Lemma fold_clean_kept segs out : existsb (fun seg => String.eqb seg "..") segs = false ->
  fold_left (clean_segment true) segs out = rev (List.filter kept segs) ++ out.
Proof.
  revert out. induction segs as [|seg segs IH]; intros out Hn; [done |]. cbn [existsb] in Hn. apply orb_false_iff in Hn as [Hd Hn].
  cbn [fold_left]. rewrite IH by exact Hn. unfold clean_segment, kept. cbn [List.filter]. rewrite Hd.
  destruct (_ || _); cbn [negb rev]; [done |]. by rewrite <- app_assoc.
Qed.

(** A rooted path without ".." is cleaned to its segments. *)
Lemma Clean_rooted rest : hasParentDirSegment (String "/" rest) = false ->
  Clean (String "/" rest) = String "/" (join_slash (segments (String "/" rest))).
Proof.
  intros Hn. unfold Clean. rewrite bool_decide_true by done. rewrite fold_clean_kept by exact Hn. rewrite app_nil_r, rev_involutive. done.
Qed.

Lemma kept_not_parent p : hasParentDirSegment p = false -> Forall (fun seg => String.eqb seg ".." = false) (segments p).
Proof.
  intros Hn. apply List.Forall_forall. intros seg [Hin _]%filter_In. destruct (String.eqb seg "..") eqn:E; [| done].
  apply Bool.not_true_iff_false in Hn. destruct Hn. apply existsb_exists. by exists seg.
Qed.

Lemma Clean_cleaned segs : Forall (fun seg => slash_free seg /\ kept seg = true) segs -> Forall (fun seg => String.eqb seg ".." = false) segs ->
  Clean (String "/" (join_slash segs)) = String "/" (join_slash segs).
Proof.
  intros Hs Hn. rewrite Clean_rooted, segments_rooted; [done | exact Hs |].
  unfold hasParentDirSegment. change (String "/" (join_slash segs)) with ("" +:+ String "/" (join_slash segs)).
  rewrite Split_app by done. cbn [existsb]. change (String.eqb "" "..") with false. cbn [orb].
  destruct segs as [|seg segs]; [done |]. rewrite Split_join; [| by eapply Forall_impl; [| exact Hs]; intros ? [? _] | done].
  clear Hs. revert Hn. generalize (seg :: segs). induction 1 as [|s ss Hs _ IH]; [done |]. cbn [existsb]. by rewrite Hs.
Qed.

(** *** Prefixes of texts and of segments *)

Lemma prefix_cons a s b t : String.prefix (String a s) (String b t) = if ascii_dec a b then String.prefix s t else false.
Proof. done. Qed.

Lemma prefix_segment x y u v : slash_free x -> slash_free y ->
  String.prefix (x +:+ String "/" u) (y +:+ String "/" v) = String.eqb x y && String.prefix u v.
Proof.
  revert y. induction x as [|a x IH]; intros [|b y] Hx Hy.
  - change ("" +:+ String "/" u) with (String "/" u). change ("" +:+ String "/" v) with (String "/" v). rewrite prefix_cons. by destruct (ascii_dec "/" "/").
  - apply slash_free_cons in Hy as [Hb _]. change ("" +:+ String "/" u) with (String "/" u).
    change (String b y +:+ String "/" v) with (String b (y +:+ String "/" v)). rewrite prefix_cons. by destruct (ascii_dec "/" b) as [<- |].
  - apply slash_free_cons in Hx as [Ha _]. change ("" +:+ String "/" v) with (String "/" v).
    change (String a x +:+ String "/" u) with (String a (x +:+ String "/" u)). rewrite prefix_cons. by destruct (ascii_dec a "/") as [-> |].
  - apply slash_free_cons in Hx as [_ Hx]. apply slash_free_cons in Hy as [_ Hy].
    change (String a x +:+ String "/" u) with (String a (x +:+ String "/" u)). change (String b y +:+ String "/" v) with (String b (y +:+ String "/" v)).
    rewrite prefix_cons, (IH y Hx Hy). cbn [String.eqb]. destruct (ascii_dec a b) as [-> | Hne]; [by rewrite Ascii.eqb_refl |].
    by destruct (Ascii.eqb_spec a b).
Qed.

Lemma prefix_no_slash x u y : slash_free y -> String.prefix (x +:+ String "/" u) y = false.
Proof.
  revert x. induction y as [|b y IH]; intros [|a x] Hy; try done.
  - apply slash_free_cons in Hy as [Hb _]. change ("" +:+ String "/" u) with (String "/" u). rewrite prefix_cons. by destruct (ascii_dec "/" b) as [<- |].
  - apply slash_free_cons in Hy as [_ Hy]. change (String a x +:+ String "/" u) with (String a (x +:+ String "/" u)). rewrite prefix_cons.
    destruct (ascii_dec a b); [by apply IH | done].
Qed.

Lemma slash_assoc x u : (x +:+ String "/" u) +:+ "/" = x +:+ String "/" (u +:+ "/").
Proof. induction x as [|c x IH]; [done |]. change (String c ((x +:+ String "/" u) +:+ "/") = String c (x +:+ String "/" (u +:+ "/"))). by rewrite IH. Qed.

Lemma under_segments a b : Forall (fun seg => slash_free seg /\ kept seg = true) a -> Forall (fun seg => slash_free seg /\ kept seg = true) b ->
  a <> [] -> String.prefix (join_slash a +:+ "/") (join_slash b) = true <-> exists seg rest, b = a ++ seg :: rest.
Proof.
  revert b. induction a as [|x a IH]; intros b Ha Hb Hne; [done |]. apply list.Forall_cons in Ha as [[Hx Hkx] Ha].
  destruct b as [|y b]. { split; [by destruct a as [|? ?], x | by intros (? & ? & ?)]. }
  apply list.Forall_cons in Hb as [[Hy Hky] Hb]. destruct a as [|x' a], b as [|y' b].
  - change (join_slash [x] +:+ "/") with (x +:+ String "/" ""). rewrite prefix_no_slash by exact Hy. split; [done |]. by intros (? & ? & [=]).
  - change (join_slash [x] +:+ "/") with (x +:+ String "/" "").
    change (join_slash (y :: y' :: b)) with (y +:+ String "/" (join_slash (y' :: b))). rewrite prefix_segment by done.
    rewrite andb_true_iff, String.eqb_eq. split; [intros [-> _]; by exists y', b |]. intros (s & r & He). cbn in He. injection He as -> _ _. split; [done |]. generalize (join_slash (y' :: b)). by intros [].
  - replace (join_slash (x :: x' :: a) +:+ "/") with (x +:+ String "/" (join_slash (x' :: a) +:+ "/")).
    + rewrite prefix_no_slash by exact Hy. split; [done |]. by intros (s & r & [=]).
    + change (join_slash (x :: x' :: a)) with (x +:+ String "/" (join_slash (x' :: a))). by rewrite slash_assoc.
  - replace (join_slash (x :: x' :: a) +:+ "/") with (x +:+ String "/" (join_slash (x' :: a) +:+ "/")).
    + change (join_slash (y :: y' :: b)) with (y +:+ String "/" (join_slash (y' :: b))). rewrite prefix_segment by done.
      rewrite andb_true_iff, String.eqb_eq, IH by done. split.
      * intros [-> (s & r & ->)]. by exists s, r.
      * intros (s & r & [= -> -> ->]). split; [done |]. by exists s, r.
    + change (join_slash (x :: x' :: a)) with (x +:+ String "/" (join_slash (x' :: a))). by rewrite slash_assoc.
Qed.

Lemma pathUnderPrefix_segments a b : Forall (fun seg => slash_free seg /\ kept seg = true) a -> Forall (fun seg => slash_free seg /\ kept seg = true) b ->
  Forall (fun seg => String.eqb seg ".." = false) a ->
  pathUnderPrefix (String "/" (join_slash b)) (String "/" (join_slash a)) = true <-> a `prefix_of` b.
Proof.
  intros Ha Hb Hn. unfold pathUnderPrefix. rewrite (Clean_cleaned a Ha Hn).
  assert (forall c, Forall (fun seg => slash_free seg /\ kept seg = true) c -> join_slash c = "" -> c = []) as Hempty.
  { intros [|s c] Hc Hj; [done |]. apply list.Forall_cons in Hc as [[_ Hk] _]. by destruct c, s. }
  destruct (String.eqb_spec (String "/" (join_slash b)) (String "/" (join_slash a))) as [He | Hne].
  - injection He as He. split; [intros _ | done]. replace b with a; [done |].
    rewrite <- (segments_rooted a Ha), <- (segments_rooted b Hb). by rewrite He.
  - destruct (String.eqb_spec (String "/" (join_slash a)) "/") as [Hr | Hr].
    + injection Hr as Hr%(Hempty a Ha). subst a. split; [intros _; apply prefix_nil |]. intros _. unfold HasPrefix. rewrite prefix_cons. by destruct (join_slash b).
    + change (String "/" (join_slash a) +:+ "/") with (String "/" (join_slash a +:+ "/")). unfold HasPrefix. rewrite prefix_cons.
      destruct (ascii_dec "/" "/"); [| done]. rewrite under_segments by (try done; intros ->; by destruct Hr). split.
      * intros (s & r & ->). by exists (s :: r).
      * intros [r ->]. destruct r as [|s r]; [by rewrite app_nil_r in Hne |]. by exists s, r.
Qed.

Section allowed.
Context `{UrlLaws}.

(** The authority that a place is compared by: user and host with its port. A scheme is asked
    for, and a host unless the scheme is "file", whose empty host is "localhost". *)
Definition has_authority (u : url) (auth : string) : Prop :=
  Scheme u <> "" /\ exists host,
  (if String.eqb (Host u) "" then Scheme u = "file" /\ host = "localhost" else host = Host u) /\
  auth = match url_User u with Some user => user +:+ "@" +:+ host | None => host end.

Lemma parent_iff p : hasParentDirSegment p = false <-> ".." ∉ Split p.
Proof.
  rewrite <- not_true_iff_false. unfold hasParentDirSegment. rewrite existsb_exists. split.
  - intros Hn Hin. apply Hn. exists "..". split; [by apply list_elem_of_In | done].
  - intros Hn (seg & Hin & ->%String.eqb_eq). by apply Hn, list_elem_of_In.
Qed.

Lemma splitArtifactURI_iff raw scheme auth p : splitArtifactURI raw = Some (scheme, auth, p) <->
  exists u, Parse raw = Some u /\ Scheme u = scheme /\ has_authority u auth /\ ".." ∉ Split (Path u) /\ p = String "/" (join_slash (segments (Path u))).
Proof.
  unfold splitArtifactURI. destruct (Parse raw) as [u|] eqn:Ep; [| by split; [| intros (u & ? & _)]].
  assert (Scheme u <> "" -> hasParentDirSegment (Path u) = false ->
    Clean (if String.eqb (Path u) "" then "/" else Path u) = String "/" (join_slash (segments (Path u)))) as Hclean.
  { intros Hs Hn. destruct (path_rooted _ _ Ep Hs) as [-> | [rest Hp]]; [done |]. rewrite Hp in *. cbn [String.eqb]. by apply Clean_rooted. }
  unfold has_authority. split.
  - destruct (String.eqb_spec (Scheme u) "") as [|Hs]; [done |].
    destruct (String.eqb (Host u) "") eqn:Eh; cbn [andb]; [destruct (String.eqb_spec (Scheme u) "file") as [Hf|]; cbn [negb]; [| done] |];
      (destruct (hasParentDirSegment (Path u)) eqn:Epar; [done |]); intros [= <- <- <-]; exists u;
      (split; [done |]); (split; [done |]); rewrite Eh; rewrite <- parent_iff;
      (split; [split; [done |]; eexists; split; [| reflexivity]; done |]); (split; [done | by apply Hclean]).
  - intros (u' & [= <-] & <- & (Hs & host & Hh & ->) & Hn%parent_iff & ->). rewrite (proj2 (String.eqb_neq _ _) Hs).
    destruct (String.eqb (Host u) "") eqn:Eh.
    + destruct Hh as [Hf ->]. rewrite (proj2 (String.eqb_eq _ _) Hf). cbn [andb negb]. by rewrite Hn, (Hclean Hs Hn).
    + subst host. cbn [andb]. by rewrite Hn, (Hclean Hs Hn).
Qed.

(** C14. The allow-list of artifacts is exact on places: a URI is allowed exactly when some
    entry parses to a URL with its scheme and its authority - user, host and port - up to
    case, neither path has a ".." segment, and the segments of the entry's path begin those
    of the URI's. No URI escapes its prefix, and an entry for "models" never covers
    "models-x". *)
Theorem allowed_uri_exact uri allowList : uri <> "" ->
  ArtifactURIAllowed uri allowList = true <->
  exists allowed u ua auth aauth,
    allowed ∈ allowList /\ allowed <> "" /\ Parse uri = Some u /\ Parse allowed = Some ua /\
    has_authority u auth /\ has_authority ua aauth /\
    EqualFold (Scheme u) (Scheme ua) = true /\ EqualFold auth aauth = true /\
    ".." ∉ Split (Path u) /\ ".." ∉ Split (Path ua) /\ segments (Path ua) `prefix_of` segments (Path u).
Proof.
  intros Hu%String.eqb_neq. unfold ArtifactURIAllowed. rewrite Hu. cbn [orb]. split.
  - case_bool_decide; [done |]. destruct (splitArtifactURI uri) as [[[scheme auth] p]|] eqn:Es; [| done].
    apply splitArtifactURI_iff in Es as (u & Hp & <- & Hau & Hn & ->).
    intros (allowed & Hin & Ha)%existsb_exists. apply andb_true_iff in Ha as [Hne%negb_true_iff%String.eqb_neq Ha].
    destruct (splitArtifactURI allowed) as [[[ascheme aauth] ap]|] eqn:Ea; [| done].
    apply splitArtifactURI_iff in Ea as (ua & Hpa & <- & Haua & Hna & ->).
    destruct (EqualFold (Scheme u) (Scheme ua)) eqn:E1; [| done]. destruct (EqualFold auth aauth) eqn:E2; [| done]. cbn [negb orb] in Ha.
    apply pathUnderPrefix_segments in Ha; [| apply segments_kept | apply segments_kept | by apply kept_not_parent, parent_iff].
    exists allowed, u, ua, auth, aauth. apply list_elem_of_In in Hin. done.
  - intros (allowed & u & ua & auth & aauth & Hin & Hne & Hp & Hpa & Hau & Haua & E1 & E2 & Hn & Hna & Hpre).
    case_bool_decide as Hnil; [subst; by apply list.not_elem_of_nil in Hin |].
    rewrite (proj2 (splitArtifactURI_iff uri _ _ _)) by eauto 10. apply existsb_exists. exists allowed.
    split; [by apply list_elem_of_In |]. rewrite (proj2 (String.eqb_neq _ _) Hne). cbn [negb andb].
    rewrite (proj2 (splitArtifactURI_iff allowed _ _ _)) by eauto 10. rewrite E1, E2. cbn [negb orb].
    apply pathUnderPrefix_segments; [apply segments_kept | apply segments_kept | by apply kept_not_parent, parent_iff | exact Hpre].
Qed.
End allowed.
