(* ===== verification/ServingCache.v ===== *)
(** * Model serving: the result cache and the metrics

    [services/model-serving/internal/domain]: the FIFO cache of [cache.go] with the
    fingerprint of its inputs (FNV-1a over a canonical encoding), and the accumulator of
    [metrics.go] with its ring of latencies. *)

From S2P Require Import Prelude GoFormat ServingModel.
Open Scope fp_scope.

(** ** The cache (cache.go) *)

Abbreviation tensors := (gmap string Tensor).

Record cacheEntry := { fingerprint : Z; outputs : tensors }.
Record resultCache := { cache_max : Z; entries : gmap string cacheEntry; order : list string }.

Definition newResultCache (max : Z) : resultCache := {| cache_max := max; entries := ∅; order := [] |}.

Definition cache_get (key : string) (fp : Z) (c : resultCache) : option tensors :=
  if cache_max c <=? 0 then None
  else
    match entries c !! key with
    | None => None
    | Some e => if negb (fingerprint e =? fp) then None else Some (outputs e)
    end.

(** The eviction loop. *)
Fixpoint evict (max : Z) (order : list string) (entries : gmap string cacheEntry) : list string * gmap string cacheEntry :=
  match order with
  | oldest :: rest => if max <=? Z.of_nat (length order) then evict max rest (delete oldest entries) else (order, entries)
  | [] => ([], entries)
  end.

Definition cache_put (key : string) (fp : Z) (outs : tensors) (c : resultCache) : resultCache :=
  if cache_max c <=? 0 then c
  else
    let entry := {| fingerprint := fp; outputs := outs |} in
    match entries c !! key with
    | Some _ => {| cache_max := cache_max c; entries := <[key := entry]> (entries c); order := order c |}
    | None =>
        let '(order, entries) := evict (cache_max c) (order c) (entries c) in
        {| cache_max := cache_max c; entries := <[key := entry]> entries; order := order ++ [key] |}
    end.

(** ** The fingerprint *)

Definition fnv_offset : Z := 14695981039346656037.
Definition fnv_prime : Z := 1099511628211.

(** [hash/fnv.New64a] *)
Definition fnv1a (bytes : list Z) : Z := fold_left (fun h b => wrapu64 (Z.lxor h b * fnv_prime)) bytes fnv_offset.

(** [binary.BigEndian.PutUint64] *)
Fixpoint put_bytes (n : nat) (v : Z) : list Z := match n with O => [] | S n => put_bytes n (v / 256) ++ [v mod 256] end.
Definition PutUint64 (v : Z) : list Z := put_bytes 8 (wrapu64 v).

Definition writeChunk (s : string) : list Z := PutUint64 (Z.of_nat (String.length s)) ++ bytes_of s.

Definition tensor_bytes (t : Tensor) : list Z :=
  PutUint64 (datatype_int (DType t)) ++ PutUint64 (Z.of_nat (length (Shape t))) ++ concat (map PutUint64 (Shape t)) ++ writeChunk (Data t).

(** The tensors in the order of the sorted names. *)
Definition sorted_inputs (inputs : tensors) : list (string * Tensor) :=
  omap (fun name => (fun t => (name, t)) <$> inputs !! name) (merge_sort str_le (map fst (map_to_list inputs))).

Definition fingerprint_bytes (inputs : tensors) : list Z := concat (map (fun nt => writeChunk nt.1 ++ tensor_bytes nt.2) (sorted_inputs inputs)).

Definition fingerprintInputs (inputs : tensors) : Z := fnv1a (fingerprint_bytes inputs).

Example fnv1a_samples : map fnv1a [[]; [97]; [102; 111; 111; 98; 97; 114]] = [0xcbf29ce484222325; 0xaf63dc4c8601ec8c; 0x85944171f73967e8].
Proof. vm_compute. reflexivity. Qed.

(** ** The metrics (metrics.go) *)

Definition latencyWindow : nat := 256.

Record metricsAccumulator := {
  inflight : Z; total : Z; failed : Z; lastLatency : duration; memoryBytes : Z; latencies : list duration; latenciesHead : nat;
}.

Definition newMetricsAccumulator : metricsAccumulator :=
  {| inflight := 0; total := 0; failed := 0; lastLatency := 0; memoryBytes := 0; latencies := []; latenciesHead := 0 |}.

(** An [int32] counter. *)
Definition wrap32 (z : Z) : Z := (z + 2 ^ 31) mod 2 ^ 32 - 2 ^ 31.

Definition beginRequest (m : metricsAccumulator) : metricsAccumulator :=
  {| inflight := wrap32 (inflight m + 1); total := total m; failed := failed m; lastLatency := lastLatency m; memoryBytes := memoryBytes m;
     latencies := latencies m; latenciesHead := latenciesHead m |}.

Definition recordLatency (d : duration) (ring : list duration * nat) : list duration * nat :=
  let '(latencies, head) := ring in
  if (length latencies <? latencyWindow)%nat then (latencies ++ [d], head)
  else (<[head := d]> latencies, ((head + 1) mod latencyWindow)%nat).

Definition endRequest (latency : duration) (is_failed : bool) (m : metricsAccumulator) : metricsAccumulator :=
  let '(ring, head) := recordLatency latency (latencies m, latenciesHead m) in
  {| inflight := wrap32 (inflight m - 1); total := wrap64 (total m + 1); failed := if is_failed then wrap64 (failed m + 1) else failed m;
     lastLatency := latency; memoryBytes := memoryBytes m; latencies := ring; latenciesHead := head |}.

Definition setMemory (bytes : Z) (m : metricsAccumulator) : metricsAccumulator :=
  {| inflight := inflight m; total := total m; failed := failed m; lastLatency := lastLatency m; memoryBytes := bytes;
     latencies := latencies m; latenciesHead := latenciesHead m |}.

Definition rankIndex (p n : Z) : Z :=
  let rank := Z.quot (p * n + 99) 100 in
  let rank := if rank <? 1 then 1 else rank in
  let rank := if n <? rank then n else rank in
  rank - 1.

Definition percentilesLocked (window : list duration) : duration * duration :=
  let n := Z.of_nat (length window) in
  if n =? 0 then (0, 0)
  else
    let cp := merge_sort Z.le window in
    (default 0 (cp !! Z.to_nat (rankIndex 50 n)), default 0 (cp !! Z.to_nat (rankIndex 99 n))).

Record ServingMetrics := {
  InflightRequests : Z; TotalRequests : Z; FailedRequests : Z; P50Latency : duration; P99Latency : duration; LastInferenceLatency : duration;
  ModelMemoryBytes : Z;
}.

Definition snapshot (m : metricsAccumulator) : ServingMetrics :=
  let '(p50, p99) := percentilesLocked (latencies m) in
  {| InflightRequests := inflight m; TotalRequests := total m; FailedRequests := failed m; P50Latency := p50; P99Latency := p99;
     LastInferenceLatency := lastLatency m; ModelMemoryBytes := memoryBytes m |}.

(** ** The cache is a bounded queue of keys *)

(** Its abstract state: keys with their entries, oldest first. *)
Definition queue := list (string * cacheEntry).

Definition queue_get (k : string) (q : queue) : option cacheEntry := snd <$> List.find (fun ke => String.eqb ke.1 k) q.

Definition queue_put (max : nat) (k : string) (e : cacheEntry) (q : queue) : queue :=
  if existsb (fun ke => String.eqb ke.1 k) q then map (fun ke => if String.eqb ke.1 k then (k, e) else ke) q
  else drop (S (length q) - max) q ++ [(k, e)].

Definition entry_of (c : gmap string cacheEntry) (k : string) : option (string * cacheEntry) := (fun e => (k, e)) <$> c !! k.
Definition queue_of (c : resultCache) : queue := omap (entry_of (entries c)) (order c).

Record cache_ok (c : resultCache) : Prop := {
  keys_in_order k : is_Some (entries c !! k) <-> k ∈ order c;
  order_distinct : NoDup (order c);
  order_bounded : 0 < cache_max c -> Z.of_nat (length (order c)) <= cache_max c;
}.

Lemma queue_keys es ks : (forall k, k ∈ ks -> is_Some (es !! k)) -> map fst (omap (entry_of es) ks) = ks.
Proof.
  induction ks as [|k ks IH]; intros Hk; [done |]. cbn. unfold entry_of at 1. destruct (Hk k) as [e ->]; [by left |]. cbn.
  f_equal. apply IH. intros k' ?. apply Hk. by right.
Qed.

Lemma queue_get_of es ks k : (forall k, k ∈ ks -> is_Some (es !! k)) -> queue_get k (omap (entry_of es) ks) = if bool_decide (k ∈ ks) then es !! k else None.
Proof.
  induction ks as [|k' ks IH]; intros Hk; [done |]. cbn. unfold entry_of at 1. destruct (Hk k') as [e He]; [by left |]. rewrite He. unfold queue_get. cbn.
  destruct (String.eqb_spec k' k) as [-> | Hne].
  - rewrite bool_decide_true by (by left). by rewrite He.
  - fold (queue_get k (omap (entry_of es) ks)). rewrite IH by (intros; apply Hk; by right).
    by rewrite (bool_decide_ext _ (k ∈ k' :: ks)) by (rewrite elem_of_cons; naive_solver).
Qed.

Lemma queue_ext es es' (ks : list string) : (forall k, k ∈ ks -> es' !! k = es !! k) -> omap (entry_of es') ks = omap (entry_of es) ks.
Proof.
  induction ks as [|k ks IH]; intros He; [done |]. cbn. assert (entry_of es' k = entry_of es k) as -> by (unfold entry_of; rewrite He; [done | by left]).
  rewrite IH; [done |]. intros k' ?. apply He. by right.
Qed.

Lemma queue_insert_ne es (ks : list string) k e : k ∉ ks -> omap (entry_of (<[k := e]> es)) ks = omap (entry_of es) ks.
Proof. intros Hn. apply queue_ext. intros k' Hk. apply lookup_insert_ne. by intros ->. Qed.

Lemma queue_delete_ne es (ks : list string) k : k ∉ ks -> omap (entry_of (delete k es)) ks = omap (entry_of es) ks.
Proof. intros Hn. apply queue_ext. intros k' Hk. apply lookup_delete_ne. by intros ->. Qed.

Lemma queue_has es (ks : list string) k : (forall k, k ∈ ks -> is_Some (es !! k)) -> existsb (fun ke => String.eqb ke.1 k) (omap (entry_of es) ks) = bool_decide (k ∈ ks).
Proof.
  intros Hk. apply Bool.eq_iff_eq_true. rewrite bool_decide_eq_true, existsb_exists. split.
  - intros (ke & Hin & <-%String.eqb_eq). rewrite <- (queue_keys es ks Hk). apply list_elem_of_fmap. exists ke. split; [done | by apply list_elem_of_In].
  - intros Hin. rewrite <- (queue_keys es ks Hk) in Hin. apply list_elem_of_fmap in Hin as (ke & -> & Hin). exists ke. split; [by apply list_elem_of_In | apply String.eqb_refl].
Qed.

Lemma queue_update es (ks : list string) k e : (forall k, k ∈ ks -> is_Some (es !! k)) ->
  omap (entry_of (<[k := e]> es)) ks = map (fun ke => if String.eqb ke.1 k then (k, e) else ke) (omap (entry_of es) ks).
Proof.
  induction ks as [|k' ks IH]; intros Hk; [done |]. destruct (Hk k') as [e' He']; [by left |]. cbn.
  assert (entry_of es k' = Some (k', e')) as -> by (unfold entry_of; by rewrite He'). cbn. rewrite IH by (intros; apply Hk; by right).
  destruct (String.eqb_spec k' k) as [-> | Hne]; unfold entry_of at 1.
  - by rewrite lookup_insert_eq.
  - by rewrite lookup_insert_ne, He' by done.
Qed.

(** What the loop leaves: the newest keys with their entries. *)
Lemma evict_spec max (ks : list string) es : NoDup ks -> (forall k, is_Some (es !! k) <-> k ∈ ks) -> 0 < max ->
  exists es', evict max ks es = (drop (S (length ks) - Z.to_nat max) ks, es') /\
    (forall k, is_Some (es' !! k) <-> k ∈ drop (S (length ks) - Z.to_nat max) ks) /\
    omap (entry_of es') (drop (S (length ks) - Z.to_nat max) ks) = drop (S (length ks) - Z.to_nat max) (omap (entry_of es) ks).
Proof.
  intros Hd Hk Hm. revert es Hk. induction ks as [|oldest rest IH]; intros es Hk.
  - exists es. cbn [length]. replace (1 - Z.to_nat max)%nat with 0%nat by lia. done.
  - apply list.NoDup_cons in Hd as [Hno Hd]. cbn [evict]. destruct (Z.leb_spec max (Z.of_nat (length (oldest :: rest)))) as [Hle | Hgt].
    + cbn [length] in *. replace (S (S (length rest)) - Z.to_nat max)%nat with (S (S (length rest) - Z.to_nat max)) by lia. cbn [drop].
      destruct (IH Hd (delete oldest es)) as (es' & He & Hk' & Ho).
      { intros k. destruct (decide (k = oldest)) as [-> | Hne]; [rewrite lookup_delete_eq; split; [by intros [? ?] | done] |].
        rewrite lookup_delete_ne, Hk, elem_of_cons by done. naive_solver. }
      exists es'. split; [exact He |]. split; [exact Hk' |]. rewrite Ho, queue_delete_ne by done. cbn.
      destruct (proj2 (Hk oldest)) as [e He']; [by left |]. assert (entry_of es oldest = Some (oldest, e)) as -> by (unfold entry_of; by rewrite He'). done.
    + replace (S (length (oldest :: rest)) - Z.to_nat max)%nat with 0%nat by lia. by exists es.
Qed.

Lemma is_Some_insert_iff (es : gmap string cacheEntry) ks key e : (forall k, is_Some (es !! k) <-> k ∈ ks) ->
  forall k, is_Some (<[key := e]> es !! k) <-> k ∈ ks ++ [key].
Proof.
  intros Hk k. rewrite elem_of_app, list_elem_of_singleton. destruct (decide (k = key)) as [-> | Hne].
  - rewrite lookup_insert_eq. split; [by right | by eexists].
  - rewrite lookup_insert_ne, Hk by done. naive_solver.
Qed.

Lemma cache_get_queue c : cache_ok c -> 0 < cache_max c -> forall k fp,
  cache_get k fp c = match queue_get k (queue_of c) with Some e => if fingerprint e =? fp then Some (outputs e) else None | None => None end.
Proof.
  intros [Hk Hd Hb] Hm k fp. unfold cache_get, queue_of. destruct (Z.leb_spec (cache_max c) 0); [lia |].
  rewrite queue_get_of by (intros k'; apply Hk). case_bool_decide as Hko; [by destruct (entries c !! k) as [e|]; [destruct (fingerprint e =? fp) |] |].
  destruct (entries c !! k) eqn:E; [| done]. destruct Hko. apply Hk. by eexists.
Qed.

(** The result cache is a queue: in a cache of positive size, [get] finds the entry of
    its key if the fingerprint is the entry's, [put] replaces the entry of a known key in
    its place and otherwise appends, dropping the oldest key exactly when the queue is
    full; it never holds more than its size. *)
Theorem cache_refines_queue c key fp outs : cache_ok c -> 0 < cache_max c ->
  let c' := cache_put key fp outs c in
  cache_ok c' /\ cache_max c' = cache_max c /\
  queue_of c' = queue_put (Z.to_nat (cache_max c)) key {| fingerprint := fp; outputs := outs |} (queue_of c) /\
  forall k fp', cache_get k fp' c = match queue_get k (queue_of c) with
                                    | Some e => if fingerprint e =? fp' then Some (outputs e) else None
                                    | None => None
                                    end.
Proof.
  intros Hok Hm. pose proof Hok as [Hk Hd Hb]. specialize (Hb Hm). assert (forall k, k ∈ order c -> is_Some (entries c !! k)) as Hin by (intros k; apply Hk).
  pose proof (cache_get_queue c Hok Hm) as Hget. cbv zeta.
  unfold cache_put, queue_put, queue_of. destruct (Z.leb_spec (cache_max c) 0); [lia |]. rewrite (queue_has _ _ _ Hin).
  destruct (entries c !! key) as [e0|] eqn:Ek.
  - rewrite bool_decide_true by (apply Hk; by eexists). cbn [entries order cache_max]. split; [| split; [done | split; [by apply queue_update | exact Hget]]].
    constructor; cbn; try done. intros k. rewrite <- Hk. destruct (decide (k = key)) as [-> | Hne]; [| by rewrite lookup_insert_ne].
    rewrite lookup_insert_eq, Ek. split; by eexists.
  - assert (key ∉ order c) as Hno by (intros Hi; destruct (Hin _ Hi) as [? He]; congruence).
    rewrite bool_decide_false by done. destruct (evict_spec (cache_max c) _ _ Hd Hk Hm) as (es' & He & Hk' & Ho).
    assert (length (omap (entry_of (entries c)) (order c)) = length (order c)) as Hlen by (by rewrite <- (length_map fst), (queue_keys _ _ Hin)).
    rewrite He, Hlen, <- Ho. set (n := (S (length (order c)) - Z.to_nat (cache_max c))%nat) in *. cbn [entries order cache_max].
    assert (key ∉ drop n (order c)) as Hno' by (intros Hi; apply Hno; by eapply subseteq_drop).
    split; [| split; [done | split; [| exact Hget]]].
    + constructor; cbn [entries order cache_max]; [by apply is_Some_insert_iff | | intros _; rewrite length_app, length_drop; cbn; lia].
      apply list.NoDup_app. split; [by rewrite <- (take_drop n (order c)) in Hd; apply list.NoDup_app in Hd as (_ & _ & Hd) |]. split; [by intros x Hx ->%list_elem_of_singleton | apply list.NoDup_singleton].
    + rewrite omap_app, queue_insert_ne by done. cbn. assert (entry_of (<[key := {| fingerprint := fp; outputs := outs |}]> es') key = Some (key, {| fingerprint := fp; outputs := outs |})) as ->
        by (unfold entry_of; by rewrite lookup_insert_eq). done.
Qed.

(** ** The fingerprinted text determines the inputs *)

Lemma put_bytes_length n v : length (put_bytes n v) = n.
Proof. revert v. induction n as [|n IH]; intros v; [done |]. cbn. rewrite length_app, IH. cbn. lia. Qed.

Lemma put_bytes_inj n v w : 0 <= v < 256 ^ Z.of_nat n -> 0 <= w < 256 ^ Z.of_nat n -> put_bytes n v = put_bytes n w -> v = w.
Proof.
  revert v w. induction n as [|n IH]; intros v w Hv Hw; [cbn in *; lia |]. rewrite Nat2Z.inj_succ, Z.pow_succ_r in Hv, Hw by lia.
  cbn [put_bytes]. intros [He Hm]%app_inj_tail. apply IH in He; [| split; [apply Z.div_pos; lia | apply Z.div_lt_upper_bound; lia]..].
  rewrite (Z.div_mod v 256), (Z.div_mod w 256) by lia. lia.
Qed.

Lemma put_app_inj v w x y : PutUint64 v ++ x = PutUint64 w ++ y -> wrapu64 v = wrapu64 w /\ x = y.
Proof.
  intros [He Hr]%app_inj_1; [| unfold PutUint64; by rewrite !put_bytes_length]. split; [| exact Hr].
  apply (put_bytes_inj 8); [apply Z.mod_pos_bound; lia .. | exact He].
Qed.

Lemma wrapu64_len_inj a b : Z.of_nat a < 2 ^ 63 -> Z.of_nat b < 2 ^ 63 -> wrapu64 (Z.of_nat a) = wrapu64 (Z.of_nat b) -> a = b.
Proof. intros Ha Hb. unfold wrapu64. rewrite !Z.mod_small by lia. lia. Qed.

Lemma wrapu64_int_inj a b : in_int64 a -> in_int64 b -> wrapu64 a = wrapu64 b -> a = b.
Proof. unfold wrapu64, in_int64, int64_min, int64_max. intros Ha Hb He. pose proof (Z.div_mod a (2 ^ 64)). pose proof (Z.div_mod b (2 ^ 64)). nia. Qed.

Definition short (s : string) : Prop := Z.of_nat (String.length s) < 2 ^ 63.

Lemma bytes_of_length s : length (bytes_of s) = String.length s.
Proof. unfold bytes_of. rewrite length_map. induction s; cbn; [done | by rewrite IHs]. Qed.

Lemma bytes_of_inj s t : bytes_of s = bytes_of t -> s = t.
Proof.
  revert t. induction s as [|a s IH]; intros [|b t]; try done. cbn. intros [= Hb Hr]. rewrite <- (chr_byte a), <- (chr_byte b), Hb. f_equal. by apply IH.
Qed.

Lemma chunk_app_inj s t x y : short s -> short t -> writeChunk s ++ x = writeChunk t ++ y -> s = t /\ x = y.
Proof.
  intros Hs Ht. unfold writeChunk. rewrite <- !app_assoc. intros [Hl Hr]%put_app_inj. apply wrapu64_len_inj in Hl; [| done..].
  apply app_inj_1 in Hr as [Hb Hr]; [| by rewrite !bytes_of_length]. split; [by apply bytes_of_inj | exact Hr].
Qed.

(** A tensor as Go can hold it. *)
Definition tensor_fits (t : Tensor) : Prop := Forall in_int64 (Shape t) /\ Z.of_nat (length (Shape t)) < 2 ^ 63 /\ short (Data t).

Lemma dims_app_inj a b x y : length a = length b -> Forall in_int64 a -> Forall in_int64 b ->
  concat (map PutUint64 a) ++ x = concat (map PutUint64 b) ++ y -> a = b /\ x = y.
Proof.
  revert b. induction a as [|d a IH]; intros [|d' b] Hl Ha Hb; try done. cbn [map concat]. rewrite <- !app_assoc.
  apply list.Forall_cons in Ha as [Hd Ha]. apply list.Forall_cons in Hb as [Hd' Hb]. injection Hl as Hl.
  intros [Hdd Hr]%put_app_inj. apply wrapu64_int_inj in Hdd as ->; [| done..]. by apply IH in Hr as [-> ->].
Qed.

Lemma tensor_app_inj t u x y : tensor_fits t -> tensor_fits u -> tensor_bytes t ++ x = tensor_bytes u ++ y -> t = u /\ x = y.
Proof.
  intros (Hs & Hl & Hd) (Hs' & Hl' & Hd'). unfold tensor_bytes. rewrite <- !app_assoc. intros [Hty Hr]%put_app_inj.
  apply put_app_inj in Hr as [Hn Hr]. apply wrapu64_len_inj in Hn; [| done..].
  apply dims_app_inj in Hr as [Hsh Hr]; [| done..]. apply chunk_app_inj in Hr as [Hda ->]; [| done..]. split; [| done].
  destruct t as [s d ty], u as [s' d' ty']; cbn in *. subst. by destruct ty, ty'.
Qed.

Definition inputs_fit (inputs : tensors) : Prop := map_Forall (fun name t => short name /\ tensor_fits t) inputs.

Lemma sorted_inputs_elem inputs name t : (name, t) ∈ sorted_inputs inputs <-> inputs !! name = Some t.
Proof.
  unfold sorted_inputs. rewrite list_elem_of_omap. split.
  - intros (n & _ & Hn). destruct (inputs !! n) eqn:E; [| done]. by injection Hn as <- <-.
  - intros Hn. exists name. rewrite Hn. split; [| done]. rewrite merge_sort_Permutation. apply list_elem_of_fmap. exists (name, t). split; [done |]. by apply elem_of_map_to_list.
Qed.

Lemma records_inj (l l' : list (string * Tensor)) : Forall (fun nt => short nt.1 /\ tensor_fits nt.2) l -> Forall (fun nt => short nt.1 /\ tensor_fits nt.2) l' ->
  concat (map (fun nt => writeChunk nt.1 ++ tensor_bytes nt.2) l) = concat (map (fun nt => writeChunk nt.1 ++ tensor_bytes nt.2) l') -> l = l'.
Proof.
  assert (forall n t rest, writeChunk n ++ tensor_bytes t ++ rest <> []) as Hne.
  { intros n t rest He. apply (f_equal length) in He. unfold writeChunk, PutUint64 in He. rewrite !length_app, put_bytes_length in He. cbn in He. lia. }
  intros Hl. revert l'. induction Hl as [|[n t] l [Hn Ht] _ IH]; intros l' Hl'; destruct Hl' as [|[n' t'] l' [Hn' Ht'] Hl'];
    cbn [map concat fst snd]; rewrite <- ?app_assoc; [done | intros He | intros He |]; [by destruct (Hne n' t' _ (eq_sym He)) | by destruct (Hne n t _ He) |].
  intros [-> Hr]%chunk_app_inj; [| done..]. apply tensor_app_inj in Hr as [-> Hr]; [| done..]. by rewrite (IH l' Hl' Hr).
Qed.

(** The fingerprint binds the inputs: the text that [fingerprintInputs] hashes is one
    text for one set of named tensors, so two inputs share a fingerprint only by being
    equal or by a collision of FNV-1a. *)
Theorem fingerprint_text_injective a b : inputs_fit a -> inputs_fit b -> fingerprint_bytes a = fingerprint_bytes b <-> a = b.
Proof.
  intros Ha Hb. split; [| by intros ->]. intros He.
  assert (forall i, inputs_fit i -> Forall (fun nt => short nt.1 /\ tensor_fits nt.2) (sorted_inputs i)) as Hf.
  { intros i Hi. apply list.Forall_forall. intros [n t] Hin%sorted_inputs_elem. by apply (Hi n t). }
  apply records_inj in He; [| by apply Hf..]. apply map_eq. intros name. apply option_eq. intros t. by rewrite <- !sorted_inputs_elem, He.
Qed.

(** ** The ring holds the newest latencies *)

(** The loop of requests, as the ring sees it. *)
Definition record_all (ls : list duration) : list duration * nat := fold_left (fun ring d => recordLatency d ring) ls ([], 0%nat).

(** The window is the newest 256 latencies in their order: read from its head, the ring
    after any number of requests is the end of their list. *)
Theorem ring_holds_latest ls : let '(ring, head) := record_all ls in
  drop head ring ++ take head ring = drop (length ls - latencyWindow) ls.
Proof.
  enough (let '(ring, head) := record_all ls in
    drop head ring ++ take head ring = drop (length ls - latencyWindow) ls /\ length ring = Nat.min (length ls) latencyWindow /\
    (head < latencyWindow)%nat /\ (length ls < latencyWindow -> head = 0)%nat) by (destruct (record_all ls); tauto).
  induction ls as [|d ls IH] using rev_ind; [cbn; unfold latencyWindow; repeat split; lia |]. unfold record_all in *. rewrite fold_left_app. cbn [fold_left].
  destruct (fold_left _ ls _) as [ring head]. destruct IH as (Hr & Hl & Hh & H0). unfold recordLatency. rewrite length_app. cbn [length]. rewrite !Nat.add_1_r.
  destruct (Nat.ltb_spec (length ring) latencyWindow) as [Hlt | Hge].
  - assert (head = 0)%nat as -> by (apply H0; lia). rewrite drop_0, take_0, app_nil_r in Hr. rewrite drop_0, take_0, app_nil_r.
    replace (length ls - latencyWindow)%nat with 0%nat in Hr by lia. replace (S (length ls) - latencyWindow)%nat with 0%nat by lia.
    change (drop 0 ls) with ls in Hr. subst ring. split; [done |]. rewrite length_app. cbn [length]. repeat split; lia.
  - assert (length ring = latencyWindow) as Hfull by lia.
    assert (exists old, ring !! head = Some old) as [old Ho] by (apply lookup_lt_is_Some; lia).
    replace (S (length ls) - latencyWindow)%nat with (S (length ls - latencyWindow)) by lia.
    assert (drop (S head) (<[head := d]> ring) ++ take (S head) (<[head := d]> ring) = drop (S (length ls - latencyWindow)) (ls ++ [d])) as Hrot.
    { rewrite drop_insert_lt by lia. rewrite (take_S_r _ _ d) by (apply list_lookup_insert_eq; lia). rewrite take_insert_ge by lia.
      rewrite (drop_S ring old head Ho) in Hr. replace (S (length ls - latencyWindow)) with (length ls - latencyWindow + 1)%nat by lia.
      rewrite <- drop_drop, drop_app_le by lia. rewrite <- Hr. cbn [app drop]. by rewrite app_assoc. }
    rewrite length_insert. split; [| split; [lia | split; [apply Nat.mod_upper_bound; done | unfold latencyWindow in *; lia]]].
    destruct (decide (S head = latencyWindow)) as [Hw | Hw].
    + rewrite Hw, Nat.Div0.mod_same. rewrite drop_0, take_0, app_nil_r. rewrite Hw in Hrot.
      rewrite drop_ge, take_ge in Hrot by (rewrite length_insert; lia). exact Hrot.
    + by rewrite Nat.mod_small by lia.
Qed.

(** ** Percentiles by nearest rank *)

Lemma sorted_split (s : list Z) i v : StronglySorted Z.le s -> s !! i = Some v ->
  Forall (fun x => x <= v) (take i s) /\ Forall (fun x => v <= x) (drop i s).
Proof.
  intros Hs Hi. pose proof (lookup_lt_Some _ _ _ Hi) as Hlt. split.
  - apply list.Forall_forall. intros x (j & Hj)%list_elem_of_lookup_1. apply lookup_take_Some in Hj as [Hj Hji].
    exact (StronglySorted_lt Z.le s j i x v Hs Hj Hi Hji).
  - rewrite (drop_S s v i Hi). constructor; [lia |]. apply list.Forall_forall. intros x (j & Hj)%list_elem_of_lookup_1. rewrite lookup_drop in Hj.
    apply (StronglySorted_lt Z.le s i (S i + j) v x Hs); [exact Hi | exact Hj | lia].
Qed.

Lemma filter_length_all (P : Z -> bool) l : Forall (fun x => P x = true) l -> length (List.filter P l) = length l.
Proof. induction 1 as [|x l Hx _ IH]; [done |]. cbn. by rewrite Hx; cbn; rewrite IH. Qed.

Lemma filter_length_none (P : Z -> bool) l : Forall (fun x => P x = false) l -> length (List.filter P l) = 0%nat.
Proof. induction 1 as [|x l Hx _ IH]; [done |]. cbn. by rewrite Hx. Qed.

Lemma filter_length_perm (P : Z -> bool) l l' : l ≡ₚ l' -> length (List.filter P l) = length (List.filter P l').
Proof. induction 1 as [|x l l' _ IH | x y l | l l' l'' _ IH1 _ IH2]; cbn; [done | by destruct (P x); cbn; rewrite IH | by destruct (P x), (P y) | congruence]. Qed.

(** How many of the window are at most, or below, a value. *)
Definition at_most (v : Z) (window : list Z) : Z := Z.of_nat (length (List.filter (fun x => x <=? v) window)).
Definition below (v : Z) (window : list Z) : Z := Z.of_nat (length (List.filter (fun x => x <? v) window)).

Lemma rank_bounds p n : 1 <= p <= 100 -> 1 <= n -> 0 <= rankIndex p n < n /\ p * n <= 100 * (rankIndex p n + 1) < p * n + 100.
Proof.
  intros Hp Hn. unfold rankIndex. rewrite Z.quot_div_nonneg by nia. pose proof (Z.div_mod (p * n + 99) 100 ltac:(lia)) as Hd.
  pose proof (Z.mod_pos_bound (p * n + 99) 100 ltac:(lia)). destruct (Z.ltb_spec ((p * n + 99) / 100) 1); [nia |].
  destruct (Z.ltb_spec n ((p * n + 99) / 100)); nia.
Qed.

Lemma nearest_rank p window : 1 <= p <= 100 -> window <> [] ->
  let v := default 0 (merge_sort Z.le window !! Z.to_nat (rankIndex p (Z.of_nat (length window)))) in
  v ∈ window /\ p * Z.of_nat (length window) <= 100 * at_most v window /\ 100 * below v window < p * Z.of_nat (length window).
Proof.
  intros Hp Hne. assert (1 <= Z.of_nat (length window)) as Hn by (destruct window; [done | cbn; lia]).
  destruct (rank_bounds p _ Hp Hn) as [Hi Hr]. set (i := rankIndex p (Z.of_nat (length window))) in *.
  pose proof (merge_sort_Permutation Z.le window) as Hperm. set (s := merge_sort Z.le window) in *.
  assert (StronglySorted Z.le s) as Hs by (apply StronglySorted_merge_sort; apply _).
  assert (length s = length window) as Hl by (by rewrite Hperm).
  destruct (lookup_lt_is_Some_2 s (Z.to_nat i)) as [v Hv]; [lia |]. rewrite Hv. cbv zeta. change (default 0 (Some v)) with v.
  split; [rewrite <- Hperm; by eapply list_elem_of_lookup_2 |]. destruct (sorted_split s _ v Hs Hv) as [Hlo Hhi].
  unfold at_most, below. rewrite <- !(filter_length_perm _ s window Hperm). rewrite <- (take_drop (Z.to_nat i) s), !filter_app, !length_app.
  rewrite (filter_length_all _ (take _ s)) by (eapply Forall_impl; [| exact Hlo]; cbn; intros; lia).
  rewrite (filter_length_none (fun x => x <? v) (drop _ s)) by (eapply Forall_impl; [| exact Hhi]; cbn; intros; lia).
  rewrite (drop_S s v _ Hv). cbn [List.filter]. rewrite Z.leb_refl. cbn [length].
  pose proof (List.filter_length_le (fun x => x <? v) (take (Z.to_nat i) s)). rewrite length_take in *. lia.
Qed.

(** C40. The reported percentiles are nearest ranks: of a non-empty window, each is one of
    its latencies, at least that share of the window is no longer, and less than that share
    is shorter. *)
Theorem percentiles_nearest_rank window : window <> [] ->
  let '(p50, p99) := percentilesLocked window in
  (p50 ∈ window /\ 50 * Z.of_nat (length window) <= 100 * at_most p50 window /\ 100 * below p50 window < 50 * Z.of_nat (length window)) /\
  (p99 ∈ window /\ 99 * Z.of_nat (length window) <= 100 * at_most p99 window /\ 100 * below p99 window < 99 * Z.of_nat (length window)).
Proof.
  intros Hne. unfold percentilesLocked. destruct (Z.eqb_spec (Z.of_nat (length window)) 0); [destruct window; [done | cbn [length] in *; lia] |].
  split; apply nearest_rank; (lia || done).
Qed.
