(* ===== verification/Serving.v ===== *)
(** * The model serving service

    [services/model-serving/internal]: the operations of [domain/serving_service_impl.go]
    as programs of sections under the registry's mutex and calls to the engine, the fetcher
    and the clock; the event reactions of [events/subscriber.go]; the status mapping of
    [handler/serving_handler.go]. A follower of a load in flight waits for its leader and
    then only returns the leader's status: its program ends in [Following] that flight, and
    the flight's status is in [flights] once the leader has closed it. *)

From S2P Require Import Prelude Concur Site AuditCapture GoNet ServingModel ServingCache.
Open Scope fp_scope.

(** ** The outside: clock, artifact storage, inference engine, and Go's map orders *)

Record LoadedSession := { ls_InputSchema : list TensorSpec; ls_OutputSchema : list TensorSpec; ls_MemoryBytes : Z; ls_Digest : string }.

Class ServingOutside (W : Type) : Type := {
  clock_Now : W -> time * W;
  clock_Since : time -> W -> duration * W;
  Fetch : string -> W -> result (string * string) serving_error * W;
  engine_Load : ModelRef -> string -> W -> result LoadedSession serving_error * W;
  engine_Predict : ModelRef -> tensors -> W -> result tensors serving_error * W;
  engine_Unload : ModelRef -> W -> option serving_error * W;
  range_inputs : tensors -> W -> list (string * Tensor) * W;
  range_registry : gmap ModelRef LoadedModel -> W -> list LoadedModel * W;
  error_text : serving_error -> string;
}.

(** ** The state of a pod *)

(** [flights] are the statuses that leaders have recorded, [closed] the flights whose
    channel is closed; a leader never has an error to give its followers. [desiredArtifacts] is the memory of the event subscriber. *)
Record pod := {
  registry : gmap ModelRef LoadedModel; loading : gmap ModelRef nat; flights : gmap nat ModelStatus; closed : gset nat;
  metrics : metricsAccumulator; cache : resultCache;
  desiredArtifacts : gmap ModelRef (string * string);
}.

Definition with_registry (d : pod) (r : gmap ModelRef LoadedModel) : pod :=
  {| registry := r; loading := loading d; flights := flights d; closed := closed d; metrics := metrics d; cache := cache d; desiredArtifacts := desiredArtifacts d |}.
Definition with_metrics (f : metricsAccumulator -> metricsAccumulator) (d : pod) : pod :=
  {| registry := registry d; loading := loading d; flights := flights d; closed := closed d; metrics := f (metrics d); cache := cache d; desiredArtifacts := desiredArtifacts d |}.
Definition with_cache (f : resultCache -> resultCache) (d : pod) : pod :=
  {| registry := registry d; loading := loading d; flights := flights d; closed := closed d; metrics := metrics d; cache := f (cache d); desiredArtifacts := desiredArtifacts d |}.

Record ServiceConfig := {
  AllowedArtifactURIs : list string; LivenessLatencyMax : duration; MaxInputTensors : Z; MaxTensorBytes : Z;
  DefaultPageSize : Z; MaxPageSize : Z; IdempotencyCacheSize : Z;
}.

Definition defaultMaxInputTensors : Z := 64.
Definition defaultMaxTensorBytes : Z := 16 * 2 ^ 20.
Definition defaultPageSize : Z := 20.
Definition defaultMaxPageSize : Z := 100.
Definition defaultIdempCacheSize : Z := 1024.

Definition positive_or (n default : Z) : Z := if n <=? 0 then default else n.

(** The limits as a service keeps them. *)
Definition limits (cfg : ServiceConfig) : ServiceConfig := {|
  AllowedArtifactURIs := AllowedArtifactURIs cfg; LivenessLatencyMax := LivenessLatencyMax cfg;
  MaxInputTensors := positive_or (MaxInputTensors cfg) defaultMaxInputTensors;
  MaxTensorBytes := positive_or (MaxTensorBytes cfg) defaultMaxTensorBytes;
  DefaultPageSize := positive_or (DefaultPageSize cfg) defaultPageSize;
  MaxPageSize := positive_or (MaxPageSize cfg) defaultMaxPageSize;
  IdempotencyCacheSize := if IdempotencyCacheSize cfg =? 0 then defaultIdempCacheSize else IdempotencyCacheSize cfg |}.

Definition NewServingService (cfg : ServiceConfig) : pod := {|
  registry := ∅; loading := ∅; flights := ∅; closed := ∅; metrics := newMetricsAccumulator; cache := newResultCache (IdempotencyCacheSize (limits cfg));
  desiredArtifacts := ∅ |}.

(** ** Requests *)

Record LoadModelInput := { lm_Ref : ModelRef; lm_ArtifactURI : string; ExpectedDigest : string }.
Record PredictInput := { RequestedRef : ModelRef; Inputs : tensors; IdempotencyKey : string; CorrelationID : string }.
Record PredictResult := { Outputs : tensors; ModelVersion : string; InferenceLatency : duration; pr_CorrelationID : string; FromCache : bool }.

Inductive HealthVerdict := HealthUnspecified | HealthServing | HealthNotServing.

(** How a load ends: with its own answer, or with that of the flight it follows. *)
Inductive load_outcome := Answered (r : result ModelStatus serving_error) | Following (flight : nat).

(** ** The registry under its mutex *)

Definition fresh_model (ref : ModelRef) (state : ModelState) : LoadedModel := {|
  Ref := ref; State := state; Message := ""; ArtifactURI := ""; ArtifactDigest := ""; InputSchema := []; OutputSchema := [];
  MemoryBytes := 0; LoadedAt := 0; UpdatedAt := 0 |}.

Definition with_state (state : ModelState) (msg : string) (now : time) (m : LoadedModel) : LoadedModel := {|
  Ref := Ref m; State := state; Message := msg; ArtifactURI := ArtifactURI m; ArtifactDigest := ArtifactDigest m;
  InputSchema := InputSchema m; OutputSchema := OutputSchema m; MemoryBytes := MemoryBytes m; LoadedAt := LoadedAt m; UpdatedAt := now |}.

Definition with_uri (uri : string) (m : LoadedModel) : LoadedModel := {|
  Ref := Ref m; State := State m; Message := Message m; ArtifactURI := uri; ArtifactDigest := ArtifactDigest m;
  InputSchema := InputSchema m; OutputSchema := OutputSchema m; MemoryBytes := MemoryBytes m; LoadedAt := LoadedAt m; UpdatedAt := UpdatedAt m |}.

(** The model that [upsertLocked] leaves under its reference. *)
Definition upsertLocked (ref : ModelRef) (state : ModelState) (msg : string) (now : time) (r : gmap ModelRef LoadedModel) : LoadedModel :=
  let m := default (fresh_model ref StateUnspecified) (r !! ref) in
  if CanTransitionTo (State m) state then with_state state msg now m else m.

Inductive claim := NoOp (st : ModelStatus) | Conflict | Follow (flight : nat) | Lead.

(** The one decision of [LoadModel] under the lock. *)
Definition decide_load (input : LoadModelInput) (d : pod) : claim :=
  let in_flight := match loading d !! lm_Ref input with Some flight => Follow flight | None => Lead end in
  match registry d !! lm_Ref input with
  | Some existing =>
      if bool_decide (State existing = StateReady) && digestMatches (ArtifactDigest existing) (ExpectedDigest input) then NoOp (Status existing)
      else if bool_decide (State existing = StateReady) && negb (String.eqb (ExpectedDigest input) "") &&
              negb (digestMatches (ArtifactDigest existing) (ExpectedDigest input)) then Conflict
      else in_flight
  | None => in_flight
  end.

(** [residentModelLockedRaw] *)
Definition residentModelLockedRaw (ref : ModelRef) (r : gmap ModelRef LoadedModel) : result LoadedModel serving_error :=
  if negb (String.eqb (r_Name ref) "") && negb (String.eqb (r_Version ref) "") then
    match r !! ref with Some m => Ok m | None => Err (Sentinel ErrModelNotFound) end
  else
    match List.filter (fun km => String.eqb (r_Name ref) "" || String.eqb (r_Name km.1) (r_Name ref)) (map_to_list r) with
    | [km] => Ok km.2
    | _ => Err (Sentinel ErrModelNotFound)
    end.

Section service.
Context {W : Type} `{ServingOutside W} `{Urls}.
Context (cfg : ServiceConfig).

Abbreviation call := (prog (site W pod)).

(** A section under the mutex that may read the clock. *)
Definition locked {R} (f : W -> pod -> R * W * pod) : call R :=
  atom (fun s => let '(r, w, d) := f (s_world s) (s_db s) in (r, {| s_world := w; s_db := d |})).

(** A section that only reads. *)
Definition peek {R} (f : pod -> R) : call R := locked (fun w d => (f d, w, d)).

(** A nil dereference. *)
Definition panic {A} : result A serving_error := Err (External "panic: nil pointer dereference").

(** ** Loads *)

(** The section that decides, and claims the flight [me] for a leader. *)
Definition claim_flight (me : nat) (input : LoadModelInput) : call claim :=
  locked (fun w d =>
    match decide_load input d with
    | Lead =>
        let '(now, w) := clock_Now w in
        (Lead, w, {| registry := <[lm_Ref input := with_uri (lm_ArtifactURI input) (upsertLocked (lm_Ref input) StateDownloading "" now (registry d))]> (registry d);
                     loading := <[lm_Ref input := me]> (loading d); flights := flights d; closed := closed d; metrics := metrics d; cache := cache d; desiredArtifacts := desiredArtifacts d |})
    | c => (c, w, d)
    end).

Definition transition (ref : ModelRef) (state : ModelState) (msg : string) : call unit :=
  locked (fun w d =>
    match registry d !! ref with
    | Some m => if CanTransitionTo (State m) state
                then let '(now, w) := clock_Now w in (tt, w, with_registry d (<[ref := with_state state msg now m]> (registry d)))
                else (tt, w, d)
    | None => (tt, w, d)
    end).

Definition fail (ref : ModelRef) (reason : string) : call ModelStatus :=
  locked (fun w d =>
    let '(now, w) := clock_Now w in
    let m := with_state StateFailed reason now (default (fresh_model ref StateUnspecified) (registry d !! ref)) in
    (Status m, w, with_registry d (<[ref := m]> (registry d)))).

(** [finish]: the status is recorded and the flight removed, then its channel is closed. *)
Definition finish (me : nat) (ref : ModelRef) (st : ModelStatus) : call load_outcome :=
  do! _ := touch (fun d => {| registry := registry d; loading := delete ref (loading d); flights := <[me := st]> (flights d); closed := closed d;
                              metrics := metrics d; cache := cache d; desiredArtifacts := desiredArtifacts d |}) in
  do! _ := touch (fun d => {| registry := registry d; loading := loading d; flights := flights d; closed := {[me]} ∪ closed d;
                              metrics := metrics d; cache := cache d; desiredArtifacts := desiredArtifacts d |}) in
  Ret (Answered (Ok st)).

(** The section that commits a loaded session. *)
Definition commit (input : LoadModelInput) (session : LoadedSession) (finalDigest : string) (readyAt : time) : call ModelStatus :=
  locked (fun w d =>
    let m := default (fresh_model (lm_Ref input) StateUnspecified) (registry d !! lm_Ref input) in
    let m := {| Ref := Ref m; State := StateReady; Message := ""; ArtifactURI := lm_ArtifactURI input; ArtifactDigest := finalDigest;
                InputSchema := ls_InputSchema session; OutputSchema := ls_OutputSchema session; MemoryBytes := ls_MemoryBytes session;
                LoadedAt := readyAt; UpdatedAt := readyAt |} in
    (Status m, w, with_registry d (<[lm_Ref input := m]> (registry d)))).

(** What the leader does with its flight. *)
Definition lead (me : nat) (input : LoadModelInput) : call load_outcome :=
  let ref := lm_Ref input in
  do! fetched := ask (Fetch (lm_ArtifactURI input)) in
  match fetched with
  | Err err =>
      do! st := fail ref (if errors_is err ErrArtifactNotFound then "artifact not found in object storage"
                          else "artifact fetch failed: " +:+ error_text err) in
      finish me ref st
  | Ok (localPath, fetchedDigest) =>
      if negb (String.eqb (ExpectedDigest input) "") && negb (digestMatches fetchedDigest (ExpectedDigest input)) then
        do! st := fail ref ("digest mismatch: got " +:+ fetchedDigest +:+ " want " +:+ ExpectedDigest input) in
        finish me ref st
      else
        do! _ := transition ref StateLoading "" in
        do! session := ask (engine_Load ref localPath) in
        match session with
        | Err err =>
            do! st := fail ref ("engine load failed: " +:+ error_text err) in
            finish me ref st
        | Ok session =>
            if negb (String.eqb (ExpectedDigest input) "") && negb (String.eqb (ls_Digest session) "") &&
               negb (digestMatches (ls_Digest session) (ExpectedDigest input)) then
              do! st := fail ref "engine digest mismatch" in
              finish me ref st
            else
              let finalDigest := if String.eqb (ls_Digest session) "" then fetchedDigest else ls_Digest session in
              do! readyAt := ask clock_Now in
              do! st := commit input session finalDigest readyAt in
              do! _ := touch (with_metrics (setMemory (ls_MemoryBytes session))) in
              finish me ref st
        end
  end.

(** [LoadModel]; [me] is the identity of the flight that this call would allocate. *)
Definition LoadModel (me : nat) (input : LoadModelInput) : call load_outcome :=
  if String.eqb (r_Name (lm_Ref input)) "" then Ret (Answered (Err (wrapValidation "model name is required")))
  else if String.eqb (r_Version (lm_Ref input)) "" then Ret (Answered (Err (wrapValidation "model version is required")))
  else if String.eqb (lm_ArtifactURI input) "" then Ret (Answered (Err (wrapValidation "artifact URI is required")))
  else if negb (ArtifactURIAllowed (lm_ArtifactURI input) (AllowedArtifactURIs cfg)) then Ret (Answered (Err (Sentinel ErrArtifactURINotAllowed)))
  else
    do! c := claim_flight me input in
    match c with
    | NoOp st => Ret (Answered (Ok st))
    | Conflict => Ret (Answered (Err (Sentinel ErrModelAlreadyExists)))
    | Follow flight => Ret (Following flight)
    | Lead => lead me input
    end.

(** ** Unloads *)

Definition resolveRef (ref : ModelRef) : call (result ModelRef serving_error) :=
  peek (fun d => match residentModelLockedRaw ref (registry d) with Ok m => Ok (Ref m) | Err e => Err e end).

(** The section that marks a model unloaded. *)
Definition mark_unloaded (ref : ModelRef) (msg : string) : call (result ModelStatus serving_error) :=
  locked (fun w d =>
    match registry d !! ref with
    | Some m => let '(now, w) := clock_Now w in
                let m := with_state StateUnloaded msg now m in (Ok (Status m), w, with_registry d (<[ref := m]> (registry d)))
    | None => (panic, w, d)
    end).

Definition UnloadModel (ref : ModelRef) (reason : string) : call (result ModelStatus serving_error) :=
  do! resolved := resolveRef ref in
  match resolved with
  | Err err =>
      if errors_is err ErrModelNotFound then
        do! now := ask clock_Now in
        Ret (Ok {| st_Ref := ref; st_State := StateUnloaded; st_Message := reason; st_UpdatedAt := now |})
      else Ret (Err err)
  | Ok resolved =>
      do! uerr := ask (engine_Unload resolved) in
      match uerr with
      | Some uerr => mark_unloaded resolved ("unloaded (engine reported: " +:+ error_text uerr +:+ ")")
      | None => mark_unloaded resolved reason
      end
  end.

(** ** Predictions *)

Fixpoint check_inputs (inputs : list (string * Tensor)) : option serving_error :=
  match inputs with
  | [] => None
  | (name, t) :: inputs =>
      if MaxTensorBytes cfg <? Z.of_nat (String.length (Data t)) then Some (Wrap "tensor exceeds max bytes" (Sentinel ErrValidation))
      else match ValidateLayout t with
           | Some _ => Some (Wrap "tensor" (Sentinel ErrValidation))
           | None => check_inputs inputs
           end
  end.

(** [inputs] in the order in which the map is walked. *)
Definition validateInputs (inputs : list (string * Tensor)) : option serving_error :=
  if MaxInputTensors cfg <? Z.of_nat (length inputs) then Some (Wrap "too many input tensors" (Sentinel ErrValidation)) else check_inputs inputs.

(** The state behind the pointer that the first section returned. *)
Definition state_of (ref : ModelRef) : call ModelState := peek (fun d => match registry d !! ref with Some m => State m | None => StateUnspecified end).

Definition infer (served : ModelRef) (input : PredictInput) (fp : Z) : call (result PredictResult serving_error) :=
  do! start := ask clock_Now in
  do! _ := touch (with_metrics beginRequest) in
  do! outs := ask (engine_Predict served (Inputs input)) in
  do! latency := ask (clock_Since start) in
  do! _ := touch (with_metrics (endRequest latency (negb (is_ok outs)))) in
  match outs with
  | Err _ => Ret (Err (Sentinel ErrInferenceFailed))
  | Ok outs =>
      do! _ := (if negb (String.eqb (IdempotencyKey input) "") then touch (with_cache (cache_put (IdempotencyKey input) fp outs)) else Ret tt) in
      Ret (Ok {| Outputs := outs; ModelVersion := r_Version served; InferenceLatency := latency; pr_CorrelationID := CorrelationID input; FromCache := false |})
  end.

Definition Predict (input : PredictInput) : call (result PredictResult serving_error) :=
  do! resident := peek (fun d => residentModelLockedRaw {| r_Name := ""; r_Version := "" |} (registry d)) in
  match resident with
  | Err _ => Ret (Err (Wrap "no model loaded on this pod" (Sentinel ErrModelNotReady)))
  | Ok resident =>
      let served := Ref resident in
      if negb (String.eqb (r_Name (RequestedRef input)) "") && negb (String.eqb (r_Name (RequestedRef input)) (r_Name served)) then
        Ret (Err (Wrap "requested" (Sentinel ErrModelRequestMismatch)))
      else if negb (String.eqb (r_Version (RequestedRef input)) "") && negb (String.eqb (r_Version (RequestedRef input)) (r_Version served)) then
        Ret (Err (Wrap "requested version" (Sentinel ErrModelRequestMismatch)))
      else
        do! state := state_of served in
        if negb (IsServable state) then Ret (Err (Wrap "model" (Sentinel ErrModelNotReady)))
        else
          do! walked := ask (range_inputs (Inputs input)) in
          match validateInputs walked with
          | Some err => Ret (Err err)
          | None =>
              let fp := fingerprintInputs (Inputs input) in
              do! cached := (if negb (String.eqb (IdempotencyKey input) "") then peek (fun d => cache_get (IdempotencyKey input) fp (cache d)) else Ret None) in
              match cached with
              | Some outs =>
                  Ret (Ok {| Outputs := outs; ModelVersion := r_Version served; InferenceLatency := 0; pr_CorrelationID := CorrelationID input; FromCache := true |})
              | None => infer served input fp
              end
          end
  end.

(** ** Reads *)

Definition GetModelStatus (ref : ModelRef) : call (result ModelStatus serving_error) :=
  do! resolved := resolveRef ref in
  match resolved with
  | Err e => Ret (Err e)
  | Ok ref => peek (fun d => match registry d !! ref with Some m => Ok (Status m) | None => panic end)
  end.

Definition GetModelInfo (ref : ModelRef) : call (result LoadedModel serving_error) :=
  do! resolved := resolveRef ref in
  match resolved with
  | Err e => Ret (Err e)
  | Ok ref => peek (fun d => match registry d !! ref with Some m => Ok m | None => panic end)
  end.

Definition ListLoadedModels (page_size : Z) (filter : ModelState) : call (list ModelStatus) :=
  let pageSize := if page_size <=? 0 then DefaultPageSize cfg else page_size in
  let pageSize := if MaxPageSize cfg <? pageSize then MaxPageSize cfg else pageSize in
  locked (fun w d =>
    let '(models, w) := range_registry (registry d) w in
    let matching := List.filter (fun m => bool_decide (filter = StateUnspecified) || bool_decide (State m = filter)) models in
    (map Status (take (Z.to_nat (Z.max 1 pageSize)) matching), w, d)).

Definition GetServingMetrics : call ServingMetrics := peek (fun d => snapshot (metrics d)).

Definition HealthCheck (modelName : string) : call (HealthVerdict * ModelState * duration) :=
  do! last := peek (fun d => lastLatency (metrics d)) in
  do! resolved := resolveRef {| r_Name := modelName; r_Version := "" |} in
  match resolved with
  | Err _ => Ret (HealthNotServing, StateUnspecified, last)
  | Ok ref =>
      do! state := state_of ref in
      Ret (if negb (IsServable state) then (HealthNotServing, state, last)
           else if (0 <? LivenessLatencyMax cfg) && (LivenessLatencyMax cfg <? last) then (HealthNotServing, state, last)
           else (HealthServing, state, last))
  end.

(** ** Reactions to events (subscriber.go): [None] acknowledges *)

Inductive serving_event :=
| Unparseable
| ModelVersionReady (name version artifact_path artifact_digest : string)
| ModelDeployed (name version : string)
| ModelPromoted (name version : string)
| ModelUndeployed (name version reason : string)
| ModelArchived (name : string).

Definition ErrProcessingFailed : serving_error := External "processing failed".

Definition isPermanentLoadError (e : serving_error) : bool :=
  errors_is e ErrValidation || errors_is e ErrArtifactURINotAllowed || errors_is e ErrModelAlreadyExists || errors_is e ErrDigestMismatch.

Definition remember (f : gmap ModelRef (string * string) -> gmap ModelRef (string * string)) (d : pod) : pod :=
  {| registry := registry d; loading := loading d; flights := flights d; closed := closed d; metrics := metrics d; cache := cache d; desiredArtifacts := f (desiredArtifacts d) |}.

(** A follower's answer has no error, as its leader's never has. *)
Definition ensureLoaded (me : nat) (input : LoadModelInput) : call (option serving_error) :=
  do! r := LoadModel me input in
  Ret (match r with
       | Answered (Err err) => if isPermanentLoadError err then None else Some ErrProcessingFailed
       | Answered (Ok _) | Following _ => None
       end).

Definition reconcileLoadFromMemory (me : nat) (ref : ModelRef) : call (option serving_error) :=
  if String.eqb (r_Name ref) "" || String.eqb (r_Version ref) "" then Ret None
  else
    do! art := peek (fun d => desiredArtifacts d !! ref) in
    match art with
    | None => Ret None
    | Some (uri, digest) => ensureLoaded me {| lm_Ref := ref; lm_ArtifactURI := uri; ExpectedDigest := digest |}
    end.

Definition unload (ref : ModelRef) (reason : string) : call (option serving_error) :=
  do! r := UnloadModel ref reason in
  match r with
  | Err _ => Ret (Some ErrProcessingFailed)
  | Ok _ => do! _ := touch (remember (delete ref)) in Ret None
  end.

Fixpoint archive_all (name : string) (statuses : list ModelStatus) : call (option serving_error) :=
  match statuses with
  | [] => Ret None
  | st :: statuses =>
      if negb (String.eqb (r_Name (st_Ref st)) name) then archive_all name statuses
      else
        do! r := UnloadModel (st_Ref st) "archived" in
        match r with
        | Err _ => Ret (Some ErrProcessingFailed)
        | Ok _ => do! _ := touch (remember (delete (st_Ref st))) in archive_all name statuses
        end
  end.

Definition react (me : nat) (e : serving_event) : call (option serving_error) :=
  match e with
  | Unparseable => Ret None
  | ModelVersionReady name version artifact_path artifact_digest =>
      let ref := {| r_Name := name; r_Version := version |} in
      if String.eqb name "" || String.eqb version "" || String.eqb artifact_path "" then Ret None
      else
        do! _ := touch (remember <[ref := (artifact_path, artifact_digest)]>) in
        ensureLoaded me {| lm_Ref := ref; lm_ArtifactURI := artifact_path; ExpectedDigest := artifact_digest |}
  | ModelDeployed name version | ModelPromoted name version => reconcileLoadFromMemory me {| r_Name := name; r_Version := version |}
  | ModelUndeployed name version reason =>
      if String.eqb name "" || String.eqb version "" then Ret None
      else unload {| r_Name := name; r_Version := version |} (if String.eqb reason "" then "undeployed" else reason)
  | ModelArchived name =>
      if String.eqb name "" then Ret None
      else do! statuses := ListLoadedModels 0 StateUnspecified in archive_all name statuses
  end.
End service.

(** ** The status of an error (serving_handler.go) *)

Definition mapStatusErr (e : serving_error) : rpc_error :=
  if errors_is e ErrValidation then AuditCapture.Status InvalidArgument "serving: validation failed"
  else if errors_is e ErrModelNotFound then AuditCapture.Status NotFound "model not found on this pod"
  else if errors_is e ErrModelAlreadyExists then AuditCapture.Status AlreadyExists "model version already loaded with a different artifact"
  else if errors_is e ErrArtifactURINotAllowed then AuditCapture.Status PermissionDenied "artifact URI is not permitted"
  else if errors_is e ErrModelNotReady then AuditCapture.Status FailedPrecondition "model is not ready to serve predictions"
  else if errors_is e ErrModelRequestMismatch then AuditCapture.Status FailedPrecondition "request targets a model this pod does not serve"
  else if errors_is e ErrDigestMismatch then AuditCapture.Status FailedPrecondition "artifact digest does not match expected digest"
  else if errors_is e ErrInferenceFailed then
    if errors_is e ErrEngineBadInput then AuditCapture.Status InvalidArgument "inference inputs were rejected by the model"
    else AuditCapture.Status Internal "internal serving error"
  else AuditCapture.Status Internal "internal serving error".
