(* ===== verification/ServingSafety.v ===== *)
(** * Model serving under any interleaving of calls

    What loads, unloads, predictions and event reactions may do to a pod's registry and to
    the loads in flight, each thread against the others. *)

From S2P Require Import Prelude Concur Site AuditCapture GoNet ServingModel ServingCache Serving.
Open Scope fp_scope.

(** ** Steps of a thread on the pod *)

Section steps.
(** Whether threads may unload models. *)
Variable may : Prop.

Definition owns (me : nat) (ref : ModelRef) (d : pod) : Prop := loading d !! ref = Some me.

(** What the thread [me] may do to the entry of [ref]. *)
Inductive entry_step (me : nat) (d : pod) (ref : ModelRef) : option LoadedModel -> option LoadedModel -> Prop :=
| EntrySame o : entry_step me d ref o o
| EntryClaimed o m : loading d !! ref = None -> (forall m0, o = Some m0 -> State m0 <> StateReady) ->
    Ref m = ref -> State m <> StateReady -> entry_step me d ref o (Some m)
| EntryLoaded m0 m : owns me ref d -> State m0 <> StateReady -> Ref m = ref -> entry_step me d ref (Some m0) (Some m)
| EntryUnloaded m0 msg now : may -> entry_step me d ref (Some m0) (Some (with_state StateUnloaded msg now m0)).

(** A flight begins, or ends with its status. *)
Inductive flight_step (me : nat) (d d' : pod) (ref : ModelRef) : Prop :=
| FlightSame : loading d' !! ref = loading d !! ref -> flight_step me d d' ref
| FlightBegins : loading d !! ref = None -> loading d' !! ref = Some me -> flight_step me d d' ref
| FlightEnds st : owns me ref d -> loading d' !! ref = None -> flights d' !! me = Some st -> st_Ref st = ref -> flight_step me d d' ref.

Record pod_step (me : nat) (d d' : pod) : Prop := {
  step_entry ref : entry_step me d ref (registry d !! ref) (registry d' !! ref);
  step_flight ref : flight_step me d d' ref;
  step_status id : flights d' !! id = flights d !! id \/ (id = me /\ flights d !! id = None);
  step_closed id : (id ∈ closed d -> id ∈ closed d') /\ (id ∈ closed d' -> id ∈ closed d \/ (id = me /\ is_Some (flights d' !! id)));
}.

(** A step on the rest of the pod. *)
Lemma pod_step_rest me d d' : registry d' = registry d -> loading d' = loading d -> flights d' = flights d -> closed d' = closed d -> pod_step me d d'.
Proof.
  intros Hr Hl Hf Hc. constructor; [intros ref; rewrite Hr; apply EntrySame | intros ref; apply FlightSame; by rewrite Hl | intros id; left; by rewrite Hf |].
  intros id. rewrite Hc. auto.
Qed.

(** Every entry is under its reference. *)
Definition keyed (d : pod) : Prop := forall ref m, registry d !! ref = Some m -> Ref m = ref.

Lemma pod_step_keyed me d d' : pod_step me d d' -> keyed d -> keyed d'.
Proof.
  intros Hs Hk ref m Hm. pose proof (step_entry _ _ _ Hs ref) as He. rewrite Hm in He.
  destruct (registry d !! ref) as [m0|] eqn:E; inversion He; subst; try done; [by apply Hk | by apply (Hk ref m0)].
Qed.

Lemma pod_step_grows me d d' ref : pod_step me d d' -> is_Some (registry d !! ref) -> is_Some (registry d' !! ref).
Proof.
  intros Hs [m Hm]. pose proof (step_entry _ _ _ Hs ref) as He. rewrite Hm in He. destruct (registry d' !! ref); [by eexists | inversion He].
Qed.

(** What a leader holds while its model is not ready. *)
Record leading (me : nat) (ref : ModelRef) (d : pod) : Prop := {
  lead_owns : owns me ref d;
  lead_entry : exists m, registry d !! ref = Some m /\ State m <> StateReady;
}.

(** What a follower knows of its flight. *)
Definition airborne (id : nat) (ref : ModelRef) (d : pod) : Prop :=
  loading d !! ref = Some id \/ exists st, flights d !! id = Some st /\ st_Ref st = ref.

Lemma others_owns j me d d' ref : j <> me -> pod_step j d d' -> owns me ref d <-> owns me ref d'.
Proof.
  unfold owns. intros Hj Hs. destruct (step_flight _ _ _ Hs ref) as [-> | Hn Hb | st Ho Hn _]; [done | |].
  - rewrite Hn, Hb. split; [done |]. by intros [= ->].
  - unfold owns in Ho. rewrite Ho, Hn. split; [|done]. by intros [= ->].
Qed.

Lemma others_leading j me d d' ref : j <> me -> pod_step j d d' -> leading me ref d -> leading me ref d'.
Proof.
  intros Hj Hs [Ho (m & Hm & Hst)]. split; [by apply (others_owns j me d d' ref) |].
  pose proof (step_entry _ _ _ Hs ref) as He. rewrite Hm in He. inversion He as [o | o m' Hno | m0 m' Hoj | m0 msg now _]; subst.
  - by exists m.
  - by unfold owns in Ho; rewrite Hno in Ho.
  - unfold owns in *. rewrite Ho in Hoj. by injection Hoj as ->.
  - by eexists.
Qed.

Lemma others_airborne j d d' id ref : pod_step j d d' -> airborne id ref d -> airborne id ref d'.
Proof.
  intros Hs [Hl | (st & Hst & Hr)].
  - destruct (step_flight _ _ _ Hs ref) as [He | Hn _ | st Ho Hn Hst Hr]; [left; congruence | congruence |].
    right. exists st. unfold owns in Ho. rewrite Hl in Ho. injection Ho as ->. done.
  - right. exists st. destruct (step_status _ _ _ Hs id) as [-> | [_ Hn]]; [done | congruence].
Qed.

Lemma others_status j me d d' : j <> me -> pod_step j d d' -> flights d' !! me = flights d !! me.
Proof. intros Hj Hs. destruct (step_status _ _ _ Hs me) as [| [-> _]]; done. Qed.

Lemma steps_closed j d d' id : pod_step j d d' -> id ∈ closed d -> id ∈ closed d'.
Proof. intros Hs. apply (step_closed _ _ _ Hs id). Qed.
End steps.

(** ** Threads against each other *)

Section threads.
Context {W : Type} `{ServingOutside W} `{Urls}.
Context (cfg : ServiceConfig) (may : Prop).

Abbreviation call := (prog (site W pod)).

Definition guar (me : nat) (s s' : site W pod) : Prop := pod_step may me (s_db s) (s_db s').
Definition rely (me : nat) (s s' : site W pod) : Prop := exists j, j <> me /\ guar j s s'.

(** Assertions that the other threads keep. *)
Definition stable (me : nat) (P : pod -> Prop) : Prop := forall j d d', j <> me -> pod_step may j d d' -> P d -> P d'.

Lemma stable_rtc me P s s' : stable me P -> rtc (rely me) s s' -> P (s_db s) -> P (s_db s').
Proof. intros Hs. induction 1 as [| s1 s2 s3 (j & Hj & Hg) _ IH]; [done |]. intros Hp. apply IH. by eapply Hs. Qed.

(** From any pod with [pre], the thread [me] takes its steps and ends with [post]. *)
Definition does {A} (me : nat) (m : call A) (pre : pod -> Prop) (post : A -> pod -> Prop) : Prop :=
  forall s, pre (s_db s) -> rg (rely me) (guar me) m (fun a s => post a (s_db s)) s.

Lemma does_ret {A} me (a : A) pre (post : A -> pod -> Prop) : stable me pre -> (forall d, pre d -> post a d) -> does me (Ret a) pre post.
Proof. intros Hs Hp s Hpre s1 H1. apply Hp. by eapply stable_rtc. Qed.

Lemma does_weaken {A} me (m : call A) (pre pre' : pod -> Prop) (post post' : A -> pod -> Prop) :
  does me m pre post -> (forall d, pre' d -> pre d) -> (forall a d, post a d -> post' a d) -> does me m pre' post'.
Proof. intros Hm Hpre Hpost s Hs. eapply rg_weaken; [by apply Hm, Hpre | done | intros a s'; apply Hpost]. Qed.

Lemma does_bind {A B} me (m : call A) (k : A -> call B) pre mid post :
  does me m pre mid -> (forall a, does me (k a) (mid a) post) -> does me (do! x := m in k x) pre post.
Proof. intros Hm Hk s Hs. eapply rg_bind; [by apply Hm |]. intros a s' Ha. by apply Hk. Qed.

Lemma does_locked {A R} me (f : W -> pod -> R * W * pod) (k : R -> call A) pre mid post :
  stable me pre -> (forall w d r w' d', pre d -> f w d = (r, w', d') -> pod_step may me d d' /\ mid r d') ->
  (forall r, does me (k r) (mid r) post) -> does me (do! x := locked f in k x) pre post.
Proof.
  intros Hs Hf Hk s Hpre s1 H1 r s2 Hr. cbn in Hr. destruct (f (s_world s1) (s_db s1)) as [[r0 w] d] eqn:Ef. injection Hr as -> <-.
  destruct (Hf _ _ _ _ _ (stable_rtc _ _ _ _ Hs H1 Hpre) Ef) as [Hst Hm]. split; [exact Hst |]. by apply Hk.
Qed.

Lemma does_peek {A R} me (f : pod -> R) (k : R -> call A) pre mid post :
  stable me pre -> (forall d, pre d -> mid (f d) d) -> (forall r, does me (k r) (mid r) post) -> does me (do! x := peek f in k x) pre post.
Proof.
  intros Hs Hf Hk. apply (does_locked me _ k pre mid post Hs); [| exact Hk].
  intros w d r w' d' Hp [= <- <- <-]. split; [by apply pod_step_rest | by apply Hf].
Qed.

Lemma does_ask {A R} me (f : W -> R * W) (k : R -> call A) pre post :
  stable me pre -> (forall r, does me (k r) pre post) -> does me (do! x := ask f in k x) pre post.
Proof.
  intros Hs Hk s Hpre s1 H1 r s2 Hr. cbn in Hr. destruct (f (s_world s1)) as [r0 w]. injection Hr as -> <-.
  split; [by apply pod_step_rest |]. apply Hk. exact (stable_rtc _ _ _ _ Hs H1 Hpre).
Qed.

Lemma does_touch {A} me (f : pod -> pod) (k : unit -> call A) pre mid post :
  stable me pre -> (forall d, pre d -> pod_step may me d (f d) /\ mid (f d)) -> does me (k tt) mid post -> does me (do! x := touch f in k x) pre post.
Proof.
  intros Hs Hf Hk s Hpre s1 H1 r s2 [= <- <-]. destruct (Hf _ (stable_rtc _ _ _ _ Hs H1 Hpre)) as [Hst Hm]. split; [exact Hst | by apply Hk].
Qed.

(** *** Stable assertions *)

Lemma stable_and me P Q : stable me P -> stable me Q -> stable me (fun d => P d /\ Q d).
Proof. intros Hp Hq j d d' Hj Hs [? ?]. split; [by eapply Hp | by eapply Hq]. Qed.

Lemma stable_leading me ref : stable me (leading me ref).
Proof. intros j d d' Hj Hs. by apply (others_leading may j). Qed.

Lemma stable_keyed me : stable me keyed.
Proof. intros j d d' _ Hs. by apply (pod_step_keyed may j). Qed.

Lemma stable_airborne me id ref : stable me (airborne id ref).
Proof. intros j d d' _ Hs. by apply (others_airborne may j). Qed.

Lemma stable_status me st : stable me (fun d => flights d !! me = st).
Proof. intros j d d' Hj Hs <-. by apply (others_status may j). Qed.

Lemma stable_grounded me : stable me (fun d => forall ref, ~ owns me ref d).
Proof. intros j d d' Hj Hs Hp ref Ho. apply (Hp ref). by apply (others_owns may j me d d' ref). Qed.

Lemma stable_owns_only me ref : stable me (fun d => forall ref', owns me ref' d -> ref' = ref).
Proof. intros j d d' Hj Hs Hp ref' Ho. apply Hp. by apply (others_owns may j me d d' ref'). Qed.

Lemma stable_closed me id : stable me (fun d => id ∈ closed d).
Proof. intros j d d' _ Hs. by apply (steps_closed may j). Qed.

Lemma stable_known me ref : stable me (fun d => is_Some (registry d !! ref)).
Proof. intros j d d' _ Hs. by apply (pod_step_grows may j). Qed.

Lemma stable_true me : stable me (fun _ => True).
Proof. done. Qed.
End threads.

Create HintDb stability.
#[export] Hint Resolve stable_and stable_leading stable_keyed stable_airborne stable_status stable_grounded stable_owns_only stable_closed stable_known stable_true : stability.

(** ** Loads *)

Section loads.
Context {W : Type} `{ServingOutside W} `{Urls}.
Context (cfg : ServiceConfig) (may : Prop).

Abbreviation call := (prog (site W pod)).

Definition in_flight (me : nat) (ref : ModelRef) (d : pod) : Prop :=
  owns me ref d /\ (forall ref', owns me ref' d -> ref' = ref) /\ flights d !! me = None.
Definition busy (me : nat) (ref : ModelRef) (d : pod) : Prop := leading me ref d /\ in_flight me ref d /\ keyed d.
Definition idle (me : nat) (d : pod) : Prop := (forall ref, ~ owns me ref d) /\ flights d !! me = None /\ keyed d.

Lemma stable_in_flight me ref : stable may me (in_flight me ref).
Proof.
  apply stable_and; [| apply stable_and; [apply stable_owns_only | apply stable_status]].
  intros j d d' Hj Hs. by apply (others_owns may j me d d' ref).
Qed.

Lemma stable_busy me ref : stable may me (busy me ref).
Proof. apply stable_and; [apply stable_leading |]. apply stable_and; [apply stable_in_flight | apply stable_keyed]. Qed.

Lemma stable_idle me : stable may me (idle me).
Proof. apply stable_and; [apply stable_grounded |]. apply stable_and; [apply stable_status | apply stable_keyed]. Qed.

(** A section that only sets the entry of a model being loaded. *)
Lemma entry_loaded me ref d m : busy me ref d -> Ref m = ref -> pod_step may me d (with_registry d (<[ref := m]> (registry d))).
Proof.
  intros [[Ho (m0 & Hm & Hst)] _] Hr. constructor; cbn; [| intros; by apply FlightSame | by left | auto].
  intros ref'. destruct (decide (ref' = ref)) as [-> | Hne].
  - rewrite lookup_insert_eq, Hm. by apply EntryLoaded.
  - rewrite lookup_insert_ne by done. apply EntrySame.
Qed.

Lemma busy_entry me ref d m : busy me ref d -> Ref m = ref -> State m <> StateReady -> busy me ref (with_registry d (<[ref := m]> (registry d))).
Proof.
  intros Hb Hr Hst. pose proof (entry_loaded me ref d m Hb Hr) as Hs. destruct Hb as [[Ho _] [Hf Hk]]. split; [| split; [exact Hf | by eapply pod_step_keyed]].
  split; [exact Ho |]. exists m. cbn. by rewrite lookup_insert_eq.
Qed.

Lemma does_transition {A} me ref state msg (k : unit -> call A) post : state <> StateReady ->
  does may me (k tt) (busy me ref) post -> does may me (do! x := transition ref state msg in k x) (busy me ref) post.
Proof.
  intros Hst Hk. unfold transition. apply (does_locked may me _ k _ (fun _ => busy me ref)); [apply stable_busy | | by intros []].
  intros w d r w' d' Hb He. destruct (registry d !! ref) as [m|] eqn:Em; [| injection He as <- <- <-; split; [by apply pod_step_rest | exact Hb]].
  destruct (CanTransitionTo _ _); [| injection He as <- <- <-; split; [by apply pod_step_rest | exact Hb]].
  destruct (clock_Now w) as [now w1]. injection He as <- <- <-. assert (Ref m = ref) as Hr by (apply Hb; exact Em).
  split; [by apply entry_loaded | by apply busy_entry].
Qed.

Lemma does_fail {A} me ref reason (k : ModelStatus -> call A) post :
  (forall st, st_Ref st = ref -> does may me (k st) (in_flight me ref) post) -> does may me (do! x := fail ref reason in k x) (busy me ref) post.
Proof.
  intros Hk. unfold fail. apply (does_locked may me _ k _ (fun st d => st_Ref st = ref /\ in_flight me ref d)); [apply stable_busy | |].
  - intros w d r w' d' Hb He. destruct (clock_Now w) as [now w1]. injection He as <- <- <-.
    pose proof Hb as [[_ (m & Hm & _)] [Hf Hk']]. rewrite Hm. cbn. pose proof (Hk' _ _ Hm) as Hr.
    split; [by apply entry_loaded | split; [exact Hr | exact Hf]].
  - intros st s [Hr Hf]. by apply Hk.
Qed.

Lemma does_commit {A} me input session digest readyAt (k : ModelStatus -> call A) post :
  (forall st, st_Ref st = lm_Ref input -> does may me (k st) (in_flight me (lm_Ref input)) post) ->
  does may me (do! x := commit input session digest readyAt in k x) (busy me (lm_Ref input)) post.
Proof.
  intros Hk. unfold commit. apply (does_locked may me _ k _ (fun st d => st_Ref st = lm_Ref input /\ in_flight me (lm_Ref input) d)); [apply stable_busy | |].
  - intros w d r w' d' Hb [= <- <- <-]. pose proof Hb as [[_ (m & Hm & _)] [Hf Hk']]. rewrite Hm. cbn. pose proof (Hk' _ _ Hm) as Hr.
    split; [by apply entry_loaded | split; [exact Hr | exact Hf]].
  - intros st s [Hr Hf]. by apply Hk.
Qed.

(** What is known when a load has ended. *)
Definition loaded_by (me : nat) (ref : ModelRef) (o : load_outcome) (d : pod) : Prop :=
  (forall ref', ~ owns me ref' d) /\
  match o with
  | Answered (Ok st) => flights d !! me = None \/ (flights d !! me = Some st /\ me ∈ closed d)
  | Answered (Err e) => flights d !! me = None /\ isPermanentLoadError e = true
  | Following id => flights d !! me = None /\ airborne id ref d
  end.

Lemma does_finish me ref st : st_Ref st = ref -> does may me (finish (W := W) me ref st) (in_flight me ref) (loaded_by me ref).
Proof.
  intros Hr. unfold finish.
  apply (does_touch may me _ _ _ (fun d => (forall ref', ~ owns me ref' d) /\ flights d !! me = Some st)); [apply stable_in_flight | |].
  - intros d (Ho & Hon & Hn). split; [| split; [| by cbn; rewrite lookup_insert_eq]].
    + constructor; cbn; [intros ?; apply EntrySame | | |].
      * intros ref'. destruct (decide (ref' = ref)) as [-> | Hne].
        -- eapply FlightEnds; [exact Ho | by cbn; rewrite lookup_delete_eq | by cbn; rewrite lookup_insert_eq | exact Hr].
        -- apply FlightSame. cbn. by rewrite lookup_delete_ne.
      * intros id. destruct (decide (id = me)) as [-> | Hne]; [by right | left; by rewrite lookup_insert_ne].
      * intros id. auto.
    + intros ref' Hown. unfold owns in Hown. cbn in Hown. apply lookup_delete_Some in Hown as [Hne Hown]. by destruct (Hne (eq_sym (Hon ref' Hown))).
  - apply (does_touch may me _ _ _ (fun d => (forall ref', ~ owns me ref' d) /\ flights d !! me = Some st /\ me ∈ closed d));
      [apply stable_and; [apply stable_grounded | apply stable_status] | |].
    + intros d [Hg Hf]. split; [| split; [exact Hg | split; [exact Hf | set_solver]]].
      constructor; cbn; [intros ?; apply EntrySame | intros ?; by apply FlightSame | by left |].
      intros id. split; [set_solver |]. intros [Hin%elem_of_singleton | Hin]%elem_of_union; [right; subst; split; [done | by eexists] | by left].
    + apply does_ret; [apply stable_and; [apply stable_grounded | apply stable_and; [apply stable_status | apply stable_closed]] |].
      intros d (Hg & Hf & Hc). split; [exact Hg | by right].
Qed.

Lemma does_lead me input : does may me (lead me input) (busy me (lm_Ref input)) (loaded_by me (lm_Ref input)).
Proof.
  assert (forall reason, does (W := W) may me (do! st := fail (lm_Ref input) reason in finish me (lm_Ref input) st) (busy me (lm_Ref input)) (loaded_by me (lm_Ref input))) as Hfail.
  { intros reason. apply does_fail. intros st Hr. by apply does_finish. }
  unfold lead. apply does_ask; [apply stable_busy |]. intros [[localPath fetchedDigest] | err]; [| apply Hfail].
  destruct (_ && _); [apply Hfail |]. apply does_transition; [done |]. apply does_ask; [apply stable_busy |].
  intros [session | err]; [| apply Hfail]. destruct (_ && _); [apply Hfail |]. cbv zeta.
  apply does_ask; [apply stable_busy |]. intros readyAt. apply does_commit. intros st Hr.
  apply (does_touch may me _ _ _ (in_flight me (lm_Ref input))); [apply stable_in_flight | | by apply does_finish].
  intros d Hf. split; [by apply pod_step_rest | exact Hf].
Qed.

Lemma does_LoadModel me input : does may me (LoadModel cfg me input) (idle me) (loaded_by me (lm_Ref input)).
Proof.
  assert (forall e, isPermanentLoadError e = true -> does (W := W) may me (Ret (Answered (Err e))) (idle me) (loaded_by me (lm_Ref input))) as Hret.
  { intros e He. apply does_ret; [apply stable_idle |]. intros d (Hg & Hn & _). split; [exact Hg | by split]. }
  unfold LoadModel. repeat (match goal with |- does _ _ (if ?b then _ else _) _ _ => destruct b; [by apply Hret |] end).
  unfold claim_flight. apply (does_locked may me _ _ _ (fun c d =>
    match c with
    | Lead => busy me (lm_Ref input) d
    | Follow id => idle me d /\ airborne id (lm_Ref input) d
    | _ => idle me d
    end)); [apply stable_idle | |].
  - intros w d r w' d' (Hg & Hn & Hk) He. unfold decide_load in He.
    assert (forall c, (match c with Lead => False | Follow id => loading d !! lm_Ref input = Some id | _ => True end) -> (c, w, d) = (r, w', d') ->
      pod_step may me d d' /\ match r with Lead => busy me (lm_Ref input) d' | Follow id => idle me d' /\ airborne id (lm_Ref input) d' | _ => idle me d' end) as Hstay.
    { intros c Hc [= <- <- <-]. split; [by apply pod_step_rest |]. destruct c; try done. split; [done | by left]. }
    assert (forall old, registry d !! lm_Ref input = old -> (forall m, old = Some m -> State m <> StateReady) -> loading d !! lm_Ref input = None ->
      (let '(now, w) := clock_Now w in (Lead, w, {| registry := <[lm_Ref input := with_uri (lm_ArtifactURI input) (upsertLocked (lm_Ref input) StateDownloading "" now (registry d))]> (registry d);
         loading := <[lm_Ref input := me]> (loading d); flights := flights d; closed := closed d; metrics := metrics d; cache := cache d; desiredArtifacts := desiredArtifacts d |}))
      = (r, w', d') -> pod_step may me d d' /\ match r with Lead => busy me (lm_Ref input) d' | Follow id => idle me d' /\ airborne id (lm_Ref input) d' | _ => idle me d' end) as Hlead.
    { clear He Hstay. intros old Hold Hnr Hl. destruct (clock_Now w) as [now w1]. intros [= <- <- <-].
      set (m := with_uri _ _). assert (Ref m = lm_Ref input /\ State m = StateDownloading) as [Hr Hst].
      { unfold m, upsertLocked. rewrite Hold. destruct old as [m0|]; cbn; [| done]. by rewrite (Hk _ _ Hold). }
      assert (pod_step may me d {| registry := <[lm_Ref input := m]> (registry d); loading := <[lm_Ref input := me]> (loading d); flights := flights d; closed := closed d;
        metrics := metrics d; cache := cache d; desiredArtifacts := desiredArtifacts d |}) as Hs.
      { constructor; cbn; [| | by left | auto].
        - intros ref. destruct (decide (ref = lm_Ref input)) as [-> | Hne]; [rewrite lookup_insert_eq | rewrite lookup_insert_ne by done; apply EntrySame].
          apply EntryClaimed; [exact Hl | by rewrite Hold | exact Hr | by rewrite Hst].
        - intros ref. destruct (decide (ref = lm_Ref input)) as [-> | Hne]; [apply FlightBegins; [exact Hl | by cbn; rewrite lookup_insert_eq] |].
          apply FlightSame. cbn. by rewrite lookup_insert_ne. }
      split; [exact Hs |]. split; [| split; [| by eapply pod_step_keyed]].
      - split; [unfold owns; cbn; by rewrite lookup_insert_eq |]. exists m. split; [cbn; by rewrite lookup_insert_eq | by rewrite Hst].
      - split; [unfold owns; cbn; by rewrite lookup_insert_eq |]. split; [| exact Hn]. intros ref Ho. unfold owns in Ho. cbn in Ho.
        destruct (decide (ref = lm_Ref input)); [done |]. rewrite lookup_insert_ne in Ho by done. by destruct (Hg ref). }
    destruct (registry d !! lm_Ref input) as [m|] eqn:Em.
    + destruct (bool_decide (State m = StateReady)) eqn:Er; cbn [andb] in He.
      * destruct (digestMatches (ArtifactDigest m) (ExpectedDigest input)) eqn:Ed; [by apply (Hstay (NoOp (Status m))) |].
        assert (negb (String.eqb (ExpectedDigest input) "") = true) as Hx by (unfold digestMatches in Ed; by destruct (String.eqb _ "")).
        rewrite Hx in He. by apply (Hstay Conflict).
      * destruct (loading d !! lm_Ref input) as [id|] eqn:El; [by apply (Hstay (Follow id)) |].
        apply (Hlead (Some m)); [done | | done | exact He]. intros m' [= <-]. by apply bool_decide_eq_false in Er.
    + destruct (loading d !! lm_Ref input) as [id|] eqn:El; [by apply (Hstay (Follow id)) |]. by apply (Hlead None).
  - intros [st | | id |].
    + apply does_ret; [apply stable_idle |]. intros d (Hg & Hn & _). split; [exact Hg | by left].
    + by apply Hret.
    + apply does_ret; [apply stable_and; [apply stable_idle | apply stable_airborne] |]. intros d [(Hg & Hn & _) Ha]. split; [exact Hg | by split].
    + apply does_lead.
Qed.
End loads.

#[export] Hint Resolve stable_in_flight stable_busy stable_idle : stability.

(** ** The other calls *)

Lemma resident_found ref r m : residentModelLockedRaw ref r = Ok m -> exists k, r !! k = Some m.
Proof.
  unfold residentModelLockedRaw. destruct (_ && _); [destruct (r !! ref) as [m'|] eqn:E; [intros [= <-]; by exists ref | done] |].
  destruct (List.filter _ _) as [|km [|? ?]] eqn:Ef; [done | | done]. intros [= <-].
  assert (km ∈ List.filter (fun km => String.eqb (r_Name ref) "" || String.eqb (r_Name km.1) (r_Name ref)) (map_to_list r)) as Hin by (rewrite Ef; by left).
  apply list_elem_of_In, filter_In in Hin as [Hin _]. exists km.1. apply elem_of_map_to_list. apply list_elem_of_In. by destruct km.
Qed.

Lemma resident_error ref r e : residentModelLockedRaw ref r = Err e -> e = Sentinel ErrModelNotFound.
Proof. unfold residentModelLockedRaw. repeat case_match; congruence. Qed.

Section calls.
Context {W : Type} `{ServingOutside W} `{Urls}.
Context (cfg : ServiceConfig) (may : Prop).

Abbreviation call := (prog (site W pod)).

(** A resolved reference has an entry. *)
Definition resolved_ok (me : nat) (r : result ModelRef serving_error) (d : pod) : Prop :=
  idle me d /\ match r with Ok ref => is_Some (registry d !! ref) | Err e => e = Sentinel ErrModelNotFound end.

Lemma stable_resolved me r : stable may me (resolved_ok me r).
Proof. apply stable_and; [apply stable_idle |]. destruct r; [apply stable_known | by intros ? ? ? ? ?]. Qed.

Lemma does_resolve {A} me ref (k : result ModelRef serving_error -> call A) post :
  (forall r, does may me (k r) (resolved_ok me r) post) -> does may me (do! r := resolveRef ref in k r) (idle me) post.
Proof.
  intros Hk. unfold resolveRef. apply (does_peek may me _ k _ (resolved_ok me)); [apply stable_idle | | exact Hk].
  intros d Hi. split; [exact Hi |]. destruct (residentModelLockedRaw ref (registry d)) as [m|e] eqn:E; [| by eapply resident_error].
  destruct (resident_found _ _ _ E) as [k' Hk']. rewrite (proj2 (proj2 Hi) _ _ Hk'). by eexists.
Qed.

Lemma does_mark_unloaded me ref msg : may ->
  does may me (mark_unloaded (W := W) ref msg) (fun d => idle me d /\ is_Some (registry d !! ref)) (fun r d => idle me d /\ is_ok r = true).
Proof.
  intros Hm s Hs s1 H1 r s2 Hr.
  pose proof (stable_rtc may me _ _ _ (stable_and may me _ _ (stable_idle may me) (stable_known may me ref)) H1 Hs) as [Hi [m Hreg]].
  cbn in Hr. rewrite Hreg in Hr. destruct (clock_Now _) as [now w]. injection Hr as <- <-.
  assert (pod_step may me (s_db s1) (with_registry (s_db s1) (<[ref := with_state StateUnloaded msg now m]> (registry (s_db s1))))) as Hstep.
  { constructor; cbn; [| intros; by apply FlightSame | by left | auto].
    intros ref'. destruct (decide (ref' = ref)) as [-> | Hne]; [rewrite lookup_insert_eq, Hreg; by apply EntryUnloaded | rewrite lookup_insert_ne by done; apply EntrySame]. }
  split; [exact Hstep |]. intros s3 H3. split; [| done]. eapply (stable_rtc may me (idle me)); [apply stable_idle | exact H3 |].
  destruct Hi as (Hg & Hn & Hk). split; [exact Hg |]. split; [exact Hn | by eapply pod_step_keyed].
Qed.

Lemma does_UnloadModel me ref reason : may -> does may me (UnloadModel (W := W) ref reason) (idle me) (fun r d => idle me d /\ is_ok r = true).
Proof.
  intros Hm. unfold UnloadModel. apply does_resolve. intros [resolved|e].
  - apply does_ask; [apply stable_resolved |]. intros [uerr|]; by apply does_mark_unloaded.
  - destruct (errors_is e ErrModelNotFound) eqn:Ee.
    + apply does_ask; [apply stable_resolved |]. intros now. apply does_ret; [apply stable_resolved |]. by intros d [Hi _].
    + intros s [_ ->]. by cbn in Ee.
Qed.

(** A section on the rest of the pod. *)
Lemma does_rest {A} me f (k : unit -> call A) post :
  (forall d, registry (f d) = registry d /\ loading (f d) = loading d /\ flights (f d) = flights d /\ closed (f d) = closed d) ->
  does may me (k tt) (idle me) post -> does may me (do! x := touch f in k x) (idle me) post.
Proof.
  intros Hf Hk. apply (does_touch may me f k _ (idle me)); [apply stable_idle | | exact Hk].
  intros d (Hg & Hn & Hkd). destruct (Hf d) as (Hr & Hl & Hfl & Hc). split; [by apply pod_step_rest |].
  unfold idle, owns, keyed in *. by rewrite Hr, Hl, Hfl.
Qed.

Lemma does_idle_ret {A} me (a : A) : does (W := W) may me (Ret a) (idle me) (fun _ => idle me).
Proof. by apply does_ret; [apply stable_idle |]. Qed.

Lemma does_idle_peek {A R} me (f : pod -> R) (k : R -> call A) post :
  (forall r, does may me (k r) (idle me) post) -> does may me (do! x := peek f in k x) (idle me) post.
Proof. intros Hk. by apply (does_peek may me f k _ (fun _ => idle me)); [apply stable_idle | |]. Qed.

Lemma does_idle_ask {A R} me (f : W -> R * W) (k : R -> call A) post :
  (forall r, does may me (k r) (idle me) post) -> does may me (do! x := ask f in k x) (idle me) post.
Proof. intros Hk. apply does_ask; [apply stable_idle | exact Hk]. Qed.

Ltac stroll := repeat lazymatch goal with
  | |- does _ _ (Ret _) _ _ => apply does_idle_ret
  | |- does _ _ (pbind (peek _) _) _ _ => apply does_idle_peek; intros ?
  | |- does _ _ (pbind (ask _) _) _ _ => apply does_idle_ask; intros ?
  | |- does _ _ (pbind (touch _) _) _ _ => apply does_rest; [done |]
  | |- does _ _ (match ?x with _ => _ end) _ _ => destruct x
  end.

Lemma does_infer me served input fp : does may me (infer (W := W) served input fp) (idle me) (fun _ => idle me).
Proof.
  unfold infer. stroll. destruct (negb _); [stroll | by apply does_idle_ret].
Qed.

Lemma does_Predict me input : does may me (Predict (W := W) cfg input) (idle me) (fun _ => idle me).
Proof.
  unfold Predict, state_of. cbv zeta. stroll. destruct (negb (String.eqb (IdempotencyKey input) "")); [| apply does_infer]. stroll. apply does_infer.
Qed.

(** With two models in the registry, every prediction is refused. *)
Lemma resident_of_two r ref1 ref2 : is_Some (r !! ref1) -> is_Some (r !! ref2) -> ref1 <> ref2 ->
  residentModelLockedRaw {| r_Name := ""; r_Version := "" |} r = Err (Sentinel ErrModelNotFound).
Proof.
  intros [m1 Hm1] [m2 Hm2] Hne. unfold residentModelLockedRaw. cbn [r_Name r_Version String.eqb negb andb orb].
  assert (List.filter (fun km : ModelRef * LoadedModel => true) (map_to_list r) = map_to_list r) as -> by (induction (map_to_list r) as [|? l IH]; [done | cbn; by rewrite IH]).
  apply elem_of_map_to_list in Hm1, Hm2. destruct (map_to_list r) as [|km [|? ?]]; [done | | done].
  apply list_elem_of_singleton in Hm1, Hm2. congruence.
Qed.

Lemma does_Predict_two me input ref1 ref2 : ref1 <> ref2 ->
  does may me (Predict (W := W) cfg input) (fun d => is_Some (registry d !! ref1) /\ is_Some (registry d !! ref2))
    (fun r d => r = Err (Wrap "no model loaded on this pod" (Sentinel ErrModelNotReady))).
Proof.
  intros Hne. unfold Predict. assert (stable may me (fun d => is_Some (registry d !! ref1) /\ is_Some (registry d !! ref2))) as Hst by (apply stable_and; apply stable_known).
  apply (does_peek may me _ _ _ (fun r d => r = Err (Sentinel ErrModelNotFound))); [exact Hst | |].
  - intros d [Hr1 Hr2]. exact (resident_of_two _ ref1 ref2 Hr1 Hr2 Hne).
  - intros r s -> s1 _. done.
Qed.

(** A thread at its end. *)
Definition ended (me : nat) (d : pod) : Prop := (forall ref, ~ owns me ref d) /\ (flights d !! me = None \/ me ∈ closed d).

Lemma idle_ended me d : idle me d -> ended me d.
Proof. intros (Hg & Hn & _). split; [exact Hg | by left]. Qed.

Lemma stable_ended me : stable may me (ended me).
Proof.
  intros j d d' Hj Hs [Hg Hf]. split; [by apply (stable_grounded may me j d d') |].
  destruct Hf as [Hf | Hc]; [left; by rewrite (others_status may j me d d') | right; by apply (steps_closed may j d d')].
Qed.

Lemma does_ensureLoaded me input : does may me (ensureLoaded cfg me input) (idle me) (fun r d => ended me d /\ r = None).
Proof.
  unfold ensureLoaded. eapply does_bind; [by apply does_LoadModel |]. intros o s [Hg Ho] s1 H1.
  destruct o as [[st|e] | id].
  - split; [| done]. eapply (stable_rtc may me (ended me)); [apply stable_ended | exact H1 |]. split; [exact Hg |].
    destruct Ho as [Ho | [_ Ho]]; [by left | by right].
  - destruct Ho as [Hn ->]. split; [| done]. eapply (stable_rtc may me (ended me)); [apply stable_ended | exact H1 |]. split; [exact Hg | by left].
  - destruct Ho as [Hn _]. split; [| done]. eapply (stable_rtc may me (ended me)); [apply stable_ended | exact H1 |]. split; [exact Hg | by left].
Qed.

Lemma does_archive_all me name statuses : may -> does may me (archive_all (W := W) name statuses) (idle me) (fun r d => ended me d /\ r = None).
Proof.
  intros Hm. assert (does (W := W) may me (Ret None) (idle me) (fun (r : option serving_error) d => ended me d /\ r = None)) as Hret.
  { apply does_ret; [apply stable_idle |]. intros d Hd. split; [by apply idle_ended | done]. }
  induction statuses as [|st statuses IH]; [exact Hret |]. cbn [archive_all]. destruct (negb _); [exact IH |].
  eapply does_bind; [by apply does_UnloadModel |]. intros [st'|e]; [| by intros s [_ ?]].
  eapply does_weaken; [apply does_rest; [done | exact IH] | by intros d [? _] | done].
Qed.

(** Events that unload models. *)
Definition unloading (e : serving_event) : bool := match e with ModelUndeployed _ _ _ | ModelArchived _ => true | _ => false end.

Lemma does_react me e : (unloading e = true -> may) -> does may me (react cfg me e) (idle me) (fun r d => ended me d /\ r = None).
Proof.
  intros Hm. assert (does (W := W) may me (Ret None) (idle me) (fun (r : option serving_error) d => ended me d /\ r = None)) as Hret.
  { apply does_ret; [apply stable_idle |]. intros d Hd. split; [by apply idle_ended | done]. }
  assert (forall ref, does may me (reconcileLoadFromMemory cfg me ref) (idle me) (fun r d => ended me d /\ r = None)) as Hrec.
  { intros ref. unfold reconcileLoadFromMemory. destruct (_ || _); [exact Hret |]. apply does_idle_peek. intros [[uri digest]|]; [apply does_ensureLoaded | exact Hret]. }
  unfold react. destruct e as [| name version path digest | name version | name version | name version reason | name]; [exact Hret | | apply Hrec | apply Hrec | |].
  - destruct (_ || _); [exact Hret |]. apply does_rest; [done | apply does_ensureLoaded].
  - destruct (_ || _); [exact Hret |]. unfold unload. eapply does_bind; [by apply does_UnloadModel, Hm |].
    intros [st|e]; [| by intros s [_ ?]]. eapply does_weaken; [apply does_rest; [done | exact Hret] | by intros d [? _] | done].
  - destruct (String.eqb name ""); [exact Hret |]. unfold ListLoadedModels. cbv zeta.
    apply (does_locked may me _ _ _ (fun _ => idle me)); [apply stable_idle | | by intros; apply does_archive_all, Hm].
    intros w d r w' d' Hi He. destruct (range_registry _ _) as [models w1]. injection He as <- <- <-. split; [by apply pod_step_rest | exact Hi].
Qed.
End calls.

(** ** Pools of calls *)

Inductive pod_request :=
| DoLoad (input : LoadModelInput)
| DoUnload (ref : ModelRef) (reason : string)
| DoPredict (input : PredictInput)
| DoReact (e : serving_event)
| DoStatus (ref : ModelRef)
| DoInfo (ref : ModelRef)
| DoHealth (name : string).

Inductive pod_answer :=
| LoadAnswer (o : load_outcome)
| UnloadAnswer (r : result ModelStatus serving_error)
| PredictAnswer (r : result PredictResult serving_error)
| ReactAnswer (r : option serving_error)
| StatusAnswer (r : result ModelStatus serving_error)
| InfoAnswer (r : result LoadedModel serving_error)
| HealthAnswer (r : HealthVerdict * ModelState * duration).

Section pools.
Context {W : Type} `{ServingOutside W} `{Urls}.
Context (cfg : ServiceConfig).

(** The call of a request; [me] names the flight that it may begin. *)
Definition serve (me : nat) (q : pod_request) : prog (site W pod) pod_answer :=
  match q with
  | DoLoad input => do! o := LoadModel cfg me input in Ret (LoadAnswer o)
  | DoUnload ref reason => do! r := UnloadModel ref reason in Ret (UnloadAnswer r)
  | DoPredict input => do! r := Predict cfg input in Ret (PredictAnswer r)
  | DoReact e => do! r := react cfg me e in Ret (ReactAnswer r)
  | DoStatus ref => do! r := GetModelStatus ref in Ret (StatusAnswer r)
  | DoInfo ref => do! r := GetModelInfo ref in Ret (InfoAnswer r)
  | DoHealth name => do! r := HealthCheck cfg name in Ret (HealthAnswer r)
  end.

Definition unloads (q : pod_request) : bool := match q with DoUnload _ _ => true | DoReact e => unloading e | _ => false end.

(** What each answer tells. *)
Definition answer_ok (me : nat) (q : pod_request) (a : pod_answer) (d : pod) : Prop :=
  match q, a with
  | DoLoad input, LoadAnswer o => loaded_by me (lm_Ref input) o d
  | DoUnload _ _, UnloadAnswer r => is_ok r = true
  | DoReact _, ReactAnswer r => r = None
  | DoPredict _, PredictAnswer _ | DoStatus _, StatusAnswer _ | DoInfo _, InfoAnswer _ | DoHealth _, HealthAnswer _ => True
  | _, _ => False
  end.

Lemma loaded_ended me ref o d : loaded_by me ref o d -> ended me d.
Proof. intros [Hg Ho]. split; [exact Hg |]. destruct o as [[st|e] | id]; [destruct Ho as [|[]]; auto | left; apply Ho | left; apply Ho]. Qed.

Lemma does_map {A} may me (m : prog (site W pod) A) (f : A -> pod_answer) mid q :
  does may me m (idle me) mid -> (forall a d, mid a d -> ended me d /\ answer_ok me q (f a) d) ->
  does may me (do! a := m in Ret (f a)) (idle me) (fun a d => ended me d /\ answer_ok me q a d).
Proof. intros Hm Hf s Hs. eapply rg_map; [by apply Hm |]. intros a s'. apply Hf. Qed.

Lemma does_read {A B} may me ref (f : ModelRef -> prog (site W pod) (result A serving_error)) (g : result A serving_error -> B) :
  (forall r, does may me (f r) (idle me) (fun _ => idle me)) ->
  does may me (do! r := (do! x := resolveRef ref in match x with Ok r => f r | Err e => Ret (Err e) end) in Ret (g r)) (idle me) (fun _ => idle me).
Proof.
  intros Hf s Hs. eapply rg_map; [| intros a s' Hi; exact Hi]. revert s Hs. change (does may me (do! x := resolveRef ref in match x with Ok r => f r | Err e => Ret (Err e) end) (idle me) (fun _ => idle me)).
  apply does_resolve. intros [r|e]; [eapply does_weaken; [apply Hf | by intros d [? _] | done] |].
  apply does_ret; [apply stable_resolved |]. by intros d [? _].
Qed.

Lemma does_serve may me q : (unloads q = true -> may) -> does may me (serve me q) (idle me) (fun a d => ended me d /\ answer_ok me q a d).
Proof.
  intros Hm. destruct q as [input | ref reason | input | e | ref | ref | name]; cbn [serve unloads] in *.
  - eapply does_map; [apply does_LoadModel |]. intros o d Ho. split; [by eapply loaded_ended | exact Ho].
  - eapply does_map; [by apply does_UnloadModel, Hm |]. intros r d [Hi Hr]. split; [by apply idle_ended | exact Hr].
  - eapply does_map; [apply does_Predict |]. intros r d Hi. split; [by apply idle_ended | done].
  - eapply does_map; [by apply does_react |]. intros r d [Hd Hr]. by split.
  - eapply does_map; [apply does_resolve; intros [r|e] | intros r d Hi; split; [by apply idle_ended; exact Hi | done]].
    + eapply (does_peek may me _ Ret _ (fun _ => idle me)); [apply stable_resolved | by intros d [? _] | by intros; apply does_idle_ret].
    + apply does_ret; [apply stable_resolved |]. by intros d [? _].
  - eapply does_map; [apply does_resolve; intros [r|e] | intros r d Hi; split; [by apply idle_ended; exact Hi | done]].
    + eapply (does_peek may me _ Ret _ (fun _ => idle me)); [apply stable_resolved | by intros d [? _] | by intros; apply does_idle_ret].
    + apply does_ret; [apply stable_resolved |]. by intros d [? _].
  - eapply does_map; [unfold HealthCheck, state_of; apply does_idle_peek; intros last; apply does_resolve; intros [r|e] | intros r d Hi; split; [by apply idle_ended; exact Hi | done]].
    + eapply (does_peek may me _ _ _ (fun _ => idle me)); [apply stable_resolved | by intros d [? _] | by intros; apply does_idle_ret].
    + apply does_ret; [apply stable_resolved |]. by intros d [? _].
Qed.

(** The pool of the calls, each named by its place. *)
Definition pool (qs : list pod_request) : list (prog (site W pod) pod_answer) := imap serve qs.

(** A pod with no load in flight. *)
Definition grounded (d : pod) : Prop := loading d = ∅ /\ flights d = ∅ /\ keyed d.

Lemma pool_runs may qs s results s' : (forall q, q ∈ qs -> unloads q = true -> may) -> grounded (s_db s) -> par (pool qs) s results s' ->
  (forall i q a, qs !! i = Some q -> results !! i = Some a -> ended i (s_db s') /\ answer_ok i q a (s_db s')) /\
  rtc (fun d d' => exists i, (i < length qs)%nat /\ pod_step may i d d') (s_db s) (s_db s') /\ length results = length qs.
Proof.
  intros Hm (Hl & Hf & Hk) Hpar.
  destruct (par_rg (pool qs) s results s' (rely may) (guar may)
    (fun i a s => forall q, qs !! i = Some q -> ended i (s_db s) /\ answer_ok i q a (s_db s)) Hpar) as (Hres & Hst & Hlen).
  - intros i m Hi. unfold pool in Hi. rewrite list_lookup_imap in Hi. destruct (qs !! i) as [q|] eqn:Eq; [| done]. injection Hi as <-.
    eapply rg_weaken; [apply (does_serve may i q) | done |].
    + intros Hu. eapply Hm; [by eapply list_elem_of_lookup_2 | exact Hu].
    + split; [intros ref Ho; unfold owns in Ho; by rewrite Hl in Ho | by rewrite Hf].
    + cbn. intros a s1 Ha q' Hq'. assert (q = q') as <- by congruence. exact Ha.
  - intros i j s1 s2 _ _ Hne Hg. by exists i.
  - unfold pool in *. rewrite length_imap in *. split; [intros i q a Hq Ha; by apply (Hres i a Ha) |]. split; [| exact Hlen].
    clear -Hst. induction Hst as [| s1 s2 s3 (i & Hi & Hg) _ IH]; [done |]. eapply rtc_l; [by exists i | exact IH].
Qed.

Lemma flights_of_pool may n d d' : rtc (fun d d' => exists i, (i < n)%nat /\ pod_step may i d d') d d' ->
  (forall ref id, loading d !! ref = Some id -> (id < n)%nat) /\ (forall id st, flights d !! id = Some st -> (id < n)%nat) ->
  (forall ref id, loading d' !! ref = Some id -> (id < n)%nat) /\ (forall id st, flights d' !! id = Some st -> (id < n)%nat).
Proof.
  induction 1 as [| d1 d2 d3 (i & Hi & Hs) _ IH]; [done |]. intros [Hd Hf]. apply IH. split.
  - intros ref id Hr. destruct (step_flight _ _ _ _ Hs ref) as [He | _ He | st _ He _ _]; [| congruence | congruence]. apply (Hd ref). congruence.
  - intros id st Hr. destruct (step_status _ _ _ _ Hs id) as [He | [-> _]]; [| done]. apply (Hf id st). congruence.
Qed.

(** Loads of one model share one flight, and no follower waits forever: in every
    interleaving of loads, unloads, predictions and events, when all calls have run, no load
    is in flight, and a load that follows a flight has the status that the flight's leader
    recorded, for the model it asked for, with the channel closed; the leader answered
    that same status. *)
Theorem loads_single_flight qs s results s' : grounded (s_db s) -> par (pool qs) s results s' ->
  loading (s_db s') = ∅ /\
  forall i input id, qs !! i = Some (DoLoad input) -> results !! i = Some (LoadAnswer (Following id)) ->
    exists st, flights (s_db s') !! id = Some st /\ st_Ref st = lm_Ref input /\ id ∈ closed (s_db s') /\
      forall input', qs !! id = Some (DoLoad input') -> results !! id = Some (LoadAnswer (Answered (Ok st))).
Proof.
  intros Hgr Hpar. destruct (pool_runs True qs s results s' ltac:(done) Hgr Hpar) as (Hres & Hst & Hlen).
  destruct Hgr as (Hl & Hf & Hk). destruct (flights_of_pool True _ _ _ Hst) as [Hids Hfid].
  { rewrite Hl, Hf. split; intros ? ? He; by rewrite lookup_empty in He. }
  assert (forall i, (i < length qs)%nat -> exists q a, qs !! i = Some q /\ results !! i = Some a /\ ended i (s_db s') /\ answer_ok i q a (s_db s')) as Hend.
  { intros i Hi. destruct (lookup_lt_is_Some_2 qs i Hi) as [q Hq]. destruct (lookup_lt_is_Some_2 results i ltac:(lia)) as [a Ha].
    exists q, a. repeat (split; [done |]). by apply Hres. }
  assert (loading (s_db s') = ∅) as Hnone.
  { apply map_empty. intros ref. destruct (loading (s_db s') !! ref) as [id|] eqn:E; [| done].
    destruct (Hend id (Hids _ _ E)) as (q & a & _ & _ & [Hg _] & _). by destruct (Hg ref). }
  split; [exact Hnone |]. intros i input id Hq Ha. destruct (Hres i _ _ Hq Ha) as [_ (_ & _ & Hair)]. cbn in Hair.
  destruct Hair as [Hload | (st & Hst' & Hr)]; [by rewrite Hnone, lookup_empty in Hload |].
  destruct (Hend id (Hfid _ _ Hst')) as (q' & a' & Hq' & Ha' & [_ Hcl] & Hok). destruct Hcl as [Hcl | Hcl]; [congruence |].
  exists st. repeat (split; [done |]). intros input' Hi'. rewrite Hq' in Hi'. injection Hi' as ->. destruct a' as [o| | | | | |]; try done.
  destruct Hok as [_ Ho]. destruct o as [[st'|e] | id']; [destruct Ho as [Ho | [Ho _]]; congruence | destruct Ho; congruence | destruct Ho; congruence].
Qed.

(** Loads never disturb a serving model: in every interleaving without unloads, a READY
    entry stays exactly as it is, whatever is loaded, predicted or announced. *)
Theorem ready_undisturbed qs s results s' ref m : grounded (s_db s) -> (forall q, q ∈ qs -> unloads q = false) -> par (pool qs) s results s' ->
  registry (s_db s) !! ref = Some m -> State m = StateReady -> registry (s_db s') !! ref = Some m.
Proof.
  intros Hgr Hno Hpar Hm Hr. destruct (pool_runs False qs s results s') as (_ & Hst & _); [| exact Hgr | exact Hpar |].
  { intros q Hq Hu. by rewrite (Hno q Hq) in Hu. }
  clear Hpar Hgr. revert Hm. induction Hst as [| d1 d2 d3 (i & _ & Hs) _ IH]; [done |]. intros Hm. apply IH.
  pose proof (step_entry _ _ _ _ Hs ref) as He. rewrite Hm in He. inversion He as [o Ho | o m' _ Hn | m0 m' _ Hn | m0 msg now Hf]; subst; [done | | | done].
  - by destruct (Hn m eq_refl).
  - done.
Qed.

(** Two models silence a pod for good: once the registry has entries for two models,
    serving or not, every prediction is refused as not ready, in every interleaving with
    any calls, unloads included; no call ever removes an entry. *)
Theorem second_model_stops_serving qs s results s' ref1 ref2 i input a : grounded (s_db s) -> ref1 <> ref2 ->
  is_Some (registry (s_db s) !! ref1) -> is_Some (registry (s_db s) !! ref2) -> par (pool qs) s results s' ->
  qs !! i = Some (DoPredict input) -> results !! i = Some a ->
  a = PredictAnswer (Err (Wrap "no model loaded on this pod" (Sentinel ErrModelNotReady))) /\
  is_Some (registry (s_db s') !! ref1) /\ is_Some (registry (s_db s') !! ref2).
Proof.
  intros (Hl & Hf & Hk) Hne H1 H2 Hpar Hq Ha.
  destruct (par_rg (pool qs) s results s' (rely True) (guar True)
    (fun i a s => forall q, qs !! i = Some q -> match q with DoPredict _ => a = PredictAnswer (Err (Wrap "no model loaded on this pod" (Sentinel ErrModelNotReady))) | _ => True end) Hpar)
    as (Hres & Hst & _).
  - intros j m Hj. unfold pool in Hj. rewrite list_lookup_imap in Hj. destruct (qs !! j) as [q|] eqn:Eq; [| done]. injection Hj as <-.
    assert (idle j (s_db s)) as Hi by (split; [intros ref Ho; unfold owns in Ho; by rewrite Hl in Ho | by rewrite Hf]).
    assert (rg (rely True j) (guar True j) (serve j q) (fun a s => ended j (s_db s) /\ answer_ok j q a (s_db s)) s) as Hany by (by apply (does_serve True j q)).
    destruct q as [l | u r | input' | e | st | inf | h];
      try (eapply rg_weaken; [exact Hany | done |]; intros ? ? _ ? Hq'; by injection Hq' as <-).
    eapply rg_map; [apply (does_Predict_two cfg True j input' ref1 ref2 Hne s); by split |].
    intros b s1 ->. cbn. intros q' Hq'. by injection Hq' as <-.
  - intros j k s1 s2 _ _ Hjk Hg. by exists j.
  - split; [by apply (Hres i a Ha _ Hq) |]. clear -Hst H1 H2.
    induction Hst as [| s1 s2 s3 (j & _ & Hg) _ IH]; [done |]. apply IH; by eapply pod_step_grows.
Qed.

(** Events are never refused: in every interleaving, every reaction to an event is
    acknowledged, a failed load among them, so no event is ever redelivered or dead-lettered;
    and an unload always answers a status (it never dereferences a missing entry). *)
Theorem events_always_acknowledged qs s results s' i a : grounded (s_db s) -> par (pool qs) s results s' -> results !! i = Some a ->
  match qs !! i with
  | Some (DoReact _) => a = ReactAnswer None
  | Some (DoUnload _ _) => exists st, a = UnloadAnswer (Ok st)
  | _ => True
  end.
Proof.
  intros Hgr Hpar Ha. destruct (pool_runs True qs s results s' ltac:(done) Hgr Hpar) as (Hres & _ & _).
  destruct (qs !! i) as [q|] eqn:Eq; [| done]. destruct (Hres i q a Eq Ha) as [_ Hok].
  destruct q; try done; destruct a as [| r | | r | | |]; try done; cbn in Hok; [| by rewrite Hok]. destruct r as [st|]; [by exists st | done].
Qed.
End pools.
