(* ===== verification/ServingDemo.v ===== *)
(** * Model serving: predictions alone, and a concrete pod

    What one prediction does on every branch, and a pod over a small engine: the theorems of
    [ServingSafety] at it, and the runs in which loads, unloads and cached results mix. *)

From S2P Require Import Prelude Concur Site GoFormat AuditCapture GoNet ServingModel ServingCache Serving ServingSafety.
Open Scope fp_scope.

(** ** A prediction alone *)

Section predictions.
Context {W : Type} `{ServingOutside W} `{Urls}.
Context (cfg : ServiceConfig).

#[local] Abbreviation at_ w d := {| s_world := w; s_db := d |}.

Lemma run_peek {A R} (f : pod -> R) (k : R -> prog (site W pod) A) w d : run (do! x := peek f in k x) (at_ w d) = run (k (f d)) (at_ w d).
Proof. done. Qed.

Lemma run_asks {A R} (f : W -> R * W) (k : R -> prog (site W pod) A) w d : run (do! x := ask f in k x) (at_ w d) = run (k (f w).1) (at_ (f w).2 d).
Proof. rewrite run_bind. unfold ask. rewrite run_atom. cbn [s_world s_db]. by destruct (f w). Qed.

Lemma run_touch {A} (f : pod -> pod) (k : unit -> prog (site W pod) A) w d : run (do! x := touch f in k x) (at_ w d) = run (k tt) (at_ w (f d)).
Proof. done. Qed.

(** A request may be for the model that the pod serves. *)
Definition targets (served requested : ModelRef) : Prop :=
  (r_Name requested = "" \/ r_Name requested = r_Name served) /\ (r_Version requested = "" \/ r_Version requested = r_Version served).

Lemma targets_spec served requested :
  negb (String.eqb (r_Name requested) "") && negb (String.eqb (r_Name requested) (r_Name served)) = false ->
  negb (String.eqb (r_Version requested) "") && negb (String.eqb (r_Version requested) (r_Version served)) = false -> targets served requested.
Proof.
  assert (forall a b, negb (String.eqb a "") && negb (String.eqb a b) = false -> a = "" \/ a = b) as Hone.
  { intros a b. destruct (String.eqb_spec a ""), (String.eqb_spec a b); auto. done. }
  intros Hn Hv. split; by apply Hone.
Qed.

(** The effect of an inference on the pod. *)
Definition inferred (input : PredictInput) (latency : duration) (outs : result tensors serving_error) (d : pod) : pod :=
  let d := with_metrics (endRequest latency (negb (is_ok outs))) (with_metrics beginRequest d) in
  match outs with
  | Ok outs => if negb (String.eqb (IdempotencyKey input) "") then with_cache (cache_put (IdempotencyKey input) (fingerprintInputs (Inputs input)) outs) d else d
  | Err _ => d
  end.

Lemma run_infer served input w d : exists w1 latency w2,
  let outs := (engine_Predict served (Inputs input) w1).1 in
  run (infer served input (fingerprintInputs (Inputs input))) (at_ w d) =
    (match outs with
     | Ok outs => Ok {| Outputs := outs; ModelVersion := r_Version served; InferenceLatency := latency; pr_CorrelationID := CorrelationID input; FromCache := false |}
     | Err _ => Err (Sentinel ErrInferenceFailed)
     end, at_ w2 (inferred input latency outs d)).
Proof.
  unfold infer. rewrite run_asks. set (start := (clock_Now w).1). set (w1 := (clock_Now w).2). rewrite run_touch, run_asks.
  set (outs := (engine_Predict served (Inputs input) w1).1). rewrite run_asks. exists w1. eexists _, _. cbv zeta. fold outs. rewrite run_touch.
  unfold inferred. destruct outs as [o|e]; [| reflexivity]. destruct (negb (String.eqb (IdempotencyKey input) "")); reflexivity.
Qed.

(** A prediction is served by the one READY model and answers for these inputs: alone on
    a pod, a prediction that is answered went to the only registered model, which is READY
    and the one asked for, with inputs that pass the checks; its outputs are what the engine
    answered for exactly these inputs, or the cached ones of its key under the fingerprint
    of these inputs. One that is refused before the engine leaves the pod as it was, and
    a failed inference is the error [ErrInferenceFailed]. *)
Theorem predict_answers input w d r s' : keyed d -> run (Predict cfg input) (at_ w d) = (r, s') ->
  match r with
  | Ok res =>
      exists ref m, map_to_list (registry d) = [(ref, m)] /\ State m = StateReady /\ targets ref (RequestedRef input) /\ ModelVersion res = r_Version ref /\
        validateInputs cfg (range_inputs (Inputs input) w).1 = None /\
        if FromCache res
        then cache_get (IdempotencyKey input) (fingerprintInputs (Inputs input)) (cache d) = Some (Outputs res) /\ s_db s' = d
        else exists w1, (engine_Predict ref (Inputs input) w1).1 = Ok (Outputs res) /\
               s_db s' = inferred input (InferenceLatency res) (Ok (Outputs res)) d
  | Err e => (s_db s' = d /\ e <> Sentinel ErrInferenceFailed) \/
             (e = Sentinel ErrInferenceFailed /\ exists latency outs, is_ok outs = false /\ s_db s' = inferred input latency outs d)
  end.
Proof.
  intros Hk. unfold Predict, state_of. rewrite run_peek. unfold residentModelLockedRaw. cbn [r_Name r_Version String.eqb negb andb orb].
  assert (List.filter (fun km : ModelRef * LoadedModel => true) (map_to_list (registry d)) = map_to_list (registry d)) as ->
    by (induction (map_to_list (registry d)) as [|? l IH]; [done | cbn; by rewrite IH]).
  destruct (map_to_list (registry d)) as [|[ref m] [|? ?]] eqn:El; [intros [= <- <-]; by left | | intros [= <- <-]; by left].
  assert (registry d !! ref = Some m) as Hm by (apply elem_of_map_to_list; rewrite El; by left).
  cbv zeta. cbn [snd]. rewrite (Hk _ _ Hm).
  destruct (negb (String.eqb (r_Name _) "") && _) eqn:E1; [intros [= <- <-]; by left |].
  destruct (negb (String.eqb (r_Version _) "") && _) eqn:E2; [intros [= <- <-]; by left |].
  rewrite run_peek, Hm. unfold IsServable. destruct (bool_decide (State m = StateReady)) eqn:E3; cbn [negb]; [| intros [= <- <-]; by left].
  apply bool_decide_eq_true in E3. rewrite run_asks. destruct (validateInputs cfg _) as [e|] eqn:E4.
  { intros [= <- <-]. left. split; [done |]. unfold validateInputs in E4. destruct (_ <? _); [by injection E4 as <- |].
    induction (range_inputs (Inputs input) w).1 as [|[n t] l IH]; [done |]. cbn in E4. destruct (_ <? _); [by injection E4 as <- |].
    destruct (ValidateLayout t); [by injection E4 as <- | by apply IH]. }
  destruct (run_infer ref input (range_inputs (Inputs input) w).2 d) as (w1 & latency & w2 & Hi). cbv zeta in Hi.
  match goal with |- _ -> ?G => assert (run (infer ref input (fingerprintInputs (Inputs input))) (at_ (range_inputs (Inputs input) w).2 d) = (r, s') -> G) as Hinf end.
  { intros Hr. rewrite Hi in Hr. destruct (engine_Predict ref (Inputs input) w1).1 as [outs|e] eqn:Ee; injection Hr as <- <-.
    - exists ref, m. repeat (split; [done || by apply targets_spec |]). cbn [FromCache Outputs InferenceLatency]. by exists w1.
    - right. split; [done |]. by exists latency, (Err e). }
  destruct (negb (String.eqb (IdempotencyKey input) "")); [| exact Hinf]. rewrite run_peek.
  destruct (cache_get _ _ (cache d)) as [outs|] eqn:Ec; [| exact Hinf]. intros [= <- <-]. exists ref, m.
  by repeat (split; [done || by apply targets_spec |]).
Qed.
End predictions.

(** ** A concrete pod *)

Module Demo.

Fixpoint strip (prefix s : string) : option string :=
  match prefix, s with
  | "", _ => Some s
  | String a prefix, String b s => if ascii_dec a b then strip prefix s else None
  | _, _ => None
  end.

(** The text before the first slash, and the rest from it. *)
Fixpoint before_slash (s : string) : string * string :=
  match s with
  | "" => ("", "")
  | String c rest => if ascii_dec c "/" then ("", s) else let '(host, p) := before_slash rest in (String c host, p)
  end.

Lemma before_slash_rooted s : (before_slash s).2 = "" \/ exists rest, (before_slash s).2 = String "/" rest.
Proof.
  induction s as [|c s IH]; [by left |]. simpl. destruct (ascii_dec c "/") as [-> |]; [right; by exists s |]. destruct (before_slash s); exact IH.
Qed.

#[export] Instance s3_urls : Urls := {|
  Parse raw := match strip "s3://" raw with
               | Some rest => Some {| Scheme := "s3"; url_User := None; Host := (before_slash rest).1; Path := (before_slash rest).2 |}
               | None => None
               end;
  EqualFold := String.eqb |}.

#[export] Instance s3_laws : UrlLaws.
Proof.
  split. intros raw u Hp _. cbn [Parse s3_urls] in Hp. destruct (strip "s3://" raw) as [rest|]; [| done]. injection Hp as <-. apply before_slash_rooted.
Qed.

Definition allowed : list string := ["s3://fp-models/prod"].

Lemma allowed_uri_exact_witness :
  ArtifactURIAllowed "s3://fp-models/prod/iris/v1.onnx" allowed = true /\ ArtifactURIAllowed "s3://fp-models/prod-x/v1.onnx" allowed = false /\
  ArtifactURIAllowed "s3://fp-models/prod/../keys" allowed = false /\
  exists a, a ∈ allowed /\ a <> "".
Proof.
  split; [vm_compute; reflexivity |]. split; [vm_compute; reflexivity |]. split; [vm_compute; reflexivity |].
  assert ("s3://fp-models/prod/iris/v1.onnx" <> "") as Hne by discriminate.
  assert (ArtifactURIAllowed "s3://fp-models/prod/iris/v1.onnx" allowed = true) as Hyes by (vm_compute; reflexivity).
  destruct (proj1 (allowed_uri_exact "s3://fp-models/prod/iris/v1.onnx" allowed Hne) Hyes) as (a & _ & _ & _ & _ & Hin & Hn & _).
  by exists a.
Defined.

(** An engine that keeps the path it loaded for each model and answers it. *)
Record world := { ticks : Z; sessions : gmap ModelRef string; fetches : nat }.

#[export] Instance world_calls : ServingOutside world.
Proof.
  refine {|
    clock_Now w := (ticks w * Second, {| ticks := ticks w + 1; sessions := sessions w; fetches := fetches w |});
    clock_Since t w := (time_sub (ticks w * Second) t, w);
    Fetch uri w := (Ok (uri, "digest of " +:+ uri), {| ticks := ticks w; sessions := sessions w; fetches := S (fetches w) |});
    engine_Load ref path w := (Ok {| ls_InputSchema := []; ls_OutputSchema := []; ls_MemoryBytes := 1; ls_Digest := "" |},
                               {| ticks := ticks w; sessions := <[ref := path]> (sessions w); fetches := fetches w |});
    engine_Predict ref inputs w := (match sessions w !! ref with
                                    | Some path => Ok {["out" := {| Shape := [1]; Data := path; DType := DataTypeString |}]}
                                    | None => Err (Sentinel ErrEngineBadInput)
                                    end, w);
    engine_Unload ref w := (None, {| ticks := ticks w; sessions := delete ref (sessions w); fetches := fetches w |});
    range_inputs inputs w := (map_to_list inputs, w); range_registry r w := (map snd (map_to_list r), w); error_text _ := "error" |}.
Defined.

Definition cfg : ServiceConfig := limits {|
  AllowedArtifactURIs := allowed; LivenessLatencyMax := 0; MaxInputTensors := 0; MaxTensorBytes := 0; DefaultPageSize := 0; MaxPageSize := 0; IdempotencyCacheSize := 0 |}.

Definition new_pod : site world pod := {| s_world := {| ticks := 1; sessions := ∅; fetches := 0 |}; s_db := NewServingService cfg |}.

Lemma new_pod_grounded : grounded (s_db new_pod).
Proof. split; [done |]. split; [done |]. intros ref m Hm. cbn in Hm. by rewrite lookup_empty in Hm. Qed.

Definition iris1 : ModelRef := {| r_Name := "iris"; r_Version := "v1" |}.
Definition iris2 : ModelRef := {| r_Name := "iris"; r_Version := "v2" |}.
Definition a_uri : string := "s3://fp-models/prod/a".
Definition b_uri : string := "s3://fp-models/prod/b".
Definition load (ref : ModelRef) (uri digest : string) : LoadModelInput := {| lm_Ref := ref; lm_ArtifactURI := uri; ExpectedDigest := digest |}.
Definition ask_for (key : string) : PredictInput := {|
  RequestedRef := {| r_Name := ""; r_Version := "" |}; Inputs := {["x" := {| Shape := [1]; Data := "4444"; DType := DataTypeFloat32 |}]}; IdempotencyKey := key; CorrelationID := "c" |}.

Definition output (a : pod_answer) : option (string * bool) :=
  match a with PredictAnswer (Ok res) => (fun t => (Data t, FromCache res)) <$> Outputs res !! "out" | _ => None end.
Definition answered_state (a : pod_answer) : option ModelState := match a with LoadAnswer (Answered (Ok st)) => Some (st_State st) | _ => None end.

(** *** Two loads of one model, the second while the first fetches *)

Definition two_loads : list pod_request := [DoLoad (load iris1 a_uri ("digest of " +:+ a_uri)); DoLoad (load iris1 b_uri "another digest")].
Definition shared_schedule : list nat := [0; 0; 1; 0; 0; 0; 0; 0; 0; 0; 0]%nat.
Definition shared := schedule shared_schedule (pool cfg two_loads) new_pod.

(** The follower asked for another artifact with another digest; it is told READY. *)
Definition shared_results : list pod_answer :=
  match shared.1 with [Ret a; Ret b] => [a; b] | _ => [] end.

Lemma shared_par : par (pool cfg two_loads) new_pod shared_results shared.2.
Proof. apply (schedule_par shared_schedule). vm_compute. reflexivity. Qed.

Lemma loads_single_flight_witness :
  map answered_state shared_results = [Some StateReady; None] /\ fetches (s_world shared.2) = 1%nat /\
  exists st, flights (s_db shared.2) !! 0%nat = Some st /\ st_Ref st = iris1 /\ st_State st = StateReady.
Proof.
  split; [vm_compute; reflexivity |]. split; [vm_compute; reflexivity |].
  destruct (loads_single_flight cfg two_loads new_pod shared_results shared.2 new_pod_grounded shared_par) as [_ Hf].
  destruct (Hf 1%nat (load iris1 b_uri "another digest") 0%nat) as (st & Hst & Hr & _); [reflexivity | vm_compute; reflexivity |].
  exists st. split; [exact Hst |]. split; [exact Hr |]. vm_compute in Hst. injection Hst as <-. reflexivity.
Defined.

(** *** One after the other *)

Definition after (qs : list pod_request) : list pod_answer * site world pod := run_all (pool cfg qs) new_pod.

(** A READY model loaded from an artifact, and a pod that keeps the given models. *)
Definition loaded (ref : ModelRef) (uri : string) (at_tick : Z) : LoadedModel := {|
  Ref := ref; State := StateReady; Message := ""; ArtifactURI := uri; ArtifactDigest := "digest of " +:+ uri; InputSchema := []; OutputSchema := [];
  MemoryBytes := 1; LoadedAt := at_tick * Second; UpdatedAt := at_tick * Second |}.

Definition pod_with (now : Z) (models : gmap ModelRef LoadedModel) : site world pod := {|
  s_world := {| ticks := now; sessions := ArtifactURI <$> models; fetches := size models |};
  s_db := {| registry := models; loading := ∅; flights := ∅; closed := ∅; metrics := newMetricsAccumulator; cache := newResultCache 8; desiredArtifacts := ∅ |} |}.

Definition ready_pod : site world pod := pod_with 4 {[iris1 := loaded iris1 a_uri 3]}.

(** It is the pod that a load leaves, but for the references of the load. *)
Example ready_pod_reached :
  let s := (after [DoLoad (load iris1 a_uri "")]).2 in
  (map_to_list (registry (s_db s)), map_to_list (sessions (s_world s)), ticks (s_world s))
  = (map_to_list (registry (s_db ready_pod)), map_to_list (sessions (s_world ready_pod)), ticks (s_world ready_pod)).
Proof. vm_compute. reflexivity. Qed.

Lemma ready_pod_grounded : grounded (s_db ready_pod).
Proof. split; [reflexivity |]. split; [reflexivity |]. intros ref m Hm.
  change (({[iris1 := loaded iris1 a_uri 3]} : gmap ModelRef LoadedModel) !! ref = Some m) in Hm. apply lookup_singleton_Some in Hm as [<- <-]. reflexivity. Qed.

Definition quiet : list pod_request := [DoLoad (load iris1 b_uri ""); DoReact (ModelVersionReady "iris" "v1" b_uri "other"); DoPredict (ask_for "")].

Lemma quiet_loads q : q ∈ quiet -> unloads q = false.
Proof. intros Hq. unfold quiet in Hq. repeat (apply elem_of_cons in Hq as [-> | Hq]; [reflexivity |]). by apply list.not_elem_of_nil in Hq. Qed.

Lemma ready_undisturbed_witness :
  let final := run_all (pool cfg quiet) ready_pod in
  exists m, registry (s_db ready_pod) !! iris1 = Some m /\ ArtifactDigest m = "digest of " +:+ a_uri /\ registry (s_db final.2) !! iris1 = Some m.
Proof.
  intros final. eexists. split; [vm_compute; reflexivity |]. split; [reflexivity |].
  apply (ready_undisturbed cfg quiet ready_pod final.1 final.2 iris1); [exact ready_pod_grounded | exact quiet_loads | apply run_all_par | vm_compute; reflexivity | reflexivity].
Defined.

(** A new version is announced; the old one goes. *)
Definition two_models : site world pod := pod_with 7 (<[iris2 := loaded iris2 b_uri 6]> {[iris1 := loaded iris1 a_uri 3]}).

Example two_models_reached :
  let s := (after [DoLoad (load iris1 a_uri ""); DoReact (ModelVersionReady "iris" "v2" b_uri "")]).2 in
  (map_to_list (registry (s_db s)), map_to_list (sessions (s_world s)), ticks (s_world s))
  = (map_to_list (registry (s_db two_models)), map_to_list (sessions (s_world two_models)), ticks (s_world two_models)).
Proof. vm_compute. reflexivity. Qed.

Lemma two_models_grounded : grounded (s_db two_models).
Proof.
  split; [reflexivity |]. split; [reflexivity |]. intros ref m Hm.
  change (<[iris2 := loaded iris2 b_uri 6]> ({[iris1 := loaded iris1 a_uri 3]} : gmap ModelRef LoadedModel) !! ref = Some m) in Hm.
  apply lookup_insert_Some in Hm as [[<- <-] | [_ Hm]]; [reflexivity |]. apply lookup_singleton_Some in Hm as [<- <-]. reflexivity.
Qed.

Definition retire : list pod_request := [DoUnload iris1 "retired"; DoPredict (ask_for "")].

Lemma second_model_stops_serving_witness :
  let final := run_all (pool cfg retire) two_models in
  (forall a, final.1 !! 1%nat = Some a -> a = PredictAnswer (Err (Wrap "no model loaded on this pod" (Sentinel ErrModelNotReady)))) /\
  State <$> registry (s_db final.2) !! iris2 = Some StateReady.
Proof.
  intros final. split; [| vm_compute; reflexivity]. intros a Ha.
  assert (iris1 <> iris2) as Hne by discriminate.
  assert (is_Some (registry (s_db two_models) !! iris1)) as H1 by (vm_compute; by eexists).
  assert (is_Some (registry (s_db two_models) !! iris2)) as H2 by (vm_compute; by eexists).
  exact (proj1 (second_model_stops_serving cfg retire two_models final.1 final.2 iris1 iris2 1%nat (ask_for "") a two_models_grounded Hne H1 H2 (run_all_par _ _) eq_refl Ha)).
Defined.

Definition announcements : list pod_request :=
  [DoReact (ModelVersionReady "iris" "v1" "s3://elsewhere/a" ""); DoReact (ModelArchived "iris"); DoUnload iris1 "gone"].

Lemma events_always_acknowledged_witness :
  let final := run_all (pool cfg announcements) new_pod in
  forall a, final.1 !! 0%nat = Some a -> a = ReactAnswer None.
Proof.
  intros final a Ha. exact (events_always_acknowledged cfg announcements new_pod final.1 final.2 0%nat a new_pod_grounded (run_all_par _ _) Ha).
Defined.

Lemma predict_answers_witness :
  exists r s', run (Predict cfg (ask_for "k")) {| s_world := s_world ready_pod; s_db := s_db ready_pod |} = (r, s') /\
    option_map FromCache (match r with Ok res => Some res | Err _ => None end) = Some false /\
    match r with Ok res => exists ref m, map_to_list (registry (s_db ready_pod)) = [(ref, m)] /\ State m = StateReady | Err _ => False end.
Proof.
  destruct (run (Predict cfg (ask_for "k")) {| s_world := s_world ready_pod; s_db := s_db ready_pod |}) as [r s'] eqn:E.
  assert (option_map FromCache (match (r, s').1 with Ok res => Some res | Err _ => None end) = Some false) as Hf by (rewrite <- E; vm_compute; reflexivity).
  pose proof (predict_answers cfg (ask_for "k") (s_world ready_pod) (s_db ready_pod) r s' (proj2 (proj2 ready_pod_grounded)) E) as Hp.
  exists r, s'. split; [reflexivity |]. split; [exact Hf |]. destruct r as [res|e]; [| discriminate Hf].
  destruct Hp as (ref & m & Hl & Hst & _). exists ref, m. split; [exact Hl | exact Hst].
Defined.

Lemma cache_refines_queue_witness :
  let c := fold_left (fun c k => cache_put k 1 ∅ c) ["a"; "b"; "a"; "c"] (newResultCache 2) in
  order c = ["b"; "c"] /\ cache_ok (cache_put "d" 2 ∅ (newResultCache 2)).
Proof.
  split; [vm_compute; reflexivity |].
  assert (cache_ok (newResultCache 2)) as Hok.
  { constructor; cbn; [intros k; split; [by intros [? ?%lookup_empty_Some] | by intros ?%list.not_elem_of_nil] | constructor | lia]. }
  exact (proj1 (cache_refines_queue (newResultCache 2) "d" 2 ∅ Hok ltac:(reflexivity))).
Defined.

Lemma fingerprint_text_injective_witness :
  fingerprint_bytes (Inputs (ask_for "")) <> fingerprint_bytes ∅ /\ inputs_fit (Inputs (ask_for "")).
Proof.
  assert (inputs_fit (Inputs (ask_for ""))) as Hf.
  { apply map_Forall_singleton. split; [vm_compute; reflexivity |]. split; [| split; vm_compute; reflexivity].
    repeat constructor; vm_compute; discriminate. }
  assert (inputs_fit ∅) as He by apply map_Forall_empty.
  split; [| exact Hf]. intros He'. apply (fingerprint_text_injective _ _ Hf He) in He'. vm_compute in He'. discriminate.
Defined.

Lemma percentiles_nearest_rank_witness :
  percentilesLocked [30; 10; 20; 40] = (20, 40) /\ at_most 20 [30; 10; 20; 40] = 2 /\ 50 * 4 <= 100 * 2.
Proof.
  split; [vm_compute; reflexivity |]. split; [vm_compute; reflexivity |].
  assert ([30; 10; 20; 40] <> []) as Hne by discriminate. exact (proj1 (proj2 (proj1 (percentiles_nearest_rank [30; 10; 20; 40] Hne)))).
Defined.

(** *** Runs that mix *)

(** After an unload, the same reference takes another artifact, and a retried key is answered
    with the outputs of the old one. *)
Example stale_cache :
  map output (after [DoLoad (load iris1 a_uri ""); DoPredict (ask_for "k"); DoUnload iris1 "swap"; DoLoad (load iris1 b_uri "digest of s3://fp-models/prod/b");
                     DoPredict (ask_for "k"); DoPredict (ask_for "")]).1
  = [None; Some (a_uri, false); None; None; Some (a_uri, true); Some (b_uri, false)].
Proof. vm_compute. reflexivity. Qed.

(** An unload between the engine's load and its commit: READY without a session. *)
Example ready_without_session :
  let final := schedule [0; 0; 0; 0; 1; 1; 1; 0; 0; 0; 0; 0; 0]%nat (pool cfg [DoLoad (load iris1 a_uri ""); DoUnload iris1 "gone"]) new_pod in
  (State <$> registry (s_db final.2) !! iris1, sessions (s_world final.2) !! iris1) = (Some StateReady, None).
Proof. vm_compute. reflexivity. Qed.

(** Inputs that the engine refuses as malformed are reported as an internal error. *)
Example bad_input_is_internal :
  let r := run (infer iris1 (ask_for "") 0) new_pod in
  (engine_Predict iris1 (Inputs (ask_for "")) (s_world new_pod)).1 = Err (Sentinel ErrEngineBadInput) /\
  match r.1 with Err e => mapStatusErr e | Ok _ => Plain end = AuditCapture.Status Internal "internal serving error".
Proof. split; vm_compute; reflexivity. Qed.
End Demo.
