(* ===== verification/Keyset.v ===== *)
(** * Keyset pagination

    What the listings of the services share: the rows in the order of ORDER BY, those after
    the key of the last row of the page before, one more than the page holds. *)

From S2P Require Import Prelude GoText GoFormat.
Open Scope fp_scope.

Section keyset.
Context {A K : Type} (key : A -> K) (lt : K -> K -> Prop) `{!StrictOrder lt} `{!RelDecision lt}.

(** Rows in descending order of their keys. *)
Definition descends : list A -> Prop := StronglySorted (fun x y => lt (key y) (key x)).

(** WHERE key < cursor *)
Definition below_cursor (c : option K) (x : A) : bool := match c with Some k => bool_decide (lt (key x) k) | None => true end.

(** A page of [n] rows and the key to go on from; LIMIT is one more than the page. *)
Definition page (n : nat) (c : option K) (rows : list A) : list A * option K :=
  let out := take (S n) (List.filter (below_cursor c) rows) in
  if (n <? length out)%nat then (take n out, option_map key (list.last (take n out))) else (out, None).

(** A client that asks for page after page. *)
Fixpoint follow (fuel n : nat) (c : option K) (rows : list A) : list A :=
  match fuel with
  | O => []
  | S fuel => let '(items, next) := page n c rows in
              items ++ match next with Some k => follow fuel n (Some k) rows | None => [] end
  end.

Lemma descends_filter (P : A -> bool) rows : descends rows -> descends (List.filter P rows).
Proof.
  unfold descends. induction 1 as [|x l Hl IH Hx]; cbn [List.filter]; [constructor |]. destruct (P x); [| exact IH]. constructor; [exact IH |].
  apply List.Forall_forall. intros y [Hy _]%filter_In. rewrite List.Forall_forall in Hx. by apply Hx.
Qed.

Lemma filter_below pre x post : descends (pre ++ x :: post) -> List.filter (below_cursor (Some (key x))) (pre ++ x :: post) = post.
Proof.
  intros Hd. assert (List.filter (below_cursor (Some (key x))) post = post) as Hpost.
  { assert (Forall (fun y => lt (key y) (key x)) post) as Hf.
    { clear -Hd. induction pre as [|p pre IH]; [by apply StronglySorted_inv in Hd as [_ ?] |]. apply IH. by apply StronglySorted_inv in Hd as [? _]. }
    clear Hd. induction Hf as [|y l Hy _ IH]; [done |]. cbn [List.filter below_cursor]. by rewrite bool_decide_eq_true_2, IH. }
  induction pre as [|p pre IH].
  - cbn [app List.filter below_cursor]. rewrite bool_decide_eq_false_2; [exact Hpost |]. apply irreflexivity, _.
  - apply StronglySorted_inv in Hd as [Hd Hp]. cbn [app List.filter below_cursor]. rewrite bool_decide_eq_false_2; [by apply IH |].
    rewrite List.Forall_forall in Hp. intros Hlt. apply (irreflexivity lt (key p)). etrans; [exact Hlt |]. apply Hp, in_or_app. right. by left.
Qed.

Lemma no_cursor_all (rows : list A) : List.filter (below_cursor None) rows = rows.
Proof. induction rows as [|x l IH]; [done |]. cbn. by f_equal. Qed.

(** Where a cursor stands: before all rows, or after the last of those seen. *)
Definition stands (c : option K) (seen rest : list A) : Prop :=
  match c with None => seen = [] | Some k => exists before x, seen = before ++ [x] /\ k = key x end.

Lemma filter_stands c seen rest : descends (seen ++ rest) -> stands c seen rest -> List.filter (below_cursor c) (seen ++ rest) = rest.
Proof.
  destruct c as [k|]; cbn [stands]; [intros Hd (before & x & -> & ->) | intros _ ->; apply no_cursor_all].
  rewrite <- app_assoc in *. by apply filter_below.
Qed.

Lemma follow_rest fuel n c seen rest : (0 < n)%nat -> descends (seen ++ rest) -> stands c seen rest -> (length rest < n * fuel)%nat ->
  follow fuel n c (seen ++ rest) = rest.
Proof.
  intros Hn. revert c seen rest. induction fuel as [|fuel IH]; intros c seen rest Hd Hs Hl; [lia |].
  cbn [follow]. unfold page. rewrite (filter_stands c seen rest Hd Hs), length_take.
  destruct (Nat.ltb_spec n (S n `min` length rest)) as [Hlt | Hge].
  - rewrite take_take, Nat.min_l by lia. destruct (list.last (take n rest)) as [x|] eqn:El.
    2: { apply last_None, (f_equal length) in El. rewrite length_take in El. cbn in El. lia. }
    apply last_Some in El as [before El]. cbn [option_map].
    rewrite <- (take_drop n rest) at 2 3. rewrite app_assoc, IH; [done | | | ].
    + by rewrite <- app_assoc, take_drop.
    + exists (seen ++ before), x. by rewrite El, app_assoc.
    + rewrite length_drop. lia.
  - rewrite take_ge by lia. by rewrite app_nil_r.
Qed.

(** All pages together are the rows, each once and in order. *)
Lemma follow_all fuel n rows : (0 < n)%nat -> descends rows -> (length rows < n * fuel)%nat -> follow fuel n None rows = rows.
Proof. intros Hn Hd Hl. by apply (follow_rest fuel n None [] rows). Qed.

Lemma page_next_below n c rows out k : page n c rows = (out, Some k) -> exists x, x ∈ rows /\ below_cursor c x = true /\ k = key x.
Proof.
  unfold page. destruct (n <? _)%nat; [| done]. intros [= _ Hk]. destruct (list.last _) as [x|] eqn:E; [| done]. injection Hk as <-. exists x.
  apply last_Some in E as [l E]. assert (x ∈ take n (take (S n) (List.filter (below_cursor c) rows))) as Hx by (rewrite E; apply elem_of_app; right; by left).
  apply elem_of_take in Hx as (i & Hx & _). apply list_elem_of_lookup_2, elem_of_take in Hx as (j & Hx & _).
  apply list_elem_of_lookup_2, list_elem_of_In, filter_In in Hx as [Hx Hb]. split; [by apply list_elem_of_In | done].
Qed.

Lemma page_next n c rows out k : page n c rows = (out, Some k) -> exists x, x ∈ rows /\ k = key x.
Proof. intros (x & Hx & _ & Hk)%page_next_below. by exists x. Qed.

Lemma page_length n c rows : (length (page n c rows).1 <= n)%nat.
Proof. unfold page. destruct (Nat.ltb_spec n (length (take (S n) (List.filter (below_cursor c) rows)))); cbn [fst]; [rewrite length_take |]; lia. Qed.

Lemma page_rows n c rows : Forall (fun x => x ∈ rows) (page n c rows).1.
Proof.
  assert (Forall (fun x => x ∈ rows) (List.filter (below_cursor c) rows)) as Hf.
  { apply List.Forall_forall. intros x [Hx _]%filter_In. by apply list_elem_of_In. }
  unfold page. destruct (_ <? _)%nat; cbn [fst]; by repeat apply Forall_take.
Qed.

(** A client that goes on with tokens: where [encode] and [decode] are inverse on the keys of
    the rows, it reads what [follow] reads. *)
Context (encode : K -> string) (decode : string -> option K).

Definition token_cursor (token : string) : option (option K) := if String.eqb token "" then Some None else Some <$> decode token.

Fixpoint read_pages (fuel n : nat) (token : string) (rows : list A) : list A :=
  match fuel with
  | O => []
  | S fuel =>
      match token_cursor token with
      | None => []
      | Some c => let '(items, next) := page n c rows in
                  items ++ match next with Some k => read_pages fuel n (encode k) rows | None => [] end
      end
  end.

Lemma read_pages_follow fuel n token c rows :
  (forall x, x ∈ rows -> encode (key x) <> "" /\ decode (encode (key x)) = Some (key x)) -> token_cursor token = Some c ->
  read_pages fuel n token rows = follow fuel n c rows.
Proof.
  intros Hcode. revert token c. induction fuel as [|fuel IH]; intros token c Hc; [done |]. cbn [read_pages follow]. rewrite Hc.
  destruct (page n c rows) as [items [k|]] eqn:E; [| done]. f_equal. apply IH. apply page_next in E as (x & Hx & ->).
  destruct (Hcode x Hx) as [Hne Hd]. unfold token_cursor. by rewrite (proj2 (String.eqb_neq _ _) Hne), Hd.
Qed.
End keyset.

(** ** The newest rows first *)

(** The text order of a database. *)
Class Collation : Type := {
  collate : string -> string -> Prop;
  collate_dec :: RelDecision collate;
  collate_order :: TotalOrder collate;
}.

Section newest.
Context `{Collation}.

(** The row comparison (moment, id) < (t, i) *)
Definition key_lt (k k' : time * string) : Prop := k.1 < k'.1 \/ k.1 = k'.1 /\ collate k.2 k'.2 /\ k.2 <> k'.2.
#[export] Instance key_lt_dec : RelDecision key_lt.
Proof. intros k k'. unfold key_lt. apply _. Defined.

#[export] Instance key_lt_strict : StrictOrder key_lt.
Proof.
  split.
  - intros k [? | (_ & _ & ?)]; [lia | done].
  - intros [t i] [t' i'] [t'' i'']. unfold key_lt. cbn [fst snd]. intros [H1' | (-> & C1 & N1)] [H2' | (-> & C2 & N2)]; [left; lia | by left | by left |].
    right. split; [done |]. split; [by etrans |]. intros ->. apply N1. apply (anti_symm collate); done.
Qed.

Context {A : Type} (key : A -> time * string).

(** ORDER BY moment DESC, id DESC *)
Definition newest_first (n m : A) : Prop := key_lt (key m) (key n) \/ key n = key m.
#[export] Instance newest_first_dec : RelDecision newest_first.
Proof. intros n m. unfold newest_first. apply _. Defined.

#[export] Instance newest_first_trans : Transitive newest_first.
Proof.
  intros n m k. unfold newest_first. intros [H1' | E1] [H2' | E2].
  - left. by etrans.
  - left. by rewrite <- E2.
  - left. by rewrite E1.
  - right. by rewrite E1.
Qed.

#[export] Instance newest_first_total : Total newest_first.
Proof.
  intros n m. unfold newest_first, key_lt. destruct (key n) as [t i], (key m) as [t' i']. cbn [fst snd].
  destruct (Z.lt_trichotomy t t') as [Hl | [-> | Hl]]; [right; left; by left | | left; left; by left].
  destruct (decide (i = i')) as [-> | Hne]; [left; by right |].
  destruct (total collate i i') as [Hc | Hc]; [right; left; right; split; [done | split; [exact Hc | done]] |].
  left; left; right. split; [done | split; [exact Hc | congruence]].
Qed.

(** ORDER BY leaves rows with distinct keys in strictly descending order. *)
Lemma newest_descends l : NoDup (map key l) -> descends key key_lt (merge_sort newest_first l).
Proof.
  intros Hn. assert (NoDup (map key (merge_sort newest_first l))) as Hm by (by rewrite merge_sort_Permutation).
  pose proof (StronglySorted_merge_sort newest_first l) as Hs. unfold descends.
  induction Hs as [|x k Hk IH Hx]; [constructor |]. apply list.NoDup_cons in Hm as [Hx' Hm]. constructor; [by apply IH |].
  apply List.Forall_forall. intros y Hy. rewrite List.Forall_forall in Hx. destruct (Hx y Hy) as [? | He]; [done |].
  exfalso. apply Hx'. rewrite He. apply list_elem_of_fmap. exists y. split; [done | by apply list_elem_of_In].
Qed.
End newest.

(** ** The order of bytes, and tokens that decode *)

Lemma str_le_order : TotalOrder str_le.
Proof.
  split; [split; [split; apply _ | apply _] |]. intros s t. destruct (decide (s = t)) as [-> | Hne]; [right; by left |].
  destruct (str_le_total s t) as [Hst | Hts]; [left | right; right]; (split; [done |]); intros Hc; apply Hne; by apply (anti_symm str_le).
Qed.

Definition token {A} `{Countable A} (k : A) : string := String "t" (pos_text (encode k)).
Definition read_token {A} `{Countable A} (s : string) : option A := match s with String "t" rest => decode_text rest | _ => None end.

Lemma read_token_token {A} `{Countable A} (k : A) : read_token (token k) = Some k.
Proof. by apply decode_encode_text. Qed.
