(* ===== verification/NotifModel.v ===== *)
(** * Notifications: data, routing and mute patterns

    [services/notification/internal/domain]: the data of [models.go] and [ports.go], the
    errors of [errors.go], and the pure parts of [notification_service_impl.go] that decide
    which channels an event goes to. Channels, severities and statuses are [int32]
    constants, as in the code: a request may carry any number. *)

From S2P Require Import Prelude GoText GoFormat GoNet.
Open Scope fp_scope.

(** ** Errors *)

Inductive notif_sentinel := ErrValidation | ErrNotFound | ErrChannelNotConfigured | ErrSSRFTargetRejected | ErrRepoNotFound | ErrRepoAlreadyExists.

#[export] Instance notif_sentinels : Sentinels notif_sentinel.
Proof. refine {| sentinel_wraps _ := None |}. solve_decision. Defined.

Abbreviation notif_error := (error notif_sentinel).

Definition sentinel_text (s : notif_sentinel) : string :=
  match s with
  | ErrValidation => "notification: validation failed"
  | ErrNotFound => "notification: not found"
  | ErrChannelNotConfigured => "notification: channel not configured"
  | ErrSSRFTargetRejected => "notification: webhook/slack target rejected by SSRF guard"
  | ErrRepoNotFound => "notification: repository: not found"
  | ErrRepoAlreadyExists => "notification: repository: already exists"
  end.

(** [wrap]; its text is the sentinel's, a colon, and the message. *)
Definition wrap (sentinel : notif_sentinel) (msg : string) : notif_error := Wrap msg (Sentinel sentinel).

(** ** Channels, severities, statuses (models.go) *)

Abbreviation NotificationChannel := Z (only parsing).
Definition ChannelUnspecified : NotificationChannel := 0.
Definition ChannelInApp : NotificationChannel := 1.
Definition ChannelWebhook : NotificationChannel := 2.
Definition ChannelSlack : NotificationChannel := 3.
Definition ChannelEmail : NotificationChannel := 4.

Definition IsExternal (c : NotificationChannel) : bool := (c =? ChannelWebhook) || (c =? ChannelSlack) || (c =? ChannelEmail).
Definition RequiresSSRFGuard (c : NotificationChannel) : bool := (c =? ChannelWebhook) || (c =? ChannelSlack).

Abbreviation Severity := Z (only parsing).
Definition SeverityUnspecified : Severity := 0.
Definition SeverityInfo : Severity := 1.
Definition SeverityWarning : Severity := 2.
Definition SeverityError : Severity := 3.
Definition SeverityCritical : Severity := 4.

Definition MeetsFloor (s floor : Severity) : bool := if floor =? SeverityUnspecified then true else floor <=? s.

Abbreviation DeliveryStatus := Z (only parsing).
Definition StatusUnspecified : DeliveryStatus := 0.
Definition StatusPending : DeliveryStatus := 1.
Definition StatusRetrying : DeliveryStatus := 2.
Definition StatusDelivered : DeliveryStatus := 3.
Definition StatusFailed : DeliveryStatus := 4.
Definition StatusSuppressed : DeliveryStatus := 5.

Record Notification := {
  n_ID : string; RecipientUserID : string; Title : string; Body : string; n_Severity : Severity; n_Channels : list NotificationChannel;
  Read : bool; EventID : string; EventType : string; SourceService : string; CreatedAt : time; ReadAt : time;
}.

Record DeliveryAttempt := {
  NotificationID : string; da_Channel : NotificationChannel; da_Status : DeliveryStatus; Attempt : Z; ResponseCode : Z; ErrorMessage : string;
  AttemptedAt : time;
}.

Record ChannelPreference := { cp_Channel : NotificationChannel; Enabled : bool; MinSeverity : Severity; Target : string }.

Record NotificationPreferences := {
  UserID : string; Channels : list ChannelPreference; MutedEventPatterns : list string; UpdatedAt : time;
}.

Definition ChannelFor (p : NotificationPreferences) (ch : NotificationChannel) : option ChannelPreference :=
  match List.find (fun cp => cp_Channel cp =? ch) (Channels p) with
  | Some cp => Some cp
  | None => if ch =? ChannelInApp
            then Some {| cp_Channel := ChannelInApp; Enabled := true; MinSeverity := SeverityUnspecified; Target := "" |}
            else None
  end.

(** [Payload] goes through unread. *)
Record InboundEvent := {
  ie_EventID : string; ie_Type : string; ie_Source : string; ie_RecipientUserID : string; ie_Title : string; ie_Body : string;
  ie_Payload : string; ie_OccurredAt : time;
}.

Inductive SuppressReason := SuppressNone | SuppressDisabled | SuppressBelowSeverity | SuppressNoTarget | SuppressMuted.

Record ChannelDecision := { cd_Channel : NotificationChannel; Deliver : bool; Suppressed : SuppressReason; cd_Target : string }.

Record RoutingDecision := {
  rd_RecipientUserID : string; rd_EventID : string; rd_EventType : string; rd_Source : string; rd_Severity : Severity; Muted : bool;
  rd_Channels : list ChannelDecision;
}.

Definition decision_RequiresSSRFGuard (d : ChannelDecision) : bool :=
  Deliver d && RequiresSSRFGuard (cd_Channel d) && negb (String.eqb (cd_Target d) "").

Definition DeliveringChannels (r : RoutingDecision) : list NotificationChannel := map cd_Channel (List.filter Deliver (rd_Channels r)).

Record DeliveryTarget := {
  dt_Channel : NotificationChannel; dt_Target : string; dt_Title : string; dt_Body : string; dt_Payload : string; dt_EventType : string;
}.
Definition MustSSRFValidate (t : DeliveryTarget) : bool := RequiresSSRFGuard (dt_Channel t).

Record DeliveryResult := { dr_Status : DeliveryStatus; dr_Attempts : Z; dr_ResponseCode : Z; dr_ErrorMessage : string }.

(** ** Severity and mutes *)

Section text.
Context `{CaseTables}.

Definition deriveSeverity (eventType : string) : Severity :=
  let t := ToLower eventType in
  if Contains t "drift.detected" || Contains t "drift.critical" || Contains t "canary.failed" || Contains t "rollback" then SeverityCritical
  else if HasSuffix t ".failed" || Contains t ".failed." || Contains t "quota.exceeded" || Contains t "error" then SeverityError
  else if Contains t "drift" || Contains t "quota.approaching" || Contains t "warning" || Contains t "degraded" then SeverityWarning
  else SeverityInfo.
End text.

(** The loop over the segments of the pattern, with the segments of the type that are left. *)
Fixpoint match_segs (pSegs eSegs : list string) : bool :=
  match pSegs with
  | [] => bool_decide (eSegs = [])
  | ps :: pSegs =>
      if String.eqb ps ">" then negb (bool_decide (eSegs = []))
      else
        match eSegs with
        | [] => false
        | es :: eSegs =>
            if String.eqb ps "*" then match_segs pSegs eSegs
            else if negb (String.eqb ps es) then false
            else match_segs pSegs eSegs
        end
  end.

Definition matchPattern (pattern eventType : string) : bool :=
  if String.eqb pattern "" then false else match_segs (split_byte "." pattern) (split_byte "." eventType).

Fixpoint matchesAnyPattern (patterns : list string) (eventType : string) : bool :=
  match patterns with
  | [] => false
  | p :: patterns => if matchPattern p eventType then true else matchesAnyPattern patterns eventType
  end.

(** ** The decision *)

Definition EventDedupKey (eventID recipientUserID : string) : string := "event:" +:+ eventID +:+ ":" +:+ recipientUserID.

(** The loop of [candidateChannels] over the channels [seen] so far. *)
Fixpoint more_channels (seen : list NotificationChannel) (cps : list ChannelPreference) : list NotificationChannel :=
  match cps with
  | [] => []
  | cp :: cps =>
      if (cp_Channel cp =? ChannelUnspecified) || existsb (Z.eqb (cp_Channel cp)) seen then more_channels seen cps
      else cp_Channel cp :: more_channels (cp_Channel cp :: seen) cps
  end.

Definition candidateChannels (prefs : NotificationPreferences) : list NotificationChannel :=
  ChannelInApp :: more_channels [ChannelInApp] (Channels prefs).

Definition suppress (ch : NotificationChannel) (reason : SuppressReason) : ChannelDecision :=
  {| cd_Channel := ch; Deliver := false; Suppressed := reason; cd_Target := "" |}.

(** The decision for one channel. *)
Definition decide_channel (sev : Severity) (prefs : NotificationPreferences) (ch : NotificationChannel) : ChannelDecision :=
  match ChannelFor prefs ch with
  | None => suppress ch SuppressDisabled
  | Some cp =>
      if negb (Enabled cp) then suppress ch SuppressDisabled
      else if negb (MeetsFloor sev (MinSeverity cp)) then suppress ch SuppressBelowSeverity
      else if IsExternal ch && String.eqb (TrimSpace (Target cp)) "" then suppress ch SuppressNoTarget
      else {| cd_Channel := ch; Deliver := true; Suppressed := SuppressNone; cd_Target := if IsExternal ch then Target cp else "" |}
  end.

Definition ReactToEvent `{CaseTables} (event : InboundEvent) (prefs : NotificationPreferences) : RoutingDecision :=
  let sev := deriveSeverity (ie_Type event) in
  let decision muted channels := {|
    rd_RecipientUserID := ie_RecipientUserID event; rd_EventID := ie_EventID event; rd_EventType := ie_Type event; rd_Source := ie_Source event;
    rd_Severity := sev; Muted := muted; rd_Channels := channels |} in
  if matchesAnyPattern (MutedEventPatterns prefs) (ie_Type event)
  then decision true (map (fun ch => suppress ch SuppressMuted) (candidateChannels prefs))
  else decision false (map (decide_channel sev prefs) (candidateChannels prefs)).

(** ** The language of mute patterns *)

(** NATS subjects: a star is one token, a final ">" one or more. *)
Inductive nats_matches : list string -> list string -> Prop :=
| matches_end : nats_matches [] []
| matches_rest t ts : nats_matches [">"] (t :: ts)
| matches_any t ps ts : nats_matches ps ts -> nats_matches ("*" :: ps) (t :: ts)
| matches_token t ps ts : t <> ">" -> t <> "*" -> nats_matches ps ts -> nats_matches (t :: ps) (t :: ts).

(** A pattern up to its first ">". *)
Fixpoint cut_at_rest (ps : list string) : list string :=
  match ps with
  | [] => []
  | p :: ps => if String.eqb p ">" then [">"] else p :: cut_at_rest ps
  end.

Lemma match_segs_nats ps ts : match_segs ps ts = true <-> nats_matches (cut_at_rest ps) ts.
Proof.
  revert ts. induction ps as [|p ps IH]; intros ts; cbn [match_segs cut_at_rest].
  - rewrite bool_decide_eq_true. split; [intros ->; constructor | by inversion 1].
  - destruct (String.eqb_spec p ">") as [-> | Hp].
    + rewrite negb_true_iff, bool_decide_eq_false. split; [destruct ts; [done | constructor] | by inversion 1].
    + destruct ts as [|t ts]; [split; [done | by inversion 1] |]. destruct (String.eqb_spec p "*") as [-> | Hs].
      * rewrite IH. split; [by constructor | by inversion 1].
      * destruct (String.eqb_spec p t) as [-> | Ht]; cbn [negb].
        -- rewrite IH. split; [by constructor | by inversion 1].
        -- split; [done | intros Hm; inversion Hm; congruence].
Qed.

Lemma cut_at_rest_id ps : ~ ">" ∈ take (length ps - 1) ps -> cut_at_rest ps = ps.
Proof.
  induction ps as [|p ps IH]; [done |]. intros Hn. cbn [cut_at_rest]. destruct (String.eqb_spec p ">") as [-> |].
  - destruct ps as [|q ps]; [done |]. destruct Hn. cbn. by left.
  - f_equal. destruct ps as [|q ps]; [done |]. apply IH. intros Hin. apply Hn. cbn in Hin |- *. rewrite Nat.sub_0_r in Hin. by right.
Qed.

(** C39. A mute pattern means its NATS subject: a pattern mutes a type exactly when it is not
    empty and the tokens of the type match the tokens of the pattern up to its first ">";
    and that is the NATS subject itself when ">" is at most its last token. An event is
    muted exactly when one of the user's patterns mutes its type. *)
Theorem mute_patterns_are_subjects pattern eventType patterns :
  (matchPattern pattern eventType = true <->
     pattern <> "" /\ nats_matches (cut_at_rest (split_byte "." pattern)) (split_byte "." eventType)) /\
  (~ ">" ∈ take (length (split_byte "." pattern) - 1) (split_byte "." pattern) ->
     (matchPattern pattern eventType = true <-> pattern <> "" /\ nats_matches (split_byte "." pattern) (split_byte "." eventType))) /\
  (matchesAnyPattern patterns eventType = true <-> exists p, p ∈ patterns /\ matchPattern p eventType = true).
Proof.
  assert (matchPattern pattern eventType = true <->
     pattern <> "" /\ nats_matches (cut_at_rest (split_byte "." pattern)) (split_byte "." eventType)) as Hm.
  { unfold matchPattern. rewrite <- match_segs_nats. destruct (String.eqb_spec pattern ""); [split; [done | by intros []] | tauto]. }
  split; [exact Hm |]. split; [intros Hn; by rewrite Hm, cut_at_rest_id |].
  induction patterns as [|p patterns IH]; cbn [matchesAnyPattern]; [split; [done | by intros (? & ?%list.not_elem_of_nil & _)] |].
  destruct (matchPattern p eventType) eqn:E; [split; [intros _; exists p; by split; [left |] | done] |]. rewrite IH.
  split; intros (q & Hq & Hm'); exists q; [by split; [right |] |]. apply elem_of_cons in Hq as [-> | Hq]; [congruence | by split].
Qed.

(** ** The decision of an event *)

Lemma more_channels_spec seen cps ch :
  ch ∈ more_channels seen cps <-> ~ ch ∈ seen /\ ch <> ChannelUnspecified /\ exists cp, cp ∈ cps /\ cp_Channel cp = ch.
Proof.
  revert seen. induction cps as [|cp cps IH]; intros seen; cbn [more_channels].
  { split; [by intros ?%list.not_elem_of_nil | by intros (_ & _ & cp & ?%list.not_elem_of_nil & _)]. }
  destruct ((cp_Channel cp =? ChannelUnspecified) || existsb (Z.eqb (cp_Channel cp)) seen) eqn:E.
  - rewrite IH. split; intros (Hs & Hu & cp' & Hin & Hc); (split; [done |]; split; [done |]); exists cp'; [by split; [right |] |].
    apply elem_of_cons in Hin as [-> | Hin]; [| by split]. subst ch. apply orb_true_iff in E as [E | E].
    + by apply Z.eqb_eq in E.
    + apply existsb_exists in E as (c & Hc & ?%Z.eqb_eq). subst c. by apply list_elem_of_In in Hc.
  - apply orb_false_iff in E as [Hu He]. apply Z.eqb_neq in Hu. rewrite elem_of_cons, IH.
    assert (~ cp_Channel cp ∈ seen) as Hn.
    { intros Hin. apply list_elem_of_In in Hin. assert (existsb (Z.eqb (cp_Channel cp)) seen = true); [| congruence].
      apply existsb_exists. exists (cp_Channel cp). split; [done | apply Z.eqb_refl]. }
    split.
    + intros [-> | (Hs & Hu' & cp' & Hin & Hc)]; [split; [done |]; split; [done |]; exists cp; by split; [left |] |].
      split; [intros ?; apply Hs; by right |]. split; [done |]. exists cp'. by split; [right |].
    + intros (Hs & Hu' & cp' & Hin & Hc). destruct (decide (ch = cp_Channel cp)) as [-> | Hne]; [by left | right].
      split; [by intros [-> | ?]%elem_of_cons |]. split; [done |]. exists cp'. apply elem_of_cons in Hin as [-> | Hin]; [congruence | by split].
Qed.

Lemma more_channels_distinct seen cps : NoDup (more_channels seen cps).
Proof.
  revert seen. induction cps as [|cp cps IH]; intros seen; cbn [more_channels]; [constructor |].
  destruct (_ || _); [apply IH |]. constructor; [| apply IH]. rewrite more_channels_spec. intros (Hn & _). apply Hn. by left.
Qed.

Lemma candidates_spec prefs ch :
  ch ∈ candidateChannels prefs <-> ch = ChannelInApp \/ ch <> ChannelUnspecified /\ exists cp, cp ∈ Channels prefs /\ cp_Channel cp = ch.
Proof.
  unfold candidateChannels. rewrite elem_of_cons, more_channels_spec, list_elem_of_singleton. split; [tauto |].
  intros [-> | [Hu He]]; [by left |]. destruct (decide (ch = ChannelInApp)); [by left | by right].
Qed.

Lemma decide_channel_channel sev prefs ch : cd_Channel (decide_channel sev prefs ch) = ch.
Proof. unfold decide_channel. by repeat case_match. Qed.

(** What a channel's preference must say for a delivery at a severity. *)
Definition opted_in (sev : Severity) (ch : NotificationChannel) (cp : ChannelPreference) : Prop :=
  Enabled cp = true /\ (MinSeverity cp = SeverityUnspecified \/ MinSeverity cp <= sev) /\ (IsExternal ch = true -> TrimSpace (Target cp) <> "").

Lemma decide_channel_delivers sev prefs ch :
  Deliver (decide_channel sev prefs ch) = true <-> exists cp, ChannelFor prefs ch = Some cp /\ opted_in sev ch cp.
Proof.
  unfold decide_channel, opted_in, MeetsFloor. destruct (ChannelFor prefs ch) as [cp|]; [| split; [done | by intros (? & ? & _)]].
  destruct (Enabled cp) eqn:E1; cbn [negb];
    [| split; [done | by intros (? & [= <-] & He & _); rewrite E1 in He]].
  destruct (Z.eqb_spec (MinSeverity cp) SeverityUnspecified) as [E2 | E2]; cbn [negb]; [| destruct (Z.leb_spec (MinSeverity cp) sev); cbn [negb]].
  3: { split; [done | intros (? & [= <-] & _ & [? | ?] & _); [done | lia]]. }
  all: destruct (IsExternal ch) eqn:E4; cbn [andb]; [destruct (String.eqb_spec (TrimSpace (Target cp)) "") as [E5 | E5] |];
    (split; [intros He; try discriminate He; exists cp; by auto | intros (? & [= <-] & _ & _ & Ht); try done; by destruct (Ht eq_refl)]).
Qed.

Lemma decide_channel_target sev prefs ch :
  Deliver (decide_channel sev prefs ch) = true ->
  cd_Target (decide_channel sev prefs ch) = if IsExternal ch then from_option Target "" (ChannelFor prefs ch) else "".
Proof. unfold decide_channel. repeat case_match; done. Qed.

Lemma decide_channel_reason sev prefs ch :
  Deliver (decide_channel sev prefs ch) = true <-> Suppressed (decide_channel sev prefs ch) = SuppressNone.
Proof. unfold decide_channel. repeat case_match; done. Qed.

Lemma failures_are_errors `{CaseTables} eventType : HasSuffix (ToLower eventType) ".failed" = true -> SeverityError <= deriveSeverity eventType.
Proof. intros Hf. unfold deriveSeverity. rewrite Hf. cbn [orb]. destruct (_ || _ || _ || _); vm_compute; congruence. Qed.

(** The channels that an event of a severity goes to. *)
Definition reaches (ev : InboundEvent) (sev : Severity) (prefs : NotificationPreferences) (ch : NotificationChannel) : Prop :=
  (forall p, p ∈ MutedEventPatterns prefs -> matchPattern p (ie_Type ev) = false) /\
  (ch = ChannelInApp \/ ch <> ChannelUnspecified /\ exists cp, cp ∈ Channels prefs /\ cp_Channel cp = ch) /\
  exists cp, ChannelFor prefs ch = Some cp /\ opted_in sev ch cp.

Lemma not_muted prefs t : matchesAnyPattern prefs t = false <-> forall p, p ∈ prefs -> matchPattern p t = false.
Proof.
  induction prefs as [|p prefs IH]; cbn [matchesAnyPattern]; [split; [by intros _ ? ?%list.not_elem_of_nil | done] |].
  destruct (matchPattern p t) eqn:E; [split; [done |]; intros Hp; rewrite Hp in E; [done | by left] |]. rewrite IH.
  split; intros Hp q; [intros [-> | Hq]%elem_of_cons; [done | by apply Hp] | intros Hq; apply Hp; by right].
Qed.

(** An event goes to exactly the channels that its recipient opted in: every decision
    lists each candidate channel once, the inbox first; it delivers on a channel exactly when
    no pattern of the recipient mutes the type, the channel is the inbox or one of the
    recipient's, and its preference (on for an inbox without one) is enabled, has a floor
    at most the event's severity and, outside the inbox, a target that is not blank; it
    carries the target of that preference; a channel not delivered has a reason; and
    a type that ends in ".failed" has at least the severity of an error. *)
Theorem event_reaches_opted_channels `{CaseTables} ev prefs :
  let d := ReactToEvent ev prefs in
  map cd_Channel (rd_Channels d) = candidateChannels prefs /\ NoDup (candidateChannels prefs) /\
  (forall ch, ch ∈ DeliveringChannels d <-> reaches ev (rd_Severity d) prefs ch) /\
  (forall c, c ∈ rd_Channels d ->
     (Deliver c = true <-> Suppressed c = SuppressNone) /\
     (Deliver c = true -> cd_Target c = if IsExternal (cd_Channel c) then from_option Target "" (ChannelFor prefs (cd_Channel c)) else "")) /\
  (HasSuffix (ToLower (ie_Type ev)) ".failed" = true -> SeverityError <= rd_Severity d).
Proof.
  intros d. split; [| split; [| split; [| split]]].
  - subst d. unfold ReactToEvent. destruct (matchesAnyPattern _ _); cbn [rd_Channels]; rewrite map_map; cbn [suppress cd_Channel]; [apply map_id |].
    rewrite (map_ext _ (fun ch => ch)); [apply map_id | apply decide_channel_channel].
  - unfold candidateChannels. constructor; [| apply more_channels_distinct]. rewrite more_channels_spec. intros (Hn & _). apply Hn. by left.
  - intros ch. unfold DeliveringChannels, reaches. rewrite <- candidates_spec, <- not_muted. subst d. unfold ReactToEvent.
    destruct (matchesAnyPattern _ _); cbn [rd_Channels rd_Severity].
    + split; [| by intros (? & _)]. intros Hin. apply list_elem_of_In, in_map_iff in Hin as (c & _ & Hc). apply filter_In in Hc as [Hc Hd].
      apply in_map_iff in Hc as (ch' & <- & _). done.
    + rewrite <- decide_channel_delivers. rewrite list_elem_of_In, in_map_iff. split.
      * intros (c & <- & [Hc Hd]%filter_In). apply in_map_iff in Hc as (ch' & <- & Hin). rewrite decide_channel_channel.
        split; [done |]. split; [by apply list_elem_of_In | done].
      * intros (_ & Hin & Hd). eexists. split; [apply decide_channel_channel |]. apply filter_In. split; [| exact Hd]. apply in_map, list_elem_of_In, Hin.
  - intros c Hc. subst d. unfold ReactToEvent in Hc. destruct (matchesAnyPattern _ _); cbn [rd_Channels] in Hc;
      apply list_elem_of_In, in_map_iff in Hc as (ch & <- & _); [by split |].
    rewrite decide_channel_channel. split; [apply decide_channel_reason | apply decide_channel_target].
  - subst d. unfold ReactToEvent. destruct (matchesAnyPattern _ _); apply failures_are_errors.
Qed.
