(* ===== verification/NotifTargets.v ===== *)
(** * Notifications: the targets of external channels

    The pure checks of [services/notification/internal/domain/notification_service_impl.go]
    that a webhook, a Slack hook and an address pass before they are stored, and what the
    address classification of [net.IP] adds up to: a list of address blocks. *)

From Stdlib Require Import Btauto.
From S2P Require Import Prelude GoText GoFormat GoNet NotifModel.
Open Scope fp_scope.

(** ** The checks *)

Definition slackWebhookHost : string := "hooks.slack.com".

Definition isDeniedIP (ip : list Z) : bool :=
  if IsLoopback ip || IsLinkLocalUnicast ip || IsLinkLocalMulticast ip || IsUnspecified ip || IsMulticast ip || IsInterfaceLocalMulticast ip
  then true
  else if IsPrivate ip then true else false.

Definition any_of (chars : list ascii) (s : string) : bool := negb (all_bytes (fun c => negb (existsb (fun d => bool_decide (c = d)) chars)) s).

(** A tab, a carriage return, a line feed, and a space. *)
Definition blanks : list ascii := [" "%char; chr 9; chr 13; chr 10].

Definition looksLikeEmail (addr : string) : bool :=
  let addr := TrimSpace addr in
  match IndexByte addr "@" with
  | None | Some O => false
  | Some at_ =>
      if negb (bool_decide (LastIndexByte addr "@" = Some at_)) then false
      else
        let local := upto_byte at_ addr in
        let domain := from_byte (S at_) addr in
        if String.eqb local "" || String.eqb domain "" then false
        else if negb (Contains domain ".") || String.prefix "." domain || HasSuffix domain "." then false
        else if any_of blanks addr then false
        else true
  end.

Section targets.
Context `{CaseTables, Urls}.

Definition loopback_name (host : string) : bool :=
  let lower := ToLower host in String.eqb lower "localhost" || HasSuffix lower ".localhost".

Definition validateWebhookTarget (channel : NotificationChannel) (target : string) : option notif_error :=
  let target := TrimSpace target in
  let rejected msg := Some (wrap ErrSSRFTargetRejected msg) in
  if String.eqb target "" then Some (wrap ErrValidation "webhook/slack target is required when the channel is enabled")
  else
    match Parse target with
    | None => rejected "target is not a valid URL"
    | Some u =>
        if negb (String.eqb (Scheme u) "https") then rejected "target scheme must be https"
        else if negb (bool_decide (url_User u = None)) then rejected "target must not contain userinfo credentials"
        else
          let host := Hostname (Host u) in
          if String.eqb host "" then rejected "target must have a host"
          else if (channel =? ChannelSlack) && negb (EqualFold host slackWebhookHost) then rejected ("slack target host must be " +:+ slackWebhookHost)
          else if loopback_name host then rejected "target host resolves to loopback"
          else
            match ParseIP host with
            | Some ip => if isDeniedIP ip then rejected "target IP is loopback/link-local/private/reserved" else None
            | None => None
            end
    end.

Definition validateChannelTarget (cp : ChannelPreference) : option notif_error :=
  let c := cp_Channel cp in
  if (c =? ChannelInApp) || (c =? ChannelUnspecified) then None
  else if c =? ChannelEmail then
    if negb (Enabled cp) then None
    else if negb (looksLikeEmail (Target cp)) then Some (wrap ErrValidation "invalid email target") else None
  else if (c =? ChannelWebhook) || (c =? ChannelSlack) then
    if negb (Enabled cp) then None else validateWebhookTarget c (Target cp)
  else Some (wrap ErrValidation "unknown channel").
End targets.

Example looksLikeEmail_samples : map looksLikeEmail ["a@b.c"; " a@b.c "; "a@b"; "@b.c"; "a@b@c.d"; "a b@c.d"; "a@.c"; "a@b."; ""; "a@"]
  = [true; true; false; false; false; false; false; false; false; false].
Proof. vm_compute. reflexivity. Qed.

(** ** Address blocks *)

(** A block in CIDR notation: an address and how many leading bits count. *)
Definition in_block (ip : list Z) (block : list Z * nat) : bool :=
  let '(base, len) := block in
  bool_decide (take (len / 8) ip = take (len / 8) base) &&
  (byte_at ip (len / 8) / 2 ^ (8 - Z.of_nat (len mod 8)) =? byte_at base (len / 8) / 2 ^ (8 - Z.of_nat (len mod 8))).

Definition v4_block (four : list Z) (len : nat) : list Z * nat := (v4InV6 four, (96 + len)%nat).
Definition v6_block (head : list Z) (len : nat) : list Z * nat := (head ++ replicate (16 - length head) 0, len).

(** 127.0.0.0/8, 169.254.0.0/16, 10.0.0.0/8, 172.16.0.0/12, 192.168.0.0/16, 0.0.0.0, 224.0.0.0/4. *)
Definition denied_v4 : list (list Z * nat) :=
  [v4_block [127; 0; 0; 0] 8; v4_block [169; 254; 0; 0] 16; v4_block [10; 0; 0; 0] 8; v4_block [172; 16; 0; 0] 12; v4_block [192; 168; 0; 0] 16;
   v4_block [0; 0; 0; 0] 32; v4_block [224; 0; 0; 0] 4].

(** ::1, fe80::/10, fc00::/7, ::, ff00::/8. *)
Definition denied_v6 : list (list Z * nat) :=
  [v6_block (replicate 15 0 ++ [1]) 128; v6_block [0xfe; 0x80] 10; v6_block [0xfc] 7; v6_block [] 128; v6_block [0xff] 8].


Lemma byte_cases (P : Z -> bool) : forallb P (map Z.of_nat (seq 0 256)) = true -> forall b, 0 <= b < 256 -> P b = true.
Proof.
  intros Hp b Hb. rewrite forallb_forall in Hp. apply Hp, in_map_iff. exists (Z.to_nat b). split; [lia |]. apply in_seq. lia.
Qed.

Lemma mask_f0 b k : 0 <= b < 256 -> 0 <= k < 16 -> (Z.land b 0xf0 =? 16 * k) = (b / 16 =? k).
Proof.
  intros Hb Hk. apply eqb_prop.
  pose proof (byte_cases (fun b => forallb (fun k => eqb (Z.land b 0xf0 =? 16 * k) (b / 16 =? k)) (map Z.of_nat (seq 0 16))) ltac:(vm_compute; reflexivity) b Hb) as Hc.
  cbn beta in Hc. rewrite forallb_forall in Hc. apply Hc, in_map_iff. exists (Z.to_nat k). split; [lia |]. apply in_seq. lia.
Qed.

Lemma mask_fe b : 0 <= b < 256 -> (Z.land b 0xfe =? 0xfc) = (b / 2 =? 126).
Proof. intros Hb. apply eqb_prop. revert b Hb. apply byte_cases. vm_compute. reflexivity. Qed.

Lemma mask_c0 b : 0 <= b < 256 -> (Z.land b 0xc0 =? 0x80) = (b / 64 =? 2).
Proof. intros Hb. apply eqb_prop. revert b Hb. apply byte_cases. vm_compute. reflexivity. Qed.

Lemma byte_div1 b n : (b / 1 =? n) = (b =? n).
Proof. by rewrite Z.div_1_r. Qed.

Lemma bool_decide_cons (x y : Z) l k : bool_decide (x :: l = y :: k) = (x =? y) && bool_decide (l = k).
Proof.
  apply eq_true_iff_eq. rewrite andb_true_iff, !bool_decide_eq_true, Z.eqb_eq. split; [by intros [= -> ->] | by intros [-> ->]].
Qed.

Lemma bool_decide_nil (H : Decision ([] = ([] : list Z))) : bool_decide ([] = ([] : list Z)) = true.
Proof. by apply bool_decide_eq_true. Qed.

(** An IPv6 address outside the embedded IPv4 range is in none of its blocks. *)
Lemma not_embedded ip four len : To4 ip = None -> in_block ip (v4_block four len) = false.
Proof.
  unfold To4, in_block, v4_block. destruct (bool_decide (take 12 ip = _)) eqn:E; [done |]. intros _.
  apply bool_decide_eq_false in E. rewrite (bool_decide_eq_false_2 (take _ ip = _)); [done |]. intros Hp. apply E.
  apply (f_equal (take 12)) in Hp. rewrite !take_take in Hp.
  assert (12 <= (96 + len) / 8)%nat as Hl by (apply Nat.div_le_lower_bound; lia).
  replace (12 `min` ((96 + len) / 8))%nat with 12%nat in Hp by lia. rewrite Hp. unfold v4InV6. by rewrite app_assoc, take_app_le.
Qed.

Lemma no_bits b : 0 <= b < 256 -> (b / 256 =? 0) = true.
Proof. intros Hb. apply Z.eqb_eq. by apply Z.div_small. Qed.

(** Quotients of numerals are computed. *)
Ltac divide_numerals :=
  repeat match goal with
  | |- context [(?n / ?m)%Z] =>
      lazymatch n with Z0 => idtac | Zpos _ => idtac end; let v := eval vm_compute in (n / m)%Z in change (n / m)%Z with v
  end.

(** Comparisons of lists become comparisons of bytes, divisors become numbers. *)
Ltac to_bytes :=
  cbn -[Z.land Z.div Z.eqb Z.pow bool_decide];
  change (2 ^ (8 - Z.of_nat 0)) with 256; change (2 ^ (8 - Z.of_nat 2)) with 64; change (2 ^ (8 - Z.of_nat 4)) with 16; change (2 ^ (8 - Z.of_nat 7)) with 2;
  divide_numerals; rewrite ?bool_decide_cons, ?bool_decide_nil, ?no_bits by done; cbn [Z.eqb Pos.eqb andb orb].

Lemma denied_v4_blocks a b c d : Forall (fun x => 0 <= x < 256) [a; b; c; d] ->
  isDeniedIP (v4InV6 [a; b; c; d]) = existsb (in_block (v4InV6 [a; b; c; d])) (denied_v4 ++ denied_v6).
Proof.
  intros Hb. rewrite !list.Forall_cons in Hb. destruct Hb as (Ha & Hb & Hc & Hd & _).
  unfold isDeniedIP, IsLoopback, IsLinkLocalUnicast, IsLinkLocalMulticast, IsUnspecified, IsMulticast, IsInterfaceLocalMulticast, IsPrivate.
  assert (To4 (v4InV6 [a; b; c; d]) = Some [a; b; c; d]) as -> by reflexivity.
  unfold byte_at, denied_v4, denied_v6, v4_block, v6_block, v4InV6, IPv4zero.
  to_bytes.
  assert ((Z.land a 240 =? 224) = (a / 16 =? 14)) as -> by (apply (mask_f0 a 14); lia).
  assert ((Z.land b 240 =? 16) = (b / 16 =? 1)) as -> by (apply (mask_f0 b 1); lia).
  match goal with |- (if ?x then true else if ?y then true else false) = _ => transitivity (x || y); [by destruct x, y |] end.
  destruct (Z.eqb_spec a 224) as [-> |]; [divide_numerals; cbn [Z.eqb Pos.eqb]; btauto | btauto].
Qed.

Lemma denied_v6_blocks ip : is_address ip -> To4 ip = None -> isDeniedIP ip = existsb (in_block ip) (denied_v4 ++ denied_v6).
Proof.
  intros [Hlen Hb] H4. rewrite existsb_app.
  assert (existsb (in_block ip) denied_v4 = false) as -> by (unfold denied_v4; cbn [existsb]; by rewrite !(not_embedded ip _ _ H4)).
  unfold isDeniedIP, IsLoopback, IsLinkLocalUnicast, IsLinkLocalMulticast, IsUnspecified, IsMulticast, IsInterfaceLocalMulticast, IsPrivate. rewrite H4.
  assert (bool_decide (ip = IPv4zero) = false) as -> by (apply bool_decide_eq_false; by intros ->).
  clear H4. do 16 (destruct ip as [|? ip]; [done |]). destruct ip; [| done]. rewrite !list.Forall_cons in Hb. destruct_and! Hb. clear Hlen.
  unfold byte_at, denied_v6, v6_block, IPv6loopback. to_bytes. rewrite mask_fe, mask_c0 by done.
  match goal with |- (if ?x then true else if ?y then true else false) = _ => transitivity (x || y); [by destruct x, y |] end.
  rewrite ?andb_true_r, ?orb_false_r. match goal with |- ?a || _ || _ || ?b || _ || _ || _ = _ => generalize a b end. intros ? ?. btauto.
Qed.

Lemma isDeniedIP_blocks ip : is_address ip -> isDeniedIP ip = existsb (in_block ip) (denied_v4 ++ denied_v6).
Proof.
  intros Hip. destruct (To4 ip) as [four|] eqn:E; [| by apply denied_v6_blocks]. destruct Hip as [Hlen Hb]. unfold To4 in E.
  destruct (bool_decide _) eqn:Ep; [| done]. injection E as E. apply bool_decide_eq_true in Ep.
  assert (ip = v4InV6 four) as -> by (rewrite <- (take_drop 12 ip), Ep, E; unfold v4InV6; by rewrite app_assoc).
  do 4 (destruct four as [|? four]; [done |]). destruct four; [| done]. apply denied_v4_blocks.
  by apply (Forall_app _ (replicate 10 0 ++ [255; 255])) in Hb as [_ Hb].
Qed.

(** ** What a stored webhook target is *)

Section exact.
Context `{CaseTables, Urls}.

(** A host that is no name of the loopback and, when it is an address, in no denied block. *)
Definition public_host (host : string) : Prop :=
  ToLower host <> "localhost" /\ (forall before, ToLower host <> before +:+ ".localhost") /\
  forall ip, ParseIP host = Some ip -> forall block, block ∈ denied_v4 ++ denied_v6 -> in_block ip block = false.

Lemma loopback_name_spec host :
  loopback_name host = false <-> ToLower host <> "localhost" /\ forall before, ToLower host <> before +:+ ".localhost".
Proof.
  unfold loopback_name. rewrite orb_false_iff, String.eqb_neq. rewrite <- not_true_iff_false, HasSuffix_spec.
  split; intros [H1 H2]; (split; [exact H1 |]); [intros b Hb; apply H2; by exists b | intros [b Hb]; by apply (H2 b)].
Qed.

Lemma denied_spec ip : is_address ip -> isDeniedIP ip = false <-> forall block, block ∈ denied_v4 ++ denied_v6 -> in_block ip block = false.
Proof.
  intros Hip. rewrite (isDeniedIP_blocks ip Hip). split.
  - intros He block Hin. destruct (in_block ip block) eqn:E; [| done]. apply list_elem_of_In in Hin.
    assert (existsb (in_block ip) (denied_v4 ++ denied_v6) = true); [| congruence]. apply existsb_exists. by exists block.
  - intros Hb. destruct (existsb _ _) eqn:E; [| done]. apply existsb_exists in E as (block & Hin & Hb').
    rewrite Hb in Hb'; [done | by apply list_elem_of_In].
Qed.

Lemma public_host_checks host :
  public_host host <-> loopback_name host = false /\ match ParseIP host with Some ip => isDeniedIP ip = false | None => True end.
Proof.
  unfold public_host. rewrite loopback_name_spec. destruct (ParseIP host) as [ip|] eqn:E.
  - rewrite (denied_spec ip (ParseIP_address _ _ E)). split; [intros (? & ? & Hb); split; [done | by apply Hb] |].
    intros [[? ?] Hb]. split; [done |]. split; [done |]. by intros ip' [= <-].
  - split; [by intros (? & ? & _) | by intros [[? ?] _]].
Qed.

(** C18. The guard on webhook targets is exactly its list: a target passes when, without
    the white space around it, it is a URL with the scheme https, no credentials and a
    host that, on Slack, is Slack's hook host, that is not localhost or a name under
    it, and that, when it is written as an IP address, lies in none of the blocks
    127/8, 169.254/16, 10/8, 172.16/12, 192.168/16, 0.0.0.0, 224/4, ::1, fe80::/10,
    fc00::/7, :: and ff00::/8; a target that fails is a validation error when it is
    blank and an SSRF rejection otherwise. *)
Theorem webhook_target_exact channel target :
  (validateWebhookTarget channel target = None <->
     TrimSpace target <> "" /\
     exists u, Parse (TrimSpace target) = Some u /\ Scheme u = "https" /\ url_User u = None /\ Hostname (Host u) <> "" /\
       (channel = ChannelSlack -> EqualFold (Hostname (Host u)) slackWebhookHost = true) /\ public_host (Hostname (Host u))) /\
  (forall e, validateWebhookTarget channel target = Some e ->
     exists text, e = Wrap text (Sentinel (if String.eqb (TrimSpace target) "" then ErrValidation else ErrSSRFTargetRejected))).
Proof.
  assert (forall u, channel = ChannelSlack -> (channel =? ChannelSlack) && negb (EqualFold (Hostname (Host u)) slackWebhookHost) = false ->
    EqualFold (Hostname (Host u)) slackWebhookHost = true) as Hsl by (intros u -> Hs; by apply negb_false_iff in Hs).
  unfold validateWebhookTarget. cbv zeta. destruct (String.eqb_spec (TrimSpace target) "") as [Hb | Hb].
  { split; [split; [done | by intros []] | intros e [= <-]; by eexists]. }
  destruct (Parse (TrimSpace target)) as [u|]; [| split; [split; [done | by intros (_ & ? & ? & _)] | intros e [= <-]; by eexists]].
  split; [| intros e He; repeat (case_match; try done); injection He as <-; by eexists].
  split.
  - intros Hv. split; [exact Hb |]. exists u. split; [done |].
    destruct (String.eqb_spec (Scheme u) "https") as [-> |]; [| done]. destruct (bool_decide (url_User u = None)) eqn:Eu; [| done].
    destruct (String.eqb_spec (Hostname (Host u)) "") as [|Eh]; [done |]. cbn [negb] in Hv.
    destruct ((channel =? ChannelSlack) && _) eqn:Es; [done |]. destruct (loopback_name _) eqn:El; [done |].
    split; [done |]. split; [by apply bool_decide_eq_true in Eu |]. split; [done |]. split; [by intros ?; apply Hsl |].
    apply public_host_checks. split; [done |]. destruct (ParseIP _) as [ip|]; [| done]. by destruct (isDeniedIP ip).
  - intros (_ & u' & [= <-] & Hs & Hu & Hh & Hk & Hp). apply public_host_checks in Hp as [Hl Hp].
    rewrite Hs, String.eqb_refl, (bool_decide_eq_true_2 _ Hu), (proj2 (String.eqb_neq _ _) Hh), Hl. cbn [negb].
    destruct (Z.eqb_spec channel ChannelSlack) as [Hc |]; cbn [andb]; [rewrite (Hk Hc); cbn [negb] |]; destruct (ParseIP _); by try rewrite Hp.
Qed.
End exact.
