(* ===== verification/NotifStore.v ===== *)
(** * Notifications: the tables and the idempotency keys

    [services/notification/internal/repository]: one definition per statement of
    [postgres/notification_repository.go] and [preference_repository.go] over the tables of
    [migrations/001_init_notification_schema.up.sql], the page tokens of [cursor.go], and
    the keys of [redis/idempotency_store.go] with their expiry. *)

From S2P Require Import Prelude Site Keyset NotifModel.
Open Scope fp_scope.

Definition defaultPageSize : Z := 20.

(** A SMALLINT column takes the low bits of what is converted for it. *)
Definition int16 (z : Z) : Z := (z + 2 ^ 15) mod 2 ^ 16 - 2 ^ 15.

Record ListOptions := {
  PageSize : Z; PageToken : string; UnreadOnly : bool; lo_MinSeverity : Severity; EventTypeFilter : string;
  lo_Channel : NotificationChannel; lo_Status : DeliveryStatus; lo_NotificationID : string;
}.

Record delivery_row := { dl_id : Z; dl_attempt : DeliveryAttempt; dl_recipient : string }.

(** What the executor of decisions reports of a delivery, and what the reactor publishes of it. *)
Record ExecutedDelivery := { ed_Channel : NotificationChannel; Delivered : bool; ed_Attempts : Z; ed_ErrorMessage : string }.
Record health_event := { he_NotificationID : string; he_RecipientUserID : string; he_EventType : string; he_delivery : ExecutedDelivery }.

(** [idem] and [processed] keep when a key of Redis expires; [sent] is what the notifier was
    asked to deliver, [executed] what the executor was asked to do, [published] the
    delivery-health events that were tried, oldest first. *)
Record notif_db := {
  notifications : list Notification; preferences : gmap string (list string * time); channel_prefs : list (string * ChannelPreference);
  delivery_log : list delivery_row; next_log : Z; idem : gmap string time; sent : list DeliveryTarget;
  processed : gmap string time; executed : list (RoutingDecision * InboundEvent); published : list health_event;
}.

Definition with_notifications (l : list Notification) (d : notif_db) : notif_db := {|
  notifications := l; preferences := preferences d; channel_prefs := channel_prefs d; delivery_log := delivery_log d; next_log := next_log d; idem := idem d;
  sent := sent d; processed := processed d; executed := executed d; published := published d |}.
Definition with_prefs (p : gmap string (list string * time)) (c : list (string * ChannelPreference)) (d : notif_db) : notif_db := {|
  notifications := notifications d; preferences := p; channel_prefs := c; delivery_log := delivery_log d; next_log := next_log d; idem := idem d;
  sent := sent d; processed := processed d; executed := executed d; published := published d |}.
Definition with_attempt (r : delivery_row) (d : notif_db) : notif_db := {|
  notifications := notifications d; preferences := preferences d; channel_prefs := channel_prefs d; delivery_log := delivery_log d ++ [r]; next_log := next_log d + 1; idem := idem d;
  sent := sent d; processed := processed d; executed := executed d; published := published d |}.
Definition with_idem (i : gmap string time) (d : notif_db) : notif_db := {|
  notifications := notifications d; preferences := preferences d; channel_prefs := channel_prefs d; delivery_log := delivery_log d; next_log := next_log d; idem := i;
  sent := sent d; processed := processed d; executed := executed d; published := published d |}.
Definition with_sent (t : DeliveryTarget) (d : notif_db) : notif_db := {|
  notifications := notifications d; preferences := preferences d; channel_prefs := channel_prefs d; delivery_log := delivery_log d; next_log := next_log d; idem := idem d;
  sent := sent d ++ [t]; processed := processed d; executed := executed d; published := published d |}.
Definition with_processed (p : gmap string time) (d : notif_db) : notif_db := {|
  notifications := notifications d; preferences := preferences d; channel_prefs := channel_prefs d; delivery_log := delivery_log d; next_log := next_log d; idem := idem d;
  sent := sent d; processed := p; executed := executed d; published := published d |}.
Definition with_executed (e : RoutingDecision * InboundEvent) (d : notif_db) : notif_db := {|
  notifications := notifications d; preferences := preferences d; channel_prefs := channel_prefs d; delivery_log := delivery_log d; next_log := next_log d; idem := idem d;
  sent := sent d; processed := processed d; executed := executed d ++ [e]; published := published d |}.
Definition with_published (h : health_event) (d : notif_db) : notif_db := {|
  notifications := notifications d; preferences := preferences d; channel_prefs := channel_prefs d; delivery_log := delivery_log d; next_log := next_log d; idem := idem d;
  sent := sent d; processed := processed d; executed := executed d; published := published d ++ [h] |}.

(** The text order of the database, and the page tokens: what [encode] answers for a time
    of a four-digit year decodes to itself; a token may decode to anything else or fail. *)
Class NotifText : Type := {
  notif_collation :: Collation;
  encodeNotifCursor : time * string -> string;
  decodeNotifCursor : string -> option (time * string);
  encodeLogCursor : time * Z -> string;
  decodeLogCursor : string -> option (time * Z);
}.

(** ** Rows and conversions *)

Definition channelsToInt16 (chs : list NotificationChannel) : list Z := map int16 chs.

(** The row of an INSERT; a zero [ReadAt] is NULL and comes back as zero. *)
Definition stored (n : Notification) : Notification := {|
  n_ID := n_ID n; RecipientUserID := RecipientUserID n; Title := Title n; Body := Body n; n_Severity := int16 (n_Severity n);
  n_Channels := channelsToInt16 (n_Channels n); Read := Read n; EventID := EventID n; EventType := EventType n; SourceService := SourceService n;
  CreatedAt := timestamptz (CreatedAt n); ReadAt := timestamptz (ReadAt n) |}.

Definition read_marked (now : time) (n : Notification) : Notification := {|
  n_ID := n_ID n; RecipientUserID := RecipientUserID n; Title := Title n; Body := Body n; n_Severity := n_Severity n;
  n_Channels := n_Channels n; Read := true; EventID := EventID n; EventType := EventType n; SourceService := SourceService n;
  CreatedAt := CreatedAt n; ReadAt := timestamptz now |}.

Definition within_check (lo hi z : Z) : bool := (lo <=? z) && (z <=? hi).

Section statements.
Context `{NotifText}.

(** *** notification_repository.go *)

Definition Create (n : Notification) (d : notif_db) : result Notification notif_error * notif_db :=
  let row := stored n in
  if negb (within_check 0 4 (n_Severity row) && forallb (within_check 0 4) (n_Channels row))
  then (Err (Wrap "insert notification" (External "check violation")), d)
  else if existsb (fun m => String.eqb (n_ID m) (n_ID row) || String.eqb (EventID m) (EventID row) && String.eqb (RecipientUserID m) (RecipientUserID row)) (notifications d)
  then (Err (Sentinel ErrRepoAlreadyExists), d)
  else (Ok n, with_notifications (notifications d ++ [row]) d).

Definition GetByIDForUser (id recipientUserID : string) (d : notif_db) : result Notification notif_error :=
  match List.find (fun n => String.eqb (n_ID n) id && String.eqb (RecipientUserID n) recipientUserID) (notifications d) with
  | Some n => Ok n
  | None => Err (Sentinel ErrRepoNotFound)
  end.

Definition notif_key (n : Notification) : time * string := (CreatedAt n, n_ID n).

Definition list_where (recipientUserID : string) (opts : ListOptions) (n : Notification) : bool :=
  String.eqb (RecipientUserID n) recipientUserID &&
  (negb (UnreadOnly opts) || negb (Read n)) &&
  ((lo_MinSeverity opts =? SeverityUnspecified) || (int16 (lo_MinSeverity opts) <=? n_Severity n)) &&
  (String.eqb (EventTypeFilter opts) "" || String.eqb (EventType n) (EventTypeFilter opts)).

Definition page_size (opts : ListOptions) : Z := if PageSize opts <=? 0 then defaultPageSize else PageSize opts.

(** A token that is not empty must decode. *)
Definition read_cursor {K} (decode : string -> option K) (token text : string) : result (option K) notif_error :=
  if String.eqb token "" then Ok None
  else match decode token with Some c => Ok (Some c) | None => Err (Wrap text (External "invalid page token")) end.

Definition ListForUser (recipientUserID : string) (opts : ListOptions) (d : notif_db) : result (list Notification * string) notif_error :=
  let! cur := read_cursor decodeNotifCursor (PageToken opts) "list notifications" in
  let rows := List.filter (list_where recipientUserID opts) (merge_sort (newest_first notif_key) (notifications d)) in
  let '(out, next) := page notif_key key_lt (Z.to_nat (page_size opts)) cur rows in
  Ok (out, match next with Some c => encodeNotifCursor c | None => "" end).

Definition CountUnread (recipientUserID : string) (d : notif_db) : result Z notif_error :=
  Ok (Z.of_nat (length (List.filter (fun n => String.eqb (RecipientUserID n) recipientUserID && negb (Read n)) (notifications d)))).

(** The two UPDATEs: the rows that [which] selects among the recipient's unread ones. *)
Definition mark_where (recipientUserID : string) (which : Notification -> bool) (now : time) (d : notif_db) : result Z notif_error * notif_db :=
  let hit n := String.eqb (RecipientUserID n) recipientUserID && negb (Read n) && which n in
  (Ok (Z.of_nat (length (List.filter hit (notifications d)))),
   with_notifications (map (fun n => if hit n then read_marked now n else n) (notifications d)) d).

Definition MarkRead (recipientUserID : string) (ids : list string) (now : time) : notif_db -> result Z notif_error * notif_db :=
  mark_where recipientUserID (fun n => existsb (String.eqb (n_ID n)) ids) now.

Definition MarkAllRead (recipientUserID : string) (now : time) : notif_db -> result Z notif_error * notif_db :=
  mark_where recipientUserID (fun _ => true) now.

Definition attempt_row (a : DeliveryAttempt) : DeliveryAttempt := {|
  NotificationID := NotificationID a; da_Channel := int16 (da_Channel a); da_Status := int16 (da_Status a); Attempt := Attempt a;
  ResponseCode := ResponseCode a; ErrorMessage := ErrorMessage a; AttemptedAt := timestamptz (AttemptedAt a) |}.

(** INSERT ... SELECT: the recipient comes from the notification. *)
Definition AppendDeliveryAttempt (a : DeliveryAttempt) (d : notif_db) : result unit notif_error * notif_db :=
  match List.find (fun n => String.eqb (n_ID n) (NotificationID a)) (notifications d) with
  | None => (Err (Sentinel ErrRepoNotFound), d)
  | Some n =>
      let row := attempt_row a in
      if negb (within_check 0 4 (da_Channel row) && within_check 0 5 (da_Status row) && (0 <=? Attempt row))
      then (Err (Wrap "append delivery attempt" (External "check violation")), d)
      else (Ok tt, with_attempt {| dl_id := next_log d; dl_attempt := row; dl_recipient := RecipientUserID n |} d)
  end.

Definition log_key (r : delivery_row) : time * Z := (AttemptedAt (dl_attempt r), dl_id r).
Definition log_lt (k k' : time * Z) : Prop := k.1 < k'.1 \/ k.1 = k'.1 /\ k.2 < k'.2.
#[export] Instance log_lt_dec : RelDecision log_lt.
Proof. intros k k'. unfold log_lt. apply _. Defined.
Definition oldest_attempt (r s : delivery_row) : Prop := log_lt (log_key r) (log_key s) \/ log_key r = log_key s.
#[export] Instance oldest_attempt_dec : RelDecision oldest_attempt.
Proof. intros r s. unfold oldest_attempt. apply _. Defined.
Definition newest_attempt (r s : delivery_row) : Prop := oldest_attempt s r.
#[export] Instance newest_attempt_dec : RelDecision newest_attempt.
Proof. intros r s. unfold newest_attempt. apply _. Defined.

Definition GetAttemptsForNotification (recipientUserID notificationID : string) (d : notif_db) : result (list DeliveryAttempt) notif_error :=
  Ok (map dl_attempt (List.filter (fun r => String.eqb (NotificationID (dl_attempt r)) notificationID && String.eqb (dl_recipient r) recipientUserID)
                                  (merge_sort oldest_attempt (delivery_log d)))).

Definition attempts_where (recipientUserID : string) (opts : ListOptions) (r : delivery_row) : bool :=
  String.eqb (dl_recipient r) recipientUserID &&
  ((lo_Channel opts =? ChannelUnspecified) || (da_Channel (dl_attempt r) =? int16 (lo_Channel opts))) &&
  ((lo_Status opts =? StatusUnspecified) || (da_Status (dl_attempt r) =? int16 (lo_Status opts))) &&
  (String.eqb (lo_NotificationID opts) "" || String.eqb (NotificationID (dl_attempt r)) (lo_NotificationID opts)).

Definition ListDeliveryAttemptsForUser (recipientUserID : string) (opts : ListOptions) (d : notif_db) : result (list DeliveryAttempt * string) notif_error :=
  let! cur := read_cursor decodeLogCursor (PageToken opts) "list delivery attempts" in
  let rows := List.filter (attempts_where recipientUserID opts) (merge_sort newest_attempt (delivery_log d)) in
  let '(out, next) := page log_key log_lt (Z.to_nat (page_size opts)) cur rows in
  Ok (map dl_attempt out, match next with Some c => encodeLogCursor c | None => "" end).

(** *** preference_repository.go *)

Definition prefs_root (userID : string) (d : notif_db) : result (list string * time) notif_error :=
  match preferences d !! userID with Some root => Ok root | None => Err (Sentinel ErrRepoNotFound) end.

Definition by_channel (a b : ChannelPreference) : Prop := cp_Channel a <= cp_Channel b.
#[export] Instance by_channel_dec : RelDecision by_channel.
Proof. intros a b. unfold by_channel. apply _. Defined.

Definition prefs_of (userID : string) (d : notif_db) : list ChannelPreference :=
  map snd (List.filter (fun row => String.eqb row.1 userID) (channel_prefs d)).

Definition prefs_children (userID : string) (d : notif_db) : result (list ChannelPreference) notif_error :=
  Ok (merge_sort by_channel (prefs_of userID d)).

Definition pref_row (cp : ChannelPreference) : ChannelPreference :=
  {| cp_Channel := int16 (cp_Channel cp); Enabled := Enabled cp; MinSeverity := int16 (MinSeverity cp); Target := Target cp |}.

(** The child INSERTs of the batch, one after the other. *)
Fixpoint insert_prefs (userID : string) (cps : list ChannelPreference) (rows : list (string * ChannelPreference)) :
    result (list (string * ChannelPreference)) notif_error :=
  match cps with
  | [] => Ok rows
  | cp :: cps =>
      let row := pref_row cp in
      if negb (within_check 0 4 (cp_Channel row) && within_check 0 4 (MinSeverity row)) then Err (Wrap "insert channel pref" (External "check violation"))
      else if existsb (fun r => String.eqb r.1 userID && (cp_Channel r.2 =? cp_Channel row)) rows
      then Err (Wrap "insert channel pref" (External "unique violation"))
      else insert_prefs userID cps (rows ++ [(userID, row)])
  end.

Definition Upsert (prefs : NotificationPreferences) (d : notif_db) : result NotificationPreferences notif_error * notif_db :=
  let kept := List.filter (fun r => negb (String.eqb r.1 (UserID prefs))) (channel_prefs d) in
  match insert_prefs (UserID prefs) (Channels prefs) kept with
  | Err e => (Err e, d)
  | Ok rows => (Ok prefs, with_prefs (<[UserID prefs := (MutedEventPatterns prefs, timestamptz (UpdatedAt prefs))]> (preferences d)) rows d)
  end.
End statements.

(** *** idempotency_store.go *)

Definition keyPrefix : string := "fp:notif:idem:".

(** GET at a moment of Redis's clock *)
Definition Seen (now : time) (key : string) (d : notif_db) : result bool notif_error :=
  Ok (match idem d !! (keyPrefix +:+ key) with Some expiry => time_before now expiry | None => false end).

(** SET with a TTL *)
Definition Record_ (now : time) (key : string) (ttl : duration) (d : notif_db) : result unit notif_error * notif_db :=
  if ttl <=? 0 then (Err (External "redisrepo: idempotency record: ttl must be positive"), d)
  else (Ok tt, with_idem (<[keyPrefix +:+ key := now + ttl]> (idem d)) d).

(** *** The processed store of the reactor (cmd/server/main.go) *)

Definition processedPrefix : string := "fp:notif:processed:".
Definition processedTTL : duration := 24 * Hour.

(** EXISTS, and SET with the TTL *)
Definition IsProcessed (now : time) (eventID : string) (d : notif_db) : result bool notif_error :=
  Ok (match processed d !! (processedPrefix +:+ eventID) with Some expiry => time_before now expiry | None => false end).
Definition MarkProcessed (now : time) (eventID : string) (d : notif_db) : result unit notif_error * notif_db :=
  (Ok tt, with_processed (<[processedPrefix +:+ eventID := now + processedTTL]> (processed d)) d).
