(* ===== verification/Notif.v ===== *)
(** * The notification service

    [services/notification/internal]: the operations of
    [domain/notification_service_impl.go] as programs of statements, Redis calls and clock
    readings, the calls of [handler/notification_handler_rpcs.go] with their checks and the
    status of an error, and the reactor of [events/subscriber.go] and [resolve.go]. The
    notifier, the router of recipients and the executor of decisions are outside. *)

From S2P Require Import Prelude Concur Site GoText GoFormat AuditCapture GoNet NotifModel NotifTargets NotifStore.
Open Scope fp_scope.

(** ** Requests *)

Record ListNotificationsInput := {
  ln_RecipientUserID : string; ln_UnreadOnly : bool; ln_MinSeverity : Severity; ln_EventTypeFilter : string; ln_PageSize : Z; ln_PageToken : string;
}.
Record ListNotificationsOutput := { Notifications : list Notification; NextPageToken : string; UnreadCount : Z }.
Record GetNotificationOutput := { got : Notification; DeliveryAttempts : list DeliveryAttempt }.
Record MarkReadInput := { mr_RecipientUserID : string; Ids : list string; MarkAll : bool }.
Record MarkReadOutput := { MarkedCount : Z; mr_UnreadCount : Z }.
Record ListDeliveryAttemptsInput := {
  ld_RecipientUserID : string; ld_Channel : NotificationChannel; ld_Status : DeliveryStatus; ld_NotificationID : string; ld_PageSize : Z; ld_PageToken : string;
}.
Record ListDeliveryAttemptsOutput := { Attempts : list DeliveryAttempt; ld_NextPageToken : string }.
Record UpdatePreferencesInput := { up_UserID : string; up_Channels : list ChannelPreference; up_MutedEventPatterns : list string; up_IdempotencyKey : string }.
Record TestChannelInput := { tc_UserID : string; tc_Channel : NotificationChannel; tc_IdempotencyKey : string }.
Record TestChannelOutput := { tc_Status : DeliveryStatus; tc_ResponseCode : Z; tc_ErrorMessage : string }.

(** An envelope, what the router answers for it, and what an execution reports. *)
Record EventEnvelope := { env_ID : string; env_Type : string; env_Source : string; env_Data : string; env_Timestamp : time }.
Record RoutedRecipient := { rr_RecipientUserID : string; FullType : string; rr_Title : string; rr_Body : string }.
Record ExecutionResult := { er_NotificationID : string; Deliveries : list ExecutedDelivery }.

(** Redis's clock; the notifier's [Deliver], whose error is a text; the ports of the reactor. *)
Class NotifOutside (W : Type) : Type := {
  redis_now : W -> time * W;
  notifier_Deliver : DeliveryTarget -> W -> DeliveryResult * option string * W;
  Route : EventEnvelope -> option RoutedRecipient;
  Execute : RoutingDecision -> InboundEvent -> W -> result ExecutionResult notif_error * W;
  PublishHealth : health_event -> W -> bool * W;
}.

Definition svc_defaultPageSize : Z := 20.
Definition maxPageSize : Z := 100.
Definition maxMarkReadBatch : Z := 1000.
Definition maxMutePatterns : Z := 100.
Definition idempotencyTTL : duration := 24 * Hour.

Definition clampPageSize (n : Z) : Z := if n <=? 0 then svc_defaultPageSize else if maxPageSize <? n then maxPageSize else n.

Definition isRepoNotFound (err : notif_error) : bool := errors_is err ErrRepoNotFound.

Definition channelName (c : NotificationChannel) : string :=
  if c =? ChannelInApp then "in-app" else if c =? ChannelWebhook then "webhook" else if c =? ChannelSlack then "Slack"
  else if c =? ChannelEmail then "email" else "unknown".

Section service.
Context {W : Type} `{Outside W, NotifOutside W, NotifText, CaseTables, Urls}.

Abbreviation call := (prog (site W notif_db)).
Abbreviation answer A := (result A notif_error).

(** ** Calls of the stores *)

Definition idem_Seen (key : string) : call (answer bool) := do! now := ask redis_now in query (fun _ d => Seen now key d).
Definition idem_Record (key : string) (ttl : duration) : call (answer unit) := do! now := ask redis_now in transact (Record_ now key ttl).

(** [PreferenceRepository.GetByUser]: two statements *)
Definition GetByUser (userID : string) : call (answer NotificationPreferences) :=
  do! root := query (fun _ d => prefs_root userID d) in
  match root with
  | Err e => Ret (Err (if isRepoNotFound e then e else Wrap "get preferences root" e))
  | Ok (muted, updated) =>
      do! children := query (fun _ d => prefs_children userID d) in
      try children (Wrap "get channel prefs") (fun cps =>
        Ret (Ok {| UserID := userID; Channels := cps; MutedEventPatterns := muted; UpdatedAt := updated |}))
  end.

(** ** The inbox *)

Definition ListNotifications (inp : ListNotificationsInput) : call (answer ListNotificationsOutput) :=
  let opts := {| PageSize := clampPageSize (ln_PageSize inp); PageToken := ln_PageToken inp; UnreadOnly := ln_UnreadOnly inp;
                 lo_MinSeverity := ln_MinSeverity inp; EventTypeFilter := ln_EventTypeFilter inp; lo_Channel := 0; lo_Status := 0; lo_NotificationID := "" |} in
  do! listed := query (fun _ d => ListForUser (ln_RecipientUserID inp) opts d) in
  try listed id (fun '(items, next) =>
  do! unread := query (fun _ d => CountUnread (ln_RecipientUserID inp) d) in
  try unread id (fun unread => Ret (Ok {| Notifications := items; NextPageToken := next; UnreadCount := unread |}))).

Definition not_found (err : notif_error) : notif_error := if isRepoNotFound err then Sentinel ErrNotFound else err.

Definition GetNotification (recipientUserID nid : string) : call (answer GetNotificationOutput) :=
  do! n := query (fun _ d => GetByIDForUser nid recipientUserID d) in
  try n not_found (fun n =>
  do! attempts := query (fun _ d => GetAttemptsForNotification recipientUserID nid d) in
  try attempts not_found (fun attempts => Ret (Ok {| got := n; DeliveryAttempts := attempts |}))).

Definition svc_MarkRead (inp : MarkReadInput) : call (answer MarkReadOutput) :=
  do! now := ask Now in
  let count (marked : answer Z) :=
    try marked id (fun marked =>
    do! unread := query (fun _ d => CountUnread (mr_RecipientUserID inp) d) in
    try unread id (fun unread => Ret (Ok {| MarkedCount := marked; mr_UnreadCount := unread |}))) in
  if MarkAll inp then
    do! marked := transact (MarkAllRead (mr_RecipientUserID inp) now) in count marked
  else if maxMarkReadBatch <? Z.of_nat (length (Ids inp)) then Ret (Err (wrap ErrValidation "too many ids in MarkRead batch"))
  else if bool_decide (Ids inp = []) then count (Ok 0)
  else do! marked := transact (MarkRead (mr_RecipientUserID inp) (Ids inp) now) in count marked.

Definition ListDeliveryAttempts (inp : ListDeliveryAttemptsInput) : call (answer ListDeliveryAttemptsOutput) :=
  let opts := {| PageSize := clampPageSize (ld_PageSize inp); PageToken := ld_PageToken inp; UnreadOnly := false; lo_MinSeverity := 0; EventTypeFilter := "";
                 lo_Channel := ld_Channel inp; lo_Status := ld_Status inp; lo_NotificationID := ld_NotificationID inp |} in
  let list_them :=
    do! listed := query (fun _ d => ListDeliveryAttemptsForUser (ld_RecipientUserID inp) opts d) in
    try listed id (fun '(attempts, next) => Ret (Ok {| Attempts := attempts; ld_NextPageToken := next |})) in
  if negb (String.eqb (ld_NotificationID inp) "") then
    do! n := query (fun _ d => GetByIDForUser (ld_NotificationID inp) (ld_RecipientUserID inp) d) in
    try n not_found (fun _ => list_them)
  else list_them.

(** ** Preferences *)

Definition defaultPreferences (userID : string) : call (answer NotificationPreferences) :=
  do! now := ask Now in
  Ret (Ok {| UserID := userID; Channels := [{| cp_Channel := ChannelInApp; Enabled := true; MinSeverity := SeverityUnspecified; Target := "" |}];
             MutedEventPatterns := []; UpdatedAt := now |}).

Definition GetPreferences (userID : string) : call (answer NotificationPreferences) :=
  do! p := GetByUser userID in
  match p with
  | Err err => if isRepoNotFound err then defaultPreferences userID else Ret (Err err)
  | Ok p => Ret (Ok p)
  end.

(** The loop that validates every target. *)
Fixpoint first_invalid (cps : list ChannelPreference) : option notif_error :=
  match cps with
  | [] => None
  | cp :: cps => match validateChannelTarget cp with Some err => Some err | None => first_invalid cps end
  end.

(** The key of a request, looked up when the client sent one. *)
Definition seen_before (idemKey : option string) : call (answer bool) :=
  match idemKey with Some key => idem_Seen key | None => Ret (Ok false) end.
Definition record_key {A} (idemKey : option string) (a : A) : call (answer A) :=
  match idemKey with
  | Some key => do! recorded := idem_Record key idempotencyTTL in try recorded id (fun _ => Ret (Ok a))
  | None => Ret (Ok a)
  end.

Definition UpdatePreferences (inp : UpdatePreferencesInput) : call (answer NotificationPreferences) :=
  let idemKey := if String.eqb (up_IdempotencyKey inp) "" then None else Some ("idem:prefs:" +:+ up_UserID inp +:+ ":" +:+ up_IdempotencyKey inp) in
  do! seen := seen_before idemKey in
  try seen id (fun seen =>
  if seen then GetPreferences (up_UserID inp)
  else if maxMutePatterns <? Z.of_nat (length (up_MutedEventPatterns inp)) then Ret (Err (wrap ErrValidation "too many muted_event_patterns"))
  else
    match first_invalid (up_Channels inp) with
    | Some err => Ret (Err err)
    | None =>
        do! now := ask Now in
        do! stored := transact (Upsert {| UserID := up_UserID inp; Channels := up_Channels inp; MutedEventPatterns := up_MutedEventPatterns inp; UpdatedAt := now |}) in
        try stored id (fun stored => record_key idemKey stored)
    end).

(** The notifier is called on a logged target. *)
Definition deliver (t : DeliveryTarget) : call (DeliveryResult * option string) :=
  logged (notifier_Deliver t) (with_sent t).

Definition TestChannel (inp : TestChannelInput) : call (answer TestChannelOutput) :=
  let idemKey := if String.eqb (tc_IdempotencyKey inp) "" then None else Some ("idem:test:" +:+ tc_UserID inp +:+ ":" +:+ tc_IdempotencyKey inp) in
  let delivered := {| tc_Status := StatusDelivered; tc_ResponseCode := 0; tc_ErrorMessage := "" |} in
  do! seen := seen_before idemKey in
  try seen id (fun seen =>
  if seen then Ret (Ok delivered)
  else if tc_Channel inp =? ChannelInApp then record_key idemKey delivered
  else
    do! prefs := GetByUser (tc_UserID inp) in
    match prefs with
    | Err err => if isRepoNotFound err then Ret (Err (Sentinel ErrChannelNotConfigured)) else Ret (Err err)
    | Ok prefs =>
        match ChannelFor prefs (tc_Channel inp) with
        | None => Ret (Err (Sentinel ErrChannelNotConfigured))
        | Some cp =>
            if negb (Enabled cp) || String.eqb (TrimSpace (Target cp)) "" then Ret (Err (Sentinel ErrChannelNotConfigured))
            else
              do! sent := deliver {|
                dt_Channel := tc_Channel inp; dt_Target := Target cp; dt_Title := "Forgepoint test notification";
                dt_Body := "This is a test of your " +:+ channelName (tc_Channel inp) +:+ " channel. If you can read this, it works.";
                dt_Payload := ""; dt_EventType := "fp.notifications.test" |} in
              match sent with
              | (_, Some text) => Ret (Ok {| tc_Status := StatusFailed; tc_ResponseCode := 0; tc_ErrorMessage := text |})
              | (res, None) =>
                  record_key idemKey {| tc_Status := dr_Status res; tc_ResponseCode := dr_ResponseCode res; tc_ErrorMessage := dr_ErrorMessage res |}
              end
        end
    end).

(** ** The reactor *)

Definition resolveEvent (env : EventEnvelope) : option InboundEvent :=
  match Route env with
  | None => None
  | Some routed =>
      if String.eqb (rr_RecipientUserID routed) "" then None
      else Some {|
        ie_EventID := env_ID env; ie_Type := (if String.eqb (FullType routed) "" then env_Type env else FullType routed); ie_Source := env_Source env;
        ie_RecipientUserID := rr_RecipientUserID routed; ie_Title := rr_Title routed; ie_Body := rr_Body routed; ie_Payload := env_Data env;
        ie_OccurredAt := env_Timestamp env |}
  end.

Definition execute (decision : RoutingDecision) (ev : InboundEvent) : call (answer ExecutionResult) :=
  logged (Execute decision ev) (with_executed (decision, ev)).

Definition publish_health (h : health_event) : call bool :=
  logged (PublishHealth h) (with_published h).

(** Failures to publish are logged. *)
Fixpoint publishDeliveryHealth (res : ExecutionResult) (ev : InboundEvent) (ds : list ExecutedDelivery) : call unit :=
  match ds with
  | [] => Ret tt
  | d :: ds =>
      do! _ := publish_health {| he_NotificationID := er_NotificationID res; he_RecipientUserID := ie_RecipientUserID ev; he_EventType := ie_Type ev; he_delivery := d |} in
      publishDeliveryHealth res ev ds
  end.

Definition store_IsProcessed (key : string) : call (answer bool) := do! now := ask redis_now in query (fun _ d => IsProcessed now key d).
Definition store_MarkProcessed (key : string) : call (answer unit) := do! now := ask redis_now in transact (MarkProcessed now key).

(** [Ok tt] acknowledges. *)
Definition handle (env : EventEnvelope) : call (answer unit) :=
  match resolveEvent env with
  | None => Ret (Ok tt)
  | Some ev =>
      let dedupKey := EventDedupKey (ie_EventID ev) (ie_RecipientUserID ev) in
      do! seen := store_IsProcessed dedupKey in
      try seen (Wrap "events: idempotency check") (fun seen =>
      if seen then Ret (Ok tt)
      else
        do! prefs := GetPreferences (ie_RecipientUserID ev) in
        try prefs (Wrap "events: load prefs") (fun prefs =>
        do! res := execute (ReactToEvent ev prefs) ev in
        try res (Wrap "events: execute decision") (fun res =>
        do! _ := publishDeliveryHealth res ev (Deliveries res) in
        do! marked := store_MarkProcessed dedupKey in
        try marked (Wrap "events: mark processed") (fun _ => Ret (Ok tt)))))
  end.
End service.

(** ** The handler *)

(** The text of an error: [wrappedErr] puts the sentinel first, [fmt.Errorf] last. *)
Fixpoint error_string (e : notif_error) : string :=
  match e with
  | Sentinel s => sentinel_text s
  | External text => text
  | Wrap msg (Sentinel ErrValidation) => sentinel_text ErrValidation +:+ ": " +:+ msg
  | Wrap msg (Sentinel ErrSSRFTargetRejected) => sentinel_text ErrSSRFTargetRejected +:+ ": " +:+ msg
  | Wrap text e => text +:+ ": " +:+ error_string e
  end.

(** [strings.CutSuffix] *)
Definition CutSuffix (s suffix : string) : option string :=
  if HasSuffix s suffix then Some (upto_byte (String.length s - String.length suffix) s) else None.

Definition clientMessage (err : notif_error) (sentinel : notif_sentinel) (fallback : string) : string :=
  match CutSuffix (error_string err) (sentinel_text sentinel) with
  | Some trimmed => let ctx := default trimmed (CutSuffix trimmed ": ") in if String.eqb ctx "" then fallback else ctx
  | None => fallback
  end.

Definition toStatusError (err : notif_error) : rpc_error :=
  if errors_is err ErrValidation then Status InvalidArgument (clientMessage err ErrValidation "invalid request")
  else if errors_is err ErrSSRFTargetRejected then Status InvalidArgument (clientMessage err ErrSSRFTargetRejected "webhook/slack target rejected")
  else if errors_is err ErrNotFound then Status NotFound "notification not found"
  else if errors_is err ErrChannelNotConfigured then Status FailedPrecondition "channel is not configured for this user"
  else Status Internal "internal error".

Definition callerID (claims : option Claims) : result string rpc_error :=
  match claims with
  | None => Err (Status Unauthenticated "missing authentication")
  | Some c => if String.eqb (c_UserID c) "" then Err (Status Unauthenticated "missing authentication") else Ok (c_UserID c)
  end.

Definition validChannel (c : Z) : bool := within_check 0 4 c.
Definition validSeverity (s : Z) : bool := within_check 0 4 s.
Definition validStatus (s : Z) : bool := within_check 0 5 s.

(** The requests as they arrive; a missing pagination has the page size 0. *)
Inductive notif_request :=
| ReqListNotifications (unread_only : bool) (min_severity : Z) (event_type_filter : string) (req_page_size : Z) (page_token : string)
| ReqGetNotification (nid : string)
| ReqMarkRead (ids : list string) (mark_all : bool)
| ReqListDeliveryAttempts (channel status : Z) (notification_id : string) (req_page_size : Z) (page_token : string)
| ReqGetPreferences
| ReqUpdatePreferences (channels : list ChannelPreference) (muted : list string) (idempotency_key : string)
| ReqTestChannel (channel : Z) (idempotency_key : string).

(** The responses, with their counts as [int32]. *)
Inductive notif_response :=
| RespListNotifications (out : ListNotificationsOutput)
| RespGetNotification (out : GetNotificationOutput)
| RespMarkRead (out : MarkReadOutput)
| RespListDeliveryAttempts (out : ListDeliveryAttemptsOutput)
| RespPreferences (p : NotificationPreferences)
| RespTestChannel (out : TestChannelOutput).

Definition to_int32 (z : Z) : Z := (z + 2 ^ 31) mod 2 ^ 32 - 2 ^ 31.

(** The checks of a request before the caller is looked at. *)
Definition check_request (req : notif_request) : option string :=
  match req with
  | ReqListNotifications _ min_severity _ size _ =>
      if negb (validSeverity min_severity) then Some "min_severity is not a valid severity"
      else if size <? 0 then Some "page_size must not be negative" else None
  | ReqGetNotification nid => if String.eqb nid "" then Some "id is required" else None
  | ReqMarkRead ids mark_all =>
      if negb mark_all && bool_decide (ids = []) then Some "ids must not be empty when mark_all is false"
      else if negb mark_all && (maxMarkReadBatch <? Z.of_nat (length ids)) then Some "too many ids in MarkRead batch" else None
  | ReqListDeliveryAttempts channel status _ size _ =>
      if negb (validChannel channel) then Some "channel is not a valid channel"
      else if negb (validStatus status) then Some "status is not a valid delivery status"
      else if size <? 0 then Some "page_size must not be negative" else None
  | ReqGetPreferences => None
  | ReqUpdatePreferences channels muted _ =>
      if maxMutePatterns <? Z.of_nat (length muted) then Some "too many muted_event_patterns"
      else
        match List.find (fun cp => negb (validChannel (cp_Channel cp)) || negb (validSeverity (MinSeverity cp))) channels with
        | Some cp => Some (if negb (validChannel (cp_Channel cp)) then "channel is not a valid channel" else "min_severity is not a valid severity")
        | None => None
        end
  | ReqTestChannel channel _ =>
      if negb (validChannel channel) || (channel =? ChannelUnspecified) then Some "channel must be a valid, specified channel" else None
  end.

Section handler.
Context {W : Type} `{Outside W, NotifOutside W, NotifText, CaseTables, Urls}.

Abbreviation call := (prog (site W notif_db)).

(** The domain call of a checked request of a caller. *)
Definition reply {A} (m : call (result A notif_error)) (f : A -> notif_response) : call (result notif_response rpc_error) :=
  do! r := m in Ret (match r with Ok a => Ok (f a) | Err e => Err (toStatusError e) end).

Definition serve (uid : string) (req : notif_request) : call (result notif_response rpc_error) :=
  match req with
  | ReqListNotifications unread_only min_severity filter size token =>
      reply (ListNotifications {| ln_RecipientUserID := uid; ln_UnreadOnly := unread_only; ln_MinSeverity := min_severity; ln_EventTypeFilter := filter;
                                  ln_PageSize := size; ln_PageToken := token |})
            (fun out => RespListNotifications {| Notifications := Notifications out; NextPageToken := NextPageToken out; UnreadCount := to_int32 (UnreadCount out) |})
  | ReqGetNotification nid => reply (GetNotification uid nid) RespGetNotification
  | ReqMarkRead ids mark_all =>
      reply (svc_MarkRead {| mr_RecipientUserID := uid; Ids := ids; MarkAll := mark_all |})
            (fun out => RespMarkRead {| MarkedCount := to_int32 (MarkedCount out); mr_UnreadCount := to_int32 (mr_UnreadCount out) |})
  | ReqListDeliveryAttempts channel status notification_id size token =>
      reply (ListDeliveryAttempts {| ld_RecipientUserID := uid; ld_Channel := channel; ld_Status := status; ld_NotificationID := notification_id;
                                     ld_PageSize := size; ld_PageToken := token |}) RespListDeliveryAttempts
  | ReqGetPreferences => reply (GetPreferences uid) RespPreferences
  | ReqUpdatePreferences channels muted key =>
      reply (UpdatePreferences {| up_UserID := uid; up_Channels := channels; up_MutedEventPatterns := muted; up_IdempotencyKey := key |}) RespPreferences
  | ReqTestChannel channel key => reply (TestChannel {| tc_UserID := uid; tc_Channel := channel; tc_IdempotencyKey := key |}) RespTestChannel
  end.

Definition rpc (claims : option Claims) (req : notif_request) : call (result notif_response rpc_error) :=
  match check_request req with
  | Some msg => Ret (Err (Status InvalidArgument msg))
  | None => match callerID claims with Err e => Ret (Err e) | Ok uid => serve uid req end
  end.
End handler.
