(* ===== verification/NotifTables.v ===== *)
(** * Notifications: what the tables keep

    The writes that calls of users, deliveries of events and an executor of decisions make,
    one by one: the facts about the tables that each keeps, how a row may change, and
    whose rows do. *)

From S2P Require Import Prelude Concur Site GoText AuditCapture GoNet NotifModel NotifTargets NotifStore Notif.
Open Scope fp_scope.

(** ** The writes *)

Section writes.
Context `{NotifText, CaseTables, Urls}.

(** A target that the guard of its channel accepted. *)
Definition vetted (cp : ChannelPreference) : Prop := validateChannelTarget cp = None.

Definition sendable (t : DeliveryTarget) : Prop :=
  vetted {| cp_Channel := dt_Channel t; Enabled := true; MinSeverity := 0; Target := dt_Target t |}.

(** Some execution was asked for with this key. *)
Definition reacted (d : notif_db) (key : string) : Prop :=
  exists decision ev, (decision, ev) ∈ executed d /\ key = EventDedupKey (ie_EventID ev) (ie_RecipientUserID ev).

(** The users whose calls are served. *)
Variable caller : string -> Prop.

Inductive notif_write : notif_db -> notif_db -> Prop :=
| WriteCreate n d m d' : Create n d = (Ok m, d') -> notif_write d d'
| WriteMark u which now d : caller u -> notif_write d (mark_where u which now d).2
| WriteAttempt a d d' : AppendDeliveryAttempt a d = (Ok tt, d') -> notif_write d d'
| WritePrefs p d q d' : caller (UserID p) -> Forall vetted (Channels p) -> Upsert p d = (Ok q, d') -> notif_write d d'
| WriteIdem i d : notif_write d (with_idem i d)
| WriteSent t d : sendable t -> notif_write d (with_sent t d)
| WriteProcessed key expiry d : reacted d key -> notif_write d (with_processed (<[processedPrefix +:+ key := expiry]> (processed d)) d)
| WriteExecuted decision ev d : (exists prefs, decision = ReactToEvent ev prefs) -> notif_write d (with_executed (decision, ev) d)
| WritePublished h d : notif_write d (with_published h d).

Definition notif_regime : regime notif_db := {|
  write := notif_write; Site.keeps := rtc notif_write; write_keeps l l' Hw := rtc_once l l' Hw |}.

(** ** What they keep *)

Lemma int16_small z : - 2 ^ 15 <= z < 2 ^ 15 -> int16 z = z.
Proof. intros Hz. unfold int16. rewrite Z.mod_small by lia. lia. Qed.

(** A vetted preference is of a known channel, so that its column keeps it. *)
Lemma vetted_row cp : vetted cp -> vetted (pref_row cp) /\ cp_Channel (pref_row cp) = cp_Channel cp.
Proof.
  unfold vetted, validateChannelTarget, pref_row. cbn [cp_Channel Enabled Target]. intros Hv.
  assert (0 <= cp_Channel cp <= 4) as Hr.
  { unfold ChannelInApp, ChannelUnspecified, ChannelEmail, ChannelWebhook, ChannelSlack in Hv. repeat case_match; bool_to_prop; try done; try lia.
    all: repeat match goal with Ho : (_ || _)%bool = true |- _ => apply orb_true_iff in Ho as [Ho | Ho] end; bool_to_prop; lia. }
  by rewrite int16_small by lia.
Qed.

Definition enabled_vetted (row : string * ChannelPreference) : Prop := vetted row.2.

Record good (d : notif_db) : Prop := {
  ids_unique : NoDup (map n_ID (notifications d));
  events_unique : NoDup (map (fun n => (EventID n, RecipientUserID n)) (notifications d));
  prefs_vetted : Forall enabled_vetted (channel_prefs d);
  prefs_unique : NoDup (map (fun r => (r.1, cp_Channel r.2)) (channel_prefs d));
  prefs_rooted : Forall (fun r => is_Some (preferences d !! r.1)) (channel_prefs d);
  log_owned : Forall (fun r => exists n, n ∈ notifications d /\ n_ID n = NotificationID (dl_attempt r) /\ RecipientUserID n = dl_recipient r) (delivery_log d);
  log_ids : StronglySorted Z.lt (map dl_id (delivery_log d)) /\ Forall (fun r => dl_id r < next_log d) (delivery_log d);
  sent_vetted : Forall sendable (sent d);
  processed_executed : map_Forall (fun key _ => exists k, key = processedPrefix +:+ k /\ reacted d k) (processed d);
  executed_decided : Forall (fun e => exists prefs, e.1 = ReactToEvent e.2 prefs) (executed d);
}.

Lemma NoDup_snoc {A B} (f : A -> B) l x : NoDup (map f l) -> (forall y, y ∈ l -> f y <> f x) -> NoDup (map f (l ++ [x])).
Proof.
  intros Hn Hf. rewrite map_app. apply list.NoDup_app. split; [exact Hn |]. split; [| apply list.NoDup_singleton].
  intros k (y & -> & Hy)%list_elem_of_fmap Hin%list_elem_of_singleton. by apply (Hf y).
Qed.

Lemma existsb_false {A} (p : A -> bool) l : existsb p l = false <-> forall x, x ∈ l -> p x = false.
Proof.
  induction l as [|x l IH]; [split; [by intros _ ? ?%list.not_elem_of_nil | done] |]. cbn [existsb]. rewrite orb_false_iff, IH. split.
  - intros [Hx Hl] y [-> | Hy]%elem_of_cons; [exact Hx | by apply Hl].
  - intros Hp. split; [apply Hp; by left | intros y Hy; apply Hp; by right].
Qed.

Lemma Create_ok n d m d' : Create n d = (Ok m, d') ->
  d' = with_notifications (notifications d ++ [stored n]) d /\
  forall k, k ∈ notifications d -> n_ID k <> n_ID (stored n) /\ (EventID k, RecipientUserID k) <> (EventID (stored n), RecipientUserID (stored n)).
Proof.
  unfold Create. destruct (negb _); [done |]. destruct (existsb _ _) eqn:Ex; [done |]. intros [= _ <-]. split; [done |].
  intros k Hk. rewrite existsb_false in Ex. specialize (Ex k Hk). apply orb_false_iff in Ex as [Hi He]. apply String.eqb_neq in Hi.
  split; [exact Hi |]. intros [= H1' H2']. rewrite H1', H2', !String.eqb_refl in He. done.
Qed.

Lemma insert_prefs_ok u cps rows rows' : insert_prefs u cps rows = Ok rows' ->
  rows' = rows ++ map (fun cp => (u, pref_row cp)) cps /\
  (NoDup (map (fun r => (r.1, cp_Channel r.2)) rows) -> NoDup (map (fun r => (r.1, cp_Channel r.2)) rows')).
Proof.
  revert rows. induction cps as [|cp cps IH]; intros rows; cbn [insert_prefs]; [intros [= <-]; by rewrite app_nil_r |].
  destruct (negb _); [done |]. destruct (existsb _ _) eqn:Ex; [done |]. intros He. apply IH in He as [-> Hn]. split; [by rewrite <- app_assoc |].
  intros Hr. apply Hn. apply (NoDup_snoc (fun r => (r.1, cp_Channel r.2)) rows (u, pref_row cp)); [exact Hr |]. intros [v q] Hv. rewrite existsb_false in Ex. specialize (Ex _ Hv). cbn in Ex |- *.
  intros [= -> Hc]. by rewrite Hc, String.eqb_refl, Z.eqb_refl in Ex.
Qed.

Lemma map_where_key {A} (f : Notification -> A) u which now d :
  (forall n, f (read_marked now n) = f n) -> map f (notifications (mark_where u which now d).2) = map f (notifications d).
Proof. intros Hf. cbn. rewrite map_map. apply map_ext. intros n. destruct (_ && _); [apply Hf | done]. Qed.

Lemma Sorted_snoc l z : StronglySorted Z.lt l -> Forall (fun x => x < z) l -> StronglySorted Z.lt (l ++ [z]).
Proof.
  induction 1 as [|x l Hs IH Hx]; intros Hf; [repeat constructor |]. apply list.Forall_cons in Hf as [Hxz Hf]. cbn. constructor; [by apply IH |].
  apply list.Forall_app. split; [exact Hx | by repeat constructor].
Qed.
(** Steps that leave all tables but the logs keep the facts about them. *)
Lemma good_same d d' : good d -> notifications d' = notifications d -> preferences d' = preferences d -> channel_prefs d' = channel_prefs d ->
  delivery_log d' = delivery_log d -> next_log d' = next_log d -> Forall sendable (sent d') ->
  map_Forall (fun key _ => exists k, key = processedPrefix +:+ k /\ reacted d' k) (processed d') ->
  Forall (fun e => exists prefs, e.1 = ReactToEvent e.2 prefs) (executed d') -> good d'.
Proof. intros [] En Ep Ec El Ex Hs Hp He. split; try done; by rewrite ?En, ?Ep, ?Ec, ?El, ?Ex. Qed.

Lemma create_good n d m d' : Create n d = (Ok m, d') -> good d -> good d'.
Proof.
  intros [-> Hf]%Create_ok []. split; cbn; try done.
  - apply NoDup_snoc; [done |]. intros k Hk. by apply Hf.
  - apply NoDup_snoc; [done |]. intros k Hk. by apply Hf.
  - eapply Forall_impl; [| exact log_owned0]. intros r (k & Hk & Hr). exists k. split; [by apply elem_of_app; left | exact Hr].
Qed.

Lemma mark_good u which now d : good d -> good (mark_where u which now d).2.
Proof.
  intros []. split; try done.
  - by rewrite map_where_key.
  - by rewrite map_where_key.
  - eapply Forall_impl; [| exact log_owned0]. intros r (k & Hk & Hid & Hu). cbn.
    exists (if String.eqb (RecipientUserID k) u && negb (Read k) && which k then read_marked now k else k).
    split; [by apply list_elem_of_fmap; exists k | by destruct (_ && _)].
Qed.

Lemma attempt_good a d d' : AppendDeliveryAttempt a d = (Ok tt, d') -> good d -> good d'.
Proof.
  unfold AppendDeliveryAttempt. destruct (List.find _ _) as [n|] eqn:Ef; [| done]. destruct (negb _); [done |]. intros [= <-] [].
  apply List.find_some in Ef as [Hn Hid]. apply String.eqb_eq in Hid. destruct log_ids0 as [Hs Hl]. split; cbn; try done.
  - apply list.Forall_app. split; [done |]. constructor; [| constructor]. exists n. split; [by apply list_elem_of_In | by split].
  - rewrite map_app. split.
    + apply Sorted_snoc; [exact Hs |]. apply list.Forall_fmap. exact Hl.
    + apply list.Forall_app. split; [eapply Forall_impl; [| exact Hl]; cbn; lia | repeat constructor; cbn; lia].
Qed.

Lemma Upsert_ok p d q d' : Upsert p d = (Ok q, d') ->
  q = p /\ d' = with_prefs (<[UserID p := (MutedEventPatterns p, timestamptz (UpdatedAt p))]> (preferences d))
    (List.filter (fun r => negb (String.eqb r.1 (UserID p))) (channel_prefs d) ++ map (fun cp => (UserID p, pref_row cp)) (Channels p)) d /\
  (NoDup (map (fun r => (r.1, cp_Channel r.2)) (channel_prefs d)) -> NoDup (map (fun r => (r.1, cp_Channel r.2)) (channel_prefs d'))).
Proof.
  unfold Upsert. destruct (insert_prefs _ _ _) as [rows|] eqn:Ei; [| done]. intros [= <- <-]. apply insert_prefs_ok in Ei as [-> Hn].
  split; [done |]. split; [done |]. intros Hd. apply Hn. revert Hd. clear Hn. induction (channel_prefs d) as [|r l IH]; [done |]. cbn [map List.filter].
  intros Hnd. inversion Hnd as [|? ? Hx Hnd']; subst. destruct (negb _); [| by apply IH]. cbn [map]. constructor; [| by apply IH].
  intros (r' & Hr' & Hin)%list_elem_of_fmap. apply Hx, list_elem_of_fmap. exists r'. split; [done |].
  apply list_elem_of_In in Hin. apply filter_In in Hin as [Hin _]. by apply list_elem_of_In.
Qed.

Lemma prefs_good p d q d' : Forall vetted (Channels p) -> Upsert p d = (Ok q, d') -> good d -> good d'.
Proof.
  intros Hv Hu Hg. apply Upsert_ok in Hu as (_ & Hd & Hn). destruct Hg. specialize (Hn prefs_unique0). subst d'. split; cbn; try done.
  - apply list.Forall_app. split.
    + apply List.Forall_forall. intros r [Hr _]%filter_In. rewrite List.Forall_forall in prefs_vetted0. by apply prefs_vetted0.
    + apply list.Forall_fmap. eapply Forall_impl; [| exact Hv]. intros cp Hcp. exact (proj1 (vetted_row cp Hcp)).
  - assert (forall v, is_Some (preferences d !! v) -> is_Some (<[UserID p := (MutedEventPatterns p, timestamptz (UpdatedAt p))]> (preferences d) !! v)) as Hm.
    { intros v Hv'. destruct (decide (v = UserID p)) as [-> |]; [rewrite lookup_insert_eq | rewrite lookup_insert_ne by done]; done. }
    apply list.Forall_app. split.
    + apply List.Forall_forall. intros r [Hr _]%filter_In. rewrite List.Forall_forall in prefs_rooted0. by apply Hm, prefs_rooted0.
    + apply list.Forall_fmap, list.Forall_true. intros cp. cbn. by rewrite lookup_insert_eq.
Qed.

Lemma notif_write_good d d' : notif_write d d' -> good d -> good d'.
Proof.
  intros Hw Hg. destruct Hw as [n d m d' Hc | u which now d _ | a d d' Ha | p d q d' _ Hv Hu | i d | t d Ht | key expiry d Hr | decision ev d He | h d].
  - by eapply create_good.
  - by apply mark_good.
  - by eapply attempt_good.
  - by eapply prefs_good.
  - by apply (good_same d); try done; apply Hg.
  - apply (good_same d); try done; try apply Hg. cbn. apply list.Forall_app. split; [apply Hg | by repeat constructor].
  - apply (good_same d); try done; try apply Hg. cbn. apply map_Forall_insert_2; [by exists key |]. intros k e Hk. by apply (processed_executed d Hg k e).
  - apply (good_same d); try done; try apply Hg; cbn.
    + intros k e Hk. destruct (processed_executed d Hg k e Hk) as (k' & -> & d1 & e1 & Hin & ->). exists (EventDedupKey (ie_EventID e1) (ie_RecipientUserID e1)).
      split; [done |]. exists d1, e1. split; [by apply elem_of_app; left | done].
    + apply list.Forall_app. split; [apply Hg | by repeat constructor].
  - by apply (good_same d); try done; apply Hg.
Qed.

Lemma notif_grow_good d d' : rtc notif_write d d' -> good d -> good d'.
Proof. induction 1 as [| d1 d2 d3 Hw _ IH]; [done |]. intros Hg. by apply IH, (notif_write_good d1). Qed.

(** ** Whose rows change, and how *)

(** A row stays, or its recipient reads it, once. *)
Definition read_once (n n' : Notification) : Prop := n' = n \/ Read n = false /\ exists now, n' = read_marked now n.

Record evolved (d d' : notif_db) : Prop := {
  rows_stay : exists olds added, notifications d' = olds ++ added /\ Forall2 read_once (notifications d) olds;
  log_grows : exists added, delivery_log d' = delivery_log d ++ added;
  executed_grows : exists added, executed d' = executed d ++ added;
}.

Definition rows_of (u : string) (d : notif_db) : list Notification := List.filter (fun n => String.eqb (RecipientUserID n) u) (notifications d).

Record untouched (u : string) (d d' : notif_db) : Prop := {
  inbox_kept : exists added, rows_of u d' = rows_of u d ++ added;
  settings_kept : preferences d' !! u = preferences d !! u;
  channels_kept : prefs_of u d' = prefs_of u d;
}.

#[export] Instance read_once_preorder : PreOrder read_once.
Proof.
  split; [by left |]. intros x y z [-> | (Hx & t & ->)] [-> | (Hy & t' & ->)]; [by left | right; by split; [| exists t'] | right; by split; [| exists t] | done].
Qed.

#[export] Instance evolved_preorder : PreOrder evolved.
Proof.
  split.
  - intros d. split; [exists (notifications d), [] | exists [] | exists []]; rewrite ?app_nil_r; [| done | done]. split; [done |]. induction (notifications d); constructor; [by left | done].
  - intros d1 d2 d3 [(o1 & a1 & E1 & H1') (l1 & L1) (e1 & X1)] [(o2 & a2 & E2 & H2') (l2 & L2) (e2 & X2)]. split.
    + rewrite E1 in H2'. apply Forall2_app_inv_l in H2' as (p & q & Hp & Hq & ->). exists p, (q ++ a2). split; [by rewrite E2, app_assoc |].
      exact (transitivity H1' Hp).
    + exists (l1 ++ l2). by rewrite L2, L1, app_assoc.
    + exists (e1 ++ e2). by rewrite X2, X1, app_assoc.
Qed.

#[export] Instance untouched_preorder u : PreOrder (untouched u).
Proof.
  split.
  - intros d. split; [exists []; by rewrite app_nil_r | done | done].
  - intros d1 d2 d3 [(a1 & E1) S1 C1] [(a2 & E2) S2 C2]. split; [exists (a1 ++ a2); by rewrite E2, E1, app_assoc | by rewrite S2 | by rewrite C2].
Qed.

Lemma evolved_same d d' : notifications d' = notifications d -> delivery_log d' = delivery_log d -> executed d' = executed d -> evolved d d'.
Proof. intros E L X. destruct (reflexivity d : evolved d d) as [A B C]. split; [by rewrite E | by rewrite L | by rewrite X]. Qed.

Lemma notif_write_evolved d d' : notif_write d d' -> evolved d d'.
Proof.
  assert (forall l, Forall2 read_once l l) as Hrefl by (intros l; induction l; constructor; [by left | done]).
  destruct 1 as [n d m d' Hc | u which now d _ | a d d' Ha | p d q d' _ Hv Hu | i d | t d Ht | key expiry d Hr | decision ev d He | h d];
    try (by apply evolved_same).
  - apply Create_ok in Hc as [-> _]. split; [by exists (notifications d), [stored n] | exists []; by rewrite app_nil_r ..].
  - split; [| exists []; by rewrite app_nil_r ..]. unfold mark_where. cbn [snd notifications with_notifications]. eexists _, []. rewrite app_nil_r. split; [reflexivity |].
    induction (notifications d) as [|n l IH]; constructor; [| exact IH]. destruct (String.eqb _ u && negb (Read n) && which n) eqn:E; [| by left].
    right. bool_to_prop. split; [done | by exists now].
  - unfold AppendDeliveryAttempt in Ha. destruct (List.find _ _); [| done]. destruct (negb _); [done |]. injection Ha as <-.
    split; [exists (notifications d), []; by rewrite app_nil_r | by eexists | exists []; by rewrite app_nil_r].
  - apply Upsert_ok in Hu as (_ & -> & _). by apply evolved_same.
  - split; [exists (notifications d), []; by rewrite app_nil_r | exists []; by rewrite app_nil_r | by eexists].
Qed.

Lemma notif_grow_evolved d d' : rtc notif_write d d' -> evolved d d'.
Proof. induction 1 as [| d1 d2 d3 Hw _ IH]; [reflexivity |]. etrans; [by apply notif_write_evolved | exact IH]. Qed.

Lemma untouched_same u d d' : notifications d' = notifications d -> preferences d' = preferences d -> channel_prefs d' = channel_prefs d -> untouched u d d'.
Proof. intros E P C. split; unfold rows_of, prefs_of; [exists []; by rewrite E, app_nil_r | by rewrite P | by rewrite C]. Qed.

Lemma filter_app_rows u l k : List.filter (fun n => String.eqb (RecipientUserID n) u) (l ++ k)
  = List.filter (fun n => String.eqb (RecipientUserID n) u) l ++ List.filter (fun n => String.eqb (RecipientUserID n) u) k.
Proof. apply filter_app. Qed.

Lemma notif_write_untouched u d d' : ~ caller u -> notif_write d d' -> untouched u d d'.
Proof.
  intros Hn. destruct 1 as [n d m d' Hc | v which now d Hv | a d d' Ha | p d q d' Hc Hv Hu | i d | t d Ht | key expiry d Hr | decision ev d He | h d];
    try (by apply untouched_same).
  - apply Create_ok in Hc as [-> _]. split; [| done | done]. eexists. apply filter_app_rows.
  - split; [| done | done]. exists []. rewrite app_nil_r. unfold rows_of, mark_where. cbn [snd notifications with_notifications].
    induction (notifications d) as [|n l IH]; [done |]. cbn [map List.filter]. rewrite IH.
    destruct (String.eqb_spec (RecipientUserID n) v) as [Hnv |]; cbn [andb]; [| done].
    destruct (negb (Read n) && which n); [| done]. cbn [read_marked RecipientUserID]. destruct (String.eqb_spec (RecipientUserID n) u); [| done].
    exfalso. apply Hn. congruence.
  - unfold AppendDeliveryAttempt in Ha. destruct (List.find _ _); [| done]. destruct (negb _); [done |]. injection Ha as <-. by apply untouched_same.
  - apply Upsert_ok in Hu as (_ & -> & _). assert (UserID p <> u) as Hne by congruence. split; [exists []; by rewrite app_nil_r | |].
    + cbn. by rewrite lookup_insert_ne.
    + unfold prefs_of. cbn [channel_prefs with_prefs]. rewrite filter_app, map_app.
      assert (List.filter (fun r : string * ChannelPreference => String.eqb r.1 u) (map (fun cp => (UserID p, pref_row cp)) (Channels p)) = []) as ->.
      { clear -Hne. induction (Channels p) as [|cp cps IH]; [done |]. cbn. rewrite (proj2 (String.eqb_neq _ _) Hne). exact IH. }
      rewrite app_nil_r. f_equal. induction (channel_prefs d) as [|r l IH]; [done |]. cbn [List.filter].
      destruct (String.eqb_spec r.1 (UserID p)) as [Hr |]; cbn [negb List.filter]; [| by rewrite IH].
      rewrite IH, (proj2 (String.eqb_neq r.1 u)) by congruence. done.
Qed.

Lemma notif_grow_untouched u d d' : ~ caller u -> rtc notif_write d d' -> untouched u d d'.
Proof. intros Hn. induction 1 as [| d1 d2 d3 Hw _ IH]; [reflexivity |]. etrans; [by apply notif_write_untouched | exact IH]. Qed.
End writes.
