(* ===== verification/NotifSafety.v ===== *)
(** * Notifications under any interleaving

    What the calls of any users, the deliveries of any events and the writes of an executor
    do to the tables, section by section, over a failing database; and the pages of an inbox
    over tables at rest. *)

From S2P Require Import Prelude Concur Site GoText GoFormat AuditCapture GoNet Keyset NotifModel NotifTargets NotifStore Notif NotifTables.
Open Scope fp_scope.

Section requests.
Context {W : Type} `{Outside W, NotifOutside W, NotifText, CaseTables, Urls}.
Variable caller : string -> Prop.

Abbreviation call := (prog (site W notif_db)).
#[local] Abbreviation R := (notif_regime caller).
#[local] Abbreviation grows := (keeps R).

(** ** The stores *)

Lemma safe_idem_Seen base key : safe R base (idem_Seen key) (or_error (fun _ _ => True)).
Proof. unfold idem_Seen. apply safe_ask. intros now. by apply safe_fact. Qed.

Lemma safe_idem_Record base key ttl : safe R base (idem_Record key ttl) (or_error (fun _ _ => True)).
Proof.
  unfold idem_Record. apply safe_ask. intros now. apply safe_transaction; [| done]. intros l r l' _. unfold Record_.
  destruct (ttl <=? 0); intros [= <- <-]; split; try done; [by left | right; constructor].
Qed.

Lemma safe_seen_before base key : safe R base (seen_before key) (or_error (fun _ _ => True)).
Proof. destruct key; [apply safe_idem_Seen | by apply safe_ret]. Qed.

Lemma safe_record_key {A} base key (a : A) (Q : A -> notif_db -> Prop) : (forall l, grows base l -> Q a l) -> safe R base (record_key key a) (or_error Q).
Proof.
  intros Hq. destruct key as [key|]; [| by apply safe_ret]. unfold record_key. eapply safe_try; [apply safe_idem_Record |].
  intros _ l Hl _. apply safe_ret. intros l' Hl'. apply Hq. by etrans.
Qed.

(** ** Preferences are of their user and vetted *)

Definition settings_of (u : string) (p : NotificationPreferences) : Prop := UserID p = u /\ Forall vetted (Channels p).

Lemma prefs_of_vetted u d : good d -> Forall vetted (prefs_of u d).
Proof.
  intros Hg. unfold prefs_of. apply list.Forall_fmap, List.Forall_forall. intros r [Hr _]%filter_In.
  pose proof (prefs_vetted d Hg) as Hv. rewrite List.Forall_forall in Hv. by apply Hv.
Qed.

Lemma grows_good base l : good base -> grows base l -> good l.
Proof. intros Hb Hg. exact (notif_grow_good caller base l Hg Hb). Qed.

Lemma safe_GetByUser base u : good base -> safe R base (GetByUser u) (or_error (fun p _ => settings_of u p)).
Proof.
  intros Hb. unfold GetByUser. eapply safe_seq; [by apply safe_grows, (safe_fact _ base _ (fun _ => True)) |].
  intros [[muted updated]|e] l [Hl _]; [| apply safe_fail].
  eapply safe_try; [apply (safe_fact _ _ _ (Forall vetted)) |].
  - intros l' w a Hl' [= <-]. rewrite merge_sort_Permutation. apply prefs_of_vetted. eapply grows_good, Hl'. by eapply grows_good.
  - intros cps l' _ Hc. by apply safe_ret.
Qed.

Lemma safe_GetPreferences base u : good base -> safe R base (GetPreferences u) (or_error (fun p _ => settings_of u p)).
Proof.
  intros Hb. unfold GetPreferences. eapply safe_seq; [by apply safe_GetByUser |]. intros [p|e] l Hp; [by apply safe_ret |].
  destruct (isRepoNotFound e); [| apply safe_fail]. unfold defaultPreferences. apply safe_ask. intros now. apply safe_ret. intros l' _. split; [done |].
  by repeat constructor.
Qed.

Lemma first_invalid_none cps : first_invalid cps = None -> Forall vetted cps.
Proof.
  induction cps as [|cp cps IH]; [constructor |]. cbn [first_invalid]. destruct (validateChannelTarget cp) eqn:E; [done |]. intros Hn. constructor; [exact E | by apply IH].
Qed.

Lemma safe_UpdatePreferences base inp : caller (up_UserID inp) -> good base -> safe R base (UpdatePreferences inp) (or_error (fun p _ => settings_of (up_UserID inp) p)).
Proof.
  intros Hc Hb. unfold UpdatePreferences. eapply safe_try; [apply safe_seen_before |]. intros seen l Hl _.
  assert (good l) as Hg by by eapply grows_good. destruct seen; [by apply safe_GetPreferences |].
  destruct (_ <? _); [apply safe_fail |]. destruct (first_invalid _) eqn:E; [apply safe_fail |]. apply first_invalid_none in E.
  apply safe_ask. intros now. eapply (safe_try _ _ _ _ _ (fun p _ => settings_of (up_UserID inp) p)); [apply safe_transaction; [| done] |].
  - intros l1 r l2 _ Hu. unfold Upsert in Hu |- *. destruct (insert_prefs _ _ _) as [rows|e] eqn:Ei; injection Hu as <- <-; [| by split; [left |]].
    split; [right | by split]. eapply (WritePrefs caller _ l1 _ _); [| | by unfold Upsert; rewrite Ei]; done.
  - intros p l1 _ Hp. by apply safe_record_key.
Qed.

Lemma safe_TestChannel base inp : good base -> safe R base (TestChannel inp) (or_error (fun _ _ => True)).
Proof.
  intros Hb. unfold TestChannel. eapply safe_try; [apply safe_seen_before |]. intros seen l Hl _.
  assert (good l) as Hg by by eapply grows_good. destruct seen; [by apply safe_ret |]. destruct (tc_Channel inp =? ChannelInApp) eqn:Ec; [by apply safe_record_key |].
  eapply safe_seq; [by apply safe_GetByUser |]. intros [p|e] l1 Hp; [| destruct (isRepoNotFound e); apply safe_fail]. destruct Hp as [_ Hv].
  destruct (ChannelFor p _) as [cp|] eqn:Ef; [| apply safe_fail]. destruct (negb (Enabled cp) || _) eqn:Ee; [apply safe_fail |].
  unfold ChannelFor in Ef. destruct (List.find _ _) as [cp'|] eqn:Ef'; [| by rewrite Ec in Ef]. injection Ef as ->.
  apply List.find_some in Ef' as [Hin Hch]. apply Z.eqb_eq in Hch. rewrite List.Forall_forall in Hv. specialize (Hv _ Hin).
  apply orb_false_iff in Ee as [Ee _]. apply negb_false_iff in Ee. apply safe_logged. intros l2 _. split.
  - constructor. unfold sendable, vetted, validateChannelTarget in *. cbn [cp_Channel Enabled Target dt_Channel dt_Target negb] in *. by rewrite Hch, Ee in Hv.
  - intros [res [text|]]; [by apply safe_ret | by apply safe_record_key].
Qed.

(** ** Answers about a user are of that user *)

Definition attempt_of (u : string) (l : notif_db) (a : DeliveryAttempt) : Prop :=
  exists r, r ∈ delivery_log l /\ dl_attempt r = a /\ dl_recipient r = u.

Lemma attempt_of_grows u l l' a : grows l l' -> attempt_of u l a -> attempt_of u l' a.
Proof.
  intros Hg (r & Hr & Ha). destruct (log_grows _ _ (notif_grow_evolved caller l l' Hg)) as [added El]. exists r. rewrite El. split; [by apply elem_of_app; left | exact Ha].
Qed.

Lemma safe_ListNotifications base inp : safe R base (ListNotifications inp)
  (or_error (fun out _ => Forall (fun n => RecipientUserID n = ln_RecipientUserID inp) (Notifications out))).
Proof.
  unfold ListNotifications. eapply safe_try; [apply (safe_fact _ _ _ (fun p => Forall (fun n => RecipientUserID n = ln_RecipientUserID inp) p.1)) |].
  - intros l w a _. unfold ListForUser. destruct (read_cursor _ _ _) as [cur|]; [| done]. cbn [rbind].
    match goal with |- context [page ?k ?lt ?n cur ?rows] => pose proof (page_rows k lt n cur rows) as Hp; destruct (page k lt n cur rows) as [out next] end.
    intros [= <-]. cbn [fst] in *. eapply Forall_impl; [| exact Hp]. intros n Hn. apply list_elem_of_In, filter_In in Hn as [_ Hn].
    unfold list_where in Hn. bool_to_prop. done.
  - intros [items next] l _ Hi. eapply safe_try; [by apply (safe_fact _ _ _ (fun _ => True)) |]. intros unread l' _ _. by apply safe_ret.
Qed.

Lemma safe_GetNotification base u nid : safe R base (GetNotification u nid)
  (or_error (fun out l => RecipientUserID (got out) = u /\ Forall (attempt_of u l) (DeliveryAttempts out))).
Proof.
  unfold GetNotification. eapply safe_try; [apply (safe_fact _ _ _ (fun n => RecipientUserID n = u)) |].
  - intros l w a _. unfold GetByIDForUser. destruct (List.find _ _) eqn:E; [| done]. intros [= <-]. apply List.find_some in E as [_ E]. by bool_to_prop.
  - intros n l _ Hn. eapply safe_try; [apply (safe_statement _ _ _ (fun as_ l => Forall (attempt_of u l) as_)) |].
    + intros l' w a _ [= <-]. apply list.Forall_fmap, List.Forall_forall. intros r [Hr Hu]%filter_In. bool_to_prop.
      exists r. split; [| done]. apply list_elem_of_In in Hr. by rewrite merge_sort_Permutation in Hr.
    + intros a l1 l2 Hg Ha. eapply Forall_impl; [| exact Ha]. intros x. by apply attempt_of_grows.
    + intros attempts l1 _ Ha. apply safe_ret. intros l2 Hl2. split; [exact Hn |]. eapply Forall_impl; [| exact Ha]. intros x. by apply attempt_of_grows.
Qed.

Lemma safe_MarkRead base inp : caller (mr_RecipientUserID inp) -> safe R base (svc_MarkRead inp) (or_error (fun _ _ => True)).
Proof.
  intros Hc. unfold svc_MarkRead. apply safe_ask. intros now.
  assert (forall l marked, safe R l (try marked id (fun marked => do! unread := query (fun _ d => CountUnread (mr_RecipientUserID inp) d) in
    try unread id (fun unread => Ret (Ok {| MarkedCount := marked; mr_UnreadCount := unread |})))) (or_error (fun _ _ => True))) as Hcount.
  { intros l [marked|e]; [| apply safe_fail]. cbn [try]. eapply safe_try; [by apply (safe_fact _ _ _ (fun _ => True)) |]. intros unread l' _ _. by apply safe_ret. }
  assert (forall which, safe R base (transact (mark_where (mr_RecipientUserID inp) which now)) (or_error (fun _ _ => True))) as Hm.
  { intros which. apply safe_transaction; [| done]. intros l r l' _ He. split; [right | by destruct r].
    replace l' with (mark_where (mr_RecipientUserID inp) which now l).2 by (by rewrite He). by constructor. }
  cbv zeta. destruct (MarkAll inp); [eapply safe_seq; [apply Hm | intros; apply Hcount] |].
  destruct (_ <? _); [apply safe_fail |]. destruct (bool_decide _); [apply Hcount |]. eapply safe_seq; [apply Hm | intros; apply Hcount].
Qed.

Lemma safe_ListDeliveryAttempts base inp : safe R base (ListDeliveryAttempts inp)
  (or_error (fun out l => Forall (attempt_of (ld_RecipientUserID inp) l) (Attempts out))).
Proof.
  unfold ListDeliveryAttempts. cbv zeta. match goal with |- context [if _ then _ else ?m] => assert (forall l, safe R l m
    (or_error (fun out l => Forall (attempt_of (ld_RecipientUserID inp) l) (Attempts out)))) as Hlist end.
  { intros l0. eapply safe_try; [apply (safe_statement _ _ _ (fun p l => Forall (attempt_of (ld_RecipientUserID inp) l) p.1)) |].
    - intros l w a _. unfold ListDeliveryAttemptsForUser. destruct (read_cursor _ _ _) as [cur|]; [| done]. cbn [rbind].
      match goal with |- context [page ?k ?lt ?n cur ?rows] => pose proof (page_rows k lt n cur rows) as Hp; destruct (page k lt n cur rows) as [out next] end.
      intros [= <-]. cbn [fst] in *. apply list.Forall_fmap. eapply Forall_impl; [| exact Hp]. intros r Hr. apply list_elem_of_In, filter_In in Hr as [Hr Hw].
      unfold attempts_where in Hw. bool_to_prop. exists r. split; [| done]. apply list_elem_of_In in Hr. by rewrite merge_sort_Permutation in Hr.
    - intros a l1 l2 Hg Ha. eapply Forall_impl; [| exact Ha]. intros x. by apply attempt_of_grows.
    - intros [attempts next] l1 _ Ha. apply safe_ret. intros l2 Hl2. eapply Forall_impl; [| exact Ha]. intros x. by apply attempt_of_grows. }
  destruct (negb _); [| apply Hlist]. eapply safe_try; [by apply (safe_fact _ _ _ (fun _ => True)) |]. intros n l _ _. apply Hlist.
Qed.

(** ** The reactor *)

Lemma reacted_grows l l' key : grows l l' -> reacted l key -> reacted l' key.
Proof.
  intros Hg (decision & ev & Hin & Hk). destruct (executed_grows _ _ (notif_grow_evolved caller l l' Hg)) as [added El].
  exists decision, ev. rewrite El. split; [by apply elem_of_app; left | exact Hk].
Qed.

Lemma app_cancel p s t : p +:+ s = p +:+ t -> s = t.
Proof. induction p as [|c p IH]; [done |]. intros [= Ht]. by apply IH. Qed.

Lemma safe_publishDeliveryHealth base res ev ds : safe R base (publishDeliveryHealth res ev ds) (fun _ _ => True).
Proof.
  revert base. induction ds as [|d ds IH]; intros base; [by apply safe_ret |]. cbn [publishDeliveryHealth].
  apply safe_logged. intros l _. split; [constructor | intros _; apply IH].
Qed.

Lemma safe_IsProcessed base key : good base -> safe R base (store_IsProcessed key) (or_error (fun seen l => seen = true -> reacted l key)).
Proof.
  intros Hb. unfold store_IsProcessed. apply safe_ask. intros now. apply safe_statement; [| intros a l l' Hg Ha Ht; by eapply reacted_grows, Ha].
  intros l w a Hg. unfold IsProcessed. destruct (processed l !! _) as [e|] eqn:E; intros [= <-] Hseen; [| done].
  destruct (processed_executed l (grows_good _ _ Hb Hg) _ e E) as (k & Hk & Hr). apply app_cancel in Hk. by subst k.
Qed.

Lemma safe_MarkProcessed base key : reacted base key -> safe R base (store_MarkProcessed key) (or_error (fun _ _ => True)).
Proof.
  intros Hr. unfold store_MarkProcessed. apply safe_ask. intros now. apply safe_transaction; [| done]. intros l r l' Hg [= <- <-]. split; [| done].
  right. constructor. by eapply reacted_grows.
Qed.

Lemma safe_reaction base env : good base -> safe R base (handle env)
  (or_error (fun _ l => forall ev, resolveEvent env = Some ev -> reacted l (EventDedupKey (ie_EventID ev) (ie_RecipientUserID ev)))).
Proof.
  intros Hb. unfold handle. destruct (resolveEvent env) as [ev|]; [| by apply safe_ret].
  set (key := EventDedupKey (ie_EventID ev) (ie_RecipientUserID ev)).
  assert (forall l l', grows l l' -> reacted l key -> forall ev', Some ev = Some ev' -> reacted l' (EventDedupKey (ie_EventID ev') (ie_RecipientUserID ev'))) as Hend.
  { intros l l' Hg Hr ev' [= <-]. by eapply reacted_grows. }
  eapply safe_try; [by apply safe_IsProcessed |]. intros seen l Hl Hseen. assert (good l) as Hg by by eapply grows_good.
  destruct seen; [apply safe_ret; intros l' Hl'; exact (Hend l l' Hl' (Hseen eq_refl)) |].
  eapply safe_try; [by apply safe_GetPreferences |]. intros prefs l1 _ _.
  apply safe_logged. intros l2 _. split; [constructor; by eexists |]. intros [res|e]; [| apply safe_fail]. cbn [try].
  assert (reacted (with_executed (ReactToEvent ev prefs, ev) l2) key) as Hr by (exists (ReactToEvent ev prefs), ev; split; [apply elem_of_app; right; by left | done]).
  eapply safe_seq; [apply safe_grows, safe_publishDeliveryHealth |]. intros _ l3 [H3' _].
  eapply safe_try; [apply safe_MarkProcessed; by eapply reacted_grows |]. intros _ l4 H4 _. apply safe_ret. intros l5 H5.
  exact (Hend l3 l5 (transitivity H4 H5) (reacted_grows _ _ _ H3' Hr)).
Qed.

(** ** The calls of the handler *)

(** What an answer to a user may hold. *)
Definition owned (u : string) (resp : notif_response) (l : notif_db) : Prop :=
  match resp with
  | RespListNotifications out => Forall (fun n => RecipientUserID n = u) (Notifications out)
  | RespGetNotification out => RecipientUserID (got out) = u /\ Forall (attempt_of u l) (DeliveryAttempts out)
  | RespListDeliveryAttempts out => Forall (attempt_of u l) (Attempts out)
  | RespPreferences p => UserID p = u
  | RespMarkRead _ | RespTestChannel _ => True
  end.

Lemma notif_safe_reply {A} base (m : call (result A notif_error)) f (Q : A -> notif_db -> Prop) u :
  safe R base m (or_error Q) -> (forall a l, Q a l -> owned u (f a) l) -> safe R base (reply m f) (or_error (owned u)).
Proof. intros Hm Hq. unfold reply. eapply safe_map; [exact Hm |]. intros [a|e] l Ha; [by apply Hq | done]. Qed.

Lemma notif_safe_serve base u req : caller u -> good base -> safe R base (serve u req) (or_error (owned u)).
Proof.
  intros Hc Hb. destruct req; cbn [serve];
    (eapply notif_safe_reply; [first [apply safe_ListNotifications | apply safe_GetNotification | by apply safe_MarkRead | apply safe_ListDeliveryAttempts
      | by apply safe_GetPreferences | by apply safe_UpdatePreferences | by apply safe_TestChannel] |]); cbn; try done; by intros p l [Hp _].
Qed.
End requests.

(** ** Pools of calls *)

Inductive notif_call :=
| DoRpc (claims : option Claims) (req : notif_request)
| DoEvent (env : EventEnvelope)
| DoCreate (n : Notification)
| DoAttempt (a : DeliveryAttempt).

Inductive notif_answer :=
| RpcAnswer (r : result notif_response rpc_error)
| EventAnswer (r : result unit notif_error)
| CreateAnswer (r : result Notification notif_error)
| AttemptAnswer (r : result unit notif_error).

(** The users whose calls pass the authentication. *)
Definition calling (cs : list notif_call) (u : string) : Prop := exists claims req, DoRpc (Some claims) req ∈ cs /\ c_UserID claims = u.

Section pools.
Context {W : Type} `{Outside W, NotifOutside W, NotifText, CaseTables, Urls}.

(** A call of a user, a delivery of an event, or one of the executor's two writes. *)
Definition start (c : notif_call) : prog (site W notif_db) notif_answer :=
  match c with
  | DoRpc claims req => do! r := rpc claims req in Ret (RpcAnswer r)
  | DoEvent env => do! r := handle env in Ret (EventAnswer r)
  | DoCreate n => do! r := transact (Create n) in Ret (CreateAnswer r)
  | DoAttempt a => do! r := transact (AppendDeliveryAttempt a) in Ret (AttemptAnswer r)
  end.

Definition answer_right (c : notif_call) (a : notif_answer) (l : notif_db) : Prop :=
  match c, a with
  | DoRpc claims req, RpcAnswer (Ok resp) => exists c, claims = Some c /\ owned (c_UserID c) resp l
  | DoEvent env, EventAnswer (Ok tt) => forall ev, resolveEvent env = Some ev -> reacted l (EventDedupKey (ie_EventID ev) (ie_RecipientUserID ev))
  | DoRpc _ _, RpcAnswer (Err _) | DoEvent _, EventAnswer (Err _) | DoCreate _, CreateAnswer _ | DoAttempt _, AttemptAnswer _ => True
  | _, _ => False
  end.

Lemma notif_safe_start cs base c : c ∈ cs -> good base -> safe (notif_regime (calling cs)) base (start c) (answer_right c).
Proof.
  intros Hin Hb. destruct c as [claims req | env | n | a]; cbn [start].
  - unfold rpc. destruct (check_request req); [by apply safe_ret |]. destruct claims as [c|]; [| by apply safe_ret].
    unfold callerID. destruct (String.eqb _ ""); [by apply safe_ret |].
    eapply safe_map; [apply notif_safe_serve; [by exists c, req | exact Hb] |]. intros [resp|e] l Hr; [by exists c | done].
  - eapply safe_map; [by apply safe_reaction |]. by intros [[]|e] l Hr.
  - eapply safe_map; [apply (safe_transaction _ _ _ (fun _ _ => True)); [| done] |].
    + intros l r l' _ Hr. destruct r as [m|e]; [by split; [right; econstructor |] |]. split; [left | done].
      unfold Create in Hr. by repeat case_match; simplify_eq.
    + by intros [m|e].
  - eapply safe_map; [apply (safe_transaction _ _ _ (fun _ _ => True)); [| done] |].
    + intros l r l' _ Hr. destruct r as [[]|e]; [by split; [right; econstructor |] |]. split; [left | done].
      unfold AppendDeliveryAttempt in Hr. by repeat case_match; simplify_eq.
    + by intros [m|e].
Qed.

Lemma notif_pool_safe cs s results s' : good (s_db s) -> par (map start cs) s results s' ->
  rtc (notif_write (calling cs)) (s_db s) (s_db s') /\
  (forall i c a, cs !! i = Some c -> results !! i = Some a -> answer_right c a (s_db s')) /\ length results = length cs.
Proof.
  intros Hg Hpar.
  destruct (safe_par (notif_regime (calling cs)) (map start cs) s results s' (fun i a l => exists c, cs !! i = Some c /\ answer_right c a l)) as (Hst & Hres & Hlen).
  - intros i m Hi. apply list_lookup_fmap_Some in Hi as (c & -> & Hc). eapply safe_weaken; [apply notif_safe_start; [by eapply list_elem_of_lookup_2 | exact Hg] |].
    intros a l Ha. by exists c.
  - exact Hpar.
  - split; [exact (site_steps_keep _ _ _ Hst) |]. split; [| by rewrite Hlen, length_map]. intros i c a Hc Ha. destruct (Hres i a Ha) as (c' & Hc' & Hr). congruence.
Qed.
End pools.

Section theorems.
Context {W : Type} `{Outside W, NotifOutside W, NotifText, CaseTables, Urls}.

(** An inbox belongs to its user: whatever calls of users, deliveries of events and
    writes of an executor interleave, a user who makes no call keeps the rows of the inbox
    as they were, new ones only behind them, and all settings; and what a call is answered
    (notifications, delivery attempts, preferences) is of the caller, whatever the request
    names. *)
Theorem inbox_isolated cs s results s' u : good (s_db s) -> par (map start cs) s results s' ->
  (~ calling cs u -> untouched u (s_db s) (s_db s')) /\
  (forall i claims req resp, cs !! i = Some (DoRpc claims req) -> results !! i = Some (RpcAnswer (Ok resp)) ->
     exists c, claims = Some c /\ owned (c_UserID c) resp (s_db s')).
Proof.
  intros Hg Hpar. destruct (notif_pool_safe cs s results s' Hg Hpar) as (Hst & Hres & _). split.
  - intros Hn. exact (notif_grow_untouched _ u _ _ Hn Hst).
  - intros i claims req resp Hc Ha. exact (Hres i _ _ Hc Ha).
Qed.

(** A read mark is final: under any interleaving every notification stays in the table
    with all its fields; it can only go from unread to read, once, with the moment of that
    mark; ids stay unique and an event has one notification per recipient. *)
Theorem read_marks_final cs s results s' : good (s_db s) -> par (map start cs) s results s' ->
  NoDup (map n_ID (notifications (s_db s'))) /\ NoDup (map (fun n => (EventID n, RecipientUserID n)) (notifications (s_db s'))) /\
  forall n, n ∈ notifications (s_db s) ->
    exists n', n' ∈ notifications (s_db s') /\ (n' = n \/ Read n = false /\ exists now, n' = read_marked now n).
Proof.
  intros Hg Hpar. destruct (notif_pool_safe cs s results s' Hg Hpar) as (Hst & _ & _).
  pose proof (notif_grow_good _ _ _ Hst Hg) as Hg'. split; [apply Hg' |]. split; [apply Hg' |]. intros n Hn.
  destruct (rows_stay _ _ (notif_grow_evolved _ _ _ Hst)) as (olds & added & -> & Hf).
  apply list_elem_of_lookup in Hn as [i Hi]. destruct (list.Forall2_lookup_l _ _ _ _ _ Hf Hi) as (n' & Hn' & Ho).
  exists n'. split; [apply elem_of_app; left; by eapply list_elem_of_lookup_2 | exact Ho].
Qed.

(** C17. Nothing is sent to a target that the guard did not accept: under any interleaving
    every enabled preference that is stored, and every target that the notifier is
    asked to deliver to, passes the checks of its channel; on a webhook or Slack that
    is the guard of [webhook_target_exact]. *)
Theorem targets_always_vetted cs s results s' : good (s_db s) -> par (map start cs) s results s' ->
  (forall u cp, (u, cp) ∈ channel_prefs (s_db s') -> Enabled cp = true ->
     validateChannelTarget cp = None /\ (RequiresSSRFGuard (cp_Channel cp) = true -> validateWebhookTarget (cp_Channel cp) (Target cp) = None)) /\
  (forall t, t ∈ sent (s_db s') -> MustSSRFValidate t = true -> validateWebhookTarget (dt_Channel t) (dt_Target t) = None).
Proof.
  intros Hg Hpar. destruct (notif_pool_safe cs s results s' Hg Hpar) as (Hst & _ & _). pose proof (notif_grow_good _ _ _ Hst Hg) as Hg'.
  assert (forall cp, Enabled cp = true -> RequiresSSRFGuard (cp_Channel cp) = true -> validateChannelTarget cp = None ->
    validateWebhookTarget (cp_Channel cp) (Target cp) = None) as Hguard.
  { intros cp He Hr. unfold validateChannelTarget. rewrite He. cbn [negb].
    unfold RequiresSSRFGuard in Hr. rewrite Hr. apply orb_true_iff in Hr as [Hr | Hr]; apply Z.eqb_eq in Hr; by rewrite Hr. }
  split.
  - intros u cp Hin He. pose proof (prefs_vetted _ Hg') as Hv. rewrite List.Forall_forall in Hv.
    apply list_elem_of_In in Hin. specialize (Hv _ Hin). split; [exact Hv | intros Hr; by apply Hguard].
  - intros t Hin Hr. pose proof (sent_vetted _ Hg') as Hv. rewrite List.Forall_forall in Hv. apply list_elem_of_In in Hin.
    exact (Hguard {| cp_Channel := dt_Channel t; Enabled := true; MinSeverity := 0; Target := dt_Target t |} eq_refl Hr (Hv _ Hin)).
Qed.

(** An acknowledged event was acted on: however often and concurrently events are
    delivered, a delivery that is acknowledged and has a recipient left the executor asked
    for that key of event and recipient, with the decision that the routing makes of the
    event for some preferences; what was asked before is never taken back. *)
Theorem acknowledged_events_executed cs s results s' i env ev : good (s_db s) -> par (map start cs) s results s' ->
  cs !! i = Some (DoEvent env) -> results !! i = Some (EventAnswer (Ok tt)) -> resolveEvent env = Some ev ->
  (exists ev' prefs, (ReactToEvent ev' prefs, ev') ∈ executed (s_db s') /\
     EventDedupKey (ie_EventID ev') (ie_RecipientUserID ev') = EventDedupKey (ie_EventID ev) (ie_RecipientUserID ev)) /\
  exists more, executed (s_db s') = executed (s_db s) ++ more.
Proof.
  intros Hg Hpar Hc Ha Hev. destruct (notif_pool_safe cs s results s' Hg Hpar) as (Hst & Hres & _). split; [| apply (notif_grow_evolved _ _ _ Hst)].
  destruct (Hres i _ _ Hc Ha ev Hev) as (decision & ev' & Hin & Hk). pose proof (executed_decided _ (notif_grow_good _ _ _ Hst Hg)) as Hd.
  rewrite List.Forall_forall in Hd. destruct (Hd _ ltac:(by apply list_elem_of_In)) as [prefs Hp]. cbn in Hp. subst decision. by exists ev', prefs.
Qed.

(** The reason of a refusal never reaches the client: the handler cuts the text of the
    sentinel off the end of an error whose text has it at the front, so that a refused
    target, address or batch is answered with the fixed text of its kind, whatever the
    domain said. *)
Theorem reasons_never_shown : 
  (forall cp err, validateChannelTarget cp = Some err ->
     toStatusError err = AuditCapture.Status InvalidArgument "invalid request" \/
     toStatusError err = AuditCapture.Status InvalidArgument "webhook/slack target rejected") /\
  toStatusError (wrap ErrValidation "too many ids in MarkRead batch") = AuditCapture.Status InvalidArgument "invalid request" /\
  toStatusError (wrap ErrValidation "too many muted_event_patterns") = AuditCapture.Status InvalidArgument "invalid request".
Proof.
  split; [| split; vm_compute; reflexivity]. intros cp err. unfold validateChannelTarget, validateWebhookTarget. cbv zeta.
  repeat case_match; intros [= <-]; first [left; vm_compute; reflexivity | right; vm_compute; reflexivity].
Qed.
End theorems.

(** ** Notifications: the pages of an inbox

    A client that follows the page tokens of [ListForUser]: it reads the whole inbox. *)
Section pages.
Context `{NotifText}.

Definition with_token (opts : ListOptions) (token : string) : ListOptions := {|
  PageSize := PageSize opts; PageToken := token; UnreadOnly := UnreadOnly opts; lo_MinSeverity := lo_MinSeverity opts; EventTypeFilter := EventTypeFilter opts;
  lo_Channel := lo_Channel opts; lo_Status := lo_Status opts; lo_NotificationID := lo_NotificationID opts |}.

(** A client of the listing: it asks with the token it was given until there is none. *)
Fixpoint read_inbox (fuel : nat) (u : string) (opts : ListOptions) (token : string) (d : notif_db) : list Notification :=
  match fuel with
  | O => []
  | S fuel =>
      match ListForUser u (with_token opts token) d with
      | Err _ => []
      | Ok (items, next) => items ++ if String.eqb next "" then [] else read_inbox fuel u opts next d
      end
  end.

(** The rows that the listing is about, newest first. *)
Definition inbox (u : string) (opts : ListOptions) (d : notif_db) : list Notification :=
  List.filter (list_where u opts) (merge_sort (newest_first notif_key) (notifications d)).

(** What the tokens of the rows are asked for: not empty, and decoded to the row's key. *)
Definition tokens_decode (d : notif_db) : Prop :=
  forall n, n ∈ notifications d -> encodeNotifCursor (notif_key n) <> "" /\ decodeNotifCursor (encodeNotifCursor (notif_key n)) = Some (notif_key n).

Lemma read_inbox_pages fuel u opts token d : tokens_decode d ->
  read_inbox fuel u opts token d = read_pages notif_key key_lt encodeNotifCursor decodeNotifCursor fuel (Z.to_nat (page_size opts)) token (inbox u opts d).
Proof.
  intros Ht. revert token. induction fuel as [|fuel IH]; intros token; [done |]. cbn [read_inbox read_pages].
  unfold ListForUser, read_cursor, token_cursor. cbn [with_token PageToken].
  change (page_size (with_token opts token)) with (page_size opts). change (list_where u (with_token opts token)) with (list_where u opts). fold (inbox u opts d).
  assert (forall c, (let '(out, next) := page notif_key key_lt (Z.to_nat (page_size opts)) c (inbox u opts d) in
     out ++ if String.eqb (match next with Some c => encodeNotifCursor c | None => "" end) "" then []
            else read_inbox fuel u opts (match next with Some c => encodeNotifCursor c | None => "" end) d)
    = let '(items, next) := page notif_key key_lt (Z.to_nat (page_size opts)) c (inbox u opts d) in
      items ++ match next with Some k => read_pages notif_key key_lt encodeNotifCursor decodeNotifCursor fuel (Z.to_nat (page_size opts)) (encodeNotifCursor k) (inbox u opts d) | None => [] end) as Hp.
  { intros c. destruct (page _ _ _ _ _) as [out [k|]] eqn:E; [| done]. apply page_next in E as (n & Hn & ->).
    assert (n ∈ notifications d) as Hin by (apply list_elem_of_In, filter_In in Hn as [Hn _]; apply list_elem_of_In in Hn; by rewrite merge_sort_Permutation in Hn).
    destruct (Ht n Hin) as [Hne _]. rewrite (proj2 (String.eqb_neq _ _) Hne). by rewrite IH. }
  destruct (String.eqb token ""); [| destruct (decodeNotifCursor token) as [k|]; [| done]]; cbn [rbind fmap option_fmap option_map];
    rewrite <- Hp; by destruct (page _ _ _ _ _).
Qed.

(** C24. The pages of an inbox are the inbox: on tables at rest, a client that follows the
    tokens reads the notifications of its user that pass its filters, each exactly once,
    newest first, and has them all after as many pages as they fill. *)
Theorem inbox_pages_complete u opts d fuel :
  NoDup (map n_ID (notifications d)) -> tokens_decode d -> Z.of_nat (length (inbox u opts d)) < page_size opts * Z.of_nat fuel ->
  read_inbox fuel u opts "" d = inbox u opts d /\
  (forall n, n ∈ inbox u opts d <-> n ∈ notifications d /\ list_where u opts n = true) /\
  StronglySorted (newest_first notif_key) (inbox u opts d) /\ NoDup (map n_ID (inbox u opts d)).
Proof.
  intros Hn Ht Hf. assert (0 < page_size opts) as Hp by (unfold page_size; destruct (Z.leb_spec (PageSize opts) 0); [unfold defaultPageSize |]; lia).
  assert (NoDup (map notif_key (notifications d))) as Hkeys by (apply (NoDup_fmap_1 snd); by rewrite <- list_fmap_compose).
  pose proof (newest_descends notif_key _ Hkeys) as Hd. split; [| split; [| split]].
  - rewrite (read_inbox_pages fuel u opts "" d Ht), (read_pages_follow _ _ _ _ _ _ _ None); [| | done].
    + apply follow_all; [apply _ | lia | by apply descends_filter | lia].
    + intros n Hin. apply Ht. apply list_elem_of_In, filter_In in Hin as [Hin _]. apply list_elem_of_In in Hin. by rewrite merge_sort_Permutation in Hin.
  - intros n. unfold inbox. rewrite list_elem_of_In, filter_In, <- list_elem_of_In, merge_sort_Permutation. done.
  - unfold inbox. clear -H. pose proof (StronglySorted_merge_sort (newest_first notif_key) (notifications d)) as Hs.
    induction Hs as [|x k Hk IH Hx]; cbn [List.filter]; [constructor |]. destruct (list_where u opts x); [| exact IH]. constructor; [exact IH |].
    apply List.Forall_forall. intros y [Hy _]%filter_In. rewrite List.Forall_forall in Hx. by apply Hx.
  - assert (NoDup (map n_ID (merge_sort (newest_first notif_key) (notifications d)))) as Hm by (by rewrite merge_sort_Permutation).
    unfold inbox. revert Hm. generalize (merge_sort (newest_first notif_key) (notifications d)). intros k. induction k as [|x k IH]; [done |]. cbn [map List.filter].
    intros [Hx Hk]%list.NoDup_cons. destruct (list_where u opts x); [| by apply IH]. cbn [map]. apply list.NoDup_cons. split; [| by apply IH].
    intros (y & Hy & Hin)%list_elem_of_fmap. apply Hx, list_elem_of_fmap. exists y. split; [done |]. apply list_elem_of_In, filter_In in Hin as [Hin _]. by apply list_elem_of_In.
Qed.
End pages.
