(* ===== verification/NotifDemo.v ===== *)
(** * Notifications on a concrete service

    A URL reader, page tokens, a clock, a notifier and an executor, tables with two users,
    and the theorems about notifications at them; the behaviours at the borders of the
    checks as examples. *)

From S2P Require Import Prelude Concur Site GoText GoFormat AuditCapture GoNet Keyset NotifModel NotifTargets NotifStore Notif NotifTables NotifSafety.
Open Scope fp_scope.

Module Demo.

(** ** The outside *)

#[export] Instance ascii_tables : CaseTables := {| unicode_lower s := s |}.

(** The text before a byte and the text after it, when it is there. *)
Definition cut (c : ascii) (s : string) : option (string * string) :=
  (fun i => (upto_byte i s, from_byte (S i) s)) <$> IndexByte s c.

Definition strip (prefix s : string) : option string :=
  if String.prefix prefix s then Some (from_byte (String.length prefix) s) else None.

(** The escape of a percent sign is read; nothing else is escaped. *)
Fixpoint unescape (s : string) : string :=
  match s with
  | String "%" (String "2" (String "5" rest)) => String "%" (unescape rest)
  | String c rest => String c (unescape rest)
  | "" => ""
  end.

#[export] Instance https_urls : Urls := {|
  Parse raw :=
    (fun rest =>
       let '(auth, path) := default (rest, "") (cut "/" rest) in
       let '(user, host) := from_option (fun '(u, h) => (Some u, h)) (None, auth) (cut "@" auth) in
       {| Scheme := "https"; url_User := user; Host := unescape host; Path := path |}) <$> strip "https://" raw;
  EqualFold s t := String.eqb (ToLower s) (ToLower t) |}.

#[export] Instance text_tokens : NotifText := {|
  notif_collation := {| collate := str_le; collate_order := str_le_order |}; encodeNotifCursor := token; decodeNotifCursor := read_token;
  encodeLogCursor := token; decodeLogCursor := read_token |}.

(** Events go to the user that their source names; the clock ticks; statements share the
    fates that are left. *)
Record world := { ticks : Z; fates : list fate }.

#[export] Instance world_calls : Outside world := {|
  Now w := (ticks w * Second, {| ticks := ticks w + 1; fates := fates w |});
  NewID w := ("id-" +:+ Itoa (ticks w), {| ticks := ticks w + 1; fates := fates w |});
  link w := match fates w with [] => (Works, w) | f :: fs => (f, {| ticks := ticks w; fates := fs |}) end |}.

#[export] Instance world_notif : NotifOutside world := {|
  redis_now w := (ticks w * Second, w);
  notifier_Deliver t w := ({| dr_Status := StatusDelivered; dr_Attempts := 1; dr_ResponseCode := 200; dr_ErrorMessage := "" |}, None, w);
  Route env := Some {| rr_RecipientUserID := env_Source env; FullType := ""; rr_Title := "title"; rr_Body := "body" |};
  Execute decision ev w := (Ok {| er_NotificationID := "n-" +:+ ie_EventID ev; Deliveries := [] |}, w);
  PublishHealth h w := (true, w) |}.

(** ** Tables *)

Definition note (id u event : string) (at_ : Z) : Notification := {|
  n_ID := id; RecipientUserID := u; Title := "t"; Body := "b"; n_Severity := SeverityInfo; n_Channels := [ChannelInApp]; Read := false;
  EventID := event; EventType := "fp.runs.completed"; SourceService := "pipeline"; CreatedAt := at_ * Second; ReadAt := 0 |}.

Definition rows : list Notification := [note "n1" "ann" "e1" 5; note "n2" "ann" "e2" 7; note "n3" "bob" "e1" 6; note "n4" "ann" "e3" 7].

Definition hook : ChannelPreference := {| cp_Channel := ChannelWebhook; Enabled := true; MinSeverity := SeverityInfo; Target := "https://hooks.example.com/x" |}.

Definition tables : notif_db := {|
  notifications := rows; preferences := <["bob" := (["fp.noise.>"], 0)]> ∅; channel_prefs := [("bob", hook)]; delivery_log := []; next_log := 1;
  idem := ∅; sent := []; processed := ∅; executed := []; published := [] |}.

Definition start_site (fs : list fate) : site world notif_db := {| s_world := {| ticks := 10; fates := fs |}; s_db := tables |}.

Ltac concrete := vm_compute; repeat constructor; intros Hin; repeat (apply elem_of_cons in Hin as [Hin | Hin]; [discriminate Hin |]); by apply list.not_elem_of_nil in Hin.

Lemma tables_good : good tables.
Proof.
  constructor; cbn [tables notifications channel_prefs delivery_log sent processed executed next_log].
  - concrete.
  - concrete.
  - constructor; [vm_compute; reflexivity | constructor].
  - concrete.
  - constructor; [by eexists | constructor].
  - constructor.
  - by split; constructor.
  - constructor.
  - apply map_Forall_empty.
  - constructor.
Qed.

Definition as_user (u : string) : option Claims := Some {| c_UserID := u; c_Email := ""; c_Team := ""; c_Role := ""; c_Scopes := [] |}.

Definition failed_run : EventEnvelope := {| env_ID := "e9"; env_Type := "fp.runs.failed"; env_Source := "bob"; env_Data := ""; env_Timestamp := 0 |}.

(** Ann reads Bob's row, marks it, and takes it for her own; her target is on the loopback;
    Bob's test goes out; the event of Bob arrives twice. *)
Definition calls : list notif_call :=
  [DoRpc (as_user "ann") (ReqGetNotification "n3"); DoRpc (as_user "ann") (ReqMarkRead ["n1"; "n3"] false);
   DoRpc (as_user "ann") (ReqUpdatePreferences [{| cp_Channel := ChannelWebhook; Enabled := true; MinSeverity := 0; Target := "https://127.0.0.1/" |}] [] "");
   DoRpc (as_user "bob") (ReqTestChannel ChannelWebhook "k"); DoEvent failed_run; DoEvent failed_run; DoCreate (note "n5" "bob" "e9" 11)].

Definition final : list notif_answer * site world notif_db := run_all (map start calls) (start_site []).

Lemma final_par : par (map start calls) (start_site []) final.1 final.2.
Proof. apply run_all_par. Qed.

(** The sentence that the answer to a call gives. *)
Definition code_of (a : notif_answer) : option rpc_error := match a with RpcAnswer (Err e) => Some e | _ => None end.

Example final_answers : map code_of final.1 =
  [Some (Status NotFound "notification not found"); None; Some (Status InvalidArgument "webhook/slack target rejected"); None; None; None; None].
Proof. vm_compute. reflexivity. Qed.

Lemma calls_alone u : calling calls u -> u = "ann" \/ u = "bob".
Proof.
  intros (c & req & Hin & <-). unfold calls in Hin.
  repeat (apply elem_of_cons in Hin as [Hin | Hin]; [first [discriminate Hin | injection Hin as -> _; by auto] |]). by apply list.not_elem_of_nil in Hin.
Qed.

(** ** The theorems at them *)

Definition quiet : list notif_call := [DoRpc (as_user "ann") (ReqMarkRead ["n1"; "n3"] false); DoEvent failed_run; DoRpc (as_user "ann") (ReqListNotifications false 0 "" 0 "")].
Definition after_quiet : list notif_answer * site world notif_db := run_all (map start quiet) (start_site []).

Lemma inbox_isolated_witness :
  untouched "bob" tables (s_db after_quiet.2) /\ map Read (notifications (s_db after_quiet.2)) = [true; false; false; false] /\
  exists out, after_quiet.1 !! 2%nat = Some (RpcAnswer (Ok (RespListNotifications out))) /\ length (Notifications out) = 3%nat /\
    Forall (fun n => RecipientUserID n = "ann") (Notifications out).
Proof.
  destruct (inbox_isolated quiet (start_site []) after_quiet.1 after_quiet.2 "bob" tables_good (run_all_par _ _)) as [Hu Ho].
  split; [| split; [vm_compute; reflexivity |]].
  - apply Hu. intros (c & req & Hin & Hc). unfold quiet in Hin.
    repeat (apply elem_of_cons in Hin as [Hin | Hin]; [first [discriminate Hin | injection Hin as -> _; discriminate Hc] |]). by apply list.not_elem_of_nil in Hin.
  - assert (exists out, after_quiet.1 !! 2%nat = Some (RpcAnswer (Ok (RespListNotifications out))) /\ length (Notifications out) = 3%nat) as (out & Hr & Hl)
      by (vm_compute; eexists; split; reflexivity).
    exists out. split; [exact Hr |]. split; [exact Hl |].
    destruct (Ho 2%nat (as_user "ann") (ReqListNotifications false 0 "" 0 "") (RespListNotifications out) eq_refl Hr) as (c & Hc & Hown).
    injection Hc as <-. exact Hown.
Defined.

Lemma read_marks_final_witness :
  NoDup (map n_ID (notifications (s_db final.2))) /\
  exists n', n' ∈ notifications (s_db final.2) /\ (n' = note "n1" "ann" "e1" 5 \/ exists now, n' = read_marked now (note "n1" "ann" "e1" 5)).
Proof.
  destruct (read_marks_final calls (start_site []) final.1 final.2 tables_good final_par) as (Hn & _ & Hf). split; [exact Hn |].
  destruct (Hf (note "n1" "ann" "e1" 5)) as (n' & Hin & Hor); [left |]. exists n'. split; [exact Hin |].
  destruct Hor as [Heq | [_ He]]; [left; exact Heq | right; exact He].
Defined.

Lemma targets_always_vetted_witness :
  map dt_Target (sent (s_db final.2)) = ["https://hooks.example.com/x"] /\
  (forall u cp, (u, cp) ∈ channel_prefs (s_db final.2) -> Enabled cp = true -> validateChannelTarget cp = None).
Proof.
  split; [vm_compute; reflexivity |]. intros u cp Hin He.
  exact (proj1 (proj1 (targets_always_vetted calls (start_site []) final.1 final.2 tables_good final_par) u cp Hin He)).
Defined.

(** The executor is asked once for an event that arrives twice. *)
Lemma acknowledged_events_executed_witness :
  length (executed (s_db final.2)) = 1%nat /\
  exists ev' prefs, (ReactToEvent ev' prefs, ev') ∈ executed (s_db final.2) /\ EventDedupKey (ie_EventID ev') (ie_RecipientUserID ev') = "event:e9:bob".
Proof.
  split; [vm_compute; reflexivity |].
  exact (proj1 (acknowledged_events_executed calls (start_site []) final.1 final.2 5%nat failed_run _ tables_good final_par eq_refl ltac:(vm_compute; reflexivity) eq_refl)).
Defined.

Definition two_a_page : ListOptions := {|
  PageSize := 2; PageToken := ""; UnreadOnly := true; lo_MinSeverity := 0; EventTypeFilter := ""; lo_Channel := 0; lo_Status := 0; lo_NotificationID := "" |}.

Lemma tables_decode : tokens_decode tables.
Proof. intros n _. split; [done | apply read_token_token]. Qed.

Lemma inbox_pages_complete_witness :
  read_inbox 2 "ann" two_a_page "" tables = [note "n4" "ann" "e3" 7; note "n2" "ann" "e2" 7; note "n1" "ann" "e1" 5].
Proof.
  assert (NoDup (map n_ID (notifications tables))) as Hn by concrete.
  rewrite (proj1 (inbox_pages_complete "ann" two_a_page tables 2 Hn tables_decode ltac:(vm_compute; reflexivity))). vm_compute. reflexivity.
Defined.

Lemma webhook_target_exact_witness :
  map (validateWebhookTarget ChannelWebhook) ["https://example.com/x"; "http://example.com/"; "https://u@example.com/"; "https://api.LocalHost/"; "https://[::ffff:10.0.0.1]:8443/"; "  "]
  = [None; Some (wrap ErrSSRFTargetRejected "target is not a valid URL"); Some (wrap ErrSSRFTargetRejected "target must not contain userinfo credentials");
     Some (wrap ErrSSRFTargetRejected "target host resolves to loopback"); Some (wrap ErrSSRFTargetRejected "target IP is loopback/link-local/private/reserved");
     Some (wrap ErrValidation "webhook/slack target is required when the channel is enabled")] /\
  exists u, Parse "https://example.com/x" = Some u /\ public_host (Hostname (Host u)).
Proof.
  split; [vm_compute; reflexivity |].
  assert (validateWebhookTarget ChannelWebhook "https://example.com/x" = None) as Hv by (vm_compute; reflexivity).
  destruct (proj1 (proj1 (webhook_target_exact ChannelWebhook "https://example.com/x")) Hv) as (_ & u & Hp & _ & _ & _ & _ & Hpub). exists u. split; [exact Hp | exact Hpub].
Defined.

(** ** At the borders *)

(** An IPv6 literal with a zone is no IP address to [net.ParseIP], so that the blocks are
    not asked; a name with a final dot is no loopback name; the shared space 100.64/10
    is in no block. *)
Example targets_let_through :
  map (validateWebhookTarget ChannelWebhook) ["https://[::1%25lo]/"; "https://[fe80::1%25eth0]/"; "https://localhost./"; "https://100.64.0.1/"] = [None; None; None; None] /\
  Hostname (Host (default {| Scheme := ""; url_User := None; Host := ""; Path := "" |} (Parse "https://[::1%25lo]/"))) = "::1%lo" /\ ParseIP "::1%lo" = None.
Proof. split; [| split]; vm_compute; reflexivity. Qed.

(** A channel twice in one request is an internal error. *)
Example duplicate_channels_internal :
  (run (rpc (as_user "ann") (ReqUpdatePreferences [hook; hook] [] "")) (start_site [])).1 = Err (Status Internal "internal error").
Proof. vm_compute. reflexivity. Qed.

(** A ">" that is not last mutes everything behind it. *)
Example early_rest_mutes_all : map (matchPattern "fp.>.failed") ["fp.runs.failed"; "fp.runs.completed"; "fp.models"; "fp"] = [true; true; true; false].
Proof. vm_compute. reflexivity. Qed.
End Demo.
