(* ===== verification/TrackModel.v ===== *)
(** * Experiments: data, series and final metrics

    [services/experiment-tracker/internal/domain]: the data of [models.go] and [ports.go],
    the errors of [errors.go], and the pure parts of [models.go] and
    [experiment_service_impl.go]: what a batch of points becomes, how a history is cut into
    series, and the headline of a run. A metric's value is the 64 bits of a [float64]. *)

From S2P Require Import Prelude GoText.
Open Scope fp_scope.

(** ** Errors *)

Inductive track_sentinel :=
| ErrValidation | ErrExperimentNotFound | ErrRunNotFound | ErrExperimentNameExists | ErrRunNotRunning | ErrInvalidStatusTransition | ErrParamConflict
| ErrBatchTooLarge | ErrTooManyRuns | ErrRepoNotFound | ErrRepoConflict.

#[export] Instance track_sentinels : Sentinels track_sentinel.
Proof. refine {| sentinel_wraps _ := None |}. solve_decision. Defined.

Abbreviation track_error := (error track_sentinel).

(** [fmt.Errorf] with the sentinel first *)
Definition wrap (sentinel : track_sentinel) (msg : string) : track_error := Wrap msg (Sentinel sentinel).

(** ** Data *)

Inductive RunStatus := RunStatusUnspecified | RunStatusRunning | RunStatusFinished | RunStatusFailed | RunStatusKilled.
Inductive RunSource := RunSourceUnspecified | RunSourceAPI | RunSourceEvent.

#[export] Instance RunStatus_eq_dec : EqDecision RunStatus.
Proof. solve_decision. Defined.

Definition IsTerminal (s : RunStatus) : bool := match s with RunStatusFinished | RunStatusFailed | RunStatusKilled => true | _ => false end.

Definition CanTransitionTo (s target : RunStatus) : bool := if negb (bool_decide (s = RunStatusRunning)) then false else IsTerminal target.

Record Experiment := {
  e_ID : string; e_Name : string; e_Description : string; e_Tags : gmap string string; e_OwnerID : string; e_Team : string;
  e_CreatedAt : time; e_UpdatedAt : time; ArchivedAt : option time;
}.

Definition IsArchived (e : Experiment) : bool := negb (bool_decide (ArchivedAt e = None)).

Record Param := { p_Key : string; p_Value : string }.
Record MetricPoint := { m_Key : string; m_Value : Z; m_Step : Z; m_Timestamp : time }.

#[export] Instance Param_eq_dec : EqDecision Param.
Proof. solve_decision. Defined.
#[export] Instance MetricPoint_eq_dec : EqDecision MetricPoint.
Proof. solve_decision. Defined.

(** [math.IsNaN] or [math.IsInf]: the exponent bits are all set. *)
Definition non_finite (v : Z) : bool := Z.land (Z.shiftr v 52) 0x7ff =? 0x7ff.

(** The values of a [map[string]any]. *)
Inductive json := JNull | JBool (b : bool) | JNumber (bits : Z) | JString (s : string) | JList (l : list json) | JObject (fields : list (string * json)).
Abbreviation artifacts := (list (string * json)) (only parsing).

Record Run := {
  r_ID : string; r_ExperimentID : string; r_DisplayName : string; r_Status : RunStatus; r_Source : RunSource; r_ModelVersionID : string;
  r_OwnerID : string; r_Params : list Param; r_FinalMetrics : list MetricPoint; r_StartedAt : time; r_EndedAt : option time; r_Artifacts : option artifacts;
}.

Record MetricSeries := { ms_Key : string; ms_Points : list MetricPoint }.

(** ** Batches *)

(** The loop over the points with the pairs of key and step [seen] so far. *)
Fixpoint dedup_points (seen : gset (string * Z)) (points : list MetricPoint) : list MetricPoint :=
  match points with
  | [] => []
  | p :: points =>
      if bool_decide ((m_Key p, m_Step p) ∈ seen) then dedup_points seen points
      else p :: dedup_points ({[(m_Key p, m_Step p)]} ∪ seen) points
  end.
Definition DedupMetricPoints (points : list MetricPoint) : list MetricPoint := dedup_points ∅ points.

Definition StampMetricTimestamps (points : list MetricPoint) (now : time) : list MetricPoint :=
  map (fun p => {| m_Key := m_Key p; m_Value := m_Value p; m_Step := m_Step p; m_Timestamp := now |}) points.

(** ** Series *)

(** [sort.SliceStable]: the one sorted arrangement that keeps the order of equals. *)
Section stable.
Context {A : Type} (less : A -> A -> bool).

Fixpoint stable_insert (x : A) (l : list A) : list A :=
  match l with
  | [] => [x]
  | y :: l' => if less y x then y :: stable_insert x l' else x :: l
  end.
Definition SliceStable (l : list A) : list A := foldr stable_insert [] l.
End stable.

Definition point_less (p q : MetricPoint) : bool :=
  if negb (m_Step p =? m_Step q) then m_Step p <? m_Step q else time_before (m_Timestamp p) (m_Timestamp q).

(** The loop of [GroupIntoSeries]: the keys in the order of their first points, and the
    points of each. *)
Fixpoint group (points : list MetricPoint) (order : list string) (byKey : gmap string (list MetricPoint)) : list string * gmap string (list MetricPoint) :=
  match points with
  | [] => (order, byKey)
  | p :: points =>
      group points (match byKey !! m_Key p with Some _ => order | None => order ++ [m_Key p] end) (<[m_Key p := default [] (byKey !! m_Key p) ++ [p]]> byKey)
  end.

Definition GroupIntoSeries (points : list MetricPoint) : list MetricSeries :=
  let '(order, byKey) := group points [] ∅ in
  map (fun key => {| ms_Key := key; ms_Points := SliceStable point_less (default [] (byKey !! key)) |}) order.

(** ** Final metrics *)

Definition later (p cur : MetricPoint) : bool := (m_Step cur <? m_Step p) || (m_Step p =? m_Step cur) && time_after (m_Timestamp p) (m_Timestamp cur).

Fixpoint best_points (best : gmap string MetricPoint) (history : list MetricPoint) : gmap string MetricPoint :=
  match history with
  | [] => best
  | p :: history =>
      best_points (match best !! m_Key p with
                   | None => <[m_Key p := p]> best
                   | Some cur => if later p cur then <[m_Key p := p]> best else best
                   end) history
  end.

Definition by_key (p q : MetricPoint) : Prop := str_le (m_Key p) (m_Key q).
#[export] Instance by_key_dec : RelDecision by_key.
Proof. intros p q. unfold by_key. apply _. Defined.

(** [sort.Slice] of values with distinct keys *)
Definition ComputeFinalMetrics (history : list MetricPoint) : list MetricPoint := merge_sort by_key (map snd (map_to_list (best_points ∅ history))).

Definition validateParams (params : list Param) : option track_error :=
  if existsb (fun p => String.eqb (TrimSpace (p_Key p)) "") params then Some (wrap ErrValidation "param has empty key") else None.

Definition clampPageSize (requested def max : Z) : Z := if requested <=? 0 then def else if max <? requested then max else requested.

Example final_samples :
  let p k s t v := {| m_Key := k; m_Value := v; m_Step := s; m_Timestamp := t |} in
  ComputeFinalMetrics [p "loss" 1 5 10; p "acc" 9 5 11; p "loss" 3 5 12; p "loss" 3 5 13; p "loss" 2 9 14] = [p "acc" 9 5 11; p "loss" 3 5 12] /\
  map (fun s => (ms_Key s, map m_Value (ms_Points s))) (GroupIntoSeries [p "loss" 3 5 10; p "acc" 9 5 11; p "loss" 1 5 12; p "loss" 3 4 13; p "loss" 3 5 14])
  = [("loss", [12; 13; 10; 14]); ("acc", [11])].
Proof. split; vm_compute; reflexivity. Qed.

(** ** The headline of a run is its latest points *)

Definition of_key (k : string) (history : list MetricPoint) : list MetricPoint := List.filter (fun p => String.eqb (m_Key p) k) history.

(** The point of its key that surpasses all before it and that none after it surpasses. *)
Definition latest_of (history : list MetricPoint) (p : MetricPoint) : Prop :=
  exists pre post, of_key (m_Key p) history = pre ++ p :: post /\
    (forall q, q ∈ pre -> later p q = true) /\ (forall q, q ∈ post -> later q p = false).

Lemma later_spec p q : later p q = true <-> m_Step q < m_Step p \/ m_Step p = m_Step q /\ m_Timestamp q < m_Timestamp p.
Proof. unfold later, time_after. by rewrite orb_true_iff, andb_true_iff, Z.ltb_lt, Z.eqb_eq, Z.ltb_lt. Qed.

Lemma later_trans p q r : later p q = true -> later q r = true -> later p r = true.
Proof. rewrite !later_spec. lia. Qed.

Lemma later_step p q r : later p q = true -> later r q = false -> later p r = true.
Proof. rewrite <- not_true_iff_false, !later_spec. lia. Qed.

Definition keep_later (b : option MetricPoint) (p : MetricPoint) : option MetricPoint :=
  match b with None => Some p | Some cur => if later p cur then Some p else b end.

Lemma best_points_lookup history : forall best k, best_points best history !! k = fold_left keep_later (of_key k history) (best !! k).
Proof.
  induction history as [|p history IH]; intros best k; [done |]. cbn [best_points of_key List.filter]. rewrite IH. fold (of_key k history).
  destruct (String.eqb_spec (m_Key p) k) as [<- | Hne]; cbn [fold_left].
  - f_equal. unfold keep_later. destruct (best !! m_Key p) as [cur|] eqn:E; [destruct (later p cur); [by rewrite lookup_insert_eq | done] | by rewrite lookup_insert_eq].
  - f_equal. repeat case_match; by rewrite ?lookup_insert_ne.
Qed.

Lemma keep_later_some l c : is_Some (fold_left keep_later l (Some c)).
Proof. revert c. induction l as [|x l IH]; intros c; [by eexists |]. cbn. destruct (later x c); apply IH. Qed.

Lemma kept_splits l p : fold_left keep_later l None = Some p ->
  exists pre post, l = pre ++ p :: post /\ (forall q, q ∈ pre -> later p q = true) /\ (forall q, q ∈ post -> later q p = false).
Proof.
  revert p. induction l as [|x l IH] using rev_ind; intros p; [done |]. rewrite fold_left_app. cbn [fold_left].
  destruct (fold_left keep_later l None) as [c|] eqn:E; cbn [keep_later].
  - destruct (IH c eq_refl) as (pre & post & -> & Hpre & Hpost). destruct (later x c) eqn:El; intros [= <-].
    + exists (pre ++ c :: post), []. split; [done |]. split; [| by intros q ?%list.not_elem_of_nil].
      intros q [Hq | [-> | Hq]%elem_of_cons]%elem_of_app; [eapply later_trans; [exact El | by apply Hpre] | done | eapply later_step; [exact El | by apply Hpost]].
    + exists pre, (post ++ [x]). split; [by rewrite <- app_assoc |]. split; [done |].
      intros q [Hq | ->%list_elem_of_singleton]%elem_of_app; [by apply Hpost | done].
  - intros [= <-]. destruct l as [|y l]; [exists [], []; by repeat split; intros q ?%list.not_elem_of_nil |].
    exfalso. destruct (keep_later_some l y) as [? Hs]. cbn in E. congruence.
Qed.

Lemma splits_kept pre p post : (forall q, q ∈ pre -> later p q = true) -> (forall q, q ∈ post -> later q p = false) ->
  fold_left keep_later (pre ++ p :: post) None = Some p.
Proof.
  intros Hpre Hpost. rewrite fold_left_app. cbn [fold_left].
  assert (keep_later (fold_left keep_later pre None) p = Some p) as ->.
  { destruct (fold_left keep_later pre None) as [c|] eqn:E; [| done]. apply kept_splits in E as (a & b & -> & _). cbn [keep_later].
    rewrite Hpre; [done |]. apply elem_of_app. right. by left. }
  induction post as [|x post IH]; [done |]. cbn [fold_left keep_later]. rewrite Hpost by (by left). apply IH. intros q Hq. apply Hpost. by right.
Qed.

Lemma best_points_key history k p : best_points ∅ history !! k = Some p -> m_Key p = k.
Proof.
  rewrite best_points_lookup, lookup_empty. intros (pre & post & He & _)%kept_splits.
  assert (p ∈ of_key k history) as Hp by (rewrite He; apply elem_of_app; right; by left).
  apply list_elem_of_In, filter_In in Hp as [_ Hp]. by bool_to_prop.
Qed.

#[export] Instance by_key_trans : Transitive by_key.
Proof. intros p q r. unfold by_key. apply transitivity. Qed.
#[export] Instance by_key_total : Total by_key.
Proof. intros p q. unfold by_key. apply str_le_total. Qed.

Lemma final_metrics_best history p : p ∈ ComputeFinalMetrics history <-> best_points ∅ history !! m_Key p = Some p.
Proof.
  unfold ComputeFinalMetrics. rewrite merge_sort_Permutation. split.
  - intros ([k q] & -> & Hq%elem_of_map_to_list)%list_elem_of_fmap. cbn [snd]. by rewrite (best_points_key _ _ _ Hq).
  - intros Hp. apply list_elem_of_fmap. exists (m_Key p, p). split; [done | by apply elem_of_map_to_list].
Qed.

Lemma final_metrics_in history p : p ∈ ComputeFinalMetrics history <-> latest_of history p.
Proof.
  rewrite final_metrics_best, best_points_lookup, lookup_empty. split; [intros (pre & post & He & ?)%kept_splits; by exists pre, post |].
  intros (pre & post & -> & Hpre & Hpost). by apply splits_kept.
Qed.

(** The headline of a run is its latest points: the final metrics have one point for
    every key of the history, in the order of the keys, and it is the one with the highest
    step, of those the latest, of those the first. *)
Theorem final_metrics_latest history :
  (forall p, p ∈ ComputeFinalMetrics history <-> latest_of history p) /\
  NoDup (map m_Key (ComputeFinalMetrics history)) /\ StronglySorted by_key (ComputeFinalMetrics history) /\
  (forall k, k ∈ map m_Key (ComputeFinalMetrics history) <-> k ∈ map m_Key history).
Proof.
  split; [exact (final_metrics_in history) |]. split; [| split].
  - unfold ComputeFinalMetrics. rewrite merge_sort_Permutation.
    assert (map m_Key (map snd (map_to_list (best_points ∅ history))) = map fst (map_to_list (best_points ∅ history))) as ->; [| apply NoDup_fst_map_to_list].
    rewrite map_map. apply map_ext_in. intros [k p] Hp. apply list_elem_of_In, elem_of_map_to_list in Hp. by apply best_points_key in Hp.
  - apply StronglySorted_merge_sort; apply _.
  - intros k. split.
    + intros (p & -> & (pre & post & He & _)%final_metrics_in)%list_elem_of_fmap. apply list_elem_of_fmap. exists p. split; [done |].
      assert (p ∈ of_key (m_Key p) history) as Hp by (rewrite He; apply elem_of_app; right; by left). by apply list_elem_of_In, filter_In in Hp as [Hp%list_elem_of_In _].
    + intros (p & -> & Hp)%list_elem_of_fmap. assert (p ∈ of_key (m_Key p) history) as Hk.
      { apply list_elem_of_In, filter_In. split; [by apply list_elem_of_In | apply String.eqb_refl]. }
      assert (is_Some (best_points ∅ history !! m_Key p)) as [q Hq].
      { rewrite best_points_lookup, lookup_empty. destruct (of_key (m_Key p) history); [by apply list.not_elem_of_nil in Hk | apply keep_later_some]. }
      apply list_elem_of_fmap. exists q. pose proof (best_points_key _ _ _ Hq) as Hkq. split; [done |]. apply final_metrics_best. by rewrite Hkq.
Qed.

(** In a history with one point per key and step, the finals are the points of the highest
    steps, in whatever order the history is read. *)
Lemma final_metrics_highest history p : NoDup (map (fun q => (m_Key q, m_Step q)) history) ->
  p ∈ ComputeFinalMetrics history <-> p ∈ history /\ forall q, q ∈ history -> m_Key q = m_Key p -> q = p \/ m_Step q < m_Step p.
Proof.
  intros Hn. rewrite final_metrics_in.
  assert (forall q, q ∈ of_key (m_Key p) history <-> q ∈ history /\ m_Key q = m_Key p) as Hof.
  { intros q. unfold of_key. rewrite list_elem_of_In, filter_In, <- list_elem_of_In, String.eqb_eq. done. }
  assert (forall q, q ∈ history -> p ∈ history -> m_Key q = m_Key p -> m_Step q = m_Step p -> q = p) as Hone.
  { intros q [i Hi]%list_elem_of_lookup [j Hj]%list_elem_of_lookup Hk Hs. assert (i = j) as ->; [| congruence].
    apply (NoDup_lookup _ _ _ (m_Key p, m_Step p) Hn); rewrite list_lookup_fmap; [by rewrite Hi; cbn; rewrite Hk, Hs | by rewrite Hj]. }
  split.
  - intros (pre & post & He & Hpre & Hpost). assert (p ∈ history) as Hp.
    { apply (proj1 (Hof p)). rewrite He. apply elem_of_app. right. by left. }
    split; [exact Hp |]. intros q Hq Hk. pose proof (proj2 (Hof q) (conj Hq Hk)) as Hi. rewrite He in Hi. apply elem_of_app in Hi as [Hi | [-> | Hi]%elem_of_cons]; [| by left |].
    + apply Hpre, later_spec in Hi as [? | [Hs _]]; [by right | left; by apply Hone].
    + apply Hpost in Hi. apply not_true_iff_false in Hi. rewrite later_spec in Hi.
      destruct (Z.eq_dec (m_Step q) (m_Step p)); [left; by apply Hone | right; lia].
  - intros [Hp Hall]. pose proof (proj2 (Hof p) (conj Hp eq_refl)) as Hi. apply list_elem_of_split in Hi as (pre & post & He).
    assert (NoDup (of_key (m_Key p) history)) as Hn'.
    { apply (NoDup_fmap_1 (fun q => (m_Key q, m_Step q))). unfold of_key. clear -Hn. induction history as [|x l IH]; [constructor |]. cbn in Hn |- *.
      apply list.NoDup_cons in Hn as [Hx Hn]. destruct (String.eqb _ _); [| by apply IH]. cbn. constructor; [| by apply IH].
      intros (y & Hy & Hin)%list_elem_of_fmap. apply Hx, list_elem_of_fmap. exists y. split; [done |]. by apply list_elem_of_In, filter_In in Hin as [Hin%list_elem_of_In _]. }
    exists pre, post. split; [exact He |]. rewrite He in Hn', Hof. apply list.NoDup_app in Hn' as (_ & Hd & [Hnp _]%list.NoDup_cons).
    split; intros q Hq; (assert (q ∈ history /\ m_Key q = m_Key p) as [Hqh Hqk] by (apply Hof, elem_of_app; first [by left | right; by right]));
      destruct (Hall q Hqh Hqk) as [-> | Hlt].
    + exfalso. apply (Hd p Hq). by left.
    + apply later_spec. by left.
    + done.
    + apply not_true_iff_false. rewrite later_spec. lia.
Qed.

(** ** A history is cut into its series *)

Section stable_facts.
Context {A : Type} (less : A -> A -> bool).
Hypothesis less_asym : forall x y, less x y = true -> less y x = false.
Hypothesis less_negative : forall x y z, less x y = false -> less y z = false -> less x z = false.

Lemma stable_insert_perm x l : stable_insert less x l ≡ₚ x :: l.
Proof. induction l as [|y l IH]; [done |]. cbn. destruct (less y x); [| done]. rewrite IH. constructor. Qed.

Lemma SliceStable_perm l : SliceStable less l ≡ₚ l.
Proof. induction l as [|x l IH]; [done |]. cbn. by rewrite stable_insert_perm, IH. Qed.

Lemma SliceStable_sorted l : StronglySorted (fun x y => less y x = false) (SliceStable less l).
Proof.
  induction l as [|x l IH]; [constructor |]. cbn. fold (SliceStable less l).
  induction IH as [|y k Hk IHk Hy]; cbn; [repeat constructor |]. destruct (less y x) eqn:E.
  - constructor; [exact IHk |]. rewrite stable_insert_perm. constructor; [by apply less_asym | done].
  - constructor; [by constructor |]. constructor; [exact E |]. eapply Forall_impl; [| exact Hy]. intros z Hz. cbn in *. by apply (less_negative z y x).
Qed.

(** Equals keep their order. *)
Lemma SliceStable_class (P : A -> bool) l : (forall x y, P x = true -> P y = true -> less x y = false) ->
  List.filter P (SliceStable less l) = List.filter P l.
Proof.
  intros Hp. induction l as [|x l IH]; [done |]. cbn [SliceStable foldr List.filter]. fold (SliceStable less l).
  assert (forall k, List.filter P (stable_insert less x k) = if P x then x :: List.filter P k else List.filter P k) as Hi.
  { intros k. induction k as [|y k IHk]; cbn [stable_insert List.filter]; [done |]. destruct (less y x) eqn:E; cbn [List.filter]; [| by destruct (P x)].
    rewrite IHk. destruct (P x) eqn:Ex, (P y) eqn:Ey; try done. rewrite (Hp y x) in E by done. done. }
  by rewrite Hi, IH.
Qed.
End stable_facts.

(** Each text once, at its first place. *)
Fixpoint first_seen (seen : list string) (l : list string) : list string :=
  match l with
  | [] => []
  | k :: l => if bool_decide (k ∈ seen) then first_seen seen l else k :: first_seen (k :: seen) l
  end.

Lemma first_seen_same l : forall seen seen', (forall k, k ∈ seen <-> k ∈ seen') -> first_seen seen l = first_seen seen' l.
Proof.
  induction l as [|k l IH]; intros seen seen' Hs; [done |]. cbn [first_seen]. rewrite (bool_decide_ext _ _ (Hs k)).
  destruct (bool_decide _); [by apply IH |]. f_equal. apply IH. intros j. by rewrite !elem_of_cons, Hs.
Qed.

Lemma first_seen_spec l : forall seen, NoDup (first_seen seen l) /\ forall k, k ∈ first_seen seen l <-> k ∈ l /\ ~ k ∈ seen.
Proof.
  induction l as [|k l IH]; intros seen; cbn [first_seen].
  { split; [constructor |]. intros k. rewrite list.elem_of_nil. tauto. }
  destruct (bool_decide_reflect (k ∈ seen)) as [Hk | Hk].
  - destruct (IH seen) as [Hn Hin]. split; [exact Hn |]. intros j. rewrite Hin, elem_of_cons. split; [tauto |]. intros [[-> | ?] ?]; tauto.
  - destruct (IH (k :: seen)) as [Hn Hin]. split.
    + constructor; [| exact Hn]. rewrite Hin, elem_of_cons. tauto.
    + intros j. rewrite !elem_of_cons, Hin, elem_of_cons. destruct (decide (j = k)) as [-> |]; tauto.
Qed.

Lemma group_spec points : forall order byKey, (forall k, k ∈ order <-> is_Some (byKey !! k)) ->
  (group points order byKey).1 = order ++ first_seen order (map m_Key points) /\
  forall k, default [] ((group points order byKey).2 !! k) = default [] (byKey !! k) ++ of_key k points.
Proof.
  induction points as [|p points IH]; intros order byKey Ho; cbn [group map first_seen].
  { split; [by rewrite app_nil_r | intros k; by rewrite app_nil_r]. }
  set (byKey' := <[m_Key p := default [] (byKey !! m_Key p) ++ [p]]> byKey).
  set (order' := match byKey !! m_Key p with Some _ => order | None => order ++ [m_Key p] end).
  assert (forall k, k ∈ order' <-> is_Some (byKey' !! k)) as Ho'.
  { intros k. unfold order', byKey'. destruct (decide (k = m_Key p)) as [-> | Hne].
    - rewrite lookup_insert_eq. split; [done |]. intros _. destruct (byKey !! m_Key p) eqn:E; [by apply Ho; eexists | apply elem_of_app; right; by left].
    - rewrite lookup_insert_ne by done. rewrite <- Ho. destruct (byKey !! m_Key p); [done |]. rewrite elem_of_app, list_elem_of_singleton. tauto. }
  destruct (IH order' byKey' Ho') as [E1 E2]. split.
  - rewrite E1. unfold order'. destruct (byKey !! m_Key p) as [l|] eqn:E.
    + by rewrite bool_decide_eq_true_2 by (apply Ho; by eexists).
    + rewrite bool_decide_eq_false_2 by (rewrite Ho, E; by intros [? ?]). rewrite <- app_assoc. cbn [app]. do 2 f_equal. apply first_seen_same.
      intros k. set_solver.
  - intros k. rewrite E2. unfold byKey', of_key. cbn [List.filter]. destruct (String.eqb_spec (m_Key p) k) as [<- | Hne].
    + rewrite lookup_insert_eq. cbn [default from_option]. unfold id. by rewrite <- app_assoc.
    + by rewrite lookup_insert_ne.
Qed.

Definition same_moment (step : Z) (t : time) (p : MetricPoint) : bool := (m_Step p =? step) && (m_Timestamp p =? t).

(** A history is cut into its series: one series per key, in the order of the keys' first
    points; each holds exactly the points of its key, by step and then by time, and points
    of one step and time in the order in which they came. *)
Theorem series_partition points :
  map ms_Key (GroupIntoSeries points) = first_seen [] (map m_Key points) /\
  NoDup (map ms_Key (GroupIntoSeries points)) /\ (forall k, k ∈ map ms_Key (GroupIntoSeries points) <-> k ∈ map m_Key points) /\
  forall s, s ∈ GroupIntoSeries points ->
    ms_Points s ≡ₚ of_key (ms_Key s) points /\ StronglySorted (fun p q => point_less q p = false) (ms_Points s) /\
    forall step t, List.filter (same_moment step t) (ms_Points s) = List.filter (same_moment step t) (of_key (ms_Key s) points).
Proof.
  unfold GroupIntoSeries. destruct (group points [] ∅) as [order byKey] eqn:E.
  destruct (group_spec points [] ∅) as [E1 E2]; [intros k; rewrite lookup_empty; split; [by intros ?%list.not_elem_of_nil | by intros [? ?]] |].
  rewrite E in E1, E2. cbn [fst snd app] in E1, E2. rewrite map_map. cbn [ms_Key]. rewrite map_id, E1.
  destruct (first_seen_spec (map m_Key points) []) as [Hn Hin]. split; [done |]. split; [exact Hn |]. split.
  { intros k. rewrite Hin. split; [tauto |]. intros Hk. split; [exact Hk | apply list.not_elem_of_nil]. }
  intros s (k & -> & _)%list_elem_of_fmap. cbn [ms_Points ms_Key]. rewrite E2, lookup_empty. cbn [default from_option]. unfold id. rewrite app_nil_l.
  split; [apply SliceStable_perm |]. split.
  - apply SliceStable_sorted; unfold point_less, time_before; intros; repeat case_match; bool_to_prop; lia.
  - intros step t. apply SliceStable_class. unfold same_moment, point_less, time_before.
    intros p q [Hp1%Z.eqb_eq Hp2%Z.eqb_eq]%andb_true_iff [Hq1%Z.eqb_eq Hq2%Z.eqb_eq]%andb_true_iff.
    rewrite Hp1, Hp2, Hq1, Hq2, Z.eqb_refl. cbn [negb]. lia.
Qed.

(** ** What a batch becomes *)

Definition point_key (p : MetricPoint) : string * Z := (m_Key p, m_Step p).

Lemma dedup_points_spec points : forall seen,
  NoDup (map point_key (dedup_points seen points)) /\
  (forall p, p ∈ dedup_points seen points -> ~ point_key p ∈ seen) /\
  forall k, k ∉ seen -> List.find (fun p => bool_decide (point_key p = k)) (dedup_points seen points) = List.find (fun p => bool_decide (point_key p = k)) points.
Proof.
  induction points as [|p points IH]; intros seen; cbn [dedup_points].
  { split; [constructor |]. split; [by intros p ?%list.not_elem_of_nil | done]. }
  fold (point_key p). destruct (bool_decide_reflect (point_key p ∈ seen)) as [Hp | Hp].
  - destruct (IH seen) as (Hn & Hs & Hf). split; [exact Hn |]. split; [exact Hs |]. intros k Hk. rewrite (Hf k Hk). cbn [List.find].
    rewrite bool_decide_eq_false_2; [done |]. intros <-. done.
  - destruct (IH ({[point_key p]} ∪ seen)) as (Hn & Hs & Hf). split; [| split].
    + cbn [map]. constructor; [| exact Hn]. intros (q & Hq & Hin)%list_elem_of_fmap. apply (Hs q Hin), elem_of_union_l, elem_of_singleton. done.
    + intros q [-> | Hq]%elem_of_cons; [exact Hp |]. intros Hk. by apply (Hs q Hq), elem_of_union_r.
    + intros k Hk. cbn [List.find]. destruct (bool_decide_reflect (point_key p = k)) as [| Hne]; [done |]. apply Hf. rewrite elem_of_union, elem_of_singleton. intros [? | ?]; [by apply Hne | done].
Qed.
