(* ===== verification/TrackStore.v ===== *)
(** * Experiments: the tables

    [services/experiment-tracker/internal/repository/postgres]: one definition per statement
    or transaction of [experiment_repository.go], [run_repository.go] and
    [idempotency_store.go] over the tables of [migrations/001_init.up.sql]. What a column of
    JSON gives back, and the page tokens of [cursor.go], are the class [TrackText]. *)

From S2P Require Import Prelude Site Keyset TrackModel.
Open Scope fp_scope.

Definition defaultPageSize : Z := 20.

Record ListOptions := { PageSize : Z; PageToken : string }.
Record MetricHistoryQuery := {
  q_RunID : string; Keys : list string; MinStep : Z; MaxStep : Z; HasMinStep : bool; HasMaxStep : bool; Pagination : ListOptions;
}.

Inductive track_event :=
| RunCreatedEvent (RunID ExperimentID ModelVersionID DisplayName : string) (StartedAt : time)
| RunFinishedEvent (RunID ExperimentID ModelVersionID : string) (Status : RunStatus) (FinalMetrics : list MetricPoint) (EndedAt : time).

(** A row of [runs]; its parameters are in their own table. *)
Record run_row := { row_run : Run; row_idem : option (string * string) }.

(** Beside the tables: the runs that were ever inserted with their experiments, and the
    events that were published, oldest first. *)
Record track_db := {
  experiments : gmap string Experiment; runs : gmap string run_row; run_params : gmap (string * string) string;
  run_metrics : gmap (string * (string * Z)) (Z * time); idempotency_keys : gmap (string * string) string;
  born : list (string * string); published : list track_event;
}.

Definition with_experiments (x : gmap string Experiment) (d : track_db) : track_db := {|
  experiments := x; runs := runs d; run_params := run_params d; run_metrics := run_metrics d; idempotency_keys := idempotency_keys d; born := born d; published := published d |}.
Definition with_runs (x : gmap string run_row) (d : track_db) : track_db := {|
  experiments := experiments d; runs := x; run_params := run_params d; run_metrics := run_metrics d; idempotency_keys := idempotency_keys d; born := born d; published := published d |}.
Definition with_params (x : gmap (string * string) string) (d : track_db) : track_db := {|
  experiments := experiments d; runs := runs d; run_params := x; run_metrics := run_metrics d; idempotency_keys := idempotency_keys d; born := born d; published := published d |}.
Definition with_metrics (x : gmap (string * (string * Z)) (Z * time)) (d : track_db) : track_db := {|
  experiments := experiments d; runs := runs d; run_params := run_params d; run_metrics := x; idempotency_keys := idempotency_keys d; born := born d; published := published d |}.
Definition with_keys (x : gmap (string * string) string) (d : track_db) : track_db := {|
  experiments := experiments d; runs := runs d; run_params := run_params d; run_metrics := run_metrics d; idempotency_keys := x; born := born d; published := published d |}.
Definition with_born (x : string * string) (d : track_db) : track_db := {|
  experiments := experiments d; runs := runs d; run_params := run_params d; run_metrics := run_metrics d; idempotency_keys := idempotency_keys d; born := born d ++ [x]; published := published d |}.
Definition with_published (x : track_event) (d : track_db) : track_db := {|
  experiments := experiments d; runs := runs d; run_params := run_params d; run_metrics := run_metrics d; idempotency_keys := idempotency_keys d; born := born d; published := published d ++ [x] |}.

(** What reading a JSON column gives after a value was written to it ([None]: the value is
    refused), the length of [json.Marshal]'s text, and the page tokens. *)
Class TrackText : Type := {
  track_collation :: Collation;
  tags_column : gmap string string -> option (gmap string string);
  finals_column : list MetricPoint -> option (list MetricPoint);
  artifacts_column : artifacts -> option artifacts;
  json_size : artifacts -> option Z;
  encodeListCursor : time * string -> string;
  decodeListCursor : string -> option (time * string);
  encodeMetricCursor : string * Z * time -> string;
  decodeMetricCursor : string -> option (string * Z * time);
}.

(** ** INSERT of several rows ... ON CONFLICT DO NOTHING *)

Section insert_new.
Context `{Countable K} {V : Type}.

(** The rows one after the other; a key that is there stays. The count of the new rows. *)
Fixpoint insert_new (rows : list (K * V)) (l : gmap K V) : Z * gmap K V :=
  match rows with
  | [] => (0, l)
  | (k, v) :: rows =>
      match l !! k with
      | Some _ => insert_new rows l
      | None => let '(n, l) := insert_new rows (<[k := v]> l) in (1 + n, l)
      end
  end.

(** The row that a key gets: the one that is there, or else the first. *)
Lemma insert_new_lookup rows : forall l k, (insert_new rows l).2 !! k =
  match l !! k with Some v => Some v | None => snd <$> List.find (fun kv => bool_decide (kv.1 = k)) rows end.
Proof.
  induction rows as [|[j v] rows IH]; intros l k; cbn [insert_new List.find fst snd]; [by destruct (l !! k) |].
  destruct (l !! j) as [w|] eqn:Ej.
  - rewrite IH. destruct (l !! k) eqn:Ek; [done |]. rewrite bool_decide_eq_false_2; [done |]. intros ->. congruence.
  - specialize (IH (<[j := v]> l) k). destruct (insert_new rows (<[j := v]> l)) as [n l']. cbn [snd] in *. rewrite IH.
    destruct (decide (j = k)) as [-> | Hne].
    + by rewrite lookup_insert_eq, Ej, bool_decide_eq_true_2.
    + by rewrite lookup_insert_ne, bool_decide_eq_false_2.
Qed.

Lemma insert_new_count rows : forall l, Z.of_nat (size (insert_new rows l).2) = Z.of_nat (size l) + (insert_new rows l).1.
Proof.
  induction rows as [|[j v] rows IH]; intros l; cbn [insert_new]; [cbn; lia |]. destruct (l !! j) eqn:Ej; [apply IH |].
  specialize (IH (<[j := v]> l)). destruct (insert_new rows (<[j := v]> l)) as [n l']. cbn [fst snd] in *. rewrite IH, map_size_insert_None by done. lia.
Qed.

Lemma insert_new_keeps rows l k v : l !! k = Some v -> (insert_new rows l).2 !! k = Some v.
Proof. intros Hk. by rewrite insert_new_lookup, Hk. Qed.

Lemma insert_new_only rows l k v : (insert_new rows l).2 !! k = Some v -> l !! k = Some v \/ l !! k = None /\ (k, v) ∈ rows.
Proof.
  rewrite insert_new_lookup. destruct (l !! k) as [w|]; [by left |]. intros Hs. apply fmap_Some in Hs as ([j w] & Hf & ->). right. split; [done |].
  apply List.find_some in Hf as [Hin Hk]. apply bool_decide_eq_true in Hk. cbn in Hk |- *. subst j. by apply list_elem_of_In.
Qed.
End insert_new.

Section statements.
Context `{TrackText}.

Abbreviation answer A := (result A track_error).

(** A token that is not empty must decode. *)
Definition read_cursor {K} (decode : string -> option K) (token text : string) : answer (option K) :=
  if String.eqb token "" then Ok None
  else match decode token with Some c => Ok (Some c) | None => Err (Wrap text (External "invalid page token")) end.

Definition page_size (opts : ListOptions) : Z := if PageSize opts <=? 0 then defaultPageSize else PageSize opts.

(** *** experiment_repository.go *)

Definition marshalTags (tags : gmap string string) : option (gmap string string) := if bool_decide (tags = ∅) then Some ∅ else tags_column tags.

(** The partial unique index on (team, name) of the experiments that are not archived. *)
Definition name_taken (id : string) (e : Experiment) (l : gmap string Experiment) : bool :=
  bool_decide (ArchivedAt e = None) &&
  existsb (fun kx => negb (String.eqb kx.1 id) && String.eqb (e_Team kx.2) (e_Team e) && String.eqb (e_Name kx.2) (e_Name e) && bool_decide (ArchivedAt kx.2 = None))
          (map_to_list l).

Definition experiment_row (e : Experiment) (tags : gmap string string) : Experiment := {|
  e_ID := e_ID e; e_Name := e_Name e; e_Description := e_Description e; e_Tags := tags; e_OwnerID := e_OwnerID e; e_Team := e_Team e;
  e_CreatedAt := timestamptz (e_CreatedAt e); e_UpdatedAt := timestamptz (e_UpdatedAt e); ArchivedAt := timestamptz <$> ArchivedAt e |}.

Definition Create (exp : Experiment) (d : track_db) : answer Experiment * track_db :=
  match marshalTags (e_Tags exp) with
  | None => (Err (Wrap "marshal tags" (External "json")), d)
  | Some tags =>
      let row := experiment_row exp tags in
      if bool_decide (is_Some (experiments d !! e_ID exp)) || name_taken (e_ID exp) row (experiments d)
      then (Err (Sentinel ErrRepoConflict), d)
      else (Ok exp, with_experiments (<[e_ID exp := row]> (experiments d)) d)
  end.

Definition GetByID (id : string) (d : track_db) : answer Experiment :=
  match experiments d !! id with Some e => Ok e | None => Err (Sentinel ErrRepoNotFound) end.

(** The columns that UPDATE sets. *)
Definition updated_row (exp : Experiment) (tags : gmap string string) (old : Experiment) : Experiment := {|
  e_ID := e_ID old; e_Name := e_Name exp; e_Description := e_Description exp; e_Tags := tags; e_OwnerID := e_OwnerID old; e_Team := e_Team old;
  e_CreatedAt := e_CreatedAt old; e_UpdatedAt := timestamptz (e_UpdatedAt exp); ArchivedAt := timestamptz <$> ArchivedAt exp |}.

Definition Update (exp : Experiment) (d : track_db) : answer Experiment * track_db :=
  match marshalTags (e_Tags exp) with
  | None => (Err (Wrap "marshal tags" (External "json")), d)
  | Some tags =>
      match experiments d !! e_ID exp with
      | None => (Err (Sentinel ErrRepoNotFound), d)
      | Some old =>
          let row := updated_row exp tags old in
          if name_taken (e_ID exp) row (experiments d) then (Err (Sentinel ErrRepoConflict), d)
          else (Ok row, with_experiments (<[e_ID exp := row]> (experiments d)) d)
      end
  end.

Definition experiment_key (e : Experiment) : time * string := (e_CreatedAt e, e_ID e).

Definition experiments_where (team : string) (includeArchived : bool) (e : Experiment) : bool :=
  String.eqb (e_Team e) team && (includeArchived || bool_decide (ArchivedAt e = None)).

Definition List_ (team : string) (includeArchived : bool) (opts : ListOptions) (d : track_db) : answer (list Experiment * string) :=
  let! cur := read_cursor decodeListCursor (PageToken opts) "list experiments" in
  let rows := List.filter (experiments_where team includeArchived) (merge_sort (newest_first experiment_key) (map snd (map_to_list (experiments d)))) in
  let '(out, next) := page experiment_key key_lt (Z.to_nat (page_size opts)) cur rows in
  Ok (out, match next with Some c => encodeListCursor c | None => "" end).

(** *** idempotency_store.go *)

Definition Lookup (operation key : string) (d : track_db) : answer (option string) := Ok (idempotency_keys d !! (operation, key)).

(** INSERT ... ON CONFLICT DO NOTHING *)
Definition record_key (operation key resultID : string) (d : track_db) : track_db :=
  match idempotency_keys d !! (operation, key) with
  | Some _ => d
  | None => with_keys (<[(operation, key) := resultID]> (idempotency_keys d)) d
  end.

Definition recordIdempotencyKeyTx (operation key resultID : string) (d : track_db) : track_db :=
  if String.eqb key "" then d else record_key operation key resultID d.

Definition Record_ (operation key resultID : string) (d : track_db) : answer unit * track_db := (Ok tt, record_key operation key resultID d).

(** *** run_repository.go *)

Definition insert_params (runID : string) (params : list Param) : gmap (string * string) string -> Z * gmap (string * string) string :=
  insert_new (map (fun p => ((runID, p_Key p), p_Value p)) params).

Definition insert_metrics (runID : string) (points : list MetricPoint) : gmap (string * (string * Z)) (Z * time) -> Z * gmap (string * (string * Z)) (Z * time) :=
  insert_new (map (fun p => ((runID, point_key p), (m_Value p, timestamptz (m_Timestamp p)))) points).

Definition stored_run (r : Run) (finals : list MetricPoint) (arts : option artifacts) : Run := {|
  r_ID := r_ID r; r_ExperimentID := r_ExperimentID r; r_DisplayName := r_DisplayName r; r_Status := r_Status r; r_Source := r_Source r;
  r_ModelVersionID := r_ModelVersionID r; r_OwnerID := r_OwnerID r; r_Params := []; r_FinalMetrics := finals; r_StartedAt := timestamptz (r_StartedAt r);
  r_EndedAt := timestamptz <$> r_EndedAt r; r_Artifacts := arts |}.

(** An empty map is NULL, which reads as no map. *)
Definition marshalArtifacts (m : option artifacts) : option (option artifacts) :=
  match m with None | Some [] => Some None | Some fields => Some <$> artifacts_column fields end.

Definition run_checks (r : Run) : bool := negb (bool_decide (r_Status r = RunStatusUnspecified)) && match r_Source r with RunSourceUnspecified => false | _ => true end.

Definition CreateRunIdem (run : Run) (operation idempotencyKey : string) (d : track_db) : answer Run * track_db :=
  match finals_column (r_FinalMetrics run), marshalArtifacts (r_Artifacts run) with
  | None, _ => (Err (Wrap "marshal final metrics" (External "json")), d)
  | _, None => (Err (Wrap "marshal artifacts" (External "json")), d)
  | Some finals, Some arts =>
      let row := {| row_run := stored_run run finals arts; row_idem := if String.eqb idempotencyKey "" then None else Some (operation, idempotencyKey) |} in
      if negb (run_checks run) then (Err (Wrap "insert run" (External "check violation")), d)
      else if bool_decide (is_Some (runs d !! r_ID run)) then (Err (Wrap "insert run" (External "unique violation")), d)
      else if negb (bool_decide (row_idem row = None)) && existsb (fun kr => bool_decide (row_idem kr.2 = row_idem row)) (map_to_list (runs d))
      then (Err (Sentinel ErrRepoConflict), d)
      else if bool_decide (experiments d !! r_ExperimentID run = None) then (Err (Sentinel ErrRepoNotFound), d)
      else
        let d := with_born (r_ID run, r_ExperimentID run) (with_runs (<[r_ID run := row]> (runs d)) d) in
        let d := with_params (insert_params (r_ID run) (r_Params run) (run_params d)).2 d in
        (Ok run, recordIdempotencyKeyTx operation idempotencyKey (r_ID run) d)
  end.
Definition CreateRun (run : Run) : track_db -> answer Run * track_db := CreateRunIdem run "" "".

(** The row of a run, and its parameters by key. *)
Definition scanRun (id : string) (d : track_db) : answer Run :=
  match runs d !! id with Some row => Ok (row_run row) | None => Err (Sentinel ErrRepoNotFound) end.

Definition by_param (p q : Param) : Prop := collate (p_Key p) (p_Key q).
#[export] Instance by_param_dec : RelDecision by_param.
Proof. intros p q. unfold by_param. apply _. Defined.

Definition params_of (runID : string) (d : track_db) : list Param :=
  map (fun kv => {| p_Key := kv.1.2; p_Value := kv.2 |}) (List.filter (fun kv => String.eqb kv.1.1 runID) (map_to_list (run_params d))).

Definition loadParams (runID : string) (d : track_db) : answer (list Param) := Ok (merge_sort by_param (params_of runID d)).

Definition run_key (r : Run) : time * string := (r_StartedAt r, r_ID r).

Definition list_runs (text : string) (which : Run -> bool) (statusFilter : RunStatus) (opts : ListOptions) (d : track_db) : answer (list Run * string) :=
  let! cur := read_cursor decodeListCursor (PageToken opts) text in
  let rows := List.filter (fun r => which r && (bool_decide (statusFilter = RunStatusUnspecified) || bool_decide (r_Status r = statusFilter)))
                          (merge_sort (newest_first run_key) (map (fun kr => row_run kr.2) (map_to_list (runs d)))) in
  let '(out, next) := page run_key key_lt (Z.to_nat (page_size opts)) cur rows in
  Ok (out, match next with Some c => encodeListCursor c | None => "" end).

Definition ListRuns (experimentID : string) (statusFilter : RunStatus) (opts : ListOptions) (d : track_db) : answer (list Run * string) :=
  list_runs "list runs" (fun r => String.eqb (r_ExperimentID r) experimentID) statusFilter opts d.

(** The JOIN on the experiment of the run. *)
Definition of_team (team : string) (d : track_db) (r : Run) : bool :=
  match experiments d !! r_ExperimentID r with Some e => String.eqb (e_Team e) team | None => false end.

Definition ListRunsByTeam (team : string) (statusFilter : RunStatus) (opts : ListOptions) (d : track_db) : answer (list Run * string) :=
  list_runs "list runs by team" (of_team team d) statusFilter opts d.

Definition ended_run (status : RunStatus) (endedAt : time) (finals : list MetricPoint) (r : Run) : Run := {|
  r_ID := r_ID r; r_ExperimentID := r_ExperimentID r; r_DisplayName := r_DisplayName r; r_Status := status; r_Source := r_Source r;
  r_ModelVersionID := r_ModelVersionID r; r_OwnerID := r_OwnerID r; r_Params := r_Params r; r_FinalMetrics := finals; r_StartedAt := r_StartedAt r;
  r_EndedAt := Some (timestamptz endedAt); r_Artifacts := r_Artifacts r |}.

Definition set_run (runID : string) (f : Run -> Run) (d : track_db) : answer Run * track_db :=
  match runs d !! runID with
  | None => (Err (Sentinel ErrRepoNotFound), d)
  | Some row => (Ok (f (row_run row)), with_runs (<[runID := {| row_run := f (row_run row); row_idem := row_idem row |}]> (runs d)) d)
  end.

(** UPDATE ... RETURNING *)
Definition update_status (runID : string) (status : RunStatus) (endedAt : time) (finalMetrics : list MetricPoint) (d : track_db) : answer Run * track_db :=
  match finals_column finalMetrics with
  | None => (Err (Wrap "marshal final metrics" (External "json")), d)
  | Some finals =>
      if bool_decide (status = RunStatusUnspecified) && bool_decide (is_Some (runs d !! runID)) then (Err (Wrap "scan run" (External "check violation")), d)
      else set_run runID (ended_run status endedAt finals) d
  end.

Definition DeleteRunIdem (runID operation idempotencyKey : string) (d : track_db) : answer unit * track_db :=
  match runs d !! runID with
  | None => (Err (Sentinel ErrRepoNotFound), d)
  | Some _ =>
      let d := with_runs (delete runID (runs d)) d in
      let d := with_params (filter (fun kv => kv.1.1 <> runID) (run_params d)) d in
      let d := with_metrics (filter (fun kv => kv.1.1 <> runID) (run_metrics d)) d in
      (Ok tt, recordIdempotencyKeyTx operation idempotencyKey runID d)
  end.
Definition DeleteRun (runID : string) : track_db -> answer unit * track_db := DeleteRunIdem runID "" "".

Definition AppendMetricsIdem (runID : string) (points : list MetricPoint) (operation idempotencyKey : string) (d : track_db) : answer Z * track_db :=
  if bool_decide (points = []) then (Ok 0, d)
  else if bool_decide (runs d !! runID = None) then (Err (Sentinel ErrRepoNotFound), d)
  else let '(n, l) := insert_metrics runID points (run_metrics d) in (Ok n, recordIdempotencyKeyTx operation idempotencyKey runID (with_metrics l d)).
Definition AppendMetrics (runID : string) (points : list MetricPoint) : track_db -> answer Z * track_db := AppendMetricsIdem runID points "" "".

Definition AppendParams (runID : string) (params : list Param) (d : track_db) : answer Z * track_db :=
  if bool_decide (params = []) then (Ok 0, d)
  else if bool_decide (runs d !! runID = None) then (Err (Sentinel ErrRepoNotFound), d)
  else let '(n, l) := insert_params runID params (run_params d) in (Ok n, with_params l d).

Definition metric_key (p : MetricPoint) : string * Z * time := (m_Key p, m_Step p, m_Timestamp p).

(** The row comparison (key, step, ts) < (k, s, t) *)
Definition metric_lt (k k' : string * Z * time) : Prop :=
  collate k.1.1 k'.1.1 /\ k.1.1 <> k'.1.1 \/ k.1.1 = k'.1.1 /\ (k.1.2 < k'.1.2 \/ k.1.2 = k'.1.2 /\ k.2 < k'.2).
#[export] Instance metric_lt_dec : RelDecision metric_lt.
Proof. intros k k'. unfold metric_lt. apply _. Defined.

Definition metric_le (p q : MetricPoint) : Prop := metric_lt (metric_key p) (metric_key q) \/ metric_key p = metric_key q.
#[export] Instance metric_le_dec : RelDecision metric_le.
Proof. intros p q. unfold metric_le. apply _. Defined.

(** The pages go up: what is below the cursor is above it in the order of the rows. *)
Definition metric_gt (k k' : string * Z * time) : Prop := metric_lt k' k.
#[export] Instance metric_gt_dec : RelDecision metric_gt.
Proof. intros k k'. unfold metric_gt. apply _. Defined.

Definition points_of (runID : string) (d : track_db) : list MetricPoint :=
  map (fun kv => {| m_Key := kv.1.2.1; m_Value := kv.2.1; m_Step := kv.1.2.2; m_Timestamp := kv.2.2 |})
      (List.filter (fun kv => String.eqb kv.1.1 runID) (map_to_list (run_metrics d))).

Definition history_where (qy : MetricHistoryQuery) (p : MetricPoint) : bool :=
  (bool_decide (Keys qy = []) || existsb (String.eqb (m_Key p)) (Keys qy)) &&
  (negb (HasMinStep qy) || (MinStep qy <=? m_Step p)) && (negb (HasMaxStep qy) || (m_Step p <=? MaxStep qy)).

Definition GetMetricHistory (qy : MetricHistoryQuery) (d : track_db) : answer (list MetricPoint * string) :=
  let! cur := read_cursor decodeMetricCursor (PageToken (Pagination qy)) "metric history" in
  let rows := List.filter (history_where qy) (merge_sort metric_le (points_of (q_RunID qy) d)) in
  let '(out, next) := page metric_key metric_gt (Z.to_nat (page_size (Pagination qy))) cur rows in
  Ok (out, match next with Some c => encodeMetricCursor c | None => "" end).

Definition with_artifacts (arts : option artifacts) (r : Run) : Run := {|
  r_ID := r_ID r; r_ExperimentID := r_ExperimentID r; r_DisplayName := r_DisplayName r; r_Status := r_Status r; r_Source := r_Source r;
  r_ModelVersionID := r_ModelVersionID r; r_OwnerID := r_OwnerID r; r_Params := r_Params r; r_FinalMetrics := r_FinalMetrics r; r_StartedAt := r_StartedAt r;
  r_EndedAt := r_EndedAt r; r_Artifacts := arts |}.

Definition set_artifacts (runID : string) (m : option artifacts) (operation idempotencyKey : string) (d : track_db) : answer Run * track_db :=
  match marshalArtifacts m with
  | None => (Err (Wrap "marshal artifacts" (External "json")), d)
  | Some arts =>
      match set_run runID (with_artifacts arts) d with
      | (Ok r, d) => (Ok r, recordIdempotencyKeyTx operation idempotencyKey runID d)
      | (Err e, d) => (Err e, d)
      end
  end.
End statements.
