(* ===== verification/Track.v ===== *)
(** * The experiment tracker

    [services/experiment-tracker/internal]: the operations of
    [domain/experiment_service_impl.go] as programs of statements, clock readings and ids,
    and the calls of [handler/experiment_handler_rpcs.go] with their scopes, checks and the
    status of an error. Publishing an event is best effort: its failure is swallowed. *)

From S2P Require Import Prelude GoText Concur Site AuditCapture Keyset TrackModel TrackStore.
Open Scope fp_scope.

(** ** Requests (experiment_service.go) *)

Record Actor := { UserID : string; Team : string }.

Record CreateExperimentInput := { ce_Name : string; ce_Description : string; ce_Tags : gmap string string }.
Record UpdateExperimentInput := { ue_ID : string; ue_Name : string; ue_Description : string; ue_Tags : gmap string string; UpdateFields : list string }.
Record StartRunInput := { sr_ExperimentID : string; sr_DisplayName : string; sr_ModelVersionID : string; sr_Params : list Param; sr_IdempotencyKey : string }.
Record FinishRunInput := { fr_RunID : string; TargetStatus : RunStatus }.
Record LogMetricsInput := { lm_RunID : string; Points : list MetricPoint; lm_IdempotencyKey : string }.
Record LogParamsInput := { lp_RunID : string; Params : list Param }.
Record SetArtifactsInput := { sa_RunID : string; sa_Artifacts : artifacts; sa_IdempotencyKey : string }.
Record GetMetricHistoryInput := {
  gm_RunID : string; MetricKeys : list string; gm_MinStep : Z; gm_MaxStep : Z; gm_HasMinStep : bool; gm_HasMaxStep : bool; gm_Pagination : ListOptions;
}.
Record CompareRunsInput := { RunIDs : list string; cr_MetricKeys : list string }.
Record RunComparison := { rc_Run : Run; Series : list MetricSeries }.

Definition MaxMetricsPerBatch : Z := 1000.
Definition MaxParamsPerCall : Z := 200.
Definition MaxCompareRuns : Z := 20.
Definition DefaultPageSize : Z := 20.
Definition MaxPageSize : Z := 100.
Definition DefaultMetricPageSize : Z := 1000.
Definition MaxMetricPageSize : Z := 5000.
Definition MaxArtifactsBytes : Z := 256 * 1024.
Definition opStartRun : string := "start_run".
Definition opLogMetrics : string := "log_metrics".
Definition opDeleteRun : string := "delete_run".
Definition opSetRunArtifacts : string := "set_run_artifacts".
Definition maxPages : nat := Z.to_nat 100000.

(** The publisher's answer is an error text or none. *)
Class TrackOutside (W : Type) : Type := { publish : track_event -> W -> option string * W }.

Section service.
Context {W : Type} `{Outside W, TrackOutside W, TrackText}.

Abbreviation call := (prog (site W track_db)).
Abbreviation answer A := (result A track_error).

Definition is_repo (s : track_sentinel) (e : track_error) : bool := errors_is e s.

(** A lookup of a key that the client sent. *)
Definition idem_Lookup (operation key : string) : call (answer (option string)) :=
  if String.eqb key "" then Ret (Ok None)
  else do! found := query (fun _ d => Lookup operation key d) in try found (Wrap "idempotency lookup") (fun found => Ret (Ok found)).

(** What was done is recorded under the key, when there is one. *)
Definition idem_Record {A} (operation key resultID : string) (a : A) : call (answer A) :=
  if String.eqb key "" then Ret (Ok a)
  else do! recorded := transact (Record_ operation key resultID) in try recorded (Wrap "idempotency record") (fun _ => Ret (Ok a)).

(** ** The repository's reads of several statements *)

Definition with_run_params (params : list Param) (r : Run) : Run := {|
  r_ID := r_ID r; r_ExperimentID := r_ExperimentID r; r_DisplayName := r_DisplayName r; r_Status := r_Status r; r_Source := r_Source r;
  r_ModelVersionID := r_ModelVersionID r; r_OwnerID := r_OwnerID r; r_Params := params; r_FinalMetrics := r_FinalMetrics r; r_StartedAt := r_StartedAt r;
  r_EndedAt := r_EndedAt r; r_Artifacts := r_Artifacts r |}.

Definition add_params (runID : string) (r : Run) : call (answer Run) :=
  do! params := query (fun _ d => loadParams runID d) in
  try params (Wrap "load params") (fun params => Ret (Ok (with_run_params params r))).

Definition repo_GetRun (rid : string) : call (answer Run) :=
  do! r := query (fun _ d => scanRun rid d) in try r id (add_params rid).

Definition UpdateRunStatus (runID : string) (status : RunStatus) (endedAt : time) (finalMetrics : list MetricPoint) : call (answer Run) :=
  do! r := transact (update_status runID status endedAt finalMetrics) in try r id (add_params runID).

Definition SetArtifactsIdem (runID : string) (m : option artifacts) (operation idempotencyKey : string) : call (answer Run) :=
  do! r := transact (set_artifacts runID m operation idempotencyKey) in try r id (add_params runID).
Definition SetArtifacts (runID : string) (m : option artifacts) : call (answer Run) := SetArtifactsIdem runID m "" "".

(** ** Experiments *)

Definition fetchExperimentForTeam (eid team : string) : call (answer Experiment) :=
  if String.eqb (TrimSpace eid) "" then Ret (Err (wrap ErrValidation "experiment id is required"))
  else
    do! exp := query (fun _ d => GetByID eid d) in
    try exp (fun e => if is_repo ErrRepoNotFound e then Sentinel ErrExperimentNotFound else Wrap "get experiment" e) (fun exp =>
    if negb (String.eqb (e_Team exp) team) then Ret (Err (Sentinel ErrExperimentNotFound)) else Ret (Ok exp)).

Definition name_conflict (text : string) (e : track_error) : track_error := if is_repo ErrRepoConflict e then Sentinel ErrExperimentNameExists else Wrap text e.

Definition CreateExperiment (actor : Actor) (inp : CreateExperimentInput) : call (answer Experiment) :=
  let name := TrimSpace (ce_Name inp) in
  if String.eqb name "" then Ret (Err (wrap ErrValidation "experiment name is required"))
  else if String.eqb (Team actor) "" then Ret (Err (wrap ErrValidation "caller has no team"))
  else
    do! now := ask Now in
    do! eid := ask NewID in
    do! created := transact (Create {|
      e_ID := eid; e_Name := name; e_Description := TrimSpace (ce_Description inp); e_Tags := ce_Tags inp; e_OwnerID := UserID actor; e_Team := Team actor;
      e_CreatedAt := now; e_UpdatedAt := now; ArchivedAt := None |}) in
    try created (name_conflict "create experiment") (fun exp => Ret (Ok exp)).

Definition GetExperiment (actor : Actor) (eid : string) : call (answer Experiment) := fetchExperimentForTeam eid (Team actor).

Definition ListExperiments (actor : Actor) (includeArchived : bool) (opts : ListOptions) : call (answer (list Experiment * string)) :=
  if String.eqb (Team actor) "" then Ret (Err (wrap ErrValidation "caller has no team"))
  else query (fun _ d => List_ (Team actor) includeArchived {| PageSize := clampPageSize (PageSize opts) DefaultPageSize MaxPageSize; PageToken := PageToken opts |} d).

(** The loop over the fields to update. *)
Fixpoint apply_fields (inp : UpdateExperimentInput) (fields : list string) (exp : Experiment) : answer Experiment :=
  let set name desc tags := {|
    e_ID := e_ID exp; e_Name := name; e_Description := desc; e_Tags := tags; e_OwnerID := e_OwnerID exp; e_Team := e_Team exp;
    e_CreatedAt := e_CreatedAt exp; e_UpdatedAt := e_UpdatedAt exp; ArchivedAt := ArchivedAt exp |} in
  match fields with
  | [] => Ok exp
  | f :: fields =>
      if String.eqb f "name" then
        let name := TrimSpace (ue_Name inp) in
        if String.eqb name "" then Err (wrap ErrValidation "name cannot be cleared")
        else apply_fields inp fields (set name (e_Description exp) (e_Tags exp))
      else if String.eqb f "description" then apply_fields inp fields (set (e_Name exp) (TrimSpace (ue_Description inp)) (e_Tags exp))
      else if String.eqb f "tags" then apply_fields inp fields (set (e_Name exp) (e_Description exp) (ue_Tags inp))
      else Err (wrap ErrValidation "unknown update field")
  end.

Definition touched (now : time) (archived : option time) (exp : Experiment) : Experiment := {|
  e_ID := e_ID exp; e_Name := e_Name exp; e_Description := e_Description exp; e_Tags := e_Tags exp; e_OwnerID := e_OwnerID exp; e_Team := e_Team exp;
  e_CreatedAt := e_CreatedAt exp; e_UpdatedAt := now; ArchivedAt := archived |}.

Definition UpdateExperiment (actor : Actor) (inp : UpdateExperimentInput) : call (answer Experiment) :=
  do! exp := fetchExperimentForTeam (ue_ID inp) (Team actor) in
  try exp id (fun exp =>
  if bool_decide (UpdateFields inp = []) then Ret (Err (wrap ErrValidation "update_fields must list at least one field"))
  else
    match apply_fields inp (UpdateFields inp) exp with
    | Err e => Ret (Err e)
    | Ok exp =>
        do! now := ask Now in
        do! updated := transact (Update (touched now (ArchivedAt exp) exp)) in
        try updated (name_conflict "update experiment") (fun exp => Ret (Ok exp))
    end).

Definition ArchiveExperiment (actor : Actor) (eid : string) : call (answer Experiment) :=
  do! exp := fetchExperimentForTeam eid (Team actor) in
  try exp id (fun exp =>
  if IsArchived exp then Ret (Ok exp)
  else
    do! now := ask Now in
    do! updated := transact (Update (touched now (Some now) exp)) in
    try updated (Wrap "archive experiment") (fun exp => Ret (Ok exp))).

(** ** Runs *)

(** Any failure to see the experiment is told as a missing run. *)
Definition loadRunForTeam (runID team : string) : call (answer Run) :=
  if String.eqb (TrimSpace runID) "" then Ret (Err (wrap ErrValidation "run id is required"))
  else
    do! run := repo_GetRun runID in
    try run (fun e => if is_repo ErrRepoNotFound e then Sentinel ErrRunNotFound else Wrap "get run" e) (fun run =>
    do! exp := fetchExperimentForTeam (r_ExperimentID run) team in
    try exp (fun _ => Sentinel ErrRunNotFound) (fun _ => Ret (Ok run))).

Definition publish_event (ev : track_event) : call (option string) := logged (publish ev) (with_published ev).

Definition publishRunCreated (r : Run) : call (option string) :=
  publish_event (RunCreatedEvent (r_ID r) (r_ExperimentID r) (r_ModelVersionID r) (r_DisplayName r) (r_StartedAt r)).

Definition publishRunFinished (r : Run) : call (option string) :=
  publish_event (RunFinishedEvent (r_ID r) (r_ExperimentID r) (r_ModelVersionID r) (r_Status r) (r_FinalMetrics r) (default (r_StartedAt r) (r_EndedAt r))).

Definition StartRun (actor : Actor) (inp : StartRunInput) : call (answer Run) :=
  do! found := idem_Lookup opStartRun (sr_IdempotencyKey inp) in
  try found id (fun found =>
  match found with
  | Some runID => repo_GetRun runID
  | None =>
      do! exp := fetchExperimentForTeam (sr_ExperimentID inp) (Team actor) in
      try exp id (fun _ =>
      match validateParams (sr_Params inp) with
      | Some err => Ret (Err err)
      | None =>
          do! now := ask Now in
          do! rid := ask NewID in
          do! created := transact (CreateRun {|
            r_ID := rid; r_ExperimentID := sr_ExperimentID inp; r_DisplayName := TrimSpace (sr_DisplayName inp); r_Status := RunStatusRunning;
            r_Source := RunSourceAPI; r_ModelVersionID := TrimSpace (sr_ModelVersionID inp); r_OwnerID := UserID actor; r_Params := sr_Params inp;
            r_FinalMetrics := []; r_StartedAt := now; r_EndedAt := None; r_Artifacts := None |}) in
          try created (Wrap "create run") (fun created =>
          do! recorded := idem_Record opStartRun (sr_IdempotencyKey inp) (r_ID created) created in
          try recorded id (fun created =>
          do! _ := publishRunCreated created in
          Ret (Ok created)))
      end)
  end).

(** The loop over the pages of the history, from a token and the points read so far. *)
Fixpoint drain_history (fuel : nat) (runID pageToken : string) (all : list MetricPoint) : call (answer (list MetricPoint)) :=
  match fuel with
  | O => Ret (Ok all)
  | S fuel =>
      do! listed := query (fun _ d => GetMetricHistory {|
        q_RunID := runID; Keys := []; MinStep := 0; MaxStep := 0; HasMinStep := false; HasMaxStep := false;
        Pagination := {| PageSize := MaxMetricPageSize; PageToken := pageToken |} |} d) in
      try listed (Wrap "read metric history for finals") (fun '(points, next) =>
      let all := all ++ points in
      if String.eqb next "" || String.eqb next pageToken then Ret (Ok all) else drain_history fuel runID next all)
  end.

Definition computeFinalsFromHistory (runID : string) : call (answer (list MetricPoint)) :=
  do! all := drain_history maxPages runID "" [] in
  try all id (fun all => Ret (Ok (ComputeFinalMetrics all))).

Definition FinishRun (actor : Actor) (inp : FinishRunInput) : call (answer Run) :=
  do! run := loadRunForTeam (fr_RunID inp) (Team actor) in
  try run id (fun run =>
  if negb (CanTransitionTo (r_Status run) (TargetStatus inp)) then Ret (Err (wrap ErrInvalidStatusTransition "transition"))
  else
    do! finals := computeFinalsFromHistory (r_ID run) in
    try finals id (fun finals =>
    do! now := ask Now in
    do! updated := UpdateRunStatus (r_ID run) (TargetStatus inp) now finals in
    try updated (Wrap "update run status") (fun updated =>
    do! _ := publishRunFinished updated in
    Ret (Ok updated)))).

Definition GetRun (actor : Actor) (rid : string) : call (answer Run) := loadRunForTeam rid (Team actor).

Definition svc_ListRuns (actor : Actor) (experimentID : string) (statusFilter : RunStatus) (opts : ListOptions) : call (answer (list Run * string)) :=
  let opts := {| PageSize := clampPageSize (PageSize opts) DefaultPageSize MaxPageSize; PageToken := PageToken opts |} in
  if String.eqb experimentID "" then query (fun _ d => ListRunsByTeam (Team actor) statusFilter opts d)
  else
    do! exp := fetchExperimentForTeam experimentID (Team actor) in
    try exp id (fun _ => query (fun _ d => ListRuns experimentID statusFilter opts d)).

Definition svc_DeleteRun (actor : Actor) (runID idempotencyKey : string) : call (answer unit) :=
  do! found := idem_Lookup opDeleteRun idempotencyKey in
  try found id (fun found =>
  match found with
  | Some _ => Ret (Ok tt)
  | None =>
      do! run := loadRunForTeam runID (Team actor) in
      try run id (fun run =>
      do! deleted := transact (DeleteRun (r_ID run)) in
      try deleted (fun e => if is_repo ErrRepoNotFound e then Sentinel ErrRunNotFound else Wrap "delete run" e) (fun _ =>
      idem_Record opDeleteRun idempotencyKey (r_ID run) tt))
  end).

(** ** Metrics, parameters, artifacts *)

(** The loop over the points: the first that has no key or is not a number. *)
Fixpoint check_points (points : list MetricPoint) : option track_error :=
  match points with
  | [] => None
  | p :: points =>
      if String.eqb (TrimSpace (m_Key p)) "" then Some (wrap ErrValidation "metric point has empty key")
      else if non_finite (m_Value p) then Some (wrap ErrValidation "metric has non-finite value")
      else check_points points
  end.

Definition LogMetrics (actor : Actor) (inp : LogMetricsInput) : call (answer Z) :=
  do! found := idem_Lookup opLogMetrics (lm_IdempotencyKey inp) in
  try found id (fun found =>
  match found with
  | Some _ => Ret (Ok 0)
  | None =>
      if MaxMetricsPerBatch <? Z.of_nat (length (Points inp)) then Ret (Err (wrap ErrBatchTooLarge "points"))
      else if bool_decide (Points inp = []) then Ret (Err (wrap ErrValidation "batch is empty"))
      else
        do! run := loadRunForTeam (lm_RunID inp) (Team actor) in
        try run id (fun run =>
        if negb (bool_decide (r_Status run = RunStatusRunning)) then Ret (Err (wrap ErrRunNotRunning "run"))
        else
          match check_points (Points inp) with
          | Some err => Ret (Err err)
          | None =>
              do! now := ask Now in
              do! written := transact (AppendMetrics (r_ID run) (StampMetricTimestamps (DedupMetricPoints (Points inp)) now)) in
              try written (Wrap "append metrics") (fun written => idem_Record opLogMetrics (lm_IdempotencyKey inp) (r_ID run) written)
          end)
  end).

(** The loop over the parameters against those that are there. *)
Fixpoint fresh_params (have : gmap string string) (params : list Param) : answer (list Param) :=
  match params with
  | [] => Ok []
  | p :: params =>
      match have !! p_Key p with
      | Some cur => if negb (String.eqb cur (p_Value p)) then Err (wrap ErrParamConflict "key") else fresh_params have params
      | None => let! l := fresh_params (<[p_Key p := p_Value p]> have) params in Ok (p :: l)
      end
  end.

Definition LogParams (actor : Actor) (inp : LogParamsInput) : call (answer Z) :=
  if bool_decide (Params inp = []) then Ret (Err (wrap ErrValidation "no params provided"))
  else if MaxParamsPerCall <? Z.of_nat (length (Params inp)) then Ret (Err (wrap ErrValidation "too many params"))
  else
    match validateParams (Params inp) with
    | Some err => Ret (Err err)
    | None =>
        do! run := loadRunForTeam (lp_RunID inp) (Team actor) in
        try run id (fun run =>
        if negb (bool_decide (r_Status run = RunStatusRunning)) then Ret (Err (wrap ErrRunNotRunning "run"))
        else
          do! existing := query (fun _ d => loadParams (r_ID run) d) in
          try existing (Wrap "read existing params") (fun existing =>
          match fresh_params (list_to_map (map (fun p => (p_Key p, p_Value p)) (rev existing))) (Params inp) with
          | Err e => Ret (Err e)
          | Ok [] => Ret (Ok 0)
          | Ok toWrite =>
              do! written := transact (AppendParams (r_ID run) toWrite) in
              try written (Wrap "append params") (fun written => Ret (Ok written))
          end))
    end.

Definition validateArtifactsSize (arts : artifacts) : option track_error :=
  if bool_decide (length arts = 0%nat) then None
  else
    match json_size arts with
    | None => Some (wrap ErrValidation "artifacts are not JSON-serializable")
    | Some n => if MaxArtifactsBytes <? n then Some (wrap ErrValidation "artifacts serialize to too many bytes") else None
    end.

Definition SetRunArtifacts (actor : Actor) (inp : SetArtifactsInput) : call (answer Run) :=
  do! found := idem_Lookup opSetRunArtifacts (sa_IdempotencyKey inp) in
  try found id (fun found =>
  match found with
  | Some runID => repo_GetRun runID
  | None =>
      do! run := loadRunForTeam (sa_RunID inp) (Team actor) in
      try run id (fun run =>
      match validateArtifactsSize (sa_Artifacts inp) with
      | Some err => Ret (Err err)
      | None =>
          do! updated := SetArtifacts (r_ID run) (Some (sa_Artifacts inp)) in
          try updated (Wrap "set artifacts") (fun updated => idem_Record opSetRunArtifacts (sa_IdempotencyKey inp) (r_ID run) updated)
      end)
  end).

(** ** Analysis *)

Definition svc_GetMetricHistory (actor : Actor) (inp : GetMetricHistoryInput) : call (answer (list MetricSeries * string)) :=
  do! run := loadRunForTeam (gm_RunID inp) (Team actor) in
  try run id (fun run =>
  do! listed := query (fun _ d => GetMetricHistory {|
    q_RunID := r_ID run; Keys := MetricKeys inp; MinStep := gm_MinStep inp; MaxStep := gm_MaxStep inp; HasMinStep := gm_HasMinStep inp;
    HasMaxStep := gm_HasMaxStep inp;
    Pagination := {| PageSize := clampPageSize (PageSize (gm_Pagination inp)) DefaultMetricPageSize MaxMetricPageSize; PageToken := PageToken (gm_Pagination inp) |} |} d) in
  try listed (Wrap "get metric history") (fun '(points, next) => Ret (Ok (GroupIntoSeries points, next)))).

(** The query of [CompareRuns] names no page size. *)
Definition compare_query (runID : string) (keys : list string) : MetricHistoryQuery := {|
  q_RunID := runID; Keys := keys; MinStep := 0; MaxStep := 0; HasMinStep := false; HasMaxStep := false; Pagination := {| PageSize := 0; PageToken := "" |} |}.

Fixpoint compare_each (team : string) (keys : list string) (ids : list string) : call (answer (list RunComparison)) :=
  match ids with
  | [] => Ret (Ok [])
  | rid :: ids =>
      do! run := loadRunForTeam rid team in
      match run with
      | Err e => if is_repo ErrRunNotFound e then compare_each team keys ids else Ret (Err e)
      | Ok run =>
          do! listed := query (fun _ d => GetMetricHistory (compare_query (r_ID run) keys) d) in
          try listed (Wrap "compare: history for run") (fun '(points, _) =>
          do! rest := compare_each team keys ids in
          try rest id (fun rest => Ret (Ok ({| rc_Run := run; Series := GroupIntoSeries points |} :: rest))))
      end
  end.

Definition CompareRuns (actor : Actor) (inp : CompareRunsInput) : call (answer (list RunComparison)) :=
  if bool_decide (RunIDs inp = []) then Ret (Err (wrap ErrValidation "no run ids provided"))
  else if MaxCompareRuns <? Z.of_nat (length (RunIDs inp)) then Ret (Err (wrap ErrTooManyRuns "runs"))
  else compare_each (Team actor) (cr_MetricKeys inp) (RunIDs inp).
End service.

(** ** The handler *)

Definition scopeRead : string := "experiments:read".
Definition scopeWrite : string := "experiments:write".
Definition roleAdmin : string := "admin".
Definition h_defaultPageSize : Z := 20.
Definition h_maxPageSize : Z := 100.
Definition h_defaultMetricPageSize : Z := 1000.
Definition h_maxMetricPageSize : Z := 5000.
Definition h_maxCompareRuns : Z := 20.

(** The status text of a validation error is the error's, without its formatted arguments. *)
Definition sentinel_text (s : track_sentinel) : string :=
  match s with
  | ErrValidation => "experiment: validation failed"
  | ErrExperimentNotFound => "experiment: experiment not found"
  | ErrRunNotFound => "experiment: run not found"
  | ErrExperimentNameExists => "experiment: experiment name already exists in team"
  | ErrRunNotRunning => "experiment: run is not RUNNING (its metrics are final)"
  | ErrInvalidStatusTransition => "experiment: invalid run status transition"
  | ErrParamConflict => "experiment: param already set with a different value"
  | ErrBatchTooLarge => "experiment: metric batch exceeds the per-call cap"
  | ErrTooManyRuns => "experiment: too many runs requested for comparison"
  | ErrRepoNotFound => "repository: not found"
  | ErrRepoConflict => "repository: unique constraint violation"
  end.

Fixpoint error_string (e : track_error) : string :=
  match e with
  | Sentinel s => sentinel_text s
  | External text => text
  | Wrap msg (Sentinel ErrValidation) => sentinel_text ErrValidation +:+ ": " +:+ msg
  | Wrap text e => text +:+ ": " +:+ error_string e
  end.

Definition toStatusError (err : track_error) : rpc_error :=
  if errors_is err ErrValidation then Status InvalidArgument (error_string err)
  else if errors_is err ErrBatchTooLarge then Status InvalidArgument "metric batch exceeds the per-call cap"
  else if errors_is err ErrTooManyRuns then Status InvalidArgument "too many runs requested for comparison"
  else if errors_is err ErrExperimentNameExists then Status AlreadyExists "an experiment with that name already exists in your team"
  else if errors_is err ErrExperimentNotFound then Status NotFound "experiment not found"
  else if errors_is err ErrRunNotFound then Status NotFound "run not found"
  else if errors_is err ErrRunNotRunning then Status FailedPrecondition "run is not RUNNING; its metrics are final"
  else if errors_is err ErrInvalidStatusTransition then Status FailedPrecondition "invalid run status transition"
  else if errors_is err ErrParamConflict then Status FailedPrecondition "param already set with a different value"
  else Status Internal "internal error".

Definition actorFromContext (claims : option Claims) : result (Actor * Claims) rpc_error :=
  match claims with
  | None => Err (Status Unauthenticated "missing authentication")
  | Some c =>
      if String.eqb (c_UserID c) "" then Err (Status Unauthenticated "missing authentication")
      else if String.eqb (c_Team c) "" then Err (Status Unauthenticated "authenticated caller has no team")
      else Ok ({| UserID := c_UserID c; Team := c_Team c |}, c)
  end.

Definition hasScope (c : Claims) (scope : string) : bool := existsb (fun s => String.eqb s scope) (c_Scopes c).
Definition hasAdminRole (c : Claims) : bool := String.eqb (c_Role c) roleAdmin.

Definition requireScope (c : Claims) (accepted : list string) : option rpc_error :=
  if hasAdminRole c then None
  else if existsb (hasScope c) accepted then None
  else Some (Status PermissionDenied "caller lacks required scope").
Definition requireWriteScope (c : Claims) : option rpc_error := requireScope c [scopeWrite].
Definition requireReadScope (c : Claims) : option rpc_error := requireScope c [scopeRead; scopeWrite].

(** A request's pagination: none, or a page size and a token. *)
Definition listOptionsFromProto (p : option (Z * string)) (def max : Z) : option ListOptions :=
  match p with
  | None => Some {| PageSize := def; PageToken := "" |}
  | Some (size, token) =>
      if size <? 0 then None
      else Some {| PageSize := if size =? 0 then def else if max <? size then max else size; PageToken := token |}
  end.

Definition runStatusFromProto (s : Z) : RunStatus :=
  if s =? 1 then RunStatusRunning else if s =? 2 then RunStatusFinished else if s =? 3 then RunStatusFailed else if s =? 4 then RunStatusKilled
  else RunStatusUnspecified.

Definition maxInt32 : Z := 2 ^ 31 - 1.
Definition clampInt32 (n : Z) : Z := if n <? 0 then 0 else if maxInt32 <? n then maxInt32 else n.

Inductive track_request :=
| ReqCreateExperiment (inp : CreateExperimentInput)
| ReqGetExperiment (eid : string)
| ReqListExperiments (include_archived : bool) (pagination : option (Z * string))
| ReqUpdateExperiment (inp : UpdateExperimentInput)
| ReqArchiveExperiment (eid : string)
| ReqStartRun (inp : StartRunInput)
| ReqUpdateRunStatus (run_id : string) (status : Z)
| ReqGetRun (rid : string)
| ReqListRuns (experiment_id : string) (status_filter : Z) (pagination : option (Z * string))
| ReqDeleteRun (run_id idempotency_key : string)
| ReqLogMetrics (run_id : string) (points : list (string * Z * Z)) (idempotency_key : string)
| ReqLogParams (run_id : string) (params : list Param)
| ReqSetRunArtifacts (run_id : string) (arts : option artifacts) (idempotency_key : string)
| ReqGetMetricHistory (run_id : string) (metric_keys : list string) (min_step max_step : Z) (pagination : option (Z * string))
| ReqCompareRuns (run_ids metric_keys : list string).

Inductive track_response :=
| RespExperiment (e : Experiment)
| RespExperiments (l : list Experiment) (next : string)
| RespRun (r : Run)
| RespRuns (l : list Run) (next : string)
| RespDeleted
| RespAccepted (count : Z)
| RespHistory (l : list MetricSeries) (next : string)
| RespComparisons (l : list RunComparison).

(** Reads ask for the read scope, the others for the write scope. *)
Definition reads (req : track_request) : bool :=
  match req with
  | ReqGetExperiment _ | ReqListExperiments _ _ | ReqGetRun _ | ReqListRuns _ _ _ | ReqGetMetricHistory _ _ _ _ _ | ReqCompareRuns _ _ => true
  | _ => false
  end.

(** The points of a request: key, value and step; the first that has no key or is not a
    number refuses the batch. *)
Fixpoint points_from_proto (points : list (string * Z * Z)) : result (list MetricPoint) string :=
  match points with
  | [] => Ok []
  | (key, value, step) :: points =>
      if String.eqb key "" then Err "every metric point must have a key"
      else if non_finite value then Err "metric value must be a finite number (no NaN/Inf)"
      else let! l := points_from_proto points in Ok ({| m_Key := key; m_Value := value; m_Step := step; m_Timestamp := 0 |} :: l)
  end.

Section handler.
Context {W : Type} `{Outside W, TrackOutside W, TrackText}.

Abbreviation call := (prog (site W track_db)).
Abbreviation reply := (call (result track_response rpc_error)).

Definition invalid (msg : string) : reply := Ret (Err (Status InvalidArgument msg)).
Definition answering {A} (m : call (result A track_error)) (f : A -> track_response) : reply :=
  do! r := m in Ret (match r with Ok a => Ok (f a) | Err e => Err (toStatusError e) end).

Definition h_CreateExperiment (actor : Actor) (inp : CreateExperimentInput) : reply :=
  if String.eqb (ce_Name inp) "" then invalid "name is required" else answering (CreateExperiment actor inp) RespExperiment.

Definition h_GetExperiment (actor : Actor) (eid : string) : reply :=
  if String.eqb eid "" then invalid "id is required" else answering (GetExperiment actor eid) RespExperiment.

Definition h_ListExperiments (actor : Actor) (include_archived : bool) (pagination : option (Z * string)) : reply :=
  match listOptionsFromProto pagination h_defaultPageSize h_maxPageSize with
  | None => invalid "page_size must not be negative"
  | Some opts => answering (ListExperiments actor include_archived opts) (fun '(l, next) => RespExperiments l next)
  end.

Definition h_UpdateExperiment (actor : Actor) (inp : UpdateExperimentInput) : reply :=
  if String.eqb (ue_ID inp) "" then invalid "id is required"
  else if bool_decide (UpdateFields inp = []) then invalid "update_fields must list at least one field to update"
  else answering (UpdateExperiment actor inp) RespExperiment.

Definition h_ArchiveExperiment (actor : Actor) (eid : string) : reply :=
  if String.eqb eid "" then invalid "id is required" else answering (ArchiveExperiment actor eid) RespExperiment.

Definition h_StartRun (actor : Actor) (inp : StartRunInput) : reply :=
  if String.eqb (sr_ExperimentID inp) "" then invalid "experiment_id is required" else answering (StartRun actor inp) RespRun.

Definition h_UpdateRunStatus (actor : Actor) (run_id : string) (status : Z) : reply :=
  if String.eqb run_id "" then invalid "run_id is required"
  else
    let target := runStatusFromProto status in
    if bool_decide (target = RunStatusUnspecified) then invalid "status is required and must be a terminal state"
    else answering (FinishRun actor {| fr_RunID := run_id; TargetStatus := target |}) RespRun.

Definition h_GetRun (actor : Actor) (rid : string) : reply :=
  if String.eqb rid "" then invalid "id is required" else answering (GetRun actor rid) RespRun.

Definition h_ListRuns (actor : Actor) (experiment_id : string) (status_filter : Z) (pagination : option (Z * string)) : reply :=
  match listOptionsFromProto pagination h_defaultPageSize h_maxPageSize with
  | None => invalid "page_size must not be negative"
  | Some opts => answering (svc_ListRuns actor experiment_id (runStatusFromProto status_filter) opts) (fun '(l, next) => RespRuns l next)
  end.

Definition h_DeleteRun (actor : Actor) (run_id key : string) : reply :=
  if String.eqb run_id "" then invalid "run_id is required" else answering (svc_DeleteRun actor run_id key) (fun _ => RespDeleted).

Definition h_LogMetrics (actor : Actor) (run_id : string) (points : list (string * Z * Z)) (key : string) : reply :=
  if String.eqb run_id "" then invalid "run_id is required"
  else if bool_decide (points = []) then invalid "points must contain at least one metric point"
  else
    match points_from_proto points with
    | Err msg => invalid msg
    | Ok points => answering (LogMetrics actor {| lm_RunID := run_id; Points := points; lm_IdempotencyKey := key |}) (fun n => RespAccepted (clampInt32 n))
    end.

Definition h_LogParams (actor : Actor) (run_id : string) (params : list Param) : reply :=
  if String.eqb run_id "" then invalid "run_id is required"
  else if bool_decide (params = []) then invalid "params must contain at least one param"
  else if existsb (fun p => String.eqb (p_Key p) "") params then invalid "every param must have a key"
  else answering (LogParams actor {| lp_RunID := run_id; Params := params |}) (fun n => RespAccepted (clampInt32 n)).

Definition h_SetRunArtifacts (actor : Actor) (run_id : string) (arts : option artifacts) (key : string) : reply :=
  if String.eqb run_id "" then invalid "run_id is required"
  else
    match arts with
    | None => invalid "artifacts is required"
    | Some arts => answering (SetRunArtifacts actor {| sa_RunID := run_id; sa_Artifacts := arts; sa_IdempotencyKey := key |}) RespRun
    end.

Definition h_GetMetricHistory (actor : Actor) (run_id : string) (metric_keys : list string) (min_step max_step : Z) (pagination : option (Z * string)) : reply :=
  if String.eqb run_id "" then invalid "run_id is required"
  else
    let hasWindow := negb (min_step =? 0) || negb (max_step =? 0) in
    if hasWindow && (max_step <? min_step) then invalid "min_step must not exceed max_step"
    else
      match listOptionsFromProto pagination h_defaultMetricPageSize h_maxMetricPageSize with
      | None => invalid "page_size must not be negative"
      | Some opts =>
          answering (svc_GetMetricHistory actor {|
            gm_RunID := run_id; MetricKeys := metric_keys; gm_MinStep := min_step; gm_MaxStep := max_step; gm_HasMinStep := hasWindow;
            gm_HasMaxStep := hasWindow; gm_Pagination := opts |}) (fun '(l, next) => RespHistory l next)
      end.

Definition h_CompareRuns (actor : Actor) (run_ids metric_keys : list string) : reply :=
  if bool_decide (run_ids = []) then invalid "run_ids must contain at least one run"
  else if h_maxCompareRuns <? Z.of_nat (length run_ids) then invalid "too many runs requested for comparison"
  else answering (CompareRuns actor {| RunIDs := run_ids; cr_MetricKeys := metric_keys |}) RespComparisons.

Definition serve (actor : Actor) (req : track_request) : reply :=
  match req with
  | ReqCreateExperiment inp => h_CreateExperiment actor inp
  | ReqGetExperiment eid => h_GetExperiment actor eid
  | ReqListExperiments include_archived pagination => h_ListExperiments actor include_archived pagination
  | ReqUpdateExperiment inp => h_UpdateExperiment actor inp
  | ReqArchiveExperiment eid => h_ArchiveExperiment actor eid
  | ReqStartRun inp => h_StartRun actor inp
  | ReqUpdateRunStatus run_id status => h_UpdateRunStatus actor run_id status
  | ReqGetRun rid => h_GetRun actor rid
  | ReqListRuns experiment_id status_filter pagination => h_ListRuns actor experiment_id status_filter pagination
  | ReqDeleteRun run_id key => h_DeleteRun actor run_id key
  | ReqLogMetrics run_id points key => h_LogMetrics actor run_id points key
  | ReqLogParams run_id params => h_LogParams actor run_id params
  | ReqSetRunArtifacts run_id arts key => h_SetRunArtifacts actor run_id arts key
  | ReqGetMetricHistory run_id metric_keys min_step max_step pagination => h_GetMetricHistory actor run_id metric_keys min_step max_step pagination
  | ReqCompareRuns run_ids metric_keys => h_CompareRuns actor run_ids metric_keys
  end.

Definition rpc (claims : option Claims) (req : track_request) : reply :=
  match actorFromContext claims with
  | Err e => Ret (Err e)
  | Ok (actor, c) =>
      match (if reads req then requireReadScope c else requireWriteScope c) with
      | Some e => Ret (Err e)
      | None => serve actor req
      end
  end.
End handler.
