(* ===== verification/TrackTables.v ===== *)
(** * Experiments: what the tables keep

    The writes that the calls of any teams make, one by one: the facts about the tables that
    each keeps, how a run may change, and whose rows do. *)

From S2P Require Import Prelude Site Keyset TrackModel TrackStore Track.
Open Scope fp_scope.

Section writes.
Context `{TrackText}.

(** The teams whose calls are served. *)
Variable caller : string -> Prop.

(** A run was once inserted into an experiment of a calling team. *)
Definition run_of_caller (d : track_db) (runID : string) : Prop :=
  exists eid e, (runID, eid) ∈ born d /\ experiments d !! eid = Some e /\ caller (e_Team e).

Inductive track_write : track_db -> track_db -> Prop :=
| WriteExperiment exp d e d' : caller (e_Team exp) -> Create exp d = (Ok e, d') -> track_write d d'
| WriteUpdate exp d e d' : (forall old, experiments d !! e_ID exp = Some old -> caller (e_Team old)) -> Update exp d = (Ok e, d') -> track_write d d'
| WriteRun run d r d' : (forall e, experiments d !! r_ExperimentID run = Some e -> caller (e_Team e)) -> r_Status run = RunStatusRunning -> r_EndedAt run = None ->
    CreateRun run d = (Ok r, d') -> track_write d d'
| WriteStatus runID status endedAt finals d r d' : run_of_caller d runID -> IsTerminal status = true ->
    update_status runID status endedAt finals d = (Ok r, d') -> track_write d d'
| WriteDelete runID d d' : run_of_caller d runID -> DeleteRun runID d = (Ok tt, d') -> track_write d d'
| WriteMetrics runID points d n d' : run_of_caller d runID -> AppendMetrics runID points d = (Ok n, d') -> track_write d d'
| WriteParams runID params d n d' : run_of_caller d runID -> AppendParams runID params d = (Ok n, d') -> track_write d d'
| WriteArtifacts runID m d r d' : run_of_caller d runID -> set_artifacts runID m "" "" d = (Ok r, d') -> track_write d d'
| WriteKey op key runID d : run_of_caller d runID -> track_write d (record_key op key runID d)
| WritePublished ev d : track_write d (with_published ev d).

Definition track_regime : regime track_db := {| write := track_write; Site.keeps := rtc track_write; write_keeps l l' Hw := rtc_once l l' Hw |}.

(** ** What the tables always say *)

Record good (d : track_db) : Prop := {
  experiments_keyed : map_Forall (fun eid e => e_ID e = eid) (experiments d);
  names_unique : forall i j e f, experiments d !! i = Some e -> experiments d !! j = Some f -> e_Team e = e_Team f -> e_Name e = e_Name f ->
    ArchivedAt e = None -> ArchivedAt f = None -> i = j;
  runs_keyed : map_Forall (fun rid row => r_ID (row_run row) = rid /\ (rid, r_ExperimentID (row_run row)) ∈ born d /\ run_checks (row_run row) = true /\
    (r_Status (row_run row) = RunStatusRunning <-> r_EndedAt (row_run row) = None)) (runs d);
  params_apart : map_Forall (fun _ row => r_Params (row_run row) = []) (runs d);
  born_placed : Forall (fun x => is_Some (experiments d !! x.2)) (born d);
  params_owned : map_Forall (fun k _ => is_Some (runs d !! k.1)) (run_params d);
  metrics_owned : map_Forall (fun k _ => is_Some (runs d !! k.1)) (run_metrics d);
}.

(** Ids of runs are drawn once. *)
Definition plausible (d : track_db) : Prop := NoDup (map fst (born d)).

Lemma born_once d rid eid eid' : plausible d -> (rid, eid) ∈ born d -> (rid, eid') ∈ born d -> eid = eid'.
Proof.
  intros Hp [i Hi]%list_elem_of_lookup [j Hj]%list_elem_of_lookup. assert (i = j) as ->; [| congruence].
  apply (NoDup_lookup _ _ _ rid Hp); rewrite list_lookup_fmap; [by rewrite Hi | by rewrite Hj].
Qed.

(** How a row of an experiment, and of a run, may change. *)
Definition experiment_kept (e e' : Experiment) : Prop :=
  e_ID e' = e_ID e /\ e_OwnerID e' = e_OwnerID e /\ e_Team e' = e_Team e /\ e_CreatedAt e' = e_CreatedAt e.

Definition run_kept (r r' : Run) : Prop :=
  r_ID r' = r_ID r /\ r_ExperimentID r' = r_ExperimentID r /\ r_DisplayName r' = r_DisplayName r /\ r_Source r' = r_Source r /\
  r_ModelVersionID r' = r_ModelVersionID r /\ r_OwnerID r' = r_OwnerID r /\ r_StartedAt r' = r_StartedAt r /\
  (r_Status r' = r_Status r /\ r_EndedAt r' = r_EndedAt r /\ r_FinalMetrics r' = r_FinalMetrics r \/ IsTerminal (r_Status r') = true).

#[export] Instance experiment_kept_preorder : PreOrder experiment_kept.
Proof. split; [done |]. unfold experiment_kept. intros x y z (? & ? & ? & ?) (? & ? & ? & ?). repeat split; congruence. Qed.

#[export] Instance run_kept_preorder : PreOrder run_kept.
Proof.
  split.
  - intros x. unfold run_kept. repeat split. by left.
  - unfold run_kept. intros x y z (? & ? & ? & ? & ? & ? & ? & Hxy) (? & ? & ? & ? & ? & ? & ? & Hyz). repeat (split; [congruence |]).
    destruct Hyz as [(E1 & E2 & E3) | Ht]; [| by right]. destruct Hxy as [(F1 & F2 & F3) | Ht]; [left; repeat split; congruence | right; congruence].
Qed.

(** What later tables keep of earlier ones; runs only while their ids are drawn once. *)
Record kept (d d' : track_db) : Prop := {
  experiments_stay : forall eid e, experiments d !! eid = Some e -> exists e', experiments d' !! eid = Some e' /\ experiment_kept e e';
  born_grows : exists added, born d' = born d ++ added;
  runs_stay : plausible d' -> forall rid row', runs d' !! rid = Some row' -> rid ∈ map fst (born d) ->
    exists row, runs d !! rid = Some row /\ run_kept (row_run row) (row_run row');
  params_stay : plausible d' -> forall rid, rid ∈ map fst (born d) -> is_Some (runs d' !! rid) -> forall key v, run_params d !! (rid, key) = Some v -> run_params d' !! (rid, key) = Some v;
  metrics_stay : plausible d' -> forall rid, rid ∈ map fst (born d) -> is_Some (runs d' !! rid) -> forall key v, run_metrics d !! (rid, key) = Some v -> run_metrics d' !! (rid, key) = Some v;
  keys_stay : forall k v, idempotency_keys d !! k = Some v -> idempotency_keys d' !! k = Some v;
}.

#[export] Instance kept_refl : Reflexive kept.
Proof.
  intros d. split; try done.
  - intros eid e He. by exists e.
  - exists []. by rewrite app_nil_r.
  - intros _ rid row Hr _. by exists row.
Qed.

Lemma born_prefix d d' : kept d d' -> plausible d' -> plausible d.
Proof. intros Hk. destruct (born_grows _ _ Hk) as [added E]. unfold plausible. rewrite E, map_app. by intros [? _]%list.NoDup_app. Qed.

#[export] Instance kept_trans : Transitive kept.
Proof.
  intros d1 d2 d3 K12 K23. assert (forall rid, rid ∈ map fst (born d1) -> rid ∈ map fst (born d2)) as Hb.
  { intros rid Hr. destruct (born_grows _ _ K12) as [added ->]. rewrite map_app. apply elem_of_app. by left. }
  assert (plausible d3 -> forall rid, rid ∈ map fst (born d1) -> is_Some (runs d3 !! rid) -> is_Some (runs d2 !! rid)) as Hr.
  { intros Hp rid Hrb [row Hrow]. destruct (runs_stay _ _ K23 Hp rid row Hrow (Hb rid Hrb)) as (row' & -> & _). by eexists. }
  split.
  - intros eid e He. destruct (experiments_stay _ _ K12 eid e He) as (e' & He' & Hk). destruct (experiments_stay _ _ K23 eid e' He') as (e'' & He'' & Hk').
    exists e''. split; [done | by etrans].
  - destruct (born_grows _ _ K12) as [a E1], (born_grows _ _ K23) as [b E2]. exists (a ++ b). by rewrite E2, E1, app_assoc.
  - intros Hp rid row'' Hr'' Hrb. destruct (runs_stay _ _ K23 Hp rid row'' Hr'' (Hb rid Hrb)) as (row' & Hr' & Hk').
    destruct (runs_stay _ _ K12 (born_prefix _ _ K23 Hp) rid row' Hr' Hrb) as (row & Hrow & Hk). exists row. split; [done | by etrans].
  - intros Hp rid Hrb Hs key v Hv. apply (params_stay _ _ K23 Hp rid (Hb rid Hrb) Hs). apply (params_stay _ _ K12 (born_prefix _ _ K23 Hp) rid Hrb); [by apply Hr | done].
  - intros Hp rid Hrb Hs key v Hv. apply (metrics_stay _ _ K23 Hp rid (Hb rid Hrb) Hs). apply (metrics_stay _ _ K12 (born_prefix _ _ K23 Hp) rid Hrb); [by apply Hr | done].
  - intros k v Hk. by apply (keys_stay _ _ K23), (keys_stay _ _ K12).
Qed.

(** Steps that leave the runs and their rows alone keep them. *)
Lemma kept_same d d' : (forall eid e, experiments d !! eid = Some e -> exists e', experiments d' !! eid = Some e' /\ experiment_kept e e') ->
  born d' = born d -> runs d' = runs d -> run_params d' = run_params d -> run_metrics d' = run_metrics d ->
  (forall k v, idempotency_keys d !! k = Some v -> idempotency_keys d' !! k = Some v) -> kept d d'.
Proof.
  intros He Eb Er Ep Em Hk. split; [exact He | exists []; by rewrite app_nil_r | | | | exact Hk].
  - intros _ rid row'. rewrite Er. intros Hr _. by exists row'.
  - intros _ rid _ _ key v. by rewrite Ep.
  - intros _ rid _ _ key v. by rewrite Em.
Qed.

Lemma name_taken_false eid e l : name_taken eid e l = false -> ArchivedAt e = None ->
  forall j f, l !! j = Some f -> j <> eid -> e_Team f = e_Team e -> e_Name f = e_Name e -> ArchivedAt f = None -> False.
Proof.
  unfold name_taken. intros Hn Ha j f Hf Hne Ht Hname Hfa. rewrite (bool_decide_eq_true_2 _ Ha) in Hn. cbn [andb] in Hn.
  apply not_true_iff_false in Hn. apply Hn, existsb_exists. exists (j, f). split; [by apply list_elem_of_In, elem_of_map_to_list |]. cbn [fst snd].
  rewrite Ht, Hname, !String.eqb_refl, (bool_decide_eq_true_2 _ Hfa), (proj2 (String.eqb_neq _ _) Hne). done.
Qed.

Lemma Create_experiment_ok exp d e d' : Create exp d = (Ok e, d') ->
  exists tags, let row := experiment_row exp tags in
  e = exp /\ experiments d !! e_ID exp = None /\ name_taken (e_ID exp) row (experiments d) = false /\ d' = with_experiments (<[e_ID exp := row]> (experiments d)) d.
Proof.
  unfold Create. destruct (marshalTags _) as [tags|]; [| done]. destruct (_ || _) eqn:E; [done |]. intros [= <- <-]. apply orb_false_iff in E as [E1 E2].
  apply bool_decide_eq_false in E1. exists tags. split; [done |]. split; [by apply eq_None_not_Some |]. by split.
Qed.

Lemma Update_ok exp d e d' : Update exp d = (Ok e, d') ->
  exists tags old, let row := updated_row exp tags old in
  e = row /\ experiments d !! e_ID exp = Some old /\ name_taken (e_ID exp) row (experiments d) = false /\ d' = with_experiments (<[e_ID exp := row]> (experiments d)) d.
Proof.
  unfold Update. destruct (marshalTags _) as [tags|]; [| done]. destruct (experiments d !! _) as [old|] eqn:Eo; [| done].
  destruct (name_taken _ _ _) eqn:E; [done |]. intros [= <- <-]. by exists tags, old.
Qed.

Lemma names_unique_insert d eid row : (forall i j e f, experiments d !! i = Some e -> experiments d !! j = Some f -> e_Team e = e_Team f -> e_Name e = e_Name f ->
    ArchivedAt e = None -> ArchivedAt f = None -> i = j) -> name_taken eid row (experiments d) = false ->
  forall i j e f, <[eid := row]> (experiments d) !! i = Some e -> <[eid := row]> (experiments d) !! j = Some f -> e_Team e = e_Team f -> e_Name e = e_Name f ->
    ArchivedAt e = None -> ArchivedAt f = None -> i = j.
Proof.
  intros Hu Hn i j e f Hi Hj Ht Hname He Hf. apply lookup_insert_Some in Hi as [[<- <-] | [Hi' Hi]]; apply lookup_insert_Some in Hj as [[<- <-] | [Hj' Hj]]; try done.
  - exfalso. by apply (name_taken_false _ _ _ Hn He j f Hj).
  - exfalso. by apply (name_taken_false _ _ _ Hn Hf i e Hi).
  - by apply (Hu i j e f).
Qed.

Lemma CreateRun_ok run d r d' : CreateRun run d = (Ok r, d') ->
  exists finals arts, r = run /\ run_checks run = true /\ runs d !! r_ID run = None /\ is_Some (experiments d !! r_ExperimentID run) /\
    d' = {| experiments := experiments d; runs := <[r_ID run := {| row_run := stored_run run finals arts; row_idem := None |}]> (runs d);
            run_params := (insert_params (r_ID run) (r_Params run) (run_params d)).2; run_metrics := run_metrics d; idempotency_keys := idempotency_keys d;
            born := born d ++ [(r_ID run, r_ExperimentID run)]; published := published d |}.
Proof.
  unfold CreateRun, CreateRunIdem. destruct (finals_column _) as [finals|]; [| done]. destruct (marshalArtifacts _) as [arts|]; [| done].
  destruct (run_checks run) eqn:Ec; cbn [negb]; [| done]. destruct (bool_decide_reflect (is_Some (runs d !! r_ID run))) as [|Hr]; [done |].
  cbn [String.eqb row_idem]. rewrite bool_decide_eq_true_2 by done. cbn [negb andb].
  destruct (bool_decide_reflect (experiments d !! r_ExperimentID run = None)) as [|He]; [done |]. intros [= <- <-].
  exists finals, arts. split; [done |]. split; [done |]. split; [by apply eq_None_not_Some |]. split; [by apply not_eq_None_Some | done].
Qed.

Lemma set_run_ok rid f d r d' : set_run rid f d = (Ok r, d') ->
  exists row, runs d !! rid = Some row /\ d' = with_runs (<[rid := {| row_run := f (row_run row); row_idem := row_idem row |}]> (runs d)) d.
Proof. unfold set_run. destruct (runs d !! rid) as [row|]; [| done]. intros [= <- <-]. by exists row. Qed.

Lemma update_status_ok rid status endedAt finals d r d' : update_status rid status endedAt finals d = (Ok r, d') ->
  exists fs row, runs d !! rid = Some row /\
    d' = with_runs (<[rid := {| row_run := ended_run status endedAt fs (row_run row); row_idem := row_idem row |}]> (runs d)) d.
Proof.
  unfold update_status. destruct (finals_column _) as [fs|]; [| done]. destruct (_ && _); [done |]. intros (row & ? & ?)%set_run_ok. by exists fs, row.
Qed.

Lemma set_artifacts_ok rid m d r d' : set_artifacts rid m "" "" d = (Ok r, d') ->
  exists arts row, runs d !! rid = Some row /\
    d' = with_runs (<[rid := {| row_run := with_artifacts arts (row_run row); row_idem := row_idem row |}]> (runs d)) d.
Proof.
  unfold set_artifacts. destruct (marshalArtifacts m) as [arts|]; [| done]. destruct (set_run _ _ _) as [[r0|e] d1] eqn:E; [| done]. cbn [recordIdempotencyKeyTx String.eqb].
  intros [= <- <-]. apply set_run_ok in E as (row & ? & ?). by exists arts, row.
Qed.

Lemma DeleteRun_ok rid d d' : DeleteRun rid d = (Ok tt, d') ->
  is_Some (runs d !! rid) /\
  d' = with_metrics (filter (fun kv => kv.1.1 <> rid) (run_metrics d)) (with_params (filter (fun kv => kv.1.1 <> rid) (run_params d)) (with_runs (delete rid (runs d)) d)).
Proof. unfold DeleteRun, DeleteRunIdem. destruct (runs d !! rid) eqn:E; [| done]. intros [= <-]. split; [by eexists | done]. Qed.

Lemma AppendMetrics_ok rid points d n d' : AppendMetrics rid points d = (Ok n, d') ->
  d' = d \/ is_Some (runs d !! rid) /\ d' = with_metrics (insert_metrics rid points (run_metrics d)).2 d.
Proof.
  unfold AppendMetrics, AppendMetricsIdem. destruct (bool_decide (points = [])); [intros [= _ <-]; by left |].
  destruct (bool_decide_reflect (runs d !! rid = None)) as [|Hr]; [done |]. destruct (insert_metrics _ _ _) as [m l] eqn:E. intros [= _ <-].
  right. split; [by apply not_eq_None_Some | done].
Qed.

Lemma AppendParams_ok rid params d n d' : AppendParams rid params d = (Ok n, d') ->
  d' = d \/ is_Some (runs d !! rid) /\ d' = with_params (insert_params rid params (run_params d)).2 d.
Proof.
  unfold AppendParams. destruct (bool_decide (params = [])); [intros [= _ <-]; by left |].
  destruct (bool_decide_reflect (runs d !! rid = None)) as [|Hr]; [done |]. destruct (insert_params _ _ _) as [m l] eqn:E. intros [= _ <-].
  right. split; [by apply not_eq_None_Some | done].
Qed.

Lemma insert_params_rows rid params l k v : (insert_params rid params l).2 !! k = Some v -> l !! k = Some v \/ k.1 = rid.
Proof. intros [? | [_ (p & [= -> ->] & _)%list_elem_of_fmap]]%insert_new_only; [by left | by right]. Qed.

Lemma insert_metrics_rows rid points l k v : (insert_metrics rid points l).2 !! k = Some v -> l !! k = Some v \/ k.1 = rid.
Proof. intros [? | [_ (p & [= -> ->] & _)%list_elem_of_fmap]]%insert_new_only; [by left | by right]. Qed.

Lemma insert_params_other rid params l k key : k <> rid -> (insert_params rid params l).2 !! (k, key) = l !! (k, key).
Proof. intros Hne. apply option_eq. intros v. split; [by intros [? | ?]%insert_params_rows | apply insert_new_keeps]. Qed.

Lemma insert_metrics_other rid points l k key : k <> rid -> (insert_metrics rid points l).2 !! (k, key) = l !! (k, key).
Proof. intros Hne. apply option_eq. intros v. split; [by intros [? | ?]%insert_metrics_rows | apply insert_new_keeps]. Qed.

(** ** Every write keeps them *)

(** A write to one row of [runs] that keeps what a run is. *)
Lemma good_set_run d rid row f : good d -> runs d !! rid = Some row ->
  r_ID (f (row_run row)) = r_ID (row_run row) -> r_ExperimentID (f (row_run row)) = r_ExperimentID (row_run row) -> run_checks (f (row_run row)) = true -> r_Params (f (row_run row)) = r_Params (row_run row) ->
  (r_Status (f (row_run row)) = RunStatusRunning <-> r_EndedAt (f (row_run row)) = None) ->
  good (with_runs (<[rid := {| row_run := f (row_run row); row_idem := row_idem row |}]> (runs d)) d).
Proof.
  intros Hg Hr H1 H2 H3 Hpa H4. pose proof (runs_keyed d Hg rid row Hr) as (R1 & R2 & _). pose proof (params_apart d Hg rid row Hr) as Hno.
  assert (forall k, is_Some (runs d !! k) -> is_Some (<[rid := {| row_run := f (row_run row); row_idem := row_idem row |}]> (runs d) !! k)) as Hs.
  { intros k Hk. destruct (decide (k = rid)) as [-> |]; [rewrite lookup_insert_eq; by eexists | by rewrite lookup_insert_ne]. }
  destruct Hg. split; cbn; try done.
  - apply map_Forall_insert_2; [| done]. cbn. rewrite H1, H2. by repeat split; try apply H4.
  - apply map_Forall_insert_2; [| done]. cbn. by rewrite Hpa.
  - intros k v Hk. apply Hs. by apply (params_owned0 k v).
  - intros k v Hk. apply Hs. by apply (metrics_owned0 k v).
Qed.

Lemma good_experiments d eid row : good d -> e_ID row = eid -> name_taken eid row (experiments d) = false ->
  good (with_experiments (<[eid := row]> (experiments d)) d).
Proof.
  intros [] He Hn. split; cbn; try done.
  - by apply map_Forall_insert_2.
  - by apply names_unique_insert.
  - eapply Forall_impl; [| exact born_placed0]. intros x Hx. cbn. destruct (decide (x.2 = eid)) as [-> |]; [rewrite lookup_insert_eq; by eexists | by rewrite lookup_insert_ne].
Qed.

Lemma good_create_run run d r d' : r_Status run = RunStatusRunning -> r_EndedAt run = None -> CreateRun run d = (Ok r, d') -> good d -> good d'.
Proof.
  intros Hs He (finals & arts & _ & Hc & Hno & Hexp & ->)%CreateRun_ok Hg.
  assert (forall k, is_Some (runs d !! k) -> is_Some (<[r_ID run := {| row_run := stored_run run finals arts; row_idem := None |}]> (runs d) !! k)) as Hstay.
  { intros k Hk. destruct (decide (k = r_ID run)) as [-> |]; [rewrite lookup_insert_eq; by eexists | by rewrite lookup_insert_ne]. }
  destruct Hg. split; cbn; try done.
  - apply map_Forall_insert_2.
    + cbn. split; [done |]. split; [apply elem_of_app; right; by left |]. split; [done |]. rewrite Hs, He. done.
    + intros rid row Hrow. destruct (runs_keyed0 rid row Hrow) as (? & ? & ? & ?). repeat (split; [done || (apply elem_of_app; by left) |]). done.
  - by apply map_Forall_insert_2.
  - apply list.Forall_app. split; [done |]. by repeat constructor.
  - intros k v [Hk | Hk]%insert_params_rows; [apply Hstay; by apply (params_owned0 k v) | rewrite Hk, lookup_insert_eq; by eexists].
  - intros k v Hk. apply Hstay. by apply (metrics_owned0 k v).
Qed.

Lemma good_delete rid d d' : DeleteRun rid d = (Ok tt, d') -> good d -> good d'.
Proof.
  intros [_ ->]%DeleteRun_ok []. split; cbn; try done.
  - by apply map_Forall_delete.
  - by apply map_Forall_delete.
  - intros k v [Hk Hne]%map_lookup_filter_Some. cbn in Hne. rewrite lookup_delete_ne by done. by apply (params_owned0 k v).
  - intros k v [Hk Hne]%map_lookup_filter_Some. cbn in Hne. rewrite lookup_delete_ne by done. by apply (metrics_owned0 k v).
Qed.

Lemma track_write_good d d' : track_write d d' -> good d -> good d'.
Proof.
  intros Hw Hg. destruct Hw as [exp d e d' _ Hc | exp d e d' _ Hu | run d r d' _ Hs He Hc | rid status t finals d r d' _ Ht Hu | rid d d' _ Hd
    | rid points d n d' _ Ha | rid params d n d' _ Ha | rid m d r d' _ Ha | op key rid d _ | ev d].
  - apply Create_experiment_ok in Hc as (tags & _ & _ & Hn & ->). by apply good_experiments.
  - apply Update_ok in Hu as (tags & old & _ & Ho & Hn & ->). apply good_experiments; [done | | done]. exact (experiments_keyed d Hg _ _ Ho).
  - by eapply good_create_run.
  - apply update_status_ok in Hu as (fs & row & Hr & ->). destruct (runs_keyed d Hg rid row Hr) as (_ & _ & Hc & _).
    apply (good_set_run d rid row (ended_run status t fs)); try done.
    + unfold run_checks in *. cbn. apply andb_true_iff in Hc as [_ ->]. by destruct status.
    + cbn. by destruct status.
  - by eapply good_delete.
  - apply AppendMetrics_ok in Ha as [-> | [Hr ->]]; [done |]. destruct Hg. split; cbn; try done.
    intros k v [Hk | Hk]%insert_metrics_rows; [by apply (metrics_owned0 k v) | by rewrite Hk].
  - apply AppendParams_ok in Ha as [-> | [Hr ->]]; [done |]. destruct Hg. split; cbn; try done.
    intros k v [Hk | Hk]%insert_params_rows; [by apply (params_owned0 k v) | by rewrite Hk].
  - apply set_artifacts_ok in Ha as (arts & row & Hr & ->). destruct (runs_keyed d Hg rid row Hr) as (_ & _ & Hc & He).
    by apply (good_set_run d rid row (with_artifacts arts)).
  - unfold record_key. destruct (idempotency_keys d !! _); [done |]. by destruct Hg.
  - by destruct Hg.
Qed.

Lemma track_grow_good d d' : rtc track_write d d' -> good d -> good d'.
Proof. induction 1 as [| d1 d2 d3 Hw _ IH]; [done |]. intros Hg. by apply IH, (track_write_good d1). Qed.

(** A write to one row of [runs] keeps the others and what a run is. *)
Lemma kept_set_run d rid row f : runs d !! rid = Some row -> run_kept (row_run row) (f (row_run row)) ->
  kept d (with_runs (<[rid := {| row_run := f (row_run row); row_idem := row_idem row |}]> (runs d)) d).
Proof.
  intros Hr Hk. split; cbn; try done.
  - intros eid e He. by exists e.
  - exists []. by rewrite app_nil_r.
  - intros _ k row' [[<- <-] | [Hne Hk']]%lookup_insert_Some _; [by exists row | by exists row'].
Qed.

Lemma kept_experiments d eid row : (forall old, experiments d !! eid = Some old -> experiment_kept old row) -> kept d (with_experiments (<[eid := row]> (experiments d)) d).
Proof.
  intros Hk. apply kept_same; try done. intros k e He. cbn. destruct (decide (k = eid)) as [-> |]; [rewrite lookup_insert_eq; exists row; split; [done | by apply Hk] |].
  rewrite lookup_insert_ne by done. by exists e.
Qed.

Lemma fresh_id (l : list (string * string)) rid eid : NoDup (map fst (l ++ [(rid, eid)])) -> ~ rid ∈ map fst l.
Proof. rewrite map_app. intros (_ & Hn & _)%list.NoDup_app Hin. apply (Hn rid Hin). by left. Qed.

Lemma track_write_kept d d' : track_write d d' -> kept d d'.
Proof.
  destruct 1 as [exp d e d' _ Hc | exp d e d' _ Hu | run d r d' _ Hs _ Hc | rid status t finals d r d' _ Ht Hu | rid d d' _ Hd
    | rid points d n d' _ Ha | rid params d n d' _ Ha | rid m d r d' _ Ha | op key rid d _ | ev d].
  - apply Create_experiment_ok in Hc as (tags & _ & Hno & _ & ->). apply kept_experiments. intros old. by rewrite Hno.
  - apply Update_ok in Hu as (tags & old & _ & Ho & _ & ->). apply kept_experiments. intros old'. rewrite Ho. by intros [= <-].
  - apply CreateRun_ok in Hc as (finals & arts & _ & _ & Hno & _ & ->). split; cbn; try done.
    + intros eid e He. by exists e.
    + by eexists.
    + intros Hp rid row' [[<- <-] | [Hne Hr]]%lookup_insert_Some Hb; [by apply fresh_id in Hp | by exists row'].
    + intros _ rid _ _ key v Hv. by apply insert_new_keeps.
  - apply update_status_ok in Hu as (fs & row & Hr & ->). apply (kept_set_run d rid row (ended_run status t fs) Hr). repeat split. by right.
  - apply DeleteRun_ok in Hd as [_ ->]. split; cbn; try done.
    + intros eid e He. by exists e.
    + exists []. by rewrite app_nil_r.
    + intros _ k row' [Hne Hr]%lookup_delete_Some _. by exists row'.
    + intros _ k _ [row Hr] key v Hv. apply lookup_delete_Some in Hr as [Hne _]. apply map_lookup_filter_Some. split; [done |]. cbn. congruence.
    + intros _ k _ [row Hr] key v Hv. apply lookup_delete_Some in Hr as [Hne _]. apply map_lookup_filter_Some. split; [done |]. cbn. congruence.
  - apply AppendMetrics_ok in Ha as [-> | [Hr ->]]; [reflexivity |]. split; cbn; try done.
    + intros eid e He. by exists e.
    + exists []. by rewrite app_nil_r.
    + intros _ k row' Hk _. by exists row'.
    + intros _ k _ _ key v Hv. by apply insert_new_keeps.
  - apply AppendParams_ok in Ha as [-> | [Hr ->]]; [reflexivity |]. split; cbn; try done.
    + intros eid e He. by exists e.
    + exists []. by rewrite app_nil_r.
    + intros _ k row' Hk _. by exists row'.
    + intros _ k _ _ key v Hv. by apply insert_new_keeps.
  - apply set_artifacts_ok in Ha as (arts & row & Hr & ->). apply (kept_set_run d rid row (with_artifacts arts) Hr). repeat split. by left.
  - unfold record_key. destruct (idempotency_keys d !! (op, key)) eqn:Ek; [reflexivity |]. apply kept_same; try done; [intros eid e He; by exists e |].
    intros k v Hk. cbn. rewrite lookup_insert_ne; [done | congruence].
  - apply kept_same; try done. intros eid e He. by exists e.
Qed.

Lemma track_grow_kept d d' : rtc track_write d d' -> kept d d'.
Proof. induction 1 as [| d1 d2 d3 Hw _ IH]; [reflexivity |]. etrans; [by apply track_write_kept | exact IH]. Qed.

(** ** Whose rows change *)

Record untouched (team : string) (d d' : track_db) : Prop := {
  experiments_same : forall eid e, e_Team e = team -> experiments d !! eid = Some e <-> experiments d' !! eid = Some e;
  runs_same : forall rid row, of_team team d (row_run row) = true -> runs d !! rid = Some row <-> runs d' !! rid = Some row;
  rows_same : forall rid row, of_team team d (row_run row) = true -> runs d !! rid = Some row ->
    (forall key, run_params d' !! (rid, key) = run_params d !! (rid, key)) /\ (forall key, run_metrics d' !! (rid, key) = run_metrics d !! (rid, key));
}.

Lemma of_team_spec team d r : of_team team d r = true <-> exists e, experiments d !! r_ExperimentID r = Some e /\ e_Team e = team.
Proof.
  unfold of_team. destruct (experiments d !! _) as [e|]; [| split; [done | by intros (? & ? & _)]].
  rewrite String.eqb_eq. split; [intros <-; by exists e | by intros (? & [= <-] & <-)].
Qed.

Lemma of_team_same team d d' r : untouched team d d' -> of_team team d r = true <-> of_team team d' r = true.
Proof. intros Hu. rewrite !of_team_spec. split; intros (e & He & Ht); exists e; split; try done; by apply (experiments_same _ _ _ Hu). Qed.

#[export] Instance untouched_preorder team : PreOrder (untouched team).
Proof.
  split; [intros d; by split |]. intros d1 d2 d3 U12 U23. split.
  - intros eid e Ht. by rewrite (experiments_same _ _ _ U12), (experiments_same _ _ _ U23).
  - intros rid row Ht. rewrite (runs_same _ _ _ U12 rid row Ht). apply (runs_same _ _ _ U23). by apply (of_team_same team d1 d2).
  - intros rid row Ht Hr. destruct (rows_same _ _ _ U12 rid row Ht Hr) as [P12 M12].
    destruct (rows_same _ _ _ U23 rid row) as [P23 M23]; [by apply (of_team_same team d1 d2) | by apply (runs_same _ _ _ U12) |].
    split; intros key; by rewrite ?P23, ?M23.
Qed.

(** Only runs with another id change, or none. *)
Lemma untouched_runs team d d' : experiments d' = experiments d ->
  (forall rid row, of_team team d (row_run row) = true -> runs d !! rid = Some row <-> runs d' !! rid = Some row) ->
  (forall rid row, of_team team d (row_run row) = true -> runs d !! rid = Some row ->
    (forall key, run_params d' !! (rid, key) = run_params d !! (rid, key)) /\ (forall key, run_metrics d' !! (rid, key) = run_metrics d !! (rid, key))) -> untouched team d d'.
Proof. intros He Hr Hm. split; [by rewrite He | exact Hr | exact Hm]. Qed.

(** A run of a team that makes no call is none that a caller may write. *)
Lemma run_of_other d team rid row : good d -> plausible d -> ~ caller team -> of_team team d (row_run row) = true -> runs d !! rid = Some row ->
  run_of_caller d rid -> False.
Proof.
  intros Hg Hp Hn (e & He & Ht)%of_team_spec Hr (eid & e' & Hb & He' & Hc). destruct (runs_keyed d Hg rid row Hr) as (_ & Hb' & _).
  rewrite (born_once _ _ _ _ Hp Hb' Hb) in He. congruence.
Qed.

Lemma untouched_one_run team d rid d' : good d -> plausible d -> ~ caller team -> run_of_caller d rid ->
  experiments d' = experiments d -> (forall k, k <> rid -> runs d' !! k = runs d !! k) ->
  (forall k row, runs d' !! rid = Some row -> k = rid -> exists old, runs d !! rid = Some old /\ r_ExperimentID (row_run row) = r_ExperimentID (row_run old)) ->
  (forall k key, k <> rid -> run_params d' !! (k, key) = run_params d !! (k, key)) -> (forall k key, k <> rid -> run_metrics d' !! (k, key) = run_metrics d !! (k, key)) ->
  untouched team d d'.
Proof.
  intros Hg Hp Hn Hrun He Hr Hid Hpa Hme.
  assert (forall row, of_team team d (row_run row) = true -> runs d !! rid = Some row -> False) as Hno by (intros row Ht Hk; by eapply run_of_other).
  apply untouched_runs; [exact He | |].
  - intros k row Ht. destruct (decide (k = rid)) as [-> |]; [| by rewrite Hr]. split; intros Hk; [by destruct (Hno row Ht Hk) |]. exfalso.
    destruct (Hid rid row Hk eq_refl) as (old & Ho & Hx). apply (Hno old); [| exact Ho]. unfold of_team in *. by rewrite <- Hx.
  - intros k row Ht Hk. destruct (decide (k = rid)) as [-> |]; [by destruct (Hno row Ht Hk) |]. split; intros key; [by apply Hpa | by apply Hme].
Qed.

Lemma track_write_untouched team d d' : track_write d d' -> good d -> plausible d' -> ~ caller team -> untouched team d d'.
Proof.
  intros Hw Hg Hp' Hn. pose proof (born_prefix _ _ (track_write_kept _ _ Hw) Hp') as Hp.
  destruct Hw as [exp d e d' Hcall Hc | exp d e d' Hcall Hu | run d r d' Hcall Hs _ Hc | rid status t finals d r d' Hrun Ht Hu | rid d d' Hrun Hd
    | rid points d n d' Hrun Ha | rid params d n d' Hrun Ha | rid m d r d' Hrun Ha | op key rid d _ | ev d].
  - apply Create_experiment_ok in Hc as (tags & _ & Hno & _ & ->). split; cbn; try done.
    intros eid f Hf. destruct (decide (eid = e_ID exp)) as [-> |]; [| by rewrite lookup_insert_ne]. rewrite lookup_insert_eq, Hno.
    split; [done |]. intros [= <-]. cbn in Hf. congruence.
  - apply Update_ok in Hu as (tags & old & _ & Ho & _ & ->). split; cbn; try done.
    intros eid f Hf. destruct (decide (eid = e_ID exp)) as [-> |]; [| by rewrite lookup_insert_ne]. rewrite lookup_insert_eq, Ho. specialize (Hcall old Ho).
    split; intros [= <-]; cbn in Hf; congruence.
  - apply CreateRun_ok in Hc as (finals & arts & _ & _ & Hno & [e He] & ->). split; cbn [experiments runs run_params run_metrics]; [done | |].
    + intros rid row Hteam. destruct (decide (rid = r_ID run)) as [-> |]; [| by rewrite lookup_insert_ne]. rewrite lookup_insert_eq, Hno. split; [done |]. intros [= <-].
      apply of_team_spec in Hteam as (e' & He' & Ht). cbn in He'. specialize (Hcall e' He'). congruence.
    + intros rid row _ Hr. split; [| done]. intros key. apply insert_params_other. congruence.
  - apply update_status_ok in Hu as (fs & row & Hr & ->). apply (untouched_one_run team d rid); try done.
    + intros k Hk. cbn. by rewrite lookup_insert_ne.
    + intros k row' Hk _. cbn in Hk. rewrite lookup_insert_eq in Hk. injection Hk as <-. by exists row.
  - apply DeleteRun_ok in Hd as [_ ->]. apply (untouched_one_run team d rid); try done.
    + intros k Hk. cbn. by rewrite lookup_delete_ne.
    + intros k row' Hk _. cbn in Hk. by rewrite lookup_delete_eq in Hk.
    + intros k key Hk. cbn. rewrite map_lookup_filter. by destruct (run_params d !! _); cbn; [rewrite option_guard_True |].
    + intros k key Hk. cbn. rewrite map_lookup_filter. by destruct (run_metrics d !! _); cbn; [rewrite option_guard_True |].
  - apply AppendMetrics_ok in Ha as [-> | [Hr ->]]; [reflexivity |]. apply (untouched_one_run team d rid); try done.
    + intros k row Hk _. cbn in Hk. by exists row.
    + intros k key Hk. cbn. by apply insert_metrics_other.
  - apply AppendParams_ok in Ha as [-> | [Hr ->]]; [reflexivity |]. apply (untouched_one_run team d rid); try done.
    + intros k row Hk _. cbn in Hk. by exists row.
    + intros k key Hk. cbn. by apply insert_params_other.
  - apply set_artifacts_ok in Ha as (arts & row & Hr & ->). apply (untouched_one_run team d rid); try done.
    + intros k Hk. cbn. by rewrite lookup_insert_ne.
    + intros k row' Hk _. cbn in Hk. rewrite lookup_insert_eq in Hk. injection Hk as <-. by exists row.
  - unfold record_key. by destruct (idempotency_keys d !! (op, key)).
  - by split.
Qed.

Lemma track_grow_untouched team d d' : rtc track_write d d' -> good d -> plausible d' -> ~ caller team -> untouched team d d'.
Proof.
  induction 1 as [| d1 d2 d3 Hw Hst IH]; [reflexivity |]. intros Hg Hp Hn. etrans; [| apply IH; [by eapply track_write_good | done | done]].
  apply track_write_untouched; try done. exact (born_prefix _ _ (track_grow_kept _ _ Hst) Hp).
Qed.
End writes.
