(* ===== verification/TrackSafety.v ===== *)
(** * Experiments under any interleaving

    What the calls of any teams do to the tables, section by section, over a failing
    database: who may see and write what, and what becomes of what was measured. *)

From S2P Require Import Prelude GoText Concur Site AuditCapture Keyset TrackModel TrackStore Track TrackTables.
Open Scope fp_scope.

Section requests.
Context {W : Type} `{Outside W, TrackOutside W, TrackText}.
Variable caller : string -> Prop.

Abbreviation call := (prog (site W track_db)).
#[local] Abbreviation R := (track_regime caller).
#[local] Abbreviation grows := (Site.keeps R).

(** ** What is known of an experiment and of a run *)

Definition placed (team eid : string) (d : track_db) : Prop := exists e, experiments d !! eid = Some e /\ e_Team e = team.

(** The run was inserted into an experiment of the team. *)
Definition run_in (team : string) (r : Run) (d : track_db) : Prop := (r_ID r, r_ExperimentID r) ∈ born d /\ placed team (r_ExperimentID r) d.

Definition keyed_run (op key : string) (r : Run) (d : track_db) : Prop := idempotency_keys d !! (op, key) = Some (r_ID r).

Lemma placed_grows team eid l l' : grows l l' -> placed team eid l -> placed team eid l'.
Proof.
  intros Hg (e & He & Ht). destruct (experiments_stay _ _ (track_grow_kept caller l l' Hg) eid e He) as (e' & He' & _ & _ & Ht' & _). exists e'. split; [done | congruence].
Qed.

Lemma run_in_grows team r l l' : grows l l' -> run_in team r l -> run_in team r l'.
Proof.
  intros Hg [Hb Hp]. split; [| by eapply placed_grows]. destruct (born_grows _ _ (track_grow_kept caller l l' Hg)) as [added ->]. apply elem_of_app. by left.
Qed.

Lemma keyed_run_grows op key r l l' : grows l l' -> keyed_run op key r l -> keyed_run op key r l'.
Proof. intros Hg. apply (keys_stay _ _ (track_grow_kept caller l l' Hg)). Qed.

(** A fact of the rows of a run, as long as the run is there. *)
Definition held (rid : string) (P : track_db -> Prop) (d : track_db) : Prop :=
  rid ∈ map fst (born d) /\ (plausible d -> is_Some (runs d !! rid) -> P d).

(** The points are what the run measured, and the parameters those it was given. *)
Definition points_held (rid : string) (points : list MetricPoint) : track_db -> Prop :=
  held rid (fun d => Forall (fun p => run_metrics d !! (rid, point_key p) = Some (m_Value p, m_Timestamp p)) points).
Definition params_held (r : Run) : track_db -> Prop :=
  held (r_ID r) (fun d => Forall (fun p => run_params d !! (r_ID r, p_Key p) = Some (p_Value p)) (r_Params r)).

Lemma held_grows rid P l l' : grows l l' -> (plausible l' -> rid ∈ map fst (born l) -> is_Some (runs l' !! rid) -> P l -> P l') ->
  held rid P l -> held rid P l'.
Proof.
  intros Hg Hp [Hb Hh]. pose proof (track_grow_kept caller l l' Hg) as Hk. split.
  - destruct (born_grows _ _ Hk) as [added ->]. rewrite map_app. apply elem_of_app. by left.
  - intros Hp' Hs. apply Hp; try done. apply Hh; [by eapply born_prefix |]. destruct Hs as [row Hr].
    destruct (runs_stay _ _ Hk Hp' rid row Hr Hb) as (row0 & ? & _). by exists row0.
Qed.

Lemma points_held_grows rid points l l' : grows l l' -> points_held rid points l -> points_held rid points l'.
Proof.
  intros Hg. apply held_grows; [exact Hg |]. intros Hp Hb Hs. apply Forall_impl. intros p.
  by apply (metrics_stay _ _ (track_grow_kept caller l l' Hg) Hp rid Hb Hs).
Qed.

Lemma params_held_grows r l l' : grows l l' -> params_held r l -> params_held r l'.
Proof.
  intros Hg. apply held_grows; [exact Hg |]. intros Hp Hb Hs. apply Forall_impl. intros p.
  by apply (params_stay _ _ (track_grow_kept caller l l' Hg) Hp (r_ID r) Hb Hs).
Qed.

Lemma points_of_held rid d p : p ∈ points_of rid d -> run_metrics d !! (rid, point_key p) = Some (m_Value p, m_Timestamp p).
Proof.
  unfold points_of. intros ([[k sk] v] & -> & Hin)%list_elem_of_fmap. apply list_elem_of_In, filter_In in Hin as [Hin Hk%String.eqb_eq].
  apply list_elem_of_In, elem_of_map_to_list in Hin. cbn in *. subst k. unfold point_key. cbn. rewrite <- surjective_pairing. rewrite Hin. by destruct v.
Qed.

Lemma params_of_held rid d p : p ∈ params_of rid d -> run_params d !! (rid, p_Key p) = Some (p_Value p).
Proof.
  unfold params_of. intros ([[k pk] v] & -> & Hin)%list_elem_of_fmap. apply list_elem_of_In, filter_In in Hin as [Hin Hk%String.eqb_eq].
  apply list_elem_of_In, elem_of_map_to_list in Hin. cbn in *. by subst k.
Qed.

(** A page of a history holds points of its run. *)
Lemma GetMetricHistory_held qy d points next : GetMetricHistory qy d = Ok (points, next) ->
  Forall (fun p => run_metrics d !! (q_RunID qy, point_key p) = Some (m_Value p, m_Timestamp p)) points.
Proof.
  unfold GetMetricHistory. destruct (read_cursor _ _ _) as [cur|]; [| done]. cbn [rbind].
  match goal with |- context [page ?k ?lt ?n cur ?rows] => pose proof (page_rows k lt n cur rows) as Hp; destruct (page k lt n cur rows) as [out nx] end.
  intros [= <- _]. eapply Forall_impl; [| exact Hp]. intros p Hin%list_elem_of_In%filter_In. destruct Hin as [Hin%list_elem_of_In _].
  rewrite merge_sort_Permutation in Hin. by apply points_of_held.
Qed.

(** The points of the series. *)
Definition series_points (series : list MetricSeries) : list MetricPoint := concat (map ms_Points series).

Lemma series_points_in points p : p ∈ series_points (GroupIntoSeries points) -> p ∈ points.
Proof.
  unfold series_points. intros Hin%list_elem_of_In%in_concat. destruct Hin as (l & (s & <- & Hs%list_elem_of_In)%in_map_iff & Hp%list_elem_of_In).
  destruct (series_partition points) as (_ & _ & _ & Hs'). destruct (Hs' s Hs) as [Hperm _]. rewrite Hperm in Hp. unfold of_key in Hp.
  by apply list_elem_of_In, filter_In in Hp as [Hp%list_elem_of_In _].
Qed.

Lemma series_held rid points d : points_held rid points d -> points_held rid (series_points (GroupIntoSeries points)) d.
Proof.
  intros [Hb Hh]. split; [exact Hb |]. intros Hp Hs. specialize (Hh Hp Hs). rewrite !list.Forall_forall in *. intros p Hin.
  by apply Hh, series_points_in.
Qed.

Lemma grown_good base l : good base -> grows base l -> good l.
Proof. intros Hb Hg. exact (track_grow_good caller base l Hg Hb). Qed.

Lemma run_in_caller team r l : caller team -> run_in team r l -> run_of_caller caller l (r_ID r).
Proof. intros Hc [Hb (e & He & <-)]. by exists (r_ExperimentID r), e. Qed.

Lemma good_run_born l rid row : good l -> runs l !! rid = Some row -> r_ID (row_run row) = rid /\ (r_ID (row_run row), r_ExperimentID (row_run row)) ∈ born l.
Proof. intros Hg Hr. destruct (runs_keyed l Hg rid row Hr) as (-> & Hb & _). done. Qed.

(** ** The stores *)

Lemma safe_idem_Lookup base op key : safe R base (idem_Lookup op key)
  (or_error (fun found l => forall rid, found = Some rid -> key <> "" /\ idempotency_keys l !! (op, key) = Some rid)).
Proof.
  unfold idem_Lookup. destruct (String.eqb_spec key "") as [-> | Hne]; [by apply safe_ret |].
  eapply safe_try; [apply (safe_statement _ _ _ (fun found l => forall rid, found = Some rid -> idempotency_keys l !! (op, key) = Some rid)) |].
  - by intros l w a _ [= <-].
  - intros a l l' Hg Ha rid Hr. apply (keys_stay _ _ (track_grow_kept caller l l' Hg)). by apply Ha.
  - intros found l _ Hf. apply safe_ret. intros l' Hl' rid Hr. split; [done |]. apply (keys_stay _ _ (track_grow_kept caller l l' Hl')). by apply Hf.
Qed.

Lemma safe_record_run {A} base op key rid (a : A) (Q : A -> track_db -> Prop) : run_of_caller caller base rid ->
  (forall l, grows base l -> Q a l) -> safe R base (idem_Record op key rid a) (or_error Q).
Proof.
  intros Hc Hq. unfold idem_Record. destruct (String.eqb key ""); [apply safe_ret, Hq |].
  eapply safe_try; [apply (safe_transaction _ _ _ (fun _ _ => True)); [| done] |].
  - intros l r l' Hg [= <- <-]. split; [right; constructor | done]. destruct Hc as (eid & e & Hb & He & Hc). destruct (track_grow_kept caller base l Hg).
    destruct (experiments_stay eid e He) as (e' & He' & _ & _ & Ht & _). exists eid, e'. destruct born_grows as [added ->].
    split; [apply elem_of_app; by left |]. split; [done | by rewrite Ht].
  - intros _ l Hl _. apply safe_ret. intros l' Hl'. apply Hq. by etrans.
Qed.

Definition is_born (r : Run) (d : track_db) : Prop := (r_ID r, r_ExperimentID r) ∈ born d.

Lemma is_born_grows r l l' : grows l l' -> is_born r l -> is_born r l'.
Proof. intros Hg Hb. unfold is_born. destruct (born_grows _ _ (track_grow_kept caller l l' Hg)) as [added ->]. apply elem_of_app. by left. Qed.

Lemma is_born_id r d : is_born r d -> r_ID r ∈ map fst (born d).
Proof. intros Hb. apply list_elem_of_fmap. by exists (r_ID r, r_ExperimentID r). Qed.

(** A run that a statement gave, and its answer with the parameters read after it. *)
Definition read_run (rid : string) (r : Run) (d : track_db) : Prop := r_ID r = rid /\ is_born r d.
Definition whole_run (rid : string) (r : Run) (d : track_db) : Prop := read_run rid r d /\ params_held r d.

Lemma read_run_grows rid r l l' : grows l l' -> read_run rid r l -> read_run rid r l'.
Proof. intros Hg [? Hb]. split; [done | by eapply is_born_grows]. Qed.

Lemma whole_run_grows rid r l l' : grows l l' -> whole_run rid r l -> whole_run rid r l'.
Proof. intros Hg [? Hb]. split; [by eapply read_run_grows | by eapply params_held_grows]. Qed.

Lemma safe_read_params base rid r : read_run rid r base -> safe R base (add_params rid r) (or_error (whole_run rid)).
Proof.
  intros [<- Hborn]. unfold add_params.
  eapply safe_try; [apply (safe_statement _ _ _ (fun params l => whole_run (r_ID r) (with_run_params params r) l)) |].
  - intros l w params Hg [= <-]. pose proof (is_born_grows _ _ _ Hg Hborn) as Hb. split; [split; [done | exact Hb] |].
    split; [by apply is_born_id |]. intros _ _. apply list.Forall_forall. intros p Hin. cbn in Hin |- *.
    rewrite merge_sort_Permutation in Hin. by apply params_of_held.
  - intros params l l'. apply whole_run_grows.
  - intros params l _ Hw. apply safe_ret. intros l' Hl'. by eapply whole_run_grows.
Qed.

Lemma safe_repo_GetRun base rid : good base -> safe R base (repo_GetRun rid) (or_error (whole_run rid)).
Proof.
  intros Hb. unfold repo_GetRun. eapply safe_try; [apply (safe_statement _ _ _ (read_run rid)) |].
  - intros l w a Hg. unfold scanRun. destruct (runs l !! rid) as [row|] eqn:E; [| done]. intros [= <-]. by apply (good_run_born l rid row (grown_good _ _ Hb Hg)).
  - intros a l l'. apply read_run_grows.
  - intros r l _ Hr. by apply safe_read_params.
Qed.

(** ** Experiments *)

Definition experiment_of (team : string) (e : Experiment) (d : track_db) : Prop := e_Team e = team /\ placed team (e_ID e) d.

Lemma experiment_of_grows team e l l' : grows l l' -> experiment_of team e l -> experiment_of team e l'.
Proof. intros Hg [? Hp]. split; [done | by eapply placed_grows]. Qed.

Lemma safe_fetch base eid team : good base -> safe R base (fetchExperimentForTeam eid team)
  (or_error (fun e l => e_ID e = eid /\ experiment_of team e l)).
Proof.
  intros Hb. unfold fetchExperimentForTeam. destruct (String.eqb _ ""); [apply safe_fail |].
  eapply safe_try; [apply (safe_statement _ _ _ (fun e l => e_ID e = eid /\ placed (e_Team e) eid l)) |].
  - intros l w a Hg. unfold GetByID. destruct (experiments l !! eid) as [e|] eqn:E; [| done]. intros [= <-].
    split; [by apply (experiments_keyed l (grown_good _ _ Hb Hg)) | by exists e].
  - intros a l l' Hg [? Ha]. split; [done | by eapply placed_grows].
  - intros e l _ [He Hp]. destruct (String.eqb_spec (e_Team e) team) as [Ht |]; cbn [negb]; [| apply safe_fail].
    apply safe_ret. intros l' Hl'. split; [done |]. split; [done |]. rewrite He, <- Ht. by eapply placed_grows.
Qed.

Lemma safe_CreateExperiment base actor inp : caller (Team actor) -> safe R base (CreateExperiment actor inp) (or_error (experiment_of (Team actor))).
Proof.
  intros Hc. unfold CreateExperiment. cbv zeta. destruct (String.eqb _ ""); [apply safe_fail |]. destruct (String.eqb _ ""); [apply safe_fail |].
  apply safe_ask. intros now. apply safe_ask. intros eid.
  eapply safe_try; [apply (safe_transaction _ _ _ (experiment_of (Team actor))) |].
  - intros l r l' _ Hcr. destruct r as [e|e]; cycle 1.
    { split; [| done]. left. unfold Create in Hcr. by repeat case_match; simplify_eq. }
    split; [right; by eapply WriteExperiment; [| exact Hcr] |]. apply Create_experiment_ok in Hcr as (tags & -> & _ & _ & ->). split; [done |]. cbn.
    eexists. cbn. rewrite lookup_insert_eq. by split.
  - intros a l l'. apply experiment_of_grows.
  - intros e l _ He. apply safe_ret. intros l' Hl'. by eapply experiment_of_grows.
Qed.

Lemma apply_fields_same inp fields : forall exp exp', apply_fields inp fields exp = Ok exp' -> e_ID exp' = e_ID exp.
Proof.
  induction fields as [|f fields IH]; intros exp exp'; cbn [apply_fields]; [by intros [= <-] |].
  repeat (case_match; [| try done]); try done; intros He; apply IH in He; done.
Qed.

(** An update of an experiment of the team. *)
Lemma safe_Update base team exp : caller team -> good base -> placed team (e_ID exp) base -> safe R base (transact (Update exp)) (or_error (experiment_of team)).
Proof.
  intros Hc Hb Hp. apply safe_transaction; [| intros a l l'; apply experiment_of_grows]. intros l r l' Hg Hu.
  destruct (placed_grows _ _ _ _ Hg Hp) as (e0 & He0 & Ht0). destruct r as [e|e]; cycle 1.
  { split; [| done]. left. unfold Update in Hu. by repeat case_match; simplify_eq. }
  split.
  - right. eapply WriteUpdate; [| exact Hu]. intros old Ho. congruence.
  - apply Update_ok in Hu as (tags & old & -> & Ho & _ & ->). assert (old = e0) as -> by congruence. split; [done |]. cbn.
    rewrite (experiments_keyed l (grown_good _ _ Hb Hg) _ _ He0). eexists. cbn. rewrite lookup_insert_eq. by split.
Qed.

Lemma safe_UpdateExperiment base actor inp : caller (Team actor) -> good base -> safe R base (UpdateExperiment actor inp) (or_error (experiment_of (Team actor))).
Proof.
  intros Hc Hb. unfold UpdateExperiment. eapply safe_try; [by apply safe_fetch |]. intros exp l Hl [_ [_ Hp]]. destruct (bool_decide _); [apply safe_fail |].
  destruct (apply_fields _ _ exp) as [exp'|] eqn:E; [| apply safe_fail]. apply apply_fields_same in E. apply safe_ask. intros now.
  eapply safe_try; [apply (safe_Update _ (Team actor)); [done | by eapply grown_good | cbn; by rewrite E] |].
  intros e l' _ He. apply safe_ret. intros l2 Hl2. by eapply experiment_of_grows.
Qed.

Lemma safe_ArchiveExperiment base actor eid : caller (Team actor) -> good base -> safe R base (ArchiveExperiment actor eid) (or_error (experiment_of (Team actor))).
Proof.
  intros Hc Hb. unfold ArchiveExperiment. eapply safe_try; [by apply safe_fetch |]. intros exp l Hl [_ He].
  destruct (IsArchived exp); [apply safe_ret; intros l' Hl'; by eapply experiment_of_grows |]. apply safe_ask. intros now.
  eapply safe_try; [apply (safe_Update _ (Team actor)); [done | by eapply grown_good | by destruct He] |].
  intros e l' _ He'. apply safe_ret. intros l2 Hl2. by eapply experiment_of_grows.
Qed.

Lemma safe_ListExperiments base actor arch opts : safe R base (ListExperiments actor arch opts)
  (or_error (fun p _ => Forall (fun e => e_Team e = Team actor) p.1)).
Proof.
  unfold ListExperiments. destruct (String.eqb _ ""); [apply safe_fail |]. apply (safe_fact _ _ _ (fun p => Forall (fun e => e_Team e = Team actor) p.1)).
  intros l w a _. unfold List_. destruct (read_cursor _ _ _) as [cur|]; [| done]. cbn [rbind].
  match goal with |- context [page ?k ?lt ?n cur ?rows] => pose proof (page_rows k lt n cur rows) as Hp; destruct (page k lt n cur rows) as [out next] end.
  intros [= <-]. eapply Forall_impl; [| exact Hp]. intros e He. apply list_elem_of_In, filter_In in He as [_ He]. unfold experiments_where in He. by bool_to_prop.
Qed.

(** ** Runs *)

Lemma safe_load base rid team : good base -> safe R base (loadRunForTeam rid team) (or_error (fun r l => r_ID r = rid /\ run_in team r l /\ params_held r l)).
Proof.
  intros Hb. unfold loadRunForTeam. destruct (String.eqb _ ""); [apply safe_fail |].
  eapply safe_try; [by apply safe_repo_GetRun |]. intros r l Hl [[Hr Hborn] Hpa].
  eapply safe_try; [apply safe_fetch; by eapply grown_good |]. intros e l1 Hl1 [He [_ Hp]]. apply safe_ret. intros l2 Hl2.
  split; [exact Hr |]. split; [| eapply params_held_grows, Hpa; by etrans].
  eapply run_in_grows; [exact Hl2 |]. split; [by apply (is_born_grows r l) | by rewrite <- He].
Qed.

Lemma safe_publish base ev {A} (k : option string -> call A) post : (forall r l, grows base l -> safe R l (k r) post) ->
  safe R base (do! r := publish_event ev in k r) post.
Proof.
  intros Hk. unfold publish_event. apply safe_logged. intros l Hg. split; [constructor |]. intros r. apply Hk. etrans; [exact Hg |].
  apply rtc_once. constructor.
Qed.

Lemma safe_ended {A} base ev (a : A) (Q : A -> track_db -> Prop) : (forall l, grows base l -> Q a l) ->
  safe R base (do! _ := publish_event ev in Ret (Ok a : result A track_error)) (or_error Q).
Proof. intros Hq. apply safe_publish. intros _ l Hl. apply safe_ret. intros l' Hl'. apply Hq. by etrans. Qed.

(** A write to a run of the team, whose parameters are read after it. *)
Lemma safe_write_run base rid team (f : track_db -> result Run track_error * track_db) : good base -> (exists r0, r_ID r0 = rid /\ run_in team r0 base) ->
  (forall l r l', good l -> (exists r0, r_ID r0 = rid /\ run_in team r0 l) -> f l = (r, l') ->
    match r with Ok r => track_write caller l l' /\ r_ID r = rid /\ is_born r l | Err _ => l' = l end) ->
  safe R base (transact f) (or_error (read_run rid)).
Proof.
  intros Hb (r0 & Hr0 & Hin) Hf. apply safe_transaction.
  - intros l r l' Hg Hr. specialize (Hf l r l' (grown_good _ _ Hb Hg)). destruct r as [r|e].
    + destruct Hf as (Hw & Hid & Hborn); [exists r0; split; [done | by eapply run_in_grows] | done |].
      split; [by right |]. split; [exact Hid |]. eapply is_born_grows; [by apply rtc_once | done].
    + split; [left | done]. apply Hf; [exists r0; split; [done | by eapply run_in_grows] | done].
  - intros r l l' Hg [? Hborn]. split; [done | by eapply is_born_grows].
Qed.

Lemma set_run_born rid f l r l' : good l -> (forall r, r_ID (f r) = r_ID r /\ r_ExperimentID (f r) = r_ExperimentID r) -> set_run rid f l = (Ok r, l') ->
  r_ID r = rid /\ is_born r l.
Proof.
  intros Hg Hf. unfold set_run. destruct (runs l !! rid) as [row|] eqn:E; [| done]. intros [= <- _]. destruct (Hf (row_run row)) as [E1 E2].
  unfold is_born. rewrite E1, E2. by apply (good_run_born l rid row).
Qed.

Lemma safe_UpdateRunStatus base rid team status now finals : caller team -> good base -> IsTerminal status = true ->
  (exists r0, r_ID r0 = rid /\ run_in team r0 base) ->
  safe R base (UpdateRunStatus rid status now finals) (or_error (whole_run rid)).
Proof.
  intros Hc Hb Ht Hin. unfold UpdateRunStatus. eapply safe_try; [eapply safe_write_run; [exact Hb | exact Hin |] |].
  - intros l r l' Hg (r0 & <- & Hr0) Hu. destruct r as [r|e].
    + split; [eapply WriteStatus; [by eapply run_in_caller | exact Ht | exact Hu] |]. unfold update_status in Hu.
      destruct (finals_column _); [| done]. destruct (_ && _); [done |]. by apply set_run_born in Hu.
    + unfold update_status, set_run in Hu. by repeat case_match; simplify_eq.
  - intros r l _ Hr. by apply safe_read_params.
Qed.

Lemma safe_SetArtifacts base rid team m : caller team -> good base -> (exists r0, r_ID r0 = rid /\ run_in team r0 base) ->
  safe R base (SetArtifacts rid m) (or_error (whole_run rid)).
Proof.
  intros Hc Hb Hin. unfold SetArtifacts, SetArtifactsIdem. eapply safe_try; [eapply safe_write_run; [exact Hb | exact Hin |] |].
  - intros l r l' Hg (r0 & <- & Hr0) Hu. destruct r as [r|e].
    + split; [eapply WriteArtifacts; [by eapply run_in_caller | exact Hu] |]. unfold set_artifacts in Hu.
      destruct (marshalArtifacts m); [| done]. destruct (set_run _ _ _) as [[r1|e] l1] eqn:E; [| done]. injection Hu as <- _. by apply set_run_born in E.
    + unfold set_artifacts, set_run in Hu. by repeat case_match; simplify_eq.
  - intros r l _ Hr. by apply safe_read_params.
Qed.

(** The run has the id of one that was inserted into an experiment of the team. *)
Definition run_seen (team : string) (r : Run) (d : track_db) : Prop := is_born r d /\ exists r0, r_ID r0 = r_ID r /\ run_in team r0 d.

Lemma run_seen_grows team r l l' : grows l l' -> run_seen team r l -> run_seen team r l'.
Proof. intros Hg [Hb (r0 & Hr & Hin)]. split; [by eapply is_born_grows |]. exists r0. split; [done | by eapply run_in_grows]. Qed.

Lemma run_in_seen team r l : run_in team r l -> run_seen team r l.
Proof. intros Hin. split; [by destruct Hin | by exists r]. Qed.

(** Where ids of runs are drawn once, the run is the team's. *)
Lemma run_seen_in team r l : plausible l -> run_seen team r l -> run_in team r l.
Proof.
  intros Hp [Hb (r0 & Hr & Hb0 & Hpl)]. split; [exact Hb |]. rewrite Hr in Hb0. by rewrite (born_once _ _ _ _ Hp Hb Hb0).
Qed.

Lemma safe_StartRun base actor inp : caller (Team actor) -> good base -> safe R base (StartRun actor inp)
  (or_error (fun r l => run_seen (Team actor) r l /\ r_Params r = sr_Params inp \/
     sr_IdempotencyKey inp <> "" /\ keyed_run opStartRun (sr_IdempotencyKey inp) r l /\ params_held r l)).
Proof.
  intros Hc Hb. unfold StartRun. eapply safe_try; [apply safe_idem_Lookup |]. intros [rid|] l Hl Hf.
  - destruct (Hf rid eq_refl) as [Hne Hk]. eapply safe_weaken; [apply safe_grows, safe_repo_GetRun; by eapply grown_good |].
    intros [r|] l'; [| done]. intros [Hg [[<- _] Hpa]]. right. split; [done |]. split; [by eapply keyed_run_grows | done].
  - clear Hf. assert (good l) as Hgl by by eapply grown_good. eapply safe_try; [by apply safe_fetch |]. intros e l1 Hl1 [He [_ Hp]].
    destruct (validateParams _); [apply safe_fail |]. apply safe_ask. intros now. apply safe_ask. intros rid.
    eapply (safe_try _ _ _ _ _ (fun r l => run_in (Team actor) r l /\ r_Params r = sr_Params inp)).
    + apply safe_transaction; [| intros a l2 l3 Hg [? ?]; split; [by eapply run_in_grows | done]]. intros l2 r l3 Hg2 Hcr. rewrite He in Hp.
      pose proof (placed_grows _ _ _ _ Hg2 Hp) as Hp2. destruct r as [r|er]; cycle 1.
      { split; [| done]. left. unfold CreateRun, CreateRunIdem in Hcr. by repeat case_match; simplify_eq. }
      split.
      * right. eapply WriteRun; [| | | exact Hcr]; [| done | done]. cbn. intros e2 He2. destruct Hp2 as (e3 & He3 & Ht). by assert (e2 = e3) as -> by congruence; rewrite Ht.
      * apply CreateRun_ok in Hcr as (fs & arts & -> & _ & _ & _ & ->). split; [| done]. split; cbn; [apply elem_of_app; right; by left | done].
    + intros r l2 _ [Hin Hpa]. eapply (safe_try _ _ _ _ _ (fun r l => run_in (Team actor) r l /\ r_Params r = sr_Params inp)).
      * apply safe_record_run; [by eapply run_in_caller | intros l3 Hl3; split; [by eapply run_in_grows | done]].
      * intros r' l3 _ [Hin' Hpa']. unfold publishRunCreated. apply safe_ended. intros l4 Hl4. left. split; [apply run_in_seen; by eapply run_in_grows | done].
Qed.

Lemma safe_drain base fuel rid : forall token all, safe R base (drain_history fuel rid token all) (or_error (fun _ _ => True)).
Proof.
  revert base. induction fuel as [|fuel IH]; intros base token all; [by apply safe_ret |]. cbn [drain_history].
  eapply safe_try; [by apply (safe_fact _ _ _ (fun _ => True)) |]. intros [points next] l _ _. cbv zeta. destruct (_ || _); [by apply safe_ret | apply IH].
Qed.

Lemma safe_FinishRun base actor inp : caller (Team actor) -> good base -> safe R base (FinishRun actor inp)
  (or_error (fun r l => r_ID r = fr_RunID inp /\ run_seen (Team actor) r l /\ params_held r l)).
Proof.
  intros Hc Hb. unfold FinishRun. eapply safe_try; [by apply safe_load |]. intros run l Hl (Hr & Hin & _).
  destruct (CanTransitionTo _ _) eqn:Et; cbn [negb]; [| apply safe_fail].
  eapply safe_try; [unfold computeFinalsFromHistory; eapply safe_try; [apply safe_drain | intros all l1 _ _; by apply (safe_ret _ _ _ (or_error (fun _ _ => True)))] |].
  intros finals l1 Hl1 _. apply safe_ask. intros now. assert (good l1) as Hg1 by (eapply grown_good, Hl1; by eapply grown_good).
  pose proof (run_in_grows _ _ _ _ Hl1 Hin) as Hin1. eapply safe_try.
  - eapply safe_UpdateRunStatus; [exact Hc | exact Hg1 | | by exists run]. unfold CanTransitionTo in Et. by destruct (negb _).
  - intros r l2 Hl2 [[Hid Hborn] Hpa]. unfold publishRunFinished. apply safe_ended. intros l3 Hl3. split; [congruence |].
    split; [| by eapply params_held_grows]. split; [by eapply is_born_grows |]. exists run. split; [congruence |]. eapply run_in_grows; [| exact Hin1]. by etrans.
Qed.

Lemma list_runs_where text which status opts d p : list_runs text which status opts d = Ok p ->
  Forall (fun r => which r = true /\ exists rid row, runs d !! rid = Some row /\ row_run row = r) p.1.
Proof.
  unfold list_runs. destruct (read_cursor _ _ _) as [cur|]; [| done]. cbn [rbind].
  match goal with |- context [page ?k ?lt ?n cur ?rows] => pose proof (page_rows k lt n cur rows) as Hp; destruct (page k lt n cur rows) as [out next] end.
  intros [= <-]. eapply Forall_impl; [| exact Hp]. intros r Hr. apply list_elem_of_In, filter_In in Hr as [Hr [Hw _]%andb_true_iff]. split; [exact Hw |].
  apply list_elem_of_In in Hr. rewrite merge_sort_Permutation in Hr. apply list_elem_of_fmap in Hr as ([rid row] & -> & Hr%elem_of_map_to_list). by exists rid, row.
Qed.

Lemma runs_in_grow team l l' rs : grows l l' -> Forall (fun r => run_in team r l /\ r_Params r = []) rs ->
  Forall (fun r => run_in team r l' /\ r_Params r = []) rs.
Proof. intros Hg. apply Forall_impl. intros r [? ?]. split; [by eapply run_in_grows | done]. Qed.

Lemma safe_ListRuns base actor eid status opts : good base -> safe R base (svc_ListRuns actor eid status opts)
  (or_error (fun p l => Forall (fun r => run_in (Team actor) r l /\ r_Params r = []) p.1)).
Proof.
  intros Hb. unfold svc_ListRuns. cbv zeta. destruct (String.eqb eid "").
  - apply safe_statement; [| intros a l l'; apply runs_in_grow]. intros l w p Hg Hp%list_runs_where. eapply Forall_impl; [| exact Hp].
    intros r [Ht (rid & row & Hr & <-)]. split; [| by apply (params_apart l (grown_good _ _ Hb Hg) rid row)]. split; [by apply (good_run_born l rid row (grown_good _ _ Hb Hg)) | by apply of_team_spec in Ht].
  - eapply safe_try; [by apply safe_fetch |]. intros e l0 Hl0 [He [_ Hpl]]. rewrite He in Hpl. apply safe_statement; [| intros a l l'; apply runs_in_grow].
    intros l w p Hg Hp%list_runs_where. eapply Forall_impl; [| exact Hp]. intros r [Ht%String.eqb_eq (rid & row & Hr & <-)].
    split; [| exact (params_apart l (grown_good _ _ (grown_good _ _ Hb Hl0) Hg) rid row Hr)].
    split; [eapply (good_run_born l rid row); [eapply grown_good, Hg; by eapply grown_good | done] |]. rewrite Ht. by eapply placed_grows.
Qed.

(** A write on a run of the team, whose count is told. *)
Lemma safe_on_run {A} base team run (f : track_db -> result A track_error * track_db) : caller team -> good base -> run_in team run base ->
  (forall l r l', run_of_caller caller l (r_ID run) -> f l = (r, l') -> match r with Ok _ => track_write caller l l' | Err _ => l' = l end) ->
  safe R base (transact f) (or_error (fun _ _ => True)).
Proof.
  intros Hc Hb Hin Hf. apply safe_transaction; [| done]. intros l r l' Hg Hr. specialize (Hf l r l').
  destruct r as [a|e]; (split; [| done]); [right | left]; apply Hf; try done; eapply run_in_caller; try done; by eapply run_in_grows.
Qed.

Lemma safe_recorded {A} base team run op key (a : A) : caller team -> run_in team run base ->
  safe R base (idem_Record op key (r_ID run) a) (or_error (fun _ _ => True)).
Proof. intros Hc Hin. apply safe_record_run; [by eapply run_in_caller | done]. Qed.

Lemma safe_DeleteRun base actor rid key : caller (Team actor) -> good base -> safe R base (svc_DeleteRun actor rid key) (or_error (fun _ _ => True)).
Proof.
  intros Hc Hb. unfold svc_DeleteRun. eapply safe_try; [apply safe_idem_Lookup |]. intros [?|] l Hl _; [by apply safe_ret |].
  eapply safe_try; [apply safe_load; by eapply grown_good |]. intros run l1 Hl1 (_ & Hin & _).
  eapply safe_try; [eapply safe_on_run; [exact Hc | eapply grown_good, Hl1; by eapply grown_good | exact Hin |] |].
  - intros l2 r l3 Hrun Hd. destruct r as [[]|e]; [by eapply WriteDelete |]. unfold DeleteRun, DeleteRunIdem in Hd. by repeat case_match; simplify_eq.
  - intros _ l2 Hl2 _. eapply safe_recorded; [exact Hc | by eapply run_in_grows].
Qed.

Lemma safe_LogMetrics base actor inp : caller (Team actor) -> good base -> safe R base (LogMetrics actor inp) (or_error (fun _ _ => True)).
Proof.
  intros Hc Hb. unfold LogMetrics. eapply safe_try; [apply safe_idem_Lookup |]. intros [?|] l Hl _; [by apply safe_ret |].
  destruct (_ <? _); [apply safe_fail |]. destruct (bool_decide _); [apply safe_fail |].
  eapply safe_try; [apply safe_load; by eapply grown_good |]. intros run l1 Hl1 (_ & Hin & _).
  destruct (negb _); [apply safe_fail |]. destruct (check_points _); [apply safe_fail |]. apply safe_ask. intros now.
  eapply safe_try; [eapply safe_on_run; [exact Hc | eapply grown_good, Hl1; by eapply grown_good | exact Hin |] |].
  - intros l2 r l3 Hrun Hd. destruct r as [n|e]; [by eapply WriteMetrics |]. unfold AppendMetrics, AppendMetricsIdem in Hd. by repeat case_match; simplify_eq.
  - intros n l2 Hl2 _. eapply safe_recorded; [exact Hc | by eapply run_in_grows].
Qed.

Lemma safe_LogParams base actor inp : caller (Team actor) -> good base -> safe R base (LogParams actor inp) (or_error (fun _ _ => True)).
Proof.
  intros Hc Hb. unfold LogParams. destruct (bool_decide _); [apply safe_fail |]. destruct (_ <? _); [apply safe_fail |].
  destruct (validateParams _); [apply safe_fail |]. eapply safe_try; [by apply safe_load |]. intros run l Hl (_ & Hin & _).
  destruct (negb _); [apply safe_fail |]. eapply safe_try; [by apply (safe_fact _ _ _ (fun _ => True)) |]. intros existing l1 Hl1 _.
  destruct (fresh_params _ _) as [[|p toWrite]|e]; [by apply safe_ret | | apply safe_fail].
  eapply safe_try; [eapply safe_on_run; [exact Hc | eapply grown_good, Hl1; by eapply grown_good | by eapply run_in_grows |] |].
  - intros l2 r l3 Hrun Hd. destruct r as [n|e]; [by eapply WriteParams |]. unfold AppendParams in Hd. by repeat case_match; simplify_eq.
  - intros n l2 _ _. by apply safe_ret.
Qed.

Lemma safe_SetRunArtifacts base actor inp : caller (Team actor) -> good base -> safe R base (SetRunArtifacts actor inp)
  (or_error (fun r l => (run_seen (Team actor) r l \/ sa_IdempotencyKey inp <> "" /\ keyed_run opSetRunArtifacts (sa_IdempotencyKey inp) r l) /\ params_held r l)).
Proof.
  intros Hc Hb. unfold SetRunArtifacts. eapply safe_try; [apply safe_idem_Lookup |]. intros [rid|] l Hl Hf.
  - destruct (Hf rid eq_refl) as [Hne Hk]. eapply safe_weaken; [apply safe_grows, safe_repo_GetRun; by eapply grown_good |].
    intros [r|] l'; [| done]. intros [Hg [[<- _] Hpa]]. split; [| done]. right. split; [done |]. by eapply keyed_run_grows.
  - clear Hf. assert (good l) as Hgl by by eapply grown_good. eapply safe_try; [by apply safe_load |]. intros run l1 Hl1 (Hr & Hin & _).
    destruct (validateArtifactsSize _); [apply safe_fail |]. assert (good l1) as Hg1 by by eapply grown_good.
    eapply safe_try; [eapply safe_SetArtifacts; [exact Hc | exact Hg1 | by exists run] |]. intros r l2 Hl2 [[Hid Hborn] Hpa].
    pose proof (run_in_grows _ _ _ _ Hl2 Hin) as Hin2. apply safe_record_run; [by eapply run_in_caller |].
    intros l3 Hl3. split; [| by eapply params_held_grows]. left. split; [by eapply is_born_grows |]. exists run. split; [done | by eapply run_in_grows].
Qed.

(** ** Analysis *)

(** A page of the history of a run that was loaded. *)
Lemma safe_history base qy : q_RunID qy ∈ map fst (born base) ->
  safe R base (query (fun _ d => GetMetricHistory qy d)) (or_error (fun p l => points_held (q_RunID qy) p.1 l)).
Proof.
  intros Hb. apply safe_statement; [| intros a l l'; apply points_held_grows]. intros l w [points next] Hg Hq%GetMetricHistory_held.
  split; [| done]. destruct (born_grows _ _ (track_grow_kept caller base l Hg)) as [added ->]. rewrite map_app. apply elem_of_app. by left.
Qed.

Lemma safe_GetMetricHistory base actor inp : good base -> safe R base (svc_GetMetricHistory actor inp)
  (or_error (fun p l => (exists run, r_ID run = gm_RunID inp /\ run_in (Team actor) run l) /\ points_held (gm_RunID inp) (series_points p.1) l)).
Proof.
  intros Hb. unfold svc_GetMetricHistory. eapply safe_try; [by apply safe_load |]. intros run l _ (Hr & Hin & _).
  eapply safe_try; [apply safe_history; cbn; apply is_born_id, Hin |]. intros [points next] l1 Hl1 Hpts. apply safe_ret. intros l2 Hl2.
  split; [exists run; split; [done | eapply run_in_grows, Hin; by etrans] |]. cbn in Hpts |- *. apply series_held. rewrite <- Hr. by eapply points_held_grows.
Qed.

(** A comparison shows a run of the team with its parameters and points of its own. *)
Definition compared (team : string) (c : RunComparison) (d : track_db) : Prop :=
  run_in team (rc_Run c) d /\ params_held (rc_Run c) d /\ points_held (r_ID (rc_Run c)) (series_points (Series c)) d.

Lemma compared_grows team c l l' : grows l l' -> compared team c l -> compared team c l'.
Proof. intros Hg (? & ? & ?). split; [by eapply run_in_grows |]. split; [by eapply params_held_grows | by eapply points_held_grows]. Qed.

Lemma safe_compare base team keys ids : good base -> safe R base (compare_each team keys ids)
  (or_error (fun cs l => Forall (fun c => compared team c l) cs)).
Proof.
  revert base. induction ids as [|rid ids IH]; intros base Hb; [apply safe_ret; constructor |]. cbn [compare_each].
  eapply safe_seq; [by apply safe_grows, safe_load |]. intros [run|e] l [Hl Hx].
  - destruct Hx as (_ & Hin & Hpa). eapply safe_try; [apply safe_history; cbn; apply is_born_id, Hin |]. intros [points next] l1 Hl1 Hpts.
    eapply safe_try; [apply IH; eapply grown_good, Hl1; by eapply grown_good |]. intros rest l2 Hl2 Hrest. apply safe_ret. intros l3 Hl3.
    constructor; [| eapply Forall_impl; [| exact Hrest]; intros c; by apply compared_grows].
    eapply (compared_grows _ _ l1); [by etrans |]. split; [by eapply run_in_grows |]. split; [by eapply params_held_grows | by apply series_held].
  - destruct (is_repo _ e); [apply IH; by eapply grown_good | apply safe_fail].
Qed.

Lemma safe_CompareRuns base actor inp : good base -> safe R base (CompareRuns actor inp)
  (or_error (fun cs l => Forall (fun c => compared (Team actor) c l) cs)).
Proof.
  intros Hb. unfold CompareRuns. destruct (bool_decide _); [apply safe_fail |]. destruct (_ <? _); [apply safe_fail | by apply safe_compare].
Qed.

(** ** The calls of the handler *)

(** The keys under which a request may answer a run of an earlier one. *)
Definition replay_key (req : track_request) : option (string * string) :=
  match req with
  | ReqStartRun inp => Some (opStartRun, sr_IdempotencyKey inp)
  | ReqSetRunArtifacts _ _ key => Some (opSetRunArtifacts, key)
  | _ => None
  end.

(** What an answer to a caller of a team may hold. *)
Definition owned (team : string) (req : track_request) (resp : track_response) (d : track_db) : Prop :=
  match resp with
  | RespExperiment e => experiment_of team e d
  | RespExperiments l _ => Forall (fun e => e_Team e = team) l
  | RespRun r =>
      (run_in team r d \/ exists op key, replay_key req = Some (op, key) /\ key <> "" /\ keyed_run op key r d) /\
      (params_held r d \/ match req with ReqStartRun inp => r_Params r = sr_Params inp | _ => False end)
  | RespRuns l _ => Forall (fun r => run_in team r d /\ r_Params r = []) l
  | RespHistory series _ => exists run, run_in team run d /\ points_held (r_ID run) (series_points series) d /\
      match req with ReqGetMetricHistory rid _ _ _ _ => r_ID run = rid | _ => False end
  | RespComparisons l => Forall (fun c => compared team c d) l
  | RespDeleted | RespAccepted _ => True
  end.

Definition told (team : string) (req : track_request) (resp : track_response) (d : track_db) : Prop := plausible d -> owned team req resp d.

Lemma track_safe_answering {A} base (m : call (result A track_error)) f (Q : A -> track_db -> Prop) team req :
  safe R base m (or_error Q) -> (forall a l, Q a l -> plausible l -> owned team req (f a) l) -> safe R base (answering m f) (or_error (told team req)).
Proof. intros Hm Hq. unfold answering. eapply safe_map; [exact Hm |]. intros [a|e] l Ha; [exact (Hq a l Ha) | done]. Qed.

Lemma safe_invalid base msg team req : safe R base (invalid (W := W) msg) (or_error (told team req)).
Proof. by apply safe_ret. Qed.

Lemma track_safe_serve base actor req : caller (Team actor) -> good base -> safe R base (serve actor req) (or_error (told (Team actor) req)).
Proof.
  intros Hc Hb. destruct req; cbn [serve]; unfold h_CreateExperiment, h_GetExperiment, h_ListExperiments, h_UpdateExperiment, h_ArchiveExperiment, h_StartRun, h_UpdateRunStatus, h_GetRun, h_ListRuns, h_DeleteRun, h_LogMetrics, h_LogParams, h_SetRunArtifacts, h_GetMetricHistory, h_CompareRuns; cbv zeta; repeat (case_match; [first [by apply safe_invalid | idtac] |] || case_match); try by apply safe_invalid.
  - by eapply track_safe_answering; [apply safe_CreateExperiment |].
  - by eapply track_safe_answering; [apply safe_fetch | intros e l [_ He]].
  - by eapply track_safe_answering; [apply safe_ListExperiments | intros [page next] d].
  - by eapply track_safe_answering; [apply safe_UpdateExperiment |].
  - by eapply track_safe_answering; [apply safe_ArchiveExperiment |].
  - eapply track_safe_answering; [by apply safe_StartRun |]. intros r d [[? ?] | (? & ? & ?)] Hp; [split; [left; by apply run_seen_in | by right] |]. split; [right; by eexists _, _ | by left].
  - eapply track_safe_answering; [by apply safe_FinishRun |]. intros r d (_ & ? & ?) Hp. split; [left; by apply run_seen_in | by left].
  - eapply track_safe_answering; [by apply safe_load |]. intros r d (_ & ? & ?) _. split; by left.
  - by eapply track_safe_answering; [apply safe_ListRuns | intros [page next] d].
  - by eapply track_safe_answering; [apply safe_DeleteRun |].
  - by eapply track_safe_answering; [apply safe_LogMetrics |].
  - by eapply track_safe_answering; [apply safe_LogParams |].
  - eapply track_safe_answering; [by apply safe_SetRunArtifacts |]. intros r d [[? | [? ?]] ?] Hp; (split; [| by left]); [left; by apply run_seen_in |]. right. by eexists _, _.
  - eapply track_safe_answering; [by apply safe_GetMetricHistory |]. intros [series next] d [(run & Hr & Hin) Hpts] _. exists run. rewrite Hr. by split.
  - by eapply track_safe_answering; [apply safe_CompareRuns |].
Qed.

Definition acting (claims : option Claims) (team : string) : Prop := exists c, claims = Some c /\ c_Team c = team.

Lemma track_safe_rpc base claims req : (forall team, acting claims team -> caller team) -> good base ->
  safe R base (rpc claims req) (or_error (fun resp l => exists team, acting claims team /\ told team req resp l)).
Proof.
  intros Hc Hb. unfold rpc. destruct (actorFromContext claims) as [[actor c]|] eqn:E; [| by apply safe_ret].
  assert (acting claims (Team actor)) as Ha.
  { unfold actorFromContext in E. destruct claims as [c'|]; [| done]. destruct (String.eqb _ _); [done |]. destruct (String.eqb _ _); [done |].
    injection E as <- <-. by exists c'. }
  destruct (if reads req then _ else _); [by apply safe_ret |]. eapply safe_weaken; [apply track_safe_serve; [by apply Hc | done] |].
  intros [resp|e] l Ho; [by exists (Team actor) | done].
Qed.
End requests.

(** ** Pools of calls *)

(** The calls: who sends them, and what they ask. *)
Record track_call := { tc_claims : option Claims; tc_req : track_request }.

Definition calling (cs : list track_call) (team : string) : Prop := exists c, c ∈ cs /\ acting (tc_claims c) team.

Section pools.
Context {W : Type} `{Outside W, TrackOutside W, TrackText}.

Definition start (c : track_call) : prog (site W track_db) (result track_response rpc_error) := rpc (tc_claims c) (tc_req c).

Definition answer_right (c : track_call) (a : result track_response rpc_error) (d : track_db) : Prop :=
  or_error (fun resp d => exists team, acting (tc_claims c) team /\ told team (tc_req c) resp d) a d.

Lemma track_pool_safe cs s results s' : good (s_db s) -> par (map start cs) s results s' ->
  rtc (track_write (calling cs)) (s_db s) (s_db s') /\
  (forall i c a, cs !! i = Some c -> results !! i = Some a -> answer_right c a (s_db s')) /\ length results = length cs.
Proof.
  intros Hg Hpar.
  destruct (safe_par (track_regime (calling cs)) (map start cs) s results s' (fun i a l => exists c, cs !! i = Some c /\ answer_right c a l)) as (Hst & Hres & Hlen).
  - intros i m Hi. apply list_lookup_fmap_Some in Hi as (c & -> & Hc). eapply safe_weaken; [apply track_safe_rpc; [| exact Hg] |].
    + intros team Ht. exists c. split; [by eapply list_elem_of_lookup_2 | exact Ht].
    + intros a l Ha. by exists c.
  - exact Hpar.
  - split; [exact (site_steps_keep _ _ _ Hst) |]. split; [| by rewrite Hlen, length_map]. intros i c a Hc Ha. destruct (Hres i a Ha) as (c' & Hc' & Hr). congruence.
Qed.

(** C26. Teams do not meet: however the calls interleave and whatever the link does, the
    experiments, runs, parameters and metrics of a team that made no call are what they
    were, and an answer holds only what is in experiments of the caller's own team: the
    experiments are the team's, the runs are of its experiments, each point of a history or
    a comparison is a row that its own run measured and each parameter one of its own run
    (or of the request that starts it), in the tables as long as the run is. Only a start or
    a write of artifacts with an idempotency key may answer another run, the one recorded
    under that key. *)
Theorem tracker_isolated cs s results s' : good (s_db s) -> plausible (s_db s') -> par (map start cs) s results s' ->
  (forall team, ~ calling cs team -> untouched team (s_db s) (s_db s')) /\
  forall i c resp, cs !! i = Some c -> results !! i = Some (Ok resp) -> exists team, acting (tc_claims c) team /\ owned team (tc_req c) resp (s_db s').
Proof.
  intros Hg Hp Hpar. destruct (track_pool_safe cs s results s' Hg Hpar) as (Hst & Hres & _). split.
  - intros team Hn. by apply (track_grow_untouched (calling cs)).
  - intros i c resp Hc Hr. destruct (Hres i c _ Hc Hr) as (team & Ha & Ho). exists team. split; [exact Ha | by apply Ho].
Qed.

(** C27. What was measured stays: under any interleaving of calls the tables stay coherent -
    one name per team among the experiments in use, every run in an experiment, a run without
    an end exactly while it is running, parameters and metrics only of runs that are there -
    an experiment keeps its team, owner and birth, a run keeps all it was started with and
    leaves RUNNING for good, and while a run is there no parameter or metric value of it
    changes or goes away. *)
Theorem measurements_final cs s results s' : good (s_db s) -> plausible (s_db s') -> par (map start cs) s results s' ->
  good (s_db s') /\
  (forall eid e, experiments (s_db s) !! eid = Some e -> exists e', experiments (s_db s') !! eid = Some e' /\ experiment_kept e e') /\
  (forall rid row', runs (s_db s') !! rid = Some row' -> rid ∈ map fst (born (s_db s)) ->
     exists row, runs (s_db s) !! rid = Some row /\ run_kept (row_run row) (row_run row')) /\
  forall rid, is_Some (runs (s_db s) !! rid) -> is_Some (runs (s_db s') !! rid) ->
    (forall key v, run_params (s_db s) !! (rid, key) = Some v -> run_params (s_db s') !! (rid, key) = Some v) /\
    (forall key v, run_metrics (s_db s) !! (rid, key) = Some v -> run_metrics (s_db s') !! (rid, key) = Some v).
Proof.
  intros Hg Hp Hpar. destruct (track_pool_safe cs s results s' Hg Hpar) as (Hst & _ & _). pose proof (track_grow_kept _ _ _ Hst) as Hk.
  split; [by eapply track_grow_good |]. split; [apply (experiments_stay _ _ Hk) |]. split; [by apply (runs_stay _ _ Hk) |].
  intros rid [row Hr] Hs. destruct (runs_keyed _ Hg rid row Hr) as (_ & Hb & _).
  assert (rid ∈ map fst (born (s_db s))) as Hin by (apply list_elem_of_fmap; by exists (rid, r_ExperimentID (row_run row))).
  split; intros key v; [by apply (params_stay _ _ Hk) | by apply (metrics_stay _ _ Hk)].
Qed.
End pools.
