(* ===== verification/TrackRuns.v ===== *)
(** * Experiments: one call on a link that works

    What finishing a run, logging metrics, comparing runs and replaying a key do, exactly,
    when the call has the tables to itself and every statement is answered. *)

From S2P Require Import Prelude Concur Site GoText GoFormat AuditCapture Keyset TrackModel TrackStore Track TrackTables TrackSafety.
Open Scope fp_scope.

(** ** The order of the points *)

Section order.
Context `{TrackText}.

#[export] Instance metric_gt_strict : StrictOrder metric_gt.
Proof.
  unfold metric_gt, metric_lt. split.
  - intros [[k s] t] [[_ ?] | [_ ?]]; cbn in *; [done | lia].
  - intros [[k1 s1] t1] [[k2 s2] t2] [[k3 s3] t3]. cbn [fst snd]. intros [[C1 N1] | [-> H1]] [[C2 N2] | [-> H2]].
    + left. split; [by etrans |]. intros ->. apply N1. by apply (anti_symm collate).
    + by left.
    + by left.
    + right. split; [done | lia].
Qed.

#[export] Instance metric_le_trans : Transitive metric_le.
Proof.
  intros p q r. unfold metric_le. intros [H1 | E1] [H2 | E2].
  - left. exact (transitivity (R := metric_gt) H2 H1).
  - left. by rewrite <- E2.
  - left. by rewrite E1.
  - right. by rewrite E1.
Qed.

#[export] Instance metric_le_total : Total metric_le.
Proof.
  intros p q. unfold metric_le, metric_lt. destruct (metric_key p) as [[k s] t], (metric_key q) as [[k' s'] t']. cbn [fst snd].
  destruct (decide (k = k')) as [-> | Hne].
  - destruct (Z.lt_trichotomy s s') as [? | [-> | ?]]; [left; left; right; split; [done | lia] | | right; left; right; split; [done | lia]].
    destruct (Z.lt_trichotomy t t') as [? | [-> | ?]]; [left; left; right; split; [done | lia] | left; by right | right; left; right; split; [done | lia]].
  - destruct (total collate k k'); [left | right]; left; left; (split; [done | congruence]).
Qed.

(** All points of a run in the order of its pages. *)
Definition history (rid : string) (d : track_db) : list MetricPoint := merge_sort metric_le (points_of rid d).

Lemma points_of_in rid d p : p ∈ points_of rid d <-> run_metrics d !! (rid, point_key p) = Some (m_Value p, m_Timestamp p).
Proof.
  unfold points_of. rewrite list_elem_of_fmap. split.
  - intros ([[r [k s]] [v t]] & -> & Hin). apply list_elem_of_In, filter_In in Hin as [Hin Hr]. cbn [fst] in Hr. apply String.eqb_eq in Hr. subst r.
    by apply list_elem_of_In, elem_of_map_to_list in Hin.
  - intros Hp. exists ((rid, point_key p), (m_Value p, m_Timestamp p)). split; [by destruct p |].
    apply list_elem_of_In, filter_In. split; [by apply list_elem_of_In, elem_of_map_to_list | apply String.eqb_refl].
Qed.

Lemma points_of_once rid d : NoDup (map point_key (points_of rid d)).
Proof.
  unfold points_of. rewrite map_map. pose proof (NoDup_fst_map_to_list (run_metrics d)) as Hn. revert Hn. generalize (map_to_list (run_metrics d)). intros l.
  induction l as [|[[r [k s]] v] l IH]; [constructor |]. cbn [fmap list_fmap map fst List.filter]. intros [Hx Hn]%list.NoDup_cons. destruct (String.eqb_spec r rid) as [-> |]; [| by apply IH].
  cbn [map point_key m_Key m_Step fst snd]. apply list.NoDup_cons. split; [| by apply IH].
  intros ([[r' [k' s']] v'] & [= -> ->] & Hin)%list_elem_of_fmap. apply Hx, list_elem_of_fmap. exists ((r', (k', s')), v').
  apply list_elem_of_In, filter_In in Hin as [Hin Hr]. cbn in Hr. apply String.eqb_eq in Hr. subst. split; [done | by apply list_elem_of_In].
Qed.

Lemma history_in rid d p : p ∈ history rid d <-> p ∈ points_of rid d.
Proof. unfold history. by rewrite merge_sort_Permutation. Qed.

Lemma history_descends rid d : descends metric_key metric_gt (history rid d).
Proof.
  assert (NoDup (map metric_key (history rid d))) as Hm.
  { apply (NoDup_fmap_1 fst). rewrite <- list_fmap_compose. change (fst ∘ metric_key) with point_key. unfold history. rewrite merge_sort_Permutation. apply points_of_once. }
  pose proof (StronglySorted_merge_sort metric_le (points_of rid d)) as Hs. fold (history rid d) in Hs. unfold descends.
  induction Hs as [|x k Hk IH Hx]; [constructor |]. apply list.NoDup_cons in Hm as [Hx' Hm]. constructor; [by apply IH |].
  apply List.Forall_forall. intros y Hy. rewrite List.Forall_forall in Hx. destruct (Hx y Hy) as [? | He]; [done |].
  exfalso. apply Hx'. rewrite He. apply list_elem_of_fmap. exists y. split; [done | by apply list_elem_of_In].
Qed.

Lemma filter_everything (P : MetricPoint -> bool) l : (forall p, P p = true) -> List.filter P l = l.
Proof. intros Hp. induction l as [|x l IH]; [done |]. cbn. by rewrite Hp, IH. Qed.

(** What the page tokens of the points are asked for: not empty, and decoded to their key. *)
Definition metric_tokens (rid : string) (d : track_db) : Prop :=
  forall p, p ∈ points_of rid d -> encodeMetricCursor (metric_key p) <> "" /\ decodeMetricCursor (encodeMetricCursor (metric_key p)) = Some (metric_key p).
End order.

Section answers.
Context {W : Type} `{Outside W, TrackOutside W, TrackText}.
Hypothesis link_works : reliable (W := W).

#[local] Notation at_ w d := {| s_world := w; s_db := d |}.

(** ** Reads *)

(** The run as a read gives it. *)
Definition with_its_params (rid : string) (d : track_db) (r : Run) : Run := with_run_params (merge_sort by_param (params_of rid d)) r.

Lemma add_params_works rid r w d : exists w', run (add_params rid r) (at_ w d) = (Ok (with_its_params rid d r), at_ w' d).
Proof. unfold add_params. rewrite run_query_works by done. by eexists. Qed.

Lemma repo_GetRun_works rid row w d : runs d !! rid = Some row ->
  exists w', run (repo_GetRun rid) (at_ w d) = (Ok (with_its_params rid d (row_run row)), at_ w' d).
Proof. intros Hr. unfold repo_GetRun. rewrite run_query_works by done. unfold scanRun. rewrite Hr. apply add_params_works. Qed.

(** A team sees a run: it and its experiment are there, under ids that are not blank. *)
Record seen_by (team rid : string) (row : run_row) (d : track_db) : Prop := {
  seen_row : runs d !! rid = Some row;
  seen_id : r_ID (row_run row) = rid;
  seen_team : of_team team d (row_run row) = true;
  seen_named : TrimSpace rid <> "" /\ TrimSpace (r_ExperimentID (row_run row)) <> "";
}.

Lemma fetch_works eid team e w d : experiments d !! eid = Some e -> e_Team e = team -> TrimSpace eid <> "" ->
  exists w', run (fetchExperimentForTeam eid team) (at_ w d) = (Ok e, at_ w' d).
Proof.
  intros He Ht Hne%String.eqb_neq. unfold fetchExperimentForTeam. rewrite Hne, run_query_works by done. unfold GetByID. rewrite He. cbn [try].
  rewrite Ht, String.eqb_refl. by eexists.
Qed.

Lemma load_works team rid row w d : seen_by team rid row d ->
  exists w', run (loadRunForTeam rid team) (at_ w d) = (Ok (with_its_params rid d (row_run row)), at_ w' d).
Proof.
  intros [Hr _ (e & He & Ht)%of_team_spec [Hid%String.eqb_neq Heid]]. unfold loadRunForTeam. rewrite Hid.
  destruct (repo_GetRun_works rid row w d Hr) as [w1 E1]. rewrite run_bind, E1. cbn [try].
  destruct (fetch_works (r_ExperimentID (row_run row)) team e w1 d He Ht Heid) as [w2 E2].
  change (r_ExperimentID (with_its_params rid d (row_run row))) with (r_ExperimentID (row_run row)). rewrite run_bind, E2. by exists w2.
Qed.

(** ** The whole history is read *)

Lemma drain_reads fuel rid d : metric_tokens rid d -> forall token c all w, token_cursor decodeMetricCursor token = Some c ->
  exists w', run (drain_history fuel rid token all) (at_ w d) = (Ok (all ++ follow metric_key metric_gt fuel (Z.to_nat MaxMetricPageSize) c (history rid d)), at_ w' d).
Proof.
  intros Ht. induction fuel as [|fuel IH]; intros token c all w Hc; cbn [drain_history follow]; [exists w; by rewrite app_nil_r |].
  rewrite run_query_works by done. unfold GetMetricHistory, read_cursor. cbn [Pagination PageToken q_RunID].
  rewrite filter_everything by done. fold (history rid d). change (page_size _) with MaxMetricPageSize.
  assert ((if String.eqb token "" then Ok None else match decodeMetricCursor token with Some c => Ok (Some c) | None => Err (Wrap "metric history" (External "invalid page token")) end)
    = Ok c :> result _ track_error) as ->.
  { unfold token_cursor in Hc. destruct (String.eqb token ""); [by injection Hc as <- |]. destruct (decodeMetricCursor token); [| done]. by injection Hc as <-. }
  cbn [rbind]. destruct (page metric_key metric_gt (Z.to_nat MaxMetricPageSize) c (history rid d)) as [items [k|]] eqn:E; cbn [try].
  - apply page_next_below in E as (p & Hp%history_in & Hb & ->). destruct (Ht p Hp) as [Hne Hd]. apply String.eqb_neq in Hne. rewrite Hne. cbn [orb].
    assert (String.eqb (encodeMetricCursor (metric_key p)) token = false) as ->.
    { apply String.eqb_neq. intros Heq. unfold token_cursor in Hc. rewrite <- Heq, Hne, Hd in Hc. injection Hc as <-. cbn [below_cursor] in Hb.
      apply bool_decide_eq_true in Hb. by apply (irreflexivity metric_gt) in Hb. }
    destruct (IH (encodeMetricCursor (metric_key p)) (Some (metric_key p)) (all ++ items) (after_link w)) as [w' Hw].
    { unfold token_cursor. by rewrite Hne, Hd. }
    exists w'. by rewrite app_assoc.
  - cbn [String.eqb orb]. rewrite app_nil_r. by eexists.
Qed.

Lemma finals_works rid w d : metric_tokens rid d -> (length (points_of rid d) < Z.to_nat MaxMetricPageSize * maxPages)%nat ->
  exists w', run (computeFinalsFromHistory rid) (at_ w d) = (Ok (ComputeFinalMetrics (history rid d)), at_ w' d).
Proof.
  intros Ht Hl. unfold computeFinalsFromHistory. destruct (drain_reads maxPages rid d Ht "" None [] w eq_refl) as [w' E]. rewrite run_bind, E. exists w'. cbn [app].
  rewrite follow_all; [done | apply _ | | apply history_descends |].
  - change (0 < Z.to_nat 5000)%nat. lia.
  - unfold history. by rewrite merge_sort_Permutation.
Qed.

(** C28. Finishing a run is exact: however long its history - as far as the pages that are
    read reach - the run is set to the asked state with the moment and, as its headline, for
    every metric the point of its highest step; nothing else changes, the event tells the
    same, and the answer is the row. *)
Theorem finish_run_exact actor inp row fs w d (rid := fr_RunID inp) :
  seen_by (Team actor) rid row d -> r_Status (row_run row) = RunStatusRunning -> IsTerminal (TargetStatus inp) = true ->
  metric_tokens rid d -> Z.of_nat (length (points_of rid d)) < 5000 * 100000 -> finals_column (ComputeFinalMetrics (history rid d)) = Some fs ->
  (forall p, p ∈ ComputeFinalMetrics (history rid d) <-> p ∈ points_of rid d /\ forall q, q ∈ points_of rid d -> m_Key q = m_Key p -> q = p \/ m_Step q < m_Step p) /\
  exists now w', let ended := ended_run (TargetStatus inp) now fs (row_run row) in
    run (FinishRun actor inp) (at_ w d) =
      (Ok (with_its_params rid d ended),
       at_ w' (with_published (RunFinishedEvent rid (r_ExperimentID ended) (r_ModelVersionID ended) (TargetStatus inp) fs (timestamptz now))
                (with_runs (<[rid := {| row_run := ended; row_idem := row_idem row |}]> (runs d)) d))).
Proof.
  intros Hseen Hs Ht Htok Hl Hfs. split.
  - intros p. rewrite final_metrics_highest by (unfold history; rewrite merge_sort_Permutation; apply points_of_once).
    setoid_rewrite history_in. done.
  - destruct (load_works (Team actor) rid row w d Hseen) as [w1 E1]. unfold FinishRun. rewrite run_bind. fold rid. rewrite E1. cbn [try].
    change (r_Status (with_its_params rid d (row_run row))) with (r_Status (row_run row)).
    change (r_ID (with_its_params rid d (row_run row))) with (r_ID (row_run row)). rewrite (seen_id _ _ _ _ Hseen).
    unfold CanTransitionTo. rewrite Hs, bool_decide_eq_true_2 by done. cbn [negb]. rewrite Ht. cbn [negb].
    destruct (finals_works rid w1 d Htok) as [w2 E2]; [unfold maxPages, MaxMetricPageSize; lia |]. rewrite run_bind, E2. cbn [try].
    rewrite run_ask_at. set (now := (Now w2).1). exists now. unfold UpdateRunStatus. rewrite run_bind, run_transact_works by done.
    unfold update_status, set_run. rewrite Hfs, (seen_row _ _ _ _ Hseen).
    rewrite (bool_decide_eq_false_2 (TargetStatus inp = _)) by (intros Hu; by rewrite Hu in Ht). cbn [andb fst snd try].
    match goal with |- context [run (add_params _ ?r) (at_ ?w3 ?d3)] => destruct (add_params_works rid r w3 d3) as [w4 E4] end.
    rewrite E4. cbn [try]. unfold publishRunFinished, publish_event. rewrite run_logged_at. eexists. cbn. by rewrite (seen_id _ _ _ _ Hseen).
Qed.

(** ** Logging a batch *)

Lemma find_map_compose {A B} (P : B -> bool) (f : A -> B) l : List.find P (map f l) = f <$> List.find (fun x => P (f x)) l.
Proof. induction l as [|x l IH]; [done |]. cbn. by destruct (P (f x)). Qed.

Lemma logged_point rid now points l k : (insert_metrics rid (StampMetricTimestamps (DedupMetricPoints points) now) l).2 !! (rid, k) =
  match l !! (rid, k) with
  | Some v => Some v
  | None => (fun p => (m_Value p, timestamptz now)) <$> List.find (fun p => bool_decide (point_key p = k)) points
  end.
Proof.
  unfold insert_metrics. rewrite insert_new_lookup. destruct (l !! (rid, k)); [done |]. unfold StampMetricTimestamps, DedupMetricPoints.
  rewrite map_map, find_map_compose. cbn [fst snd m_Value m_Timestamp]. destruct (dedup_points_spec points ∅) as (_ & _ & Hf).
  rewrite <- (Hf k) by set_solver. generalize (dedup_points ∅ points). intros ps.
  induction ps as [|p ps IH]; [done |]. cbn [List.find]. rewrite (bool_decide_ext ((rid, point_key _) = (rid, k)) (point_key p = k)); [by destruct (bool_decide _) |].
  change (point_key {| m_Key := m_Key p; m_Value := m_Value p; m_Step := m_Step p; m_Timestamp := now |}) with (point_key p). split; [by intros [= ->] | by intros ->].
Qed.

(** A batch is logged once and never over what is there: the points of the run become
    those that were there and, for every key and step that was not, the first of the batch,
    stamped with the server's clock; the answer counts the new ones. Only the points of
    this run change, and its key is recorded: the same request again answers nothing new and
    changes nothing. *)
Theorem log_metrics_exact actor inp row w d (rid := lm_RunID inp) :
  seen_by (Team actor) rid row d -> r_Status (row_run row) = RunStatusRunning -> Points inp <> [] -> Z.of_nat (length (Points inp)) <= 1000 ->
  check_points (Points inp) = None -> idempotency_keys d !! (opLogMetrics, lm_IdempotencyKey inp) = None ->
  exists now n m w', let d' := recordIdempotencyKeyTx opLogMetrics (lm_IdempotencyKey inp) rid (with_metrics m d) in
    run (LogMetrics actor inp) (at_ w d) = (Ok n, at_ w' d') /\
    (forall k, m !! (rid, k) = match run_metrics d !! (rid, k) with
       | Some v => Some v
       | None => (fun p => (m_Value p, timestamptz now)) <$> List.find (fun p => bool_decide (point_key p = k)) (Points inp) end) /\
    (forall j k, j <> rid -> m !! (j, k) = run_metrics d !! (j, k)) /\
    Z.of_nat (size m) = Z.of_nat (size (run_metrics d)) + n /\
    (lm_IdempotencyKey inp <> "" -> forall w2, exists w3, run (LogMetrics actor inp) (at_ w2 d') = (Ok 0, at_ w3 d')).
Proof.
  intros Hseen Hs Hne Hlen Hchk Hkey.
  assert (exists w0, forall B (k : result (option string) track_error -> prog (site W track_db) B),
    run (do! x := idem_Lookup opLogMetrics (lm_IdempotencyKey inp) in k x) (at_ w d) = run (k (Ok None)) (at_ w0 d)) as [w0 E0].
  { unfold idem_Lookup. destruct (String.eqb _ ""); [by exists w |]. exists (after_link w). intros B k. rewrite run_bind, run_query_works by done.
    unfold Lookup. by rewrite Hkey. }
  destruct (load_works (Team actor) rid row w0 d Hseen) as [w1 E1].
  set (now := (Now w1).1). set (batch := StampMetricTimestamps (DedupMetricPoints (Points inp)) now).
  destruct (insert_metrics rid batch (run_metrics d)) as [n m] eqn:Em.
  assert (exists w', run (LogMetrics actor inp) (at_ w d) = (Ok n, at_ w' (recordIdempotencyKeyTx opLogMetrics (lm_IdempotencyKey inp) rid (with_metrics m d)))) as [w' Hrun].
  { unfold LogMetrics. rewrite E0. cbn [try]. unfold MaxMetricsPerBatch. rewrite (proj2 (Z.ltb_ge _ _)) by lia. rewrite bool_decide_eq_false_2 by done.
    fold rid. rewrite run_bind, E1. cbn [try]. change (r_Status (with_its_params rid d (row_run row))) with (r_Status (row_run row)).
    rewrite bool_decide_eq_true_2 by done. cbn [negb]. rewrite Hchk, run_ask_at. fold now.
    change (r_ID (with_its_params rid d (row_run row))) with (r_ID (row_run row)). rewrite (seen_id _ _ _ _ Hseen), run_transact_works by done.
    fold batch. unfold AppendMetrics, AppendMetricsIdem. rewrite bool_decide_eq_false_2, (seen_row _ _ _ _ Hseen), bool_decide_eq_false_2, Em; [| done |].
    - cbn [fst snd recordIdempotencyKeyTx String.eqb try]. unfold idem_Record, recordIdempotencyKeyTx. destruct (String.eqb _ ""); [by eexists |].
      rewrite run_transact_works by done. by eexists.
    - unfold batch, StampMetricTimestamps, DedupMetricPoints. by destruct (Points inp). }
  exists now, n, m, w'. split; [exact Hrun |]. split; [intros k; rewrite <- logged_point; fold batch; by rewrite Em |].
  split; [intros j k Hj; rewrite <- (insert_metrics_other rid batch (run_metrics d) j k Hj), Em; done |]. split.
  - pose proof (insert_new_count (map (fun p => ((rid, point_key p), (m_Value p, timestamptz (m_Timestamp p)))) batch) (run_metrics d)) as Hn.
    change (insert_new _ _) with (insert_metrics rid batch (run_metrics d)) in Hn. by rewrite Em in Hn.
  - intros Hk%String.eqb_neq w2. unfold LogMetrics, idem_Lookup, recordIdempotencyKeyTx. rewrite Hk, run_bind, run_query_works by done. cbn [try].
    unfold Lookup, record_key. change (idempotency_keys (with_metrics m d)) with (idempotency_keys d). rewrite Hkey. cbn [idempotency_keys with_keys].
    rewrite lookup_insert_eq. by eexists.
Qed.

(** ** A key answers whoever sends it *)

(** A replayed key crosses teams: the answer to a start whose idempotency key was ever
    recorded is the run recorded under it, with its parameters and artifacts - whoever asks,
    of whichever team, for whichever experiment, and even for a request that would be
    refused; nothing is written. *)
Theorem replayed_key_crosses_teams actor inp rid row w d :
  sr_IdempotencyKey inp <> "" -> idempotency_keys d !! (opStartRun, sr_IdempotencyKey inp) = Some rid -> runs d !! rid = Some row ->
  exists w', run (StartRun actor inp) (at_ w d) = (Ok (with_its_params rid d (row_run row)), at_ w' d).
Proof.
  intros Hne%String.eqb_neq Hk Hr. unfold StartRun, idem_Lookup. rewrite Hne, run_bind, run_query_works by done. unfold Lookup. rewrite Hk. cbn [try run].
  by apply repo_GetRun_works.
Qed.
End answers.

(** ** A comparison reads one small page *)

Lemma of_keys_length points ks : NoDup ks ->
  length (concat (map (fun k => of_key k points) ks)) = length (List.filter (fun p => bool_decide (m_Key p ∈ ks)) points).
Proof.
  induction 1 as [|k ks Hk Hn IH]; cbn [map concat].
  { induction points as [|p points IHp]; [done |]. cbn [List.filter]. by rewrite bool_decide_eq_false_2 by apply list.not_elem_of_nil. }
  rewrite length_app, IH. clear IH. unfold of_key. induction points as [|p points IHp]; [done |]. cbn [List.filter].
  destruct (String.eqb_spec (m_Key p) k) as [Hp | Hp].
  - rewrite (bool_decide_eq_true_2 (m_Key p ∈ k :: ks)) by (subst k; by left). rewrite (bool_decide_eq_false_2 (m_Key p ∈ ks)) by (by subst k). cbn [length]. lia.
  - rewrite (bool_decide_ext (m_Key p ∈ k :: ks) (m_Key p ∈ ks)) by (rewrite elem_of_cons; tauto). destruct (bool_decide (m_Key p ∈ ks)); cbn [length]; lia.
Qed.

Lemma filter_le {A} (P : A -> bool) l : (length (List.filter P l) <= length l)%nat.
Proof. induction l as [|x l IH]; [done |]. cbn. destruct (P x); cbn; lia. Qed.

Lemma series_length points : (length (concat (map ms_Points (GroupIntoSeries points))) <= length points)%nat.
Proof.
  unfold GroupIntoSeries. destruct (group points [] ∅) as [order byKey] eqn:E.
  destruct (group_spec points [] ∅) as [E1 E2]; [intros k; rewrite lookup_empty; split; [by intros ?%list.not_elem_of_nil | by intros [? ?]] |].
  rewrite E in E1, E2. cbn [fst snd app] in E1, E2. rewrite map_map. cbn [ms_Points].
  transitivity (length (concat (map (fun k => of_key k points) order))).
  - clear E E1. induction order as [|k order IH]; [done |]. cbn [map concat]. rewrite !length_app, E2, lookup_empty, SliceStable_perm. cbn in IH |- *. lia.
  - rewrite of_keys_length; [apply filter_le |]. rewrite E1. apply (first_seen_spec _ []).
Qed.

Section comparison.
Context {W : Type} `{Outside W, TrackOutside W, TrackText}.

Lemma history_page keys rid d points next : GetMetricHistory (compare_query rid keys) d = Ok (points, next) -> (length points <= 20)%nat.
Proof.
  unfold GetMetricHistory, read_cursor. cbn [compare_query Pagination PageToken String.eqb rbind].
  match goal with |- context [page ?k ?lt ?n None ?rows] => pose proof (page_length k lt n None rows) as Hp; destruct (page k lt n None rows) as [out nxt] end.
  cbn [fst] in Hp. intros [= -> _]. exact Hp.
Qed.

Definition small (c : RunComparison) : Prop := (length (concat (map ms_Points (Series c))) <= 20)%nat.

Lemma compare_small team keys ids d : alone (compare_each (W := W) team keys ids) d (fun r _ => forall cs, r = Ok cs -> Forall small cs).
Proof.
  revert d. induction ids as [|rid ids IH]; intros d; cbn [compare_each]; [apply alone_ret; by intros cs [= <-] |].
  eapply (alone_seq _ _ _ (fun _ _ => True)); [by intros w a s' _ |]. intros [run|e] d1 _; [| destruct (is_repo _ e); [apply IH | by apply alone_ret]].
  apply alone_query. intros w r Hr. destruct r as [[points next]|e]; [| by apply alone_ret]. destruct Hr as [Hr | ?]; [| done]. symmetry in Hr. cbn [try].
  eapply alone_seq; [apply IH |]. intros [rest|e] d2 Hrest; [| by apply alone_ret]. apply alone_ret. intros cs [= <-]. constructor; [| by apply Hrest].
  unfold small. cbn [Series]. etrans; [apply series_length | by eapply history_page].
Qed.

(** A comparison shows at most twenty points of a run: whatever its history, whatever the
    keys asked for, all series of a run in an answer of [CompareRuns] together hold what the
    first page of the default size gave, and nothing tells that there is more. *)
Theorem compare_reads_first_page actor inp d :
  alone (CompareRuns (W := W) actor inp) d (fun r _ => forall cs, r = Ok cs -> Forall small cs).
Proof.
  unfold CompareRuns. destruct (bool_decide _); [by apply alone_ret |]. destruct (_ <? _); [by apply alone_ret |]. apply compare_small.
Qed.
End comparison.

(** ** Experiments on a concrete service

    A text order, page tokens, a clock and a publisher, tables with two teams, and the
    theorems about the experiment tracker at them; what happens at the borders of the checks
    and between two calls as examples. *)
Module Demo.

#[export] Instance track_tokens : TrackText := {|
  track_collation := {| collate := str_le; collate_order := str_le_order |}; tags_column := Some; finals_column := Some; artifacts_column := Some;
  json_size l := Some (Z.of_nat (length l)); encodeListCursor := token; decodeListCursor := read_token; encodeMetricCursor := token;
  decodeMetricCursor := read_token |}.

(** The clock ticks; statements share the fates that are left; the publisher is there. *)
Record world := { ticks : Z; fates : list fate }.

#[export] Instance world_calls : Outside world := {|
  Now w := (ticks w * Second, {| ticks := ticks w + 1; fates := fates w |});
  NewID w := ("id-" +:+ Itoa (ticks w), {| ticks := ticks w + 1; fates := fates w |});
  link w := match fates w with [] => (Works, w) | f :: fs => (f, {| ticks := ticks w; fates := fs |}) end |}.

#[export] Instance world_track : TrackOutside world := {| publish ev w := (None, w) |}.

(** *** Tables *)

Definition experiment (eid team name : string) : Experiment := {|
  e_ID := eid; e_Name := name; e_Description := ""; e_Tags := ∅; e_OwnerID := "owner"; e_Team := team; e_CreatedAt := Second; e_UpdatedAt := Second;
  ArchivedAt := None |}.

Definition running (rid eid : string) : Run := {|
  r_ID := rid; r_ExperimentID := eid; r_DisplayName := ""; r_Status := RunStatusRunning; r_Source := RunSourceAPI; r_ModelVersionID := ""; r_OwnerID := "owner";
  r_Params := []; r_FinalMetrics := []; r_StartedAt := 2 * Second; r_EndedAt := None; r_Artifacts := None |}.

Definition row_of (r : Run) : run_row := {| row_run := r; row_idem := None |}.

Definition tables : track_db := {|
  experiments := <["ea" := experiment "ea" "red" "exp"]> (<["eb" := experiment "eb" "blue" "exp"]> ∅);
  runs := <["ra" := row_of (running "ra" "ea")]> (<["rb" := row_of (running "rb" "eb")]> ∅);
  run_params := <[("ra", "lr") := "0.1"]> ∅;
  run_metrics := <[("ra", ("loss", 1)) := (50, 3 * Second)]> (<[("ra", ("loss", 2)) := (40, 4 * Second)]> ∅);
  idempotency_keys := <[(opStartRun, "k1") := "ra"]> ∅; born := [("ra", "ea"); ("rb", "eb")]; published := [] |}.

Lemma keyed_two {A} (P : string -> A -> Prop) i j x y : P i x -> P j y -> map_Forall P (<[i := x]> (<[j := y]> (∅ : gmap string A))).
Proof. intros Hx Hy. apply map_Forall_insert_2; [exact Hx |]. apply map_Forall_insert_2; [exact Hy | apply map_Forall_empty]. Qed.

Lemma track_tables_good : good tables.
Proof.
  split; cbn [tables experiments runs run_params run_metrics born].
  - by apply keyed_two.
  - intros i j e f. rewrite !lookup_insert_Some, !lookup_empty. intros Hi Hj Ht. revert Ht.
    destruct Hi as [[<- <-] | [_ [[<- <-] | [_ ?]]]], Hj as [[<- <-] | [_ [[<- <-] | [_ ?]]]]; done.
  - apply keyed_two; (split; [done |]); (split; [| done]); [by left | right; by left].
  - by apply keyed_two.
  - repeat constructor; by eexists.
  - apply map_Forall_insert_2; [by eexists | apply map_Forall_empty].
  - apply map_Forall_insert_2; [by eexists |]. apply map_Forall_insert_2; [by eexists | apply map_Forall_empty].
Qed.

Definition start_site (fs : list fate) : site world track_db := {| s_world := {| ticks := 10; fates := fs |}; s_db := tables |}.

Definition member (team : string) : option Claims := Some {| c_UserID := "u"; c_Email := ""; c_Team := team; c_Role := ""; c_Scopes := [scopeWrite] |}.

Definition ask_as (team : string) (req : track_request) : track_call := {| tc_claims := member team; tc_req := req |}.

(** The red team logs, looks into a blue run and ends its own. *)
Definition calls : list track_call :=
  [ask_as "red" (ReqLogMetrics "ra" [("loss", 7, 2); ("loss", 30, 3); ("loss", 31, 3)] "m1"); ask_as "red" (ReqGetRun "rb");
   ask_as "red" (ReqLogMetrics "rb" [("loss", 1, 1)] ""); ask_as "red" (ReqUpdateRunStatus "ra" 2)].

Definition final : list (result track_response rpc_error) * site world track_db := run_all (map start calls) (start_site []).

Definition status_of (r : result track_response rpc_error) : option rpc_error := match r with Err e => Some e | Ok _ => None end.

Example track_answers : map status_of final.1 = [None; Some (Status NotFound "run not found"); Some (Status NotFound "run not found"); None].
Proof. vm_compute. reflexivity. Qed.

Lemma final_plausible : plausible (s_db final.2).
Proof.
  assert (map fst (born (s_db final.2)) = ["ra"; "rb"]) as Hb by (vm_compute; reflexivity). unfold plausible. rewrite Hb.
  apply list.NoDup_cons. split; [by intros Hin%list_elem_of_singleton |]. apply NoDup_singleton.
Qed.

(** *** The theorems at them *)

Lemma tracker_isolated_witness :
  untouched "blue" tables (s_db final.2) /\
  exists r, final.1 !! 3%nat = Some (Ok (RespRun r)) /\ r_Status r = RunStatusFinished /\ (r_ID r, r_ExperimentID r) ∈ born (s_db final.2).
Proof.
  destruct (tracker_isolated calls (start_site []) final.1 final.2 track_tables_good final_plausible (run_all_par _ _)) as [Hu Ho]. split.
  - apply Hu. intros (c & Hin & cl & Hc & Ht). unfold calls in Hin.
    repeat (apply elem_of_cons in Hin as [-> | Hin]; [injection Hc as <-; discriminate Ht |]). by apply list.not_elem_of_nil in Hin.
  - assert (exists r, final.1 !! 3%nat = Some (Ok (RespRun r)) /\ r_Status r = RunStatusFinished) as (r & Hr & Hs) by (vm_compute; eexists; split; reflexivity).
    exists r. split; [exact Hr |]. split; [exact Hs |].
    destruct (Ho 3%nat (ask_as "red" (ReqUpdateRunStatus "ra" 2)) _ eq_refl Hr) as (team & _ & [[Hb _] | (op & key & Hk & _)] & _); [exact Hb | discriminate Hk].
Defined.

Lemma measurements_final_witness :
  run_metrics (s_db final.2) !! ("ra", ("loss", 2)) = Some (40, 4 * Second) /\
  exists row', runs (s_db final.2) !! "ra" = Some row' /\ run_kept (running "ra" "ea") (row_run row').
Proof.
  destruct (measurements_final calls (start_site []) final.1 final.2 track_tables_good final_plausible (run_all_par _ _)) as (_ & _ & Hr & Hm).
  assert (exists row', runs (s_db final.2) !! "ra" = Some row') as [row' Hrow] by (vm_compute; eexists; reflexivity). split.
  - apply (proj2 (Hm "ra" ltac:(by eexists) ltac:(by eexists))). reflexivity.
  - exists row'. split; [exact Hrow |]. destruct (Hr "ra" row' Hrow ltac:(by left)) as (row & E & Hk). injection E as <-. exact Hk.
Defined.

(** *** One call on a link that works *)

Record steady := { tick : Z }.
#[export] Instance steady_calls : Outside steady := {|
  Now w := (tick w * Second, {| tick := tick w + 1 |}); NewID w := ("id-" +:+ Itoa (tick w), {| tick := tick w + 1 |}); link w := (Works, w) |}.
#[export] Instance steady_track : TrackOutside steady := {| publish ev w := (None, w) |}.

Lemma steady_link_works : reliable (W := steady).
Proof. by intros w. Qed.

Lemma ra_seen : seen_by "red" "ra" (row_of (running "ra" "ea")) tables.
Proof. by split. Qed.

Lemma ra_tokens : metric_tokens "ra" tables.
Proof. intros p _. split; [done | apply read_token_token]. Qed.

Definition red : Actor := {| UserID := "u"; Team := "red" |}.
Definition blue : Actor := {| UserID := "v"; Team := "blue" |}.

Lemma finish_run_exact_witness : exists now w',
  (run (FinishRun red {| fr_RunID := "ra"; TargetStatus := RunStatusFinished |}) {| s_world := {| tick := 10 |}; s_db := tables |}).2 =
  {| s_world := w';
     s_db := with_published (RunFinishedEvent "ra" "ea" "" RunStatusFinished [{| m_Key := "loss"; m_Value := 40; m_Step := 2; m_Timestamp := 4 * Second |}] (timestamptz now))
       (with_runs (<["ra" := row_of (ended_run RunStatusFinished now [{| m_Key := "loss"; m_Value := 40; m_Step := 2; m_Timestamp := 4 * Second |}] (running "ra" "ea"))]> (runs tables)) tables) |}.
Proof.
  destruct (finish_run_exact steady_link_works red {| fr_RunID := "ra"; TargetStatus := RunStatusFinished |} _
    [{| m_Key := "loss"; m_Value := 40; m_Step := 2; m_Timestamp := 4 * Second |}] {| tick := 10 |} tables ra_seen eq_refl eq_refl ra_tokens
    ltac:(vm_compute; reflexivity) ltac:(vm_compute; reflexivity)) as (_ & now & w' & Hrun).
  exists now, w'. rewrite Hrun. reflexivity.
Defined.

Definition batch : LogMetricsInput := {|
  lm_RunID := "ra"; Points := [{| m_Key := "loss"; m_Value := 7; m_Step := 2; m_Timestamp := 0 |}; {| m_Key := "loss"; m_Value := 30; m_Step := 3; m_Timestamp := 0 |}];
  lm_IdempotencyKey := "m1" |}.

Lemma log_metrics_exact_witness : exists now n m w',
  run (LogMetrics red batch) {| s_world := {| tick := 10 |}; s_db := tables |} = (Ok n, {| s_world := w'; s_db := record_key opLogMetrics "m1" "ra" (with_metrics m tables) |}) /\
  m !! ("ra", ("loss", 2)) = Some (40, 4 * Second) /\ m !! ("ra", ("loss", 3)) = Some (30, timestamptz now).
Proof.
  destruct (log_metrics_exact steady_link_works red batch _ {| tick := 10 |} tables ra_seen eq_refl ltac:(done) ltac:(done) eq_refl eq_refl) as (now & n & m & w' & Hrun & Hm & _).
  exists now, n, m, w'. split; [exact Hrun |]. split; [exact (Hm ("loss", 2)) | exact (Hm ("loss", 3))].
Defined.

Lemma replayed_key_crosses_teams_witness : exists w' r,
  run (StartRun blue {| sr_ExperimentID := "eb"; sr_DisplayName := ""; sr_ModelVersionID := ""; sr_Params := []; sr_IdempotencyKey := "k1" |})
    {| s_world := {| tick := 10 |}; s_db := tables |} = (Ok r, {| s_world := w'; s_db := tables |}) /\
  r_ExperimentID r = "ea" /\ of_team "red" tables r = true.
Proof.
  destruct (replayed_key_crosses_teams steady_link_works blue
    {| sr_ExperimentID := "eb"; sr_DisplayName := ""; sr_ModelVersionID := ""; sr_Params := []; sr_IdempotencyKey := "k1" |} "ra" _ {| tick := 10 |} tables
    ltac:(done) eq_refl eq_refl) as [w' Hrun].
  eexists w', _. split; [exact Hrun |]. split; reflexivity.
Defined.

(** *** Between two calls, and at the borders *)

Definition two (req req' : track_request) (order : list nat) : list (prog (site world track_db) (result track_response rpc_error)) * site world track_db :=
  schedule order (map start [ask_as "red" req; ask_as "red" req']) (start_site []).

Definition status_in (rid : string) (d : track_db) : option RunStatus := (fun row => r_Status (row_run row)) <$> runs d !! rid.

(** Two calls that end one run: both read RUNNING, both answer well, and the later write
    replaces the terminal status of the earlier one. *)
Example ended_twice :
  let end_as n := ReqUpdateRunStatus "ra" n in
  status_in "ra" (s_db (two (end_as 2) (end_as 4) ([0; 0; 0; 0; 0] ++ [1; 1; 1; 1; 1] ++ repeat 0 5)%nat).2) = Some RunStatusFinished /\
  status_in "ra" (s_db (two (end_as 2) (end_as 4) ([0; 0; 0; 0; 0] ++ [1; 1; 1; 1; 1] ++ repeat 0 5 ++ repeat 1 5)%nat).2) = Some RunStatusKilled.
Proof. split; vm_compute; reflexivity. Qed.

(** An update that read the experiment before it was archived takes it out of the archive. *)
Example unarchived :
  let upd := ReqUpdateExperiment {| ue_ID := "ea"; ue_Name := ""; ue_Description := "d"; ue_Tags := ∅; UpdateFields := ["description"] |} in
  let archived (d : track_db) := IsArchived <$> experiments d !! "ea" in
  archived (s_db (two upd (ReqArchiveExperiment "ea") ([0] ++ repeat 1 5)%nat).2) = Some true /\
  archived (s_db (two upd (ReqArchiveExperiment "ea") ([0] ++ repeat 1 5 ++ repeat 0 5)%nat).2) = Some false.
Proof. split; vm_compute; reflexivity. Qed.

(** A failure to read the experiment is told as a run that does not exist. *)
Example failure_told_as_missing :
  (run (rpc (member "red") (ReqGetRun "ra")) (start_site [Works; Works; Refused])).1 = Err (Status NotFound "run not found") /\
  (run (rpc (member "red") (ReqGetRun "ra")) (start_site [Refused])).1 = Err (Status Internal "internal error").
Proof. split; vm_compute; reflexivity. Qed.

(** A window without an upper step is refused, and the same window cannot ask for step 0 alone. *)
Example open_windows :
  status_of (run (rpc (member "red") (ReqGetMetricHistory "ra" [] 2 0 None)) (start_site [])).1 = Some (Status InvalidArgument "min_step must not exceed max_step").
Proof. vm_compute. reflexivity. Qed.
End Demo.
