(* ===== verification/GoFloat.v ===== *)
(** * Go's float64

    [float64] is IEEE 754 binary64 without NaN payloads, as the Standard Library specifies
    it: every operation is rounded to nearest even, and none is fused with another. Here are
    the operations that the statistics use, the order of floats, and [sort.SearchFloat64s]. *)

From S2P Require Import Prelude.
From Stdlib Require Export SpecFloat.
Open Scope fp_scope.

Abbreviation float64 := spec_float (only parsing).

#[export] Instance float64_eq_dec : EqDecision spec_float.
Proof. solve_decision. Defined.

Definition f_add : float64 -> float64 -> float64 := SFadd 53 1024.
Definition f_sub : float64 -> float64 -> float64 := SFsub 53 1024.
Definition f_mul : float64 -> float64 -> float64 := SFmul 53 1024.
Definition f_div : float64 -> float64 -> float64 := SFdiv 53 1024.

(** The comparisons of Go; all are false of a NaN. *)
Definition f_eq (x y : float64) : bool := SFeqb x y.
Definition f_lt (x y : float64) : bool := SFltb x y.
Definition f_le (x y : float64) : bool := SFleb x y.

Definition math_Abs (x : float64) : float64 := SFabs x.
Definition math_IsNaN (x : float64) : bool := negb (f_eq x x).

(** [float64(n)] *)
Definition f_of_int (n : Z) : float64 := binary_normalize 53 1024 n 0 false.

Definition f_zero : float64 := S754_zero false.
Definition f_one : float64 := f_of_int 1.

(** ** The order *)

(** What the comparison compares: the sign and size class, the exponent, the mantissa. *)
Definition f_key (x : float64) : option (Z * Z * Z) :=
  match x with
  | S754_nan => None
  | S754_infinity s => Some (if s then -2 else 2, 0, 0)
  | S754_zero _ => Some (0, 0, 0)
  | S754_finite s m e => Some (if s then (-1, - e, Zneg m) else (1, e, Zpos m))
  end.

Definition key_le (k k' : Z * Z * Z) : Prop :=
  let '(a, b, c) := k in let '(a', b', c') := k' in a < a' \/ a = a' /\ (b < b' \/ b = b' /\ c <= c').
Definition float_key_lt (k k' : Z * Z * Z) : Prop := ~ key_le k' k.

Definition compares (c : comparison) (k k' : Z * Z * Z) : Prop :=
  match c with Eq => k = k' | Lt => float_key_lt k k' | Gt => float_key_lt k' k end.

Lemma f_compare_spec x y :
  match SFcompare x y with
  | Some c => exists k k', f_key x = Some k /\ f_key y = Some k' /\ compares c k k'
  | None => f_key x = None \/ f_key y = None
  end.
Proof.
  destruct x as [sx | sx | | sx mx ex], y as [sy | sy | | sy my ey]; cbn [SFcompare f_key]; auto;
    try (destruct sx); try (destruct sy); cbn [negb];
    try (eexists _, _; repeat split; cbn; unfold float_key_lt, key_le; lia).
  all: eexists _, _; (split; [reflexivity |]); (split; [reflexivity |]).
  all: change (Pos.compare_cont Eq mx my) with (Pos.compare mx my).
  all: destruct (Z.compare_spec ex ey) as [-> | |]; cbn; unfold float_key_lt, key_le; try lia.
  all: destruct (Pos.compare_spec mx my) as [-> | |]; cbn; unfold float_key_lt, key_le; try lia; done.
Qed.

Lemma key_le_refl k : key_le k k.
Proof. destruct k as [[a b] c]. unfold key_le. lia. Qed.

Lemma f_le_spec x y : f_le x y = true <-> exists k k', f_key x = Some k /\ f_key y = Some k' /\ key_le k k'.
Proof.
  unfold f_le, SFleb. pose proof (f_compare_spec x y) as Hc. destruct (SFcompare x y) as [c|].
  - destruct Hc as (k & k' & Hx & Hy & Hc). rewrite Hx, Hy. destruct c; cbn [compares] in Hc; unfold float_key_lt in Hc; split; try done.
    + intros _. exists k, k'. repeat split. rewrite Hc. apply key_le_refl.
    + intros _. exists k, k'. repeat split. unfold key_le in *. destruct k as [[a b] c], k' as [[a' b'] c']. lia.
    + by intros (? & ? & [= <-] & [= <-] & ?).
  - split; [done |]. intros (k & k' & Hx & Hy & _). destruct Hc; congruence.
Qed.

Lemma f_lt_spec x y : f_lt x y = true <-> exists k k', f_key x = Some k /\ f_key y = Some k' /\ float_key_lt k k'.
Proof.
  unfold f_lt, SFltb. pose proof (f_compare_spec x y) as Hc. destruct (SFcompare x y) as [c|].
  - destruct Hc as (k & k' & Hx & Hy & Hc). rewrite Hx, Hy. destruct c; cbn [compares] in Hc; unfold float_key_lt in *; split; try done; try (by exists k, k').
    + intros (? & ? & [= <-] & [= <-] & Hn). exfalso. apply Hn. rewrite Hc. apply key_le_refl.
    + intros (? & ? & [= <-] & [= <-] & Hn). exfalso. unfold key_le in *. destruct k as [[a b] c], k' as [[a' b'] c']. lia.
  - split; [done |]. intros (k & k' & Hx & Hy & _). destruct Hc; congruence.
Qed.

Lemma f_eq_spec x y : f_eq x y = true <-> exists k, f_key x = Some k /\ f_key y = Some k.
Proof.
  unfold f_eq, SFeqb. pose proof (f_compare_spec x y) as Hc. destruct (SFcompare x y) as [c|].
  - destruct Hc as (k & k' & Hx & Hy & Hc). rewrite Hx, Hy. destruct c; cbn [compares] in Hc; unfold float_key_lt in *; split; try done.
    + intros _. exists k. by rewrite Hc.
    + intros (k2 & E1 & E2). exfalso. apply Hc. injection E1 as ->. injection E2 as ->. apply key_le_refl.
    + intros (k2 & E1 & E2). exfalso. apply Hc. injection E1 as ->. injection E2 as ->. apply key_le_refl.
  - split; [done |]. intros (k & Hx & Hy). destruct Hc; congruence.
Qed.

Lemma key_le_trans k1 k2 k3 : key_le k1 k2 -> key_le k2 k3 -> key_le k1 k3.
Proof. destruct k1 as [[? ?] ?], k2 as [[? ?] ?], k3 as [[? ?] ?]. unfold key_le. lia. Qed.

Lemma f_le_trans x y z : f_le x y = true -> f_le y z = true -> f_le x z = true.
Proof.
  rewrite !f_le_spec. intros (k1 & k2 & Hx & Hy & H12) (k2' & k3 & Hy' & Hz & H23). assert (k2' = k2) as -> by congruence.
  exists k1, k3. repeat split; try done. by eapply key_le_trans.
Qed.

(** A number: not a NaN. *)
Definition is_number (x : float64) : Prop := f_key x <> None.

Lemma f_le_number x y : f_le x y = true -> is_number x /\ is_number y.
Proof. rewrite f_le_spec. intros (k & k' & Hx & Hy & _). unfold is_number. by rewrite Hx, Hy. Qed.

Lemma f_le_refl x : is_number x -> f_le x x = true.
Proof. unfold is_number. rewrite f_le_spec. destruct (f_key x) as [[[a b] c]|]; [| done]. intros _. eexists _, _. repeat split. unfold key_le. lia. Qed.

(** On numbers [<] is the negation of [>=]. *)
Lemma f_lt_not_le x y : is_number x -> is_number y -> f_lt x y = negb (f_le y x).
Proof.
  intros Hx Hy. apply eq_true_iff_eq. rewrite negb_true_iff, f_lt_spec, <- not_true_iff_false, f_le_spec. unfold is_number in *.
  destruct (f_key x) as [k|] eqn:Ex; [| done]. destruct (f_key y) as [k'|] eqn:Ey; [| done]. unfold float_key_lt. split.
  - intros (? & ? & [= <-] & [= <-] & Hn) (? & ? & [= <-] & [= <-] & Hle). by apply Hn.
  - intros Hn. exists k, k'. repeat split. intros Hle. apply Hn. by exists k', k.
Qed.

Lemma f_le_total x y : is_number x -> is_number y -> f_le x y = true \/ f_le y x = true.
Proof.
  intros Hx Hy. unfold is_number in *. rewrite !f_le_spec. destruct (f_key x) as [k|]; [| done]. destruct (f_key y) as [k'|]; [| done].
  destruct k as [[a b] c], k' as [[a' b'] c']. assert (key_le (a, b, c) (a', b', c') \/ key_le (a', b', c') (a, b, c)) as [?|?] by (unfold key_le; lia).
  - left. by eexists _, _.
  - right. by eexists _, _.
Qed.

Lemma f_eq_le x y : f_eq x y = f_le x y && f_le y x.
Proof.
  apply eq_true_iff_eq. rewrite andb_true_iff, f_eq_spec, !f_le_spec. split.
  - intros (k & Hx & Hy). split; exists k, k; repeat split; try done; unfold key_le; destruct k as [[a b] c]; lia.
  - intros [(k & k' & Hx & Hy & H1') (k2 & k2' & Hy' & Hx' & H2')]. exists k. split; [done |]. rewrite Hy. f_equal.
    assert (k2 = k') as -> by congruence. assert (k2' = k) as -> by congruence.
    destruct k as [[a b] c], k' as [[a' b'] c']. unfold key_le in *. f_equal; [f_equal |]; lia.
Qed.

(** ** Differences *)

(** The distance of a float to itself is zero, or a NaN that is not above anything. *)
Lemma f_sub_diag x : f_sub x x = f_zero \/ f_sub x x = S754_nan.
Proof.
  destruct x as [[] | [] | | s m e]; cbn; auto. left. by rewrite Z.sub_diag.
Qed.

Lemma f_lt_nan_r x : f_lt x S754_nan = false.
Proof. by destruct x as [| [] | |]. Qed.

Lemma f_lt_abs_diag x b : f_le f_zero b = true -> f_lt b (math_Abs (f_sub x x)) = false.
Proof.
  intros Hb. unfold math_Abs. destruct (f_sub_diag x) as [-> | ->]; [| apply f_lt_nan_r].
  change (SFabs f_zero) with f_zero. destruct (f_le_number _ _ Hb) as [Hz Hn]. by rewrite (f_lt_not_le b f_zero Hn Hz), Hb.
Qed.

(** ** [sort.SearchFloat64s] *)

Definition SearchFloat64s (a : list float64) (x : float64) : nat :=
  sort_Search (length a) (fun i => match a !! i with Some y => f_le x y | None => false end).

Definition ascending (a : list float64) : Prop := StronglySorted (fun x y => f_le x y = true) a.

Definition at_least (a : list float64) (x : float64) (i : nat) : bool := match a !! i with Some y => f_le x y | None => true end.

Lemma sort_Search_loop_ext fuel f g i j : (forall h, (h < j)%nat -> f h = g h) -> sort_Search_loop fuel f i j = sort_Search_loop fuel g i j.
Proof.
  revert i j. induction fuel as [|fuel IH]; intros i j He; [done |]. cbn [sort_Search_loop]. destruct (Nat.ltb_spec i j); [| done].
  assert (Nat.div2 (i + j) < j)%nat as Hh.
  { rewrite Nat.div2_div. pose proof (Nat.div_mod_eq (i + j) 2). pose proof (Nat.mod_upper_bound (i + j) 2). lia. }
  cbv zeta. rewrite He by done. destruct (g _); apply IH; intros h Hl; apply He; lia.
Qed.

(** In an ascending list: what is before the place is below [x], what is at it is not. *)
Lemma SearchFloat64s_spec a x : ascending a ->
  let i := SearchFloat64s a x in
  (i <= length a)%nat /\ (forall j y, (j < i)%nat -> a !! j = Some y -> f_le x y = false) /\ (forall j y, (i <= j)%nat -> a !! j = Some y -> f_le x y = true).
Proof.
  intros Hs. unfold SearchFloat64s, sort_Search.
  rewrite (sort_Search_loop_ext _ _ (at_least a x)).
  2: { intros h Hl. unfold at_least. destruct (lookup_lt_is_Some_2 a h Hl) as [y ->]. done. }
  assert (forall i j, (i <= j)%nat -> at_least a x i = true -> at_least a x j = true) as Hm.
  { intros i j Hij. unfold at_least. destruct (a !! j) as [y|] eqn:Ej; [| done]. destruct (lookup_lt_is_Some_2 a i) as [z Ez]; [apply lookup_lt_Some in Ej; lia |].
    rewrite Ez. intros Hx. destruct (decide (i = j)) as [-> |]; [congruence |]. eapply f_le_trans; [exact Hx |].
    apply (StronglySorted_lt _ a i j z y Hs Ez Ej). lia. }
  pose proof (sort_Search_spec (length a) (at_least a x) Hm) as (Hle & Hlo & Hhi). unfold sort_Search in *. cbv zeta.
  set (i := sort_Search_loop _ _ _ _) in *. split; [exact Hle |]. split.
  - intros j y Hj Ej. specialize (Hlo j Hj). unfold at_least in Hlo. by rewrite Ej in Hlo.
  - intros j y Hj Ej. destruct Hhi as [He | Ht]; [apply lookup_lt_Some in Ej; lia |].
    pose proof (Hm i j Hj Ht) as Hx. unfold at_least in Hx. by rewrite Ej in Hx.
Qed.
