(* ===== verification/MonModel.v ===== *)
(** * Model monitor: data, windows and statistics

    [services/model-monitor/internal/domain]: the data of [models.go] and [ports.go], the
    windows of [window.go], the drift scores of [drift.go], the policy of [policy.go] and the
    judged quality of [eval.go]. *)

From S2P Require Import Prelude GoFloat.
Open Scope fp_scope.

(** ** Errors (errors.go, ports.go) *)

Inductive mon_sentinel :=
| ErrValidation | ErrMonitorNotFound | ErrReportNotFound | ErrBaselineUnavailable | ErrRetrainPipelineRequired | ErrInsufficientSamples
| ErrEmptyDistribution | ErrBinMismatch | ErrRepoNotFound.
#[export] Instance mon_sentinel_dec : EqDecision mon_sentinel.
Proof. solve_decision. Defined.
#[export] Instance mon_sentinels : Sentinels mon_sentinel := {| sentinel_wraps _ := None |}.
Abbreviation mon_error := (error mon_sentinel).

Definition wrap (s : mon_sentinel) (text : string) : mon_error := Wrap text (Sentinel s).

(** ** Data (models.go) *)

Inductive DriftType := DriftTypeUnspecified | DriftTypeData | DriftTypePrediction | DriftTypePerformance.
#[export] Instance DriftType_dec : EqDecision DriftType.
Proof. solve_decision. Defined.

Inductive DriftMethod := DriftMethodUnspecified | DriftMethodPSI | DriftMethodKL | DriftMethodKS.
#[export] Instance DriftMethod_dec : EqDecision DriftMethod.
Proof. solve_decision. Defined.

Inductive DriftSeverity := DriftSeverityUnspecified | DriftSeverityOK | DriftSeverityWarning | DriftSeverityCritical.
#[export] Instance DriftSeverity_dec : EqDecision DriftSeverity.
Proof. solve_decision. Defined.

(** The number of a severity: they are compared as integers. *)
Definition severity_rank (s : DriftSeverity) : Z :=
  match s with DriftSeverityUnspecified => 0 | DriftSeverityOK => 1 | DriftSeverityWarning => 2 | DriftSeverityCritical => 3 end.

Inductive MonitorState := MonitorStateUnspecified | MonitorStatePendingBaseline | MonitorStateWarmingUp | MonitorStateActive | MonitorStatePaused.
#[export] Instance MonitorState_dec : EqDecision MonitorState.
Proof. solve_decision. Defined.

Record ThresholdConfig := { t_DriftType : DriftType; t_Method : DriftMethod; WarnScore : float64; CriticalScore : float64 }.

Definition Severity (t : ThresholdConfig) (score : float64) : DriftSeverity :=
  if f_le (CriticalScore t) score then DriftSeverityCritical
  else if f_le (WarnScore t) score then DriftSeverityWarning
  else DriftSeverityOK.

Record Monitor := {
  m_ID : string; m_ModelName : string; m_OwnerTeam : string; WindowDuration : duration; WindowSize : Z; MinSamples : Z;
  Thresholds : list ThresholdConfig; AutoRetrain : bool; RetrainPipelineID : string; m_State : MonitorState; BaselineVersion : string;
  BaselineCapturedAt : time; m_CreatedAt : time; m_UpdatedAt : time;
}.

Definition ThresholdFor (m : Monitor) (dt : DriftType) : option ThresholdConfig := List.find (fun t => bool_decide (t_DriftType t = dt)) (Thresholds m).

Definition BoundsByCount (m : Monitor) : bool := 0 <? WindowSize m.

Record DriftMetric := {
  dm_Name : string; dm_Method : DriftMethod; dm_Score : float64; BaselineValue : float64; CurrentValue : float64; dm_Severity : DriftSeverity;
}.

Record DriftReport := {
  r_ID : string; r_MonitorID : string; r_OwnerTeam : string; r_ModelName : string; r_ModelVersion : string; r_DriftType : DriftType;
  r_Severity : DriftSeverity; r_Metrics : list DriftMetric; r_WindowID : string; r_SampleCount : Z; r_WindowStart : time; r_WindowEnd : time;
  r_CreatedAt : time;
}.

Definition IsActionable (r : DriftReport) : bool := severity_rank DriftSeverityWarning <=? severity_rank (r_Severity r).
Definition FiresRetrain (r : DriftReport) : bool := bool_decide (r_Severity r = DriftSeverityCritical).

Record MonitorStatus := {
  st_Monitor : Monitor; st_State : MonitorState; CurrentWindowSamples : Z; LatestReport : option DriftReport; st_LastEventAt : time;
  st_DriftEventsTotal : Z;
}.

Record ModelHealth := {
  h_ModelName : string; h_ModelVersion : string; OverallSeverity : DriftSeverity; SeverityByType : list (DriftType * DriftSeverity);
  h_State : MonitorState; LatestReportID : string; h_LastEventAt : time; h_DriftEventsTotal : Z;
}.

Record GroundTruthLabel := { l_RequestID : string; ActualLabel : string; l_ObservedAt : time }.

Definition MaxLabelBytes : Z := 256.
Definition MaxGroundTruthBatch : Z := 1000.
Definition MaxWindowSize : Z := 1000000.
Definition MaxListPageSize : Z := 100.
Definition DefaultListPageSize : Z := 20.

(** ** Ports (ports.go) *)

Record ListOptions := { PageSize : Z; PageToken : string }.
Record ReportFilter := { rf_OwnerTeam : string; rf_ModelName : string; rf_MinSeverity : DriftSeverity; Since : time; Until : time }.
Record FleetFilter := { ff_OwnerTeam : string; ff_MinSeverity : DriftSeverity; ff_State : MonitorState }.
Record LabelPair := { Predicted : string; Actual : string }.
Record DriftEvent := { ev_Report : DriftReport; ev_AutoRetrain : bool; ev_RetrainPipelineID : string; ev_OwnerTeam : string }.

(** What the text of a reason says of the report: its type, the worst metric with its score,
    its severity and the samples; or the average of judged quality. *)
Inductive reason :=
| DriftReason (dt : DriftType) (metric : string) (score : float64) (severity : DriftSeverity) (samples : Z)
| QualityReason (avg : float64) (severity : DriftSeverity) (samples : Z).
Record RetrainRequest := { rr_PipelineID : string; rr_ModelName : string; rr_ModelVersion : string; rr_ReportID : string; rr_Reason : reason }.

(** ** Policy (policy.go) *)

Inductive SuppressReason := SuppressNone | SuppressNotCritical | SuppressAutoOff | SuppressNoPipeline | SuppressCooldown.
Record RetrainDecision := { Emit : bool; Trigger : bool; Suppressed : SuppressReason }.

Definition DecideRetrain (report : DriftReport) (monitor : Monitor) (lastTriggered : time) (cooldown : duration) (now : time) : RetrainDecision :=
  if negb (IsActionable report) then {| Emit := false; Trigger := false; Suppressed := SuppressNotCritical |}
  else
    let held why := {| Emit := true; Trigger := false; Suppressed := why |} in
    if negb (FiresRetrain report) then held SuppressNotCritical
    else if negb (AutoRetrain monitor) then held SuppressAutoOff
    else if String.eqb (RetrainPipelineID monitor) "" then held SuppressNoPipeline
    else if negb (time_is_zero lastTriggered) && (time_sub now lastTriggered <? cooldown) then held SuppressCooldown
    else {| Emit := true; Trigger := true; Suppressed := SuppressNone |}.

(** ** Histograms and scores (drift.go) *)

Record Histogram := { Counts : list float64; Edges : list float64; Labels : list string }.

Definition Total (h : Histogram) : float64 := foldl f_add f_zero (Counts h).

Definition Proportions (eps : float64) (h : Histogram) : result (list float64) mon_error :=
  if f_eq (Total h) f_zero then Err (Sentinel ErrEmptyDistribution)
  else
    let smoothedTotal := f_add (Total h) (f_mul eps (f_of_int (Z.of_nat (length (Counts h))))) in
    Ok (map (fun c => f_div (f_add c eps) smoothedTotal) (Counts h)).

(** The nearest float64 to 1e-6. *)
Definition defaultEps : float64 := f_div f_one (f_of_int 1000000).

(** The natural logarithm of Go's [math] package. *)
Class MathLog : Type := { math_Log : float64 -> float64 }.

Section scores.
Context `{MathLog}.

(** The two proportions of every bin, or why there are none. *)
Definition both_proportions (baseline current : Histogram) : result (list (float64 * float64)) mon_error :=
  if negb (Nat.eqb (length (Counts baseline)) (length (Counts current))) then Err (Sentinel ErrBinMismatch)
  else let! baseP := Proportions defaultEps baseline in let! currP := Proportions defaultEps current in Ok (combine baseP currP).

Definition not_below_zero (x : float64) : float64 := if f_lt x f_zero then f_zero else x.

Definition PSI (baseline current : Histogram) : result float64 mon_error :=
  let! bins := both_proportions baseline current in
  Ok (not_below_zero (foldl (fun psi '(b, c) => f_add psi (f_mul (f_sub c b) (math_Log (f_div c b)))) f_zero bins)).

Definition KL (baseline current : Histogram) : result float64 mon_error :=
  let! bins := both_proportions baseline current in
  Ok (not_below_zero (foldl (fun kl '(b, c) => f_add kl (f_mul c (math_Log (f_div c b)))) f_zero bins)).
End scores.

(** The loop of KS: both cumulative proportions and the largest gap so far. *)
Fixpoint ks_loop (baseTotal currTotal baseCDF currCDF maxGap : float64) (bins : list (float64 * float64)) : float64 :=
  match bins with
  | [] => maxGap
  | (b, c) :: bins =>
      let baseCDF := f_add baseCDF (f_div b baseTotal) in
      let currCDF := f_add currCDF (f_div c currTotal) in
      let gap := math_Abs (f_sub currCDF baseCDF) in
      ks_loop baseTotal currTotal baseCDF currCDF (if f_lt maxGap gap then gap else maxGap) bins
  end.

Definition KS (baseline current : Histogram) : result float64 mon_error :=
  if negb (Nat.eqb (length (Counts baseline)) (length (Counts current))) then Err (Sentinel ErrBinMismatch)
  else if f_eq (Total baseline) f_zero || f_eq (Total current) f_zero then Err (Sentinel ErrEmptyDistribution)
  else Ok (ks_loop (Total baseline) (Total current) f_zero f_zero f_zero (combine (Counts baseline) (Counts current))).

Definition ComputeDrift `{MathLog} (method : DriftMethod) (baseline current : Histogram) : result float64 mon_error :=
  match method with
  | DriftMethodPSI => PSI baseline current
  | DriftMethodKL => KL baseline current
  | DriftMethodKS => KS baseline current
  | DriftMethodUnspecified => Err (Sentinel ErrValidation)
  end.

Definition Accuracy (pairs : list LabelPair) : float64 :=
  if bool_decide (pairs = []) then f_zero
  else f_div (f_of_int (Z.of_nat (length (List.filter (fun p => String.eqb (Predicted p) (Actual p)) pairs)))) (f_of_int (Z.of_nat (length pairs))).

Definition PerformanceDrop (baselineAccuracy : float64) (pairs : list LabelPair) : float64 :=
  let drop := f_sub baselineAccuracy (Accuracy pairs) in if f_lt drop f_zero then f_zero else drop.

Definition NewCategoricalHistogram (order : list string) (counts : gmap string float64) : Histogram :=
  {| Counts := map (fun label => default f_zero (counts !! label)) order; Edges := []; Labels := order |}.

(** The bin of a value: what the search found, moved into the half-open bins. *)
Definition bin_of (edges : list float64) (v : float64) : nat :=
  let nbins := (length edges - 1)%nat in
  let idx := SearchFloat64s edges v in
  if (idx <=? 0)%nat then 0%nat
  else if (length edges <=? idx)%nat then (nbins - 1)%nat
  else if match edges !! idx with Some e => f_eq e v | None => false end then (if (nbins - 1 <? idx)%nat then nbins - 1 else idx)%nat
  else (idx - 1)%nat.

Definition increment (c : float64) : float64 := f_add c f_one.

Definition NewNumericHistogram (edges values : list float64) : Histogram :=
  if (length edges <? 2)%nat then {| Counts := []; Edges := []; Labels := [] |}
  else {|
    Counts := foldl (fun counts v => alter increment (bin_of edges v) counts) (replicate (length edges - 1) f_zero) values;
    Edges := edges; Labels := [] |}.

(** The mean of the bins' middles (monitor_service_impl.go). *)
Definition histMean (h : Histogram) : float64 :=
  if negb (Nat.eqb (length (Edges h)) (length (Counts h) + 1)) then f_zero
  else if f_eq (Total h) f_zero then f_zero
  else
    let mids := map (fun '(lo, hi) => f_div (f_add lo hi) (f_of_int 2)) (combine (Edges h) (tail (Edges h))) in
    f_div (foldl (fun sum '(mid, c) => f_add sum (f_mul mid c)) f_zero (combine mids (Counts h))) (Total h).

(** What a model was before (ports.go). *)
Record Baseline := {
  b_Version : string; CapturedAt : time; FeatureEdges : gmap string (list float64); FeatureBaselines : gmap string Histogram;
  PredictionOrder : list string; PredictionBaseline : Histogram; b_Accuracy : float64;
}.

(** ** Windows (window.go) *)

Record InferenceObservation := {
  o_MonitorID : string; o_OwnerTeam : string; o_RequestID : string; o_ModelName : string; o_ModelVersion : string; o_Features : gmap string float64;
  PredictedTop : string; o_ObservedAt : time;
}.

Record Window := {
  w_ID : string; w_MonitorID : string; w_ModelName : string; OpenedAt : time; w_ModelVersion : string; w_SampleCount : Z;
  featureValues : gmap string (list float64); predictionCounts : gmap string float64; requestIDs : gset string;
}.

(** A window with no samples under an id that was drawn. *)
Definition NewWindow (wid monitorID modelName : string) (openedAt : time) : Window := {|
  w_ID := wid; w_MonitorID := monitorID; w_ModelName := modelName; OpenedAt := openedAt; w_ModelVersion := ""; w_SampleCount := 0;
  featureValues := ∅; predictionCounts := ∅; requestIDs := ∅ |}.

(** Every value is appended to those of its feature. *)
Definition add_features (features : gmap string float64) (have : gmap string (list float64)) : gmap string (list float64) :=
  merge (fun vs v => match v with Some v => Some (default [] vs ++ [v]) | None => vs end) have features.

Definition Add (w : Window) (obs : InferenceObservation) : Window * bool :=
  if negb (String.eqb (o_RequestID obs) "") && bool_decide (o_RequestID obs ∈ requestIDs w) then (w, false)
  else
    ({| w_ID := w_ID w; w_MonitorID := w_MonitorID w; w_ModelName := w_ModelName w; OpenedAt := OpenedAt w;
        w_ModelVersion := if (w_SampleCount w =? 0) && String.eqb (w_ModelVersion w) "" then o_ModelVersion obs else w_ModelVersion w;
        w_SampleCount := w_SampleCount w + 1;
        featureValues := add_features (o_Features obs) (featureValues w);
        predictionCounts :=
          if String.eqb (PredictedTop obs) "" then predictionCounts w
          else <[PredictedTop obs := increment (default f_zero (predictionCounts w !! PredictedTop obs))]> (predictionCounts w);
        requestIDs := if String.eqb (o_RequestID obs) "" then requestIDs w else {[o_RequestID obs]} ∪ requestIDs w |}, true).

Definition IsClosed (w : Window) (m : Monitor) (now : time) : bool :=
  ((0 <? WindowSize m) && (WindowSize m <=? w_SampleCount w)) ||
  ((0 <? WindowDuration m) && negb (time_is_zero (OpenedAt w)) && (WindowDuration m <=? time_sub now (OpenedAt w))).

Definition HasEnoughSamples (w : Window) (m : Monitor) : bool := MinSamples m <=? w_SampleCount w.

Definition PredictionHistogram (w : Window) (baselineOrder : list string) : Histogram := NewCategoricalHistogram baselineOrder (predictionCounts w).

Definition FeatureHistogram (w : Window) (feature : string) (baselineEdges : list float64) : option Histogram :=
  match featureValues w !! feature with
  | None | Some [] => None
  | Some vals => Some (NewNumericHistogram baselineEdges vals)
  end.

Definition RequestIDs (w : Window) : list string := elements (requestIDs w).
Definition Features (w : Window) : list string := elements (dom (featureValues w)).

(** ** The headline of a report (monitor_service_impl.go) *)

Definition driftTypeForMetric (name : string) : DriftType :=
  if String.eqb name "prediction_distribution" then DriftTypePrediction
  else if String.eqb name "accuracy" || String.eqb name "f1" then DriftTypePerformance
  else DriftTypeData.

Definition rollup_step (acc : DriftType * DriftSeverity) (m : DriftMetric) : DriftType * DriftSeverity :=
  if severity_rank acc.2 <? severity_rank (dm_Severity m) then (driftTypeForMetric (dm_Name m), dm_Severity m) else acc.

Definition rollup (metrics : list DriftMetric) : DriftType * DriftSeverity :=
  let '(headline, overall) := foldl rollup_step (DriftTypeUnspecified, DriftSeverityOK) metrics in
  (match metrics with m :: _ => if bool_decide (headline = DriftTypeUnspecified) then driftTypeForMetric (dm_Name m) else headline | [] => headline end, overall).

Definition worst_metric (metrics : list DriftMetric) : string * float64 :=
  foldl (fun worst m => if f_lt worst.2 (dm_Score m) then (dm_Name m, dm_Score m) else worst) ("", f_zero) metrics.

Definition retrainReason (r : DriftReport) : reason :=
  let '(name, score) := worst_metric (r_Metrics r) in DriftReason (r_DriftType r) name score (r_Severity r) (r_SampleCount r).

(** ** Judged quality (eval.go, quality_eval_service.go) *)

Record JudgeScores := { Relevance : float64; Coherence : float64; Safety : float64; Overall : float64; Scored : bool }.

Definition Finalize (s : JudgeScores) : JudgeScores := {|
  Relevance := Relevance s; Coherence := Coherence s; Safety := Safety s;
  Overall := f_div (f_add (f_add (Relevance s) (Coherence s)) (Safety s)) (f_of_int 3); Scored := true |}.
Definition Unscored : JudgeScores := {| Relevance := f_zero; Coherence := f_zero; Safety := f_zero; Overall := f_zero; Scored := false |}.

Record Eval_ := { e_Team : string; e_Model : string; e_RequestID : string; e_Scores : JudgeScores; e_CreatedAt : time }.
Record Completion := { cp_Team : string; cp_Model : string; cp_RequestID : string; Prompt : string; Response : string }.
Record EvalFilter := { ef_Team : string; ef_Model : string; ef_Since : time }.

Definition MinScore : float64 := f_one.
Definition MaxScore : float64 := f_of_int 5.
Definition clampScore (n : float64) : float64 := if f_lt n MinScore then MinScore else if f_lt MaxScore n then MaxScore else n.

(** The sampler: its rate and how many completions it saw. *)
Record CountingSampler := { rate : Z; seen : Z }.
Definition NewCountingSampler (rate : Z) : CountingSampler := {| rate := if rate <? 1 then 1 else rate; seen := 0 |}.
Definition ShouldSample (s : CountingSampler) : bool * CountingSampler :=
  if rate s <=? 1 then (true, s) else (Z.rem (seen s) (rate s) =? 0, {| rate := rate s; seen := wrap64 (seen s + 1) |}).

Record QualityDriftConfig := { q_Window : Z; q_MinSamples : Z; FloorScore : float64; q_Baseline : float64; DropFromBaseline : float64 }.
Definition Enabled (cfg : QualityDriftConfig) : bool := 0 <? q_Window cfg.

(** What made the verdict; its text formats the averages. *)
Inductive quality_reason := NoReason | BelowFloor | BelowBaseline.
Record QualityDriftResult := { Drifted : bool; Average : float64; q_SampleCount : Z; Reason : quality_reason }.

Definition EvaluateQualityDrift (scores : list float64) (cfg : QualityDriftConfig) : QualityDriftResult :=
  let scores := if (0 <? q_Window cfg) && (q_Window cfg <? Z.of_nat (length scores)) then take (Z.to_nat (q_Window cfg)) scores else scores in
  let n := Z.of_nat (length scores) in
  if (n <? q_MinSamples cfg) || (n =? 0) then {| Drifted := false; Average := f_zero; q_SampleCount := n; Reason := NoReason |}
  else
    let avg := f_div (foldl f_add f_zero scores) (f_of_int n) in
    let verdict d why := {| Drifted := d; Average := avg; q_SampleCount := n; Reason := why |} in
    if f_lt f_zero (FloorScore cfg) && f_lt avg (FloorScore cfg) then verdict true BelowFloor
    else if f_lt f_zero (q_Baseline cfg) && f_lt f_zero (DropFromBaseline cfg) && f_le (DropFromBaseline cfg) (f_sub (q_Baseline cfg) avg)
    then verdict true BelowBaseline
    else verdict false NoReason.

Definition QualityDriftScore (avg : float64) (cfg : QualityDriftConfig) : float64 :=
  let ref := if f_lt f_zero (q_Baseline cfg) && f_lt (FloorScore cfg) (q_Baseline cfg) then q_Baseline cfg else FloorScore cfg in
  let drop := f_sub ref avg in
  if f_lt drop f_zero || math_IsNaN drop then f_zero else drop.

Definition refScore (cfg : QualityDriftConfig) : float64 := if f_lt (FloorScore cfg) (q_Baseline cfg) then q_Baseline cfg else FloorScore cfg.

Definition qualityMetricName : string := "llm_quality".

Definition qualityRetrainReason (r : DriftReport) : reason :=
  QualityReason (match r_Metrics r with m :: _ => CurrentValue m | [] => f_zero end) (r_Severity r) (r_SampleCount r).

(** The report of a drop, under an id that was drawn. *)
Definition buildQualityReport (cfg : QualityDriftConfig) (warn critical : float64) (rid : string) (m : Monitor) (c : Completion) (v : QualityDriftResult)
    (now : time) : DriftReport :=
  let score := QualityDriftScore (Average v) cfg in
  let th := {| t_DriftType := DriftTypePerformance; t_Method := DriftMethodUnspecified; WarnScore := warn; CriticalScore := critical |} in
  let severity := if severity_rank (Severity th score) <? severity_rank DriftSeverityWarning then DriftSeverityWarning else Severity th score in
  {| r_ID := rid; r_MonitorID := m_ID m; r_OwnerTeam := m_OwnerTeam m; r_ModelName := m_ModelName m; r_ModelVersion := "";
     r_DriftType := DriftTypePerformance; r_Severity := severity;
     r_Metrics := [{| dm_Name := qualityMetricName; dm_Method := DriftMethodUnspecified; dm_Score := score; BaselineValue := refScore cfg;
                      CurrentValue := Average v; dm_Severity := severity |}];
     r_WindowID := "llmq-" +:+ cp_RequestID c; r_SampleCount := q_SampleCount v; r_WindowStart := now; r_WindowEnd := now; r_CreatedAt := now |}.
