(* ===== verification/MonStore.v ===== *)
(** * Model monitor: tables, Redis keys and the stores in memory

    [services/model-monitor]: one definition per statement of
    [internal/repository/postgres] over the tables of [migrations/001_init.up.sql] and
    [002_eval_scores.up.sql]; the keys of [internal/repository/redis/window_store.go] with
    their expiry, a command or a MULTI at a time; the gate and the ground truth that
    [cmd/server/main.go] keeps in the memory of the process. *)

From S2P Require Import Prelude GoText GoFloat Site Keyset MonModel.
From Stdlib Require Import DecimalString.
Open Scope fp_scope.

Definition defaultPageSize : Z := 20.
Definition defaultWindowTTL : duration := 24 * Hour.
Definition keyPrefix : string := "fp:mon".
Definition maxGroundTruthPerModel : Z := 100000.

(** A row of [monitors]: the deleted ones stay. *)
Record monitor_row := { row_monitor : Monitor; deleted_at : option time }.

(** A prediction that waits for its label. *)
Record gtEntry := { predicted : string; gt_at : time }.

(** The tables; the windows of Redis with the moments they expire; the stores in memory;
    and beside them the ids of the reports that were ever inserted, the events that were given
    to the publisher and the retrainings that were asked for, oldest first. *)
Record mon_db := {
  monitors : gmap string monitor_row; reports : gmap string DriftReport; eval_scores : gmap string Eval_;
  win_meta : gmap string (gmap string string * time); win_reqs : gmap string (gset string * time);
  gate_last : gmap string time; preds : gmap string (gmap string gtEntry); pred_order : gmap string (list string); pairs : gmap string (list LabelPair);
  sampler : CountingSampler; born : list string; attempted : list DriftEvent; retrains : list RetrainRequest;
}.

Definition with_monitors (x : gmap string monitor_row) (d : mon_db) : mon_db := {|
  monitors := x; reports := reports d; eval_scores := eval_scores d; win_meta := win_meta d; win_reqs := win_reqs d; gate_last := gate_last d;
  preds := preds d; pred_order := pred_order d; pairs := pairs d; sampler := sampler d; born := born d; attempted := attempted d; retrains := retrains d |}.
Definition with_reports (x : gmap string DriftReport) (d : mon_db) : mon_db := {|
  monitors := monitors d; reports := x; eval_scores := eval_scores d; win_meta := win_meta d; win_reqs := win_reqs d; gate_last := gate_last d;
  preds := preds d; pred_order := pred_order d; pairs := pairs d; sampler := sampler d; born := born d; attempted := attempted d; retrains := retrains d |}.
Definition with_evals (x : gmap string Eval_) (d : mon_db) : mon_db := {|
  monitors := monitors d; reports := reports d; eval_scores := x; win_meta := win_meta d; win_reqs := win_reqs d; gate_last := gate_last d;
  preds := preds d; pred_order := pred_order d; pairs := pairs d; sampler := sampler d; born := born d; attempted := attempted d; retrains := retrains d |}.
Definition with_window (x : gmap string (gmap string string * time)) (y : gmap string (gset string * time)) (d : mon_db) : mon_db := {|
  monitors := monitors d; reports := reports d; eval_scores := eval_scores d; win_meta := x; win_reqs := y; gate_last := gate_last d;
  preds := preds d; pred_order := pred_order d; pairs := pairs d; sampler := sampler d; born := born d; attempted := attempted d; retrains := retrains d |}.
Definition with_gate (x : gmap string time) (d : mon_db) : mon_db := {|
  monitors := monitors d; reports := reports d; eval_scores := eval_scores d; win_meta := win_meta d; win_reqs := win_reqs d; gate_last := x;
  preds := preds d; pred_order := pred_order d; pairs := pairs d; sampler := sampler d; born := born d; attempted := attempted d; retrains := retrains d |}.
Definition with_truth (x : gmap string (gmap string gtEntry)) (y : gmap string (list string)) (z : gmap string (list LabelPair)) (d : mon_db) : mon_db := {|
  monitors := monitors d; reports := reports d; eval_scores := eval_scores d; win_meta := win_meta d; win_reqs := win_reqs d; gate_last := gate_last d;
  preds := x; pred_order := y; pairs := z; sampler := sampler d; born := born d; attempted := attempted d; retrains := retrains d |}.
Definition with_sampler (x : CountingSampler) (d : mon_db) : mon_db := {|
  monitors := monitors d; reports := reports d; eval_scores := eval_scores d; win_meta := win_meta d; win_reqs := win_reqs d; gate_last := gate_last d;
  preds := preds d; pred_order := pred_order d; pairs := pairs d; sampler := x; born := born d; attempted := attempted d; retrains := retrains d |}.
Definition with_born (x : string) (d : mon_db) : mon_db := {|
  monitors := monitors d; reports := reports d; eval_scores := eval_scores d; win_meta := win_meta d; win_reqs := win_reqs d; gate_last := gate_last d;
  preds := preds d; pred_order := pred_order d; pairs := pairs d; sampler := sampler d; born := born d ++ [x]; attempted := attempted d; retrains := retrains d |}.
Definition with_attempted (x : DriftEvent) (d : mon_db) : mon_db := {|
  monitors := monitors d; reports := reports d; eval_scores := eval_scores d; win_meta := win_meta d; win_reqs := win_reqs d; gate_last := gate_last d;
  preds := preds d; pred_order := pred_order d; pairs := pairs d; sampler := sampler d; born := born d; attempted := attempted d ++ [x]; retrains := retrains d |}.
Definition with_retrain (x : RetrainRequest) (d : mon_db) : mon_db := {|
  monitors := monitors d; reports := reports d; eval_scores := eval_scores d; win_meta := win_meta d; win_reqs := win_reqs d; gate_last := gate_last d;
  preds := preds d; pred_order := pred_order d; pairs := pairs d; sampler := sampler d; born := born d; attempted := attempted d; retrains := retrains d ++ [x] |}.

Abbreviation answer A := (result A mon_error).

(** ** Columns *)

(** A number of a JSON column: [encoding/json] refuses what is not finite, and [jsonb] knows
    no negative zero. *)
Definition number_column (x : float64) : option float64 :=
  match x with S754_nan | S754_infinity _ => None | S754_zero _ => Some f_zero | S754_finite _ _ _ => Some x end.

Definition encodeThresholds (ts : list ThresholdConfig) : option (list ThresholdConfig) :=
  mapM (fun t => w ← number_column (WarnScore t); c ← number_column (CriticalScore t);
    Some {| t_DriftType := t_DriftType t; t_Method := t_Method t; WarnScore := w; CriticalScore := c |}) ts.

Definition encodeMetric (m : DriftMetric) : option DriftMetric :=
  s ← number_column (dm_Score m); b ← number_column (BaselineValue m); c ← number_column (CurrentValue m);
  Some {| dm_Name := dm_Name m; dm_Method := dm_Method m; dm_Score := s; BaselineValue := b; CurrentValue := c; dm_Severity := dm_Severity m |}.

Definition encodeMetrics (ms : list DriftMetric) : option (list DriftMetric) := mapM encodeMetric ms.

(** INTEGER *)
Definition in_int4 (z : Z) : bool := (- 2 ^ 31 <=? z) && (z <? 2 ^ 31).

(** The text order of the database and the page tokens of [cursor.go]. *)
Class MonText : Type := {
  mon_collation :: Collation;
  encodeListCursor : time * string -> string;
  decodeListCursor : string -> option (time * string);
}.

(** ** Monitors (monitor_repository.go) *)

Definition live_row (team model : string) (row : monitor_row) : bool :=
  String.eqb (m_OwnerTeam (row_monitor row)) team && String.eqb (m_ModelName (row_monitor row)) model && bool_decide (deleted_at row = None).

Definition live_of (team model : string) (d : mon_db) : option monitor_row := List.find (live_row team model) (map snd (map_to_list (monitors d))).

Definition monitor_columns (m : Monitor) (ths : list ThresholdConfig) : Monitor := {|
  m_ID := m_ID m; m_ModelName := m_ModelName m; m_OwnerTeam := m_OwnerTeam m; WindowDuration := WindowDuration m; WindowSize := WindowSize m;
  MinSamples := MinSamples m; Thresholds := ths; AutoRetrain := AutoRetrain m; RetrainPipelineID := RetrainPipelineID m; m_State := m_State m;
  BaselineVersion := BaselineVersion m; BaselineCapturedAt := timestamptz (BaselineCapturedAt m); m_CreatedAt := timestamptz (m_CreatedAt m);
  m_UpdatedAt := timestamptz (m_UpdatedAt m) |}.

(** DO UPDATE SET: the id, the names and the moment of creation stay. *)
Definition updated_columns (old new : Monitor) : Monitor := {|
  m_ID := m_ID old; m_ModelName := m_ModelName old; m_OwnerTeam := m_OwnerTeam old; WindowDuration := WindowDuration new; WindowSize := WindowSize new;
  MinSamples := MinSamples new; Thresholds := Thresholds new; AutoRetrain := AutoRetrain new; RetrainPipelineID := RetrainPipelineID new;
  m_State := m_State new; BaselineVersion := BaselineVersion new; BaselineCapturedAt := BaselineCapturedAt new; m_CreatedAt := m_CreatedAt old;
  m_UpdatedAt := m_UpdatedAt new |}.

Definition put_monitor (m : Monitor) (d : mon_db) : mon_db := with_monitors (<[m_ID m := {| row_monitor := m; deleted_at := None |}]> (monitors d)) d.

(** INSERT ... ON CONFLICT (owner_team, model_name) WHERE deleted_at IS NULL DO UPDATE *)
Definition Upsert (m : Monitor) (d : mon_db) : answer (Monitor * bool) * mon_db :=
  match encodeThresholds (Thresholds m) with
  | None => (Err (Wrap "encode thresholds" (External "json")), d)
  | Some ths =>
      let new := monitor_columns m ths in
      if negb (in_int4 (WindowSize m) && in_int4 (MinSamples m)) then (Err (Wrap "upsert monitor" (External "out of range")), d)
      else if String.eqb (m_ModelName m) "" || String.eqb (m_OwnerTeam m) "" then (Err (Wrap "upsert monitor" (External "check violation")), d)
      else
        match live_of (m_OwnerTeam m) (m_ModelName m) d with
        | Some old => let m := updated_columns (row_monitor old) new in (Ok (m, false), put_monitor m d)
        | None =>
            if bool_decide (is_Some (monitors d !! m_ID m)) then (Err (Wrap "upsert monitor" (External "unique violation")), d)
            else (Ok (new, true), put_monitor new d)
        end
  end.

Definition GetByModel (team model : string) (d : mon_db) : answer Monitor :=
  match live_of team model d with Some row => Ok (row_monitor row) | None => Err (Sentinel ErrRepoNotFound) end.

Definition GetByID (mid : string) (d : mon_db) : answer Monitor :=
  match monitors d !! mid with
  | Some row => if bool_decide (deleted_at row = None) then Ok (row_monitor row) else Err (Sentinel ErrRepoNotFound)
  | None => Err (Sentinel ErrRepoNotFound)
  end.

(** What UPDATE sets in the live row of the model. *)
Definition deleted_row (now : time) (row : monitor_row) : monitor_row :=
  let m := row_monitor row in
  {| row_monitor := {|
       m_ID := m_ID m; m_ModelName := m_ModelName m; m_OwnerTeam := m_OwnerTeam m; WindowDuration := WindowDuration m; WindowSize := WindowSize m;
       MinSamples := MinSamples m; Thresholds := Thresholds m; AutoRetrain := AutoRetrain m; RetrainPipelineID := RetrainPipelineID m;
       m_State := m_State m; BaselineVersion := BaselineVersion m; BaselineCapturedAt := BaselineCapturedAt m; m_CreatedAt := m_CreatedAt m;
       m_UpdatedAt := timestamptz now |};
     deleted_at := Some (timestamptz now) |}.

Definition Delete (now : time) (team model : string) (d : mon_db) : answer unit * mon_db :=
  (Ok tt, with_monitors ((fun row => if live_row team model row then deleted_row now row else row) <$> monitors d) d).

(** SELECT ... LIMIT 1 without an order (the resolver of cmd/server/main.go): the database
    picks one of the rows. *)
Definition rows_of_model (model : string) (d : mon_db) : list Monitor :=
  map row_monitor (List.filter (fun row => String.eqb (m_ModelName (row_monitor row)) model && bool_decide (deleted_at row = None)) (map snd (map_to_list (monitors d)))).

Definition any_of {A} (pick : nat) (rows : list A) : option A := rows !! (pick mod length rows)%nat.

Definition ResolveByModel (pick : nat) (model : string) (d : mon_db) : answer (option (string * string)) :=
  Ok ((fun m => (m_ID m, m_OwnerTeam m)) <$> any_of pick (rows_of_model model d)).

(** ** Reports (drift_report_repository.go) *)

Definition report_columns (r : DriftReport) (ms : list DriftMetric) : DriftReport := {|
  r_ID := r_ID r; r_MonitorID := r_MonitorID r; r_OwnerTeam := r_OwnerTeam r; r_ModelName := r_ModelName r; r_ModelVersion := r_ModelVersion r;
  r_DriftType := r_DriftType r; r_Severity := r_Severity r; r_Metrics := ms; r_WindowID := r_WindowID r; r_SampleCount := r_SampleCount r;
  r_WindowStart := timestamptz (r_WindowStart r); r_WindowEnd := timestamptz (r_WindowEnd r); r_CreatedAt := timestamptz (r_CreatedAt r) |}.

Definition of_window (wid : string) (r : DriftReport) : bool := String.eqb (r_WindowID r) wid.

Definition report_of (wid : string) (d : mon_db) : option DriftReport := List.find (of_window wid) (map snd (map_to_list (reports d))).

(** INSERT ... ON CONFLICT (window_id) DO NOTHING RETURNING: the row, or none. *)
Definition insert_report (r : DriftReport) (d : mon_db) : answer (option DriftReport) * mon_db :=
  match encodeMetrics (r_Metrics r) with
  | None => (Err (Wrap "encode metrics" (External "json")), d)
  | Some ms =>
      let row := report_columns r ms in
      if negb (in_int4 (r_SampleCount r)) then (Err (Wrap "insert drift report" (External "out of range")), d)
      else if String.eqb (r_OwnerTeam r) "" || String.eqb (r_ModelName r) "" then (Err (Wrap "insert drift report" (External "check violation")), d)
      else
        match report_of (r_WindowID r) d with
        | Some _ => (Ok None, d)
        | None =>
            if bool_decide (is_Some (reports d !! r_ID r)) then (Err (Wrap "insert drift report" (External "unique violation")), d)
            else if bool_decide (monitors d !! r_MonitorID r = None) then (Err (Sentinel ErrRepoNotFound), d)
            else (Ok (Some row), with_born (r_ID r) (with_reports (<[r_ID r := row]> (reports d)) d))
        end
  end.

Definition byWindowID (wid : string) (d : mon_db) : answer DriftReport :=
  match report_of wid d with Some r => Ok r | None => Err (Sentinel ErrRepoNotFound) end.

Definition GetReportByID (team rid : string) (d : mon_db) : answer DriftReport :=
  match reports d !! rid with
  | Some r => if String.eqb (r_OwnerTeam r) team then Ok r else Err (Sentinel ErrRepoNotFound)
  | None => Err (Sentinel ErrRepoNotFound)
  end.

Definition of_model (team model : string) (r : DriftReport) : bool := String.eqb (r_OwnerTeam r) team && String.eqb (r_ModelName r) model.

(** DELETE, and the number of rows. *)
Definition PurgeByModel (team model : string) (d : mon_db) : answer Z * mon_db :=
  let gone := List.filter (fun r => of_model team model r) (map snd (map_to_list (reports d))) in
  (Ok (Z.of_nat (length gone)), with_reports (filter (fun kr => of_model team model kr.2 = false) (reports d)) d).

Definition page_size (opts : ListOptions) : Z := if PageSize opts <=? 0 then defaultPageSize else PageSize opts.

Section listings.
Context `{MonText}.

Definition report_key (r : DriftReport) : time * string := (r_WindowEnd r, r_ID r).

Definition newest_reports (d : mon_db) : list DriftReport := merge_sort (newest_first report_key) (map snd (map_to_list (reports d))).

Definition latest_of (team model : string) (d : mon_db) : option DriftReport := List.find (of_model team model) (newest_reports d).

Definition LatestByModel (team model : string) (d : mon_db) : answer DriftReport :=
  match latest_of team model d with Some r => Ok r | None => Err (Sentinel ErrRepoNotFound) end.

(** A token that is not empty must decode. *)
Definition read_cursor (token : string) : answer (option (time * string)) :=
  if String.eqb token "" then Ok None
  else match decodeListCursor token with Some c => Ok (Some c) | None => Err (External "invalid page token") end.

Definition listed {A} (key : A -> time * string) (opts : ListOptions) (rows : list A) : answer (list A * string) :=
  let! cur := read_cursor (PageToken opts) in
  let '(out, next) := page key key_lt (Z.to_nat (page_size opts)) cur rows in
  Ok (out, match next with Some c => encodeListCursor c | None => "" end).

Definition report_where (f : ReportFilter) (r : DriftReport) : bool :=
  String.eqb (r_OwnerTeam r) (rf_OwnerTeam f) && (String.eqb (rf_ModelName f) "" || String.eqb (r_ModelName r) (rf_ModelName f)) &&
  (bool_decide (rf_MinSeverity f = DriftSeverityUnspecified) || (severity_rank (rf_MinSeverity f) <=? severity_rank (r_Severity r))) &&
  (time_is_zero (Since f) || (timestamptz (Since f) <=? r_WindowEnd r)) && (time_is_zero (Until f) || (r_WindowEnd r <=? timestamptz (Until f))).

Definition ListReports (f : ReportFilter) (opts : ListOptions) (d : mon_db) : answer (list DriftReport * string) :=
  listed report_key opts (List.filter (report_where f) (newest_reports d)).

Definition monitor_key (m : Monitor) : time * string := (m_CreatedAt m, m_ID m).

Definition monitor_where (f : FleetFilter) (d : mon_db) (row : monitor_row) : bool :=
  String.eqb (m_OwnerTeam (row_monitor row)) (ff_OwnerTeam f) && bool_decide (deleted_at row = None) &&
  (bool_decide (ff_State f = MonitorStateUnspecified) || bool_decide (m_State (row_monitor row) = ff_State f)) &&
  (bool_decide (ff_MinSeverity f = DriftSeverityUnspecified) ||
   (severity_rank (ff_MinSeverity f) <=?
    match latest_of (m_OwnerTeam (row_monitor row)) (m_ModelName (row_monitor row)) d with Some r => severity_rank (r_Severity r) | None => 0 end)).

Definition ListMonitorRows (f : FleetFilter) (opts : ListOptions) (d : mon_db) : answer (list Monitor * string) :=
  listed monitor_key opts (merge_sort (newest_first monitor_key) (map row_monitor (List.filter (monitor_where f d) (map snd (map_to_list (monitors d)))))).

(** ** Judged completions (eval_repository.go) *)

Definition between (lo x hi : float64) : bool := f_le lo x && f_le x hi.

(** The check [eval_scores_range]. *)
Definition scores_in_range (s : JudgeScores) : bool :=
  negb (Scored s) ||
  (between MinScore (Relevance s) MaxScore && between MinScore (Coherence s) MaxScore && between MinScore (Safety s) MaxScore &&
   between MinScore (Overall s) MaxScore).

(** INSERT ... ON CONFLICT (request_id) DO NOTHING *)
Definition RecordEval (e : Eval_) (d : mon_db) : answer unit * mon_db :=
  if String.eqb (e_Team e) "" || String.eqb (e_Model e) "" || negb (scores_in_range (e_Scores e))
  then (Err (Wrap "record eval" (External "check violation")), d)
  else
    match eval_scores d !! e_RequestID e with
    | Some _ => (Ok tt, d)
    | None =>
        let row := {| e_Team := e_Team e; e_Model := e_Model e; e_RequestID := e_RequestID e; e_Scores := e_Scores e; e_CreatedAt := timestamptz (e_CreatedAt e) |} in
        (Ok tt, with_evals (<[e_RequestID e := row]> (eval_scores d)) d)
    end.

(** ORDER BY created_at DESC: rows of one moment come in any order. *)
Definition newer_eval (e f : Eval_) : Prop := e_CreatedAt f <= e_CreatedAt e.
#[export] Instance newer_eval_dec : RelDecision newer_eval.
Proof. intros e f. unfold newer_eval. apply _. Defined.

Definition RecentOverall (team model : string) (limit : Z) (d : mon_db) : answer (list float64) :=
  if limit <=? 0 then Ok []
  else
    let rows := List.filter (fun e => String.eqb (e_Team e) team && String.eqb (e_Model e) model && Scored (e_Scores e)) (map snd (map_to_list (eval_scores d))) in
    Ok (map (fun e => Overall (e_Scores e)) (take (Z.to_nat limit) (merge_sort newer_eval rows))).

Definition eval_key (e : Eval_) : time * string := (e_CreatedAt e, e_RequestID e).

Definition eval_where (f : EvalFilter) (e : Eval_) : bool :=
  String.eqb (e_Team e) (ef_Team f) && (String.eqb (ef_Model f) "" || String.eqb (e_Model e) (ef_Model f)) &&
  (time_is_zero (ef_Since f) || (timestamptz (ef_Since f) <=? e_CreatedAt e)).

Definition ListScores (f : EvalFilter) (opts : ListOptions) (d : mon_db) : answer (list Eval_ * string) :=
  listed eval_key opts (List.filter (eval_where f) (merge_sort (newest_first eval_key) (map snd (map_to_list (eval_scores d))))).
End listings.

(** ** Windows in Redis (window_store.go)

    The hash and the set of a monitor are two maps by their keys: ids of monitors are UUIDs,
    so that a key of one kind is none of the other. *)

Definition winMetaKey (monitorID : string) : string := keyPrefix +:+ ":win:" +:+ monitorID.
Definition winReqsKey (monitorID : string) : string := keyPrefix +:+ ":win:" +:+ monitorID +:+ ":reqs".

(** What is left of a key at a moment of Redis's clock. *)
Definition unexpired {A} (now : time) (x : option (A * time)) : option A :=
  match x with Some (a, expiry) => if time_before now expiry then Some a else None | None => None end.

Definition unix_epoch : time := 719162 * (24 * Hour).

Definition formatUnixNanos (t : time) : string := if time_is_zero t then "0" else Itoa (wrap64 (t - unix_epoch)).

Definition parseUnixNanos (s : string) : time :=
  if String.eqb s "" || String.eqb s "0" then 0 else match Atoi s with Some n => unix_epoch + n | None => 0 end.

(** [strconv.Atoi] with its error ignored: 0 for what is no number, the nearest [int] for
    what is out of range. *)
Definition parseInt (s : string) : Z :=
  match (match s with String "+" (String "-" _) => None | String "+" s' => NilZero.int_of_string s' | _ => NilZero.int_of_string s end) with
  | Some i => Z.max int64_min (Z.min int64_max (Z.of_int i))
  | None => 0
  end.

(** HGETALL, SMEMBERS, HGET *)
Definition HGetAll (now : time) (monitorID : string) (d : mon_db) : answer (gmap string string) :=
  Ok (default ∅ (unexpired now (win_meta d !! winMetaKey monitorID))).
Definition SMembers (now : time) (monitorID : string) (d : mon_db) : answer (list string) :=
  Ok (elements (default ∅ (unexpired now (win_reqs d !! winReqsKey monitorID)))).
Definition HGet (now : time) (monitorID field : string) (d : mon_db) : answer (option string) :=
  Ok (unexpired now (win_meta d !! winMetaKey monitorID) ≫= (fun meta => meta !! field)).

Definition field (name : string) (meta : gmap string string) : string := default "" (meta !! name).

Definition replayed (monitorID rid : string) (meta : gmap string string) : InferenceObservation := {|
  o_MonitorID := monitorID; o_OwnerTeam := ""; o_RequestID := rid; o_ModelName := field "model_name" meta; o_ModelVersion := field "model_version" meta;
  o_Features := ∅; PredictedTop := ""; o_ObservedAt := parseUnixNanos (field "opened_at" meta) |}.

(** The window that its hash and the members of its set give: replayed through [Add], then
    topped up to the stored count; a set with more members than the count is refused. *)
Definition restore (monitorID : string) (meta : gmap string string) (reqIDs : list string) : answer Window :=
  let w := NewWindow (field "id" meta) monitorID (field "model_name" meta) (parseUnixNanos (field "opened_at" meta)) in
  let w := foldl (fun w rid => (Add w (replayed monitorID rid meta)).1) w reqIDs in
  let wantCount := parseInt (field "sample_count" meta) in
  if w_SampleCount w <? wantCount
  then Ok (Nat.iter (Z.to_nat (wantCount - w_SampleCount w)) (fun w => (Add w (replayed monitorID "" meta)).1) w)
  else if wantCount <? w_SampleCount w then Err (External "torn window")
  else Ok w.

Definition window_fields (w : Window) : gmap string string :=
  <["id" := w_ID w]> (<["model_name" := w_ModelName w]> (<["model_version" := w_ModelVersion w]> (<["opened_at" := formatUnixNanos (OpenedAt w)]>
  (<["sample_count" := Itoa (w_SampleCount w)]> ∅)))).

(** MULTI: HSET, SADD, EXPIRE, EXPIRE, EXEC *)
Definition SaveWindow (now : time) (w : Window) (d : mon_db) : answer unit * mon_db :=
  let metaKey := winMetaKey (w_MonitorID w) in
  let reqsKey := winReqsKey (w_MonitorID w) in
  let meta := window_fields w ∪ default ∅ (unexpired now (win_meta d !! metaKey)) in
  let reqs := match RequestIDs w with
    | [] => win_reqs d
    | ids => <[reqsKey := (list_to_set ids ∪ default ∅ (unexpired now (win_reqs d !! reqsKey)), now + defaultWindowTTL)]> (win_reqs d)
    end in
  (Ok tt, with_window (<[metaKey := (meta, now + defaultWindowTTL)]> (win_meta d)) reqs d).

(** DEL of both keys *)
Definition DelWindow (monitorID : string) (d : mon_db) : answer unit * mon_db :=
  (Ok tt, with_window (delete (winMetaKey monitorID) (win_meta d)) (delete (winReqsKey monitorID) (win_reqs d)) d).

(** ** Stores in memory (cmd/server/main.go) *)

Definition LastTriggered (model : string) (d : mon_db) : time * mon_db := (default 0 (gate_last d !! model), d).
Definition MarkTriggered (model : string) (at_ : time) (d : mon_db) : unit * mon_db := (tt, with_gate (<[model := at_]> (gate_last d)) d).

Definition RecordPrediction (model requestID predicted : string) (at_ : time) (d : mon_db) : unit * mon_db :=
  if String.eqb requestID "" then (tt, d)
  else
    let m := default ∅ (preds d !! model) in
    let order := default [] (pred_order d !! model) in
    let order' := if bool_decide (is_Some (m !! requestID)) then order else order ++ [requestID] in
    let excess := if bool_decide (is_Some (m !! requestID)) then 0%nat else Z.to_nat (Z.of_nat (length order') - maxGroundTruthPerModel) in
    let m' := foldl (fun m oldest => delete oldest m) m (take excess order') in
    (tt, with_truth (<[model := <[requestID := {| predicted := predicted; gt_at := at_ |}]> m']> (preds d)) (<[model := drop excess order']> (pred_order d)) (pairs d) d).

Definition RecordLabel (model requestID actual : string) (d : mon_db) : bool * mon_db :=
  match preds d !! model ≫= (fun m => m !! requestID) with
  | None => (false, d)
  | Some entry =>
      (true, with_truth (<[model := delete requestID (default ∅ (preds d !! model))]> (preds d)) (pred_order d)
               (<[model := default [] (pairs d !! model) ++ [{| Predicted := predicted entry; Actual := actual |}]]> (pairs d)) d)
  end.

(** The window of time is not looked at. *)
Definition RecentPairs (model : string) (window : duration) (d : mon_db) : list LabelPair * mon_db := (default [] (pairs d !! model), d).

Definition sample (d : mon_db) : bool * mon_db := let '(b, s) := ShouldSample (sampler d) in (b, with_sampler s d).
