(* ===== verification/Monitor.v ===== *)
(** * The model monitor

    [services/model-monitor/internal]: the operations of [domain/monitor_service_impl.go] and
    [domain/quality_eval_service.go] as programs of statements, Redis commands, clock readings
    and ids; the reactions of [events/subscriber.go] and [events/ai_eval_consumer.go]; and the
    calls of [handler/monitor_handler_rpcs.go] with their checks and the status of an error. *)

From S2P Require Import Prelude GoText GoFloat Concur Site AuditCapture Keyset MonModel MonStore.
Open Scope fp_scope.

(** ** Requests (monitor_service.go) *)

Record ConfigureMonitorInput := {
  cm_ModelName : string; cm_WindowDuration : duration; cm_WindowSize : Z; cm_MinSamples : Z; cm_Thresholds : list ThresholdConfig; cm_AutoRetrain : bool;
  cm_RetrainPipelineID : string; Enabled_ : bool; cm_IdempotencyKey : string;
}.
Record SubmitGroundTruthInput := { sg_ModelName : string; sg_Labels : list GroundTruthLabel; sg_IdempotencyKey : string }.
Record SubmitGroundTruthResult := { Accepted : Z; UnmatchedRequestIDs : list string }.
Record FleetEntry := { fe_Monitor : Monitor; fe_Health : ModelHealth }.

Definition defaultRetrainCooldown : duration := Hour.
Definition performanceWindow : duration := 24 * Hour.

(** What the services are built with. *)
Record mon_config := { cfg_cooldown : duration; cfg_quality : QualityDriftConfig; cfg_warn : float64; cfg_critical : float64 }.
Definition cooldown (cfg : mon_config) : duration := if cfg_cooldown cfg <=? 0 then defaultRetrainCooldown else cfg_cooldown cfg.

(** The ports outside: the baselines, the publisher and the orchestrator, whose failures are
    texts, and the judge, whose failures are ignored; Redis's clock; the order in which a map
    is ranged over; the row that a SELECT without an order meets first. *)
Class MonOutside (W : Type) : Type := {
  GetBaseline : string -> string -> W -> result Baseline mon_error * W;
  publish : DriftEvent -> W -> option string * W;
  orchestrate : RetrainRequest -> W -> option string * W;
  judge_Score : Completion -> W -> JudgeScores * W;
  redis_now : W -> time * W;
  range_order : list string -> W -> list string * W;
  pick_row : W -> nat * W;
}.

(** The provider that [cmd/server/main.go] wires in. *)
Definition unavailableBaselineProvider {W} (model version : string) (w : W) : result Baseline mon_error * W := (Err (Sentinel ErrBaselineUnavailable), w).

Section service.
Context {W : Type} `{Outside W, MonOutside W, MonText, MathLog}.
Variable cfg : mon_config.

Abbreviation call := (prog (site W mon_db)).

Definition blank (s : string) : bool := String.eqb (TrimSpace s) "".
Definition not_found (target : mon_sentinel) (text : string) (e : mon_error) : mon_error := if errors_is e ErrRepoNotFound then Sentinel target else Wrap text e.

(** ** The window store *)

Definition LoadOrOpen (monitorID modelName : string) (openedAt : time) : call (answer Window) :=
  do! now := ask redis_now in
  do! meta := query (fun _ d => HGetAll now monitorID d) in
  try meta (Wrap "load window meta") (fun meta =>
  do! wid := ask NewID in
  if bool_decide (meta = ∅) then Ret (Ok (NewWindow wid monitorID modelName openedAt))
  else
    do! now := ask redis_now in
    do! reqIDs := query (fun _ d => SMembers now monitorID d) in
    try reqIDs (Wrap "load window reqs") (fun reqIDs => Ret (restore monitorID meta reqIDs))).

Definition win_Save (w : Window) : call (answer unit) :=
  do! now := ask redis_now in
  do! saved := transact (SaveWindow now w) in
  try saved (Wrap "save window") (fun _ => Ret (Ok tt)).

Definition win_Close (monitorID windowID : string) : call (answer unit) :=
  do! now := ask redis_now in
  do! storedID := query (fun _ d => HGet now monitorID "id" d) in
  try storedID (Wrap "read window id for close") (fun storedID =>
  match storedID with
  | None => Ret (Ok tt)
  | Some storedID =>
      if negb (String.eqb storedID windowID) then Ret (Ok tt)
      else do! closed := transact (DelWindow monitorID) in try closed (Wrap "close window") (fun _ => Ret (Ok tt))
  end).

Definition CurrentSampleCount (monitorID : string) : call (answer Z) :=
  do! now := ask redis_now in
  do! v := query (fun _ d => HGet now monitorID "sample_count" d) in
  try v (Wrap "current sample count") (fun v => Ret (Ok (match v with Some v => parseInt v | None => 0 end))).

(** ** The report store's save: the insert, and the row that was there before *)

Definition SaveReport (rep : DriftReport) : call (answer (DriftReport * bool)) :=
  do! stored := transact (insert_report rep) in
  try stored id (fun stored =>
  match stored with
  | Some stored => Ret (Ok (stored, true))
  | None =>
      do! existing := query (fun _ d => byWindowID (r_WindowID rep) d) in
      try existing (Wrap "refetch existing report on conflict") (fun existing => Ret (Ok (existing, false)))
  end).

(** ** Configuration *)

Definition validateWindowShape (dur : duration) (size minSamples : Z) : option mon_error :=
  if (size <? 0) || (MaxWindowSize <? size) then Some (wrap ErrValidation "window_size out of range")
  else if minSamples <? 0 then Some (wrap ErrValidation "min_samples must be >= 0")
  else if (0 <? size) && (size <? minSamples) then Some (wrap ErrValidation "min_samples cannot exceed window_size")
  else if dur <? 0 then Some (wrap ErrValidation "window_duration must be >= 0")
  else if (dur =? 0) && (size =? 0) then Some (wrap ErrValidation "at least one of window_duration or window_size must be set (else windows never close)")
  else None.

Fixpoint validateThresholds (ths : list ThresholdConfig) : option mon_error :=
  match ths with
  | [] => None
  | t :: ths =>
      if bool_decide (t_DriftType t = DriftTypeUnspecified) then Some (wrap ErrValidation "threshold has unspecified drift_type")
      else if bool_decide (t_Method t = DriftMethodUnspecified) then Some (wrap ErrValidation "threshold has unspecified method")
      else if f_lt (CriticalScore t) (WarnScore t) then Some (wrap ErrValidation "warn_score exceeds critical_score")
      else validateThresholds ths
  end.

Definition capPage (opts : ListOptions) : ListOptions :=
  let size := if PageSize opts <=? 0 then DefaultListPageSize else PageSize opts in
  {| PageSize := if MaxListPageSize <? size then MaxListPageSize else size; PageToken := PageToken opts |}.

Definition with_state (state : MonitorState) (m : Monitor) : Monitor := {|
  m_ID := m_ID m; m_ModelName := m_ModelName m; m_OwnerTeam := m_OwnerTeam m; WindowDuration := WindowDuration m; WindowSize := WindowSize m;
  MinSamples := MinSamples m; Thresholds := Thresholds m; AutoRetrain := AutoRetrain m; RetrainPipelineID := RetrainPipelineID m; m_State := state;
  BaselineVersion := BaselineVersion m; BaselineCapturedAt := BaselineCapturedAt m; m_CreatedAt := m_CreatedAt m; m_UpdatedAt := m_UpdatedAt m |}.

Definition with_baseline (base : Baseline) (m : Monitor) : Monitor := {|
  m_ID := m_ID m; m_ModelName := m_ModelName m; m_OwnerTeam := m_OwnerTeam m; WindowDuration := WindowDuration m; WindowSize := WindowSize m;
  MinSamples := MinSamples m; Thresholds := Thresholds m; AutoRetrain := AutoRetrain m; RetrainPipelineID := RetrainPipelineID m; m_State := m_State m;
  BaselineVersion := b_Version base; BaselineCapturedAt := CapturedAt base; m_CreatedAt := m_CreatedAt m; m_UpdatedAt := m_UpdatedAt m |}.

Definition with_update (now : time) (m : Monitor) : Monitor := {|
  m_ID := m_ID m; m_ModelName := m_ModelName m; m_OwnerTeam := m_OwnerTeam m; WindowDuration := WindowDuration m; WindowSize := WindowSize m;
  MinSamples := MinSamples m; Thresholds := Thresholds m; AutoRetrain := AutoRetrain m; RetrainPipelineID := RetrainPipelineID m; m_State := m_State m;
  BaselineVersion := BaselineVersion m; BaselineCapturedAt := BaselineCapturedAt m; m_CreatedAt := m_CreatedAt m; m_UpdatedAt := now |}.

(** The settings of the request on the monitor that is there, or on a new one. *)
Definition configured (inp : ConfigureMonitorInput) (now : time) (m : Monitor) : Monitor := {|
  m_ID := m_ID m; m_ModelName := m_ModelName m; m_OwnerTeam := m_OwnerTeam m; WindowDuration := cm_WindowDuration inp; WindowSize := cm_WindowSize inp;
  MinSamples := cm_MinSamples inp; Thresholds := cm_Thresholds inp; AutoRetrain := cm_AutoRetrain inp; RetrainPipelineID := cm_RetrainPipelineID inp;
  m_State := m_State m; BaselineVersion := BaselineVersion m; BaselineCapturedAt := BaselineCapturedAt m; m_CreatedAt := m_CreatedAt m; m_UpdatedAt := now |}.

Definition new_monitor (mid team model : string) (now : time) : Monitor := {|
  m_ID := mid; m_ModelName := model; m_OwnerTeam := team; WindowDuration := 0; WindowSize := 0; MinSamples := 0; Thresholds := []; AutoRetrain := false;
  RetrainPipelineID := ""; m_State := MonitorStatePendingBaseline; BaselineVersion := ""; BaselineCapturedAt := 0; m_CreatedAt := now; m_UpdatedAt := 0 |}.

Definition resolveBaselineInto (m : Monitor) (version : string) : call (answer Monitor) :=
  do! base := ask (GetBaseline (m_ModelName m) version) in
  try base id (fun base => Ret (Ok (with_baseline base m))).

Definition store_monitor (text : string) (m : Monitor) : call (answer (Monitor * bool)) :=
  do! stored := transact (Upsert m) in try stored (Wrap text) (fun stored => Ret (Ok stored)).

Definition ConfigureMonitor (ownerTeam : string) (inp : ConfigureMonitorInput) : call (answer (Monitor * bool)) :=
  if blank ownerTeam then Ret (Err (wrap ErrValidation "owner_team is required (from auth claims)"))
  else if blank (cm_ModelName inp) then Ret (Err (wrap ErrValidation "model_name is required"))
  else
    match validateWindowShape (cm_WindowDuration inp) (cm_WindowSize inp) (cm_MinSamples inp) with
    | Some err => Ret (Err err)
    | None =>
        match validateThresholds (cm_Thresholds inp) with
        | Some err => Ret (Err err)
        | None =>
            if cm_AutoRetrain inp && blank (cm_RetrainPipelineID inp) then Ret (Err (Sentinel ErrRetrainPipelineRequired))
            else
              do! now := ask Now in
              do! existing := query (fun _ d => GetByModel ownerTeam (cm_ModelName inp) d) in
              do! m := match existing with
                | Ok m => Ret (Ok m)
                | Err e => if errors_is e ErrRepoNotFound then do! mid := ask NewID in Ret (Ok (new_monitor mid ownerTeam (cm_ModelName inp) now))
                           else Ret (Err (Wrap "load monitor" e))
                end in
              try m id (fun m =>
              let m := configured inp now m in
              if negb (Enabled_ inp) then store_monitor "upsert monitor" (with_state MonitorStatePaused m)
              else
                do! resolved := resolveBaselineInto m "" in
                match resolved with
                | Ok m => store_monitor "upsert monitor" (with_state MonitorStateWarmingUp m)
                | Err e => if errors_is e ErrBaselineUnavailable then store_monitor "upsert monitor" (with_state MonitorStatePendingBaseline m)
                           else Ret (Err e)
                end)
        end
    end.

Definition DeleteMonitor (ownerTeam modelName : string) (purgeReports : bool) : call (answer Z) :=
  if blank ownerTeam || blank modelName then Ret (Err (wrap ErrValidation "owner_team and model_name are required"))
  else
    do! now := ask Now in
    do! deleted := transact (Delete now ownerTeam modelName) in
    try deleted (Wrap "delete monitor") (fun _ =>
    if negb purgeReports then Ret (Ok 0)
    else do! purged := transact (PurgeByModel ownerTeam modelName) in try purged (Wrap "purge reports") (fun n => Ret (Ok n))).

Definition ResetBaseline (ownerTeam modelName version : string) : call (answer Monitor) :=
  if blank ownerTeam || blank modelName then Ret (Err (wrap ErrValidation "owner_team and model_name are required"))
  else
    do! m := query (fun _ d => GetByModel ownerTeam modelName d) in
    try m (not_found ErrMonitorNotFound "load monitor") (fun m =>
    do! m := resolveBaselineInto m version in
    try m id (fun m =>
    do! now := ask Now in
    do! stored := store_monitor "persist reset baseline" (with_update now (with_state MonitorStateWarmingUp m)) in
    try stored id (fun '(m, _) => Ret (Ok m)))).

Definition ResetBaselineFromPromotion (ownerTeam modelName newProdVersion : string) : call (answer unit) :=
  if blank ownerTeam || blank modelName || blank newProdVersion then Ret (Err (wrap ErrValidation "owner_team, model_name and new prod version are required"))
  else
    do! reset := ResetBaseline ownerTeam modelName newProdVersion in
    match reset with
    | Ok _ => Ret (Ok tt)
    | Err e => if errors_is e ErrMonitorNotFound then Ret (Ok tt) else Ret (Err e)
    end.

(** ** Reads *)

Definition healthFor (m : Monitor) : call (answer ModelHealth) :=
  let none := {| h_ModelName := m_ModelName m; h_ModelVersion := ""; OverallSeverity := DriftSeverityUnspecified; SeverityByType := []; h_State := m_State m;
                 LatestReportID := ""; h_LastEventAt := 0; h_DriftEventsTotal := 0 |} in
  do! latest := query (fun _ d => LatestByModel (m_OwnerTeam m) (m_ModelName m) d) in
  match latest with
  | Err e => if errors_is e ErrRepoNotFound then Ret (Ok none) else Ret (Err (Wrap "latest report" e))
  | Ok r => Ret (Ok {| h_ModelName := m_ModelName m; h_ModelVersion := r_ModelVersion r; OverallSeverity := r_Severity r;
                       SeverityByType := [(r_DriftType r, r_Severity r)]; h_State := m_State m; LatestReportID := r_ID r; h_LastEventAt := r_WindowEnd r;
                       h_DriftEventsTotal := 0 |})
  end.

Definition GetModelHealth (ownerTeam modelName : string) : call (answer ModelHealth) :=
  do! m := query (fun _ d => GetByModel ownerTeam modelName d) in
  try m (not_found ErrMonitorNotFound "load monitor") healthFor.

Definition GetMonitorStatus (ownerTeam modelName : string) : call (answer MonitorStatus) :=
  do! m := query (fun _ d => GetByModel ownerTeam modelName d) in
  try m (not_found ErrMonitorNotFound "load monitor") (fun m =>
  do! fill := CurrentSampleCount (m_ID m) in
  try fill (Wrap "window fill") (fun fill =>
  do! latest := query (fun _ d => LatestByModel (m_OwnerTeam m) (m_ModelName m) d) in
  let st report at_ := {| st_Monitor := m; st_State := m_State m; CurrentWindowSamples := fill; LatestReport := report; st_LastEventAt := at_;
                          st_DriftEventsTotal := 0 |} in
  match latest with
  | Ok r => Ret (Ok (st (Some r) (r_WindowEnd r)))
  | Err e => if errors_is e ErrRepoNotFound then Ret (Ok (st None 0)) else Ret (Err (Wrap "latest report" e))
  end)).

(** The loop over the monitors of a page. *)
Fixpoint fleet_entries (ms : list Monitor) : call (answer (list FleetEntry)) :=
  match ms with
  | [] => Ret (Ok [])
  | m :: ms =>
      do! h := healthFor m in
      try h id (fun h => do! rest := fleet_entries ms in try rest id (fun rest => Ret (Ok ({| fe_Monitor := m; fe_Health := h |} :: rest))))
  end.

Definition ListMonitors (ownerTeam : string) (minSeverity : DriftSeverity) (state : MonitorState) (opts : ListOptions) : call (answer (list FleetEntry * string)) :=
  if blank ownerTeam then Ret (Err (wrap ErrValidation "owner_team is required (from auth claims)"))
  else
    do! page := query (fun _ d => ListMonitorRows {| ff_OwnerTeam := ownerTeam; ff_MinSeverity := minSeverity; ff_State := state |} (capPage opts) d) in
    try page (Wrap "list monitors") (fun '(ms, next) => do! entries := fleet_entries ms in try entries id (fun entries => Ret (Ok (entries, next)))).

Definition GetDriftReport (ownerTeam reportID : string) : call (answer DriftReport) :=
  if blank ownerTeam then Ret (Err (wrap ErrValidation "owner_team is required (from auth claims)"))
  else if blank reportID then Ret (Err (wrap ErrValidation "report_id is required"))
  else
    do! r := query (fun _ d => GetReportByID ownerTeam reportID d) in
    try r (not_found ErrReportNotFound "get report") (fun r => Ret (Ok r)).

Definition for_team (ownerTeam : string) (f : ReportFilter) : ReportFilter := {|
  rf_OwnerTeam := ownerTeam; rf_ModelName := rf_ModelName f; rf_MinSeverity := rf_MinSeverity f; Since := Since f; Until := Until f |}.

Definition ListDriftReports (ownerTeam : string) (f : ReportFilter) (opts : ListOptions) : call (answer (list DriftReport * string)) :=
  if blank ownerTeam then Ret (Err (wrap ErrValidation "owner_team is required (from auth claims)"))
  else
    do! page := query (fun _ d => ListReports (for_team ownerTeam f) (capPage opts) d) in
    try page (Wrap "list reports") (fun page => Ret (Ok page)).

Definition ListEvalScores (ownerTeam : string) (f : EvalFilter) (opts : ListOptions) : call (answer (list Eval_ * string)) :=
  if blank ownerTeam then Ret (Err (wrap ErrValidation "owner_team is required (from auth claims)"))
  else
    do! page := query (fun _ d => ListScores {| ef_Team := ownerTeam; ef_Model := ef_Model f; ef_Since := ef_Since f |} (capPage opts) d) in
    try page (Wrap "list eval scores") (fun page => Ret (Ok page)).

(** ** Ground truth *)

(** The loop over the labels; what was accepted before a refused label stays recorded. *)
Fixpoint record_labels (model : string) (labels : list GroundTruthLabel) (res : SubmitGroundTruthResult) : call (answer SubmitGroundTruthResult) :=
  let unmatched lbl := {| Accepted := Accepted res; UnmatchedRequestIDs := UnmatchedRequestIDs res ++ [l_RequestID lbl] |} in
  match labels with
  | [] => Ret (Ok res)
  | lbl :: labels =>
      if blank (l_RequestID lbl) then record_labels model labels (unmatched lbl)
      else if MaxLabelBytes <? Z.of_nat (String.length (ActualLabel lbl)) then Ret (Err (wrap ErrValidation "label exceeds bytes"))
      else
        do! _ := (if time_is_zero (l_ObservedAt lbl) then ask Now else Ret (l_ObservedAt lbl)) in
        do! matched := locked (RecordLabel model (l_RequestID lbl) (ActualLabel lbl)) in
        record_labels model labels
          (if matched then {| Accepted := Accepted res + 1; UnmatchedRequestIDs := UnmatchedRequestIDs res |} else unmatched lbl)
  end.

Definition SubmitGroundTruth (ownerTeam : string) (inp : SubmitGroundTruthInput) : call (answer SubmitGroundTruthResult) :=
  if blank ownerTeam || blank (sg_ModelName inp) then Ret (Err (wrap ErrValidation "owner_team and model_name are required"))
  else if MaxGroundTruthBatch <? Z.of_nat (length (sg_Labels inp)) then Ret (Err (wrap ErrValidation "batch exceeds cap"))
  else
    do! m := query (fun _ d => GetByModel ownerTeam (sg_ModelName inp) d) in
    try m (not_found ErrMonitorNotFound "load monitor") (fun _ =>
    record_labels (sg_ModelName inp) (sg_Labels inp) {| Accepted := 0; UnmatchedRequestIDs := [] |}).

(** ** The closed loop *)

Definition maybe_error (text : string) (failed : option string) : answer unit := match failed with Some e => Err (Wrap text (External e)) | None => Ok tt end.

(** Both services decide alike; they tell other reasons and name a failure otherwise. *)
Definition apply_policy (why : DriftReport -> reason) (publishing : string) (m : Monitor) (report : DriftReport) (now : time) : call (answer unit) :=
  do! last := locked (LastTriggered (m_ModelName m)) in
  let decision := DecideRetrain report m last (cooldown cfg) now in
  do! emitted :=
    (if Emit decision then
       let ev := {| ev_Report := report; ev_AutoRetrain := AutoRetrain m; ev_RetrainPipelineID := RetrainPipelineID m; ev_OwnerTeam := m_OwnerTeam m |} in
       do! failed := logged (publish ev) (with_attempted ev) in Ret (maybe_error publishing failed)
     else Ret (Ok tt)) in
  try emitted id (fun _ =>
  if negb (Trigger decision) then Ret (Ok tt)
  else
    do! _ := locked (MarkTriggered (m_ModelName m) now) in
    let req := {| rr_PipelineID := RetrainPipelineID m; rr_ModelName := m_ModelName m; rr_ModelVersion := r_ModelVersion report; rr_ReportID := r_ID report;
                  rr_Reason := why report |} in
    do! failed := logged (orchestrate req) (with_retrain req) in
    Ret (maybe_error "trigger retrain" failed)).

Definition applyPolicy : Monitor -> DriftReport -> time -> call (answer unit) := apply_policy retrainReason "publish drift".

(** The scores of the features, in the order in which they are ranged over. *)
Fixpoint data_metrics (th : ThresholdConfig) (base : Baseline) (w : Window) (feats : list string) : answer (list DriftMetric) :=
  match feats with
  | [] => Ok []
  | feat :: feats =>
      let edges := default [] (FeatureEdges base !! feat) in
      match FeatureBaselines base !! feat with
      | None => data_metrics th base w feats
      | Some baseHist =>
          if (length edges <? 2)%nat then data_metrics th base w feats
          else
            match FeatureHistogram w feat edges with
            | None => data_metrics th base w feats
            | Some currHist =>
                match ComputeDrift (t_Method th) baseHist currHist with
                | Err e => if errors_is e ErrEmptyDistribution || errors_is e ErrBinMismatch then data_metrics th base w feats else Err e
                | Ok score =>
                    let! rest := data_metrics th base w feats in
                    Ok ({| dm_Name := feat; dm_Method := t_Method th; dm_Score := score; BaselineValue := histMean baseHist;
                           CurrentValue := histMean currHist; dm_Severity := Severity th score |} :: rest)
                end
            end
      end
  end.

Definition prediction_metrics (th : ThresholdConfig) (base : Baseline) (w : Window) : answer (list DriftMetric) :=
  if bool_decide (PredictionOrder base = []) then Ok []
  else
    match ComputeDrift (t_Method th) (PredictionBaseline base) (PredictionHistogram w (PredictionOrder base)) with
    | Ok score => Ok [{| dm_Name := "prediction_distribution"; dm_Method := t_Method th; dm_Score := score; BaselineValue := f_zero; CurrentValue := f_zero;
                         dm_Severity := Severity th score |}]
    | Err e => if errors_is e ErrEmptyDistribution || errors_is e ErrBinMismatch then Ok [] else Err e
    end.

Definition performance_metrics (th : ThresholdConfig) (base : Baseline) (pairs : list LabelPair) : list DriftMetric :=
  if bool_decide (pairs = []) then []
  else
    let drop := PerformanceDrop (b_Accuracy base) pairs in
    [{| dm_Name := "accuracy"; dm_Method := t_Method th; dm_Score := drop; BaselineValue := b_Accuracy base; CurrentValue := Accuracy pairs;
        dm_Severity := Severity th drop |}].

Definition window_report (rid : string) (m : Monitor) (w : Window) (metrics : list DriftMetric) (now : time) : DriftReport :=
  let '(headline, overall) := rollup metrics in
  {| r_ID := rid; r_MonitorID := m_ID m; r_OwnerTeam := m_OwnerTeam m; r_ModelName := m_ModelName m; r_ModelVersion := w_ModelVersion w;
     r_DriftType := headline; r_Severity := overall; r_Metrics := metrics; r_WindowID := w_ID w; r_SampleCount := w_SampleCount w;
     r_WindowStart := OpenedAt w; r_WindowEnd := now; r_CreatedAt := now |}.

Definition scoreWindow (m : Monitor) (w : Window) (now : time) : call (answer DriftReport) :=
  do! base := ask (GetBaseline (m_ModelName m) (BaselineVersion m)) in
  try base id (fun base =>
  do! order := ask (range_order (Features w)) in
  match (match ThresholdFor m DriftTypeData with Some th => data_metrics th base w order | None => Ok [] end) with
  | Err e => Ret (Err e)
  | Ok data =>
      match (match ThresholdFor m DriftTypePrediction with Some th => prediction_metrics th base w | None => Ok [] end) with
      | Err e => Ret (Err e)
      | Ok prediction =>
          do! performance := match ThresholdFor m DriftTypePerformance with
            | Some th => do! pairs := locked (RecentPairs (m_ModelName m) performanceWindow) in Ret (performance_metrics th base pairs)
            | None => Ret []
            end in
          do! rid := ask NewID in
          Ret (Ok (window_report rid m w (data ++ prediction ++ performance) now))
      end
  end).

(** The window is full or old: its report, and what follows from it. *)
Definition settle_window (m : Monitor) (w : Window) (now : time) : call (answer (option DriftReport)) :=
  do! report := scoreWindow m w now in
  match report with
  | Err e =>
      if errors_is e ErrBaselineUnavailable || errors_is e ErrInsufficientSamples then do! _ := win_Close (w_MonitorID w) (w_ID w) in Ret (Ok None)
      else Ret (Err e)
  | Ok report =>
      do! saved := SaveReport report in
      try saved (Wrap "save report") (fun '(stored, inserted) =>
      do! closed := win_Close (w_MonitorID w) (w_ID w) in
      try closed (Wrap "close window") (fun _ =>
      if negb inserted then Ret (Ok (Some stored))
      else
        do! done := applyPolicy m stored now in
        try done id (fun _ => Ret (Ok (Some stored)))))
  end.

Definition ObserveInference (obs : InferenceObservation) : call (answer (option DriftReport)) :=
  if blank (o_MonitorID obs) then Ret (Ok None)
  else
    do! now := ask Now in
    do! w := LoadOrOpen (o_MonitorID obs) (o_ModelName obs) now in
    try w (Wrap "load/open window") (fun w =>
    let w := (Add w obs).1 in
    do! _ := (if negb (String.eqb (o_RequestID obs) "") && negb (String.eqb (PredictedTop obs) "")
              then locked (RecordPrediction (o_ModelName obs) (o_RequestID obs) (PredictedTop obs) (o_ObservedAt obs)) else Ret tt) in
    do! saved := win_Save w in
    try saved (Wrap "save window") (fun _ =>
    do! m := query (fun _ d => GetByID (o_MonitorID obs) d) in
    match m with
    | Err e => if errors_is e ErrRepoNotFound then Ret (Ok None) else Ret (Err (Wrap "load monitor by id" e))
    | Ok m =>
        if bool_decide (m_State m = MonitorStatePaused) then Ret (Ok None)
        else if negb (IsClosed w m now) then Ret (Ok None)
        else if negb (HasEnoughSamples w m) then
          do! closed := win_Close (o_MonitorID obs) (w_ID w) in try closed (Wrap "close window") (fun _ => Ret (Ok None))
        else settle_window m w now
    end)).

(** ** Judged quality (quality_eval_service.go) *)

Definition EvaluateCompletion (monitorID : string) (c : Completion) : call (answer (option DriftReport)) :=
  if String.eqb monitorID "" then Ret (Ok None)
  else
    do! now := ask Now in
    do! scores := ask (judge_Score c) in
    do! recorded := transact (RecordEval {| e_Team := cp_Team c; e_Model := cp_Model c; e_RequestID := cp_RequestID c; e_Scores := scores; e_CreatedAt := now |}) in
    try recorded (Wrap "record eval") (fun _ =>
    if negb (Scored scores) then Ret (Ok None)
    else if negb (Enabled (cfg_quality cfg)) then Ret (Ok None)
    else
      do! recent := query (fun _ d => RecentOverall (cp_Team c) (cp_Model c) (q_Window (cfg_quality cfg)) d) in
      try recent (Wrap "load recent eval scores") (fun recent =>
      let verdict := EvaluateQualityDrift recent (cfg_quality cfg) in
      if negb (Drifted verdict) then Ret (Ok None)
      else
        do! m := query (fun _ d => GetByID monitorID d) in
        match m with
        | Err e => if errors_is e ErrRepoNotFound then Ret (Ok None) else Ret (Err (Wrap "load monitor by id" e))
        | Ok m =>
            if bool_decide (m_State m = MonitorStatePaused) then Ret (Ok None)
            else
              do! rid := ask NewID in
              do! saved := SaveReport (buildQualityReport (cfg_quality cfg) (cfg_warn cfg) (cfg_critical cfg) rid m c verdict now) in
              try saved (Wrap "save quality drift report") (fun '(stored, inserted) =>
              if negb inserted then Ret (Ok (Some stored))
              else
                do! done := apply_policy qualityRetrainReason "publish quality drift" m stored now in
                try done id (fun _ => Ret (Ok (Some stored))))
        end)).
End service.

(** ** Events (subscriber.go, ai_eval_consumer.go) *)

Record InferenceCompleted := {
  ic_ModelName : string; ic_RequestId : string; ic_Version : string; ic_FeatureSummary : option (gmap string float64); ic_PredictionSummary : option string;
  ic_CompletedAt : option time;
}.
Record InferenceFailed := { if_ModelName : string; if_RequestId : string; if_Version : string; if_FailedAt : option time }.
Record ModelPromoted := { mp_ModelName : string; mp_Version : string; mp_ToStage : Z }.
Record aiCompletionServed := { ai_RequestID : string; ai_Team : string; ai_Model : string; PromptText : string; ResponseText : string }.

Definition MODEL_STAGE_PRODUCTION : Z := 3.

Definition featuresFromSummary (fs : option (gmap string float64)) : gmap string float64 := default ∅ fs.
Definition predictedTop (ps : option string) : string := default "" ps.

(** The payload of each subject; [None] is one that does not decode. *)
Inductive mon_event :=
| EvInferenceCompleted (p : option InferenceCompleted)
| EvInferenceFailed (p : option InferenceFailed)
| EvModelPromoted (p : option ModelPromoted)
| EvFeaturesWritten (decodes : bool)
| EvCompletionServed (p : option aiCompletionServed).

Section events.
Context {W : Type} `{Outside W, MonOutside W, MonText, MathLog}.
Variable cfg : mon_config.

Abbreviation call := (prog (site W mon_db)).

(** What every handler returns on a failure: the delivery is given back. *)
Definition processing_failed (text : string) : answer unit := Err (Wrap "event processing failed" (External text)).
Definition acked : answer unit := Ok tt.
Definition poison : answer unit := processing_failed "decode payload".

Definition timeOrNow (ts : option time) : call time :=
  match ts with Some t => if time_is_zero t then ask Now else Ret t | None => ask Now end.

(** The binding of a model; an absent one ends the handler well. *)
Definition resolving (modelName : string) (k : string * string -> call (answer unit)) : call (answer unit) :=
  do! pick := ask pick_row in
  do! found := query (fun _ d => ResolveByModel pick modelName d) in
  match found with
  | Err _ => Ret (processing_failed "resolve monitor")
  | Ok None => Ret acked
  | Ok (Some binding) => k binding
  end.

Definition acknowledging {A} (text : string) (m : call (answer A)) : call (answer unit) :=
  do! r := m in Ret (match r with Ok _ => acked | Err _ => processing_failed text end).

Definition handleInferenceCompleted (p : option InferenceCompleted) : call (answer unit) :=
  match p with
  | None => Ret poison
  | Some p =>
      let modelName := TrimSpace (ic_ModelName p) in
      if String.eqb modelName "" then Ret acked
      else resolving modelName (fun '(monitorID, ownerTeam) =>
        do! observedAt := timeOrNow (ic_CompletedAt p) in
        acknowledging "observe inference" (ObserveInference cfg {|
          o_MonitorID := monitorID; o_OwnerTeam := ownerTeam; o_RequestID := ic_RequestId p; o_ModelName := modelName; o_ModelVersion := ic_Version p;
          o_Features := featuresFromSummary (ic_FeatureSummary p); PredictedTop := predictedTop (ic_PredictionSummary p); o_ObservedAt := observedAt |}))
  end.

Definition handleInferenceFailed (p : option InferenceFailed) : call (answer unit) :=
  match p with
  | None => Ret poison
  | Some p =>
      let modelName := TrimSpace (if_ModelName p) in
      if String.eqb modelName "" then Ret acked
      else resolving modelName (fun '(monitorID, ownerTeam) =>
        do! observedAt := timeOrNow (if_FailedAt p) in
        acknowledging "observe inference-failed" (ObserveInference cfg {|
          o_MonitorID := monitorID; o_OwnerTeam := ownerTeam; o_RequestID := if_RequestId p; o_ModelName := modelName; o_ModelVersion := if_Version p;
          o_Features := ∅; PredictedTop := ""; o_ObservedAt := observedAt |}))
  end.

Definition handleModelPromoted (p : option ModelPromoted) : call (answer unit) :=
  match p with
  | None => Ret poison
  | Some p =>
      if negb (mp_ToStage p =? MODEL_STAGE_PRODUCTION) then Ret acked
      else
        let modelName := TrimSpace (mp_ModelName p) in
        let newVersion := TrimSpace (mp_Version p) in
        if String.eqb modelName "" || String.eqb newVersion "" then Ret acked
        else resolving modelName (fun '(_, ownerTeam) => acknowledging "re-baseline" (ResetBaselineFromPromotion ownerTeam modelName newVersion))
  end.

Definition handleFeaturesWritten (decodes : bool) : call (answer unit) := Ret (if decodes then acked else poison).

Definition handleCompletionServed (p : option aiCompletionServed) : call (answer unit) :=
  match p with
  | None => Ret poison
  | Some ev =>
      let model := TrimSpace (ai_Model ev) in
      if String.eqb model "" || blank (ai_RequestID ev) then Ret acked
      else resolving model (fun '(monitorID, ownerTeam) =>
        if negb (String.eqb (ai_Team ev) "") && negb (String.eqb ownerTeam "") && negb (String.eqb (ai_Team ev) ownerTeam) then Ret acked
        else
          do! sampled := locked sample in
          if negb sampled then Ret acked
          else acknowledging "evaluate completion" (EvaluateCompletion cfg monitorID {|
            cp_Team := ownerTeam; cp_Model := model; cp_RequestID := ai_RequestID ev; Prompt := PromptText ev; Response := ResponseText ev |}))
  end.

Definition handle (ev : mon_event) : call (answer unit) :=
  match ev with
  | EvInferenceCompleted p => handleInferenceCompleted p
  | EvInferenceFailed p => handleInferenceFailed p
  | EvModelPromoted p => handleModelPromoted p
  | EvFeaturesWritten decodes => handleFeaturesWritten decodes
  | EvCompletionServed p => handleCompletionServed p
  end.
End events.

(** ** The handler (monitor_handler_rpcs.go) *)

(** The status text of a validation error is the error's, without its formatted arguments. *)
Definition sentinel_text (s : mon_sentinel) : string :=
  match s with
  | ErrValidation => "monitor: validation failed"
  | ErrMonitorNotFound => "monitor: monitor not found"
  | ErrReportNotFound => "monitor: drift report not found"
  | ErrBaselineUnavailable => "monitor: baseline unavailable"
  | ErrRetrainPipelineRequired => "monitor: auto_retrain requires a retrain_pipeline_id"
  | ErrInsufficientSamples => "monitor: window has insufficient samples to score"
  | ErrEmptyDistribution => "monitor: distribution has no mass"
  | ErrBinMismatch => "monitor: distributions have mismatched bins"
  | ErrRepoNotFound => "repository: not found"
  end.

Fixpoint error_string (e : mon_error) : string :=
  match e with
  | Sentinel s => sentinel_text s
  | External text => text
  | Wrap msg (Sentinel ErrValidation) => sentinel_text ErrValidation +:+ ": " +:+ msg
  | Wrap text e => text +:+ ": " +:+ error_string e
  end.

Definition toStatusError (err : mon_error) : rpc_error :=
  if errors_is err ErrValidation then Status InvalidArgument (error_string err)
  else if errors_is err ErrRetrainPipelineRequired then Status InvalidArgument (error_string err)
  else if errors_is err ErrMonitorNotFound then Status NotFound "monitor not found"
  else if errors_is err ErrReportNotFound then Status NotFound "drift report not found"
  else if errors_is err ErrBaselineUnavailable then Status FailedPrecondition "baseline unavailable for the requested version"
  else Status Internal "internal error".

Definition invalid_ {A} (msg : string) : result A rpc_error := Err (Status InvalidArgument msg).

Definition callerTeam (claims : option Claims) : result string rpc_error :=
  match claims with
  | None => Err (Status Unauthenticated "missing authentication")
  | Some c => if String.eqb (c_Team c) "" then Err (Status Unauthenticated "missing authentication") else Ok (c_Team c)
  end.

(** A request's pagination: a page size and a token, zero and empty when it is absent. *)
Definition paginationFromProto (p : Z * string) : result ListOptions rpc_error :=
  let '(size, token) := p in
  if size <? 0 then invalid_ "page_size must not be negative"
  else
    let size := if size =? 0 then DefaultListPageSize else size in
    Ok {| PageSize := if MaxListPageSize <? size then MaxListPageSize else size; PageToken := token |}.

Definition driftTypeFromProto (x : Z) : result DriftType rpc_error :=
  if x =? 0 then Ok DriftTypeUnspecified else if x =? 1 then Ok DriftTypeData else if x =? 2 then Ok DriftTypePrediction
  else if x =? 3 then Ok DriftTypePerformance else invalid_ "unknown drift_type".
Definition driftTypeToProto (x : DriftType) : Z :=
  match x with DriftTypeData => 1 | DriftTypePrediction => 2 | DriftTypePerformance => 3 | DriftTypeUnspecified => 0 end.

Definition driftMethodFromProto (x : Z) : result DriftMethod rpc_error :=
  if x =? 0 then Ok DriftMethodUnspecified else if x =? 1 then Ok DriftMethodPSI else if x =? 2 then Ok DriftMethodKL
  else if x =? 3 then Ok DriftMethodKS else invalid_ "unknown drift method".
Definition driftMethodToProto (x : DriftMethod) : Z :=
  match x with DriftMethodPSI => 1 | DriftMethodKL => 2 | DriftMethodKS => 3 | DriftMethodUnspecified => 0 end.

Definition severityFromProto (x : Z) : result DriftSeverity rpc_error :=
  if x =? 0 then Ok DriftSeverityUnspecified else if x =? 1 then Ok DriftSeverityOK else if x =? 2 then Ok DriftSeverityWarning
  else if x =? 3 then Ok DriftSeverityCritical else invalid_ "unknown min_severity".
Definition severityToProto (x : DriftSeverity) : Z :=
  match x with DriftSeverityOK => 1 | DriftSeverityWarning => 2 | DriftSeverityCritical => 3 | DriftSeverityUnspecified => 0 end.

Definition monitorStateFromProto (x : Z) : result MonitorState rpc_error :=
  if x =? 0 then Ok MonitorStateUnspecified else if x =? 1 then Ok MonitorStatePendingBaseline else if x =? 2 then Ok MonitorStateWarmingUp
  else if x =? 3 then Ok MonitorStateActive else if x =? 4 then Ok MonitorStatePaused else invalid_ "unknown state".
Definition monitorStateToProto (x : MonitorState) : Z :=
  match x with MonitorStatePendingBaseline => 1 | MonitorStateWarmingUp => 2 | MonitorStateActive => 3 | MonitorStatePaused => 4 | MonitorStateUnspecified => 0 end.

Record threshold_proto := { tp_drift_type : Z; tp_method : Z; tp_warn_score : float64; tp_critical_score : float64 }.

Fixpoint thresholdsFromProto (ths : list threshold_proto) : result (list ThresholdConfig) rpc_error :=
  match ths with
  | [] => Ok []
  | t :: ths =>
      let! dt := driftTypeFromProto (tp_drift_type t) in
      let! m := driftMethodFromProto (tp_method t) in
      let! rest := thresholdsFromProto ths in
      Ok ({| t_DriftType := dt; t_Method := m; WarnScore := tp_warn_score t; CriticalScore := tp_critical_score t |} :: rest)
  end.

(** A timestamp of a request: absent, or what the protobuf library makes of it; [None] is one
    that its [CheckValid] refuses. Durations alike. *)
Definition optionalTime (ts : option (option time)) (field : string) : result time rpc_error :=
  match ts with None => Ok 0 | Some None => invalid_ (field +:+ " is not a valid timestamp") | Some (Some t) => Ok t end.

Definition durationFromProto (d : option (option duration)) : result duration rpc_error :=
  match d with
  | None => Ok 0
  | Some None => invalid_ "window_duration is not a valid duration"
  | Some (Some d) => if d <? 0 then invalid_ "window_duration must not be negative" else Ok d
  end.

Record configure_request := {
  cr_model_name : string; cr_window_duration : option (option duration); cr_window_size : Z; cr_min_samples : Z; cr_thresholds : list threshold_proto;
  cr_auto_retrain : bool; cr_retrain_pipeline_id : string; cr_enabled : bool; cr_idempotency_key : string;
}.
Record label_proto := { lp_request_id : string; lp_actual_label : string; lp_observed_at : option (option time) }.

Inductive mon_request :=
| ReqConfigureMonitor (req : configure_request)
| ReqDeleteMonitor (model_name : string) (purge_reports : bool)
| ReqResetBaseline (model_name baseline_version : string)
| ReqGetModelHealth (model_name : string)
| ReqGetMonitorStatus (model_name : string)
| ReqListMonitors (min_severity state : Z) (pagination : Z * string)
| ReqGetDriftReport (report_id : string)
| ReqListDriftReports (model_name : string) (min_severity : Z) (since until : option (option time)) (pagination : Z * string)
| ReqListEvalScores (model_name : string) (since : option (option time)) (pagination : Z * string)
| ReqSubmitGroundTruth (model_name : string) (labels : list label_proto) (idempotency_key : string)
| ReqStreamDriftEvents (min_severity : Z) (ctx_err : option code).

Inductive mon_response :=
| RespConfigured (m : Monitor) (created : bool)
| RespDeleted (purged : Z)
| RespMonitor (m : Monitor)
| RespHealth (h : ModelHealth)
| RespStatus (st : MonitorStatus)
| RespFleet (entries : list FleetEntry) (next : string)
| RespReport (r : DriftReport)
| RespReports (l : list DriftReport) (next : string)
| RespScores (l : list Eval_) (next : string)
| RespAccepted (accepted : Z) (unmatched : list string).

(** [int32(n)] *)
Definition to_int32 (n : Z) : Z := (n + 2 ^ 31) mod 2 ^ 32 - 2 ^ 31.

Fixpoint labels_from_proto (labels : list label_proto) : result (list GroundTruthLabel) rpc_error :=
  match labels with
  | [] => Ok []
  | l :: labels =>
      if String.eqb (lp_request_id l) "" then invalid_ "label request_id is required"
      else if String.eqb (lp_actual_label l) "" then invalid_ "label actual_label is required"
      else if MaxLabelBytes <? Z.of_nat (String.length (lp_actual_label l)) then invalid_ "label actual_label exceeds the maximum length"
      else
        let! observedAt := optionalTime (lp_observed_at l) "observed_at" in
        let! rest := labels_from_proto labels in
        Ok ({| l_RequestID := lp_request_id l; ActualLabel := lp_actual_label l; l_ObservedAt := observedAt |} :: rest)
  end.

Section handler.
Context {W : Type} `{Outside W, MonOutside W, MonText, MathLog}.

Abbreviation call := (prog (site W mon_db)).
Abbreviation reply := (call (result mon_response rpc_error)).

Definition refuse (msg : string) : reply := Ret (invalid_ msg).
Definition checked {A} (r : result A rpc_error) (k : A -> reply) : reply := match r with Ok a => k a | Err e => Ret (Err e) end.
Definition answering {A} (m : call (answer A)) (f : A -> mon_response) : reply :=
  do! r := m in Ret (match r with Ok a => Ok (f a) | Err e => Err (toStatusError e) end).

Definition h_ConfigureMonitor (team : string) (req : configure_request) : reply :=
  if String.eqb (cr_model_name req) "" then refuse "model_name is required"
  else if cr_window_size req <? 0 then refuse "window_size must not be negative"
  else if MaxWindowSize <? cr_window_size req then refuse "window_size exceeds the maximum allowed"
  else if cr_min_samples req <? 0 then refuse "min_samples must not be negative"
  else checked (durationFromProto (cr_window_duration req)) (fun windowDuration =>
    checked (thresholdsFromProto (cr_thresholds req)) (fun thresholds =>
    answering (ConfigureMonitor team {|
      cm_ModelName := cr_model_name req; cm_WindowDuration := windowDuration; cm_WindowSize := cr_window_size req; cm_MinSamples := cr_min_samples req;
      cm_Thresholds := thresholds; cm_AutoRetrain := cr_auto_retrain req; cm_RetrainPipelineID := cr_retrain_pipeline_id req; Enabled_ := cr_enabled req;
      cm_IdempotencyKey := cr_idempotency_key req |}) (fun '(m, created) => RespConfigured m created))).

Definition h_DeleteMonitor (team model_name : string) (purge_reports : bool) : reply :=
  if String.eqb model_name "" then refuse "model_name is required"
  else answering (DeleteMonitor team model_name purge_reports) (fun purged => RespDeleted (to_int32 purged)).

Definition h_ResetBaseline (team model_name baseline_version : string) : reply :=
  if String.eqb model_name "" then refuse "model_name is required" else answering (ResetBaseline team model_name baseline_version) RespMonitor.

Definition h_GetModelHealth (team model_name : string) : reply :=
  if String.eqb model_name "" then refuse "model_name is required" else answering (GetModelHealth team model_name) RespHealth.

Definition h_GetMonitorStatus (team model_name : string) : reply :=
  if String.eqb model_name "" then refuse "model_name is required" else answering (GetMonitorStatus team model_name) RespStatus.

Definition h_ListMonitors (team : string) (min_severity state : Z) (pagination : Z * string) : reply :=
  checked (paginationFromProto pagination) (fun opts =>
  checked (severityFromProto min_severity) (fun minSeverity =>
  checked (monitorStateFromProto state) (fun state =>
  answering (ListMonitors team minSeverity state opts) (fun '(entries, next) => RespFleet entries next)))).

Definition h_GetDriftReport (team report_id : string) : reply :=
  if String.eqb report_id "" then refuse "report_id is required" else answering (GetDriftReport team report_id) RespReport.

Definition h_ListDriftReports (team model_name : string) (min_severity : Z) (since until : option (option time)) (pagination : Z * string) : reply :=
  checked (paginationFromProto pagination) (fun opts =>
  checked (severityFromProto min_severity) (fun minSeverity =>
  checked (optionalTime since "since") (fun since =>
  checked (optionalTime until "until") (fun until =>
  if negb (time_is_zero since) && negb (time_is_zero until) && time_after since until then refuse "since must not be after until"
  else answering (ListDriftReports team {| rf_OwnerTeam := team; rf_ModelName := model_name; rf_MinSeverity := minSeverity; Since := since; Until := until |} opts)
         (fun '(l, next) => RespReports l next))))).

Definition h_ListEvalScores (team model_name : string) (since : option (option time)) (pagination : Z * string) : reply :=
  checked (paginationFromProto pagination) (fun opts =>
  checked (optionalTime since "since") (fun since =>
  answering (ListEvalScores team {| ef_Team := team; ef_Model := model_name; ef_Since := since |} opts) (fun '(l, next) => RespScores l next))).

Definition h_SubmitGroundTruth (team model_name : string) (labels : list label_proto) (idempotency_key : string) : reply :=
  if String.eqb model_name "" then refuse "model_name is required"
  else if bool_decide (length labels = 0%nat) then refuse "at least one label is required"
  else if MaxGroundTruthBatch <? Z.of_nat (length labels) then refuse "label batch exceeds the maximum allowed"
  else checked (labels_from_proto labels) (fun labels =>
    answering (SubmitGroundTruth team {| sg_ModelName := model_name; sg_Labels := labels; sg_IdempotencyKey := idempotency_key |})
      (fun res => RespAccepted (to_int32 (Accepted res)) (UnmatchedRequestIDs res))).

Definition h_StreamDriftEvents (min_severity : Z) (ctx_err : option code) : reply :=
  checked (severityFromProto min_severity) (fun _ =>
  match ctx_err with
  | Some c => Ret (Err (Status c "context"))
  | None => Ret (Err (Status Unimplemented "StreamDriftEvents is not yet implemented"))
  end).

Definition serve (team : string) (req : mon_request) : reply :=
  match req with
  | ReqConfigureMonitor req => h_ConfigureMonitor team req
  | ReqDeleteMonitor model_name purge_reports => h_DeleteMonitor team model_name purge_reports
  | ReqResetBaseline model_name baseline_version => h_ResetBaseline team model_name baseline_version
  | ReqGetModelHealth model_name => h_GetModelHealth team model_name
  | ReqGetMonitorStatus model_name => h_GetMonitorStatus team model_name
  | ReqListMonitors min_severity state pagination => h_ListMonitors team min_severity state pagination
  | ReqGetDriftReport report_id => h_GetDriftReport team report_id
  | ReqListDriftReports model_name min_severity since until pagination => h_ListDriftReports team model_name min_severity since until pagination
  | ReqListEvalScores model_name since pagination => h_ListEvalScores team model_name since pagination
  | ReqSubmitGroundTruth model_name labels idempotency_key => h_SubmitGroundTruth team model_name labels idempotency_key
  | ReqStreamDriftEvents min_severity ctx_err => h_StreamDriftEvents min_severity ctx_err
  end.

Definition rpc (claims : option Claims) (req : mon_request) : reply := checked (callerTeam claims) (fun team => serve team req).
End handler.
