(* ===== verification/MonTables.v ===== *)
(** * Model monitor: what the tables keep

    The writes that calls, events and windows make, one by one: the facts about the tables
    that each keeps, what becomes of a row, and whose rows change. *)

From S2P Require Import Prelude GoFormat GoFloat Site Keyset MonModel MonStore Monitor.
Open Scope fp_scope.

(** ** What reports score *)

Section scored.
Context `{MathLog}.

(** All metrics of a report, from a window and the labelled pairs. *)
Definition score_metrics (base : Baseline) (m : Monitor) (w : Window) (order : list string) (pairs : list LabelPair) : result (list DriftMetric) mon_error :=
  let! data := match ThresholdFor m DriftTypeData with Some th => data_metrics th base w order | None => Ok [] end in
  let! prediction := match ThresholdFor m DriftTypePrediction with Some th => prediction_metrics th base w | None => Ok [] end in
  Ok (data ++ prediction ++ match ThresholdFor m DriftTypePerformance with Some th => performance_metrics th base pairs | None => [] end).

(** A window that saw one observation. *)
Definition seen_only (obs : InferenceObservation) : Window := (Add (NewWindow "" "" "" 0) obs).1.

(** The baselines that the provider gives of a model at a version. *)
Variable gives : string -> string -> Baseline -> Prop.

(** The metrics score one single observation against a baseline of the model; or the report
    is one of judged quality. *)
Definition of_one_sample (r : DriftReport) : Prop :=
  exists base m obs order pairs, gives (r_ModelName r) (BaselineVersion m) base /\ score_metrics base m (seen_only obs) order pairs = Ok (r_Metrics r).
(** A metric that scores the observation: the one value that it has of a feature, or its one
    predicted label or none; or a metric of labelled pairs. *)
Definition one_metric (base : Baseline) (m : Monitor) (obs : InferenceObservation) (metric : DriftMetric) : Prop :=
  (exists th v h, let current := NewNumericHistogram (default [] (FeatureEdges base !! dm_Name metric)) [v] in
     o_Features obs !! dm_Name metric = Some v /\
     ThresholdFor m DriftTypeData = Some th /\ FeatureBaselines base !! dm_Name metric = Some h /\
     ComputeDrift (t_Method th) h current = Ok (dm_Score metric) /\ CurrentValue metric = histMean current) \/
  (exists th counts, ThresholdFor m DriftTypePrediction = Some th /\ dm_Name metric = "prediction_distribution" /\
     counts = (if String.eqb (PredictedTop obs) "" then ∅ else {[PredictedTop obs := increment f_zero]}) /\
     ComputeDrift (t_Method th) (PredictionBaseline base) (NewCategoricalHistogram (PredictionOrder base) counts) = Ok (dm_Score metric)) \/
  (exists th pairs, ThresholdFor m DriftTypePerformance = Some th /\ dm_Name metric = "accuracy" /\ dm_Score metric = PerformanceDrop (b_Accuracy base) pairs).

Lemma seen_only_values obs f vs : featureValues (seen_only obs) !! f = Some vs -> exists v, vs = [v] /\ o_Features obs !! f = Some v.
Proof.
  unfold seen_only, Add. cbn [NewWindow requestIDs w_SampleCount]. rewrite (bool_decide_false (o_RequestID obs ∈ ∅)) by set_solver. rewrite andb_false_r.
  cbn [fst featureValues NewWindow]. unfold add_features. rewrite lookup_merge, lookup_empty. destruct (o_Features obs !! f) as [v|]; [| done]. intros [= <-]. by exists v.
Qed.

Lemma seen_only_counts obs : predictionCounts (seen_only obs) = if String.eqb (PredictedTop obs) "" then ∅ else {[PredictedTop obs := increment f_zero]}.
Proof.
  unfold seen_only, Add. cbn [NewWindow requestIDs w_SampleCount]. rewrite (bool_decide_false (o_RequestID obs ∈ ∅)) by set_solver. rewrite andb_false_r.
  cbn [fst predictionCounts NewWindow]. destruct (String.eqb _ ""); [done |]. by rewrite lookup_empty.
Qed.

Lemma data_metrics_one th base m obs feats ms : ThresholdFor m DriftTypeData = Some th -> data_metrics th base (seen_only obs) feats = Ok ms -> Forall (one_metric base m obs) ms.
Proof.
  intros Ht. revert ms. induction feats as [|f fs IH]; intros ms; cbn [data_metrics]; [intros [= <-]; constructor |]. cbv zeta.
  destruct (FeatureBaselines base !! f) as [h|] eqn:Eh; [| by apply IH]. destruct (_ <? 2)%nat; [by apply IH |].
  unfold FeatureHistogram. destruct (featureValues (seen_only obs) !! f) as [vs|] eqn:Ev; [| by apply IH]. apply seen_only_values in Ev as (v & -> & Hv).
  destruct (ComputeDrift _ h _) as [score|e] eqn:Ec; [| by destruct (_ || _); [apply IH |]].
  destruct (data_metrics th base (seen_only obs) fs) as [rest|]; [| done]. cbn [rbind]. intros [= <-]. constructor; [| by apply IH].
  left. exists th, v, h. by repeat split.
Qed.

Lemma score_metrics_explicit base m obs order pairs ms : score_metrics base m (seen_only obs) order pairs = Ok ms -> Forall (one_metric base m obs) ms.
Proof.
  unfold score_metrics. destruct (match ThresholdFor m DriftTypeData with Some th => _ | None => _ end) as [data|] eqn:Ed; [| done]. cbn [rbind].
  destruct (match ThresholdFor m DriftTypePrediction with Some th => _ | None => _ end) as [prediction|] eqn:Ep; [| done]. cbn [rbind]. intros [= <-].
  apply Forall_app. split; [| apply Forall_app; split].
  - destruct (ThresholdFor m DriftTypeData) as [th|] eqn:Et; [by eapply data_metrics_one | injection Ed as <-; constructor].
  - destruct (ThresholdFor m DriftTypePrediction) as [th|] eqn:Et; [| injection Ep as <-; constructor]. unfold prediction_metrics in Ep.
    destruct (bool_decide _); [injection Ep as <-; constructor |]. destruct (ComputeDrift _ _ _) as [score|e] eqn:Ec; [| destruct (_ || _); [injection Ep as <-; constructor | done]].
    injection Ep as <-. constructor; [| constructor]. right. left. exists th, (predictionCounts (seen_only obs)). split; [done |]. split; [done |]. split; [apply seen_only_counts | exact Ec].
  - destruct (ThresholdFor m DriftTypePerformance) as [th|] eqn:Et; [| constructor]. unfold performance_metrics. destruct (bool_decide _); [constructor |].
    constructor; [| constructor]. right. right. by exists th, pairs.
Qed.

Definition of_quality (r : DriftReport) : Prop := exists cfg warn critical rid m c v now, r = buildQualityReport cfg warn critical rid m c v now.
End scored.

(** ** The writes *)

Section writes.
Context `{MonText, MathLog}.

(** The owners and models whose rows may be written, the monitors whose windows may, and the
    reports that were inserted before. *)
Variables (gives : string -> string -> Baseline -> Prop) (may : string -> string -> Prop) (open_ : string -> Prop) (known : list string).

(** The report is of a monitor of its team and model. *)
Definition owned (d : mon_db) (r : DriftReport) : Prop :=
  exists row, monitors d !! r_MonitorID r = Some row /\ m_OwnerTeam (row_monitor row) = r_OwnerTeam r /\ m_ModelName (row_monitor row) = r_ModelName r.

(** The report was inserted after all that were known. *)
Definition inserted_since (d : mon_db) (rid : string) : Prop := exists pre post, born d = pre ++ rid :: post /\ known `prefix_of` pre.

(** The request follows an event of a critical report whose monitor retrains by itself. *)
Definition announced (d : mon_db) (req : RetrainRequest) : Prop :=
  exists ev, ev ∈ attempted d /\ r_ID (ev_Report ev) = rr_ReportID req /\ r_Severity (ev_Report ev) = DriftSeverityCritical /\ ev_AutoRetrain ev = true /\
    ev_RetrainPipelineID ev = rr_PipelineID req /\ rr_PipelineID req <> "".

(** Nothing but the stores in memory changes. *)
Definition same_tables (d d' : mon_db) : Prop :=
  monitors d' = monitors d /\ reports d' = reports d /\ eval_scores d' = eval_scores d /\ win_meta d' = win_meta d /\ win_reqs d' = win_reqs d /\
  born d' = born d /\ attempted d' = attempted d /\ retrains d' = retrains d.

Inductive mon_write : mon_db -> mon_db -> Prop :=
| WriteMonitor m d x d' : may (m_OwnerTeam m) (m_ModelName m) -> Upsert m d = (Ok x, d') -> mon_write d d'
| WriteDelete now team model d : may team model -> mon_write d (Delete now team model d).2
| WritePurge team model d : may team model -> mon_write d (PurgeByModel team model d).2
| WriteReport r d row d' : may (r_OwnerTeam r) (r_ModelName r) -> owned d r -> of_one_sample gives r \/ of_quality r ->
    insert_report r d = (Ok (Some row), d') -> mon_write d d'
| WriteEval e d : may (e_Team e) (e_Model e) -> mon_write d (RecordEval e d).2
| WriteSave now w d : open_ (w_MonitorID w) -> mon_write d (SaveWindow now w d).2
| WriteDel mid d : open_ mid -> mon_write d (DelWindow mid d).2
| WriteMemory d d' : same_tables d d' -> mon_write d d'
| WriteAttempt ev d : inserted_since d (r_ID (ev_Report ev)) -> mon_write d (with_attempted ev d)
| WriteRetrain req d : announced d req -> mon_write d (with_retrain req d).

Definition mon_regime : regime mon_db := {| write := mon_write; Site.keeps := rtc mon_write; write_keeps l l' Hw := rtc_once l l' Hw |}.

(** ** What the tables always say *)

Record good (d : mon_db) : Prop := {
  monitors_keyed : map_Forall (fun mid row => m_ID (row_monitor row) = mid) (monitors d);
  live_unique : forall i j row row', monitors d !! i = Some row -> monitors d !! j = Some row' -> deleted_at row = None -> deleted_at row' = None ->
    m_OwnerTeam (row_monitor row) = m_OwnerTeam (row_monitor row') -> m_ModelName (row_monitor row) = m_ModelName (row_monitor row') -> i = j;
  reports_owned : map_Forall (fun rid r => r_ID r = rid /\ rid ∈ born d /\ owned d r) (reports d);
  windows_unique : forall i j r r', reports d !! i = Some r -> reports d !! j = Some r' -> r_WindowID r = r_WindowID r' -> i = j;
}.

(** Ids of reports are drawn once. *)
Definition plausible (d : mon_db) : Prop := NoDup (born d).

Definition monitor_kept (row row' : monitor_row) : Prop :=
  m_ID (row_monitor row') = m_ID (row_monitor row) /\ m_OwnerTeam (row_monitor row') = m_OwnerTeam (row_monitor row) /\
  m_ModelName (row_monitor row') = m_ModelName (row_monitor row) /\ m_CreatedAt (row_monitor row') = m_CreatedAt (row_monitor row) /\
  (is_Some (deleted_at row) -> row' = row).

#[export] Instance monitor_kept_preorder : PreOrder monitor_kept.
Proof.
  split; [done |]. unfold monitor_kept. intros x y z (? & ? & ? & ? & Hxy) (? & ? & ? & ? & Hyz). repeat (split; [congruence |]).
  intros Hx. specialize (Hxy Hx). subst y. by apply Hyz.
Qed.

(** A report that was inserted, as its columns give it back. *)
Definition report_new (r : DriftReport) : Prop :=
  exists r0 ms, (of_one_sample gives r0 \/ of_quality r0) /\ encodeMetrics (r_Metrics r0) = Some ms /\ r = report_columns r0 ms.

Definition inserted_after (d d' : mon_db) (rid : string) : Prop := exists pre post, born d' = pre ++ rid :: post /\ born d `prefix_of` pre.

(** What later tables keep of earlier ones. *)
Record kept (d d' : mon_db) : Prop := {
  monitors_stay : forall mid row, monitors d !! mid = Some row -> exists row', monitors d' !! mid = Some row' /\ monitor_kept row row';
  born_grows : born d `prefix_of` born d';
  reports_from : forall rid r', reports d' !! rid = Some r' -> reports d !! rid = Some r' \/ report_new r' /\ inserted_after d d' rid;
  attempts_grow : exists added, attempted d' = attempted d ++ added /\ Forall (fun ev => inserted_since d' (r_ID (ev_Report ev))) added;
  retrains_grow : exists added, retrains d' = retrains d ++ added /\ Forall (announced d') added;
}.

Lemma inserted_since_grows d d' rid : born d `prefix_of` born d' -> inserted_since d rid -> inserted_since d' rid.
Proof. intros [added Hb] (pre & post & E & Hk). exists pre, (post ++ added). split; [by rewrite Hb, E, <- app_assoc | done]. Qed.

Lemma announced_grows d d' req : (exists added, attempted d' = attempted d ++ added) -> announced d req -> announced d' req.
Proof. intros [added Ha] (ev & Hin & Hr). exists ev. split; [| done]. rewrite Ha. apply elem_of_app. by left. Qed.

#[export] Instance kept_refl : Reflexive kept.
Proof.
  intros d. split; [| done | by left | | ].
  - intros mid row Hr. by exists row.
  - exists []. by rewrite app_nil_r.
  - exists []. by rewrite app_nil_r.
Qed.

#[export] Instance kept_trans : Transitive kept.
Proof.
  intros d1 d2 d3 K12 K23. pose proof (born_grows _ _ K12) as B12. pose proof (born_grows _ _ K23) as B23.
  destruct (attempts_grow _ _ K12) as (a & Ea & Fa), (attempts_grow _ _ K23) as (b & Eb & Fb). split.
  - intros mid row Hr. destruct (monitors_stay _ _ K12 mid row Hr) as (row' & Hr' & Hk). destruct (monitors_stay _ _ K23 mid row' Hr') as (row'' & Hr'' & Hk').
    exists row''. split; [done | by etrans].
  - by etrans.
  - intros rid r' Hr'. destruct (reports_from _ _ K23 rid r' Hr') as [Hr2 | [Hn (pre & post & E & Hp)]].
    + destruct (reports_from _ _ K12 rid r' Hr2) as [? | [Hn (pre & post & E & Hp)]]; [by left | right]. split; [done |].
      destruct B23 as [added B23]. exists pre, (post ++ added). split; [by rewrite B23, E, <- app_assoc | done].
    + right. split; [done |]. exists pre, post. split; [done | by etrans].
  - exists (a ++ b). split; [by rewrite Eb, Ea, app_assoc |]. apply Forall_app. split; [| done]. eapply Forall_impl; [| exact Fa]. intros ev. by apply inserted_since_grows.
  - destruct (retrains_grow _ _ K12) as (x & Ex & Fx), (retrains_grow _ _ K23) as (y & Ey & Fy). exists (x ++ y). split; [by rewrite Ey, Ex, app_assoc |].
    apply Forall_app. split; [| done]. eapply Forall_impl; [| exact Fx]. intros req. apply announced_grows. by exists b.
Qed.

(** Steps that add to none of the logs. *)
Lemma kept_quiet d d' : (forall mid row, monitors d !! mid = Some row -> exists row', monitors d' !! mid = Some row' /\ monitor_kept row row') ->
  (forall rid r', reports d' !! rid = Some r' -> reports d !! rid = Some r') -> born d' = born d -> attempted d' = attempted d -> retrains d' = retrains d -> kept d d'.
Proof.
  intros Hm Hr Hb Ha Ht. split; [exact Hm | by rewrite Hb | intros rid r' ?; left; by apply Hr | |]; exists []; by rewrite app_nil_r.
Qed.

(** ** The statements *)

Lemma live_of_spec team model d row : live_of team model d = Some row ->
  exists mid, monitors d !! mid = Some row /\ m_OwnerTeam (row_monitor row) = team /\ m_ModelName (row_monitor row) = model /\ deleted_at row = None.
Proof.
  unfold live_of, live_row. intros [Hin Hl]%List.find_some. apply list_elem_of_In, list_elem_of_fmap in Hin as ([mid row'] & -> & Hin%elem_of_map_to_list).
  cbn [snd] in *. bool_to_prop. by exists mid.
Qed.

Lemma live_of_none team model d mid row : live_of team model d = None -> monitors d !! mid = Some row -> deleted_at row = None ->
  m_OwnerTeam (row_monitor row) = team -> m_ModelName (row_monitor row) = model -> False.
Proof.
  unfold live_of. intros Hn Hr Hd Ht Hm. assert (row ∈ map snd (map_to_list (monitors d))) as Hin by (apply list_elem_of_fmap; exists (mid, row); split; [done | by apply elem_of_map_to_list]).
  apply list_elem_of_In, (List.find_none _ _ Hn) in Hin. unfold live_row in Hin. by rewrite Ht, Hm, Hd, !String.eqb_refl in Hin.
Qed.

(** The row that an upsert leaves, and what was under its key. *)
Lemma mon_Upsert_ok m d x d' : Upsert m d = (Ok x, d') ->
  d' = put_monitor x.1 d /\ m_OwnerTeam x.1 = m_OwnerTeam m /\ m_ModelName x.1 = m_ModelName m /\
  ((exists mid old, monitors d !! mid = Some old /\ deleted_at old = None /\ m_ID x.1 = m_ID (row_monitor old) /\
      m_OwnerTeam (row_monitor old) = m_OwnerTeam m /\ m_ModelName (row_monitor old) = m_ModelName m /\ m_CreatedAt x.1 = m_CreatedAt (row_monitor old)) \/
   (live_of (m_OwnerTeam m) (m_ModelName m) d = None /\ monitors d !! m_ID x.1 = None)).
Proof.
  unfold Upsert. destruct (encodeThresholds _) as [ths|]; [| done]. destruct (negb _); [done |]. destruct (_ || _); [done |].
  destruct (live_of _ _ d) as [old|] eqn:El.
  - intros [= <- <-]. destruct (live_of_spec _ _ _ _ El) as (mid & Hr & Ht & Hm & Hd). cbn [fst updated_columns m_OwnerTeam m_ModelName m_ID m_CreatedAt].
    repeat (split; [done |]). left. by exists mid, old.
  - destruct (bool_decide_reflect (is_Some (monitors d !! m_ID m))) as [|Hn]; [done |]. intros [= <- <-]. repeat (split; [done |]). right.
    split; [done |]. by apply eq_None_not_Some.
Qed.

Lemma report_of_none wid d rid r : report_of wid d = None -> reports d !! rid = Some r -> r_WindowID r = wid -> False.
Proof.
  unfold report_of, of_window. intros Hn Hr <-. assert (r ∈ map snd (map_to_list (reports d))) as Hin by (apply list_elem_of_fmap; exists (rid, r); split; [done | by apply elem_of_map_to_list]).
  apply list_elem_of_In, (List.find_none _ _ Hn) in Hin. by rewrite String.eqb_refl in Hin.
Qed.

Lemma insert_report_ok r d row d' : insert_report r d = (Ok (Some row), d') ->
  exists ms, encodeMetrics (r_Metrics r) = Some ms /\ row = report_columns r ms /\ report_of (r_WindowID r) d = None /\ reports d !! r_ID r = None /\
    d' = with_born (r_ID r) (with_reports (<[r_ID r := row]> (reports d)) d).
Proof.
  unfold insert_report. destruct (encodeMetrics _) as [ms|]; [| done]. destruct (negb _); [done |]. destruct (_ || _); [done |].
  destruct (report_of _ d) eqn:Ew; [done |]. destruct (bool_decide_reflect (is_Some (reports d !! r_ID r))) as [|Hn]; [done |].
  destruct (bool_decide _); [done |]. intros [= <- <-]. exists ms. repeat (split; [done |]). split; [by apply eq_None_not_Some | done].
Qed.

Lemma insert_report_none r d x d' : insert_report r d = (x, d') -> (forall row, x <> Ok (Some row)) -> d' = d.
Proof. unfold insert_report. intros Hi Hx. repeat case_match; simplify_eq; try done. by exfalso; eapply Hx. Qed.

Lemma Upsert_err m d e d' : Upsert m d = (Err e, d') -> d' = d.
Proof. unfold Upsert. intros Hu. by repeat case_match; simplify_eq. Qed.

Lemma RecordEval_cases e d : let d' := (RecordEval e d).2 in
  d' = d \/ eval_scores d !! e_RequestID e = None /\
    d' = with_evals (<[e_RequestID e := {| e_Team := e_Team e; e_Model := e_Model e; e_RequestID := e_RequestID e; e_Scores := e_Scores e; e_CreatedAt := timestamptz (e_CreatedAt e) |}]> (eval_scores d)) d.
Proof. unfold RecordEval. destruct (_ || _); [by left |]. destruct (eval_scores d !! _) eqn:E; [by left | by right]. Qed.

Lemma put_monitor_stays x d : good d ->
  ((exists mid old, monitors d !! mid = Some old /\ deleted_at old = None /\ m_ID x = m_ID (row_monitor old) /\
      m_OwnerTeam (row_monitor old) = m_OwnerTeam x /\ m_ModelName (row_monitor old) = m_ModelName x /\ m_CreatedAt x = m_CreatedAt (row_monitor old)) \/
   monitors d !! m_ID x = None) ->
  forall mid row, monitors d !! mid = Some row -> exists row', monitors (put_monitor x d) !! mid = Some row' /\ monitor_kept row row'.
Proof.
  intros Hg Hx mid row Hr. cbn. destruct (decide (mid = m_ID x)) as [-> |]; [rewrite lookup_insert_eq | rewrite lookup_insert_ne by done; by exists row].
  eexists. split; [done |]. destruct Hx as [(i & old & Ho & Hd & Hid & Ht & Hm & Hc) | ?]; [| congruence].
  assert (i = m_ID x) as -> by (rewrite Hid; symmetry; by apply (monitors_keyed d Hg)). assert (old = row) as -> by congruence.
  unfold monitor_kept. cbn. repeat (split; [done |]). intros [? Hs]. congruence.
Qed.

(** ** Every write keeps them *)

Lemma write_kept d d' : good d -> mon_write d d' -> kept d d'.
Proof.
  intros Hg Hw. destruct Hw as [m d x d' _ Hu | now team model d _ | team model d _ | r d row d' _ Ho Hs Hi | e d _ | now w d _ | wid d _ | d d' Hs | ev d Hi | req d Ha].
  - apply mon_Upsert_ok in Hu as (-> & Ht & Hm & Hu). apply kept_quiet; try done. apply put_monitor_stays; [done |].
    destruct Hu as [(mid & old & ? & ? & ? & ? & ? & ?) | [_ ?]]; [left | by right]. exists mid, old. repeat split; congruence.
  - apply kept_quiet; try done. intros mid row Hr. cbn. rewrite lookup_fmap, Hr. eexists. split; [reflexivity |].
    destruct (live_row team model row) eqn:El; [| done]. unfold live_row in El. bool_to_prop. unfold monitor_kept. cbn. repeat (split; [done |]). intros [? Hs]. congruence.
  - apply kept_quiet; try done; [by intros mid row Hr; exists row |]. intros rid r'. cbn. rewrite map_lookup_filter_Some. by intros [? _].
  - apply insert_report_ok in Hi as (ms & He & -> & Hn & Hr & ->). split; cbn.
    + intros mid row Hm. by exists row.
    + by apply prefix_app_r.
    + intros rid r' [[<- <-] | [_ ?]]%lookup_insert_Some; [right | by left]. split; [by exists r, ms |]. by exists (born d), [].
    + exists []. by rewrite app_nil_r.
    + exists []. by rewrite app_nil_r.
  - destruct (RecordEval_cases e d) as [-> | [_ ->]]; [done |]. apply kept_quiet; try done. intros mid row Hr. by exists row.
  - apply kept_quiet; try done. intros mid row Hr. by exists row.
  - apply kept_quiet; try done. intros mid row Hr. by exists row.
  - destruct Hs as (E1 & E2 & _ & _ & _ & E3 & E4 & E5). apply kept_quiet; try done; [rewrite E1; intros mid row Hr; by exists row | by rewrite E2].
  - split; cbn; [intros mid row Hr; by exists row | done | by left | | exists []; by rewrite app_nil_r]. exists [ev]. split; [done |]. by repeat constructor.
  - split; cbn; [intros mid row Hr; by exists row | done | by left | exists []; by rewrite app_nil_r |]. exists [req]. split; [done |]. by repeat constructor.
Qed.

Lemma owned_stays d d' r : (forall mid row, monitors d !! mid = Some row -> exists row', monitors d' !! mid = Some row' /\ monitor_kept row row') -> owned d r -> owned d' r.
Proof.
  intros Hs (row & Hr & Ht & Hm). destruct (Hs _ _ Hr) as (row' & Hr' & _ & E1 & E2 & _). exists row'. split; [done |]. split; congruence.
Qed.

(** Steps on monitors alone. *)
Lemma good_monitors d d' : good d -> reports d' = reports d -> born d' = born d ->
  (forall mid row, monitors d !! mid = Some row -> exists row', monitors d' !! mid = Some row' /\ monitor_kept row row') ->
  map_Forall (fun mid row => m_ID (row_monitor row) = mid) (monitors d') ->
  (forall i j row row', monitors d' !! i = Some row -> monitors d' !! j = Some row' -> deleted_at row = None -> deleted_at row' = None ->
    m_OwnerTeam (row_monitor row) = m_OwnerTeam (row_monitor row') -> m_ModelName (row_monitor row) = m_ModelName (row_monitor row') -> i = j) -> good d'.
Proof.
  intros [_ _ Hr Hw] Er Eb Hs Hk Hl. split; [done | done | | by rewrite Er]. rewrite Er, Eb. eapply map_Forall_impl; [exact Hr |]. intros rid r (? & ? & Ho).
  split; [done |]. split; [done | by eapply owned_stays].
Qed.

Lemma good_put_monitor d x : good d ->
  ((exists mid old, monitors d !! mid = Some old /\ deleted_at old = None /\ m_ID x = m_ID (row_monitor old) /\
      m_OwnerTeam (row_monitor old) = m_OwnerTeam x /\ m_ModelName (row_monitor old) = m_ModelName x /\ m_CreatedAt x = m_CreatedAt (row_monitor old)) \/
   live_of (m_OwnerTeam x) (m_ModelName x) d = None /\ monitors d !! m_ID x = None) ->
  good (put_monitor x d).
Proof.
  intros Hg Hx. eapply (good_monitors d); try done.
  - apply put_monitor_stays; [done |]. destruct Hx as [? | [_ ?]]; [by left | by right].
  - cbn. apply map_Forall_insert_2; [done | apply Hg].
  - assert (forall j row, j <> m_ID x -> monitors d !! j = Some row -> deleted_at row = None -> m_OwnerTeam (row_monitor row) = m_OwnerTeam x ->
      m_ModelName (row_monitor row) = m_ModelName x -> False) as Hno.
    { intros j row Hne Hr Hd Ht Hm. destruct Hx as [(mid & old & Ho & Hdo & Hid & Hto & Hmo & _) | [Hl _]]; [| by eapply live_of_none].
      apply Hne. rewrite Hid, (monitors_keyed d Hg mid old Ho). by apply (live_unique d Hg j mid row old); try congruence. }
    cbn. intros i j row row'. rewrite !lookup_insert_Some. intros [[<- <-] | [Hi Hr]] [[<- <-] | [Hj Hr']] Hd Hd' Ht Hm; [done | exfalso | exfalso |].
    + apply (Hno j row'); [congruence | done | done | by rewrite <- Ht | by rewrite <- Hm].
    + by apply (Hno i row); [congruence | ..].
    + by apply (live_unique d Hg i j row row').
Qed.

Lemma write_good d d' : mon_write d d' -> good d -> good d'.
Proof.
  intros Hw Hg. destruct Hw as [m d x d' _ Hu | now team model d _ | team model d _ | r d row d' _ Ho Hs Hi | e d _ | now w d _ | wid d _ | d d' Hs | ev d Hi | req d Ha].
  - apply mon_Upsert_ok in Hu as (-> & Ht & Hm & Hu). apply good_put_monitor; [done |].
    destruct Hu as [(mid & old & ? & ? & ? & ? & ? & ?) | [? ?]]; [left | right; by rewrite Ht, Hm]. exists mid, old. repeat split; congruence.
  - eapply (good_monitors d); [done | done | done | ..].
    + intros mid row Hr. cbn. rewrite lookup_fmap, Hr. eexists. split; [reflexivity |].
      destruct (live_row team model row) eqn:El; [| done]. unfold live_row in El. bool_to_prop. unfold monitor_kept. cbn. repeat (split; [done |]). intros [? Hs]. congruence.
    + intros mid row' Hr. cbn in Hr. rewrite lookup_fmap in Hr. apply fmap_Some in Hr as (row & Hr & ->). rewrite <- (monitors_keyed d Hg mid row Hr). by destruct (live_row _ _ _).
    + intros i j row row'. cbn. rewrite !lookup_fmap, !fmap_Some. intros (a & Ha & ->) (b & Hb & ->).
      destruct (live_row team model a); [done |]. destruct (live_row team model b); [done |]. by apply (live_unique d Hg).
  - destruct Hg as [Hk Hl Hr Hw]. split; cbn; [done | done | |].
    + intros rid r. rewrite map_lookup_filter_Some. intros [Hrr _]. by apply Hr.
    + intros i j r r'. rewrite !map_lookup_filter_Some. intros [Hi _] [Hj _]. by apply Hw.
  - apply insert_report_ok in Hi as (ms & He & -> & Hn & Hr & ->). destruct Hg as [Hk Hl Hrep Hw]. split; cbn; [done | done | |].
    + apply map_Forall_insert_2.
      * cbn. split; [done |]. split; [apply elem_of_app; right; by left | exact Ho].
      * eapply map_Forall_impl; [exact Hrep |]. cbn. intros rid r' (? & Hb & Ho'). split; [done |]. split; [apply elem_of_app; by left | exact Ho'].
    + intros i j r1 r2. rewrite !lookup_insert_Some. intros [[<- <-] | [Hi' Hr1]] [[<- <-] | [Hj' Hr2]] Hwid; [done | exfalso | exfalso |].
      * cbn in Hwid. by eapply (report_of_none _ d j r2).
      * cbn in Hwid. by eapply (report_of_none _ d i r1).
      * by apply (Hw i j r1 r2).
  - destruct (RecordEval_cases e d) as [-> | [_ ->]]; [done |]. by destruct Hg.
  - by destruct Hg.
  - by destruct Hg.
  - destruct Hs as (E1 & E2 & _ & _ & _ & E3 & _). destruct Hg as [Hk Hl Hr Hw]. split; rewrite ?E1, ?E2, ?E3; try done.
    eapply map_Forall_impl; [exact Hr |]. intros rid r (? & ? & Ho). split; [done |]. split; [done |]. unfold owned in *. by rewrite E1.
  - by destruct Hg.
  - by destruct Hg.
Qed.

(** ** Whose rows change *)

Definition rows_same (team model : string) (d d' : mon_db) : Prop :=
  (forall mid row, m_OwnerTeam (row_monitor row) = team -> m_ModelName (row_monitor row) = model -> monitors d' !! mid = Some row <-> monitors d !! mid = Some row) /\
  (forall rid r, r_OwnerTeam r = team -> r_ModelName r = model -> reports d' !! rid = Some r <-> reports d !! rid = Some r) /\
  (forall rid e, e_Team e = team -> e_Model e = model -> eval_scores d' !! rid = Some e <-> eval_scores d !! rid = Some e).

Lemma write_rows d d' team model : good d -> ~ may team model -> mon_write d d' -> rows_same team model d d'.
Proof.
  intros Hg Hno Hw. unfold rows_same.
  destruct Hw as [m d x d' Hmay Hu | now team' model' d Hmay | team' model' d Hmay | r d row d' Hmay Ho Hs Hi | e d Hmay | now w d _ | wid d _ | d d' Hs | ev d Hi | req d Ha]; try done.
  - apply mon_Upsert_ok in Hu as (-> & Ht & Hm & Hu). split; [| done]. intros mid row Et Em. cbn. rewrite lookup_insert_Some. split.
    + intros [[<- <-] | [_ ?]]; [| done]. cbn in Et, Em. congruence.
    + intros Hr. right. split; [| done]. intros <-. destruct Hu as [(i & old & Hold & _ & Hid & Hto & Hmo & _) | [_ ?]]; [| congruence].
      assert (i = m_ID x.1) as -> by (rewrite Hid; symmetry; by apply (monitors_keyed d Hg)). apply Hno. congruence.
  - split; [| done]. intros mid row Et Em. cbn. rewrite lookup_fmap, fmap_Some. split.
    + intros (a & Ha & ->). destruct (live_row team' model' a) eqn:El; [| done]. unfold live_row in El. bool_to_prop. cbn in Et, Em. exfalso. apply Hno. congruence.
    + intros Hr. exists row. split; [done |]. destruct (live_row team' model' row) eqn:El; [| done]. unfold live_row in El. bool_to_prop. exfalso. apply Hno. congruence.
  - split; [done |]. split; [| done]. intros rid r Et Em. cbn. rewrite map_lookup_filter_Some. split; [by intros [? _] |]. intros Hr. split; [done |]. cbn.
    unfold of_model. apply not_true_iff_false. intros [E1%String.eqb_eq E2%String.eqb_eq]%andb_true_iff. apply Hno. congruence.
  - apply insert_report_ok in Hi as (ms & He & -> & Hn & Hr & ->). split; [done |]. split; [| done]. intros rid r' Et Em. cbn. rewrite lookup_insert_Some. split.
    + intros [[<- <-] | [_ ?]]; [| done]. cbn in Et, Em. exfalso. apply Hno. congruence.
    + intros Hr'. right. split; [congruence | done].
  - destruct (RecordEval_cases e d) as [-> | [Hn ->]]; [done |]. split; [done |]. split; [done |]. intros rid e' Et Em. cbn. rewrite lookup_insert_Some. split.
    + intros [[<- <-] | [_ ?]]; [| done]. cbn in Et, Em. exfalso. apply Hno. congruence.
    + intros Hr'. right. split; [congruence | done].
  - destruct Hs as (E1 & E2 & E3 & _). by rewrite E1, E2, E3.
Qed.

(** A monitor of the later tables was there, of the same team and model, or may be written. *)
Definition known_monitor (d : mon_db) (mid : string) (row : monitor_row) : Prop :=
  (exists old, monitors d !! mid = Some old /\ m_OwnerTeam (row_monitor old) = m_OwnerTeam (row_monitor row) /\
     m_ModelName (row_monitor old) = m_ModelName (row_monitor row)) \/
  may (m_OwnerTeam (row_monitor row)) (m_ModelName (row_monitor row)).

Lemma write_monitors_from d d' mid row : mon_write d d' -> monitors d' !! mid = Some row -> known_monitor d mid row.
Proof.
  assert (monitors d !! mid = Some row -> known_monitor d mid row) as Hsame by (intros Hr; left; by exists row).
  intros Hw. destruct Hw as [m d x d' Hmay Hu | now team model d _ | team model d _ | r d r' d' _ Ho Hs Hi | e d _ | now w d _ | wid d _ | d d' Hs | ev d Hi | req d Ha];
    try exact Hsame.
  - apply mon_Upsert_ok in Hu as (-> & Ht & Hm & _). cbn. rewrite lookup_insert_Some. intros [[_ <-] | [_ Hr]]; [| by apply Hsame]. right. cbn. by rewrite Ht, Hm.
  - cbn. rewrite lookup_fmap, fmap_Some. intros (old & Ho & ->). left. exists old. split; [done |]. by destruct (live_row team model old).
  - apply insert_report_ok in Hi as (ms & _ & _ & _ & _ & ->). exact Hsame.
  - destruct (RecordEval_cases e d) as [-> | [_ ->]]; exact Hsame.
  - destruct Hs as (E & _). rewrite E. exact Hsame.
Qed.

Lemma writes_monitors_from d d' mid row : rtc mon_write d d' -> monitors d' !! mid = Some row -> known_monitor d mid row.
Proof.
  intros Hw. revert row. induction Hw as [d | d1 d2 d3 Hw _ IH]; intros row Hr; [left; by exists row |].
  destruct (IH row Hr) as [(row2 & Hr2 & Et & Em) | ?]; [| by right].
  destruct (write_monitors_from d1 d2 mid row2 Hw Hr2) as [(row1 & Hr1 & ? & ?) | Hmay].
  - left. exists row1. split; [done |]. split; congruence.
  - right. by rewrite <- Et, <- Em.
Qed.

Lemma rows_same_trans team model d1 d2 d3 : rows_same team model d1 d2 -> rows_same team model d2 d3 -> rows_same team model d1 d3.
Proof.
  intros (M12 & R12 & E12) (M23 & R23 & E23). split; [| split].
  - intros mid row Ht Hm. by rewrite M23, M12.
  - intros rid r Ht Hm. by rewrite R23, R12.
  - intros rid e Ht Hm. by rewrite E23, E12.
Qed.

(** Over any number of writes. *)
Lemma writes_good d d' : rtc mon_write d d' -> good d -> good d'.
Proof. induction 1 as [| d1 d2 d3 Hw _ IH]; [done |]. intros Hg. apply IH. by eapply write_good. Qed.

Lemma writes_kept d d' : rtc mon_write d d' -> good d -> kept d d'.
Proof. induction 1 as [d | d1 d2 d3 Hw _ IH]; [done |]. intros Hg. etrans; [by apply write_kept |]. apply IH. by eapply write_good. Qed.

Lemma writes_rows d d' team model : ~ may team model -> rtc mon_write d d' -> good d -> rows_same team model d d'.
Proof.
  intros Hno. induction 1 as [d | d1 d2 d3 Hw _ IH]; intros Hg; [by repeat split |].
  eapply rows_same_trans; [by apply write_rows | apply IH; by eapply write_good].
Qed.

(** ** Windows that may not be written *)

Lemma winMetaKey_inj i j : winMetaKey i = winMetaKey j -> i = j.
Proof. unfold winMetaKey. intros E. by do 2 apply (inj (String.append _)) in E. Qed.

Lemma str_app_inv_r s t u : s +:+ u = t +:+ u -> s = t.
Proof.
  revert t. induction s as [|a s IH]; intros [|b t] E; [done | | |].
  - exfalso. apply (f_equal String.length) in E. rewrite string_app_cons in E. cbn in E. rewrite !string_length_app in E. cbn in E. lia.
  - exfalso. apply (f_equal String.length) in E. rewrite string_app_cons in E. cbn in E. rewrite !string_length_app in E. cbn in E. lia.
  - rewrite !string_app_cons in E. injection E as -> E. f_equal. by apply IH.
Qed.

Lemma winReqsKey_inj i j : winReqsKey i = winReqsKey j -> i = j.
Proof. unfold winReqsKey. intros E. do 2 apply (inj (String.append _)) in E. by apply str_app_inv_r in E. Qed.

Definition window_keys (mid : string) (d : mon_db) : option (gmap string string * time) * option (gset string * time) :=
  (win_meta d !! winMetaKey mid, win_reqs d !! winReqsKey mid).

Lemma write_window d d' mid : ~ open_ mid -> mon_write d d' -> window_keys mid d' = window_keys mid d.
Proof.
  intros Hno Hw. unfold window_keys.
  destruct Hw as [m d x d' _ Hu | now team model d _ | team model d _ | r d row d' _ Ho Hs Hi | e d _ | now w d Ho | wid d Ho | d d' Hs | ev d Hi | req d Ha]; try done.
  - by apply mon_Upsert_ok in Hu as (-> & _).
  - by apply insert_report_ok in Hi as (ms & _ & _ & _ & _ & ->).
  - destruct (RecordEval_cases e d) as [-> | [_ ->]]; done.
  - assert (w_MonitorID w <> mid) as Hne by (intros <-; by apply Hno). cbn [SaveWindow snd with_window win_meta win_reqs].
    rewrite lookup_insert_ne by (by intros ?%winMetaKey_inj). f_equal. destruct (RequestIDs w); [done |]. by rewrite lookup_insert_ne by (by intros ?%winReqsKey_inj).
  - assert (wid <> mid) as Hne by (intros <-; by apply Hno). cbn [DelWindow snd with_window win_meta win_reqs].
    rewrite !lookup_delete_ne; [done | by intros ?%winReqsKey_inj | by intros ?%winMetaKey_inj].
  - destruct Hs as (_ & _ & _ & E1 & E2 & _). by rewrite E1, E2.
Qed.

Lemma writes_window d d' mid : ~ open_ mid -> rtc mon_write d d' -> window_keys mid d' = window_keys mid d.
Proof. intros Hno. induction 1 as [| d1 d2 d3 Hw _ IH]; [done |]. rewrite IH. by apply write_window. Qed.
End writes.
