(* ===== verification/MonSafety.v ===== *)
(** * The model monitor under any interleaving

    What calls of any teams and events of any models do to the tables, the windows and the
    publisher, section by section, over failing links: what a report scores, whose rows change,
    how often an event is published, and what becomes of a torn window. *)

From S2P Require Import Prelude GoText GoFloat Concur Site AuditCapture Keyset MonModel MonStore Monitor MonTables.
Open Scope fp_scope.

(** ** Windows that were read back *)

Section windows.
Context `{MathLog}.

(** Nothing of the distributions is in it. *)
Definition blank_window (w : Window) : Prop := featureValues w = ∅ /\ predictionCounts w = ∅.

(** Its distributions are those of one observation. *)
Definition one_sample (w : Window) : Prop :=
  exists obs, featureValues w = featureValues (seen_only obs) /\ predictionCounts w = predictionCounts (seen_only obs).

Lemma Add_no_features have : add_features ∅ have = have.
Proof. unfold add_features. apply map_eq. intros k. rewrite lookup_merge, lookup_empty. by destruct (have !! k). Qed.

Lemma Add_replayed mid rid meta w : let w' := (Add w (replayed mid rid meta)).1 in
  featureValues w' = featureValues w /\ predictionCounts w' = predictionCounts w /\ w_MonitorID w' = w_MonitorID w /\ w_ID w' = w_ID w.
Proof. unfold Add. destruct (_ && _); [done |]. cbn. by rewrite Add_no_features. Qed.

Definition restored_as (mid wid : string) (w : Window) : Prop := blank_window w /\ w_MonitorID w = mid /\ w_ID w = wid.

Lemma restored_Add mid wid rid meta w : restored_as mid wid w -> restored_as mid wid (Add w (replayed mid rid meta)).1.
Proof. intros ([F P] & M & I). destruct (Add_replayed mid rid meta w) as (E1 & E2 & E3 & E4). unfold restored_as, blank_window. by rewrite E1, E2, E3, E4. Qed.

Lemma restored_iter mid wid rid meta n w : restored_as mid wid w -> restored_as mid wid (Nat.iter n (fun w => (Add w (replayed mid rid meta)).1) w).
Proof. intros Hw. apply Nat.iter_invariant; [| done]. intros w'. apply restored_Add. Qed.

(** Whatever the keys of Redis hold, a window read back has no distributions. *)
Lemma restore_blank mid meta ids w : restore mid meta ids = Ok w -> restored_as mid (field "id" meta) w.
Proof.
  unfold restore. cbv zeta. set (w0 := foldl _ _ ids). assert (restored_as mid (field "id" meta) w0) as Hw0.
  { unfold w0. assert (restored_as mid (field "id" meta) (NewWindow (field "id" meta) mid (field "model_name" meta) (parseUnixNanos (field "opened_at" meta)))) as Hn by done.
    revert Hn. generalize (NewWindow (field "id" meta) mid (field "model_name" meta) (parseUnixNanos (field "opened_at" meta))). induction ids as [|rid ids IH]; intros w1 Hw1; [done |].
    cbn [foldl]. apply IH. by apply restored_Add. }
  destruct (_ <? _).
  - intros Hok. assert (forall a b : Window, Ok (E := mon_error) a = Ok b -> a = b) as Hinj by congruence. apply Hinj in Hok. subst w. by apply restored_iter.
  - destruct (_ <? _); [done |]. by intros [= <-].
Qed.

Lemma one_sample_Add w obs : blank_window w -> one_sample (Add w obs).1.
Proof.
  intros [F P]. unfold one_sample, Add. destruct (_ && _).
  - exists {| o_MonitorID := ""; o_OwnerTeam := ""; o_RequestID := ""; o_ModelName := ""; o_ModelVersion := ""; o_Features := ∅; PredictedTop := ""; o_ObservedAt := 0 |}.
    cbn [fst]. rewrite F, P. split; [symmetry; apply Add_no_features | done].
  - exists obs. unfold seen_only, Add. cbn [fst featureValues predictionCounts]. rewrite F, P. unfold NewWindow. cbn [requestIDs]. rewrite (bool_decide_false (o_RequestID obs ∈ ∅)) by set_solver.
    rewrite andb_false_r. done.
Qed.

(** The scores depend on a window by its distributions alone. *)
Lemma data_metrics_same th base w w' feats : featureValues w = featureValues w' -> data_metrics th base w feats = data_metrics th base w' feats.
Proof.
  intros E. induction feats as [|f fs IH]; [done |]. cbn [data_metrics]. unfold FeatureHistogram. rewrite E, IH. done.
Qed.

Lemma score_metrics_one base m w order pairs ms : one_sample w -> score_metrics base m w order pairs = Ok ms ->
  exists obs, score_metrics base m (seen_only obs) order pairs = Ok ms.
Proof.
  intros (obs & F & P) Hs. exists obs. rewrite <- Hs. unfold score_metrics, prediction_metrics, PredictionHistogram. rewrite P. destruct (ThresholdFor m DriftTypeData); [| done].
  by rewrite (data_metrics_same _ _ _ _ _ F).
Qed.
End windows.

(** ** One request among others *)

Section requests.
Context {W : Type} `{Outside W, MonOutside W, MonText, MathLog}.
Variables (cfg : mon_config) (may : string -> string -> Prop) (open_ : string -> Prop) (known : list string).

Abbreviation call := (prog (site W mon_db)).
(** The baselines that the provider may answer. *)
Definition gives (model version : string) (base : Baseline) : Prop := exists w : W, (GetBaseline model version w).1 = Ok base.

#[local] Abbreviation R := (mon_regime gives may open_ known).
#[local] Abbreviation grows := (Site.keeps R).

(** What every request starts from: coherent tables with the known reports. *)
Definition ready (d : mon_db) : Prop := good d /\ known `prefix_of` born d.

Lemma ready_grows base l : ready base -> grows base l -> ready l.
Proof.
  intros [Hg Hk] Hl. split; [exact (writes_good gives may open_ known base l Hl Hg) |]. etrans; [exact Hk |]. exact (born_grows gives known base l (writes_kept gives may open_ known base l Hl Hg)).
Qed.

Lemma ready_kept base l : ready base -> grows base l -> kept gives known base l.
Proof. intros [Hg _] Hl. exact (writes_kept gives may open_ known base l Hl Hg). Qed.

(** A monitor that was read: its id, owner and model are those of its row. *)
Definition is_monitor (m : Monitor) (d : mon_db) : Prop :=
  exists row, monitors d !! m_ID m = Some row /\ m_OwnerTeam (row_monitor row) = m_OwnerTeam m /\ m_ModelName (row_monitor row) = m_ModelName m.

Lemma is_monitor_grows m l l' : ready l -> grows l l' -> is_monitor m l -> is_monitor m l'.
Proof.
  intros Hr Hg (row & Hm & Ht & Hn). destruct (monitors_stay _ _ _ _ (ready_kept l l' Hr Hg) _ _ Hm) as (row' & Hm' & _ & E1 & E2 & _). exists row'. split; [done |]. split; congruence.
Qed.

Lemma row_is_monitor d mid row : good d -> monitors d !! mid = Some row -> is_monitor (row_monitor row) d /\ m_ID (row_monitor row) = mid.
Proof. intros Hg Hr. pose proof (monitors_keyed d Hg mid row Hr) as E. cbn in E. split; [exists row; by rewrite E | done]. Qed.

(** A section that writes nothing but the stores in memory. *)
Lemma safe_memory {A X} base (f : mon_db -> X * mon_db) (k : X -> call A) post :
  (forall l, same_tables l (f l).2) -> (forall l x, grows base l -> safe R l (k x) post) -> safe R base (do! x := locked f in k x) post.
Proof.
  intros Hf Hk. apply safe_locked. intros l Hl. split; [right; by constructor |]. apply Hk. etrans; [exact Hl |]. apply rtc_once. by constructor.
Qed.

Lemma same_RecordPrediction model rid p t l : same_tables l (RecordPrediction model rid p t l).2.
Proof. unfold RecordPrediction. by destruct (String.eqb rid ""). Qed.
Lemma same_RecordLabel model rid a l : same_tables l (RecordLabel model rid a l).2.
Proof. unfold RecordLabel. by destruct (preds l !! model ≫= _). Qed.
Lemma same_sample l : same_tables l (sample l).2.
Proof. unfold sample. by destruct (ShouldSample _). Qed.

(** ** Windows *)

Lemma mon_safe_read {A} base (f : W -> mon_db -> answer A) : safe R base (query f) (or_error (fun _ _ => True)).
Proof. by apply (safe_fact _ _ _ (fun _ => True)). Qed.

Lemma safe_LoadOrOpen base mid model now : safe R base (LoadOrOpen mid model now) (or_error (fun w _ => blank_window w /\ w_MonitorID w = mid)).
Proof.
  unfold LoadOrOpen. apply safe_ask. intros t. eapply safe_try; [apply mon_safe_read |]. intros meta l _ _. apply safe_ask. intros wid.
  destruct (bool_decide (meta = ∅)); [by apply safe_ret |]. apply safe_ask. intros t'. eapply safe_try; [apply mon_safe_read |]. intros ids l' _ _.
  apply safe_ret. intros l2 _. destruct (restore mid meta ids) as [w|] eqn:E; [| done]. apply restore_blank in E as (Hb & Hm & _). done.
Qed.

Lemma safe_win_Save base w : open_ (w_MonitorID w) -> safe R base (win_Save w) (or_error (fun _ _ => True)).
Proof.
  intros Ho. unfold win_Save. apply safe_ask. intros t. eapply safe_try; [apply (safe_transaction _ _ _ (fun _ _ => True)); [| done] | intros _ l _ _; by apply safe_ret].
  intros l r l' _ Hs. split; [right | by destruct r]. replace l' with (SaveWindow t w l).2 by by rewrite Hs. by constructor.
Qed.

Lemma safe_win_Close base mid wid : open_ mid -> safe R base (win_Close mid wid) (or_error (fun _ _ => True)).
Proof.
  intros Ho. unfold win_Close. apply safe_ask. intros t. eapply safe_try; [apply mon_safe_read |]. intros [stored|] l _ _; [| by apply safe_ret].
  destruct (negb _); [by apply safe_ret |]. eapply safe_try; [apply (safe_transaction _ _ _ (fun _ _ => True)); [| done] | intros _ l' _ _; by apply safe_ret].
  intros l' r l2 _ Hd. split; [right | by destruct r]. replace l2 with (DelWindow mid l').2 by by rewrite Hd. by constructor.
Qed.

(** ** Reports and what follows *)

Definition fresh_report (r : DriftReport) (d : mon_db) : Prop := inserted_since known d (r_ID r).

Lemma fresh_report_grows r l l' : ready l -> grows l l' -> fresh_report r l -> fresh_report r l'.
Proof. intros Hr Hg. apply inserted_since_grows. by apply (born_grows gives known l l'), ready_kept. Qed.

Lemma safe_SaveReport base r : ready base -> may (r_OwnerTeam r) (r_ModelName r) -> owned base r -> of_one_sample gives r \/ of_quality r ->
  safe R base (SaveReport r) (or_error (fun p l => p.2 = true -> fresh_report p.1 l)).
Proof.
  intros Hr Hm Ho Hs. unfold SaveReport. eapply (safe_try _ _ _ _ _ (fun stored l => ready l /\ forall row, stored = Some row -> fresh_report row l)).
  - apply (safe_transaction _ _ _ (fun stored l => ready l /\ forall row, stored = Some row -> fresh_report row l)).
    2: { intros a l l' Hg [Hrl Ha]. split; [by eapply ready_grows |]. intros row Hrow. eapply fresh_report_grows; [exact Hrl | exact Hg | by apply Ha]. }
    intros l x l' Hg Hi. pose proof (ready_grows _ _ Hr Hg) as Hrl. destruct x as [[row|]|e].
    + assert (mon_write gives may open_ known l l') as Hw.
      { eapply WriteReport; [exact Hm | | exact Hs | exact Hi]. eapply owned_stays; [| exact Ho]. by apply (monitors_stay gives known base l), ready_kept. }
      split; [by right |]. split; [by eapply ready_grows, rtc_once |]. intros row' [= <-]. apply insert_report_ok in Hi as (ms & _ & -> & _ & _ & ->).
      exists (born l), []. split; [done | by apply Hrl].
    + apply insert_report_none in Hi; [| congruence]. subst l'. split; [by left |]. by split.
    + apply insert_report_none in Hi; [| congruence]. subst l'. by split; [left |].
  - intros [row|] l Hl [_ Ha].
    + apply safe_ret. intros l' Hl' _. cbn. destruct (Ha row eq_refl) as (pre & post & E & Hp).
      eapply fresh_report_grows; [by eapply ready_grows | exact Hl' | by exists pre, post].
    + eapply safe_try; [apply mon_safe_read |]. intros existing l' _ _. by apply safe_ret.
Qed.
Lemma safe_scoreWindow base m w now : one_sample w ->
  safe R base (scoreWindow m w now) (or_error (fun r _ => r_MonitorID r = m_ID m /\ r_OwnerTeam r = m_OwnerTeam m /\ r_ModelName r = m_ModelName m /\ of_one_sample gives r)).
Proof.
  intros Hw. unfold scoreWindow. apply safe_ask_of. intros w0. destruct (GetBaseline _ _ w0).1 as [b|e] eqn:Eb; [| by apply safe_ret]. cbn [try]. apply safe_ask. intros order.
  destruct (match ThresholdFor m DriftTypeData with Some th => _ | None => _ end) as [data|e] eqn:Ed; [| apply safe_fail].
  destruct (match ThresholdFor m DriftTypePrediction with Some th => _ | None => _ end) as [prediction|e] eqn:Ep; [| apply safe_fail].
  eapply (safe_seq _ _ _ _ (fun perf _ => exists pairs, perf = match ThresholdFor m DriftTypePerformance with Some th => performance_metrics th b pairs | None => [] end)).
  - destruct (ThresholdFor m DriftTypePerformance) as [th|]; [| apply safe_ret; intros l _; by exists []].
    apply safe_memory; [done |]. intros l pairs _. apply safe_ret. intros l' _. by exists pairs.
  - intros perf l [pairs Hp]. apply safe_ask. intros rid. apply safe_ret. intros l' _. unfold window_report. destruct (rollup _) as [headline overall]. cbn [or_error].
    repeat (split; [done |]). destruct (score_metrics_one b m w order pairs (data ++ prediction ++ perf) Hw) as [obs Hs].
    + unfold score_metrics. rewrite Ed. cbn [rbind]. rewrite Ep. cbn [rbind]. by rewrite Hp.
    + exists b, m, obs, order, pairs. split; [by exists w0 | exact Hs].
Qed.

Lemma trigger_facts report m last cool now : Trigger (DecideRetrain report m last cool now) = true ->
  r_Severity report = DriftSeverityCritical /\ AutoRetrain m = true /\ RetrainPipelineID m <> "" /\ Emit (DecideRetrain report m last cool now) = true.
Proof.
  unfold DecideRetrain, FiresRetrain. destruct (negb (IsActionable report)); [done |]. destruct (bool_decide_reflect (r_Severity report = DriftSeverityCritical)); [| done].
  destruct (AutoRetrain m); [| done]. destruct (String.eqb_spec (RetrainPipelineID m) ""); [done |]. by destruct (_ && _).
Qed.

Lemma safe_apply_policy base why text m report now : ready base -> fresh_report report base ->
  safe R base (apply_policy cfg why text m report now) (or_error (fun _ _ => True)).
Proof.
  intros Hr Hf. unfold apply_policy. apply safe_locked. intros l Hl. split; [by left |]. cbn [LastTriggered fst snd].
  set (dec := DecideRetrain _ _ _ _ _). cbv zeta. pose proof (ready_grows _ _ Hr Hl) as Hrl. pose proof (fresh_report_grows _ _ _ Hr Hl Hf) as Hfl.
  set (ev := {| ev_Report := report; ev_AutoRetrain := AutoRetrain m; ev_RetrainPipelineID := RetrainPipelineID m; ev_OwnerTeam := m_OwnerTeam m |}).
  eapply (safe_seq _ _ _ _ (fun _ l => ready l /\ (Emit dec = true -> ev ∈ attempted l))).
  - destruct (Emit dec); [| by apply safe_ret; intros l' Hl'; split; [by eapply ready_grows |]]. apply safe_logged. intros l1 Hl1.
    pose proof (fresh_report_grows _ _ _ Hrl Hl1 Hfl) as Hf1. split; [by constructor |]. intros failed. apply safe_ret. intros l2 Hl2.
    assert (ready (with_attempted ev l1)) as Hr1 by (eapply ready_grows; [exact Hrl |]; etrans; [exact Hl1 | by apply rtc_once; constructor]).
    split; [by eapply ready_grows |]. intros _. destruct (attempts_grow _ _ _ _ (ready_kept _ _ Hr1 Hl2)) as (added & E & _). rewrite E. cbn. apply elem_of_app. left. apply elem_of_app. right. by left.
  - intros [u|e] l1 [Hr1 Hev]; cbn [try]; [| apply safe_fail]. destruct (Trigger dec) eqn:Et; cbn [negb]; [| by apply safe_ret].
    apply trigger_facts in Et as (Hc & Ha & Hp & He). fold dec in He. apply safe_memory; [done |]. intros l2 _ Hl2. apply safe_logged. intros l3 Hl3. split.
    + apply WriteRetrain. exists ev. split; [| done]. destruct (attempts_grow _ _ _ _ (ready_kept _ _ Hr1 (transitivity Hl2 Hl3))) as (added & E & _). rewrite E. apply elem_of_app. left. by apply Hev.
    + intros failed. apply safe_ret. intros l4 _. by destruct failed.
Qed.

Lemma safe_settle base m w now : ready base -> is_monitor m base -> may (m_OwnerTeam m) (m_ModelName m) -> open_ (w_MonitorID w) -> one_sample w ->
  safe R base (settle_window cfg m w now) (or_error (fun _ _ => True)).
Proof.
  intros Hr Hm Hmay Ho Hw. unfold settle_window. eapply safe_seq; [apply safe_grows, safe_scoreWindow, Hw |]. intros [r|e] l [Hl Hs].
  - destruct Hs as (E1 & E2 & E3 & Hs). pose proof (ready_grows _ _ Hr Hl) as Hrl. eapply safe_try.
    + apply safe_SaveReport; [exact Hrl | by rewrite E2, E3 | | by left]. destruct (is_monitor_grows _ _ _ Hr Hl Hm) as (row & Hrow & Ht & Hn).
      exists row. rewrite E1, E2, E3. done.
    + intros [stored inserted] l1 Hl1 Hfresh. pose proof (ready_grows _ _ Hrl Hl1) as Hr1. eapply safe_try; [by apply safe_win_Close |]. intros _ l2 Hl2 _.
      destruct inserted; cbn [negb]; [| by apply safe_ret]. cbn in Hfresh. eapply safe_try; [apply safe_apply_policy; [by eapply ready_grows |] |].
      * eapply fresh_report_grows; [exact Hr1 | exact Hl2 | by apply Hfresh].
      * intros _ l3 _ _. by apply safe_ret.
  - destruct (_ || _); [| apply safe_fail]. eapply safe_seq; [by apply safe_win_Close |]. intros _ l' _. by apply safe_ret.
Qed.

(** What a request may write about the monitor under an id. *)
Definition may_monitor (mid : string) (base : mon_db) : Prop :=
  forall l row, grows base l -> monitors l !! mid = Some row -> may (m_OwnerTeam (row_monitor row)) (m_ModelName (row_monitor row)).

(** It may write about its own team and model; a monitor that comes later may be written. *)
Lemma may_monitor_row base mid : (forall row, monitors base !! mid = Some row -> may (m_OwnerTeam (row_monitor row)) (m_ModelName (row_monitor row))) ->
  may_monitor mid base.
Proof.
  intros Hm l row Hg Hr. destruct (writes_monitors_from gives may open_ known base l mid row Hg Hr) as [(old & Ho & Et & En) | ?]; [| done].
  rewrite <- Et, <- En. by apply Hm.
Qed.

Lemma mon_safe_GetByID base mid : ready base -> may_monitor mid base -> safe R base (query (fun _ d => GetByID mid d))
  (or_error (fun m l => ready l /\ is_monitor m l /\ may (m_OwnerTeam m) (m_ModelName m))).
Proof.
  intros Hr Hmay. apply safe_statement.
  - intros l w m Hl. unfold GetByID. destruct (monitors l !! mid) as [row|] eqn:E; [| done]. destruct (bool_decide _); [| done]. intros [= <-].
    pose proof (ready_grows _ _ Hr Hl) as Hrl. split; [done |]. split; [by apply (row_is_monitor l mid row (proj1 Hrl) E) | by eapply Hmay].
  - intros m l l' Hg (Hrl & Hm & ?). split; [by eapply ready_grows |]. split; [by eapply is_monitor_grows | done].
Qed.

Lemma safe_ObserveInference base obs : ready base -> may_monitor (o_MonitorID obs) base -> open_ (o_MonitorID obs) ->
  safe R base (ObserveInference cfg obs) (or_error (fun _ _ => True)).
Proof.
  intros Hr Hmay Ho. unfold ObserveInference. destruct (blank _); [by apply safe_ret |]. apply safe_ask. intros now.
  eapply safe_try; [apply safe_LoadOrOpen |]. intros w l Hl [Hb Hid]. cbv zeta. pose proof (one_sample_Add w obs Hb) as Hw.
  assert (w_MonitorID (Add w obs).1 = o_MonitorID obs) as Hmid by (unfold Add; by destruct (_ && _)). revert Hw Hmid. generalize (Add w obs).1. clear w Hb Hid. intros w Hw Hmid.
  eapply (safe_seq _ _ _ _ (fun _ l' => grows l l')).
  { destruct (_ && _); [| by apply safe_ret]. change (safe (W := W) R l (do! x := locked (RecordPrediction (o_ModelName obs) (o_RequestID obs) (PredictedTop obs) (o_ObservedAt obs)) in Ret x) (fun _ l' => grows l l')). apply safe_memory; [apply same_RecordPrediction |].
    intros l1 x Hl1. apply safe_ret. intros l2 Hl2. by etrans. }
  intros _ l1 Hl1. eapply safe_try; [apply safe_win_Save; by rewrite Hmid |]. intros _ l2 Hl2 _.
  assert (grows base l2) as Hg2 by (etrans; [exact Hl | by etrans]). pose proof (ready_grows _ _ Hr Hg2) as Hr2.
  assert (may_monitor (o_MonitorID obs) l2) as Hmay2 by (intros l' row Hl'; apply Hmay; by etrans).
  eapply safe_seq; [apply safe_grows, mon_safe_GetByID; [exact Hr2 | exact Hmay2] |]. intros [m|e] l3 [Hl3 Hm].
  - destruct Hm as (Hr3 & Hm & Hmm). destruct (bool_decide _); [by apply safe_ret |]. destruct (negb (IsClosed _ _ _)); [by apply safe_ret |].
    destruct (negb (HasEnoughSamples _ _)).
    + eapply safe_try; [by apply safe_win_Close |]. intros _ l4 _ _. by apply safe_ret.
    + apply safe_settle; try done. by rewrite Hmid.
  - destruct (errors_is e ErrRepoNotFound); by apply safe_ret.
Qed.

Lemma safe_EvaluateCompletion base mid c : ready base -> may_monitor mid base -> may (cp_Team c) (cp_Model c) ->
  safe R base (EvaluateCompletion cfg mid c) (or_error (fun _ _ => True)).
Proof.
  intros Hr Hmay Hc. unfold EvaluateCompletion. destruct (String.eqb mid ""); [by apply safe_ret |]. apply safe_ask. intros now. apply safe_ask. intros scores.
  eapply (safe_try _ _ _ _ _ (fun _ l => True)); [apply (safe_transaction _ _ _ (fun _ _ => True)); [| done] |].
  { intros l r l' _ He. split; [right | by destruct r]. set (e := {| e_Team := _ |}) in He. replace l' with (RecordEval e l).2 by by rewrite He. by constructor. }
  intros _ l Hl _. destruct (negb _); [by apply safe_ret |]. destruct (negb _); [by apply safe_ret |].
  eapply safe_try; [apply mon_safe_read |]. intros recent l1 Hl1 _. cbv zeta. destruct (negb _); [by apply safe_ret |].
  assert (grows base l1) as Hg1 by by etrans. pose proof (ready_grows _ _ Hr Hg1) as Hr1.
  eapply safe_seq; [apply safe_grows, mon_safe_GetByID; [exact Hr1 | intros l' row Hl'; apply Hmay; by etrans] |]. intros [m|e] l2 [Hl2 Hm].
  - destruct Hm as (Hr2 & (row & Hrow & Ht & Hn) & Hmm). destruct (bool_decide _); [by apply safe_ret |]. apply safe_ask. intros rid. eapply safe_try.
    + apply safe_SaveReport; [exact Hr2 | exact Hmm | by exists row | right]. by eexists _, _, _, _, _, _, _, _.
    + intros [stored inserted] l3 Hl3 Hfresh. destruct inserted; cbn [negb]; [| by apply safe_ret]. cbn in Hfresh.
      eapply safe_try; [apply safe_apply_policy; [by eapply ready_grows | by apply Hfresh] |]. intros _ l4 _ _. by apply safe_ret.
  - destruct (errors_is e ErrRepoNotFound); by apply safe_ret.
Qed.

(** ** Configuration *)

(** A monitor of the team for the model, in the tables. *)
Definition monitor_of (team : string) (m : Monitor) (_ : mon_db) : Prop := m_OwnerTeam m = team.

Lemma safe_GetByModel base team model : safe R base (query (fun _ d => GetByModel team model d)) (or_error (fun m _ => m_OwnerTeam m = team /\ m_ModelName m = model)).
Proof.
  apply (safe_fact _ _ _ (fun m => m_OwnerTeam m = team /\ m_ModelName m = model)). intros l w m _. unfold GetByModel. destruct (live_of _ _ l) as [row|] eqn:E; [| done].
  intros [= <-]. by apply live_of_spec in E as (mid & _ & ? & ? & _).
Qed.

Lemma safe_store_monitor base text m : may (m_OwnerTeam m) (m_ModelName m) ->
  safe R base (store_monitor text m) (or_error (fun p _ => m_OwnerTeam p.1 = m_OwnerTeam m)).
Proof.
  intros Hm. unfold store_monitor. eapply safe_try; [apply (safe_transaction _ _ _ (fun p _ => m_OwnerTeam p.1 = m_OwnerTeam m)); [| done] |].
  - intros l r l' _ Hu. destruct r as [p|e].
    + split; [right; by eapply WriteMonitor |]. by apply mon_Upsert_ok in Hu as (_ & ? & _).
    + apply Upsert_err in Hu. subst. by split; [left |].
  - intros p l _ Hp. by apply safe_ret.
Qed.

Lemma safe_ConfigureMonitor base team inp : may team (cm_ModelName inp) -> safe R base (ConfigureMonitor team inp) (or_error (fun p _ => m_OwnerTeam p.1 = team)).
Proof.
  intros Hm. unfold ConfigureMonitor. destruct (blank _); [apply safe_fail |]. destruct (blank _); [apply safe_fail |].
  destruct (validateWindowShape _ _ _); [apply safe_fail |]. destruct (validateThresholds _); [apply safe_fail |]. destruct (_ && _); [apply safe_fail |].
  apply safe_ask. intros now. eapply safe_seq; [apply safe_GetByModel |]. intros existing l He.
  eapply (safe_seq _ _ _ _ (or_error (fun m _ => m_OwnerTeam m = team /\ m_ModelName m = cm_ModelName inp))).
  { destruct existing as [m|e]; [by apply safe_ret |]. destruct (errors_is e _); [| apply safe_fail]. apply safe_ask. intros mid. by apply safe_ret. }
  intros [m|e] l1 Hmm; cbn [try]; [| apply safe_fail]. destruct Hmm as [Ht Hn]. cbv zeta.
  assert (forall m', m_OwnerTeam m' = team -> m_ModelName m' = cm_ModelName inp -> forall l, safe R l (store_monitor "upsert monitor" m') (or_error (fun p _ => m_OwnerTeam p.1 = team))) as Hst.
  { intros m' E1 E2 l2. rewrite <- E1. apply safe_store_monitor. by rewrite E1, E2. }
  destruct (negb _); [by apply Hst |]. unfold resolveBaselineInto. eapply (safe_seq _ _ _ _ (or_error (fun m _ => m_OwnerTeam m = team /\ m_ModelName m = cm_ModelName inp))).
  { apply safe_ask. intros [b|e]; cbn [try]; [by apply safe_ret | apply safe_fail]. }
  intros [m'|e] l2 Hm'; [destruct Hm'; by apply Hst |]. destruct (errors_is e _); [by apply Hst | apply safe_fail].
Qed.

Lemma safe_DeleteMonitor base team model purge : may team model -> safe R base (DeleteMonitor team model purge) (or_error (fun _ _ => True)).
Proof.
  intros Hm. unfold DeleteMonitor. destruct (_ || _); [apply safe_fail |]. apply safe_ask. intros now.
  eapply (safe_try _ _ _ _ _ (fun _ _ => True)); [apply (safe_transaction _ _ _ (fun _ _ => True)); [| done] |].
  { intros l r l' _ Hd. split; [right | by destruct r]. replace l' with (Delete now team model l).2 by by rewrite Hd. by constructor. }
  intros _ l _ _. destruct (negb _); [by apply safe_ret |]. eapply (safe_try _ _ _ _ _ (fun _ _ => True)); [apply (safe_transaction _ _ _ (fun _ _ => True)); [| done] |].
  { intros l1 r l' _ Hd. split; [right | by destruct r]. replace l' with (PurgeByModel team model l1).2 by by rewrite Hd. by constructor. }
  intros n l' _ _. by apply safe_ret.
Qed.

Lemma safe_ResetBaseline base team model version : may team model -> safe R base (ResetBaseline team model version) (or_error (fun m _ => m_OwnerTeam m = team)).
Proof.
  intros Hm. unfold ResetBaseline. destruct (_ || _); [apply safe_fail |]. eapply safe_try; [apply safe_GetByModel |]. intros m l _ [Ht Hn].
  unfold resolveBaselineInto. eapply (safe_try _ _ _ _ _ (fun m _ => m_OwnerTeam m = team /\ m_ModelName m = model)).
  { apply safe_ask. intros [b|e]; cbn [try]; [by apply safe_ret | apply safe_fail]. }
  intros m' l1 _ [Ht' Hn']. apply safe_ask. intros now. eapply safe_try; [apply safe_store_monitor; cbn; by rewrite Ht', Hn' |].
  intros [m2 created] l2 _ Hm2. apply safe_ret. intros l3 _. cbn in *. congruence.
Qed.

Lemma safe_ResetBaselineFromPromotion base team model version : may team model ->
  safe R base (ResetBaselineFromPromotion team model version) (or_error (fun _ _ => True)).
Proof.
  intros Hm. unfold ResetBaselineFromPromotion. destruct (_ || _); [apply safe_fail |]. eapply safe_seq; [by apply safe_ResetBaseline |].
  intros [m|e] l _; [by apply safe_ret |]. destruct (errors_is e _); by apply safe_ret.
Qed.
(** ** Reads *)

(** The report was inserted; while it is there it is this one. *)
Definition was_report (r : DriftReport) (d : mon_db) : Prop :=
  r_ID r ∈ born d /\ (plausible d -> forall r', reports d !! r_ID r = Some r' -> r' = r).

(** A health of a model of the team: empty, or read off a report of the team and the model. *)
Definition health_of (team : string) (h : ModelHealth) (d : mon_db) : Prop :=
  (LatestReportID h = "" /\ OverallSeverity h = DriftSeverityUnspecified /\ SeverityByType h = [] /\ h_ModelVersion h = "") \/
  (LatestReportID h ∈ born d /\
   (plausible d -> forall r, reports d !! LatestReportID h = Some r ->
      r_OwnerTeam r = team /\ r_ModelName r = h_ModelName h /\ h_ModelVersion h = r_ModelVersion r /\ OverallSeverity h = r_Severity r /\
      SeverityByType h = [(r_DriftType r, r_Severity r)] /\ h_LastEventAt h = r_WindowEnd r)).

Lemma same_report_grows rid l l' (P : DriftReport -> Prop) : ready l -> grows l l' ->
  rid ∈ born l /\ (plausible l -> forall r, reports l !! rid = Some r -> P r) ->
  rid ∈ born l' /\ (plausible l' -> forall r, reports l' !! rid = Some r -> P r).
Proof.
  intros Hrl Hg [Hb Hp]. pose proof (ready_kept l l' Hrl Hg) as Hk. destruct (born_grows _ _ _ _ Hk) as [more Hmore]. split.
  - rewrite Hmore. apply elem_of_app. by left.
  - intros Hpl r Hr. assert (plausible l) as Hpl0 by (unfold plausible in *; rewrite Hmore in Hpl; by apply list.NoDup_app in Hpl as (? & _)).
    destruct (reports_from _ _ _ _ Hk rid r Hr) as [Hr0 | [_ (pre & post & E & [x Hx])]]; [by apply Hp |]. exfalso.
    unfold plausible in Hpl. rewrite E, Hx in Hpl. rewrite <- app_assoc in Hpl. apply list.NoDup_app in Hpl as (_ & Hd & _). apply (Hd rid Hb).
    apply elem_of_app. right. by left.
Qed.

Lemma was_report_grows r l l' : ready l -> grows l l' -> was_report r l -> was_report r l'.
Proof. intros Hrl Hg. by apply same_report_grows. Qed.

Lemma health_of_grows team h l l' : ready l -> grows l l' -> health_of team h l -> health_of team h l'.
Proof. intros Hrl Hg [He | Hh]; [by left | right]. by apply (same_report_grows _ l). Qed.

Lemma latest_of_spec team model d r : latest_of team model d = Some r ->
  r_OwnerTeam r = team /\ r_ModelName r = model /\ exists rid, reports d !! rid = Some r.
Proof.
  unfold latest_of. intros [Hin Hm]%List.find_some. unfold of_model in Hm. bool_to_prop. split; [done |]. split; [done |].
  unfold newest_reports in Hin. apply list_elem_of_In in Hin. rewrite merge_sort_Permutation in Hin.
  apply list_elem_of_fmap in Hin as ([rid r'] & -> & Hin%elem_of_map_to_list). by exists rid.
Qed.

Lemma safe_LatestByModel base team model : ready base ->
  safe R base (query (fun _ d => LatestByModel team model d)) (or_error (fun r l => r_OwnerTeam r = team /\ r_ModelName r = model /\ ready l /\ was_report r l)).
Proof.
  intros Hb. apply safe_statement.
  - intros l w r Hl. unfold LatestByModel. destruct (latest_of team model l) as [r'|] eqn:E; [| done]. intros [= <-].
    apply latest_of_spec in E as (Ht & Hm & rid & Hr). pose proof (ready_grows _ _ Hb Hl) as Hrl. split; [done |]. split; [done |]. split; [done |].
    destruct (reports_owned l (proj1 Hrl) rid r' Hr) as (Hid & Hborn & _). split; [by rewrite Hid |]. intros _ r2. rewrite Hid, Hr. by intros [= <-].
  - intros r l l' Hg (? & ? & Hrl & ?). split; [done |]. split; [done |]. split; [by eapply ready_grows | by apply (was_report_grows r l)].
Qed.

Lemma safe_healthFor base m : ready base -> safe R base (healthFor m) (or_error (health_of (m_OwnerTeam m))).
Proof.
  intros Hb. unfold healthFor. cbv zeta. eapply safe_seq; [by apply safe_LatestByModel |]. intros [r|e] l Hr.
  - destruct Hr as (Ht & Hm & Hrl & Hw). apply safe_ret. intros l' Hl'. destruct (was_report_grows _ _ _ Hrl Hl' Hw) as [Hborn Hsame]. right. split; [exact Hborn |].
    intros Hp r' Hr'. cbn in Hr'. by rewrite (Hsame Hp r' Hr').
  - destruct (errors_is e _); [apply safe_ret; intros l' _; by left | apply safe_fail].
Qed.

Lemma safe_GetModelHealth base team model : ready base -> safe R base (GetModelHealth team model) (or_error (health_of team)).
Proof. intros Hb. unfold GetModelHealth. eapply safe_try; [apply safe_GetByModel |]. intros m l Hl [<- _]. apply safe_healthFor. by eapply ready_grows. Qed.

Definition status_of_team (team : string) (st : MonitorStatus) : Prop :=
  m_OwnerTeam (st_Monitor st) = team /\ forall r, LatestReport st = Some r -> r_OwnerTeam r = team.

Lemma safe_GetMonitorStatus base team model : ready base -> safe R base (GetMonitorStatus team model) (or_error (fun st _ => status_of_team team st)).
Proof.
  intros Hb. unfold GetMonitorStatus. eapply safe_try; [apply safe_GetByModel |]. intros m l Hl [Ht _].
  eapply (safe_try _ _ _ _ _ (fun _ _ => True)).
  { unfold CurrentSampleCount. apply safe_ask. intros t. eapply safe_try; [apply mon_safe_read |]. intros v l' _ _. by apply safe_ret. }
  intros fill l1 Hl1 _. eapply safe_seq; [apply safe_LatestByModel; eapply ready_grows, Hl1; by eapply ready_grows |]. cbv zeta. intros [r|e] l2 Hr.
  - apply safe_ret. intros l3 _. split; [exact Ht |]. intros r' [= <-]. destruct Hr as [Hr _]. congruence.
  - destruct (errors_is e _); [apply safe_ret; intros l3 _; by split | apply safe_fail].
Qed.

Lemma listed_rows {A} (key : A -> time * string) opts rows p : listed key opts rows = Ok p -> Forall (fun x => x ∈ rows) p.1.
Proof.
  unfold listed. destruct (read_cursor _) as [cur|]; [| done]. cbn [rbind].
  pose proof (page_rows key key_lt (Z.to_nat (page_size opts)) cur rows) as Hp. destruct (page _ _ _ cur rows) as [out next]. by intros [= <-].
Qed.

(** An entry of the fleet: a monitor of the team and its health. *)
Definition entry_of (team : string) (e : FleetEntry) (d : mon_db) : Prop := m_OwnerTeam (fe_Monitor e) = team /\ health_of team (fe_Health e) d.

Lemma safe_fleet base team ms : ready base -> Forall (fun m => m_OwnerTeam m = team) ms ->
  safe R base (fleet_entries ms) (or_error (fun es l => Forall (fun e => entry_of team e l) es)).
Proof.
  intros Hb Hms. revert base Hb. induction Hms as [|m ms Hm _ IH]; intros base Hb; [apply safe_ret; intros l _; constructor |]. cbn [fleet_entries].
  eapply safe_try; [by apply safe_healthFor |]. intros h l Hl Hh. rewrite Hm in Hh. pose proof (ready_grows _ _ Hb Hl) as Hrl.
  eapply safe_try; [by apply IH |]. intros rest l1 Hl1 Hr. pose proof (ready_grows _ _ Hrl Hl1) as Hr1. apply safe_ret. intros l2 Hl2. constructor.
  - split; [exact Hm | apply (health_of_grows _ _ l); [exact Hrl | by etrans | exact Hh]].
  - eapply Forall_impl; [| exact Hr]. intros e [? He]. split; [done | by apply (health_of_grows _ _ l1)].
Qed.

Lemma safe_ListMonitors base team sev state opts : ready base ->
  safe R base (ListMonitors team sev state opts) (or_error (fun p l => Forall (fun e => entry_of team e l) p.1)).
Proof.
  intros Hb. unfold ListMonitors. destruct (blank _); [apply safe_fail |].
  eapply safe_try; [apply (safe_fact _ _ _ (fun p => Forall (fun m => m_OwnerTeam m = team) p.1)) |].
  - intros l w p _ Hp%listed_rows. eapply Forall_impl; [| exact Hp]. intros m Hm. cbv beta in Hm. rewrite merge_sort_Permutation in Hm.
    apply list_elem_of_fmap in Hm as (row & -> & Hrow). apply list_elem_of_In, filter_In in Hrow as [_ Hw]. unfold monitor_where in Hw. by bool_to_prop.
  - intros [ms next] l Hl Hms. pose proof (ready_grows _ _ Hb Hl) as Hrl. eapply safe_try; [by apply safe_fleet |]. intros es l1 Hl1 Hes.
    pose proof (ready_grows _ _ Hrl Hl1) as Hr1. apply safe_ret. intros l2 Hl2. eapply Forall_impl; [| exact Hes].
    intros e [? He]. split; [done | by apply (health_of_grows _ _ l1)].
Qed.

Lemma safe_GetDriftReport base team rid : safe R base (GetDriftReport team rid) (or_error (fun r _ => r_OwnerTeam r = team)).
Proof.
  unfold GetDriftReport. destruct (blank _); [apply safe_fail |]. destruct (blank _); [apply safe_fail |].
  eapply safe_try; [apply (safe_fact _ _ _ (fun r => r_OwnerTeam r = team)) | intros r l _ Hr; by apply safe_ret].
  intros l w r _. unfold GetReportByID. destruct (reports l !! rid) as [r'|]; [| done]. destruct (String.eqb_spec (r_OwnerTeam r') team); [| done]. by intros [= <-].
Qed.

Lemma safe_ListDriftReports base team f opts : safe R base (ListDriftReports team f opts) (or_error (fun p _ => Forall (fun r => r_OwnerTeam r = team) p.1)).
Proof.
  unfold ListDriftReports. destruct (blank _); [apply safe_fail |].
  eapply safe_try; [apply (safe_fact _ _ _ (fun p => Forall (fun r => r_OwnerTeam r = team) p.1)) | intros p l _ Hp; by apply safe_ret].
  intros l w p _ Hp%listed_rows. eapply Forall_impl; [| exact Hp]. intros r [_ Hw]%list_elem_of_In%filter_In. unfold report_where in Hw. by bool_to_prop.
Qed.

Lemma safe_ListEvalScores base team f opts : safe R base (ListEvalScores team f opts) (or_error (fun p _ => Forall (fun e => e_Team e = team) p.1)).
Proof.
  unfold ListEvalScores. destruct (blank _); [apply safe_fail |].
  eapply safe_try; [apply (safe_fact _ _ _ (fun p => Forall (fun e => e_Team e = team) p.1)) | intros p l _ Hp; by apply safe_ret].
  intros l w p _ Hp%listed_rows. eapply Forall_impl; [| exact Hp]. intros r [_ Hw]%list_elem_of_In%filter_In. unfold eval_where in Hw. by bool_to_prop.
Qed.

Lemma safe_record_labels base model labels : forall res, safe R base (record_labels model labels res) (or_error (fun _ _ => True)).
Proof.
  revert base. induction labels as [|lbl labels IH]; intros base res; [by apply safe_ret |]. cbn [record_labels]. cbv zeta. destruct (blank _); [apply IH |].
  destruct (_ <? _); [apply safe_fail |]. eapply (safe_seq _ _ _ _ (fun _ _ => True)).
  - destruct (time_is_zero _); [| by apply safe_ret]. change (ask Now) with (do! x := ask (W := W) (D := mon_db) Now in Ret x). apply safe_ask. intros t. by apply safe_ret.
  - intros t l _. apply safe_memory; [apply same_RecordLabel |]. intros l1 matched _. apply IH.
Qed.

Lemma safe_SubmitGroundTruth base team inp : safe R base (SubmitGroundTruth team inp) (or_error (fun _ _ => True)).
Proof.
  unfold SubmitGroundTruth. destruct (_ || _); [apply safe_fail |]. destruct (_ <? _); [apply safe_fail |].
  eapply safe_try; [apply safe_GetByModel |]. intros m l _ _. apply safe_record_labels.
Qed.

(** ** The calls of the handler *)

(** What an answer to a caller of a team may hold. *)
Definition own_response (team : string) (resp : mon_response) (d : mon_db) : Prop :=
  match resp with
  | RespConfigured m _ | RespMonitor m => m_OwnerTeam m = team
  | RespHealth h => health_of team h d
  | RespStatus st => status_of_team team st
  | RespFleet entries _ => Forall (fun e => entry_of team e d) entries
  | RespReport r => r_OwnerTeam r = team
  | RespReports l _ => Forall (fun r => r_OwnerTeam r = team) l
  | RespScores l _ => Forall (fun e => e_Team e = team) l
  | RespDeleted _ | RespAccepted _ _ => True
  end.

Lemma mon_safe_answering {A} base (m : call (answer A)) f (Q : A -> mon_db -> Prop) team :
  safe R base m (or_error Q) -> (forall a l, Q a l -> own_response team (f a) l) -> safe R base (answering m f) (or_error (own_response team)).
Proof. intros Hm Hq. unfold answering. eapply safe_map; [exact Hm |]. intros [a|e] l Ha; [by apply Hq | done]. Qed.

Lemma safe_checked {A} base (r : result A rpc_error) (k : A -> call (result mon_response rpc_error)) P :
  (forall a, safe R base (k a) (or_error P)) -> safe R base (checked r k) (or_error P).
Proof. intros Hk. destruct r as [a|e]; [apply Hk | apply safe_fail]. Qed.

Lemma mon_safe_serve base team req : ready base -> (forall model, may team model) -> safe R base (serve team req) (or_error (own_response team)).
Proof.
  intros Hb Hc. destruct req; cbn [serve]; unfold h_ConfigureMonitor, h_DeleteMonitor, h_ResetBaseline, h_GetModelHealth, h_GetMonitorStatus, h_ListMonitors, h_GetDriftReport,
    h_ListDriftReports, h_ListEvalScores, h_SubmitGroundTruth, h_StreamDriftEvents, refuse; repeat first [apply safe_checked; intros ? | apply safe_fail | case_match; [by apply safe_fail |] | case_match]; try by apply safe_fail.
  - eapply mon_safe_answering; [by apply safe_ConfigureMonitor | by intros [m created]].
  - by eapply (mon_safe_answering _ _ _ (fun _ _ => True)); [apply safe_DeleteMonitor |].
  - by eapply (mon_safe_answering _ _ _ (fun m _ => m_OwnerTeam m = team)); [apply safe_ResetBaseline |].
  - by eapply mon_safe_answering; [apply safe_GetModelHealth |].
  - by eapply (mon_safe_answering _ _ _ (fun st _ => status_of_team team st)); [apply safe_GetMonitorStatus |].
  - eapply mon_safe_answering; [by apply safe_ListMonitors | by intros [es next]].
  - by eapply (mon_safe_answering _ _ _ (fun r _ => r_OwnerTeam r = team)); [apply safe_GetDriftReport |].
  - eapply mon_safe_answering; [apply safe_ListDriftReports | by intros [l next]].
  - eapply mon_safe_answering; [apply safe_ListEvalScores | by intros [l next]].
  - by eapply (mon_safe_answering _ _ _ (fun _ _ => True)); [apply safe_SubmitGroundTruth |].
Qed.

Definition acting (claims : option Claims) (team : string) : Prop := exists c, claims = Some c /\ c_Team c = team.

Lemma mon_safe_rpc base claims req : ready base -> (forall team model, acting claims team -> may team model) ->
  safe R base (rpc claims req) (or_error (fun resp l => exists team, acting claims team /\ own_response team resp l)).
Proof.
  intros Hb Hc. unfold rpc, callerTeam. destruct claims as [c|]; [| apply safe_fail]. destruct (String.eqb (c_Team c) ""); [apply safe_fail |]. cbn [checked].
  eapply safe_weaken; [apply mon_safe_serve; [exact Hb | intros model; apply Hc; by exists c] |].
  intros [resp|e] l Ho; [exists (c_Team c); split; [by exists c | exact Ho] | done].
Qed.

(** ** Events *)

(** The model that an event names. *)
Definition event_model (ev : mon_event) : option string :=
  match ev with
  | EvInferenceCompleted (Some p) => Some (TrimSpace (ic_ModelName p))
  | EvInferenceFailed (Some p) => Some (TrimSpace (if_ModelName p))
  | EvModelPromoted (Some p) => Some (TrimSpace (mp_ModelName p))
  | EvCompletionServed (Some p) => Some (TrimSpace (ai_Model p))
  | _ => None
  end.

(** Observing is safe wherever [also] holds: how, depends on the window. *)
Variable also : mon_db -> Prop.
Hypothesis also_grows : forall l l', grows l l' -> also l -> also l'.
Hypothesis observing : forall base obs, ready base -> also base -> may_monitor (o_MonitorID obs) base ->
  safe R base (ObserveInference cfg obs) (or_error (fun _ _ => True)).

Lemma safe_acknowledging {A} base text (m : call (answer A)) : safe R base m (or_error (fun _ _ => True)) -> safe R base (acknowledging text m) (or_error (fun _ _ => True)).
Proof. intros Hm. unfold acknowledging. eapply safe_map; [exact Hm |]. by intros [a|e] l _. Qed.

Lemma safe_resolving base model k : ready base -> (forall team, may team model) ->
  (forall l mid team, grows base l -> ready l -> may_monitor mid l -> safe R l (k (mid, team)) (or_error (fun _ _ => True))) ->
  safe R base (resolving model k) (or_error (fun _ _ => True)).
Proof.
  intros Hr Hmay Hk. unfold resolving. apply safe_ask. intros pick.
  eapply (safe_seq _ _ _ _ (fun a l => grows base l /\ or_error (fun found l => forall mid team, found = Some (mid, team) -> ready l /\ may_monitor mid l) a l)).
  - apply safe_grows, safe_statement.
    + intros l w found Hl [= <-] mid team Hf. apply fmap_Some in Hf as (m & Hm & [= -> ->]). pose proof (ready_grows _ _ Hr Hl) as Hrl. split; [done |].
      unfold any_of in Hm. apply list_elem_of_lookup_2, list_elem_of_fmap in Hm as (row & -> & Hrow). apply list_elem_of_In, filter_In in Hrow as [Hrow Hlive].
      apply list_elem_of_In, list_elem_of_fmap in Hrow as ([mid row'] & -> & Hrow%elem_of_map_to_list). cbn [snd] in *. bool_to_prop.
      pose proof (monitors_keyed l (proj1 Hrl) mid row' Hrow) as Hid. cbn in Hid. rewrite Hid. intros l' row Hl' Hr'.
      destruct (monitors_stay _ _ _ _ (ready_kept l l' Hrl Hl') _ _ Hrow) as (row2 & Hr2 & _ & _ & En & _). assert (row2 = row) as -> by congruence.
      replace (m_ModelName (row_monitor row)) with model by congruence. apply Hmay.
    + intros found l l' Hg Ha mid team Hf. destruct (Ha mid team Hf) as [Hrl Hm]. split; [by eapply ready_grows |]. intros l2 row Hl2. apply Hm. by etrans.
  - intros [[[mid team]|]|e] l [Hl Ha]; [| by apply safe_ret | by apply safe_ret]. destruct (Ha mid team eq_refl) as [Hrl Hm]. by apply Hk.
Qed.

Lemma safe_timeOrNow {A} base ts (k : time -> call A) post : (forall t l, grows base l -> safe R l (k t) post) -> safe R base (do! t := timeOrNow ts in k t) post.
Proof.
  intros Hk. eapply (safe_seq _ _ _ _ (fun _ l => grows base l)).
  - unfold timeOrNow. destruct ts as [t|]; [destruct (time_is_zero t); [| by apply safe_ret] |];
      (change (ask Now) with (do! x := ask (W := W) (D := mon_db) Now in Ret x); apply safe_ask; intros t'; by apply safe_ret).
  - intros t l Hl. by apply Hk.
Qed.

Lemma mon_safe_handle base ev : ready base -> also base -> (forall team model, event_model ev = Some model -> may team model) ->
  safe R base (handle cfg ev) (or_error (fun _ _ => True)).
Proof.
  intros Hr Hal Hmay. destruct ev as [[p|] | [p|] | [p|] | decodes | [p|]]; cbn [handle]; try by apply safe_ret.
  - unfold handleInferenceCompleted. cbv zeta. destruct (String.eqb _ ""); [by apply safe_ret |]. apply safe_resolving; [done | by intros team; apply Hmay |].
    intros l mid team Hl Hrl Hm. apply safe_timeOrNow. intros t l' Hl'. apply safe_acknowledging, observing; [by eapply ready_grows | eapply also_grows, Hal; by etrans |].
    intros l2 row Hl2. apply Hm. by etrans.
  - unfold handleInferenceFailed. cbv zeta. destruct (String.eqb _ ""); [by apply safe_ret |]. apply safe_resolving; [done | by intros team; apply Hmay |].
    intros l mid team Hl Hrl Hm. apply safe_timeOrNow. intros t l' Hl'. apply safe_acknowledging, observing; [by eapply ready_grows | eapply also_grows, Hal; by etrans |].
    intros l2 row Hl2. apply Hm. by etrans.
  - unfold handleModelPromoted. cbv zeta. destruct (negb _); [by apply safe_ret |]. destruct (_ || _); [by apply safe_ret |].
    apply safe_resolving; [done | by intros team; apply Hmay |]. intros l mid team Hl Hrl Hm. apply safe_acknowledging, safe_ResetBaselineFromPromotion. by apply Hmay.
  - unfold handleFeaturesWritten. apply safe_ret. by destruct decodes.
  - unfold handleCompletionServed. cbv zeta. destruct (_ || _); [by apply safe_ret |]. apply safe_resolving; [done | by intros team; apply Hmay |].
    intros l mid team Hl Hrl Hm. destruct (_ && _); [by apply safe_ret |]. apply safe_memory; [apply same_sample |]. intros l1 sampled Hl1.
    destruct (negb sampled); [by apply safe_ret |]. apply safe_acknowledging, safe_EvaluateCompletion; [by eapply ready_grows | intros l2 row Hl2; apply Hm; by etrans |].
    cbn. by apply Hmay.
Qed.
End requests.
