(* ===== verification/MonLoop.v ===== *)
(** * The model monitor: calls, events and observations together

    Pools of calls of the handler, deliveries of events and observations: what they leave in
    the tables, whose rows they reach, what their reports score, which events they publish,
    and what becomes of a torn window. Then the bins of a histogram, the policy and the shapes
    of windows that are accepted. *)

From S2P Require Import Prelude Concur Site GoText AuditCapture Keyset GoFloat MonModel MonStore Monitor MonTables MonSafety.
Open Scope fp_scope.

(** ** Torn windows *)

Section torn.
Context {W : Type} `{Outside W, MonOutside W, MonText, MathLog}.

(** The set of the window has more members than its hash counts, and neither expires. *)
Definition torn_at (mid : string) (d : mon_db) : Prop :=
  exists meta count_expiry reqs reqs_expiry,
    window_keys mid d = (Some (meta, count_expiry), Some (reqs, reqs_expiry)) /\ meta <> ∅ /\ parseInt (field "sample_count" meta) < Z.of_nat (size reqs) /\
    forall w : W, (redis_now w).1 < count_expiry /\ (redis_now w).1 < reqs_expiry.

Lemma Add_fresh mid rid meta w : rid ∉ requestIDs w ->
  w_SampleCount (Add w (replayed mid rid meta)).1 = w_SampleCount w + 1 /\ requestIDs (Add w (replayed mid rid meta)).1 ⊆ {[rid]} ∪ requestIDs w.
Proof.
  intros Hn. unfold Add. cbn [replayed o_RequestID]. rewrite (bool_decide_false (rid ∈ _)) by done. rewrite andb_false_r. cbn [fst w_SampleCount requestIDs].
  split; [done |]. destruct (String.eqb rid ""); set_solver.
Qed.

(** Replaying distinct requests counts each. *)
Lemma replay_count mid meta ids w : NoDup ids -> (forall rid, rid ∈ ids -> rid ∉ requestIDs w) ->
  w_SampleCount (foldl (fun w rid => (Add w (replayed mid rid meta)).1) w ids) = w_SampleCount w + Z.of_nat (length ids).
Proof.
  intros Hd. revert w. induction Hd as [|rid ids Hn _ IH]; intros w Hf; [cbn; lia |]. cbn [foldl length].
  destruct (Add_fresh mid rid meta w (Hf rid ltac:(by left))) as [Hc Hs]. rewrite IH, Hc; [lia |].
  intros r Hr Hin. apply Hs in Hin. apply elem_of_union in Hin as [->%elem_of_singleton | Hin]; [done |]. by apply (Hf r); [right |].
Qed.

Lemma restore_torn mid meta (reqs : gset string) : parseInt (field "sample_count" meta) < Z.of_nat (size reqs) ->
  restore mid meta (elements reqs) = Err (External "torn window").
Proof.
  intros Hlt. unfold restore. cbv zeta. rewrite replay_count; [| apply NoDup_elements | intros rid _; apply not_elem_of_empty].
  cbn [NewWindow w_SampleCount]. unfold size, set_size in Hlt. cbn in Hlt. destruct (Z.ltb_spec (0 + Z.of_nat (length (elements reqs))) (parseInt (field "sample_count" meta))); [lia |].
  destruct (Z.ltb_spec (parseInt (field "sample_count" meta)) (0 + Z.of_nat (length (elements reqs)))); [done | lia].
Qed.

Variables (cfg : mon_config) (may : string -> string -> Prop) (known : list string) (mid : string).
#[local] Abbreviation R := (mon_regime (gives (W := W)) may (fun i => i <> mid) known).
#[local] Abbreviation grows := (Site.keeps R).

Lemma torn_grows l l' : grows l l' -> torn_at mid l -> torn_at mid l'.
Proof.
  intros Hg (meta & e1 & reqs & e2 & Hk & Hr). exists meta, e1, reqs, e2. split; [| exact Hr]. rewrite <- Hk.
  apply (writes_window (gives (W := W)) may (fun i => i <> mid) known); [intros Hn; by apply Hn | exact Hg].
Qed.

Definition fails {A} (a : answer A) (_ : mon_db) : Prop := exists e, a = Err e.

Lemma safe_query_fact {A} base (f : W -> mon_db -> answer A) (Q : A -> Prop) :
  (forall l w, grows base l -> exists a, f w l = Ok a /\ Q a) -> safe R base (query f) (or_error (fun a _ => Q a)).
Proof. intros Hf. apply safe_fact. intros l w a Hl Ha. destruct (Hf l w Hl) as (a' & Ha' & HQ). congruence. Qed.

(** It cannot be read back, whenever it is tried. *)
Lemma safe_torn_LoadOrOpen base model now : torn_at mid base -> safe R base (LoadOrOpen mid model now) fails.
Proof.
  intros Ht. unfold LoadOrOpen. apply safe_ask_of. intros w0.
  eapply (safe_seq _ _ _ _ (fun a l => grows base l /\ or_error (fun meta _ => meta <> ∅ /\
    forall l, grows base l -> exists reqs e2, win_reqs l !! winReqsKey mid = Some (reqs, e2) /\ (forall w : W, (redis_now w).1 < e2) /\ parseInt (field "sample_count" meta) < Z.of_nat (size reqs)) a l)).
  - apply safe_grows, safe_query_fact. intros l w Hl. destruct (torn_grows _ _ Hl Ht) as (meta & e1 & reqs & e2 & Hk & Hne & Hlt & He).
    exists meta. injection Hk as Hm Hq. unfold HGetAll. rewrite Hm. cbn [unexpired]. unfold time_before. rewrite (proj2 (Z.ltb_lt _ _) (proj1 (He w0))). split; [done |]. split; [done |].
    intros l' Hl'. destruct Ht as (meta0 & e10 & reqs0 & e20 & Hk0 & Hne0 & Hlt0 & He0).
    assert (forall x, grows base x -> window_keys mid x = window_keys mid base) as Hsame by
      (intros x Hx; apply (writes_window (gives (W := W)) may (fun i => i <> mid) known); [intros Hn; by apply Hn | exact Hx]).
    pose proof (Hsame l Hl) as E. pose proof (Hsame l' Hl') as E'. rewrite Hk0 in E, E'. injection E as Em Eq. injection E' as Em' Eq'.
    exists reqs0, e20. split; [done |]. split; [intros w'; apply He0 |]. assert (meta0 = meta) as <- by congruence. exact Hlt0.
  - intros [meta|e] l [Hl Hm]; cbn [try]; [| apply safe_ret; by eexists]. destruct Hm as [Hne Hm]. apply safe_ask. intros wid.
    rewrite bool_decide_false by done. apply safe_ask_of. intros w1.
    eapply (safe_seq _ _ _ _ (or_error (fun ids _ => restore mid meta ids = Err (External "torn window")))).
    + apply safe_query_fact. intros l1 w Hl1. destruct (Hm l1 (transitivity Hl Hl1)) as (reqs & e2 & Hq & He & Hlt). exists (elements reqs).
      unfold SMembers. rewrite Hq. cbn [unexpired]. unfold time_before. rewrite (proj2 (Z.ltb_lt _ _) (He w1)). split; [done |]. by apply restore_torn.
    + intros [ids|e] l1 Hr; cbn [try]; apply safe_ret; intros l2 _; [exists (External "torn window"); exact Hr | by eexists].
Qed.

Lemma safe_torn_observe base obs : torn_at mid base -> o_MonitorID obs = mid -> blank mid = false -> safe R base (ObserveInference cfg obs) fails.
Proof.
  intros Ht Hid Hb. unfold ObserveInference. rewrite Hid, Hb. apply safe_ask. intros now. eapply safe_seq; [by apply safe_torn_LoadOrOpen |].
  intros a l [e ->]. cbn [try]. apply safe_ret. intros l' _. by eexists.
Qed.

(** Every observation is safe beside it. *)
Lemma safe_beside_torn base obs : ready known base -> torn_at mid base -> may_monitor (W := W) may (fun i => i <> mid) known (o_MonitorID obs) base ->
  safe R base (ObserveInference cfg obs) (fun a l => or_error (fun _ _ => True) a l /\ (o_MonitorID obs = mid -> blank mid = false -> fails a l)).
Proof.
  intros Hr Ht Hm. destruct (String.eqb_spec (o_MonitorID obs) mid) as [E|Hne].
  - destruct (blank mid) eqn:Hb.
    + unfold ObserveInference. rewrite E, Hb. by apply safe_ret.
    + eapply safe_weaken; [by apply safe_torn_observe |]. intros a l Hf. split; [destruct Hf as [e ->]; done | done].
  - eapply safe_weaken; [by apply safe_ObserveInference |]. by intros a l Ha.
Qed.
End torn.

(** ** Pools of tasks *)

(** What the service works on: a call of the handler, a delivery of an event, an observation
    that was bound to a monitor. *)
Inductive mon_task :=
| TaskCall (claims : option Claims) (req : mon_request)
| TaskEvent (ev : mon_event)
| TaskObserve (obs : InferenceObservation).

Inductive mon_outcome :=
| Replied (r : result mon_response rpc_error)
| Handled (r : answer unit)
| Observed (r : answer (option DriftReport)).

(** The teams and models that tasks reach: a call those of its team; an event its model, of
    whichever team; an observation those of its monitor in the tables, if it is there. *)
Definition reaching (ts : list mon_task) (d : mon_db) (team model : string) : Prop :=
  exists t, t ∈ ts /\
    match t with
    | TaskCall claims _ => acting claims team
    | TaskEvent ev => event_model ev = Some model
    | TaskObserve obs => exists row, monitors d !! o_MonitorID obs = Some row /\ m_OwnerTeam (row_monitor row) = team /\ m_ModelName (row_monitor row) = model
    end.

Section pools.
Context {W : Type} `{Outside W, MonOutside W, MonText, MathLog}.
Variable cfg : mon_config.

Definition start (t : mon_task) : prog (site W mon_db) mon_outcome :=
  match t with
  | TaskCall claims req => do! r := rpc claims req in Ret (Replied r)
  | TaskEvent ev => do! r := handle cfg ev in Ret (Handled r)
  | TaskObserve obs => do! r := ObserveInference cfg obs in Ret (Observed r)
  end.

(** Own answers to calls, and a failure of every observation of a monitor that [stuck] names. *)
Definition outcome_right (stuck : string -> Prop) (t : mon_task) (a : mon_outcome) (d : mon_db) : Prop :=
  match t, a with
  | TaskCall claims _, Replied r => match r with Ok resp => exists team, acting claims team /\ own_response team resp d | Err _ => True end
  | TaskEvent _, Handled _ => True
  | TaskObserve obs, Observed r => stuck (o_MonitorID obs) -> exists e, r = Err e
  | _, _ => False
  end.

Lemma mon_pool (open_ stuck : string -> Prop) (also : mon_db -> Prop) ts s results s' :
  let R := mon_regime (gives (W := W)) (reaching ts (s_db s)) open_ (born (s_db s)) in
  (forall l l', Site.keeps R l l' -> also l -> also l') -> also (s_db s) ->
  (forall base obs, ready (born (s_db s)) base -> also base -> may_monitor (W := W) (reaching ts (s_db s)) open_ (born (s_db s)) (o_MonitorID obs) base ->
     safe R base (ObserveInference cfg obs) (fun a l => stuck (o_MonitorID obs) -> exists e, a = Err e)) ->
  good (s_db s) -> par (map start ts) s results s' ->
  rtc (mon_write (gives (W := W)) (reaching ts (s_db s)) open_ (born (s_db s))) (s_db s) (s_db s') /\
  (forall i t a, ts !! i = Some t -> results !! i = Some a -> outcome_right stuck t a (s_db s')) /\ length results = length ts.
Proof.
  intros R Hgrow Halso Hobs Hg Hpar. assert (ready (born (s_db s)) (s_db s)) as Hr by done.
  destruct (safe_par R (map start ts) s results s' (fun i a l => exists t, ts !! i = Some t /\ outcome_right stuck t a l)) as (Hst & Hres & Hlen); [| exact Hpar |].
  - intros i m Hi. apply list_lookup_fmap_Some in Hi as (t & -> & Ht). apply list_elem_of_lookup_2 in Ht as Hin. destruct t as [claims req | ev | obs]; cbn [start].
    + eapply safe_map; [apply mon_safe_rpc; [exact Hr |] |].
      * intros team model Ha. by exists (TaskCall claims req).
      * intros [resp|e] l Ho; (exists (TaskCall claims req); split; [exact Ht |]); [exact Ho | exact I].
    + eapply safe_map; [apply (mon_safe_handle _ _ _ _ also Hgrow); [| exact Hr | exact Halso |] |].
      * intros base obs Hb Hal Hm. eapply safe_weaken; [by apply Hobs |]. by intros [] l _.
      * intros team model Ha. by exists (TaskEvent ev).
      * intros r l _. by exists (TaskEvent ev).
    + eapply safe_map; [apply Hobs; [exact Hr | exact Halso |] |].
      * apply may_monitor_row. intros row Hrow. exists (TaskObserve obs). split; [exact Hin |]. by exists row.
      * intros r l Ho. by exists (TaskObserve obs).
  - split; [exact (site_steps_keep _ _ _ Hst) |]. split; [| by rewrite Hlen, length_map].
    intros i t a Ht Ha. destruct (Hres i a Ha) as (t' & Ht' & Ho). congruence.
Qed.

(** Every window may be written, no observation need fail. *)
Lemma mon_pool_open ts s results s' : good (s_db s) -> par (map start ts) s results s' ->
  rtc (mon_write (gives (W := W)) (reaching ts (s_db s)) (fun _ => True) (born (s_db s))) (s_db s) (s_db s') /\
  (forall i t a, ts !! i = Some t -> results !! i = Some a -> outcome_right (fun _ => False) t a (s_db s')).
Proof.
  intros Hg Hpar. destruct (mon_pool (fun _ => True) (fun _ => False) (fun _ => True) ts s results s') as (Hw & Ho & _); try done.
  intros base obs Hb _ Hm. eapply safe_weaken; [by apply safe_ObserveInference | done].
Qed.

(** C30. Teams do not meet through their calls: however calls, events and observations
    interleave and whatever the links do, the tables stay coherent - at most one live monitor
    per team and model, at most one report per window, every report of a monitor of its own
    team and model - the monitors, reports and judged completions of a team and model that no
    task reaches are what they were (a call reaches those of its team, an event those of its
    model, an observation those of its monitor), and an answer holds rows of the caller's
    team alone, a health only what a report of that team and model says. *)
Theorem monitor_isolated ts s results s' : good (s_db s) -> par (map start ts) s results s' ->
  good (s_db s') /\
  (forall team model, ~ reaching ts (s_db s) team model -> rows_same team model (s_db s) (s_db s')) /\
  forall i claims req resp, ts !! i = Some (TaskCall claims req) -> results !! i = Some (Replied (Ok resp)) ->
    exists team, acting claims team /\ own_response team resp (s_db s').
Proof.
  intros Hg Hpar. destruct (mon_pool_open ts s results s' Hg Hpar) as [Hw Ho]. split; [by eapply writes_good |]. split.
  - intros team model Hn. by eapply writes_rows.
  - intros i claims req resp Ht Ha. exact (Ho i _ _ Ht Ha).
Qed.

(** C29. A report scores one sample: whatever the size of its window, the data and prediction
    metrics of a report that tasks add all score one and the same observation - a feature the
    one value that it has there, the predictions its one label or none - against a baseline
    that the provider gave; what else such a report has is the accuracy over labelled pairs.
    The only other reports are those of judged quality, with their one metric. *)
Theorem reports_score_one_sample ts s results s' : good (s_db s) -> par (map start ts) s results s' ->
  forall rid r, reports (s_db s') !! rid = Some r -> reports (s_db s) !! rid = None ->
    (exists w : W, exists m base obs metrics, (GetBaseline (r_ModelName r) (BaselineVersion m) w).1 = Ok base /\
       Forall (one_metric base m obs) metrics /\ encodeMetrics metrics = Some (r_Metrics r)) \/
    exists metric, r_Metrics r = [metric] /\ dm_Name metric = qualityMetricName.
Proof.
  intros Hg Hpar rid r Hr Hn. destruct (mon_pool_open ts s results s' Hg Hpar) as [Hw _].
  destruct (reports_from _ _ _ _ (writes_kept _ _ _ _ _ _ Hw Hg) rid r Hr) as [? | [(r0 & ms & Hs & He & ->) _]]; [congruence |]. destruct Hs as [Hs | Hq].
  - left. destruct Hs as (base & m & obs & order & pairs & [w Hb] & Hsc). exists w, m, base, obs, (r_Metrics r0). split; [exact Hb |].
    split; [by eapply score_metrics_explicit | exact He].
  - right. destruct Hq as (qcfg & warn & critical & rid0 & m & c & v & now & ->). unfold encodeMetrics in He. apply mapM_Some_1 in He. cbn [report_columns r_Metrics].
    cbn [buildQualityReport r_Metrics] in He. cbv zeta in He. inversion He as [| ? metric ? rest He1 Hrest]; subst. inversion Hrest; subst. exists metric. split; [done |].
    unfold encodeMetric in He1. cbn [dm_Name dm_Score BaselineValue CurrentValue] in He1.
    repeat (match type of He1 with context [number_column ?x] => destruct (number_column x); cbn in He1; [| done] end). by injection He1 as <-.
Qed.

(** A report is announced when it is stored or never: the events that the tasks hand to
    the publisher are all of reports that the tasks stored themselves, so that a report whose
    event was lost - the publisher failed, or the acknowledgement of a later statement was
    lost - is not published when its window or its event comes again; and every retraining
    they ask for follows such an event of a critical report, for the pipeline of its monitor. *)
Theorem stored_report_never_published_again ts s results s' : good (s_db s) -> plausible (s_db s') -> par (map start ts) s results s' ->
  exists events requests, attempted (s_db s') = attempted (s_db s) ++ events /\ retrains (s_db s') = retrains (s_db s) ++ requests /\
    Forall (fun ev => r_ID (ev_Report ev) ∈ born (s_db s') /\ r_ID (ev_Report ev) ∉ born (s_db s)) events /\
    Forall (announced (s_db s')) requests.
Proof.
  intros Hg Hp Hpar. destruct (mon_pool_open ts s results s' Hg Hpar) as [Hw _]. pose proof (writes_kept _ _ _ _ _ _ Hw Hg) as Hk.
  destruct (attempts_grow _ _ _ _ Hk) as (events & Ea & Fe), (retrains_grow _ _ _ _ Hk) as (requests & Er & Fr). exists events, requests.
  split; [exact Ea |]. split; [exact Er |]. split; [| exact Fr]. eapply Forall_impl; [| exact Fe]. intros ev (pre & post & E & [more Hk']). cbv beta. rewrite E. split.
  - apply elem_of_app. right. by left.
  - unfold plausible in Hp. rewrite E in Hp. apply list.NoDup_app in Hp as (_ & Hd & _). intros Hin. apply (Hd (r_ID (ev_Report ev))); [| by left].
    rewrite Hk'. apply elem_of_app. by left.
Qed.

(** C38. A torn window wedges its monitor: once the set of a window has more requests than its
    hash counts - two observations that both found no window leave it so - no task ever reads
    it back, closes it or writes it: until both keys expire, both stay as they are and every
    observation of the monitor ends in an error. *)
Theorem torn_window_wedges mid ts s results s' : good (s_db s) -> torn_at (W := W) mid (s_db s) -> blank mid = false -> par (map start ts) s results s' ->
  window_keys mid (s_db s') = window_keys mid (s_db s) /\ torn_at (W := W) mid (s_db s') /\
  forall i obs r, ts !! i = Some (TaskObserve obs) -> results !! i = Some (Observed r) -> o_MonitorID obs = mid -> exists e, r = Err e.
Proof.
  intros Hg Ht Hb Hpar. destruct (mon_pool (fun i => i <> mid) (fun i => i = mid) (torn_at (W := W) mid) ts s results s') as (Hw & Ho & _); try done.
  - intros l l' Hl. by apply (torn_grows (reaching ts (s_db s)) (born (s_db s)) mid).
  - intros base obs Hr Htb Hm. eapply safe_weaken; [by apply safe_beside_torn |]. intros a l [_ Hf] E. exact (Hf E Hb).
  - split; [apply (writes_window (gives (W := W)) (reaching ts (s_db s)) (fun i => i <> mid) (born (s_db s))); [intros Hn; by apply Hn | exact Hw] |]. split; [exact (torn_grows (reaching ts (s_db s)) (born (s_db s)) mid _ _ Hw Ht) |].
    intros i obs r Hi Hr E. exact (Ho i _ _ Hi Hr E).
Qed.
End pools.

(** ** One window that ends *)

Section settling.
Context {W : Type} `{Outside W, MonOutside W, MonText, MathLog}.
Variables (cfg : mon_config).

#[local] Notation at_ w d := {| s_world := w; s_db := d |}.

(** What follows from a stored report. *)
Definition reacted (m : Monitor) (now : time) (report : DriftReport) (d : mon_db) : mon_db :=
  let decision := DecideRetrain report m (default 0 (gate_last d !! m_ModelName m)) (cooldown cfg) now in
  let ev := {| ev_Report := report; ev_AutoRetrain := AutoRetrain m; ev_RetrainPipelineID := RetrainPipelineID m; ev_OwnerTeam := m_OwnerTeam m |} in
  let req := {| rr_PipelineID := RetrainPipelineID m; rr_ModelName := m_ModelName m; rr_ModelVersion := r_ModelVersion report; rr_ReportID := r_ID report;
                rr_Reason := retrainReason report |} in
  let emitted := if Emit decision then with_attempted ev d else d in
  if Trigger decision then with_retrain req (with_gate (<[m_ModelName m := now]> (gate_last emitted)) emitted) else emitted.

Definition ports_work : Prop := (forall ev (w : W), (publish ev w).1 = None) /\ (forall req (w : W), (orchestrate req w).1 = None).

Lemma applyPolicy_exact m report now w d : ports_work -> exists w', run (applyPolicy cfg m report now) (at_ w d) = (Ok tt, at_ w' (reacted m now report d)).
Proof.
  intros [Hp Ho]. unfold applyPolicy, apply_policy, reacted. rewrite run_locked_at. cbn [LastTriggered fst snd]. cbv zeta.
  destruct (DecideRetrain _ _ _ _ _) as [emit trigger why]. cbn [Emit Trigger]. rewrite run_bind. destruct emit.
  - rewrite run_logged_at, Hp. cbn [run maybe_error try]. destruct trigger; cbn [negb]; [| by eexists]. rewrite run_locked_at, run_logged_at, Ho. by eexists.
  - cbn [run try]. destruct trigger; cbn [negb]; [| by eexists]. rewrite run_locked_at, run_logged_at, Ho. by eexists.
Qed.

Lemma scoreWindow_exact m win now base order metrics w d :
  (GetBaseline (m_ModelName m) (BaselineVersion m) w).1 = Ok base -> (range_order (Features win) (GetBaseline (m_ModelName m) (BaselineVersion m) w).2).1 = order ->
  score_metrics base m win order (default [] (pairs d !! m_ModelName m)) = Ok metrics ->
  exists w1, run (scoreWindow m win now) (at_ w d) = (Ok (window_report (NewID w1).1 m win metrics now), at_ (NewID w1).2 d).
Proof.
  intros Hb Ho Hs. unfold scoreWindow. rewrite run_ask_at, Hb. cbn [try]. rewrite run_ask_at, Ho. unfold score_metrics in Hs.
  destruct (match ThresholdFor m DriftTypeData with Some th => _ | None => _ end) as [data|]; [| done]. cbn [rbind] in Hs.
  destruct (match ThresholdFor m DriftTypePrediction with Some th => _ | None => _ end) as [prediction|]; [| done]. cbn [rbind] in Hs. injection Hs as <-.
  rewrite run_bind. destruct (ThresholdFor m DriftTypePerformance) as [th|]; [rewrite run_locked_at |]; cbn [run]; rewrite run_ask_at; by eexists.
Qed.

(** The kind of drift that a metric's name tells. *)
Definition kind_of (name : string) (kind : DriftType) : Prop :=
  (name = "prediction_distribution" /\ kind = DriftTypePrediction) \/
  ((name = "accuracy" \/ name = "f1") /\ kind = DriftTypePerformance) \/
  (name <> "prediction_distribution" /\ name <> "accuracy" /\ name <> "f1" /\ kind = DriftTypeData).

(** The overall severity is the highest of the metrics and at least OK. *)
Definition worst_severity (metrics : list DriftMetric) (overall : DriftSeverity) : Prop :=
  Forall (fun x => severity_rank (dm_Severity x) <= severity_rank overall) metrics /\
  (overall = DriftSeverityOK \/ exists x, x ∈ metrics /\ dm_Severity x = overall).

(** The headline is the kind of the first metric of the overall severity; of the first of
    all when none is above OK. *)
Definition headline_of (metrics : list DriftMetric) (overall : DriftSeverity) (headline : DriftType) : Prop :=
  (overall = DriftSeverityOK /\ match metrics with m :: _ => kind_of (dm_Name m) headline | [] => headline = DriftTypeUnspecified end) \/
  exists pre x post, metrics = pre ++ x :: post /\ dm_Severity x = overall /\ DriftSeverityOK <> overall /\ kind_of (dm_Name x) headline /\
    Forall (fun y => severity_rank (dm_Severity y) < severity_rank overall) pre.

Lemma driftTypeForMetric_kind name : kind_of name (driftTypeForMetric name).
Proof.
  unfold kind_of, driftTypeForMetric. destruct (String.eqb_spec name "prediction_distribution"); [by left |].
  destruct (String.eqb_spec name "accuracy"); [right; left; by split; [left |] |]. destruct (String.eqb_spec name "f1"); [right; left; by split; [right |] |]. by right; right.
Qed.

Lemma rollup_fold metrics : let '(h, o) := foldl rollup_step (DriftTypeUnspecified, DriftSeverityOK) metrics in
  1 <= severity_rank o /\ Forall (fun x => severity_rank (dm_Severity x) <= severity_rank o) metrics /\
  ((h = DriftTypeUnspecified /\ o = DriftSeverityOK) \/
   exists pre x post, metrics = pre ++ x :: post /\ dm_Severity x = o /\ DriftSeverityOK <> o /\ h = driftTypeForMetric (dm_Name x) /\
     Forall (fun y => severity_rank (dm_Severity y) < severity_rank o) pre).
Proof.
  induction metrics as [|m metrics IH] using rev_ind; [cbn; split; [done |]; split; [constructor | by left] |].
  rewrite foldl_app. destruct (foldl rollup_step _ metrics) as [h o]. cbn [foldl]. unfold rollup_step at 1. cbn [fst snd].
  destruct IH as (Hone & Hf & Hc). destruct (Z.ltb_spec (severity_rank o) (severity_rank (dm_Severity m))) as [Hlt | Hge].
  - split; [lia |]. split; [apply list.Forall_app; split; [| constructor; [lia | constructor]]; eapply Forall_impl; [| exact Hf]; intros x Hx; cbv beta in Hx; lia |].
    right. exists metrics, m, []. split; [done |]. split; [done |]. split; [intros E; rewrite <- E in Hlt; cbn in Hlt; lia |]. split; [done |].
    eapply Forall_impl; [| exact Hf]. intros x Hx. cbv beta in Hx. lia.
  - split; [done |]. split; [apply list.Forall_app; split; [done | by repeat constructor] |].
    destruct Hc as [? | (pre & x & post & -> & Hx & Hn & Hh & Hpre)]; [by left | right]. exists pre, x, (post ++ [m]). by rewrite <- app_assoc.
Qed.

Lemma rollup_spec metrics headline overall : rollup metrics = (headline, overall) -> worst_severity metrics overall /\ headline_of metrics overall headline.
Proof.
  unfold rollup. pose proof (rollup_fold metrics) as Hr. destruct (foldl rollup_step _ metrics) as [h o]. destruct Hr as (_ & Hf & Hc).
  intros E. assert (o = overall) as <- by (by destruct metrics; injection E). unfold worst_severity, headline_of.
  destruct Hc as [[-> ->] | (pre & x & post & -> & Hx & Hn & Hh & Hpre)].
  - split; [split; [done | by left] |]. left. split; [done |]. destruct metrics as [|m metrics]; injection E as <-; [done | apply driftTypeForMetric_kind].
  - split; [split; [done |]; right; exists x; split; [apply elem_of_app; right; by left | done] |]. right. exists pre, x, post. repeat (split; [done |]).
    split; [| exact Hpre]. assert (h = headline) as <-; [| rewrite Hh; apply driftTypeForMetric_kind].
    assert (h <> DriftTypeUnspecified) as Hne by (rewrite Hh; unfold driftTypeForMetric; by repeat case_match).
    revert E. destruct (pre ++ x :: post) as [|m l] eqn:El; [by destruct pre |]. rewrite bool_decide_eq_false_2 by done. by intros [= <-].
Qed.

(** From a warning on; and when a retraining is asked for. *)
Definition warns (overall : DriftSeverity) : bool := bool_decide (overall = DriftSeverityWarning) || bool_decide (overall = DriftSeverityCritical).
Definition retrains_now (m : Monitor) (overall : DriftSeverity) (last : option time) (now : time) : bool :=
  bool_decide (overall = DriftSeverityCritical) && AutoRetrain m && negb (bool_decide (RetrainPipelineID m = "")) &&
  (let cool := if cfg_cooldown cfg <=? 0 then Hour else cfg_cooldown cfg in
   match last with Some t => time_is_zero t || (cool <=? time_sub now t) | None => true end).

Lemma DecideRetrain_exact m report last now :
  Emit (DecideRetrain report m (default 0 last) (cooldown cfg) now) = warns (r_Severity report) /\
  Trigger (DecideRetrain report m (default 0 last) (cooldown cfg) now) = retrains_now m (r_Severity report) last now.
Proof.
  unfold DecideRetrain, IsActionable, FiresRetrain, warns, retrains_now, cooldown, defaultRetrainCooldown.
  destruct (r_Severity report); cbn [severity_rank Z.leb Z.compare negb]; try (by split).
  cbn. destruct (AutoRetrain m); cbn [negb]; [| by split]. destruct (String.eqb_spec (RetrainPipelineID m) "") as [-> | Hne].
  - by split.
  - rewrite (bool_decide_eq_false_2 _ Hne). destruct last as [t|]; cbn [default from_option]; unfold id; [| by split].
    destruct (time_is_zero t); cbn [negb andb orb]; [by split |]. set (cool := if cfg_cooldown cfg <=? 0 then Hour else cfg_cooldown cfg).
    rewrite (Z.leb_antisym _ cool). by destruct (_ <? cool).
Qed.

(** The hash names the window, whatever Redis's clock reads. *)
Definition names_window (mid wid : string) (d : mon_db) : Prop := forall w : W, HGet (redis_now w).1 mid "id" d = Ok (Some wid).

Lemma win_Close_exact mid wid w d : reliable (W := W) -> names_window mid wid d ->
  exists w', run (win_Close mid wid) (at_ w d) = (Ok tt, at_ w' (DelWindow mid d).2).
Proof.
  intros Hr Hn. unfold win_Close. rewrite run_ask_at, run_query_works by done. rewrite Hn. cbn [try]. rewrite String.eqb_refl. cbn [negb].
  rewrite run_transact_works by done. by eexists.
Qed.

(** C31. A window that ends with its samples is settled once and whole: with links and ports
    that work, its report is stored as its columns give it back - exactly the scores of its
    data, prediction and performance metrics, under the highest of their severities and the
    kind of drift of the first metric that has it - both keys of the window go, the stored
    report is published exactly from a warning on, a retraining is asked for and its moment
    kept exactly when the report is critical, the monitor retrains by itself, names a
    pipeline and its cooldown is over, and nothing else changes. *)
Theorem settled_window_exact m win now base order metrics ms row w d :
  reliable (W := W) -> ports_work ->
  (GetBaseline (m_ModelName m) (BaselineVersion m) w).1 = Ok base -> (range_order (Features win) (GetBaseline (m_ModelName m) (BaselineVersion m) w).2).1 = order ->
  score_metrics base m win order (default [] (pairs d !! m_ModelName m)) = Ok metrics -> encodeMetrics metrics = Some ms ->
  in_int4 (w_SampleCount win) = true -> m_OwnerTeam m <> "" -> m_ModelName m <> "" ->
  monitors d !! m_ID m = Some row -> report_of (w_ID win) d = None -> (forall w, reports d !! (NewID w).1 = None) ->
  names_window (w_MonitorID win) (w_ID win) d ->
  exists rid headline overall w',
    let report := {|
      r_ID := rid; r_MonitorID := m_ID m; r_OwnerTeam := m_OwnerTeam m; r_ModelName := m_ModelName m; r_ModelVersion := w_ModelVersion win;
      r_DriftType := headline; r_Severity := overall; r_Metrics := ms; r_WindowID := w_ID win; r_SampleCount := w_SampleCount win;
      r_WindowStart := timestamptz (OpenedAt win); r_WindowEnd := timestamptz now; r_CreatedAt := timestamptz now |} in
    let event := {| ev_Report := report; ev_AutoRetrain := AutoRetrain m; ev_RetrainPipelineID := RetrainPipelineID m; ev_OwnerTeam := m_OwnerTeam m |} in
    let request := {| rr_PipelineID := RetrainPipelineID m; rr_ModelName := m_ModelName m; rr_ModelVersion := w_ModelVersion win; rr_ReportID := rid;
      rr_Reason := DriftReason headline (worst_metric ms).1 (worst_metric ms).2 overall (w_SampleCount win) |} in
    let again := retrains_now m overall (gate_last d !! m_ModelName m) now in
    worst_severity metrics overall /\ headline_of metrics overall headline /\
    run (settle_window cfg m win now) (at_ w d) = (Ok (Some report), at_ w' {|
      monitors := monitors d; reports := <[rid := report]> (reports d); eval_scores := eval_scores d;
      win_meta := delete (winMetaKey (w_MonitorID win)) (win_meta d); win_reqs := delete (winReqsKey (w_MonitorID win)) (win_reqs d);
      gate_last := (if again then <[m_ModelName m := now]> (gate_last d) else gate_last d); preds := preds d; pred_order := pred_order d; pairs := pairs d;
      sampler := sampler d; born := born d ++ [rid]; attempted := attempted d ++ (if warns overall then [event] else []);
      retrains := retrains d ++ (if again then [request] else []) |}).
Proof.
  intros Hr Hports Hb Ho Hs He Hi Ht Hn Hrow Hw Hid Hname.
  destruct (scoreWindow_exact m win now base order metrics w d Hb Ho Hs) as [w1 Hscore]. destruct (rollup metrics) as [headline overall] eqn:Eroll.
  set (r := window_report (NewID w1).1 m win metrics now) in *. set (report := report_columns r ms).
  assert (r_ID r = (NewID w1).1 /\ r_MonitorID r = m_ID m /\ r_OwnerTeam r = m_OwnerTeam m /\ r_ModelName r = m_ModelName m /\ r_WindowID r = w_ID win /\
    r_SampleCount r = w_SampleCount win /\ r_Metrics r = metrics) as (E1 & E2 & E3 & E4 & E5 & E6 & E7) by (unfold r, window_report; by rewrite Eroll).
  set (d1 := with_born (NewID w1).1 (with_reports (<[(NewID w1).1 := report]> (reports d)) d)).
  assert (insert_report r d = (Ok (Some report), d1)) as Hins.
  { unfold insert_report. rewrite E7, He, E6, Hi, E3, E4, E5, Hw, E1, E2, Hid, Hrow. cbn [negb].
    rewrite (proj2 (String.eqb_neq _ _) Ht), (proj2 (String.eqb_neq _ _) Hn). cbn [orb]. by rewrite !bool_decide_false by (try intros [? ?]; done). }
  destruct (win_Close_exact (w_MonitorID win) (w_ID win) (after_link (NewID w1).2) d1 Hr Hname) as [w2 Hclose].
  destruct (applyPolicy_exact m report now w2 (DelWindow (w_MonitorID win) d1).2 Hports) as [w3 Hp].
  exists (NewID w1).1, headline, overall, w3. cbv zeta. destruct (rollup_spec metrics headline overall Eroll) as [Hworst Hhead]. split; [exact Hworst |]. split; [exact Hhead |].
  unfold settle_window. rewrite run_bind, Hscore. cbv iota beta. unfold SaveReport. rewrite run_bind, run_transact_works by done. rewrite Hins. cbn [fst snd try run].
  cbv iota beta. rewrite run_bind, Hclose. cbn [try]. cbv iota beta. cbn [negb]. rewrite run_bind, Hp. cbn [try run]. clear Hp Hclose Hins Hscore.
  destruct (DecideRetrain_exact m report (gate_last d !! m_ModelName m) now) as [Hemit Htrig].
  assert (r_Severity report = overall) as Esev by (unfold report, r, window_report; by rewrite Eroll). rewrite Esev in Hemit, Htrig.
  unfold reacted. cbv zeta. change (gate_last (DelWindow (w_MonitorID win) d1).2) with (gate_last d). rewrite Hemit, Htrig.
  unfold report, report_columns, r, window_report, retrainReason. rewrite Eroll. cbn [r_Metrics r_DriftType r_Severity r_SampleCount r_ModelVersion r_ID]. destruct (worst_metric ms) as [name score].
  cbn [fst snd]. destruct (warns overall), (retrains_now m overall _ now); unfold d1, report, report_columns, r, window_report; rewrite ?Eroll; cbn; rewrite ?app_nil_r; reflexivity.
Qed.
End settling.

(** ** Model monitor: what the scores and the policy compute

    The bins of a numeric histogram, the distance of a distribution to itself, the order of
    severities, the decision to retrain, and the shapes of windows that are accepted. *)

(** *** Bins *)

(** The bins of ascending edges: half-open, the first and the last without an outer border. *)
Definition in_bin (edges : list float64) (b : nat) (v : float64) : bool :=
  ((b =? 0)%nat || match edges !! b with Some e => f_le e v | None => false end) &&
  ((S b =? length edges - 1)%nat || match edges !! S b with Some e => f_lt v e | None => false end).

Definition strictly_ascending (edges : list float64) : Prop := StronglySorted (fun x y => f_lt x y = true) edges.

Lemma f_lt_number x y : f_lt x y = true -> is_number x /\ is_number y.
Proof. rewrite f_lt_spec. intros (k & k' & Hx & Hy & _). unfold is_number. by rewrite Hx, Hy. Qed.

Lemma f_lt_le x y : f_lt x y = true -> f_le x y = true.
Proof.
  intros Hlt. destruct (f_lt_number _ _ Hlt) as [Hx Hy]. destruct (f_le_total x y Hx Hy) as [? | Hle]; [done |].
  by rewrite f_lt_not_le, Hle in Hlt.
Qed.

Lemma f_lt_not_ge x y : f_lt x y = true -> f_le y x = false.
Proof. intros Hlt. destruct (f_lt_number _ _ Hlt) as [Hx Hy]. rewrite f_lt_not_le in Hlt by done. by apply negb_true_iff in Hlt. Qed.

Lemma f_le_lt_trans x y z : f_le x y = true -> f_lt y z = true -> f_lt x z = true.
Proof.
  intros Hxy Hyz. destruct (f_le_number _ _ Hxy) as [Hx _]. destruct (f_lt_number _ _ Hyz) as [_ Hz]. rewrite f_lt_not_le by done. apply negb_true_iff, not_true_iff_false.
  intros Hzx. apply f_lt_not_ge in Hyz. by rewrite (f_le_trans z x y) in Hyz.
Qed.

Lemma strictly_ascending_sorted edges : strictly_ascending edges -> ascending edges.
Proof.
  unfold strictly_ascending, ascending. induction 1 as [|x l Hl IH Hx]; [constructor |]. constructor; [exact IH |].
  eapply Forall_impl; [| exact Hx]. intros y. apply f_lt_le.
Qed.

Section bins.
Variables (edges : list float64) (v : float64).
Hypothesis (Hlen : (2 <= length edges)%nat) (Hasc : strictly_ascending edges) (Hedges : Forall is_number edges) (Hv : is_number v).

Lemma edge_lt i j x y : edges !! i = Some x -> edges !! j = Some y -> (i < j)%nat -> f_lt x y = true.
Proof. intros Hi Hj Hij. by apply (StronglySorted_lt _ edges i j x y Hasc Hi Hj). Qed.

Lemma in_bin_unique b b' : in_bin edges b v = true -> in_bin edges b' v = true -> (b < b')%nat -> (S b < length edges - 1)%nat -> False.
Proof.
  unfold in_bin. intros [_ Hb]%andb_true_iff [Hb' _]%andb_true_iff Hlt Hs.
  destruct (Nat.eqb_spec (S b) (length edges - 1)) as [|_]; [lia |]. destruct (Nat.eqb_spec b' 0) as [|_]; [lia |]. cbn [orb] in Hb, Hb'.
  destruct (edges !! S b) as [e|] eqn:E; [| done]. destruct (edges !! b') as [e'|] eqn:E'; [| done].
  apply f_lt_not_ge in Hb. rewrite (f_le_trans e e' v) in Hb; [done | | done]. destruct (decide (S b = b')) as [<- |].
  - assert (e = e') as -> by congruence. apply f_le_refl. by apply f_le_number in Hb' as [? _].
  - apply f_lt_le. apply (edge_lt (S b) b' e e' E E'). lia.
Qed.

Lemma bin_of_in_bin : (bin_of edges v < length edges - 1)%nat /\ in_bin edges (bin_of edges v) v = true.
Proof.
  destruct (SearchFloat64s_spec edges v (strictly_ascending_sorted _ Hasc)) as (Hle & Hlo & Hhi). unfold bin_of. set (i := SearchFloat64s edges v) in *.
  assert (forall j, (j < length edges)%nat -> exists e, edges !! j = Some e) as Hat by (intros j Hj; by apply lookup_lt_is_Some_2).
  assert (forall j e, (j < i)%nat -> edges !! j = Some e -> f_lt e v = true) as Hlow.
  { intros j e Hj He. rewrite list.Forall_forall in Hedges. rewrite f_lt_not_le; [by rewrite (Hlo j e Hj He) | by eapply Hedges, list_elem_of_lookup_2 | done]. }
  unfold in_bin. destruct (Nat.leb_spec i 0) as [Hi | Hi].
  - split; [lia |]. rewrite Nat.eqb_refl. cbn [orb andb]. destruct (Nat.eqb_spec 1 (length edges - 1)); [done |]. destruct (Hat 0%nat) as [e0 E0]; [lia |].
    destruct (Hat 1%nat) as [e1 E1]; [lia |]. rewrite E1. cbn [orb]. apply (f_le_lt_trans v e0 e1); [apply (Hhi 0%nat); [lia | done] | apply (edge_lt 0 1 _ _ E0 E1); lia].
  - destruct (Nat.leb_spec (length edges) i) as [Hn | Hn].
    + split; [lia |]. destruct (Hat (length edges - 1 - 1)%nat) as [e E]; [lia |]. rewrite E, (f_lt_le e v), orb_true_r; [| apply (Hlow (length edges - 1 - 1)%nat); [lia | done]].
      rewrite (proj2 (Nat.eqb_eq (S (length edges - 1 - 1)) (length edges - 1))) by lia. done.
    + destruct (Hat i Hn) as [ei Ei]. rewrite Ei. destruct (f_eq ei v) eqn:Eq.
      * destruct (Nat.ltb_spec (length edges - 1 - 1) i) as [Hl | Hl].
        -- split; [lia |]. destruct (Hat (length edges - 1 - 1)%nat) as [e E]; [lia |].
           rewrite E, (f_lt_le e v), orb_true_r; [| apply (Hlow (length edges - 1 - 1)%nat); [lia | done]].
           rewrite (proj2 (Nat.eqb_eq (S (length edges - 1 - 1)) (length edges - 1))) by lia. done.
        -- split; [lia |]. rewrite f_eq_le in Eq. apply andb_true_iff in Eq as [Eq1 Eq2]. rewrite Ei, Eq1, orb_true_r. cbn [andb].
           destruct (Nat.eqb_spec (S i) (length edges - 1)); [done |]. destruct (Hat (S i)) as [e E]; [lia |]. rewrite E. cbn [orb].
           apply (f_le_lt_trans v ei e); [done | apply (edge_lt i (S i) _ _ Ei E); lia].
      * split; [lia |]. destruct (Hat (i - 1)%nat) as [e E]; [lia |]. rewrite E, (f_lt_le e v), orb_true_r; [| apply (Hlow (i - 1)%nat); [lia | done]].
        cbn [andb]. replace (S (i - 1)) with i by lia. rewrite Ei. apply orb_true_iff. right.
        pose proof (Hhi i ei (Nat.le_refl _) Ei) as Hve. rewrite f_eq_le, Hve, andb_true_r in Eq. destruct (f_le_number _ _ Hve). by rewrite f_lt_not_le, Eq.
Qed.

Lemma bin_of_spec b : (b < length edges - 1)%nat -> (in_bin edges b v = true <-> bin_of edges v = b).
Proof.
  intros Hb. destruct bin_of_in_bin as [Hlt Hin]. split; [| by intros <-]. intros Hbin. destruct (Nat.lt_trichotomy (bin_of edges v) b) as [Hl | [? | Hl]]; [exfalso | done | exfalso].
  - apply (in_bin_unique _ _ Hin Hbin Hl). lia.
  - apply (in_bin_unique _ _ Hbin Hin Hl). lia.
Qed.
End bins.

(** A bin that was incremented [n] times. *)
Definition incremented (n : nat) : float64 := Nat.iter n increment f_zero.

Lemma fold_bins (bin : float64 -> nat) b values : forall (counts : list float64) c, counts !! b = Some c ->
  foldl (fun counts v => alter increment (bin v) counts) counts values !! b =
  Some (Nat.iter (length (List.filter (fun v => bin v =? b)%nat values)) increment c).
Proof.
  induction values as [|v values IH]; intros counts c Hc; [done |]. cbn [foldl List.filter]. destruct (Nat.eqb_spec (bin v) b) as [<- | Hne].
  - cbn [length]. rewrite Nat.iter_succ_r. apply IH. by rewrite list_lookup_alter_eq, Hc.
  - apply IH. by rewrite list_lookup_alter_ne.
Qed.

(** Over strictly ascending edges every bin of the numeric histogram counts exactly the
    values that lie in it, the values beyond the edges in the outer bins: none is dropped and
    none is counted twice. *)
Theorem numeric_bins_exact (edges values : list float64) :
  (2 <= length edges)%nat -> strictly_ascending edges -> Forall is_number edges -> Forall is_number values ->
  length (Counts (NewNumericHistogram edges values)) = (length edges - 1)%nat /\
  (forall b, (b < length edges - 1)%nat ->
     Counts (NewNumericHistogram edges values) !! b = Some (incremented (length (List.filter (in_bin edges b) values)))) /\
  (forall v, v ∈ values -> exists! b, (b < length edges - 1)%nat /\ in_bin edges b v = true).
Proof.
  intros Hl Ha He Hv. unfold NewNumericHistogram. destruct (Nat.ltb_spec (length edges) 2); [lia |]. cbn [Counts]. split.
  - clear. assert (forall cs : list float64, length (foldl (fun counts v => alter increment (bin_of edges v) counts) cs values) = length cs) as Hf; [| rewrite Hf; apply length_replicate].
    induction values as [|v vs IH]; intros cs; [done |]. cbn [foldl]. by rewrite IH, length_alter.
  - split.
    + intros b Hb. rewrite (fold_bins (bin_of edges) b values _ f_zero) by (rewrite lookup_replicate; done). unfold incremented. f_equal. f_equal. f_equal.
      apply filter_ext_in. intros v Hin. rewrite List.Forall_forall in Hv. apply eq_true_iff_eq. rewrite Nat.eqb_eq. symmetry. apply bin_of_spec; auto.
    + intros v Hin%list_elem_of_In. rewrite List.Forall_forall in Hv. destruct (bin_of_in_bin edges v Hl Ha He (Hv v Hin)) as [H1' H2']. exists (bin_of edges v). split; [done |].
      intros b' [Hb' Hin']. by apply (bin_of_spec edges v Hl Ha He (Hv v Hin)).
Qed.

(** *** Distances *)

Lemma ks_loop_self t x l : ks_loop t t x x f_zero (combine l l) = f_zero.
Proof. revert x. induction l as [|c l IH]; intros x; [done |]. cbn [combine ks_loop]. cbv zeta. by rewrite f_lt_abs_diag. Qed.

(** No distribution with mass is at a distance from itself, whatever its counts. *)
Lemma KS_self h : f_eq (Total h) f_zero = false -> KS h h = Ok f_zero.
Proof. intros Ht. unfold KS. rewrite Nat.eqb_refl, Ht. cbn [negb orb]. f_equal. apply ks_loop_self. Qed.

(** A higher score is no less severe. *)
Lemma Severity_monotone t s s' : f_le s s' = true -> severity_rank (Severity t s) <= severity_rank (Severity t s').
Proof.
  intros Hs. unfold Severity. destruct (f_le (CriticalScore t) s) eqn:E1; [by rewrite (f_le_trans _ _ _ E1 Hs) |].
  destruct (f_le (WarnScore t) s) eqn:E2; [rewrite (f_le_trans _ _ _ E2 Hs) |]; by repeat case_match.
Qed.

(** *** The policy *)

(** A retraining is started exactly for a critical report of a monitor that may retrain by
    itself, has a pipeline, and did not start one within the cooldown; an event is published
    for every report from a warning on, and never a retraining without one. *)
Theorem decide_retrain_exact (report : DriftReport) (m : Monitor) (last : time) (cooldown : duration) (now : time) :
  let d := DecideRetrain report m last cooldown now in
  (Trigger d = true <->
     r_Severity report = DriftSeverityCritical /\ AutoRetrain m = true /\ RetrainPipelineID m <> "" /\ (last = 0 \/ cooldown <= time_sub now last)) /\
  (Emit d = true <-> r_Severity report = DriftSeverityWarning \/ r_Severity report = DriftSeverityCritical) /\
  (Trigger d = true -> Emit d = true).
Proof.
  unfold DecideRetrain, IsActionable, FiresRetrain, time_is_zero.
  destruct (r_Severity report); [intuition (cbn in *; congruence) .. | |]; cbn [severity_rank Z.leb Z.compare negb];
    [rewrite bool_decide_false by done; intuition (cbn in *; congruence) | rewrite bool_decide_true by done].
  destruct (AutoRetrain m); cbn; [| intuition congruence]. destruct (String.eqb_spec (RetrainPipelineID m) ""); cbn; [intuition congruence |].
  destruct (Z.eqb_spec last 0), (Z.ltb_spec (time_sub now last) cooldown); cbn; intuition (try congruence; try lia).
Qed.

(** *** Windows *)

(** A shape that is accepted lets every window end, and a window that is full by count is
    always scored: with a count bound, a window of that many samples is closed and has the
    samples it needs; without one there is a duration, after which it is closed. *)
Theorem accepted_windows_close (m : Monitor) (w : Window) (now : time) :
  validateWindowShape (WindowDuration m) (WindowSize m) (MinSamples m) = None ->
  (0 < WindowSize m -> WindowSize m <= w_SampleCount w -> IsClosed w m now = true /\ HasEnoughSamples w m = true) /\
  (WindowSize m = 0 -> 0 < WindowDuration m) /\
  (0 < WindowDuration m -> OpenedAt w <> 0 -> WindowDuration m <= time_sub now (OpenedAt w) -> IsClosed w m now = true).
Proof.
  unfold validateWindowShape, IsClosed, HasEnoughSamples, time_is_zero. intros Hv.
  destruct (_ || _) eqn:E1 in Hv; [done |]. destruct (_ <? 0) eqn:E2 in Hv; [done |]. destruct (_ && _) eqn:E3 in Hv; [done |].
  destruct (_ <? 0) eqn:E4 in Hv; [done |]. destruct (_ && _) eqn:E5 in Hv; [done |]. clear Hv. bool_to_prop.
  apply andb_false_iff in E3, E5. rewrite Z.ltb_ge, Z.ltb_ge in E3. rewrite !Z.eqb_neq in E5. split; [| split].
  - intros Hs Hc. rewrite (proj2 (Z.ltb_lt 0 _) Hs), (proj2 (Z.leb_le _ _) Hc). split; [done |]. apply Z.leb_le. lia.
  - lia.
  - intros Hd Ho Ht. rewrite (proj2 (Z.ltb_lt 0 _) Hd), (proj2 (Z.eqb_neq _ _) Ho), (proj2 (Z.leb_le _ _) Ht). apply orb_true_r.
Qed.
