(* ===== verification/MonDemo.v ===== *)
(** * A monitored model on a concrete service

    A text order, page tokens, a clock, a Redis whose clock stands still, a provider with one
    baseline, a publisher that may fail, tables with the monitors of two teams, and the
    theorems about the model monitor at them; what happens at the borders as examples. *)

From S2P Require Import Prelude Concur Site GoText GoFormat AuditCapture Keyset GoFloat MonModel MonStore Monitor MonTables MonSafety MonLoop.
Open Scope fp_scope.

Module Demo.

#[export] Instance mon_tokens : MonText := {|
  mon_collation := {| collate := str_le; collate_order := str_le_order |}; encodeListCursor := token; decodeListCursor := read_token |}.

(** The first terms of the logarithm at one: the demonstration scores by KS alone. *)
#[export] Instance log_at_one : MathLog := {| math_Log x := f_sub x f_one |}.

(** ** What is outside *)

Definition half : float64 := f_div f_one (f_of_int 2).

(** A feature that was as often below one as above. *)
Definition base_x : Baseline := {|
  b_Version := "v1"; CapturedAt := 0; FeatureEdges := {["x" := [f_zero; f_one; f_of_int 2]]};
  FeatureBaselines := {["x" := {| Counts := [f_one; f_one]; Edges := [f_zero; f_one; f_of_int 2]; Labels := [] |}]};
  PredictionOrder := []; PredictionBaseline := {| Counts := []; Edges := []; Labels := [] |}; b_Accuracy := f_zero |}.

(** The clock ticks; statements share the fates that are left, publications their outcomes. *)
Record world := { ticks : Z; fates : list fate; outcomes : list (option string) }.

#[export] Instance world_calls : Outside world := {|
  Now w := (unix_epoch + ticks w * Second, {| ticks := ticks w + 1; fates := fates w; outcomes := outcomes w |});
  NewID w := ("id-" +:+ Itoa (ticks w), {| ticks := ticks w + 1; fates := fates w; outcomes := outcomes w |});
  link w := match fates w with [] => (Works, w) | f :: fs => (f, {| ticks := ticks w; fates := fs; outcomes := outcomes w |}) end |}.

#[export] Instance world_mon : MonOutside world := {|
  GetBaseline model version w := (Ok base_x, w);
  publish ev w := match outcomes w with [] => (None, w) | o :: os => (o, {| ticks := ticks w; fates := fates w; outcomes := os |}) end;
  orchestrate req w := (None, w); judge_Score c w := (Unscored, w); redis_now w := (Second, w); range_order feats w := (feats, w); pick_row w := (0%nat, w) |}.

(** ** Tables *)

Definition monitor (mid team model : string) (size : Z) : Monitor := {|
  m_ID := mid; m_ModelName := model; m_OwnerTeam := team; WindowDuration := 0; WindowSize := size; MinSamples := 1;
  Thresholds := [{| t_DriftType := DriftTypeData; t_Method := DriftMethodKS; WarnScore := f_div f_one (f_of_int 4); CriticalScore := half |}];
  AutoRetrain := true; RetrainPipelineID := "pipe"; m_State := MonitorStateWarmingUp; BaselineVersion := "v1"; BaselineCapturedAt := 0;
  m_CreatedAt := Second; m_UpdatedAt := Second |}.

Definition live (m : Monitor) : monitor_row := {| row_monitor := m; deleted_at := None |}.

Definition tables : mon_db := {|
  monitors := <["ma" := live (monitor "ma" "red" "m" 3)]> (<["mb" := live (monitor "mb" "blue" "n" 3)]> ∅);
  reports := ∅; eval_scores := ∅; win_meta := ∅; win_reqs := ∅; gate_last := ∅; preds := ∅; pred_order := ∅; pairs := ∅;
  sampler := NewCountingSampler 1; born := []; attempted := []; retrains := [] |}.

Lemma good_of d : monitors d = monitors tables -> reports d = ∅ -> good d.
Proof.
  intros Em Er. split; rewrite ?Em, ?Er; cbn [tables monitors].
  - apply map_Forall_insert_2; [done |]. apply map_Forall_insert_2; [done | apply map_Forall_empty].
  - intros i j e f. rewrite !lookup_insert_Some, !lookup_empty. intros Hi Hj _ _ Ht Hm. revert Ht Hm.
    destruct Hi as [[<- <-] | [_ [[<- <-] | [_ ?]]]], Hj as [[<- <-] | [_ [[<- <-] | [_ ?]]]]; done.
  - apply map_Forall_empty.
  - intros i j r r' Hi. by rewrite lookup_empty in Hi.
Qed.

Lemma mon_tables_good : good tables.
Proof. by apply good_of. Qed.

Definition start_site (os : list (option string)) : site world mon_db := {| s_world := {| ticks := 10; fates := []; outcomes := os |}; s_db := tables |}.

Definition member (team : string) : option Claims := Some {| c_UserID := "u"; c_Email := ""; c_Team := team; c_Role := ""; c_Scopes := [] |}.

Definition demo_config : mon_config := {|
  cfg_cooldown := 0; cfg_quality := {| q_Window := 0; q_MinSamples := 0; FloorScore := f_zero; q_Baseline := f_zero; DropFromBaseline := f_zero |};
  cfg_warn := f_zero; cfg_critical := f_zero |}.

(** An inference that saw a value of the feature. *)
Definition inference (rid : string) (x : float64) : mon_event :=
  EvInferenceCompleted (Some {| ic_ModelName := "m"; ic_RequestId := rid; ic_Version := "v1"; ic_FeatureSummary := Some {["x" := x]}; ic_PredictionSummary := None;
    ic_CompletedAt := Some Second |}).

Definition low : float64 := half.
Definition high : float64 := f_add f_one half.

(** Three inferences fill the window of the red monitor; its team asks for the status. *)
Definition tasks : list mon_task :=
  [TaskEvent (inference "r1" low); TaskEvent (inference "r2" low); TaskEvent (inference "r3" high); TaskCall (member "red") (ReqGetMonitorStatus "m");
   TaskCall (member "red") (ReqGetMonitorStatus "n")].

Definition final : list mon_outcome * site world mon_db := run_all (map (start demo_config) tasks) (start_site []).

(** ** The theorems at them *)

(** No task reaches the blue team's model, and the red team saw its own. *)
Lemma monitor_isolated_witness :
  rows_same "blue" "n" tables (s_db final.2) /\ good (s_db final.2) /\
  exists st, final.1 !! 3%nat = Some (Replied (Ok (RespStatus st))) /\ CurrentWindowSamples st = 0 /\ status_of_team "red" st.
Proof.
  destruct (monitor_isolated demo_config tasks (start_site []) final.1 final.2 mon_tables_good (run_all_par _ _)) as (Hg & Hu & Ho). split; [| split; [exact Hg |]].
  - apply Hu. intros (t & Hin & Ht). unfold tasks in Hin. do 3 (apply elem_of_cons in Hin as [-> | Hin]; [discriminate Ht |]).
    do 2 (apply elem_of_cons in Hin as [-> | Hin]; [destruct Ht as (c & [= <-] & Ht); discriminate Ht |]). by apply list.not_elem_of_nil in Hin.
  - assert (exists st, final.1 !! 3%nat = Some (Replied (Ok (RespStatus st))) /\ CurrentWindowSamples st = 0) as (st & Hr & Hc) by (vm_compute; eexists; split; reflexivity).
    exists st. split; [exact Hr |]. split; [exact Hc |]. destruct (Ho 3%nat _ _ _ eq_refl Hr) as (team & (c & [= <-] & Ht) & Hs). cbn in Ht. by subst team.
Defined.

(** A window of three samples, two low and one high: the report scores the last. *)
Lemma reports_score_one_sample_witness :
  exists r, reports (s_db final.2) !! "id-16" = Some r /\ r_SampleCount r = 3 /\ map CurrentValue (r_Metrics r) = [high] /\
    ((exists w m base obs metrics, (GetBaseline (W := world) (r_ModelName r) (BaselineVersion m) w).1 = Ok base /\ Forall (one_metric base m obs) metrics /\
        encodeMetrics metrics = Some (r_Metrics r)) \/ exists metric, r_Metrics r = [metric] /\ dm_Name metric = qualityMetricName).
Proof.
  assert (exists r, reports (s_db final.2) !! "id-16" = Some r /\ r_SampleCount r = 3 /\ map CurrentValue (r_Metrics r) = [high]) as (r & Hr & Hc & Hv)
    by (vm_compute; eexists; repeat split; reflexivity).
  exists r. split; [exact Hr |]. split; [exact Hc |]. split; [exact Hv |].
  exact (reports_score_one_sample demo_config tasks (start_site []) final.1 final.2 mon_tables_good (run_all_par _ _) "id-16" r Hr eq_refl).
Defined.

(** The publisher refuses the event of the third inference, and the third comes again. *)
Definition again : list mon_task := firstn 3 tasks ++ [TaskEvent (inference "r3" high)].
Definition lost : list mon_outcome * site world mon_db := run_all (map (start demo_config) again) (start_site [Some "nats: timeout"]).

(** The event is lost: the third delivery is given back after its report was stored; when it
    comes again it opens a new window, and nothing is published or retrained. *)
Example event_lost :
  map (fun o => match o with Handled (Ok _) => true | _ => false end) lost.1 = [true; true; false; true] /\
  length (attempted (s_db lost.2)) = 1%nat /\ retrains (s_db lost.2) = [] /\ map fst (map_to_list (reports (s_db lost.2))) = born (s_db lost.2) /\
  map (fun kr => field "sample_count" kr.2.1) (map_to_list (win_meta (s_db lost.2))) = ["1"].
Proof. vm_compute. repeat split. Qed.

Lemma stored_report_never_published_again_witness :
  exists ev, attempted (s_db lost.2) = [ev] /\ r_ID (ev_Report ev) ∈ born (s_db lost.2) /\ retrains (s_db lost.2) = [].
Proof.
  assert (born (s_db lost.2) = ["id-16"]) as Hb by (vm_compute; reflexivity).
  destruct (stored_report_never_published_again demo_config again (start_site [Some "nats: timeout"]) lost.1 lost.2 mon_tables_good
    ltac:(unfold plausible; rewrite Hb; apply NoDup_singleton) (run_all_par _ _)) as (events & requests & Ea & Er & Hf & _).
  assert (exists ev, attempted (s_db lost.2) = [ev]) as [ev He] by (vm_compute; by eexists). exists ev. split; [exact He |]. cbn [start_site s_db tables attempted app] in Ea.
  rewrite <- Ea, He in Hf. split; [by apply Forall_inv in Hf as [Hin _] |]. vm_compute. reflexivity.
Defined.

(** ** Two observations at once *)

Definition pair_of_tasks : list mon_task := [TaskEvent (inference "r1" low); TaskEvent (inference "r2" low)].
Definition in_turn : list nat := List.concat (repeat [0%nat; 1%nat] 20).

(** Both find no window, both save theirs: the hash counts one, the set holds both. *)
Definition torn_keys : option (gmap string string * time) * option (gset string * time) :=
  (Some (<["id" := "id-13"]> (<["model_name" := "m"]> (<["model_version" := "v1"]> (<["opened_at" := "11000000000"]> (<["sample_count" := "1"]> ∅)))), Second + defaultWindowTTL),
   Some ({["r1"]} ∪ {["r2"]}, Second + defaultWindowTTL)).

Definition raced := schedule in_turn (map (start demo_config) pair_of_tasks) (start_site []).

Example two_at_once_tear : window_keys "ma" (s_db raced.2) = torn_keys /\ (exists results, raced.1 = map Ret results).
Proof. split; [vm_compute; reflexivity |]. exists [Handled (Ok tt); Handled (Ok tt)]. vm_compute. reflexivity. Qed.

Definition torn_site : site world mon_db := {|
  s_world := {| ticks := 20; fates := []; outcomes := [] |};
  s_db := with_window (<[winMetaKey "ma" := default (∅, 0) torn_keys.1]> ∅) (<[winReqsKey "ma" := default (∅, 0) torn_keys.2]> ∅) tables |}.

Definition next_inference : InferenceObservation := {|
  o_MonitorID := "ma"; o_OwnerTeam := "red"; o_RequestID := "r3"; o_ModelName := "m"; o_ModelVersion := "v1"; o_Features := {["x" := low]}; PredictedTop := "";
  o_ObservedAt := Second |}.

Lemma torn_window_wedges_witness :
  let final := run_all (map (start demo_config) [TaskObserve next_inference; TaskEvent (inference "r4" low)]) torn_site in
  window_keys "ma" (s_db final.2) = torn_keys /\ exists e, final.1 !! 0%nat = Some (Observed (Err e)).
Proof.
  assert (torn_at (W := world) "ma" (s_db torn_site)) as Ht.
  { exists (default (∅, 0) torn_keys.1).1, (Second + defaultWindowTTL), ({["r1"]} ∪ {["r2"]}), (Second + defaultWindowTTL). split; [vm_compute; reflexivity |].
    split; [intros E; apply (f_equal (fun m : gmap string string => m !! "id")) in E; discriminate E |]. split; [vm_compute; reflexivity |].
    intros w. cbn [redis_now world_mon fst]. vm_compute. by split. }
  cbv zeta. set (final := run_all _ _).
  destruct (torn_window_wedges demo_config "ma" [TaskObserve next_inference; TaskEvent (inference "r4" low)] torn_site final.1 final.2
    ltac:(by apply good_of) Ht ltac:(vm_compute; reflexivity) (run_all_par _ _)) as (Hk & _ & Ho). split; [rewrite Hk; vm_compute; reflexivity |].
  assert (exists r, final.1 !! 0%nat = Some (Observed r)) as [r Hr] by (vm_compute; by eexists). destruct (Ho 0%nat next_inference r eq_refl Hr eq_refl) as [e ->]. by exists e.
Defined.

(** ** One window on links that work *)

Record steady := { tick : Z }.
#[export] Instance steady_calls : Outside steady := {|
  Now w := (unix_epoch + tick w * Second, {| tick := tick w + 1 |}); NewID w := ("id-" +:+ Itoa (tick w), {| tick := tick w + 1 |}); link w := (Works, w) |}.
#[export] Instance steady_mon : MonOutside steady := {|
  GetBaseline model version w := (Ok base_x, w); publish ev w := (None, w); orchestrate req w := (None, w); judge_Score c w := (Unscored, w);
  redis_now w := (Second, w); range_order feats w := (feats, w); pick_row w := (0%nat, w) |}.

Lemma steady_works : reliable (W := steady) /\ ports_work (W := steady).
Proof. by repeat split. Qed.

Definition full_window : Window :=
  (Add {| w_ID := "win"; w_MonitorID := "ma"; w_ModelName := "m"; OpenedAt := unix_epoch; w_ModelVersion := "v1"; w_SampleCount := 2;
          featureValues := ∅; predictionCounts := ∅; requestIDs := {["r1"; "r2"]} |} next_inference).1.

(** The window of the monitor is in Redis. *)
Definition filled : mon_db := (SaveWindow Second full_window tables).2.

Definition low_metric : DriftMetric := {|
  dm_Name := "x"; dm_Method := DriftMethodKS; dm_Score := half; BaselineValue := f_one; CurrentValue := half; dm_Severity := DriftSeverityCritical |}.

(** The one metric is critical: the report is published, and a retraining asked for. *)
Lemma settled_window_exact_witness : exists report d',
  (exists w', run (settle_window demo_config (monitor "ma" "red" "m" 3) full_window (unix_epoch + Hour)) {| s_world := {| tick := 10 |}; s_db := filled |} =
    (Ok (Some report), {| s_world := w'; s_db := d' |})) /\
  r_Metrics report = [low_metric] /\ r_Severity report = DriftSeverityCritical /\ reports d' !! r_ID report = Some report /\
  win_meta d' !! winMetaKey "ma" = None /\ win_reqs d' !! winReqsKey "ma" = None /\ gate_last d' !! "m" = Some (unix_epoch + Hour) /\
  map ev_Report (attempted d') = [report] /\ map rr_ReportID (retrains d') = [r_ID report].
Proof.
  destruct (settled_window_exact demo_config (monitor "ma" "red" "m" 3) full_window (unix_epoch + Hour) base_x ["x"] [low_metric] [low_metric]
    (live (monitor "ma" "red" "m" 3)) {| tick := 10 |} filled (proj1 steady_works) (proj2 steady_works) eq_refl
    ltac:(vm_compute; reflexivity) ltac:(vm_compute; reflexivity) ltac:(vm_compute; reflexivity) eq_refl ltac:(done) ltac:(done)
    ltac:(vm_compute; reflexivity) ltac:(vm_compute; reflexivity) ltac:(intros w; reflexivity) ltac:(intros w; vm_compute; reflexivity))
    as (rid & headline & overall & w' & [Hall Hsome] & _ & Hrun).
  assert (overall = DriftSeverityCritical) as ->.
  { clear Hrun Hsome. apply Forall_inv in Hall. change (3 <= severity_rank overall) in Hall. destruct overall; cbn [severity_rank] in Hall; lia || reflexivity. }
  eexists _, _. split; [exists w'; exact Hrun |]. cbn [r_Metrics r_Severity r_ID reports win_meta win_reqs gate_last attempted retrains].
  split; [reflexivity |]. split; [reflexivity |]. split; [apply lookup_insert_eq |]. split; [apply lookup_delete_eq |]. split; [apply lookup_delete_eq |].
  set (again := retrains_now _ _ _ _ _). assert (again = true) as -> by (vm_compute; reflexivity). split; [apply lookup_insert_eq |]. split; reflexivity.
Defined.

(** ** Histograms *)

Lemma numeric_bins_exact_witness :
  Counts (NewNumericHistogram [f_zero; f_one; f_of_int 2] [half; f_one; f_of_int 7]) !! 1%nat = Some (incremented 2).
Proof.
  destruct (numeric_bins_exact [f_zero; f_one; f_of_int 2] [half; f_one; f_of_int 7]) as (_ & Hb & _); [cbn; lia | | | |].
  - repeat constructor.
  - repeat (apply list.Forall_cons; split; [by vm_compute |]); apply Forall_nil.
  - repeat (apply list.Forall_cons; split; [by vm_compute |]); apply Forall_nil.
  - rewrite Hb by (cbn; lia). vm_compute. reflexivity.
Defined.

(** A value that is no number is counted in the last bin. *)
Example nan_in_last_bin : Counts (NewNumericHistogram [f_zero; f_one; f_of_int 2] [S754_nan]) = [f_zero; f_one].
Proof. vm_compute. reflexivity. Qed.

Lemma accepted_windows_close_witness : IsClosed full_window (monitor "ma" "red" "m" 3) 0 = true /\ HasEnoughSamples full_window (monitor "ma" "red" "m" 3) = true.
Proof. apply (proj1 (accepted_windows_close (monitor "ma" "red" "m" 3) full_window 0 eq_refl)); [reflexivity | vm_compute; discriminate]. Defined.

(** ** At the borders *)

(** An outer edge at infinity makes the mean of a distribution infinite or no number: the
    report cannot be encoded, and the window stays full. *)
Definition open_edges : Histogram := {| Counts := [f_one; f_one]; Edges := [f_zero; f_one; S754_infinity false]; Labels := [] |}.
Example open_edge_not_encoded : encodeMetric {|
  dm_Name := "x"; dm_Method := DriftMethodKS; dm_Score := half; BaselineValue := histMean open_edges; CurrentValue := half; dm_Severity := DriftSeverityCritical |} = None.
Proof. vm_compute. reflexivity. Qed.

(** The labels of one team meet the predictions of another for a model of the same name: the
    store in memory knows no team. *)
Definition shared : mon_db :=
  with_monitors (<["mb" := live (monitor "mb" "blue" "m" 3)]> (monitors tables)) tables.
Definition predicted_inference : InferenceObservation := {|
  o_MonitorID := "ma"; o_OwnerTeam := "red"; o_RequestID := "r9"; o_ModelName := "m"; o_ModelVersion := "v1"; o_Features := ∅; PredictedTop := "spam";
  o_ObservedAt := Second |}.

Example labels_cross_teams :
  let tasks := [TaskObserve predicted_inference;
    TaskCall (member "blue") (ReqSubmitGroundTruth "m" [{| lp_request_id := "r9"; lp_actual_label := "ham"; lp_observed_at := None |}] "")] in
  let final := run_all (map (start demo_config) tasks) {| s_world := {| ticks := 10; fates := []; outcomes := [] |}; s_db := shared |} in
  final.1 !! 1%nat = Some (Replied (Ok (RespAccepted 1 []))) /\ default [] (pairs (s_db final.2) !! "m") = [{| Predicted := "spam"; Actual := "ham" |}].
Proof. vm_compute. by split. Qed.
End Demo.
