(* ===== verification/GateModel.v ===== *)
(** * AI gateway: requests, prices, governance, routing and similarity

    [services/ai-gateway/internal/domain]: the data of [models.go] and [ports.go], the prices
    of [cost.go], the allow-list of [allowlist.go] with the configuration that feeds it
    ([cmd/server/main.go]), the candidates of [provider_registry.go], the text that is embedded
    ([gateway_service.go]) and the cosine similarity of [cache.go]. An embedding is a list of
    [float32] values, each the [float64] that it converts to exactly. A provider is the record
    of what its interface offers; what it answers a request is a finite stream of frames. *)

From S2P Require Import Prelude GoText GoFormat GoNet GoFloat.
Open Scope fp_scope.

(** ** Errors (errors.go, gateway_service.go) *)

Inductive gw_sentinel :=
| ErrInvalidInput | ErrBudgetExceeded | ErrNoProvider | ErrAllProvidersFailed | ErrModelNotAllowed
| errSinkFailed | errStreamAborted.

#[export] Instance gw_sentinels : Sentinels gw_sentinel.
Proof. refine {| sentinel_wraps _ := None |}. solve_decision. Defined.

Abbreviation gw_error := (error gw_sentinel).

(** ** Data (models.go) *)

Inductive Role := RoleUnspecified | RoleSystem | RoleUser | RoleAssistant.

Definition label (r : Role) : string :=
  match r with RoleSystem => "system" | RoleUser => "user" | RoleAssistant => "assistant" | RoleUnspecified => "user" end.

Record Message := { m_Role : Role; Content : string }.

(** A code without a name behaves as [ProviderKindUnspecified] everywhere. *)
Inductive ProviderKind :=
| ProviderKindUnspecified | ProviderKindOllama | ProviderKindStub | ProviderKindOpenAI | ProviderKindAnthropic.

#[export] Instance ProviderKind_eq_dec : EqDecision ProviderKind.
Proof. solve_decision. Defined.

Definition kind_code (k : ProviderKind) : Z :=
  match k with
  | ProviderKindUnspecified => 0 | ProviderKindOllama => 1 | ProviderKindStub => 2 | ProviderKindOpenAI => 3 | ProviderKindAnthropic => 4
  end.

Definition kind_of_code (c : Z) : ProviderKind :=
  if c =? 1 then ProviderKindOllama else if c =? 2 then ProviderKindStub else if c =? 3 then ProviderKindOpenAI
  else if c =? 4 then ProviderKindAnthropic else ProviderKindUnspecified.

Lemma kind_of_kind_code k : kind_of_code (kind_code k) = k.
Proof. by destruct k. Qed.

#[export] Instance ProviderKind_countable : Countable ProviderKind.
Proof. apply (inj_countable' kind_code kind_of_code), kind_of_kind_code. Defined.

(** [ProviderKind.String] *)
Definition kind_String (k : ProviderKind) : string :=
  match k with
  | ProviderKindOllama => "ollama" | ProviderKindStub => "stub" | ProviderKindOpenAI => "openai" | ProviderKindAnthropic => "anthropic"
  | ProviderKindUnspecified => "unspecified"
  end.

Inductive FinishReason := FinishReasonUnspecified | FinishReasonStop | FinishReasonLength | FinishReasonContentFilter | FinishReasonError.

#[export] Instance FinishReason_eq_dec : EqDecision FinishReason.
Proof. solve_decision. Defined.

Record ChatRequest := {
  Model : string; Messages : list Message; Temperature : float64; MaxTokens : Z; cr_Provider : ProviderKind; RequestID : string;
}.

Record TokenUsage := { PromptTokens : Z; CompletionTokens : Z; TotalTokens : Z; CostMicroUSD : Z }.

Definition no_usage : TokenUsage := {| PromptTokens := 0; CompletionTokens := 0; TotalTokens := 0; CostMicroUSD := 0 |}.

#[export] Instance TokenUsage_eq_dec : EqDecision TokenUsage.
Proof. solve_decision. Defined.

Record Delta := { Text : string; Done : bool; d_Usage : TokenUsage; d_FinishReason : FinishReason }.

#[export] Instance Delta_eq_dec : EqDecision Delta.
Proof. solve_decision. Defined.

(** A frame with text, and the frame that ends a stream. *)
Definition text_frame (t : string) : Delta := {| Text := t; Done := false; d_Usage := no_usage; d_FinishReason := FinishReasonUnspecified |}.
Definition end_frame (u : TokenUsage) (r : FinishReason) : Delta := {| Text := ""; Done := true; d_Usage := u; d_FinishReason := r |}.

Record Completion := { ServedBy : ProviderKind; c_Usage : TokenUsage; c_FinishReason : FinishReason; CacheHit : bool; Latency : duration }.

Definition no_completion : Completion := {|
  ServedBy := ProviderKindUnspecified; c_Usage := no_usage; c_FinishReason := FinishReasonUnspecified; CacheHit := false; Latency := 0 |}.

(** The events (ports.go) and the cached answers (cache.go). *)
Record CompletionServed := {
  ev_RequestID : string; ev_Team : string; ev_Model : string; ev_Provider : ProviderKind; ev_PromptTokens : Z; ev_OutputTokens : Z;
  ev_TotalTokens : Z; ev_CostMicroUSD : Z; ev_CacheHit : bool; ev_LatencyMs : Z; ev_PromptText : string; ev_ResponseText : string;
}.

Record WarmSignal := { w_RequestID : string; w_Team : string; w_Model : string; w_Provider : ProviderKind }.

Record CachedCompletion := { Embedding : list float64; Prompt : string; Response : string; cc_Usage : TokenUsage; cc_ServedBy : ProviderKind }.

(** [int32] arithmetic *)
Definition wrap32 (z : Z) : Z := (z + 2 ^ 31) mod 2 ^ 32 - 2 ^ 31.
Definition in_int32 (z : Z) : Prop := - 2 ^ 31 <= z < 2 ^ 31.

Lemma wrap32_id z : in_int32 z -> wrap32 z = z.
Proof. unfold in_int32, wrap32. intros H. rewrite Z.mod_small; lia. Qed.

Lemma wrap32_range z : in_int32 (wrap32 z).
Proof. unfold in_int32, wrap32. pose proof (Z.mod_pos_bound (z + 2 ^ 31) (2 ^ 32)). lia. Qed.

(** ** Prices (cost.go) *)

Record providerRate := { promptMicroPer1K : Z; outputMicroPer1K : Z }.

Definition rateTable (k : ProviderKind) : option providerRate :=
  match k with
  | ProviderKindOllama => Some {| promptMicroPer1K := 100; outputMicroPer1K := 400 |}
  | ProviderKindStub => Some {| promptMicroPer1K := 100; outputMicroPer1K := 400 |}
  | ProviderKindOpenAI => Some {| promptMicroPer1K := 500; outputMicroPer1K := 1500 |}
  | ProviderKindAnthropic => Some {| promptMicroPer1K := 800; outputMicroPer1K := 2400 |}
  | ProviderKindUnspecified => None
  end.

(** Division truncates toward zero. *)
Definition costMicroUSD (kind : ProviderKind) (promptTokens outputTokens : Z) : Z :=
  match rateTable kind with
  | None => 0
  | Some r =>
      let prompt := Z.quot (wrap64 (promptTokens * promptMicroPer1K r)) 1000 in
      let output := Z.quot (wrap64 (outputTokens * outputMicroPer1K r)) 1000 in
      wrap64 (prompt + output)
  end.

(** ** The allow-list (allowlist.go) *)

Record AllowList := { al_models : gset string; al_providers : gset ProviderKind }.

Section allowlist.
Context `{CaseTables}.

Definition normalized (m : string) : string := ToLower (TrimSpace m).

Definition NewAllowList (models : list string) (providers : list ProviderKind) : AllowList := {|
  al_models := list_to_set (filter (fun m => m <> "") (map normalized models));
  al_providers := list_to_set (filter (fun p => p <> ProviderKindUnspecified) providers) |}.

Definition AllowsAll (a : AllowList) : bool := bool_decide (al_models a = ∅) && bool_decide (al_providers a = ∅).

Definition permitsModel (a : AllowList) (model : string) : bool :=
  bool_decide (al_models a = ∅) || bool_decide (normalized model ∈ al_models a).

Definition permitsProvider (a : AllowList) (provider : ProviderKind) : bool :=
  bool_decide (provider = ProviderKindUnspecified) || bool_decide (al_providers a = ∅) || bool_decide (provider ∈ al_providers a).

Definition Permits (a : AllowList) (model : string) (provider : ProviderKind) : bool := permitsModel a model && permitsProvider a provider.

(** [parseProviderKinds] (cmd/server/main.go): what is not a kind is logged and skipped. *)
Definition provider_kind (raw : string) : option ProviderKind :=
  let s := normalized raw in
  if String.eqb s "ollama" then Some ProviderKindOllama else if String.eqb s "stub" then Some ProviderKindStub
  else if String.eqb s "openai" then Some ProviderKindOpenAI else if String.eqb s "anthropic" then Some ProviderKindAnthropic else None.

Definition parseProviderKinds (kinds : list string) : list ProviderKind := omap provider_kind kinds.
End allowlist.

(** ** Providers and their order (ports.go, provider_registry.go) *)

(** What [Chat] answers: an error at the start, or all frames that the channel carries before
    it is closed. *)
Record Provider (W : Type) := {
  Kind : ProviderKind; Models : list string; Chat : ChatRequest -> W -> result (list Delta) string * W;
}.
Arguments Kind {W} _.
Arguments Models {W} _.
Arguments Chat {W} _ _ _.

Section registry.
Context {W : Type}.

(** The last of a kind is the one that a pin finds. *)
Definition byKind (ordered : list (Provider W)) (k : ProviderKind) : option (Provider W) :=
  List.find (fun p => bool_decide (Kind p = k)) (rev ordered).

Definition providerServes (p : Provider W) (model : string) : bool :=
  match Models p with [] => true | models => String.eqb model "" || existsb (String.eqb model) models end.

Definition Candidates (ordered : list (Provider W)) (pinned : ProviderKind) (model : string) : list (Provider W) :=
  if bool_decide (pinned = ProviderKindUnspecified) then List.filter (fun p => providerServes p model) ordered
  else match byKind ordered pinned with
       | Some p => if providerServes p model then [p] else []
       | None => []
       end.
End registry.

(** ** The text that is embedded (gateway_service.go) *)

Definition message_text (m : Message) : string := label (m_Role m) +:+ ": " +:+ Content m.

Fixpoint promptForEmbedding (messages : list Message) : string :=
  match messages with
  | [] => ""
  | [m] => message_text m
  | m :: rest => message_text m +:+ String (chr 10) (promptForEmbedding rest)
  end.

(** ** Similarity (cache.go) *)

Definition math_Sqrt : float64 -> float64 := SFsqrt 53 1024.

(** The loop: dot product and both squared norms, in order. *)
Fixpoint cosine_sums (a b : list float64) (sums : float64 * float64 * float64) : float64 * float64 * float64 :=
  match a, b with
  | av :: a, bv :: b =>
      let '(dot, normA, normB) := sums in
      cosine_sums a b (f_add dot (f_mul av bv), f_add normA (f_mul av av), f_add normB (f_mul bv bv))
  | _, _ => sums
  end.

Definition cosineSimilarity (a b : list float64) : float64 :=
  if negb (Nat.eqb (length a) (length b)) || Nat.eqb (length a) 0 then f_zero
  else
    let '(dot, normA, normB) := cosine_sums a b (f_zero, f_zero, f_zero) in
    if f_eq normA f_zero || f_eq normB f_zero then f_zero
    else f_div dot (f_mul (math_Sqrt normA) (math_Sqrt normB)).

(** The scan from entry [i] on, with the best so far. *)
Fixpoint nearest_from (query : list float64) (i : nat) (best : option (nat * float64)) (entries : list CachedCompletion) : option (nat * float64) :=
  match entries with
  | [] => best
  | e :: entries =>
      let sim := cosineSimilarity query (Embedding e) in
      let best := match best with
                  | None => Some (i, sim)
                  | Some (j, bestSim) => if f_lt bestSim sim then Some (i, sim) else Some (j, bestSim)
                  end in
      nearest_from query (S i) best entries
  end.

(** [None] for the code's index -1. *)
Definition NearestByCosine (query : list float64) (entries : list CachedCompletion) : option (nat * float64) := nearest_from query 0 None entries.

(** ** Properties *)

Lemma filter_set_empty {A} `{Countable A} (P : A -> Prop) `{!forall x, Decision (P x)} (l : list A) :
  (list_to_set (filter P l) : gset A) = ∅ <-> forall x, x ∈ l -> ~ P x.
Proof.
  split.
  - intros He x Hx HP. assert (x ∈ (list_to_set (filter P l) : gset A)) as Hf by (by apply elem_of_list_to_set, list_elem_of_filter).
    rewrite He in Hf. set_solver.
  - intros Hn. by rewrite filter_none.
Qed.

(** What the gate permits. A model passes when no name that is not blank is configured, or
    when its own name, trimmed and in lower case, is one that is configured; a provider passes
    when the caller pins none, when none is configured, or when it is configured. Nothing else
    passes, a request without a model under a list of models included. *)
Theorem permits_exact `{CaseTables} models providers model provider :
  Permits (NewAllowList models providers) model provider = true <->
  ((forall m, m ∈ models -> normalized m = "") \/ (normalized model <> "" /\ exists m, m ∈ models /\ normalized m = normalized model)) /\
  (provider = ProviderKindUnspecified \/ (forall p, p ∈ providers -> p = ProviderKindUnspecified) \/ provider ∈ providers).
Proof.
  unfold Permits, permitsModel, permitsProvider, NewAllowList. cbn [al_models al_providers].
  rewrite andb_true_iff, !orb_true_iff, !bool_decide_eq_true, !filter_set_empty, !elem_of_list_to_set, !list_elem_of_filter.
  split.
  - intros [Hm Hp]. split.
    + destruct Hm as [Hm | [Hn Hm]]; [left | right].
      * intros m Hin. destruct (decide (normalized m = "")) as [|Hn]; [done |]. exfalso. apply (Hm (normalized m)); [| exact Hn]. by apply list_elem_of_fmap_2.
      * split; [exact Hn |]. apply list_elem_of_fmap in Hm as (m & -> & Hm). by exists m.
    + destruct Hp as [[-> | Hp] | [_ Hp]]; [by left | | by right; right]. right; left. intros p Hin.
      destruct (decide (p = ProviderKindUnspecified)) as [|Hn]; [done |]. by destruct (Hp p Hin Hn).
  - intros [Hm Hp]. split.
    + destruct Hm as [Hm | (Hn & m & Hm & He)]; [left | right].
      * intros x Hx Hne. apply list_elem_of_fmap in Hx as (m & -> & Hx). by apply Hne, Hm.
      * split; [exact Hn |]. rewrite <- He. by apply list_elem_of_fmap_2.
    + destruct Hp as [-> | [Hp | Hp]]; [by left; left | left; right; intros p Hin Hne; by apply Hne, Hp |].
      destruct (decide (provider = ProviderKindUnspecified)); [by left; left | by right].
Qed.

(** A list of providers in which no entry is recognised is no list: every provider may be
    pinned, though the comment at [parseProviderKinds] says that a misspelt entry never widens
    the gate. *)
Theorem misspelt_providers_allow_all `{CaseTables} models kinds model provider :
  (forall k, k ∈ kinds -> provider_kind k = None) ->
  Permits (NewAllowList models (parseProviderKinds kinds)) model provider = permitsModel (NewAllowList models []) model.
Proof.
  intros Hk. assert (parseProviderKinds kinds = []) as ->.
  { unfold parseProviderKinds. induction kinds as [|k kinds IH]; [done |]. cbn [omap list_omap]. rewrite (Hk k) by left.
    apply IH. intros x Hx. apply Hk. by right. }
  unfold Permits. assert (permitsProvider (NewAllowList models []) provider = true) as ->; [| apply andb_true_r].
  unfold permitsProvider. apply orb_true_iff. left. apply orb_true_iff. right. by apply bool_decide_eq_true.
Qed.

(** The price of a completion. For token counts of an [int32] that are not negative no
    product overflows, and the price is the exact one rounded down in each of its two parts: at
    most two micro-dollars below it and never above it. *)
Theorem cost_rounds_down kind r prompt output :
  rateTable kind = Some r -> 0 <= prompt < 2 ^ 31 -> 0 <= output < 2 ^ 31 ->
  let exact := prompt * promptMicroPer1K r + output * outputMicroPer1K r in
  0 <= 1000 * costMicroUSD kind prompt output <= exact /\ exact < 1000 * costMicroUSD kind prompt output + 2000.
Proof.
  intros Hr Hp Ho. cbv zeta. unfold costMicroUSD. rewrite Hr.
  assert (0 <= promptMicroPer1K r <= 2400 /\ 0 <= outputMicroPer1K r <= 2400) as [Hrp Hro] by (destruct kind; [done | ..]; injection Hr as <-; cbn; lia).
  assert (0 <= prompt * promptMicroPer1K r <= 2 ^ 31 * 2400) by nia. assert (0 <= output * outputMicroPer1K r <= 2 ^ 31 * 2400) by nia.
  rewrite !(wrap64_id (_ * _)) by (unfold in_int64, int64_min, int64_max; lia). rewrite !Z.quot_div_nonneg by lia.
  pose proof (Z.mul_div_le (prompt * promptMicroPer1K r) 1000). pose proof (Z.mul_div_le (output * outputMicroPer1K r) 1000).
  pose proof (Z.mul_succ_div_gt (prompt * promptMicroPer1K r) 1000). pose proof (Z.mul_succ_div_gt (output * outputMicroPer1K r) 1000).
  pose proof (Z.div_pos (prompt * promptMicroPer1K r) 1000). pose proof (Z.div_pos (output * outputMicroPer1K r) 1000).
  rewrite wrap64_id by (unfold in_int64, int64_min, int64_max; lia). lia.
Qed.

(** *** Candidates *)

Section registry_facts.
Context {W : Type}.
Implicit Types p : Provider W.

Lemma byKind_some (ordered : list (Provider W)) k p : byKind ordered k = Some p -> p ∈ ordered /\ Kind p = k.
Proof.
  unfold byKind. intros [Hin Hk]%List.find_some. apply bool_decide_eq_true in Hk. split; [| done]. apply list_elem_of_In. by apply in_rev.
Qed.

Lemma candidates_serve (ordered : list (Provider W)) pinned model p : p ∈ Candidates ordered pinned model ->
  p ∈ ordered /\ providerServes p model = true /\ (pinned <> ProviderKindUnspecified -> Kind p = pinned).
Proof.
  unfold Candidates. case_bool_decide as Hu.
  - rewrite list_elem_of_In, filter_In, <- list_elem_of_In. intros [? ?]. by repeat split.
  - destruct (byKind ordered pinned) as [q|] eqn:E; [| by intros ?%elem_of_nil]. destruct (providerServes q model) eqn:Es; [| by intros ?%elem_of_nil].
    intros ->%list_elem_of_singleton. apply byKind_some in E as [Hin Hk]. by repeat split.
Qed.

Lemma pinned_alone (ordered : list (Provider W)) pinned model : pinned <> ProviderKindUnspecified -> (length (Candidates ordered pinned model) <= 1)%nat.
Proof.
  intros Hu. unfold Candidates. rewrite bool_decide_eq_false_2 by done. destruct (byKind ordered pinned) as [q|]; [| cbn; lia].
  destruct (providerServes q model); cbn; lia.
Qed.
End registry_facts.

(** *** The nearest entry *)

Definition sims (query : list float64) (entries : list CachedCompletion) : list float64 := map (fun e => cosineSimilarity query (Embedding e)) entries.

Lemma nearest_from_spec query seen entries best :
  Forall is_number (sims query (seen ++ entries)) ->
  match best with
  | Some (j, s) => sims query seen !! j = Some s /\ (forall k t, sims query seen !! k = Some t -> f_le t s = true) /\
                   (forall k t, (k < j)%nat -> sims query seen !! k = Some t -> f_lt t s = true)
  | None => seen = []
  end ->
  match nearest_from query (length seen) best entries with
  | Some (j, s) => sims query (seen ++ entries) !! j = Some s /\ (forall k t, sims query (seen ++ entries) !! k = Some t -> f_le t s = true) /\
                   (forall k t, (k < j)%nat -> sims query (seen ++ entries) !! k = Some t -> f_lt t s = true)
  | None => seen ++ entries = []
  end.
Proof.
  revert seen best. induction entries as [|e entries IH]; intros seen best Hn Hb; cbn [nearest_from].
  - rewrite app_nil_r. destruct best as [[j s]|]; done.
  - set (sim := cosineSimilarity query (Embedding e)).
    assert (seen ++ e :: entries = (seen ++ [e]) ++ entries) as Happ by (by rewrite <- app_assoc). rewrite Happ in *.
    assert (length (seen ++ [e]) = S (length seen)) as Hlen by (rewrite length_app; cbn; lia). rewrite <- Hlen.
    assert (sims query (seen ++ [e]) = sims query seen ++ [sim]) as Hsims by (unfold sims; by rewrite map_app).
    assert (Forall is_number (sims query seen ++ [sim])) as Hnum.
    { rewrite <- Hsims. unfold sims in *. rewrite map_app in Hn. by apply list.Forall_app in Hn as [? _]. }
    apply IH; [done |]. rewrite Hsims. clear IH Hn Happ Hlen Hsims. unfold sims in *.
    assert (length (map (fun e => cosineSimilarity query (Embedding e)) seen) = length seen) as Hl by apply length_map.
    set (l := map _ seen) in *. apply list.Forall_app in Hnum as [Hl1 Hs1]. apply list.Forall_cons in Hs1 as [Hs1 _].
    destruct best as [[j s]|].
    + destruct Hb as (Hj & Hle & Hlt). assert (is_number s) as Hs by (rewrite list.Forall_forall in Hl1; by eapply Hl1, list_elem_of_lookup_2).
      destruct (f_lt s sim) eqn:E.
      * split; [by rewrite lookup_app_r, Hl, Nat.sub_diag by lia |]. assert (f_le s sim = true) as Hss.
        { rewrite f_lt_not_le in E by done. destruct (f_le_total s sim Hs Hs1) as [? | Hc]; [done | by rewrite Hc in E]. }
        split; intros k t; [| intros Hk]; intros Ht; apply lookup_app_Some in Ht as [Ht | [Hge Ht]].
        -- eapply f_le_trans; [by eapply Hle | done].
        -- apply list_lookup_singleton_Some in Ht as [_ <-]. by apply f_le_refl.
        -- assert (is_number t) as Hnt by (rewrite list.Forall_forall in Hl1; by eapply Hl1, list_elem_of_lookup_2).
           rewrite f_lt_not_le in * by done. destruct (f_le sim t) eqn:Ec; [| done]. rewrite (f_le_trans sim t s Ec) in E; [done | by eapply Hle].
        -- lia.
      * split; [by rewrite lookup_app_l by (by eapply lookup_lt_Some) |]. split; intros k t; [| intros Hk]; intros Ht; apply lookup_app_Some in Ht as [Ht | [Hge Ht]].
        -- by eapply Hle.
        -- apply list_lookup_singleton_Some in Ht as [_ <-]. rewrite f_lt_not_le in E by done. by destruct (f_le sim s).
        -- by eapply Hlt.
        -- apply lookup_lt_Some in Hj. lia.
    + subst seen. cbn in l. subst l. cbn. split; [done |]. split; intros k t; [| intros Hk]; intros Ht; [| lia].
      apply list_lookup_singleton_Some in Ht as [_ <-]. by apply f_le_refl.
Qed.

(** The entry that a lookup compares with the threshold is the most similar one, the first
    of equals, and there is one as soon as there are entries; where no similarity is a NaN. *)
Theorem nearest_is_nearest query entries : Forall is_number (sims query entries) ->
  match NearestByCosine query entries with
  | Some (j, s) => sims query entries !! j = Some s /\ (forall k t, sims query entries !! k = Some t -> f_le t s = true) /\
                   (forall k t, (k < j)%nat -> sims query entries !! k = Some t -> f_lt t s = true)
  | None => entries = []
  end.
Proof. intros Hn. by apply (nearest_from_spec query [] entries None). Qed.
