(* ===== verification/GateProviders.v ===== *)
(** * AI gateway: the provider adapters

    [services/ai-gateway/internal/providers]: the token estimate of [tokens.go], the stub, and
    the three adapters of HTTP back ends: the request each sends, the retries of Ollama's cold
    start, and the frames that each makes of the lines of an answer's body. The lines are what
    the scanner returns before it ends, whether at the end of the body, at a line beyond its
    buffer or at a broken connection: the code does not ask which. The HTTP client and the
    decoding of JSON are the classes [ChatHTTP] and [ChatJSON]; a request is not cancelled. *)

From S2P Require Import Prelude GoText GoFormat GoFloat GateModel.
Open Scope fp_scope.

(** ** Token estimates (tokens.go) *)

(** [strings.Fields], with the word that has begun. *)
Fixpoint fields_from (word : string) (s : string) : list string :=
  let flush rest := if String.eqb word "" then rest else word :: rest in
  match s with
  | "" => flush []
  | String a s1 =>
      if space1 a then flush (fields_from "" s1)
      else match s1 with
        | String b s2 =>
            if space2 a b then flush (fields_from "" s2)
            else match s2 with
              | String c s3 => if space3 a b c then flush (fields_from "" s3) else fields_from (word +:+ String a "") s1
              | "" => fields_from (word +:+ String a "") s1
              end
        | "" => fields_from (word +:+ String a "") s1
        end
  end.

Definition Fields (s : string) : list string := fields_from "" s.

(** The number of characters; [skip] bytes belong to the one before. *)
Fixpoint rune_count (skip : nat) (s : string) : nat :=
  match s with
  | "" => 0
  | String _ rest =>
      match skip with
      | S skip => rune_count skip rest
      | O => S (rune_count (match DecodeRune s with Some (_, more) => more | None => 0 end) rest)
      end
  end.

Definition estimateTokens (s : string) : Z :=
  if String.eqb s "" then 0
  else
    let words := Z.of_nat (length (Fields s)) in
    let chars := Z.of_nat (rune_count 0 s) / 4 in
    let n := if words <? chars then chars else words in
    wrap32 (if n <? 1 then 1 else n).

Definition promptTokenCount (messages : list Message) : Z :=
  fold_left (fun total m => wrap32 (total + estimateTokens (Content m))) messages 0.

(** ** The stub (stub.go) *)

Record StubProvider := { answer_ : string; failStart : option string }.

Definition defaultStubAnswer : string := "Hello from the Forgepoint AI gateway stub provider.".
Definition NewStubProvider : StubProvider := {| answer_ := defaultStubAnswer; failStart := None |}.

Fixpoint word_frames (words : list string) : list Delta :=
  match words with
  | [] => []
  | [w] => [text_frame w]
  | w :: words => text_frame (w +:+ " ") :: word_frames words
  end.

Definition usage_of (prompt completion : Z) : TokenUsage := {| PromptTokens := prompt; CompletionTokens := completion; TotalTokens := 0; CostMicroUSD := 0 |}.

Definition stub_Chat {W} (s : StubProvider) (req : ChatRequest) (w : W) : result (list Delta) string * W :=
  (match failStart s with
   | Some err => Err err
   | None =>
       let words := Fields (answer_ s) in
       Ok (word_frames words ++ [end_frame (usage_of (promptTokenCount (Messages req)) (wrap32 (Z.of_nat (length words)))) FinishReasonStop])
   end, w).

Definition stub {W} (s : StubProvider) : Provider W := {| Kind := ProviderKindStub; Models := []; Chat := stub_Chat s |}.

(** ** What the back ends are sent and answer *)

Record chat_msg := { cm_role : string; cm_content : string }.

Record ollamaChatRequest := { or_model : string; or_messages : list chat_msg; or_stream : bool; or_options : option (float64 * Z) }.
Record openAIChatRequest := {
  oa_model : string; oa_messages : list chat_msg; oa_stream : bool; oa_include_usage : bool; oa_temperature : option float64; oa_max_tokens : option Z;
}.
Record anthropicRequest := {
  an_model : string; an_messages : list chat_msg; an_system : string; an_stream : bool; an_max_tokens : Z; an_temperature : option float64;
}.

(** What the decoders make of a line: absent fields are zero values, pointers are options. *)
Record ollamaChatLine := { ol_content : string; ol_done : bool; ol_done_reason : string; ol_prompt_eval_count : Z; ol_eval_count : Z }.
Record openAIChoice := { ch_content : string; ch_finish_reason : string }.
Record openAIStreamChunk := { ck_choices : list openAIChoice; ck_usage : option (Z * Z) }.
Record anthropicUsage := { InputTokens : Z; OutputTokens : Z }.
Record anthropicStreamEvent := {
  ae_type : string; ae_message : option (option anthropicUsage); ae_delta : option (string * string); ae_usage : option anthropicUsage;
}.

Class ChatJSON : Type := {
  decode_ollama : string -> option ollamaChatLine;
  decode_openai : string -> option openAIStreamChunk;
  decode_anthropic : string -> option anthropicStreamEvent;
}.

Definition roleToOllama (r : Role) : string := match r with RoleSystem => "system" | RoleAssistant => "assistant" | _ => "user" end.
Definition roleToOpenAI (r : Role) : string := match r with RoleSystem => "system" | RoleAssistant => "assistant" | _ => "user" end.
Definition roleToAnthropic (r : Role) : string := match r with RoleAssistant => "assistant" | _ => "user" end.

Definition ollamaFinish (reason : string) : FinishReason := if String.eqb reason "length" then FinishReasonLength else FinishReasonStop.
Definition openAIFinish (reason : string) : FinishReason :=
  if String.eqb reason "length" then FinishReasonLength else if String.eqb reason "content_filter" then FinishReasonContentFilter else FinishReasonStop.
Definition anthropicFinish (reason : string) : FinishReason := if String.eqb reason "max_tokens" then FinishReasonLength else FinishReasonStop.

Definition positive_float (t : float64) : bool := f_lt f_zero t.

Definition ollama_buildRequest (req : ChatRequest) : ollamaChatRequest := {|
  or_model := Model req;
  or_messages := map (fun m => {| cm_role := roleToOllama (m_Role m); cm_content := Content m |}) (Messages req);
  or_stream := true;
  or_options := if positive_float (Temperature req) || (0 <? MaxTokens req) then Some (Temperature req, MaxTokens req) else None |}.

Definition openai_buildRequest (req : ChatRequest) : openAIChatRequest := {|
  oa_model := Model req;
  oa_messages := map (fun m => {| cm_role := roleToOpenAI (m_Role m); cm_content := Content m |}) (Messages req);
  oa_stream := true; oa_include_usage := true;
  oa_temperature := if positive_float (Temperature req) then Some (Temperature req) else None;
  oa_max_tokens := if 0 <? MaxTokens req then Some (MaxTokens req) else None |}.

Definition defaultAnthropicMaxTokens : Z := 1024.

(** The turns of the system go into one text of their own. *)
Fixpoint system_of (system : string) (messages : list Message) : string :=
  match messages with
  | [] => system
  | m :: messages =>
      match m_Role m with
      | RoleSystem => system_of ((if String.eqb system "" then system else system +:+ String (chr 10) "") +:+ Content m) messages
      | _ => system_of system messages
      end
  end.

Definition is_system (m : Message) : bool := match m_Role m with RoleSystem => true | _ => false end.

Definition anthropic_buildRequest (req : ChatRequest) : anthropicRequest := {|
  an_model := Model req;
  an_messages := map (fun m => {| cm_role := roleToAnthropic (m_Role m); cm_content := Content m |}) (List.filter (fun m => negb (is_system m)) (Messages req));
  an_system := system_of "" (Messages req);
  an_stream := true;
  an_max_tokens := if MaxTokens req <=? 0 then defaultAnthropicMaxTokens else MaxTokens req;
  an_temperature := if positive_float (Temperature req) then Some (Temperature req) else None |}.

(** ** The frames of a body *)

(** [bytes.CutPrefix(line, "data:")], trimmed *)
Definition data_of (line : string) : option string := if String.prefix "data:" line then Some (TrimSpace (sdrop 5 line)) else None.

(** Where the back end counted no prompt, the input is estimated. *)
Definition with_prompt_estimate (req : ChatRequest) (u : TokenUsage) : TokenUsage :=
  if PromptTokens u =? 0 then usage_of (promptTokenCount (Messages req)) (CompletionTokens u) else u.

Section bodies.
Context `{ChatJSON}.
Variable req : ChatRequest.

(** One line of JSON each; the last says that it is done. *)
Fixpoint ollama_streamBody (lines : list string) : list Delta :=
  match lines with
  | [] => []
  | line :: lines =>
      let line := TrimSpace line in
      if String.eqb line "" then ollama_streamBody lines
      else match decode_ollama line with
        | None => []
        | Some parsed =>
            if ol_done parsed then
              [end_frame (with_prompt_estimate req (usage_of (ol_prompt_eval_count parsed) (ol_eval_count parsed))) (ollamaFinish (ol_done_reason parsed))]
            else if String.eqb (ol_content parsed) "" then ollama_streamBody lines
            else text_frame (ol_content parsed) :: ollama_streamBody lines
        end
  end.

(** After the loop: the frame that ends the stream, with what was seen of the usage. *)
Definition openai_end (usage : option TokenUsage) (finish : FinishReason) : list Delta :=
  [end_frame (match usage with Some u => u | None => usage_of (promptTokenCount (Messages req)) 0 end) finish].

Fixpoint openai_streamBody (usage : option TokenUsage) (finish : FinishReason) (lines : list string) : list Delta :=
  match lines with
  | [] => openai_end usage finish
  | line :: lines =>
      let line := TrimSpace line in
      if String.eqb line "" then openai_streamBody usage finish lines
      else match data_of line with
        | None => openai_streamBody usage finish lines
        | Some data =>
            if String.eqb data "[DONE]" then openai_end usage finish
            else match decode_openai data with
              | None => []
              | Some chunk =>
                  let usage := match ck_usage chunk with Some (p, c) => Some (usage_of p c) | None => usage end in
                  match ck_choices chunk with
                  | [] => openai_streamBody usage finish lines
                  | c :: _ =>
                      let finish := if String.eqb (ch_finish_reason c) "" then finish else openAIFinish (ch_finish_reason c) in
                      if String.eqb (ch_content c) "" then openai_streamBody usage finish lines
                      else text_frame (ch_content c) :: openai_streamBody usage finish lines
                  end
              end
        end
  end.

Definition anthropic_end (usage : TokenUsage) (finish : FinishReason) : list Delta := [end_frame (with_prompt_estimate req usage) finish].

Fixpoint anthropic_streamBody (usage : TokenUsage) (finish : FinishReason) (lines : list string) : list Delta :=
  match lines with
  | [] => anthropic_end usage finish
  | line :: lines =>
      let line := TrimSpace line in
      if String.eqb line "" then anthropic_streamBody usage finish lines
      else match data_of line with
        | None => anthropic_streamBody usage finish lines
        | Some data =>
            match decode_anthropic data with
            | None => []
            | Some ev =>
                if String.eqb (ae_type ev) "message_start" then
                  anthropic_streamBody (match ae_message ev with Some (Some u) => usage_of (InputTokens u) (CompletionTokens usage) | _ => usage end) finish lines
                else if String.eqb (ae_type ev) "content_block_delta" then
                  match ae_delta ev with
                  | Some (text, _) =>
                      if String.eqb text "" then anthropic_streamBody usage finish lines else text_frame text :: anthropic_streamBody usage finish lines
                  | None => anthropic_streamBody usage finish lines
                  end
                else if String.eqb (ae_type ev) "message_delta" then
                  anthropic_streamBody (match ae_usage ev with Some u => usage_of (PromptTokens usage) (OutputTokens u) | None => usage end)
                    (match ae_delta ev with Some (_, stop) => if String.eqb stop "" then finish else anthropicFinish stop | None => finish end) lines
                else if String.eqb (ae_type ev) "message_stop" then anthropic_end usage finish
                else anthropic_streamBody usage finish lines
            end
        end
  end.
End bodies.

(** ** Calls *)

(** What the client of HTTP answers: a status with the lines of the body, or an error that
    [isConnRefused] recognises or not. After a refusal the context may end during the wait. *)
Inductive http_failure := ConnRefused | OtherFailure.

Class ChatHTTP (W : Type) : Type := {
  http_post : ProviderKind -> ChatRequest -> W -> result (Z * list string) http_failure * W;
  wait_cancelled : W -> bool * W;
}.

Section calls.
Context {W : Type} `{ChatHTTP W, ChatJSON}.

(** The attempts of [doWithRetry], of which [more] are left after this one. *)
Fixpoint doWithRetry (more : nat) (req : ChatRequest) (w : W) : result (Z * list string) string * W :=
  let '(r, w) := http_post ProviderKindOllama req w in
  match r with
  | Ok resp => (Ok resp, w)
  | Err OtherFailure => (Err "ollama: request failed", w)
  | Err ConnRefused =>
      match more with
      | O => (Err "ollama: connection refused after cold-start retries", w)
      | S more =>
          let '(cancelled, w) := wait_cancelled w in
          if cancelled : bool then (Err "ollama: cancelled during cold-start retry", w) else doWithRetry more req w
      end
  end.

Definition defaultMaxRetries : nat := 5.

Definition ok_body (frames : list string -> list Delta) (r : result (Z * list string) string * W) : result (list Delta) string * W :=
  let '(r, w) := r in
  (match r with
   | Ok (status, lines) => if status =? 200 then Ok (frames lines) else Err "backend returned a status that is not 200"
   | Err err => Err err
   end, w).

Definition ollama_Chat (maxRetries : nat) (req : ChatRequest) (w : W) : result (list Delta) string * W :=
  ok_body (ollama_streamBody req) (doWithRetry maxRetries req w).

Definition request_failed (r : result (Z * list string) http_failure * W) : result (Z * list string) string * W :=
  let '(r, w) := r in (match r with Ok resp => Ok resp | Err _ => Err "request failed" end, w).

Definition openai_Chat (req : ChatRequest) (w : W) : result (list Delta) string * W :=
  ok_body (openai_streamBody req None FinishReasonStop) (request_failed (http_post ProviderKindOpenAI req w)).

Definition anthropic_Chat (req : ChatRequest) (w : W) : result (list Delta) string * W :=
  ok_body (anthropic_streamBody req (usage_of 0 0) FinishReasonStop) (request_failed (http_post ProviderKindAnthropic req w)).

Definition ollama (maxRetries : nat) : Provider W := {| Kind := ProviderKindOllama; Models := []; Chat := ollama_Chat maxRetries |}.
Definition openai : Provider W := {| Kind := ProviderKindOpenAI; Models := []; Chat := openai_Chat |}.
Definition anthropic : Provider W := {| Kind := ProviderKindAnthropic; Models := []; Chat := anthropic_Chat |}.

(** [CloudProviders] and the order that [cmd/server/main.go] registers: each cloud with its key. *)
Definition CloudProviders (openAIKey anthropicKey : string) : list (Provider W) :=
  (if String.eqb openAIKey "" then [] else [openai]) ++ (if String.eqb anthropicKey "" then [] else [anthropic]).

Definition wired_providers (openAIKey anthropicKey : string) : list (Provider W) :=
  ollama defaultMaxRetries :: CloudProviders openAIKey anthropicKey ++ [stub NewStubProvider].
End calls.

(** ** Properties *)

(** What the interface asks of a stream: frames of text, then at most one that ends it. *)
Definition conforms (ds : list Delta) : Prop :=
  exists texts, ds = map text_frame texts \/ exists u r, ds = map text_frame texts ++ [end_frame u r] /\ r <> FinishReasonError.

(** Such a stream that does end. *)
Definition ends_well (ds : list Delta) : Prop :=
  exists texts u r, ds = map text_frame texts ++ [end_frame u r] /\ r <> FinishReasonError.

Lemma conforms_nil : conforms [].
Proof. exists []. by left. Qed.

Lemma conforms_text t ds : conforms ds -> conforms (text_frame t :: ds).
Proof. intros [ts [-> | (u & r & -> & Hr)]]; exists (t :: ts); [by left | right; by exists u, r]. Qed.

Lemma ends_well_text t ds : ends_well ds -> ends_well (text_frame t :: ds).
Proof. intros (ts & u & r & -> & Hr). by exists (t :: ts), u, r. Qed.

Lemma ends_well_end u r : r <> FinishReasonError -> ends_well [end_frame u r].
Proof. intros Hr. by exists [], u, r. Qed.

Lemma ends_well_conforms ds : ends_well ds -> conforms ds.
Proof. intros (ts & u & r & -> & Hr). exists ts. right. by exists u, r. Qed.

#[export] Hint Resolve conforms_nil conforms_text ends_well_text ends_well_end ends_well_conforms : fp.

Lemma ollamaFinish_ok reason : ollamaFinish reason <> FinishReasonError.
Proof. unfold ollamaFinish. by destruct (String.eqb _ _). Qed.
Lemma openAIFinish_ok reason : openAIFinish reason <> FinishReasonError.
Proof. unfold openAIFinish. by repeat destruct (String.eqb _ _). Qed.
Lemma anthropicFinish_ok reason : anthropicFinish reason <> FinishReasonError.
Proof. unfold anthropicFinish. by destruct (String.eqb _ _). Qed.
#[export] Hint Resolve ollamaFinish_ok openAIFinish_ok anthropicFinish_ok : fp.

Section stream_facts.
Context `{ChatJSON}.

Lemma ollama_conforms req lines : conforms (ollama_streamBody req lines).
Proof. induction lines as [|line lines IH]; cbn [ollama_streamBody]; cbv zeta; repeat case_match; auto 6 with fp. Qed.

(** What every line that carries data decodes to. *)
Definition openai_decodes (line : string) : Prop :=
  forall data, data_of (TrimSpace line) = Some data -> data <> "[DONE]" -> decode_openai data <> None.
Definition anthropic_decodes (line : string) : Prop := forall data, data_of (TrimSpace line) = Some data -> decode_anthropic data <> None.
(** A line of Ollama that decodes and does not end the answer. *)
Definition ollama_goes_on (line : string) : Prop :=
  TrimSpace line = "" \/ exists parsed, decode_ollama (TrimSpace line) = Some parsed /\ ol_done parsed = false.

Lemma openai_frames req usage finish lines : finish <> FinishReasonError ->
  conforms (openai_streamBody req usage finish lines) /\
  (Forall openai_decodes lines -> ends_well (openai_streamBody req usage finish lines)).
Proof.
  revert usage finish. induction lines as [|line lines IH]; intros usage finish Hf; cbn [openai_streamBody]; cbv zeta.
  - unfold openai_end. auto with fp.
  - rewrite list.Forall_cons. destruct (String.eqb_spec (TrimSpace line) ""); [split; [by apply IH | intros [_ Hl]; by apply IH] |].
    unfold openai_decodes at 1. destruct (data_of (TrimSpace line)) as [data|]; [| split; [by apply IH | intros [_ Hl]; by apply IH]].
    destruct (String.eqb_spec data "[DONE]"); [unfold openai_end; auto with fp |].
    destruct (decode_openai data) as [chunk|] eqn:Ed; [| split; [auto with fp | intros [Hd _]; by destruct (Hd data eq_refl)]].
    destruct (ck_choices chunk) as [|c ?]; [split; [by apply IH | intros [_ Hl]; by apply IH] |].
    set (u := match ck_usage chunk with Some (p, c) => _ | None => _ end). set (f := if String.eqb (ch_finish_reason c) "" then _ else _).
    assert (f <> FinishReasonError) as Hf' by (unfold f; destruct (String.eqb _ _); auto with fp).
    destruct (IH u f Hf') as [Hc He]. destruct (String.eqb (ch_content c) ""); [split; [done | by intros [_ ?]; apply He] |].
    split; [auto with fp | intros [_ Hl]; auto with fp].
Qed.

Lemma anthropic_frames req usage finish lines : finish <> FinishReasonError ->
  conforms (anthropic_streamBody req usage finish lines) /\
  (Forall anthropic_decodes lines -> ends_well (anthropic_streamBody req usage finish lines)).
Proof.
  revert usage finish. induction lines as [|line lines IH]; intros usage finish Hf; cbn [anthropic_streamBody]; cbv zeta.
  - unfold anthropic_end. auto with fp.
  - rewrite list.Forall_cons. assert (forall u f, f <> FinishReasonError -> conforms (anthropic_streamBody req u f lines) /\
      (anthropic_decodes line /\ Forall anthropic_decodes lines -> ends_well (anthropic_streamBody req u f lines))) as Hgo.
    { intros u f Hf'. split; [by apply IH | intros [_ Hl]; by apply IH]. }
    destruct (String.eqb_spec (TrimSpace line) ""); [by apply Hgo |].
    destruct (data_of (TrimSpace line)) as [data|] eqn:Edata; [| by apply Hgo].
    destruct (decode_anthropic data) as [ev|] eqn:Ed; [| split; [auto with fp | intros [Hd _]; by destruct (Hd data Edata)]].
    repeat (destruct (String.eqb (ae_type ev) _)); try by apply Hgo.
    + destruct (ae_delta ev) as [[text ?]|]; [| by apply Hgo]. destruct (String.eqb text ""); [by apply Hgo |].
      destruct (Hgo usage finish Hf) as [Hc He]. split; auto with fp.
    + apply Hgo. repeat case_match; auto with fp.
    + unfold anthropic_end. auto with fp.
Qed.

Lemma ollama_cut req lines : Forall ollama_goes_on lines -> exists texts, ollama_streamBody req lines = map text_frame texts.
Proof.
  induction 1 as [|line lines Hl _ [texts IH]]; [by exists [] |]. cbn [ollama_streamBody]. cbv zeta.
  destruct (String.eqb_spec (TrimSpace line) ""); [by exists texts |]. destruct Hl as [? | (parsed & -> & ->)]; [done |].
  destruct (String.eqb (ol_content parsed) ""); [by exists texts |]. exists (ol_content parsed :: texts). by rewrite IH.
Qed.

(** An answer that breaks off. Whatever the lines of a body that could still be read and
    decoded - all of it, or what came before the connection broke - the adapters of OpenAI and
    Anthropic end the stream with a frame that says the answer is complete, so that a partial
    answer counts as a success. Ollama's adapter ends a body without its last line with no
    such frame, which is a failure. *)
Theorem cut_answer_passes_for_whole req cloud_o cloud_a local :
  Forall openai_decodes cloud_o -> Forall anthropic_decodes cloud_a -> Forall ollama_goes_on local ->
  ends_well (openai_streamBody req None FinishReasonStop cloud_o) /\
  ends_well (anthropic_streamBody req (usage_of 0 0) FinishReasonStop cloud_a) /\
  (forall d, d ∈ ollama_streamBody req local -> Done d = false).
Proof.
  intros Ho Ha Hl. split; [by apply openai_frames | split; [by apply anthropic_frames |]].
  destruct (ollama_cut req local Hl) as [texts ->]. intros d (t & -> & _)%list_elem_of_fmap. done.
Qed.

Context {W : Type} `{ChatHTTP W}.

Lemma stub_conforms words u : conforms (word_frames words ++ [end_frame u FinishReasonStop]).
Proof.
  induction words as [|w words IH]; [by apply ends_well_conforms, ends_well_end |]. destruct words as [|w' words].
  - cbn. auto with fp.
  - cbn [word_frames app] in *. by apply conforms_text.
Qed.

Lemma stub_Chat_conforms s req ds (w w' : W) : stub_Chat s req w = (Ok ds, w') -> conforms ds.
Proof. unfold stub_Chat. destruct (failStart s); [done |]. intros [= <- _]. apply stub_conforms. Qed.

Lemma ok_body_conforms frames r ds (w : W) : (forall lines : list string, conforms (frames lines)) -> ok_body frames r = (Ok ds, w) -> conforms ds.
Proof. intros Hf. unfold ok_body. destruct r as [[[status lines]|] w']; [| done]. destruct (status =? 200); [| done]. by intros [= <- _]. Qed.

(** The contract of the interface. What any of the wired providers streams, whatever the
    back end answers, is frames of text and then at most one frame that ends the stream, which
    does not report an error. *)
Theorem wired_streams_conform openAIKey anthropicKey p req w ds w' :
  p ∈ wired_providers (W := W) openAIKey anthropicKey -> Chat p req w = (Ok ds, w') -> conforms ds.
Proof.
  unfold wired_providers, CloudProviders. rewrite elem_of_cons, !elem_of_app, list_elem_of_singleton.
  intros [-> | [[Hp | Hp] | ->]].
  - apply ok_body_conforms. intros lines. apply ollama_conforms.
  - destruct (String.eqb openAIKey ""); [by apply elem_of_nil in Hp |]. apply list_elem_of_singleton in Hp as ->.
    apply ok_body_conforms. intros lines. by apply openai_frames.
  - destruct (String.eqb anthropicKey ""); [by apply elem_of_nil in Hp |]. apply list_elem_of_singleton in Hp as ->.
    apply ok_body_conforms. intros lines. by apply anthropic_frames.
  - apply stub_Chat_conforms.
Qed.

(** The cold start of Ollama. However the back end answers, a call makes at least one
    attempt and no more than [maxRetries + 1]: by any count of the attempts that a waiting does
    not change. *)
Theorem cold_start_bounded (posts : W -> Z) maxRetries req w :
  (forall k r w, posts (http_post k r w).2 = posts w + 1) -> (forall w, posts (wait_cancelled w).2 = posts w) ->
  posts w + 1 <= posts (doWithRetry maxRetries req w).2 <= posts w + 1 + Z.of_nat maxRetries.
Proof.
  intros Hpost Hwait. revert w. induction maxRetries as [|more IH]; intros w; cbn [doWithRetry];
    pose proof (Hpost ProviderKindOllama req w) as Hp; destruct (http_post ProviderKindOllama req w) as [[resp | []] w1]; cbn [snd] in *; try lia.
  pose proof (Hwait w1) as Hw. destruct (wait_cancelled w1) as [[] w2]; cbn [snd] in *; [lia |]. specialize (IH w2). lia.
Qed.
End stream_facts.
