(* ===== verification/GateStore.v ===== *)
(** * AI gateway: Redis, and what the process keeps

    One definition per Redis command or script of [services/ai-gateway/internal]:
    [budget/redis_budget.go] with its Lua script on [float64], [usage/redis_usage.go] and
    [cache/redis_cache.go], each a function of Redis's clock (nanoseconds since 1970) and of
    the keys with the moments at which they expire. Beside them are the breakers of
    [domain/breaker_registry.go] in the memory of the process, and the events that were handed
    to the publisher, oldest first. Redis writes a number of a script so that reading it back
    gives the same number. *)

From S2P Require Import Prelude CircuitBreaker Concur Site GoText GoFormat GoNet GoFloat GateModel.
Open Scope fp_scope.

(** ** State *)

Record bucket := { b_tokens : float64; b_ts : float64; b_expires : time }.
Record usage_hash := { u_fields : gmap string Z; u_expires : time }.
Record cache_list := { l_blobs : list string; l_expires : time }.

Inductive gw_event := ServedEvent (ev : CompletionServed) | WarmEvent (ev : WarmSignal).

Record gate_db := {
  breakers : gmap ProviderKind CircuitBreaker; budgets : gmap string bucket; usages : gmap string usage_hash; caches : gmap string cache_list;
  emitted : list gw_event;
}.

Definition with_breaker_of (k : ProviderKind) (b : CircuitBreaker) (d : gate_db) : gate_db := {|
  breakers := <[k := b]> (breakers d); budgets := budgets d; usages := usages d; caches := caches d; emitted := emitted d |}.
Definition with_bucket (key : string) (b : bucket) (d : gate_db) : gate_db := {|
  breakers := breakers d; budgets := <[key := b]> (budgets d); usages := usages d; caches := caches d; emitted := emitted d |}.
Definition with_usage (key : string) (h : usage_hash) (d : gate_db) : gate_db := {|
  breakers := breakers d; budgets := budgets d; usages := <[key := h]> (usages d); caches := caches d; emitted := emitted d |}.
Definition with_cache (key : string) (l : cache_list) (d : gate_db) : gate_db := {|
  breakers := breakers d; budgets := budgets d; usages := usages d; caches := <[key := l]> (caches d); emitted := emitted d |}.
Definition with_emitted (ev : gw_event) (d : gate_db) : gate_db := {|
  breakers := breakers d; budgets := budgets d; usages := usages d; caches := caches d; emitted := emitted d ++ [ev] |}.

(** Whether a key that expires then is still there. *)
Definition alive (now expires : time) : bool := now <? expires.

(** ** The token budget (redis_budget.go) *)

Record budget_config := { Budget : Z; WindowSeconds : Z }.

Definition window_seconds (c : budget_config) : Z := if WindowSeconds c <=? 0 then 3600 else WindowSeconds c.
Definition ratePerSec (c : budget_config) : float64 :=
  if 0 <? Budget c then f_div (f_of_int (Budget c)) (f_of_int (window_seconds c)) else f_zero.
Definition budget_ttl (c : budget_config) : duration := window_seconds c * Second + Minute.
Definition budget_key (team : string) : string := "fp:ai:budget:" +:+ team.

(** Lua's [math.min] and [math.floor], the latter as the integer that Redis replies. *)
Definition lua_min (x y : float64) : float64 := if f_lt y x then y else x.
Definition lua_floor (x : float64) : Z :=
  let n := match x with
           | S754_zero _ => 0
           | S754_finite s m e => let v := if s then Zneg m else Zpos m in if 0 <=? e then v * 2 ^ e else v / 2 ^ (- e)
           | _ => int64_min
           end in
  if (int64_min <=? n) && (n <=? int64_max) then n else int64_min.

(** The moment of [TIME] in milliseconds. *)
Definition now_ms (now : time) : float64 :=
  f_add (f_mul (f_of_int (now / Second)) (f_of_int 1000)) (f_div (f_of_int (now mod Second / 1000)) (f_of_int 1000)).

(** Tokens and moment as the script finds them: a full budget where there is no key. *)
Definition bucket_at (budget : Z) (now : time) (b : option bucket) : float64 * float64 :=
  match b with
  | Some b => if alive now (b_expires b) then (b_tokens b, b_ts b) else (f_of_int budget, now_ms now)
  | None => (f_of_int budget, now_ms now)
  end.

(** The lazy refill up to the budget. *)
Definition refill (rate : float64) (budget : Z) (now : time) (found : float64 * float64) : float64 :=
  let '(tokens, ts) := found in
  let elapsed := f_sub (now_ms now) ts in
  let elapsed := if f_lt elapsed f_zero then f_zero else elapsed in
  lua_min (f_of_int budget) (f_add tokens (f_mul rate (f_div elapsed (f_of_int 1000)))).

Definition budgetScript (c : budget_config) (team : string) (spend : Z) (now : time) (d : gate_db) : (bool * Z) * gate_db :=
  let tokens := refill (ratePerSec c) (Budget c) now (bucket_at (Budget c) now (budgets d !! budget_key team)) in
  let '(allowed, tokens) :=
    if spend <=? 0 then (f_le f_one tokens, tokens)
    else let tokens := f_sub tokens (f_of_int spend) in (f_le f_zero tokens, tokens) in
  ((allowed, lua_floor tokens), with_bucket (budget_key team) {| b_tokens := tokens; b_ts := now_ms now; b_expires := now + budget_ttl c |} d).

(** ** The usage counters (redis_usage.go) *)

Definition usage_key (team : string) : string := "ai:usage:" +:+ team.
Definition fieldPrompt : string := "prompt".
Definition fieldCompletion : string := "completion".
Definition usage_defaultTTL : duration := 30 * 24 * Hour.
Definition usage_ttl (given : duration) : duration := if given <=? 0 then usage_defaultTTL else given.

Definition usage_at (now : time) (team : string) (d : gate_db) : gmap string Z :=
  match usages d !! usage_key team with Some h => if alive now (u_expires h) then u_fields h else ∅ | None => ∅ end.

(** HINCRBY refuses to leave the 64-bit integers. *)
Definition HIncrBy (field : string) (by_ : Z) (h : gmap string Z) : bool * gmap string Z :=
  let n := default 0 (h !! field) + by_ in
  if bool_decide (in_int64 n) then (true, <[field := n]> h) else (false, h).

(** The MULTI of [Add]: every command is run, and the first failure reported. *)
Definition usage_Add (ttl : duration) (team : string) (promptTokens completionTokens : Z) (now : time) (d : gate_db) : result unit gw_error * gate_db :=
  let h := usage_at now team d in
  let '(ok1, h) := if 0 <? promptTokens then HIncrBy fieldPrompt promptTokens h else (true, h) in
  let '(ok2, h) := if 0 <? completionTokens then HIncrBy fieldCompletion completionTokens h else (true, h) in
  (if ok1 && ok2 then Ok tt else Err (External "increment or decrement would overflow"),
   if bool_decide (h = ∅) then d else with_usage (usage_key team) {| u_fields := h; u_expires := now + usage_ttl ttl |} d).

(** HMGET of both fields: prompt, completion and their sum. *)
Definition usage_Get (team : string) (now : time) (d : gate_db) : Z * Z * Z :=
  let h := usage_at now team d in
  let prompt := default 0 (h !! fieldPrompt) in
  let completion := default 0 (h !! fieldCompletion) in
  (prompt, completion, wrap64 (prompt + completion)).

(** ** The semantic cache (redis_cache.go) *)

Record cache_config := { MaxEntries : Z; TTL : duration }.

Definition defaultMaxEntries : Z := 256.
Definition cache_defaultTTL : duration := 24 * Hour.
Definition maxEntries (c : cache_config) : nat := Z.to_nat (if MaxEntries c <=? 0 then defaultMaxEntries else MaxEntries c).
Definition cache_ttl (c : cache_config) : duration := if TTL c <=? 0 then cache_defaultTTL else TTL c.
Definition cache_key (team : string) : string := "ai:cache:" +:+ team.

(** An entry as it is written: the usage flattened, the provider as its code. *)
Record storedEntry := {
  se_Embedding : list float64; se_Prompt : string; se_Response : string; se_PromptTokens : Z; se_CompletionTokens : Z; se_TotalTokens : Z;
  se_CostMicroUSD : Z; se_ServedBy : Z;
}.

(** [json.Marshal] and [json.Unmarshal] of an entry. *)
Class EntryJSON : Type := { encode_entry : storedEntry -> option string; decode_entry : string -> option storedEntry }.

Definition toDomain (se : storedEntry) : CachedCompletion := {|
  Embedding := se_Embedding se; Prompt := se_Prompt se; Response := se_Response se;
  cc_Usage := {| PromptTokens := se_PromptTokens se; CompletionTokens := se_CompletionTokens se; TotalTokens := se_TotalTokens se; CostMicroUSD := se_CostMicroUSD se |};
  cc_ServedBy := kind_of_code (se_ServedBy se) |}.

Definition fromDomain (e : CachedCompletion) : storedEntry := {|
  se_Embedding := Embedding e; se_Prompt := Prompt e; se_Response := Response e; se_PromptTokens := PromptTokens (cc_Usage e);
  se_CompletionTokens := CompletionTokens (cc_Usage e); se_TotalTokens := TotalTokens (cc_Usage e); se_CostMicroUSD := CostMicroUSD (cc_Usage e);
  se_ServedBy := kind_code (cc_ServedBy e) |}.

Lemma toDomain_fromDomain e : toDomain (fromDomain e) = e.
Proof. destruct e as [em p r [] k]. unfold toDomain, fromDomain. cbn. by rewrite kind_of_kind_code. Qed.

Section cache.
Context `{EntryJSON}.

(** LRANGE 0 (maxEntries - 1) *)
Definition blobs_at (c : cache_config) (team : string) (now : time) (d : gate_db) : list string :=
  match caches d !! cache_key team with Some l => if alive now (l_expires l) then take (maxEntries c) (l_blobs l) else [] | None => [] end.

(** Blobs that cannot be decoded are skipped. *)
Definition entries_of (blobs : list string) : list CachedCompletion := omap (fun blob => toDomain <$> decode_entry blob) blobs.

Definition nearest_entry (embedding : list float64) (blobs : list string) : option (CachedCompletion * float64) :=
  let entries := entries_of blobs in
  match NearestByCosine embedding entries with
  | Some (idx, sim) => (fun e => (e, sim)) <$> entries !! idx
  | None => None
  end.

(** The MULTI of [Store]: LPUSH, LTRIM, EXPIRE. *)
Definition push_blob (c : cache_config) (team blob : string) (now : time) (d : gate_db) : gate_db :=
  let old := match caches d !! cache_key team with Some l => if alive now (l_expires l) then l_blobs l else [] | None => [] end in
  with_cache (cache_key team) {| l_blobs := take (maxEntries c) (blob :: old); l_expires := now + cache_ttl c |} d.
End cache.

(** ** The breakers (breaker_registry.go)

    The breaker is that of the inference gateway with thresholds of its own: the file
    [circuit_breaker.go] is the same text but for the defaults. *)

Record BreakerTuning := { FailureThreshold : Z; SuccessThreshold : Z; ResetTimeout : duration; HalfOpenMaxProbes : Z }.

Definition ai_defaultBreakerConfig : breakerConfig := {| failureThreshold := 3; successThreshold := 1; resetTimeout := 30 * Second; halfOpenMaxProbes := 1 |}.

Definition NewBreakerRegistry (t : BreakerTuning) : breakerConfig := {|
  failureThreshold := if 0 <? FailureThreshold t then FailureThreshold t else failureThreshold ai_defaultBreakerConfig;
  successThreshold := if 0 <? SuccessThreshold t then SuccessThreshold t else successThreshold ai_defaultBreakerConfig;
  resetTimeout := if 0 <? ResetTimeout t then ResetTimeout t else resetTimeout ai_defaultBreakerConfig;
  halfOpenMaxProbes := if 0 <? HalfOpenMaxProbes t then HalfOpenMaxProbes t else halfOpenMaxProbes ai_defaultBreakerConfig |}.

(** [Get]: the breaker of a kind is created closed the first time. *)
Definition get_breaker (cfg : breakerConfig) (k : ProviderKind) (now : time) (d : gate_db) : gate_db :=
  match breakers d !! k with Some _ => d | None => with_breaker_of k (newCircuitBreaker cfg now) d end.

(** An operation on the breaker that [Get] answered. *)
Definition on_breaker {A} (k : ProviderKind) (dflt : A) (f : CircuitBreaker -> A * CircuitBreaker) (d : gate_db) : A * gate_db :=
  match breakers d !! k with Some b => let '(a, b) := f b in (a, with_breaker_of k b d) | None => (dflt, d) end.

(** ** Sections that read a clock

    An operation under a mutex reads the clock while it holds it, and a script reads Redis's.
    An operation that does not look at the clock draws the readings all the same. *)

Class GateClocks (W : Type) : Type := { redis_now : W -> time * W }.

Section sections.
Context {W : Type} `{Outside W, GateClocks W}.
Abbreviation call := (prog (site W gate_db)).

(** An operation of a breaker: one reading for its test, one for its transition. *)
Definition guarded {R} (f : time -> time -> gate_db -> R * gate_db) : call R :=
  atom (fun s =>
    let '(now, w) := Now (s_world s) in
    let '(now', w) := Now w in
    let '(r, d) := f now now' (s_db s) in (r, {| s_world := w; s_db := d |})).

(** A command of Redis, over a link that may refuse it or lose its answer. *)
Definition redis {R} (f : time -> gate_db -> R * gate_db) : call (result R gw_error) :=
  atom (fun s =>
    let '(now, w) := redis_now (s_world s) in
    let '(fate, w) := link w in
    match fate with
    | Works => let '(r, d) := f now (s_db s) in (Ok r, {| s_world := w; s_db := d |})
    | Refused => (Err (External "connection refused"), {| s_world := w; s_db := s_db s |})
    | AckLost => let '(r, d) := f now (s_db s) in (Err (External "connection lost"), {| s_world := w; s_db := d |})
    end).

Variable R : regime gate_db.
#[local] Notation grows := (keeps R).

Lemma safe_guarded {A X} base (f : time -> time -> gate_db -> X * gate_db) (k : X -> call A) post :
  (forall l now now', grows base l -> ((f now now' l).2 = l \/ write R l (f now now' l).2) /\ safe R (f now now' l).2 (k (f now now' l).1) post) ->
  safe R base (do! x := guarded f in k x) post.
Proof.
  intros Hk s Hs s1 H1 r s2 Hf. cbn [guarded atom] in Hf.
  assert (grows base (s_db s1)) as Hb by (etrans; [exact Hs | by apply site_steps_keep]).
  destruct (Now (s_world s1)) as [now w]. destruct (Now w) as [now' w']. destruct (Hk (s_db s1) now now' Hb) as [Hw Hr].
  destruct (f now now' (s_db s1)) as [x l]. cbn [fst snd] in *. injection Hf as <- <-. split; [exact Hw | by apply Hr].
Qed.

Lemma safe_redis {A X} base (f : time -> gate_db -> X * gate_db) (k : result X gw_error -> call A) post :
  (forall l now, grows base l -> ((f now l).2 = l \/ write R l (f now l).2) /\ safe R (f now l).2 (k (Ok (f now l).1)) post /\
     forall text, safe R l (k (Err (External text))) post) ->
  safe R base (do! x := redis f in k x) post.
Proof.
  intros Hk s Hs s1 H1 r s2 Hf. cbn [redis atom] in Hf.
  assert (grows base (s_db s1)) as Hb by (etrans; [exact Hs | by apply site_steps_keep]).
  destruct (redis_now (s_world s1)) as [now w]. destruct (link w) as [fate w']. destruct (Hk (s_db s1) now Hb) as (Hw & Hok & Hno).
  assert (grows (s_db s1) (f now (s_db s1)).2) as Hg by (destruct Hw as [-> | Hw]; [reflexivity | by apply (write_keeps _ R)]).
  destruct (f now (s_db s1)) as [x l]. cbn [fst snd] in *. destruct s1 as [w1 l1]. destruct fate; injection Hf as <- <-; cbn [s_db] in *.
  - split; [exact Hw |]. by apply Hok.
  - split; [by left |]. by apply Hno.
  - split; [exact Hw |]. apply (Hno "connection lost"). exact Hg.
Qed.
End sections.
