(* ===== verification/Gateway.v ===== *)
(** * AI gateway: chat completions

    [services/ai-gateway/internal/domain/gateway_service.go] and the calls of
    [internal/handler/rpcs.go] as programs of clock readings, Redis commands, sections of the
    breakers, provider calls and frames that are sent, so that calls interleave section by
    section. A call keeps notes of what it heard and sent: which provider answered what, and
    the frames that went to the client with whether the client took them. *)

From S2P Require Import Prelude CircuitBreaker Concur Site GoText GoFormat GoNet GoFloat AuditCapture GateModel GateStore.
Open Scope fp_scope.

(** ** What is outside: the embedder, the publisher, and ids of requests *)

Class GateOutside (W : Type) : Type := {
  gate_clocks :: GateClocks W;
  Embed : string -> W -> result (list float64) string * W;
  publish_event : gw_event -> W -> option string * W;
}.

(** ** The service's parts (ServiceDeps); [None] and [false] stand for nil *)

Record gateway (W : Type) := {
  g_providers : list (Provider W); g_breakers : breakerConfig; g_budget : option budget_config; g_usage : option duration;
  g_cache : option cache_config; g_threshold : float64; g_allow : AllowList; g_publisher : bool; g_evalIncludeText : bool;
}.
Arguments g_providers {W} _.
Arguments g_breakers {W} _.
Arguments g_budget {W} _.
Arguments g_usage {W} _.
Arguments g_cache {W} _.
Arguments g_threshold {W} _.
Arguments g_allow {W} _.
Arguments g_publisher {W} _.
Arguments g_evalIncludeText {W} _.

Definition defaultCacheThreshold : float64 := f_div (f_of_int 95) (f_of_int 100).
Definition cacheThreshold (given : float64) : float64 := if f_le given f_zero then defaultCacheThreshold else given.

(** ** Notes of a call *)

Inductive note := Asked (k : ProviderKind) (answer : result (list Delta) string) | Sent (d : Delta) (taken : bool).

(** The text that the client took. *)
Fixpoint heard_text (notes : list note) : string :=
  match notes with
  | [] => ""
  | Sent d true :: notes => Text d +:+ heard_text notes
  | _ :: notes => heard_text notes
  end.

Definition errorFrame : Delta := end_frame no_usage FinishReasonError.

Definition wrapFailover (cause : gw_error) : gw_error :=
  if errors_is cause ErrAllProvidersFailed then Sentinel ErrAllProvidersFailed else Wrap "all providers failed" (Sentinel ErrAllProvidersFailed).

(** How the loop over the candidates ends. *)
Inductive attempt :=
| Served (k : ProviderKind) (usage : TokenUsage) (finish : FinishReason)
| NoneServed (lastErr : gw_error)
| StreamAborted (k : ProviderKind) (err : gw_error)
| ClientGone (k : ProviderKind) (err : gw_error).

Section service.
Context {W : Type} `{Outside W, GateOutside W, EntryJSON, CaseTables}.
Variable g : gateway W.
Variable send : Delta -> W -> bool * W.

Abbreviation call := (prog (site W gate_db)).

(** ** One provider (streamOne) *)

Definition aborted (text : string) (forwarded : bool) : gw_error :=
  if forwarded then Wrap text (Sentinel errStreamAborted) else Sentinel ErrAllProvidersFailed.

Fixpoint forward (forwarded : bool) (ds : list Delta) : call (list note * result (TokenUsage * FinishReason) gw_error) :=
  match ds with
  | [] => Ret ([], Err (aborted "channel closed without terminal frame" forwarded))
  | d :: ds =>
      if Done d then
        if bool_decide (d_FinishReason d = FinishReasonError) then Ret ([], Err (aborted "in-band error frame" forwarded))
        else Ret ([], Ok (d_Usage d, d_FinishReason d))
      else
        do! taken := ask (send d) in
        if taken then do! (notes, r) := forward true ds in Ret (Sent d true :: notes, r)
        else Ret ([Sent d false], Err (Sentinel errSinkFailed))
  end.

Definition streamOne (p : Provider W) (req : ChatRequest) : call (list note * result (TokenUsage * FinishReason) gw_error) :=
  do! ch := ask (Chat p req) in
  match ch with
  | Err err => Ret ([Asked (Kind p) (Err err)], Err (External err))
  | Ok ds => do! (notes, r) := forward false ds in Ret (Asked (Kind p) (Ok ds) :: notes, r)
  end.

(** ** The breakers *)

Definition Get (k : ProviderKind) : call unit := guarded (fun now _ d => (tt, get_breaker (g_breakers g) k now d)).
Definition Allow (k : ProviderKind) : call bool := guarded (fun now now' => on_breaker k false (CircuitBreaker.Allow now now')).
Definition RecordSuccess (k : ProviderKind) : call unit := guarded (fun now _ => on_breaker k tt (fun b => (tt, CircuitBreaker.RecordSuccess now b))).
Definition RecordFailure (k : ProviderKind) : call unit := guarded (fun now _ => on_breaker k tt (fun b => (tt, CircuitBreaker.RecordFailure now b))).

(** [breakerRegistry.State]: no breaker is created. *)
Definition State (k : ProviderKind) : call CircuitState := guarded (fun now now' => on_breaker k CircuitClosed (CircuitBreaker.State now now')).

(** ** Route and failover: the loop over the candidates *)

Fixpoint failover (req : ChatRequest) (candidates : list (Provider W)) (lastErr : gw_error) : call (list note * attempt) :=
  match candidates with
  | [] => Ret ([], NoneServed lastErr)
  | p :: candidates =>
      do! _ := Get (Kind p) in
      do! allowed := Allow (Kind p) in
      if allowed then
        do! (notes, r) := streamOne p req in
        match r with
        | Err err =>
            if errors_is err errSinkFailed then Ret (notes, ClientGone (Kind p) err)
            else if errors_is err errStreamAborted then
              do! _ := RecordFailure (Kind p) in
              do! taken := ask (send errorFrame) in
              Ret (notes ++ [Sent errorFrame taken], StreamAborted (Kind p) err)
            else
              do! _ := RecordFailure (Kind p) in
              do! (more, a) := failover req candidates err in
              Ret (notes ++ more, a)
        | Ok (u, fr) =>
            do! _ := RecordSuccess (Kind p) in
            Ret (notes, Served (Kind p) u fr)
        end
      else failover req candidates lastErr
  end.

(** ** The stores as the service calls them *)

(** [Check]: only an answer that says no refuses. *)
Definition within_budget (team : string) : call bool :=
  match g_budget g with
  | Some c =>
      if String.eqb team "" || (Budget c <=? 0) then Ret true
      else do! r := redis (budgetScript c team 0) in Ret (match r with Ok (allowed, _) => allowed | Err _ => true end)
  | None => Ret true
  end.

Definition deduct (team : string) (tokens : Z) : call unit :=
  match g_budget g with
  | Some c =>
      if String.eqb team "" || (tokens <=? 0) || (Budget c <=? 0) then Ret tt
      else do! _ := redis (budgetScript c team tokens) in Ret tt
  | None => Ret tt
  end.

Definition add_usage (team : string) (u : TokenUsage) : call unit :=
  match g_usage g with
  | Some ttl =>
      if String.eqb team "" || (TotalTokens u <=? 0) then Ret tt
      else if (PromptTokens u <=? 0) && (CompletionTokens u <=? 0) then Ret tt
      else do! _ := redis (usage_Add ttl team (PromptTokens u) (CompletionTokens u)) in Ret tt
  | None => Ret tt
  end.

Definition publish (ev : gw_event) : call unit :=
  if g_publisher g then do! _ := logged (publish_event ev) (with_emitted ev) in Ret tt else Ret tt.

(** The cache stage: the query's embedding where there is one, and the entry that hits. *)
Definition cache_stage (c : cache_config) (team promptText : string) : call (option (list float64) * option CachedCompletion) :=
  do! vec := ask (Embed promptText) in
  match vec with
  | Err _ => Ret (None, None)
  | Ok vec =>
      do! blobs := redis (fun now d => (blobs_at c team now d, d)) in
      Ret (Some vec,
           match blobs with
           | Ok blobs =>
               match nearest_entry vec blobs with
               | Some (entry, similarity) => if f_le (cacheThreshold (g_threshold g)) similarity then Some entry else None
               | None => None
               end
           | Err _ => None
           end)
  end.

Definition store_entry (c : cache_config) (team : string) (entry : CachedCompletion) : call unit :=
  match encode_entry (fromDomain entry) with
  | None => Ret tt
  | Some blob => do! _ := redis (fun now d => (tt, push_blob c team blob now d)) in Ret tt
  end.

Definition milliseconds (d : duration) : Z := Z.quot d 1000000.

Definition served_event (team : string) (req : ChatRequest) (k : ProviderKind) (u : TokenUsage) (hit : bool) (latency : duration) (prompt response : string)
    : CompletionServed := {|
  ev_RequestID := RequestID req; ev_Team := team; ev_Model := Model req; ev_Provider := k; ev_PromptTokens := PromptTokens u;
  ev_OutputTokens := CompletionTokens u; ev_TotalTokens := TotalTokens u; ev_CostMicroUSD := CostMicroUSD u; ev_CacheHit := hit;
  ev_LatencyMs := milliseconds latency;
  ev_PromptText := if g_evalIncludeText g then prompt else ""; ev_ResponseText := if g_evalIncludeText g then response else "" |}.

Definition with_total (u : TokenUsage) : TokenUsage := {|
  PromptTokens := PromptTokens u; CompletionTokens := CompletionTokens u; TotalTokens := wrap32 (PromptTokens u + CompletionTokens u); CostMicroUSD := CostMicroUSD u |}.

Definition priced (k : ProviderKind) (u : TokenUsage) : TokenUsage := {|
  PromptTokens := PromptTokens u; CompletionTokens := CompletionTokens u; TotalTokens := wrap32 (PromptTokens u + CompletionTokens u);
  CostMicroUSD := costMicroUSD k (PromptTokens u) (CompletionTokens u) |}.

Definition finishCacheHit (team : string) (req : ChatRequest) (entry : CachedCompletion) (latency : duration) : call Completion :=
  let usage := with_total (cc_Usage entry) in
  do! _ := publish (ServedEvent (served_event team req (cc_ServedBy entry) usage true latency (Prompt entry) (Response entry))) in
  Ret {| ServedBy := cc_ServedBy entry; c_Usage := usage; c_FinishReason := FinishReasonStop; CacheHit := true; Latency := latency |}.

(** ** ChatCompletion *)

(** A call's notes, its completion, and the error. *)
Definition chat : Type := (list note * Completion * option gw_error)%type.

Definition failed_by (k : ProviderKind) (latency : duration) : Completion := {|
  ServedBy := k; c_Usage := no_usage; c_FinishReason := FinishReasonError; CacheHit := false; Latency := latency |}.

(** What follows a stream that ended well. *)
Definition settle (team : string) (req : ChatRequest) (queryEmbedding : option (list float64)) (promptText : string) (notes : list note)
    (k : ProviderKind) (u : TokenUsage) (fr : FinishReason) (latency : duration) : call chat :=
  let usage := priced k u in
  let responseText := heard_text notes in
  do! _ := deduct team (TotalTokens usage) in
  do! _ := add_usage team usage in
  do! _ := match g_cache g, queryEmbedding with
           | Some c, Some vec =>
               if String.eqb responseText "" then Ret tt
               else store_entry c team {| Embedding := vec; Prompt := promptText; Response := responseText; cc_Usage := usage; cc_ServedBy := k |}
           | _, _ => Ret tt
           end in
  do! _ := publish (ServedEvent (served_event team req k usage false latency
             (if String.eqb promptText "" then promptForEmbedding (Messages req) else promptText) responseText)) in
  Ret (notes, {| ServedBy := k; c_Usage := usage; c_FinishReason := fr; CacheHit := false; Latency := latency |}, None).

(** Stages 4 to 6: warm, route, settle. *)
Definition route (team : string) (req : ChatRequest) (queryEmbedding : option (list float64)) (promptText : string) : call chat :=
  let candidates := Candidates (g_providers g) (cr_Provider req) (Model req) in
  do! _ := publish (WarmEvent {| w_RequestID := RequestID req; w_Team := team; w_Model := Model req;
                                 w_Provider := match candidates with p :: _ => Kind p | [] => ProviderKindUnspecified end |}) in
  match candidates with
  | [] =>
      do! taken := ask (send errorFrame) in
      Ret ([Sent errorFrame taken], failed_by ProviderKindUnspecified 0, Some (Sentinel ErrNoProvider))
  | _ :: _ =>
      do! start := ask Now in
      do! (notes, a) := failover req candidates (Sentinel ErrAllProvidersFailed) in
      match a with
      | ClientGone k err => Ret (notes, failed_by k 0, Some err)
      | StreamAborted k err =>
          do! now := ask Now in
          Ret (notes, failed_by k (time_sub now start), Some (wrapFailover err))
      | NoneServed lastErr =>
          do! now := ask Now in
          do! taken := ask (send errorFrame) in
          Ret (notes ++ [Sent errorFrame taken], failed_by ProviderKindUnspecified (time_sub now start), Some (wrapFailover lastErr))
      | Served k u fr =>
          do! now := ask Now in
          settle team req queryEmbedding promptText notes k u fr (time_sub now start)
      end
  end.

Definition refuse (err : gw_sentinel) : call chat := Ret ([], no_completion, Some (Sentinel err)).

Definition ChatCompletion (team : string) (req : ChatRequest) : call chat :=
  match Messages req with
  | [] => refuse ErrInvalidInput
  | _ :: _ =>
      if negb (Permits (g_allow g) (Model req) (cr_Provider req)) then refuse ErrModelNotAllowed
      else
        do! allowed := within_budget team in
        if negb allowed then refuse ErrBudgetExceeded
        else match g_cache g with
          | None => route team req None ""
          | Some c =>
              do! cacheStart := ask Now in
              let promptText := promptForEmbedding (Messages req) in
              do! (vec, hit) := cache_stage c team promptText in
              match hit with
              | Some entry =>
                  let finish notes := do! now := ask Now in
                                      do! completion := finishCacheHit team req entry (time_sub now cacheStart) in
                                      Ret (notes, completion, None) in
                  if String.eqb (Response entry) "" then finish []
                  else
                    do! taken := ask (send (text_frame (Response entry))) in
                    if taken then finish [Sent (text_frame (Response entry)) true]
                    else Ret ([Sent (text_frame (Response entry)) false], failed_by (cc_ServedBy entry) 0, Some (Sentinel errSinkFailed))
              | None => route team req vec promptText
              end
          end
  end.

(** ** Providers and Usage *)

Record ProviderSnapshot := { ps_Kind : ProviderKind; ps_Name : string; ps_Enabled : bool; ps_Models : list string; ps_CircuitState : CircuitState }.

Fixpoint Snapshot (ordered : list (Provider W)) : call (list ProviderSnapshot) :=
  match ordered with
  | [] => Ret []
  | p :: ordered =>
      do! state := State (Kind p) in
      do! rest := Snapshot ordered in
      Ret ({| ps_Kind := Kind p; ps_Name := kind_String (Kind p); ps_Enabled := true; ps_Models := Models p; ps_CircuitState := state |} :: rest)
  end.

Record UsageSummary := { us_PromptTokens : Z; us_CompletionTokens : Z; us_TotalTokens : Z; us_BudgetTokens : Z; us_RemainingTokens : Z }.
Definition no_summary : UsageSummary := {| us_PromptTokens := 0; us_CompletionTokens := 0; us_TotalTokens := 0; us_BudgetTokens := 0; us_RemainingTokens := 0 |}.

(** [RedisBudget.Usage]: consumed tokens and the budget. *)
Definition budget_Usage (c : budget_config) (team : string) : call (result (Z * Z) gw_error) :=
  if Budget c <=? 0 then Ret (Ok (0, 0))
  else
    do! r := redis (budgetScript c team 0) in
    Ret (match r with
         | Ok (_, remaining) => let consumed := wrap64 (Budget c - remaining) in Ok (if consumed <? 0 then 0 else consumed, Budget c)
         | Err err => Err err
         end).

Definition Usage (team : string) : call (result UsageSummary gw_error) :=
  if String.eqb team "" then Ret (Ok no_summary)
  else
    do! counted := match g_usage g with
                   | Some _ => redis (fun now d => (usage_Get team now d, d))
                   | None => Ret (Ok (0, 0, 0))
                   end in
    match counted with
    | Err err => Ret (Err err)
    | Ok (prompt, completion, total) =>
        match g_budget g with
        | None => Ret (Ok {| us_PromptTokens := prompt; us_CompletionTokens := completion; us_TotalTokens := total; us_BudgetTokens := 0; us_RemainingTokens := 0 |})
        | Some c =>
            do! r := budget_Usage c team in
            Ret (match r with
                 | Err err => Err err
                 | Ok (consumed, budget) =>
                     let remaining := wrap64 (budget - consumed) in
                     Ok {| us_PromptTokens := prompt; us_CompletionTokens := completion;
                           us_TotalTokens := match g_usage g with Some _ => total | None => consumed end;
                           us_BudgetTokens := budget; us_RemainingTokens := if remaining <? 0 then 0 else remaining |}
                 end)
        end
    end.
End service.

(** ** Published events (events/publisher.go) *)

Definition SubjectCompletionServed : string := "fp.ai.completion.served".
Definition SubjectWarmRequest : string := "fp.ai.warm.requested".

Record completionServedPayload := {
  pl_requestId : string; pl_team : string; pl_model : string; pl_provider : string; pl_promptTokens : Z; pl_outputTokens : Z; pl_totalTokens : Z;
  pl_costMicroUsd : Z; pl_cacheHit : bool; pl_latencyMs : Z; pl_promptText : string; pl_responseText : string;
}.
Record warmSignalPayload := { pw_requestId : string; pw_team : string; pw_model : string; pw_provider : string }.

(** What is published of an event, and where. *)
Definition PublishCompletionServed (ev : CompletionServed) : string * completionServedPayload := (SubjectCompletionServed, {|
  pl_requestId := ev_RequestID ev; pl_team := ev_Team ev; pl_model := ev_Model ev; pl_provider := kind_String (ev_Provider ev);
  pl_promptTokens := ev_PromptTokens ev; pl_outputTokens := ev_OutputTokens ev; pl_totalTokens := ev_TotalTokens ev;
  pl_costMicroUsd := ev_CostMicroUSD ev; pl_cacheHit := ev_CacheHit ev; pl_latencyMs := ev_LatencyMs ev;
  pl_promptText := ev_PromptText ev; pl_responseText := ev_ResponseText ev |}).

Definition PublishWarmSignal (ev : WarmSignal) : string * warmSignalPayload := (SubjectWarmRequest, {|
  pw_requestId := w_RequestID ev; pw_team := w_Team ev; pw_model := w_Model ev; pw_provider := kind_String (w_Provider ev) |}).

(** ** The handler (rpcs.go, mapping.go) *)

Record wire_frame := {
  wf_Delta : string; wf_Done : bool; wf_FinishReason : Z; wf_Usage : TokenUsage; wf_ServedBy : Z; wf_CacheHit : bool; wf_RequestId : string;
}.

Definition chatRoleToDomain (r : Z) : Role := if r =? 1 then RoleSystem else if r =? 2 then RoleUser else if r =? 3 then RoleAssistant else RoleUnspecified.
Definition providerKindToDomain (k : Z) : ProviderKind :=
  if k =? 1 then ProviderKindOllama else if k =? 2 then ProviderKindStub else if k =? 3 then ProviderKindOpenAI else if k =? 4 then ProviderKindAnthropic
  else ProviderKindUnspecified.
Definition providerKindToProto (k : ProviderKind) : Z :=
  match k with
  | ProviderKindOllama => 1 | ProviderKindStub => 2 | ProviderKindOpenAI => 3 | ProviderKindAnthropic => 4 | ProviderKindUnspecified => 0
  end.
Definition finishReasonToProto (r : FinishReason) : Z :=
  match r with
  | FinishReasonStop => 1 | FinishReasonLength => 2 | FinishReasonContentFilter => 3 | FinishReasonError => 4 | FinishReasonUnspecified => 0
  end.

Record chat_request := {
  rq_model : string; rq_messages : list (Z * string); rq_temperature : float64; rq_max_tokens : Z; rq_provider : Z;
}.

Definition chatRequestToDomain (req : chat_request) (requestID : string) : ChatRequest := {|
  Model := rq_model req; Messages := map (fun m => {| m_Role := chatRoleToDomain m.1; Content := m.2 |}) (rq_messages req);
  Temperature := rq_temperature req; MaxTokens := rq_max_tokens req; cr_Provider := providerKindToDomain (rq_provider req); RequestID := requestID |}.

(** The handler's sink sends the text of a delta in a frame that is not the last. *)
Definition delta_frame (requestID : string) (d : Delta) : wire_frame := {|
  wf_Delta := Text d; wf_Done := false; wf_FinishReason := 0; wf_Usage := no_usage; wf_ServedBy := 0; wf_CacheHit := false; wf_RequestId := requestID |}.

Definition terminalFrame (c : Completion) (requestID : string) : wire_frame := {|
  wf_Delta := ""; wf_Done := true; wf_FinishReason := finishReasonToProto (c_FinishReason c); wf_Usage := c_Usage c;
  wf_ServedBy := providerKindToProto (ServedBy c); wf_CacheHit := CacheHit c; wf_RequestId := requestID |}.

Definition CircuitState_String (s : CircuitState) : string :=
  match s with CircuitOpen => "OPEN" | CircuitHalfOpen => "HALF_OPEN" | CircuitClosed => "CLOSED" end.

Definition teamFromContext (claims : option Claims) : result string rpc_error :=
  match claims with
  | None => Err (Status Unauthenticated "missing team in authentication claims")
  | Some c => if String.eqb (c_Team c) "" then Err (Status Unauthenticated "missing team in authentication claims") else Ok (c_Team c)
  end.

(** The stream of a call: [None] when the client took the frame. *)
Class ChatStream (W : Type) : Type := { stream_Send : wire_frame -> W -> option rpc_error * W }.

Record provider_proto := { pp_kind : Z; pp_name : string; pp_enabled : bool; pp_circuit_state : string; pp_models : list string }.
Record usage_proto := { up_team : string; up_prompt : Z; up_completion : Z; up_total : Z; up_budget : Z; up_remaining : Z }.

Inductive gw_response :=
| RespChat (notes : list note) (last : option wire_frame)
| RespProviders (providers : list provider_proto)
| RespUsage (u : usage_proto).

Inductive gw_request := ReqChat (req : chat_request) | ReqListProviders | ReqGetUsage.

Section handler.
Context {W : Type} `{Outside W, GateOutside W, EntryJSON, CaseTables, ChatStream W}.
Variable g : gateway W.

Abbreviation call := (prog (site W gate_db)).

Definition send_delta (requestID : string) (d : Delta) (w : W) : bool * W :=
  let '(err, w) := stream_Send (delta_frame requestID d) w in (match err with None => true | Some _ => false end, w).

(** A call's answer: what it noted with the last frame, or a response, and the status. *)
Definition gw_reply : Type := (gw_response * option rpc_error)%type.

Definition finish_stream (notes : list note) (frame : wire_frame) : call gw_reply :=
  do! err := ask (stream_Send frame) in Ret (RespChat notes (Some frame), err).

Definition handleChatError (notes : list note) (err : gw_error) (completion : Completion) (requestID : string) : call gw_reply :=
  let status c msg := Ret (RespChat notes None, Some (Status c msg)) in
  if errors_is err ErrInvalidInput then status InvalidArgument "request has no messages"
  else if errors_is err ErrModelNotAllowed then status PermissionDenied "requested model or provider is not permitted"
  else if errors_is err ErrBudgetExceeded then status ResourceExhausted "team token budget exceeded"
  else if errors_is err ErrNoProvider then status FailedPrecondition "no eligible provider for the request"
  else if errors_is err ErrAllProvidersFailed then finish_stream notes (terminalFrame (failed_by (ServedBy completion) 0) requestID)
  else status Internal "completion stream aborted".

Definition h_ChatCompletion (team : string) (req : chat_request) : call gw_reply :=
  do! requestID := ask NewID in
  do! (notes, completion, err) := ChatCompletion g (send_delta requestID) team (chatRequestToDomain req requestID) in
  match err with
  | Some err => handleChatError notes err completion requestID
  | None => finish_stream notes (terminalFrame completion requestID)
  end.

Definition h_ListProviders : call gw_reply :=
  do! snaps := Snapshot (g_providers g) in
  Ret (RespProviders (map (fun s => {| pp_kind := providerKindToProto (ps_Kind s); pp_name := ps_Name s; pp_enabled := ps_Enabled s;
                                       pp_circuit_state := CircuitState_String (ps_CircuitState s); pp_models := ps_Models s |}) snaps), None).

Definition h_GetUsage (team : string) : call gw_reply :=
  do! r := Usage g team in
  Ret (match r with
       | Err _ => (RespProviders [], Some (Status Internal "failed to read team usage"))
       | Ok s => (RespUsage {| up_team := team; up_prompt := wrap32 (us_PromptTokens s); up_completion := wrap32 (us_CompletionTokens s);
                               up_total := wrap32 (us_TotalTokens s); up_budget := us_BudgetTokens s; up_remaining := us_RemainingTokens s |}, None)
       end).

(** The team comes from the claims; the list of providers asks for none. *)
Definition rpc (claims : option Claims) (req : gw_request) : call gw_reply :=
  match req with
  | ReqListProviders => h_ListProviders
  | ReqChat req =>
      match teamFromContext claims with Ok team => h_ChatCompletion team req | Err e => Ret (RespChat [] None, Some e) end
  | ReqGetUsage =>
      match teamFromContext claims with Ok team => h_GetUsage team | Err e => Ret (RespProviders [], Some e) end
  end.
End handler.
