(* ===== verification/GateSafety.v ===== *)
(** * The AI gateway under any interleaving

    What calls of any teams do to the breakers, to Redis and to the publisher, section by
    section, over links, providers and clients that may fail: what a client hears and from
    whom, whose keys change, and what becomes of a provider whose probe was lost. *)

From S2P Require Import Prelude CircuitBreaker Concur Site GoText GoFormat GoNet GoFloat AuditCapture GateModel GateProviders GateStore Gateway.
Open Scope fp_scope.

(** ** What is written *)

Definition event_team (ev : gw_event) : string := match ev with ServedEvent e => ev_Team e | WarmEvent e => w_Team e end.

(** A breaker all of whose probes are out. *)
Definition wedged (b : CircuitBreaker) : Prop := state b = CircuitHalfOpen /\ halfOpenMaxProbes (cfg b) <= halfOpenInFlight b.

#[export] Instance wedged_dec b : Decision (wedged b).
Proof. unfold wedged. apply _. Defined.

Lemma maybe_idle now now' b : state b = CircuitHalfOpen -> maybeHalfOpen now now' b = b.
Proof. intros Hs. unfold maybeHalfOpen. by rewrite bool_decide_eq_false_2 by congruence. Qed.

Lemma Allow_wedged now now' b : wedged b -> CircuitBreaker.Allow now now' b = (false, b).
Proof.
  intros [Hs Hp]. unfold CircuitBreaker.Allow. rewrite (maybe_idle now now' b Hs). cbv zeta. rewrite Hs.
  by replace (halfOpenInFlight b <? _) with false by (symmetry; apply Z.ltb_ge; lia).
Qed.

Lemma State_wedged now now' b : wedged b -> CircuitBreaker.State now now' b = (CircuitHalfOpen, b).
Proof. intros [Hs _]. unfold CircuitBreaker.State. rewrite (maybe_idle now now' b Hs). cbv zeta. by rewrite Hs. Qed.

Lemma budget_key_inj t t' : budget_key t = budget_key t' -> t = t'.
Proof. unfold budget_key. apply (inj (String.append _)). Qed.
Lemma usage_key_inj t t' : usage_key t = usage_key t' -> t = t'.
Proof. unfold usage_key. apply (inj (String.append _)). Qed.
Lemma cache_key_inj t t' : cache_key t = cache_key t' -> t = t'.
Proof. unfold cache_key. apply (inj (String.append _)). Qed.

Section writes.
Context `{EntryJSON}.
(** The teams that call, the providers that are not touched, and the answers that may be kept
    for a team. *)
Variables (callers : string -> Prop) (barred : ProviderKind -> Prop) (mine : string -> CachedCompletion -> Prop).

Inductive gate_write (l : gate_db) : gate_db -> Prop :=
| WBreaker k b : ~ barred k -> gate_write l (with_breaker_of k b l)
| WBucket team b : callers team -> gate_write l (with_bucket (budget_key team) b l)
| WUsage team h : callers team -> gate_write l (with_usage (usage_key team) h l)
| WCache c team e blob now : callers team -> encode_entry (fromDomain e) = Some blob -> mine team e -> gate_write l (push_blob c team blob now l)
| WEmit ev : callers (event_team ev) -> gate_write l (with_emitted ev l).

Definition gate_regime : regime gate_db.
Proof. refine {| write := gate_write; keeps := rtc gate_write |}. intros l l'. apply rtc_once. Defined.

#[local] Notation grows := (keeps gate_regime).

(** What such writes leave of a team that does not call, and of a provider that is barred. *)
Record untouched (team : string) (l l' : gate_db) : Prop := {
  same_bucket : budgets l' !! budget_key team = budgets l !! budget_key team;
  same_usage : usages l' !! usage_key team = usages l !! usage_key team;
  same_cache : caches l' !! cache_key team = caches l !! cache_key team;
}.

Lemma grows_untouched team l l' : ~ callers team -> grows l l' -> untouched team l l'.
Proof.
  intros Hn. induction 1 as [| l1 l2 l3 Hw _ [IH1 IH2 IH3]]; [done |].
  assert (untouched team l1 l2) as [E1 E2 E3].
  { destruct Hw as [k b _ | t b Ht | t h Ht | c t e blob now Ht _ _ | ev _]; split; try done;
      apply lookup_insert_ne; intros Hk; apply Hn.
    - apply budget_key_inj in Hk. by subst.
    - apply usage_key_inj in Hk. by subst.
    - apply cache_key_inj in Hk. by subst. }
  split; congruence.
Qed.

Lemma grows_barred k l l' : barred k -> grows l l' -> breakers l' !! k = breakers l !! k.
Proof.
  intros Hb. induction 1 as [| l1 l2 l3 Hw _ IH]; [done |]. rewrite IH. destruct Hw as [k' b Hk' | | | |]; try done.
  apply lookup_insert_ne. by intros ->.
Qed.

Lemma grows_emitted l l' : grows l l' -> exists evs, emitted l' = emitted l ++ evs /\ Forall (fun ev => callers (event_team ev)) evs.
Proof.
  induction 1 as [| l1 l2 l3 Hw _ (evs & -> & Hev)]; [exists []; split; [by rewrite app_nil_r | constructor] |].
  destruct Hw as [| | | | ev Ht]; try (by exists evs). exists (ev :: evs). cbn [emitted with_emitted]. rewrite <- app_assoc. split; [done | by constructor].
Qed.

(** Every entry that can be read from a team's key is the team's own. *)
Definition own_caches (d : gate_db) : Prop :=
  forall team cl blob se, caches d !! cache_key team = Some cl -> blob ∈ l_blobs cl -> decode_entry blob = Some se -> mine team (toDomain se).

(** What is read back of an entry that may be kept for a team may be kept for it. *)
Definition read_back : Prop := forall team se se' blob,
  encode_entry se = Some blob -> decode_entry blob = Some se' -> mine team (toDomain se) -> mine team (toDomain se').
Hypothesis decodes : read_back.

Lemma own_caches_push c team e blob now l :
  encode_entry (fromDomain e) = Some blob -> mine team e -> own_caches l -> own_caches (push_blob c team blob now l).
Proof.
  intros He Hm Ho t cl b se Hl Hb Hd. unfold push_blob in Hl. cbn [caches with_cache] in Hl. destruct (decide (cache_key team = cache_key t)) as [Hk | Hk].
  - rewrite <- Hk, lookup_insert_eq in Hl. injection Hl as <-. cbn [l_blobs] in Hb. apply elem_of_take in Hb as (i & Hb & _). apply list_elem_of_lookup_2 in Hb.
    apply cache_key_inj in Hk as ->. apply elem_of_cons in Hb as [-> | Hb].
    + apply (decodes t _ _ _ He Hd). by rewrite toDomain_fromDomain.
    + destruct (caches l !! cache_key t) as [cl|] eqn:Ec; [| by apply elem_of_nil in Hb]. destruct (alive now (l_expires cl)); [| by apply elem_of_nil in Hb].
      by eapply Ho.
  - rewrite lookup_insert_ne in Hl by done. by eapply Ho.
Qed.

Lemma grows_own l l' : grows l l' -> own_caches l -> own_caches l'.
Proof.
  induction 1 as [| l1 l2 l3 Hw _ IH]; [done |]. intros Ho. apply IH. destruct Hw; try done. by eapply own_caches_push.
Qed.

(** A hit is an entry of the list that was read. *)
Lemma nearest_entry_own team c now l vec e sim : own_caches l -> nearest_entry vec (blobs_at c team now l) = Some (e, sim) -> mine team e.
Proof.
  intros Ho. unfold nearest_entry. destruct (NearestByCosine _ _) as [[idx s]|]; [| done]. intros He.
  destruct (entries_of _ !! idx) as [e'|] eqn:El; [| done]. injection He as <- _. apply list_elem_of_lookup_2 in El.
  unfold entries_of in El. apply list_elem_of_omap in El as (blob & Hb & Hd). destruct (decode_entry blob) as [se|] eqn:Es; [| done]. injection Hd as <-.
  unfold blobs_at in Hb. destruct (caches l !! cache_key team) as [cl|] eqn:Ec; [| by apply elem_of_nil in Hb].
  destruct (alive now (l_expires cl)); [| by apply elem_of_nil in Hb]. apply elem_of_take in Hb as (i & Hb & _). apply list_elem_of_lookup_2 in Hb. by eapply Ho.
Qed.
End writes.

(** ** What a call notes *)

Definition took (d : Delta) : note := Sent d true.
Definition going (d : Delta) : Prop := Done d = false.
Definition fails (d : Delta) : Prop := Done d = true /\ d_FinishReason d = FinishReasonError.

(** An attempt of which the client hears nothing. *)
Definition silent (n : note) : Prop :=
  match n with
  | Asked _ (Err _) => True
  | Asked _ (Ok ds) => ds = [] \/ exists d rest, ds = d :: rest /\ fails d
  | Sent _ _ => False
  end.

(** The texts of frames in order. *)
Fixpoint texts (ds : list Delta) : string := match ds with [] => "" | d :: ds => Text d +:+ texts ds end.

Lemma heard_took ds notes : heard_text (map took ds ++ notes) = texts ds +:+ heard_text notes.
Proof. induction ds as [|d ds IH]; [done |]. cbn [map app heard_text took texts]. by rewrite IH, string_app_assoc. Qed.

Lemma heard_took_all ds : heard_text (map took ds) = texts ds.
Proof. induction ds as [|d ds IH]; [done |]. cbn [map heard_text took texts]. by rewrite IH. Qed.

Lemma heard_silent quiet notes : Forall silent quiet -> heard_text (quiet ++ notes) = heard_text notes.
Proof. induction 1 as [|n quiet Hn _ IH]; [done |]. by destruct n as [k r | d []]; cbn [app heard_text]. Qed.

(** What [forward] notes of the frames [ds], after some or none were forwarded before. *)
Definition forward_post (before : bool) (ds : list Delta) (notes : list note) (r : result (TokenUsage * FinishReason) gw_error) : Prop :=
  exists went rest, ds = went ++ rest /\ Forall going went /\
  match r with
  | Ok (u, fr) => notes = map took went /\ exists d rest', rest = d :: rest' /\ Done d = true /\ d_FinishReason d <> FinishReasonError /\ u = d_Usage d /\ fr = d_FinishReason d
  | Err e =>
      (exists d rest', rest = d :: rest' /\ going d /\ notes = map took went ++ [Sent d false] /\ e = Sentinel errSinkFailed) \/
      (notes = map took went /\ (rest = [] \/ exists d rest', rest = d :: rest' /\ fails d) /\
       exists text, e = aborted text (before || negb (bool_decide (went = []))))
  end.

(** How a call that was routed ends. *)
Inductive routed (notes : list note) : attempt -> Prop :=
| RServed quiet k ds d rest :
    Forall silent quiet -> Forall going ds -> Done d = true -> d_FinishReason d <> FinishReasonError ->
    notes = quiet ++ Asked k (Ok (ds ++ d :: rest)) :: map took ds -> routed notes (Served k (d_Usage d) (d_FinishReason d))
| RNone lastErr : Forall silent notes -> errors_is lastErr errSinkFailed = false -> routed notes (NoneServed lastErr)
| RAborted quiet k ds rest taken err :
    Forall silent quiet -> Forall going ds -> ds <> [] -> rest = [] \/ (exists d rest', rest = d :: rest' /\ fails d) ->
    notes = quiet ++ Asked k (Ok (ds ++ rest)) :: map took ds ++ [Sent errorFrame taken] -> routed notes (StreamAborted k err)
| RGone quiet k ds d rest :
    Forall silent quiet -> Forall going ds -> going d ->
    notes = quiet ++ Asked k (Ok (ds ++ d :: rest)) :: map took ds ++ [Sent d false] -> routed notes (ClientGone k (Sentinel errSinkFailed)).

Lemma routed_served notes k u fr : routed notes (Served k u fr) -> exists quiet ds d rest,
  Forall silent quiet /\ Forall going ds /\ Done d = true /\ d_FinishReason d <> FinishReasonError /\
  u = d_Usage d /\ fr = d_FinishReason d /\ notes = quiet ++ Asked k (Ok (ds ++ d :: rest)) :: map took ds.
Proof. intros Hr. inversion Hr as [quiet k' ds d rest | | |]; subst. by exists quiet, ds, d, rest. Qed.

Lemma routed_quiet quiet notes a : Forall silent quiet -> routed notes a -> routed (quiet ++ notes) a.
Proof.
  intros Hq Hr. destruct Hr as [q k ds d rest H1 H2 H3 H4 -> | lastErr H1 H2 | q k ds rest taken err H1 H2 H3 H4 -> | q k ds d rest H1 H2 H3 ->].
  - apply (RServed _ (quiet ++ q) k ds d rest); try done; [by apply list.Forall_app | by rewrite app_assoc].
  - apply RNone; [by apply list.Forall_app | done].
  - apply (RAborted _ (quiet ++ q) k ds rest taken); try done; [by apply list.Forall_app | by rewrite app_assoc].
  - apply (RGone _ (quiet ++ q) k ds d rest); try done; [by apply list.Forall_app | by rewrite app_assoc].
Qed.

Section safety.
Context {W : Type} `{HO : Outside W, HG : GateOutside W, HE : EntryJSON, HC : CaseTables}.
Variables (callers : string -> Prop) (barred : ProviderKind -> Prop) (mine : string -> CachedCompletion -> Prop).
Hypothesis decodes : read_back mine.
Variable g : gateway W.
Variable base : gate_db.

Abbreviation call := (prog (site W gate_db)).
#[local] Abbreviation R := (gate_regime callers barred mine).
#[local] Abbreviation grows := (Site.keeps R).

(** What all calls start from. *)
Definition ready (d : gate_db) : Prop := own_caches mine d /\ forall k, barred k -> exists b, breakers d !! k = Some b /\ wedged b.
Hypothesis base_ready : ready base.

Lemma gate_ready_grows l : grows base l -> ready l.
Proof.
  destruct base_ready as [Ho Hw]. intros Hg. split; [by apply (grows_own callers barred mine decodes base) |].
  intros k Hk. rewrite (grows_barred callers barred mine k base l Hk Hg). by apply Hw.
Qed.

(** ** One provider *)

Variable send : Delta -> W -> bool * W.

Lemma safe_forward l before ds : grows base l ->
  safe R l (forward send before ds) (fun '(notes, r) _ => forward_post before ds notes r).
Proof.
  intros Hl. revert l before Hl. induction ds as [|d ds IH]; intros l before Hl; cbn [forward].
  - apply safe_ret. intros _ _. exists [], []. split; [done |]. split; [done |]. right. split; [done |]. split; [by left |].
    eexists. by rewrite orb_false_r.
  - destruct (Done d) eqn:Ed.
    + case_bool_decide as Ef; apply safe_ret; intros _ _; exists [], (d :: ds); (split; [done |]); (split; [done |]).
      * right. split; [done |]. split; [right; by exists d, ds |]. eexists. by rewrite orb_false_r.
      * split; [done |]. by exists d, ds.
    + apply safe_ask. intros [].
      * eapply safe_seq; [by apply (IH l true) |]. intros [notes r] l' (went & rest & -> & Hw & Hr). apply safe_ret. intros _ _.
        exists (d :: went), rest. split; [done |]. split; [by constructor |]. destruct r as [[u fr]|e].
        -- destruct Hr as [-> Hr]. by split.
        -- destruct Hr as [(d' & rest' & -> & Hd & -> & ->) | (-> & Hrest & text & ->)]; [left; by exists d', rest' | right].
           split; [done |]. split; [done |]. exists text. by rewrite orb_true_l, bool_decide_eq_false_2, orb_true_r.
      * apply safe_ret. intros _ _. exists [], (d :: ds). split; [done |]. split; [done |]. left. by exists d, ds.
Qed.

(** A provider among [ps] gave that answer to [req]. *)
Definition gave (req : ChatRequest) (ps : list (Provider W)) (k : ProviderKind) (answer : result (list Delta) string) : Prop :=
  exists p w, p ∈ ps /\ Kind p = k /\ ~ barred k /\ (Chat p req w).1 = answer.

Definition asked_of (req : ChatRequest) (ps : list (Provider W)) (n : note) : Prop :=
  match n with Asked k answer => gave req ps k answer | Sent _ _ => True end.

Lemma asked_of_sent req ps ds : Forall (asked_of req ps) (map took ds).
Proof. by apply list.Forall_fmap, list.Forall_true. Qed.

Lemma safe_streamOne l req ps p : grows base l -> p ∈ ps -> ~ barred (Kind p) ->
  safe R l (streamOne send p req) (fun '(notes, r) _ =>
    exists answer, gave req ps (Kind p) answer /\
    match answer with
    | Err err => notes = [Asked (Kind p) (Err err)] /\ r = Err (External err)
    | Ok ds => exists sent, notes = Asked (Kind p) (Ok ds) :: sent /\ forward_post false ds sent r
    end).
Proof.
  intros Hl Hp Hb. unfold streamOne. apply safe_ask_of. intros w.
  assert (gave req ps (Kind p) (Chat p req w).1) as Hg by (by exists p, w). destruct (Chat p req w).1 as [ds|err].
  - eapply safe_seq; [by apply safe_forward |]. intros [notes r] l' Hf. apply safe_ret. intros _ _. exists (Ok ds). split; [done |]. by exists notes.
  - apply safe_ret. intros _ _. by exists (Err err).
Qed.

(** ** Breakers *)

Lemma safe_op {A X} l k (dflt : X) (f : time -> time -> CircuitBreaker -> X * CircuitBreaker) (k' : X -> call A) post :
  ~ barred k -> grows base l -> (forall x l', grows l l' -> safe R l' (k' x) post) ->
  safe R l (do! x := guarded (fun now now' => on_breaker k dflt (f now now')) in k' x) post.
Proof.
  intros Hb Hl Hk. apply safe_guarded. intros l1 now now' Hg. unfold on_breaker. destruct (breakers l1 !! k) as [b|]; cbn [fst snd].
  - destruct (f now now' b) as [x b']. cbn [fst snd]. assert (write R l1 (with_breaker_of k b' l1)) as Hw by (by constructor).
    split; [by right |]. apply Hk. etrans; [exact Hg | by apply rtc_once].
  - split; [by left | by apply Hk].
Qed.

Lemma safe_Get {A} l k (k' : unit -> call A) post : grows base l -> (forall l', grows l l' -> safe R l' (k' tt) post) ->
  safe R l (do! x := Get g k in k' x) post.
Proof.
  intros Hl Hk. apply safe_guarded. intros l1 now now' Hg. cbn [fst snd]. unfold get_breaker.
  destruct (breakers l1 !! k) as [b|] eqn:Eb; [split; [by left | by apply Hk] |].
  assert (~ barred k) as Hb.
  { intros Hb. destruct (gate_ready_grows l1) as [_ Hw]; [by etrans |]. destruct (Hw k Hb) as (b & Hb' & _). congruence. }
  assert (write R l1 (with_breaker_of k (newCircuitBreaker (g_breakers g) now) l1)) as Hw by (by constructor).
  split; [by right |]. apply Hk. etrans; [exact Hg | by apply rtc_once].
Qed.

Lemma safe_Allow {A} `{!forall k, Decision (barred k)} l k (k' : bool -> call A) post : grows base l ->
  (forall allowed l', grows l l' -> (barred k -> allowed = false) -> safe R l' (k' allowed) post) -> safe R l (do! x := Allow k in k' x) post.
Proof.
  intros Hl Hk. destruct (decide (barred k)) as [Hb | Hb]; [| apply safe_op; [done | done | intros x l' Hg; by apply Hk]].
  apply safe_guarded. intros l1 now now' Hg. destruct (gate_ready_grows l1) as [_ Hw]; [by etrans |]. destruct (Hw k Hb) as (b & Eb & Hbw).
  unfold on_breaker. rewrite Eb, (Allow_wedged now now' b Hbw). cbn [fst snd].
  assert (with_breaker_of k b l1 = l1) as ->.
  { destruct l1. unfold with_breaker_of. cbn in *. by rewrite insert_id. }
  split; [by left | by apply Hk].
Qed.

(** ** The loop *)

Lemma safe_failover `{!forall k, Decision (barred k)} l req ps candidates lastErr : grows base l -> candidates ⊆ ps -> errors_is lastErr errSinkFailed = false ->
  safe R l (failover g send req candidates lastErr) (fun '(notes, a) _ => routed notes a /\ Forall (asked_of req ps) notes).
Proof.
  revert l lastErr. induction candidates as [|p candidates IH]; intros l lastErr Hl Hps He; cbn [failover].
  - apply safe_ret. intros _ _. split; [by apply RNone | constructor].
  - assert (candidates ⊆ ps) as Hrest by set_solver. assert (p ∈ ps) as Hp by set_solver.
    apply safe_Get; [done |]. intros l1 H1. apply safe_Allow; [by etrans |]. intros allowed l2 H2 Hb. destruct allowed.
    2: { apply IH; [by etrans; [| etrans] | done | done]. }
    assert (~ barred (Kind p)) as Hnb by (intros Hc; by discriminate Hb).
    assert (grows base l2) as Hl2 by (by etrans; [| etrans]).
    eapply safe_seq; [apply safe_grows, (safe_streamOne l2 req ps p); done |]. intros [notes r] l3 [H3 (answer & Hgave & Ha)].
    assert (grows base l3) as Hl3 by (by etrans).
    assert (forall err, errors_is err errSinkFailed = false -> Forall silent notes -> Forall (asked_of req ps) notes ->
      safe R l3 (do! _ := RecordFailure (Kind p) in do! (more, a) := failover g send req candidates err in Ret (notes ++ more, a))
        (fun '(notes, a) _ => routed notes a /\ Forall (asked_of req ps) notes)) as Hgo.
    { intros err Herr Hq Hasked. apply safe_op; [done | done |]. intros _ l4 H4. eapply safe_seq; [apply IH; [by etrans | done | exact Herr] |].
      intros [more a] l5 [Hr Hm]. apply safe_ret. intros _ _. split; [by apply routed_quiet | by apply list.Forall_app]. }
    destruct answer as [ds|err].
    + destruct Ha as (sent & -> & went & rest & -> & Hw & Hr). destruct r as [[u fr]|e].
      * destruct Hr as [-> (d & rest' & -> & Hd & Hf & -> & ->)]. apply safe_op; [done | done |]. intros _ l4 H4. apply safe_ret. intros _ _.
        split; [by eapply (RServed _ []) |]. constructor; [done | apply asked_of_sent].
      * destruct Hr as [(d & rest' & -> & Hd & -> & ->) | (-> & Hend & text & ->)].
        -- apply safe_ret. intros _ _. split; [by eapply (RGone _ []) |]. constructor; [done |].
           apply list.Forall_app. split; [apply asked_of_sent | by repeat constructor].
        -- cbn [orb]. case_bool_decide as Hwent; cbn [negb aborted errors_is].
           ++ subst went. cbn [map app] in *. apply Hgo; [done | | by repeat constructor]. constructor; [| constructor].
              cbn. destruct Hend as [-> | (d & rest' & -> & Hd)]; [by left | right; by exists d, rest'].
           ++ apply safe_op; [done | done |]. intros _ l4 H4. apply safe_ask. intros taken. apply safe_ret. intros _ _.
              split; [by eapply (RAborted _ []) |]. constructor; [done |]. apply list.Forall_app. split; [apply asked_of_sent | by repeat constructor].
    + destruct Ha as [-> ->]. cbn [errors_is]. apply Hgo; [done | by repeat constructor | by repeat constructor].
Qed.

(** ** A whole call *)

(** An answer that a provider of [req] could give in full, as it is kept. *)
Definition spoken (req : ChatRequest) (e : CachedCompletion) : Prop :=
  exists p w ds d rest, p ∈ Candidates (g_providers g) (cr_Provider req) (Model req) /\ Kind p = cc_ServedBy e /\
    (Chat p req w).1 = Ok (ds ++ d :: rest) /\ Forall going ds /\ Done d = true /\ d_FinishReason d <> FinishReasonError /\
    Response e = texts ds /\ Prompt e = promptForEmbedding (Messages req) /\ cc_Usage e = priced (cc_ServedBy e) (d_Usage d).

(** How a call of [team] ends: what it noted, its completion and its error. *)
Inductive chat_ends (team : string) (req : ChatRequest) : list note -> Completion -> option gw_error -> Prop :=
| CRefused err : err ∈ [ErrInvalidInput; ErrModelNotAllowed; ErrBudgetExceeded] -> chat_ends team req [] no_completion (Some (Sentinel err))
| CNoProvider taken :
    Candidates (g_providers g) (cr_Provider req) (Model req) = [] ->
    chat_ends team req [Sent errorFrame taken] (failed_by ProviderKindUnspecified 0) (Some (Sentinel ErrNoProvider))
| CHit e c :
    mine team e -> ServedBy c = cc_ServedBy e -> c_Usage c = with_total (cc_Usage e) -> c_FinishReason c = FinishReasonStop -> CacheHit c = true ->
    chat_ends team req (if String.eqb (Response e) "" then [] else [Sent (text_frame (Response e)) true]) c None
| CHitGone e :
    mine team e -> chat_ends team req [Sent (text_frame (Response e)) false] (failed_by (cc_ServedBy e) 0) (Some (Sentinel errSinkFailed))
| CServed notes k u fr c :
    routed notes (Served k u fr) -> Forall (asked_of req (Candidates (g_providers g) (cr_Provider req) (Model req))) notes ->
    ServedBy c = k -> c_Usage c = priced k u -> c_FinishReason c = fr -> CacheHit c = false -> chat_ends team req notes c None
| CNone notes lastErr taken latency :
    routed notes (NoneServed lastErr) -> Forall (asked_of req (Candidates (g_providers g) (cr_Provider req) (Model req))) notes ->
    chat_ends team req (notes ++ [Sent errorFrame taken]) (failed_by ProviderKindUnspecified latency) (Some (wrapFailover lastErr))
| CAborted notes k err latency :
    routed notes (StreamAborted k err) -> Forall (asked_of req (Candidates (g_providers g) (cr_Provider req) (Model req))) notes ->
    chat_ends team req notes (failed_by k latency) (Some (wrapFailover err))
| CGone notes k err :
    routed notes (ClientGone k err) -> Forall (asked_of req (Candidates (g_providers g) (cr_Provider req) (Model req))) notes ->
    chat_ends team req notes (failed_by k 0) (Some err).

Section call.
Variables (team : string) (req : ChatRequest).
Hypothesis calls : callers team.
Hypothesis keeps_own : forall e, spoken req e -> mine team e.

#[local] Notation ends := (fun '(notes, c, err) (_ : gate_db) => chat_ends team req notes c err).

Lemma safe_redis_write {A X} l (f : time -> gate_db -> X * gate_db) (k : result X gw_error -> call A) post :
  (forall l1 now, (f now l1).2 = l1 \/ write R l1 (f now l1).2) -> grows base l -> (forall r l', grows l l' -> safe R l' (k r) post) ->
  safe R l (do! x := redis f in k x) post.
Proof.
  intros Hf Hl Hk. apply safe_redis. intros l1 now Hg. pose proof (Hf l1 now) as Hw. split; [exact Hw |]. split; [| intros text; by apply Hk].
  apply Hk. etrans; [exact Hg |]. destruct Hw as [-> | Hw]; [reflexivity | by apply rtc_once].
Qed.

Lemma budget_written c spend l now : write R l (budgetScript c team spend now l).2.
Proof. unfold budgetScript. destruct (spend <=? 0); cbn [snd]; by constructor. Qed.

Lemma usage_written ttl p c l now : (usage_Add ttl team p c now l).2 = l \/ write R l (usage_Add ttl team p c now l).2.
Proof.
  unfold usage_Add. destruct (if 0 <? p then _ else _) as [ok1 h1]. destruct (if 0 <? c then _ else _) as [ok2 h2]. cbn [snd].
  case_bool_decide; [by left | right; by constructor].
Qed.

Lemma safe_gate_publish {A} l ev (k : unit -> call A) post : event_team ev = team -> grows base l -> (forall l', grows l l' -> safe R l' (k tt) post) ->
  safe R l (do! x := publish g ev in k x) post.
Proof.
  intros He Hl Hk. unfold publish. destruct (g_publisher g); [| by apply Hk]. change (pbind (pbind ?m ?a) ?b) with (pbind m (fun x => pbind (a x) b)).
  apply safe_logged. intros l1 Hg. assert (write R l1 (with_emitted ev l1)) as Hw by (constructor; by rewrite He).
  split; [exact Hw |]. intros _. apply Hk. etrans; [exact Hg | by apply rtc_once].
Qed.

Lemma safe_deduct {A} l tokens (k : unit -> call A) post : grows base l -> (forall l', grows l l' -> safe R l' (k tt) post) ->
  safe R l (do! x := deduct g team tokens in k x) post.
Proof.
  intros Hl Hk. unfold deduct. destruct (g_budget g) as [c|]; [| by apply Hk]. destruct (_ || _); [by apply Hk |].
  apply safe_redis_write; [intros; right; apply budget_written | done |]. intros _ l' Hg. by apply Hk.
Qed.

Lemma safe_add_usage {A} l u (k : unit -> call A) post : grows base l -> (forall l', grows l l' -> safe R l' (k tt) post) ->
  safe R l (do! x := add_usage g team u in k x) post.
Proof.
  intros Hl Hk. unfold add_usage. destruct (g_usage g) as [ttl|]; [| by apply Hk]. destruct (_ || _); [by apply Hk |]. destruct (_ && _); [by apply Hk |].
  apply safe_redis_write; [intros; apply usage_written | done |]. intros _ l' Hg. by apply Hk.
Qed.

Lemma safe_store_entry {A} l c e (k : unit -> call A) post : mine team e -> grows base l -> (forall l', grows l l' -> safe R l' (k tt) post) ->
  safe R l (do! x := store_entry c team e in k x) post.
Proof.
  intros He Hl Hk. unfold store_entry. destruct (encode_entry (fromDomain e)) as [blob|] eqn:Eb; [| by apply Hk].
  apply safe_redis_write; [intros l1 now; right; by econstructor | done |]. intros _ l' Hg. by apply Hk.
Qed.

Lemma safe_gate_settle l vec promptText notes k u fr latency : grows base l ->
  routed notes (Served k u fr) -> Forall (asked_of req (Candidates (g_providers g) (cr_Provider req) (Model req))) notes ->
  (vec <> None -> promptText = promptForEmbedding (Messages req)) ->
  safe R l (settle g team req vec promptText notes k u fr latency) ends.
Proof.
  intros Hl Hr Ha Hp. unfold settle. cbv zeta. apply safe_deduct; [done |]. intros l1 G1. apply safe_add_usage; [by etrans |]. intros l2 G2.
  assert (forall l3, grows l2 l3 -> safe R l3 (do! _ := publish g (ServedEvent (served_event g team req k (priced k u) false latency
            (if String.eqb promptText "" then promptForEmbedding (Messages req) else promptText) (heard_text notes))) in
      Ret (notes, {| ServedBy := k; c_Usage := priced k u; c_FinishReason := fr; CacheHit := false; Latency := latency |}, None)) ends) as Hend.
  { intros l3 G3. apply safe_gate_publish; [done | by repeat (etrans; [done |]) |]. intros l4 G4. apply safe_ret. intros _ _. by eapply CServed. }
  assert (grows base l2) as Hl2 by (by etrans; [| etrans]).
  destruct (g_cache g) as [c|]; [| by apply Hend]. destruct vec as [vec|]; [| by apply Hend]. destruct (String.eqb (heard_text notes) ""); [by apply Hend |].
  apply safe_store_entry; [| done | done]. apply keeps_own. apply routed_served in Hr as (quiet & ds & d & rest & Hq & Hw & Hd & Hf & -> & -> & ->).
  apply list.Forall_app in Ha as [_ Ha]. apply list.Forall_cons in Ha as [(p & w & Hin & Hkp & _ & Hc) _].
  exists p, w, ds, d, rest. cbn [Response Prompt cc_ServedBy cc_Usage]. rewrite heard_silent by done. cbn [heard_text].
  rewrite heard_took_all. repeat split; try done. by apply Hp.
Qed.

Lemma safe_route `{!forall k, Decision (barred k)} l vec promptText : grows base l ->
  (vec <> None -> promptText = promptForEmbedding (Messages req)) -> safe R l (route g send team req vec promptText) ends.
Proof.
  intros Hl Hp. unfold route. cbv zeta. set (candidates := Candidates _ _ _). apply safe_gate_publish; [done | done |]. intros l1 G1.
  destruct candidates as [|p ps] eqn:Ec.
  - apply safe_ask. intros taken. apply safe_ret. intros _ _. by apply CNoProvider.
  - apply safe_ask. intros start. rewrite <- Ec. eapply safe_seq.
    { apply safe_grows, (safe_failover l1 req candidates); [by etrans | done | done]. }
    intros [notes a] l2 [G2 [Hr Ha]]. destruct a as [k u fr | lastErr | k err | k err].
    + apply safe_ask. intros now. apply safe_gate_settle; [by repeat (etrans; [done |]) | done | done | done].
    + apply safe_ask. intros now. apply safe_ask. intros taken. apply safe_ret. intros _ _. by apply CNone.
    + apply safe_ask. intros now. apply safe_ret. intros _ _. by apply CAborted.
    + apply safe_ret. intros _ _. by apply CGone.
Qed.

Lemma safe_within_budget {A} l (k : bool -> call A) post : grows base l -> (forall b l', grows l l' -> safe R l' (k b) post) ->
  safe R l (do! x := within_budget g team in k x) post.
Proof.
  intros Hl Hk. unfold within_budget. destruct (g_budget g) as [c|]; [| by apply Hk]. destruct (_ || _); [by apply Hk |].
  apply safe_redis_write; [intros; right; apply budget_written | done |]. intros r l' Hg. by apply Hk.
Qed.

Lemma safe_cache_stage l c promptText : grows base l ->
  safe R l (cache_stage g c team promptText) (fun '(_, hit) _ => forall e, hit = Some e -> mine team e).
Proof.
  intros Hl. unfold cache_stage. apply safe_ask. intros [vec|err]; [| by apply safe_ret]. apply safe_redis. intros l1 now Hg. cbn [fst snd].
  split; [by left |]. split; [| intros text; by apply safe_ret]. apply safe_ret. intros _ _ e.
  destruct (nearest_entry vec (blobs_at c team now l1)) as [[e' sim]|] eqn:En; [| done]. destruct (f_le _ sim); [| done]. intros [= <-].
  eapply nearest_entry_own; [| exact En]. apply gate_ready_grows. by etrans.
Qed.

Lemma safe_refuse l err : err ∈ [ErrInvalidInput; ErrModelNotAllowed; ErrBudgetExceeded] -> safe R l (refuse (W := W) err) ends.
Proof. intros He. apply safe_ret. intros _ _. by apply CRefused. Qed.

Lemma safe_ChatCompletion `{!forall k, Decision (barred k)} l : grows base l -> safe R l (ChatCompletion g send team req) ends.
Proof.
  intros Hl. unfold ChatCompletion. destruct (Messages req) eqn:Em; [apply safe_refuse; set_solver | rewrite <- Em; clear Em].
  destruct (negb _); [apply safe_refuse; set_solver |]. apply safe_within_budget; [done |]. intros allowed l1 G1.
  destruct allowed; cbn [negb]; [| apply safe_refuse; set_solver]. assert (grows base l1) as Hl1 by (by etrans).
  destruct (g_cache g) as [c|] eqn:Eg; [| by apply safe_route]. apply safe_ask. intros start. cbv zeta.
  eapply safe_seq; [by apply safe_grows, safe_cache_stage |]. intros [vec hit] l2 [G2 Hhit]. assert (grows base l2) as Hl2 by (by etrans).
  destruct hit as [e|]; [| by apply safe_route]. specialize (Hhit e eq_refl).
  assert (forall l3 notes, grows l2 l3 -> notes = (if String.eqb (Response e) "" then [] else [Sent (text_frame (Response e)) true]) ->
    safe R l3 (do! now := ask Now in do! completion := finishCacheHit g team req e (time_sub now start) in Ret (notes, completion, None)) ends) as Hfin.
  { intros l3 notes G3 Hn. apply safe_ask. intros now. unfold finishCacheHit. intros s Hs. apply rg_assoc. revert s Hs. apply safe_gate_publish; [done | by etrans |]. intros l4 G4.
    apply safe_ret. intros _ _. rewrite Hn. by apply CHit. }
  destruct (String.eqb (Response e) "") eqn:Er; [by apply Hfin |]. apply safe_ask. intros []; [by apply Hfin |].
  apply safe_ret. intros _ _. by apply CHitGone.
Qed.

Lemma safe_Usage l : grows base l -> safe R l (Usage g team) (fun _ _ => True).
Proof.
  intros Hl. unfold Usage. destruct (String.eqb team ""); [by apply safe_ret |].
  eapply (safe_seq _ l _ _ (fun _ l' => grows base l')).
  - destruct (g_usage g); [| by apply safe_ret; intros l' Hg; etrans].
    change (redis ?f) with (do! r := redis f in Ret r). apply safe_redis_write; [by left | done |]. intros r l' Hg. apply safe_ret. intros l2 G2. by repeat (etrans; [done |]).
  - intros [[[prompt completion] total]|err] l' Hl'; [| by apply safe_ret]. destruct (g_budget g) as [c|]; [| by apply safe_ret].
    unfold budget_Usage. destruct (Budget c <=? 0); [by apply safe_ret |].
    apply safe_redis_write; [intros; right; apply budget_written | done |]. intros r l1 G1. by apply safe_ret.
Qed.
End call.

Lemma safe_Snapshot `{!forall k, Decision (barred k)} l ps : grows base l -> safe R l (Snapshot ps) (fun _ _ => True).
Proof.
  revert l. induction ps as [|p ps IH]; intros l Hl; cbn [Snapshot]; [by apply safe_ret |].
  assert (forall l' state, grows base l' -> safe R l' (do! rest := Snapshot ps in
      Ret ({| ps_Kind := Kind p; ps_Name := kind_String (Kind p); ps_Enabled := true; ps_Models := Models p; ps_CircuitState := state |} :: rest)) (fun _ _ => True)) as Hk.
  { intros l' state Hl'. eapply safe_seq; [by apply IH |]. intros rest l2 _. by apply safe_ret. }
  destruct (decide (barred (Kind p))) as [Hb | Hb].
  - apply safe_guarded. intros l1 now now' Hg. destruct (gate_ready_grows l1) as [_ Hw]; [by etrans |]. destruct (Hw _ Hb) as (b & Eb & Hbw).
    unfold on_breaker. rewrite Eb, (State_wedged now now' b Hbw). cbn [fst snd].
    assert (with_breaker_of (Kind p) b l1 = l1) as ->. { destruct l1. unfold with_breaker_of. cbn in *. by rewrite insert_id. }
    split; [by left |]. apply Hk. by etrans.
  - apply safe_op; [done | done |]. intros x l' Hg. apply Hk. by etrans.
Qed.
End safety.

(** ** Pools of calls *)

Section pools.
Context {W : Type} `{HO : Outside W, HG : GateOutside W, HE : EntryJSON, HC : CaseTables, HS : ChatStream W}.
Variable g : gateway W.

Abbreviation call := (prog (site W gate_db)).

(** The calls that come in, with the claims of their callers. *)
Abbreviation calls := (list (option Claims * gw_request)).
Definition pool (cs : calls) : list (call gw_reply) := map (fun c => rpc g c.1 c.2) cs.

Definition caller (cs : calls) (team : string) : Prop := exists claims req, (Some claims, req) ∈ cs /\ c_Team claims = team.
Definition asks (cs : calls) (team : string) (req : ChatRequest) : Prop :=
  exists claims creq id, (Some claims, ReqChat creq) ∈ cs /\ c_Team claims = team /\ req = chatRequestToDomain creq id.

Section with_regime.
Variables (cs : calls) (barred : ProviderKind -> Prop) (mine : string -> CachedCompletion -> Prop) (base : gate_db).
Context `{!forall k, Decision (barred k)}.
Hypothesis decodes : read_back mine.
Hypothesis base_ready : ready barred mine base.
Hypothesis keeps_own : forall team req e, asks cs team req -> spoken g req e -> mine team e.

#[local] Abbreviation R := (gate_regime (caller cs) barred mine).

(** The last frame of a call that ended so. *)
Definition last_frame (c : Completion) (err : option gw_error) (requestID : string) : option wire_frame :=
  match err with
  | None => Some (terminalFrame c requestID)
  | Some e => if errors_is e ErrAllProvidersFailed then Some (terminalFrame (failed_by (ServedBy c) 0) requestID) else None
  end.

(** What a call answers: a chat ends as [chat_ends] says. *)
Definition replied (c : option Claims * gw_request) (r : gw_reply) : Prop :=
  match c with
  | (_, ReqChat creq) =>
      (exists st, r = (RespChat [] None, Some st)) \/
      exists claims id notes c' err st, c.1 = Some claims /\ r = (RespChat notes (last_frame c' err id), st) /\
        chat_ends barred mine g (c_Team claims) (chatRequestToDomain creq id) notes c' err
  | _ => True
  end.

Lemma replied_error l notes e c id claims creq : chat_ends barred mine g (c_Team claims) (chatRequestToDomain creq id) notes c (Some e) ->
  safe R l (handleChatError notes e c id : call gw_reply) (fun r _ => replied (Some claims, ReqChat creq) r).
Proof.
  intros He. assert (forall st, replied (Some claims, ReqChat creq) (RespChat notes (last_frame c (Some e) id), st)) as Hr.
  { intros st. right. by eexists _, _, _, _, _, _. }
  assert (errors_is e ErrAllProvidersFailed = true \/ e ∈ Sentinel <$> [ErrInvalidInput; ErrModelNotAllowed; ErrBudgetExceeded; ErrNoProvider; errSinkFailed]) as Hk.
  { inversion He as [err Hin | | | e' Hm | | notes' lastErr taken latency | notes' k err latency | notes' k err Hg]; subst.
    - right. apply list_elem_of_fmap. exists err. split; [done | set_solver].
    - right. set_solver.
    - right. set_solver.
    - left. unfold wrapFailover. by destruct (errors_is lastErr _).
    - left. unfold wrapFailover. by destruct (errors_is err _).
    - right. inversion Hg; subst. set_solver. }
  unfold handleChatError. destruct Hk as [Hk | Hk].
  - assert (forall s, s <> ErrAllProvidersFailed -> errors_is e s = false) as Hno.
    { intros s Hs. clear -Hk Hs. induction e as [s' | text | text e IH]; cbn in *; [| done | by apply IH].
      rewrite orb_true_iff, !bool_decide_eq_true in Hk. destruct Hk as [-> | ?]; [| done]. apply orb_false_iff. by rewrite !bool_decide_eq_false. }
    rewrite (Hno ErrInvalidInput), (Hno ErrModelNotAllowed), (Hno ErrBudgetExceeded), (Hno ErrNoProvider), Hk by done. apply safe_ask. intros st. apply safe_ret. intros _ _. specialize (Hr st). cbn [last_frame] in Hr. by rewrite Hk in Hr.
  - apply list_elem_of_fmap in Hk as (x & -> & Hk). rewrite !elem_of_cons in Hk. destruct_or! Hk; try subst x; cbn; try (apply safe_ret; intros _ _; apply Hr).
    by apply elem_of_nil in Hk.
Qed.

Lemma safe_rpc l c : c ∈ cs -> keeps R base l -> safe R l (rpc g c.1 c.2) (fun r _ => replied c r).
Proof.
  intros Hc Hl. destruct c as [claims req]. cbn [fst snd] in *. unfold rpc.
  assert (forall st, replied (claims, req) (RespChat [] None, Some st)) as Hno by (intros st; destruct req; cbn; eauto).
  destruct req as [creq | |].
  - destruct (teamFromContext claims) as [team|e] eqn:Et; [| apply safe_ret; intros _ _; apply Hno].
    unfold teamFromContext in Et. destruct claims as [claims|]; [| done]. destruct (String.eqb (c_Team claims) ""); [done |]. injection Et as <-.
    unfold h_ChatCompletion. apply safe_ask. intros id. eapply safe_seq.
    { apply (safe_ChatCompletion (caller cs) barred mine decodes g base base_ready (send_delta id) (c_Team claims) (chatRequestToDomain creq id)).
      - by exists claims, (ReqChat creq).
      - intros e He. apply (keeps_own _ (chatRequestToDomain creq id)); [| done]. by exists claims, creq, id.
      - done.
      - done. }
    intros [[notes c'] err] l' He. destruct err as [e|]; [by apply replied_error |].
    apply safe_ask. intros st. apply safe_ret. intros _ _. right. by exists claims, id, notes, c', None, st.
  - unfold h_ListProviders. eapply safe_seq; [by apply (safe_Snapshot _ _ _ decodes base base_ready) |]. intros snaps l' _. by apply safe_ret.
  - destruct (teamFromContext claims) as [team|e] eqn:Et; [| by apply safe_ret].
    unfold teamFromContext in Et. destruct claims as [claims|]; [| done]. destruct (String.eqb (c_Team claims) ""); [done |]. injection Et as <-.
    unfold h_GetUsage. eapply safe_seq; [apply (safe_Usage (caller cs) barred mine g base (c_Team claims)); [by exists claims, ReqGetUsage | done] |].
    intros r l' _. by apply safe_ret.
Qed.
End with_regime.

Lemma gate_pool_safe cs barred mine `{!forall k, Decision (barred k)} s results s' :
  read_back mine -> ready barred mine (s_db s) -> (forall team req e, asks cs team req -> spoken g req e -> mine team e) ->
  par (pool cs) s results s' ->
  keeps (gate_regime (caller cs) barred mine) (s_db s) (s_db s') /\
  forall i c r, cs !! i = Some c -> results !! i = Some r -> replied barred mine c r.
Proof.
  intros Hd Hr Hk Hpar. destruct (safe_par (gate_regime (caller cs) barred mine) (pool cs) s results s'
    (fun i r _ => forall c, cs !! i = Some c -> replied barred mine c r)) as (Hst & Hres & _).
  - intros i m Hi. unfold pool in Hi. rewrite list_lookup_fmap in Hi. destruct (cs !! i) as [c|] eqn:Ec; [| done]. injection Hi as <-.
    eapply safe_weaken; [apply (safe_rpc cs barred mine (s_db s) Hd Hr Hk); [by eapply list_elem_of_lookup_2 | reflexivity] |].
    intros r l Hrep c' [= <-]. exact Hrep.
  - exact Hpar.
  - split; [by apply site_steps_keep |]. intros i c r Hi Hres'. by eapply Hres.
Qed.

(** What a client of one call hears: at most one provider, from the start of its stream on, and
    perhaps one more frame - the error frame, or the frame that the client did not take. A single
    frame is a replay or the error frame. *)
Definition one_voice (notes : list note) : Prop :=
  exists quiet voice, notes = quiet ++ voice /\ Forall silent quiet /\
    ((exists d taken, voice = [] \/ voice = [Sent d taken]) \/
     exists k ds rest tail, voice = Asked k (Ok (ds ++ rest)) :: map took ds ++ tail /\ Forall going ds /\
       (tail = [] \/ (ds <> [] /\ exists taken, tail = [Sent errorFrame taken]) \/ exists d rest', rest = d :: rest' /\ going d /\ tail = [Sent d false])).

(** The whole answer of provider [k], as the last frame tells it. *)
Definition heard_in_full (notes : list note) (f : wire_frame) : Prop :=
  exists quiet k ds d rest, notes = quiet ++ Asked k (Ok (ds ++ d :: rest)) :: map took ds /\ Forall silent quiet /\
    Done d = true /\ d_FinishReason d <> FinishReasonError /\ wf_FinishReason f = finishReasonToProto (d_FinishReason d) /\
    wf_ServedBy f = providerKindToProto k /\ wf_Usage f = priced k (d_Usage d).

Lemma routed_one_voice notes a : routed notes a -> one_voice notes /\ forall taken, (exists e, a = NoneServed e) -> one_voice (notes ++ [Sent errorFrame taken]).
Proof.
  intros [quiet k ds d rest Hq Hd _ _ -> | lastErr Hq _ | quiet k ds rest taken err Hq Hd Hne _ -> | quiet k ds d rest Hq Hd Hg ->].
  - split; [| by intros ? [e ?]]. eexists quiet, _. split; [done |]. split; [done |]. right. exists k, ds, (d :: rest), []. rewrite app_nil_r. split; [done |]. split; [done |]. by left.
  - split; [| intros taken _]; eexists notes, _; (split; [| split; [done |]; left; exists errorFrame]).
    + symmetry. apply app_nil_r.
    + exists true. by left.
    + done.
    + exists taken. by right.
  - split; [| by intros ? [e ?]]. eexists quiet, _. split; [done |]. split; [done |]. right. exists k, ds, rest, [Sent errorFrame taken].
    split; [done |]. split; [done |]. right. left. split; [done |]. by exists taken.
  - split; [| by intros ? [e ?]]. eexists quiet, _. split; [done |]. split; [done |]. right. exists k, ds, (d :: rest), [Sent d false].
    split; [done |]. split; [done |]. right. right. by exists d, rest.
Qed.

Lemma one_voice_single d taken : one_voice [Sent d taken].
Proof. exists [], [Sent d taken]. split; [done |]. split; [done |]. left. exists d, taken. by right. Qed.
Lemma one_voice_nil : one_voice [].
Proof. exists [], []. split; [done |]. split; [done |]. left. exists errorFrame, true. by left. Qed.

(** C33. A client hears one provider. Whatever calls interleave and whatever fails - the links,
    the back ends, the client - the frames of a call come from a single provider's stream, from
    its start on and without a gap, and no other provider is asked once a frame was sent; or
    they are one cached answer. When the last frame says that the answer is complete and not
    cached, the client took every frame that the provider named in it sent, and the usage is
    the provider's. *)
Theorem client_hears_one_provider (cs : calls) s results s' i claims creq notes last st :
  par (pool cs) s results s' -> cs !! i = Some (claims, ReqChat creq) -> results !! i = Some (RespChat notes last, st) ->
  one_voice notes /\
  forall f, last = Some f -> wf_FinishReason f <> 4 -> wf_CacheHit f = false -> heard_in_full notes f.
Proof.
  intros Hpar Hi Hr. destruct (gate_pool_safe cs (fun _ => False) (fun _ _ => True) s results s') as [_ Hrep]; [done | by split | done | done |].
  destruct (Hrep i _ _ Hi Hr) as [(st' & [= -> -> ->]) | (c & id & notes' & c' & err & st' & _ & [= -> -> ->] & He)]; [by split; [apply one_voice_nil |] |].
  destruct He as [err Hin | taken Hno | e c' _ Hs Hu Hf Hc | e _ | notes k u fr c' Hr' Ha Hs Hu Hf Hc | notes e taken latency Hr' Ha | notes k err latency Hr' Ha | notes k err Hr' Ha].
  - split; [apply one_voice_nil |]. intros f Hl. unfold last_frame in Hl. destruct (errors_is _ _); [| done]. by injection Hl as <-.
  - split; [apply one_voice_single | done].
  - split; [destruct (String.eqb _ ""); [apply one_voice_nil | apply one_voice_single] |]. intros f [= <-] _ Hh. cbn in Hh. congruence.
  - split; [apply one_voice_single | done].
  - split; [exact (proj1 (routed_one_voice _ _ Hr')) |]. intros f [= <-] _ _. apply routed_served in Hr' as (quiet & ds & d & rest & Hq & _ & Hd & Hfr & -> & -> & ->).
    exists quiet, k, ds, d, rest. unfold terminalFrame. cbn [wf_FinishReason wf_ServedBy wf_Usage]. rewrite Hs, Hu, Hf. by repeat split.
  - split; [apply routed_one_voice in Hr' as [_ Hv]; apply Hv; by exists e |]. intros f Hl. unfold last_frame in Hl. destruct (errors_is _ _); [| done]. by injection Hl as <-.
  - split; [exact (proj1 (routed_one_voice _ _ Hr')) |]. intros f Hl. unfold last_frame in Hl. destruct (errors_is _ _); [| done]. by injection Hl as <-.
  - split; [exact (proj1 (routed_one_voice _ _ Hr')) |]. intros f Hl. unfold last_frame in Hl. destruct (errors_is _ _); [| done]. by injection Hl as <-.
Qed.

(** What may be heard from a team's cache: what its key held before, and what a provider could
    answer in full to a request of the team. *)
Definition of_team (cs : calls) (s : gate_db) (team : string) (e : CachedCompletion) : Prop :=
  (exists cl blob se, caches s !! cache_key team = Some cl /\ blob ∈ l_blobs cl /\ decode_entry blob = Some se /\ toDomain se = e) \/
  exists req, asks cs team req /\ spoken g req e.

(** C34. Teams are kept apart. Whatever calls of whatever teams interleave, over links that may
    fail: the budget, the usage and the cached answers of a team that does not call stay as they
    are, every event names a team that calls, and a call is answered from the cache only with
    an entry of its own team: one that the team's key held before, or the full answer of a
    provider to a request of that same team. *)
Theorem gateway_isolated (cs : calls) s results s' :
  (forall se blob, encode_entry se = Some blob -> decode_entry blob = Some se) -> par (pool cs) s results s' ->
  (forall team, ~ caller cs team -> untouched team (s_db s) (s_db s')) /\
  (exists evs, emitted (s_db s') = emitted (s_db s) ++ evs /\ Forall (fun ev => caller cs (event_team ev)) evs) /\
  (forall i claims creq notes f st, cs !! i = Some (Some claims, ReqChat creq) -> results !! i = Some (RespChat notes (Some f), st) ->
     wf_CacheHit f = true -> exists e, of_team cs (s_db s) (c_Team claims) e /\ heard_text notes = Response e).
Proof.
  intros Hlaw Hpar. destruct (gate_pool_safe cs (fun _ => False) (of_team cs (s_db s)) s results s') as [Hg Hrep].
  - intros team se se' blob He Hd Hm. rewrite (Hlaw _ _ He) in Hd. by injection Hd as <-.
  - split; [| done]. intros team cl blob se Hc Hb Hd. left. by exists cl, blob, se.
  - intros team req e Ha Hs. right. by exists req.
  - exact Hpar.
  - split; [| split].
    + intros team Hn. by eapply grows_untouched.
    + by eapply grows_emitted.
    + intros i claims creq notes f st Hi Hr Hh. destruct (Hrep i _ _ Hi Hr) as [(st' & [=]) | (c & id & notes' & c' & err & st' & [= <-] & [= -> Hl ->] & He)].
      destruct He as [err Hin | taken Hno | e c' Hm Hs Hu Hf Hc | e _ | notes k u fr c' Hr' Ha Hs Hu Hf Hc | notes e taken latency Hr' Ha | notes k err latency Hr' Ha | notes k err Hr' Ha];
        unfold last_frame in Hl; try destruct (errors_is _ _); try done; injection Hl as ->; cbn in Hh; try congruence.
      exists e. split; [done |]. destruct (String.eqb_spec (Response e) "") as [->|]; [done |]. cbn. apply string_app_nil.
Qed.

(** C35. A lost probe wedges a provider. When all probes of a half-open breaker are out and none
    of the calls that hold them is left - a client that disconnects during a probe never gives
    its slot back - no call of any team ever asks that provider again, and the breaker stays as
    it is, however much time passes. *)
Theorem lost_probe_wedges_provider (cs : calls) s results s' k b :
  breakers (s_db s) !! k = Some b -> wedged b -> par (pool cs) s results s' ->
  breakers (s_db s') !! k = Some b /\
  forall i claims creq notes last st, cs !! i = Some (claims, ReqChat creq) -> results !! i = Some (RespChat notes last, st) ->
    forall answer, Asked k answer ∉ notes.
Proof.
  intros Hb Hw Hpar. destruct (gate_pool_safe cs (fun k' => k' = k) (fun _ _ => True) s results s') as [Hg Hrep]; [done | | done | done |].
  { split; [done |]. intros k' ->. by exists b. }
  split; [by rewrite (grows_barred (caller cs) (fun k' => k' = k) (fun _ _ => True) k _ _ eq_refl Hg) |].
  assert (forall req ps notes answer, Forall (asked_of (W := W) (fun k' => k' = k) req ps) notes -> Asked k answer ∉ notes) as Hno.
  { intros req ps notes answer Ha Hin. rewrite list.Forall_forall in Ha. destruct (Ha _ Hin) as (p & w & _ & Hk & Hnk & _). by apply Hnk. }
  intros i claims creq notes last st Hi Hr answer. destruct (Hrep i _ _ Hi Hr) as [(st' & [= -> -> ->]) | (c & id & notes' & c' & err & st' & _ & [= -> -> ->] & He)]; [apply not_elem_of_nil |].
  destruct He as [err Hin | taken _ | e c' _ _ _ _ _ | e _ | notes k' u fr c' _ Ha _ _ _ _ | notes e taken latency _ Ha | notes k' err latency _ Ha | notes k' err _ Ha];
    try (eapply Hno; eassumption); try set_solver.
  - destruct (String.eqb _ ""); set_solver.
Qed.
End pools.
