(* ===== verification/GateRuns.v ===== *)
(** * The AI gateway: one call alone

    What one chat does when no other call comes between and the link to Redis works: how it is
    refused, what a full answer costs and leaves behind, and what billing charges for an answer
    from the cache. At the end a gateway on a concrete world. *)

From S2P Require Import Prelude Ledger Billing BillingUsage Metering CircuitBreaker Concur Site GoText GoFormat GoNet GoFloat AuditCapture GateModel GateProviders GateStore Gateway GateSafety.
Open Scope fp_scope.

(** ** Over a link that works *)

Section alone.
Context {W : Type} `{HO : Outside W, HG : GateOutside W, HE : EntryJSON, HC : CaseTables}.
Variable g : gateway W.
Hypothesis works : reliable (W := W).

#[local] Notation at_ w d := {| s_world := w; s_db := d |}.

Lemma run_assoc {A B C} (m : prog (site W gate_db) A) (f : A -> prog (site W gate_db) B) (h : B -> prog (site W gate_db) C) s :
  run (pbind (pbind m f) h) s = run (pbind m (fun x => pbind (f x) h)) s.
Proof. rewrite !run_bind. destruct (run m s) as [a s']. by rewrite run_bind. Qed.

Lemma run_redis_at {A X} (f : time -> gate_db -> X * gate_db) (k : result X gw_error -> prog (site W gate_db) A) w d :
  run (do! x := redis f in k x) (at_ w d) =
  run (k (Ok (f (redis_now w).1 d).1)) (at_ (after_link (redis_now w).2) (f (redis_now w).1 d).2).
Proof.
  rewrite run_bind. unfold redis. rewrite run_atom. cbn [s_world s_db]. destruct (redis_now w) as [now w1]. cbn [fst snd]. unfold after_link.
  specialize (works w1). destruct (link w1) as [[] w2]; cbn [fst snd] in *; try done. by destruct (f now d).
Qed.

Lemma run_guarded_at {X} (f : time -> time -> gate_db -> X * gate_db) w d :
  exists now now' w', forall A (k : X -> prog (site W gate_db) A),
    run (do! x := guarded f in k x) (at_ w d) = run (k (f now now' d).1) (at_ w' (f now now' d).2).
Proof.
  destruct (Now w) as [now w1] eqn:E1. destruct (Now w1) as [now' w2] eqn:E2. exists now, now', w2. intros A k.
  rewrite run_bind. unfold guarded. rewrite run_atom. cbn [s_world s_db]. rewrite E1, E2. by destruct (f now now' d).
Qed.

Lemma run_publish ev w d : g_publisher g = true ->
  exists w', forall A (k : unit -> prog (site W gate_db) A), run (do! x := publish g ev in k x) (at_ w d) = run (k tt) (at_ w' (with_emitted ev d)).
Proof.
  intros Hp. exists (publish_event ev w).2. intros A k. unfold publish. rewrite Hp. rewrite run_assoc.
  by rewrite run_logged_at.
Qed.

Section one.
Variables (team : string) (req : ChatRequest) (send : Delta -> W -> bool * W) (d : gate_db).

Definition admits : Prop := Messages req <> [] /\ Permits (g_allow g) (Model req) (cr_Provider req) = true.

(** The state after the pre-flight check of the budget. *)
Definition checked (d' : gate_db) : Prop :=
  match g_budget g with
  | Some c => if String.eqb team "" || (Budget c <=? 0) then d' = d else exists now, d' = (budgetScript c team 0 now d).2
  | None => d' = d
  end.

(** Whether the budget lets the team in, whenever it is asked. *)
Definition solvent : Prop :=
  match g_budget g with
  | Some c => (String.eqb team "" || (Budget c <=? 0)) = false -> forall w, (budgetScript c team 0 (redis_now w).1 d).1.1 = true
  | None => True
  end.

(** Whether it turns the team away. *)
Definition insolvent : Prop :=
  exists c, g_budget g = Some c /\ team <> "" /\ 0 < Budget c /\ forall w, (budgetScript c team 0 (redis_now w).1 d).1.1 = false.

Lemma run_check c w : g_budget g = Some c -> (String.eqb team "" || (Budget c <=? 0)) = false ->
  exists w', forall A (k : bool -> prog (site W gate_db) A), run (do! x := within_budget g team in k x) (at_ w d) =
    run (k (budgetScript c team 0 (redis_now w).1 d).1.1) (at_ w' (budgetScript c team 0 (redis_now w).1 d).2).
Proof.
  intros Hg Hb. eexists. intros A k. unfold within_budget. rewrite Hg, Hb. rewrite run_assoc.
  rewrite run_redis_at. destruct (budgetScript c team 0 (redis_now w).1 d) as [[allowed remaining] d']. reflexivity.
Qed.

Lemma run_within_budget w : solvent ->
  exists w' d', checked d' /\ forall A (k : bool -> prog (site W gate_db) A), run (do! x := within_budget g team in k x) (at_ w d) = run (k true) (at_ w' d').
Proof.
  unfold solvent, checked. intros Hs. destruct (g_budget g) as [c|] eqn:Eg; [| exists w, d; split; [done |]; intros; unfold within_budget; by rewrite Eg].
  destruct (_ || _) eqn:Eb; [exists w, d; split; [done |]; intros; unfold within_budget; by rewrite Eg, Eb |].
  destruct (run_check c w Eg Eb) as [w' Hr]. exists w', (budgetScript c team 0 (redis_now w).1 d).2. split; [by eexists |]. intros A k. by rewrite Hr, Hs.
Qed.

Lemma checked_same d' : checked d' -> breakers d' = breakers d /\ usages d' = usages d /\ caches d' = caches d /\ emitted d' = emitted d.
Proof.
  unfold checked. destruct (g_budget g) as [c|]; [| by intros ->]. destruct (_ || _); [by intros -> |]. intros [now ->]. unfold budgetScript. by destruct (0 <=? 0).
Qed.

Lemma run_over_budget w : insolvent ->
  exists w' d', checked d' /\ forall A (k : bool -> prog (site W gate_db) A), run (do! x := within_budget g team in k x) (at_ w d) = run (k false) (at_ w' d').
Proof.
  unfold checked. intros (c & Eg & Ht & Hb & Hs).
  assert ((String.eqb team "" || (Budget c <=? 0)) = false) as Eb by (rewrite (proj2 (String.eqb_neq _ _) Ht); cbn [orb]; lia).
  rewrite Eg, Eb. destruct (run_check c w Eg Eb) as [w' Hr]. exists w', (budgetScript c team 0 (redis_now w).1 d).2. split; [by eexists |]. intros A k. by rewrite Hr, Hs.
Qed.

(** How a call is refused. A request without messages, one for a model or a provider that is
    not allowed, and one of a team whose budget is spent are answered with their own errors, in
    this order. Nothing is sent, no provider is asked, and at most the team's bucket is read
    and written. *)
Theorem refusals_exact w :
  (Messages req = [] -> run (ChatCompletion g send team req) (at_ w d) = (([], no_completion, Some (Sentinel ErrInvalidInput)), at_ w d)) /\
  (Messages req <> [] -> Permits (g_allow g) (Model req) (cr_Provider req) = false ->
     run (ChatCompletion g send team req) (at_ w d) = (([], no_completion, Some (Sentinel ErrModelNotAllowed)), at_ w d)) /\
  (admits -> insolvent -> exists w' d', checked d' /\
     run (ChatCompletion g send team req) (at_ w d) = (([], no_completion, Some (Sentinel ErrBudgetExceeded)), at_ w' d')).
Proof.
  unfold ChatCompletion, admits. split; [by intros -> |]. split.
  - intros Hm Hp. destruct (Messages req); [done |]. by rewrite Hp.
  - intros [Hm Hp] Hi. destruct (Messages req); [done |]. rewrite Hp. cbn [negb].
    destruct (run_over_budget w Hi) as (w' & d' & Hd & Hr). exists w', d'. split; [exact Hd |]. by rewrite Hr.
Qed.

(** ** An answer from the cache *)

(** The cache answers: the prompt has a vector, and an entry in the team's key is near enough
    whenever it is looked up. *)
Definition hits (e : CachedCompletion) : Prop := exists c vec,
  g_cache g = Some c /\ (forall w, (Embed (promptForEmbedding (Messages req)) w).1 = Ok vec) /\
  forall w, exists sim, nearest_entry vec (blobs_at c team (redis_now w).1 d) = Some (e, sim) /\ f_le (cacheThreshold (g_threshold g)) sim = true.

Lemma blobs_at_checked c now d' : checked d' -> blobs_at c team now d' = blobs_at c team now d.
Proof. intros (_ & _ & Hc & _)%checked_same. unfold blobs_at. by rewrite Hc. Qed.

Lemma run_cache_hit e w d' : hits e -> checked d' -> exists c vec w', g_cache g = Some c /\
  forall A (k : option (list float64) * option CachedCompletion -> prog (site W gate_db) A),
    run (do! x := cache_stage g c team (promptForEmbedding (Messages req)) in k x) (at_ w d') = run (k (Some vec, Some e)) (at_ w' d').
Proof.
  intros (c & vec & Hc & Hv & Hn) Hd. eexists c, vec, _. split; [exact Hc |]. intros A k. unfold cache_stage.
  rewrite run_assoc. rewrite run_ask_at, Hv.
  rewrite run_assoc. rewrite run_redis_at. cbn [fst snd pbind].
  destruct (Hn (Embed (promptForEmbedding (Messages req)) w).2) as (sim & Hs & Hle). rewrite blobs_at_checked, Hs, Hle by exact Hd. reflexivity.
Qed.

(** What is sent of a cached answer. *)
Definition replay (e : CachedCompletion) : list note := if String.eqb (Response e) "" then [] else [Sent (text_frame (Response e)) true].

Definition hit_completion (e : CachedCompletion) (latency : duration) : Completion := {|
  ServedBy := cc_ServedBy e; c_Usage := with_total (cc_Usage e); c_FinishReason := FinishReasonStop; CacheHit := true; Latency := latency |}.

Definition hit_event (e : CachedCompletion) (latency : duration) : CompletionServed :=
  served_event g team req (cc_ServedBy e) (with_total (cc_Usage e)) true latency (Prompt e) (Response e).

Lemma run_hit e w : admits -> solvent -> hits e -> g_publisher g = true -> (forall w, (send (text_frame (Response e)) w).1 = true) ->
  exists w' d' latency, checked d' /\ run (ChatCompletion g send team req) (at_ w d) =
    ((replay e, hit_completion e latency, None), at_ w' (with_emitted (ServedEvent (hit_event e latency)) d')).
Proof.
  intros [Hm Hp] Hs Hh Hpub Hsend.
  unfold ChatCompletion. destruct (Messages req) as [|m ms] eqn:Em; [done |]. rewrite Hp. cbn [negb].
  destruct (run_within_budget w Hs) as (w1 & d1 & Hd & Hr). rewrite Hr. cbn [negb].
  destruct (run_cache_hit e (Now w1).2 d1 Hh Hd) as (c & vec & w2 & Hc & Hr2). rewrite Hc, run_ask_at. cbv zeta. rewrite <- Em, Hr2.
  assert (forall (notes : list note) w3, exists w' latency,
    run (do! now := ask Now in do! completion := finishCacheHit g team req e (time_sub now (Now w1).1) in Ret ((notes, completion, None) : chat)) (at_ w3 d1) =
      ((notes, hit_completion e latency, None), at_ w' (with_emitted (ServedEvent (hit_event e latency)) d1))) as Hfin.
  { intros notes w3. rewrite run_ask_at. unfold finishCacheHit. cbv zeta. rewrite run_assoc.
    edestruct run_publish as [w4 Hr4]; [exact Hpub |]. rewrite Hr4. by eexists _, _. }
  unfold replay. destruct (String.eqb (Response e) "").
  - destruct (Hfin [] w2) as (w' & latency & Hf). by exists w', d1, latency.
  - destruct (Hfin [Sent (text_frame (Response e)) true] (send (text_frame (Response e)) w2).2) as (w' & latency & Hf). exists w', d1, latency.
    split; [done |]. by rewrite run_ask_at, Hsend.
Qed.

(** What billing reads of what is published. *)
Definition read_by_billing (pl : completionServedPayload) : aiCompletionServed := {|
  ai_RequestID := pl_requestId pl; ai_Team := pl_team pl; ai_Model := pl_model pl; ai_TotalTokens := pl_totalTokens pl |}.

(** C37. An answer from the cache is billed again. When the cache answers and the client takes
    the answer, no provider is asked, no breaker is touched, and neither the team's budget nor
    its usage is charged: the state is that after the check of the budget, with one event more.
    The completion reports the tokens of the stored answer, and the event carries these same
    tokens: a billing service that reads its fields charges all of them. *)
Theorem cached_answer_is_billed `{!Wire} e w :
  admits -> solvent -> hits e -> g_publisher g = true -> (forall w, (send (text_frame (Response e)) w).1 = true) -> 0 < TotalTokens (with_total (cc_Usage e)) ->
  exists w' d' latency, checked d' /\
    run (ChatCompletion g send team req) (at_ w d) =
      ((replay e, hit_completion e latency, None), at_ w' (with_emitted (ServedEvent (hit_event e latency)) d')) /\
    forall env, decode_ai (env_Data env) = Some (read_by_billing (PublishCompletionServed (hit_event e latency)).2) ->
      map ru_Quantity (charges (DAI env)) = [TotalTokens (with_total (cc_Usage e))].
Proof.
  intros Ha Hs Hh Hpub Hsend Htot. destruct (run_hit e w Ha Hs Hh Hpub Hsend) as (w' & d' & latency & Hd & Hr).
  exists w', d', latency. split; [exact Hd |]. split; [exact Hr |]. intros env He. cbn [charges]. rewrite He.
  cbn [read_by_billing ai_TotalTokens PublishCompletionServed hit_event served_event snd pl_totalTokens ev_TotalTokens].
  replace (TotalTokens (with_total (cc_Usage e)) <=? 0) with false by lia. reflexivity.
Qed.

(** ** An answer from a provider *)

Lemma run_forward before ds e rest w d0 :
  Forall going ds -> Done e = true -> d_FinishReason e <> FinishReasonError -> (forall x w, x ∈ ds -> (send x w).1 = true) ->
  exists w', run (forward send before (ds ++ e :: rest)) (at_ w d0) = ((map took ds, Ok (d_Usage e, d_FinishReason e)), at_ w' d0).
Proof.
  intros Hg He Hf Hs. revert before w. induction ds as [|x ds IH]; intros before w; cbn [app forward map].
  - rewrite He, bool_decide_eq_false_2 by done. by exists w.
  - apply list.Forall_cons in Hg as [Hx Hg]. unfold going in Hx. rewrite Hx, run_ask_at, Hs by left.
    destruct (IH Hg ltac:(intros y w'' Hy; apply Hs; by right) true (send x w).2) as [w' Hr]. exists w'. by rewrite run_bind, Hr.
Qed.

(** What the candidate answers, and that its breaker is closed. *)
Record answers (p : Provider W) (ds : list Delta) (e : Delta) (rest : list Delta) : Prop := {
  goes : Forall going ds; stops : Done e = true; well : d_FinishReason e <> FinishReasonError;
  offers : forall w, (Chat p req w).1 = Ok (ds ++ e :: rest);
  taken_by_client : forall x w, x ∈ ds -> (send x w).1 = true;
}.

Definition closed_in (d0 : gate_db) (k : ProviderKind) : Prop :=
  match breakers d0 !! k with Some b => state b = CircuitClosed | None => True end.

(** The breaker after a success, at the moment it was first asked for. *)
Definition succeeded (k : ProviderKind) (now : time) (d0 : gate_db) : gate_db :=
  with_breaker_of k (set_fails 0 (default (newCircuitBreaker (g_breakers g) now) (breakers d0 !! k))) d0.

Lemma Allow_closed now now' b : state b = CircuitClosed -> CircuitBreaker.Allow now now' b = (true, b).
Proof. intros Hs. unfold CircuitBreaker.Allow, maybeHalfOpen. rewrite bool_decide_eq_false_2 by congruence. cbv zeta. cbn [andb]. by rewrite Hs. Qed.

Lemma with_breaker_twice k b b' d0 : with_breaker_of k b (with_breaker_of k b' d0) = with_breaker_of k b d0.
Proof. unfold with_breaker_of. cbn. by rewrite insert_insert_eq. Qed.

Lemma run_failover p others ds e rest lastErr w d0 : answers p ds e rest -> closed_in d0 (Kind p) ->
  exists w' now, run (failover g send req (p :: others) lastErr) (at_ w d0) =
    ((Asked (Kind p) (Ok (ds ++ e :: rest)) :: map took ds, Served (Kind p) (d_Usage e) (d_FinishReason e)), at_ w' (succeeded (Kind p) now d0)).
Proof.
  intros [Hg Hst Hf Ho Ht] Hc. cbn [failover]. destruct (run_guarded_at (fun now _ d => (tt, get_breaker (g_breakers g) (Kind p) now d)) w d0) as (now & n2 & w1 & H1).
  unfold Get. rewrite H1. cbn [fst snd].
  set (b := default (newCircuitBreaker (g_breakers g) now) (breakers d0 !! Kind p)).
  assert (breakers (get_breaker (g_breakers g) (Kind p) now d0) !! Kind p = Some b /\ state b = CircuitClosed /\
    forall b', with_breaker_of (Kind p) b' (get_breaker (g_breakers g) (Kind p) now d0) = with_breaker_of (Kind p) b' d0) as (Hb & Hs & Hw).
  { unfold b, get_breaker, closed_in in *. destruct (breakers d0 !! Kind p) as [b0|] eqn:E0; cbn [default]; [by rewrite E0 |].
    split; [apply lookup_insert_eq | split; [done |]]. intros b'. apply with_breaker_twice. }
  destruct (run_guarded_at (fun now now' => on_breaker (Kind p) false (CircuitBreaker.Allow now now')) w1 (get_breaker (g_breakers g) (Kind p) now d0)) as (n3 & n4 & w2 & H2).
  unfold Allow. rewrite H2. unfold on_breaker at 1 2. rewrite Hb, Allow_closed by done. cbn [fst snd]. rewrite Hw.
  rewrite run_bind. unfold streamOne. rewrite run_ask_at, Ho.
  destruct (run_forward false ds e rest (Chat p req w2).2 (with_breaker_of (Kind p) b d0) Hg Hst Hf Ht) as [w3 H3]. rewrite run_bind, H3. cbn [run].
  destruct (run_guarded_at (fun now _ => on_breaker (Kind p) tt (fun b => (tt, CircuitBreaker.RecordSuccess now b))) w3 (with_breaker_of (Kind p) b d0)) as (n5 & n6 & w4 & H4).
  unfold RecordSuccess. rewrite H4. exists w4, now. unfold on_breaker. cbn [breakers with_breaker_of]. rewrite lookup_insert_eq. unfold CircuitBreaker.RecordSuccess. rewrite Hs.
  cbn [run snd]. change {| breakers := <[Kind p := b]> (breakers d0); budgets := budgets d0; usages := usages d0; caches := caches d0; emitted := emitted d0 |}
    with (with_breaker_of (Kind p) b d0). by rewrite with_breaker_twice.
Qed.

Lemma run_deduct bc tokens w d0 : g_budget g = Some bc -> (String.eqb team "" || (tokens <=? 0) || (Budget bc <=? 0)) = false ->
  exists w' now, forall A (k : unit -> prog (site W gate_db) A),
    run (do! x := deduct g team tokens in k x) (at_ w d0) = run (k tt) (at_ w' (budgetScript bc team tokens now d0).2).
Proof. intros Hb Ht. eexists _, _. intros A k. unfold deduct. rewrite Hb, Ht, run_assoc, run_redis_at. reflexivity. Qed.

Lemma run_add_usage ttl u w d0 : g_usage g = Some ttl -> team <> "" -> 0 < TotalTokens u -> 0 < PromptTokens u ->
  exists w' now, forall A (k : unit -> prog (site W gate_db) A),
    run (do! x := add_usage g team u in k x) (at_ w d0) = run (k tt) (at_ w' (usage_Add ttl team (PromptTokens u) (CompletionTokens u) now d0).2).
Proof.
  intros Hg Ht Hu Hp. eexists _, _. intros A k. unfold add_usage. rewrite Hg, (proj2 (String.eqb_neq _ _) Ht). cbn [orb].
  replace (TotalTokens u <=? 0) with false by lia. replace (PromptTokens u <=? 0) with false by lia. cbn [andb]. rewrite run_assoc, run_redis_at. reflexivity.
Qed.

Lemma run_store_entry c e blob w d0 : encode_entry (fromDomain e) = Some blob ->
  exists w' now, forall A (k : unit -> prog (site W gate_db) A),
    run (do! x := store_entry c team e in k x) (at_ w d0) = run (k tt) (at_ w' (push_blob c team blob now d0)).
Proof. intros He. eexists _, _. intros A k. unfold store_entry. rewrite He, run_assoc, run_redis_at. reflexivity. Qed.

(** Every part of the service is there. *)
Record equipped (bc : budget_config) (ttl : duration) (cc : cache_config) : Prop := {
  has_budget : g_budget g = Some bc; has_usage : g_usage g = Some ttl; has_cache : g_cache g = Some cc; has_publisher : g_publisher g = true;
  has_team : team <> ""; limited : 0 < Budget bc;
}.

(** Nothing in the team's key is near enough. *)
Definition misses (cc : cache_config) (vec : list float64) : Prop :=
  (forall w, (Embed (promptForEmbedding (Messages req)) w).1 = Ok vec) /\
  forall w, match nearest_entry vec (blobs_at cc team (redis_now w).1 d) with
            | Some (_, sim) => f_le (cacheThreshold (g_threshold g)) sim = false
            | None => True
            end.

Lemma run_cache_miss cc vec w d' : misses cc vec -> checked d' -> exists w',
  forall A (k : option (list float64) * option CachedCompletion -> prog (site W gate_db) A),
    run (do! x := cache_stage g cc team (promptForEmbedding (Messages req)) in k x) (at_ w d') = run (k (Some vec, None)) (at_ w' d').
Proof.
  intros (Hv & Hn) Hd. eexists. intros A k. unfold cache_stage. rewrite run_assoc, run_ask_at, Hv, run_assoc, run_redis_at. cbn [fst snd pbind].
  specialize (Hn (Embed (promptForEmbedding (Messages req)) w).2). rewrite blobs_at_checked by exact Hd. destruct (nearest_entry _ _) as [[e sim]|]; [by rewrite Hn | done].
Qed.

Definition warm_event (p : Provider W) : gw_event :=
  WarmEvent {| w_RequestID := RequestID req; w_Team := team; w_Model := Model req; w_Provider := Kind p |}.

Definition kept_answer (vec : list float64) (p : Provider W) (ds : list Delta) (e : Delta) : CachedCompletion := {|
  Embedding := vec; Prompt := promptForEmbedding (Messages req); Response := texts ds; cc_Usage := priced (Kind p) (d_Usage e); cc_ServedBy := Kind p |}.

(** ** What the keys hold afterwards, written out *)

Definition window_of (bc : budget_config) : Z := if WindowSeconds bc <=? 0 then 3600 else WindowSeconds bc.

(** The tokens of a bucket at a moment: those of the key, or a full budget where it is not
    there, and the budget's share of the seconds since, up to the budget. *)
Definition refilled (bc : budget_config) (now : time) (old : option bucket) : float64 :=
  let full := f_of_int (Budget bc) in
  let '(tokens, ts) := match old with
    | Some b => if now <? b_expires b then (b_tokens b, b_ts b) else (full, now_ms now)
    | None => (full, now_ms now)
    end in
  let elapsed := f_sub (now_ms now) ts in
  let gained := f_mul (f_div full (f_of_int (window_of bc))) (f_div (if f_lt elapsed f_zero then f_zero else elapsed) (f_of_int 1000)) in
  if f_lt (f_add tokens gained) full then f_add tokens gained else full.

Definition bucket_of (bc : budget_config) (tokens : float64) (now : time) : bucket :=
  {| b_tokens := tokens; b_ts := now_ms now; b_expires := now + (window_of bc * Second + Minute) |}.

Lemma budgetScript_exact bc spend now d0 : 0 < Budget bc ->
  budgets (budgetScript bc team spend now d0).2 = <["fp:ai:budget:" +:+ team :=
    bucket_of bc (let tokens := refilled bc now (budgets d0 !! ("fp:ai:budget:" +:+ team)) in
                  if spend <=? 0 then tokens else f_sub tokens (f_of_int spend)) now]> (budgets d0).
Proof.
  intros Hb. unfold budgetScript, refill, bucket_at, ratePerSec, lua_min, refilled, bucket_of, budget_ttl, window_of, alive. fold (window_seconds bc).
  replace (0 <? Budget bc) with true by lia. cbv zeta. change (budget_key team) with ("fp:ai:budget:" +:+ team).
  destruct (match budgets d0 !! _ with Some b => _ | None => _ end) as [tokens ts]. by destruct (spend <=? 0).
Qed.

(** The counters of a key that is there. *)
Definition counters (now : time) : gmap string Z :=
  match usages d !! ("ai:usage:" +:+ team) with Some h => if now <? u_expires h then u_fields h else ∅ | None => ∅ end.

(** Neither counter leaves the 64-bit integers. *)
Definition room (prompt completion : Z) : Prop :=
  forall now, in_int64 (default 0 (counters now !! "prompt") + prompt) /\ in_int64 (default 0 (counters now !! "completion") + completion).

Lemma usage_Add_exact ttl prompt completion now d0 : usages d0 = usages d -> 0 < prompt -> room prompt completion ->
  usages (usage_Add ttl team prompt completion now d0).2 = <["ai:usage:" +:+ team := {|
    u_fields := (let h := <["prompt" := default 0 (counters now !! "prompt") + prompt]> (counters now) in
                 if 0 <? completion then <["completion" := default 0 (counters now !! "completion") + completion]> h else h);
    u_expires := now + (if ttl <=? 0 then 30 * 24 * Hour else ttl) |}]> (usages d).
Proof.
  intros Hu Hp Hroom. destruct (Hroom now) as [Hin1 Hin2]. unfold usage_Add. cbv zeta.
  assert (usage_at now team d0 = counters now) as -> by (unfold usage_at, counters; by rewrite Hu).
  replace (0 <? prompt) with true by lia. unfold HIncrBy at 1. change fieldPrompt with "prompt". rewrite (bool_decide_eq_true_2 _ Hin1).
  set (h := <["prompt" := _]> _). destruct (Z.ltb_spec 0 completion).
  - assert (h !! "completion" = counters now !! "completion") as Hh by (apply lookup_insert_ne; done).
    unfold HIncrBy. change fieldCompletion with "completion". rewrite Hh, (bool_decide_eq_true_2 _ Hin2). cbn [snd]. rewrite bool_decide_eq_false_2 by apply insert_non_empty. cbn [usages with_usage]. by rewrite Hu.
  - cbn [snd]. rewrite bool_decide_eq_false_2 by apply insert_non_empty. cbn [usages with_usage]. by rewrite Hu.
Qed.

(** The entries of the team's list that is there. *)
Definition listed_blobs (now : time) : list string :=
  match caches d !! ("ai:cache:" +:+ team) with Some l => if now <? l_expires l then l_blobs l else [] | None => [] end.

Lemma push_blob_exact cc blob now d0 : caches d0 = caches d ->
  caches (push_blob cc team blob now d0) = <["ai:cache:" +:+ team := {|
    l_blobs := take (Z.to_nat (if MaxEntries cc <=? 0 then 256 else MaxEntries cc)) (blob :: listed_blobs now);
    l_expires := now + (if TTL cc <=? 0 then 24 * Hour else TTL cc) |}]> (caches d).
Proof. intros Hc. unfold push_blob, listed_blobs. cbn [caches with_cache]. by rewrite Hc. Qed.

Lemma budgetScript_rest bc spend now d0 : let d1 := (budgetScript bc team spend now d0).2 in
  breakers d1 = breakers d0 /\ usages d1 = usages d0 /\ caches d1 = caches d0 /\ emitted d1 = emitted d0.
Proof. unfold budgetScript. by destruct (spend <=? 0). Qed.

Lemma usage_Add_rest ttl prompt completion now d0 : let d1 := (usage_Add ttl team prompt completion now d0).2 in
  breakers d1 = breakers d0 /\ budgets d1 = budgets d0 /\ caches d1 = caches d0 /\ emitted d1 = emitted d0.
Proof. unfold usage_Add. destruct (if 0 <? prompt then _ else _) as [? ?]. destruct (if 0 <? completion then _ else _) as [? ?]. cbn [snd]. by case_bool_decide. Qed.

Lemma gate_db_eq (d1 d2 : gate_db) : breakers d1 = breakers d2 -> budgets d1 = budgets d2 -> usages d1 = usages d2 -> caches d1 = caches d2 ->
  emitted d1 = emitted d2 -> d1 = d2.
Proof. destruct d1, d2. cbn. by intros -> -> -> -> ->. Qed.

(** The tables after the check of the budget (n0), the warm signal, the breaker's success
    (n1), the deduction (n2), the counters (n3), the new entry (n4) and the last event. *)
Lemma served_tables bc ttl cc k blob prompt completion total n0 n1 n2 n3 n4 warm served :
  0 < Budget bc -> 0 < total -> 0 < prompt -> room prompt completion ->
  with_emitted served (push_blob cc team blob n4 (usage_Add ttl team prompt completion n3
    (budgetScript bc team total n2 (succeeded k n1 (with_emitted warm (budgetScript bc team 0 n0 d).2))).2).2) = {|
    breakers := <[k := set_fails 0 (default (newCircuitBreaker (g_breakers g) n1) (breakers d !! k))]> (breakers d);
    budgets := <["fp:ai:budget:" +:+ team := bucket_of bc (f_sub (refilled bc n2
      (Some (bucket_of bc (refilled bc n0 (budgets d !! ("fp:ai:budget:" +:+ team))) n0))) (f_of_int total)) n2]> (budgets d);
    usages := <["ai:usage:" +:+ team := {|
      u_fields := (let h := <["prompt" := default 0 (counters n3 !! "prompt") + prompt]> (counters n3) in
                   if 0 <? completion then <["completion" := default 0 (counters n3 !! "completion") + completion]> h else h);
      u_expires := n3 + (if ttl <=? 0 then 30 * 24 * Hour else ttl) |}]> (usages d);
    caches := <["ai:cache:" +:+ team := {|
      l_blobs := take (Z.to_nat (if MaxEntries cc <=? 0 then 256 else MaxEntries cc)) (blob :: listed_blobs n4);
      l_expires := n4 + (if TTL cc <=? 0 then 24 * Hour else TTL cc) |}]> (caches d);
    emitted := emitted d ++ [warm; served] |}.
Proof.
  intros Hb Ht Hp Hroom. set (d1 := (budgetScript bc team 0 n0 d).2). set (d2 := succeeded k n1 (with_emitted warm d1)).
  set (d3 := (budgetScript bc team total n2 d2).2). set (d4 := (usage_Add ttl team prompt completion n3 d3).2).
  destruct (budgetScript_rest bc 0 n0 d) as (B1 & U1 & C1 & M1). destruct (budgetScript_rest bc total n2 d2) as (B3 & U3 & C3 & M3).
  destruct (usage_Add_rest ttl prompt completion n3 d3) as (B4 & G4 & C4 & M4). fold d1 in B1, U1, C1, M1. fold d3 in B3, U3, C3, M3. fold d4 in B4, G4, C4, M4.
  apply gate_db_eq; cbn [breakers budgets usages caches emitted with_emitted].
  - change (breakers d4 = <[k := set_fails 0 (default (newCircuitBreaker (g_breakers g) n1) (breakers d !! k))]> (breakers d)).
    rewrite B4, B3. unfold d2, succeeded. cbn [breakers with_breaker_of with_emitted]. by rewrite B1.
  - change (budgets d4 = <["fp:ai:budget:" +:+ team := bucket_of bc (f_sub (refilled bc n2
      (Some (bucket_of bc (refilled bc n0 (budgets d !! ("fp:ai:budget:" +:+ team))) n0))) (f_of_int total)) n2]> (budgets d)).
    rewrite G4. unfold d3. rewrite budgetScript_exact by done. change (budgets d2) with (budgets d1). unfold d1. rewrite budgetScript_exact by done.
    rewrite lookup_insert_eq, insert_insert_eq. replace (total <=? 0) with false by lia. reflexivity.
  - change (usages d4 = <["ai:usage:" +:+ team := {|
      u_fields := (let h := <["prompt" := default 0 (counters n3 !! "prompt") + prompt]> (counters n3) in
                   if 0 <? completion then <["completion" := default 0 (counters n3 !! "completion") + completion]> h else h);
      u_expires := n3 + (if ttl <=? 0 then 30 * 24 * Hour else ttl) |}]> (usages d)).
    unfold d4. apply usage_Add_exact; [by rewrite U3 | done | done].
  - apply push_blob_exact. rewrite C4, C3. exact C1.
  - change (emitted d4 ++ [served] = emitted d ++ [warm; served]). rewrite M4, M3. unfold d2, succeeded. cbn [emitted with_breaker_of with_emitted]. rewrite M1, <- app_assoc. reflexivity.
Qed.

(** C36. What a full answer costs. A chat alone, at a gateway with every part, whose prompt the
    cache does not know and whose first candidate - its breaker closed - answers in full: the
    client gets every frame of that provider and no other, the completion names it with its
    tokens priced, and afterwards exactly this has changed. The breaker is closed with no
    failures counted. The bucket was refilled when the call was let in (n0) and again when it
    ended (n2), and then the total was taken from it. The counters have grown by the prompt's
    and the completion's tokens (n3). The answer leads the team's cached ones, under the
    prompt's vector, and the oldest beyond the limit are gone (n4). Two events were
    published: the warm signal first and the completion last. *)
Theorem served_chat_exact bc ttl cc vec p others ds e rest blob w :
  admits -> solvent -> equipped bc ttl cc -> misses cc vec ->
  Candidates (g_providers g) (cr_Provider req) (Model req) = p :: others -> answers p ds e rest -> closed_in d (Kind p) ->
  texts ds <> "" -> 0 < PromptTokens (d_Usage e) -> 0 < TotalTokens (priced (Kind p) (d_Usage e)) ->
  room (PromptTokens (d_Usage e)) (CompletionTokens (d_Usage e)) ->
  encode_entry (fromDomain (kept_answer vec p ds e)) = Some blob ->
  let prompt := PromptTokens (d_Usage e) in
  let completion := CompletionTokens (d_Usage e) in
  let total := wrap32 (prompt + completion) in
  let cost := costMicroUSD (Kind p) prompt completion in
  exists w' n0 n1 n2 n3 n4 latency breaker,
    let let_in := bucket_of bc (refilled bc n0 (budgets d !! ("fp:ai:budget:" +:+ team))) n0 in
    state breaker = CircuitClosed /\ consecutiveFails breaker = 0 /\
    breaker = set_fails 0 (default (newCircuitBreaker (g_breakers g) n1) (breakers d !! Kind p)) /\
    run (ChatCompletion g send team req) (at_ w d) =
      ((Asked (Kind p) (Ok (ds ++ e :: rest)) :: map took ds,
        {| ServedBy := Kind p;
           c_Usage := {| PromptTokens := prompt; CompletionTokens := completion; TotalTokens := total; CostMicroUSD := cost |};
           c_FinishReason := d_FinishReason e; CacheHit := false; Latency := latency |}, None),
       at_ w' {|
         breakers := <[Kind p := breaker]> (breakers d);
         budgets := <["fp:ai:budget:" +:+ team := bucket_of bc (f_sub (refilled bc n2 (Some let_in)) (f_of_int total)) n2]> (budgets d);
         usages := <["ai:usage:" +:+ team := {|
           u_fields := (let h := <["prompt" := default 0 (counters n3 !! "prompt") + prompt]> (counters n3) in
                        if 0 <? completion then <["completion" := default 0 (counters n3 !! "completion") + completion]> h else h);
           u_expires := n3 + (if ttl <=? 0 then 30 * 24 * Hour else ttl) |}]> (usages d);
         caches := <["ai:cache:" +:+ team := {|
           l_blobs := take (Z.to_nat (if MaxEntries cc <=? 0 then 256 else MaxEntries cc)) (blob :: listed_blobs n4);
           l_expires := n4 + (if TTL cc <=? 0 then 24 * Hour else TTL cc) |}]> (caches d);
         emitted := emitted d ++ [WarmEvent {| w_RequestID := RequestID req; w_Team := team; w_Model := Model req; w_Provider := Kind p |};
           ServedEvent {|
             ev_RequestID := RequestID req; ev_Team := team; ev_Model := Model req; ev_Provider := Kind p; ev_PromptTokens := prompt;
             ev_OutputTokens := completion; ev_TotalTokens := total; ev_CostMicroUSD := cost; ev_CacheHit := false; ev_LatencyMs := latency ÷ 1000000;
             ev_PromptText := if g_evalIncludeText g then promptForEmbedding (Messages req) else "";
             ev_ResponseText := if g_evalIncludeText g then texts ds else "" |}] |}).
Proof.
  intros [Hm Hp] Hs [Hbc Httl Hcc Hpub Hteam Hlim] Hmiss Hcand Hans Hclosed Htext Hprompt Htot Hroom Henc. cbv zeta.
  unfold ChatCompletion. destruct (Messages req) as [|m ms] eqn:Em; [done |]. rewrite Hp, <- Em. cbn [negb].
  destruct (run_within_budget w Hs) as (w1 & d1 & Hd & Hr). rewrite Hr. cbn [negb]. rewrite Hcc, run_ask_at. cbv zeta.
  destruct (run_cache_miss cc vec (Now w1).2 d1 Hmiss Hd) as [w2 Hr2]. rewrite Hr2. unfold route. cbv zeta. rewrite Hcand.
  edestruct run_publish as [w3 Hr3]; [exact Hpub |]. rewrite Hr3, run_ask_at. clear Hr Hr2 Hr3.
  assert (closed_in (with_emitted (warm_event p) d1) (Kind p)) as Hcl.
  { unfold closed_in in *. cbn [breakers with_emitted]. by rewrite (proj1 (checked_same _ Hd)). }
  destruct (run_failover p others ds e rest (Sentinel ErrAllProvidersFailed) (Now w3).2 _ Hans Hcl) as (w4 & n1 & Hr4). rewrite run_bind.
  unfold warm_event in Hr4. rewrite Hr4, run_ask_at. unfold settle. cbv zeta.
  destruct (run_deduct bc (TotalTokens (priced (Kind p) (d_Usage e))) (Now w4).2 (succeeded (Kind p) n1 (with_emitted (warm_event p) d1)) Hbc) as (w5 & n2 & Hr5).
  { rewrite (proj2 (String.eqb_neq _ _) Hteam). cbn [orb]. lia. }
  unfold warm_event in *. rewrite Hr5. edestruct run_add_usage as (w6 & n3 & Hr6); [exact Httl | exact Hteam | exact Htot | exact Hprompt |]. rewrite Hr6. clear Hr4 Hr5 Hr6.
  rewrite Hcc. cbn [heard_text]. rewrite heard_took_all, (proj2 (String.eqb_neq _ _) Htext).
  edestruct run_store_entry as (w7 & n4 & Hr7); [exact Henc |]. unfold kept_answer in Hr7. rewrite Hr7. clear Hr7.
  edestruct run_publish as [w8 Hr8]; [exact Hpub |]. rewrite Hr8.
  destruct (checked_same _ Hd) as (E1 & E2 & E3 & E4). unfold checked in Hd. rewrite Hbc in Hd.
  replace (String.eqb team "" || (Budget bc <=? 0)) with false in Hd by (rewrite (proj2 (String.eqb_neq _ _) Hteam); cbn [orb]; lia).
  destruct Hd as [n0 Hd].
  exists w8, n0, n1, n2, n3, n4. eexists _, (set_fails 0 (default (newCircuitBreaker (g_breakers g) n1) (breakers d !! Kind p))). split; [| split; [reflexivity | split; [reflexivity |]]].
  { unfold closed_in in Hclosed. destruct (breakers d !! Kind p) as [b|]; [exact Hclosed | done]. }
  cbn [run]. rewrite Hd. rewrite served_tables by done. destruct (String.eqb_spec (promptForEmbedding (Messages req)) "") as [Ee|]; [rewrite Ee |]; reflexivity.
Qed.
End one.
End alone.

(** ** A gateway on a concrete world *)

Module GateDemo.

#[export] Instance ascii_lower : CaseTables := {| unicode_lower s := s |}.

(** *** Entries as strings of digits *)

#[export] Instance float_dec : EqDecision float64.
Proof. solve_decision. Defined.

#[export] Instance entry_dec : EqDecision storedEntry.
Proof. solve_decision. Defined.

#[export] Instance float_countable : Countable float64.
Proof.
  apply (inj_countable'
    (fun x : float64 => match x with S754_zero s => inl s | S754_infinity s => inr (inl s) | S754_nan => inr (inr (inl tt)) | S754_finite s m e => inr (inr (inr (s, m, e))) end)
    (fun c => match c with inl s => S754_zero s | inr (inl s) => S754_infinity s | inr (inr (inl _)) => S754_nan | inr (inr (inr (s, m, e))) => S754_finite s m e end)).
  by intros [].
Defined.

#[export] Instance entry_countable : Countable storedEntry.
Proof.
  apply (inj_countable'
    (fun e => (se_Embedding e, se_Prompt e, se_Response e, se_PromptTokens e, se_CompletionTokens e, se_TotalTokens e, se_CostMicroUSD e, se_ServedBy e))
    (fun '(em, p, r, pt, ct, tot, cost, k) => {| se_Embedding := em; se_Prompt := p; se_Response := r; se_PromptTokens := pt; se_CompletionTokens := ct;
       se_TotalTokens := tot; se_CostMicroUSD := cost; se_ServedBy := k |})).
  by intros [].
Defined.

Fixpoint digits (p : positive) : string := match p with xH => "" | xO p => "0" +:+ digits p | xI p => "1" +:+ digits p end.
Fixpoint undigits (s : string) : positive :=
  match s with String "0" s => xO (undigits s) | String "1" s => xI (undigits s) | _ => xH end.

Lemma undigits_digits p : undigits (digits p) = p.
Proof. induction p as [p IH | p IH |]; [change (xI (undigits (digits p)) = xI p) | change (xO (undigits (digits p)) = xO p) | done]; by rewrite IH. Qed.

#[export] Instance entry_json : EntryJSON := {| encode_entry se := Some (digits (encode se)); decode_entry s := decode (undigits s) |}.

Lemma entry_json_law se blob : encode_entry se = Some blob -> decode_entry blob = Some se.
Proof. intros [= <-]. cbn [decode_entry entry_json]. by rewrite undigits_digits, decode_encode. Qed.

(** *** The world *)

(** Every reading of the clock takes five seconds, Redis's clock stands still; a client takes the frames as it is said, then
    all; the back end answers as it is said, then with two words. *)
Record world := { ticks : Z; taken : list bool; backend : list (result (list Delta) string) }.

Definition moment (w : world) : time := ticks w * (5 * Second).

#[export] Instance world_calls : Outside world := {|
  Now w := (moment w, {| ticks := ticks w + 1; taken := taken w; backend := backend w |});
  NewID w := ("id-" +:+ Itoa (ticks w), w);
  link w := (Works, w) |}.
#[export] Instance world_clocks : GateClocks world := {| redis_now w := (Second, w) |}.
#[export] Instance world_gate : GateOutside world := {|
  Embed prompt w := (Ok (if String.eqb prompt "user: hello" then [f_one] else [f_of_int (-1)]), w); publish_event ev w := (None, w) |}.
#[export] Instance world_stream : ChatStream world := {|
  stream_Send f w := match taken w with
                     | [] => (None, w)
                     | t :: ts => (if t then None else Some (Status Canceled "context canceled"), {| ticks := ticks w; taken := ts; backend := backend w |})
                     end |}.

Definition spent_tokens : TokenUsage := usage_of 3 2.
Definition two_words : list Delta := [text_frame "Hi "; text_frame "there"; end_frame spent_tokens FinishReasonStop].

Definition flaky : Provider world := {| Kind := ProviderKindOllama; Models := []; Chat req w :=
  match backend w with [] => (Ok two_words, w) | a :: rest => (a, {| ticks := ticks w; taken := taken w; backend := rest |}) end |}.

Definition first_world (ts : list bool) (b : list (result (list Delta) string)) : world := {| ticks := 1; taken := ts; backend := b |}.
Definition empty_gate : gate_db := {| breakers := ∅; budgets := ∅; usages := ∅; caches := ∅; emitted := [] |}.
Definition gate_site (ts : list bool) (b : list (result (list Delta) string)) : site world gate_db := {| s_world := first_world ts b; s_db := empty_gate |}.

Definition demo_budget : budget_config := {| Budget := 100; WindowSeconds := 0 |}.
Definition demo_cache : cache_config := {| MaxEntries := 0; TTL := 0 |}.

Definition demo_gate : gateway world := {|
  g_providers := [flaky]; g_breakers := NewBreakerRegistry {| FailureThreshold := 0; SuccessThreshold := 0; ResetTimeout := 0; HalfOpenMaxProbes := 0 |};
  g_budget := Some demo_budget; g_usage := Some 0; g_cache := Some demo_cache; g_threshold := f_zero;
  g_allow := NewAllowList [] []; g_publisher := true; g_evalIncludeText := false |}.

Definition member (team : string) : option Claims := Some {| c_UserID := "u"; c_Email := ""; c_Team := team; c_Role := ""; c_Scopes := [] |}.
Definition hello (text : string) : chat_request := {| rq_model := "m"; rq_messages := [(2, text)]; rq_temperature := f_zero; rq_max_tokens := 0; rq_provider := 0 |}.

(** *** Answers and the cache *)

(** The red team asks twice the same, the blue team once. *)
Definition three_calls : list (option Claims * gw_request) :=
  [(member "red", ReqChat (hello "hello")); (member "red", ReqChat (hello "hello")); (member "blue", ReqChat (hello "hello"))].

Definition three : list gw_reply * site world gate_db := run_all (pool demo_gate three_calls) (gate_site [] []).

(** Every call hears the whole answer: the second from the cache of its team, with all its
    tokens though nobody was asked, and the third from the provider again. *)
Example three_answers :
  map (fun r => match r.1 with
                | RespChat notes (Some f) => (heard_text notes, wf_CacheHit f, TotalTokens (wf_Usage f), length notes)
                | _ => ("", false, 0, 0%nat)
                end) three.1 = [("Hi there", false, 5, 3%nat); ("Hi there", true, 5, 1%nat); ("Hi there", false, 5, 3%nat)] /\
  map event_team (emitted (s_db three.2)) = ["red"; "red"; "red"; "blue"; "blue"] /\
  (forall k, k ∈ ["red"; "blue"] -> usage_Get k Second (s_db three.2) = (3, 2, 5)).
Proof. split; [vm_compute; reflexivity |]. split; [vm_compute; reflexivity |]. intros k Hk. rewrite !elem_of_cons in Hk. destruct_or! Hk; subst; [vm_compute; reflexivity.. |]. by apply elem_of_nil in Hk. Qed.
(** The second call hears its cached answer whole, the first what the provider said. *)
Lemma client_hears_one_provider_witness : exists notes last st,
  three.1 !! 0%nat = Some (RespChat notes last, st) /\ heard_text notes = "Hi there" /\ one_voice notes /\
  exists f, last = Some f /\ heard_in_full notes f.
Proof.
  assert (exists notes f st, three.1 !! 0%nat = Some (RespChat notes (Some f), st) /\ heard_text notes = "Hi there" /\ wf_FinishReason f <> 4 /\ wf_CacheHit f = false)
    as (notes & f & st & Hr & Ht & Hf & Hh) by (vm_compute; eexists _, _, _; repeat split; done).
  destruct (client_hears_one_provider demo_gate three_calls (gate_site [] []) three.1 three.2 0 _ _ notes (Some f) st (run_all_par _ _) eq_refl Hr) as [Hv Hl].
  exists notes, (Some f), st. split; [exact Hr |]. split; [exact Ht |]. split; [exact Hv |]. exists f. split; [reflexivity |]. by apply Hl.
Defined.

(** The green team's keys stay as they are, and the red team's second answer is its own. *)
Lemma gateway_isolated_witness : untouched "green" empty_gate (s_db three.2) /\
  exists notes f st e, three.1 !! 1%nat = Some (RespChat notes (Some f), st) /\ wf_CacheHit f = true /\ heard_text notes = Response e /\
    of_team demo_gate three_calls empty_gate "red" e.
Proof.
  destruct (gateway_isolated demo_gate three_calls (gate_site [] []) three.1 three.2 entry_json_law (run_all_par _ _)) as (Hu & _ & Ha). split.
  - apply Hu. intros (c & r & Hin & Ht). unfold three_calls in Hin. rewrite !elem_of_cons in Hin.
    destruct Hin as [[= -> _] | [[= -> _] | [[= -> _] | Hin]]]; [discriminate Ht.. |]. by apply elem_of_nil in Hin.
  - assert (exists notes f st, three.1 !! 1%nat = Some (RespChat notes (Some f), st) /\ wf_CacheHit f = true) as (notes & f & st & Hr & Hh)
      by (vm_compute; eexists _, _, _; split; reflexivity).
    destruct (Ha 1%nat _ _ _ _ _ eq_refl Hr Hh) as (e & He & Ht). exists notes, f, st, e. split; [exact Hr |]. split; [exact Hh |]. split; [exact Ht | exact He].
Defined.

(** *** A lost probe *)

(** Three calls meet a back end that refuses; forty seconds later the fourth is the probe, and
    its client goes away after the first frame was offered. *)
Definition refusals : list (result (list Delta) string) := repeat (Err "connection refused") 3.
Definition plain_gate : gateway world := {|
  g_providers := [flaky]; g_breakers := g_breakers demo_gate; g_budget := None; g_usage := None; g_cache := None; g_threshold := f_zero;
  g_allow := NewAllowList [] []; g_publisher := false; g_evalIncludeText := false |}.

Definition four_calls : list (option Claims * gw_request) := repeat (member "red", ReqChat (hello "hello")) 4.
Definition four : list gw_reply * site world gate_db := run_all (pool plain_gate four_calls) (gate_site [true; true; true; true; true; true; false] refusals).

(** The breaker after it, and calls long after. *)
Definition later_calls : list (option Claims * gw_request) := [(member "red", ReqChat (hello "hello")); (member "blue", ReqListProviders)].
Definition later : list gw_reply * site world gate_db :=
  run_all (pool plain_gate later_calls) {| s_world := {| ticks := 1000000; taken := []; backend := [] |}; s_db := s_db four.2 |}.

Example probe_lost :
  map (fun r => match r.1 with RespChat notes _ => length notes | _ => 0%nat end) four.1 = [2; 2; 2; 2]%nat /\
  (fun b => (state b, halfOpenInFlight b)) <$> breakers (s_db four.2) !! ProviderKindOllama = Some (CircuitHalfOpen, 1) /\
  map (fun r => match r.1 with RespChat notes _ => notes | _ => [] end) later.1 = [[Sent errorFrame true]; []] /\
  map (fun r => match r.1 with RespProviders ps => map pp_circuit_state ps | _ => [] end) later.1 = [[]; ["HALF_OPEN"]].
Proof. vm_compute. repeat split. Qed.

Lemma lost_probe_wedges_provider_witness : exists b notes last st,
  breakers (s_db later.2) !! ProviderKindOllama = Some b /\ wedged b /\ later.1 !! 0%nat = Some (RespChat notes last, st) /\
  forall answer, Asked ProviderKindOllama answer ∉ notes.
Proof.
  assert ((fun b => bool_decide (wedged b)) <$> breakers (s_db four.2) !! ProviderKindOllama = Some true) as (b & Hb & Hw)%fmap_Some by (vm_compute; reflexivity).
  symmetry in Hw. apply bool_decide_eq_true in Hw.
  assert (exists notes last st, later.1 !! 0%nat = Some (RespChat notes last, st)) as (notes & last & st & Hr) by (by (vm_compute; eexists _, _, _)).
  destruct (lost_probe_wedges_provider plain_gate later_calls {| s_world := {| ticks := 1000000; taken := []; backend := [] |}; s_db := s_db four.2 |}
    later.1 later.2 ProviderKindOllama b Hb Hw (run_all_par _ _)) as [Hb' Hno].
  exists b, notes, last, st. split; [exact Hb' |]. split; [exact Hw |]. split; [exact Hr |]. exact (Hno 0%nat _ _ _ _ _ eq_refl Hr).
Defined.
(** *** Calls alone *)

Definition greeting : ChatRequest := chatRequestToDomain (hello "hello") "id-1".
Definition takes_all (_ : Delta) (w : world) : bool * world := (true, w).

(** The stub answers in every world. *)
Definition said : StubProvider := {| answer_ := "Hi there"; failStart := None |}.
Definition stub_gate : gateway world := {|
  g_providers := [stub said]; g_breakers := g_breakers demo_gate; g_budget := Some demo_budget; g_usage := Some 0; g_cache := Some demo_cache; g_threshold := f_zero;
  g_allow := NewAllowList [] []; g_publisher := true; g_evalIncludeText := false |}.

Lemma demo_works : reliable (W := world).
Proof. by intros w. Qed.

Lemma demo_solvent d : budgets d = ∅ -> solvent demo_gate "red" d /\ solvent stub_gate "red" d.
Proof.
  intros Hd. assert (forall w : world, (budgetScript demo_budget "red" 0 (redis_now w).1 d).1.1 = true) as Hs.
  { intros w. unfold budgetScript. rewrite Hd. vm_compute. reflexivity. }
  split; intros _; exact Hs.
Qed.

Definition stub_usage : TokenUsage := usage_of (promptTokenCount (Messages greeting)) 2.

(** The stub's two words, priced, counted and kept: the bucket pays their
    tokens. *)
Lemma served_chat_exact_witness : exists w' s' c blob, run (ChatCompletion stub_gate takes_all "red" greeting) (gate_site [] []) =
    ((Asked ProviderKindStub (Ok (word_frames ["Hi"; "there"] ++ [end_frame stub_usage FinishReasonStop])) :: map took (word_frames ["Hi"; "there"]), c, None), {| s_world := w'; s_db := s' |}) /\
  l_blobs <$> caches s' !! "ai:cache:red" = Some [blob] /\ decode_entry blob = Some (fromDomain (kept_answer greeting [f_one] (stub (W := world) said) (word_frames ["Hi"; "there"]) (end_frame stub_usage FinishReasonStop))) /\
  u_fields <$> usages s' !! "ai:usage:red" = Some (<["completion" := 2]> (<["prompt" := promptTokenCount (Messages greeting)]> ∅)) /\
  exists n2 before, b_tokens <$> budgets s' !! "fp:ai:budget:red" =
    Some (f_sub (refilled demo_budget n2 (Some before)) (f_of_int (promptTokenCount (Messages greeting) + 2))).
Proof.
  set (blob := digits (encode (fromDomain (kept_answer greeting [f_one] (stub (W := world) said) (word_frames ["Hi"; "there"]) (end_frame stub_usage FinishReasonStop))))).
  destruct (served_chat_exact stub_gate demo_works "red" greeting takes_all empty_gate demo_budget 0 demo_cache [f_one] (stub said) []
    (word_frames ["Hi"; "there"]) (end_frame stub_usage FinishReasonStop) [] blob (first_world [] [])) as (w' & n0 & n1 & n2 & n3 & n4 & latency & breaker & _ & _ & _ & Hr).
  - split; [done | vm_compute; reflexivity].
  - by apply (demo_solvent empty_gate).
  - by split.
  - split; intros w; [vm_compute; reflexivity | vm_compute; exact I].
  - reflexivity.
  - split; [by repeat constructor | done | done | intros w; vm_compute; reflexivity | done].
  - exact I.
  - done.
  - vm_compute. reflexivity.
  - vm_compute. reflexivity.
  - intros now. vm_compute. repeat split; discriminate.
  - reflexivity.
  - eexists _, _, _, blob. split; [exact Hr |]. cbn [caches usages budgets].
    split; [change ("ai:cache:" +:+ "red") with "ai:cache:red"; rewrite lookup_insert_eq; reflexivity |].
    split; [apply entry_json_law; reflexivity |].
    split; [change ("ai:usage:" +:+ "red") with "ai:usage:red"; rewrite lookup_insert_eq; vm_compute; reflexivity |].
    eexists n2, _. change ("fp:ai:budget:" +:+ "red") with "fp:ai:budget:red". rewrite lookup_insert_eq. reflexivity.
Defined.

Definition kept_for_red : CachedCompletion := {|
  Embedding := [f_one]; Prompt := "user: hello"; Response := "Hi there"; cc_Usage := priced ProviderKindOllama spent_tokens; cc_ServedBy := ProviderKindOllama |}.

#[export] Instance plain_wire : Wire := {| decode_inference _ := None; decode_ready _ := None;
  decode_ai s := Some {| ai_RequestID := "id-1"; ai_Team := "red"; ai_Model := "m"; ai_TotalTokens := 5 |} |}.

(** The red team's answer of before, and a billing service that reads its event. *)
Lemma cached_answer_is_billed_witness : exists w' s' c, run (ChatCompletion demo_gate takes_all "red" greeting) {| s_world := first_world [] []; s_db := with_bucket "fp:ai:budget:red"
      {| b_tokens := f_of_int 50; b_ts := f_zero; b_expires := Minute |} (s_db three.2) |} =
    (([Sent (text_frame "Hi there") true], c, None), {| s_world := w'; s_db := s' |}) /\ CacheHit c = true /\
  map ru_Quantity (charges (DAI {| env_ID := "e"; env_Data := "" |})) = [5].
Proof.
  set (d := with_bucket "fp:ai:budget:red" {| b_tokens := f_of_int 50; b_ts := f_zero; b_expires := Minute |} (s_db three.2)).
  destruct (cached_answer_is_billed demo_gate demo_works "red" greeting takes_all d kept_for_red (first_world [] [])) as (w' & d' & latency & _ & Hr & Hb).
  - split; [done | vm_compute; reflexivity].
  - intros _ w. vm_compute. reflexivity.
  - exists demo_cache, [f_one]. split; [done |]. split; [intros w; vm_compute; reflexivity |]. intros w. exists f_one. vm_compute. by split.
  - done.
  - done.
  - vm_compute. reflexivity.
  - exists w', (with_emitted (ServedEvent (hit_event demo_gate "red" greeting kept_for_red latency)) d'), (hit_completion kept_for_red latency).
    split; [exact Hr |]. split; [reflexivity |]. by apply (Hb {| env_ID := "e"; env_Data := "" |}).
Defined.

(** A model that is not on the list. *)
Definition llama_gate : gateway world := {|
  g_providers := [flaky]; g_breakers := g_breakers demo_gate; g_budget := None; g_usage := None; g_cache := None; g_threshold := f_zero;
  g_allow := NewAllowList ["llama"] []; g_publisher := false; g_evalIncludeText := false |}.

Lemma refusals_exact_witness : run (ChatCompletion llama_gate takes_all "red" greeting) (gate_site [] []) =
  (([], no_completion, Some (Sentinel ErrModelNotAllowed)), gate_site [] []).
Proof.
  destruct (refusals_exact llama_gate demo_works "red" greeting takes_all empty_gate (first_world [] [])) as (_ & Hm & _).
  apply Hm; [done | vm_compute; reflexivity].
Defined.

(** *** Prices, lists, similarity and adapters *)

Lemma misspelt_providers_allow_all_witness :
  Permits (NewAllowList [] (parseProviderKinds ["opena1"])) "m" ProviderKindAnthropic = true /\
  Permits (NewAllowList [] (parseProviderKinds ["openai"])) "m" ProviderKindAnthropic = false.
Proof.
  split; [| vm_compute; reflexivity].
  rewrite misspelt_providers_allow_all; [vm_compute; reflexivity |]. intros k ->%list_elem_of_singleton. vm_compute. reflexivity.
Defined.

Lemma cost_rounds_down_witness : costMicroUSD ProviderKindOpenAI 1 1 = 1 /\ 1 * 500 + 1 * 1500 < 1000 * costMicroUSD ProviderKindOpenAI 1 1 + 2000.
Proof.
  split; [reflexivity |]. destruct (cost_rounds_down ProviderKindOpenAI {| promptMicroPer1K := 500; outputMicroPer1K := 1500 |} 1 1) as [_ H]; [reflexivity | lia | lia |]. exact H.
Defined.

Definition two_entries : list CachedCompletion := [
  {| Embedding := [f_of_int (-1)]; Prompt := "a"; Response := "A"; cc_Usage := no_usage; cc_ServedBy := ProviderKindStub |};
  {| Embedding := [f_one]; Prompt := "b"; Response := "B"; cc_Usage := no_usage; cc_ServedBy := ProviderKindStub |}].

Lemma nearest_is_nearest_witness : NearestByCosine [f_one] two_entries = Some (1%nat, f_one) /\
  forall k t, sims [f_one] two_entries !! k = Some t -> f_le t f_one = true.
Proof.
  assert (NearestByCosine [f_one] two_entries = Some (1%nat, f_one)) as Hn by (vm_compute; reflexivity). split; [exact Hn |].
  assert (Forall is_number (sims [f_one] two_entries)) as Hf by (vm_compute; repeat constructor; discriminate).
  pose proof (nearest_is_nearest [f_one] two_entries Hf) as Hs. rewrite Hn in Hs. exact (proj1 (proj2 Hs)).
Defined.

(** A line of OpenAI's that decodes as itself. *)
#[export] Instance raw_json : ChatJSON := {|
  decode_ollama s := Some {| ol_content := s; ol_done := false; ol_done_reason := ""; ol_prompt_eval_count := 0; ol_eval_count := 0 |};
  decode_openai s := Some {| ck_choices := [{| ch_content := s; ch_finish_reason := "" |}]; ck_usage := None |};
  decode_anthropic s := Some {| ae_type := "content_block_delta"; ae_message := None; ae_delta := Some (s, ""); ae_usage := None |} |}.

(** Half an answer of OpenAI's, then the connection breaks. *)
Lemma cut_answer_passes_for_whole_witness :
  openai_streamBody greeting None FinishReasonStop ["data: The answer is"] =
    [text_frame "The answer is"; end_frame (usage_of (promptTokenCount (Messages greeting)) 0) FinishReasonStop] /\
  ends_well (openai_streamBody greeting None FinishReasonStop ["data: The answer is"]).
Proof.
  split; [vm_compute; reflexivity |].
  apply (cut_answer_passes_for_whole greeting ["data: The answer is"] [] []); [| constructor | constructor].
  constructor; [| constructor]. intros data _ _. discriminate.
Defined.

(** Posts are counted; the first two are refused. *)
#[export] Instance counting_http : ChatHTTP Z := {|
  http_post _ _ n := (if n <? 2 then Err ConnRefused else Ok (200, ["The answer is"]), n + 1); wait_cancelled n := (false, n) |}.

Lemma cold_start_bounded_witness : (doWithRetry 3 greeting 0).2 = 3 /\ (doWithRetry 3 greeting 0).2 <= 0 + 1 + Z.of_nat 3.
Proof.
  split; [vm_compute; reflexivity |]. apply (cold_start_bounded (fun n => n) 3 greeting 0); [intros k r w | intros w]; reflexivity.
Defined.

Lemma wired_streams_conform_witness : exists ds w, Chat (openai (W := Z)) greeting 5 = (Ok ds, w) /\ conforms ds.
Proof.
  eexists _, _. split; [reflexivity |]. eapply (wired_streams_conform "key" "" openai greeting 5); [| reflexivity].
  unfold wired_providers, CloudProviders. cbn. right. left.
Defined.
End GateDemo.
